(* ===== verification/_CoqProject ===== *)
-Q . S2P
Prelude.v
JsMap.v
JsString.v
JsNumber.v
Json.v
JsConvert.v
Async.v
Queue.v
Ratio.v
TxTypes.v
ParserCore.v
ParserDex.v
Parser.v
WriteChain.v
Histories.v
PositionMap.v
Store.v
Stores.v
Risk.v
PumpPending.v
ActivityLog.v
State.v
Chain.v
ZeroPriority.v
JupiterSwap.v
MarketData.v
ByrealOps.v
ByrealOpen.v
ByrealAssets.v
Reconcile.v
Discipline.v
ByrealBounds.v
ByrealClose.v
CallRules.v
Share.v
ByrealDecrease.v
ByrealDeposit.v
ByrealSale.v
ReconcileScan.v
OrcaOps.v
OrcaOpen.v
OrcaAssets.v
PcsOps.v
PcsOpen.v
Legacy.v
MeteoraOps.v
MeteoraOpen.v
MeteoraAssets.v
DammOps.v
DammOpen.v
DammAssets.v
OtherRules.v
LegacyRules.v
LegacyClose.v
OtherClose.v
OtherReads.v
OtherDecrease.v
LegacyDecrease.v
OtherDeposit.v
LegacyDeposit.v
Methods.v
DryRun.v
ExecutorLock.v
Router.v
WebSocket.v
Monitor.v
Mirror.v
Signer.v
AutoClaim.v
ClaimRules.v
AssetTrend.v
AssetTrendRules.v
Dac.v
DacRules.v
Gate.v
GateRules.v
Settings.v
SettingsRules.v
Notify.v
Actions.v
