(* ===== verification/Prelude.v ===== *)
(** * A verification development for the CLMM copy-trading bot

    The program copies the liquidity positions of target wallets on Solana.  A
    WebSocket subscription reports the targets' transactions; each is parsed
    into events, queued, and mirrored by the executor of its exchange; the
    state that must survive a restart is written through to Postgres; the
    signature comes from a separate signer process with its own policy.

    ** Parts and files

    Language and generic lemmas:
    - [Prelude]: exceptions ([outcome], [let!]), array functions, tactics and
      the hint database [copybot];
    - [JsMap]: [Map], plain objects used as maps, and [Set], in insertion order;
    - [JsString], [JsNumber]: strings, the two regular expressions, IEEE doubles
      computed exactly, [BigInt], decimal printing, and the interface [BNLib]
      of the bn.js package with its laws [BNLaws] and the model [Z_BN];
    - [Json]: JSON values and [JSON.parse];
    - [Async]: asynchronous code as a free monad of calls that an environment
      answers, with its program logic ([wp]), disciplines ([always]), costs
      ([costs]) and the interleavings of activations ([World]); the module [AsyncMore]
      adds programs over other calls ([interp], [embed]) and the flag that one
      activation at a time may hold ([flag_exclusion]);
    - [JsConvert]: [Number], [Set] of any values, [encodeURIComponent], and the
      module [Calendar]: dates, ISO weeks and the schedules of the timers.

    From a notification to an action:
    - [TxTypes], [ParserCore], [ParserDex], [Parser]: [src/monitor/parser.ts],
      one definition per function: discriminator tables, balance scans, the five
      exchange parsers, the swap detection and [parseTransaction];
    - [WebSocket]: [src/monitor/websocket.ts], the subscriptions and their
      reconnects over the live listeners of every connection;
    - [Monitor]: the monitor callback, the queued job and the drawdown callback
      of [main] in [src/index.ts];
    - [Queue]: [src/executor/queue.ts], the two-priority queue with [drain] and
      [executeNow], as a transition system of the event loop;
    - [Router]: [handleEvent] of [src/index.ts], one definition per arm, in a
      monad of state, trace and exceptions, over the interface [Executors];
    - [Ratio]: [src/utils/ratio.ts], the share of a trade that is mirrored;
    - [Risk]: the loss-streak cooldown and blacklist of
      [src/executor/byreal-position.ts] with [src/state/token-pnl-store.ts].

    The Byreal executor ([src/executor/byreal-position.ts]) and what it calls:
    - [State]: the record [Bot] of everything the process keeps, with its
      setters;
    - [Chain]: the calls of the SDK, the connection, the signer process and
      HTTP, the error classes, the lock, the retries, the readers and the
      transaction builder;
    - [JupiterSwap]: [src/executor/jupiter-swap.ts], [src/utils/jupiter-api.ts];
    - [MarketData]: [src/monitor/pool-tvl.ts] and [jupiter-tvl.ts];
    - [ByrealOps]: closing, decreasing, selling, pending swaps, fees, startup;
    - [ByrealOpen]: opening and increasing, with the filters and the funding;
    - [ByrealAssets]: the listings of the wallet and of the positions, with
      their caches;
    - [Reconcile]: the scan for orphans, their close and the NFT audit, with
      [reconcile-status.ts], [reconcile-log.ts] and [byreal-nft-audit.ts].
    And what is proved of it: [Discipline] (which calls and writes each step
    makes), [ZeroPriority] (the built transactions), [ByrealBounds] (how many
    calls), [ByrealClose], [CallRules] (calls judged by the readings before
    them), [Share] (our part of what a target takes out), [ByrealDecrease],
    [ByrealDeposit], [ByrealSale], [ReconcileScan]; [Mirror] makes the executor
    an instance of the router's interface and follows a close end to end.

    The executors of four more exchanges, over the same [Bot] and [Chain]:
    - [OrcaOps], [OrcaOpen], [OrcaAssets]: [src/executor/orca-position.ts];
    - [PcsOps], [PcsOpen]: [src/executor/pancakeswap-position.ts];
    - [Legacy]: the helpers that the two Meteora executors share word for word
      (sending legacy transactions, the frames of an open, an addition, a
      removal and a close, the purchases, the reconciliation);
    - [MeteoraOps], [MeteoraOpen], [MeteoraAssets]: the rest of
      [src/executor/meteora-position.ts];
    - [DammOps], [DammOpen], [DammAssets]: the rest of
      [src/executor/dammv2-position.ts].
    And what is proved of them: [OtherRules], [LegacyRules] (the calls and writes
    of each step), [OtherReads] (the readings), [OtherClose], [OtherDecrease],
    [OtherDeposit] for Orca and PancakeSwap, and [LegacyClose],
    [LegacyDecrease], [LegacyDeposit] for Meteora and DAMM v2.

    The five together: [Methods], every public method and background task of
    each, as one type with its program; [DryRun], what a dry run does not do;
    [ExecutorLock], the lock of each executor, over all interleavings of the
    methods of the five.

    State that survives a restart:
    - [WriteChain]: [src/state/write-chain.ts], ordered writes with retries; the
      module [Journal]: a memory written through to a table by a chain;
    - [PositionMap]: [src/state/position-map.ts] (module [PositionMap]) and
      [src/state/repo/positions.ts] (module [Repo]), with the position cap;
    - [Store], [Stores]: the keyed stores ([pending-swaps-store.ts],
      [opened-referers-store.ts]) and the duplicate rule of
      [src/utils/byreal-allow-same-tick.ts];
    - [ActivityLog]: [src/state/activity-log.ts] and the statements of
      [src/state/repo/events.ts] and [swapHistory.ts];
    - [PumpPending]: [src/state/pump-pending.ts], the approval of new tokens: a
      heap of entries shared by the map and the suspended polls, with the gate
      of [copyOpenPosition] in [src/executor/byreal-position.ts].

    The scheduled jobs:
    - [AutoClaim]: [src/executor/auto-claim.ts], the weekly copy bonus, the LP
      fees and rewards, the history and the timer; [ClaimRules] what is proved
      of them;
    - [Dac], [DacRules]: [src/executor/dac.ts], the daily conversion, with its
      settings ([POST /api/dac/config] of [src/dashboard/server.ts]);
    - [AssetTrend], [AssetTrendRules]: [src/dashboard/asset-trend.ts] with the
      SOL price of [server.ts] and [src/state/portfolio-state.ts];
    - [Histories]: [src/state/repo/histories.ts] and, in the module [Snapshots],
      [snapshots.ts].

    The dashboard ([src/dashboard/server.ts]):
    - [Gate], [GateRules]: the HTTP listener up to the API, the rate limiter,
      the login log ([src/state/repo/authLog.ts]) and the WebSocket feed;
    - [Settings], [SettingsRules]: [src/config.ts] and [PATCH /api/config]; the
      module [EnvFile]: [src/utils/env.ts];
    - [Notify]: [src/discord/notify.ts], the text of errors, the notices and
      their aggregation over a heap of pending objects; its modules [PumpQueue],
      the queue of approval requests of [server.ts], and [Health]:
      [src/dashboard/health.ts];
    - [Actions]: the handlers of [server.ts] that open, close and sell, over the
      queue, and their calls performed by [Methods] (module [Actions]); amounts,
      statistics and pages ([Views]), the cache of token names ([Tokens]), the
      restart and the update ([System]).

    The signer:
    - [Signer]: [signer/policy.ts], [signer/alt-resolver.ts], [handleRequest]
      and the socket framing of [signer/index.ts], with the client's side in
      [src/utils/wallet.ts].

    [Monitor.processTx] runs [Parser.parseTransaction] and [Router.handleEvents];
    the router reads and writes a [Bot], the record of the stores and of the
    executors' fields; every store is a memory part and a chain from
    [WriteChain] with the queued statements of its table.  A method of the
    executor is a [Prog] over the same [Bot]: between two calls it runs to
    completion, at a call the environment answers and may change the [Bot], as
    other activations do.

    ** What is proved

    - Router: one event leads to at most one executor call and one activity
      entry, and a call only under the guards of its arm; a mapped position is
      always asked to close; a mirrored sale is capped.  These hold for every
      instance of [Executors], by a weakest-precondition calculus ([wp],
      [wp_step]) that runs each arm symbolically.
    - The Byreal executor, against any answers of the chain, the SDK, Jupiter
      and the signer: its methods, the close of an orphan aside, never sign or
      send at the same time, and every one ends after a bounded number of calls;
      a mapping is forgotten only for a close that was sent and read back without
      an error, and when all goes well it is; an open stays within the target's
      scaled amounts and is recorded exactly when it was sent; an increase adds what is missing and a decrease
      takes our share, with the readings that justify each; a sale stays within
      the balance and the cap; no transaction bids a priority fee; the scan for
      orphans goes by what it saw.  And where it falls short: a failed decrease
      is lost, an expired blockhash counts as a position that is gone, the close
      of an orphan ignores the lock.  The listings never fail nor poison their
      caches, and the one of the positions is the sum mint by mint.
    - The other four executors, likewise: a close is sent, read back and only
      then forgotten; a decrease takes our share (in basis points of the total
      on Meteora); opens and increases ask for at most the scaled amounts (on
      Orca, of a side on which something is wanted), and the instructions of a
      wide Meteora position cover its range.  On Orca and DAMM v2 a position that
      fails to be read once counts as gone.
    - The five executors: a dry run neither signs nor sends, except in the
      removals of the two Meteora executors, which do not look at the setting.
    - From end to end: the notification of a transaction that closes a position
      ends, when the chain cooperates, with the close of our position sent and
      read back, the position forgotten, and nothing else dropped.
    - Market data: the page loop ends with enough fuel, a batch answers each
      request once.
    - WebSocket: exactly the configured wallets are subscribed, each once; at
      most one reconnect at a time; silence forces one that restores every
      subscription; what a resubscription during a reconnect leaves behind, and
      that a failed one is not retried.
    - Monitor: a Byreal close is followed from the logs to the executor call;
      the pre-queue filter drops nothing the parser would report; duplicate
      signatures are refused; the drawdown pause comes exactly after two
      confirming snapshots, stays, and blocks opens and increases.
    - Parser: every event is borne out by the fetched transaction; the shape of
      the result; Byreal closes are complete; received amounts are exact.
    - Queue: mutual exclusion, first-in first-out without loss, start
      discipline, progress to an empty queue, the exact meaning of the
      high-priority snapshot, and what a null rejection does.
    - State: the chain applies writes in order and drops a failing one after
      bounded work; positions, feeds and stores are restored by a restart under
      transient failures; the repository answers as the map does; pending
      amounts refine integer totals; a referer blocks until released; cooldowns
      follow losing streaks; what a lost commit acknowledgement does to the
      event feed.
    - Approvals: decisions survive a restart under any interleaving of polls; a
      poll rejects exactly what has expired; the gate holds the open back unless
      the first pump token of the pool is approved; what happens to a token detected again while a poll waits.
    - Scheduled jobs: no bonus is ordered twice in a claim, and the loop that the
      source does not bound ends; fees and rewards are claimed once per position
      and the run over HTTP refines the one over its dependencies; the timer
      fires on the next Tuesday; at most one daily conversion at a time, what it
      may swap and transfer, and what its record rests on; one collection of the
      trend at a time; the histories survive a restart, and the three tiers the
      first one.
    - Dashboard: nothing reaches the API, and no log line a socket, without the
      password; a locked address stays out until its lock ends, unless it presents
      the password over a connection from before, and by HTTP alone none is ever
      locked; the login log survives a restart; after an accepted change of the
      settings the next start reads every setting as it is in force, from a plain
      environment file that assigns each once at most.
    - Notifications: every notice is in exactly one posting or still pending, and
      a flush posts all; two postings of a key are ten seconds apart; approval
      requests go out in order, one at a time; health is answered in a second.
    - Handlers: a batch of closes answers for every position once, whatever each
      does; a dry run holds for every button; an update restarts only what was
      built; the statistics are counts of the feed, the pages its partition, the
      text of an amount its value; resolving token names is bounded and survives
      a restart.  A close on an exchange that is not enabled is handed to the
      Byreal executor, which may forget the mapping.
    - Signer: a signature is given only when the policy holds, stated clause by
      clause on the decoded transaction, and is given when code and documents
      agree that it may be; what the policy does not look at; the framing never
      delivers anything but the requests sent, in order, all of them when no chunk
      has bytes of two, and stalls on two.

    ** Conventions

    A public key is its base58 text. [Date.now()] and database clocks are
    arguments. JavaScript runs a synchronous section to completion, so the
    interleavings are sequences of sections: the transitions of [Queue], the
    [Work] events of the stores, the polls of [PumpPending], the delays of
    [WebSocket], the arbitrary state an awaited executor operation returns. A
    database write is attempted as an oracle says: applied, failed before taking
    effect, or failed after; [recovers] says one of the four attempts is
    applied, [clean] that no attempt fails after taking effect. Recursion is
    structural except where fuel is explicit: retries and attempts count down
    from the code's bounds; [fetch_pages] is given one more than the pages the
    server has ([page_fuel_suffices]); [shortest_digits] and [bytes_of] carry
    fuel above the number of digits they produce, [Notify.hex_digits] the 256
    hexadecimal digits of the largest double. [queue_drains] proves progress
    by a decreasing measure, without fuel.

    Parameters, with instances used in concrete runs: [Bs58] ([base58]), [BNLib]
    ([Z_BN]), the fetch of a transaction, the database oracle, [Executors]
    ([demo_executors]), the reader of the environment file ([EnvFile.Dotenv],
    with its documented rule for plain files; [reads_last]), and the synchronous functions of web3.js, one class
    [Web3] for the signer and one for the executor ([demo_web3] in both), and of
    the SDKs of Byreal's pools ([Clmm], [demo_clmm]), Orca ([Whirlpools],
    [demo_whirlpools]) and DAMM v2 ([CpAmm], [demo_cpamm]). The executor's
    environment [Env] answers its calls ([demo_env]); the generation of a key
    pair, synchronous in the code, is one of them, for its result is not
    determined.

    ** Not modelled

    The constructors of the executors, the switch of their connection and the
    patches PancakeSwap's makes to its SDK and its connection
    ([patchSdkForPcs], [patchConnectionChunking]); the account layouts and the
    liquidity mathematics of the SDK (the parameter [Clmm] of [ByrealAssets]);
    the handlers of the dashboard that only list what other parts hold, with
    token names, and its upgrade to the signer service (files of keys and system
    services); what a failed command of an update printed to its error stream;
    the edit of the Discord message of an approval; the settings that are read
    once from the environment and never changed (URLs, ports, program ids);
    metrics, the database pool, the signer's key file and unlock page, JSON and
    base64 at the signer's boundary, log lines, and the timestamps of activity
    entries; the scripts
    that migrate files or generate fixtures. *)

From Stdlib Require Export ZArith Lia.
From stdpp Require Export base tactics list strings gmap option.

#[export] Set Default Goal Selector "!".
#[export] Set Warnings "-clear-no-such-hyp".

(** ** Exceptions

    A JavaScript call either returns a value or throws.  The payload of the
    exception is the [message] of the error object. *)

Inductive outcome (A : Type) : Type :=
| Ret (a : A)
| Throw (message : string).

Arguments Ret {A} _.
Arguments Throw {A} _.

Definition obind {A B} (m : outcome A) (k : A -> outcome B) : outcome B :=
  match m with
  | Ret a => k a
  | Throw e => Throw e
  end.

Declare Scope js_scope.
Delimit Scope js_scope with js.

Notation "'let!' x ':=' m 'in' k" := (obind m (fun x => k))
  (at level 10, x binder, m at level 100, k at level 200,
   format "'let!'  x  ':='  m  'in' '//' k") : js_scope.

Open Scope js_scope.

(** Run [f] over a list from left to right, stopping at the first throw. *)
Fixpoint omapM {A B} (f : A -> outcome B) (l : list A) : outcome (list B) :=
  match l with
  | [] => Ret []
  | x :: l' =>
      let! y := f x in
      let! ys := omapM f l' in
      Ret (y :: ys)
  end.

(** ** Truthiness of the values the program tests *)

Class Truthy (A : Type) := truthy : A -> bool.

#[export] Instance truthy_string : Truthy string :=
  fun s => match s with EmptyString => false | _ => true end.

#[export] Instance truthy_option `{Truthy A} : Truthy (option A) :=
  fun o => match o with Some a => truthy a | None => false end.

(** [a ?? b] *)
Definition nullish {A} (o : option A) (d : A) : A := default d o.

(** [a || b] on an optional value that can also be falsy, such as a string. *)
Definition or_else `{Truthy A} (o : option A) (d : A) : A :=
  match o with
  | Some a => if truthy a then a else d
  | None => d
  end.

(** ** Generic lemmas *)

Create HintDb copybot.

(** [xs.some(p)] *)
Definition some {A} (p : A -> bool) (l : list A) : bool := existsb p l.

Lemma some_true {A} (p : A -> bool) (l : list A) :
  some p l = true <-> exists x, x ∈ l /\ p x = true.
Proof.
  unfold some. rewrite existsb_exists.
  setoid_rewrite <- list_elem_of_In. done.
Qed.

Lemma some_false {A} (p : A -> bool) (l : list A) :
  some p l = false <-> (forall x, x ∈ l -> p x = false).
Proof.
  induction l as [|y l IH]; simpl.
  - split; [intros _ x Hx; set_solver | done].
  - rewrite orb_false_iff, IH. split.
    + intros [Hy Hl] x Hx%elem_of_cons. naive_solver.
    + intros H. split; [apply H; set_solver | intros x Hx; apply H; set_solver].
Qed.

(** [xs.filter(p)] for a boolean test, in Stdlib's sense. *)
Definition keep {A} (p : A -> bool) (l : list A) : list A := List.filter p l.

Lemma elem_of_keep {A} (p : A -> bool) (l : list A) x :
  x ∈ keep p l <-> x ∈ l /\ p x = true.
Proof. unfold keep. rewrite !list_elem_of_In, filter_In. done. Qed.

Lemma keep_app {A} (p : A -> bool) (l k : list A) :
  keep p (l ++ k) = keep p l ++ keep p k.
Proof. apply List.filter_app. Qed.

(** [xs.flatMap(f)] *)
Definition flatMap {A B} (f : A -> list B) (l : list A) : list B := List.flat_map f l.

Lemma elem_of_flatMap {A B} (f : A -> list B) (l : list A) y :
  y ∈ flatMap f l <-> exists x, x ∈ l /\ y ∈ f x.
Proof.
  unfold flatMap. rewrite list_elem_of_In, in_flat_map.
  setoid_rewrite <- list_elem_of_In. done.
Qed.

(** The first element that satisfies a test ([xs.find(p)], or a loop that
    breaks at its first hit). *)
Definition find_first {A} (p : A -> bool) (l : list A) : option A := List.find p l.

Lemma find_first_Some {A} (p : A -> bool) (l : list A) x :
  find_first p l = Some x -> x ∈ l /\ p x = true.
Proof.
  intros H%List.find_some. rewrite list_elem_of_In. done.
Qed.

Lemma find_first_None {A} (p : A -> bool) (l : list A) :
  find_first p l = None <-> forall x, x ∈ l -> p x = false.
Proof.
  split.
  - intros H x Hx%list_elem_of_In. by eapply List.find_none.
  - induction l as [|y l IH]; simpl; [done|].
    intros H. rewrite (H y) by set_solver. apply IH. set_solver.
Qed.

Lemma obind_Ret {A B} (m : outcome A) (k : A -> outcome B) b :
  obind m k = Ret b <-> exists a, m = Ret a /\ k a = Ret b.
Proof. destruct m; naive_solver. Qed.

Lemma omapM_Ret {A B} (f : A -> outcome B) (l : list A) ys :
  omapM f l = Ret ys -> Forall2 (fun x y => f x = Ret y) l ys.
Proof.
  revert ys. induction l as [|x l IH]; intros ys H; simpl in H.
  - injection H as <-. constructor.
  - apply obind_Ret in H as (y & Hy & H).
    apply obind_Ret in H as (ys' & Hys & H). injection H as <-.
    constructor; auto.
Qed.

Lemma omapM_pure {A B} (f : A -> outcome B) (g : A -> B) (l : list A) :
  (forall x, x ∈ l -> f x = Ret (g x)) -> omapM f l = Ret (map g l).
Proof.
  induction l as [|x l IH]; intros H; simpl; [done|].
  rewrite (H x) by set_solver. simpl. rewrite IH by set_solver. done.
Qed.

Lemma omap_id_map {A B} (g : A -> option B) (l : list A) : omap id (map g l) = omap g l.
Proof. induction l as [|x l IH]; csimpl; [done|]. rewrite IH. by destruct (g x). Qed.

(** ** Tactics

    [breakH H] splits the conditionals a hypothesis is stuck on and drops the
    impossible branches; [breakG] does the same for the goal. *)

Ltac break_term t :=
  match t with
  | context [match ?x with _ => _ end] =>
      first [ break_term x | destruct x eqn:? ]
  | context [if ?x then _ else _] =>
      first [ break_term x | destruct x eqn:? ]
  end.

Ltac breakH H :=
  repeat (let t := type of H in break_term t; simplify_eq/=; try done).

Ltac breakG :=
  repeat match goal with
  | |- ?t => break_term t; simplify_eq/=; try done
  end.

(** Searching, filtering and projecting commute with a projection. *)
Lemma find_first_fmap {A B} (f : A -> B) (p : B -> bool) l :
  find_first p (f <$> l) = f <$> find_first (fun x => p (f x)) l.
Proof. unfold find_first. induction l as [|x l IH]; simpl; [done|]. by destruct (p (f x)). Qed.

Lemma keep_fmap {A B} (f : A -> B) (p : B -> bool) l : keep p (f <$> l) = f <$> keep (fun x => p (f x)) l.
Proof.
  induction l as [|x l IH]; [done|]. unfold keep in *. cbn.
  destruct (p (f x)); cbn; by f_equal.
Qed.

Lemma some_fmap {A B} (f : A -> B) (p : B -> bool) l : some p (f <$> l) = some (fun x => p (f x)) l.
Proof. induction l as [|x l IH]; [done|]. unfold some in *. cbn. by f_equal. Qed.

(** Turn boolean facts in the context into propositions. *)
Ltac boolP :=
  repeat match goal with
  | H : _ && _ = true |- _ => apply andb_true_iff in H; destruct H
  | H : _ || _ = false |- _ => apply orb_false_iff in H; destruct H
  | H : negb _ = true |- _ => apply negb_true_iff in H
  | H : negb _ = false |- _ => apply negb_false_iff in H
  | H : bool_decide _ = true |- _ => apply bool_decide_eq_true in H
  | H : bool_decide _ = false |- _ => apply bool_decide_eq_false in H
  | H : (_ <? _)%Z = true |- _ => apply Z.ltb_lt in H
  | H : (_ <? _)%Z = false |- _ => apply Z.ltb_ge in H
  | H : (_ <=? _)%Z = true |- _ => apply Z.leb_le in H
  | H : (_ <=? _)%Z = false |- _ => apply Z.leb_gt in H
  | H : (_ =? _)%Z = true |- _ => apply Z.eqb_eq in H
  | H : (_ =? _)%Z = false |- _ => apply Z.eqb_neq in H
  end.

#[export] Hint Resolve elem_of_keep elem_of_flatMap : copybot.
