(* ===== verification/JsMap.v ===== *)
(** * JavaScript [Map], plain objects used as maps, and [Set]

    A [Map] iterates in insertion order and several operations of the program
    depend on that order (the first match of a reverse lookup, the oldest key
    evicted from a bounded set), so a map is an association list in insertion
    order.  [jset] overwrites in place and appends a new key; [jdel] removes
    the key.  [wf_map] is the invariant that keys are distinct, and [to_gmap]
    is the order-forgetting view on which the maps are compared with database
    tables: the operations are shown to refine [gmap]'s. *)

From S2P Require Import Prelude.

Section JsMap.
Context {K : Type} `{Countable K} {V : Type}.
Implicit Types (k : K) (v : V) (m : list (K * V)).

Fixpoint jget k m : option V :=
  match m with
  | [] => None
  | (k', v') :: m' => if decide (k = k') then Some v' else jget k m'
  end.

Definition jhas k m : bool := bool_decide (is_Some (jget k m)).

Fixpoint jset k v m : list (K * V) :=
  match m with
  | [] => [(k, v)]
  | (k', v') :: m' => if decide (k = k') then (k', v) :: m' else (k', v') :: jset k v m'
  end.

Fixpoint jdel k m : list (K * V) :=
  match m with
  | [] => []
  | (k', v') :: m' => if decide (k = k') then m' else (k', v') :: jdel k m'
  end.

Definition jkeys m : list K := m.*1.

Definition jvalues m : list V := m.*2.

(** [new Map(entries)] *)
Definition jmap_of (es : list (K * V)) : list (K * V) :=
  foldl (fun m e => jset e.1 e.2 m) [] es.

Definition wf_map m : Prop := NoDup m.*1.

Definition to_gmap m : gmap K V := list_to_map m.

(** ** Lookup laws *)

Lemma jget_jset k v m : jget k (jset k v m) = Some v.
Proof.
  induction m as [|[k' v'] m IH]; simpl.
  - by rewrite decide_True.
  - case_decide; subst; simpl; by repeat case_decide.
Qed.

Lemma jget_jset_ne k k' v m : k ≠ k' -> jget k' (jset k v m) = jget k' m.
Proof.
  intros Hne. induction m as [|[k2 v2] m IH]; simpl.
  - by rewrite decide_False.
  - case_decide; subst; simpl; by repeat case_decide.
Qed.

Lemma jget_None_keys k m : jget k m = None <-> k ∉ m.*1.
Proof.
  induction m as [|[k' v'] m IH]; simpl.
  - set_solver.
  - case_decide; subst; set_solver.
Qed.

Lemma jget_Some_elem k v m : jget k m = Some v -> (k, v) ∈ m.
Proof.
  induction m as [|[k' v'] m IH]; simpl; [done|].
  case_decide; subst; [intros [= <-]; left | right; auto].
Qed.

Lemma elem_jget k v m : wf_map m -> (k, v) ∈ m -> jget k m = Some v.
Proof.
  unfold wf_map. induction m as [|[k' v'] m IH]; simpl; [set_solver|].
  intros [Hk Hm]%list.NoDup_cons [[= -> ->]|Hin]%elem_of_cons.
  - by rewrite decide_True.
  - rewrite decide_False; [auto|]. intros ->.
    apply Hk. apply list_elem_of_fmap. by exists (k', v).
Qed.

Lemma jget_jdel k m : wf_map m -> jget k (jdel k m) = None.
Proof.
  unfold wf_map. induction m as [|[k' v'] m IH]; simpl; [done|].
  intros [Hk Hm]%list.NoDup_cons. case_decide; subst; simpl.
  - by apply jget_None_keys.
  - rewrite decide_False by done. auto.
Qed.

Lemma jget_jdel_ne k k' m : k ≠ k' -> jget k' (jdel k m) = jget k' m.
Proof.
  intros Hne. induction m as [|[k2 v2] m IH]; simpl; [done|].
  case_decide; subst; simpl; by repeat case_decide.
Qed.

(** ** Keys and well-formedness *)

Lemma jset_keys_old k v m : k ∈ m.*1 -> (jset k v m).*1 = m.*1.
Proof.
  induction m as [|[k' v'] m IH]; simpl; [set_solver|].
  intros Hin. case_decide; subst; simpl; [done|].
  f_equal. apply IH. set_solver.
Qed.

Lemma jset_new k v m : k ∉ m.*1 -> jset k v m = m ++ [(k, v)].
Proof.
  induction m as [|[k' v'] m IH]; simpl; [done|].
  intros Hin. rewrite decide_False by set_solver. rewrite IH; set_solver.
Qed.

Lemma elem_of_jset_keys k k' v m : k' ∈ (jset k v m).*1 <-> k' = k \/ k' ∈ m.*1.
Proof.
  destruct (decide (k ∈ m.*1)) as [Hin|Hin].
  - rewrite jset_keys_old by done. set_solver.
  - rewrite jset_new, fmap_app by done. set_solver.
Qed.

Lemma wf_jset k v m : wf_map m -> wf_map (jset k v m).
Proof.
  unfold wf_map. destruct (decide (k ∈ m.*1)) as [Hin|Hin].
  - by rewrite jset_keys_old.
  - intros Hm. rewrite jset_new, fmap_app by done. simpl.
    apply list.NoDup_app. split_and!; [done | set_solver | apply NoDup_singleton].
Qed.

Lemma jdel_sublist k m : sublist (jdel k m).*1 m.*1.
Proof.
  induction m as [|[k' v'] m IH]; simpl; [constructor|].
  case_decide; by constructor.
Qed.

Lemma wf_jdel k m : wf_map m -> wf_map (jdel k m).
Proof.
  unfold wf_map. intros Hm. eapply sublist_NoDup; [done|].
  apply jdel_sublist.
Qed.

Lemma length_jdel k v m : jget k m = Some v -> S (length (jdel k m)) = length m.
Proof.
  induction m as [|[k' v'] m IH]; simpl; [done|]. case_decide; [done|].
  intros E. simpl. by rewrite IH.
Qed.

Lemma wf_nil : wf_map [].
Proof. apply NoDup_nil_2. Qed.

Lemma wf_foldl_jset es m : wf_map m -> wf_map (foldl (fun m e => jset e.1 e.2 m) m es).
Proof. revert m. induction es; simpl; eauto using wf_jset. Qed.

Lemma wf_jmap_of es : wf_map (jmap_of es).
Proof. apply wf_foldl_jset, wf_nil. Qed.

(** ** The order-forgetting view refines [gmap] *)

Lemma lookup_to_gmap k m : to_gmap m !! k = jget k m.
Proof.
  unfold to_gmap. induction m as [|[k' v'] m IH]; simpl.
  - apply lookup_empty.
  - rewrite lookup_insert. repeat case_decide; subst; done.
Qed.

Lemma to_gmap_jset k v m : to_gmap (jset k v m) = <[k := v]> (to_gmap m).
Proof.
  apply map_eq. intros i. rewrite lookup_to_gmap, lookup_insert, lookup_to_gmap.
  case_decide; subst; [apply jget_jset | by apply jget_jset_ne].
Qed.

Lemma to_gmap_jdel k m : wf_map m -> to_gmap (jdel k m) = delete k (to_gmap m).
Proof.
  intros Hm. apply map_eq. intros i.
  rewrite lookup_to_gmap, lookup_delete, lookup_to_gmap.
  case_decide; subst; [by apply jget_jdel | by apply jget_jdel_ne].
Qed.

Lemma foldl_jset_gmap es m :
  to_gmap (foldl (fun m e => jset e.1 e.2 m) m es)
  = foldl (fun g e => <[e.1 := e.2]> g) (to_gmap m) es.
Proof.
  revert m. induction es as [|e es IH]; intros m; simpl; [done|].
  by rewrite IH, to_gmap_jset.
Qed.

Lemma foldl_jset_fresh es m :
  NoDup (m.*1 ++ es.*1) -> foldl (fun m e => jset e.1 e.2 m) m es = m ++ es.
Proof.
  revert m. induction es as [|[k v] es IH]; intros m Hnd; simpl; [by rewrite app_nil_r|].
  simpl in Hnd. apply list.NoDup_app in Hnd as (Hm & Hdis & [Hk Hes]%list.NoDup_cons).
  rewrite jset_new by (intros Hin; apply (Hdis k Hin); set_solver).
  rewrite IH; [by rewrite <- app_assoc|].
  rewrite fmap_app. simpl. apply list.NoDup_app. split_and!; [| set_solver |done].
  apply list.NoDup_app. split_and!; [done|set_solver|apply NoDup_singleton].
Qed.

Lemma jmap_of_fresh es : NoDup es.*1 -> jmap_of es = es.
Proof. intros Hes. unfold jmap_of. by rewrite foldl_jset_fresh. Qed.

End JsMap.

(** ** Sets *)

Section JsSet.
Context {A : Type} `{EqDecision A}.
Implicit Types (x : A) (s : list A).

Definition shas x s : bool := bool_decide (x ∈ s).

(** [s.add(x)]: a member keeps its place, a new element goes last. *)
Definition sadd x s : list A := if shas x s then s else s ++ [x].

Definition sdel x s : list A := List.filter (fun y => negb (bool_decide (y = x))) s.

(** [new Set(xs)] *)
Definition set_of (xs : list A) : list A := foldl (fun s x => sadd x s) [] xs.

Lemma shas_true x s : shas x s = true <-> x ∈ s.
Proof. apply bool_decide_eq_true. Qed.

Lemma shas_false x s : shas x s = false <-> x ∉ s.
Proof. apply bool_decide_eq_false. Qed.

Lemma elem_of_sadd x y s : y ∈ sadd x s <-> y = x \/ y ∈ s.
Proof. unfold sadd. destruct (shas x s) eqn:E; [apply shas_true in E|]; set_solver. Qed.

Lemma elem_of_sdel x y s : y ∈ sdel x s <-> y ≠ x /\ y ∈ s.
Proof.
  unfold sdel. rewrite !list_elem_of_In, filter_In, negb_true_iff, bool_decide_eq_false.
  naive_solver.
Qed.

Lemma NoDup_sadd x s : NoDup s -> NoDup (sadd x s).
Proof.
  unfold sadd. destruct (shas x s) eqn:E; [done|]. apply shas_false in E.
  intros Hs. apply list.NoDup_app. split_and!; [done|set_solver|apply NoDup_singleton].
Qed.

Lemma set_of_acc xs s :
  NoDup s ->
  NoDup (foldl (fun s x => sadd x s) s xs)
  /\ forall y, y ∈ foldl (fun s x => sadd x s) s xs <-> y ∈ s \/ y ∈ xs.
Proof.
  revert s. induction xs as [|x xs IH]; intros s Hs; simpl; [set_solver|].
  destruct (IH (sadd x s) (NoDup_sadd x s Hs)) as [Hn He].
  split; [done|]. intros y. rewrite He, elem_of_sadd. set_solver.
Qed.

Lemma NoDup_set_of xs : NoDup (set_of xs).
Proof. apply set_of_acc, NoDup_nil_2. Qed.

Lemma foldl_sadd_fresh xs s : NoDup (s ++ xs) -> foldl (fun s x => sadd x s) s xs = s ++ xs.
Proof.
  revert s. induction xs as [|x xs IH]; intros s Hnd; simpl; [by rewrite app_nil_r|].
  assert (x ∉ s) as Hx by (apply list.NoDup_app in Hnd as (_ & Hd & _); intros H1; apply (Hd x H1); left).
  unfold sadd at 2. rewrite (proj2 (shas_false x s) Hx).
  rewrite IH by by rewrite <- app_assoc. by rewrite <- app_assoc.
Qed.

Lemma set_of_NoDup xs : NoDup xs -> set_of xs = xs.
Proof. intros H. unfold set_of. by rewrite foldl_sadd_fresh. Qed.

Lemma elem_of_set_of xs y : y ∈ set_of xs <-> y ∈ xs.
Proof.
  unfold set_of. destruct (set_of_acc xs [] (NoDup_nil_2 (A:=A))) as [_ He].
  rewrite He. set_solver.
Qed.

End JsSet.

#[export] Hint Resolve wf_jset wf_jdel wf_nil wf_jmap_of NoDup_sadd NoDup_set_of : copybot.
