(* ===== verification/JsString.v ===== *)
(** * JavaScript strings, as far as the program uses them

    Addresses, log lines, discriminators and configuration values are ASCII,
    so a string is a list of bytes ([String.string]); [trim] removes the ASCII
    white space of ECMAScript's [TrimString].  The two regular expressions of
    the program that extract text ([/referer_position=([A-Za-z0-9]+)/] and
    [/Program (\w{32,44}) invoke/]) are matched leftmost, with the greedy run of
    the character class; both are written as executable searches. *)

From S2P Require Import Prelude.
Open Scope string_scope.

Definition code (c : Ascii.ascii) : nat := Ascii.nat_of_ascii c.

Definition is_digit (c : Ascii.ascii) : bool :=
  (48 <=? code c)%nat && (code c <=? 57)%nat.
Definition is_upper (c : Ascii.ascii) : bool :=
  (65 <=? code c)%nat && (code c <=? 90)%nat.
Definition is_lower (c : Ascii.ascii) : bool :=
  (97 <=? code c)%nat && (code c <=? 122)%nat.
Definition is_alnum (c : Ascii.ascii) : bool := is_digit c || is_upper c || is_lower c.
(** [\w] *)
Definition is_word (c : Ascii.ascii) : bool := is_alnum c || (code c =? 95)%nat.
(** ASCII white space and line terminators *)
Definition is_white (c : Ascii.ascii) : bool :=
  ((9 <=? code c)%nat && (code c <=? 13)%nat) || (code c =? 32)%nat.

(** [s.toLowerCase()] on ASCII *)
Fixpoint toLowerCase (s : string) : string :=
  match s with
  | EmptyString => EmptyString
  | String c s' => String (if is_upper c then Ascii.ascii_of_nat (code c + 32) else c) (toLowerCase s')
  end.

Definition startsWith (s pre : string) : bool := String.prefix pre s.
Arguments startsWith : simpl never.

(** [s.includes(needle)] *)
Fixpoint includes (s needle : string) : bool :=
  startsWith s needle
  || match s with
     | EmptyString => false
     | String _ s' => includes s' needle
     end.

(** [s.split(sep)] for a one-character separator *)
Fixpoint split_on (sep : Ascii.ascii) (s : string) : list string :=
  match s with
  | EmptyString => [""]
  | String c s' =>
      if decide (c = sep) then "" :: split_on sep s'
      else match split_on sep s' with
           | [] => [String c ""]
           | w :: ws => String c w :: ws
           end
  end.

(** [xs.join(sep)] *)
Definition join (sep : string) (xs : list string) : string := String.concat sep xs.

Fixpoint trimStart (s : string) : string :=
  match s with
  | String c s' => if is_white c then trimStart s' else s
  | EmptyString => ""
  end.

Fixpoint trimEnd (s : string) : string :=
  match s with
  | String c s' =>
      let r := trimEnd s' in
      match r with
      | EmptyString => if is_white c then "" else String c ""
      | _ => String c r
      end
  | EmptyString => ""
  end.

Definition trim (s : string) : string := trimEnd (trimStart s).

Fixpoint all_chars (p : Ascii.ascii -> bool) (s : string) : bool :=
  match s with
  | EmptyString => true
  | String c s' => p c && all_chars p s'
  end.

(** The longest prefix of characters in a class, and what follows it. *)
Fixpoint span (p : Ascii.ascii -> bool) (s : string) : string * string :=
  match s with
  | EmptyString => ("", "")
  | String c s' =>
      if p c then let (a, b) := span p s' in (String c a, b) else ("", s)
  end.

Fixpoint skip (n : nat) (s : string) : string :=
  match n, s with
  | S n', String _ s' => skip n' s'
  | _, _ => s
  end.

(** Leftmost search: the first suffix on which [f] answers. *)
Fixpoint search {A} (f : string -> option A) (s : string) : option A :=
  match f s with
  | Some a => Some a
  | None => match s with
            | EmptyString => None
            | String _ s' => search f s'
            end
  end.

(** [s.match(/pre([class]+)/)?.[1]] *)
Definition match_class_after (pre : string) (p : Ascii.ascii -> bool) (s : string) : option string :=
  search (fun t =>
    if startsWith t pre then
      match (span p (skip (String.length pre) t)).1 with
      | EmptyString => None
      | w => Some w
      end
    else None) s.

(** [s.match(/pre([class]{lo,hi})post/)?.[1]] for a [post] that starts with a
    character outside the class, so that the run is maximal. *)
Definition match_run_between (pre : string) (p : Ascii.ascii -> bool) (lo hi : nat)
    (post : string) (s : string) : option string :=
  search (fun t =>
    if startsWith t pre then
      let (w, rest) := span p (skip (String.length pre) t) in
      if ((lo <=? String.length w)%nat && (String.length w <=? hi)%nat && startsWith rest post)%bool
      then Some w else None
    else None) s.

(** ** Lemmas *)

Lemma string_app_assoc (a b c : string) : a +:+ (b +:+ c) = (a +:+ b) +:+ c.
Proof. induction a as [|x a IH]; [done | by apply (f_equal (String x))]. Qed.

Lemma startsWith_true s pre : startsWith s pre = true <-> exists t, s = pre +:+ t.
Proof.
  unfold startsWith. revert s. induction pre as [|c pre IH]; intros s; simpl.
  - split; [intros _; by exists s | by destruct s].
  - destruct s as [|d s]; simpl.
    + split; [done | intros [t Ht]; done].
    + destruct (Ascii.ascii_dec c d) as [->|Hne].
      * rewrite IH. split; intros [t Ht]; exists t; [by subst | by injection Ht].
      * split; [done | intros [t Ht]; by injection Ht].
Qed.

Lemma includes_true s needle :
  includes s needle = true <-> exists a b, s = a +:+ needle +:+ b.
Proof.
  induction s as [|c s IH]; simpl; rewrite orb_true_iff, startsWith_true.
  - split.
    + intros [[t Ht]|]; [|done]. by exists "", t.
    + intros (a & b & Hab). left. exists b. by destruct a.
  - rewrite IH. split.
    + intros [[t Ht]|(a & b & ->)]; [by exists "", t | by exists (String c a), b].
    + intros ([|d a] & b & Hab).
      * left. by exists b.
      * right. injection Hab as -> ->. by exists a, b.
Qed.

Lemma includes_mono s a b c : includes s (a +:+ b +:+ c) = true -> includes s b = true.
Proof.
  rewrite !includes_true. intros (x & y & ->).
  exists (x +:+ a), (c +:+ y). by rewrite !string_app_assoc.
Qed.

(** Splitting a joined list gives it back when no part has the separator. *)
Lemma split_on_none sep s :
  all_chars (fun c => negb (bool_decide (c = sep))) s = true -> split_on sep s = [s].
Proof.
  induction s as [|c s IH]; cbn; [done|]. intros [Hc Hs]%andb_true_iff. boolP.
  rewrite decide_False, IH by done. done.
Qed.

Lemma split_on_app sep s t :
  all_chars (fun c => negb (bool_decide (c = sep))) s = true ->
  split_on sep (s +:+ String sep t) = s :: split_on sep t.
Proof.
  induction s as [|c s IH]; cbn [all_chars].
  - intros _. change ("" +:+ String sep t) with (String sep t). cbn. by rewrite decide_True.
  - intros [Hc Hs]%andb_true_iff. boolP.
    change (String c s +:+ String sep t) with (String c (s +:+ String sep t)). cbn [split_on].
    rewrite decide_False by done. by rewrite IH.
Qed.

Lemma split_join sep w ws :
  all_chars (fun c => negb (bool_decide (c = sep))) w = true ->
  Forall (fun x => all_chars (fun c => negb (bool_decide (c = sep))) x = true) ws ->
  split_on sep (String.concat (String sep "") (w :: ws)) = w :: ws.
Proof.
  intros Hw Hws. revert w Hw. induction Hws as [|x ws Hx _ IH]; intros w Hw; [by apply split_on_none|].
  change (String.concat (String sep "") (w :: x :: ws))
    with (w +:+ String sep "" +:+ String.concat (String sep "") (x :: ws)).
  change (String sep "" +:+ String.concat (String sep "") (x :: ws))
    with (String sep (String.concat (String sep "") (x :: ws))).
  rewrite split_on_app by done. by rewrite IH.
Qed.

Lemma skip_app pre t : skip (String.length pre) (pre +:+ t) = t.
Proof. induction pre; simpl; [by destruct t | done]. Qed.

Lemma span_app p s : (span p s).1 +:+ (span p s).2 = s.
Proof.
  induction s as [|c s IH]; simpl; [done|].
  destruct (p c); [|done]. destruct (span p s) as [a b]; simpl in *.
  by apply (f_equal (String c)).
Qed.

Lemma span_all p s : all_chars p (span p s).1 = true.
Proof.
  induction s as [|c s IH]; simpl; [done|].
  destruct (p c) eqn:E; [|done]. destruct (span p s) as [a b]; simpl in *. by rewrite E, IH.
Qed.

Lemma search_Some {A} (f : string -> option A) s a :
  search f s = Some a -> exists pre t, s = pre +:+ t /\ f t = Some a.
Proof.
  induction s as [|c s IH]; simpl.
  - destruct (f "") eqn:E; [|done]. intros [= <-]. by exists "", "".
  - destruct (f (String c s)) eqn:E.
    + intros [= <-]. by exists "", (String c s).
    + intros (pre & t & -> & Ht)%IH. by exists (String c pre), t.
Qed.

Lemma search_None {A} (f : string -> option A) s pre t :
  search f s = None -> s = pre +:+ t -> f t = None.
Proof.
  revert pre. induction s as [|c s IH]; intros pre; simpl.
  - destruct (f "") eqn:E; [done|]. intros _ Heq.
    destruct pre; [|done]. change ("" = t) in Heq. by subst t.
  - destruct (f (String c s)) eqn:E; [done|]. intros Hs Heq.
    destruct pre as [|d pre]; [change (String c s = t) in Heq; by subst t|].
    injection Heq as -> ->. by eapply IH.
Qed.

(** A capture is a non-empty run of the class, right after the marker. *)
Lemma match_class_after_Some pre p s w :
  match_class_after pre p s = Some w ->
  w <> "" /\ all_chars p w = true /\ includes s (pre +:+ w) = true.
Proof.
  unfold match_class_after. intros (u & t & -> & Ht)%search_Some.
  destruct (startsWith t pre) eqn:E; [|done].
  apply startsWith_true in E as [r ->]. rewrite skip_app in Ht.
  pose proof (span_app p r) as Happ. pose proof (span_all p r) as Hall.
  destruct (span p r) as [a b]; simpl in *.
  destruct a as [|c a]; [done|]. injection Ht as <-. split_and!; [done|done|].
  apply includes_true. exists u, b. by rewrite <- Happ, !string_app_assoc.
Qed.

Lemma match_run_between_Some pre p lo hi post s w :
  match_run_between pre p lo hi post s = Some w ->
  includes s (pre +:+ w +:+ post) = true /\ all_chars p w = true
  /\ (lo <= String.length w <= hi)%nat.
Proof.
  unfold match_run_between. intros (u & t & -> & Ht)%search_Some.
  destruct (startsWith t pre) eqn:E; [|done].
  apply startsWith_true in E as [r ->]. rewrite skip_app in Ht.
  pose proof (span_app p r) as Happ. pose proof (span_all p r) as Hall.
  destruct (span p r) as [a b]; simpl in *.
  destruct (_ && _) eqn:Eb; [|done]. injection Ht as <-.
  apply andb_true_iff in Eb as [Eb Hpost]. apply andb_true_iff in Eb as [Hlo Hhi].
  apply startsWith_true in Hpost as [q ->].
  split_and!; [|done|by apply Nat.leb_le|by apply Nat.leb_le].
  apply includes_true. exists u, q. by rewrite <- Happ, !string_app_assoc.
Qed.

(** *** Classes of characters *)

Lemma all_chars_impl (p q : Ascii.ascii -> bool) s : (forall c, p c = true -> q c = true) -> all_chars p s = true -> all_chars q s = true.
Proof. intros Hpq. induction s as [|c s IH]; cbn; [done|]. rewrite !andb_true_iff. intros [H1 H2]. auto. Qed.

Lemma all_chars_app p s t : all_chars p (s +:+ t) = all_chars p s && all_chars p t.
Proof.
  induction s as [|c s IH]; [done|]. change (p c && all_chars p (s +:+ t) = p c && all_chars p s && all_chars p t).
  by rewrite IH, andb_assoc.
Qed.
