(* ===== verification/JsNumber.v ===== *)
(** * JavaScript numbers, [BigInt] and the big-integer library

    A [number] is an IEEE-754 double; the operations are the exact bit-level
    specification of the Standard Library ([SpecFloat] at precision 53 and
    maximal exponent 1024), so every comparison and rounding of the source is
    computed as the engine computes it.  [parseFloat] rounds the decimal
    literal correctly, [Math.floor] is exact, [toFixed] picks the closest
    decimal (ties upwards) as ECMAScript asks.  [BigInt] is [Z] with the
    language's string grammar.  The [bn.js] package is not part of the
    repository: class [BNLib] lists the operations the program calls and the
    documented laws it relies on, and [Z_BN] is a model of it. *)

From Stdlib Require Import SpecFloat Ascii.
From stdpp Require Import pretty numbers.
From S2P Require Import Prelude JsString.
Open Scope Z_scope.

(** ** Doubles *)

Abbreviation num := spec_float.

Definition prec53 : Z := 53.
Definition emax1024 : Z := 1024.

Definition num_of_Z (z : Z) : num := binary_normalize prec53 emax1024 z 0 false.
Definition NaN : num := S754_nan.
Definition nadd : num -> num -> num := SFadd prec53 emax1024.
Definition nsub : num -> num -> num := SFsub prec53 emax1024.
Definition nmul : num -> num -> num := SFmul prec53 emax1024.
Definition ndiv : num -> num -> num := SFdiv prec53 emax1024.
Definition nabs : num -> num := SFabs.
Definition nopp : num -> num := SFopp.
Definition nlt : num -> num -> bool := SFltb.
Definition nle : num -> num -> bool := SFleb.
Definition neqb : num -> num -> bool := SFeqb.
Definition is_nan (x : num) : bool := match x with S754_nan => true | _ => false end.

#[export] Instance num_eq_dec : EqDecision num.
Proof. solve_decision. Defined.

(** A number is falsy when it is zero or NaN. *)
#[export] Instance truthy_num : Truthy num :=
  fun x => match x with S754_zero _ => false | S754_nan => false | _ => true end.

(** The double closest to [s * m / 10^k] for a non-negative [m] and sign [s]. *)
Definition num_of_ratio (neg : bool) (m d : Z) : num :=
  match m with
  | Z.pos _ =>
      let '(mz, ez, lz) := SFdiv_core_binary prec53 emax1024 m 0 d 0 in
      binary_round_aux prec53 emax1024 neg mz ez lz
  | _ => S754_zero neg
  end.

Definition dec_num (m : Z) (k : Z) : num := num_of_ratio false m (10 ^ k).

(** [Math.floor(x)] as an integer; [None] for NaN and the infinities. *)
Definition floorZ (x : num) : option Z :=
  match x with
  | S754_zero _ => Some 0
  | S754_finite s m e =>
      let v := if s then Z.neg m else Z.pos m in
      Some (if 0 <=? e then v * 2 ^ e else v / 2 ^ (- e))
  | _ => None
  end.

(** [Math.floor(x)] *)
Definition floor_num (x : num) : num :=
  match floorZ x with Some z => num_of_Z z | None => x end.

(** ** Decimal digits *)

Definition digit_val (c : Ascii.ascii) : option Z :=
  if is_digit c then Some (Z.of_nat (code c) - 48)
  else if (97 <=? code c)%nat && (code c <=? 102)%nat then Some (Z.of_nat (code c) - 87)
  else if (65 <=? code c)%nat && (code c <=? 70)%nat then Some (Z.of_nat (code c) - 55)
  else None.

(** Value of a digit string in a base, [acc] first. *)
Fixpoint digits_val (base acc : Z) (s : string) : option Z :=
  match s with
  | EmptyString => Some acc
  | String c s' =>
      match digit_val c with
      | Some d => if d <? base then digits_val base (acc * base + d) s' else None
      | None => None
      end
  end.

Definition parse_nat (base : Z) (s : string) : option Z :=
  match s with
  | EmptyString => None
  | _ => digits_val base 0 s
  end.

(** [BigInt(s)] for a string; [None] is the [SyntaxError]. *)
Definition BigInt_of_string (raw : string) : option Z :=
  let s := trim raw in
  match s with
  | EmptyString => Some 0
  | String c0 s0 =>
      if decide (c0 = "-"%char) then Z.opp <$> parse_nat 10 s0
      else if decide (c0 = "+"%char) then parse_nat 10 s0
      else match s0 with
           | String c1 s1 =>
               if decide (c0 = "0"%char) then
                 if bool_decide (c1 = "x"%char) || bool_decide (c1 = "X"%char) then parse_nat 16 s1
                 else if bool_decide (c1 = "o"%char) || bool_decide (c1 = "O"%char) then parse_nat 8 s1
                 else if bool_decide (c1 = "b"%char) || bool_decide (c1 = "B"%char) then parse_nat 2 s1
                 else parse_nat 10 s
               else parse_nat 10 s
           | EmptyString => parse_nat 10 s
           end
  end.

Definition BigInt (s : string) : outcome Z :=
  match BigInt_of_string s with
  | Some z => Ret z
  | None => Throw ("Cannot convert " +:+ s +:+ " to a BigInt")%string
  end.

(** [x.toString()] of an integer *)
Definition Z_toString (z : Z) : string := pretty z.

(** ** [parseFloat] *)

Definition parse_sign (s : string) : bool * string :=
  match s with
  | String c s' =>
      if decide (c = "-"%char) then (true, s')
      else if decide (c = "+"%char) then (false, s') else (false, s)
  | EmptyString => (false, s)
  end.

(** The exponent part of a literal, 0 when absent or malformed. *)
Definition parse_exponent (s : string) : Z :=
  match s with
  | String c s' =>
      if (bool_decide (c = "e"%char) || bool_decide (c = "E"%char))%bool then
        let (neg, t) := parse_sign s' in
        let v := default 0 (parse_nat 10 (span is_digit t).1) in
        if neg then - v else v
      else 0
  | EmptyString => 0
  end.

Definition parseFloat (raw : string) : num :=
  let (neg, s) := parse_sign (trimStart raw) in
  if startsWith s "Infinity" then S754_infinity neg else
  let (ip, r) := span is_digit s in
  let (fp, r') :=
    match r with
    | String c r1 => if decide (c = "."%char) then span is_digit r1 else (""%string, r)
    | EmptyString => (""%string, r)
    end in
  match (ip +:+ fp)%string with
  | EmptyString => NaN
  | ds =>
      let m := default 0 (digits_val 10 0 ds) in
      let e := parse_exponent r' - Z.of_nat (String.length fp) in
      if 0 <=? e then num_of_ratio neg (m * 10 ^ e) 1
      else num_of_ratio neg m (10 ^ (- e))
  end.

(** [parseInt(s)] without a radix: an optional sign, then hexadecimal digits
    after 0x, or decimal digits. *)
Definition parseInt (raw : string) : num :=
  let (neg, s) := parse_sign (trimStart raw) in
  let hex := startsWith s "0x" || startsWith s "0X" in
  let base := if hex then 16 else 10 in
  let is_d c := match digit_val c with Some d => d <? base | None => false end in
  match (span is_d (if hex then skip 2 s else s)).1 with
  | EmptyString => NaN
  | ds => let x := num_of_Z (default 0 (digits_val base 0 ds)) in if neg then nopp x else x
  end.

(** ** [toFixed] *)

(** The rational value of a finite double as a numerator and denominator. *)
Definition num_ratio (x : num) : Z * Z :=
  match x with
  | S754_finite s m e =>
      let v := if s then Z.neg m else Z.pos m in
      if 0 <=? e then (v * 2 ^ e, 1) else (v, 2 ^ (- e))
  | _ => (0, 1)
  end.

Definition pad_left (n : nat) (s : string) : string :=
  (String.concat "" (repeat "0" (n - String.length s)) +:+ s)%string.

(** Digits of [n / 10^f] with exactly [f] fractional digits. *)
Definition fixed_digits (n : Z) (f : nat) : string :=
  match f with
  | O => Z_toString n
  | _ =>
      (Z_toString (n / 10 ^ Z.of_nat f) +:+ "." +:+ pad_left f (Z_toString (n mod 10 ^ Z.of_nat f)))%string
  end.

(** Shortest digits of a number of at least [10^21] ([Number::toString]):
    [k] digits are tried in turn until they read back as the number. *)
Fixpoint shortest_digits (fuel : nat) (k : Z) (v len : Z) (x : num) : Z * Z :=
  match fuel with
  | O => (v, len)
  | S fuel' =>
      let p := 10 ^ (len - k) in
      let s := (2 * v + p) / (2 * p) in
      if decide (num_of_ratio false (s * p) 1 = x) then (s, k)
      else shortest_digits fuel' (k + 1) v len x
  end.

Definition big_toString (x : num) : string :=
  let v := (num_ratio x).1 in
  let len := Z.of_nat (String.length (Z_toString v)) in
  let (s, k) := shortest_digits 17 1 v len x in
  let ds := Z_toString s in
  match ds with
  | String c EmptyString => (String c "" +:+ "e+" +:+ Z_toString (len - 1))%string
  | String c rest => (String c "" +:+ "." +:+ rest +:+ "e+" +:+ Z_toString (len - 1))%string
  | EmptyString => ""%string
  end.

(** [x.toFixed(f)] for [0 <= f <= 100] *)
Definition toFixed (x : num) (f : nat) : string :=
  match x with
  | S754_nan => "NaN"%string
  | S754_infinity s => if s then "-Infinity"%string else "Infinity"%string
  | S754_zero _ => fixed_digits 0 f
  | S754_finite s m e =>
      let (p, q) := num_ratio (nabs x) in
      let sign := if s then "-"%string else ""%string in
      if 10 ^ 21 * q <=? p then (sign +:+ big_toString (nabs x))%string
      else
        let n := (2 * p * 10 ^ Z.of_nat f + q) / (2 * q) in
        (sign +:+ fixed_digits n f)%string
  end.

(** ** [Number::toString]

    The shortest digits [s] that read back as [p / q], and the exponent [n]
    with [p / q] about [0.s * 10^n]; seventeen digits are always enough. *)

Definition scaled (p q n k : Z) : Z :=
  let e := k - n in
  if 0 <=? e then (2 * p * 10 ^ e + q) / (2 * q) else (2 * p + q * 10 ^ (- e)) / (2 * q * 10 ^ (- e)).

Definition dec_of (s e : Z) : num :=
  if 0 <=? e then num_of_ratio false (s * 10 ^ e) 1 else num_of_ratio false s (10 ^ (- e)).

Fixpoint shortest (fuel : nat) (k p q n : Z) (x : num) : Z * Z :=
  let s := scaled p q n k in
  match fuel with
  | O => (s, k)
  | S fuel' => if decide (dec_of s (n - k) = x) then (s, k) else shortest fuel' (k + 1) p q n x
  end.

(** The decimal exponent: the least [n] with [p < q * 10^n]. *)
Definition dec_exponent (p q : Z) : Z :=
  let d := Z.of_nat (String.length (Z_toString p)) - Z.of_nat (String.length (Z_toString q)) in
  let below n := if 0 <=? n then p <? q * 10 ^ n else p * 10 ^ (- n) <? q in
  if below d then d else d + 1.

Definition num_toString (x : num) : string :=
  match x with
  | S754_nan => "NaN"%string
  | S754_infinity s => if s then "-Infinity"%string else "Infinity"%string
  | S754_zero _ => "0"%string
  | S754_finite neg _ _ =>
      let (p, q) := num_ratio (nabs x) in
      let n0 := dec_exponent p q in
      let (s0, k0) := shortest 17 1 p q n0 (nabs x) in
      let '(s, k, n) := if s0 =? 10 ^ k0 then (1, 1, n0 + 1) else (s0, k0, n0) in
      let ds := Z_toString s in
      let zeros i := String.concat "" (repeat "0"%string (Z.to_nat i)) in
      ((if neg then "-" else "") +:+
       (if ((k <=? n) && (n <=? 21))%Z then ds +:+ zeros (n - k)%Z
        else if ((0 <? n) && (n <=? 21))%Z then
          String.substring 0 (Z.to_nat n) ds +:+ "." +:+ skip (Z.to_nat n) ds
        else if ((-6 <? n) && (n <=? 0))%Z then "0." +:+ zeros (- n)%Z +:+ ds
        else
          let e := (if (0 <? n)%Z then "e+" else "e-") +:+ Z_toString (Z.abs (n - 1)) in
          if (k =? 1)%Z then ds +:+ e
          else String.substring 0 1 ds +:+ "." +:+ skip 1 ds +:+ e))%string
  end.

Example num_toString_run :
  map num_toString [num_of_Z 0; num_of_Z 150; dec_num 1 1; dec_num 57 2; nopp (dec_num 90132 7);
                    dec_num 15 8; num_of_Z (10 ^ 21); num_of_Z (10 ^ 23); num_of_Z 123456789012345680000; ndiv (num_of_Z 1) (num_of_Z 3)]
  = ["0"; "150"; "0.1"; "0.57"; "-0.0090132"; "1.5e-7"; "1e+21"; "1e+23"; "123456789012345680000"; "0.3333333333333333"]%string.
Proof. vm_compute. reflexivity. Qed.

(** ** Printing and reading decimals *)

Lemma digit_val_pretty (x : N) :
  (x < 10)%N -> digit_val (pretty_N_char x) = Some (Z.of_N x).
Proof.
  intros Hx. destruct x as [|p]; [done|].
  do 4 (destruct p as [p|p|]; try done; try lia).
Qed.

Lemma digits_val_pretty_go (x : N) (s : string) :
  digits_val 10 0 (pretty_N_go x s) = digits_val 10 (Z.of_N x) s.
Proof.
  revert s. induction x as [x IH] using (well_founded_induction N.lt_wf_0). intros s.
  destruct (decide (0 < x)%N) as [Hx|Hx].
  - rewrite pretty_N_go_step by done. rewrite IH by (apply N.div_lt; lia). simpl.
    rewrite digit_val_pretty by (apply N.mod_lt; lia).
    replace (Z.of_N (x `mod` 10) <? 10) with true; last first.
    { symmetry. apply Z.ltb_lt. pose proof (N.mod_lt x 10). lia. }
    f_equal. pose proof (N.div_mod' x 10). lia.
  - replace x with 0%N by lia. by rewrite pretty_N_go_0.
Qed.

Lemma pretty_nonempty (x : N) : pretty x <> ""%string.
Proof.
  intros E. assert (x = 0%N) as ->; [|by vm_compute in E].
  destruct (decide (x = 0)%N) as [|Hx]; [done|].
  assert (Z.of_N x = 0); [|lia].
  pose proof (digits_val_pretty_go x "") as Hd. simpl in Hd.
  unfold pretty, pretty_N in E. rewrite decide_False in E by done.
  rewrite E in Hd. simpl in Hd. congruence.
Qed.

Lemma digits_val_pretty (x : N) : digits_val 10 0 (pretty x) = Some (Z.of_N x).
Proof.
  unfold pretty, pretty_N. case_decide; [by subst|].
  apply digits_val_pretty_go.
Qed.

Lemma Z_toString_nonneg (z : Z) : 0 <= z -> Z_toString z = pretty (Z.to_N z).
Proof. intros Hz. unfold Z_toString. destruct z; [done|done|lia]. Qed.

(** Reading back the decimal digits of a non-negative integer. *)
Lemma parse_nat_toString (z : Z) : 0 <= z -> parse_nat 10 (Z_toString z) = Some z.
Proof.
  intros Hz. rewrite Z_toString_nonneg by done. unfold parse_nat.
  destruct (pretty (Z.to_N z)) eqn:E; [by apply pretty_nonempty in E|].
  rewrite <- E, digits_val_pretty. f_equal. lia.
Qed.

Lemma is_digit_pretty (x : N) : (x < 10)%N -> is_digit (pretty_N_char x) = true.
Proof.
  intros Hx. destruct x as [|p]; [done|].
  do 4 (destruct p as [p|p|]; try done; try lia).
Qed.

Lemma all_digits_pretty_go (x : N) (s : string) :
  all_chars is_digit s = true -> all_chars is_digit (pretty_N_go x s) = true.
Proof.
  revert s. induction x as [x IH] using (well_founded_induction N.lt_wf_0). intros s Hs.
  destruct (decide (0 < x)%N) as [Hx|Hx].
  - rewrite pretty_N_go_step by done. apply IH; [apply N.div_lt; lia|]. cbn.
    rewrite is_digit_pretty, Hs by (apply N.mod_lt; lia). done.
  - replace x with 0%N by lia. by rewrite pretty_N_go_0.
Qed.

Lemma all_digits_toString (z : Z) : 0 <= z -> all_chars is_digit (Z_toString z) = true.
Proof.
  intros Hz. rewrite Z_toString_nonneg by done. unfold pretty, pretty_N.
  case_decide; [done|]. by apply all_digits_pretty_go.
Qed.

Lemma digit_not_white c : is_digit c = true -> is_white c = false.
Proof.
  unfold is_digit, is_white. rewrite andb_true_iff, !Nat.leb_le. intros [H1 H2].
  apply orb_false_iff. split; [apply andb_false_iff; right; apply Nat.leb_gt; lia|].
  apply Nat.eqb_neq. lia.
Qed.

Lemma trimEnd_digits s : all_chars is_digit s = true -> trimEnd s = s.
Proof.
  induction s as [|c s IH]; cbn; [done|]. intros [Hc Hs]%andb_true_iff.
  rewrite IH by done. destruct s; [|done]. by rewrite digit_not_white.
Qed.

Lemma trim_digits s : all_chars is_digit s = true -> trim s = s.
Proof.
  intros H. unfold trim. replace (trimStart s) with s; [by apply trimEnd_digits|].
  destruct s as [|c s]; cbn in *; [done|].
  apply andb_true_iff in H as [Hc _]. by rewrite digit_not_white.
Qed.

Lemma digit_ne c d : is_digit c = true -> is_digit d = false -> bool_decide (c = d) = false.
Proof. intros Hc Hd. apply bool_decide_eq_false. congruence. Qed.

Lemma BigInt_digits s :
  all_chars is_digit s = true -> s <> ""%string -> BigInt_of_string s = parse_nat 10 s.
Proof.
  intros H Hne. unfold BigInt_of_string. rewrite trim_digits by done.
  destruct s as [|c0 s0]; [done|]. cbn in H. apply andb_true_iff in H as [Hc0 H0].
  rewrite !decide_False by (intros ->; done).
  destruct s0 as [|c1 s1]; [done|]. cbn in H0. apply andb_true_iff in H0 as [Hc1 _].
  rewrite !(digit_ne c1) by done. cbn. by case_decide.
Qed.

(** [BigInt] reads back what [toString] prints. *)
Lemma BigInt_toString (z : Z) : 0 <= z -> BigInt_of_string (Z_toString z) = Some z.
Proof.
  intros Hz. rewrite BigInt_digits; [by apply parse_nat_toString | by apply all_digits_toString |].
  rewrite Z_toString_nonneg by done. apply pretty_nonempty.
Qed.

Lemma Z_toString_truthy (z : Z) : 0 <= z -> truthy (Z_toString z) = true.
Proof.
  intros Hz. rewrite Z_toString_nonneg by done.
  destruct (pretty (Z.to_N z)) eqn:E; [by apply pretty_nonempty in E | done].
Qed.

(** ** The [bn.js] package *)

(** The little-endian value of bytes. *)
Definition le_value (bs : list Z) : Z := foldr (fun b acc => b + 256 * acc) 0 bs.

Class BNLib := {
  BN : Type;
  (** [new BN(s)] for a string, base 10 *)
  bn_of_string : string -> outcome BN;
  (** [new BN(n)] for the integral number [n]; [None] is NaN or an infinity *)
  bn_of_int : option Z -> outcome BN;
  (** [new BN(bytes, 'le')] *)
  bn_of_bytes_le : list Z -> BN;
  bn_add : BN -> BN -> BN;
  bn_sub : BN -> BN -> BN;
  bn_mul : BN -> BN -> BN;
  bn_div : BN -> BN -> BN;
  bn_gt : BN -> BN -> bool;
  bn_lt : BN -> BN -> bool;
  bn_lte : BN -> BN -> bool;
  bn_eq : BN -> BN -> bool;
  bn_min : BN -> BN -> BN;
  (** throws above 53 bits *)
  bn_toNumber : BN -> outcome Z;
  bn_isZero : BN -> bool;
  bn_toString : BN -> string;
  (** the integer a big number stands for *)
  bn_val : BN -> Z;
}.

(** Documented behaviour of the package: exact integer arithmetic, division
    that truncates, decimal constructor and printer. *)
Class BNLaws (L : BNLib) : Prop := {
  bn_of_string_dec : forall z, 0 <= z ->
    exists b, bn_of_string (Z_toString z) = Ret b /\ bn_val b = z;
  bn_of_int_safe : forall z, Z.abs z < 2 ^ 53 ->
    exists b, bn_of_int (Some z) = Ret b /\ bn_val b = z;
  bn_of_bytes_val : forall bs, Forall (fun b => 0 <= b < 256) bs -> bn_val (bn_of_bytes_le bs) = le_value bs;
  bn_of_int_nonfinite : exists e, bn_of_int None = Throw e;
  bn_add_val : forall a b, bn_val (bn_add a b) = bn_val a + bn_val b;
  bn_sub_val : forall a b, bn_val (bn_sub a b) = bn_val a - bn_val b;
  bn_mul_val : forall a b, bn_val (bn_mul a b) = bn_val a * bn_val b;
  bn_div_val : forall a b, bn_val b <> 0 -> bn_val (bn_div a b) = Z.quot (bn_val a) (bn_val b);
  bn_gt_val : forall a b, bn_gt a b = (bn_val b <? bn_val a);
  bn_lt_val : forall a b, bn_lt a b = (bn_val a <? bn_val b);
  bn_lte_val : forall a b, bn_lte a b = (bn_val a <=? bn_val b);
  bn_eq_val : forall a b, bn_eq a b = (bn_val a =? bn_val b);
  bn_min_val : forall a b, bn_val (bn_min a b) = Z.min (bn_val a) (bn_val b);
  bn_toNumber_val : forall a, Z.abs (bn_val a) < 2 ^ 53 -> bn_toNumber a = Ret (bn_val a);
  bn_isZero_val : forall a, bn_isZero a = (bn_val a =? 0);
  bn_toString_val : forall a, bn_toString a = Z_toString (bn_val a);
}.

(** Integers are a model of the package. *)
Definition Z_BN : BNLib := {|
  BN := Z;
  bn_of_string := fun s =>
    match parse_nat 10 s with Some z => Ret z | None => Throw "Invalid character" end;
  bn_of_int := fun o =>
    match o with
    | Some z => if Z.abs z <? 2 ^ 53 then Ret z else Throw "Assertion failed"
    | None => Throw "Assertion failed"
    end;
  bn_of_bytes_le := le_value;
  bn_add := Z.add; bn_sub := Z.sub; bn_mul := Z.mul; bn_div := Z.quot;
  bn_gt := fun a b => b <? a; bn_lt := Z.ltb; bn_lte := Z.leb; bn_eq := Z.eqb; bn_min := Z.min;
  bn_toNumber := fun z =>
    if Z.abs z <? 2 ^ 53 then Ret z else Throw "Number can only safely store up to 53 bits";
  bn_isZero := fun a => a =? 0;
  bn_toString := Z_toString; bn_val := fun z => z |}.

Lemma Z_BN_laws : BNLaws Z_BN.
Proof.
  constructor; simpl; try done.
  - intros z Hz. rewrite parse_nat_toString by done. eauto.
  - intros z Hz. apply Z.ltb_lt in Hz. rewrite Hz. eauto.
  - eauto.
  - intros z Hz. apply Z.ltb_lt in Hz. by rewrite Hz.
Qed.
