(* ===== verification/Json.v ===== *)
(** * JSON values

    What [JSON.parse], property access, [String], [BigInt], [Object.entries] and
    [JSON.stringify] do with the data the program receives.  Strings are UTF-8
    bytes; [jstringify] escapes quotes and backslashes, which is what its uses
    (error texts and request bodies) need. *)

From Stdlib Require Import Ascii.
From S2P Require Import Prelude JsMap JsString JsNumber.
Open Scope Z_scope.
Open Scope list_scope.

#[local] Set Warnings "-register-all".

(** ** Values *)

Inductive Json :=
| JNull | JBool (b : bool) | JNum (x : num) | JStr (s : string) | JArr (l : list Json) | JObj (kvs : list (string * Json)).

(** [x.k]: reading a property of null or undefined throws. *)
Definition jfield (x : option Json) (k : string) : outcome (option Json) :=
  match x with
  | None => Throw ("Cannot read properties of undefined (reading '" +:+ k +:+ "')")%string
  | Some JNull => Throw ("Cannot read properties of null (reading '" +:+ k +:+ "')")%string
  | Some (JObj kvs) => Ret (jget k kvs)
  | Some _ => Ret None
  end.

#[export] Instance truthy_json : Truthy Json := fun j =>
  match j with
  | JNull => false
  | JBool b => b
  | JNum x => truthy x
  | JStr s => truthy s
  | JArr _ | JObj _ => true
  end.

(** [String(x)] *)
Fixpoint jstring (j : Json) : string :=
  match j with
  | JNull => "null"
  | JBool b => if b then "true" else "false"
  | JNum x => num_toString x
  | JStr s => s
  | JArr l => join "," (map (fun e => match e with JNull => ""%string | _ => jstring e end) l)
  | JObj _ => "[object Object]"
  end%string.

(** [BigInt(x)] *)
Definition jBigInt (x : option Json) : outcome Z :=
  match x with
  | None => Throw "Cannot convert undefined to a BigInt"
  | Some JNull => Throw "Cannot convert null to a BigInt"
  | Some (JBool b) => Ret (if b then 1 else 0)
  | Some (JNum v) =>
      match floorZ v with
      | Some z => if neqb (num_of_Z z) v then Ret z
                  else Throw ("The number " +:+ num_toString v +:+ " cannot be converted to a BigInt because it is not an integer")%string
      | None => Throw ("The number " +:+ num_toString v +:+ " cannot be converted to a BigInt because it is not an integer")%string
      end
  | Some j => BigInt (jstring j)
  end.

(** [Object.entries(x)] of an object or an array *)
Definition jentries (j : Json) : list (string * Json) :=
  match j with
  | JObj kvs => kvs
  | JArr l => imap (fun i e => (Z_toString (Z.of_nat i), e)) l
  | _ => []
  end.

(** [JSON.stringify(x)] *)
Definition quote_char (c : Ascii.ascii) : string :=
  if (code c =? 34)%nat || (code c =? 92)%nat then String (Ascii.ascii_of_nat 92) (String c "")
  else String c "".
Definition jquote (s : string) : string :=
  let q := String (Ascii.ascii_of_nat 34) "" in
  (q +:+ String.concat "" (map quote_char (String.list_ascii_of_string s)) +:+ q)%string.
Fixpoint jstringify (j : Json) : string :=
  match j with
  | JNull => "null"
  | JBool b => if b then "true" else "false"
  | JNum x => match floorZ x with Some _ => num_toString x | None => "null" end
  | JStr s => jquote s
  | JArr l => "[" +:+ join "," (map jstringify l) +:+ "]"
  | JObj kvs => "{" +:+ join "," (map (fun kv => jquote kv.1 +:+ ":" +:+ jstringify kv.2) kvs) +:+ "}"
  end%string.


(** [x?.k]: undefined where [x] is null or undefined. *)
Definition jopt (x : option Json) (k : string) : option Json :=
  match x with Some (JObj kvs) => jget k kvs | _ => None end.

(** [x ?? d] *)
Definition jnullish (x : option Json) (d : Json) : Json :=
  match x with Some JNull | None => d | Some j => j end.

(** ** [JSON.parse] *)

Definition json_space (c : ascii) : bool :=
  (code c =? 32)%nat || (code c =? 9)%nat || (code c =? 10)%nat || (code c =? 13)%nat.

Definition skip_space (s : string) : string := (span json_space s).2.

Definition hex4 (s : string) : option (Z * string) :=
  let h := String.substring 0 4 s in
  if (String.length h =? 4)%nat then (fun z => (z, skip 4 s)) <$> digits_val 16 0 h else None.

Definition char_of (z : Z) : string := String (ascii_of_nat (Z.to_nat z)) "".

(** A code point in UTF-8. *)
Definition utf8 (z : Z) : string :=
  let tail_ k := char_of (128 + z / 2 ^ k mod 64) in
  if z <? 128 then char_of z
  else if z <? 2048 then char_of (192 + z / 64) +:+ tail_ 0
  else if z <? 65536 then char_of (224 + z / 4096) +:+ tail_ 6 +:+ tail_ 0
  else char_of (240 + z / 262144) +:+ tail_ 12 +:+ tail_ 6 +:+ tail_ 0.

(** The code point after [\u], two escapes for a surrogate pair. *)
Definition unicode_escape (s : string) : option (string * string) :=
  match hex4 s with
  | None => None
  | Some (hi, r) =>
      if (55296 <=? hi) && (hi <? 56320) && startsWith r (char_of 92 +:+ "u")%string then
        match hex4 (skip 2 r) with
        | Some (lo, r') =>
            if (56320 <=? lo) && (lo <? 57344)
            then Some (utf8 (65536 + (hi - 55296) * 1024 + (lo - 56320)), r')
            else Some (utf8 hi, r)
        | None => Some (utf8 hi, r)
        end
      else Some (utf8 hi, r)
  end.

Definition escape (c : ascii) : option string :=
  if bool_decide (c = "n"%char) then Some (char_of 10)
  else if bool_decide (c = "t"%char) then Some (char_of 9)
  else if bool_decide (c = "r"%char) then Some (char_of 13)
  else if bool_decide (c = "b"%char) then Some (char_of 8)
  else if bool_decide (c = "f"%char) then Some (char_of 12)
  else if (code c =? 34)%nat || (code c =? 92)%nat || (code c =? 47)%nat then Some (String c "")
  else None.

(** The rest of a string literal after its opening quote. *)
Fixpoint parse_chars (fuel : nat) (s acc : string) : option (string * string) :=
  match fuel, s with
  | S fuel', String c s' =>
      if (code c =? 34)%nat then Some (acc, s')
      else if (code c =? 92)%nat then
        match s' with
        | EmptyString => None
        | String e r =>
            if bool_decide (e = "u"%char) then
              match unicode_escape r with
              | Some (u, r') => parse_chars fuel' r' (acc +:+ u)%string
              | None => None
              end
            else
              match escape e with
              | Some u => parse_chars fuel' r (acc +:+ u)%string
              | None => None
              end
        end
      else if (code c <? 32)%nat then None
      else parse_chars fuel' s' (acc +:+ String c "")%string
  | _, _ => None
  end.

(** The literal of a number and what follows it. *)
Definition number_literal (s : string) : option (string * string) :=
  let (sign, s1) := (match s with
                     | String c r => if bool_decide (c = "-"%char) then ("-"%string, r) else (""%string, s)
                     | _ => (""%string, s)
                     end) in
  let (ip, s2) := span is_digit s1 in
  if bool_decide (ip = ""%string) || (startsWith ip "0" && negb (String.length ip =? 1)%nat) then None
  else
    let frac :=
      match s2 with
      | String c r =>
          if bool_decide (c = "."%char) then
            let (fp, r') := span is_digit r in
            if bool_decide (fp = ""%string) then None else Some (("." +:+ fp)%string, r')
          else Some (""%string, s2)
      | EmptyString => Some (""%string, s2)
      end in
    match frac with
    | None => None
    | Some (ft, s3) =>
        match s3 with
        | String c r =>
            if bool_decide (c = "e"%char) || bool_decide (c = "E"%char) then
              let (es, r1) := (match r with
                               | String d q => if bool_decide (d = "-"%char) || bool_decide (d = "+"%char)
                                               then (String d "", q) else (""%string, r)
                               | EmptyString => (""%string, r)
                               end) in
              let (ep, r2) := span is_digit r1 in
              if bool_decide (ep = ""%string) then None
              else Some ((sign +:+ ip +:+ ft +:+ "e" +:+ es +:+ ep)%string, r2)
            else Some ((sign +:+ ip +:+ ft)%string, s3)
        | EmptyString => Some ((sign +:+ ip +:+ ft)%string, s3)
        end
    end.

Definition parse_literal (s : string) : option (Json * string) :=
  if startsWith s "null" then Some (JNull, skip 4 s)
  else if startsWith s "true" then Some (JBool true, skip 4 s)
  else if startsWith s "false" then Some (JBool false, skip 5 s)
  else (fun ln => (JNum (parseFloat ln.1), ln.2)) <$> number_literal s.

(** The fuel is at least the length of the text; every step consumes some. *)
Fixpoint parse_value (fuel : nat) (s : string) : option (Json * string) :=
  match fuel with
  | O => None
  | S fuel' =>
      match skip_space s with
      | EmptyString => None
      | String c r =>
          if (code c =? 34)%nat then (fun p => (JStr p.1, p.2)) <$> parse_chars fuel' r ""
          else if bool_decide (c = "["%char) then
            if startsWith (skip_space r) "]" then Some (JArr [], skip 1 (skip_space r))
            else (fun p => (JArr p.1, p.2)) <$> parse_elements fuel' r
          else if bool_decide (c = "{"%char) then
            if startsWith (skip_space r) "}" then Some (JObj [], skip 1 (skip_space r))
            else (fun p => (JObj (jmap_of p.1), p.2)) <$> parse_members fuel' r
          else parse_literal (String c r)
      end
  end
with parse_elements (fuel : nat) (s : string) : option (list Json * string) :=
  match fuel with
  | O => None
  | S fuel' =>
      match parse_value fuel' s with
      | None => None
      | Some (v, r) =>
          match skip_space r with
          | String c r' =>
              if bool_decide (c = ","%char) then (fun p => (v :: p.1, p.2)) <$> parse_elements fuel' r'
              else if bool_decide (c = "]"%char) then Some ([v], r') else None
          | EmptyString => None
          end
      end
  end
with parse_members (fuel : nat) (s : string) : option (list (string * Json) * string) :=
  match fuel with
  | O => None
  | S fuel' =>
      match skip_space s with
      | String q r =>
          if (code q =? 34)%nat then
            match parse_chars fuel' r "" with
            | Some (k, r1) =>
                match skip_space r1 with
                | String c r2 =>
                    if bool_decide (c = ":"%char) then
                      match parse_value fuel' r2 with
                      | Some (v, r3) =>
                          match skip_space r3 with
                          | String c' r4 =>
                              if bool_decide (c' = ","%char) then
                                (fun p => ((k, v) :: p.1, p.2)) <$> parse_members fuel' r4
                              else if bool_decide (c' = "}"%char) then Some ([(k, v)], r4) else None
                          | EmptyString => None
                          end
                      | None => None
                      end
                    else None
                | EmptyString => None
                end
            | None => None
            end
          else None
      | EmptyString => None
      end
  end.

Definition JSON_parse (s : string) : outcome Json :=
  match parse_value (2 * String.length s + 1) s with
  | Some (v, rest) => if bool_decide (skip_space rest = ""%string) then Ret v else Throw "Unexpected token in JSON"
  | None => Throw "Unexpected token in JSON"
  end.

(** A text with single quotes for double ones. *)
Definition dq (s : string) : string :=
  String.string_of_list_ascii (map (fun c => if bool_decide (c = "'"%char) then ascii_of_nat 34 else c)
    (String.list_ascii_of_string s)).

Example JSON_parse_run :
  JSON_parse (dq " [{'id':'A','liquidity':12.5e1,'t':[true,null]}, {} , -0.5, 'x\u00e9' ] ")
  = Ret (JArr [JObj [("id", JStr "A"); ("liquidity", JNum (num_of_Z 125)); ("t", JArr [JBool true; JNull])];
               JObj []; JNum (nopp (dec_num 5 1)); JStr "xé"])%string.
Proof. vm_compute. reflexivity. Qed.

Example JSON_parse_errors :
  Forall (fun s => JSON_parse (dq s) = Throw "Unexpected token in JSON")
    ["[1,]"; "01"; "{'a' 1}"; "nul"; "'abc"; "[1] 2"; "1."; ""]%string.
Proof. repeat constructor. Qed.
