(* ===== verification/JsConvert.v ===== *)
(** * Conversions and comparisons of JSON values

    [Number(x)], iteration, [.length], the equality of a [Set], the word
    boundaries and the case folding of a regular expression: what the scheduled
    jobs and the dashboard do with the answers of the web services. Strings are
    UTF-8 bytes, so code points and UTF-16 units are counted from lead bytes.
    The module [Calendar] at the end: dates. *)

From Stdlib Require Import Ascii Floats.SpecFloat.
From S2P Require Import Prelude JsMap JsString JsNumber Json.
Open Scope Z_scope.
Open Scope list_scope.

(** ** [Number(x)] *)

Definition digits1 (s : string) : bool := truthy s && all_chars is_digit s.

(** An exponent part, or nothing. *)
Definition exponent_ok (s : string) : bool :=
  match s with
  | EmptyString => true
  | String c r =>
      (bool_decide (c = "e"%char) || bool_decide (c = "E"%char)) && digits1 (parse_sign r).2
  end.

(** An unsigned decimal literal: digits with an optional fraction, or a fraction. *)
Definition decimal_ok (s : string) : bool :=
  let (ip, r) := span is_digit s in
  match r with
  | String c r1 =>
      if bool_decide (c = "."%char) then
        let (fp, r2) := span is_digit r1 in (truthy ip || truthy fp) && exponent_ok r2
      else truthy ip && exponent_ok r
  | EmptyString => truthy ip
  end.

(** The radix of a 0x, 0o or 0b literal. *)
Definition radix_of (s : string) : option Z :=
  if startsWith s "0x" || startsWith s "0X" then Some 16
  else if startsWith s "0o" || startsWith s "0O" then Some 8
  else if startsWith s "0b" || startsWith s "0B" then Some 2 else None.

Definition Number_of_string (raw : string) : num :=
  let s := trim raw in
  if negb (truthy s) then num_of_Z 0
  else
    match radix_of s with
    | Some b => match parse_nat b (skip 2 s) with Some z => num_of_Z z | None => NaN end
    | None =>
        let (neg, t) := parse_sign s in
        if bool_decide (t = "Infinity"%string) then S754_infinity neg
        else if decimal_ok t then parseFloat s else NaN
    end.

Definition Number (x : option Json) : num :=
  match x with
  | None => NaN
  | Some JNull => num_of_Z 0
  | Some (JBool b) => num_of_Z (if b then 1 else 0)
  | Some (JNum v) => v
  | Some (JStr s) => Number_of_string s
  | Some (JArr l) => Number_of_string (jstring (JArr l))
  | Some (JObj _) => NaN
  end.

(** [Number.isFinite(v)] of a number *)
Definition isFinite (v : num) : bool :=
  match v with S754_finite _ _ _ | S754_zero _ => true | _ => false end.

Example Number_run :
  map (fun s => Number (Some (JStr s))) [" 12.5e1 "; ""; "0x1F"; ".5"; "5."; "."; "1e"; "-3"; "12px"; "-Infinity"]%string
  = [num_of_Z 125; num_of_Z 0; num_of_Z 31; dec_num 5 1; num_of_Z 5; NaN; NaN; nopp (num_of_Z 3); NaN; S754_infinity true].
Proof. vm_compute. reflexivity. Qed.

(** ** Strings as sequences *)

(** The bytes of the code point that starts with this byte. *)
Definition lead_len (c : ascii) : nat :=
  let n := code c in
  if (n <? 192)%nat then 1 else if (n <? 224)%nat then 2 else if (n <? 240)%nat then 3 else 4.

(** The code points of a string, what iterating over it yields. *)
Fixpoint code_points (fuel : nat) (s : string) : list string :=
  match fuel, s with
  | S fuel', String c _ =>
      let n := lead_len c in String.substring 0 n s :: code_points fuel' (skip n s)
  | _, _ => []
  end.

Definition chars (s : string) : list string := code_points (String.length s) s.

(** [s.length]: a code point beyond the basic plane is two units. *)
Definition units (s : string) : nat :=
  foldr (fun p n => (n + if (String.length p =? 4)%nat then 2 else 1)%nat) 0%nat (chars s).

Example chars_run : (chars "aé快", units "aé快") = (["a"; "é"; "快"]%string, 3%nat).
Proof. reflexivity. Qed.

(** [for (const x of j)] *)
Definition iterable (j : Json) : outcome (list Json) :=
  match j with
  | JArr l => Ret l
  | JStr s => Ret (map JStr (chars s))
  | _ => Throw "value is not iterable"
  end.

(** [j.length === 0] of a value that is neither null nor undefined *)
Definition empty_length (j : Json) : bool :=
  match j with
  | JArr l => bool_decide (l = [])
  | JStr s => negb (truthy s)
  | JObj kvs => match jget "length"%string kvs with Some (JNum x) => neqb x (num_of_Z 0) | _ => false end
  | _ => false
  end.

(** [Array.isArray(x) ? x : []] *)
Definition array_or_empty (x : option Json) : list Json := match x with Some (JArr l) => l | _ => [] end.

(** [j['3']], an index that is also a property name *)
Definition jindex (j : Json) (k : string) (i : nat) : option Json :=
  match j with
  | JObj kvs => jget k kvs
  | JArr l => l !! i
  | JStr s => if (i <? units s)%nat then Some (JStr (String.substring i 1 s)) else None
  | _ => None
  end.

(** [x || d] *)
Definition jor (x : option Json) (d : Json) : Json := if truthy x then default d x else d.

(** [encodeURIComponent]: every other byte as its two hexadecimal digits *)
Definition uri_unreserved (c : ascii) : bool :=
  is_alnum c || existsb (fun d => bool_decide (c = d)) (String.list_ascii_of_string "-_.!~*'()").

Definition hex_digit (n : nat) : string := String.substring n 1 "0123456789ABCDEF".

Fixpoint encodeURIComponent (s : string) : string :=
  match s with
  | EmptyString => EmptyString
  | String c r =>
      (if uri_unreserved c then String c "" else "%" +:+ hex_digit (code c / 16) +:+ hex_digit (code c mod 16))
        +:+ encodeURIComponent r
  end%string.

(** ** The elements of a [Set]

    Strings, numbers and booleans are equal by value; an object or an array is
    equal to itself only, and every answer that is parsed makes new ones. *)

Definition same_value (a b : Json) : bool :=
  match a, b with
  | JNull, JNull => true
  | JBool x, JBool y => Bool.eqb x y
  | JNum x, JNum y => neqb x y || (is_nan x && is_nan y)
  | JStr x, JStr y => bool_decide (x = y)
  | _, _ => false
  end.

Definition jseen (k : Json) (seen : list Json) : bool := existsb (same_value k) seen.

(** [seen.add(k)] *)
Definition jadd (k : Json) (seen : list Json) : list Json := if jseen k seen then seen else seen ++ [k].

(** [[...new Set(ks)]] *)
Definition jset_of (ks : list Json) : list Json := foldl (fun s k => jadd k s) [] ks.

Lemma jseen_true k seen : jseen k seen = true <-> exists y, y ∈ seen /\ same_value k y = true.
Proof. apply some_true. Qed.

Lemma jseen_app k a b : jseen k (a ++ b) = jseen k a || jseen k b.
Proof. apply existsb_app. Qed.

Lemma jseen_mono k a b : a ⊆ b -> jseen k a = true -> jseen k b = true.
Proof. rewrite !jseen_true. intros Hab (y & Hy & Hk). exists y. split; [by apply Hab|done]. Qed.

Lemma subseteq_jadd k seen : seen ⊆ jadd k seen.
Proof. unfold jadd. destruct (jseen k seen); set_solver. Qed.

(** What is in a set of values: the primitive ones added. *)
Definition prim (k : Json) : bool := match k with JObj _ | JArr _ => false | _ => true end.

Lemma same_value_refl k : prim k = true -> same_value k k = true.
Proof.
  destruct k as [|b|x|s|l|kvs]; simpl; try done; intros _.
  - by destruct b.
  - unfold neqb, SFeqb, SFcompare. destruct x as [s|s| |s m e]; simpl; try done; [by destruct s|].
    destruct s; by rewrite Z.compare_refl, Pos.compare_cont_refl.
  - by apply bool_decide_eq_true.
Qed.

Lemma jadd_seen k seen : prim k = true -> jseen k (jadd k seen) = true.
Proof.
  intros Hk. unfold jadd. destruct (jseen k seen) eqn:E; [done|].
  rewrite jseen_app, E. simpl. by rewrite same_value_refl.
Qed.

(** Two values a set takes for different stay different after more are added. *)
Definition distinct (ks : list Json) : Prop :=
  forall i j a b, ks !! i = Some a -> ks !! j = Some b -> (i < j)%nat -> same_value b a = false.

Lemma distinct_nil : distinct [].
Proof. intros i j a b H. by rewrite lookup_nil in H. Qed.

Lemma distinct_snoc ks k : distinct ks -> jseen k ks = false -> distinct (ks ++ [k]).
Proof.
  intros Hd Hk i j a b Ha Hb Hij.
  apply lookup_app_Some in Hb as [Hb|[Hj Hb]].
  - rewrite lookup_app_l in Ha by (apply lookup_lt_Some in Hb; lia). by eapply Hd.
  - apply list_lookup_singleton_Some in Hb as [Hj' <-].
    rewrite lookup_app_l in Ha by lia. eapply (proj1 (some_false (same_value k) ks) Hk).
    by eapply list_elem_of_lookup_2.
Qed.

Lemma distinct_jadd k ks : distinct ks -> distinct (jadd k ks).
Proof. intros H. unfold jadd. destruct (jseen k ks) eqn:E; [done|]. by apply distinct_snoc. Qed.

Lemma distinct_jset_of ks : distinct (jset_of ks).
Proof.
  unfold jset_of. generalize distinct_nil. generalize (@nil Json).
  induction ks as [|k ks IH]; intros s Hs; simpl; [done|]. apply IH. by apply distinct_jadd.
Qed.

Lemma elem_of_jset_of k ks : k ∈ jset_of ks -> k ∈ ks.
Proof.
  unfold jset_of. cut (forall s, k ∈ foldl (fun s k => jadd k s) s ks -> k ∈ s \/ k ∈ ks).
  { intros H Hk. destruct (H [] Hk) as [H1|]; [by apply list.not_elem_of_nil in H1|done]. }
  induction ks as [|x ks IH]; intros s; simpl; [auto|]. intros [H|H]%IH; [|set_solver].
  unfold jadd in H. destruct (jseen x s); set_solver.
Qed.

(** ** Regular expressions *)

(** [/needle/i]: the needle is in lower case. *)
Definition includes_i (s needle : string) : bool := includes (toLowerCase s) needle.

(** The first character of a string is a word character. *)
Definition word_at (s : string) : bool := match s with String c _ => is_word c | EmptyString => false end.

(** [/\bneedle\b/] for a needle of word characters; [prev] tells whether the
    character before is a word character. *)
Fixpoint word_in (needle : string) (prev : bool) (s : string) : bool :=
  (negb prev && startsWith s needle && negb (word_at (skip (String.length needle) s)))
  || match s with
     | EmptyString => false
     | String c r => word_in needle (is_word c) r
     end.

Definition has_word (s needle : string) : bool := word_in needle false s.

Example has_word_run :
  map (fun s => has_word s "429") ["POST x 429 Too"; "x429"; "4290"; "(429)"; ""]%string = [true; false; false; true; false].
Proof. reflexivity. Qed.

(** * Dates ([Date] in UTC, and the weeks and schedules computed from it)

    A date is its time value, milliseconds since 1970-01-01 UTC.  [year_of] and
    the rest are ECMAScript's day arithmetic; [getISOWeek] and
    [msUntilNextClaim] are those of [src/executor/auto-claim.ts],
    [msUntilNextDac] and [startOfTaipeiDay] those of [src/executor/dac.ts],
    [floorToHour] and [floorToDay] those of [src/dashboard/asset-trend.ts].
    [getISOWeek] reads the host's local calendar, so the offset of the host's
    time zone is an argument. *)

Module Calendar.

Definition msPerHour : Z := 3600000.
Definition msPerDay : Z := 86400000.

(** [Math.floor(ts / (60 * 60 * 1000)) * (60 * 60 * 1000)] *)
Definition floorToHour (ts : Z) : Z := ts / msPerHour * msPerHour.
Definition floorToDay (ts : Z) : Z := ts / msPerDay * msPerDay.

(** ** Days, years, months *)

Definition day (t : Z) : Z := t / msPerDay.

(** The day of 1 January of a year. *)
Definition dayFromYear (y : Z) : Z :=
  365 * (y - 1970) + (y - 1969) / 4 - (y - 1901) / 100 + (y - 1601) / 400.

(** The year a day is in: an estimate by the mean length, corrected by one. *)
Definition year_of (d : Z) : Z :=
  let est := 1970 + 400 * d / 146097 in
  if d <? dayFromYear est then est - 1 else if dayFromYear (est + 1) <=? d then est + 1 else est.

Definition leap (y : Z) : bool := dayFromYear (y + 1) - dayFromYear y =? 366.

(** The days of a year before each month. *)
Definition month_starts (lp : bool) : list Z :=
  let l := if lp then 1 else 0 in
  [0; 31; 59 + l; 90 + l; 120 + l; 151 + l; 181 + l; 212 + l; 243 + l; 273 + l; 304 + l; 334 + l].

(** The month (1 to 12) and the day of the month. *)
Definition month_day (d : Z) : Z * Z :=
  let y := year_of d in
  let n := d - dayFromYear y in
  let before := List.filter (fun s => s <=? n) (month_starts (leap y)) in
  (Z.of_nat (length before), n - List.last before 0 + 1).

(** [getUTCDay], Sunday is 0. *)
Definition getUTCDay (t : Z) : Z := (day t + 4) mod 7.

(** [setUTCHours(h, m, 0, 0)] *)
Definition setUTCHours (h m : Z) (t : Z) : Z := day t * msPerDay + h * msPerHour + m * 60000.

(** [setUTCDate(getUTCDate() + n)] *)
Definition addDays (n : Z) (t : Z) : Z := t + n * msPerDay.

(** [toISOString]: an error outside the range of time values. *)
Definition toISOString (t : Z) : outcome string :=
  if Z.abs t <=? 8640000000000000 then
    let d := day t in
    let y := year_of d in
    let (mo, dd) := month_day d in
    let ms := t - d * msPerDay in
    let two z := pad_left 2 (Z_toString z) in
    let year := if (0 <=? y) && (y <=? 9999) then pad_left 4 (Z_toString y)
                else ((if (y <? 0)%Z then "-" else "+") +:+ pad_left 6 (Z_toString (Z.abs y)))%string in
    Ret (year +:+ "-" +:+ two mo +:+ "-" +:+ two dd +:+ "T" +:+ two (ms / msPerHour)%Z +:+ ":"
      +:+ two (ms / 60000 mod 60)%Z +:+ ":" +:+ two (ms / 1000 mod 60)%Z +:+ "."
      +:+ pad_left 3 (Z_toString (ms mod 1000)%Z) +:+ "Z")%string
  else Throw "Invalid time value".

Example toISOString_run :
  map toISOString [0; 951782400000; 1735689599999; -1; 253402300800000; 8640000000000001]
  = [Ret "1970-01-01T00:00:00.000Z"; Ret "2000-02-29T00:00:00.000Z"; Ret "2024-12-31T23:59:59.999Z";
     Ret "1969-12-31T23:59:59.999Z"; Ret "+010000-01-01T00:00:00.000Z"; Throw "Invalid time value"]%string.
Proof. reflexivity. Qed.

(** ** The ISO week *)

Section Week.
(** Local time minus UTC at an instant. *)
Context (tz : Z -> Z).

(** [Date.UTC(d.getFullYear(), d.getMonth(), d.getDate())], in days. *)
Definition local_day (t : Z) : Z := day (t + tz t).

(** [date.setUTCDate(date.getUTCDate() + 4 - (date.getUTCDay() || 7))]: the
    Thursday of the week. *)
Definition thursday (d : Z) : Z :=
  let w := (d + 4) mod 7 in d + 4 - (if w =? 0 then 7 else w).

Definition getISOWeek (t : Z) : string :=
  let date := thursday (local_day t) in
  let year := year_of date in
  let yearStart := dayFromYear year in
  let weekNo := (date - yearStart + 1 + 6) / 7 in
  (Z_toString year +:+ "-W" +:+ pad_left 2 (Z_toString weekNo))%string.

End Week.

(** ** The schedules *)

(** Milliseconds to the next Tuesday 08:30 UTC (16:30 in Taiwan). *)
Definition msUntilNextClaim (now : Z) : Z :=
  let target := setUTCHours 8 30 now in
  let dayDiff := (2 - getUTCDay now + 7) mod 7 in
  let target := addDays dayDiff target in
  let target := if target <=? now then addDays 7 target else target in
  target - now.

(** Milliseconds to the next [hour]:[minute] in Taipei (UTC+8). *)
Definition msUntilNextDac (hour minute : Z) (now : Z) : Z :=
  let targetUtcHour := Z.rem (hour - 8 + 24) 24 in
  let target := setUTCHours targetUtcHour minute now in
  let target := if target <=? now then addDays 1 target else target in
  target - now.

Definition taipeiOffset : Z := 8 * msPerHour.

(** Midnight in Taipei before an instant, in UTC. *)
Definition startOfTaipeiDay (now : Z) : Z := setUTCHours 0 0 (now + taipeiOffset) - taipeiOffset.

(** The calendar day in Taipei. *)
Definition taipeiDay (t : Z) : Z := day (t + taipeiOffset).

(** ** Lemmas *)

Ltac unfold_days :=
  unfold startOfTaipeiDay, taipeiDay, addDays, setUTCHours, getUTCDay, taipeiOffset, floorToHour, floorToDay,
    day, msPerDay, msPerHour in *.

Lemma year_of_spec d : dayFromYear (year_of d) <= d < dayFromYear (year_of d + 1).
Proof.
  unfold year_of.
  assert (forall y, dayFromYear (y + 1) - dayFromYear y = 365 \/ dayFromYear (y + 1) - dayFromYear y = 366) as Hlen.
  { intros y. unfold dayFromYear. Z.div_mod_to_equations. lia. }
  set (est := 1970 + 400 * d / 146097).
  assert (dayFromYear (est - 1) <= d < dayFromYear (est + 2)) as Hest.
  { subst est. pose proof (Z.div_mod (400 * d) 146097 ltac:(done)) as Hq. pose proof (Z.mod_pos_bound (400 * d) 146097 eq_refl) as Hr.
    generalize dependent ((400 * d) mod 146097). generalize (400 * d / 146097). intros q r Hq Hr.
    unfold dayFromYear. Z.div_mod_to_equations. lia. }
  destruct (d <? dayFromYear est) eqn:E1; [|destruct (dayFromYear (est + 1) <=? d) eqn:E2]; boolP.
  - replace (est - 1 + 1) with est by lia. lia.
  - replace (est + 1 + 1) with (est + 2) by lia. lia.
  - lia.
Qed.

(** No other year has the day. *)
Lemma dayFromYear_mono y y' : y <= y' -> dayFromYear y <= dayFromYear y'.
Proof. intros H. unfold dayFromYear. Z.div_mod_to_equations. lia. Qed.

Lemma year_of_unique d y : dayFromYear y <= d < dayFromYear (y + 1) -> year_of d = y.
Proof.
  intros Hy. pose proof (year_of_spec d) as Hs.
  destruct (Z.lt_trichotomy (year_of d) y) as [H|[H|H]]; [|done|].
  - pose proof (dayFromYear_mono (year_of d + 1) y). lia.
  - pose proof (dayFromYear_mono (y + 1) (year_of d)). lia.
Qed.

Lemma year_of_nonneg d : 0 <= d -> 1970 <= year_of d.
Proof.
  intros Hd. pose proof (year_of_spec d) as Hs. apply Z.nlt_ge. intros H.
  pose proof (dayFromYear_mono (year_of d + 1) 1970). change (dayFromYear 1970) with 0 in *. lia.
Qed.

Lemma thursday_spec d : thursday d = 7 * ((d + 3) / 7).
Proof. unfold thursday. destruct ((d + 4) mod 7 =? 0) eqn:E; boolP; Z.div_mod_to_equations; lia. Qed.

(** A number of a few digits can be read back from its padded text. *)
Lemma pad_left_2 n : 1 <= n <= 54 -> parse_nat 10 (pad_left 2 (Z_toString n)) = Some n.
Proof.
  intros Hn.
  assert (forallb (fun k => bool_decide (parse_nat 10 (pad_left 2 (Z_toString k)) = Some k)) (map Z.of_nat (seq 0 55)) = true) as H
    by (vm_compute; reflexivity).
  rewrite forallb_forall in H. eapply bool_decide_eq_true, H, in_map_iff. exists (Z.to_nat n).
  split; [lia|]. apply in_seq. lia.
Qed.

Lemma span_digits_at s t : all_chars is_digit s = true ->
  match t with String c _ => is_digit c | EmptyString => false end = false -> span is_digit (s +:+ t) = (s, t).
Proof.
  intros Hs Ht. induction s as [|d s IH]; simpl in *.
  - destruct t; simpl; [done|by rewrite Ht].
  - apply andb_true_iff in Hs as [Hd Hs]. by rewrite Hd, IH.
Qed.

(** A year and a week number can be read back from the text. *)
Lemma week_text_inj y w y' w' : 0 <= y -> 0 <= y' -> 1 <= w <= 54 -> 1 <= w' <= 54 ->
  (Z_toString y +:+ "-W" +:+ pad_left 2 (Z_toString w) = Z_toString y' +:+ "-W" +:+ pad_left 2 (Z_toString w'))%string ->
  y = y' /\ w = w'.
Proof.
  intros Hy Hy' Hw Hw' H. apply (f_equal (span is_digit)) in H.
  rewrite !span_digits_at in H by (try done; by apply all_digits_toString).
  apply pair_equal_spec in H as [H1 H2]. split.
  - apply (f_equal (parse_nat 10)) in H1. rewrite !parse_nat_toString in H1 by done. congruence.
  - apply (f_equal (fun u => parse_nat 10 (skip 2 u))) in H2.
    change (skip 2 ("-W" +:+ ?u)) with u in H2. cbv beta in H2. rewrite !pad_left_2 in H2 by done. congruence.
Qed.

Lemma week_number d : let date := thursday d in
  1 <= (date - dayFromYear (year_of date) + 1 + 6) / 7 <= 54.
Proof.
  intros date. pose proof (year_of_spec date) as H.
  assert (dayFromYear (year_of date + 1) - dayFromYear (year_of date) <= 366) as Hl.
  { unfold dayFromYear. Z.div_mod_to_equations. lia. }
  Z.div_mod_to_equations. lia.
Qed.

(** Two instants have the same week text exactly if their local days are in the
    same week from Monday to Sunday. *)
Lemma getISOWeek_same tz t t' : 0 <= local_day tz t -> 0 <= local_day tz t' ->
  (getISOWeek tz t = getISOWeek tz t' <-> (local_day tz t + 3) / 7 = (local_day tz t' + 3) / 7).
Proof.
  intros H0 H0'. unfold getISOWeek. cbv zeta.
  generalize (local_day tz t), (local_day tz t'), H0, H0'. clear. intros d d' Hd Hd'. split.
  - intros H. apply week_text_inj in H as [Hy Hw]; try apply week_number.
    + rewrite <- Hy in Hw. rewrite !thursday_spec in Hw. rewrite !thursday_spec in Hy.
      clear Hy. generalize dependent (dayFromYear (year_of (7 * ((d + 3) / 7)))). intros s Hw.
      Z.div_mod_to_equations. lia.
    + pose proof (year_of_nonneg (thursday d)). rewrite thursday_spec in *. Z.div_mod_to_equations. lia.
    + pose proof (year_of_nonneg (thursday d')). rewrite thursday_spec in *. Z.div_mod_to_equations. lia.
  - intros H. by rewrite !thursday_spec, H.
Qed.

(** ** The schedule of the claims *)

(** Tuesday 08:30 UTC. *)
Definition claim_time (t : Z) : Prop := getUTCDay t = 2 /\ t mod msPerDay = 8 * msPerHour + 30 * 60000.

Lemma claim_time_iff t : claim_time t <-> exists n, t = n * msPerDay + 30600000 /\ (n + 4) mod 7 = 2.
Proof.
  unfold claim_time. unfold_days. split.
  - intros [Hw Hm]. exists (t / 86400000). split; [|done]. Z.div_mod_to_equations. lia.
  - intros (n & -> & Hn). rewrite Z.div_add_l, (Z.add_comm (n * _)), Z.mod_add by done.
    change (30600000 / 86400000) with 0. by rewrite Z.add_0_r.
Qed.

(** The last claim time not after an instant is a whole number of days before it. *)
Lemma claim_times_apart t t' : claim_time t -> claim_time t' -> t < t' -> t + 7 * msPerDay <= t'.
Proof.
  rewrite !claim_time_iff. intros (n & -> & Hn) (m & -> & Hm). unfold_days. intros H.
  Z.div_mod_to_equations. lia.
Qed.

Lemma next_claim now : let ms := msUntilNextClaim now in
  0 < ms <= 7 * msPerDay /\ claim_time (now + ms) /\ forall t, now < t < now + ms -> ~ claim_time t.
Proof.
  intros ms.
  assert (0 < ms <= 7 * msPerDay /\ claim_time (now + ms)) as [Hb Hc].
  { subst ms. unfold msUntilNextClaim. rewrite claim_time_iff. unfold_days. cbv zeta.
    set (q := now / 86400000). set (k := (2 - (q + 4) mod 7 + 7) mod 7).
    assert (0 <= k < 7 /\ (q + k + 4) mod 7 = 2) as [Hk Hq] by (subst k; clear; Z.div_mod_to_equations; lia).
    assert (q * 86400000 <= now < q * 86400000 + 86400000) as Hn by (subst q; clear; Z.div_mod_to_equations; lia).
    clearbody q k. destruct (_ <=? now) eqn:E; boolP; (split; [lia|]).
    - exists (q + k + 7). split; [lia|]. replace (q + k + 7 + 4) with (q + k + 4 + 1 * 7) by lia. by rewrite Z.mod_add.
    - exists (q + k). split; [lia|done]. }
  split; [done|split; [done|]]. intros t Ht Hct. pose proof (claim_times_apart _ _ Hct Hc). unfold_days. lia.
Qed.

(** The instants at a given time of the day in Taipei. *)
Lemma taipei_time_iff w t : 0 <= w < msPerDay ->
  ((t + taipeiOffset) mod msPerDay = w <-> exists n, t + taipeiOffset = n * msPerDay + w).
Proof.
  unfold_days. intros Hw. split.
  - intros <-. exists ((t + 8 * 3600000) / 86400000). Z.div_mod_to_equations. lia.
  - intros (n & ->). rewrite Z.add_comm, Z.mod_add by done. by apply Z.mod_small.
Qed.

Lemma next_dac hour minute now : 0 <= hour < 24 -> 0 <= minute < 60 ->
  let ms := msUntilNextDac hour minute now in
  let w := hour * msPerHour + minute * 60000 in
  0 < ms <= msPerDay /\ (now + ms + taipeiOffset) mod msPerDay = w
  /\ forall t, now < t < now + ms -> (t + taipeiOffset) mod msPerDay <> w.
Proof.
  intros Hh Hm ms w.
  assert (0 <= w < msPerDay) as Hw by (subst w; unfold_days; lia).
  rewrite (taipei_time_iff w) by done.
  assert (0 < ms <= msPerDay /\ exists n, now + ms + taipeiOffset = n * msPerDay + w) as [Hb Hc].
  { subst ms w. unfold msUntilNextDac. rewrite Z.rem_mod_nonneg by lia. unfold_days. cbv zeta.
    set (q := now / 86400000).
    assert (q * 86400000 <= now < q * 86400000 + 86400000) as Hn by (subst q; clear; Z.div_mod_to_equations; lia).
    assert (exists e, 0 <= hour - 8 + 24 * e < 24 /\ (hour - 8 + 24) mod 24 = hour - 8 + 24 * e) as (e & He & ->)
      by (exists (if hour <? 8 then 1 else 0); destruct (hour <? 8) eqn:E; boolP; Z.div_mod_to_equations; lia).
    clearbody q. destruct (_ <=? now) eqn:E; boolP; (split; [lia|]).
    - exists (q + e + 1). lia.
    - exists (q + e). lia. }
  split; [done|split; [done|]]. intros t Ht. rewrite (taipei_time_iff w) by done. intros (n & Hn).
  destruct Hc as (n' & Hc). unfold_days. lia.
Qed.

(** A date is on a later or the same Taipei day exactly if it is not before its start. *)
Lemma startOfTaipeiDay_le t now : startOfTaipeiDay now <= t <-> taipeiDay now <= taipeiDay t.
Proof. unfold_days. Z.div_mod_to_equations. lia. Qed.

Lemma floorToHour_le t : floorToHour t <= t < floorToHour t + msPerHour.
Proof. unfold_days. Z.div_mod_to_equations. lia. Qed.
Lemma floorToDay_le t : floorToDay t <= t < floorToDay t + msPerDay.
Proof. unfold_days. Z.div_mod_to_equations. lia. Qed.
Lemma floorToHour_mono a b : a <= b -> floorToHour a <= floorToHour b.
Proof. unfold_days. Z.div_mod_to_equations. lia. Qed.
Lemma floorToDay_mono a b : a <= b -> floorToDay a <= floorToDay b.
Proof. unfold_days. Z.div_mod_to_equations. lia. Qed.

End Calendar.
