(* ===== verification/Async.v ===== *)
(** * Asynchronous methods

    An [async] method is a tree: it reads and writes the state of the process,
    reads the clock, starts other activations, and suspends at each [await]
    on a call of the outside world, whose answer is a value or an exception.
    JavaScript runs the code between two suspensions without interruption, so
    another activation can change the state only at an [Await].

    - [Prog] with [bind], [catch] and [finally], the semantics of [await],
      [try]/[catch] and [try]/[finally];
    - [run], an activation against an environment that answers every call and
      may change the state meanwhile; it is a Fixpoint, since every loop of the
      source is bounded, so an activation always ends;
    - [wp], a program logic: what an activation guarantees about its own writes
      and calls, with a ghost value that records them, relying on what others
      may change while it is suspended;
    - [World] and [wstep], any number of activations taking turns, and
      [interleaving_sound]: activations proved separately keep a global
      invariant in every interleaving. The module [AsyncMore] at the end:
      programs over other calls, the possible runs of a program ([behaves]) and
      what an implementation of its calls makes of them ([carried]), and a flag
      that one activation at a time may hold. *)

From S2P Require Import Prelude.
Open Scope list_scope.

Module Async.

Section Async.
Context {S : Type} {Call : Type} {Ans : Call -> Type} {Task : Type}.

Inductive Prog (A : Type) : Type :=
| Done (r : outcome A)
| Get (k : S -> Prog A)
| Put (s : S) (k : Prog A)
| Now (k : Z -> Prog A)
| Await (c : Call) (k : outcome (Ans c) -> Prog A)
| Spawn (t : Task) (k : Prog A).

Arguments Done {A} r.
Arguments Get {A} k.
Arguments Put {A} s k.
Arguments Now {A} k.
Arguments Await {A} c k.
Arguments Spawn {A} t k.

(** What an activation did, the last first. *)
Inductive HEvent :=
| Called (c : Call) (r : outcome (Ans c))
| Spawned (t : Task).

Abbreviation Hist := (list HEvent).

(** Both ends of a sequence, [catch] and [finally] at once: what to do with
    the result of [m]. *)
Fixpoint after {A B} (m : Prog A) (f : outcome A -> Prog B) : Prog B :=
  match m with
  | Done r => f r
  | Get k => Get (fun s => after (k s) f)
  | Put s k => Put s (after k f)
  | Now k => Now (fun t => after (k t) f)
  | Await c k => Await c (fun r => after (k r) f)
  | Spawn t k => Spawn t (after k f)
  end.

Definition ret {A} (a : A) : Prog A := Done (Ret a).
Definition throw {A} (e : string) : Prog A := Done (Throw e).

Definition bind {A B} (m : Prog A) (f : A -> Prog B) : Prog B :=
  after m (fun r => match r with Ret a => f a | Throw e => throw e end).

(** [try { m } catch (err) { h }]; [err] is its message. *)
Definition catch {A} (m : Prog A) (h : string -> Prog A) : Prog A :=
  after m (fun r => match r with Ret a => ret a | Throw e => h e end).

(** [try { m } finally { f }] for a clean-up that does not throw. *)
Definition finally {A} (m : Prog A) (f : Prog unit) : Prog A :=
  after m (fun r => after f (fun _ => Done r)).

Definition gets {A} (f : S -> A) : Prog A := Get (fun s => ret (f s)).
Definition modify (f : S -> S) : Prog unit := Get (fun s => Put (f s) (ret tt)).
Definition clock : Prog Z := Now ret.
Definition await (c : Call) : Prog (Ans c) := Await c Done.
Definition spawn (t : Task) : Prog unit := Spawn t (ret tt).
Definition lift {A} (o : outcome A) : Prog A := Done o.

(** [for (const x of xs) { body }]; an exception ends the loop. *)
Fixpoint for_each {X} (body : X -> Prog unit) (xs : list X) : Prog unit :=
  match xs with
  | [] => ret tt
  | x :: xs' => bind (body x) (fun _ => for_each body xs')
  end.

(** ** Running one activation *)

(** The environment at the [n]-th call and the [n]-th reading of the clock. *)
Record Env := mkEnv {
  answer : nat -> forall c, S -> outcome (Ans c) * S;
  time : nat -> Z;
}.

Record Result (A : Type) := mkResult { res : outcome A; final : S; hist : Hist }.
Arguments mkResult {A} _ _ _.
Arguments res {A} _.
Arguments final {A} _.
Arguments hist {A} _.

(** [n] counts the calls and readings so far, [h] is what was done. *)
Fixpoint run {A} (env : Env) (n : nat) (h : Hist) (p : Prog A) (s : S) : Result A :=
  match p with
  | Done r => mkResult r s h
  | Get k => run env n h (k s) s
  | Put s' k => run env n h k s'
  | Now k => run env (Datatypes.S n) h (k (time env n)) s
  | Await c k =>
      let (r, s') := answer env n c s in run env (Datatypes.S n) (Called c r :: h) (k r) s'
  | Spawn t k => run env n (Spawned t :: h) k s
  end.

(** ** The program logic *)

(** What one activation may do, with a ghost value of type [G]. *)
Record Logic (G : Type) := mkLogic {
  l_put : G -> S -> S -> G -> Prop;                      (** its own write *)
  l_pre : G -> Call -> Prop;                             (** a call it may make *)
  l_rely : G -> S -> S -> Prop;                          (** what others do meanwhile *)
  l_ok : forall c, outcome (Ans c) -> Prop;              (** the answers to expect *)
  l_post : G -> forall c, outcome (Ans c) -> G;
  l_spawn : G -> Task -> G;
}.
Arguments l_put {G} _ _ _ _ _.
Arguments l_pre {G} _ _ _.
Arguments l_rely {G} _ _ _ _.
Arguments l_ok {G} _ _ _.
Arguments l_post {G} _ _ _ _.
Arguments l_spawn {G} _ _ _.

Section Logic.
Context {G : Type} (L : Logic G).

Fixpoint wp {A} (p : Prog A) (g : G) (s : S) (Q : outcome A -> G -> S -> Prop) : Prop :=
  match p with
  | Done r => Q r g s
  | Get k => wp (k s) g s Q
  | Put s' k => exists g', l_put L g s s' g' /\ wp k g' s' Q
  | Now k => forall t, wp (k t) g s Q
  | Await c k =>
      l_pre L g c /\
      forall r s', l_ok L c r -> l_rely L g s s' -> wp (k r) (l_post L g c r) s' Q
  | Spawn t k => wp k (l_spawn L g t) s Q
  end.

Lemma wp_mono {A} (p : Prog A) g s (Q Q' : outcome A -> G -> S -> Prop) :
  wp p g s Q -> (forall r g s, Q r g s -> Q' r g s) -> wp p g s Q'.
Proof.
  intros H HQ. revert g s H. induction p as [r|k IH|s' k IH|k IH|c k IH|t k IH]; intros g s; simpl.
  - apply HQ.
  - apply IH.
  - intros (g' & Hp & H). exists g'. auto.
  - intros H t. auto.
  - intros [Hp H]. split; [done|]. intros r s' Hok Hr. apply IH. auto.
  - apply IH.
Qed.

Lemma wp_after {A B} (m : Prog A) (f : outcome A -> Prog B) g s Q :
  wp m g s (fun r g s => wp (f r) g s Q) <-> wp (after m f) g s Q.
Proof.
  revert g s. induction m as [r|k IH|s' k IH|k IH|c k IH|t k IH]; intros g s; simpl; [done|apply IH| | | |apply IH].
  - split; intros (g' & Hp & H); exists g'; (split; [done|]); by apply IH.
  - split; intros H t; by apply IH.
  - split; intros [Hp H]; (split; [done|]); intros r s' Hok Hr; by apply IH, H.
Qed.

(** The rules of the statements, read backwards from the continuation. *)
Lemma wp_bind {A B} (m : Prog A) (f : A -> Prog B) g s Q :
  wp m g s (fun r g s => match r with Ret a => wp (f a) g s Q | Throw e => Q (Throw e) g s end) ->
  wp (bind m f) g s Q.
Proof. intros H. apply wp_after. eapply wp_mono; [exact H|]. by intros [a|e] g' s'. Qed.

Lemma wp_catch {A} (m : Prog A) (h : string -> Prog A) g s Q :
  wp m g s (fun r g s => match r with Ret a => Q (Ret a) g s | Throw e => wp (h e) g s Q end) ->
  wp (catch m h) g s Q.
Proof. intros H. apply wp_after. eapply wp_mono; [exact H|]. by intros [a|e] g' s'. Qed.

Lemma wp_finally {A} (m : Prog A) (f : Prog unit) g s Q :
  wp m g s (fun r g s => wp f g s (fun _ g s => Q r g s)) -> wp (finally m f) g s Q.
Proof.
  intros H. apply wp_after. eapply wp_mono; [exact H|]. intros r g' s' Hf. by apply wp_after.
Qed.

Lemma wp_modify f g s (Q : outcome unit -> G -> S -> Prop) g' :
  l_put L g s (f s) g' -> Q (Ret tt) g' (f s) -> wp (modify f) g s Q.
Proof. intros H HQ. simpl. eauto. Qed.

Lemma wp_await c g s (Q : outcome (Ans c) -> G -> S -> Prop) :
  l_pre L g c ->
  (forall r s', l_ok L c r -> l_rely L g s s' -> Q r (l_post L g c r) s') -> wp (await c) g s Q.
Proof. by split. Qed.

(** The logic holds of [run] when the environment keeps to it. *)
Definition respects (env : Env) : Prop :=
  forall n c g s, l_ok L c (answer env n c s).1 /\ l_rely L g s (answer env n c s).2.

Lemma wp_run {A} (p : Prog A) env n h g s Q :
  respects env -> wp p g s Q ->
  let x := run env n h p s in exists g', Q (res x) g' (final x).
Proof.
  intros He. revert n h g s. induction p as [r|k IH|s' k IH|k IH|c k IH|t k IH]; intros n h g s H; simpl in *.
  - eauto.
  - by apply (IH s n h g s).
  - destruct H as (g' & _ & H). by apply (IH n h g' s').
  - apply (IH (time env n) _ h g s), H.
  - destruct H as [_ H]. destruct (He n c g s) as [Hok Hr]. destruct (answer env n c s) as [r s'].
    apply (IH r _ _ (l_post L g c r) s'), H; done.
  - by apply (IH n _ (l_spawn L g t) s).
Qed.

End Logic.

(** The history itself as the ghost value; every write allowed that [put]
    allows, relying on [rely]. *)
Definition hist_logic (put : Hist -> S -> S -> Prop) (rely : S -> S -> Prop)
    (ok : forall c, outcome (Ans c) -> Prop) : Logic Hist :=
  mkLogic Hist (fun h s s' h' => put h s s' /\ h' = h) (fun _ _ => True)
    (fun _ => rely) ok (fun h c r => Called c r :: h) (fun h t => Spawned t :: h).

Lemma hist_run {A} (p : Prog A) put rely ok env n h s Q :
  (forall n c s, ok c (answer env n c s).1 /\ rely s (answer env n c s).2) ->
  wp (hist_logic put rely ok) p h s Q ->
  let x := run env n h p s in Q (res x) (hist x) (final x).
Proof.
  intros He. revert n h s. induction p as [r|k IH|s' k IH|k IH|c k IH|t k IH]; intros n h s H; simpl in *.
  - done.
  - by apply IH.
  - destruct H as (g' & [_ ->] & H). by apply IH.
  - by apply IH.
  - destruct H as [_ H]. destruct (He n c s) as [Hok Hr]. destruct (answer env n c s) as [r s']. apply IH, H; done.
  - by apply IH.
Qed.

(** Any program, when every write and every interference is allowed. *)
Lemma hist_any {A} (p : Prog A) ok h s :
  wp (hist_logic (fun _ _ _ => True) (fun _ _ => True) ok) p h s (fun _ _ _ => True).
Proof.
  revert h s. induction p as [r|k IH|s' k IH|k IH|c k IH|t k IH]; intros h s; simpl; auto.
  exists h. auto.
Qed.

(** Every call of a history, judged by what was done before it. *)
Fixpoint each_call (P : Hist -> Call -> Prop) (h : Hist) : Prop :=
  match h with
  | [] => True
  | Called c _ :: h' => P h' c /\ each_call P h'
  | Spawned _ :: h' => each_call P h'
  end.

(** The history as ghost value, with a condition on each call. *)
Definition call_logic (P : Hist -> Call -> Prop) (rely : S -> S -> Prop) (ok : forall c, outcome (Ans c) -> Prop)
    : Logic Hist :=
  mkLogic Hist (fun h _ _ h' => h' = h) P (fun _ => rely) ok
    (fun h c r => Called c r :: h) (fun h t => Spawned t :: h).

Lemma calls_run {A} (p : Prog A) P rely ok env n h s Q :
  (forall n c s, ok c (answer env n c s).1 /\ rely s (answer env n c s).2) ->
  each_call P h -> wp (call_logic P rely ok) p h s Q ->
  let x := run env n h p s in each_call P (hist x) /\ Q (res x) (hist x) (final x).
Proof.
  intros He. revert n h s. induction p as [r|k IH|s' k IH|k IH|c k IH|t k IH]; intros n h s Hh H; simpl in *.
  - done.
  - by apply IH.
  - destruct H as (g' & -> & H). by apply IH.
  - by apply IH.
  - destruct H as [Hc H]. destruct (He n c s) as [Hok Hr]. destruct (answer env n c s) as [r s']. apply IH; [done|].
    by apply H.
  - by apply IH.
Qed.

(** ** Programs that keep to a discipline

    [always R C p]: from any state, every write of [p] is in [R] and every call
    in [C], whatever the others do.  The rules are syntax-directed. *)

Definition always_logic (R : S -> S -> Prop) (C : Call -> Prop) : Logic unit :=
  mkLogic unit (fun _ s s' _ => R s s') (fun _ c => C c) (fun _ _ _ => True) (fun _ _ => True)
    (fun _ _ _ => tt) (fun _ _ => tt).

Definition always {A} (R : S -> S -> Prop) (C : Call -> Prop) (p : Prog A) : Prop :=
  forall g s, wp (always_logic R C) p g s (fun _ _ _ => True).

Section Always.
Context (R : S -> S -> Prop) (C : Call -> Prop).

Lemma always_done {A} (r : outcome A) : always R C (Done r).
Proof. by intros g s. Qed.

Lemma always_after {A B} (m : Prog A) (f : outcome A -> Prog B) :
  always R C m -> (forall r, always R C (f r)) -> always R C (after m f).
Proof. intros Hm Hf g s. apply wp_after. eapply wp_mono; [apply Hm|]. intros r g' s' _. apply Hf. Qed.

Lemma always_bind {A B} (m : Prog A) (f : A -> Prog B) :
  always R C m -> (forall a, always R C (f a)) -> always R C (bind m f).
Proof. intros Hm Hf. apply always_after; [done|]. intros [a|e]; [apply Hf|apply always_done]. Qed.

Lemma always_catch {A} (m : Prog A) (h : string -> Prog A) :
  always R C m -> (forall e, always R C (h e)) -> always R C (catch m h).
Proof. intros Hm Hh. apply always_after; [done|]. intros [a|e]; [apply always_done|apply Hh]. Qed.

Lemma always_finally {A} (m : Prog A) (f : Prog unit) :
  always R C m -> always R C f -> always R C (finally m f).
Proof. intros Hm Hf. apply always_after; [done|]. intros r. apply always_after; [done|]. intros _. apply always_done. Qed.

Lemma always_gets {A} (f : S -> A) : always R C (gets f).
Proof. by intros g s. Qed.

Lemma always_clock : always R C clock.
Proof. by intros g s t. Qed.

Lemma always_spawn t : always R C (spawn t).
Proof. by intros g s. Qed.

Lemma always_modify f : (forall s, R s (f s)) -> always R C (modify f).
Proof. intros H g s. exists tt. split; [apply H|done]. Qed.

Lemma always_await c : C c -> always R C (await c).
Proof. intros H g s. by split. Qed.

Lemma always_for_each {X} (body : X -> Prog unit) xs :
  (forall x, always R C (body x)) -> always R C (for_each body xs).
Proof.
  intros H. induction xs as [|x xs IH]; simpl; [apply always_done|]. apply always_bind; [apply H|by intros _].
Qed.

End Always.

Lemma always_weaken {A} (R R' : S -> S -> Prop) (C C' : Call -> Prop) (p : Prog A) :
  (forall s s', R s s' -> R' s s') -> (forall c, C c -> C' c) -> always R C p -> always R' C' p.
Proof.
  intros HR HC Hp g s. specialize (Hp g s). revert g s Hp.
  induction p as [r|k IH|s' k IH|k IH|c k IH|t k IH]; intros g s; simpl; auto.
  - intros (g' & Hr & H). exists g'. auto.
  - intros [Hc H]. split; [by apply HC|]. intros r s' Hok Hr. by apply IH, H.
Qed.

(** A logic whose ghost value such a program does not change. *)
Lemma always_wp {A G} (L : Logic G) (R : S -> S -> Prop) (C : Call -> Prop) (p : Prog A) g s :
  (forall s s', R s s' -> l_put L g s s' g) -> (forall c, C c -> l_pre L g c) ->
  (forall c r, l_post L g c r = g) -> (forall t, l_spawn L g t = g) ->
  always R C p -> wp L p g s (fun _ g' _ => g' = g).
Proof.
  intros HR HC Hpost Hsp Hp. specialize (Hp tt s). revert s Hp.
  induction p as [r|k IH|s' k IH|k IH|c k IH|t k IH]; intros s; simpl.
  - done.
  - apply IH.
  - intros ([] & Hr & H). exists g. auto.
  - intros H t. by apply IH.
  - intros [Hc H]. split; [by apply HC|]. intros r s' Hok Hr. rewrite Hpost. apply IH. by apply H.
  - rewrite Hsp. apply IH.
Qed.

(** Such a program under a condition on each call: its history grows, and the
    state goes from one to a related one. *)
Lemma always_grows {A} (P : Hist -> Call -> Prop) ok (rely R T : S -> S -> Prop) (C : Call -> Prop) (p : Prog A) h s :
  (forall s, T s s) -> (forall s1 s2 s3, T s1 s2 -> T s2 s3 -> T s1 s3) ->
  (forall s s', R s s' -> T s s') -> (forall s s', rely s s' -> T s s') ->
  (forall h c, C c -> P h c) -> always R C p ->
  wp (call_logic P rely ok) p h s (fun _ h' s' => h `suffix_of` h' /\ T s s').
Proof.
  intros Hrefl Htrans HR Hrely HC Hp. specialize (Hp tt s).
  cut (forall h0 s0, h0 `suffix_of` h -> T s0 s ->
         wp (call_logic P rely ok) p h s (fun _ h' s' => h0 `suffix_of` h' /\ T s0 s')).
  { intros H. by apply H. }
  revert h s Hp. induction p as [r|k IH|s' k IH|k IH|c k IH|t k IH]; intros h s Hp h0 s0 Hh Hs; simpl in *.
  - done.
  - by apply IH.
  - destruct Hp as ([] & Hr & Hp). exists h. split; [done|]. apply IH; [done|done|]. eauto.
  - intros t. by apply IH.
  - destruct Hp as [Hc Hp]. split; [by apply HC|]. intros r s' _ Hr. apply IH; [by apply Hp|by apply suffix_cons_r|]. eauto.
  - apply IH; [done|by apply suffix_cons_r|done].
Qed.

(** ** What an activation can cost

    [costs w n p]: the calls of [p] weigh at most [n] together, whatever the
    answers.  With weight one this bounds the number of calls, so it is a bound
    on how long the activation goes on. *)

Definition cost_logic (w : Call -> Z) : Logic Z :=
  mkLogic Z (fun g _ _ g' => g' = g) (fun _ _ => True) (fun _ _ _ => True) (fun _ _ => True)
    (fun g c _ => g + w c)%Z (fun g _ => g).

Definition costs {A} (w : Call -> Z) (n : Z) (p : Prog A) : Prop :=
  forall g s, wp (cost_logic w) p g s (fun _ g' _ => g <= g' <= g + n)%Z.

Definition spent (w : Call -> Z) (h : Hist) : Z :=
  foldr (fun e acc => match e with Called c _ => w c + acc | Spawned _ => acc end)%Z 0%Z h.

Section Costs.
Context (w : Call -> Z).

Lemma costs_done {A} (r : outcome A) : costs w 0 (Done r).
Proof. intros g s. simpl. lia. Qed.

Lemma costs_after {A B} n m (p : Prog A) (f : outcome A -> Prog B) :
  costs w n p -> (forall r, costs w m (f r)) -> costs w (n + m) (after p f).
Proof.
  intros Hp Hf g s. apply wp_after. eapply wp_mono; [apply Hp|]. intros r g' s' Hg.
  eapply wp_mono; [apply Hf|]. simpl; intros; simpl in *; lia.
Qed.

Lemma costs_le {A} n m (p : Prog A) : costs w n p -> (n <= m)%Z -> costs w m p.
Proof. intros Hp Hle g s. eapply wp_mono; [apply Hp|]. simpl; intros; simpl in *; lia. Qed.

(** A program that costs something costs a non-negative amount. *)
Lemma costs_bind {A B} n m (p : Prog A) (f : A -> Prog B) :
  (0 <= m)%Z -> costs w n p -> (forall a, costs w m (f a)) -> costs w (n + m) (bind p f).
Proof.
  intros Hm Hp Hf. apply costs_after; [done|]. intros [a|e]; [apply Hf|].
  eapply costs_le; [apply costs_done|done].
Qed.

Lemma costs_catch {A} n m (p : Prog A) (h : string -> Prog A) :
  (0 <= m)%Z -> costs w n p -> (forall e, costs w m (h e)) -> costs w (n + m) (catch p h).
Proof.
  intros Hm Hp Hh. apply costs_after; [done|]. intros [a|e]; [|apply Hh].
  eapply costs_le; [apply costs_done|done].
Qed.

Lemma costs_finally {A} n m (p : Prog A) (f : Prog unit) :
  costs w n p -> costs w m f -> costs w (n + m) (finally p f).
Proof.
  intros Hp Hf. apply costs_after; [done|]. intros r. replace m with (m + 0)%Z by lia.
  apply costs_after; [done|]. intros _. apply costs_done.
Qed.

Lemma costs_gets {A} (f : S -> A) : costs w 0 (gets f).
Proof. intros g s. simpl. lia. Qed.
Lemma costs_clock : costs w 0 clock.
Proof. intros g s t. simpl. lia. Qed.
Lemma costs_spawn t : costs w 0 (spawn t).
Proof. intros g s. simpl. lia. Qed.
Lemma costs_modify f : costs w 0 (modify f).
Proof. intros g s. exists g. simpl. split; [done|lia]. Qed.
Lemma costs_await c : (0 <= w c)%Z -> costs w (w c) (await c).
Proof. intros Hc g s. split; [done|]. intros r s' _ _. simpl. lia. Qed.

(** A loop of calls that cost nothing. *)
Lemma costs_for_each {X} (body : X -> Prog unit) xs :
  (forall x, costs w 0 (body x)) -> costs w 0 (for_each body xs).
Proof.
  intros H. induction xs as [|x xs IH]; simpl; [apply costs_done|].
  replace 0%Z with (0 + 0)%Z by done. apply costs_bind; [done|apply H|by intros _].
Qed.

Lemma costs_run {A} n (p : Prog A) env k h s :
  costs w n p -> (spent w (hist (run env k h p s)) <= spent w h + n)%Z.
Proof.
  intros Hp. specialize (Hp (spent w h) s). revert k h s Hp.
  cut (forall k h s g, g = spent w h -> forall m,
         wp (cost_logic w) p g s (fun _ g' _ => (g' <= m)%Z) -> (spent w (hist (run env k h p s)) <= m)%Z).
  { intros Hc k h s Hp. eapply (Hc k h s _ eq_refl). eapply wp_mono; [exact Hp|]. simpl; intros; simpl in *; lia. }
  induction p as [r|k' IH|s' k' IH|k' IH|c k' IH|t k' IH]; intros k h s g -> m; simpl.
  - done.
  - by apply IH.
  - intros (g' & -> & H). by eapply IH.
  - intros H. by eapply IH.
  - intros [_ H]. destruct (answer env k c s) as [r s']. eapply (IH r); [|by apply H]. simpl. lia.
  - intros H. by eapply IH.
Qed.

End Costs.

(** ** Activations taking turns *)

(** An activation at an [await], or at its end. *)
Inductive Thread :=
| Suspended (A : Type) (c : Call) (k : outcome (Ans c) -> Prog A)
| Ended.

Record World := mkWorld { shared : S; threads : list Thread }.

(** Run a section up to the next [await]; [t] is the clock during it, and the
    activations it starts are the second component. *)
Fixpoint section {A} (t : Z) (p : Prog A) (s : S) : S * list Task * Thread :=
  match p with
  | Done _ => (s, [], Ended)
  | Get k => section t (k s) s
  | Put s' k => section t k s'
  | Now k => section t (k t) s
  | Await c k => (s, [], Suspended A c k)
  | Spawn tk k => let '(s', ts, th) := section t k s in (s', tk :: ts, th)
  end.

Inductive WEvent :=
| Begin (A : Type) (p : Prog A) (t : Z)                    (** a method is called *)
| Resume (i : nat) (t : Z) (r : forall c, outcome (Ans c)). (** the awaited call of thread [i] settles *)

(** The started activations are begun by later [Begin] events. *)
Definition wstep (w : World) (e : WEvent) : World :=
  match e with
  | Begin A p t =>
      let '(s', _, th) := section t p (shared w) in mkWorld s' (threads w ++ [th])
  | Resume i t r =>
      match threads w !! i with
      | Some (Suspended A c k) =>
          let '(s', _, th) := section t (k (r c)) (shared w) in mkWorld s' (<[i := th]> (threads w))
      | _ => w
      end
  end.

Section Interleaving.
Context {G O : Type} (L : Logic G).
(** Whose an activation is, and the ghost value of one that begins or has ended. *)
Context (own : G -> O) (begin_ : O -> G) (own_begin : forall o, own (begin_ o) = o).
(** The invariant of the whole: the state against the ghost values. *)
Context (I : list G -> S -> Prop).

(** A write of one activation keeps the invariant, and the others rely on no
    more than what it does. *)
Record coherent : Prop := {
  coherent_put : forall gs i g s s' g', I gs s -> gs !! i = Some g -> l_put L g s s' g' ->
    own g' = own g /\ I (<[i := g']> gs) s' /\ forall j gj, j <> i -> gs !! j = Some gj -> l_rely L gj s s';
  coherent_post : forall gs i g s c r, I gs s -> gs !! i = Some g ->
    own (l_post L g c r) = own g /\ I (<[i := l_post L g c r]> gs) s;
  coherent_spawn : forall gs i g s t, I gs s -> gs !! i = Some g ->
    own (l_spawn L g t) = own g /\ I (<[i := l_spawn L g t]> gs) s;
  coherent_begin : forall gs s o, I gs s -> I (gs ++ [begin_ o]) s;
  rely_refl : forall g s, l_rely L g s s;
  rely_trans : forall g s1 s2 s3, l_rely L g s1 s2 -> l_rely L g s2 s3 -> l_rely L g s1 s3;
}.

Context (coh : coherent).

Definition at_rest (g : G) : Prop := g = begin_ (own g).

(** A suspended activation is good from the state at its suspension on, under
    any further change it can rely on; it ends at rest. *)
Definition good (th : Thread) (g : G) (s : S) : Prop :=
  match th with
  | Suspended A c k => l_pre L g c /\
      forall r s', l_ok L c r -> l_rely L g s s' ->
        wp L (k r) (l_post L g c r) s' (fun _ g' _ => at_rest g')
  | Ended => at_rest g
  end.

Lemma good_rely th g s s' : good th g s -> l_rely L g s s' -> good th g s'.
Proof using coh.
  destruct th as [A c k|]; simpl; [|done]. intros [Hp H] Hr. split; [done|].
  intros r s'' Hok Hr'. apply H; [done|]. by apply (rely_trans coh _ _ s').
Qed.

(** What a section of activation [i] with ghost value [g] guarantees. *)
Definition section_ok (gs : list G) (i : nat) (g : G) (s : S) (x : S * list Task * Thread) : Prop :=
  exists g', own g' = own g /\ I (<[i := g']> gs) x.1.1 /\ good x.2 g' x.1.1
    /\ forall j gj, j <> i -> gs !! j = Some gj -> l_rely L gj s x.1.1.

Lemma section_ok_insert gs i g g1 s s' x :
  own g1 = own g -> (forall j gj, j <> i -> gs !! j = Some gj -> l_rely L gj s s') ->
  section_ok (<[i := g1]> gs) i g1 s' x -> section_ok gs i g s x.
Proof using coh.
  intros Ho Hr1 (g' & Hg' & HI' & Hgood & Hr'). rewrite list_insert_insert_eq in HI'.
  exists g'. split; [congruence|]. split; [done|split; [done|]]. intros j gj Hj Hgj.
  apply (rely_trans coh _ _ s'); [by apply (Hr1 j)|].
  apply (Hr' j); [done|]. by rewrite list_lookup_insert_ne.
Qed.

Lemma lookup_inserted {B} (l : list B) i x y : l !! i = Some x -> <[i := y]> l !! i = Some y.
Proof. intros H. apply list_lookup_insert_eq. by eapply lookup_lt_Some. Qed.

Lemma section_good {A} t (p : Prog A) gs i g s :
  I gs s -> gs !! i = Some g -> wp L p g s (fun _ g' _ => at_rest g') -> section_ok gs i g s (section t p s).
Proof using coh.
  revert gs g s. induction p as [r|k IH|s1 k IH|k IH|c k IH|tk k IH]; intros gs g s HI Hg H; simpl in *.
  - exists g. simpl. rewrite list_insert_id by done. split_and!; [done..|]. intros. apply (rely_refl coh).
  - by apply (IH s gs g s).
  - destruct H as (g1 & Hp & H). destruct (coherent_put coh gs i g s s1 g1 HI Hg Hp) as (Ho & HI1 & Hr1).
    apply (section_ok_insert gs i g g1 s s1); [done..|].
    exact (IH (<[i := g1]> gs) g1 s1 HI1 (lookup_inserted _ _ _ _ Hg) H).
  - exact (IH t gs g s HI Hg (H t)).
  - exists g. simpl. rewrite list_insert_id by done. split; [done|split; [done|split; [exact H|]]]. intros. apply (rely_refl coh).
  - destruct (coherent_spawn coh gs i g s tk HI Hg) as [Ho HI1].
    pose proof (IH (<[i := l_spawn L g tk]> gs) _ s HI1 (lookup_inserted _ _ _ _ Hg) H) as Hs.
    apply (section_ok_insert gs i g _ s s) in Hs; [|done|intros; apply (rely_refl coh)].
    by destruct (section t k s) as [[s' ts] th].
Qed.

(** The world and the ghost values of its activations. *)
Definition winv (w : World) (gs : list G) : Prop :=
  I gs (shared w) /\ Forall2 (fun th g => good th g (shared w)) (threads w) gs.

(** The owners of the activations an event begins. *)
Definition begun (o : O) (e : WEvent) : list O := match e with Begin _ _ _ => [o] | Resume _ _ _ => [] end.

(** Every method begun for an owner is proved; answers are as expected. *)
Definition admissible (o : O) (e : WEvent) : Prop :=
  match e with
  | Begin A p t => forall gs s, I gs s -> wp L p (begin_ o) s (fun _ g' _ => at_rest g')
  | Resume i t r => forall c, l_ok L c (r c)
  end.

Lemma others_rely ths gs s s' i g' th :
  Forall2 (fun th g => good th g s) ths gs ->
  (forall j gj, j <> i -> gs !! j = Some gj -> l_rely L gj s s') -> good th g' s' ->
  Forall2 (fun th g => good th g s') (<[i := th]> ths) (<[i := g']> gs).
Proof using coh.
  intros Hall Hr Hg. apply Forall2_same_length_lookup. split.
  { rewrite !length_insert. by eapply Forall2_length. }
  intros j t g Ht Hgs. destruct (decide (i = j)) as [->|Hne].
  - apply list_lookup_insert_Some in Ht as [(_ & -> & _)|[? _]]; [|done].
    by apply list_lookup_insert_Some in Hgs as [(_ & -> & _)|[? _]].
  - rewrite list_lookup_insert_ne in Ht by done. rewrite list_lookup_insert_ne in Hgs by done.
    apply (good_rely t g s); [|by apply (Hr j)].
    eapply Forall2_lookup_lr in Hall; [|exact Ht|exact Hgs]. exact Hall.
Qed.

Lemma insert_end {B} (l : list B) x y : <[length l := y]> (l ++ [x]) = l ++ [y].
Proof. by rewrite insert_app_r_alt, Nat.sub_diag. Qed.

Lemma owners_insert (gs : list G) i g g' : gs !! i = Some g -> own g' = own g -> own <$> <[i := g']> gs = own <$> gs.
Proof. intros Hg Ho. rewrite list_fmap_insert, Ho. apply list_insert_id. by rewrite list_lookup_fmap, Hg. Qed.

Lemma wstep_inv w gs o e : winv w gs -> admissible o e ->
  exists gs', winv (wstep w e) gs' /\ own <$> gs' = (own <$> gs) ++ begun o e.
Proof using coh own_begin.
  intros [HI Hall] He. destruct e as [A p t|i t r]; simpl in *.
  - assert (length (threads w) = length gs) as Hl by by eapply Forall2_length.
    assert ((gs ++ [begin_ o]) !! length gs = Some (begin_ o)) as Hg by by rewrite lookup_app_r, Nat.sub_diag.
    pose proof (coherent_begin coh gs _ o HI) as HI0.
    pose proof (section_good t p _ _ _ _ HI0 Hg (He _ _ HI0)) as H.
    destruct (section t p (shared w)) as [[s' ts] th]. destruct H as (g' & Ho & HI' & Hgood & Hr). simpl in *.
    exists (gs ++ [g']). split; [split|].
    + by rewrite insert_end in HI'.
    + simpl. rewrite <- (insert_end (threads w) Ended), <- (insert_end gs (begin_ o)), Hl.
      apply (others_rely _ _ (shared w)); [|done|done]. apply Forall2_app; [done|]. repeat constructor.
      unfold good, at_rest. by rewrite own_begin.
    + rewrite fmap_app. simpl. by rewrite Ho, own_begin.
  - destruct (threads w !! i) as [[A c k|]|] eqn:Ht; [|by exists gs; rewrite app_nil_r|by exists gs; rewrite app_nil_r].
    destruct (Forall2_lookup_l _ _ _ _ _ Hall Ht) as (g & Hg & Hp & H).
    destruct (coherent_post coh gs i g _ c (r c) HI Hg) as [Ho1 HI1].
    pose proof (section_good t (k (r c)) _ i _ _ HI1 (lookup_inserted _ _ _ _ Hg)
      (H (r c) (shared w) (He c) (rely_refl coh _ _))) as Hs.
    apply (section_ok_insert gs i g _ (shared w)) in Hs; [|done|intros; apply (rely_refl coh)].
    destruct (section t (k (r c)) (shared w)) as [[s' ts] th].
    destruct Hs as (g' & Ho & HI' & Hgood & Hr). simpl in *.
    exists (<[i := g']> gs). split; [split; [done|by apply (others_rely _ _ (shared w))]|].
    rewrite app_nil_r. by apply (owners_insert gs i g).
Qed.

Lemma interleaving_sound es w gs :
  winv w gs -> Forall (fun oe => admissible oe.1 oe.2) es ->
  exists gs', winv (foldl wstep w es.*2) gs' /\ own <$> gs' = (own <$> gs) ++ concat (map (fun oe => begun oe.1 oe.2) es).
Proof using coh own_begin.
  revert w gs. induction es as [|[o e] es IH]; intros w gs Hw Hes; simpl; [exists gs; by rewrite app_nil_r|].
  apply list.Forall_cons in Hes as [He Hes]. destruct (wstep_inv w gs o e Hw He) as (gs1 & H1 & Ho1).
  destruct (IH _ gs1 H1 Hes) as (gs2 & H2 & Ho2). exists gs2. split; [done|]. by rewrite Ho2, Ho1, <- app_assoc.
Qed.

End Interleaving.

End Async.

#[global] Arguments Prog : clear implicits.
#[global] Arguments Done {S Call Ans Task A} r.
#[global] Arguments Get {S Call Ans Task A} k.
#[global] Arguments Put {S Call Ans Task A} s k.
#[global] Arguments Now {S Call Ans Task A} k.
#[global] Arguments Await {S Call Ans Task A} c k.
#[global] Arguments Spawn {S Call Ans Task A} t k.
#[global] Arguments mkEnv {S Call Ans} _ _.
#[global] Arguments answer {S Call Ans} _ _ _ _.
#[global] Arguments time {S Call Ans} _ _.
#[global] Arguments mkResult {S Call Ans Task A} _ _ _.
#[global] Arguments res {S Call Ans Task A} _.
#[global] Arguments final {S Call Ans Task A} _.
#[global] Arguments hist {S Call Ans Task A} _.
#[global] Arguments mkLogic {S Call Ans Task G} _ _ _ _ _ _.
#[global] Arguments l_put {S Call Ans Task G} _ _ _ _ _.
#[global] Arguments l_pre {S Call Ans Task G} _ _ _.
#[global] Arguments l_rely {S Call Ans Task G} _ _ _ _.
#[global] Arguments l_ok {S Call Ans Task G} _ _ _.
#[global] Arguments l_post {S Call Ans Task G} _ _ _ _.
#[global] Arguments l_spawn {S Call Ans Task G} _ _ _.
#[global] Arguments Begin {S Call Ans Task} A p t.
#[global] Arguments Env : clear implicits.
#[global] Arguments Result : clear implicits.
#[global] Arguments HEvent : clear implicits.
#[global] Arguments Logic : clear implicits.
#[global] Arguments Thread : clear implicits.
#[global] Arguments World : clear implicits.
#[global] Arguments WEvent : clear implicits.

End Async.

Declare Scope prog_scope.
Delimit Scope prog_scope with prog.

Notation "'let*' x ':=' m 'in' k" := (Async.bind m (fun x => k))
  (at level 10, x binder, m at level 100, k at level 200,
   format "'let*'  x  ':='  m  'in' '//' k") : prog_scope.
Notation "'do*' m 'in' k" := (Async.bind m (fun _ => k))
  (at level 10, m at level 100, k at level 200, format "'do*'  m  'in' '//' k") : prog_scope.

(** * More on asynchronous methods

    [always_keeps]: a program that keeps to a discipline of writes and calls
    leaves alone what its calls do not count for.  [embed]: a program of one
    component as part of another whose state and calls include the first's.
    [interp]: a program over an implementation of its calls.  [flag_exclusion]:
    a flag that one activation at a time may hold; [hold] proves by the syntax of
    a program that it keeps a relation on the state. *)

Module AsyncMore.
Import Async.

Section Keeps.
Context {S Call Task X : Type} {Ans : Call -> Type}.
Abbreviation H := (list (HEvent Call Ans Task)).
Context (f : H -> X) (P : H -> Call -> Prop) (ok : forall c, outcome (Ans c) -> Prop).
Context (rely R T : S -> S -> Prop) (C : Call -> Prop).

(** What [f] reads from the history and [T] from the state is not touched. *)
Record untouched : Prop := {
  un_refl : forall s, T s s;
  un_trans : forall s1 s2 s3, T s1 s2 -> T s2 s3 -> T s1 s3;
  un_write : forall s s', R s s' -> T s s';
  un_rely : forall s s', rely s s' -> T s s';
  un_pre : forall h c, C c -> P h c;
  un_call : forall h c r, C c -> f (Called c r :: h) = f h;
  un_spawn : forall h t, f (Spawned t :: h) = f h;
}.

Lemma always_keeps {A} (p : Prog S Call Ans Task A) h s : untouched -> always R C p ->
  wp (call_logic P rely ok) p h s (fun _ h' s' => f h' = f h /\ T s s').
Proof.
  intros U Hp. specialize (Hp tt s).
  cut (forall h0 s0, f h = f h0 -> T s0 s -> wp (call_logic P rely ok) p h s (fun _ h' s' => f h' = f h0 /\ T s0 s')).
  { intros K. apply K; [done|apply (un_refl U)]. }
  revert h s Hp. induction p as [r|k IH|s' k IH|k IH|c k IH|t k IH]; intros h s Hp h0 s0 Hh Hs; simpl in *.
  - done.
  - by apply IH.
  - destruct Hp as ([] & Hr & Hp). exists h. split; [done|]. apply IH; [done|done|].
    eapply (un_trans U); [exact Hs|]. by apply (un_write U).
  - intros t. by apply IH.
  - destruct Hp as [Hc Hp]. split; [by apply (un_pre U)|]. intros r s' _ Hr.
    apply IH; [by apply Hp|by rewrite (un_call U)|]. eapply (un_trans U); [exact Hs|]. by apply (un_rely U).
  - apply IH; [done|by rewrite (un_spawn U)|done].
Qed.

End Keeps.

(** Loops whose body depends on the element. *)
Lemma always_for_each_in {S Call Task X} {Ans : Call -> Type} (R : S -> S -> Prop) (C : Call -> Prop)
    (body : X -> Prog S Call Ans Task unit) xs :
  (forall x, x ∈ xs -> always R C (body x)) -> always R C (for_each body xs).
Proof.
  induction xs as [|x xs IH]; intros H; simpl; [apply always_done|].
  apply always_bind; [apply H; set_solver|]. intros _. apply IH. intros y Hy. apply H. set_solver.
Qed.

(** ** A component inside another *)

Section Embed.
Context {S1 S2 Task1 Task2 C1 C2 : Type} {A1 : C1 -> Type} {A2 : C2 -> Type}.
(** Where the state of the first is in the second, and its calls among the others. *)
Context (get : S2 -> S1) (set : S1 -> S2 -> S2) (call : C1 -> C2) (task : Task1 -> Task2).
Context (ans : forall c, A2 (call c) -> A1 c).

Definition map_outcome {A B} (f : A -> B) (o : outcome A) : outcome B :=
  match o with Ret a => Ret (f a) | Throw e => Throw e end.

Fixpoint embed {A} (p : Prog S1 C1 A1 Task1 A) : Prog S2 C2 A2 Task2 A :=
  match p with
  | Done r => Done r
  | Get k => Get (fun s => embed (k (get s)))
  | Put s' k => Get (fun s => Put (set s' s) (embed k))
  | Now k => Now (fun t => embed (k t))
  | Await c k => Await (call c) (fun r => embed (k (map_outcome (ans c) r)))
  | Spawn t k => Spawn (task t) (embed k)
  end.

(** The writes and calls of an embedded program are those of the program. *)
Lemma always_embed {A} (R1 : S1 -> S1 -> Prop) (R2 : S2 -> S2 -> Prop) (P1 : C1 -> Prop) (P2 : C2 -> Prop)
    (p : Prog S1 C1 A1 Task1 A) :
  (forall s s1', R1 (get s) s1' -> R2 s (set s1' s)) -> (forall s s', get (set s s') = s) -> (forall c, P1 c -> P2 (call c)) ->
  always R1 P1 p -> always R2 P2 (embed p).
Proof.
  intros HR Hgs HP Hp g s. specialize (Hp tt (get s)). revert g s Hp.
  induction p as [r|k IH|s' k IH|k IH|c k IH|t k IH]; intros g s; simpl.
  - done.
  - intros Hp. by apply IH.
  - intros ([] & Hr & Hp). exists tt. split; [by apply HR|]. apply IH. by rewrite Hgs.
  - intros Hp t. apply IH, Hp.
  - intros [Hc Hp]. split; [by apply HP|]. intros r s' _ _. apply IH. by apply Hp.
  - intros Hp. by apply IH.
Qed.

End Embed.

(** ** The implementation of a component's calls

    [interp hd p]: every call [c] of [p] is carried out by the program [hd c]. *)

Section Interp.
Context {S Task C1 C2 : Type} {A1 : C1 -> Type} {A2 : C2 -> Type}.
Context (hd : forall c, Prog S C2 A2 Task (A1 c)).

Fixpoint interp {A} (p : Prog S C1 A1 Task A) : Prog S C2 A2 Task A :=
  match p with
  | Done r => Done r
  | Get k => Get (fun s => interp (k s))
  | Put s k => Put s (interp k)
  | Now k => Now (fun t => interp (k t))
  | Await c k => after (hd c) (fun r => interp (k r))
  | Spawn t k => Spawn t (interp k)
  end.

(** What a client guarantees when its calls answer as expected, it guarantees
    over an implementation that answers so and does not touch its state. *)
Lemma interp_wp {A G G2} (L1 : Logic S C1 A1 Task G) (L2 : Logic S C2 A2 Task G2)
    (I : G -> G2 -> Prop) (p : Prog S C1 A1 Task A) g g2 s Q :
  (forall g g2 s s' g', I g g2 -> l_put L1 g s s' g' -> exists g2', l_put L2 g2 s s' g2' /\ I g' g2') ->
  (forall g g2 t, I g g2 -> I (l_spawn L1 g t) (l_spawn L2 g2 t)) ->
  (forall c g g2 s, I g g2 -> l_pre L1 g c ->
     wp L2 (hd c) g2 s (fun r g2' s' => l_ok L1 c r /\ l_rely L1 g s s' /\ I (l_post L1 g c r) g2')) ->
  I g g2 -> wp L1 p g s Q -> wp L2 (interp p) g2 s (fun r g2' s' => exists g', I g' g2' /\ Q r g' s').
Proof.
  intros Hput Hsp Hcall HI. revert g g2 s HI. induction p as [r|k IH|s' k IH|k IH|c k IH|t k IH]; intros g g2 s HI; simpl.
  - eauto.
  - by apply IH.
  - intros (g' & Hp & H). destruct (Hput _ _ _ _ _ HI Hp) as (g2' & Hp2 & HI'). exists g2'. split; [done|]. by eapply IH.
  - intros H t. by eapply IH.
  - intros [Hp H]. apply wp_after. eapply wp_mono; [by apply Hcall|]. intros r g2' s' (Hok & Hr & HI').
    eapply IH; [exact HI'|]. by apply H.
  - intros H. eapply IH; [|exact H]. by apply Hsp.
Qed.

End Interp.

(** ** Possible runs

    [behaves R p h s r h' s']: from the history [h] and the state [s], [p] can end
    with [r] after the history [h'] in the state [s'], each call answered in some
    way while the others change the state as [R] says. *)

Section Behaves.
Context {S Call Task : Type} {Ans : Call -> Type} (R : S -> S -> Prop).
Abbreviation H := (list (HEvent Call Ans Task)).

Fixpoint behaves {A} (p : Prog S Call Ans Task A) (h : H) (s : S) (r : outcome A) (h' : H) (s' : S) : Prop :=
  match p with
  | Done r0 => r = r0 /\ h' = h /\ s' = s
  | Get k => behaves (k s) h s r h' s'
  | Put s1 k => behaves k h s1 r h' s'
  | Now k => exists t, behaves (k t) h s r h' s'
  | Await c k => exists a s1, R s s1 /\ behaves (k a) (Called c a :: h) s1 r h' s'
  | Spawn t k => behaves k (Spawned t :: h) s r h' s'
  end.

(** A run is possible. *)
Lemma run_behaves {A} (p : Prog S Call Ans Task A) env n h s : (forall n c s, R s (answer env n c s).2) ->
  let x := run env n h p s in behaves p h s (res x) (hist x) (final x).
Proof.
  intros He. revert n h s. induction p as [r|k IH|s' k IH|k IH|c k IH|t k IH]; intros n h s; simpl; try by apply IH.
  - done.
  - eexists. apply IH.
  - pose proof (He n c s) as Hr. destruct (answer env n c s) as [a s1]. exists a, s1. split; [done|apply IH].
Qed.

Lemma behaves_after {A B} (m : Prog S Call Ans Task A) (f : outcome A -> Prog S Call Ans Task B) h s r h' s' :
  behaves (after m f) h s r h' s' -> exists r1 h1 s1, behaves m h s r1 h1 s1 /\ behaves (f r1) h1 s1 r h' s'.
Proof.
  revert h s. induction m as [r0|k IH|s0 k IH|k IH|c k IH|t k IH]; intros h s; simpl; try by apply IH.
  - by exists r0, h, s.
  - intros (t & (r1 & h1 & s1 & H1 & H2)%IH). exists r1, h1, s1. split; [by exists t|done].
  - intros (a & s0 & Hr & (r1 & h1 & s1 & H1 & H2)%IH). exists r1, h1, s1. split; [by exists a, s0|done].
Qed.

(** What a possible run adds to the history does not depend on it. *)
Lemma behaves_adds {A} (p : Prog S Call Ans Task A) h s r h' s' :
  behaves p h s r h' s' -> exists block, h' = block ++ h /\ behaves p [] s r block s'.
Proof.
  cut (behaves p h s r h' s' -> exists block, h' = block ++ h /\ forall h0, behaves p h0 s r (block ++ h0) s').
  { intros H1 H2. destruct (H1 H2) as (block & -> & Hb). exists block. split; [done|]. specialize (Hb []). by rewrite app_nil_r in Hb. }
  revert h s. induction p as [r0|k IH|s0 k IH|k IH|c k IH|t k IH]; intros h s; simpl; try by apply IH.
  - intros (-> & -> & ->). by exists [].
  - intros (t & (block & -> & Hb)%IH). exists block. split; [done|]. intros h0. by exists t.
  - intros (a & s1 & Hr & (block & -> & Hb)%IH). exists (block ++ [Called c a]). split; [by rewrite <- app_assoc|].
    intros h0. exists a, s1. rewrite <- app_assoc. by split.
  - intros (block & -> & Hb)%IH. exists (block ++ [Spawned t]). split; [by rewrite <- app_assoc|].
    intros h0. rewrite <- app_assoc. apply Hb.
Qed.

(** The program logic is sound for possible runs. *)
Lemma behaves_sound {A} (p : Prog S Call Ans Task A) P h s r h' s' Q :
  behaves p h s r h' s' -> each_call P h -> wp (call_logic P R (fun _ _ => True)) p h s Q -> each_call P h' /\ Q r h' s'.
Proof.
  revert h s. induction p as [r0|k IH|s0 k IH|k IH|c k IH|t k IH]; intros h s; simpl.
  - by intros (-> & -> & ->).
  - apply IH.
  - intros Hb Hh (g' & -> & Hw). by eapply IH.
  - intros (t & Hb) Hh Hw. by eapply IH.
  - intros (a & s1 & Hr & Hb) Hh [Hc Hw]. eapply IH; [exact Hb|done|by apply Hw].
  - intros Hb Hh Hw. by apply (IH _ _ Hb).
Qed.

End Behaves.

(** A program over implemented calls does what the program does over its own:
    the history of the implementation is made of whole runs of what carries out
    each call, in order, with the answers the program was given. *)

Section Carried.
Context {S Task C1 C2 : Type} {A1 : C1 -> Type} {A2 : C2 -> Type}.
Context (hd : forall c, Prog S C2 A2 Task (A1 c)) (R : S -> S -> Prop).

Inductive carried : list (HEvent C1 A1 Task) -> list (HEvent C2 A2 Task) -> Prop :=
| carried_nil : carried [] []
| carried_call c r s s' block h rh : behaves R (hd c) [] s r block s' -> carried h rh -> carried (Called c r :: h) (block ++ rh)
| carried_spawn t h rh : carried h rh -> carried (Spawned t :: h) (Spawned t :: rh).

Lemma interp_carried {A} (p : Prog S C1 A1 Task A) :
  (forall c s r block s', behaves R (hd c) [] s r block s' -> R s s') ->
  forall h rh s r rh' s', carried h rh -> behaves R (interp hd p) rh s r rh' s' ->
    exists h', behaves R p h s r h' s' /\ carried h' rh'.
Proof.
  intros Hhd. induction p as [r0|k IH|s0 k IH|k IH|c k IH|t k IH]; intros h rh s r rh' s' Hc; simpl; try by apply IH.
  - intros (-> & -> & ->). by exists h.
  - intros (t & Hb). edestruct IH as (h' & H1 & H2); [exact Hc|exact Hb|]. exists h'. split; [by exists t|done].
  - intros Hb. apply behaves_after in Hb as (a & rh1 & s1 & H1 & H2). apply behaves_adds in H1 as (block & -> & H1).
    edestruct (IH a (Called c a :: h)) as (h' & H3 & H4); [by eapply carried_call|exact H2|].
    exists h'. split; [|done]. exists a, s1. split; [by eapply Hhd|done].
  - apply IH. by constructor.
Qed.

End Carried.

(** ** A flag that one activation at a time may hold

    [if (running) return; running = true; try { ... } finally { running = false }]:
    the ghost value of an activation says whether it holds the flag, and it makes
    the guarded calls only while it does. *)

Section Flag.
Context {S Call Task : Type} {Ans : Call -> Type}.
Context (flag : S -> bool) (guarded : Call -> bool).

Definition flag_logic : Logic S Call Ans Task bool :=
  mkLogic
    (fun g s s' g' => match g, g' with
                      | false, true => flag s = false /\ flag s' = true
                      | true, false => flag s' = false
                      | _, _ => flag s' = flag s
                      end)
    (fun g c => guarded c = true -> g = true) (fun _ _ _ => True) (fun _ _ => True) (fun g _ _ => g) (fun g _ => g).

(** Starts and ends without the flag. *)
Definition exclusive {A} (p : Prog S Call Ans Task A) : Prop := forall s, wp flag_logic p false s (fun _ g _ => g = false).

(** Leaves the flag alone. *)
Abbreviation same_flag := (fun s s' : S => flag s' = flag s).

Lemma exclusive_quiet {A} (p : Prog S Call Ans Task A) : always same_flag (fun c => guarded c = false) p -> exclusive p.
Proof.
  intros H s. apply (always_wp flag_logic same_flag (fun c => guarded c = false)); try done. simpl. intros c Hc Hg. congruence.
Qed.

Lemma holding {A} (p : Prog S Call Ans Task A) s : always same_flag (fun _ => True) p -> wp flag_logic p true s (fun _ g _ => g = true).
Proof. intros H. by apply (always_wp flag_logic same_flag (fun _ => True)). Qed.

Lemma exclusive_bind {A B} (m : Prog S Call Ans Task A) (f : A -> Prog S Call Ans Task B) :
  exclusive m -> (forall a, exclusive (f a)) -> exclusive (bind m f).
Proof. intros Hm Hf s. apply wp_bind. eapply wp_mono; [apply Hm|]. intros [a|e] g s' ->; [apply Hf|done]. Qed.

(** The activations that hold the flag. *)
Fixpoint held (gs : list bool) : nat := match gs with [] => 0 | g :: gs' => (if g then 1 else 0) + held gs' end.

Lemma held_insert (gs : list bool) (i : nat) (g g' : bool) : gs !! i = Some g -> held (<[i := g']> gs) + (if g then 1 else 0) = held gs + (if g' then 1 else 0).
Proof. revert i. induction gs as [|x gs IH]; intros [|i] H; simpl in *; [done|done|injection H as ->; lia|]. specialize (IH i H). lia. Qed.

Lemma held_app (gs gs' : list bool) : held (gs ++ gs') = held gs + held gs'.
Proof. induction gs; simpl; lia. Qed.

Lemma held_two (gs : list bool) (i j : nat) : gs !! i = Some true -> gs !! j = Some true -> i <> j -> 2 <= held gs.
Proof.
  revert i j. induction gs as [|x gs IH]; intros i j Hi Hj Hij; [done|].
  assert (forall k, gs !! k = Some true -> 1 <= held gs) as H1.
  { clear. induction gs as [|y gs IH]; intros [|k] H; simpl in *; [done|done|injection H as ->; lia|]. specialize (IH k H). lia. }
  destruct i as [|i], j as [|j]; simpl in *; try done.
  - injection Hi as ->. specialize (H1 j Hj). lia.
  - injection Hj as ->. specialize (H1 i Hi). lia.
  - specialize (IH i j Hi Hj ltac:(congruence)). lia.
Qed.

Lemma held_none (gs : list bool) : (forall i g, gs !! i = Some g -> g = false) -> held gs = 0.
Proof.
  induction gs as [|x gs IH]; intros H; simpl; [done|]. rewrite (H 0 x eq_refl). apply IH. intros i g Hi. by apply (H (Datatypes.S i)).
Qed.

Definition flag_inv (gs : list bool) (s : S) : Prop := held gs = if flag s then 1 else 0.

Lemma flag_coherent : coherent flag_logic (fun _ => tt) (fun _ => false) flag_inv.
Proof.
  split; unfold flag_inv; try done.
  - intros gs i g s s' g' HI Hg Hp. split; [done|]. split; [|done]. pose proof (held_insert gs i g g' Hg).
    destruct g, g'; simpl in *.
    + rewrite Hp. lia.
    + rewrite Hp. destruct (flag s); [lia|]. pose proof (held_insert gs i true false Hg). lia.
    + destruct Hp as [H1 H2]. rewrite H2. rewrite H1 in HI. lia.
    + rewrite Hp. lia.
  - intros gs i g s c r HI Hg. split; [done|]. simpl. by rewrite list_insert_id.
  - intros gs i g s t HI Hg. split; [done|]. simpl. by rewrite list_insert_id.
  - intros gs s o HI. rewrite held_app. simpl. lia.
Qed.

(** The events of a process all of whose methods are exclusive. *)
Definition exclusive_event (e : WEvent S Call Ans Task) : Prop :=
  match e with Begin _ p _ => exclusive p | Resume _ _ _ => True end.

(** Activation [i] waits for an answer to [c]. *)
Definition waits (w : World S Call Ans Task) (i : nat) : option Call :=
  match threads w !! i with Some (Suspended _ c _) => Some c | _ => None end.

(** In every interleaving at most one activation waits on a guarded call, the
    flag is set while one does, and it is clear when all have ended. *)
Lemma flag_exclusion s es : flag s = false -> Forall exclusive_event es ->
  let w := foldl wstep (mkWorld s []) es in
  (forall i j c c', waits w i = Some c -> waits w j = Some c' -> guarded c = true -> guarded c' = true -> i = j)
  /\ (forall i c, waits w i = Some c -> guarded c = true -> flag (shared w) = true)
  /\ ((forall i th, threads w !! i = Some th -> th = Ended) -> flag (shared w) = false).
Proof.
  intros Hs Hes w.
  assert (exists gs, winv flag_logic (fun _ => tt) (fun _ => false) flag_inv w gs) as (gs & HI & Hall).
  { pose proof (interleaving_sound flag_logic (fun _ => tt) (fun _ => false) ltac:(by intros []) flag_inv flag_coherent
      (map (fun e => (tt, e)) es) (mkWorld s []) []) as H.
    destruct H as (gs & H & _).
    - split; [unfold flag_inv; simpl; by rewrite Hs|constructor].
    - apply Forall_map. eapply list.Forall_impl; [exact Hes|]. intros [A p t|i t r]; simpl; [|done].
      intros He gs s0 _. eapply wp_mono; [apply He|]. by intros r g s1 ->.
    - exists gs. by rewrite <- list_fmap_compose, list_fmap_id in H. }
  assert (forall i c, waits w i = Some c -> guarded c = true -> gs !! i = Some true) as Hheld.
  { intros i c Hi Hc. unfold waits in Hi. destruct (threads w !! i) as [[A c' k|]|] eqn:Ht; [|done|done]. injection Hi as ->.
    destruct (Forall2_lookup_l _ _ _ _ _ Hall Ht) as (g & Hg & Hp & _). simpl in Hp. by rewrite (Hp Hc) in Hg. }
  unfold flag_inv in HI. split_and!.
  - intros i j c c' Hi Hj Hc Hc'. destruct (decide (i = j)) as [|Hne]; [done|].
    pose proof (held_two gs i j (Hheld i c Hi Hc) (Hheld j c' Hj Hc') Hne). destruct (flag (shared w)); lia.
  - intros i c Hi Hc. pose proof (held_insert gs i true false (Hheld i c Hi Hc)) as Hh. cbn in Hh. destruct (flag (shared w)); [done|lia].
  - intros Hend. rewrite held_none in HI; [by destruct (flag (shared w))|]. intros i g Hg.
    destruct (Forall2_lookup_r _ _ _ _ _ Hall Hg) as (th & Ht & Hgood). by rewrite (Hend i th Ht) in Hgood.
Qed.

End Flag.

(** An activation that keeps a relation on the state in every section, by its
    syntax. *)
Ltac hold :=
  lazymatch goal with
  | |- always _ _ (bind _ _) => apply always_bind; [hold|intros ?; hold]
  | |- always _ _ (catch _ _) => apply always_catch; [hold|intros ?; hold]
  | |- always _ _ (after _ _) => apply always_after; [hold|intros ?; hold]
  | |- always _ _ (modify _) => apply always_modify; by intros ?
  | |- always _ _ (gets _) => apply always_gets
  | |- always _ _ clock => apply always_clock
  | |- always _ _ (spawn _) => apply always_spawn
  | |- always _ _ (lift _) => apply always_done
  | |- always _ _ (ret _) => apply always_done
  | |- always _ _ (if ?b then _ else _) => destruct b; hold
  | |- always _ _ (match ?x with _ => _ end) => destruct x; hold
  | |- always _ _ (let _ := _ in _) => cbv zeta; hold
  | |- _ => first [assumption | intros ? ?; by split]
  end.

End AsyncMore.
