(* ===== verification/Queue.v ===== *)
(** * The operation queue ([src/executor/queue.ts])

    [OperationQueue] serialises every Solana write.  Its state is a record with
    the class's fields; the methods are functions on it.  JavaScript runs each
    synchronous section to completion, so the interleavings are those of the
    event loop: a [World] adds to the object the callbacks that are pending in
    the loop ([setImmediate] drains not yet run), the activations of [drain]
    suspended at [await item.fn()], the [executeNow] calls asleep in their 200 ms
    poll and those whose operation is running.  [step] is the executable
    transition on one event of the loop, [reach] its closure, and each
    transition reports what it enqueued, started and finished.

    The operations themselves ([fn]) belong to the callers: their type is a
    parameter, and their completion (normal, an exception, or an exception with
    a null reason, which the catch block cannot print) is an input of the
    transition. *)

From stdpp Require Import pretty.
From S2P Require Import Prelude.
Open Scope Z_scope.

Module Queue.

Inductive QueuePriority := HIGH | NORMAL.

#[export] Instance QueuePriority_eq_dec : EqDecision QueuePriority.
Proof. solve_decision. Defined.

Section Queue.
Context {Fn : Type}.

Record QueueItem := mkItem {
  id : string;
  label : string;
  priority : QueuePriority;
  fn : Fn;
  enqueuedAt : Z;
}.

Record OperationQueue := mkQueue {
  highQueue : list QueueItem;
  normalQueue : list QueueItem;
  running : option QueueItem;
  immediateRunning : bool;
  immediateWaiting : Z;
  draining : bool;
  idCounter : Z;
  highPrioritySeq : Z;
  lastCompletedAt : Z;
}.

Definition new_queue : OperationQueue := mkQueue [] [] None false 0 false 0 0 0.

(** ** Field updates *)

Definition set_queues (hq nq : list QueueItem) (q : OperationQueue) : OperationQueue :=
  mkQueue hq nq (running q) (immediateRunning q) (immediateWaiting q) (draining q)
    (idCounter q) (highPrioritySeq q) (lastCompletedAt q).
Definition set_running (r : option QueueItem) (q : OperationQueue) : OperationQueue :=
  mkQueue (highQueue q) (normalQueue q) r (immediateRunning q) (immediateWaiting q) (draining q)
    (idCounter q) (highPrioritySeq q) (lastCompletedAt q).
Definition set_immediateRunning (b : bool) (q : OperationQueue) : OperationQueue :=
  mkQueue (highQueue q) (normalQueue q) (running q) b (immediateWaiting q) (draining q)
    (idCounter q) (highPrioritySeq q) (lastCompletedAt q).
Definition set_immediateWaiting (n : Z) (q : OperationQueue) : OperationQueue :=
  mkQueue (highQueue q) (normalQueue q) (running q) (immediateRunning q) n (draining q)
    (idCounter q) (highPrioritySeq q) (lastCompletedAt q).
Definition set_draining (b : bool) (q : OperationQueue) : OperationQueue :=
  mkQueue (highQueue q) (normalQueue q) (running q) (immediateRunning q) (immediateWaiting q) b
    (idCounter q) (highPrioritySeq q) (lastCompletedAt q).
Definition set_counters (i h : Z) (q : OperationQueue) : OperationQueue :=
  mkQueue (highQueue q) (normalQueue q) (running q) (immediateRunning q) (immediateWaiting q)
    (draining q) i h (lastCompletedAt q).
Definition set_lastCompletedAt (t : Z) (q : OperationQueue) : OperationQueue :=
  mkQueue (highQueue q) (normalQueue q) (running q) (immediateRunning q) (immediateWaiting q)
    (draining q) (idCounter q) (highPrioritySeq q) t.

(** ** The methods *)

(** [scheduleDrain]: how many new [setImmediate] callbacks it posts. *)
Definition scheduleDrain (q : OperationQueue) : nat := if draining q then 0 else 1.

(** [enqueue], up to its call of [scheduleDrain]; also returns the new item. *)
Definition enqueue (lbl : string) (prio : QueuePriority) (f : Fn) (now : Z) (q : OperationQueue)
    : QueueItem * OperationQueue :=
  let i := idCounter q + 1 in
  let item := mkItem ("q-" +:+ pretty i) lbl prio f now in
  match prio with
  | HIGH =>
      (item, set_queues (highQueue q ++ [item]) (normalQueue q)
               (set_counters i (highPrioritySeq q + 1) q))
  | NORMAL =>
      (item, set_queues (highQueue q) (normalQueue q ++ [item])
               (set_counters i (highPrioritySeq q) q))
  end.

Definition pending (q : OperationQueue) : list QueueItem := highQueue q ++ normalQueue q.

Definition pendingCount (q : OperationQueue) : Z :=
  Z.of_nat (length (highQueue q)) + Z.of_nat (length (normalQueue q)).

Definition isHighPriorityRunningOrPending (q : OperationQueue) : bool :=
  match running q with
  | Some it => bool_decide (priority it = HIGH)
  | None => false
  end || (0 <? Z.of_nat (length (highQueue q))).

Definition hasHighPriorityActivityAfter (seq : Z) (q : OperationQueue) : bool :=
  (seq <? highPrioritySeq q) || isHighPriorityRunningOrPending q.

Definition isExecuting (q : OperationQueue) : bool :=
  bool_decide (is_Some (running q)) || immediateRunning q.

Record QueueStatus := mkStatus {
  st_running : option QueueItem;
  st_pending : list (string * string * QueuePriority * Z);
  st_immediateRunning : bool;
}.

Definition status_row (i : QueueItem) : string * string * QueuePriority * Z :=
  (id i, label i, priority i, enqueuedAt i).

Definition getStatus (q : OperationQueue) : QueueStatus :=
  mkStatus (running q)
    ((status_row <$> highQueue q) ++ (status_row <$> normalQueue q))
    (immediateRunning q).

(** The head of the [while] loop of [drain]: either the loop takes an item and
    suspends on it, or it leaves the loop. *)
Definition drain_next (q : OperationQueue) : option (QueueItem * OperationQueue) :=
  match highQueue q, normalQueue q with
  | [], [] => None
  | hq, nq =>
      if immediateRunning q || (0 <? immediateWaiting q) then None
      else match hq, nq with
           | item :: hq', _ => Some (item, set_running (Some item) (set_queues hq' nq q))
           | [], item :: nq' => Some (item, set_running (Some item) (set_queues [] nq' q))
           | [], [] => None
           end
  end.

(** The code after the loop: clear [draining], then the final check. *)
Definition drain_exit (q : OperationQueue) : OperationQueue * nat :=
  let q' := set_draining false q in
  match pending q' with
  | [] => (q', 0%nat)
  | _ =>
      if negb (immediateRunning q') && (immediateWaiting q' =? 0)
      then (q', scheduleDrain q')
      else (q', 0%nat)
  end.

(** ** The event loop *)

Inductive fn_outcome :=
| Resolved            (** the promise resolved *)
| Rejected            (** it rejected with an error object *)
| RejectedNullish.    (** it rejected with [null] or [undefined] *)

Record World := mkWorld {
  queue : OperationQueue;
  scheduled : nat;                (** [setImmediate(drain)] callbacks posted *)
  drains : list QueueItem;        (** [drain] activations suspended at [await item.fn()] *)
  waiters : list string;          (** [executeNow] calls asleep in their poll *)
  immediates : list string;       (** [executeNow] calls whose [fn] is running *)
}.

Definition init_world : World := mkWorld new_queue 0 [] [] [].

Inductive event :=
| EvEnqueue (lbl : string) (prio : QueuePriority) (f : Fn) (now : Z)
| EvDrain                                     (** a posted drain callback runs *)
| EvItemDone (o : fn_outcome) (now : Z)       (** the suspended [fn] settles *)
| EvExecuteNow (lbl : string)                 (** a caller invokes [executeNow] *)
| EvPoll (i : nat)                            (** the i-th waiter's timer fires *)
| EvImmediateDone.                            (** the immediate operation settles *)

Inductive obs :=
| Enqueued (it : QueueItem)
| Started (it : QueueItem)
| Finished (it : QueueItem) (o : fn_outcome)
| ImmStarted (lbl : string)
| ImmFinished (lbl : string).

(** The loop of [drain] from its head: suspend on an item or exit. *)
Definition drain_loop (q : OperationQueue) (w : World) : World * list obs :=
  match drain_next q with
  | Some (item, q') =>
      (mkWorld q' (scheduled w) (item :: drains w) (waiters w) (immediates w), [Started item])
  | None =>
      let (q', n) := drain_exit q in
      (mkWorld q' (scheduled w + n) (drains w) (waiters w) (immediates w), [])
  end.

(** [executeNow] from the test of its [while] loop on, [waiting] already counted. *)
Definition executeNow_try (lbl : string) (asleep : World) (w : World) : World * list obs :=
  let q := queue w in
  if bool_decide (is_Some (running q)) || immediateRunning q then (asleep, [])
  else
    (mkWorld (set_immediateWaiting (immediateWaiting q - 1) (set_immediateRunning true q))
       (scheduled w) (drains w) (waiters w) (lbl :: immediates w), [ImmStarted lbl]).

Definition step (w : World) (e : event) : option (World * list obs) :=
  let q := queue w in
  match e with
  | EvEnqueue lbl prio f now =>
      let (item, q') := enqueue lbl prio f now q in
      Some (mkWorld q' (scheduled w + scheduleDrain q') (drains w) (waiters w) (immediates w),
            [Enqueued item])
  | EvDrain =>
      match scheduled w with
      | O => None
      | S n =>
          let w' := mkWorld q n (drains w) (waiters w) (immediates w) in
          if draining q then Some (w', [])
          else Some (drain_loop (set_draining true q) w')
      end
  | EvItemDone o now =>
      match drains w with
      | [] => None
      | item :: rest =>
          let w' := mkWorld q (scheduled w) rest (waiters w) (immediates w) in
          match o with
          | RejectedNullish =>
              (* the catch block itself throws: only the finally clause runs *)
              Some (mkWorld (set_draining false q) (scheduled w) rest (waiters w) (immediates w),
                    [Finished item o])
          | _ =>
              let (w2, os) := drain_loop (set_lastCompletedAt now (set_running None q)) w' in
              Some (w2, Finished item o :: os)
          end
      end
  | EvExecuteNow lbl =>
      let q1 := set_immediateWaiting (immediateWaiting q + 1) q in
      let w1 := mkWorld q1 (scheduled w) (drains w) (waiters w) (immediates w) in
      Some (executeNow_try lbl
              (mkWorld q1 (scheduled w) (drains w) (waiters w ++ [lbl]) (immediates w)) w1)
  | EvPoll i =>
      match waiters w !! i with
      | None => None
      | Some lbl =>
          Some (executeNow_try lbl w
                  (mkWorld q (scheduled w) (drains w) (delete i (waiters w)) (immediates w)))
      end
  | EvImmediateDone =>
      match immediates w with
      | [] => None
      | lbl :: rest =>
          let q' := set_immediateRunning false q in
          Some (mkWorld q' (scheduled w + scheduleDrain q') (drains w) (waiters w) rest,
                [ImmFinished lbl])
      end
  end.

(** Executions: the events with the observations they produced. *)
Inductive reach : World -> list event -> list obs -> Prop :=
| reach_init : reach init_world [] []
| reach_step w es os e w' o :
    reach w es os -> step w e = Some (w', o) -> reach w' (es ++ [e]) (os ++ o).

Fixpoint run (w : World) (es : list event) : option (World * list obs) :=
  match es with
  | [] => Some (w, [])
  | e :: es' =>
      match step w e with
      | Some (w1, o1) =>
          match run w1 es' with
          | Some (w2, o2) => Some (w2, o1 ++ o2)
          | None => None
          end
      | None => None
      end
  end.

(** ** Views of a trace *)

Definition enqueued (os : list obs) : list QueueItem :=
  omap (fun o => match o with Enqueued it => Some it | _ => None end) os.
Definition started (os : list obs) : list QueueItem :=
  omap (fun o => match o with Started it => Some it | _ => None end) os.

Definition is_prio (p : QueuePriority) (it : QueueItem) : bool := bool_decide (priority it = p).

(** An event in which an operation rejected with a null reason. *)
Definition nullish_event (e : event) : bool :=
  match e with EvItemDone RejectedNullish _ => true | _ => false end.

(** Events that come from inside the loop, not from new callers. *)
Definition internal_event (e : event) : bool :=
  match e with
  | EvEnqueue _ _ _ _ | EvExecuteNow _ => false
  | EvItemDone RejectedNullish _ => false
  | _ => true
  end.

(** ** The invariant of the loop *)

Record inv (w : World) : Prop := {
  inv_drain :
    if draining (queue w)
    then exists it, drains w = [it] /\ running (queue w) = Some it /\ immediates w = []
    else drains w = [];
  inv_imm :
    if immediateRunning (queue w) then exists l, immediates w = [l] else immediates w = [];
  inv_wait : immediateWaiting (queue w) = Z.of_nat (length (waiters w));
  inv_high : Forall (fun it => priority it = HIGH) (highQueue (queue w));
  inv_normal : Forall (fun it => priority it = NORMAL) (normalQueue (queue w));
}.

(** What holds while no operation has rejected with a null reason. *)
Record healthy (w : World) : Prop := {
  h_idle : draining (queue w) = false -> running (queue w) = None;
  h_wake : draining (queue w) = false -> pending (queue w) <> [] ->
           waiters w = [] -> immediates w = [] -> (0 < scheduled w)%nat;
}.

Lemma drain_next_cases q :
  match drain_next q with
  | Some (item, q') =>
      immediateRunning q = false /\ immediateWaiting q <= 0
      /\ pending q = item :: pending q'
      /\ running q' = Some item
      /\ ((highQueue q = item :: highQueue q' /\ normalQueue q = normalQueue q')
          \/ (highQueue q = [] /\ highQueue q' = [] /\ normalQueue q = item :: normalQueue q'))
      /\ draining q' = draining q /\ immediateRunning q' = immediateRunning q
      /\ immediateWaiting q' = immediateWaiting q
      /\ idCounter q' = idCounter q /\ highPrioritySeq q' = highPrioritySeq q
  | None => pending q = [] \/ immediateRunning q = true \/ 0 < immediateWaiting q
  end.
Proof.
  unfold drain_next, pending.
  destruct (highQueue q) as [|h hq] eqn:Eh, (normalQueue q) as [|n nq] eqn:En;
    simpl; try (left; done);
    destruct (immediateRunning q) eqn:Ei; simpl; try (right; by left);
    destruct (0 <? immediateWaiting q) eqn:Ew; simpl;
    try (right; right; by apply Z.ltb_lt);
    apply Z.ltb_ge in Ew; rewrite ?app_nil_r; naive_solver.
Qed.

(** The final check of [drain] never posts a callback: nothing can run between
    the exit of the loop and the check. *)
Lemma drain_exit_posts_nothing q :
  drain_next q = None -> 0 <= immediateWaiting q ->
  drain_exit q = (set_draining false q, 0%nat).
Proof.
  intros E Hw. pose proof (drain_next_cases q) as H. rewrite E in H.
  unfold drain_exit, pending in *. simpl.
  destruct H as [H|[H|H]].
  - by rewrite H.
  - rewrite H. simpl. by destruct (_ ++ _).
  - replace (immediateWaiting q =? 0) with false by (symmetry; apply Z.eqb_neq; lia).
    rewrite andb_false_r. by destruct (_ ++ _).
Qed.

Lemma drain_loop_cases q w :
  0 <= immediateWaiting q ->
  (exists item q', drain_next q = Some (item, q')
     /\ drain_loop q w = (mkWorld q' (scheduled w) (item :: drains w) (waiters w) (immediates w),
                          [Started item]))
  \/ (drain_next q = None
      /\ drain_loop q w = (mkWorld (set_draining false q) (scheduled w) (drains w) (waiters w)
                             (immediates w), [])).
Proof.
  intros Hw. unfold drain_loop. destruct (drain_next q) as [[item q']|] eqn:E.
  - left. by exists item, q'.
  - right. split; [done|]. rewrite drain_exit_posts_nothing by done.
    by rewrite Nat.add_0_r.
Qed.

Lemma drain_loop_inv q w w' os :
  inv (mkWorld (set_draining false q) (scheduled w) [] (waiters w) (immediates w)) ->
  draining q = true -> drains w = [] ->
  drain_loop q w = (w', os) -> inv w'.
Proof.
  intros [_ Hi Hw Hh Hn] Hd Hdr Hloop. simpl in *.
  destruct (drain_loop_cases q w) as [(item & q' & E & Hl)|[E Hl]]; [lia| |];
    rewrite Hl in Hloop; injection Hloop as <- <-.
  - pose proof (drain_next_cases q) as H. rewrite E in H.
    destruct H as (Him & Hwt & _ & Hrun & Hqs & Hd' & Hi' & Hw' & _).
    rewrite Him in Hi. constructor; simpl.
    + rewrite Hd', Hd, Hdr. by exists item.
    + by rewrite Hi', Him.
    + by rewrite Hw'.
    + destruct Hqs as [[Hq _]|(_ & -> & _)]; [|done]. rewrite Hq in Hh. by inversion Hh.
    + destruct Hqs as [[_ Hq]|(_ & _ & Hq)]; rewrite Hq in Hn; [done|by inversion Hn].
  - constructor; simpl; done.
Qed.

Lemma executeNow_try_inv lbl ws w w' os :
  inv (mkWorld (set_immediateWaiting (immediateWaiting (queue w) - 1) (queue w))
         (scheduled w) (drains w) (waiters w) (immediates w)) ->
  inv ws -> executeNow_try lbl ws w = (w', os) -> inv w'.
Proof.
  unfold executeNow_try. intros [Hd Hi Hw Hh Hn] Hs. simpl in *.
  destruct (_ || _) eqn:E; intros [= <- <-]; [done|].
  apply orb_false_iff in E as [Er Ei]. apply bool_decide_eq_false in Er.
  rewrite Ei in Hi. constructor; simpl; try done.
  - destruct (draining (queue w)); [|done].
    destruct Hd as (it & _ & Hr & _). rewrite Hr in Er. exfalso. eauto.
  - rewrite Hi. eauto.
Qed.

Lemma step_inv w e w' os : inv w -> step w e = Some (w', os) -> inv w'.
Proof.
  intros Hinv Hs. pose proof Hinv as [Hd Hi Hw Hh Hn].
  destruct e as [lbl prio f now| |o now|lbl|i|]; cbn [step] in Hs.
  - destruct prio; simpl in Hs; injection Hs as <- <-;
      constructor; simpl; try done; apply Forall_app; auto.
  - destruct (scheduled w) as [|n] eqn:Es; [done|].
    destruct (draining (queue w)) eqn:Ed; injection Hs as Hs; [subst w'; by constructor; simpl; rewrite ?Ed|].
    refine (drain_loop_inv _ _ _ _ _ _ _ Hs); by try constructor.
  - destruct (drains w) as [|item rest] eqn:Edr; [done|].
    destruct (draining (queue w)) eqn:Ed; [|done].
    destruct Hd as (it & [= -> ->] & Hr & Him).
    destruct o.
    1,2: destruct (drain_loop _ _) as [w2 os2] eqn:Hl; injection Hs as <- <-;
         refine (drain_loop_inv _ _ _ _ _ _ _ Hl); by try constructor.
    injection Hs as <- <-. by constructor.
  - injection Hs as Hs. eapply executeNow_try_inv; [| |exact Hs].
    + constructor; simpl; try done. lia.
    + constructor; simpl; try done. rewrite length_app. simpl. lia.
  - destruct (waiters w !! i) as [lbl|] eqn:El; [|done]. injection Hs as Hs.
    eapply executeNow_try_inv; [| |exact Hs]; [|done].
    constructor; simpl; try done. rewrite length_delete by eauto.
    apply lookup_lt_Some in El. lia.
  - destruct (immediates w) as [|lbl rest] eqn:Em; [done|]. injection Hs as <- <-.
    destruct (immediateRunning (queue w)) eqn:Ei; [|done].
    destruct Hi as [l [= -> ->]].
    constructor; simpl; try done.
    destruct (draining (queue w)); [|done]. by destruct Hd as (? & _ & _ & ?).
Qed.

(** What one transition does to the queues. *)
Definition same_queues (q q' : OperationQueue) : Prop :=
  highQueue q' = highQueue q /\ normalQueue q' = normalQueue q
  /\ idCounter q' = idCounter q /\ highPrioritySeq q' = highPrioritySeq q.

Definition takes (it : QueueItem) (q q' : OperationQueue) : Prop :=
  ((highQueue q = it :: highQueue q' /\ normalQueue q = normalQueue q')
   \/ (highQueue q = [] /\ highQueue q' = [] /\ normalQueue q = it :: normalQueue q'))
  /\ idCounter q' = idCounter q /\ highPrioritySeq q' = highPrioritySeq q
  /\ running q' = Some it.

Definition adds (it : QueueItem) (q q' : OperationQueue) : Prop :=
  idCounter q' = idCounter q + 1 /\ id it = ("q-" +:+ pretty (idCounter q + 1))%string
  /\ ((priority it = HIGH /\ highQueue q' = highQueue q ++ [it] /\ normalQueue q' = normalQueue q
       /\ highPrioritySeq q' = highPrioritySeq q + 1)
      \/ (priority it = NORMAL /\ highQueue q' = highQueue q /\ normalQueue q' = normalQueue q ++ [it]
          /\ highPrioritySeq q' = highPrioritySeq q)).

Inductive effect (w w' : World) (os : list obs) : Prop :=
| eff_none : enqueued os = [] -> started os = [] -> same_queues (queue w) (queue w') -> effect w w' os
| eff_take it : enqueued os = [] -> started os = [it] -> takes it (queue w) (queue w') ->
    waiters w = [] -> immediates w = [] -> effect w w' os
| eff_add it : enqueued os = [it] -> started os = [] -> adds it (queue w) (queue w') -> effect w w' os.

Lemma drain_loop_effect w0 q w w' os pre :
  inv w0 -> same_queues (queue w0) q ->
  immediateRunning q = immediateRunning (queue w0) ->
  immediateWaiting q = immediateWaiting (queue w0) ->
  enqueued pre = [] -> started pre = [] ->
  drain_loop q w = (w', os) -> effect w0 w' (pre ++ os).
Proof.
  intros [_ Hi Hwt _ _] (Sh & Sn & Si & Ss) Ei Ew Pe Ps Hl.
  destruct (drain_loop_cases q w) as [(item & q' & E & Hl')|[E Hl']]; [lia| |];
    rewrite Hl' in Hl; injection Hl as <- <-.
  - pose proof (drain_next_cases q) as H. rewrite E in H.
    destruct H as (Him & Hwl & _ & Hrun & Hqs & _ & _ & _ & Hid & Hseq).
    apply (eff_take _ _ _ item); unfold enqueued, started, takes in *;
      rewrite ?omap_app; simpl; rewrite ?Pe, ?Ps; try done.
    + rewrite <- Sh, <- Sn, <- Si, <- Ss. done.
    + rewrite Ew, Hwt in Hwl. destruct (waiters w0); [done|simpl in *; lia].
    + by rewrite <- Ei, Him in Hi.
  - apply eff_none; unfold enqueued, started in *; rewrite ?omap_app; simpl;
      rewrite ?Pe, ?Ps; done.
Qed.

Lemma executeNow_try_effect w0 lbl ws w w' os :
  same_queues (queue w0) (queue w) -> same_queues (queue w0) (queue ws) ->
  executeNow_try lbl ws w = (w', os) -> effect w0 w' os.
Proof.
  unfold executeNow_try. intros Hw Hs. destruct (_ || _); intros [= <- <-]; by apply eff_none.
Qed.

Lemma step_effect w e w' os : inv w -> step w e = Some (w', os) -> effect w w' os.
Proof.
  intros Hinv Hs. destruct e as [lbl prio f now| |o now|lbl|i|]; cbn [step] in Hs.
  - destruct prio; simpl in Hs; injection Hs as <- <-;
      (eapply eff_add; [done|done|]); unfold adds; simpl; naive_solver.
  - destruct (scheduled w) as [|n] eqn:Es; [done|].
    destruct (draining (queue w)) eqn:Ed; injection Hs as Hs; [subst; by apply eff_none|].
    by refine (drain_loop_effect w _ _ _ _ [] _ _ _ _ _ _ Hs).
  - destruct (drains w) as [|item rest]; [done|].
    destruct o; [| |injection Hs as <- <-; by apply eff_none];
      (destruct (drain_loop _ _) as [w2 os2] eqn:Hl); injection Hs as <- <-;
      change (Finished item ?o :: os2) with ([Finished item o] ++ os2);
      by refine (drain_loop_effect w _ _ _ _ [_] _ _ _ _ _ _ Hl).
  - injection Hs as Hs. by refine (executeNow_try_effect w _ _ _ _ _ _ _ Hs).
  - destruct (waiters w !! i); [|done]. injection Hs as Hs.
    by refine (executeNow_try_effect w _ _ _ _ _ _ _ Hs).
  - destruct (immediates w); [done|]. injection Hs as <- <-. by apply eff_none.
Qed.

Lemma reach_inv w es os : reach w es os -> inv w.
Proof. induction 1; [by constructor|]. by eapply step_inv. Qed.

Lemma enqueued_app os os' : enqueued (os ++ os') = enqueued os ++ enqueued os'.
Proof. apply omap_app. Qed.

Lemma started_app os os' : started (os ++ os') = started os ++ started os'.
Proof. apply omap_app. Qed.

(** ** Safety *)

Definition qof (p : QueuePriority) (q : OperationQueue) : list QueueItem :=
  match p with HIGH => highQueue q | NORMAL => normalQueue q end.

Lemma effect_fifo p w w' os :
  inv w -> effect w w' os ->
  qof p (queue w) ++ keep (is_prio p) (enqueued os)
  = keep (is_prio p) (started os) ++ qof p (queue w').
Proof.
  intros [_ _ _ Hh Hn] [He Hs (Sh & Sn & _)|it He Hs ([[Sh Sn]|(Sh & Sh' & Sn)] & _) _ _
                        |it He Hs (_ & _ & [(Hp & Sh & Sn & _)|(Hp & Sh & Sn & _)])];
    rewrite He, Hs; destruct p; simpl; unfold is_prio;
    rewrite ?Sh, ?Sn, ?Sh', ?Hp, ?app_nil_r; simpl; try done.
  all: first [ rewrite Sh in Hh; inversion Hh as [|? ? Hp]; subst; by rewrite Hp
             | rewrite Sn in Hn; inversion Hn as [|? ? Hp]; subst; by rewrite Hp ].
Qed.

Lemma reach_ids w es os :
  reach w es os ->
  idCounter (queue w) = Z.of_nat (length (enqueued os))
  /\ id <$> enqueued os = (fun n : nat => ("q-" +:+ pretty (Z.of_nat n))%string) <$> seq 1 (length (enqueued os)).
Proof.
  induction 1 as [|w es os e w' o Hr [Hc Hi] Hs]; [done|].
  rewrite enqueued_app.
  destruct (step_effect _ _ _ _ (reach_inv _ _ _ Hr) Hs)
    as [He _ (_ & _ & Sc & _)|it He _ (_ & Sc & _) _ _|it He _ (Sc & Hid & _)]; rewrite He, ?app_nil_r.
  - by rewrite Sc.
  - by rewrite Sc.
  - rewrite length_app, fmap_app. simpl. split; [lia|].
    rewrite Nat.add_1_r, seq_S, fmap_app, Hi. simpl. rewrite Hid. do 4 f_equal. lia.
Qed.

Lemma keep_prio_perm (l : list QueueItem) :
  l ≡ₚ keep (is_prio HIGH) l ++ keep (is_prio NORMAL) l.
Proof.
  induction l as [|it l IH]; simpl; [done|].
  assert (is_prio NORMAL it = negb (is_prio HIGH it)) as ->.
  { unfold is_prio. by destruct (priority it). }
  destruct (is_prio HIGH it); simpl; [by apply perm_skip|].
  etrans; [|apply Permutation_middle]. by apply perm_skip.
Qed.

Lemma reach_fifo p w es os :
  reach w es os ->
  keep (is_prio p) (enqueued os) = keep (is_prio p) (started os) ++ qof p (queue w).
Proof.
  induction 1 as [|w es os e w' o Hr IH Hs]; [by destruct p|].
  pose proof (effect_fifo p _ _ _ (reach_inv _ _ _ Hr) (step_effect _ _ _ _ (reach_inv _ _ _ Hr) Hs)) as Hf.
  rewrite enqueued_app, started_app, !keep_app, IH, <- !app_assoc. by rewrite Hf.
Qed.

Lemma reach_conserves w es os :
  reach w es os -> enqueued os ≡ₚ started os ++ pending (queue w).
Proof.
  intros Hr. pose proof (reach_fifo HIGH _ _ _ Hr) as Hh. pose proof (reach_fifo NORMAL _ _ _ Hr) as Hn.
  etrans; [apply keep_prio_perm|]. rewrite Hh, Hn. symmetry.
  etrans; [apply Permutation_app_tail, keep_prio_perm|].
  unfold pending. simpl. solve_Permutation.
Qed.

Lemma reach_ids_NoDup w es os : reach w es os -> NoDup (id <$> enqueued os).
Proof.
  intros [_ ->]%reach_ids. apply NoDup_fmap; [|apply NoDup_seq].
  intros n m E. apply (inj (String.append "q-")), (inj (pretty (A:=Z))) in E. lia.
Qed.

(** C15: at any moment at most one operation is executing: the suspended drain
    activations and the running immediate operations number at most one in
    total, and [isExecuting] reports whenever there is one. *)
Theorem queue_mutual_exclusion w es os :
  reach w es os ->
  (length (drains w) + length (immediates w) <= 1)%nat
  /\ ((drains w <> [] \/ immediates w <> []) -> isExecuting (queue w) = true).
Proof.
  intros [Hd Hi _ _ _]%reach_inv. unfold isExecuting.
  destruct (draining (queue w)).
  - destruct Hd as (it & -> & -> & ->). simpl. split; [lia|done].
  - rewrite Hd. simpl. destruct (immediateRunning (queue w)).
    + destruct Hi as [l ->]. simpl. split; [lia|]. intros _. apply orb_true_r.
    + rewrite Hi. simpl. split; [lia|naive_solver].
Qed.

(** C16: items of one priority start in the order they were enqueued, nothing is
    lost or duplicated, and no item starts twice: per priority, what was
    enqueued is what started followed by what is still queued, and the ids of
    the started and queued items are distinct. *)
Theorem queue_fifo_no_loss w es os :
  reach w es os ->
  (forall p, keep (is_prio p) (enqueued os) = keep (is_prio p) (started os) ++ qof p (queue w))
  /\ enqueued os ≡ₚ started os ++ pending (queue w)
  /\ NoDup (id <$> (started os ++ pending (queue w))).
Proof.
  intros Hr. pose proof (reach_conserves _ _ _ Hr) as Hp. split_and!.
  - intros p. by apply (reach_fifo p _ es).
  - done.
  - rewrite <- Hp. by eapply reach_ids_NoDup.
Qed.

(** A queued item starts only when no [executeNow] caller is waiting or
    running, and a NORMAL item only when no HIGH item is queued. *)
Theorem queue_start_discipline w es os e w' o it :
  reach w es os -> step w e = Some (w', o) -> it ∈ started o ->
  waiters w = [] /\ immediates w = [] /\ (priority it = NORMAL -> highQueue (queue w) = []).
Proof.
  intros Hr Hs Hin. pose proof (reach_inv _ _ _ Hr) as Hinv.
  destruct (step_effect _ _ _ _ Hinv Hs) as [_ E _|it' _ E (Hq & _) Hw Hi|it' _ E _];
    rewrite E in Hin; try (exfalso; set_solver).
  assert (it' = it) as -> by set_solver. split_and!; [done|done|]. intros Hp.
  destruct Hq as [[Hq _]|[Hq _]]; [|done].
  destruct Hinv as [_ _ _ Hh _]. rewrite Hq in Hh. inversion Hh. congruence.
Qed.

(** ** Liveness *)

Lemma drain_loop_healthy q w w' os :
  draining q = true -> running q = None -> 0 <= immediateWaiting q ->
  immediateWaiting q = Z.of_nat (length (waiters w)) ->
  (immediateRunning q = true -> immediates w <> []) ->
  drain_loop q w = (w', os) -> healthy w'.
Proof.
  intros Hd Hr Hw Hwl Hi Hl.
  destruct (drain_loop_cases q w) as [(item & q' & E & Hl')|[E Hl']]; [lia| |];
    rewrite Hl' in Hl; injection Hl as <- <-;
    pose proof (drain_next_cases q) as H; rewrite E in H.
  - destruct H as (_ & _ & _ & _ & _ & Hd' & _).
    constructor; simpl; rewrite Hd', Hd; done.
  - constructor; simpl; [done|]. intros _ Hp Hwt Him.
    change (pending q <> []) in Hp. rewrite Hwt in Hwl. simpl in Hwl.
    destruct H as [H|[H|H]]; [done|by apply Hi in H|lia].
Qed.

Lemma executeNow_try_healthy lbl ws w w' os :
  healthy w -> healthy ws -> executeNow_try lbl ws w = (w', os) -> healthy w'.
Proof.
  unfold executeNow_try. intros [H1 H2] Hs. destruct (_ || _); intros [= <- <-]; [done|].
  constructor; simpl; [done|]. intros _ _ _ Hm. done.
Qed.

Lemma step_healthy w e w' os :
  inv w -> healthy w -> nullish_event e = false -> step w e = Some (w', os) -> healthy w'.
Proof.
  intros [Hd Hi Hw Hh Hn] Hhe He Hs. pose proof Hhe as [H1 H2].
  destruct e as [lbl prio f now| |o now|lbl|i|]; cbn [step] in Hs.
  - destruct prio; simpl in Hs; injection Hs as <- <-; constructor; simpl; try done;
      intros E; unfold scheduleDrain; simpl; rewrite E; lia.
  - destruct (scheduled w) as [|n] eqn:Es; [done|].
    destruct (draining (queue w)) eqn:Ed; injection Hs as Hs.
    + subst. constructor; simpl; by rewrite Ed.
    + refine (drain_loop_healthy _ _ _ _ _ _ _ _ _ Hs); simpl; try done; [auto|lia|].
      intros E. rewrite E in Hi. by destruct Hi as [l ->].
  - destruct (drains w) as [|item rest] eqn:Edr; [done|].
    destruct (draining (queue w)) eqn:Ed; [|done].
    destruct o; [| |done];
      (destruct (drain_loop _ _) as [w2 os2] eqn:Hl); injection Hs as <- <-;
      (refine (drain_loop_healthy _ _ _ _ _ _ _ _ _ Hl); simpl; try done; [lia|]);
      intros E; rewrite E in Hi; by destruct Hi as [l ->].
  - injection Hs as Hs. refine (executeNow_try_healthy _ _ _ _ _ _ _ Hs); constructor; simpl; auto.
    intros _ _ Hm. by destruct (waiters w).
  - destruct (waiters w !! i) eqn:El; [|done]. injection Hs as Hs. cbn [queue] in Hs.
    unfold executeNow_try in Hs. simpl in Hs. destruct (_ || _); injection Hs as <- <-; [done|].
    by constructor.
  - destruct (immediates w) as [|lbl rest] eqn:Em; [done|]. injection Hs as <- <-.
    constructor; simpl; [done|]. intros E _ _ _. unfold scheduleDrain. simpl. rewrite E. lia.
Qed.

Lemma reach_healthy w es os :
  reach w es os -> Forall (fun e => nullish_event e = false) es -> healthy w.
Proof.
  induction 1 as [|w es os e w' o Hr IH Hs]; [done|].
  intros [Hes He]%Forall_app. eapply step_healthy; [by eapply reach_inv|auto| |done].
  by inversion He.
Qed.

(** Work left: two per queued item and per waiter, one for what is running. *)
Definition work (w : World) : nat :=
  2 * length (pending (queue w)) + 2 * length (waiters w) + length (drains w) + length (immediates w).

(** An internal event that is enabled, makes progress and starts only the head
    of the queue. *)
Definition can_progress (w : World) : Prop :=
  exists e w' o, internal_event e = true /\ step w e = Some (w', o)
    /\ (work w' < work w)%nat /\ pending (queue w) = started o ++ pending (queue w').

(** The running item settles. *)
Lemma progress_item w : inv w -> draining (queue w) = true -> can_progress w.
Proof.
  intros [Hd _ Hw _ _] Ed. rewrite Ed in Hd. destruct Hd as (it & Hdr & Hr & Him).
  unfold can_progress, work.
  pose (q := set_lastCompletedAt 0 (set_running None (queue w))).
  pose (w0 := mkWorld (queue w) (scheduled w) [] (waiters w) (immediates w)).
  exists (EvItemDone Resolved 0). cbn [step]. rewrite Hdr. fold w0 q.
  destruct (drain_loop_cases q w0) as [(item & q' & E & Hl)|[E Hl]]; [simpl; lia| |];
    rewrite Hl; eexists _, _; (split; [done|split; [done|]]); simpl.
  - pose proof (drain_next_cases q) as Hc. rewrite E in Hc. destruct Hc as (_ & _ & Hp & _).
    change (pending q) with (pending (queue w)) in Hp.
    rewrite Hp. split; [simpl; lia|done].
  - change (pending (set_draining false q)) with (pending (queue w)).
    split; [simpl; lia|done].
Qed.

(** The running immediate operation settles. *)
Lemma progress_immediate w : inv w -> immediateRunning (queue w) = true -> can_progress w.
Proof.
  intros [_ Hi _ _ _] Ei. rewrite Ei in Hi. destruct Hi as [l Him].
  unfold can_progress, work. exists EvImmediateDone. cbn [step]. rewrite Him.
  eexists _, _; (split; [done|split; [done|]]); simpl.
  change (pending (set_immediateRunning false (queue w))) with (pending (queue w)).
  split; [lia|done].
Qed.

(** Nothing runs and nobody waits: the posted drain starts the next item. *)
Lemma progress_drain w :
  inv w -> healthy w -> draining (queue w) = false -> immediateRunning (queue w) = false ->
  waiters w = [] -> pending (queue w) <> [] -> can_progress w.
Proof.
  intros [Hd Hi Hw _ _] [_ H2] Ed Ei Ewt Hp. rewrite Ed in Hd. rewrite Ei in Hi.
  pose proof (H2 Ed Hp Ewt Hi) as Hsch. unfold can_progress, work.
  destruct (scheduled w) as [|n] eqn:Es; [lia|].
  pose (q := set_draining true (queue w)).
  exists EvDrain. cbn [step]. rewrite Es, Ed. fold q. rewrite Ewt in Hw. simpl in Hw.
  destruct (drain_loop_cases q (mkWorld (queue w) n (drains w) (waiters w) (immediates w)))
    as [(item & q' & E & Hl)|[E Hl]]; [simpl; lia| |];
    pose proof (drain_next_cases q) as Hc; rewrite E in Hc.
  - rewrite Hl. eexists _, _; (split; [done|split; [done|]]); simpl.
    destruct Hc as (_ & _ & Hpp & _). change (pending q) with (pending (queue w)) in Hpp.
    rewrite Hpp, Hd. split; [simpl; lia|done].
  - exfalso. destruct Hc as [Hc|[Hc|Hc]]; simpl in *; [done|congruence|lia].
Qed.

(** Nothing runs and a caller waits: its poll wakes and it runs. *)
Lemma progress_waiter w lbl ws :
  inv w -> healthy w -> draining (queue w) = false -> immediateRunning (queue w) = false ->
  waiters w = lbl :: ws -> can_progress w.
Proof.
  intros _ [H1 _] Ed Ei Ewt. unfold can_progress, work.
  exists (EvPoll 0). cbn [step]. rewrite Ewt. unfold executeNow_try. simpl.
  rewrite (H1 Ed), Ei. simpl. eexists _, _; (split; [done|split; [done|]]); simpl.
  change (pending (set_immediateWaiting _ _)) with (pending (queue w)). split; [lia|done].
Qed.

Lemma progress w : inv w -> healthy w -> work w <> 0%nat -> can_progress w.
Proof.
  intros Hinv Hh Hwork. pose proof Hinv as [Hd Hi _ _ _].
  destruct (draining (queue w)) eqn:Ed; [by apply progress_item|].
  destruct (immediateRunning (queue w)) eqn:Ei; [by apply progress_immediate|].
  destruct (waiters w) as [|lbl ws] eqn:Ewt; [|by eapply progress_waiter].
  apply progress_drain; try done. intros Hp.
  unfold work in Hwork. rewrite Hp, Ewt, Hd, Hi in Hwork. done.
Qed.

Lemma drains_eventually n w :
  (work w <= n)%nat -> inv w -> healthy w ->
  exists es w' os, Forall (fun e => internal_event e = true) es /\ run w es = Some (w', os)
    /\ work w' = 0%nat /\ started os = pending (queue w).
Proof.
  revert w. induction n as [|n IH]; intros w Hn Hinv Hh;
    (destruct (decide (work w = 0%nat)) as [E|E];
     [exists [], w, []; split_and!; [done|done|done|];
      unfold work in E; simpl; destruct (pending (queue w)); [done|simpl in E; lia] | ]); [lia|].
  destruct (progress w Hinv Hh E) as (e & w1 & o1 & He & Hs & Hlt & Hp).
  destruct (IH w1) as (es & w2 & o2 & Hes & Hrun & Hz & Hst).
  - lia.
  - by eapply step_inv.
  - eapply step_healthy; [done|done| |done]. by destruct e as [| |[]| | |].
  - exists (e :: es), w2, (o1 ++ o2). split_and!; [by constructor| |done|].
    + simpl. by rewrite Hs, Hrun.
    + by rewrite started_app, Hst, Hp.
Qed.

(** C17: the queue never gets stuck: from any reachable state in which no
    operation rejected with a null reason, letting the running operations
    settle and the posted callbacks run empties the queue, serves every
    waiting [executeNow] caller, and starts exactly the queued items, HIGH
    first and in order. *)
Theorem queue_drains w es os :
  reach w es os -> Forall (fun e => nullish_event e = false) es ->
  exists es' w' os', Forall (fun e => internal_event e = true) es'
    /\ run w es' = Some (w', os')
    /\ pending (queue w') = [] /\ waiters w' = [] /\ drains w' = [] /\ immediates w' = []
    /\ started os' = highQueue (queue w) ++ normalQueue (queue w).
Proof.
  intros Hr Hn.
  destruct (drains_eventually (work w) w) as (es' & w' & os' & He & Hrun & Hz & Hst);
    [lia|by eapply reach_inv|by eapply reach_healthy|].
  exists es', w', os'. unfold work in Hz.
  destruct (pending (queue w')), (waiters w'), (drains w'), (immediates w'); simpl in Hz; try lia.
  done.
Qed.

(** ** The HIGH-priority snapshot *)

Lemma run_seq w es w' os :
  inv w -> run w es = Some (w', os) ->
  highPrioritySeq (queue w')
  = highPrioritySeq (queue w) + Z.of_nat (length (keep (is_prio HIGH) (enqueued os))).
Proof.
  revert w w' os. induction es as [|e es IH]; intros w w' os Hinv Hrun; simpl in Hrun.
  { injection Hrun as <- <-. simpl. lia. }
  destruct (step w e) as [[w1 o1]|] eqn:Hs; [|done].
  destruct (run w1 es) as [[w2 o2]|] eqn:Hr; [|done]. injection Hrun as <- <-.
  rewrite (IH w1 w2 o2 (step_inv _ _ _ _ Hinv Hs) Hr), enqueued_app, keep_app, length_app.
  destruct (step_effect _ _ _ _ Hinv Hs)
    as [He _ (_ & _ & _ & Sc)|it He _ (_ & _ & Sc & _) _ _
       |it He _ (_ & _ & [(Hp & _ & _ & Sc)|(Hp & _ & _ & Sc)])];
    rewrite He, Sc; simpl; unfold is_prio; rewrite ?Hp; simpl; lia.
Qed.

(** The snapshot test is exact: comparing with a sequence number read
    earlier answers false iff no HIGH operation was enqueued in between and
    none is running or queued. *)
Theorem high_activity_snapshot_exact w es os es' w' os' :
  reach w es os -> run w es' = Some (w', os') ->
  hasHighPriorityActivityAfter (highPrioritySeq (queue w)) (queue w') = false <->
  keep (is_prio HIGH) (enqueued os') = []
  /\ highQueue (queue w') = []
  /\ (forall it, running (queue w') = Some it -> priority it = NORMAL).
Proof.
  intros Hr Hrun. unfold hasHighPriorityActivityAfter, isHighPriorityRunningOrPending.
  rewrite (run_seq _ _ _ _ (reach_inv _ _ _ Hr) Hrun), !orb_false_iff, !Z.ltb_ge.
  assert (forall l : list QueueItem, Z.of_nat (length l) <= 0 <-> l = []) as Hlen
    by (intros []; simpl; split; (done || lia)).
  rewrite Hlen. rewrite <- (Hlen (keep _ _)).
  assert (match running (queue w') with
          | Some it => bool_decide (priority it = HIGH) | None => false end = false
          <-> forall it, running (queue w') = Some it -> priority it = NORMAL) as ->.
  { destruct (running (queue w')) as [it|]; [|naive_solver].
    rewrite bool_decide_eq_false. split.
    - intros H it' [= <-]. by destruct (priority it).
    - intros H. by rewrite (H it eq_refl). }
  split; intros; destruct_and?; split_and!; (done || lia).
Qed.

End Queue.

Arguments QueueItem : clear implicits.
Arguments OperationQueue : clear implicits.
Arguments World : clear implicits.
Arguments event : clear implicits.
Arguments obs : clear implicits.

(** ** Concrete executions *)

Lemma run_reach {Fn} es (w w' : World Fn) es0 os0 os :
  reach w es0 os0 -> run w es = Some (w', os) -> reach w' (es0 ++ es) (os0 ++ os).
Proof.
  revert w es0 os0 os. induction es as [|e es IH]; intros w es0 os0 os Hr Hrun; simpl in Hrun.
  - injection Hrun as <- <-. by rewrite !app_nil_r.
  - destruct (step w e) as [[w1 o1]|] eqn:Hs; [|done].
    destruct (run w1 es) as [[w2 o2]|] eqn:Hrn; [|done]. injection Hrun as <- <-.
    rewrite (app_assoc os0). replace (es0 ++ e :: es) with ((es0 ++ [e]) ++ es) by by rewrite <- app_assoc.
    eapply IH; [|done]. by eapply reach_step.
Qed.

(** A reconcile close and a copy event are queued, the first starts, a manual
    close arrives and waits, the copy event is enqueued behind it. *)
Definition demo_events : list (event unit) :=
  [EvEnqueue "reconcile" NORMAL tt 0; EvEnqueue "copy" HIGH tt 1; EvDrain;
   EvExecuteNow "manual-close"; EvEnqueue "copy2" HIGH tt 2].

Definition demo_end : World unit * list (obs unit) :=
  Eval vm_compute in default (init_world, []) (run init_world demo_events).

Lemma demo_reach : reach demo_end.1 demo_events demo_end.2.
Proof.
  apply (run_reach demo_events init_world _ [] [] _); [constructor|vm_compute; reflexivity].
Qed.

Lemma queue_mutual_exclusion_witness :
  (length (drains demo_end.1) + length (immediates demo_end.1) <= 1)%nat.
Proof. exact (proj1 (queue_mutual_exclusion _ _ _ demo_reach)). Defined.

Lemma queue_fifo_no_loss_witness :
  length (pending (queue demo_end.1)) = 2%nat
  /\ NoDup (id <$> (started demo_end.2 ++ pending (queue demo_end.1))).
Proof.
  split; [reflexivity|].
  exact (proj2 (proj2 (queue_fifo_no_loss _ _ _ demo_reach))).
Defined.

(** The world just before the first drain of [demo_events]. *)
Definition demo_before : World unit * list (obs unit) :=
  Eval vm_compute in default (init_world, []) (run init_world (take 2 demo_events)).

Lemma demo_before_reach : reach demo_before.1 (take 2 demo_events) demo_before.2.
Proof.
  apply (run_reach (take 2 demo_events) init_world _ [] [] _); [constructor|vm_compute; reflexivity].
Qed.

Lemma queue_start_discipline_witness :
  exists w' o it, step demo_before.1 EvDrain = Some (w', o) /\ it ∈ started o
    /\ waiters demo_before.1 = [].
Proof.
  eexists _, _, _. split; [reflexivity|]. split; [apply list_elem_of_here|].
  refine (proj1 (queue_start_discipline demo_before.1 (take 2 demo_events) demo_before.2
                   EvDrain _ _ _ demo_before_reach eq_refl (list_elem_of_here _ _))).
Defined.

Lemma queue_drains_witness :
  exists es' w' os', run demo_end.1 es' = Some (w', os') /\ pending (queue w') = []
    /\ length (started os') = 2%nat.
Proof.
  destruct (queue_drains _ _ _ demo_reach) as (es' & w' & os' & _ & Hrun & Hp & _ & _ & _ & Hs).
  - repeat constructor.
  - exists es', w', os'. rewrite Hs. split; [exact Hrun|]. split; [exact Hp|reflexivity].
Defined.

Lemma high_activity_snapshot_witness :
  hasHighPriorityActivityAfter (highPrioritySeq (queue demo_before.1)) (queue demo_before.1) = false
  <-> @keep (QueueItem unit) (is_prio HIGH) [] = [] /\ highQueue (queue demo_before.1) = []
      /\ (forall it, running (queue demo_before.1) = Some it -> priority it = NORMAL).
Proof.
  refine (high_activity_snapshot_exact demo_before.1 (take 2 demo_events) demo_before.2
            [] demo_before.1 [] demo_before_reach eq_refl).
Defined.

(** An operation that rejects with a null reason makes the catch block of the
    drain loop throw. *)
Definition nullish_events : list (event unit) :=
  [EvEnqueue "a" HIGH tt 0; EvEnqueue "b" HIGH tt 0; EvDrain; EvDrain; EvItemDone RejectedNullish 1].

Definition nullish_world : World unit :=
  Eval vm_compute in match run init_world nullish_events with Some (w, _) => w | None => init_world end.

(** The hypothesis of the liveness theorem is needed: after a rejection
    with a null reason the drain loop is left with an item queued, nothing
    scheduled, and [running] still set, so no internal event is enabled and a
    later [executeNow] caller does not start. *)
Theorem queue_stalls_on_null_rejection :
  (exists os, reach nullish_world nullish_events os)
  /\ length (pending (queue nullish_world)) = 1%nat
  /\ bool_decide (is_Some (running (queue nullish_world))) = true
  /\ (forall e, internal_event e = true -> step nullish_world e = None)
  /\ (exists w', step nullish_world (EvExecuteNow "manual-close") = Some (w', [])
                 /\ waiters w' = ["manual-close"%string]).
Proof.
  split_and!; [|reflexivity|reflexivity| |].
  - eexists. apply (run_reach nullish_events init_world _ [] []); [constructor|].
    vm_compute. reflexivity.
  - intros [| |[]| | |] He; try discriminate He; try reflexivity.
  - eexists. split; reflexivity.
Qed.

End Queue.
