(* ===== verification/Ratio.v ===== *)
(** * Amount scaling ([src/utils/ratio.ts])

    The share of a target's trade the bot mirrors.  Ratios are doubles; amounts
    are big numbers of the [bn.js] package, which is the interface [BNLib].
    [config.walletAmountRatios] and [config.amountRatio] are the two fields of
    the configuration the module reads. *)

From S2P Require Import Prelude JsMap JsString JsNumber.
Open Scope Z_scope.

Module Ratio.

Record ratio_config := mkRatioConfig {
  walletAmountRatios : list (string * num);
  amountRatio : num;
}.

Section Ratio.
Context `{L : BNLib}.

Definition getAmountRatio (config : ratio_config) (walletAddress : option string) : num :=
  match walletAddress with
  | Some a =>
      if truthy a then
        match jget a (walletAmountRatios config) with
        | Some perWallet => perWallet
        | None => amountRatio config
        end
      else amountRatio config
  | None => amountRatio config
  end.

(** [Math.floor(ratio * 10000)] *)
Definition ratioBps (ratio : num) : option Z := floorZ (nmul ratio (num_of_Z 10000)).

(** [amount.mul(new BN(ratioBps)).div(new BN(10000))] *)
Definition mulBps (amount : BN) (ratio : num) : outcome BN :=
  let! bps := bn_of_int (ratioBps ratio) in
  let! d := bn_of_int (Some 10000) in
  Ret (bn_div (bn_mul amount bps) d).

Definition scaleAmount (config : ratio_config) (amount : BN) (walletAddress : option string)
    : outcome BN :=
  let ratio := getAmountRatio config walletAddress in
  if neqb ratio (num_of_Z 1) then Ret amount else mulBps amount ratio.

Definition scaleNumericAmount (config : ratio_config) (amount : num) (walletAddress : option string)
    : num :=
  floor_num (nmul amount (getAmountRatio config walletAddress)).

Definition computeSwapCapRaw (inputAmountRaw : option string) (ratio : num)
    : outcome (option string) :=
  let! targetRaw := bn_of_string (or_else inputAmountRaw "0"%string) in
  let! scaled := mulBps targetRaw ratio in
  let! zero := bn_of_int (Some 0) in
  Ret (if bn_gt scaled zero then Some (bn_toString scaled) else None).

(** ** Properties *)

Context `{!BNLaws L}.

Lemma mulBps_spec amount ratio b :
  ratioBps ratio = Some b -> Z.abs b < 2 ^ 53 ->
  exists r, mulBps amount ratio = Ret r /\ bn_val r = Z.quot (bn_val amount * b) 10000.
Proof.
  intros Hb Hs. unfold mulBps. rewrite Hb.
  destruct (bn_of_int_safe b Hs) as (bb & -> & Hbb).
  destruct (bn_of_int_safe 10000) as (dd & Hd & Hdd); [lia|]. simpl.
  rewrite Hd. simpl. eexists. split; [done|].
  rewrite bn_div_val by lia. by rewrite bn_mul_val, Hbb, Hdd.
Qed.

(** The cap computed from the decimal text of the target's amount. *)
Lemma computeSwapCapRaw_spec n ratio b :
  0 <= n -> ratioBps ratio = Some b -> 0 <= b < 2 ^ 53 ->
  let c := n * b / 10000 in
  computeSwapCapRaw (Some (Z_toString n)) ratio
    = Ret (if 0 <? c then Some (Z_toString c) else None)
  /\ (b <= 10000 -> c <= n) /\ 0 <= c.
Proof.
  intros Hn Hb Hs c. unfold computeSwapCapRaw.
  assert (or_else (Some (Z_toString n)) "0"%string = Z_toString n) as ->.
  { rewrite Z_toString_nonneg by done. simpl.
    destruct (pretty.pretty (Z.to_N n)) eqn:E; [by apply pretty_nonempty in E|done]. }
  destruct (bn_of_string_dec n Hn) as (t & Ht & Hv). rewrite Ht. simpl.
  destruct (mulBps_spec t ratio b Hb) as (r & Hr & Hrv); [lia|]. rewrite Hr. simpl.
  destruct (bn_of_int_safe 0) as (z & Hz & Hzv); [lia|]. rewrite Hz. simpl.
  rewrite bn_gt_val, bn_toString_val, Hzv, Hrv, Hv, Z.quot_div_nonneg by nia.
  split_and!; [done| |].
  - intros Hle. subst c. apply Z.div_le_upper_bound; nia.
  - subst c. apply Z.div_pos; nia.
Qed.

(** The cap of a mirrored swap.  For a target that sold [n] base units and
    a ratio of [b] basis points, the cap is [n * b / 10000] in decimal when
    that is positive and null otherwise; a cap is therefore never "0", never
    negative, and for a ratio of at most one it never exceeds what the target
    sold. *)
Theorem swap_cap_spec n ratio b :
  0 <= n -> ratioBps ratio = Some b -> 0 <= b < 2 ^ 53 ->
  let c := n * b / 10000 in
  computeSwapCapRaw (Some (Z_toString n)) ratio
    = Ret (if 0 <? c then Some (Z_toString c) else None)
  /\ (b <= 10000 -> c <= n) /\ 0 <= c.
Proof. apply computeSwapCapRaw_spec. Qed.

(** A swap whose amount is unknown is skipped: without a parsed amount the
    cap is null, whatever the (finite) ratio. *)
Theorem swap_cap_unknown_amount ratio b :
  ratioBps ratio = Some b -> Z.abs b < 2 ^ 53 ->
  computeSwapCapRaw None ratio = Ret None.
Proof.
  intros Hb Hs. unfold computeSwapCapRaw. simpl.
  destruct (bn_of_string_dec 0) as (t & Ht & Hv); [lia|].
  change (Z_toString 0) with "0"%string in Ht. rewrite Ht. simpl.
  destruct (mulBps_spec t ratio b Hb Hs) as (r & Hr & Hrv). rewrite Hr. simpl.
  destruct (bn_of_int_safe 0) as (z & Hz & Hzv); [lia|]. rewrite Hz. simpl.
  by rewrite bn_gt_val, Hzv, Hrv, Hv.
Qed.

(** Scaling a position never grows it beyond the target's at a ratio of at most
    one, and is the identity at ratio one. *)
Lemma scaleAmount_bound config amount w b :
  0 <= bn_val amount -> ratioBps (getAmountRatio config w) = Some b -> 0 <= b <= 10000 ->
  exists r, scaleAmount config amount w = Ret r /\ 0 <= bn_val r <= bn_val amount.
Proof.
  intros Ha Hb Hs. unfold scaleAmount. destruct (neqb _ _); [eauto with lia|].
  destruct (mulBps_spec amount _ b Hb) as (r & Hr & Hrv); [lia|].
  exists r. split; [done|]. rewrite Hrv, Z.quot_div_nonneg by nia.
  split; [apply Z.div_pos; nia | apply Z.div_le_upper_bound; nia].
Qed.

End Ratio.

(** ** Concrete runs *)

Definition half : num := dec_num 5 1.

Lemma swap_cap_spec_witness :
  ratioBps half = Some 5000
  /\ computeSwapCapRaw (L := Z_BN) (Some (Z_toString 1000000)) half = Ret (Some (Z_toString 500000)).
Proof.
  split; [vm_compute; reflexivity|].
  exact (proj1 (swap_cap_spec (L := Z_BN) (BNLaws0 := Z_BN_laws) 1000000 half 5000
    ltac:(lia) ltac:(vm_compute; reflexivity) ltac:(lia))).
Defined.

Lemma swap_cap_unknown_amount_witness :
  computeSwapCapRaw (L := Z_BN) None half = Ret None.
Proof.
  exact (swap_cap_unknown_amount (L := Z_BN) (BNLaws0 := Z_BN_laws) half 5000
    ltac:(vm_compute; reflexivity) ltac:(lia)).
Defined.

(** A dust-sized sale is skipped instead of becoming a full-balance sale. *)
Example swap_cap_dust : computeSwapCapRaw (L := Z_BN) (Some "1"%string) half = Ret None.
Proof. vm_compute. reflexivity. Qed.

(** The double product can round below the decimal one: 0.57 scales by 5699
    basis points. *)
Example ratio_057_rounds_down : ratioBps (dec_num 57 2) = Some 5699.
Proof. vm_compute. reflexivity. Qed.

End Ratio.
