(* ===== verification/TxTypes.v ===== *)
(** * Transactions and parsed events ([src/monitor/parser.ts], data)

    The shape of a parsed Solana transaction as the RPC returns it, restricted
    to the fields the parser reads, and the events the parser produces.  A
    public key is its base-58 text.  Optional JSON fields are options: an
    absent [meta], balance list, owner or account list is [None].  Balances in
    lamports and UI amounts are doubles, as [JSON.parse] yields them.

    [bs58] is an external package; [Bs58] is its [decode], [None] being the
    exception it throws, with the documented law that it yields bytes.
    [base58] is an executable instance used in concrete runs. *)

From Stdlib Require Import Ascii.
From S2P Require Import Prelude JsMap JsString JsNumber.
Open Scope Z_scope.

(** ** Parsed transactions *)

Record UiTokenAmount := mkUi {
  amount : string;                  (** base units, decimal *)
  decimals : Z;
  uiAmount : option num;            (** null when not representable *)
  uiAmountString : option string;
}.

Record TokenBalance := mkBalance {
  accountIndex : Z;
  mint : string;
  owner : option string;
  uiTokenAmount : UiTokenAmount;
}.

(** [PartiallyDecodedInstruction]; a fully parsed instruction has neither
    [accounts] nor [data]. *)
Record Instruction := mkIx {
  programId : string;
  accounts : option (list string);
  data : option string;
}.

Record TransactionMeta := mkMeta {
  err : bool;
  fee : num;
  preBalances : option (list num);
  postBalances : option (list num);
  preTokenBalances : option (list TokenBalance);
  postTokenBalances : option (list TokenBalance);
  innerInstructions : option (list (list Instruction));
}.

Record ParsedTransaction := mkTx {
  meta : option TransactionMeta;
  instructions : list Instruction;
  accountKeys : list string;
}.

(** [tx.meta?.field || []] *)
Definition meta_list {A} (f : TransactionMeta -> option (list A)) (tx : ParsedTransaction) : list A :=
  match meta tx with
  | Some mt => default [] (f mt)
  | None => []
  end.

Definition preTB (tx : ParsedTransaction) : list TokenBalance := meta_list preTokenBalances tx.
Definition postTB (tx : ParsedTransaction) : list TokenBalance := meta_list postTokenBalances tx.
Definition innerIxs (tx : ParsedTransaction) : list (list Instruction) := meta_list innerInstructions tx.

(** The configuration fields the parser reads. *)
Record ParserConfig := mkParserConfig {
  byrealProgramId : string;
  orcaProgramId : string;
  meteoraProgramId : string;
  pcsProgramId : string;
  memoProgramId : string;
  pcsEnabled : bool;
}.

(** ** Events *)

Record Received := mkReceived { rec_mint : string; rec_amount : string }.

(** The fields Byreal and PancakeSwap opens share. *)
Record ClmmOpen := mkClmmOpen {
  poolId : string;
  tickLower : Z;
  tickUpper : Z;
  liquidity : string;
  refererPosition : option string;
  tokenAmountA : string;
  tokenAmountB : string;
  openNftMint : string;
  openPoolMints : option string;
}.

Record SwapInfo := mkSwap {
  inputMint : string;
  outputMint : string;
  inputAmount : string;
  outputAmount : string;
  inputDecimals : Z;
  outputDecimals : Z;
  inputAmountRaw : string;
  inputPreBalanceRaw : string;
}.

Inductive ParsedEvent :=
| JUPITER_SWAP (s : SwapInfo)
| BYREAL_OPEN_POSITION (o : ClmmOpen)
| BYREAL_INCREASE_LIQUIDITY (positionNftMint : string)
| BYREAL_DECREASE_LIQUIDITY (positionNftMint liquidity : string)
| BYREAL_CLOSE_POSITION (positionNftMint : string) (receivedTokens : list Received)
| BYREAL_COLLECT_FEES (positionNftMint : string)
| ORCA_OPEN_POSITION (poolAddress : string) (tickLower tickUpper : Z) (positionNftMint : string)
    (poolMints : option string)
| ORCA_CLOSE_POSITION (positionNftMint : string) (receivedTokens : list Received)
| ORCA_INCREASE_LIQUIDITY (positionNftMint : string)
| ORCA_DECREASE_LIQUIDITY (positionNftMint : string)
| METEORA_OPEN_POSITION (poolAddress : string) (lowerBinId width : Z) (positionAddress : string)
| METEORA_CLOSE_POSITION (positionAddress : string) (receivedTokens : list Received)
| METEORA_ADD_LIQUIDITY (positionAddress : string)
| METEORA_REMOVE_LIQUIDITY (positionAddress : string)
| PCS_OPEN_POSITION (o : ClmmOpen)
| PCS_INCREASE_LIQUIDITY (positionNftMint : string)
| PCS_DECREASE_LIQUIDITY (positionNftMint liquidity : string)
| PCS_CLOSE_POSITION (positionNftMint : string) (receivedTokens : list Received)
| PCS_COLLECT_FEES (positionNftMint : string)
| DAMMV2_OPEN_POSITION (poolAddress positionNftMint : string)
| DAMMV2_CLOSE_POSITION (positionNftMint : string) (receivedTokens : list Received)
| DAMMV2_ADD_LIQUIDITY (positionNftMint : string)
| DAMMV2_REMOVE_LIQUIDITY (positionNftMint : string)
| DAMMV2_CLAIM_FEE (positionNftMint : string)
| UNKNOWN.

Inductive Dex := Byreal | Orca | Meteora | Pcs | DammV2.

#[export] Instance Dex_eq_dec : EqDecision Dex.
Proof. solve_decision. Defined.

(** The exchange an event belongs to; swaps and unknown events belong to none. *)
Definition event_dex (e : ParsedEvent) : option Dex :=
  match e with
  | JUPITER_SWAP _ | UNKNOWN => None
  | BYREAL_OPEN_POSITION _ | BYREAL_INCREASE_LIQUIDITY _ | BYREAL_DECREASE_LIQUIDITY _ _
  | BYREAL_CLOSE_POSITION _ _ | BYREAL_COLLECT_FEES _ => Some Byreal
  | ORCA_OPEN_POSITION _ _ _ _ _ | ORCA_CLOSE_POSITION _ _ | ORCA_INCREASE_LIQUIDITY _
  | ORCA_DECREASE_LIQUIDITY _ => Some Orca
  | METEORA_OPEN_POSITION _ _ _ _ | METEORA_CLOSE_POSITION _ _ | METEORA_ADD_LIQUIDITY _
  | METEORA_REMOVE_LIQUIDITY _ => Some Meteora
  | PCS_OPEN_POSITION _ | PCS_INCREASE_LIQUIDITY _ | PCS_DECREASE_LIQUIDITY _ _
  | PCS_CLOSE_POSITION _ _ | PCS_COLLECT_FEES _ => Some Pcs
  | DAMMV2_OPEN_POSITION _ _ | DAMMV2_CLOSE_POSITION _ _ | DAMMV2_ADD_LIQUIDITY _
  | DAMMV2_REMOVE_LIQUIDITY _ | DAMMV2_CLAIM_FEE _ => Some DammV2
  end.

(** The position an event closes, with the tokens it paid out. *)
Definition closes (e : ParsedEvent) : option (string * list Received) :=
  match e with
  | BYREAL_CLOSE_POSITION p r | ORCA_CLOSE_POSITION p r | METEORA_CLOSE_POSITION p r
  | PCS_CLOSE_POSITION p r | DAMMV2_CLOSE_POSITION p r => Some (p, r)
  | _ => None
  end.

(** The position an event opens. *)
Definition opens (e : ParsedEvent) : option string :=
  match e with
  | BYREAL_OPEN_POSITION o | PCS_OPEN_POSITION o => Some (openNftMint o)
  | ORCA_OPEN_POSITION _ _ _ p _ | METEORA_OPEN_POSITION _ _ _ p | DAMMV2_OPEN_POSITION _ p => Some p
  | _ => None
  end.

(** ** The [bs58] package *)

Class Bs58 := bs58_decode : string -> option (list Z).

Definition is_byte (b : Z) : Prop := 0 <= b < 256.

Class Bs58Laws (D : Bs58) : Prop :=
  bs58_bytes : forall s bs, bs58_decode s = Some bs -> Forall is_byte bs.

(** Base-58 decoding over the Bitcoin alphabet, for concrete runs. *)
Definition alphabet58 : string := "123456789ABCDEFGHJKLMNPQRSTUVWXYZabcdefghijkmnopqrstuvwxyz".

Fixpoint char_index (c : ascii) (s : string) (i : Z) : option Z :=
  match s with
  | EmptyString => None
  | String d s' => if decide (c = d) then Some i else char_index c s' (i + 1)
  end.

Fixpoint value58 (acc : Z) (s : string) : option Z :=
  match s with
  | EmptyString => Some acc
  | String c s' =>
      match char_index c alphabet58 0 with
      | Some d => value58 (acc * 58 + d) s'
      | None => None
      end
  end.

Fixpoint bytes_of (fuel : nat) (n : Z) (acc : list Z) : list Z :=
  match fuel with
  | O => acc
  | S f => if n <=? 0 then acc else bytes_of f (n / 256) (n mod 256 :: acc)
  end.

Fixpoint leading_ones (s : string) : nat :=
  match s with
  | String c s' => if decide (c = "1"%char) then S (leading_ones s') else 0
  | EmptyString => 0
  end.

Definition base58 : Bs58 := fun s =>
  match value58 0 s with
  | Some n => Some (replicate (leading_ones s) 0 ++ bytes_of (String.length s) n [])%list
  | None => None
  end.

Lemma bytes_of_byte fuel n acc : Forall is_byte acc -> Forall is_byte (bytes_of fuel n acc).
Proof.
  revert n acc. induction fuel as [|f IH]; intros n acc H; simpl; [done|].
  destruct (n <=? 0); [done|]. apply IH. constructor; [|done].
  unfold is_byte. apply Z.mod_pos_bound. lia.
Qed.

Lemma base58_laws : Bs58Laws base58.
Proof.
  intros s bs. unfold bs58_decode, base58.
  destruct (value58 0 s) as [n|]; [|done]. intros [= <-].
  apply Forall_app. split; [|by apply bytes_of_byte].
  apply Forall_replicate. unfold is_byte. lia.
Qed.
