(* ===== verification/ParserCore.v ===== *)
(** * Shared parts of the transaction parser ([src/monitor/parser.ts])

    The discriminator tables and [getIxDiscriminator], the collection of a
    program's instructions, and the three scans of the token balances every
    exchange parser builds on: the position NFTs that appear, the ones that
    disappear, and the tokens the wallet received.  The five
    [findAll*Instructions] functions of the source have the same body, written
    once here as [findAllInstructions]. *)

From Stdlib Require Import Ascii.
From S2P Require Import Prelude JsMap JsString JsNumber TxTypes.
Open Scope Z_scope.

Module Core.

(** ** Discriminator tables *)

Definition ORCA_IX_DISC : list (string * string) := [
  ("2e9cf3760dcdfbb2", "increase_liquidity");
  ("851d59df45eeb00a", "increase_liquidity_v2");
  ("a026d06f685b2c01", "decrease_liquidity");
  ("3a7fbc3e4f52c460", "decrease_liquidity_v2");
  ("a498cf631eba13b6", "collect_fees");
  ("cf755fbfe5b4e20f", "collect_fees_v2");
  ("87802f4d0f98f031", "open_position");
  ("f21d86303a6e0e3c", "open_position_with_metadata");
  ("d42f5f5c726683fa", "open_position_with_token_extensions");
  ("7b86510031446262", "close_position")]%string.

Definition DAMMV2_PROGRAM_ID : string := "cpamdpZCGKUy5JxQXB4dcpGPiikHawvSWAd6mEn1sGG".

Definition DAMMV2_IX_DISC : list (string * string) := [
  ("30d7c59960cbb485", "create_position");
  ("b59d59438fb63448", "add_liquidity");
  ("5055d14818ceb16c", "remove_liquidity");
  ("0a333d2370691855", "remove_all_liquidity");
  ("7b86510031446262", "close_position");
  ("b4269a118521a2d3", "claim_position_fee");
  ("955fb5f25e5a9ea2", "claim_reward")]%string.

Definition METEORA_IX_DISC : list (string * string) := [
  ("dbc0ea47bebf6650", "initialize_position");
  ("8f13f291d50f6873", "initialize_position2");
  ("2e527d92558de499", "initialize_position_pda");
  ("fbbdbef475fe2394", "initialize_position_by_operator");
  ("7b86510031446262", "close_position");
  ("ae5a2373ba2893e2", "close_position2");
  ("3b7cd4765b986e9d", "close_position_if_empty");
  ("b59d59438fb63448", "add_liquidity");
  ("e4a24e1c46db7473", "add_liquidity2");
  ("0703967f94283dc8", "add_liquidity_by_strategy");
  ("03dd95da6f8d76d5", "add_liquidity_by_strategy2");
  ("2905eeaf64e106cd", "add_liquidity_by_strategy_one_side");
  ("1c8cee63e7a21595", "add_liquidity_by_weight");
  ("5e9b6797465fdca5", "add_liquidity_one_side");
  ("a1c26754ab47fa9a", "add_liquidity_one_side_precise");
  ("2133a3c975627de7", "add_liquidity_one_side_precise2");
  ("5055d14818ceb16c", "remove_liquidity");
  ("e6d7527ff165e392", "remove_liquidity2");
  ("1a526698f04a691a", "remove_liquidity_by_range");
  ("cc02c391359191cd", "remove_liquidity_by_range2");
  ("0a333d2370691855", "remove_all_liquidity");
  ("a9204f8988e84689", "claim_fee");
  ("70bf65ab1c907fbb", "claim_fee2");
  ("5c04b0c177b95309", "rebalance_liquidity")]%string.

(** ** Discriminators *)

Definition hex_digit (d : Z) : ascii :=
  ascii_of_nat (Z.to_nat (if d <? 10 then 48 + d else 87 + d)).

(** [Buffer.from(bytes).toString('hex')] *)
Definition toHex (bs : list Z) : string :=
  foldr (fun b s => String (hex_digit (b / 16)) (String (hex_digit (b mod 16)) s)) "" bs.

Section Decode.
Context `{D : Bs58}.

(** [ix.data] is absent on a fully parsed instruction: [bs58.decode] throws
    on [undefined] and the discriminator is the empty string. *)
Definition getIxDiscriminator (d : option string) : string :=
  match d ≫= bs58_decode with
  | Some bytes => if (length bytes <? 8)%nat then "" else toHex (take 8 bytes)
  | None => ""
  end.

(** [TABLE[getIxDiscriminator(ix.data)]]; a missing key is [undefined]. *)
Definition ixName (table : list (string * string)) (ix : Instruction) : option string :=
  jget (getIxDiscriminator (data ix)) table.

(** Some instruction of the list has a name that satisfies [p]. *)
Definition hasName (table : list (string * string)) (p : string -> bool) (ixs : list Instruction) : bool :=
  some (fun ix => match ixName table ix with Some n => p n | None => false end) ixs.

(** [buf.readInt32LE(off)] on a buffer that is long enough *)
Definition readInt32LE (bs : list Z) (off : nat) : Z :=
  let b i := nth (off + i) bs 0 in
  let u := b 0%nat + b 1%nat * 2 ^ 8 + b 2%nat * 2 ^ 16 + b 3%nat * 2 ^ 24 in
  if u <? 2 ^ 31 then u else u - 2 ^ 32.

End Decode.

(** ** Instructions of a program, top-level then inner *)

Definition findAllInstructions (pid : string) (tx : ParsedTransaction) : list Instruction :=
  keep (fun ix => bool_decide (programId ix = pid)) (instructions tx)
  ++ flatMap (keep (fun ix => bool_decide (programId ix = pid))) (innerIxs tx).

Definition findAllByrealInstructions (c : ParserConfig) := findAllInstructions (byrealProgramId c).
Definition findAllOrcaInstructions (c : ParserConfig) := findAllInstructions (orcaProgramId c).
Definition findAllMeteoraInstructions (c : ParserConfig) := findAllInstructions (meteoraProgramId c).
Definition findAllPcsInstructions (c : ParserConfig) := findAllInstructions (pcsProgramId c).
Definition findAllDammv2Instructions := findAllInstructions DAMMV2_PROGRAM_ID.

(** [ix.accounts || []] *)
Definition ixAccounts (ix : Instruction) : list string := default [] (accounts ix).

(** [accounts[i].toBase58()], always behind a check of the length. *)
Definition acct (accs : list string) (i : nat) : string := nth i accs ""%string.

(** ** Position NFTs in the token balances *)

Definition one : num := num_of_Z 1.
Definition zero : num := num_of_Z 0.

(** [uiAmount === n] *)
Definition uiAmount_is (b : TokenBalance) (n : num) : bool :=
  match uiAmount (uiTokenAmount b) with Some x => neqb x n | None => false end.

Definition ownedBy (w : string) (b : TokenBalance) : bool := bool_decide (owner b = Some w).

(** decimals 0 and amount 1 *)
Definition is_nft (b : TokenBalance) : bool :=
  (decimals (uiTokenAmount b) =? 0) && uiAmount_is b one.

(** Same token account and mint. *)
Definition same_account (a b : TokenBalance) : bool :=
  (accountIndex a =? accountIndex b) && bool_decide (mint a = mint b).

Definition findNewNftMintsFromTx (tx : ParsedTransaction) (w : string) : list string :=
  map mint (keep (fun post =>
    ownedBy w post && is_nft post && negb (some (fun pre => same_account pre post) (preTB tx)))
    (postTB tx)).

Definition findClosedNftMintsFromTx (tx : ParsedTransaction) (w : string) : list string :=
  map mint (keep (fun pre =>
    ownedBy w pre && is_nft pre
    && match find_first (fun p => same_account p pre) (postTB tx) with
       | Some p => uiAmount_is p zero
       | None => true
       end) (preTB tx)).

(** The loops that stop at the first NFT held before the transaction. *)
Definition firstHeldNft (tx : ParsedTransaction) (w : string) : option string :=
  mint <$> find_first (fun pre => ownedBy w pre && is_nft pre) (preTB tx).

(** ** Tokens received *)

(** mint to raw amount before the transaction; the last account of a mint wins *)
Definition received_preMap (tx : ParsedTransaction) (w : string) : list (string * string) :=
  jmap_of (map (fun pre => (mint pre, amount (uiTokenAmount pre)))
    (keep (fun pre => ownedBy w pre && (0 <? decimals (uiTokenAmount pre))) (preTB tx))).

(** One iteration of the second loop: [None] when nothing is pushed. *)
Definition received_one (preMap : list (string * string)) (post : TokenBalance) : outcome (option Received) :=
  let! postAmt := BigInt (amount (uiTokenAmount post)) in
  let! preAmt := BigInt (or_else (jget (mint post) preMap) "0"%string) in
  let diff := postAmt - preAmt in
  Ret (if 0 <? diff then Some (mkReceived (mint post) (Z_toString diff)) else None).

Definition parseBotReceivedTokens (tx : ParsedTransaction) (w : string) : outcome (list Received) :=
  let preMap := received_preMap tx w in
  let! rs := omapM (received_one preMap)
    (keep (fun post => ownedBy w post && negb (decimals (uiTokenAmount post) =? 0)) (postTB tx)) in
  Ret (omap id rs).

(** ** Discriminators: shape and range *)

Lemma toHex_length bs : String.length (toHex bs) = (2 * length bs)%nat.
Proof. induction bs as [|b bs IH]; simpl; [done|]. rewrite IH. lia. Qed.

Lemma getIxDiscriminator_shape `{D : Bs58} d :
  getIxDiscriminator d = ""%string \/ String.length (getIxDiscriminator d) = 16%nat.
Proof.
  unfold getIxDiscriminator. destruct (d ≫= bs58_decode) as [bs|]; [|by left].
  destruct (Nat.ltb_spec (length bs) 8) as [|Hl]; [by left|right].
  rewrite toHex_length, length_take. lia.
Qed.

Lemma nth_byte bs i : Forall is_byte bs -> is_byte (nth i bs 0).
Proof.
  intros H. destruct (nth_in_or_default i bs 0) as [Hin| ->]; [|unfold is_byte; lia].
  rewrite List.Forall_forall in H. by apply H.
Qed.

Lemma readInt32LE_range bs off :
  Forall is_byte bs -> - 2 ^ 31 <= readInt32LE bs off < 2 ^ 31.
Proof.
  intros H. unfold readInt32LE.
  pose proof (nth_byte bs (off + 0) H). pose proof (nth_byte bs (off + 1) H).
  pose proof (nth_byte bs (off + 2) H). pose proof (nth_byte bs (off + 3) H).
  unfold is_byte in *. case_match; boolP; lia.
Qed.

Lemma hasName_true `{D : Bs58} table p ixs :
  hasName table p ixs = true ->
  exists ix n, ix ∈ ixs /\ ixName table ix = Some n /\ p n = true.
Proof.
  unfold hasName. rewrite some_true. intros (ix & Hix & H).
  destruct (ixName table ix) as [n|] eqn:E; [|done]. by exists ix, n.
Qed.

(** ** Instructions *)

(** An instruction of the transaction, at either level. *)
Definition tx_has_ix (tx : ParsedTransaction) (ix : Instruction) : Prop :=
  ix ∈ instructions tx \/ exists inner, inner ∈ innerIxs tx /\ ix ∈ inner.

Lemma elem_of_findAllInstructions pid tx ix :
  ix ∈ findAllInstructions pid tx <-> programId ix = pid /\ tx_has_ix tx ix.
Proof.
  unfold findAllInstructions, tx_has_ix. rewrite elem_of_app, elem_of_keep, elem_of_flatMap.
  setoid_rewrite elem_of_keep. setoid_rewrite bool_decide_eq_true. split.
  - intros [[Hin Hp]|(inner & Hinner & Hin & Hp)]; [tauto|]. split; [done|]. right. by exists inner.
  - intros [Hp [Hin|(inner & Hinner & Hin)]]; [tauto|]. right. by exists inner.
Qed.

(** ** Balances *)

Definition nft_of (w : string) (b : TokenBalance) : Prop :=
  owner b = Some w /\ decimals (uiTokenAmount b) = 0 /\ uiAmount_is b one = true.

Lemma nft_of_bool w b : ownedBy w b && is_nft b = true <-> nft_of w b.
Proof.
  unfold nft_of, ownedBy, is_nft.
  rewrite !andb_true_iff, bool_decide_eq_true, Z.eqb_eq. done.
Qed.

Lemma same_account_true a b :
  same_account a b = true <-> accountIndex a = accountIndex b /\ mint a = mint b.
Proof. unfold same_account. rewrite andb_true_iff, bool_decide_eq_true, Z.eqb_eq. done. Qed.

(** The position NFT [p] of [w] is new in the transaction. *)
Definition nft_minted (tx : ParsedTransaction) (w p : string) : Prop :=
  exists post, post ∈ postTB tx /\ nft_of w post /\ mint post = p
    /\ forall pre, pre ∈ preTB tx -> accountIndex pre = accountIndex post -> mint pre <> p.

(** The position NFT [p] of [w] is gone or zeroed after the transaction. *)
Definition nft_burned (tx : ParsedTransaction) (w p : string) : Prop :=
  exists pre, pre ∈ preTB tx /\ nft_of w pre /\ mint pre = p
    /\ forall post, find_first (fun b => same_account b pre) (postTB tx) = Some post ->
         uiAmount_is post zero = true.

(** [w] held the position NFT [p] before the transaction. *)
Definition nft_held (tx : ParsedTransaction) (w p : string) : Prop :=
  exists pre, pre ∈ preTB tx /\ nft_of w pre /\ mint pre = p.

Lemma findNewNftMints_spec tx w p : p ∈ findNewNftMintsFromTx tx w <-> nft_minted tx w p.
Proof.
  unfold findNewNftMintsFromTx, nft_minted. rewrite list_elem_of_fmap.
  setoid_rewrite elem_of_keep. setoid_rewrite andb_true_iff.
  setoid_rewrite nft_of_bool. setoid_rewrite negb_true_iff. setoid_rewrite some_false.
  split.
  - intros (post & -> & Hin & Hn & Hf). exists post. split_and!; try done.
    intros pre Hpre Hi Hm. specialize (Hf pre Hpre).
    apply not_true_iff_false in Hf. apply Hf. by apply same_account_true.
  - intros (post & Hin & Hn & <- & Hf). exists post. split_and!; try done.
    intros pre Hpre. apply not_true_iff_false. rewrite same_account_true.
    intros [Hi Hm]. by eapply Hf.
Qed.

Lemma findClosedNftMints_spec tx w p : p ∈ findClosedNftMintsFromTx tx w <-> nft_burned tx w p.
Proof.
  unfold findClosedNftMintsFromTx, nft_burned. rewrite list_elem_of_fmap.
  setoid_rewrite elem_of_keep. setoid_rewrite andb_true_iff. setoid_rewrite nft_of_bool.
  split; intros (pre & H); exists pre.
  - destruct H as (-> & Hin & Hn & Hf). split_and!; try done.
    intros post Hp. by rewrite Hp in Hf.
  - destruct H as (Hin & Hn & <- & Hf). split_and!; try done.
    destruct (find_first _ _) eqn:E; [by apply Hf | done].
Qed.

Lemma firstHeldNft_spec tx w p : firstHeldNft tx w = Some p -> nft_held tx w p.
Proof.
  unfold firstHeldNft, nft_held. intros (pre & Hf & ->)%fmap_Some_1.
  apply find_first_Some in Hf as [Hin Hn]. apply nft_of_bool in Hn. by exists pre.
Qed.

Lemma firstHeldNft_None tx w : firstHeldNft tx w = None <-> forall p, ~ nft_held tx w p.
Proof.
  unfold firstHeldNft, nft_held. rewrite fmap_None, find_first_None. split.
  - intros H p (pre & Hin & Hn & _). apply nft_of_bool in Hn. by rewrite H in Hn.
  - intros H pre Hin. apply not_true_iff_false. intros Hn%nft_of_bool. by eapply H; eauto.
Qed.

Lemma nft_burned_held tx w p : nft_burned tx w p -> nft_held tx w p.
Proof. intros (pre & ? & ? & ? & _). by exists pre. Qed.

(** ** Received tokens *)

(** The fungible balances of a wallet. *)
Definition fungible (w : string) (tbs : list TokenBalance) : list TokenBalance :=
  keep (fun b => ownedBy w b && negb (decimals (uiTokenAmount b) =? 0)) tbs.

Definition rawAmount (b : TokenBalance) : Z :=
  default 0 (BigInt_of_string (amount (uiTokenAmount b))).

(** What a list of balances holds of a mint. *)
Definition sumOf (m : string) (tbs : list TokenBalance) : Z :=
  foldr (fun b acc => if decide (mint b = m) then rawAmount b + acc else acc) 0 tbs.

Definition rawBalance (tbs : list TokenBalance) (w m : string) : Z := sumOf m (fungible w tbs).

(** Balances as the RPC reports them: decimal amounts, non-negative decimals,
    and one fungible token account of the wallet per mint. *)
Definition wf_balances (w : string) (tbs : list TokenBalance) : Prop :=
  NoDup (map mint (fungible w tbs))
  /\ Forall (fun b => 0 <= decimals (uiTokenAmount b)
       /\ exists z, 0 <= z /\ amount (uiTokenAmount b) = Z_toString z) tbs.

Lemma rawAmount_decimal b z : 0 <= z -> amount (uiTokenAmount b) = Z_toString z -> rawAmount b = z.
Proof. intros Hz E. unfold rawAmount. by rewrite E, BigInt_toString. Qed.

Lemma BigInt_decimal z : 0 <= z -> BigInt (Z_toString z) = Ret z.
Proof. intros Hz. unfold BigInt. by rewrite BigInt_toString. Qed.

Lemma sumOf_fresh m l : m ∉ map mint l -> sumOf m l = 0.
Proof.
  induction l as [|b l IH]; simpl; [done|]. intros H.
  rewrite decide_False by set_solver. apply IH. set_solver.
Qed.

Lemma sumOf_unique l b : NoDup (map mint l) -> b ∈ l -> sumOf (mint b) l = rawAmount b.
Proof.
  induction l as [|b' l IH]; simpl; [set_solver|].
  intros [Hn Hl]%list.NoDup_cons [->|Hin]%elem_of_cons.
  - rewrite decide_True, sumOf_fresh by done. lia.
  - rewrite decide_False; [by apply IH|]. intros E. apply Hn. rewrite E.
    by apply list_elem_of_fmap_2.
Qed.

Lemma sumOf_mint m l : sumOf m l <> 0 -> exists b, b ∈ l /\ mint b = m.
Proof.
  intros H. destruct (decide (m ∈ map mint l)) as [Hin|Hn].
  - apply list_elem_of_fmap in Hin as (b & -> & Hb). by exists b.
  - by rewrite sumOf_fresh in H.
Qed.

Lemma sumOf_nonneg m l : (forall b, b ∈ l -> 0 <= rawAmount b) -> 0 <= sumOf m l.
Proof.
  induction l as [|b l IH]; simpl; [done|]. intros H.
  assert (0 <= sumOf m l) by (apply IH; set_solver).
  case_decide; [|done]. assert (0 <= rawAmount b) by (apply H; set_solver). lia.
Qed.

Lemma rawBalance_nonneg w tbs m : wf_balances w tbs -> 0 <= rawBalance tbs w m.
Proof.
  intros [_ Hwf]. apply sumOf_nonneg. intros b [Hin _]%elem_of_keep.
  rewrite List.Forall_forall in Hwf. setoid_rewrite <- list_elem_of_In in Hwf.
  destruct (Hwf b Hin) as (_ & z & Hz & Ea). by rewrite (rawAmount_decimal b z).
Qed.

Lemma fungible_decimals w tbs :
  Forall (fun b => 0 <= decimals (uiTokenAmount b)) tbs ->
  keep (fun b => ownedBy w b && (0 <? decimals (uiTokenAmount b))) tbs = fungible w tbs.
Proof.
  intros H. unfold fungible, keep. induction H as [|b tbs Hb _ IH]; simpl; [done|].
  replace (0 <? decimals (uiTokenAmount b)) with (negb (decimals (uiTokenAmount b) =? 0)).
  - by rewrite IH.
  - destruct (Z.eqb_spec (decimals (uiTokenAmount b)) 0), (Z.ltb_spec 0 (decimals (uiTokenAmount b))); simpl; lia.
Qed.

Lemma jget_amounts m l b :
  jget m (map (fun b => (mint b, amount (uiTokenAmount b))) l) = Some b ->
  exists x, x ∈ l /\ mint x = m /\ amount (uiTokenAmount x) = b.
Proof.
  intros H%jget_Some_elem. apply list_elem_of_fmap in H as (x & [= -> ->] & Hx). eauto.
Qed.

(** The map of earlier balances holds what the wallet held of each mint. *)
Lemma received_preMap_spec tx w m :
  wf_balances w (preTB tx) ->
  BigInt (or_else (jget m (received_preMap tx w)) "0"%string) = Ret (rawBalance (preTB tx) w m).
Proof.
  intros [Hnd Hwf]. unfold received_preMap, rawBalance.
  rewrite fungible_decimals by (eapply List.Forall_impl; [|exact Hwf]; by intros ? []).
  rewrite jmap_of_fresh by (rewrite map_map; done).
  destruct (jget m _) as [a|] eqn:E; simpl.
  - apply jget_amounts in E as (b & Hb & <- & <-). rewrite sumOf_unique by done.
    apply elem_of_keep in Hb as [Hb _]. rewrite List.Forall_forall in Hwf; setoid_rewrite <- list_elem_of_In in Hwf.
    destruct (Hwf b) as [_ (z & Hz & Ea)]; [done|].
    by rewrite (rawAmount_decimal b z), Ea, Z_toString_truthy, BigInt_decimal.
  - rewrite sumOf_fresh; [done|]. apply jget_None_keys in E. by rewrite map_map in E.
Qed.

Lemma received_one_spec tx w post :
  wf_balances w (preTB tx) -> wf_balances w (postTB tx) -> post ∈ fungible w (postTB tx) ->
  received_one (received_preMap tx w) post =
    let d := rawBalance (postTB tx) w (mint post) - rawBalance (preTB tx) w (mint post) in
    Ret (if 0 <? d then Some (mkReceived (mint post) (Z_toString d)) else None).
Proof.
  intros Hpre [Hnd Hwf] Hin. unfold received_one. rewrite received_preMap_spec by done.
  replace (rawBalance (postTB tx) w (mint post)) with (rawAmount post)
    by (symmetry; by apply sumOf_unique).
  apply elem_of_keep in Hin as [Hin _]. rewrite List.Forall_forall in Hwf; setoid_rewrite <- list_elem_of_In in Hwf.
  destruct (Hwf post) as [_ (z & Hz & Ea)]; [done|].
  by rewrite (rawAmount_decimal post z), Ea, BigInt_decimal.
Qed.

(** On well-formed balances the result is exactly the increases, and it is
    produced without an exception. *)
Lemma parseBotReceivedTokens_Ret tx w :
  wf_balances w (preTB tx) -> wf_balances w (postTB tx) ->
  parseBotReceivedTokens tx w = Ret (omap (fun post =>
    let d := rawBalance (postTB tx) w (mint post) - rawBalance (preTB tx) w (mint post) in
    if 0 <? d then Some (mkReceived (mint post) (Z_toString d)) else None)
    (fungible w (postTB tx))).
Proof.
  intros Hpre Hpost. unfold parseBotReceivedTokens.
  erewrite omapM_pure by (intros x Hx; apply received_one_spec; done).
  simpl. by rewrite omap_id_map.
Qed.

(** The tokens reported are the balances that grew. *)
Lemma received_tokens_spec tx w :
  wf_balances w (preTB tx) -> wf_balances w (postTB tx) ->
  exists r, parseBotReceivedTokens tx w = Ret r
    /\ forall m a, mkReceived m a ∈ r <->
         let d := rawBalance (postTB tx) w m - rawBalance (preTB tx) w m in
         0 < d /\ a = Z_toString d.
Proof.
  intros Hpre Hpost. eexists. split; [by apply parseBotReceivedTokens_Ret|].
  intros m a. rewrite list_elem_of_omap. split.
  - intros (post & Hin & E). simpl in E. case_match eqn:Ed; [|done].
    injection E as <- <-. boolP. done.
  - intros [Hd ->].
    pose proof (rawBalance_nonneg w (preTB tx) m Hpre).
    destruct (sumOf_mint m (fungible w (postTB tx))) as (post & Hin & <-); [unfold rawBalance in *; lia|].
    exists post. split; [done|]. simpl. by rewrite (proj2 (Z.ltb_lt _ _) Hd).
Qed.

(** On balances as the RPC reports them (decimal amounts, one fungible token
    account per mint), [parseBotReceivedTokens] returns without throwing, and
    reports a mint with an amount exactly when the wallet's balance of the
    mint grew, the amount being the exact difference of base units. *)
Theorem received_tokens_exact tx w :
  wf_balances w (preTB tx) -> wf_balances w (postTB tx) ->
  exists r, parseBotReceivedTokens tx w = Ret r
    /\ forall m a, mkReceived m a ∈ r <->
         let d := rawBalance (postTB tx) w m - rawBalance (preTB tx) w m in
         0 < d /\ a = Z_toString d.
Proof. apply received_tokens_spec. Qed.

End Core.
