(* ===== verification/ParserDex.v ===== *)
(** * The exchange parsers ([src/monitor/parser.ts])

    One definition per function of the source: the log-driven parsers of
    Byreal and PancakeSwap (the second is a copy of the first with its own
    program and event names; the code they share is [clmm_open] and
    [log_flags]), and the discriminator-driven parsers of Orca, Meteora DLMM
    and Meteora DAMM v2.  [parseBotReceivedTokens] can throw, so the parsers
    that call it return an [outcome]. *)

From S2P Require Import Prelude JsMap JsString JsNumber TxTypes ParserCore.
Import Core.
Open Scope Z_scope.
Open Scope list_scope.

Module Dex.
Section Dex.
Context `{D : Bs58} (c : ParserConfig).

(** ** Byreal and PancakeSwap: operations from the program's log lines *)

Record LogFlags := mkFlags {
  hasOpenPosition : bool;
  isToken22Position : bool;
  hasDecreaseLiquidity : bool;
  hasIncreaseLiquidity : bool;
  hasClosePosition : bool;
}.

Definition log_flags (logs : list string) : LogFlags := {|
  hasOpenPosition := some (fun l =>
    includes l "Instruction: OpenPosition"
    || includes l "Instruction: OpenPositionV2"
    || includes l "Instruction: OpenPositionWithToken22Nft") logs;
  isToken22Position := some (fun l => includes l "Instruction: OpenPositionWithToken22Nft") logs;
  hasDecreaseLiquidity := some (fun l =>
    includes l "Instruction: DecreaseLiquidity"
    || includes l "Instruction: DecreaseLiquidityV2") logs;
  hasIncreaseLiquidity := some (fun l =>
    includes l "Instruction: IncreaseLiquidity"
    || includes l "Instruction: IncreaseLiquidityV2") logs;
  hasClosePosition := some (fun l => includes l "Instruction: ClosePosition") logs |}.

(** The first [referer_position=<address>] of the logs. *)
Fixpoint memo_referer (logs : list string) : option string :=
  match logs with
  | [] => None
  | log :: logs' =>
      match match_class_after "referer_position=" is_alnum log with
      | Some r => Some r
      | None => memo_referer logs'
      end
  end.

Definition refererOf (hasMemo : bool) (logs : list string) : option string :=
  if hasMemo then memo_referer logs else None.

(** Account positions of the open instruction, by variant. *)
Record Layout := mkLayout { poolStateIdx : nat; mintAIdx : nat; mintBIdx : nat }.
Definition layout (isToken22 : bool) : Layout :=
  if isToken22 then mkLayout 4 18 19 else mkLayout 5 20 21.

(** [accounts.length >= minAccounts] *)
Definition enoughAccounts (ly : Layout) (accs : list string) : bool :=
  (poolStateIdx ly + 1 <=? length accs)%nat.
Definition mintsOf (ly : Layout) (accs : list string) : option string :=
  if (mintBIdx ly + 1 <=? length accs)%nat
  then Some (acct accs (mintAIdx ly) +:+ "/" +:+ acct accs (mintBIdx ly))%string
  else None.

(** Pool and mints of the first instruction that names the NFT. *)
Definition clmm_match (ly : Layout) (ixs : list Instruction) (nft : string) : string * option string :=
  match find_first (fun ix =>
          enoughAccounts ly (ixAccounts ix) && bool_decide (acct (ixAccounts ix) 2 = nft)) ixs with
  | Some ix => (acct (ixAccounts ix) (poolStateIdx ly), mintsOf ly (ixAccounts ix))
  | None => (""%string, None)
  end.

(** Body of the loop over the new NFTs, with the fallback on the first
    instruction. *)
Definition clmm_open (ixs : list Instruction) (referer : option string) (isToken22 : bool)
    (nft : string) : ClmmOpen :=
  let ly := layout isToken22 in
  let (poolId, poolMints) := clmm_match ly ixs nft in
  let (poolId', poolMints') :=
    match ixs with
    | ix0 :: _ =>
        if truthy poolId then (poolId, poolMints)
        else
          let accs := ixAccounts ix0 in
          (if enoughAccounts ly accs then acct accs (poolStateIdx ly) else ""%string,
           if truthy poolMints then poolMints else
           match mintsOf ly accs with Some ms => Some ms | None => poolMints end)
    | [] => (poolId, poolMints)
    end in
  mkClmmOpen poolId' 0 0 "0" referer "0" "0" nft poolMints'.

Definition parseOpenPositions (tx : ParsedTransaction) (referer : option string) (isToken22 : bool)
    (w : string) : list ParsedEvent :=
  let byrealIxs := findAllByrealInstructions c tx in
  map (fun nft => BYREAL_OPEN_POSITION (clmm_open byrealIxs referer isToken22 nft))
    (findNewNftMintsFromTx tx w).

Definition parseIncreaseLiquidity (tx : ParsedTransaction) (w : string) : list ParsedEvent :=
  match firstHeldNft tx w with
  | Some p => [BYREAL_INCREASE_LIQUIDITY p]
  | None => []
  end.

Definition parseDecreaseOrClose (tx : ParsedTransaction) (hasClose : bool) (w : string)
  : outcome (list ParsedEvent) :=
  let closedNfts := findClosedNftMintsFromTx tx w in
  let! receivedTokens := parseBotReceivedTokens tx w in
  Ret (map (fun nft => BYREAL_CLOSE_POSITION nft receivedTokens) closedNfts
    ++ if (length closedNfts =? 0)%nat && negb hasClose then
         match firstHeldNft tx w with
         | Some p => [BYREAL_DECREASE_LIQUIDITY p "0"]
         | None => []
         end
       else []).

Definition parseByrealOperations (tx : ParsedTransaction) (logs : list string) (hasMemo : bool)
    (w : string) : outcome (list ParsedEvent) :=
  let f := log_flags logs in
  let referer := refererOf hasMemo logs in
  let opened :=
    if hasOpenPosition f then parseOpenPositions tx referer (isToken22Position f) w else [] in
  let increased :=
    if hasIncreaseLiquidity f && negb (hasOpenPosition f) then parseIncreaseLiquidity tx w else [] in
  let! closed :=
    (if (hasDecreaseLiquidity f && negb (hasOpenPosition f)) || hasClosePosition f
     then parseDecreaseOrClose tx (hasClosePosition f) w else Ret []) in
  Ret (opened ++ increased ++ closed).

Definition parsePcsOpenPositions (tx : ParsedTransaction) (referer : option string) (isToken22 : bool)
    (w : string) : list ParsedEvent :=
  let pcsIxs := findAllPcsInstructions c tx in
  map (fun nft => PCS_OPEN_POSITION (clmm_open pcsIxs referer isToken22 nft))
    (findNewNftMintsFromTx tx w).

Definition parsePcsIncreaseLiquidity (tx : ParsedTransaction) (w : string) : list ParsedEvent :=
  match firstHeldNft tx w with
  | Some p => [PCS_INCREASE_LIQUIDITY p]
  | None => []
  end.

Definition parsePcsDecreaseOrClose (tx : ParsedTransaction) (hasClose : bool) (w : string)
  : outcome (list ParsedEvent) :=
  let closedNfts := findClosedNftMintsFromTx tx w in
  let! receivedTokens := parseBotReceivedTokens tx w in
  Ret (map (fun nft => PCS_CLOSE_POSITION nft receivedTokens) closedNfts
    ++ if (length closedNfts =? 0)%nat && negb hasClose then
         match firstHeldNft tx w with
         | Some p => [PCS_DECREASE_LIQUIDITY p "0"]
         | None => []
         end
       else []).

Definition parsePcsOperations (tx : ParsedTransaction) (logs : list string) (hasMemo : bool)
    (w : string) : outcome (list ParsedEvent) :=
  let f := log_flags logs in
  let referer := refererOf hasMemo logs in
  let opened :=
    if hasOpenPosition f then parsePcsOpenPositions tx referer (isToken22Position f) w else [] in
  let increased :=
    if hasIncreaseLiquidity f && negb (hasOpenPosition f) then parsePcsIncreaseLiquidity tx w else [] in
  let! closed :=
    (if (hasDecreaseLiquidity f && negb (hasOpenPosition f)) || hasClosePosition f
     then parsePcsDecreaseOrClose tx (hasClosePosition f) w else Ret []) in
  Ret (opened ++ increased ++ closed).

(** ** Orca Whirlpool: operations from the discriminators *)

(** Pool (index 5) of the first instruction with the NFT at index 3, else of
    the first Orca instruction. *)
Definition orca_pool (ixs : list Instruction) (nft : string) : string :=
  let poolAddress :=
    match find_first (fun ix =>
            (5 <? length (ixAccounts ix))%nat && bool_decide (acct (ixAccounts ix) 3 = nft)) ixs with
    | Some ix => acct (ixAccounts ix) 5
    | None => ""%string
    end in
  match ixs with
  | ix0 :: _ =>
      if truthy poolAddress then poolAddress
      else if (5 <? length (ixAccounts ix0))%nat then acct (ixAccounts ix0) 5 else poolAddress
  | [] => poolAddress
  end.

Definition parseOrcaOpenPositions (tx : ParsedTransaction) (w : string) : list ParsedEvent :=
  let orcaIxs := findAllOrcaInstructions c tx in
  map (fun nft => ORCA_OPEN_POSITION (orca_pool orcaIxs nft) 0 0 nft None) (findNewNftMintsFromTx tx w).

Definition parseOrcaIncreaseLiquidity (tx : ParsedTransaction) (w : string) : list ParsedEvent :=
  match firstHeldNft tx w with
  | Some p => [ORCA_INCREASE_LIQUIDITY p]
  | None => []
  end.

Definition parseOrcaDecreaseOrClose (tx : ParsedTransaction) (hasClose : bool) (w : string)
  : outcome (list ParsedEvent) :=
  let closedNfts := findClosedNftMintsFromTx tx w in
  let! receivedTokens := parseBotReceivedTokens tx w in
  Ret (map (fun nft => ORCA_CLOSE_POSITION nft receivedTokens) closedNfts
    ++ if (length closedNfts =? 0)%nat && negb hasClose then
         match firstHeldNft tx w with
         | Some p => [ORCA_DECREASE_LIQUIDITY p]
         | None => []
         end
       else []).

(** The names the classification loop tests, in the order of its branches. *)
Inductive OrcaKind := OkOpen | OkClose | OkIncrease | OkDecrease | OkCollect | OkOther.
#[local] Instance OrcaKind_eq_dec : EqDecision OrcaKind.
Proof using Type. solve_decision. Defined.

Definition orca_kind (name : string) : OrcaKind :=
  if startsWith name "open_position" then OkOpen
  else if bool_decide (name = "close_position"%string) then OkClose
  else if startsWith name "increase_liquidity" then OkIncrease
  else if startsWith name "decrease_liquidity" then OkDecrease
  else if startsWith name "collect_fees" then OkCollect
  else OkOther.

Definition parseOrcaOperations (tx : ParsedTransaction) (w : string) : outcome (list ParsedEvent) :=
  let ixs := findAllOrcaInstructions c tx in
  let has k := hasName ORCA_IX_DISC (fun n => bool_decide (orca_kind n = k)) ixs in
  let opened := if has OkOpen then parseOrcaOpenPositions tx w else [] in
  let increased :=
    if has OkIncrease && negb (has OkOpen) then parseOrcaIncreaseLiquidity tx w else [] in
  let! closed :=
    (if (has OkDecrease && negb (has OkOpen)) || has OkClose
     then parseOrcaDecreaseOrClose tx (has OkClose) w else Ret []) in
  let! fees :=
    (if has OkCollect && negb (has OkDecrease) && negb (has OkClose) && negb (has OkOpen)
        && negb (has OkIncrease)
     then parseOrcaDecreaseOrClose tx false w else Ret []) in
  Ret (opened ++ increased ++ closed ++ fees).

(** ** Meteora DLMM *)

(** Position and pool index of the initialise instruction, by variant. *)
Definition meteora_open_idx (name : string) : nat * nat :=
  if bool_decide (name = "initialize_position_pda"%string) then (2%nat, 3%nat) else (1%nat, 2%nat).

(** Lower bin and width from bytes 8 to 16 of the data, 0 when too short. *)
Definition meteora_bins (d : option string) : Z * Z :=
  match d ≫= bs58_decode with
  | Some bs => if (16 <=? length bs)%nat then (readInt32LE bs 8, readInt32LE bs 12) else (0, 0)
  | None => (0, 0)
  end.

Definition meteora_open_one (w : string) (ix : Instruction) : list ParsedEvent :=
  match ixName METEORA_IX_DISC ix with
  | None => []
  | Some name =>
      if negb (startsWith name "initialize_position") then [] else
      let accs := ixAccounts ix in
      let (positionIdx, poolIdx) := meteora_open_idx name in
      if (length accs <=? Nat.max positionIdx poolIdx)%nat then []
      else if negb (bool_decide (acct accs 0 = w)) then []
      else
        let (lowerBinId, width) := meteora_bins (data ix) in
        [METEORA_OPEN_POSITION (acct accs poolIdx) lowerBinId width (acct accs positionIdx)]
  end.

Definition parseMeteoraOpenPositions (tx : ParsedTransaction) (ixs : list Instruction) (w : string)
  : list ParsedEvent := flatMap (meteora_open_one w) ixs.

(** The position of an instruction whose name passes [p], sent by [w]: the
    guards every Meteora loop starts with.  [posIdx] and [senderIdx] are the
    account positions of the variant. *)
Definition meteora_position (p : string -> bool) (posIdx : string -> nat) (senderIdx : nat)
    (w : string) (ix : Instruction) : option string :=
  match ixName METEORA_IX_DISC ix with
  | Some name =>
      let accs := ixAccounts ix in
      if negb (p name) then None
      else if (length accs <? 3)%nat then None
      else if bool_decide (acct accs senderIdx = w) then Some (acct accs (posIdx name)) else None
  | None => None
  end.

Definition is_add (n : string) : bool := startsWith n "add_liquidity".
Definition is_close (n : string) : bool := startsWith n "close_position".
Definition is_remove (n : string) : bool :=
  startsWith n "remove_liquidity" || bool_decide (n = "remove_all_liquidity"%string).
Definition is_claim (n : string) : bool := startsWith n "claim_fee".
Definition claim_posIdx (n : string) : nat :=
  if bool_decide (n = "claim_fee2"%string) then 1%nat else 0%nat.
Definition at0 (n : string) : nat := 0%nat.

(** The positions in order of first occurrence: the [seen] sets of the source. *)
Definition parseMeteoraAddLiquidity (ixs : list Instruction) (w : string) : list ParsedEvent :=
  map METEORA_ADD_LIQUIDITY (set_of (omap (meteora_position is_add at0 2 w) ixs)).

Definition parseMeteoraRemoveOrClose (tx : ParsedTransaction) (ixs : list Instruction) (w : string)
  : outcome (list ParsedEvent) :=
  let closedPositions := set_of (omap (meteora_position is_close at0 1 w) ixs) in
  if (0 <? length closedPositions)%nat then
    let! receivedTokens := parseBotReceivedTokens tx w in
    Ret (map (fun p => METEORA_CLOSE_POSITION p receivedTokens) closedPositions)
  else
    let removed := set_of (omap (meteora_position is_remove at0 2 w) ixs) in
    Ret (match removed with
         | [] =>
             match omap (meteora_position is_claim claim_posIdx 2 w) ixs with
             | p :: _ => [METEORA_REMOVE_LIQUIDITY p]
             | [] => []
             end
         | _ => map METEORA_REMOVE_LIQUIDITY removed
         end).

Inductive MeteoraKind := MkInit | MkClose | MkAdd | MkRemove | MkClaim | MkRebalance | MkOther.
#[local] Instance MeteoraKind_eq_dec : EqDecision MeteoraKind.
Proof using Type. solve_decision. Defined.

Definition meteora_kind (name : string) : MeteoraKind :=
  if startsWith name "initialize_position" then MkInit
  else if is_close name then MkClose
  else if is_add name then MkAdd
  else if is_remove name then MkRemove
  else if is_claim name then MkClaim
  else if bool_decide (name = "rebalance_liquidity"%string) then MkRebalance
  else MkOther.

Definition parseMeteoraOperations (tx : ParsedTransaction) (w : string) : outcome (list ParsedEvent) :=
  let ixs := findAllMeteoraInstructions c tx in
  let has k := hasName METEORA_IX_DISC (fun n => bool_decide (meteora_kind n = k)) ixs in
  let opened := if has MkInit then parseMeteoraOpenPositions tx ixs w else [] in
  let added := if has MkAdd && negb (has MkInit) then parseMeteoraAddLiquidity ixs w else [] in
  let! removed :=
    (if (has MkRemove && negb (has MkInit)) || has MkClose
     then parseMeteoraRemoveOrClose tx ixs w else Ret []) in
  let! fees :=
    (if has MkClaim && negb (has MkRemove) && negb (has MkClose) && negb (has MkInit)
        && negb (has MkAdd)
     then parseMeteoraRemoveOrClose tx ixs w else Ret []) in
  Ret (opened ++ added ++ removed ++ fees).

(** ** Meteora DAMM v2 *)

(** The pool (index 3) of the first [create_position] with more than three
    accounts; the NFT is not consulted. *)
Definition dammv2_pool (ixs : list Instruction) : string :=
  match find_first (fun ix =>
          bool_decide (ixName DAMMV2_IX_DISC ix = Some "create_position"%string)
          && (3 <? length (ixAccounts ix))%nat) ixs with
  | Some ix => acct (ixAccounts ix) 3
  | None => ""%string
  end.

Definition parseDammv2OpenPositions (tx : ParsedTransaction) (ixs : list Instruction) (w : string)
  : list ParsedEvent :=
  map (fun nft => DAMMV2_OPEN_POSITION (dammv2_pool ixs) nft) (findNewNftMintsFromTx tx w).

Definition parseDammv2AddLiquidity (tx : ParsedTransaction) (w : string) : list ParsedEvent :=
  match firstHeldNft tx w with
  | Some p => [DAMMV2_ADD_LIQUIDITY p]
  | None => []
  end.

Definition parseDammv2RemoveOrClose (tx : ParsedTransaction) (hasClose : bool) (w : string)
  : outcome (list ParsedEvent) :=
  let closedNfts := findClosedNftMintsFromTx tx w in
  let! receivedTokens := parseBotReceivedTokens tx w in
  Ret (map (fun nft => DAMMV2_CLOSE_POSITION nft receivedTokens) closedNfts
    ++ if (length closedNfts =? 0)%nat && negb hasClose then
         match firstHeldNft tx w with
         | Some p => [DAMMV2_REMOVE_LIQUIDITY p]
         | None => []
         end
       else []).

Definition parseDammv2Operations (tx : ParsedTransaction) (w : string) : outcome (list ParsedEvent) :=
  let ixs := findAllDammv2Instructions tx in
  let has p := hasName DAMMV2_IX_DISC p ixs in
  let named (s n : string) := bool_decide (n = s) in
  let hasCreate := has (named "create_position"%string) in
  let hasClose := has (named "close_position"%string) in
  let hasAdd := has (named "add_liquidity"%string) in
  let hasRemove := has (fun n => named "remove_liquidity"%string n || named "remove_all_liquidity"%string n) in
  let hasClaim := has (named "claim_position_fee"%string) in
  let opened := if hasCreate then parseDammv2OpenPositions tx ixs w else [] in
  let added := if hasAdd && negb hasCreate then parseDammv2AddLiquidity tx w else [] in
  let! removed :=
    (if (hasRemove && negb hasCreate) || hasClose
     then parseDammv2RemoveOrClose tx hasClose w else Ret []) in
  let claimed :=
    if hasClaim && negb hasRemove && negb hasClose && negb hasCreate && negb hasAdd then
      match firstHeldNft tx w with
      | Some p => [DAMMV2_CLAIM_FEE p]
      | None => []
      end
    else [] in
  Ret (opened ++ added ++ removed ++ claimed).

(** ** What an event says about its transaction

    [event_sound tx w e]: the balances or the instructions of [tx] bear out
    the event [e] for the wallet [w].  The two fee-collection events of the
    log-driven exchanges are declared in the type and never produced. *)

(** A Meteora instruction whose name passes [p], sent by [w] (account
    [senderIdx]), with the position at [posIdx]. *)
Definition meteora_ix (tx : ParsedTransaction) (p : string -> bool) (posIdx : string -> nat)
    (senderIdx : nat) (w pos : string) : Prop :=
  exists ix name, tx_has_ix tx ix /\ programId ix = meteoraProgramId c
    /\ ixName METEORA_IX_DISC ix = Some name /\ p name = true
    /\ (3 <= length (ixAccounts ix))%nat
    /\ ixAccounts ix !! senderIdx = Some w /\ ixAccounts ix !! posIdx name = Some pos.

Definition is_init (n : string) : bool := startsWith n "initialize_position".

Definition event_sound (tx : ParsedTransaction) (w : string) (e : ParsedEvent) : Prop :=
  match e with
  | BYREAL_OPEN_POSITION o | PCS_OPEN_POSITION o => nft_minted tx w (openNftMint o)
  | ORCA_OPEN_POSITION _ _ _ p _ | DAMMV2_OPEN_POSITION _ p => nft_minted tx w p
  | BYREAL_CLOSE_POSITION p r | ORCA_CLOSE_POSITION p r | PCS_CLOSE_POSITION p r
  | DAMMV2_CLOSE_POSITION p r => nft_burned tx w p /\ parseBotReceivedTokens tx w = Ret r
  | BYREAL_DECREASE_LIQUIDITY p _ | PCS_DECREASE_LIQUIDITY p _ | ORCA_DECREASE_LIQUIDITY p
  | DAMMV2_REMOVE_LIQUIDITY p =>
      nft_held tx w p /\ (forall q, ~ nft_burned tx w q)
  | BYREAL_INCREASE_LIQUIDITY p | PCS_INCREASE_LIQUIDITY p | ORCA_INCREASE_LIQUIDITY p
  | DAMMV2_ADD_LIQUIDITY p | DAMMV2_CLAIM_FEE p => nft_held tx w p
  | METEORA_OPEN_POSITION pool lo wd p =>
      meteora_ix tx is_init (fun n => fst (meteora_open_idx n)) 0 w p
      /\ (- 2 ^ 31 <= lo < 2 ^ 31) /\ (- 2 ^ 31 <= wd < 2 ^ 31)
  | METEORA_CLOSE_POSITION p r =>
      meteora_ix tx is_close at0 1 w p /\ parseBotReceivedTokens tx w = Ret r
  | METEORA_ADD_LIQUIDITY p => meteora_ix tx is_add at0 2 w p
  | METEORA_REMOVE_LIQUIDITY p =>
      meteora_ix tx is_remove at0 2 w p \/ meteora_ix tx is_claim claim_posIdx 2 w p
  | BYREAL_COLLECT_FEES _ | PCS_COLLECT_FEES _ => False
  | JUPITER_SWAP _ | UNKNOWN => True
  end.

Lemma clmm_open_nft ixs r t nft : openNftMint (clmm_open ixs r t nft) = nft.
Proof using Type. unfold clmm_open. repeat case_match; done. Qed.

Lemma closed_nil tx w :
  (length (findClosedNftMintsFromTx tx w) =? 0)%nat = true -> forall q, ~ nft_burned tx w q.
Proof using Type.
  intros H%Nat.eqb_eq q Hq%findClosedNftMints_spec.
  apply nil_length_inv in H. rewrite H in Hq. set_solver.
Qed.

(** The shape shared by the four NFT-based remove/close parsers. *)
Lemma decrease_or_close_inv tx w hasClose (mkClose : string -> list Received -> ParsedEvent)
    (mkDec : string -> ParsedEvent) evs e :
  (let! r := parseBotReceivedTokens tx w in
   Ret (map (fun nft => mkClose nft r) (findClosedNftMintsFromTx tx w)
     ++ if (length (findClosedNftMintsFromTx tx w) =? 0)%nat && negb hasClose then
          match firstHeldNft tx w with Some p => [mkDec p] | None => [] end
        else [])) = Ret evs ->
  e ∈ evs ->
  (exists p r, e = mkClose p r /\ nft_burned tx w p /\ parseBotReceivedTokens tx w = Ret r)
  \/ (exists p, e = mkDec p /\ nft_held tx w p /\ forall q, ~ nft_burned tx w q).
Proof using Type.
  intros (r & Hr & H)%obind_Ret. injection H as <-.
  rewrite elem_of_app. intros [Hin|Hin].
  - apply list_elem_of_fmap in Hin as (p & -> & Hp%findClosedNftMints_spec). left. eauto 10.
  - right. case_match eqn:E; [|set_solver]. boolP.
    destruct (firstHeldNft tx w) as [p|] eqn:Ef; [|set_solver].
    apply list_elem_of_singleton in Hin as ->. exists p.
    split_and!; [done | by apply firstHeldNft_spec | by apply closed_nil].
Qed.

Lemma held_event_inv tx w (mk : string -> ParsedEvent) e :
  e ∈ match firstHeldNft tx w with Some p => [mk p] | None => [] end ->
  exists p, e = mk p /\ nft_held tx w p.
Proof using Type.
  destruct (firstHeldNft tx w) as [p|] eqn:Ef; [|set_solver].
  intros ->%list_elem_of_singleton. exists p. split; [done|]. by apply firstHeldNft_spec.
Qed.

Lemma acct_lookup accs i : (i < length accs)%nat -> accs !! i = Some (acct accs i).
Proof using Type.
  intros Hi. unfold acct. destruct (accs !! i) as [a|] eqn:E.
  - f_equal. symmetry. by apply nth_lookup_Some.
  - apply lookup_ge_None in E. lia.
Qed.

(** The event is borne out by the transaction and belongs to the exchange. *)
Definition sound_for (d : Dex) (tx : ParsedTransaction) (w : string) (e : ParsedEvent) : Prop :=
  event_sound tx w e /\ event_dex e = Some d.

Lemma parseOpen_sound tx r t w e : e ∈ parseOpenPositions tx r t w -> sound_for Byreal tx w e.
Proof using Type.
  intros (nft & -> & H%findNewNftMints_spec)%list_elem_of_fmap.
  split; [|done]. simpl. by rewrite clmm_open_nft.
Qed.

Lemma parsePcsOpen_sound tx r t w e : e ∈ parsePcsOpenPositions tx r t w -> sound_for Pcs tx w e.
Proof using Type.
  intros (nft & -> & H%findNewNftMints_spec)%list_elem_of_fmap.
  split; [|done]. simpl. by rewrite clmm_open_nft.
Qed.

(** Split a membership in a conditional list. *)
Ltac in_cond H := match type of H with context [if ?b then _ else _] => destruct b; [|by apply elem_of_nil in H] end.

Lemma parseByreal_sound tx logs memo w evs e :
  parseByrealOperations tx logs memo w = Ret evs -> e ∈ evs -> sound_for Byreal tx w e.
Proof using Type.
  unfold parseByrealOperations. intros (cl & Hc & H)%obind_Ret. injection H as <-.
  rewrite !elem_of_app. intros [Hin|[Hin|Hin]].
  - in_cond Hin. by eapply parseOpen_sound.
  - in_cond Hin. unfold parseIncreaseLiquidity in Hin.
    apply held_event_inv in Hin as (p & -> & Hp). done.
  - destruct (_ || _) in Hc; [|injection Hc as <-; by apply elem_of_nil in Hin].
    eapply (decrease_or_close_inv _ _ _ BYREAL_CLOSE_POSITION (fun p => BYREAL_DECREASE_LIQUIDITY p "0")) in Hc;
      [|done].
    destruct Hc as [(p & r & -> & Hp)|(p & -> & Hp)]; done.
Qed.

Lemma parsePcs_sound tx logs memo w evs e :
  parsePcsOperations tx logs memo w = Ret evs -> e ∈ evs -> sound_for Pcs tx w e.
Proof using Type.
  unfold parsePcsOperations. intros (cl & Hc & H)%obind_Ret. injection H as <-.
  rewrite !elem_of_app. intros [Hin|[Hin|Hin]].
  - in_cond Hin. by eapply parsePcsOpen_sound.
  - in_cond Hin. unfold parsePcsIncreaseLiquidity in Hin.
    apply held_event_inv in Hin as (p & -> & Hp). done.
  - destruct (_ || _) in Hc; [|injection Hc as <-; by apply elem_of_nil in Hin].
    eapply (decrease_or_close_inv _ _ _ PCS_CLOSE_POSITION (fun p => PCS_DECREASE_LIQUIDITY p "0")) in Hc;
      [|done].
    destruct Hc as [(p & r & -> & Hp)|(p & -> & Hp)]; done.
Qed.

Lemma orcaClose_sound tx hc w evs e :
  parseOrcaDecreaseOrClose tx hc w = Ret evs -> e ∈ evs -> sound_for Orca tx w e.
Proof using Type.
  intros H Hin.
  destruct (decrease_or_close_inv _ _ _ ORCA_CLOSE_POSITION ORCA_DECREASE_LIQUIDITY _ _ H Hin)
    as [(p & r & -> & Hp)|(p & -> & Hp)]; done.
Qed.

Lemma parseOrca_sound tx w evs e :
  parseOrcaOperations tx w = Ret evs -> e ∈ evs -> sound_for Orca tx w e.
Proof using Type.
  unfold parseOrcaOperations. intros (cl & Hc & (fe & Hf & H)%obind_Ret)%obind_Ret.
  injection H as <-. rewrite !elem_of_app. intros [Hin|[Hin|[Hin|Hin]]].
  - in_cond Hin. unfold parseOrcaOpenPositions in Hin.
    apply list_elem_of_fmap in Hin as (nft & -> & H%findNewNftMints_spec). done.
  - in_cond Hin. unfold parseOrcaIncreaseLiquidity in Hin.
    apply held_event_inv in Hin as (p & -> & Hp). done.
  - destruct (_ || _) in Hc; [|injection Hc as <-; by apply elem_of_nil in Hin].
    by eapply orcaClose_sound.
  - destruct (_ && _) in Hf; [|injection Hf as <-; by apply elem_of_nil in Hin].
    by eapply orcaClose_sound.
Qed.

Lemma meteora_position_sound tx p posIdx si w (ixs : list Instruction) pos :
  (forall ix, ix ∈ ixs -> tx_has_ix tx ix /\ programId ix = meteoraProgramId c) ->
  (si < 3)%nat -> (forall n, posIdx n < 3)%nat ->
  pos ∈ omap (meteora_position p posIdx si w) ixs -> meteora_ix tx p posIdx si w pos.
Proof using Type.
  intros Hixs Hsi Hpi (ix & Hix & H)%list_elem_of_omap.
  unfold meteora_position in H. destruct (ixName METEORA_IX_DISC ix) as [n|] eqn:En; [|done].
  destruct (p n) eqn:Ep; [|done]. simpl in H.
  destruct (Nat.ltb_spec (length (ixAccounts ix)) 3) as [|Hl]; [done|].
  case_bool_decide as Hs; [|done]. injection H as <-.
  destruct (Hixs ix Hix) as [Hhas Hpid]. exists ix, n. split_and!; try done.
  - rewrite acct_lookup by lia. by rewrite Hs.
  - apply acct_lookup. specialize (Hpi n). lia.
Qed.

#[local] Hint Extern 1 (_ < _)%nat => lia : copybot.

Lemma claim_posIdx_lt n : (claim_posIdx n < 3)%nat.
Proof using Type. unfold claim_posIdx. case_match; lia. Qed.

Lemma at0_lt n : (at0 n < 3)%nat.
Proof using Type. unfold at0. lia. Qed.

#[local] Hint Resolve claim_posIdx_lt at0_lt : copybot.

Lemma meteora_ixs tx ix :
  ix ∈ findAllMeteoraInstructions c tx -> tx_has_ix tx ix /\ programId ix = meteoraProgramId c.
Proof using Type. intros [? ?]%elem_of_findAllInstructions. done. Qed.

Lemma meteora_bins_range {L : Bs58Laws D} d lo wd :
  meteora_bins d = (lo, wd) -> (- 2 ^ 31 <= lo < 2 ^ 31) /\ (- 2 ^ 31 <= wd < 2 ^ 31).
Proof using Type.
  unfold meteora_bins. destruct (d ≫= bs58_decode) as [bs|] eqn:E; [|intros [= <- <-]; lia].
  case_match; intros [= <- <-]; [|lia].
  destruct d as [s|]; [|done]. simpl in E. apply bs58_bytes in E.
  split; by apply readInt32LE_range.
Qed.

Lemma meteoraOpen_sound {L : Bs58Laws D} tx w e :
  e ∈ parseMeteoraOpenPositions tx (findAllMeteoraInstructions c tx) w -> sound_for Meteora tx w e.
Proof using Type.
  unfold parseMeteoraOpenPositions. intros (ix & [Hhas Hpid]%meteora_ixs & H)%elem_of_flatMap.
  unfold meteora_open_one in H. destruct (ixName METEORA_IX_DISC ix) as [n|] eqn:En; [|set_solver].
  destruct (startsWith n "initialize_position") eqn:Es; [|set_solver]. simpl in H.
  destruct (meteora_open_idx n) as [pi qi] eqn:Ei.
  destruct (Nat.leb_spec (length (ixAccounts ix)) (Nat.max pi qi)) as [|Hl]; [set_solver|].
  case_bool_decide as Hs; [|set_solver]. simpl in H.
  destruct (meteora_bins (data ix)) as [lo wd] eqn:Eb.
  apply list_elem_of_singleton in H as ->. apply meteora_bins_range in Eb as [Hlo Hwd].
  split; [|done]. split; [|done]. exists ix, n. rewrite Ei. simpl.
  assert (2 <= qi)%nat by (unfold meteora_open_idx in Ei; case_match; injection Ei as <- <-; lia).
  split_and!; try done; [lia | rewrite acct_lookup by lia; by rewrite Hs | apply acct_lookup; lia].
Qed.

Lemma meteoraClose_sound tx w evs e :
  parseMeteoraRemoveOrClose tx (findAllMeteoraInstructions c tx) w = Ret evs -> e ∈ evs ->
  sound_for Meteora tx w e.
Proof using Type.
  set (ixs := findAllMeteoraInstructions c tx). assert (Hixs := meteora_ixs tx). fold ixs in Hixs.
  unfold parseMeteoraRemoveOrClose. case_match eqn:Ez.
  - intros (r & Hr & H)%obind_Ret. injection H as <-.
    intros (p & -> & Hp%(proj1 (elem_of_set_of _ _)))%list_elem_of_fmap. split; [|done]. split; [|done].
    eapply (meteora_position_sound tx _ _ _ _ ixs); [done | lia | auto with copybot | done].
  - intros [= <-]. case_match eqn:Er.
    + destruct (omap (meteora_position is_claim claim_posIdx 2 w) ixs) as [|q qs] eqn:Eo; [by intros ?%elem_of_nil|].
      intros ->%list_elem_of_singleton. split; [|done]. right.
      eapply (meteora_position_sound tx _ _ _ _ ixs); [done | lia | auto with copybot | rewrite Eo; left].
    + rewrite <- Er. intros (q & -> & Hq%(proj1 (elem_of_set_of _ _)))%list_elem_of_fmap. split; [|done]. left.
      eapply (meteora_position_sound tx _ _ _ _ ixs); [done | lia | auto with copybot | done].
Qed.

Lemma parseMeteora_sound {L : Bs58Laws D} tx w evs e :
  parseMeteoraOperations tx w = Ret evs -> e ∈ evs -> sound_for Meteora tx w e.
Proof using Type.
  unfold parseMeteoraOperations. intros (cl & Hc & (fe & Hf & H)%obind_Ret)%obind_Ret.
  injection H as <-. rewrite !elem_of_app. intros [Hin|[Hin|[Hin|Hin]]].
  - in_cond Hin. by apply meteoraOpen_sound.
  - in_cond Hin. unfold parseMeteoraAddLiquidity in Hin.
    apply list_elem_of_fmap in Hin as (q & -> & Hq%(proj1 (elem_of_set_of _ _))). split; [|done].
    eapply meteora_position_sound; [apply meteora_ixs | lia | auto with copybot | done].
  - destruct (_ || _) in Hc; [|injection Hc as <-; by apply elem_of_nil in Hin].
    by eapply meteoraClose_sound.
  - destruct (_ && _) in Hf; [|injection Hf as <-; by apply elem_of_nil in Hin].
    by eapply meteoraClose_sound.
Qed.

Lemma parseDammv2_sound tx w evs e :
  parseDammv2Operations tx w = Ret evs -> e ∈ evs -> sound_for DammV2 tx w e.
Proof using Type.
  unfold parseDammv2Operations. intros (cl & Hc & H)%obind_Ret. injection H as <-.
  rewrite !elem_of_app. intros [Hin|[Hin|[Hin|Hin]]].
  - in_cond Hin. unfold parseDammv2OpenPositions in Hin.
    apply list_elem_of_fmap in Hin as (nft & -> & H%findNewNftMints_spec). done.
  - in_cond Hin. unfold parseDammv2AddLiquidity in Hin.
    apply held_event_inv in Hin as (p & -> & Hp). done.
  - destruct (_ || _) in Hc; [|injection Hc as <-; by apply elem_of_nil in Hin].
    destruct (decrease_or_close_inv _ _ _ DAMMV2_CLOSE_POSITION DAMMV2_REMOVE_LIQUIDITY _ _ Hc Hin)
      as [(p & r & -> & Hp)|(p & -> & Hp)]; done.
  - in_cond Hin. apply held_event_inv in Hin as (p & -> & Hp). done.
Qed.

End Dex.

End Dex.
