(* ===== verification/Parser.v ===== *)
(** * The transaction parser ([src/monitor/parser.ts], [parseTransaction])

    The swap detection from balance changes, with the doubles, the fixed-point
    printing and the [BigInt] differences of the source, and the entry point:
    spam filter, fetch with three attempts, dispatch to the exchange parsers.
    The RPC is a parameter: [fetch n] is what the [n]-th call of
    [getParsedTransaction] answers (a throw, nothing, or a transaction). *)

From S2P Require Import Prelude JsMap JsString JsNumber TxTypes ParserCore ParserDex.
Import Core Dex.
Open Scope Z_scope.
Open Scope list_scope.

Module Parser.
Section Parser.
Context `{D : Bs58} (c : ParserConfig).

(** ** Swaps from balance changes *)

Record Change := mkChange {
  pre : num; post : num; chDecimals : Z; preRaw : string; postRaw : string;
}.

(** [parseFloat(bal.uiTokenAmount.uiAmountString || '0')] *)
Definition uiFloat (b : TokenBalance) : num :=
  parseFloat (or_else (uiAmountString (uiTokenAmount b)) "0"%string).

Definition ofTarget (w : string) (b : TokenBalance) : bool := ownedBy w b && truthy (mint b).

Definition change_pre (m : list (string * Change)) (b : TokenBalance) : list (string * Change) :=
  jset (mint b)
    (mkChange (uiFloat b) zero (decimals (uiTokenAmount b)) (amount (uiTokenAmount b)) "0") m.

Definition change_post (m : list (string * Change)) (b : TokenBalance) : list (string * Change) :=
  let existing := default (mkChange zero zero (decimals (uiTokenAmount b)) "0" "0") (jget (mint b) m) in
  jset (mint b)
    (mkChange (pre existing) (uiFloat b) (chDecimals existing) (preRaw existing)
      (amount (uiTokenAmount b))) m.

Definition balance_changes (tx : ParsedTransaction) (w : string) : list (string * Change) :=
  foldl change_post (foldl change_pre [] (keep (ofTarget w) (preTB tx)))
    (keep (ofTarget w) (postTB tx)).

(** [x.toFixed(d)] throws a [RangeError] outside 0 to 100 digits. *)
Definition toFixedJs (x : num) (d : Z) : outcome string :=
  if (0 <=? d) && (d <=? 100) then Ret (toFixed x (Z.to_nat d))
  else Throw "toFixed() digits argument must be between 0 and 100".

Definition swap0 : SwapInfo := mkSwap "" "" "0" "0" 9 9 "0" "0".

Definition micro : num := dec_num 1 6.

(** One iteration of the loop over the changes. *)
Definition swap_step (s : SwapInfo) (e : string * Change) : outcome SwapInfo :=
  let (m, ch) := e in
  let diff := nsub (post ch) (pre ch) in
  if nlt diff (nopp micro) then
    let! amt := toFixedJs (nabs diff) (chDecimals ch) in
    let! a := BigInt (preRaw ch) in
    let! b := BigInt (postRaw ch) in
    let rawDiff := a - b in
    Ret (mkSwap m (outputMint s) amt (outputAmount s) (chDecimals ch) (outputDecimals s)
           (Z_toString (if 0 <? rawDiff then rawDiff else - rawDiff)) (preRaw ch))
  else if nlt micro diff then
    let! amt := toFixedJs diff (chDecimals ch) in
    Ret (mkSwap (inputMint s) m (inputAmount s) amt (inputDecimals s) (chDecimals ch)
           (inputAmountRaw s) (inputPreBalanceRaw s))
  else Ret s.

Fixpoint swap_loop (s : SwapInfo) (es : list (string * Change)) : outcome SwapInfo :=
  match es with
  | [] => Ret s
  | e :: es' => let! s' := swap_step s e in swap_loop s' es'
  end.

Definition SOL_MINT : string := "So11111111111111111111111111111111111111112".
Definition e9 : num := num_of_Z 1000000000.

(** [(tx.meta?.fee || 5000) / 1e9] *)
Definition txFee (tx : ParsedTransaction) : num :=
  let f := match meta tx with Some mt => if truthy (fee mt) then fee mt else num_of_Z 5000 | None => num_of_Z 5000 end in
  ndiv f e9.

(** [accountKeys.findIndex(...)], [None] for -1 *)
Fixpoint findIndex (w : string) (ks : list string) : option nat :=
  match ks with
  | [] => None
  | k :: ks' => if decide (k = w) then Some 0%nat else S <$> findIndex w ks'
  end.

(** An index past the end reads [undefined], which is NaN in arithmetic. *)
Definition balanceAt (l : list num) (i : nat) : num := default NaN (l !! i).

(** The change of the native balance, when the meta data has it. *)
Definition swap_sol (tx : ParsedTransaction) (w : string) (s : SwapInfo) : outcome SwapInfo :=
  match (meta tx ≫= preBalances), (meta tx ≫= postBalances), findIndex w (accountKeys tx) with
  | Some solPre, Some solPost, Some i =>
      let solDiff := ndiv (nsub (balanceAt solPost i) (balanceAt solPre i)) e9 in
      let feeAdj := match i with O => txFee tx | S _ => zero end in
      if nlt solDiff (nopp (dec_num 1 2)) && negb (truthy (inputMint s)) then
        Ret (mkSwap SOL_MINT (outputMint s) (toFixed (nabs (nadd solDiff feeAdj)) 9) (outputAmount s)
               9 (outputDecimals s) (inputAmountRaw s) (inputPreBalanceRaw s))
      else if nlt (dec_num 1 2) solDiff && negb (truthy (outputMint s)) then
        Ret (mkSwap (inputMint s) SOL_MINT (inputAmount s) (toFixed solDiff 9) (inputDecimals s) 9
               (inputAmountRaw s) (inputPreBalanceRaw s))
      else Ret s
  | _, _, _ => Ret s
  end.

(** decimals 0 and an amount of at most 1: an NFT, not a fungible token *)
Definition nft_like (d : Z) (amt : string) : bool := (d =? 0) && nle (parseFloat amt) one.

Definition swap_filter (s : SwapInfo) : option SwapInfo :=
  if truthy (inputMint s) && truthy (outputMint s) then
    if bool_decide (inputMint s = SOL_MINT) && bool_decide (outputMint s = SOL_MINT) then None
    else if nft_like (inputDecimals s) (inputAmount s) || nft_like (outputDecimals s) (outputAmount s)
    then None
    else Some s
  else None.

Definition parseJupiterSwap (tx : ParsedTransaction) (w : string) : outcome (option ParsedEvent) :=
  let! s := swap_loop swap0 (balance_changes tx w) in
  let! s' := swap_sol tx w s in
  Ret (JUPITER_SWAP <$> swap_filter s').

(** ** Entry point *)

(** Which programs the log lines mention. *)
Definition mentions (pid : string) (logs : list string) : bool := some (fun l => includes l pid) logs.

Record Involves := mkInvolves {
  involvesByreal : bool; involvesOrca : bool; involvesMeteora : bool; involvesPcs : bool;
  involvesDammv2 : bool; involvesMemo : bool;
}.

Definition involves (logs : list string) : Involves := {|
  involvesByreal := mentions (byrealProgramId c) logs;
  involvesOrca := mentions (orcaProgramId c) logs;
  involvesMeteora := mentions (meteoraProgramId c) logs;
  involvesPcs := pcsEnabled c && mentions (pcsProgramId c) logs;
  involvesDammv2 := mentions DAMMV2_PROGRAM_ID logs;
  involvesMemo := mentions (memoProgramId c) logs |}.

Definition SYSTEM_PROGRAM_SUCCESS : string := "Program 11111111111111111111111111111111 success".

Definition systemSuccessCount (logs : list string) : nat :=
  length (keep (fun l => bool_decide (l = SYSTEM_PROGRAM_SUCCESS)) logs).

Definition hasComputeBudget (logs : list string) : bool :=
  some (fun l => includes l "Program ComputeBudget111111111111111111111111111111 invoke") logs.

Definition is_spam (logs : list string) : bool :=
  let f := involves logs in
  negb (involvesByreal f) && negb (involvesOrca f) && negb (involvesMeteora f)
  && negb (involvesPcs f) && negb (involvesDammv2 f)
  && ((5 <=? systemSuccessCount logs)%nat && negb (hasComputeBudget logs)).

(** At most three attempts; a throw and an empty answer are both retried. *)
Fixpoint fetch_tx (fetch : nat -> outcome (option ParsedTransaction)) (attempt left_ : nat)
  : option ParsedTransaction :=
  match left_ with
  | O => None
  | S left' =>
      match fetch attempt with
      | Ret (Some tx) => Some tx
      | Ret None | Throw _ => fetch_tx fetch (S attempt) left'
      end
  end.

Definition tx_failed (tx : ParsedTransaction) : bool :=
  match meta tx with Some mt => err mt | None => false end.

(** The exchange parsers of a fetched transaction, in the order of the code. *)
Definition parse_dex (tx : ParsedTransaction) (logs : list string) (w : string)
  : outcome (list ParsedEvent) :=
  let f := involves logs in
  let! byreal :=
    (if involvesByreal f then parseByrealOperations c tx logs (involvesMemo f) w else Ret []) in
  let! orca :=
    (if involvesOrca f && negb (involvesByreal f) then parseOrcaOperations c tx w else Ret []) in
  let! meteora :=
    (if involvesMeteora f && negb (involvesByreal f) && negb (involvesOrca f)
     then parseMeteoraOperations c tx w else Ret []) in
  let! pcs :=
    (if involvesPcs f && negb (involvesByreal f) && negb (involvesOrca f) && negb (involvesMeteora f)
     then parsePcsOperations c tx logs (involvesMemo f) w else Ret []) in
  let! dammv2 :=
    (if involvesDammv2 f && negb (involvesByreal f) && negb (involvesOrca f)
     then parseDammv2Operations tx w else Ret []) in
  Ret (byreal ++ orca ++ meteora ++ pcs ++ dammv2).

Definition parseTransaction (fetch : nat -> outcome (option ParsedTransaction)) (logs : list string)
    (w : string) : outcome (list ParsedEvent) :=
  if is_spam logs then Ret [UNKNOWN] else
  match fetch_tx fetch 0 3 with
  | None => Ret [UNKNOWN]
  | Some tx =>
      if tx_failed tx then Ret [UNKNOWN] else
      let! events := parse_dex tx logs w in
      let! events' :=
        (if negb (involvesByreal (involves logs)) && (length events =? 0)%nat then
           let! jup := parseJupiterSwap tx w in
           Ret (events ++ match jup with Some e => [e] | None => [] end)
         else Ret events) in
      Ret (match events' with [] => [UNKNOWN] | _ => events' end)
  end.

(** ** Swaps *)

#[local] Opaque nlt nle nsub nadd ndiv nabs nopp dec_num toFixed parseFloat micro.

Lemma wf_change_fold tx w : wf_map (balance_changes tx w).
Proof using Type.
  unfold balance_changes.
  assert (forall f (Hf : forall m b, wf_map m -> wf_map (f m b)) l m,
            wf_map m -> wf_map (foldl f m (l : list TokenBalance) : list (string * Change))) as Hfold.
  { intros f Hf l. induction l as [|b l IH]; simpl; auto. }
  apply Hfold; [intros m b Hm; by apply wf_jset|].
  apply Hfold; [intros m b Hm; by apply wf_jset|]. apply wf_nil.
Qed.

Lemma foldl_jset_keys (f : list (string * Change) -> TokenBalance -> Change) l m k :
  k ∈ (foldl (fun m b => jset (mint b) (f m b) m) m l).*1 -> k ∈ m.*1 \/ k ∈ map mint l.
Proof using Type.
  revert m. induction l as [|b l IH]; simpl; intros m; [auto|].
  intros [H|H]%IH; [|set_solver]. apply elem_of_jset_keys in H. set_solver.
Qed.

(** Only balances with a mint are recorded. *)
Lemma changes_truthy tx w k ch : (k, ch) ∈ balance_changes tx w -> k <> ""%string.
Proof using Type.
  intros Hin. assert (k ∈ (balance_changes tx w).*1) as Hk by by apply (list_elem_of_fmap_2 fst) in Hin.
  unfold balance_changes in Hk.
  assert (forall l, k ∈ map mint (keep (ofTarget w) l) -> k <> ""%string) as Hm.
  { intros l (b & -> & [_ Hb]%elem_of_keep)%list_elem_of_fmap. unfold ofTarget in Hb.
    boolP. intros E. by rewrite E in *. }
  apply (foldl_jset_keys (fun m b =>
    let existing := default (mkChange zero zero (decimals (uiTokenAmount b)) "0" "0") (jget (mint b) m) in
    mkChange (pre existing) (uiFloat b) (chDecimals existing) (preRaw existing)
      (amount (uiTokenAmount b)))) in Hk as [Hk|Hk]; [|by eapply Hm].
  apply (foldl_jset_keys (fun _ b =>
    mkChange (uiFloat b) zero (decimals (uiTokenAmount b)) (amount (uiTokenAmount b)) "0")) in Hk as [Hk|Hk];
    [set_solver|by eapply Hm].
Qed.

Definition decreased (ch : Change) : bool := nlt (nsub (post ch) (pre ch)) (nopp micro).

(** The input side of a swap comes from a token balance that fell. *)
Definition input_from (es : list (string * Change)) (s : SwapInfo) : Prop :=
  exists ch a b, (inputMint s, ch) ∈ es /\ decreased ch = true
    /\ BigInt (preRaw ch) = Ret a /\ BigInt (postRaw ch) = Ret b
    /\ inputAmountRaw s = Z_toString (Z.abs (a - b)) /\ inputPreBalanceRaw s = preRaw ch.

Definition swap_inv (es : list (string * Change)) (s : SwapInfo) : Prop :=
  ((inputMint s = "" /\ inputAmountRaw s = "0")%string \/ input_from es s)
  /\ (outputMint s = ""%string
      \/ exists ch, (outputMint s, ch) ∈ es /\ decreased ch = false).

Lemma swap_step_inv es s e s' :
  e ∈ es -> swap_inv es s -> swap_step s e = Ret s' -> swap_inv es s'.
Proof using Type.
  destruct e as [m ch]. intros He [Hin Hout]. unfold swap_step.
  destruct (nlt _ (nopp micro)) eqn:Ed.
  - intros (amt & _ & (a & Ha & (b & Hb & H)%obind_Ret)%obind_Ret)%obind_Ret.
    injection H as <-. split; [right|done]. exists ch, a, b. simpl. split_and!; try done.
    f_equal. case_match; boolP; lia.
  - destruct (nlt micro _); [|by intros [= <-]].
    intros (amt & _ & H)%obind_Ret. injection H as <-. split; [exact Hin|]. right. exists ch. split; [exact He | exact Ed].
Qed.

Lemma swap_loop_inv es l s s' :
  (forall e, e ∈ l -> e ∈ es) -> swap_inv es s -> swap_loop s l = Ret s' -> swap_inv es s'.
Proof using Type.
  revert s. induction l as [|e l IH]; simpl; intros s Hl Hs.
  - by intros [= <-].
  - intros (s1 & H1 & H2)%obind_Ret. eapply IH; [set_solver| |exact H2].
    eapply swap_step_inv; [|exact Hs|exact H1]. set_solver.
Qed.

Lemma swap0_inv es : swap_inv es swap0.
Proof using Type. split; left; done. Qed.

Lemma swap_inv_distinct es s :
  wf_map es -> swap_inv es s -> truthy (inputMint s) = true -> inputMint s <> outputMint s.
Proof using Type.
  intros Hwf [Hin Hout] Ht E.
  destruct Hin as [[Hin _]|(ch & a & b & Hin & Hd & _)]; [by rewrite Hin in Ht|].
  destruct Hout as [Hout|(ch' & Hout & Hd')]; [rewrite E, Hout in Ht; done|].
  rewrite <- E in Hout. apply elem_jget in Hin, Hout; [|done..]. congruence.
Qed.

(** What the native balance can change: an empty side becomes SOL. *)
Lemma swap_sol_cases tx w s s' :
  swap_sol tx w s = Ret s' ->
  s' = s
  \/ (truthy (inputMint s) = false /\ inputMint s' = SOL_MINT /\ outputMint s' = outputMint s
      /\ inputAmountRaw s' = inputAmountRaw s)
  \/ (truthy (outputMint s) = false /\ outputMint s' = SOL_MINT /\ inputMint s' = inputMint s
      /\ inputAmountRaw s' = inputAmountRaw s /\ inputPreBalanceRaw s' = inputPreBalanceRaw s).
Proof using Type.
  unfold swap_sol. intros H. repeat case_match; simplify_eq/=; boolP; auto 10.
Qed.

Lemma truthy_false_string (s : string) : truthy s = false -> s = ""%string.
Proof using Type. by destruct s. Qed.

(** What a detected swap says of the balances. *)
Definition swap_sound (tx : ParsedTransaction) (w : string) (s : SwapInfo) : Prop :=
  truthy (inputMint s) = true /\ truthy (outputMint s) = true /\ inputMint s <> outputMint s
  /\ ((inputMint s = SOL_MINT /\ inputAmountRaw s = "0"%string)
      \/ input_from (balance_changes tx w) s).

Lemma input_from_ext es s s' :
  inputMint s' = inputMint s -> inputAmountRaw s' = inputAmountRaw s ->
  inputPreBalanceRaw s' = inputPreBalanceRaw s -> input_from es s -> input_from es s'.
Proof using Type. unfold input_from. by intros -> -> ->. Qed.

Lemma parseJupiterSwap_sound tx w s :
  parseJupiterSwap tx w = Ret (Some (JUPITER_SWAP s)) -> swap_sound tx w s.
Proof using Type.
  unfold parseJupiterSwap. intros (s1 & H1 & (s2 & H2 & H)%obind_Ret)%obind_Ret.
  unfold swap_filter in H. destruct (truthy (inputMint s2)) eqn:Ti; [|done].
  destruct (truthy (outputMint s2)) eqn:To; [|done]. simpl in H.
  destruct (bool_decide (inputMint s2 = SOL_MINT) && bool_decide (outputMint s2 = SOL_MINT)) eqn:Esol;
    [done|].
  case_match; [done|]. injection H as <-.
  assert (swap_inv (balance_changes tx w) s1) as Hinv
    by (eapply swap_loop_inv; [| apply swap0_inv | exact H1]; done).
  pose proof (swap_inv_distinct _ _ (wf_change_fold tx w) Hinv) as Hd.
  assert (~ (inputMint s2 = SOL_MINT /\ outputMint s2 = SOL_MINT)) as Hns.
  { intros [E1 E2]. by rewrite !bool_decide_true in Esol by done. }
  destruct Hinv as [Hin Hout].
  unfold swap_sound. destruct (swap_sol_cases _ _ _ _ H2) as [->|[(T & E & Eo & Er)|(T & Eo & E & Er & Ep)]].
  - split_and!; [done|done|auto|]. destruct Hin as [[Hin _]|Hin]; [by rewrite Hin in Ti|auto].
  - split_and!; [done|done| |].
    + intros E'. apply Hns. by rewrite <- E'.
    + left. split; [done|]. apply truthy_false_string in T.
      destruct Hin as [[_ Hr]|(ch & a & b & Hin & _)]; [by rewrite Er|].
      exfalso. rewrite T in Hin. eapply changes_truthy; [exact Hin|done].
  - split_and!; [done|done| |].
    + intros E'. apply Hns. by rewrite E'.
    + right. destruct Hin as [[Hin _]|Hin]; [by rewrite E, Hin in Ti|].
      by apply (input_from_ext _ s1).
Qed.

(** ** Dispatch *)

(** When an exchange's parser runs. *)
Definition dispatched (logs : list string) (d : Dex) : bool :=
  let f := involves logs in
  match d with
  | Byreal => involvesByreal f
  | Orca => involvesOrca f && negb (involvesByreal f)
  | Meteora => involvesMeteora f && negb (involvesByreal f) && negb (involvesOrca f)
  | Pcs =>
      involvesPcs f && negb (involvesByreal f) && negb (involvesOrca f) && negb (involvesMeteora f)
  | DammV2 => involvesDammv2 f && negb (involvesByreal f) && negb (involvesOrca f)
  end.

Lemma parse_dex_sound {L : Bs58Laws D} tx logs w evs e :
  parse_dex tx logs w = Ret evs -> e ∈ evs ->
  exists d, sound_for c d tx w e /\ dispatched logs d = true.
Proof using Type.
  assert (forall d (m : outcome (list ParsedEvent)) l,
            (if dispatched logs d then m else Ret []) = Ret l -> e ∈ l ->
            (forall l', m = Ret l' -> e ∈ l' -> sound_for c d tx w e) ->
            exists d, sound_for c d tx w e /\ dispatched logs d = true) as Hone.
  { intros d m l H Hin Hm. destruct (dispatched logs d) eqn:Ed.
    - exists d. split; [by eapply Hm | done].
    - injection H as <-. by apply elem_of_nil in Hin. }
  unfold parse_dex.
  intros (l1 & H1 & (l2 & H2 & (l3 & H3 & (l4 & H4 & (l5 & H5 & H)%obind_Ret)%obind_Ret)%obind_Ret)%obind_Ret)%obind_Ret.
  injection H as <-. rewrite !elem_of_app. intros [Hin|[Hin|[Hin|[Hin|Hin]]]].
  - eapply (Hone Byreal); [exact H1|exact Hin|]. intros. by eapply parseByreal_sound.
  - eapply (Hone Orca); [exact H2|exact Hin|]. intros. by eapply parseOrca_sound.
  - eapply (Hone Meteora); [exact H3|exact Hin|]. intros. by eapply parseMeteora_sound.
  - eapply (Hone Pcs); [exact H4|exact Hin|]. intros. by eapply parsePcs_sound.
  - eapply (Hone DammV2); [exact H5|exact Hin|]. intros. by eapply parseDammv2_sound.
Qed.

(** The three ways [parseTransaction] returns. *)
Lemma parseTransaction_cases fetch logs w evs :
  parseTransaction fetch logs w = Ret evs ->
  evs = [UNKNOWN]
  \/ exists tx, fetch_tx fetch 0 3 = Some tx /\ tx_failed tx = false
     /\ ((evs <> [] /\ parse_dex tx logs w = Ret evs)
         \/ exists s, evs = [JUPITER_SWAP s] /\ involvesByreal (involves logs) = false
              /\ parse_dex tx logs w = Ret [] /\ parseJupiterSwap tx w = Ret (Some (JUPITER_SWAP s))).
Proof using Type.
  unfold parseTransaction. destruct (is_spam logs); [intros [= <-]; by left|].
  destruct (fetch_tx fetch 0 3) as [tx|] eqn:Ef; [|intros [= <-]; by left].
  destruct (tx_failed tx) eqn:Et; [intros [= <-]; by left|].
  intros (evs0 & Hd & (evs1 & Hj & H)%obind_Ret)%obind_Ret. injection H as <-.
  destruct (involvesByreal (involves logs)) eqn:Eb; simpl in Hj.
  - injection Hj as <-. destruct evs0; [by left|]. right. exists tx. split_and!; [done|done|]. by left.
  - destruct evs0 as [|e0 evs0]; simpl in Hj.
    + apply obind_Ret in Hj as (jup & Hjup & Hj). injection Hj as <-.
      destruct jup as [e|]; [|by left]. right. exists tx. split_and!; [done|done|]. right.
      assert (exists s, e = JUPITER_SWAP s) as [s ->].
      { revert Hjup. unfold parseJupiterSwap.
        intros (s1 & _ & (s2 & _ & H)%obind_Ret)%obind_Ret.
        destruct (swap_filter s2) as [s|]; [|done]. injection H as <-. by exists s. }
      by exists s.
    + injection Hj as <-. right. exists tx. split_and!; [done|done|]. by left.
Qed.

(** C13: Every event [parseTransaction] reports is borne out by the fetched,
    successful transaction: an opened position NFT was minted to the wallet
    in it, a closed one was held before and is gone or empty after it and
    carries the tokens received, a partial decrease is reported only when no
    position NFT was burned, Meteora events name a position of an instruction
    of the DLMM program sent by the wallet, with bins in the 32-bit range. *)
Theorem parse_events_sound {L : Bs58Laws D} fetch logs w evs e :
  parseTransaction fetch logs w = Ret evs -> e ∈ evs -> e <> UNKNOWN ->
  exists tx, fetch_tx fetch 0 3 = Some tx /\ tx_failed tx = false
    /\ event_sound c tx w e
    /\ forall s, e = JUPITER_SWAP s -> swap_sound tx w s.
Proof using Type.
  intros H Hin Hu.
  destruct (parseTransaction_cases _ _ _ _ H) as [->|(tx & Hf & Ht & [[_ Hd]|(s & -> & _ & _ & Hj)])].
  - by apply list_elem_of_singleton in Hin.
  - exists tx. split_and!; [done|done| |].
    + destruct (parse_dex_sound _ _ _ _ _ Hd Hin) as (d & [Hs _] & _). done.
    + intros s ->. destruct (parse_dex_sound _ _ _ _ _ Hd Hin) as (d & [_ He] & _). done.
  - apply list_elem_of_singleton in Hin as ->. exists tx. split_and!; [done|done|done|].
    intros s' [= <-]. by apply parseJupiterSwap_sound.
Qed.

(** Exchanges whose events can come from one transaction. *)
Definition compatible (d1 d2 : Dex) : Prop :=
  d1 = d2 \/ (d1 = DammV2 /\ (d2 = Meteora \/ d2 = Pcs)) \/ (d2 = DammV2 /\ (d1 = Meteora \/ d1 = Pcs)).

Lemma dispatched_compatible logs d1 d2 :
  dispatched logs d1 = true -> dispatched logs d2 = true -> compatible d1 d2.
Proof using Type.
  unfold dispatched, compatible. destruct d1, d2; simpl; intros; boolP; try congruence; auto.
Qed.

(** C35: The result is never empty; UNKNOWN and a swap stand alone, and a swap
    is never reported when the logs mention Byreal; otherwise every event
    belongs to an exchange whose parser ran, and two events of one
    transaction belong to the same exchange or to DAMM v2 and one of Meteora
    DLMM and PancakeSwap. *)
Theorem parse_result_shape {L : Bs58Laws D} fetch logs w evs :
  parseTransaction fetch logs w = Ret evs ->
  evs = [UNKNOWN]
  \/ (exists s, evs = [JUPITER_SWAP s] /\ involvesByreal (involves logs) = false)
  \/ (evs <> [] /\ forall e1 e2, e1 ∈ evs -> e2 ∈ evs ->
        exists d1 d2, event_dex e1 = Some d1 /\ event_dex e2 = Some d2
          /\ dispatched logs d1 = true /\ compatible d1 d2).
Proof using Type.
  intros H.
  destruct (parseTransaction_cases _ _ _ _ H) as [->|(tx & Hf & Ht & [[Hne Hd]|(s & -> & Hb & _)])].
  - by left.
  - right. right. split; [done|]. intros e1 e2 He1 He2.
    destruct (parse_dex_sound _ _ _ _ _ Hd He1) as (d1 & [_ Hdex1] & Hdis1).
    destruct (parse_dex_sound _ _ _ _ _ Hd He2) as (d2 & [_ Hdex2] & Hdis2).
    exists d1, d2. split_and!; try done. by eapply dispatched_compatible.
  - right. left. eauto.
Qed.

(** ** Completeness of the closes *)

Lemma is_spam_involved logs : involvesByreal (involves logs) = true -> is_spam logs = false.
Proof using Type. unfold is_spam. by intros ->. Qed.

Lemma byreal_only tx logs w :
  involvesByreal (involves logs) = true ->
  parse_dex tx logs w = (let! l := parseByrealOperations c tx logs (involvesMemo (involves logs)) w in
                         Ret (l ++ [] ++ [] ++ [] ++ [])).
Proof using Type.
  intros E. unfold parse_dex. rewrite E.
  by rewrite !andb_false_r.
Qed.

Lemma fetch_tx_first fetch n k tx :
  (forall i, (n <= i < n + k)%nat -> fetch i = Ret None \/ exists e, fetch i = Throw e) ->
  fetch (n + k)%nat = Ret (Some tx) -> forall l, (k < l)%nat -> fetch_tx fetch n l = Some tx.
Proof using Type.
  revert n. induction k as [|k IH]; intros n Hb Hk [|l] Hl; simpl; try lia.
  - rewrite Nat.add_0_r in Hk. by rewrite Hk.
  - replace (match fetch n with Ret (Some tx0) => Some tx0 | _ => fetch_tx fetch (S n) l end)
      with (fetch_tx fetch (S n) l)
      by (destruct (Hb n ltac:(lia)) as [->|[e ->]]; done).
    apply IH; [intros i Hi; apply Hb; lia | by rewrite <- plus_n_Sm in Hk |lia].
Qed.

(** With a ClosePosition log, the closes are the burned NFTs and nothing else
    is a close. *)
Lemma parseByreal_closes tx logs memo w r :
  hasClosePosition (log_flags logs) = true -> parseBotReceivedTokens tx w = Ret r ->
  exists evs, parseByrealOperations c tx logs memo w = Ret evs
    /\ forall p, nft_burned tx w p <-> exists r', BYREAL_CLOSE_POSITION p r' ∈ evs.
Proof using Type.
  intros Hc Hr. unfold parseByrealOperations, parseDecreaseOrClose.
  rewrite Hc, orb_true_r, andb_false_r, Hr. cbn [obind]. rewrite app_nil_r.
  eexists. split; [done|]. intros p. rewrite <- findClosedNftMints_spec. split.
  - intros Hp. exists r. rewrite !elem_of_app. right. right.
    by apply (list_elem_of_fmap_2 (fun nft => BYREAL_CLOSE_POSITION nft r)).
  - intros [r' Hin]. rewrite !elem_of_app in Hin. destruct Hin as [Hin|[Hin|Hin]].
    + destruct (hasOpenPosition _); [|by apply elem_of_nil in Hin].
      apply list_elem_of_fmap in Hin as (? & ? & _). done.
    + destruct (_ && _); [|by apply elem_of_nil in Hin].
      apply held_event_inv in Hin as (? & ? & _). done.
    + apply list_elem_of_fmap in Hin as (? & [= -> ->] & Hin). done.
Qed.

(** A transaction that involves Byreal is parsed for Byreal alone. *)
Lemma parseTransaction_byreal fetch logs w tx (k : nat) :
  involvesByreal (involves logs) = true -> (k < 3)%nat -> fetch k = Ret (Some tx) ->
  (forall i, (i < k)%nat -> fetch i = Ret None \/ exists e, fetch i = Throw e) ->
  tx_failed tx = false ->
  parseTransaction fetch logs w =
    (let! l := parseByrealOperations c tx logs (involvesMemo (involves logs)) w in
     Ret (match l with [] => [UNKNOWN] | _ => l end)).
Proof using Type.
  intros Hb Hk Hfetch Hbefore Hok. unfold parseTransaction. rewrite is_spam_involved by done.
  rewrite (fetch_tx_first fetch 0 k tx) by (auto with lia). rewrite Hok, byreal_only, Hb by done.
  destruct (parseByrealOperations _ _ _ _ _) as [l|e]; cbn; [|done]. by rewrite !app_nil_r.
Qed.

(** C14: A Byreal close is never missed: when the logs carry a ClosePosition
    instruction of Byreal and one of the first three fetches returns the
    successful transaction, [parseTransaction] returns, and the closes it
    reports are exactly the position NFTs of the wallet burned in it. *)
Theorem byreal_closes_complete fetch logs w tx (k : nat) :
  involvesByreal (involves logs) = true -> hasClosePosition (log_flags logs) = true ->
  (k < 3)%nat -> fetch k = Ret (Some tx) ->
  (forall i, (i < k)%nat -> fetch i = Ret None \/ exists e, fetch i = Throw e) ->
  tx_failed tx = false ->
  wf_balances w (preTB tx) -> wf_balances w (postTB tx) ->
  exists evs, parseTransaction fetch logs w = Ret evs
    /\ forall p, nft_burned tx w p <-> exists r, BYREAL_CLOSE_POSITION p r ∈ evs.
Proof using Type.
  intros Hb Hc Hk Hfetch Hbefore Hok Hpre Hpost.
  rewrite (parseTransaction_byreal fetch logs w tx k) by done.
  destruct (parseByreal_closes tx logs (involvesMemo (involves logs)) w _ Hc
              (parseBotReceivedTokens_Ret tx w Hpre Hpost)) as (evs & -> & Hevs).
  cbn [obind].
  eexists. split; [done|]. intros p. rewrite Hevs.
  destruct evs as [|e evs]; [|done]. split; intros [r Hin].
  - by apply elem_of_nil in Hin.
  - by apply list_elem_of_singleton in Hin.
Qed.

End Parser.

(** ** A concrete transaction

    The wallet [W] holds a position NFT and 100 base units of USDC; the
    transaction burns the NFT and leaves 250 base units. *)

Definition demo_cfg : ParserConfig := mkParserConfig "BYR" "ORC" "MET" "PCS" "MEMO" true.

Definition demo_balance (i : Z) (m : string) (amt : string) (d : Z) (ui : option num) : TokenBalance :=
  mkBalance i m (Some "W"%string) (mkUi amt d ui (Some amt)).

Definition demo_close_tx : ParsedTransaction :=
  mkTx (Some (mkMeta false (num_of_Z 5000) None None
    (Some [demo_balance 1 "NFT" "1" 0 (Some (num_of_Z 1)); demo_balance 2 "USDC" "100" 6 None])
    (Some [demo_balance 2 "USDC" "250" 6 None]) None)) [] ["W"%string].

Definition demo_logs : list string :=
  ["Program BYR invoke [1]"; "Program log: Instruction: ClosePosition"]%string.

(** The first attempt throws, the second finds the transaction. *)
Definition demo_fetch (tx : ParsedTransaction) (n : nat) : outcome (option ParsedTransaction) :=
  match n with O => Throw "429" | _ => Ret (Some tx) end.

Definition demo_close : ParsedEvent := BYREAL_CLOSE_POSITION "NFT" [mkReceived "USDC" "150"].

Lemma demo_close_run :
  parseTransaction (D := base58) demo_cfg (demo_fetch demo_close_tx) demo_logs "W" = Ret [demo_close].
Proof. vm_compute. reflexivity. Qed.

Lemma demo_wf tbs :
  tbs = preTB demo_close_tx \/ tbs = postTB demo_close_tx -> wf_balances "W" tbs.
Proof.
  intros H. split.
  - destruct H as [-> | ->]; apply (bool_decide_unpack _); vm_compute; done.
  - destruct H as [-> | ->]; repeat constructor; simpl; try lia;
      [exists 1 | exists 100 | exists 250]; split; try lia; reflexivity.
Qed.

Definition demo_swap_tx : ParsedTransaction :=
  mkTx (Some (mkMeta false (num_of_Z 5000) None None
    (Some [demo_balance 1 "USDC" "100" 6 None; demo_balance 2 "BONK" "0" 5 None])
    (Some [demo_balance 1 "USDC" "60" 6 None; demo_balance 2 "BONK" "7" 5 None]) None)) [] ["W"%string].

Definition demo_swap : SwapInfo :=
  mkSwap "USDC" "BONK" "40.000000" "7.00000" 6 5 "40" "100".

Lemma demo_swap_run :
  parseTransaction (D := base58) demo_cfg (demo_fetch demo_swap_tx) [] "W" = Ret [JUPITER_SWAP demo_swap].
Proof. vm_compute. reflexivity. Qed.

Lemma received_tokens_exact_witness :
  exists r, parseBotReceivedTokens demo_close_tx "W" = Ret r
    /\ forall m a, mkReceived m a ∈ r <->
         let d := rawBalance (postTB demo_close_tx) "W" m - rawBalance (preTB demo_close_tx) "W" m in
         0 < d /\ a = Z_toString d.
Proof. apply (received_tokens_exact demo_close_tx "W"); apply demo_wf; auto. Defined.

Lemma parse_events_sound_witness :
  exists tx, fetch_tx (demo_fetch demo_close_tx) 0 3 = Some tx /\ tx_failed tx = false
    /\ event_sound (D := base58) demo_cfg tx "W" demo_close
    /\ forall s, demo_close = JUPITER_SWAP s -> swap_sound tx "W" s.
Proof.
  refine (parse_events_sound (L := base58_laws) demo_cfg (demo_fetch demo_close_tx) demo_logs "W"
            [demo_close] demo_close demo_close_run _ _); [left | done].
Defined.

Lemma parse_result_shape_witness :
  [JUPITER_SWAP demo_swap] = [UNKNOWN]
  \/ (exists s, [JUPITER_SWAP demo_swap] = [JUPITER_SWAP s]
        /\ involvesByreal (involves demo_cfg []) = false)
  \/ ([JUPITER_SWAP demo_swap] <> [] /\ forall e1 e2, e1 ∈ [JUPITER_SWAP demo_swap] ->
        e2 ∈ [JUPITER_SWAP demo_swap] ->
        exists d1 d2, event_dex e1 = Some d1 /\ event_dex e2 = Some d2
          /\ dispatched demo_cfg [] d1 = true /\ compatible d1 d2).
Proof.
  exact (parse_result_shape (L := base58_laws) demo_cfg (demo_fetch demo_swap_tx) [] "W" _ demo_swap_run).
Defined.

Lemma byreal_closes_complete_witness :
  exists evs, parseTransaction (D := base58) demo_cfg (demo_fetch demo_close_tx) demo_logs "W" = Ret evs
    /\ forall p, nft_burned demo_close_tx "W" p <-> exists r, BYREAL_CLOSE_POSITION p r ∈ evs.
Proof.
  apply (byreal_closes_complete demo_cfg (demo_fetch demo_close_tx) demo_logs "W" demo_close_tx 1);
    try reflexivity; try lia; try (apply demo_wf; auto).
  intros i Hi. right. exists "429"%string. by destruct i; [|lia].
Defined.

End Parser.
