(* ===== verification/WriteChain.v ===== *)
(** * Ordered write-through ([src/state/write-chain.ts])

    A store keeps its authoritative copy in memory and hands the matching
    repository call to its chain, which runs the calls one at a time in the
    order they were made. [T] is the state of the table. A repository call is
    the table update it performs; an attempt of it either succeeds, or rejects
    before the database applied it, or rejects after (the connection was lost
    once the statement had committed). The database is the oracle [att]: what
    happens on each attempt of each call. The module [Journal] at the end: a
    memory written through to a table by a chain. *)

From S2P Require Import Prelude.
Open Scope Z_scope.
Open Scope list_scope.

Module WriteChain.

(** Milliseconds before each retry. *)
Definition RETRY_DELAYS_MS : list Z := [500; 2000; 5000].

Inductive Attempt := Applied | FailedBefore | FailedAfter.

Section Chain.
Context {T : Type}.

Definition Write := T -> T.

Record Written := mkWritten { table : T; persisted : bool; attempts : nat; waited : Z }.

(** The retry loop: [delays] are the delays left, [n] the attempt number. *)
Fixpoint attempt_write (delays : list Z) (n : nat) (att : nat -> Attempt) (w : Write) (t : T) : Written :=
  match att n with
  | Applied => mkWritten (w t) true (S n) 0
  | r =>
      let t' := match r with FailedAfter => w t | _ => t end in
      match delays with
      | [] => mkWritten t' false (S n) 0
      | d :: delays' =>
          let res := attempt_write delays' (S n) att w t' in
          mkWritten (table res) (persisted res) (attempts res) (d + waited res)
      end
  end.

Record WChain := mkChain {
  retryDelaysMs : list Z;
  enabled : bool;
  tail : list Write;          (** queued and not yet started *)
  done_ : nat;                (** calls already finished *)
}.

Definition new_chain (delays : list Z) : WChain := mkChain delays false [] 0.

Definition enable (c : WChain) : WChain := mkChain (retryDelaysMs c) true (tail c) (done_ c).

Definition push (w : Write) (c : WChain) : WChain :=
  if enabled c then mkChain (retryDelaysMs c) (enabled c) (tail c ++ [w]) (done_ c) else c.

(** The oracle is indexed by the call's number in the chain. *)
Definition Db := nat -> nat -> Attempt.

(** Run the first queued call to its end. *)
Definition run_next (att : Db) (c : WChain) (t : T) : WChain * T :=
  match tail c with
  | [] => (c, t)
  | w :: rest =>
      (mkChain (retryDelaysMs c) (enabled c) rest (S (done_ c)),
       table (attempt_write (retryDelaysMs c) 0 (att (done_ c)) w t))
  end.

Fixpoint run_all (ws : list Write) (delays : list Z) (n : nat) (att : Db) (t : T) : T :=
  match ws with
  | [] => t
  | w :: ws' => run_all ws' delays (S n) att (table (attempt_write delays 0 (att n) w t))
  end.

(** [drain] waits for the tail of the chain. *)
Definition drain (att : Db) (c : WChain) (t : T) : WChain * T :=
  (mkChain (retryDelaysMs c) (enabled c) [] (done_ c + length (tail c)),
   run_all (tail c) (retryDelaysMs c) (done_ c) att t).

(** Mutations queue calls while the chain works: any interleaving. *)
Inductive Ev := Push (w : Write) | Run.

Definition chain_step (att : Db) (s : WChain * T) (e : Ev) : WChain * T :=
  match e with
  | Push w => (push w s.1, s.2)
  | Run => run_next att s.1 s.2
  end.

Definition pushed (evs : list Ev) : list Write :=
  omap (fun e => match e with Push w => Some w | Run => None end) evs.

(** ** Lemmas *)

Lemma attempt_bound delays n att w t :
  (attempts (attempt_write delays n att w t) <= n + 1 + length delays)%nat.
Proof.
  revert n t. induction delays as [|d delays IH]; intros n t; simpl.
  - destruct (att n); simpl; lia.
  - destruct (att n); simpl; [lia|specialize (IH (S n) t); lia|specialize (IH (S n) (w t)); lia].
Qed.

Lemma waited_bound delays n att w t :
  Forall (fun d => 0 <= d) delays ->
  0 <= waited (attempt_write delays n att w t) <= foldr Z.add 0 delays.
Proof.
  intros H. revert n t. induction H as [|d delays Hd Hds IH]; intros n t; simpl.
  - destruct (att n); simpl; lia.
  - assert (0 <= foldr Z.add 0 delays) by (clear IH; induction Hds; simpl; lia).
    destruct (att n); simpl; [lia|specialize (IH (S n) t); lia|specialize (IH (S n) (w t)); lia].
Qed.

(** A write that can be repeated, as an upsert, a delete or an update by key. *)
Definition idempotent (w : Write) : Prop := forall t, w (w t) = w t.

Lemma attempt_write_cases delays n att w t :
  idempotent w ->
  let r := attempt_write delays n att w t in
  (persisted r = true -> table r = w t) /\ (table r = w t \/ table r = t).
Proof.
  intros Hw. revert n t. induction delays as [|d delays IH]; intros n t; simpl.
  - destruct (att n); simpl; (split; [done|auto]).
  - destruct (att n); simpl; [by auto | exact (IH (S n) t) |].
    destruct (IH (S n) (w t)) as [H1 H2]. rewrite Hw in H1, H2. split; [done|]. tauto.
Qed.

Lemma attempt_write_succeeds delays n att w t :
  (exists k, (k <= length delays)%nat /\ att (n + k)%nat = Applied) ->
  persisted (attempt_write delays n att w t) = true.
Proof.
  revert n t. induction delays as [|d delays IH]; intros n t (k & Hk & Hatt); simpl in *.
  - replace k with 0%nat in Hatt by lia. rewrite Nat.add_0_r in Hatt. by rewrite Hatt.
  - assert (forall t', persisted (attempt_write delays (S n) att w t') = true \/ att n = Applied) as H.
    { intros t'. destruct k as [|k]; [right; by rewrite Nat.add_0_r in Hatt|left].
      apply IH. exists k. split; [lia|]. by rewrite <- plus_n_Sm in Hatt. }
    destruct (att n) eqn:E; simpl; [done| |].
    + by destruct (H t).
    + by destruct (H (w t)).
Qed.

(** The database accepts every call on one of its attempts. *)
Definition recovers (att : Db) (delays : list Z) : Prop :=
  forall i, exists k, (k <= length delays)%nat /\ att i k = Applied.

Lemma run_all_recovers ws delays n att t :
  recovers att delays -> Forall idempotent ws ->
  run_all ws delays n att t = foldl (fun t w => w t) t ws.
Proof.
  intros Hr Hws. revert n t. induction Hws as [|w ws Hw _ IH]; intros n t; simpl; [done|].
  destruct (attempt_write_cases delays 0 (att n) w t Hw) as [Hp _].
  rewrite IH, Hp; [done|]. apply attempt_write_succeeds.
  destruct (Hr n) as (k & Hk & Ha). by exists k.
Qed.

(** The connection is never lost after a commit. *)
Definition clean (att : Db) : Prop := forall i n, att i n <> FailedAfter.

Lemma attempt_write_clean delays n (a : nat -> Attempt) w t :
  (forall k, a k <> FailedAfter) ->
  table (attempt_write delays n a w t) = (if persisted (attempt_write delays n a w t) then w t else t).
Proof.
  intros Ha. revert n. induction delays as [|d delays IH]; intros n; simpl.
  - specialize (Ha n). by destruct (a n).
  - specialize (Ha n). destruct (a n); simpl; [done|apply IH|done].
Qed.

(** Without lost commits the updates need not be repeatable. *)
Lemma run_all_clean ws delays n att t :
  recovers att delays -> clean att -> run_all ws delays n att t = foldl (fun t w => w t) t ws.
Proof.
  intros Hr Hc. revert n t. induction ws as [|w ws IH]; intros n t; simpl; [done|].
  rewrite IH, attempt_write_clean by apply Hc. rewrite attempt_write_succeeds; [done|].
  destruct (Hr n) as (k & Hk & Ha). by exists k.
Qed.

Lemma run_all_app ws1 ws2 delays n att t :
  run_all (ws1 ++ ws2) delays n att t = run_all ws2 delays (n + length ws1) att (run_all ws1 delays n att t).
Proof.
  revert n t. induction ws1 as [|w ws1 IH]; intros n t; simpl; [by rewrite Nat.add_0_r|].
  rewrite IH. f_equal. lia.
Qed.

(** Whatever the interleaving, what was run plus what is queued is what was
    pushed, run in order. *)
Lemma chain_history att evs c t :
  enabled c = true ->
  let s := foldl (chain_step att) (c, t) evs in
  enabled s.1 = true /\ retryDelaysMs s.1 = retryDelaysMs c
  /\ run_all (tail s.1) (retryDelaysMs c) (done_ s.1) att s.2
     = run_all (tail c ++ pushed evs) (retryDelaysMs c) (done_ c) att t.
Proof.
  revert c t. induction evs as [|e evs IH]; intros c t He; simpl.
  - by rewrite app_nil_r.
  - destruct e as [w|]; simpl.
    + unfold push. rewrite He. destruct (IH (mkChain (retryDelaysMs c) true (tail c ++ [w]) (done_ c)) t)
        as (H1 & H2 & H3); [done|]. simpl in *. split_and!; [done|done|].
      rewrite H3. by rewrite <- app_assoc.
    + unfold run_next. destruct (tail c) as [|w rest] eqn:Et.
      * destruct (IH c t He) as (H1 & H2 & H3). rewrite Et in H3. done.
      * destruct (IH (mkChain (retryDelaysMs c) (enabled c) rest (S (done_ c)))
                     (table (attempt_write (retryDelaysMs c) 0 (att (done_ c)) w t)) He)
          as (H1 & H2 & H3). simpl in *. done.
Qed.

(** Writes reach the table once each and in the order they were made:
    however mutations and the running of the chain interleave, when every call
    succeeds within its four attempts (rejections before or after the commit
    in between) the drained table is the initial one with all the pushed
    updates applied in order, provided each update can be repeated. *)
Theorem writes_applied_in_order att evs delays t :
  recovers att delays -> Forall idempotent (pushed evs) ->
  let s := foldl (chain_step att) (enable (new_chain delays), t) evs in
  (drain att s.1 s.2).2 = foldl (fun t w => w t) t (pushed evs)
  /\ tail (drain att s.1 s.2).1 = [].
Proof.
  intros Hr Hid s. split; [|done].
  destruct (chain_history att evs (enable (new_chain delays)) t) as (H1 & H2 & H3); [done|].
  unfold drain. simpl. fold s in H1, H2, H3. rewrite H2, H3. simpl.
  by apply run_all_recovers.
Qed.

(** A failing call is bounded: at most four attempts, at most 7.5 seconds
    of waiting, and a table that is either updated or unchanged; a call
    reported as persisted is in the table. *)
Theorem failing_write_bounded att w t :
  idempotent w ->
  let r := attempt_write RETRY_DELAYS_MS 0 att w t in
  (attempts r <= 4)%nat /\ 0 <= waited r <= 7500
  /\ (persisted r = true -> table r = w t) /\ (table r = w t \/ table r = t).
Proof.
  intros Hw r. split; [exact (attempt_bound RETRY_DELAYS_MS 0 att w t)|].
  split; [apply (waited_bound RETRY_DELAYS_MS 0 att w t); by repeat constructor|].
  exact (attempt_write_cases RETRY_DELAYS_MS 0 att w t Hw).
Qed.

(** A chain that was never enabled drops every write. *)
Lemma disabled_chain_drops w c : enabled c = false -> push w c = c.
Proof. unfold push. by intros ->. Qed.

End Chain.

(** ** A concrete run: the first call needs two attempts *)

Definition demo_db : Db := fun i n =>
  match i, n with 0%nat, 0%nat => FailedAfter | 1%nat, 0%nat => FailedBefore | _, _ => Applied end.

Lemma writes_applied_in_order_witness :
  recovers demo_db RETRY_DELAYS_MS
  /\ (drain demo_db (foldl (chain_step demo_db) (enable (new_chain RETRY_DELAYS_MS), 0)
        [Push (fun _ => 5); Run; Push (fun t => Z.max t 7)]).1
       (foldl (chain_step demo_db) (enable (new_chain RETRY_DELAYS_MS), 0)
        [Push (fun _ => 5); Run; Push (fun t => Z.max t 7)]).2).2 = 7.
Proof.
  assert (recovers demo_db RETRY_DELAYS_MS) as Hr.
  { intros i. exists 1%nat. split; [simpl; lia|]. by destruct i as [|[|i]]. }
  split; [exact Hr|].
  refine (proj1 (writes_applied_in_order demo_db [Push (fun _ => 5); Run; Push (fun t => Z.max t 7)]
    RETRY_DELAYS_MS 0 Hr _)).
  repeat constructor; intros t; cbv beta; lia.
Defined.

Lemma failing_write_bounded_witness :
  let r := attempt_write RETRY_DELAYS_MS 0 (fun _ => FailedBefore) (fun _ => 5) 0 in
  (attempts r <= 4)%nat /\ 0 <= waited r <= 7500
  /\ (persisted r = true -> table r = 5) /\ (table r = 5 \/ table r = 0).
Proof. exact (failing_write_bounded (fun _ => FailedBefore) (fun _ => 5) 0 (fun t => eq_refl)). Defined.

End WriteChain.

(** * A memory written through to a table

    The stores of the program keep the authoritative copy in memory and push
    one or more repository calls to their write chain with every mutation.
    [mem m] is what mutation [m] does to the memory and [calls m d] the calls it
    queues when the memory is [d]; [J] relates a memory to the table it should
    be loaded from.  When every mutation keeps [J], a drained table is the one to
    load, however the mutations and the chain interleave ([drained]), provided
    the database takes every call within its retries, and either a call can be
    repeated or no acknowledgement of a commit is lost. *)

Module Journal.
#[local] Open Scope nat_scope.

(** ** Calls that are run again after a lost acknowledgement *)

Section Along.
Context {T : Type}.

Definition apply_all (ws : list (T -> T)) (t : T) : T := foldl (fun t w => w t) t ws.

(** Each call, when its turn comes, has no effect a second time. *)
Fixpoint repeatable (ws : list (T -> T)) (t : T) : Prop :=
  match ws with
  | [] => True
  | w :: ws' => w (w t) = w t /\ repeatable ws' (w t)
  end.

Lemma repeatable_app ws1 ws2 t : repeatable (ws1 ++ ws2) t <-> repeatable ws1 t /\ repeatable ws2 (apply_all ws1 t).
Proof. revert t. induction ws1 as [|w ws1 IH]; intros t; simpl; [tauto|]. rewrite IH. tauto. Qed.

Lemma attempt_write_at delays n att (w : T -> T) t :
  w (w t) = w t ->
  let r := WriteChain.attempt_write delays n att w t in
  (WriteChain.persisted r = true -> WriteChain.table r = w t) /\ (WriteChain.table r = w t \/ WriteChain.table r = t).
Proof.
  revert n t. induction delays as [|d delays IH]; intros n t Hw; simpl.
  - destruct (att n); simpl; (split; [done|auto]).
  - destruct (att n); simpl; [by auto|exact (IH (S n) t Hw)|].
    destruct (IH (S n) (w t)) as [H1 H2]; [by rewrite Hw|]. rewrite Hw in H1, H2. split; [done|]. tauto.
Qed.

Lemma run_all_repeatable ws delays n att (t : T) :
  WriteChain.recovers att delays -> repeatable ws t ->
  WriteChain.run_all ws delays n att t = apply_all ws t.
Proof.
  intros Hr. revert n t. induction ws as [|w ws IH]; intros n t; simpl; [done|]. intros [Hw Hws].
  destruct (attempt_write_at delays 0 (att n) w t Hw) as [Hp _]. rewrite Hp; [by apply IH|].
  apply WriteChain.attempt_write_succeeds. destruct (Hr n) as (k & Hk & Ha). by exists k.
Qed.

End Along.

Section Journal.
Context {M T Mut : Type}.
Context (mem : Mut -> M -> M) (calls : Mut -> M -> list (T -> T)).

Record journal := mk { data : M; chain : WriteChain.WChain (T := T) }.

(** Load the memory, then enable the chain. *)
Definition start (d : M) : journal := mk d (WriteChain.enable (WriteChain.new_chain WriteChain.RETRY_DELAYS_MS)).

Definition push_all (ws : list (T -> T)) (c : WriteChain.WChain) : WriteChain.WChain :=
  foldl (fun c w => WriteChain.push w c) c ws.

Inductive Event := Do (m : Mut) | Work.

Definition event (att : WriteChain.Db) (st : journal * T) (e : Event) : journal * T :=
  match e with
  | Do m => (mk (mem m (data st.1)) (push_all (calls m (data st.1)) (chain st.1)), st.2)
  | Work => let (c, t) := WriteChain.run_next att (chain st.1) st.2 in (mk (data st.1) c, t)
  end.

Definition drain (att : WriteChain.Db) (st : journal * T) : T := (WriteChain.drain att (chain st.1) st.2).2.

Definition muts (evs : list Event) : list Mut := omap (fun e => match e with Do m => Some m | Work => None end) evs.

(** The calls of a sequence of mutations. *)
Fixpoint all_calls (ms : list Mut) (d : M) : list (T -> T) :=
  match ms with
  | [] => []
  | m :: ms' => calls m d ++ all_calls ms' (mem m d)
  end.

Fixpoint chain_evs (evs : list Event) (d : M) : list (WriteChain.Ev (T := T)) :=
  match evs with
  | [] => []
  | Do m :: evs' => map WriteChain.Push (calls m d) ++ chain_evs evs' (mem m d)
  | Work :: evs' => WriteChain.Run :: chain_evs evs' d
  end.

Lemma journal_data att evs st :
  data (foldl (event att) st evs).1 = foldl (fun d m => mem m d) (data st.1) (muts evs).
Proof.
  revert st. induction evs as [|e evs IH]; intros st; simpl; [done|]. rewrite IH.
  destruct e; simpl; [done|]. by destruct (WriteChain.run_next _ _ _).
Qed.

Lemma push_all_events att ws c t :
  foldl (WriteChain.chain_step att) (c, t) (map WriteChain.Push ws) = (push_all ws c, t).
Proof. unfold push_all. revert c. induction ws as [|w ws IH]; intros c; simpl; [done|]. by rewrite IH. Qed.

Lemma journal_chain att evs st :
  let s := foldl (event att) st evs in
  (chain s.1, s.2) = foldl (WriteChain.chain_step att) (chain st.1, st.2) (chain_evs evs (data st.1)).
Proof.
  revert st. induction evs as [|e evs IH]; intros st; simpl; [done|].
  rewrite IH. destruct e; simpl; [by rewrite foldl_app, push_all_events|].
  by destruct (WriteChain.run_next _ _ _).
Qed.

Lemma pushed_map (ws : list (T -> T)) : WriteChain.pushed (map WriteChain.Push ws) = ws.
Proof. unfold WriteChain.pushed. induction ws; csimpl; [done|]. by f_equal. Qed.

Lemma pushed_calls evs d : WriteChain.pushed (chain_evs evs d) = all_calls (muts evs) d.
Proof.
  revert d. induction evs as [|[m|] evs IH]; intros d; [done| |exact (IH d)]. cbn.
  unfold WriteChain.pushed in *. rewrite omap_app, IH. f_equal. apply pushed_map.
Qed.

(** The database takes every call within its retries; a call that cannot be
    repeated is never acknowledged too late. *)
Definition dependable (att : WriteChain.Db) (ws : list (T -> T)) (t : T) : Prop :=
  WriteChain.recovers att WriteChain.RETRY_DELAYS_MS /\ (WriteChain.clean att \/ repeatable ws t).

Lemma drained_calls att evs d t : dependable att (all_calls (muts evs) d) t ->
  drain att (foldl (event att) (start d, t) evs) = apply_all (all_calls (muts evs) d) t.
Proof.
  intros [Hr Hok]. set (st := foldl (event att) (start d, t) evs).
  pose proof (journal_chain att evs (start d, t)) as Hc. cbv zeta in Hc. fold st in Hc.
  destruct (WriteChain.chain_history att (chain_evs evs d)
              (WriteChain.enable (WriteChain.new_chain WriteChain.RETRY_DELAYS_MS)) t eq_refl) as (He & Hd & Hrun).
  unfold start in Hc. cbn [fst snd data chain] in Hc. simpl in Hd, Hrun. rewrite <- Hc in Hd, Hrun. simpl in Hd, Hrun.
  unfold drain. simpl. rewrite Hd, Hrun, pushed_calls.
  destruct Hok; [by apply WriteChain.run_all_clean|by apply run_all_repeatable].
Qed.

Section Invariant.
Context (J : M -> T -> Prop) (allowed : M -> Mut -> Prop).
Context (keeps : forall m d t, allowed d m -> J d t -> J (mem m d) (apply_all (calls m d) t)).

(** Each mutation is allowed where it happens. *)
Fixpoint all_allowed (ms : list Mut) (d : M) : Prop :=
  match ms with
  | [] => True
  | m :: ms' => allowed d m /\ all_allowed ms' (mem m d)
  end.

(** However the mutations and the chain interleave, the drained table stands in
    [J] to the memory. *)
Lemma drained att evs d t : dependable att (all_calls (muts evs) d) t -> all_allowed (muts evs) d -> J d t ->
  let st := foldl (event att) (start d, t) evs in J (data st.1) (drain att st).
Proof using keeps.
  intros Hdep Hall HJ. cbv zeta. rewrite journal_data, drained_calls by done. cbn [fst start data]. clear Hdep.
  revert d t Hall HJ. induction (muts evs) as [|m ms IH]; intros d t; cbn; [done|].
  intros [Hm Hall] HJ. unfold apply_all in *. rewrite foldl_app. apply IH; [done|]. by apply keeps.
Qed.

(** When the calls of a mutation can be repeated where it happens, all can. *)
Lemma all_repeatable ms d t :
  (forall m d t, allowed d m -> J d t -> repeatable (calls m d) t) ->
  all_allowed ms d -> J d t -> repeatable (all_calls ms d) t.
Proof using keeps.
  intros Hrep. revert d t. induction ms as [|m ms IH]; intros d t; cbn; [done|].
  intros [Hm Hall] HJ. apply repeatable_app. split; [by apply Hrep|]. apply IH; [done|]. by apply keeps.
Qed.

End Invariant.
End Journal.

End Journal.
