(* ===== verification/Histories.v ===== *)
(** * Claim and conversion histories ([src/state/repo/histories.ts])

    [claim_history] and [dac_history] are append-only tables with a serial key,
    trimmed to the newest rows in the transaction that appends; the jobs keep
    the same rows in an array. [Ring] models both for a payload of any type,
    [Claims] and [Dacs] the two payloads. The module [Snapshots] at the end: the
    table of the asset trend. *)

From Stdlib Require Import Sorting.Sorted.
From S2P Require Import Prelude JsMap JsString JsNumber Json WriteChain.
Open Scope Z_scope.
Open Scope list_scope.

Definition MAX_CLAIM_HISTORY : nat := 52.
Definition MAX_DAC_HISTORY : nat := 365.

Record ClaimHistoryEntry := mkClaim {
  c_ts : Z;
  snapshotTs : option Z;
  week : string;
  totalPools : Z;
  totalBonusUsd : num;
  txSignatures : list Json;
  c_error : option string;
}.

Inductive DacStatus := success | skipped | swap_failed | transfer_failed.
#[export] Instance DacStatus_eq_dec : EqDecision DacStatus.
Proof. solve_decision. Defined.

Record DacRecord := mkDac {
  d_ts : Z;
  profitUsd : num;
  dacAmountUsd : num;
  cbbtcReceived : string;
  tokenReceived : option string;
  tokenSymbol : option string;
  tokenMint : option string;
  swapSig : option string;
  transferSig : option string;
  transferTo : string;
  status : DacStatus;
  reason : option string;
}.

Module Ring.

Section Ring.
Context {E : Type}.

(** The rows in the order of their ids, and the next value of the sequence. *)
Record table := mkTable { rows : list (nat * E); next_id : nat }.

Definition empty : table := mkTable [] 1.

(** [SELECT id ... ORDER BY id DESC OFFSET n LIMIT 1] *)
Definition nth_newest (n : nat) (t : table) : option nat := (reverse (rows t)).*1 !! n.

(** [pushClaim], [pushDac]: insert, then delete what is older than the newest [cap];
    without such a row the comparison is with null and deletes nothing. *)
Definition push_row (cap : nat) (e : E) (t : table) : table :=
  let t1 := mkTable (rows t ++ [(next_id t, e)]) (S (next_id t)) in
  match nth_newest (cap - 1) t1 with
  | Some id => mkTable (List.filter (fun r => negb (r.1 <? id)%nat) (rows t1)) (next_id t1)
  | None => t1
  end.

(** [listClaims], [listDac]: the newest [limit], oldest first. *)
Definition list_rows (limit : nat) (t : table) : list E :=
  reverse (take limit (reverse (rows t))).*2.

(** [count] *)
Definition count_rows (t : table) : nat := length (rows t).

(** The newest row that satisfies a test. *)
Definition newest (p : E -> bool) (t : table) : option E := find_first p (reverse (rows t)).*2.

(** [while (history.length > cap) history.shift()] *)
Fixpoint shift_to (cap : nat) (l : list E) : list E :=
  match l with
  | [] => []
  | _ :: l' => if (cap <? length l)%nat then shift_to cap l' else l
  end.

(** The array of the job. *)
Definition remember (cap : nat) (e : E) (l : list E) : list E := shift_to cap (l ++ [e]).

(** ** Lemmas *)

Lemma shift_to_spec cap l : shift_to cap l = drop (length l - cap) l.
Proof.
  induction l as [|x l IH]; [by rewrite drop_nil|]. cbn [shift_to]. destruct (_ <? _)%nat eqn:Hc.
  - apply Nat.ltb_lt in Hc. rewrite IH. simpl in *. by replace (S (length l) - cap)%nat with (S (length l - cap)) by lia.
  - apply Nat.ltb_ge in Hc. by replace (length (x :: l) - cap)%nat with 0%nat by lia.
Qed.

Lemma remember_length cap e l : (length (remember cap e l) <= cap)%nat.
Proof. unfold remember. rewrite shift_to_spec, length_drop. lia. Qed.

(** Ids grow along the table and stay below the next one. *)
Definition wf (t : table) : Prop :=
  StronglySorted lt (rows t).*1 /\ Forall (fun i => i < next_id t)%nat (rows t).*1.

Lemma ids_sorted_snoc (l : list nat) x : StronglySorted lt l -> Forall (fun i => i < x)%nat l -> StronglySorted lt (l ++ [x]).
Proof.
  induction 1 as [|y l Hl IH Hy]; intros Hx; simpl; [repeat constructor|].
  apply list.Forall_cons in Hx as [Hyx Hx]. constructor; [by apply IH|].
  apply Forall_app. split; [done|]. by repeat constructor.
Qed.

(** In a table sorted by id, the rows not older than the [k]-th are its last ones. *)
Lemma filter_from (l : list (nat * E)) k id :
  StronglySorted lt l.*1 -> l.*1 !! k = Some id -> List.filter (fun r => negb (r.1 <? id)%nat) l = drop k l.
Proof.
  revert k. induction l as [|x l IH]; intros k Hs Hk; [done|].
  apply StronglySorted_inv in Hs as [Hs Hx]. destruct k as [|k]; simpl in *.
  - injection Hk as <-. rewrite Nat.ltb_irrefl. simpl. f_equal.
    clear -Hx. induction l as [|y l IH]; simpl in *; [done|]. apply list.Forall_cons in Hx as [Hy Hx].
    destruct (Nat.ltb_spec y.1 x.1); [lia|]. simpl. f_equal. by apply IH.
  - assert (x.1 < id)%nat as Hlt by (rewrite Forall_forall in Hx; apply Hx, list_elem_of_In; by eapply list_elem_of_lookup_2).
    destruct (Nat.ltb_spec x.1 id); [|lia]. simpl. by apply IH.
Qed.

Lemma ids_sorted_drop k (l : list nat) : StronglySorted lt l -> StronglySorted lt (drop k l).
Proof. revert k. induction l as [|x l IH]; intros [|k] H; simpl; [done..|]. apply IH. by apply StronglySorted_inv in H as [H _]. Qed.

Lemma push_row_rows cap e t : wf t -> (0 < cap)%nat ->
  rows (push_row cap e t) = let l := rows t ++ [(next_id t, e)] in drop (length l - cap) l.
Proof.
  intros [Hs Hb] Hcap. unfold push_row, nth_newest. cbn [rows next_id].
  set (l := rows t ++ [(next_id t, e)]).
  assert (StronglySorted lt l.*1) as Hl by (unfold l; rewrite fmap_app; by apply ids_sorted_snoc).
  rewrite fmap_reverse. destruct (reverse l.*1 !! (cap - 1)%nat) as [id|] eqn:Hid; cbn [rows].
  - apply reverse_lookup_Some in Hid as [Hid Hlt]. rewrite length_fmap in *.
    replace (length l - S (cap - 1))%nat with (length l - cap)%nat in Hid by lia. by apply filter_from.
  - apply lookup_ge_None in Hid. rewrite length_reverse, length_fmap in Hid.
    by replace (length l - cap)%nat with 0%nat by lia.
Qed.

Lemma push_row_next cap e t : next_id (push_row cap e t) = S (next_id t).
Proof. unfold push_row. by destruct (nth_newest _ _). Qed.

Lemma push_row_wf cap e t : wf t -> (0 < cap)%nat -> wf (push_row cap e t).
Proof.
  intros Hw Hcap. unfold wf. rewrite push_row_next, push_row_rows by done. cbv zeta. rewrite fmap_drop, fmap_app.
  destruct Hw as [Hs Hb]. split; [by apply ids_sorted_drop, ids_sorted_snoc|].
  apply Forall_drop, Forall_app. split; [eapply list.Forall_impl; [exact Hb|]; simpl; lia|]. by repeat constructor.
Qed.

(** The table keeps what the array keeps. *)
Lemma push_row_remember cap e t : wf t -> (0 < cap)%nat ->
  (rows (push_row cap e t)).*2 = remember cap e (rows t).*2.
Proof.
  intros Hw Hcap. rewrite push_row_rows by done. cbv zeta. unfold remember. rewrite shift_to_spec, fmap_drop, fmap_app.
  do 2 f_equal. by rewrite !length_app, length_fmap.
Qed.

Lemma list_rows_all limit t : (length (rows t) <= limit)%nat -> list_rows limit t = (rows t).*2.
Proof.
  intros H. unfold list_rows. rewrite fmap_take, fmap_reverse, take_ge, reverse_involutive; [done|].
  by rewrite length_reverse, length_fmap.
Qed.

(** The memory a table is to be loaded as. *)
Definition mirrors (cap : nat) (l : list E) (t : table) : Prop :=
  wf t /\ (rows t).*2 = l /\ (length l <= cap)%nat.

Lemma mirrors_push cap e l t : (0 < cap)%nat -> mirrors cap l t -> mirrors cap (remember cap e l) (push_row cap e t).
Proof.
  intros Hcap (Hw & <- & Hl). split; [by apply push_row_wf|]. split; [by apply push_row_remember|apply remember_length].
Qed.

Lemma mirrors_list cap l t : mirrors cap l t -> list_rows cap t = l.
Proof. intros (Hw & <- & Hl). apply list_rows_all. by rewrite length_fmap in Hl. Qed.

Lemma mirrors_empty cap : mirrors cap [] empty.
Proof. split; [repeat constructor|]. split; [done|simpl; lia]. Qed.

(** [newest] in the table is the last in the array. *)
Lemma mirrors_newest cap l t p : mirrors cap l t -> newest p t = find_first p (reverse l).
Proof. intros (Hw & <- & Hl). unfold newest. by rewrite fmap_reverse. Qed.

(** ** The array and the table together *)

Context (cap : nat) (cap_pos : (0 < cap)%nat).

Definition ring_mem (e : E) (l : list E) : list E := remember cap e l.
Definition ring_calls (e : E) (_ : list E) : list (table -> table) := [push_row cap e].

Lemma ring_restored att evs l t : mirrors cap l t -> WriteChain.recovers att WriteChain.RETRY_DELAYS_MS -> WriteChain.clean att ->
  let st := foldl (Journal.event ring_mem ring_calls att) (Journal.start l, t) evs in
  mirrors cap (Journal.data st.1) (Journal.drain att st).
Proof using cap_pos.
  intros Hm Hr Hc. apply (Journal.drained _ _ _ (fun _ _ => True)); [|by split; [|left]| |done].
  - intros e l' t' _ H. by apply mirrors_push.
  - clear Hm. revert l. induction (Journal.muts evs) as [|e es IH]; intros l; cbn; [done|]. split; [done|apply IH].
Qed.

End Ring.

Arguments table : clear implicits.

End Ring.

(** [entry.error] is absent or empty. *)
Definition claim_ok (e : ClaimHistoryEntry) : bool := negb (truthy (c_error e)).

(** [payload ->> 'error' IS NULL] *)
Definition no_error (e : ClaimHistoryEntry) : bool := match c_error e with None => true | Some _ => false end.

Definition pushClaim : ClaimHistoryEntry -> Ring.table ClaimHistoryEntry -> Ring.table ClaimHistoryEntry := Ring.push_row MAX_CLAIM_HISTORY.
Definition listClaims : Ring.table ClaimHistoryEntry -> list ClaimHistoryEntry := Ring.list_rows MAX_CLAIM_HISTORY.
Definition latestSuccessfulClaim : Ring.table ClaimHistoryEntry -> option ClaimHistoryEntry := Ring.newest no_error.
Definition countClaims : Ring.table ClaimHistoryEntry -> nat := Ring.count_rows.

Definition pushDac : DacRecord -> Ring.table DacRecord -> Ring.table DacRecord := Ring.push_row MAX_DAC_HISTORY.
Definition listDac : Ring.table DacRecord -> list DacRecord := Ring.list_rows MAX_DAC_HISTORY.
Definition latestDacTs (t : Ring.table DacRecord) : Z :=
  match Ring.newest (fun _ => true) t with Some r => d_ts r | None => 0 end.
Definition countDac : Ring.table DacRecord -> nat := Ring.count_rows.

(** * Portfolio snapshots in the database ([src/state/repo/snapshots.ts])

    A tier of [asset_snapshots] is the list of its rows in the order of their
    time stamps, which [UNIQUE (granularity, ts)] makes strict.  A snapshot is
    its time stamp and the fields it has. *)

Definition MAX_RAW : nat := 576.
Definition MAX_HOURLY : nat := 720.

Inductive Granularity := Raw | Hourly | Daily.
#[export] Instance Granularity_eq_dec : EqDecision Granularity.
Proof. solve_decision. Defined.

Record AssetSnapshot := mkSnap { ts : Z; fields : gmap string num }.

(** [snapshot.field] in arithmetic: undefined is NaN. *)
Definition field (k : string) (s : AssetSnapshot) : num := default NaN (fields s !! k).

Module Snapshots.

(** [VALUE_COLUMNS], columns and fields *)
Definition VALUE_COLUMNS : list (string * string) :=
  [("tokens_usd", "tokensUsd"); ("lp_value_usd", "lpValueUsd"); ("unclaimed_usd", "unclaimedUsd"); ("bonus_usd", "bonusUsd");
   ("locked_sol_usd", "lockedSolUsd"); ("total_usd", "totalUsd"); ("sol_price", "solPrice"); ("sol_balance_usd", "solBalanceUsd");
   ("byreal_lp_usd", "byrealLpUsd"); ("byreal_fees_usd", "byrealFeesUsd"); ("byreal_locked_usd", "byrealLockedUsd");
   ("orca_lp_usd", "orcaLpUsd"); ("orca_fees_usd", "orcaFeesUsd"); ("orca_locked_usd", "orcaLockedUsd");
   ("meteora_lp_usd", "meteoraLpUsd"); ("meteora_fees_usd", "meteoraFeesUsd"); ("meteora_locked_usd", "meteoraLockedUsd");
   ("pcs_lp_usd", "pcsLpUsd"); ("pcs_fees_usd", "pcsFeesUsd"); ("pcs_locked_usd", "pcsLockedUsd");
   ("dammv2_lp_usd", "dammv2LpUsd"); ("dammv2_fees_usd", "dammv2FeesUsd"); ("dammv2_locked_usd", "dammv2LockedUsd")]%string.

(** A row: its time stamp and its columns, some of them null. *)
Definition Row : Type := Z * list (string * option num).

(** The values of [insert] *)
Definition to_row (s : AssetSnapshot) : Row := (ts s, map (fun cf => (cf.1, fields s !! cf.2)) VALUE_COLUMNS).

(** [toSnapshot] *)
Definition toSnapshot (r : Row) : AssetSnapshot :=
  mkSnap r.1 (foldl (fun out cf => match default None (jget cf.1 r.2) with
                                   | Some v => <[cf.2 := v]> out
                                   | None => out
                                   end) ∅ VALUE_COLUMNS).

(** ** The table *)

Record table := mkTable { t_raw : list AssetSnapshot; t_hourly : list AssetSnapshot; t_daily : list AssetSnapshot }.

Definition empty : table := mkTable [] [] [].

Definition tier (g : Granularity) (t : table) : list AssetSnapshot :=
  match g with Raw => t_raw t | Hourly => t_hourly t | Daily => t_daily t end.

Definition set_tier (g : Granularity) (l : list AssetSnapshot) (t : table) : table :=
  match g with
  | Raw => mkTable l (t_hourly t) (t_daily t)
  | Hourly => mkTable (t_raw t) l (t_daily t)
  | Daily => mkTable (t_raw t) (t_hourly t) l
  end.

(** A row goes to its place; one with the same time stamp is overwritten. *)
Fixpoint upsert (s : AssetSnapshot) (l : list AssetSnapshot) : list AssetSnapshot :=
  match l with
  | [] => [s]
  | x :: l' => if ts s <? ts x then s :: l else if ts s =? ts x then s :: l' else x :: upsert s l'
  end.

Definition insert (g : Granularity) (s : AssetSnapshot) (t : table) : table := set_tier g (upsert s (tier g t)) t.

(** [ORDER BY ts DESC LIMIT n], oldest first *)
Definition lastn {A} (n : nat) (l : list A) : list A := drop (length l - n) l.

Definition latest (g : Granularity) (limit : nat) (t : table) : list AssetSnapshot := lastn limit (tier g t).
Definition all (g : Granularity) (t : table) : list AssetSnapshot := tier g t.
Definition latestTs (g : Granularity) (t : table) : Z := match reverse (tier g t) with s :: _ => ts s | [] => 0 end.
Definition count (g : Granularity) (t : table) : nat := length (tier g t).

(** The rows not older than the [keep]-th newest; all of them when there are fewer. *)
Definition prune_rows (keep : nat) (l : list AssetSnapshot) : list AssetSnapshot :=
  match reverse l !! (keep - 1)%nat with
  | Some x => List.filter (fun s => negb (ts s <? ts x)) l
  | None => l
  end.
Definition prune (g : Granularity) (keep : nat) (t : table) : table := set_tier g (prune_rows keep (tier g t)) t.

Definition since (cutoff : Z) (l : list AssetSnapshot) : list AssetSnapshot := List.filter (fun s => negb (ts s <? cutoff)) l.
Definition pruneOlderThan (g : Granularity) (cutoff : Z) (t : table) : table := set_tier g (since cutoff (tier g t)) t.

(** ** Lemmas *)

Definition sorted (l : list AssetSnapshot) : Prop := StronglySorted (fun a b => ts a < ts b) l.

(** A row gives back the snapshot it was made from. *)
Theorem row_round_trip s : dom (fields s) ⊆ list_to_set (VALUE_COLUMNS.*2) -> toSnapshot (to_row s) = s.
Proof.
  intros Hd. destruct s as [t m]. unfold toSnapshot, to_row. cbn [ts fields fst snd] in *. f_equal.
  apply map_eq. intros k.
  set (row := map _ VALUE_COLUMNS).
  assert (Forall (fun cf => default None (jget cf.1 row) = m !! cf.2) VALUE_COLUMNS) as Hrow.
  { subst row. unfold VALUE_COLUMNS. repeat (constructor; [reflexivity|]). constructor. }
  assert (forall cs (out : gmap string num), Forall (fun cf : string * string => default None (jget cf.1 row) = m !! cf.2) cs ->
     foldl (fun out cf => match default None (jget cf.1 row) with Some v => <[cf.2 := v]> out | None => out end) out cs !! k
     = if decide (k ∈ cs.*2) then (match m !! k with Some v => Some v | None => out !! k end) else out !! k) as Hfold.
  { intros cs. induction cs as [|cf cs IH]; intros out Hcs; [done|]. apply list.Forall_cons in Hcs as [Hcf Hcs]. cbn [foldl].
    rewrite IH by done. rewrite Hcf. destruct (decide (k ∈ (cf :: cs).*2)) as [Hin|Hin]; rewrite fmap_cons in Hin.
    - apply list.elem_of_cons in Hin as [->|Hin].
      + destruct (m !! cf.2) eqn:E; case_decide; try done; by rewrite lookup_insert_eq.
      + rewrite decide_True by done. destruct (m !! k) eqn:E; [done|].
        destruct (m !! cf.2) eqn:E2; [|done]. rewrite lookup_insert_ne; [done|congruence].
    - apply list.not_elem_of_cons in Hin as [Hne Hin]. rewrite decide_False by done.
      destruct (m !! cf.2); [by rewrite lookup_insert_ne|done]. }
  rewrite Hfold by done. rewrite lookup_empty. case_decide as Hin; [by destruct (m !! k)|].
  symmetry. apply not_elem_of_dom. intros H. apply Hin. apply Hd in H. by apply elem_of_list_to_set in H.
Qed.

Lemma sorted_snoc l s : sorted l -> Forall (fun x => ts x < ts s) l -> sorted (l ++ [s]).
Proof.
  unfold sorted. induction 1 as [|y l Hl IH Hy]; intros Hx; simpl; [repeat constructor|].
  apply list.Forall_cons in Hx as [Hyx Hx]. constructor; [by apply IH|].
  apply Forall_app. split; [done|]. by repeat constructor.
Qed.

Lemma upsert_last s l : Forall (fun x => ts x < ts s) l -> upsert s l = l ++ [s].
Proof.
  induction 1 as [|x l Hx Hl IH]; simpl; [done|].
  destruct (Z.ltb_spec (ts s) (ts x)); [lia|]. destruct (Z.eqb_spec (ts s) (ts x)); [lia|]. by rewrite IH.
Qed.

Lemma upsert_twice s l : upsert s (upsert s l) = upsert s l.
Proof.
  induction l as [|x l IH]; simpl; [by rewrite Z.ltb_irrefl, Z.eqb_refl|].
  destruct (ts s <? ts x) eqn:E1; [|destruct (ts s =? ts x) eqn:E2]; cbn [upsert].
  - by rewrite Z.ltb_irrefl, Z.eqb_refl.
  - by rewrite Z.ltb_irrefl, Z.eqb_refl.
  - by rewrite E1, E2, IH.
Qed.

Lemma Forall_since (P : AssetSnapshot -> Prop) c l : Forall P l -> Forall P (since c l).
Proof. intros H. unfold since. induction H as [|x l Hx Hl IH]; simpl; [done|]. destruct (negb _); [by constructor|done]. Qed.

Lemma since_all c l : Forall (fun s => c <= ts s) l -> since c l = l.
Proof.
  unfold since. induction 1 as [|x l Hx Hl IH]; simpl; [done|]. destruct (Z.ltb_spec (ts x) c); [lia|]. simpl. by rewrite IH.
Qed.

(** In order, the rows since a time are the last ones. *)
Lemma since_drop c l : sorted l -> exists k, since c l = drop k l.
Proof.
  induction 1 as [|x l Hl [k IH] Hx]; [by exists 0%nat|]. unfold since in *. cbn [List.filter].
  destruct (ts x <? c) eqn:E; cbn [negb]; [exists (S k); done|]. exists 0%nat. simpl. f_equal. fold (since c l). apply since_all.
  apply Z.ltb_ge in E. eapply list.Forall_impl; [exact Hx|]. simpl. lia.
Qed.

Lemma sorted_drop k l : sorted l -> sorted (drop k l).
Proof.
  unfold sorted. revert k. induction l as [|x l IH]; intros [|k] H; simpl; [done..|].
  apply IH. by apply StronglySorted_inv in H as [H _].
Qed.

Lemma lastn_length {A} n (l : list A) : (length (lastn n l) <= n)%nat.
Proof. unfold lastn. rewrite length_drop. lia. Qed.

Lemma lastn_all {A} n (l : list A) : (length l <= n)%nat -> lastn n l = l.
Proof. intros H. unfold lastn. by replace (length l - n)%nat with 0%nat by lia. Qed.

Lemma lastn_drop {A} n k (l : list A) : lastn n (drop k l) = drop (k + (length l - k - n)) l.
Proof. unfold lastn. rewrite length_drop, drop_drop. done. Qed.

Lemma lastn_lastn {A} n m (l : list A) : (n <= m)%nat -> lastn n (lastn m l) = lastn n l.
Proof. intros H. unfold lastn at 2. rewrite lastn_drop. unfold lastn. f_equal. lia. Qed.

Lemma lastn_snoc {A} n (l : list A) x : lastn (S n) (l ++ [x]) = lastn n l ++ [x].
Proof.
  unfold lastn. rewrite length_app. simpl. rewrite drop_app_le by lia. f_equal. f_equal. lia.
Qed.

(** Taking the rows since a time and taking the last ones commute. *)
Lemma since_lastn c n l : sorted l -> since c (lastn n l) = lastn n (since c l).
Proof.
  intros Hs. unfold lastn at 1. set (j := (length l - n)%nat).
  assert (exists k, (forall i, since c (drop i l) = drop (i `max` k) l)) as (k & Hk).
  { clear j. induction Hs as [|x l Hl [k IH] Hx]; [exists 0%nat; intros i; by rewrite !drop_nil|].
    destruct (ts x <? c) eqn:E.
    - exists (S k). intros [|i]; cbn [drop]; [|by rewrite IH].
      unfold since in *. cbn [List.filter]. rewrite E. cbn [negb]. specialize (IH 0%nat). by rewrite drop_0 in IH.
    - exists 0%nat. intros i. rewrite Nat.max_0_r. apply since_all. apply Z.ltb_ge in E. apply Forall_drop.
      constructor; [lia|]. eapply list.Forall_impl; [exact Hx|]. simpl. lia. }
  rewrite Hk. pose proof (Hk 0%nat) as H0. rewrite drop_0 in H0. rewrite H0, lastn_drop. f_equal. lia.
Qed.

Lemma prune_lastn n l : sorted l -> (0 < n)%nat -> prune_rows n l = lastn n l.
Proof.
  intros Hs Hn. unfold prune_rows, lastn. destruct (reverse l !! (n - 1)%nat) as [x|] eqn:E.
  - apply reverse_lookup_Some in E as [E Hlt]. replace (length l - S (n - 1))%nat with (length l - n)%nat in E by lia.
    clear Hlt Hn. revert E. generalize (length l - n)%nat. induction Hs as [|y l Hl IH Hy]; intros k E; [done|].
    cbn [List.filter]. destruct k as [|k]; cbn in *.
    + injection E as ->. rewrite Z.ltb_irrefl. cbn. f_equal. fold (since (ts x) l). apply since_all.
      eapply list.Forall_impl; [exact Hy|]. simpl. lia.
    + assert (ts y < ts x) as Hlt by (rewrite Forall_forall in Hy; apply Hy, list_elem_of_In; by eapply list_elem_of_lookup_2).
      destruct (Z.ltb_spec (ts y) (ts x)); [|lia]. cbn. by apply IH.
  - apply lookup_ge_None in E. rewrite length_reverse in E. by replace (length l - n)%nat with 0%nat by lia.
Qed.

End Snapshots.
