(* ===== verification/PositionMap.v ===== *)
(** * Position mappings ([src/state/position-map.ts], [src/state/repo/positions.ts])

    The map from a target's position NFT to the bot's, in memory, and the
    [positions] table it is written through to.  [PositionMap] is the class:
    every mutation updates the map and queues one repository call on the write
    chain.  [Repo] is the repository: its statements as updates and queries of
    a table keyed by [target_nft] (a PRIMARY KEY).  [now] is the database clock
    for rows ([created_at]) and [Date.now()] for entries.  Liquidities are
    decimal integers and locked amounts are doubles, which the NUMERIC columns
    hold exactly. *)

From S2P Require Import Prelude JsMap JsNumber WriteChain.
Open Scope Z_scope.
Open Scope list_scope.

Record PositionEntry := mkEntry {
  ourNft : string;
  createdAt : Z;
  pool : option string;
  targetWallet : option string;
  lockedSol : option num;
  tickLower : option Z;
  tickUpper : option Z;
  dex : option string;
  targetLiquidity : option string;
}.

Record DexCounts := mkCounts {
  byreal : Z; orca : Z; meteora : Z; pancakeswap : Z; dammv2 : Z;
}.

(** The bucket of a dex tag: an untagged or unrecognised one counts as byreal. *)
Inductive Bucket := InByreal | InOrca | InMeteora | InPancakeswap | InDammv2.

#[export] Instance Bucket_eq_dec : EqDecision Bucket.
Proof. solve_decision. Defined.

Definition bucket (d : option string) : Bucket :=
  if decide (d = Some "orca"%string) then InOrca
  else if decide (d = Some "meteora"%string) then InMeteora
  else if decide (d = Some "pancakeswap"%string) then InPancakeswap
  else if decide (d = Some "dammv2"%string) then InDammv2
  else InByreal.

(** ** The table *)

Module Repo.

Record PositionRow := mkRow {
  our_nft : string;
  row_dex : option string;
  row_pool : option string;
  target_wallet : option string;
  locked_sol : option num;
  tick_lower : option Z;
  tick_upper : option Z;
  target_liquidity : option string;
  created_at : Z;
}.

(** [target_nft] is the primary key. *)
Abbreviation Table := (gmap string PositionRow).

Definition toEntry (r : PositionRow) : PositionEntry := {|
  ourNft := our_nft r; createdAt := created_at r; pool := row_pool r;
  targetWallet := target_wallet r; lockedSol := locked_sol r; tickLower := tick_lower r;
  tickUpper := tick_upper r; dex := row_dex r; targetLiquidity := target_liquidity r |}.

(** INSERT ... ON CONFLICT DO UPDATE: the row is replaced, the locked amount
    and the liquidity cleared, [created_at] set to now. *)
Definition set (now : Z) (targetNft ourNft : string) (pool targetWallet : option string)
    (tickLower tickUpper : option Z) (dex : option string) (t : Table) : Table :=
  <[targetNft := mkRow ourNft dex pool targetWallet None tickLower tickUpper None now]> t.

Definition importEntry (targetNft : string) (e : PositionEntry) (t : Table) : Table :=
  <[targetNft := mkRow (ourNft e) (dex e) (pool e) (targetWallet e) (lockedSol e) (tickLower e)
                   (tickUpper e) (targetLiquidity e) (createdAt e)]> t.

Definition get (targetNft : string) (t : Table) : option string := our_nft <$> t !! targetNft.
Definition getEntry (targetNft : string) (t : Table) : option PositionEntry := toEntry <$> t !! targetNft.
Definition getPool (targetNft : string) (t : Table) : option string := t !! targetNft ≫= row_pool.
Definition getDex (targetNft : string) (t : Table) : option string := t !! targetNft ≫= row_dex.
Definition getTargetLiquidity (targetNft : string) (t : Table) : option string :=
  t !! targetNft ≫= target_liquidity.

Definition del (targetNft : string) (t : Table) : Table := delete targetNft t.

(** DELETE ... WHERE our_nft = $1, with whether a row was removed *)
Definition deleteByOurNft (ourNft : string) (t : Table) : Table * bool :=
  (filter (fun kr => our_nft kr.2 <> ourNft) t,
   bool_decide (exists k r, t !! k = Some r /\ our_nft r = ourNft)).

(** UPDATE ... WHERE target_nft = $1 *)
Definition setDex (targetNft d : string) (t : Table) : Table :=
  alter (fun r => mkRow (our_nft r) (Some d) (row_pool r) (target_wallet r) (locked_sol r)
                    (tick_lower r) (tick_upper r) (target_liquidity r) (created_at r)) targetNft t.
Definition setPool (targetNft p : string) (t : Table) : Table :=
  alter (fun r => mkRow (our_nft r) (row_dex r) (Some p) (target_wallet r) (locked_sol r)
                    (tick_lower r) (tick_upper r) (target_liquidity r) (created_at r)) targetNft t.
Definition setLockedSol (targetNft : string) (x : num) (t : Table) : Table :=
  alter (fun r => mkRow (our_nft r) (row_dex r) (row_pool r) (target_wallet r) (Some x)
                    (tick_lower r) (tick_upper r) (target_liquidity r) (created_at r)) targetNft t.
Definition setTargetLiquidity (targetNft l : string) (t : Table) : Table :=
  alter (fun r => mkRow (our_nft r) (row_dex r) (row_pool r) (target_wallet r) (locked_sol r)
                    (tick_lower r) (tick_upper r) (Some l) (created_at r)) targetNft t.

Definition size (t : Table) : Z := Z.of_nat (base.size t).

(** GROUP BY bucket, count *)
Definition count_in (b : Bucket) (t : Table) : Z :=
  Z.of_nat (base.size (filter (fun kr : string * PositionRow => bucket (row_dex kr.2) = b) t)).

Definition countByDex (t : Table) : DexCounts :=
  mkCounts (count_in InByreal t) (count_in InOrca t) (count_in InMeteora t)
    (count_in InPancakeswap t) (count_in InDammv2 t).

(** The rows in the order the query returns them; no ORDER BY, so any order
    stands for it. *)
Definition toJSON (t : Table) : list (string * PositionEntry) :=
  (fun kr => (kr.1, toEntry kr.2)) <$> map_to_list t.

(** The remaining queries; without ORDER BY the rows come as [toJSON]'s. *)
Definition findByOurNft (ourNft : string) (t : Table) : option string :=
  fst <$> find_first (fun kr : string * PositionRow => bool_decide (our_nft kr.2 = ourNft)) (map_to_list t).

Definition getAllMyNfts (t : Table) : list string := (fun kr => our_nft kr.2) <$> map_to_list t.

Definition getLockedSol (targetNft : string) (fallback : num) (t : Table) : num :=
  default fallback (t !! targetNft ≫= locked_sol).

Definition hasDuplicateTickRange (wallet p : string) (lo hi : Z) (t : Table) : bool :=
  some (fun kr : string * PositionRow =>
    bool_decide (target_wallet kr.2 = Some wallet) && bool_decide (row_pool kr.2 = Some p)
    && bool_decide (tick_lower kr.2 = Some lo) && bool_decide (tick_upper kr.2 = Some hi)) (map_to_list t).

Definition entriesMissingLockedSol (t : Table) : list (string * string) :=
  (fun kr => (kr.1, our_nft kr.2))
    <$> keep (fun kr : string * PositionRow => bool_decide (locked_sol kr.2 = None)) (map_to_list t).

Definition getByrealOpenCount (t : Table) : Z := byreal (countByDex t).

End Repo.

(** ** The class *)

Module PositionMap.

Abbreviation EMap := (list (string * PositionEntry)).

Record t := mk { map_ : EMap; writes : WriteChain.WChain (T := Repo.Table) }.

Definition queue (w : Repo.Table -> Repo.Table) (s : t) : t := mk (map_ s) (WriteChain.push w (writes s)).

Definition new : t := mk [] (WriteChain.new_chain WriteChain.RETRY_DELAYS_MS).

(** [init]: load the rows and arm the write-through. *)
Definition init (tbl : Repo.Table) (s : t) : t :=
  mk (jmap_of (Repo.toJSON tbl)) (WriteChain.enable (writes s)).

Definition set (now dbnow : Z) (targetNft myNft : string) (pool targetWallet : option string)
    (tickLower tickUpper : option Z) (dex : option string) (s : t) : t :=
  queue (Repo.set dbnow targetNft myNft pool targetWallet tickLower tickUpper dex)
    (mk (jset targetNft (mkEntry myNft now pool targetWallet None tickLower tickUpper dex None) (map_ s))
       (writes s)).

Definition hasDuplicateTickRange (targetWallet_ pool_ : string) (lo hi : Z) (s : t) : bool :=
  some (fun e => bool_decide (targetWallet e = Some targetWallet_) && bool_decide (pool e = Some pool_)
                 && bool_decide (tickLower e = Some lo) && bool_decide (tickUpper e = Some hi))
    (jvalues (map_ s)).

Definition get (targetNft : string) (s : t) : option string := ourNft <$> jget targetNft (map_ s).
Definition getPool (targetNft : string) (s : t) : option string := jget targetNft (map_ s) ≫= pool.

Definition delete (targetNft : string) (s : t) : t :=
  queue (Repo.del targetNft) (mk (jdel targetNft (map_ s)) (writes s)).

Definition findByOurNft (ourNft_ : string) (s : t) : option string :=
  fst <$> find_first (fun ke => bool_decide (ourNft ke.2 = ourNft_)) (map_ s).

Definition deleteByOurNft (ourNft_ : string) (s : t) : t * bool :=
  match findByOurNft ourNft_ s with
  | Some targetNft => if truthy targetNft then (delete targetNft s, true) else (s, false)
  | None => (s, false)
  end.

Definition getAllMyNfts (s : t) : list string := map ourNft (jvalues (map_ s)).

Definition getByrealNfts (s : t) : list string :=
  map ourNft (keep (fun e => negb (truthy (dex e)) || bool_decide (dex e = Some "byreal"%string))
    (jvalues (map_ s))).

Definition entries (s : t) : list (string * string) := map (fun ke => (ke.1, ourNft ke.2)) (map_ s).

Definition getDex (targetNft : string) (s : t) : option string := jget targetNft (map_ s) ≫= dex.

(** The mutators of an existing entry: nothing happens, and nothing is
    written, when the key is absent. *)
Definition update (targetNft : string) (f : PositionEntry -> PositionEntry)
    (w : Repo.Table -> Repo.Table) (s : t) : t :=
  match jget targetNft (map_ s) with
  | Some e => queue w (mk (jset targetNft (f e) (map_ s)) (writes s))
  | None => s
  end.

Definition setDex (targetNft d : string) (s : t) : t :=
  update targetNft (fun e => mkEntry (ourNft e) (createdAt e) (pool e) (targetWallet e) (lockedSol e)
    (tickLower e) (tickUpper e) (Some d) (targetLiquidity e)) (Repo.setDex targetNft d) s.

Definition setPool (targetNft p : string) (s : t) : t :=
  update targetNft (fun e => mkEntry (ourNft e) (createdAt e) (Some p) (targetWallet e) (lockedSol e)
    (tickLower e) (tickUpper e) (dex e) (targetLiquidity e)) (Repo.setPool targetNft p) s.

Definition setLockedSol (targetNft : string) (x : num) (s : t) : t :=
  update targetNft (fun e => mkEntry (ourNft e) (createdAt e) (pool e) (targetWallet e) (Some x)
    (tickLower e) (tickUpper e) (dex e) (targetLiquidity e)) (Repo.setLockedSol targetNft x) s.

Definition setTargetLiquidity (targetNft l : string) (s : t) : t :=
  update targetNft (fun e => mkEntry (ourNft e) (createdAt e) (pool e) (targetWallet e) (lockedSol e)
    (tickLower e) (tickUpper e) (dex e) (Some l)) (Repo.setTargetLiquidity targetNft l) s.

Definition size (s : t) : Z := Z.of_nat (length (map_ s)).

Definition count_one (c : DexCounts) (e : PositionEntry) : DexCounts :=
  match bucket (dex e) with
  | InOrca => mkCounts (byreal c) (orca c + 1) (meteora c) (pancakeswap c) (dammv2 c)
  | InMeteora => mkCounts (byreal c) (orca c) (meteora c + 1) (pancakeswap c) (dammv2 c)
  | InPancakeswap => mkCounts (byreal c) (orca c) (meteora c) (pancakeswap c + 1) (dammv2 c)
  | InDammv2 => mkCounts (byreal c) (orca c) (meteora c) (pancakeswap c) (dammv2 c + 1)
  | InByreal => mkCounts (byreal c + 1) (orca c) (meteora c) (pancakeswap c) (dammv2 c)
  end.

Definition countByDex (s : t) : DexCounts :=
  foldl count_one (mkCounts 0 0 0 0 0) (jvalues (map_ s)).

Definition getByrealOpenCount (s : t) : Z := byreal (countByDex s).

Definition entriesMissingPool (s : t) : list (string * string) :=
  map (fun ke => (ke.1, ourNft ke.2)) (keep (fun ke => negb (truthy (pool ke.2))) (map_ s)).

Definition entriesMissingLockedSol (s : t) : list (string * string) :=
  map (fun ke => (ke.1, ourNft ke.2)) (keep (fun ke => bool_decide (lockedSol ke.2 = None)) (map_ s)).

Definition getLockedSol (targetNft : string) (fallback : num) (s : t) : num :=
  default fallback (jget targetNft (map_ s) ≫= lockedSol).

Definition getTargetLiquidity (targetNft : string) (s : t) : option string :=
  jget targetNft (map_ s) ≫= targetLiquidity.

Definition getTotalLockedSol (fallback : num) (s : t) : num :=
  foldl (fun total e => nadd total (default fallback (lockedSol e))) (num_of_Z 0) (jvalues (map_ s)).

(** The sum of one bucket; the source accumulates the five in one pass. *)
Definition lockedSolIn (b : Bucket) (fallback : num) (s : t) : num :=
  foldl (fun total e => if decide (bucket (dex e) = b) then nadd total (default fallback (lockedSol e)) else total)
    (num_of_Z 0) (jvalues (map_ s)).

Record LockedTotals := mkTotals {
  l_byreal : num; l_orca : num; l_meteora : num; l_pancakeswap : num; l_dammv2 : num;
}.

Definition getTotalLockedSolByDex (fb fo fm fp fd : num) (s : t) : LockedTotals :=
  mkTotals (lockedSolIn InByreal fb s) (lockedSolIn InOrca fo s) (lockedSolIn InMeteora fm s)
    (lockedSolIn InPancakeswap fp s) (lockedSolIn InDammv2 fd s).

Definition toJSON (s : t) : EMap := map_ s.

(** [executor.hasMapping] of the five executors *)
Definition hasMapping (targetNft : string) (s : t) : bool := truthy (get targetNft s).

(** ** Position cap ([src/executor/byreal-position.ts]) *)

Record CapStatus := mkCap {
  cap_enabled : bool; current : Z; cap : Z; reached : bool; reason : option string;
}.

Definition getByrealPositionCapStatus (s : t) (cap_ : Z) : CapStatus :=
  let current := getByrealOpenCount s in
  let enabled := 0 <? cap_ in
  let reached := enabled && (cap_ <=? current) in
  mkCap enabled current cap_ reached
    (if reached
     then Some ("Byreal position cap reached (" +:+ Z_toString current +:+ "/" +:+ Z_toString cap_ +:+ ")")%string
     else None).

(** ** Equality up to the opening time and the order of entries

    The row's [created_at] is the database's clock, the entry's [createdAt]
    the process's; two maps are compared without them. *)

Definition forget (e : PositionEntry) : PositionEntry :=
  mkEntry (ourNft e) 0 (pool e) (targetWallet e) (lockedSol e) (tickLower e) (tickUpper e) (dex e)
    (targetLiquidity e).

Definition view (m : EMap) : gmap string PositionEntry := forget <$> to_gmap m.
Definition tview (tbl : Repo.Table) : gmap string PositionEntry := (fun r => forget (Repo.toEntry r)) <$> tbl.

#[export] Instance emap_equiv : Equiv t := fun s1 s2 =>
  wf_map (map_ s1) /\ wf_map (map_ s2) /\ view (map_ s1) = view (map_ s2).

#[export] Instance emap_sym : Symmetric (≡@{t}).
Proof. intros s1 s2 (H1 & H2 & H). by split_and!. Qed.

#[export] Instance emap_trans : Transitive (≡@{t}).
Proof. intros s1 s2 s3 (H1 & _ & H) (_ & H3 & H'). split_and!; [done|done|]. by rewrite H. Qed.

Lemma lookup_view k m : view m !! k = forget <$> jget k m.
Proof. unfold view. by rewrite lookup_fmap, lookup_to_gmap. Qed.

Lemma lookup_tview k tbl : tview tbl !! k = (fun r => forget (Repo.toEntry r)) <$> tbl !! k.
Proof. unfold tview. by rewrite lookup_fmap. Qed.

(** A read that ignores [createdAt] respects the equality. *)
Lemma equiv_read {A} (f : PositionEntry -> option A) k s1 s2 :
  (forall e, f (forget e) = f e) -> s1 ≡ s2 -> jget k (map_ s1) ≫= f = jget k (map_ s2) ≫= f.
Proof.
  intros Hf (_ & _ & H).
  assert (view (map_ s1) !! k ≫= f = view (map_ s2) !! k ≫= f) as E by by rewrite H.
  rewrite !lookup_view in E. destruct (jget k (map_ s1)), (jget k (map_ s2)); simpl in *;
    by rewrite ?Hf in E.
Qed.

#[export] Instance get_proper k : Proper ((≡) ==> (=)) (get k).
Proof.
  intros s1 s2 H. pose proof (equiv_read (fun e => Some (ourNft e)) k s1 s2 (fun e => eq_refl) H) as E.
  unfold get. by destruct (jget k (map_ s1)), (jget k (map_ s2)).
Qed.

#[export] Instance getPool_proper k : Proper ((≡) ==> (=)) (getPool k).
Proof. intros s1 s2 H. by apply equiv_read. Qed.

#[export] Instance getDex_proper k : Proper ((≡) ==> (=)) (getDex k).
Proof. intros s1 s2 H. by apply equiv_read. Qed.

#[export] Instance getTargetLiquidity_proper k : Proper ((≡) ==> (=)) (getTargetLiquidity k).
Proof. intros s1 s2 H. by apply equiv_read. Qed.

#[export] Instance getLockedSol_proper k x : Proper ((≡) ==> (=)) (getLockedSol k x).
Proof. intros s1 s2 H. unfold getLockedSol. by rewrite (equiv_read lockedSol k s1 s2). Qed.

#[export] Instance hasMapping_proper k : Proper ((≡) ==> (=)) (hasMapping k).
Proof. intros s1 s2 H. unfold hasMapping. by rewrite H. Qed.

(** Equal views list the same entries, in some order. *)
Lemma view_entries m : wf_map m -> map_to_list (view m) ≡ₚ (prod_map id forget <$> m).
Proof.
  intros Hm. unfold view, to_gmap. rewrite <- list_to_map_fmap. apply map_to_list_to_map.
  by rewrite <- list_fmap_compose.
Qed.

Lemma equiv_values s1 s2 : s1 ≡ s2 ->
  (forget <$> jvalues (map_ s1)) ≡ₚ (forget <$> jvalues (map_ s2)).
Proof.
  intros (H1 & H2 & H). apply view_entries in H1, H2. rewrite H in H1. rewrite H1 in H2. clear H1.
  apply (fmap_Permutation snd) in H2. unfold jvalues. rewrite <- !list_fmap_compose in *. done.
Qed.

#[export] Instance size_proper : Proper ((≡) ==> (=)) size.
Proof.
  intros s1 s2 H%equiv_values%Permutation_length. unfold size, jvalues in *.
  rewrite !length_fmap in H. by rewrite H.
Qed.

#[export] Instance hasDuplicate_proper w p lo hi : Proper ((≡) ==> (=)) (hasDuplicateTickRange w p lo hi).
Proof.
  intros s1 s2 H%equiv_values. unfold hasDuplicateTickRange.
  set (f := fun e : PositionEntry => _).
  assert (forall l, some f l = some f (forget <$> l)) as Hf.
  { intros l. unfold some. induction l as [|e l IH]; simpl; [done|]. by rewrite IH. }
  rewrite Hf, (Hf (jvalues (map_ s2))). apply eq_true_iff_eq. rewrite !some_true.
  by setoid_rewrite H.
Qed.

(** ** Counting by exchange *)

Definition count_b (b : Bucket) (l : list PositionEntry) : Z :=
  Z.of_nat (length (filter (fun e => bucket (dex e) = b) l)).

Lemma count_b_cons b e l :
  count_b b (e :: l) = (if decide (bucket (dex e) = b) then 1 else 0) + count_b b l.
Proof. unfold count_b. rewrite filter_cons. case_decide; simpl; lia. Qed.

Lemma countByDex_acc l c :
  foldl count_one c l =
    mkCounts (byreal c + count_b InByreal l) (orca c + count_b InOrca l)
      (meteora c + count_b InMeteora l) (pancakeswap c + count_b InPancakeswap l)
      (dammv2 c + count_b InDammv2 l).
Proof.
  revert c. induction l as [|e l IH]; intros c; simpl.
  - destruct c. unfold count_b. simpl. f_equal; lia.
  - rewrite IH, !count_b_cons. unfold count_one.
    destruct (bucket (dex e)); simpl; f_equal; lia.
Qed.

Lemma countByDex_spec s :
  let l := jvalues (map_ s) in
  countByDex s = mkCounts (count_b InByreal l) (count_b InOrca l) (count_b InMeteora l)
                   (count_b InPancakeswap l) (count_b InDammv2 l).
Proof. unfold countByDex. by rewrite countByDex_acc. Qed.

Lemma count_b_forget b l : count_b b (forget <$> l) = count_b b l.
Proof. induction l as [|e l IH]; [done|]. by rewrite fmap_cons, !count_b_cons, IH. Qed.

#[export] Instance countByDex_proper : Proper ((≡) ==> (=)) countByDex.
Proof.
  intros s1 s2 H%equiv_values. rewrite !countByDex_spec.
  assert (forall b, count_b b (jvalues (map_ s1)) = count_b b (jvalues (map_ s2))) as E.
  { intros b. rewrite <- (count_b_forget b (jvalues (map_ s1))), <- (count_b_forget b (jvalues (map_ s2))).
    unfold count_b. by rewrite H. }
  simpl. by rewrite !E.
Qed.

(** ** Operations as a sequence *)

Inductive Op :=
| OSet (now dbnow : Z) (targetNft myNft : string) (pool targetWallet : option string)
    (tickLower tickUpper : option Z) (dex : option string)
| ODelete (targetNft : string)
| ODeleteByOurNft (ourNft : string)
| OSetDex (targetNft d : string)
| OSetPool (targetNft p : string)
| OSetLockedSol (targetNft : string) (x : num)
| OSetTargetLiquidity (targetNft l : string).

Definition exec (o : Op) (s : t) : t :=
  match o with
  | OSet now dbnow k n p w lo hi d => set now dbnow k n p w lo hi d s
  | ODelete k => delete k s
  | ODeleteByOurNft n => (deleteByOurNft n s).1
  | OSetDex k d => setDex k d s
  | OSetPool k p => setPool k p s
  | OSetLockedSol k x => setLockedSol k x s
  | OSetTargetLiquidity k l => setTargetLiquidity k l s
  end.

(** The process mutates the map while the chain works in the background. *)
Inductive Event := Do (o : Op) | Work.

Definition event (att : WriteChain.Db) (st : t * Repo.Table) (e : Event) : t * Repo.Table :=
  match e with
  | Do o => (exec o st.1, st.2)
  | Work => let (c, tbl) := WriteChain.run_next att (writes st.1) st.2 in (mk (map_ st.1) c, tbl)
  end.

Definition flush (att : WriteChain.Db) (st : t * Repo.Table) : t * Repo.Table :=
  let (c, tbl) := WriteChain.drain att (writes st.1) st.2 in (mk (map_ st.1) c, tbl).

(** The table as it will be when the queued writes have run. *)
Definition eventual (st : t * Repo.Table) : Repo.Table :=
  foldl (fun tbl w => w tbl) st.2 (WriteChain.tail (writes st.1)).

Record inv (st : t * Repo.Table) : Prop := {
  inv_enabled : WriteChain.enabled (writes st.1) = true;
  inv_wf : wf_map (map_ st.1);
  inv_idem : Forall WriteChain.idempotent (WriteChain.tail (writes st.1));
  inv_agree : view (map_ st.1) = tview (eventual st);
}.

(** A mutation that changes the map and queues [w] keeps the two in step. *)
Lemma inv_queue s tbl m' w :
  inv (s, tbl) -> wf_map m' -> WriteChain.idempotent w ->
  (forall T, view (map_ s) = tview T -> view m' = tview (w T)) ->
  inv (queue w (mk m' (writes s)), tbl).
Proof.
  intros [He Hwf Hid Ha] Hm Hw Hstep. unfold eventual in Ha. simpl in *.
  unfold queue, WriteChain.push. simpl. rewrite He. constructor; simpl; [done|done| |].
  - apply list.Forall_app. auto.
  - unfold eventual. simpl. rewrite foldl_app. simpl. by apply Hstep.
Qed.

(** ** Each operation keeps the map and the eventual table in step *)

Lemma view_jset k e m : view (jset k e m) = <[k := forget e]> (view m).
Proof. unfold view. by rewrite to_gmap_jset, fmap_insert. Qed.

Lemma view_jdel k m : wf_map m -> view (jdel k m) = base.delete k (view m).
Proof. intros Hm. unfold view. by rewrite to_gmap_jdel, fmap_delete. Qed.

Lemma exec_set_inv now dbnow k n p w lo hi d s tbl :
  inv (s, tbl) -> inv (set now dbnow k n p w lo hi d s, tbl).
Proof.
  intros H. unfold set. apply inv_queue; [done|apply wf_jset, H| |].
  - intros T. unfold Repo.set. by rewrite insert_insert_eq.
  - intros T E. rewrite view_jset, E. unfold tview, Repo.set. by rewrite fmap_insert.
Qed.

Lemma exec_delete_inv k s tbl : inv (s, tbl) -> inv (delete k s, tbl).
Proof.
  intros H. unfold delete. apply inv_queue; [done|apply wf_jdel, H| |].
  - intros T. unfold Repo.del. by rewrite delete_delete_eq.
  - intros T E. rewrite view_jdel, E by apply H. unfold tview, Repo.del. by rewrite fmap_delete.
Qed.

Lemma update_inv k f g s tbl :
  (forall r, g (g r) = g r) ->
  (forall e r, forget (Repo.toEntry r) = forget e -> forget (Repo.toEntry (g r)) = forget (f e)) ->
  inv (s, tbl) -> inv (update k f (alter g k) s, tbl).
Proof.
  intros Hg Hfg H. unfold update. destruct (jget k (map_ s)) as [e|] eqn:E; [|done].
  apply inv_queue; [done|apply wf_jset, H| |].
  - intros T. apply map_eq. intros i. destruct (decide (k = i)) as [<-|Hne].
    + rewrite !lookup_alter_eq. destruct (T !! k) as [r|]; simpl; [by rewrite Hg|done].
    + by rewrite !lookup_alter_ne.
  - intros T Ev. rewrite view_jset.
    assert (tview T !! k = Some (forget e)) as Ek by by rewrite <- Ev, lookup_view, E.
    rewrite lookup_tview in Ek. destruct (T !! k) as [r|] eqn:Er; [|done]. apply (inj Some) in Ek.
    apply map_eq. intros i. rewrite lookup_insert, lookup_tview, lookup_alter. case_decide; subst.
    + rewrite Er. simpl. f_equal. symmetry. by apply Hfg.
    + by rewrite Ev, lookup_tview.
Qed.

Ltac field_update := intros; unfold forget, Repo.toEntry in *; simpl in *; simplify_eq; congruence.

Lemma exec_inv o s tbl : inv (s, tbl) -> inv (exec o s, tbl).
Proof.
  intros H. destruct o; simpl.
  - by apply exec_set_inv.
  - by apply exec_delete_inv.
  - unfold deleteByOurNft. destruct (findByOurNft _ s) as [k|]; [|done].
    destruct (truthy k); [by apply exec_delete_inv|done].
  - apply update_inv; [done|field_update|done].
  - apply update_inv; [done|field_update|done].
  - apply update_inv; [done|field_update|done].
  - apply update_inv; [done|field_update|done].
Qed.

Lemma work_inv att s tbl :
  WriteChain.recovers att (WriteChain.retryDelaysMs (writes s)) ->
  inv (s, tbl) -> inv (event att (s, tbl) Work).
Proof.
  intros Hr H. unfold event, WriteChain.run_next. simpl in *.
  destruct (WriteChain.tail (writes s)) as [|w ws] eqn:Et; [by destruct s|].
  destruct H as [He Hwf Hid Ha]. unfold eventual in *. simpl in *. rewrite Et in Hid, Ha. simpl in Ha.
  apply list.Forall_cons in Hid as [Hw Hws]. constructor; simpl; try done.
  rewrite Ha. unfold eventual. simpl. do 2 f_equal. symmetry.
  apply WriteChain.attempt_write_cases; [done|]. apply WriteChain.attempt_write_succeeds.
  destruct (Hr (WriteChain.done_ (writes s))) as (n & Hn & Ha'). by exists n.
Qed.

Lemma exec_delays o s : WriteChain.retryDelaysMs (writes (exec o s)) = WriteChain.retryDelaysMs (writes s).
Proof.
  assert (forall w m, WriteChain.retryDelaysMs (writes (queue w (mk m (writes s))))
                      = WriteChain.retryDelaysMs (writes s)) as Hq.
  { intros w m. unfold queue, WriteChain.push. simpl. by case_match. }
  assert (forall k f w, WriteChain.retryDelaysMs (writes (update k f w s))
                        = WriteChain.retryDelaysMs (writes s)) as Hu.
  { intros k f w. unfold update. destruct (jget k (map_ s)) as [e|]; [apply (Hq w (jset k (f e) (map_ s)))|done]. }
  destruct o; unfold exec;
    [unfold set; apply Hq|unfold delete; apply Hq| |apply Hu|apply Hu|apply Hu|apply Hu].
  unfold deleteByOurNft. destruct (findByOurNft _ s) as [k|]; [|done].
  destruct (truthy k); [apply (Hq (Repo.del k) (jdel k (map_ s)))|done].
Qed.

Lemma event_delays att st e :
  WriteChain.retryDelaysMs (writes (event att st e).1) = WriteChain.retryDelaysMs (writes st.1).
Proof.
  destruct e as [o|]; simpl; [apply exec_delays|].
  unfold WriteChain.run_next. by destruct (WriteChain.tail _).
Qed.

Lemma events_inv att evs st :
  WriteChain.recovers att (WriteChain.retryDelaysMs (writes st.1)) ->
  inv st -> inv (foldl (event att) st evs).
Proof.
  revert st. induction evs as [|e evs IH]; simpl; intros [s tbl] Hr H; [done|].
  apply IH; [by rewrite event_delays|]. destruct e; [by apply exec_inv|by apply work_inv].
Qed.

Lemma events_delays att evs st :
  WriteChain.retryDelaysMs (writes (foldl (event att) st evs).1) = WriteChain.retryDelaysMs (writes st.1).
Proof.
  revert st. induction evs as [|e evs IH]; simpl; intros st; [done|]. by rewrite IH, event_delays.
Qed.

Lemma toJSON_keys tbl : (Repo.toJSON tbl).*1 = (map_to_list tbl).*1.
Proof. unfold Repo.toJSON. rewrite <- list_fmap_compose. by apply list_fmap_ext. Qed.

Lemma view_init tbl s : wf_map (map_ (init tbl s)) /\ view (map_ (init tbl s)) = tview tbl.
Proof.
  assert (NoDup (Repo.toJSON tbl).*1) as Hnd.
  { rewrite toJSON_keys. apply NoDup_fst_map_to_list. }
  simpl. rewrite jmap_of_fresh by done. split; [done|].
  unfold view, tview, to_gmap, Repo.toJSON.

  rewrite <- list_to_map_fmap.
  rewrite <- list_fmap_compose.
  transitivity (list_to_map (prod_map id (fun r => forget (Repo.toEntry r)) <$> map_to_list tbl)
                : gmap string PositionEntry); [done|].
  by rewrite list_to_map_fmap, list_to_map_to_list.
Qed.

Lemma init_inv tbl : inv (init tbl new, tbl).
Proof.
  destruct (view_init tbl new) as [Hwf Hv]. constructor; try done.
Qed.

(** C28: Restart safety.  Start from the rows of the database, mutate the map in
    any way while the chain works in the background, drain the chain, and load
    the map again: the reloaded map equals the one in memory, up to the
    opening times and the order of entries, whatever transient failures the
    database had (each write accepted within its four attempts). *)
Theorem restart_preserves_positions att tbl evs :
  WriteChain.recovers att WriteChain.RETRY_DELAYS_MS ->
  let st := foldl (event att) (init tbl new, tbl) evs in
  init (flush att st).2 new ≡ st.1.
Proof.
  intros Hr st. assert (inv st) as [He Hwf Hid Ha] by (apply events_inv; [done|apply init_inv]).
  destruct (view_init (flush att st).2 new) as [Hwf' Hv].
  split_and!; [done|done|]. rewrite Hv, Ha. f_equal. unfold flush, eventual. simpl.
  apply WriteChain.run_all_recovers; [|done].
  unfold st. by rewrite events_delays.
Qed.

(** ** Reverse lookup *)

Lemma findByOurNft_Some n s k : wf_map (map_ s) -> findByOurNft n s = Some k ->
  exists e, jget k (map_ s) = Some e /\ ourNft e = n.
Proof.
  unfold findByOurNft. intros Hwf ((k', e) & Hf & ->)%fmap_Some_1.
  apply find_first_Some in Hf as [Hin Hn]. simpl in *. boolP.
  exists e. split; [by apply elem_jget|done].
Qed.

Lemma findByOurNft_None n s : findByOurNft n s = None ->
  forall k e, jget k (map_ s) = Some e -> ourNft e <> n.
Proof.
  unfold findByOurNft. rewrite fmap_None, find_first_None. intros H k e Hk%jget_Some_elem.
  specialize (H _ Hk). simpl in H. by boolP.
Qed.

(** Deleting by our NFT removes exactly one mapping of that NFT and nothing
    else, and answers false, leaving the map and the write chain alone, only
    when no mapping has it (keys are never empty). *)
Theorem delete_by_our_nft n s :
  wf_map (map_ s) -> jget "" (map_ s) = None ->
  match deleteByOurNft n s with
  | (s', true) => exists k e, jget k (map_ s) = Some e /\ ourNft e = n
      /\ jget k (map_ s') = None /\ (forall k', k' <> k -> jget k' (map_ s') = jget k' (map_ s))
      /\ size s' = size s - 1
  | (s', false) => s' = s /\ forall k e, jget k (map_ s) = Some e -> ourNft e <> n
  end.
Proof.
  intros Hwf He. unfold deleteByOurNft. destruct (findByOurNft n s) as [k|] eqn:Ef.
  - apply findByOurNft_Some in Ef as (e & Hk & Hn); [|done].
    destruct (truthy k) eqn:Et; [|destruct k; [congruence|done]].
    exists k, e. unfold delete, queue. simpl. split_and!; [done|done|by apply jget_jdel| |].
    + intros k' Hne. by apply jget_jdel_ne.
    + unfold size. simpl. pose proof (length_jdel k e _ Hk). lia.
  - split; [done|]. by apply findByOurNft_None.
Qed.

(** ** Counts and the position cap *)

Definition known_tag (d : option string) : Prop :=
  d = None \/ d = Some ""%string \/ d = Some "byreal"%string \/ bucket d <> InByreal.

Lemma count_b_total l :
  count_b InByreal l + count_b InOrca l + count_b InMeteora l + count_b InPancakeswap l
    + count_b InDammv2 l = Z.of_nat (length l).
Proof.
  induction l as [|e l IH]; [done|]. rewrite !count_b_cons, length_cons.
  destruct (bucket (dex e)); simpl; lia.
Qed.

Definition tagged_byreal (e : PositionEntry) : bool :=
  negb (truthy (dex e)) || bool_decide (dex e = Some "byreal"%string).

Lemma tagged_byreal_bucket e : tagged_byreal e = true -> bucket (dex e) = InByreal.
Proof.
  unfold tagged_byreal. rewrite orb_true_iff, negb_true_iff, bool_decide_eq_true.
  intros [H|H]; [|by rewrite H]. unfold bucket. repeat case_decide; try done.
  all: by rewrite H0 in H || rewrite H1 in H || rewrite H2 in H || rewrite H3 in H.
Qed.

Lemma known_tag_byreal e :
  known_tag (dex e) -> bucket (dex e) = InByreal -> tagged_byreal e = true.
Proof. unfold tagged_byreal. by intros [-> |[-> |[-> |H]]]. Qed.

Lemma keep_tagged_count l :
  Z.of_nat (length (keep tagged_byreal l)) <= count_b InByreal l
  /\ ((forall e, e ∈ l -> known_tag (dex e)) ->
      Z.of_nat (length (keep tagged_byreal l)) = count_b InByreal l).
Proof.
  unfold keep. induction l as [|e l [IH1 IH2]]; [done|]. rewrite count_b_cons. simpl.
  destruct (tagged_byreal e) eqn:Et.
  - rewrite decide_True by by apply tagged_byreal_bucket. rewrite length_cons. split; [lia|].
    intros H. rewrite <- IH2 by set_solver. lia.
  - split; [case_decide; lia|]. intros H. rewrite decide_False; [rewrite IH2 by set_solver; lia|].
    intros Hb. rewrite known_tag_byreal in Et; [done| |done]. apply H. set_solver.
Qed.

(** The counts of the five exchanges add up to the size of the map; the
    Byreal count covers every NFT listed as Byreal, with equality when every
    dex tag is one the bot writes; and the Byreal cap is reached exactly when
    it is enabled and the count has come up to it. *)
Theorem cap_and_counts s cap_ :
  let c := countByDex s in
  byreal c + orca c + meteora c + pancakeswap c + dammv2 c = size s
  /\ Z.of_nat (length (getByrealNfts s)) <= byreal c
  /\ ((forall k e, jget k (map_ s) = Some e -> known_tag (dex e)) -> wf_map (map_ s) ->
      Z.of_nat (length (getByrealNfts s)) = byreal c)
  /\ (reached (getByrealPositionCapStatus s cap_) = true <-> 0 < cap_ <= byreal c).
Proof.
  simpl. unfold getByrealOpenCount. rewrite countByDex_spec. simpl.
  destruct (keep_tagged_count (jvalues (map_ s))) as [Hle Heq].
  unfold getByrealNfts. fold tagged_byreal. rewrite length_map.
  change (keep (fun e => negb (truthy (dex e)) || bool_decide (dex e = Some "byreal"%string)))
    with (keep tagged_byreal).
  split_and!; [| done | |].
  - rewrite count_b_total. unfold size, jvalues. by rewrite length_fmap.
  - intros H Hwf. apply Heq. intros e ((k, e') & -> & Hin)%list_elem_of_fmap.
    apply (H k). by apply elem_jget.
  - rewrite andb_true_iff, Z.ltb_lt, Z.leb_le. lia.
Qed.

(** ** The repository's queries agree with the map's reads *)

Lemma init_lookup tbl s k : forget <$> jget k (map_ (init tbl s)) = (fun r => forget (Repo.toEntry r)) <$> tbl !! k.
Proof. rewrite <- lookup_view, <- lookup_tview. f_equal. apply view_init. Qed.

Lemma init_read {A} (f : PositionEntry -> option A) tbl s k :
  (forall e, f (forget e) = f e) ->
  jget k (map_ (init tbl s)) ≫= f = tbl !! k ≫= (fun r => f (Repo.toEntry r)).
Proof.
  intros Hf. pose proof (init_lookup tbl s k) as E.
  destruct (jget k _) as [e|], (tbl !! k) as [r|]; try done.
  apply (inj Some) in E. simpl. by rewrite <- (Hf e), E, Hf.
Qed.

Lemma filter_map_size (P : Repo.PositionRow -> Prop) {H : forall r, Decision (P r)} (tbl : Repo.Table) :
  base.size (filter (fun kr => P kr.2) tbl) = length (filter P (map_to_list tbl).*2).
Proof.
  transitivity (length (filter (fun kr => P kr.2) (map_to_list tbl))).
  { rewrite <- length_map_to_list, map_filter_alt. apply Permutation_length, map_to_list_to_map.
    eapply sublist_NoDup; [apply (NoDup_fst_map_to_list tbl)|]. apply fmap_sublist, sublist_filter. }
  generalize (map_to_list tbl). intros l. induction l as [|[k r] l IH]; [done|].
  rewrite fmap_cons, !filter_cons. simpl. case_decide; simpl; by rewrite IH.
Qed.

Lemma init_values tbl s : jvalues (map_ (init tbl s)) = Repo.toEntry <$> (map_to_list tbl).*2.
Proof.
  simpl. rewrite jmap_of_fresh by (rewrite toJSON_keys; apply NoDup_fst_map_to_list).
  unfold jvalues, Repo.toJSON. by rewrite <- !list_fmap_compose.
Qed.

Lemma count_in_init b tbl s : count_b b (jvalues (map_ (init tbl s))) = Repo.count_in b tbl.
Proof.
  rewrite init_values. unfold Repo.count_in, count_b. f_equal.
  transitivity (length (filter (fun r => bucket (Repo.row_dex r) = b) (map_to_list tbl).*2));
    [|symmetry; apply (filter_map_size (fun r => bucket (Repo.row_dex r) = b)
      (H := fun r => Bucket_eq_dec (bucket (Repo.row_dex r)) b) tbl)].
  generalize (map_to_list tbl).*2. intros l. induction l as [|r l IH]; [done|].
  rewrite fmap_cons, !filter_cons. simpl. case_decide; simpl; by rewrite IH.
Qed.

Lemma init_map tbl s : map_ (init tbl s) = Repo.toJSON tbl.
Proof. simpl. apply jmap_of_fresh. rewrite toJSON_keys. apply NoDup_fst_map_to_list. Qed.

Lemma init_size tbl : size (init tbl new) = Repo.size tbl.
Proof.
  unfold size, Repo.size. rewrite init_map. unfold Repo.toJSON.
  by rewrite length_fmap, length_map_to_list.
Qed.

(** The asynchronous repository answers every question as the in-memory map
    loaded from the same rows does: lookup, pool, dex, liquidity, locked SOL,
    reverse lookup, the duplicate tick range, our NFTs, the entries without
    locked SOL, size and the counts by exchange. *)
Theorem repo_agrees_with_map tbl k p w lo hi fallback :
  let s := init tbl new in
  (get k s = Repo.get k tbl /\ getPool k s = Repo.getPool k tbl /\ getDex k s = Repo.getDex k tbl
   /\ getTargetLiquidity k s = Repo.getTargetLiquidity k tbl
   /\ getLockedSol k fallback s = Repo.getLockedSol k fallback tbl)
  /\ (findByOurNft k s = Repo.findByOurNft k tbl
      /\ hasDuplicateTickRange w p lo hi s = Repo.hasDuplicateTickRange w p lo hi tbl
      /\ getAllMyNfts s = Repo.getAllMyNfts tbl
      /\ entriesMissingLockedSol s = Repo.entriesMissingLockedSol tbl)
  /\ size s = Repo.size tbl /\ countByDex s = Repo.countByDex tbl
  /\ getByrealOpenCount s = Repo.getByrealOpenCount tbl.
Proof.
  intros s. assert (countByDex s = Repo.countByDex tbl) as Hcount.
  { rewrite countByDex_spec. unfold Repo.countByDex. by rewrite <- !(count_in_init _ tbl new). }
  split_and!.
  - pose proof (init_read (fun e => Some (ourNft e)) tbl new k (fun e => eq_refl)) as E.
    unfold get, Repo.get. fold s in E. by destruct (jget k (map_ s)), (tbl !! k).
  - apply (init_read pool). done.
  - apply (init_read dex). done.
  - apply (init_read targetLiquidity). done.
  - unfold getLockedSol, Repo.getLockedSol. f_equal. apply (init_read lockedSol). done.
  - unfold findByOurNft, Repo.findByOurNft, s. rewrite init_map. unfold Repo.toJSON.
    rewrite find_first_fmap. by destruct (find_first _ _).
  - unfold hasDuplicateTickRange, Repo.hasDuplicateTickRange, s, jvalues. rewrite init_map.
    unfold Repo.toJSON. by rewrite !some_fmap.
  - unfold getAllMyNfts, Repo.getAllMyNfts, s, jvalues. rewrite init_map. unfold Repo.toJSON.
    change (map ourNft) with (fmap (M := list) ourNft). by rewrite <- !list_fmap_compose.
  - unfold entriesMissingLockedSol, Repo.entriesMissingLockedSol, s. rewrite init_map.
    unfold Repo.toJSON. rewrite keep_fmap.
    change (map ?f) with (fmap (M := list) f). by rewrite <- list_fmap_compose.
  - apply init_size.
  - exact Hcount.
  - unfold getByrealOpenCount, Repo.getByrealOpenCount. by rewrite Hcount.
Qed.

(** ** Concrete runs *)

Definition demo_events : list Event :=
  [Do (OSet 5 6 "T1" "O1" (Some "A/B"%string) None (Some 1) (Some 2) None);
   Do (OSet 7 8 "T2" "O2" None None None None (Some "orca"%string)); Work;
   Do (OSetTargetLiquidity "T1" "900"); Do (ODeleteByOurNft "O2"); Work].

Lemma demo_recovers : WriteChain.recovers WriteChain.demo_db WriteChain.RETRY_DELAYS_MS.
Proof. intros i. exists 1%nat. split; [simpl; lia|]. by destruct i as [|[|i]]. Qed.

Lemma restart_preserves_positions_witness :
  let st := foldl (event WriteChain.demo_db) (init ∅ new, ∅) demo_events in
  init (flush WriteChain.demo_db st).2 new ≡ st.1
  /\ getTargetLiquidity "T1" st.1 = Some "900"%string.
Proof.
  intros st. split; [|reflexivity].
  exact (restart_preserves_positions WriteChain.demo_db ∅ demo_events demo_recovers).
Defined.

Definition demo_map : t :=
  mk [("T1"%string, mkEntry "O1" 5 None None None None None None None);
      ("T2"%string, mkEntry "O2" 6 None None None None None (Some "orca"%string) None)]
     (WriteChain.new_chain WriteChain.RETRY_DELAYS_MS).

Lemma demo_map_wf : wf_map (map_ demo_map).
Proof. apply (bool_decide_unpack _). vm_compute. done. Qed.

Lemma delete_by_our_nft_witness :
  match deleteByOurNft "O2" demo_map with
  | (s', true) => exists k e, jget k (map_ demo_map) = Some e /\ ourNft e = "O2"%string
      /\ jget k (map_ s') = None
      /\ (forall k', k' <> k -> jget k' (map_ s') = jget k' (map_ demo_map))
      /\ size s' = size demo_map - 1
  | (s', false) => s' = demo_map /\ forall k e, jget k (map_ demo_map) = Some e -> ourNft e <> "O2"%string
  end.
Proof. exact (delete_by_our_nft "O2" demo_map demo_map_wf eq_refl). Defined.

Lemma cap_and_counts_witness :
  Z.of_nat (length (getByrealNfts demo_map)) = byreal (countByDex demo_map).
Proof.
  refine (proj1 (proj2 (proj2 (cap_and_counts demo_map 1))) _ demo_map_wf).
  intros k e Hk%jget_Some_elem. simpl in Hk.
  repeat (apply elem_of_cons in Hk as [[= -> ->]|Hk]); [by left| |by apply elem_of_nil in Hk].
  right. right. right. by vm_compute.
Defined.

End PositionMap.
