(* ===== verification/Store.v ===== *)
(** * A keyed store behind a write chain

    The shape of [src/state/pending-swaps-store.ts], [opened-referers-store.ts]
    and [token-pnl-store.ts]: a [Map] in memory that answers every read, and one table row per key, written through the chain of
    [WriteChain.v].  [mut] lists the mutations the stores perform, each with
    the memory update and the repository statement that goes with it.  The
    result of the file, [restart_restores], is proved once for all of them. *)

From S2P Require Import Prelude JsMap WriteChain.
Open Scope list_scope.

Module Store.
Section Store.
Context {V : Type}.

(** One row per key. *)
Abbreviation Table := (gmap string V).

Record store := mk { data : list (string * V); chain : WriteChain.WChain (T := Table) }.

Definition new : store := mk [] (WriteChain.new_chain WriteChain.RETRY_DELAYS_MS).

(** The [init...] functions: clear, load every row, arm the write-through. *)
Definition init (tbl : Table) (s : store) : store :=
  mk (jmap_of (map_to_list tbl)) (WriteChain.enable (chain s)).

Inductive mut :=
| MSet (k : string) (v : V)                 (** upsert *)
| MDelete (k : string)
| MClear                                    (** DELETE without a condition *)
| MUpdate (k : string) (f : V -> V).        (** UPDATE by key *)

Definition in_memory (m : mut) (d : list (string * V)) : list (string * V) :=
  match m with
  | MSet k v => jset k v d
  | MDelete k => jdel k d
  | MClear => []
  | MUpdate k f => match jget k d with Some v => jset k (f v) d | None => d end
  end.

Definition in_table (m : mut) (t : Table) : Table :=
  match m with
  | MSet k v => <[k := v]> t
  | MDelete k => delete k t
  | MClear => ∅
  | MUpdate k f => alter f k t
  end.

Definition do (m : mut) (s : store) : store :=
  mk (in_memory m (data s)) (WriteChain.push (in_table m) (chain s)).

(** An update by key that can be repeated. *)
Definition ok (m : mut) : Prop :=
  match m with MUpdate _ f => forall v, f (f v) = f v | _ => True end.

Inductive Event := Do (m : mut) | Work.

Definition event (att : WriteChain.Db) (st : store * Table) (e : Event) : store * Table :=
  match e with
  | Do m => (do m st.1, st.2)
  | Work => let (c, tbl) := WriteChain.run_next att (chain st.1) st.2 in (mk (data st.1) c, tbl)
  end.

Definition flush (att : WriteChain.Db) (st : store * Table) : store * Table :=
  let (c, tbl) := WriteChain.drain att (chain st.1) st.2 in (mk (data st.1) c, tbl).

Definition muts (evs : list Event) : list mut :=
  omap (fun e => match e with Do m => Some m | Work => None end) evs.

(** ** Memory and table move together *)

Lemma in_memory_wf m d : wf_map d -> wf_map (in_memory m d).
Proof.
  intros Hd. destruct m as [k v|k| |k f]; simpl; [by apply wf_jset|by apply wf_jdel|apply wf_nil|].
  destruct (jget k d); [by apply wf_jset|done].
Qed.

Lemma in_memory_table m d : wf_map d -> to_gmap (in_memory m d) = in_table m (to_gmap d).
Proof.
  intros Hd. destruct m as [k v|k| |k f]; simpl.
  - apply to_gmap_jset.
  - by apply to_gmap_jdel.
  - done.
  - apply map_eq. intros i. destruct (decide (k = i)) as [<-|Hne].
    + rewrite lookup_alter_eq, !lookup_to_gmap. destruct (jget k d) as [v|] eqn:E; [by rewrite jget_jset|done].
    + rewrite lookup_alter_ne, !lookup_to_gmap by done.
      destruct (jget k d); [by rewrite jget_jset_ne|done].
Qed.

Lemma in_table_idempotent m : ok m -> WriteChain.idempotent (in_table m).
Proof.
  intros Hm t. destruct m as [k v|k| |k f]; simpl in *.
  - by rewrite insert_insert_eq.
  - by rewrite delete_delete_eq.
  - done.
  - apply map_eq. intros i. destruct (decide (k = i)) as [<-|Hne].
    + rewrite !lookup_alter_eq. destruct (t !! k); simpl; [by rewrite Hm|done].
    + by rewrite !lookup_alter_ne.
Qed.

Lemma data_muts att evs st :
  data (foldl (event att) st evs).1 = foldl (fun d m => in_memory m d) (data st.1) (muts evs).
Proof.
  revert st. induction evs as [|e evs IH]; intros st; simpl; [done|].
  rewrite IH. destruct e; simpl; [done|]. by destruct (WriteChain.run_next _ _ _).
Qed.

Lemma foldl_memory_table ms d :
  wf_map d ->
  wf_map (foldl (fun d m => in_memory m d) d ms)
  /\ to_gmap (foldl (fun d m => in_memory m d) d ms) = foldl (fun t m => in_table m t) (to_gmap d) ms.
Proof.
  revert d. induction ms as [|m ms IH]; intros d Hd; simpl; [done|].
  rewrite <- in_memory_table by done. apply IH. by apply in_memory_wf.
Qed.

(** The chain's view of the events. *)
Definition chain_ev (e : Event) : WriteChain.Ev (T := Table) :=
  match e with Do m => WriteChain.Push (in_table m) | Work => WriteChain.Run end.

Lemma chain_events att evs st :
  let s := foldl (event att) st evs in
  (chain s.1, s.2) = foldl (WriteChain.chain_step att) (chain st.1, st.2) (map chain_ev evs).
Proof.
  revert st. induction evs as [|e evs IH]; intros st; simpl; [done|].
  rewrite IH. f_equal. destruct e; simpl; [done|].
  by destruct (WriteChain.run_next _ _ _).
Qed.

Lemma pushed_muts evs : WriteChain.pushed (map chain_ev evs) = map in_table (muts evs).
Proof.
  unfold WriteChain.pushed, muts. induction evs as [|e evs IH]; [done|].
  destruct e; csimpl; by rewrite IH.
Qed.

Lemma init_gmap tbl s : wf_map (data (init tbl s)) /\ to_gmap (data (init tbl s)) = tbl.
Proof.
  simpl. rewrite jmap_of_fresh by apply NoDup_fst_map_to_list.
  split; [apply NoDup_fst_map_to_list|]. unfold to_gmap. apply list_to_map_to_list.
Qed.

(** Start from any rows, mutate in any way while the chain works, drain: the
    table holds what memory holds, so loading it again restores the store. *)
Lemma restart_restores att tbl evs :
  WriteChain.recovers att WriteChain.RETRY_DELAYS_MS -> Forall ok (muts evs) ->
  let st := foldl (event att) (init tbl new, tbl) evs in
  (flush att st).2 = to_gmap (data st.1)
  /\ to_gmap (data (init (flush att st).2 new)) = to_gmap (data st.1).
Proof.
  intros Hr Hok st.
  assert ((flush att st).2 = to_gmap (data st.1)) as E; [|split; [done|by rewrite (proj2 (init_gmap _ _))]].
  pose proof (chain_events att evs (init tbl new, tbl)) as Hc. simpl in Hc. fold st in Hc.
  destruct (WriteChain.chain_history att (map chain_ev evs)
              (WriteChain.enable (chain new)) tbl eq_refl) as (He & Hd & Hrun).
  change (WriteChain.enable (chain (init tbl new))) with (WriteChain.enable (chain new)) in *.
  simpl in Hd, Hrun. rewrite <- Hc in Hd, Hrun. simpl in Hd, Hrun.
  unfold flush. simpl. rewrite Hd, Hrun, pushed_muts.
  rewrite WriteChain.run_all_recovers; [|done|].
  - unfold st. rewrite data_muts. cbn [fst].
    destruct (init_gmap tbl new) as [Hwf Hg].
    destruct (foldl_memory_table (muts evs) _ Hwf) as [_ Hm]. rewrite Hm, Hg.
    clear. revert tbl. induction (muts evs) as [|m ms IH]; intros tbl; simpl; [done|apply IH].
  - clear -Hok. induction Hok as [|m ms Hm _ IH]; simpl; constructor; [by apply in_table_idempotent|done].
Qed.

(** ** Reads after mutations *)

Definition lookup (k : string) (s : store) : option V := jget k (data s).

Lemma lookup_set k v k' s :
  lookup k' (do (MSet k v) s) = if decide (k = k') then Some v else lookup k' s.
Proof. unfold lookup. simpl. case_decide; subst; [apply jget_jset|by apply jget_jset_ne]. Qed.

Lemma lookup_delete_ k k' s : wf_map (data s) ->
  lookup k' (do (MDelete k) s) = if decide (k = k') then None else lookup k' s.
Proof. intros H. unfold lookup. simpl. case_decide; subst; [by apply jget_jdel|by apply jget_jdel_ne]. Qed.

End Store.
Arguments store : clear implicits.
Arguments mut : clear implicits.
End Store.
