(* ===== verification/Stores.v ===== *)
(** * The state stores of the executors

    - [PendingSwaps]: [src/state/pending-swaps-store.ts]
    - [OpenedReferers]: [src/state/opened-referers-store.ts] with the duplicate
      decision of [src/utils/byreal-allow-same-tick.ts]

    Each is an instance of [Store.v]; the repositories under [src/state/repo]
    are its single-row statements.  [now] is [Date.now()]. *)

From Stdlib Require Import Ascii.
From S2P Require Import Prelude JsMap JsString JsNumber WriteChain Store.
Open Scope Z_scope.
Open Scope list_scope.

(** ** Pending swaps *)

Module PendingSwaps.

Record PendingSwapEntry := mkPending {
  pending : string;
  botReceived : string;
  created : Z;
  extra : list (string * string);     (** fields of older shapes, carried along *)
}.

Abbreviation pstore := (Store.store PendingSwapEntry).

Section PendingSwaps.
Context `{L : BNLib}.

Definition countPendingSwaps (s : pstore) : nat := length (Store.data s).
Definition getPendingSwap (inputMint : string) (s : pstore) : option PendingSwapEntry := Store.lookup inputMint s.
Definition allPendingSwaps (s : pstore) : list (string * PendingSwapEntry) := Store.data s.

Definition seed (now : Z) : PendingSwapEntry := mkPending "0" "0" now [].

(** [map.set] and [persist] *)
Definition setPendingSwap (inputMint : string) (e : PendingSwapEntry) (s : pstore) : pstore :=
  Store.do (Store.MSet inputMint e) s.

Definition addPending (now : Z) (inputMint : string) (amount : BN) (s : pstore)
  : outcome (string * pstore) :=
  let entry := default (seed now) (getPendingSwap inputMint s) in
  let! p := bn_of_string (pending entry) in
  let total := bn_toString (bn_add p amount) in
  Ret (total, setPendingSwap inputMint (mkPending total (botReceived entry) (created entry) (extra entry)) s).

Definition addBotReceived (now : Z) (inputMint : string) (amount : BN) (s : pstore)
  : outcome (string * pstore) :=
  let entry := default (seed now) (getPendingSwap inputMint s) in
  let! p := bn_of_string (or_else (Some (botReceived entry)) "0"%string) in
  let total := bn_toString (bn_add p amount) in
  Ret (total, setPendingSwap inputMint (mkPending (pending entry) total (created entry) (extra entry)) s).

Definition deletePendingSwap (inputMint : string) (s : pstore) : pstore :=
  Store.do (Store.MDelete inputMint) s.

Definition clearPendingSwaps (s : pstore) : pstore := Store.do Store.MClear s.

(** The amounts held for a mint, as integers; an absent mint holds nothing. *)
Definition amountsOf (m : string) (s : pstore) : Z * Z :=
  match getPendingSwap m s with
  | Some e => (default 0 (BigInt_of_string (pending e)), default 0 (BigInt_of_string (botReceived e)))
  | None => (0, 0)
  end.

(** Every amount of the store is the decimal text of a natural number. *)
Definition wf_pending (s : pstore) : Prop :=
  wf_map (Store.data s) /\ forall m e, getPendingSwap m s = Some e ->
    exists p b, 0 <= p /\ 0 <= b /\ pending e = Z_toString p /\ botReceived e = Z_toString b.

Inductive op :=
| AddPending (now : Z) (m : string) (a : Z)
| AddBotReceived (now : Z) (m : string) (a : Z)
| DeletePending (m : string)
| ClearPending.

Definition exec (bn : Z -> BN) (o : op) (s : pstore) : outcome pstore :=
  match o with
  | AddPending now m a => let! r := addPending now m (bn a) s in Ret r.2
  | AddBotReceived now m a => let! r := addBotReceived now m (bn a) s in Ret r.2
  | DeletePending m => Ret (deletePendingSwap m s)
  | ClearPending => Ret (clearPendingSwaps s)
  end.

(** The specification: two totals per mint. *)
Definition spec (o : op) (f : string -> Z * Z) : string -> Z * Z :=
  match o with
  | AddPending _ m a => fun k => if decide (k = m) then ((f k).1 + a, (f k).2) else f k
  | AddBotReceived _ m a => fun k => if decide (k = m) then ((f k).1, (f k).2 + a) else f k
  | DeletePending m => fun k => if decide (k = m) then (0, 0) else f k
  | ClearPending => fun _ => (0, 0)
  end.

Definition credit (o : op) : Prop :=
  match o with AddPending _ _ a | AddBotReceived _ _ a => 0 <= a | _ => True end.

Context `{!BNLaws L}.

Lemma amount_text z : 0 <= z -> default 0 (BigInt_of_string (Z_toString z)) = z.
Proof using Type. intros Hz. by rewrite BigInt_toString. Qed.

Lemma bn_read z : 0 <= z -> exists b, bn_of_string (or_else (Some (Z_toString z)) "0"%string) = Ret b /\ bn_val b = z.
Proof using BNLaws0.
  intros Hz. simpl. rewrite Z_toString_truthy by done. by apply bn_of_string_dec.
Qed.

(** The entry an addition starts from, with its amounts. *)
Lemma entry_or_seed now m s :
  wf_pending s ->
  exists p b, 0 <= p /\ 0 <= b /\ amountsOf m s = (p, b)
    /\ pending (default (seed now) (getPendingSwap m s)) = Z_toString p
    /\ botReceived (default (seed now) (getPendingSwap m s)) = Z_toString b.
Proof using Type.
  intros [_ Hwf]. unfold amountsOf. destruct (getPendingSwap m s) as [e|] eqn:E; simpl.
  - destruct (Hwf m e E) as (p & b & Hp & Hb & Ep & Eb). exists p, b.
    rewrite Ep, Eb, !amount_text by done. done.
  - exists 0, 0. done.
Qed.

Lemma set_wf m p b cr ex s :
  wf_pending s -> 0 <= p -> 0 <= b ->
  wf_pending (setPendingSwap m (mkPending (Z_toString p) (Z_toString b) cr ex) s)
  /\ forall k, amountsOf k (setPendingSwap m (mkPending (Z_toString p) (Z_toString b) cr ex) s)
               = if decide (k = m) then (p, b) else amountsOf k s.
Proof using Type.
  intros [Hd Hwf] Hp Hb. unfold setPendingSwap. split; [split; [by apply wf_jset|]|].
  - intros k e. unfold getPendingSwap. rewrite Store.lookup_set. case_decide; [|apply Hwf].
    intros [= <-]. by exists p, b.
  - intros k. unfold amountsOf, getPendingSwap. rewrite Store.lookup_set.
    repeat case_decide; try congruence. simpl. by rewrite !amount_text.
Qed.

(** Crediting the bot's share of a mint on a well-formed store. *)
Lemma addBotReceived_spec now m a s :
  0 <= bn_val a -> wf_pending s ->
  exists t s', addBotReceived now m a s = Ret (t, s') /\ wf_pending s'
    /\ forall k, amountsOf k s' =
         if decide (k = m) then ((amountsOf k s).1, (amountsOf k s).2 + bn_val a) else amountsOf k s.
Proof using BNLaws0.
  intros Ha Hwf. destruct (entry_or_seed now m s Hwf) as (p & b & Hp & Hb & Ea & Ep & Eb).
  unfold addBotReceived. rewrite Ep, Eb. destruct (bn_read b Hb) as (q & -> & Hq). simpl.
  rewrite bn_toString_val, bn_add_val, Hq.
  destruct (set_wf m p (b + bn_val a) (created (default (seed now) (getPendingSwap m s)))
              (extra (default (seed now) (getPendingSwap m s))) s Hwf Hp ltac:(lia)) as [H1 H2].
  eexists _, _. split; [done|]. split; [exact H1|]. intros k. rewrite H2.
  case_decide; subst; [by rewrite Ea|done].
Qed.

Lemma exec_spec bn o s :
  (forall z, bn_val (bn z) = z) -> credit o -> wf_pending s ->
  exists s', exec bn o s = Ret s' /\ wf_pending s'
    /\ forall k, amountsOf k s' = spec o (fun k => amountsOf k s) k.
Proof using BNLaws0.
  intros Hbn Hc Hwf. destruct o as [now m a|now m a|m|]; simpl in *.
  - destruct (entry_or_seed now m s Hwf) as (p & b & Hp & Hb & Ea & Ep & Eb).
    unfold addPending. rewrite Ep, Eb. destruct (bn_of_string_dec p Hp) as (q & -> & Hq). simpl.
    rewrite bn_toString_val, bn_add_val, Hq, Hbn.
    destruct (set_wf m (p + a) b (created (default (seed now) (getPendingSwap m s)))
                (extra (default (seed now) (getPendingSwap m s))) s Hwf ltac:(lia) Hb) as [H1 H2].
    eexists. split; [done|]. split; [exact H1|]. intros k. rewrite H2.
    case_decide; subst; [by rewrite Ea|done].
  - destruct (addBotReceived_spec now m (bn a) s) as (t & s' & -> & H1 & H2); [by rewrite Hbn|done|].
    simpl. exists s'. split; [done|]. split; [done|]. intros k. by rewrite H2, Hbn.
  - eexists. split; [done|]. destruct Hwf as [Hd Hwf]. split; [split; [by apply wf_jdel|]|].
    + intros k e. unfold getPendingSwap, deletePendingSwap. rewrite Store.lookup_delete_ by done.
      case_decide; [done|apply Hwf].
    + intros k. unfold amountsOf, getPendingSwap, deletePendingSwap. rewrite Store.lookup_delete_ by done.
      repeat case_decide; try congruence.
  - eexists. split; [done|]. split; [split; [apply wf_nil|done]|done].
Qed.

Fixpoint run (bn : Z -> BN) (os : list op) (s : pstore) : outcome pstore :=
  match os with
  | [] => Ret s
  | o :: os' => let! s' := exec bn o s in run bn os' s'
  end.

(** Pending swaps never lose a credit.  Any sequence of credits, deletions
    and clears runs without an exception, and the two totals of every mint are
    exactly those of the specification: a mint's credits since it was last
    dropped, with the other mints untouched by each step. *)
Theorem pending_swaps_refine bn os s :
  (forall z, bn_val (bn z) = z) -> Forall credit os -> wf_pending s ->
  exists s', run bn os s = Ret s'
    /\ forall k, amountsOf k s' = foldl (fun f o => spec o f) (fun k => amountsOf k s) os k.
Proof using BNLaws0.
  intros Hbn Hos. revert s. induction Hos as [|o os Ho _ IH]; intros s Hs; simpl; [by exists s|].
  destruct (exec_spec bn o s Hbn Ho Hs) as (s1 & -> & Hs1 & Ha). simpl.
  destruct (IH s1 Hs1) as (s2 & H2 & Ha2). exists s2. split; [done|]. intros k. rewrite Ha2.
  assert (forall os f g, (forall k, f k = g k) ->
            forall k, foldl (fun f o => spec o f) f os k = foldl (fun f o => spec o f) g os k) as Hext.
  { clear. intros os. induction os as [|o os IH]; intros f g H k; simpl; [done|].
    apply IH. intros k'. destruct o; simpl; try case_decide; by rewrite ?H. }
  by apply Hext.
Qed.

End PendingSwaps.

Definition demo_ops : list op :=
  [AddPending 1 "A" 100; AddBotReceived 2 "B" 7; AddPending 3 "A" 50; DeletePending "B"].

Lemma new_wf : wf_pending Store.new.
Proof. split; [apply wf_nil|done]. Qed.

Lemma pending_swaps_refine_witness :
  exists s', run (L := Z_BN) (fun z => z) demo_ops Store.new = Ret s'
    /\ forall k, amountsOf k s'
         = foldl (fun f o => spec o f) (fun k => amountsOf k Store.new) demo_ops k.
Proof.
  refine (pending_swaps_refine (L := Z_BN) (BNLaws0 := Z_BN_laws) (fun z => z) demo_ops Store.new
            (fun z => eq_refl) _ new_wf).
  repeat constructor; simpl; lia.
Defined.

(** The store after [demo_ops]: 150 base units of A, nothing of B. *)
Example pending_demo :
  (let! s := run (L := Z_BN) (fun z => z) demo_ops Store.new in Ret (amountsOf "A" s, amountsOf "B" s))
  = Ret ((150, 0), (0, 0)).
Proof. vm_compute. reflexivity. Qed.

End PendingSwaps.

(** ** Opened referers *)

Module OpenedReferers.

Record OpenedRefererEntry := mkReferer {
  targetNft : string; ourNft : string; targetWallet : string; openedAt : Z;
}.

Abbreviation rstore := (Store.store OpenedRefererEntry).

Definition countOpenedReferers (s : rstore) : nat := length (Store.data s).
Definition getOpenedReferer (refererPosition : string) (s : rstore) : option OpenedRefererEntry :=
  Store.lookup refererPosition s.
Definition allOpenedReferers (s : rstore) : list (string * OpenedRefererEntry) := Store.data s.

Definition addOpenedReferer (now : Z) (refererPosition targetNft ourNft targetWallet : string) (s : rstore)
  : rstore :=
  Store.do (Store.MSet refererPosition (mkReferer targetNft ourNft targetWallet now)) s.

(** The first entry of the target NFT is dropped. *)
Definition removeOpenedRefererByTargetNft (nft : string) (s : rstore) : rstore * bool :=
  match find_first (fun re => bool_decide (targetNft re.2 = nft)) (Store.data s) with
  | Some (r, _) => (Store.do (Store.MDelete r) s, true)
  | None => (s, false)
  end.

(** *** The duplicate decision *)

Record DupConfig := mkDup {
  allowSameWalletReopen : bool;
  allowOpenedByWallets : list string;
  allowOpenAfterOthersWallets : list string;
}.

(** [None] is a [targetWallet] that is not a string. *)
Definition shouldIgnoreRefererBlocker (c : DupConfig) (blockerTargetWallet : option string)
    (candidateTargetWallet : string) : bool :=
  let blocker := match blockerTargetWallet with Some b => trim b | None => ""%string end in
  let candidate := trim candidateTargetWallet in
  (0 <? String.length blocker)%nat && (0 <? String.length candidate)%nat
  && negb (bool_decide (blocker = candidate))
  && (shas blocker (allowOpenedByWallets c) || shas candidate (allowOpenAfterOthersWallets c)).

Definition isRefererDuplicateEntry (c : DupConfig) (entry : option (option string))
    (candidateTargetWallet : string) : bool :=
  match entry with
  | None => false
  | Some blocker =>
      if allowSameWalletReopen c && bool_decide (blocker = Some candidateTargetWallet) then false
      else if shouldIgnoreRefererBlocker c blocker candidateTargetWallet then false
      else true
  end.

(** [ByrealPositionExecutor.isRefererDuplicate] *)
Definition isRefererDuplicate (c : DupConfig) (s : rstore) (refererPosition : option string)
    (wallet : string) : bool :=
  if negb (truthy refererPosition) then false
  else isRefererDuplicateEntry c
         ((fun e => Some (targetWallet e)) <$> (refererPosition ≫= fun r => getOpenedReferer r s)) wallet.

(** *** Wallet sets of the configuration *)

Definition parseWalletSet (raw : string) : list string :=
  set_of (keep truthy (map trim (split_on "," raw))).

Definition serializeWalletSet (wallets : list string) : string := join "," wallets.

(** [None] is an input that is not an array. *)
Definition normalizeByrealAllowSameTickWallets (inputWallets : option (list string))
    (byrealTargetWallets : list string) : list string :=
  let targetSet := set_of (keep truthy (map trim byrealTargetWallets)) in
  match inputWallets with
  | None => []
  | Some ws => set_of (keep (fun a => shas a targetSet) (map trim ws))
  end.

(** *** A referer blocks until it is released *)

Inductive op :=
| Add (now : Z) (r nft our w : string)
| Remove (nft : string).

Definition exec (o : op) (s : rstore) : rstore :=
  match o with
  | Add now r nft our w => addOpenedReferer now r nft our w s
  | Remove nft => (removeOpenedRefererByTargetNft nft s).1
  end.

(** The operation neither records [r] again nor releases [nft]. *)
Definition keeps (r nft : string) (o : op) : Prop :=
  match o with Add _ r' _ _ _ => r' <> r | Remove nft' => nft' <> nft end.

(** The candidate is exempt from the duplicate rule for this opener. *)
Definition exempt (c : DupConfig) (opener candidate : string) : Prop :=
  (allowSameWalletReopen c = true /\ opener = candidate)
  \/ shouldIgnoreRefererBlocker c (Some opener) candidate = true.

Lemma exec_wf o s : wf_map (Store.data s) -> wf_map (Store.data (exec o s)).
Proof.
  intros H. destruct o; simpl; [by apply wf_jset|].
  unfold removeOpenedRefererByTargetNft. destruct (find_first _ _) as [[r e]|]; [by apply wf_jdel|done].
Qed.

Lemma keeps_entry o r e s :
  wf_map (Store.data s) -> keeps r (targetNft e) o ->
  getOpenedReferer r s = Some e -> getOpenedReferer r (exec o s) = Some e.
Proof.
  intros Hwf Hk He. destruct o as [now r' nft our w|nft]; simpl in *.
  - unfold getOpenedReferer, addOpenedReferer. rewrite Store.lookup_set. by rewrite decide_False.
  - unfold removeOpenedRefererByTargetNft.
    destruct (find_first _ _) as [[r' e']|] eqn:Ef; [|done].
    apply find_first_Some in Ef as [Hin Hn]. simpl in Hn. boolP.
    unfold getOpenedReferer. simpl. rewrite Store.lookup_delete_ by done. rewrite decide_False; [done|].
    intros ->. apply elem_jget in Hin; [|done].
    unfold getOpenedReferer, Store.lookup in He. congruence.
Qed.

Lemma isRefererDuplicate_entry c s r e w :
  r <> ""%string -> getOpenedReferer r s = Some e ->
  (isRefererDuplicate c s (Some r) w = true <-> ~ exempt c (targetWallet e) w).
Proof.
  intros Hr He. unfold isRefererDuplicate, exempt.
  replace (truthy (Some r)) with true by (by destruct r). simpl. rewrite He. simpl.
  destruct (allowSameWalletReopen c); simpl.
  - case_bool_decide as E; [injection E as ->; naive_solver|].
    destruct (shouldIgnoreRefererBlocker _ _ _); naive_solver.
  - destruct (shouldIgnoreRefererBlocker _ _ _); naive_solver.
Qed.

(** Once a referer is recorded as opened, every later open under it by a
    wallet that is not exempt is a duplicate, through any number of other
    records and releases, until the target NFT it was opened for is released;
    then, if the referer was the only one recorded for that NFT, no wallet is
    blocked by it any more. *)
Theorem referer_blocks_until_released c s now r nft our w os w' :
  wf_map (Store.data s) -> r <> ""%string -> Forall (keeps r nft) os ->
  let s' := foldl (fun s o => exec o s) (addOpenedReferer now r nft our w s) os in
  (isRefererDuplicate c s' (Some r) w' = true <-> ~ exempt c w w')
  /\ ((forall r' e, getOpenedReferer r' s' = Some e -> targetNft e = nft -> r' = r) ->
      isRefererDuplicate c (exec (Remove nft) s') (Some r) w' = false).
Proof.
  intros Hwf Hr Hos s'. set (e := mkReferer nft our w now).
  assert (wf_map (Store.data s') /\ getOpenedReferer r s' = Some e) as [Hwf' He].
  { subst s'. assert (getOpenedReferer r (addOpenedReferer now r nft our w s) = Some e) as H0.
    { unfold getOpenedReferer, addOpenedReferer. rewrite Store.lookup_set. by rewrite decide_True. }
    assert (wf_map (Store.data (addOpenedReferer now r nft our w s))) as H1 by by apply wf_jset.
    revert H0 H1. generalize (addOpenedReferer now r nft our w s).
    induction Hos as [|o os Ho _ IH]; intros s0 H0 H1; simpl; [done|].
    apply IH; [by apply keeps_entry|by apply exec_wf]. }
  split; [exact (isRefererDuplicate_entry c s' r e w' Hr He)|].
  intros Honly. simpl. unfold removeOpenedRefererByTargetNft.
  destruct (find_first _ _) as [[r' e']|] eqn:Ef.
  - apply find_first_Some in Ef as [Hin Hn]. simpl in Hn. boolP.
    apply elem_jget in Hin; [|done]. rewrite (Honly r' e' Hin Hn) in *. simpl.
    unfold isRefererDuplicate. destruct (truthy (Some r)); [|done]. simpl.
    unfold getOpenedReferer. rewrite Store.lookup_delete_ by done. by rewrite decide_True.
  - rewrite find_first_None in Ef. apply jget_Some_elem in He. apply Ef in He. simpl in He. by boolP.
Qed.

Definition demo_dup : DupConfig := mkDup false ["W2"%string] [].

Lemma referer_blocks_until_released_witness :
  let s' := foldl (fun s o => exec o s) (addOpenedReferer 1 "R" "N" "O" "W1" Store.new)
              [Add 2 "R2" "N2" "O2" "W2"; Remove "N2"] in
  (isRefererDuplicate demo_dup s' (Some "R"%string) "W3" = true <-> ~ exempt demo_dup "W1" "W3")
  /\ isRefererDuplicate demo_dup s' (Some "R"%string) "W3" = true.
Proof.
  intros s'. split; [|reflexivity].
  refine (proj1 (referer_blocks_until_released demo_dup Store.new 1 "R" "N" "O" "W1"
    [Add 2 "R2" "N2" "O2" "W2"; Remove "N2"] "W3" wf_nil _ _)); [done|].
  repeat constructor; done.
Defined.

(** *** Wallet sets survive the environment file *)

(** An address as the configuration stores it. *)
Definition plain (w : string) : Prop :=
  w <> ""%string /\ trim w = w /\ all_chars (fun c => negb (bool_decide (c = ","%char))) w = true.

Lemma parse_join ws : Forall plain ws -> keep truthy (map trim (split_on "," (join "," ws))) = ws.
Proof.
  intros H. unfold join. destruct H as [|w ws Hw Hws]; [done|].
  rewrite split_join; [|by apply Hw|eapply List.Forall_impl; [|exact Hws]; intros x Hx; apply Hx].
  assert (Forall plain (w :: ws)) as H by by constructor. clear Hw Hws.
  induction H as [|x xs (Hne & Ht & _) _ IH]; [done|]. cbn [map]. unfold keep in *. cbn.
  rewrite Ht. replace (truthy x) with true by by destruct x. by rewrite IH.
Qed.

(** A set of wallet addresses survives its trip through the environment
    file: parsing the serialised set gives the same wallets in the same
    order. *)
Theorem wallet_set_round_trip ws :
  NoDup ws -> Forall plain ws -> parseWalletSet (serializeWalletSet ws) = ws.
Proof.
  intros Hnd H. unfold parseWalletSet, serializeWalletSet. rewrite parse_join by done.
  by apply set_of_NoDup.
Qed.

Lemma wallet_set_round_trip_witness :
  parseWalletSet (serializeWalletSet ["Wa"%string; "Wb"%string]) = ["Wa"%string; "Wb"%string].
Proof.
  apply wallet_set_round_trip; [apply (bool_decide_unpack _); vm_compute; done|].
  repeat constructor; done.
Defined.

End OpenedReferers.
