(* ===== verification/Risk.v ===== *)
(** * Token risk rules ([src/executor/byreal-position.ts], risk management;
      [src/state/token-pnl-store.ts])

    The consecutive-loss cooldown and the blacklist of the Byreal executor, with
    the realised PnL each close records.  [parseInt] of the configuration can
    give NaN, [None] here; a cooldown deadline computed from it is NaN too.
    The blacklist check of the PancakeSwap executor is the same code with its
    own "skip SOL" switch. *)

From Stdlib Require Import Ascii.
From S2P Require Import Prelude JsMap JsString JsNumber WriteChain Store.
Open Scope Z_scope.
Open Scope list_scope.

Module Risk.

(** ** Realised PnL per token *)

Record TokenPnlPayload := mkPnl {
  totalPnl : num; tradeCount : Z; lastLossPnl : num; lastTradeAt : Z;
}.

Abbreviation pnlstore := (Store.store TokenPnlPayload).

Definition countTokenPnl (s : pnlstore) : nat := length (Store.data s).
Definition getTokenPnl (mint : string) (s : pnlstore) : option TokenPnlPayload := Store.lookup mint s.
Definition allTokenPnl (s : pnlstore) : list (string * TokenPnlPayload) := Store.data s.
Definition setTokenPnl (mint : string) (payload : TokenPnlPayload) (s : pnlstore) : pnlstore :=
  Store.do (Store.MSet mint payload) s.

(** ** State and configuration *)

Record config := mkConfig {
  tokenLossStreakLimit : option Z;
  tokenCooldownMinutes : option Z;
  tokenWhitelist : list string;
  tokenBlacklist : list string;
  skipSol : bool;
}.

Record state := mkState {
  tokenLossStreak : list (string * Z);
  tokenCooldowns : list (string * option Z);   (** [None] is NaN *)
  pnl : pnlstore;
}.

Definition SOL : string := "So11111111111111111111111111111111111111112".
Definition USDC : string := "EPjFWdd5AufqSSqeM2qN1xzybapC8G4wEGGkZwyTDt1v".

(** The side of "mintA/mintB" that is neither SOL nor USDC. *)
Definition extractToken (pool : string) : string :=
  match split_on "/" pool with
  | [a; b] => if bool_decide (a = SOL) || bool_decide (a = USDC) then b else a
  | _ => pool
  end.

(** Whether the token of the pool is cooling down; an expired cooldown is
    dropped together with the streak. *)
Definition isTokenCoolingDown (now : Z) (pool : string) (s : state) : bool * state :=
  if negb (truthy pool) then (false, s) else
  let token := extractToken pool in
  match jget token (tokenCooldowns s) with
  | Some (Some until) =>
      if until =? 0 then (false, s)
      else if until <=? now then
        (false, mkState (jdel token (tokenLossStreak s)) (jdel token (tokenCooldowns s)) (pnl s))
      else (true, s)
  | _ => (false, s)
  end.

Definition lost (pnlUsd : num) : bool := nlt pnlUsd (num_of_Z 0).

Definition streakOf (token : string) (s : state) : Z := default 0 (jget token (tokenLossStreak s)).

Definition recordTokenPnl (c : config) (now : Z) (pool : string) (pnlUsd : num) (s : state) : state :=
  if negb (truthy pool) then s else
  let token := extractToken pool in
  let '(losses, cooldowns) :=
    if lost pnlUsd then
      let streak := streakOf token s + 1 in
      (jset token streak (tokenLossStreak s),
       match tokenLossStreakLimit c with
       | Some limit =>
           if (limit <=? streak) && (0 <? limit) then
             if shas token (tokenWhitelist c) then tokenCooldowns s
             else jset token ((fun m => now + m * 60 * 1000) <$> tokenCooldownMinutes c) (tokenCooldowns s)
           else tokenCooldowns s
       | None => tokenCooldowns s
       end)
    else (jset token 0 (tokenLossStreak s), jdel token (tokenCooldowns s)) in
  let rec := default (mkPnl (num_of_Z 0) 0 (num_of_Z 0) 0) (getTokenPnl token (pnl s)) in
  let orZero (x : num) := if truthy x then x else num_of_Z 0 in
  mkState losses cooldowns
    (setTokenPnl token
      (mkPnl (nadd (orZero (totalPnl rec)) pnlUsd) (tradeCount rec + 1)
         (if lost pnlUsd then pnlUsd else lastLossPnl rec) now) (pnl s)).

Definition isTokenBlacklisted (c : config) (pool : string) : bool :=
  if negb (truthy pool) then false else
  match split_on "/" pool with
  | [a; b] =>
      if skipSol c && (bool_decide (a = SOL) || bool_decide (b = SOL)) then true
      else shas a (tokenBlacklist c) || shas b (tokenBlacklist c)
  | _ => shas pool (tokenBlacklist c)
  end.

(** ** The cooldown as a state machine *)

Inductive ev := Record_ (now : Z) (pool : string) (pnlUsd : num) | Query (now : Z) (pool : string).

Definition exec (c : config) (s : state) (e : ev) : state :=
  match e with
  | Record_ now pool x => recordTokenPnl c now pool x s
  | Query now pool => (isTokenCoolingDown now pool s).2
  end.

Definition wf (s : state) : Prop := wf_map (tokenLossStreak s) /\ wf_map (tokenCooldowns s).

Definition fresh : state := mkState [] [] Store.new.

(** The two cells of a token. *)
Definition cells (tk : string) (s : state) : Z * option (option Z) :=
  (streakOf tk s, jget tk (tokenCooldowns s)).

Definition of_token (tk : string) (e : ev) : bool :=
  match e with Record_ _ p _ | Query _ p => truthy p && bool_decide (extractToken p = tk) end.

Lemma exec_keeps_wf c s e : wf s -> wf (exec c s e).
Proof.
  intros [H1 H2]. destruct e as [now p x|now p]; unfold exec, recordTokenPnl, isTokenCoolingDown.
  - destruct (truthy p); simpl; [|done].
    destruct (lost x); [|split; simpl; eauto with copybot].
    repeat case_match; split; simpl; eauto with copybot.
  - repeat case_match; split; simpl; eauto with copybot.
Qed.

(** Events of other tokens leave a token's cells alone. *)
Lemma exec_other c tk s e : wf s -> of_token tk e = false -> cells tk (exec c s e) = cells tk s.
Proof.
  intros [H1 H2]. destruct e as [now p x|now p]; simpl.
  - unfold recordTokenPnl. destruct (truthy p); simpl; [|done]. intros Hne. boolP.
    unfold cells, streakOf. destruct (lost x); simpl.
    + rewrite jget_jset_ne by done. f_equal.
      repeat case_match; try done. by rewrite jget_jset_ne.
    + by rewrite jget_jset_ne, jget_jdel_ne.
  - unfold isTokenCoolingDown. destruct (truthy p); simpl; [|done]. intros Hne. boolP.
    unfold cells, streakOf. repeat case_match; simpl; try done. by rewrite !jget_jdel_ne.
Qed.

(** What a loss of the token does to its cells. *)
Definition loss_cells (c : config) (tk : string) (now : Z) (st : Z * option (option Z)) : Z * option (option Z) :=
  (st.1 + 1,
   match tokenLossStreakLimit c with
   | Some limit =>
       if (limit <=? st.1 + 1) && (0 <? limit) && negb (shas tk (tokenWhitelist c))
       then Some ((fun m => now + m * 60 * 1000) <$> tokenCooldownMinutes c) else st.2
   | None => st.2
   end).

Lemma exec_loss c tk s now p x :
  truthy p = true -> extractToken p = tk -> lost x = true ->
  cells tk (exec c s (Record_ now p x)) = loss_cells c tk now (cells tk s).
Proof.
  intros Hp <- Hx. simpl. unfold recordTokenPnl. rewrite Hp, Hx. simpl.
  unfold cells, loss_cells, streakOf. simpl. rewrite jget_jset. simpl. f_equal.
  destruct (tokenLossStreakLimit c) as [limit|]; [|done].
  destruct ((limit <=? _) && (0 <? limit)); simpl; [|done].
  destruct (shas _ _); simpl; [done|]. by rewrite jget_jset.
Qed.

(** The times at which the token lost, oldest first, over a list of records. *)
Fixpoint loss_times (tk : string) (es : list ev) : list Z :=
  match es with
  | [] => []
  | Record_ now p _ :: es' => if of_token tk (Record_ now p NaN) then now :: loss_times tk es' else loss_times tk es'
  | Query _ _ :: es' => loss_times tk es'
  end.

(** Every event of the token is the record of a loss. *)
Definition only_losses (tk : string) (e : ev) : Prop :=
  of_token tk e = true -> match e with Record_ _ _ x => lost x = true | Query _ _ => False end.

Lemma losses_cells c tk es s :
  wf s -> Forall (only_losses tk) es ->
  cells tk (foldl (exec c) s es) = foldl (fun st now => loss_cells c tk now st) (cells tk s) (loss_times tk es).
Proof.
  intros Hs Hes. revert s Hs. induction Hes as [|e es He _ IH]; intros s Hs; simpl; [done|].
  rewrite IH by by apply exec_keeps_wf.
  destruct (of_token tk e) eqn:E.
  - specialize (He E). destruct e as [now p x|now p]; [|done]. simpl in E. cbn [loss_times of_token].
    rewrite E. apply andb_true_iff in E as [Hp Ht]. boolP.
    by rewrite (exec_loss c tk s now p x Hp Ht He).
  - rewrite exec_other by done. destruct e as [now p x|now p]; simpl in *; [by rewrite E|done].
Qed.

Lemma losses_from_zero c tk limit m ts k cd :
  tokenLossStreakLimit c = Some limit -> tokenCooldownMinutes c = Some m -> 0 < limit ->
  shas tk (tokenWhitelist c) = false -> 0 <= k -> (k < limit -> cd = None) ->
  let r := foldl (fun st now => loss_cells c tk now st) (k, cd) ts in
  r.1 = k + Z.of_nat (length ts)
  /\ (r.1 < limit -> r.2 = None)
  /\ forall t ts', ts = ts' ++ [t] -> limit <= r.1 -> r.2 = Some (Some (t + m * 60 * 1000)).
Proof.
  intros Hl Hm Hpos Hw. revert k cd. induction ts as [|t ts IH] using rev_ind; intros k cd Hk Hcd; simpl.
  - split_and!; [lia|done|]. intros t ts' E. by destruct ts'.
  - rewrite foldl_app. simpl. destruct (IH k cd Hk Hcd) as (H1 & H2 & _).
    revert H1 H2. generalize (foldl (fun st now => loss_cells c tk now st) (k, cd) ts). intros r H1 H2.
    unfold loss_cells. rewrite Hl, Hm, Hw, length_app. simpl. split_and!; [lia| |].
    + intros Hlt. replace (limit <=? _) with false by (symmetry; apply Z.leb_gt; lia). simpl. apply H2. lia.
    + intros t0 ts0 E Hle. apply app_inj_tail in E as [_ <-].
      replace (limit <=? _) with true by (symmetry; apply Z.leb_le; lia).
      by replace (0 <? limit) with true by (symmetry; apply Z.ltb_lt; lia).
Qed.

(** The consecutive-loss cooldown.  Let a token start with no streak and no
    cooldown and let every record of it be a loss, [n] of them, interleaved in
    any way with the records and queries of other tokens.  Asked at [now]
    about any pool of the token, the bot answers "cooling down" exactly when
    [n] has come up to the limit and [now] is within the cooldown counted
    from the last loss; below the limit it never blocks. *)
Theorem cooldown_after_losing_streak c tk es limit m pool now :
  tokenLossStreakLimit c = Some limit -> 0 < limit -> tokenCooldownMinutes c = Some m ->
  shas tk (tokenWhitelist c) = false ->
  Forall (only_losses tk) es -> truthy pool = true -> extractToken pool = tk ->
  Forall (fun t => 0 < t + m * 60 * 1000) (loss_times tk es) ->
  let n := Z.of_nat (length (loss_times tk es)) in
  (isTokenCoolingDown now pool (foldl (exec c) fresh es)).1 = true
  <-> limit <= n /\ exists t, list.last (loss_times tk es) = Some t /\ now < t + m * 60 * 1000.
Proof.
  intros Hl Hpos Hm Hw Hes Hp Ht Hts n.
  pose proof (losses_cells c tk es fresh (conj wf_nil wf_nil) Hes) as Hc.
  change (cells tk fresh) with (0, @None (option Z)) in Hc.
  destruct (losses_from_zero c tk limit m (loss_times tk es) 0 None Hl Hm Hpos Hw ltac:(lia) ltac:(done))
    as (H1 & H2 & H3).
  rewrite <- Hc in H1, H2, H3. unfold isTokenCoolingDown. rewrite Hp, Ht. simpl.
  unfold cells in H1, H2, H3. simpl in H1, H2, H3. rewrite H1 in H2, H3.
  destruct (loss_times tk es) as [|t ts _] eqn:Els using rev_ind.
  - simpl in *. rewrite H2 by lia. split; [done|]. intros [H _]. subst n. simpl in H. lia.
  - rewrite list.last_snoc. apply list.Forall_app in Hts as [_ Ht0].
    apply list.Forall_cons in Ht0 as [Ht0 _].
    destruct (Z.le_gt_cases limit n) as [Hle|Hgt].
    + rewrite (H3 _ _ eq_refl) by lia. 
      replace (t + m * 60 * 1000 =? 0) with false by (symmetry; apply Z.eqb_neq; lia).
      case_match; boolP; simpl; split; try done.
      * intros (_ & t1 & [= <-] & Hlt). lia.
      * intros _. split; [done|]. eexists. split; [done|lia].
    + rewrite H2 by lia. split; [done|]. lia.
Qed.

(** A whitelisted token never cools down, whatever it loses. *)
Theorem whitelisted_never_cools c es pool now :
  shas (extractToken pool) (tokenWhitelist c) = true ->
  (isTokenCoolingDown now pool (foldl (exec c) fresh es)).1 = false.
Proof.
  intros Hw. set (tk := extractToken pool) in *.
  assert (forall s, wf s -> jget tk (tokenCooldowns s) = None ->
            jget tk (tokenCooldowns (foldl (exec c) s es)) = None) as H.
  { induction es as [|e es IH]; intros s Hs Hn; simpl; [done|]. apply IH; [by apply exec_keeps_wf|].
    destruct (of_token tk e) eqn:Ee.
    - destruct e as [now' p x|now' p]; simpl in *; apply andb_true_iff in Ee as [Hp Ht]; boolP.
      + unfold recordTokenPnl. rewrite Hp, Ht. simpl. destruct (lost x); simpl.
        * rewrite Hw. by repeat case_match.
        * by apply jget_jdel, Hs.
      + unfold isTokenCoolingDown. by rewrite Hp, Ht, Hn.
    - pose proof (exec_other c tk s e Hs Ee) as E. unfold cells in E. congruence. }
  unfold isTokenCoolingDown. destruct (truthy pool); simpl; [|done]. fold tk.
  by rewrite (H fresh (conj wf_nil wf_nil) eq_refl).
Qed.

(** The accumulated PnL counts every record of a token. *)
Lemma recordTokenPnl_count c now pool x s :
  truthy pool = true ->
  tradeCount <$> getTokenPnl (extractToken pool) (pnl (recordTokenPnl c now pool x s))
  = Some (default 0 (tradeCount <$> getTokenPnl (extractToken pool) (pnl s)) + 1).
Proof.
  intros Hp. unfold recordTokenPnl. rewrite Hp. simpl.
  destruct (lost x); simpl; unfold getTokenPnl, setTokenPnl; rewrite Store.lookup_set, decide_True by done;
    simpl; by destruct (Store.lookup _ (pnl s)).
Qed.

(** ** Concrete runs *)

Definition demo : config := mkConfig (Some 2) (Some 60) ["W"%string] [] true.
Definition loss : num := nopp (num_of_Z 5).

Lemma cooldown_after_losing_streak_witness :
  let es := [Record_ 100 "A/B" loss; Record_ 150 "C/D" (num_of_Z 3); Record_ 200 "A/B" loss] in
  ((isTokenCoolingDown 3600199 "A/B" (foldl (exec demo) fresh es)).1 = true
   <-> 2 <= 2 /\ exists t, Some 200 = Some t /\ 3600199 < t + 60 * 60 * 1000)
  /\ (isTokenCoolingDown 3600199 "A/B" (foldl (exec demo) fresh es)).1 = true
  /\ (isTokenCoolingDown 3600200 "A/B" (foldl (exec demo) fresh es)).1 = false.
Proof.
  intros es. split; [|split; vm_compute; reflexivity].
  refine (cooldown_after_losing_streak demo "A" es 2 60 "A/B" 3600199 eq_refl _ eq_refl eq_refl _ eq_refl eq_refl _);
    [lia| |].
  - repeat constructor; vm_compute; try done; intros H; discriminate H.
  - vm_compute. repeat constructor.
Defined.

Lemma whitelisted_never_cools_witness :
  (isTokenCoolingDown 1 "W/B" (foldl (exec demo) fresh [Record_ 0 "W/B" loss; Record_ 0 "W/B" loss])).1 = false.
Proof. apply whitelisted_never_cools. reflexivity. Defined.

End Risk.
