(* ===== verification/PumpPending.v ===== *)
(** * New tokens awaiting approval ([src/state/pump-pending.ts])

    The first pump.fun token of a pool is copied only once it has been approved;
    until then it is held as pending, and after an hour it is rejected.  An entry is an object
    that the pending map and the suspended activations of [pollApprovals]
    share, so the model has a heap of entries ([heap], a reference is an index)
    and [pendingMap] holds references.  [pollApprovals] is split at its
    [await]s: [PollStart] and [PollResume] run it to the next one, and anything
    may happen in between, another activation included.

    Also here: the statements of [src/state/repo/pumpPending.ts] the module
    uses, and the approval gate of [copyOpenPosition] in
    [src/executor/byreal-position.ts]. *)

From Stdlib Require Import Ascii.
From S2P Require Import Prelude JsMap JsString JsNumber WriteChain Store.
Open Scope Z_scope.
Open Scope list_scope.

Module PumpPending.

Inductive PumpStatus := Pending | Approved | Rejected.

#[export] Instance PumpStatus_eq_dec : EqDecision PumpStatus.
Proof. solve_decision. Defined.

Record PumpPendingEntry := mkEntry {
  mint : string; symbol : string; pool : string; targetWallet : string;
  detectedAt : Z; status : PumpStatus; notifiedAt : option Z; resolvedAt : option Z;
}.

#[export] Instance PumpPendingEntry_eq_dec : EqDecision PumpPendingEntry.
Proof. solve_decision. Defined.

Definition EXPIRY_MS : Z := 60 * 60 * 1000.

(** The argument of [addPumpPending]; no caller passes [resolvedAt]. *)
Record Detected := mkDetected {
  d_mint : string; d_symbol : string; d_pool : string; d_wallet : string;
  d_detectedAt : Z; d_notifiedAt : option Z;
}.

Definition pending_entry (d : Detected) : PumpPendingEntry :=
  mkEntry (d_mint d) (d_symbol d) (d_pool d) (d_wallet d) (d_detectedAt d) Pending (d_notifiedAt d) None.

(** [entry.status = st; entry.resolvedAt = now] *)
Definition decide_entry (st : PumpStatus) (now : Z) (e : PumpPendingEntry) : PumpPendingEntry :=
  mkEntry (mint e) (symbol e) (pool e) (targetWallet e) (detectedAt e) st (notifiedAt e) (Some now).

(** ** State *)

Abbreviation Table := (gmap string PumpPendingEntry).

Record state := mk {
  heap : list PumpPendingEntry;
  pendingMap : list (string * nat);
  tokenBlacklist : list string;
  tokenWhitelist : list string;
  chain : WriteChain.WChain (T := Table);
}.

Definition lookup (m : string) (s : state) : option PumpPendingEntry :=
  jget m (pendingMap s) ≫= fun r => heap s !! r.

(** Fresh objects for the rows, keyed by their mints. *)
Definition initPumpPending (rows : list PumpPendingEntry) (s : state) : state :=
  mk (heap s ++ rows)
    (jmap_of (imap (fun i e => (mint e, (length (heap s) + i)%nat)) rows))
    (tokenBlacklist s) (tokenWhitelist s) (WriteChain.enable (chain s)).

Definition isPumpPending (now : Z) (m : string) (s : state) : bool :=
  match lookup m s with
  | Some e => bool_decide (status e = Pending) && negb (EXPIRY_MS <? now - detectedAt e)
  | None => false
  end.

Definition isPumpApproved (m : string) (s : state) : bool := bool_decide (status <$> lookup m s = Some Approved).
Definition isPumpRejected (m : string) (s : state) : bool := bool_decide (status <$> lookup m s = Some Rejected).

Definition addPumpPending (d : Detected) (s : state) : state :=
  mk (heap s ++ [pending_entry d]) (jset (d_mint d) (length (heap s)) (pendingMap s))
    (tokenBlacklist s) (tokenWhitelist s)
    (WriteChain.push (Store.in_table (Store.MSet (d_mint d) (pending_entry d))) (chain s)).

(** The symbol cache and the [.env] file, both best effort, are left out. *)
Definition resolvePump (now : Z) (m : string) (st : PumpStatus) (s : state) : state :=
  match jget m (pendingMap s) with
  | None => s
  | Some r =>
      mk (alter (decide_entry st now) r (heap s)) (pendingMap s)
        (if decide (st = Rejected) then sadd m (tokenBlacklist s) else tokenBlacklist s)
        (if decide (st = Rejected) then sdel m (tokenWhitelist s) else tokenWhitelist s)
        (WriteChain.push (Store.in_table (Store.MUpdate m (decide_entry st now))) (chain s))
  end.

Definition deletePumpEntry (m : string) (s : state) : state :=
  mk (heap s) (jdel m (pendingMap s)) (tokenBlacklist s) (tokenWhitelist s)
    (WriteChain.push (Store.in_table (Store.MDelete m)) (chain s)).

Definition getPumpPendingList (s : state) : list PumpPendingEntry :=
  omap (fun mr => heap s !! mr.2) (pendingMap s).

(** ** [pollApprovals] *)

(** An entry of the answer: its status text and timestamp (0 is absent). *)
Record KvResult := mkKv { kv_status : string; kv_timestamp : Z }.

Inductive Poll :=
| Expiring (now : Z) (rest : list (string * nat))   (** awaits [notifyPumpExpired] *)
| Fetching                                          (** awaits the answer *)
| Applying (rest : list (string * KvResult))        (** awaits the DELETE *)
| Finished.

Definition is_expired (now : Z) (e : PumpPendingEntry) : bool :=
  bool_decide (status e = Pending) && (EXPIRY_MS <? now - detectedAt e).

(** After the loop: fetch when something is pending. *)
Definition after_expiry (s : state) : Poll :=
  if some (fun e => bool_decide (status e = Pending)) (getPumpPendingList s) then Fetching else Finished.

(** The first loop up to its next [await]; [now] was read at the start,
    [clock] is the time of the decision. *)
Fixpoint expire (clock now : Z) (rest : list (string * nat)) (s : state) : state * Poll :=
  match rest with
  | [] => (s, after_expiry s)
  | (m, r) :: rest' =>
      match heap s !! r with
      | Some e =>
          if is_expired now e then (resolvePump clock m Rejected s, Expiring now rest')
          else expire clock now rest' s
      | None => expire clock now rest' s
      end
  end.

Definition kv_decision (k : KvResult) : option PumpStatus :=
  if bool_decide (kv_status k = "approved"%string) then Some Approved
  else if bool_decide (kv_status k = "rejected"%string) then Some Rejected else None.

(** The second loop up to its next [await]. *)
Fixpoint applyResults (clock : Z) (rest : list (string * KvResult)) (s : state) : state * Poll :=
  match rest with
  | [] => (s, Finished)
  | (m, k) :: rest' =>
      match lookup m s, kv_decision k with
      | Some e, Some st =>
          if bool_decide (status e = Pending)
             && negb (negb (kv_timestamp k =? 0) && (kv_timestamp k <? detectedAt e))
          then (resolvePump clock m st s, Applying rest')
          else applyResults clock rest' s
      | _, _ => applyResults clock rest' s
      end
  end.

(** [None]: no URL, a failed request or an answer that is not ok. *)
Definition resume (clock : Z) (answer : option (list (string * KvResult))) (p : Poll) (s : state)
  : state * Poll :=
  match p with
  | Expiring now rest => expire clock now rest s
  | Fetching => match answer with Some data => applyResults clock data s | None => (s, Finished) end
  | Applying rest => applyResults clock rest s
  | Finished => (s, Finished)
  end.

(** ** Interleavings *)

Inductive Event :=
| Add (d : Detected)
| Resolve (now : Z) (m : string) (st : PumpStatus)
| Delete (m : string)
| PollStart (now : Z)
| PollResume (i : nat) (clock : Z) (answer : option (list (string * KvResult)))
| Work.

Record World := mkWorld { st : state; polls : list Poll; table : Table }.

Definition event (att : WriteChain.Db) (w : World) (e : Event) : World :=
  match e with
  | Add d => mkWorld (addPumpPending d (st w)) (polls w) (table w)
  | Resolve now m x => mkWorld (resolvePump now m x (st w)) (polls w) (table w)
  | Delete m => mkWorld (deletePumpEntry m (st w)) (polls w) (table w)
  | PollStart now =>
      let (s, p) := expire now now (pendingMap (st w)) (st w) in mkWorld s (polls w ++ [p]) (table w)
  | PollResume i clock answer =>
      match polls w !! i with
      | Some p =>
          let (s, p') := resume clock answer p (st w) in mkWorld s (<[i := p']> (polls w)) (table w)
      | None => w
      end
  | Work =>
      let (c, tbl) := WriteChain.run_next att (chain (st w)) (table w) in
      mkWorld (mk (heap (st w)) (pendingMap (st w)) (tokenBlacklist (st w)) (tokenWhitelist (st w)) c)
        (polls w) tbl
  end.

(** ** The gate of [copyOpenPosition] *)

Inductive FilterMode := Off | Full | Discord.

Definition mentions_pump (m : string) : bool := includes (toLowerCase m) "pump".

(** The skip reason, or [None] to go on; [label] names the pool. *)
Definition pumpGateAt (label : string) (mode : FilterMode) (now : Z) (mintA mintB sym wallet : string) (s : state)
  : option string * state :=
  match mode with
  | Off => (None, s)
  | _ =>
      match (if mentions_pump mintA then Some mintA
             else if mentions_pump mintB then Some mintB else None) with
      | None => (None, s)
      | Some pumpMint =>
          if isPumpApproved pumpMint s then (None, s)
          else match mode with
               | Full => (Some "Pump 代幣過濾"%string, s)
               | _ =>
                   if isPumpRejected pumpMint s then (Some "Pump 代幣已拒絕"%string, s)
                   else (Some "Pump 代幣等待確認"%string,
                         if isPumpPending now pumpMint s then s
                         else addPumpPending
                                (mkDetected pumpMint sym label wallet now None) s)
               end
      end
  end.

Definition pumpGate (mode : FilterMode) (now : Z) (mintA mintB sym wallet : string) (s : state)
  : option string * state := pumpGateAt (mintA +:+ "/" +:+ mintB) mode now mintA mintB sym wallet s.

(** ** Memory *)

Definition new : state := mk [] [] [] [] (WriteChain.new_chain WriteChain.RETRY_DELAYS_MS).

(** Keys are distinct, and the entry of a key is an object that names it. *)
Definition wf (s : state) : Prop :=
  wf_map (pendingMap s)
  /\ forall m r, jget m (pendingMap s) = Some r -> exists e, heap s !! r = Some e /\ mint e = m.

Lemma lookup_ref m s r : jget m (pendingMap s) = Some r -> lookup m s = heap s !! r.
Proof. unfold lookup. by intros ->. Qed.

Lemma wf_ref_ne s m r m' r' :
  wf s -> jget m (pendingMap s) = Some r -> jget m' (pendingMap s) = Some r' -> m <> m' -> r <> r'.
Proof.
  intros [_ Hr] H1 H2 Hne ->. destruct (Hr _ _ H1) as (e & He & <-), (Hr _ _ H2) as (e' & He' & <-).
  congruence.
Qed.

Lemma lookup_add d m s :
  wf s -> lookup m (addPumpPending d s) = if decide (d_mint d = m) then Some (pending_entry d) else lookup m s.
Proof.
  intros [_ Hr]. unfold lookup, addPumpPending. simpl. case_decide as Hm.
  - subst m. rewrite jget_jset. simpl. by rewrite lookup_app_r, Nat.sub_diag.
  - rewrite jget_jset_ne by done. destruct (jget m (pendingMap s)) as [r|] eqn:E; [|done]. simpl.
    destruct (Hr m r E) as (e & He & _). rewrite He. by apply lookup_app_l_Some.
Qed.

Lemma add_wf d s : wf s -> wf (addPumpPending d s).
Proof.
  intros H. pose proof H as [Hm Hr]. split; [by apply wf_jset|]. intros m r. simpl.
  destruct (decide (d_mint d = m)) as [<-|Hne].
  - rewrite jget_jset. intros [= <-]. exists (pending_entry d). by rewrite lookup_app_r, Nat.sub_diag.
  - rewrite jget_jset_ne by done. intros (e & He & Hmint)%Hr. exists e. split; [|done].
    by apply lookup_app_l_Some.
Qed.

Lemma lookup_resolve clock m st k s :
  wf s -> lookup k (resolvePump clock m st s)
          = if decide (m = k) then decide_entry st clock <$> lookup k s else lookup k s.
Proof.
  intros H. unfold resolvePump. destruct (jget m (pendingMap s)) as [r|] eqn:E.
  - unfold lookup. simpl. case_decide as Hk; [subst k; rewrite E; simpl; apply list_lookup_alter_eq|].
    destruct (jget k (pendingMap s)) as [r'|] eqn:E'; [|done]. simpl.
    apply list_lookup_alter_ne. by apply (wf_ref_ne s m r k r').
  - case_decide; [|done]. subst k. unfold lookup. by rewrite E.
Qed.

Lemma resolve_wf clock m st s : wf s -> wf (resolvePump clock m st s).
Proof.
  unfold resolvePump. destruct (jget m (pendingMap s)) as [r|]; [|done]. intros [Hm Hr].
  split; [done|]. intros k r' (e & He & Hk)%Hr. simpl.
  destruct (decide (r = r')) as [<-|Hne].
  - exists (decide_entry st clock e). by rewrite list_lookup_alter_eq, He.
  - exists e. by rewrite list_lookup_alter_ne.
Qed.

Lemma lookup_delete_entry m k s :
  wf s -> lookup k (deletePumpEntry m s) = if decide (m = k) then None else lookup k s.
Proof.
  intros [Hm _]. unfold lookup. simpl. case_decide; subst; [by rewrite jget_jdel|by rewrite jget_jdel_ne].
Qed.

Lemma delete_wf m s : wf s -> wf (deletePumpEntry m s).
Proof.
  intros [Hm Hr]. split; [by apply wf_jdel|]. intros k r. simpl. destruct (decide (m = k)) as [<-|Hne].
  - by rewrite jget_jdel.
  - rewrite jget_jdel_ne by done. apply Hr.
Qed.

(** Whatever a decision preserves, an activation preserves. *)
Lemma resume_keeps (P : state -> Prop) clock answer p s :
  (forall clock m st s, P s -> P (resolvePump clock m st s)) -> P s -> P (resume clock answer p s).1.
Proof.
  intros HP Hs.
  assert (forall now rest, P (expire clock now rest s).1) as He.
  { intros now rest. induction rest as [|[m r] rest IH]; simpl; [done|].
    destruct (heap s !! r) as [e|]; [|done]. destruct (is_expired now e); [by apply HP|done]. }
  assert (forall rest, P (applyResults clock rest s).1) as Ha.
  { intros rest. induction rest as [|[m k] rest IH]; simpl; [done|].
    destruct (lookup m s) as [e|], (kv_decision k) as [st|]; try done.
    destruct (_ && _); [by apply HP|done]. }
  destruct p; simpl; try done. by destruct answer.
Qed.

(** ** Memory and table *)

Definition view (s : state) : Table := omap (fun r => heap s !! r) (to_gmap (pendingMap s)).

Lemma lookup_pending_view s m : view s !! m = lookup m s.
Proof. unfold view, lookup. by rewrite lookup_omap, lookup_to_gmap. Qed.

Definition eventual (tbl : Table) (s : state) : Table :=
  foldl (fun t w => w t) tbl (WriteChain.tail (chain s)).

Record inv (tbl : Table) (s : state) : Prop := {
  inv_wf : wf s;
  inv_enabled : WriteChain.enabled (chain s) = true;
  inv_delays : WriteChain.retryDelaysMs (chain s) = WriteChain.RETRY_DELAYS_MS;
  inv_idem : Forall WriteChain.idempotent (WriteChain.tail (chain s));
  inv_agree : view s = eventual tbl s;
}.

(** A mutation in step with the statement it queues. *)
Lemma inv_step tbl s s' mu :
  inv tbl s -> wf s' -> Store.ok mu -> chain s' = WriteChain.push (Store.in_table mu) (chain s) ->
  view s' = Store.in_table mu (view s) -> inv tbl s'.
Proof.
  intros [Hwf He Hd Hi Ha] Hwf' Hok Hc Hv. unfold WriteChain.push in Hc. rewrite He in Hc.
  constructor; rewrite ?Hc; simpl; try done.
  - apply list.Forall_app. split; [done|]. constructor; [by apply Store.in_table_idempotent|done].
  - unfold eventual. rewrite Hc. simpl. rewrite foldl_app. simpl. rewrite Hv, Ha. done.
Qed.

Lemma add_inv tbl d s : inv tbl s -> inv tbl (addPumpPending d s).
Proof.
  intros H. apply (inv_step tbl s _ (Store.MSet (d_mint d) (pending_entry d))); try done.
  - by apply add_wf, H.
  - apply map_eq. intros m. simpl. rewrite lookup_pending_view, lookup_add by apply H.
    case_decide; subst; [by rewrite lookup_insert_eq|by rewrite lookup_insert_ne, lookup_pending_view].
Qed.

Lemma resolve_inv tbl clock m x s : inv tbl s -> inv tbl (resolvePump clock m x s).
Proof.
  intros H. destruct (jget m (pendingMap s)) as [r|] eqn:E.
  - apply (inv_step tbl s _ (Store.MUpdate m (decide_entry x clock))); try done.
    + by apply resolve_wf, H.
    + unfold resolvePump. by rewrite E.
    + apply map_eq. intros k. simpl. rewrite lookup_pending_view, lookup_resolve by apply H.
      case_decide; subst; [by rewrite lookup_alter_eq, lookup_pending_view|by rewrite lookup_alter_ne, lookup_pending_view].
  - unfold resolvePump. by rewrite E.
Qed.

Lemma delete_inv tbl m s : inv tbl s -> inv tbl (deletePumpEntry m s).
Proof.
  intros H. apply (inv_step tbl s _ (Store.MDelete m)); try done.
  - by apply delete_wf, H.
  - apply map_eq. intros k. simpl. rewrite lookup_pending_view, lookup_delete_entry by apply H.
    case_decide; subst; [by rewrite lookup_delete_eq|by rewrite lookup_delete_ne, lookup_pending_view].
Qed.

Lemma work_keeps_inv att w :
  WriteChain.recovers att WriteChain.RETRY_DELAYS_MS ->
  inv (table w) (st w) -> inv (table (event att w Work)) (st (event att w Work)).
Proof.
  intros Hr H. simpl. unfold WriteChain.run_next.
  destruct (WriteChain.tail (chain (st w))) as [|x ws] eqn:Et; [by destruct (st w)|].
  destruct H as [Hwf He Hd Hi Ha]. rewrite Et in Hi.
  apply list.Forall_cons in Hi as [Hx Hws]. constructor; simpl; try done.
  unfold eventual in *. rewrite Et in Ha. simpl in *. transitivity (view (st w)); [done|].
  rewrite Ha. f_equal. symmetry. rewrite Hd.
  apply WriteChain.attempt_write_cases; [done|]. apply WriteChain.attempt_write_succeeds. apply Hr.
Qed.

Lemma event_inv att w e :
  WriteChain.recovers att WriteChain.RETRY_DELAYS_MS ->
  inv (table w) (st w) -> inv (table (event att w e)) (st (event att w e)).
Proof.
  intros Hr H. destruct e as [d|now m x|m|now|i clock answer|];
    [by apply add_inv|by apply resolve_inv|by apply delete_inv| | |by apply work_keeps_inv].
  - pose proof (resume_keeps (inv (table w)) now None (Expiring now (pendingMap (st w))) (st w)
      (resolve_inv (table w)) H) as Hp. simpl in *. by destruct (expire _ _ _ _).
  - simpl. destruct (polls w !! i) as [p|]; [|done].
    pose proof (resume_keeps (inv (table w)) clock answer p (st w) (resolve_inv (table w)) H) as Hp.
    by destruct (resume _ _ _ _).
Qed.

Lemma pump_events_inv att evs w :
  WriteChain.recovers att WriteChain.RETRY_DELAYS_MS ->
  inv (table w) (st w) ->
  inv (table (foldl (event att) w evs)) (st (foldl (event att) w evs)).
Proof.
  intros Hr. revert w. induction evs as [|e evs IH]; intros w H; simpl; [done|]. by apply IH, event_inv.
Qed.

(** ** Loading the rows *)

Definition rows_table (rows : list PumpPendingEntry) : Table :=
  list_to_map ((fun e => (mint e, e)) <$> rows).

Lemma refs_keys n (rows : list PumpPendingEntry) :
  (imap (fun i e => (mint e, (n + i)%nat)) rows).*1 = mint <$> rows.
Proof. rewrite fmap_imap. rewrite <- (imap_const mint). apply imap_ext. done. Qed.

Lemma refs_get h (rows : list PumpPendingEntry) m :
  jget m (imap (fun i e => (mint e, (length h + i)%nat)) rows) ≫= (fun r => (h ++ rows) !! r)
  = rows_table rows !! m.
Proof.
  unfold rows_table. revert h. induction rows as [|e rows IH]; intros h; [done|]. cbn.
  rewrite Nat.add_0_r. case_decide as Hm.
  - subst m. rewrite lookup_insert_eq. cbn. by rewrite lookup_app_r, Nat.sub_diag.
  - rewrite lookup_insert_ne by done. rewrite <- (IH (h ++ [e])), <- app_assoc.
    f_equal. f_equal. apply imap_ext. intros i x _. cbn. f_equal. rewrite length_app. simpl. lia.
Qed.

Lemma init_pending_map rows s :
  NoDup (mint <$> rows) ->
  pendingMap (initPumpPending rows s) = imap (fun i e => (mint e, (length (heap s) + i)%nat)) rows.
Proof. intros H. simpl. apply jmap_of_fresh. by rewrite refs_keys. Qed.

Lemma lookup_init rows s m :
  NoDup (mint <$> rows) -> lookup m (initPumpPending rows s) = rows_table rows !! m.
Proof. intros H. unfold lookup. rewrite init_pending_map by done. apply refs_get. Qed.

Lemma rows_table_mint rows m e : rows_table rows !! m = Some e -> mint e = m.
Proof. intros H%elem_of_list_to_map_2. apply list_elem_of_fmap in H as (e' & [= -> ->] & _). done. Qed.

Lemma init_wf rows s : NoDup (mint <$> rows) -> wf (initPumpPending rows s).
Proof.
  intros H. split.
  - unfold wf_map. rewrite init_pending_map by done. by rewrite refs_keys.
  - intros m r Hr. pose proof (lookup_init rows s m H) as Hl. rewrite (lookup_ref _ _ _ Hr) in Hl.
    rewrite init_pending_map in Hr by done.
    assert (is_Some (rows_table rows !! m)) as [e He].
    { rewrite <- (refs_get (heap s) rows m), Hr. simpl.
      apply jget_Some_elem in Hr. apply elem_of_lookup_imap in Hr as (i & e & [= -> ->] & Hi).
      rewrite lookup_app_r by lia. replace (length (heap s) + i - length (heap s))%nat with i by lia. by rewrite Hi. }
    exists e. split; [by rewrite Hl|by apply (rows_table_mint rows)].
Qed.

(** Decisions survive a restart.  Load the rows, let detections, operator
    decisions, deletions and any number of interleaved poll activations
    happen while the writes run, drain the chain and load what the table
    holds: every mint has the entry it had in memory, whatever transient
    failures the database had. *)
Theorem decisions_survive_restart att rows evs rows' :
  WriteChain.recovers att WriteChain.RETRY_DELAYS_MS -> NoDup (mint <$> rows) ->
  let w := foldl (event att) (mkWorld (initPumpPending rows new) [] (rows_table rows)) evs in
  rows' ≡ₚ (map_to_list (WriteChain.drain att (chain (st w)) (table w)).2).*2 ->
  forall m, lookup m (initPumpPending rows' new) = lookup m (st w).
Proof.
  intros Hr Hnd w Hrows m.
  assert (inv (table w) (st w)) as [Hwf He Hd Hi Ha].
  { apply pump_events_inv; [done|]. constructor; try done; [by apply init_wf|]. simpl.
    apply map_eq. intros k. rewrite lookup_pending_view. by apply lookup_init. }
  assert ((WriteChain.drain att (chain (st w)) (table w)).2 = view (st w)) as E.
  { simpl. rewrite Hd, WriteChain.run_all_recovers by done. by rewrite Ha. }
  rewrite E in Hrows.
  assert ((fun e => (mint e, e)) <$> rows' ≡ₚ map_to_list (view (st w))) as Hp.
  { rewrite Hrows, <- list_fmap_compose.
    rewrite <- (list_fmap_id (map_to_list (view (st w)))) at 2. apply reflexive_eq.
    apply list_fmap_ext. intros i [k e] Hk. simpl. apply list_elem_of_lookup_2, elem_of_map_to_list in Hk.
    rewrite lookup_pending_view in Hk. unfold lookup in Hk.
    destruct (jget k (pendingMap (st w))) as [r|] eqn:Ek; [|done]. simpl in Hk.
    destruct (proj2 Hwf k r Ek) as (e' & He' & Hm'). f_equal. congruence. }
  assert (NoDup (mint <$> rows')) as Hnd'.
  { replace (mint <$> rows') with (((fun e => (mint e, e)) <$> rows').*1)
      by (by rewrite <- list_fmap_compose). rewrite Hp. apply NoDup_fst_map_to_list. }
  rewrite lookup_init, <- lookup_pending_view by done. unfold rows_table.
  rewrite (list_to_map_proper _ (map_to_list (view (st w)))); [by rewrite list_to_map_to_list| |done].
  by rewrite <- list_fmap_compose.
Qed.

(** ** An uninterrupted poll *)

(** Resume an activation until it leaves the first loop. *)
Fixpoint drive (fuel : nat) (clock : Z) (p : Poll) (s : state) : state * Poll :=
  match p, fuel with
  | Expiring now rest, S fuel' => let (s', p') := expire clock now rest s in drive fuel' clock p' s'
  | _, _ => (s, p)
  end.

Definition settle (clock now : Z) (e : PumpPendingEntry) : PumpPendingEntry :=
  if is_expired now e then decide_entry Rejected clock e else e.

Lemma drive_after fuel clock s : drive fuel clock (after_expiry s) s = (s, after_expiry s).
Proof. unfold after_expiry. by destruct (some _ _), fuel. Qed.

Lemma drive_expire clock now rest : forall fuel s,
  wf s -> NoDup rest.*1 -> (forall m r, (m, r) ∈ rest -> jget m (pendingMap s) = Some r) ->
  (length rest < fuel)%nat ->
  let '(s', p') := drive fuel clock (Expiring now rest) s in
  p' = after_expiry s' /\ pendingMap s' = pendingMap s
  /\ forall m, lookup m s' = (if bool_decide (m ∈ rest.*1) then settle clock now <$> lookup m s
                              else lookup m s).
Proof.
  induction rest as [|[m r] rest IH]; intros fuel s Hwf Hnd Href Hfuel;
    (destruct fuel as [|fuel]; [simpl in Hfuel; lia|]).
  { cbn [drive expire]. rewrite drive_after. by split_and!. }
  apply list.NoDup_cons in Hnd as [Hm Hnd].
  assert (jget m (pendingMap s) = Some r) as Hr by (apply Href; left).
  destruct (proj2 Hwf m r Hr) as (e & He & _).
  assert (lookup m s = Some e) as Hl by by rewrite (lookup_ref m s r).
  assert (drive (S fuel) clock (Expiring now ((m, r) :: rest)) s =
    if is_expired now e then drive fuel clock (Expiring now rest) (resolvePump clock m Rejected s)
    else drive (S fuel) clock (Expiring now rest) s) as ->.
  { cbn [drive expire]. rewrite He. by destruct (is_expired now e). }
  simpl in Hfuel. destruct (is_expired now e) eqn:Ee.
  - specialize (IH fuel (resolvePump clock m Rejected s)).
    destruct (drive fuel clock (Expiring now rest) (resolvePump clock m Rejected s)) as [s' p'].
    assert (pendingMap (resolvePump clock m Rejected s) = pendingMap s) as Hpm
      by (unfold resolvePump; by rewrite Hr).
    destruct IH as (H1 & H2 & H3); [by apply resolve_wf|done| |lia|].
    { intros m' r' Hin. rewrite Hpm. apply Href. by right. }
    split_and!; [done|congruence|]. intros k. rewrite H3, lookup_resolve by done. simpl.
    destruct (decide (m = k)) as [<-|Hne].
    + rewrite (bool_decide_false (m ∈ rest.*1)) by done. rewrite bool_decide_true by left.
      rewrite Hl. simpl. unfold settle. by rewrite Ee.
    + case_bool_decide as Hk; [rewrite bool_decide_true by (by right)|rewrite bool_decide_false by set_solver]; done.
  - specialize (IH (S fuel) s). destruct (drive (S fuel) clock (Expiring now rest) s) as [s' p'].
    destruct IH as (H1 & H2 & H3); [done|done| |lia|].
    { intros m' r' Hin. apply Href. by right. }
    split_and!; [done|done|]. intros k. rewrite H3. simpl.
    destruct (decide (m = k)) as [<-|Hne].
    + rewrite (bool_decide_false (m ∈ rest.*1)) by done. rewrite bool_decide_true by left.
      rewrite Hl. simpl. unfold settle. by rewrite Ee.
    + case_bool_decide as Hk; [rewrite bool_decide_true by (by right)|rewrite bool_decide_false by set_solver]; done.
Qed.

(** An uninterrupted poll rejects exactly what has been pending for more
    than an hour: every other entry is untouched, the loop ends within one
    resumption per entry, and it goes on to fetch iff something is still
    pending. *)
Theorem poll_rejects_exactly_expired clock now s :
  wf s ->
  let '(s', p') := drive (S (length (pendingMap s))) clock (Expiring now (pendingMap s)) s in
  p' = after_expiry s'
  /\ forall m, lookup m s' = (fun e => if is_expired now e then decide_entry Rejected clock e else e) <$> lookup m s.
Proof.
  intros Hwf. pose proof (drive_expire clock now (pendingMap s) (S (length (pendingMap s))) s Hwf (proj1 Hwf)) as H.
  destruct (drive _ _ _ _) as [s' p']. destruct H as (H1 & _ & H3); [|lia|].
  - intros m r Hin. by apply elem_jget; [apply Hwf|].
  - split; [done|]. intros m. rewrite H3. case_bool_decide as Hm; [done|].
    unfold lookup. apply jget_None_keys in Hm. by rewrite Hm.
Qed.

(** *** An interrupted one *)

Lemma pending_after_add d s : isPumpPending (d_detectedAt d) (d_mint d) (addPumpPending d s) = true.
Proof.
  unfold isPumpPending, lookup. simpl. rewrite jget_jset. simpl.
  rewrite lookup_app_r, Nat.sub_diag by done. simpl. by rewrite Z.sub_diag.
Qed.

(** While a poll waits for the notification of one expired token, another
    expired token can be detected again; when the poll resumes, its stale
    entry still reads as expired and the fresh detection is rejected and
    blacklisted at once, whatever its age. *)
Theorem fresh_detection_rejected att w i now rest m r e d clock :
  polls w !! i = Some (Expiring now ((m, r) :: rest)) -> heap (st w) !! r = Some e ->
  is_expired now e = true -> d_mint d = m ->
  let w' := event att (event att w (Add d)) (PollResume i clock None) in
  isPumpPending (d_detectedAt d) m (st (event att w (Add d))) = true
  /\ isPumpRejected m (st w') = true /\ m ∈ tokenBlacklist (st w').
Proof.
  intros Hi Hr He <- w'. split.
  - apply pending_after_add.
  - subst w'. simpl. rewrite Hi. simpl. rewrite (lookup_app_l_Some _ _ _ _ Hr), He. simpl.
    unfold isPumpRejected, lookup, resolvePump. simpl. rewrite jget_jset. simpl. split.
    + rewrite jget_jset. simpl. rewrite list_lookup_alter_eq, lookup_app_r, Nat.sub_diag by done.
      done.
    + apply elem_of_sadd. by left.
Qed.

(** ** The gate *)


(** ** Concrete runs *)

Definition demo_row (m : string) : PumpPendingEntry := mkEntry m m "p" "W" 0 Pending None None.

Definition demo_rows : list PumpPendingEntry := [demo_row "pumpA"; demo_row "pumpB"].

Definition demo_db : WriteChain.Db := fun i n =>
  match n with O => WriteChain.FailedAfter | _ => WriteChain.Applied end.

Lemma pump_db_recovers : WriteChain.recovers demo_db WriteChain.RETRY_DELAYS_MS.
Proof. intros i. exists 1%nat. split; [simpl; lia|done]. Qed.

Definition demo_world : World := mkWorld (initPumpPending demo_rows new) [] (rows_table demo_rows).

(** A poll two hours after the detections, suspended at the first. *)
Definition demo_polling : World := event demo_db demo_world (PollStart 7200000).

Lemma decisions_survive_restart_witness :
  lookup "pumpA" (initPumpPending
    [decide_entry Rejected 7200000 (demo_row "pumpA"); demo_row "pumpB"] new)
  = lookup "pumpA" (st demo_polling).
Proof.
  refine (decisions_survive_restart demo_db demo_rows [PollStart 7200000]
            [decide_entry Rejected 7200000 (demo_row "pumpA"); demo_row "pumpB"] pump_db_recovers _ _ "pumpA"%string).
  - apply (bool_decide_unpack _). vm_compute. done.
  - apply (bool_decide_unpack _). vm_compute. done.
Defined.

Lemma demo_pending_ok : wf (initPumpPending demo_rows new).
Proof. apply init_wf. apply (bool_decide_unpack _). vm_compute. done. Qed.

Lemma poll_rejects_exactly_expired_witness :
  let '(s', p') := drive 3 5 (Expiring 7200000 (pendingMap (st demo_world))) (st demo_world) in
  p' = after_expiry s' /\ p' = Finished
  /\ lookup "pumpB" s' = Some (decide_entry Rejected 5 (demo_row "pumpB")).
Proof.
  pose proof (poll_rejects_exactly_expired 5 7200000 (st demo_world) demo_pending_ok) as [H1 H2].
  split_and!; [exact H1|reflexivity|exact (H2 "pumpB"%string)].
Defined.

Lemma fresh_detection_rejected_witness :
  isPumpRejected "pumpB"
    (st (event demo_db (event demo_db demo_polling (Add (mkDetected "pumpB" "B" "p" "W" 7200001 None)))
           (PollResume 0 7200002 None))) = true.
Proof.
  refine (proj1 (proj2 (fresh_detection_rejected demo_db demo_polling 0 7200000 [] "pumpB" 1
            (demo_row "pumpB") (mkDetected "pumpB" "B" "p" "W" 7200001 None) 7200002 _ _ _ _)));
    reflexivity.
Defined.

(** A second pump token goes unseen behind an approved one: the open goes on,
    although nobody has approved "newPUMP". *)
Example second_pump_token_passes :
  let s := initPumpPending [mkEntry "pumpA" "A" "p" "W" 0 Approved None None] new in
  isPumpApproved "newPUMP" s = false /\ pumpGate Discord 9000000 "pumpA" "newPUMP" "N" "W" s = (None, s).
Proof. split; vm_compute; reflexivity. Qed.


End PumpPending.
