(* ===== verification/ActivityLog.v ===== *)
(** * Activity feeds ([src/state/activity-log.ts], [src/state/repo/events.ts],
      [src/state/repo/swapHistory.ts])

    The event feed (at most 1000), the swap history (at most 40) and the
    permanent lookup from a target NFT to its pool.  [Tables] are the three
    database tables, rows oldest first in the order of their serial ids; a row
    holds the entry's fields.  The metrics counter fed by [pushEvent] is not
    modelled. *)

From S2P Require Import Prelude JsMap WriteChain.
Open Scope Z_scope.
Open Scope list_scope.

Module ActivityLog.

Record EventLogEntry := mkEvent {
  ts : Z; type : string; targetWallet : string; targetNft : option string; ourNft : option string;
  txSig : option string; success : bool; error : option string; pool : option string; dex : option string;
}.

Record SwapHistoryEntry := mkSwapEntry {
  s_ts : Z; inputMint : string; s_txSig : string; inputAmountRaw : option string;
  inputDecimals : option Z; outputAmountRaw : option string;
}.

Definition MAX_EVENTS : nat := 1000.
Definition MAX_SWAP_HISTORY : nat := 40.

(** The newest [n] of a list whose newest element is last. *)
Definition keep_last {A} (n : nat) (l : list A) : list A := drop (length l - n) l.

(** ** The tables *)

Record Tables := mkTables {
  events : list EventLogEntry;
  event_pool_map : list (string * string);
  swap_history : list SwapHistoryEntry;
}.

(** [events.append]: insert, refresh the lookup, trim, in one transaction. *)
Definition db_append (cap : nat) (e : EventLogEntry) (t : Tables) : Tables :=
  mkTables (keep_last cap (events t ++ [e]))
    (match targetNft e, pool e with
     | Some n, Some p => if truthy n && truthy p then jset n p (event_pool_map t) else event_pool_map t
     | _, _ => event_pool_map t
     end)
    (swap_history t).

Definition db_setPoolFor (n p : string) (t : Tables) : Tables :=
  mkTables (events t) (jset n p (event_pool_map t)) (swap_history t).

(** [swapHistory.push] *)
Definition db_push_swap (cap : nat) (e : SwapHistoryEntry) (t : Tables) : Tables :=
  mkTables (events t) (event_pool_map t) (keep_last cap (swap_history t ++ [e])).

(** ** The module's state *)

Record state := mk {
  eventLog : list EventLogEntry;
  swapHistory : list SwapHistoryEntry;
  poolMap : list (string * string);
  writes : WriteChain.WChain (T := Tables);
}.

Definition new : state := mk [] [] [] (WriteChain.new_chain WriteChain.RETRY_DELAYS_MS).

Definition initActivityLog (t : Tables) (s : state) : state :=
  mk (keep_last MAX_EVENTS (events t)) (keep_last MAX_SWAP_HISTORY (swap_history t)) (event_pool_map t)
    (WriteChain.enable (writes s)).

(** [while (xs.length > cap) xs.shift()] *)
Fixpoint shift_to {A} (cap : nat) (l : list A) : list A :=
  match l with
  | [] => []
  | _ :: l' => if (cap <? length l)%nat then shift_to cap l' else l
  end.

(** The entry with the exchange filled in when it has none. *)
Definition tag (dex_ : option string) (e : EventLogEntry) : EventLogEntry :=
  if truthy dex_ && negb (truthy (dex e))
  then mkEvent (ts e) (type e) (targetWallet e) (targetNft e) (ourNft e) (txSig e) (success e) (error e)
         (pool e) dex_
  else e.

Definition pushEvent (entry : EventLogEntry) (dex_ : option string) (s : state) : state :=
  let e := tag dex_ entry in
  mk (shift_to MAX_EVENTS (eventLog s ++ [e])) (swapHistory s)
    (match targetNft e, pool e with
     | Some n, Some p => if truthy p && truthy n then jset n p (poolMap s) else poolMap s
     | _, _ => poolMap s
     end)
    (WriteChain.push (db_append MAX_EVENTS e) (writes s)).

Definition pushSwap (e : SwapHistoryEntry) (s : state) : state :=
  mk (eventLog s) (shift_to MAX_SWAP_HISTORY (swapHistory s ++ [e])) (poolMap s)
    (WriteChain.push (db_push_swap MAX_SWAP_HISTORY e) (writes s)).

(** [if (!poolMap[nft]) poolMap[nft] = pool], persisted *)
Definition learn (s : state) (np : string * string) : state :=
  let (n, p) := np in
  if truthy (jget n (poolMap s)) then s
  else mk (eventLog s) (swapHistory s) (jset n p (poolMap s))
         (WriteChain.push (db_setPoolFor n p) (writes s)).

(** The label a loaded event gains, if any. *)
Definition label (pm : list (string * string)) (e : EventLogEntry) : option string :=
  match targetNft e with
  | Some n =>
      if negb (truthy (pool e)) && truthy n && truthy (jget n pm) then jget n pm else None
  | None => None
  end.

Definition relabel (pm : list (string * string)) (e : EventLogEntry) : EventLogEntry :=
  match label pm e with
  | Some p => mkEvent (ts e) (type e) (targetWallet e) (targetNft e) (ourNft e) (txSig e) (success e)
                (error e) (Some p) (dex e)
  | None => e
  end.

Definition event_pool (e : EventLogEntry) : list (string * string) :=
  match targetNft e, pool e with
  | Some n, Some p => if truthy p && truthy n then [(n, p)] else []
  | _, _ => []
  end.

Definition backfillEventPools (positionPools : list (string * string)) (s : state) : state * (nat * nat) :=
  let s1 := foldl learn s positionPools in
  let s2 := foldl learn s1 (flatMap event_pool (eventLog s1)) in
  (mk (map (relabel (poolMap s2)) (eventLog s2)) (swapHistory s2) (poolMap s2) (writes s2),
   (length (keep (fun e => truthy (label (poolMap s2) e)) (eventLog s2)), length (poolMap s2))).

(** ** The caps *)

Lemma shift_to_keep_last {A} cap (l : list A) : shift_to cap l = keep_last cap l.
Proof.
  unfold keep_last. induction l as [|x l IH]; [done|].
  change (shift_to cap (x :: l)) with (if (cap <? length (x :: l))%nat then shift_to cap l else x :: l).
  destruct (Nat.ltb_spec cap (length (x :: l))) as [Hl|Hl]; rewrite length_cons in *.
  - rewrite IH. replace (S (length l) - cap)%nat with (S (length l - cap)) by lia. done.
  - by replace (S (length l) - cap)%nat with 0%nat by lia.
Qed.

Lemma length_keep_last {A} n (l : list A) : length (keep_last n l) = Nat.min n (length l).
Proof. unfold keep_last. rewrite length_drop. lia. Qed.

Lemma keep_last_short {A} n (l : list A) : (length l <= n)%nat -> keep_last n l = l.
Proof. intros H. unfold keep_last. by replace (length l - n)%nat with 0%nat by lia. Qed.

Lemma keep_last_idem {A} n (l : list A) : keep_last n (keep_last n l) = keep_last n l.
Proof. apply keep_last_short. rewrite length_keep_last. lia. Qed.

Lemma keep_last_snoc {A} n (l : list A) x : keep_last n (keep_last n l ++ [x]) = keep_last n (l ++ [x]).
Proof.
  unfold keep_last. rewrite !length_app, length_drop. simpl.
  destruct (Nat.le_gt_cases (length l) n) as [Hl|Hl].
  - rewrite (proj2 (Nat.sub_0_le _ _) Hl), Nat.sub_0_r. done.
  - replace (length l - (length l - n) + 1 - n)%nat with 1%nat by lia.
    replace (length l + 1 - n)%nat with (length l - n + 1)%nat by lia.
    rewrite <- (drop_app_le l [x] (length l - n)) by lia. by rewrite drop_drop.
Qed.

(** ** Memory and tables in step *)

Inductive Op := PushEvent (e : EventLogEntry) (dex_ : option string) | PushSwap (e : SwapHistoryEntry).

Definition exec (o : Op) (s : state) : state :=
  match o with PushEvent e d => pushEvent e d s | PushSwap e => pushSwap e s end.

Definition statement (o : Op) : Tables -> Tables :=
  match o with
  | PushEvent e d => db_append MAX_EVENTS (tag d e)
  | PushSwap e => db_push_swap MAX_SWAP_HISTORY e
  end.

(** The feeds as loading the tables would give them. *)
Definition feeds (t : Tables) : list EventLogEntry * list SwapHistoryEntry * list (string * string) :=
  (keep_last MAX_EVENTS (events t), keep_last MAX_SWAP_HISTORY (swap_history t), event_pool_map t).

Definition in_memory (s : state) := (eventLog s, swapHistory s, poolMap s).

Lemma exec_step o s t :
  in_memory s = feeds t -> in_memory (exec o s) = feeds (statement o t).
Proof.
  unfold in_memory, feeds. intros H. injection H as He Hs Hp. destruct o as [e d|e]; simpl.
  - rewrite He, Hs, Hp, shift_to_keep_last, keep_last_snoc, keep_last_idem. do 2 f_equal.
    destruct (targetNft (tag d e)), (pool (tag d e)); try done. by rewrite andb_comm.
  - by rewrite He, Hs, Hp, shift_to_keep_last, keep_last_snoc, keep_last_idem.
Qed.

Inductive Event := Do (o : Op) | Work.

Definition event (att : WriteChain.Db) (st : state * Tables) (e : Event) : state * Tables :=
  match e with
  | Do o => (exec o st.1, st.2)
  | Work =>
      let (c, t) := WriteChain.run_next att (writes st.1) st.2 in
      (mk (eventLog st.1) (swapHistory st.1) (poolMap st.1) c, t)
  end.

Definition ops (evs : list Event) : list Op :=
  omap (fun e => match e with Do o => Some o | Work => None end) evs.

Definition chain_ev (e : Event) : WriteChain.Ev (T := Tables) :=
  match e with Do o => WriteChain.Push (statement o) | Work => WriteChain.Run end.

Lemma chain_statements att evs st :
  (writes (foldl (event att) st evs).1, (foldl (event att) st evs).2)
  = foldl (WriteChain.chain_step att) (writes st.1, st.2) (map chain_ev evs).
Proof.
  revert st. induction evs as [|e evs IH]; intros st; simpl; [done|].
  rewrite IH. f_equal. destruct e as [[e d|e]|]; simpl; [done|done|].
  by destruct (WriteChain.run_next _ _ _).
Qed.

Lemma memory_ops att evs st t :
  in_memory st.1 = feeds t ->
  in_memory (foldl (event att) st evs).1 = feeds (foldl (fun t w => w t) t (map statement (ops evs))).
Proof.
  revert st t. induction evs as [|e evs IH]; intros st t H; simpl; [done|].
  destruct e as [o|]; simpl.
  - apply IH. simpl. by apply exec_step.
  - apply IH. by destruct (WriteChain.run_next _ _ _).
Qed.

Lemma pushed_ops evs : WriteChain.pushed (map chain_ev evs) = map statement (ops evs).
Proof.
  unfold WriteChain.pushed, ops. induction evs as [|e evs IH]; [done|].
  destruct e; csimpl; by rewrite IH.
Qed.

(** The feeds survive a restart: load the tables, append events and swaps in
    any number while the chain works, drain it, and load again: the newest
    1000 events, the newest 40 swaps and the pool lookup come back exactly,
    provided no commit is ever left unacknowledged. *)
Theorem activity_survives_restart att t0 evs :
  WriteChain.recovers att WriteChain.RETRY_DELAYS_MS -> WriteChain.clean att ->
  let st := foldl (event att) (initActivityLog t0 new, t0) evs in
  in_memory (initActivityLog (WriteChain.drain att (writes st.1) st.2).2 new) = in_memory st.1
  /\ (length (eventLog st.1) <= MAX_EVENTS)%nat /\ (length (swapHistory st.1) <= MAX_SWAP_HISTORY)%nat.
Proof.
  intros Hr Hc st.
  assert ((WriteChain.drain att (writes st.1) st.2).2
          = foldl (fun t w => w t) t0 (map statement (ops evs))) as Ht.
  { pose proof (chain_statements att evs (initActivityLog t0 new, t0)) as Hev. simpl in Hev. fold st in Hev.
    destruct (WriteChain.chain_history att (map chain_ev evs) (WriteChain.enable (WriteChain.new_chain WriteChain.RETRY_DELAYS_MS)) t0 eq_refl)
      as (_ & Hd & Hrun).
    rewrite <- Hev in Hd, Hrun. simpl in Hd, Hrun. unfold WriteChain.drain. simpl.
    rewrite Hd, Hrun, pushed_ops. by apply WriteChain.run_all_clean. }
  pose proof (memory_ops att evs (initActivityLog t0 new, t0) t0 eq_refl) as Hm. fold st in Hm.
  rewrite Ht. split; [by rewrite Hm|].
  unfold in_memory, feeds in Hm. injection Hm as He Hs _. rewrite He, Hs, !length_keep_last. lia.
Qed.

(** An append is not repeatable: when the database commits it and the
    acknowledgement is lost, the retry stores the event a second time, so the
    feed loaded after a restart differs from the one in memory. *)
Theorem lost_commit_duplicates_event e :
  let att : WriteChain.Db := fun _ n => match n with O => WriteChain.FailedAfter | _ => WriteChain.Applied end in
  let t0 := mkTables [] [] [] in
  let st := event att (initActivityLog t0 new, t0) (Do (PushEvent e None)) in
  WriteChain.recovers att WriteChain.RETRY_DELAYS_MS
  /\ eventLog st.1 = [e]
  /\ eventLog (initActivityLog (WriteChain.drain att (writes st.1) st.2).2 new) = [e; e].
Proof.
  split; [|done]. intros i. exists 1%nat. split; [simpl; lia|done].
Qed.

(** ** Backfill *)

Lemma learn_keeps s np : eventLog (learn s np) = eventLog s /\ swapHistory (learn s np) = swapHistory s
  /\ forall n, truthy (jget n (poolMap s)) = true -> jget n (poolMap (learn s np)) = jget n (poolMap s).
Proof.
  destruct np as [n p]. unfold learn. destruct (truthy (jget n (poolMap s))) eqn:E; [done|]. simpl.
  split_and!; [done|done|]. intros n' Hn'. rewrite jget_jset_ne; [done|]. intros ->. congruence.
Qed.

Lemma learn_all_keeps l s : eventLog (foldl learn s l) = eventLog s
  /\ forall n, truthy (jget n (poolMap s)) = true -> jget n (poolMap (foldl learn s l)) = jget n (poolMap s).
Proof.
  revert s. induction l as [|np l IH]; intros s; simpl; [done|].
  destruct (learn_keeps s np) as (H1 & _ & H2). destruct (IH (learn s np)) as [H3 H4].
  split; [congruence|]. intros n Hn. rewrite H4; rewrite H2; done.
Qed.

Lemma learn_knows s n p : truthy p = true -> truthy (jget n (poolMap (learn s (n, p)))) = true.
Proof.
  intros Hp. unfold learn. destruct (truthy (jget n (poolMap s))) eqn:E; [done|]. simpl.
  by rewrite jget_jset.
Qed.

Lemma learn_all_knows l s n p : (n, p) ∈ l -> truthy p = true ->
  truthy (jget n (poolMap (foldl learn s l))) = true.
Proof.
  intros Hin Hp. revert s. induction l as [|np l IH]; intros s; simpl; [by apply elem_of_nil in Hin|].
  apply elem_of_cons in Hin as [<-|Hin]; [|by apply IH].
  destruct (learn_all_keeps l (learn s (n, p))) as [_ H]. rewrite H; by apply learn_knows.
Qed.

(** The startup pass labels every loaded event whose pool can be known: from
    the position map, from the lookup, or from another event of the same NFT;
    events that had a pool keep it, known pools are never replaced, and no
    other field of an event changes. *)
Theorem backfill_labels positionPools s :
  let s' := (backfillEventPools positionPools s).1 in
  (forall e n, e ∈ eventLog s' -> targetNft e = Some n -> truthy n = true ->
     truthy (jget n (poolMap s)) = true \/ (exists p, (n, p) ∈ positionPools /\ truthy p = true)
     \/ (exists e0 p, e0 ∈ eventLog s /\ targetNft e0 = Some n /\ pool e0 = Some p /\ truthy p = true) ->
     truthy (pool e) = true)
  /\ Forall2 (fun e e' => (truthy (pool e) = true -> e' = e)
       /\ ts e' = ts e /\ type e' = type e /\ targetWallet e' = targetWallet e
       /\ targetNft e' = targetNft e /\ txSig e' = txSig e /\ success e' = success e)
       (eventLog s) (eventLog s')
  /\ (forall n, truthy (jget n (poolMap s)) = true -> jget n (poolMap s') = jget n (poolMap s)).
Proof.
  unfold backfillEventPools. simpl.
  set (s1 := foldl learn s positionPools).
  set (s2 := foldl learn s1 (flatMap event_pool (eventLog s1))).
  destruct (learn_all_keeps positionPools s) as [E1 K1]. fold s1 in E1, K1.
  destruct (learn_all_keeps (flatMap event_pool (eventLog s1)) s1) as [E2 K2]. fold s2 in E2, K2.
  split_and!.
  - intros e n (e0 & -> & Hin)%list_elem_of_fmap Hn Ht Hknown.
    assert (truthy (jget n (poolMap s2)) = true) as Hk.
    { destruct Hknown as [H|[(p & Hp & Hpt)|(e1 & p & He1 & Hn1 & Hp1 & Hpt)]].
      - rewrite K2 by (by rewrite K1). by rewrite K1.
      - pose proof (learn_all_knows positionPools s n p Hp Hpt) as H. fold s1 in H. by rewrite K2.
      - apply (learn_all_knows _ s1 n p); [|done]. apply elem_of_flatMap. exists e1.
        rewrite E1. split; [done|]. unfold event_pool. rewrite Hn1, Hp1, Hpt, Ht. left. }
    unfold relabel in *. destruct (label (poolMap s2) e0) as [p|] eqn:El; simpl in *.
    + unfold label in El. rewrite Hn in El. case_match eqn:Ec; [|done]. boolP. by rewrite El in H0.
    + unfold label in El. rewrite Hn in El. destruct (truthy (pool e0)); [done|]. simpl in El.
      rewrite Ht, Hk in El. simpl in El. by rewrite El in Hk.
  - rewrite E2, E1. generalize (eventLog s). intros l. induction l as [|e l IH]; simpl; constructor; [|done].
    unfold relabel, label. destruct (targetNft e) as [n|] eqn:En; [|by split_and!].
    destruct (truthy (pool e)) eqn:Ep; simpl; [by split_and!|].
    repeat case_match; simpl; split_and!; try done.
  - intros n Hn. rewrite K2, K1; [done|done|by rewrite K1].
Qed.

(** ** A concrete run *)

Definition demo_event (n : string) : EventLogEntry :=
  mkEvent 1 "OPEN" "W" (Some n) None (Some "sig"%string) true None (Some "A/B"%string) None.

Definition demo_att : WriteChain.Db := fun i n =>
  match i, n with 0%nat, 0%nat => WriteChain.FailedBefore | _, _ => WriteChain.Applied end.

Lemma activity_survives_restart_witness :
  let st := foldl (event demo_att) (initActivityLog (mkTables [] [] []) new, mkTables [] [] [])
              [Do (PushEvent (demo_event "N1") (Some "orca"%string)); Work;
               Do (PushEvent (demo_event "N2") None)] in
  in_memory (initActivityLog (WriteChain.drain demo_att (writes st.1) st.2).2 new) = in_memory st.1.
Proof.
  refine (proj1 (activity_survives_restart demo_att (mkTables [] [] [])
    [Do (PushEvent (demo_event "N1") (Some "orca"%string)); Work; Do (PushEvent (demo_event "N2") None)] _ _)).
  - intros i. exists 1%nat. split; [simpl; lia|]. by destruct i.
  - intros i n. by destruct i, n.
Defined.

End ActivityLog.
