(* ===== verification/State.v ===== *)
(** * The state of the bot

    What the running process keeps in memory between two turns of the event
    loop: the fields of the five executors ([src/executor/*-position.ts]), the
    position map, the stores, and the module variables of
    [src/executor/jupiter-swap.ts], [src/monitor/pool-tvl.ts],
    [src/monitor/jupiter-tvl.ts] and [src/state/portfolio-state.ts].  The
    handlers of [Router] and the executors' methods read and write one [Bot]. *)

From S2P Require Import Prelude JsMap JsString JsNumber TxTypes PositionMap Store Stores Risk PumpPending ActivityLog.
Open Scope Z_scope.
Open Scope list_scope.

Module State.

(** The fields every executor has. *)
Record Executor := mkExec {
  busy : bool;                      (** the executor-level lock *)
  solPaused : bool;
  solPausedAt : option Z;
  drawdownPaused : bool;
  lastSkipReason : option string;
  poolIdToMints : list (string * string);
}.

Record WalletItem := mkItem { w_mint : string; w_amount : string; w_decimals : num }.

Record LpAsset := mkLp {
  lp_mint : string; lp_balance : num; lp_decimals : num;
  pairedStable : list (string * num); liquidityUsd : num;
}.

(** The other fields of [ByrealPositionExecutor]. *)
Record ByrealFields := mkByreal {
  cachedSolBalance : option num;
  rentPerPosition : num;
  walletBalancesCache : option (list WalletItem * Z);
  lpAssetsCache : option (list LpAsset * Z);
  freechainIdx : Z;
}.

(** [src/executor/jupiter-swap.ts]: the last error, and the wallet's holdings
    with the time they were fetched. *)
Record SwapVars := mkSwapVars {
  lastSwapError : string;
  holdingsCache : option (list (string * Z) * Z);
}.

Record PoolCacheEntry := mkPool { tvl : num; openTime : num }.

(** [src/monitor/pool-tvl.ts] and [jupiter-tvl.ts]. *)
Record MarketVars := mkMarket {
  tvlCache : list (string * PoolCacheEntry);
  lastFetchAt : Z;
  jupCache : list (string * (num * Z));       (** liquidity, -1 for unknown, and [fetchedAt] *)
  pendingBatch : list (string * nat);         (** the waiting requests: mint and request number *)
  nextRequest : nat;
  batchTimer : bool;
}.

(** A row of the listing of the Orca executor. *)
Record OrcaAsset := mkOrcaAsset { oa_asset : LpAsset; poolTvl : option num }.

(** [OrcaPositionExecutor], with the TVL cache of its file. *)
Record OrcaVars := mkOrcaVars {
  orcaSolBalance : option num;
  orcaRent : num;
  orcaAssets : option (list OrcaAsset * Z);
  decimalsCache : list (string * Z);
  freeRpcIdx : Z;
  orcaTvlCache : list (string * (num * Z));   (** TVL and [fetchedAt] *)
}.

(** [PcsPositionExecutor]. *)
Record PcsVars := mkPcsVars { pcsSolBalance : option num; pcsRent : num }.

(** A [DLMM] object of Meteora's SDK, known by its pool, and [tokenX.publicKey]
    and [tokenY.publicKey]. *)
Record Dlmm := mkDlmm { lb_address : string; tokenX : string; tokenY : string }.

(** [MeteoraPositionExecutor], with the pools and the TVLs cached in its file. *)
Record MeteoraVars := mkMeteoraVars {
  meteoraSolBalance : option num;
  meteoraRent : num;
  meteoraAssets : option (list OrcaAsset * Z);
  meteoraDecimals : list (string * Z);
  dlmmPoolCache : list (string * (Dlmm * Z));   (** the pool and [createdAt] *)
  meteoraTvlCache : list (string * (num * Z));
}.

(** [DammV2PositionExecutor]. *)
Record DammVars := mkDammVars {
  dammSolBalance : option num;
  dammRent : num;
  dammDecimals : list (string * Z);
}.

(** What only one of the other executors has. *)
Record DexVars := mkDexVars {
  orcaVars : OrcaVars; pcsVars : PcsVars; meteoraVars : MeteoraVars; dammVars : DammVars;
}.

Record Bot := mkBot {
  byrealExecutor : Executor;
  orcaExecutor : option Executor;
  meteoraExecutor : option Executor;
  pcsExecutor : option Executor;
  dammv2Executor : option Executor;
  positionMap : PositionMap.t;
  risk : Risk.state;
  referers : OpenedReferers.rstore;
  pendingSwaps : PendingSwaps.pstore;
  activity : ActivityLog.state;
  byreal : ByrealFields;
  swapVars : SwapVars;
  market : MarketVars;
  pump : PumpPending.state;
  latestTotalUsd : num;
  dexVars : DexVars;
}.

(** ** Assignments *)

Definition set_executors (by_ : Executor) (o m p d : option Executor) (b : Bot) : Bot :=
  mkBot by_ o m p d (positionMap b) (risk b) (referers b) (pendingSwaps b) (activity b)
    (byreal b) (swapVars b) (market b) (pump b) (latestTotalUsd b) (dexVars b).

(** The executor of an exchange; Byreal's always exists. *)
Definition executor (d : Dex) (b : Bot) : option Executor :=
  match d with
  | Byreal => Some (byrealExecutor b)
  | Orca => orcaExecutor b
  | Meteora => meteoraExecutor b
  | Pcs => pcsExecutor b
  | DammV2 => dammv2Executor b
  end.

Definition set_executor (d : Dex) (e : Executor) (b : Bot) : Bot :=
  let set := set_executors in
  match d with
  | Byreal => set e (orcaExecutor b) (meteoraExecutor b) (pcsExecutor b) (dammv2Executor b) b
  | Orca => set (byrealExecutor b) (Some e) (meteoraExecutor b) (pcsExecutor b) (dammv2Executor b) b
  | Meteora => set (byrealExecutor b) (orcaExecutor b) (Some e) (pcsExecutor b) (dammv2Executor b) b
  | Pcs => set (byrealExecutor b) (orcaExecutor b) (meteoraExecutor b) (Some e) (dammv2Executor b) b
  | DammV2 => set (byrealExecutor b) (orcaExecutor b) (meteoraExecutor b) (pcsExecutor b) (Some e) b
  end.

Definition set_stores (pm : PositionMap.t) (r : Risk.state) (rf : OpenedReferers.rstore)
    (ps : PendingSwaps.pstore) (a : ActivityLog.state) (b : Bot) : Bot :=
  mkBot (byrealExecutor b) (orcaExecutor b) (meteoraExecutor b) (pcsExecutor b) (dammv2Executor b)
    pm r rf ps a (byreal b) (swapVars b) (market b) (pump b) (latestTotalUsd b) (dexVars b).

Definition set_positionMap (pm : PositionMap.t) (b : Bot) : Bot :=
  set_stores pm (risk b) (referers b) (pendingSwaps b) (activity b) b.
Definition set_risk (r : Risk.state) (b : Bot) : Bot :=
  set_stores (positionMap b) r (referers b) (pendingSwaps b) (activity b) b.
Definition set_referers (rf : OpenedReferers.rstore) (b : Bot) : Bot :=
  set_stores (positionMap b) (risk b) rf (pendingSwaps b) (activity b) b.
Definition set_pending (p : PendingSwaps.pstore) (b : Bot) : Bot :=
  set_stores (positionMap b) (risk b) (referers b) p (activity b) b.
Definition set_activity (a : ActivityLog.state) (b : Bot) : Bot :=
  set_stores (positionMap b) (risk b) (referers b) (pendingSwaps b) a b.

Definition set_vars (by_ : ByrealFields) (sv : SwapVars) (mk : MarketVars) (pu : PumpPending.state) (b : Bot) : Bot :=
  mkBot (byrealExecutor b) (orcaExecutor b) (meteoraExecutor b) (pcsExecutor b) (dammv2Executor b)
    (positionMap b) (risk b) (referers b) (pendingSwaps b) (activity b) by_ sv mk pu (latestTotalUsd b) (dexVars b).

Definition set_byreal (by_ : ByrealFields) (b : Bot) : Bot := set_vars by_ (swapVars b) (market b) (pump b) b.
Definition set_swapVars (sv : SwapVars) (b : Bot) : Bot := set_vars (byreal b) sv (market b) (pump b) b.
Definition set_market (mk : MarketVars) (b : Bot) : Bot := set_vars (byreal b) (swapVars b) mk (pump b) b.
Definition set_pump (pu : PumpPending.state) (b : Bot) : Bot := set_vars (byreal b) (swapVars b) (market b) pu b.

(** [setLatestTotalUsd] of [src/state/portfolio-state.ts]; [getLatestTotalUsd]
    is the field. *)
Definition setLatestTotalUsd (value : num) (b : Bot) : Bot :=
  mkBot (byrealExecutor b) (orcaExecutor b) (meteoraExecutor b) (pcsExecutor b) (dammv2Executor b)
    (positionMap b) (risk b) (referers b) (pendingSwaps b) (activity b)
    (byreal b) (swapVars b) (market b) (pump b) value (dexVars b).

Definition set_dexVars (dv : DexVars) (b : Bot) : Bot :=
  mkBot (byrealExecutor b) (orcaExecutor b) (meteoraExecutor b) (pcsExecutor b) (dammv2Executor b)
    (positionMap b) (risk b) (referers b) (pendingSwaps b) (activity b)
    (byreal b) (swapVars b) (market b) (pump b) (latestTotalUsd b) dv.

Definition on_orca (f : OrcaVars -> OrcaVars) (b : Bot) : Bot :=
  let v := dexVars b in set_dexVars (mkDexVars (f (orcaVars v)) (pcsVars v) (meteoraVars v) (dammVars v)) b.
Definition on_pcs (f : PcsVars -> PcsVars) (b : Bot) : Bot :=
  let v := dexVars b in set_dexVars (mkDexVars (orcaVars v) (f (pcsVars v)) (meteoraVars v) (dammVars v)) b.
Definition on_meteora (f : MeteoraVars -> MeteoraVars) (b : Bot) : Bot :=
  let v := dexVars b in set_dexVars (mkDexVars (orcaVars v) (pcsVars v) (f (meteoraVars v)) (dammVars v)) b.
Definition on_damm (f : DammVars -> DammVars) (b : Bot) : Bot :=
  let v := dexVars b in set_dexVars (mkDexVars (orcaVars v) (pcsVars v) (meteoraVars v) (f (dammVars v))) b.

(** Assignments to one field of an executor. *)
Definition with_busy (v : bool) (x : Executor) : Executor :=
  mkExec v (solPaused x) (solPausedAt x) (drawdownPaused x) (lastSkipReason x) (poolIdToMints x).
Definition with_solPaused (now : Z) (x : Executor) : Executor :=
  mkExec (busy x) true (Some now) (drawdownPaused x) (lastSkipReason x) (poolIdToMints x).
Definition with_drawdownPaused (x : Executor) : Executor :=
  mkExec (busy x) (solPaused x) (solPausedAt x) true (lastSkipReason x) (poolIdToMints x).
Definition with_lastSkipReason (r : option string) (x : Executor) : Executor :=
  mkExec (busy x) (solPaused x) (solPausedAt x) (drawdownPaused x) r (poolIdToMints x).
Definition with_poolIdToMints (k v : string) (x : Executor) : Executor :=
  mkExec (busy x) (solPaused x) (solPausedAt x) (drawdownPaused x) (lastSkipReason x) (jset k v (poolIdToMints x)).

(** [f] of an executor that exists. *)
Definition on_executor (d : Dex) (f : Executor -> Executor) (b : Bot) : Bot :=
  match executor d b with
  | Some x => set_executor d (f x) b
  | None => b
  end.

Definition busy_of (d : Dex) (b : Bot) : bool := default false (busy <$> executor d b).

(** An executor's fields are apart from everything else. *)
Ltac by_executor := unfold on_executor; intros; match goal with
  |- context [executor ?d ?b] => destruct (executor d b); [by destruct d|done] end.

Lemma on_executor_positionMap d f b : positionMap (on_executor d f b) = positionMap b.
Proof. by_executor. Qed.
Lemma on_executor_risk d f b : risk (on_executor d f b) = risk b.
Proof. by_executor. Qed.
Lemma on_executor_referers d f b : referers (on_executor d f b) = referers b.
Proof. by_executor. Qed.
Lemma on_executor_pendingSwaps d f b : pendingSwaps (on_executor d f b) = pendingSwaps b.
Proof. by_executor. Qed.

Lemma executor_set d e b : executor d (set_executor d e b) = Some e.
Proof. by destruct d. Qed.
Lemma executor_set_ne d d' e b : d <> d' -> executor d' (set_executor d e b) = executor d' b.
Proof. by destruct d, d'. Qed.

Lemma executor_on d f b : executor d (on_executor d f b) = f <$> executor d b.
Proof.
  unfold on_executor. destruct (executor d b) as [x|] eqn:E; [apply executor_set|]. by rewrite E.
Qed.
Lemma executor_on_ne d d' f b : d <> d' -> executor d' (on_executor d f b) = executor d' b.
Proof. intros H. unfold on_executor. destruct (executor d b); [by apply executor_set_ne|done]. Qed.

(** ** A fresh process *)

Definition idle : Executor := mkExec false false None false None [].
Definition no_byreal : ByrealFields := mkByreal None (dec_num 90132 7) None None 0.
Definition no_swaps : SwapVars := mkSwapVars "" None.
Definition no_market : MarketVars := mkMarket [] 0 [] [] 0 false.

Definition no_dex : DexVars :=
  mkDexVars (mkOrcaVars None (dec_num 74542 7) None [] 0 []) (mkPcsVars None (dec_num 90132 7))
    (mkMeteoraVars None (dec_num 89088 7) None [] [] []) (mkDammVars None (dec_num 89088 7) []).

(** The bot with the other executors disabled and everything else empty. *)
Definition fresh (pm : PositionMap.t) : Bot :=
  mkBot idle None None None None pm Risk.fresh Store.new Store.new ActivityLog.new
    no_byreal no_swaps no_market PumpPending.new (num_of_Z 0) no_dex.

End State.
