(* ===== verification/Chain.v ===== *)
(** * The executors' view of the outside world, and their shared steps

    [Call] lists what the executors await: the exchange's SDK
    ([byreal-clmm-sdk-alpha]), the RPC connection, the signer process
    ([src/utils/wallet.ts], modelled in [Signer]), HTTP, and timers; [Ans] is
    the type of each answer, and an answer may be an exception.  [Task] lists
    what they start without waiting.  [Web3] holds the synchronous library
    functions they use.

    The definitions are the helpers of [src/executor/byreal-position.ts] that
    its operations share: error classes, retries, balances, transaction
    parsing, the transaction builder without priority fee, and the lock. *)

From S2P Require Import Prelude JsMap JsString JsNumber Json Async Ratio TxTypes PositionMap Store Stores PumpPending State.
Open Scope Z_scope.
Open Scope list_scope.
Open Scope prog_scope.
Module Chain.
Import Async State.

(** ** Data of the SDK and of web3.js *)

Section Data.
Context `{L : BNLib}.

(** [rawPoolInfo] *)
Record PoolInfo := mkPoolInfo {
  p_id : string; mintA : string; mintB : string;
  sqrtPriceX64 : BN; mintDecimalsA : Z; mintDecimalsB : Z;
}.

(** [IGetPositionInfoByNftMintReturn], the fields read *)
Record PositionInfo := mkPositionInfo {
  i_tickLower : Z; i_tickUpper : Z; i_liquidity : BN;
  rawPoolInfo : PoolInfo;
  amountA : BN; uiAmountA : string;
  amountB : BN; uiAmountB : string;
}.

Inductive Base := MintA | MintB.

(** Objects of the Orca SDK, with the data they were read with; [_rest] is what
    only the SDK looks at.  A [TxBuilder] is known by its number. *)
Record Whirlpool := mkWhirlpool { wp_address : string; tokenMintA : string; tokenMintB : string; wp_rest : string }.
Record WpPosition := mkWpPosition {
  ps_whirlpool : string; tickLowerIndex : Z; tickUpperIndex : Z; ps_liquidity : BN; ps_rest : string;
}.
Record IncreaseInput := mkIncrease { tokenMaxA : BN; tokenMaxB : BN; minSqrtPrice : BN; maxSqrtPrice : BN }.

(** A position of PancakeSwap, whose fees are read too. *)
Record PcsPosition := mkPcsPosition { pcs_info : PositionInfo; feeAmountA : option BN; feeAmountB : option BN }.

(** [LbPosition] of Meteora's SDK; [lb_rest] is what only the SDK looks at. *)
Record LbPosition := mkLbPosition {
  lb_key : string; lowerBinId : Z; upperBinId : Z;
  totalXAmount : string; totalYAmount : string;
  feeX : option BN; feeY : option BN; lb_rest : string;
}.

(** [PoolState] and [PositionState] of the DAMM v2 SDK, the numbers of a
    position as their [toString()]. *)
Record AmmPool := mkAmmPool { tokenAMint : string; tokenBMint : string; am_rest : string }.
Record AmmPosition := mkAmmPosition {
  unlockedLiquidity : string; am_nftMint : string; feeAPending : option string; feeBPending : option string;
}.

(** The answer of [quoteSwapExactOut]. *)
Record QuoteReturn := mkQuoteReturn { isOutputMintA : bool; q_maxAmountIn : BN; executionPrice : BN }.

End Data.

(** [TransactionInstruction]; [data] is a list of bytes *)
Record Ix := mkIxn { x_programId : string; x_keys : list (string * bool * bool); x_data : list Z }.

(** A compiled versioned transaction; [v_rest] is the rest of it. *)
Record CompiledIx := mkCompiled { programIdIndex : nat; c_data : list Z; c_rest : string }.
Record VTx := mkVTx { staticAccountKeys : list string; compiledInstructions : list CompiledIx; v_rest : string }.

(** A legacy [Transaction]; [l_rest] is the rest of it, signatures included. *)
Record LTx := mkLTx { feePayer : option string; recentBlockhash : option string; l_instructions : list Ix; l_rest : string }.

(** Instructions with the keys that must sign beside the payer. *)
Record SdkResult := mkSdk { s_instructions : list Ix; s_signers : list string }.
Record OpenResult := mkOpenResult { o_sdk : SdkResult; nftAddress : string }.

(** A parsed transaction with the [parsed] part of its inner instructions:
    the program, its [type], and [info.source] and [info.lamports]. *)
Record ParsedIx := mkParsed { pi_program : string; pi_type : string; pi_source : option string; pi_lamports : num }.
Record FetchedTx := mkFetched { f_tx : ParsedTransaction; f_inner : option (list (list (option ParsedIx))) }.

Record Simulation := mkSimulation { sim_logs : bool; unitsConsumed : Z }.

(** A request's address and query, and a response of [fetch]. *)
Record Url := mkUrl { u_base : string; u_params : list (string * string) }.
Record Response := mkResponse { r_status : Z; r_ok : bool; r_id : nat }.

Record TxBuilder := mkBuilder { tb_id : nat }.

(** The contexts of the Orca executor: [ctx], [readCtx], a free one. *)
Inductive Client := MainClient | ReadClient | FreeClient (url : string).

(** ** Calls and tasks *)

Section Calls.
Context `{L : BNLib}.

Inductive OrcaCall :=
| WpGetPosition (client : Client) (pda : string)
| WpGetPool (client : Client) (whirlpool : string)
| BuildTokenExtensionContext (client : Client) (mintA mintB : string)
| GetMintInfo (client : Client) (mint : string)          (** answers [mintInfo?.decimals] *)
| InitTickArrayForTicks (pool : Whirlpool) (lower upper : Z)
| WpOpenPosition (pool : Whirlpool) (lower upper : Z) (input : IncreaseInput)
| WpClosePosition (pool : Whirlpool) (pda : string) (slippage : num)
| WpIncreaseLiquidity (position : WpPosition) (input : IncreaseInput)
| WpDecreaseLiquidity (position : WpPosition) (liquidity tokenMinA tokenMinB : BN)
| WpCollectFees (position : WpPosition)
| BuildAndExecute (tx : TxBuilder).

Definition OrcaAns (c : OrcaCall) : Type :=
  match c with
  | WpGetPosition _ _ => option WpPosition
  | WpGetPool _ _ => Whirlpool
  | BuildTokenExtensionContext _ _ _ => string
  | GetMintInfo _ _ => option Z
  | InitTickArrayForTicks _ _ _ => option TxBuilder
  | WpOpenPosition _ _ _ _ => string * TxBuilder
  | WpClosePosition _ _ _ => list TxBuilder
  | WpIncreaseLiquidity _ _ | WpDecreaseLiquidity _ _ _ _ | WpCollectFees _ => TxBuilder
  | BuildAndExecute _ => string
  end.

(** The SDK of PancakeSwap, and its [makeTransaction]. *)
Inductive PcsCall :=
| PcsGetPosition (nftMint : string)
| PcsDecreaseFull (nftMint : string) (closePosition : bool)
| PcsDecrease (nftMint : string) (liquidity : BN)
| PcsCollectFees (nftMint : string)
| PcsCreatePosition (pool : PoolInfo) (tickLower tickUpper : Z) (base : Base) (baseAmount otherAmountMax : BN)
| PcsAddLiquidity (nftMint : string) (base : Base) (baseAmount otherAmountMax : BN) (computeUnitPrice : Z)
| MakeTransaction (instructions : list Ix) (signers : list string) (computeUnitPrice : Z)
| GetTokenAccountsByOwner (mint program : string).        (** answers the data of each account *)

Definition PcsAns (c : PcsCall) : Type :=
  match c with
  | PcsGetPosition _ => option PcsPosition
  | PcsDecreaseFull _ _ | PcsDecrease _ _ | PcsCollectFees _ => SdkResult
  | PcsCreatePosition _ _ _ _ _ _ => OpenResult
  | PcsAddLiquidity _ _ _ _ _ | MakeTransaction _ _ _ => VTx
  | GetTokenAccountsByOwner _ _ => list (list Z)
  end.

(** Legacy transactions and accounts.  [Keypair.generate()] is answered at once
    by the library; it is listed here for its answer is not determined. *)
Inductive LegacyCall :=
| GenerateKeypair                                         (** answers the public key *)
| SignLegacy (tx : LTx) (extraSigners : list string)
| SendRawTransaction (signed : LTx)
| GetAccountInfo (account : string)                       (** answers the owner *)
| GetParsedDecimals (mint : string).                      (** answers [parsed?.info?.decimals] *)

Definition LegacyAns (c : LegacyCall) : Type :=
  match c with
  | GenerateKeypair => string
  | SignLegacy _ _ => LTx
  | SendRawTransaction _ => string
  | GetAccountInfo _ => option string
  | GetParsedDecimals _ => option Z
  end.

(** Meteora's SDK: [DLMM.create] and the methods of its pools. *)
Inductive MeteoraCall :=
| DlmmCreate (poolAddress : string)
| LbGetPosition (pool : Dlmm) (position : string)
| LbGetPositionsByUser (pool : Dlmm) (user : string)      (** answers [userPositions] *)
| LbRemoveLiquidity (pool : Dlmm) (position : string) (fromBinId toBinId : Z) (bps : BN)
| LbClosePosition (pool : Dlmm) (position : LbPosition)
| LbClaimAllSwapFee (pool : Dlmm) (positions : list LbPosition)
| LbInitializePositionAndAddLiquidity (pool : Dlmm) (position : string) (totalX totalY : BN) (minBinId maxBinId : Z)
| LbCreateBinArraysIfNeeded (pool : Dlmm) (indexes : list BN)
| LbInitializePosition2 (pool : Dlmm) (position : string) (lowerBin width : Z)
| LbIncreasePositionLength2 (pool : Dlmm) (position : string) (endBin : Z)
| LbAddLiquidityChunkable (pool : Dlmm) (position : string) (totalX totalY : BN) (minBinId maxBinId : Z)
| LbAddLiquidity (pool : Dlmm) (position : string) (totalX totalY : BN) (minBinId maxBinId : Z).

(** One transaction or an array of them. *)
Definition MeteoraAns (c : MeteoraCall) : Type :=
  match c with
  | DlmmCreate _ => Dlmm
  | LbGetPosition _ _ => option LbPosition
  | LbGetPositionsByUser _ _ => list LbPosition
  | LbRemoveLiquidity _ _ _ _ _ | LbClaimAllSwapFee _ _ | LbAddLiquidityChunkable _ _ _ _ _ _
  | LbAddLiquidity _ _ _ _ _ _ => list LTx
  | LbClosePosition _ _ | LbInitializePositionAndAddLiquidity _ _ _ _ _ _ => LTx
  | LbCreateBinArraysIfNeeded _ _ => list Ix
  | LbInitializePosition2 _ _ _ _ | LbIncreasePositionLength2 _ _ _ => Ix
  end.

(** [CpAmm] of the DAMM v2 SDK. *)
Inductive DammCall :=
| AmFetchPool (pool : string)
| AmFetchPosition (pda : string)
| AmCreatePosition (pool positionNft : string)
| AmAddLiquidity (pool : string) (state : AmmPool) (programs : string * string) (pda nftAccount : string)
    (liquidityDelta maxA maxB : BN)
| AmClaimPositionFee (pool : string) (state : AmmPool) (programs : string * string) (pda nftAccount : string)
| AmRemoveLiquidity (pool : string) (state : AmmPool) (programs : string * string) (pda nftAccount : string)
    (liquidityDelta currentPoint : BN)
| AmRemoveAllLiquidity (pool : string) (state : AmmPool) (programs : string * string) (pda nftAccount : string)
    (currentPoint : BN)
| AmRemoveAllAndClose (state : AmmPool) (position : AmmPosition) (pda nftAccount : string) (currentPoint : BN)
| AmClosePosition (pool pda nftMint nftAccount : string).

Definition DammAns (c : DammCall) : Type :=
  match c with
  | AmFetchPool _ => AmmPool
  | AmFetchPosition _ => AmmPosition
  | _ => LTx
  end.

Inductive Call :=
| Sleep (ms : Z)
(* the SDK *)
| GetPositionInfoByNftMint (nftMint : string)
| DecreaseFullLiquidityInstructions (nftMint : string) (closePosition : bool)
| DecreaseLiquidityInstructions (nftMint : string) (liquidity : BN)
| CollectFeesInstructions (nftMint : string)
| CreatePositionInstructions (pool : PoolInfo) (tickLower tickUpper : Z) (base : Base) (baseAmount otherAmountMax : BN)
| AddLiquidityInstructions (nftMint : string) (base : Base) (baseAmount otherAmountMax : BN)
| QuoteSwapExactOut (pool : PoolInfo) (outputTokenMint : string) (amountOut : BN) (slippage : num)
| SwapExactOut (pool : PoolInfo) (quote : QuoteReturn)
| GetRawPositionInfoList
| CollectAllPositionFeesInstructions (nftMintList : list string)
(* the connection *)
| GetLatestBlockhash
| SimulateTransaction (tx : VTx)
| SendTransaction (tx : VTx)
| ConfirmTransaction (signature blockhash : string)
| GetTransaction (signature : string)              (** answers [tx?.meta?.err ?? null] *)
| GetParsedTransaction (signature : string)
| GetTokenAccountBalance (account : string)
| GetBalance
| GetMinimumBalanceForRentExemption (bytes : Z)
| GetParsedTokenAccountsByOwner (program : string)
(* the signer process *)
| SignerCallback (tx : VTx)
| SignVersioned (tx : VTx)
(* HTTP *)
| Fetch (url : Url) (method : string) (headers : list (string * string)) (body : option Json)
| ReadText (r : Response)
| ReadJson (r : Response)
(* another activation of this process *)
| BatchAnswer (request : nat)
| IsPositionOf (d : Dex) (nft : string)
(* the Orca SDK *)
| OnOrca (c : OrcaCall)
(* the SDK of PancakeSwap *)
| OnPcs (c : PcsCall)
(* legacy transactions, and the SDKs of Meteora *)
| OnLegacy (c : LegacyCall)
| OnMeteora (c : MeteoraCall)
| OnDamm (c : DammCall).

(** A token account as [getParsedTokenAccountsByOwner] parses it. *)
Record TokenAccount := mkAccount { a_mint : option string; a_tokenAmount : option (string * num) }.

Definition Ans (c : Call) : Type :=
  match c with
  | Sleep _ => unit
  | GetPositionInfoByNftMint _ => option PositionInfo
  | DecreaseFullLiquidityInstructions _ _ | DecreaseLiquidityInstructions _ _
  | CollectFeesInstructions _ | AddLiquidityInstructions _ _ _ _ => SdkResult
  | CreatePositionInstructions _ _ _ _ _ _ => OpenResult
  | QuoteSwapExactOut _ _ _ _ => QuoteReturn
  | SwapExactOut _ _ => string
  | GetRawPositionInfoList => list string
  | CollectAllPositionFeesInstructions _ => list (list Ix)
  | GetLatestBlockhash => string
  | SimulateTransaction _ => Simulation
  | SendTransaction _ => string
  | ConfirmTransaction _ _ => unit
  | GetTransaction _ => Json
  | GetParsedTransaction _ => option FetchedTx
  | GetTokenAccountBalance _ => string
  | GetBalance => Z
  | GetMinimumBalanceForRentExemption _ => Z
  | GetParsedTokenAccountsByOwner _ => list TokenAccount
  | SignerCallback _ | SignVersioned _ => VTx
  | Fetch _ _ _ _ => Response
  | ReadText _ => string
  | ReadJson _ => Json
  | BatchAnswer _ => option num
  | IsPositionOf _ _ => bool
  | OnOrca c => OrcaAns c
  | OnPcs c => PcsAns c
  | OnLegacy c => LegacyAns c
  | OnMeteora c => MeteoraAns c
  | OnDamm c => DammAns c
  end.

(** Notifications of [src/discord/notify.ts]. *)
Inductive Notice :=
| notifySwapFailed (mint reason : string)
| notifyOpenFailed (err targetNft : string)
| notifyCloseFailed (nft err : string) (attempts : Z)
| notifySolInsufficient (balance : num)
| notifyPumpApproval (mint symbol pool : string).

(** Jobs put on the operation queue. *)
Inductive Job :=
| CloseOrphan (tgtNft ourNft : string)
| ManualClose (ourNft : string)
| CopyCloseOf (d : Dex) (tgtNft : string)
| ManualCloseOf (d : Dex) (tgtNft : string).

Inductive Task :=
| Notify (n : Notice)
| RefreshSolBalance
| RefreshSolOf (d : Dex)
| UpdateLockedSol (targetNft txSig : string)
| UpdateLockedSolOf (d : Dex) (targetNft txSig : string)
| FlushBatch (delay : Z)
| Enqueue (label : string) (j : Job).

End Calls.

Abbreviation P := (Prog Bot Call Ans Task).

Definition await `{L : BNLib} (c : Call) : P (Ans c) := Async.await c.

(** Synchronous functions of web3.js and spl-token.  [deserialize] stands for
    [Buffer.from(s, 'base64')] with [VersionedTransaction.deserialize], and
    [serialize] for the way back. *)
Class Web3 := {
  publicKey : string -> outcome string;                        (** [new PublicKey(s)] *)
  getAssociatedTokenAddressSync : string -> string -> string -> outcome string;
  setComputeUnitLimit : Z -> outcome Ix;
  compileToV0Message : string -> string -> list Ix -> outcome VTx;
  signWith : list string -> VTx -> outcome VTx;                (** [tx.sign(signers)] *)
  deserialize : option Json -> outcome VTx;
  serialize : VTx -> outcome string;
  MEMO_PROGRAM_ID : string;
}.

(** The fields of [config] the executors read, and the wallet's address. *)
Record Settings := mkSettings {
  userAddress : string;
  dryRun : bool;
  skipPreflight : bool;
  slippageBps : num;
  maxRetry : Z;
  jupiterApiBase : string;
  jupApiKey : option string;
  jupSwapMode : string;
  tvlSource : string;
  minPoolTvl : num;
  poolTvlWhitelist : list string;
  minPoolAgeDays : num;
  poolAgeWhitelist : list string;
  pumpFilterMode : PumpPending.FilterMode;
  skipSameTickRange : bool;
  byrealMaxOpenPositions : Z;
  coinConcentrationOverrides : list (string * (option num * option num));
  maxCoinConcentrationUsd : num;
  maxCoinConcentrationPct : num;
  ratios : Ratio.ratio_config;
  dupRule : OpenedReferers.DupConfig;
  tokenNames : string -> option string;        (** the symbols of [data/token-names.json] *)
  checkers : list Dex;                         (** the position checkers that are set *)
  rpcUrlsFree : list string;
  orcaCloseOnlyWallets : list string;
  orcaSkipSol : bool;
  pcsSkipSol : bool;
  meteoraCloseOnlyWallets : list string;
  meteoraSkipSol : bool;
  dammv2CloseOnlyWallets : list string;
  dammv2SkipSol : bool;
  tokenBlacklist : list string;
}.

(** ** Errors *)

(** The tests of a message: [/a|b|.../i], and the same between [\b]. *)
Definition mentions (alternatives : list string) (msg : string) : bool :=
  some (fun a => includes (toLowerCase msg) (toLowerCase a)) alternatives.

Definition starts_word (s : string) : bool :=
  match s with String c _ => is_word c | EmptyString => false end.

(** [w] occurs between word boundaries; [prev]: a word character precedes. *)
Fixpoint has_word (prev : bool) (w s : string) : bool :=
  (negb prev && startsWith s w && negb (starts_word (JsString.skip (String.length w) s)))
  || match s with
     | EmptyString => false
     | String c s' => has_word (is_word c) w s'
     end.

Definition POSITION_GONE_RE : list string :=
  ["not found"; "does not exist"; "account not found"; "account does not exist"; "could not find";
   "position not found"]%string.

Definition isPositionGoneError (msg : string) : bool :=
  some (fun w => has_word false w (toLowerCase msg)) POSITION_GONE_RE.

Definition isTransientError (msg : string) : bool :=
  mentions ["502"; "503"; "504"; "429"; "ECONNRESET"; "ETIMEDOUT"; "ENOTFOUND"; "timeout"; "Too Many Requests";
            "Internal server error"; "Blockhash not found"; "block height exceeded"; "has expired";
            "PriceSlippageCheck"; "0x1785"]%string msg.

Definition isRetryableSimError (msg : string) : bool :=
  mentions ["simulation failed"; "insufficient funds"]%string msg
  && negb (mentions ["insufficient lamports"]%string msg).

Definition USDC : string := "EPjFWdd5AufqSSqeM2qN1xzybapC8G4wEGGkZwyTDt1v".
Definition NATIVE_MINT : string := "So11111111111111111111111111111111111111112".
Definition STABLE_MINTS : list string :=
  [USDC; "Es9vMFrzaCERmKfrE1SBVYuL9sSMdCL3DscMVPR1YnG5"; "Es9vMFrzaCERmJfrF4H2FYD4KCoNkY11McCe8BenwNYB"]%string.
Definition TOKEN_PROGRAM_ID : string := "TokenkegQfeZyiNwAJbNbGKPFXCWuBvf9Ss623VQ5DA".
Definition TOKEN_2022_PROGRAM_ID : string := "TokenzQdBNbLqP5VEhdkAS6EPFLC1PHnBqCXEpPxuEb".
Definition COMPUTE_BUDGET : string := "ComputeBudget111111111111111111111111111111".

Section Ops.
Context `{L : BNLib} `{W : Web3} (cfg : Settings).

Definition zero : outcome BN := bn_of_int (Some 0).
Definition dust : outcome BN := bn_of_int (Some 1000).

(** ** The lock *)

Definition isBusy (d : Dex) (b : Bot) : bool := busy_of d b.

Definition acquire (d : Dex) : P bool :=
  let* b := gets (busy_of d) in
  if b then ret false
  else do* modify (on_executor d (with_busy true)) in ret true.

Definition release (d : Dex) : P unit := modify (on_executor d (with_busy false)).

(** ** Waiting and retrying *)

Definition sleep (ms : Z) : P unit := await (Sleep ms).

(** The attempts from the [attempt]-th on, [left] of them. *)
Fixpoint retry_loop {A} (fn : P A) (attempt : Z) (left : nat) : P A :=
  match left with
  | O => throw "unreachable"
  | S left' =>
      catch fn (fun e =>
        if negb (left' =? 0)%nat && isTransientError e
        then do* sleep (2000 * (attempt + 1)) in retry_loop fn (attempt + 1) left'
        else throw e)
  end.

Definition retryOnTransient {A} (fn : P A) : P A := retry_loop fn 0 3.

(** [None] is null: three failures, or three answers of null. *)
Fixpoint get_position_loop (nft : string) (attempt : Z) (left : nat) : P (option PositionInfo) :=
  match left with
  | O => ret None
  | S left' =>
      let* info := catch (await (GetPositionInfoByNftMint nft)) (fun _ => ret None) in
      match info with
      | Some i => ret (Some i)
      | None =>
          do* (if (left' =? 0)%nat then ret tt else sleep (2000 * (attempt + 1))) in
          get_position_loop nft (attempt + 1) left'
      end
  end.

Definition retryGetPosition (nft : string) : P (option PositionInfo) := get_position_loop nft 0 3.

(** ** Reading the chain *)

Definition fetched_meta (tx : option FetchedTx) : option TransactionMeta := tx ≫= fun t => meta (f_tx t).

(** One attempt answers, or asks for the next one. *)
Fixpoint verify_loop (txSig : string) (attempt : Z) (left : nat) : P bool :=
  match left with
  | O => ret false
  | S left' =>
      let last := (left' =? 0)%nat in
      let* verdict :=
        catch
          (do* (if 0 <? attempt then sleep (3000 * attempt) else ret tt) in
           let* tx := await (GetParsedTransaction txSig) in
           match fetched_meta tx with
           | None => ret (if last then Some false else None)
           | Some m => ret (Some (negb (err m)))
           end)
          (fun _ => ret (if last then Some false else None)) in
      match verdict with
      | Some v => ret v
      | None => verify_loop txSig (attempt + 1) left'
      end
  end.

Definition verifyTxSuccess (txSig : string) : P bool := verify_loop txSig 0 3.

(** The balances of an owner, the last one of a mint. *)
Definition owned_balances (ownerStr : string) (bs : list TokenBalance) : outcome (list (string * Z)) :=
  foldl (fun acc b =>
    let! m := acc in
    if bool_decide (owner b = Some ownerStr) && truthy (mint b) then
      let! a := BigInt (amount (uiTokenAmount b)) in Ret (jset (mint b) a m)
    else Ret m) (Ret []) bs.

Definition gained (pre post : list (string * Z)) (m : string) : outcome (option (string * BN)) :=
  let diff := default 0 (jget m post) - default 0 (jget m pre) in
  if 0 <? diff then
    let! k := publicKey m in let! a := bn_of_string (Z_toString diff) in Ret (Some (k, a))
  else Ret None.

Definition token_changes (ownerStr : string) (t : ParsedTransaction) : outcome (list (string * BN)) :=
  let! pre := owned_balances ownerStr (preTB t) in
  let! post := owned_balances ownerStr (postTB t) in
  let! gs := omapM (gained pre post) (set_of (jkeys pre ++ jkeys post)) in
  Ret (omap id gs).

Definition parseTxTokenChanges (txSig : string) : P (list (string * BN)) :=
  catch
    (let* tx := await (GetParsedTransaction txSig) in
     match tx with
     | Some t =>
         match meta (f_tx t) with
         | Some _ => lift (token_changes (userAddress cfg) (f_tx t))
         | None => ret []
         end
     | None => ret []
     end)
    (fun _ => ret []).

(** SOL beyond the reserve of 0.05. *)
Definition availableLamports : P BN :=
  let* nativeLamports := await GetBalance in
  lift (bn_of_int (Some (Z.max 0 (nativeLamports - 50000000)))).

Definition balance_under (mint_ program : string) : P BN :=
  let* account := lift (getAssociatedTokenAddressSync mint_ (userAddress cfg) program) in
  let* raw := await (GetTokenAccountBalance account) in
  let* amount := lift (bn_of_string raw) in
  if bool_decide (mint_ = NATIVE_MINT) then
    let* available := availableLamports in ret (bn_add amount available)
  else ret amount.

Definition getTokenBalance (mint_ : string) : P BN :=
  catch (balance_under mint_ TOKEN_PROGRAM_ID) (fun _ =>
  catch (balance_under mint_ TOKEN_2022_PROGRAM_ID) (fun _ =>
  if bool_decide (mint_ = NATIVE_MINT) then
    catch availableLamports (fun _ => lift zero)
  else lift zero)).

(** [lamports / 1e9], 0 when the balance cannot be read. *)
Definition getSolBalance : P num :=
  catch
    (let* lamports := await GetBalance in ret (ndiv (num_of_Z lamports) (num_of_Z 1000000000)))
    (fun _ => ret (num_of_Z 0)).

(** ** Transactions without a compute-unit price *)

Definition isComputeBudgetInstructionType (ix : Ix) (type : Z) : bool :=
  bool_decide (x_programId ix = COMPUTE_BUDGET) && bool_decide (head (x_data ix) = Some type).

Definition stripByrealComputeUnitPriceInstructions (ixs : list Ix) : list Ix :=
  keep (fun ix => negb (isComputeBudgetInstructionType ix 3)) ixs.

(** [Math.ceil(x)] *)
Definition ceilZ (x : num) : option Z := Z.opp <$> floorZ (nopp x).

(** From the units a simulation consumed. *)
Definition estimated_units (consumed : Z) : Z :=
  let scaled := default 0 (ceilZ (nmul (num_of_Z consumed) (dec_num 13 1))) in
  Z.max (Z.min (Z.max (consumed + 100000) scaled) 1400000) 100000.

Definition estimateByrealComputeUnitLimit (ixs : list Ix) (payer blockhash : string) : P Z :=
  catch
    (let filtered := keep (fun ix => negb (isComputeBudgetInstructionType ix 2)) ixs in
     let* cu := lift (setComputeUnitLimit 1400000) in
     let* tx := lift (compileToV0Message payer blockhash (cu :: filtered)) in
     let* simulation := await (SimulateTransaction tx) in
     if sim_logs simulation && negb (unitsConsumed simulation =? 0)
     then ret (estimated_units (unitsConsumed simulation))
     else ret 400000)
    (fun _ => ret 400000).

Definition makeByrealZeroPriorityTransaction (instructions signers : list _) : P VTx :=
  let payer := userAddress cfg in
  let* blockhash := await GetLatestBlockhash in
  let cleaned := stripByrealComputeUnitPriceInstructions instructions in
  let* final :=
    if some (fun ix => isComputeBudgetInstructionType ix 2) cleaned then ret cleaned
    else let* units := estimateByrealComputeUnitLimit cleaned payer blockhash in
         let* cu := lift (setComputeUnitLimit units) in
         ret (cu :: cleaned) in
  let* tx := lift (compileToV0Message payer blockhash final) in
  match signers with
  | [] => ret tx
  | _ => lift (signWith signers tx)
  end.

Definition makeSdkTransactionWithoutPriorityFee (result : SdkResult) : P VTx :=
  makeByrealZeroPriorityTransaction (s_instructions result) (s_signers result).

(** The end of every operation's [fn]: [signerCallback], then [sendTransaction]. *)
Definition signAndSend (tx : VTx) : P string :=
  let* signed := await (SignerCallback tx) in
  await (SendTransaction signed).

(** Build from the SDK's instructions, sign, send. *)
Definition buildSignSend (instructions : P SdkResult) : P string :=
  let* result := instructions in
  let* tx := makeSdkTransactionWithoutPriorityFee result in
  signAndSend tx.

(** ** Stores *)

Definition on_positionMap (f : PositionMap.t -> PositionMap.t) : P unit :=
  modify (fun b => set_positionMap (f (positionMap b)) b).
Definition removeReferer (targetNft : string) : P unit :=
  modify (fun b => set_referers (OpenedReferers.removeOpenedRefererByTargetNft targetNft (referers b)).1 b).

(** [this.positionMap.delete(t); this.removeReferer(t)] *)
Definition forgetMapping (targetNft : string) : P unit :=
  do* on_positionMap (PositionMap.delete targetNft) in
  removeReferer targetNft.

Definition addPendingSwap (mint_ : string) (amount : BN) : P unit :=
  if shas mint_ STABLE_MINTS || bool_decide (mint_ = NATIVE_MINT) then ret tt
  else
    let* z := lift zero in
    if bn_lte amount z then ret tt
    else
      let* now := clock in
      let* s := gets pendingSwaps in
      let* r := lift (PendingSwaps.addPending now mint_ amount s) in
      modify (set_pending r.2).

(** Credit what a transaction brought in. *)
Definition queueReceived (txSig : string) : P unit :=
  let* received := parseTxTokenChanges txSig in
  for_each (fun mr => addPendingSwap mr.1 mr.2) received.

Definition clearPending (inputMint : string) : P unit :=
  modify (fun b => set_pending (PendingSwaps.deletePendingSwap inputMint (pendingSwaps b)) b).

Definition notify (n : Notice) : P unit := spawn (Notify n).

Definition set_lastSkipReason (r : option string) : P unit := modify (on_executor Byreal (with_lastSkipReason r)).

End Ops.

(** ** Instances for concrete runs *)

(** Keys are taken as they are; a compiled transaction lists the program of
    each instruction. *)
Definition demo_web3 : Web3 := {|
  publicKey := fun s => Ret s;
  getAssociatedTokenAddressSync := fun m o p => Ret (m +:+ "@" +:+ p)%string;
  setComputeUnitLimit := fun u => Ret (mkIxn COMPUTE_BUDGET [] [2; u mod 256; u / 256 mod 256; u / 65536 mod 256; u / 16777216]);
  compileToV0Message := fun payer bh ixs =>
    Ret (mkVTx (payer :: map x_programId ixs) (imap (fun i ix => mkCompiled (Datatypes.S i) (x_data ix) "") ixs) bh);
  signWith := fun _ tx => Ret tx;
  deserialize := fun j =>
    match j with Some (JStr s) => Ret (mkVTx [] [] s) | _ => Throw "The first argument must be of type string" end;
  serialize := fun tx => Ret (v_rest tx);
  MEMO_PROGRAM_ID := "Memo" |}.

Definition demo_settings : Settings := {|
  userAddress := "Me"; dryRun := false; skipPreflight := false; slippageBps := num_of_Z 50; maxRetry := 3;
  jupiterApiBase := "https://jup"; jupApiKey := None; jupSwapMode := "metis"; tvlSource := "dex";
  minPoolTvl := num_of_Z 0; poolTvlWhitelist := []; minPoolAgeDays := num_of_Z 0; poolAgeWhitelist := [];
  pumpFilterMode := PumpPending.Off; skipSameTickRange := false; byrealMaxOpenPositions := 0;
  coinConcentrationOverrides := []; maxCoinConcentrationUsd := num_of_Z 0; maxCoinConcentrationPct := num_of_Z 0;
  ratios := Ratio.mkRatioConfig [] (num_of_Z 1); dupRule := OpenedReferers.mkDup false [] [];
  tokenNames := fun _ => None; checkers := [];
  rpcUrlsFree := []; orcaCloseOnlyWallets := []; orcaSkipSol := false; pcsSkipSol := false;
  meteoraCloseOnlyWallets := []; meteoraSkipSol := false; dammv2CloseOnlyWallets := []; dammv2SkipSol := false;
  tokenBlacklist := [] |}.

Definition demo_balance (m amount : string) : TokenBalance :=
  mkBalance 0 m (Some "Me"%string) (mkUi amount 6 None None).

(** A transaction that brought 500 of MINT in. *)
Definition demo_tx (failed : bool) : FetchedTx :=
  mkFetched (mkTx (Some (mkMeta failed (num_of_Z 5000) None None (Some [demo_balance "MINT" "100"])
                           (Some [demo_balance "MINT" "600"]) None)) [] []) None.

Definition demo_pool : PoolInfo (L := Z_BN) := mkPoolInfo (L := Z_BN) "Pool" "MINT" USDC (2 ^ 64) 6 6.
Definition demo_position (liquidity a b : Z) : PositionInfo (L := Z_BN) :=
  mkPositionInfo (L := Z_BN) (-10) 10 liquidity demo_pool a "1" b "1".

Definition demo_wp : WpPosition (L := Z_BN) := mkWpPosition (L := Z_BN) "Pool" (-10) 10 100 "".

Definition demo_orca (send : outcome string) (c : OrcaCall (L := Z_BN)) : outcome (OrcaAns c) :=
  match c return outcome (OrcaAns c) with
  | WpGetPosition _ _ => Ret (Some demo_wp)
  | WpGetPool _ a => Ret (mkWhirlpool a "MINT" USDC "")
  | BuildTokenExtensionContext _ _ _ => Ret ""%string
  | GetMintInfo _ _ => Ret (Some 6)
  | InitTickArrayForTicks _ _ _ => Ret None
  | WpOpenPosition _ _ _ _ => Ret ("OurNft"%string, mkBuilder 0)
  | WpClosePosition _ _ _ => Ret [mkBuilder 1]
  | WpIncreaseLiquidity _ _ => Ret (mkBuilder 2)
  | WpDecreaseLiquidity _ _ _ _ => Ret (mkBuilder 3)
  | WpCollectFees _ => Ret (mkBuilder 4)
  | BuildAndExecute _ => send
  end.

Definition demo_pcs (info : string -> option (PositionInfo (L := Z_BN))) (c : PcsCall (L := Z_BN)) : outcome (PcsAns c) :=
  match c return outcome (PcsAns c) with
  | PcsGetPosition n => Ret ((fun i => mkPcsPosition (L := Z_BN) i None None) <$> info n)
  | PcsDecreaseFull _ _ | PcsDecrease _ _ | PcsCollectFees _ => Ret (mkSdk [mkIxn "Pcs" [] [7]] [])
  | PcsCreatePosition _ _ _ _ _ _ => Ret (mkOpenResult (mkSdk [mkIxn "Pcs" [] [1]] []) "OurNft")
  | PcsAddLiquidity _ _ _ _ _ => Ret (mkVTx [] [] "add")
  | MakeTransaction ixs _ _ => Ret (mkVTx (map x_programId ixs) [] "")
  | GetTokenAccountsByOwner _ _ => Ret [repeat 0 64 ++ [136; 19; 0; 0; 0; 0; 0; 0]]
  end.

Definition demo_ltx (rest : string) : LTx := mkLTx None None [] rest.

Definition demo_legacy (send : outcome string) (c : LegacyCall) : outcome (LegacyAns c) :=
  match c return outcome (LegacyAns c) with
  | GenerateKeypair => Ret "OurNft"%string
  | SignLegacy tx _ => Ret tx
  | SendRawTransaction _ => send
  | GetAccountInfo _ => Ret (Some "Owner"%string)
  | GetParsedDecimals _ => Ret (Some 6)
  end.

Definition demo_lb (key x y : string) : LbPosition (L := Z_BN) := mkLbPosition (L := Z_BN) key (-10) 10 x y None None "".

Definition demo_meteora (c : MeteoraCall (L := Z_BN)) : outcome (MeteoraAns c) :=
  match c return outcome (MeteoraAns c) with
  | DlmmCreate a => Ret (mkDlmm a "MINT" USDC)
  | LbGetPosition _ k => Ret (Some (demo_lb k "100" "200"))
  | LbGetPositionsByUser _ u =>
      Ret [demo_lb (if bool_decide (u = "Me"%string) then "OurNft" else "TNft") "100" "200"]
  | LbRemoveLiquidity _ _ _ _ _ => Ret [demo_ltx "remove"]
  | LbClosePosition _ _ => Ret (demo_ltx "close")
  | LbClaimAllSwapFee _ _ => Ret [demo_ltx "claim"]
  | LbInitializePositionAndAddLiquidity _ _ _ _ _ _ => Ret (demo_ltx "open")
  | LbCreateBinArraysIfNeeded _ _ => Ret []
  | LbInitializePosition2 _ _ _ _ => Ret (mkIxn "Lb" [] [1])
  | LbIncreasePositionLength2 _ _ _ => Ret (mkIxn "Lb" [] [2])
  | LbAddLiquidityChunkable _ _ _ _ _ _ => Ret [demo_ltx "chunk1"; demo_ltx "chunk2"]
  | LbAddLiquidity _ _ _ _ _ _ => Ret [demo_ltx "add"]
  end.

Definition demo_damm (c : DammCall (L := Z_BN)) : outcome (DammAns c) :=
  match c return outcome (DammAns c) with
  | AmFetchPool _ => Ret (mkAmmPool "MINT" USDC "")
  | AmFetchPosition _ => Ret (mkAmmPosition "100" "OurNft" None None)
  | AmCreatePosition _ _ => Ret (demo_ltx "create")
  | AmAddLiquidity _ _ _ _ _ _ _ _ => Ret (demo_ltx "add")
  | AmClaimPositionFee _ _ _ _ _ => Ret (demo_ltx "claim")
  | AmRemoveLiquidity _ _ _ _ _ _ _ | AmRemoveAllLiquidity _ _ _ _ _ _ => Ret (demo_ltx "remove")
  | AmRemoveAllAndClose _ _ _ _ _ | AmClosePosition _ _ _ _ => Ret (demo_ltx "close")
  end.

(** Every call succeeds; [send] answers the sends and [info] the positions. *)
Definition demo_answer (send : outcome string) (info : string -> option (PositionInfo (L := Z_BN)))
    (c : Call (L := Z_BN)) : outcome (Ans c) :=
  match c return outcome (Ans c) with
  | Sleep _ => Ret tt
  | GetPositionInfoByNftMint n => Ret (info n)
  | DecreaseFullLiquidityInstructions _ _ | DecreaseLiquidityInstructions _ _ | CollectFeesInstructions _
  | AddLiquidityInstructions _ _ _ _ => Ret (mkSdk [mkIxn "Byreal" [] [7]] [])
  | CreatePositionInstructions _ _ _ _ _ _ => Ret (mkOpenResult (mkSdk [mkIxn "Byreal" [] [1]] []) "OurNft")
  | QuoteSwapExactOut _ _ _ _ => Throw "no route"
  | SwapExactOut _ _ => Throw "no route"
  | GetRawPositionInfoList => Ret []
  | CollectAllPositionFeesInstructions _ => Ret []
  | GetLatestBlockhash => Ret "Blockhash"%string
  | SimulateTransaction _ => Ret (mkSimulation true 200000)
  | SendTransaction _ => send
  | ConfirmTransaction _ _ => Ret tt
  | GetTransaction _ => Ret JNull
  | GetParsedTransaction _ => Ret (Some (demo_tx false))
  | GetTokenAccountBalance _ => Ret "5000"%string
  | GetBalance => Ret 1000000000
  | GetMinimumBalanceForRentExemption n => Ret n
  | GetParsedTokenAccountsByOwner _ => Ret []
  | SignerCallback tx | SignVersioned tx => Ret tx
  | Fetch _ _ _ _ => Throw "fetch failed"
  | ReadText _ => Ret ""%string
  | ReadJson _ => Ret JNull
  | BatchAnswer _ => Ret None
  | IsPositionOf _ _ => Ret false
  | OnOrca c => demo_orca send c
  | OnPcs c => demo_pcs info c
  | OnLegacy c => demo_legacy send c
  | OnMeteora c => demo_meteora c
  | OnDamm c => demo_damm c
  end.

Definition demo_env (send : outcome string) (info : string -> option (PositionInfo (L := Z_BN)))
    : Env Bot (Call (L := Z_BN)) (Ans (L := Z_BN)) :=
  mkEnv (fun _ c b => (demo_answer send info c, b)) (fun n => Z.of_nat n).

End Chain.
