(* ===== verification/ZeroPriority.v ===== *)
(** * Transactions that bid no priority fee

    [makeByrealZeroPriorityTransaction], which builds every Byreal transaction:
    the caller's instructions without their compute-unit prices, with a unit
    limit estimated from a simulation when the caller set none. *)

From S2P Require Import Prelude JsMap JsString JsNumber Json Async TxTypes PositionMap State Chain.
Open Scope Z_scope.
Open Scope list_scope.
Open Scope prog_scope.

Module ZeroPriority.
Import Async State Chain.

Lemma estimated_units_range consumed : 100000 <= estimated_units consumed <= 1400000.
Proof. unfold estimated_units. lia. Qed.

(** The estimate leaves a margin over what the simulation consumed. *)
Lemma estimated_units_margin consumed : Z.min (consumed + 100000) 1400000 <= estimated_units consumed.
Proof. unfold estimated_units. lia. Qed.

Section Built.
Context `{L : BNLib} `{W : Web3} (cfg : Settings).

Abbreviation Hist := (list (HEvent Call Ans Task)).
Abbreviation TL := (hist_logic (fun (_ : Hist) (_ _ : Bot) => True) (fun _ _ => True) (fun _ _ => True)).

(** [ComputeBudgetProgram.setComputeUnitLimit] makes an instruction of type 2
    of that program. *)
Definition limit_encoding : Prop :=
  forall u cu, setComputeUnitLimit u = Ret cu -> isComputeBudgetInstructionType cu 2 = true.

Definition price (ix : Ix) : bool := isComputeBudgetInstructionType ix 3.
Definition limit (ix : Ix) : bool := isComputeBudgetInstructionType ix 2.

(** What a built transaction carries. *)
Definition carries (given sent : list Ix) : Prop :=
  Forall (fun ix => price ix = false) sent
  /\ exists limits, sent = limits ++ keep (fun ix => negb (price ix)) given
     /\ (if some limit given then limits = []
         else exists units cu, limits = [cu] /\ setComputeUnitLimit units = Ret cu /\ limit cu = true
              /\ 100000 <= units <= 1400000).

Definition built (ixs : list Ix) (signers : list string) (r : outcome VTx) (h : Hist) : Prop :=
  forall tx, r = Ret tx ->
    exists blockhash sent unsigned,
      Called GetLatestBlockhash (Ret blockhash) ∈ h /\ carries ixs sent
      /\ compileToV0Message (userAddress cfg) blockhash sent = Ret unsigned
      /\ (if signers is [] then tx = unsigned else signWith signers unsigned = Ret tx).

Lemma limit_not_price ix : limit ix = true -> price ix = false.
Proof using Type.
  unfold limit, price, isComputeBudgetInstructionType. intros [Hp Hh]%andb_true_iff. rewrite Hp. simpl.
  apply bool_decide_eq_true_1 in Hh. by rewrite Hh.
Qed.

Lemma some_limit_cleaned ixs : some limit (stripByrealComputeUnitPriceInstructions ixs) = some limit ixs.
Proof using Type.
  unfold stripByrealComputeUnitPriceInstructions. induction ixs as [|ix ixs IH]; [done|]. cbn [keep List.filter some existsb].
  change (isComputeBudgetInstructionType ix 3) with (price ix). destruct (price ix) eqn:Ep; cbn [negb].
  - destruct (limit ix) eqn:El; [by rewrite (limit_not_price _ El) in Ep|]. exact IH.
  - cbn [existsb]. f_equal. exact IH.
Qed.

Lemma cleaned_free ixs : Forall (fun ix => price ix = false) (stripByrealComputeUnitPriceInstructions ixs).
Proof using Type.
  apply list.Forall_forall. intros ix [_ H]%elem_of_keep. by apply negb_true_iff in H.
Qed.

Lemma estimate_units ixs payer bh h b :
  wp TL (estimateByrealComputeUnitLimit ixs payer bh) h b
    (fun r h' _ => h `suffix_of` h' /\ exists units, r = Ret units /\ 100000 <= units <= 1400000).
Proof using Type.
  assert (forall h' b', h `suffix_of` h' ->
    wp TL (ret 400000) h' b' (fun r h' _ => h `suffix_of` h' /\ exists units, r = Ret units /\ 100000 <= units <= 1400000)) as Hdef.
  { intros h' b' Hs. cbn [wp ret]. split; [done|]. exists 400000. split; [done|lia]. }
  unfold estimateByrealComputeUnitLimit, Async.lift. apply wp_catch, wp_bind.
  destruct (setComputeUnitLimit 1400000) as [cu|e]; cbn [wp ret]; [|by apply Hdef].
  apply wp_bind. match goal with |- context [compileToV0Message ?p ?q ?l] => destruct (compileToV0Message p q l) as [tx|e] end;
    cbn [wp ret]; [|by apply Hdef].
  apply wp_bind. split; [done|]. intros [sim|e] b' _ _; cbn [wp]; [|refine (Hdef _ b' _); by apply suffix_cons_r].
  destruct (_ && _); cbn [wp ret]; [|refine (Hdef _ b' _); by apply suffix_cons_r].
  split; [by apply suffix_cons_r|]. eexists. split; [done|]. apply estimated_units_range.
Qed.

Lemma built_ok ixs signers h b :
  limit_encoding ->
  wp TL (makeByrealZeroPriorityTransaction cfg ixs signers) h b (fun r h' _ => built ixs signers r h').
Proof using Type.
  intros Henc. unfold makeByrealZeroPriorityTransaction, Async.lift. cbv zeta.
  apply wp_bind. split; [done|]. intros [bh|e] b1 _ _; cbn [wp]; [|by intros tx].
  set (h1 := l_post TL h GetLatestBlockhash (Ret bh)).
  assert (Called GetLatestBlockhash (Ret bh) ∈ h1) as Hbh by by left.
  assert (forall sent h2 b2, h1 `suffix_of` h2 -> carries ixs sent ->
    wp TL (let* tx := Done (compileToV0Message (userAddress cfg) bh sent) in
           match signers with [] => ret tx | _ => Done (signWith signers tx) end) h2 b2
      (fun r h' _ => built ixs signers r h')) as Hend.
  { intros sent h2 b2 Hs Hc. apply wp_bind. destruct (compileToV0Message _ bh sent) as [tx|e] eqn:Et; cbn [wp]; [|by intros tx].
    assert (Called GetLatestBlockhash (Ret bh) ∈ h2) as Hbh2 by (destruct Hs as [k ->]; apply elem_of_app; by right).
    destruct signers as [|s signers]; cbn [wp ret]; intros tx' Htx.
    - injection Htx as <-. by exists bh, sent, tx.
    - by exists bh, sent, tx. }
  apply wp_bind. change (fun ix => isComputeBudgetInstructionType ix 2) with limit. rewrite some_limit_cleaned.
  destruct (some limit ixs) eqn:El; cbn [wp ret].
  - apply Hend; [done|]. split; [apply cleaned_free|]. exists []. by rewrite El.
  - apply wp_bind. eapply wp_mono; [apply estimate_units|]. intros r h2 b2 (Hs & units & -> & Hr).
    apply wp_bind. destruct (setComputeUnitLimit units) as [cu|e] eqn:Eu; cbn [wp ret]; [|by intros tx].
    apply Hend; [done|]. pose proof (Henc _ _ Eu) as Hcu. split.
    + constructor; [by apply limit_not_price|apply cleaned_free].
    + exists [cu]. rewrite El. split; [done|]. exists units, cu. done.
Qed.

End Built.

(** Every transaction that is built bids nothing for priority: it is the
    message compiled, under a blockhash that was just read, from exactly the
    caller's instructions without the compute-unit prices, in their order, behind
    one unit limit between 100000 and 1400000 when the caller set none, and it is
    signed by the given signers. *)
Theorem transactions_bid_nothing `{L : BNLib} `{W : Web3} (cfg : Settings) ixs signers env k b :
  limit_encoding ->
  let x := run env k [] (makeByrealZeroPriorityTransaction cfg ixs signers) b in
  built cfg ixs signers (res x) (hist x).
Proof.
  intros Henc.
  apply (hist_run (makeByrealZeroPriorityTransaction cfg ixs signers) (fun _ _ _ => True) (fun _ _ => True) (fun _ _ => True)
           env k [] b (fun r h _ => built cfg ixs signers r h)); [done|]. by apply built_ok.
Qed.

(** A price and a transfer: the price goes, a limit comes. *)
Definition priced : list Ix := [mkIxn COMPUTE_BUDGET [] [3; 9]; mkIxn "Byreal" [] [7]].

Lemma transactions_bid_nothing_witness :
  let env := demo_env (Ret "Sig"%string) (fun _ => None) in
  let x := run env 0 [] (makeByrealZeroPriorityTransaction (L := Z_BN) (W := demo_web3) demo_settings priced [])
             (fresh PositionMap.new) in
  (exists tx, res x = Ret tx /\ map c_data (compiledInstructions tx) = [[2; 224; 147; 4; 0]; [7]])
  /\ built (W := demo_web3) demo_settings priced [] (res x) (hist x).
Proof.
  cbv zeta. split; [eexists; split; vm_compute; reflexivity|].
  apply (transactions_bid_nothing (W := demo_web3)). intros u cu [= <-]. done.
Defined.

End ZeroPriority.
