(* ===== verification/JupiterSwap.v ===== *)
(** * Swaps ([src/executor/jupiter-swap.ts], [src/utils/jupiter-api.ts])

    The Jupiter client in both of its modes, the swap through a Byreal pool,
    the holdings cache, the transaction sender with its attempts, and the
    output of a swap read back from its transaction.  JSON answers are used as
    they come, as the code does: a missing field is an exception where the code
    reads through it. *)

From S2P Require Import Prelude JsMap JsString JsNumber Json Async Ratio TxTypes State Chain.
Open Scope Z_scope.
Open Scope list_scope.
Open Scope prog_scope.

Module JupiterSwap.
Import Async State Chain.

Section JupiterSwap.
Context `{L : BNLib} `{W : Web3} (cfg : Settings).

(** ** [src/utils/jupiter-api.ts] *)

Definition api_key : list (string * string) :=
  if truthy (jupApiKey cfg) then [("x-api-key", default "" (jupApiKey cfg))]%string else [].

Definition jupiterHeaders (extra : list (string * string)) : list (string * string) :=
  foldl (fun h kv => jset kv.1 kv.2 h) extra api_key.

Definition jupiterFetch (url : Url) (method : string) (headers : list (string * string)) (body : option Json)
    : P Response :=
  await (Fetch url method (jupiterHeaders headers) body).

(** ** The module's variables *)

Definition set_lastSwapError (e : string) : P unit :=
  modify (fun b => set_swapVars (mkSwapVars e (holdingsCache (swapVars b))) b).
Definition set_holdings (h : option (list (string * Z) * Z)) : P unit :=
  modify (fun b => set_swapVars (mkSwapVars (lastSwapError (swapVars b)) h) b).

Definition invalidateHoldingsCache : P unit := set_holdings None.

(** The error is recorded and null returned. *)
Definition failWith {A} (prefix e : string) : P (option A) :=
  do* set_lastSwapError (prefix +:+ e) in ret None.

(** ** Holdings *)

Definition HOLDINGS_CACHE_MS : Z := 30000.

Definition holdings_url : Url := mkUrl ("https://api.jup.ag/ultra/v1/holdings/" +:+ userAddress cfg) [].

(** The sum over the token accounts of a mint. *)
Definition sum_accounts (accounts : list Json) : outcome Z :=
  foldl (fun acc a =>
    let! total := acc in
    let! am := jfield (Some a) "amount" in
    if truthy am then let! z := jBigInt am in Ret (total + z) else Ret total) (Ret 0) accounts.

Definition read_balances (json : Json) : outcome (list (string * Z)) :=
  let! tokens := jfield (Some json) "tokens" in
  match tokens with
  | Some (JObj _ as t) | Some (JArr _ as t) =>
      foldl (fun acc kv =>
        let! m := acc in
        match kv.2 with
        | JArr accounts => let! z := sum_accounts accounts in Ret (jset kv.1 z m)
        | _ => Ret m
        end) (Ret []) (jentries t)
  | _ => Ret []
  end.

Definition fetch_holdings (inputMint : string) : P (option Z) :=
  catch
    (let* res := await (Fetch holdings_url "GET" api_key None) in
     if negb (r_ok res) then ret None
     else
       let* json := await (ReadJson res) in
       let* balances := lift (read_balances json) in
       let* now := clock in
       do* set_holdings (Some (balances, now)) in
       ret (Some (default 0 (jget inputMint balances))))
    (fun _ => ret None).

(** [None] is null: the balance is unknown. *)
Definition getInputBalance (inputMint : string) : P (option Z) :=
  let* cache := gets (fun b => holdingsCache (swapVars b)) in
  let* now := clock in
  match cache with
  | Some (data, fetchedAt) =>
      if now - fetchedAt <? HOLDINGS_CACHE_MS then ret (Some (default 0 (jget inputMint data)))
      else fetch_holdings inputMint
  | None => fetch_holdings inputMint
  end.

(** ** Transactions *)

(** [None] is null; the outer index past the static keys is undefined. *)
Definition getJupiterComputeBudgetInstructionType (tx : VTx) (ix : CompiledIx) : option Z :=
  match staticAccountKeys tx !! programIdIndex ix with
  | Some k => if bool_decide (k = COMPUTE_BUDGET) then head (c_data ix) else None
  | None => None
  end.

(** The transaction without them, and how many were removed. *)
Definition stripJupiterComputeUnitPrice (tx : VTx) : VTx * Z :=
  let price ix := bool_decide (getJupiterComputeBudgetInstructionType tx ix = Some 3) in
  let kept := keep (fun ix => negb (price ix)) (compiledInstructions tx) in
  (mkVTx (staticAccountKeys tx) kept (v_rest tx),
   Z.of_nat (length (keep price (compiledInstructions tx)))).

(** One attempt of the sender: a landed transaction that failed throws. *)
Definition send_once (tx : VTx) : P string :=
  let* sig := await (SendTransaction tx) in
  let* blockhash := await GetLatestBlockhash in
  do* await (ConfirmTransaction sig blockhash) in
  let* txErr := await (GetTransaction sig) in
  if truthy txErr then throw ("TX confirmed but failed on-chain: " +:+ jstringify txErr) else ret sig.

Fixpoint send_loop (tx : VTx) (left : nat) : P string :=
  match left with
  | O => throw "All retries exhausted"
  | S left' =>
      catch (send_once tx) (fun e =>
        if (left' =? 0)%nat then throw e else do* sleep 2000 in send_loop tx left')
  end.

Definition sendWithRetry (tx : VTx) : P string := send_loop tx (Z.to_nat (maxRetry cfg)).

(** ** Quotes *)

Definition quote_params (inputMint outputMint amount : string) : list (string * string) :=
  [("inputMint", inputMint); ("outputMint", outputMint); ("amount", amount);
   ("slippageBps", num_toString (slippageBps cfg)); ("maxAccounts", "64")]%string.

(** The answer of a request, or its status and text as an exception. *)
Definition json_or_throw (label : string) (res : Response) : P Json :=
  if r_ok res then await (ReadJson res)
  else
    let* text := await (ReadText res) in
    throw (label +:+ " " +:+ Z_toString (r_status res) +:+ ": " +:+ text).

Definition request_quote (label inputMint outputMint amount : string) : P Json :=
  let* res := jupiterFetch (mkUrl (jupiterApiBase cfg +:+ "/quote") (quote_params inputMint outputMint amount))
                "GET" [] None in
  let* data := json_or_throw label res in
  let* error := lift (jfield (Some data) "error") in
  let* errorCode := lift (jfield (Some data) "errorCode") in
  if truthy error || truthy errorCode then
    throw (jstring (default JNull (if truthy errorCode then errorCode else error)))
  else ret data.

(** [None] when the quote failed; [prefix] starts the recorded error. *)
Definition try_quote (prefix label inputMint outputMint amount : string) : P (option Json) :=
  catch (let* q := request_quote label inputMint outputMint amount in ret (Some q)) (failWith prefix).

(** ** Metis *)

Definition swap_body (quote : Json) : Json :=
  JObj [("quoteResponse", quote); ("userPublicKey", JStr (userAddress cfg)); ("dynamicComputeUnitLimit", JBool true)]%string.

Definition buildAndSendMetis (quote : Json) : P (option string) :=
  let* swapData :=
    catch
      (let* res := jupiterFetch (mkUrl (jupiterApiBase cfg +:+ "/swap") []) "POST"
                     [("Content-Type", "application/json")]%string (Some (swap_body quote)) in
       let* j := json_or_throw "Swap API" res in ret (Some j))
      (failWith "Metis build: ") in
  match swapData with
  | None => ret None
  | Some data =>
      catch
        (let* swapTransaction := lift (jfield (Some data) "swapTransaction") in
         let* tx := lift (deserialize swapTransaction) in
         let* signed := await (SignVersioned (stripJupiterComputeUnitPrice tx).1) in
         let* txSig := sendWithRetry signed in
         do* invalidateHoldingsCache in
         ret (Some txSig))
        (failWith "Metis send: ")
  end.

Definition metisSwap (inputMint outputMint amount : string) : P (option string) :=
  let* quote := try_quote "Metis quote: " "Quote" inputMint outputMint amount in
  match quote with
  | None => ret None
  | Some q => buildAndSendMetis q
  end.

(** ** Ultra *)

Definition ultra_headers : list (string * string) :=
  foldl (fun h kv => jset kv.1 kv.2 h) [("Content-Type", "application/json")]%string api_key.

Definition request_order (inputMint outputMint amount : string) : P (option (Json * Json)) :=
  catch
    (let* res := await (Fetch (mkUrl "https://api.jup.ag/ultra/v1/order"
                   [("inputMint", inputMint); ("outputMint", outputMint); ("amount", amount);
                    ("taker", userAddress cfg)]%string) "GET" ultra_headers None) in
     let* order := json_or_throw "Order" res in
     let* transaction := lift (jfield (Some order) "transaction") in
     let* requestId := lift (jfield (Some order) "requestId") in
     match transaction, requestId with
     | Some t, Some r =>
         if truthy t && truthy r then ret (Some (t, r))
         else throw ("Invalid order: " +:+ String.substring 0 200 (jstringify order))
     | _, _ => throw ("Invalid order: " +:+ String.substring 0 200 (jstringify order))
     end)
    (failWith "Ultra order: ").

(** [result.status || result.error || 'unknown'] *)
Definition status_text (result : Json) : outcome string :=
  let! status := jfield (Some result) "status" in
  let! error := jfield (Some result) "error" in
  Ret (if truthy status then jstring (default JNull status)
       else if truthy error then jstring (default JNull error) else "unknown"%string).

Definition is_success (status : option Json) : bool :=
  match status with Some (JStr st) => bool_decide (st = "Success"%string) | _ => false end.

Definition execute_order (transaction requestId : Json) : P (option string) :=
  catch
    (let* tx := lift (deserialize (Some transaction)) in
     let* signed := await (SignVersioned (stripJupiterComputeUnitPrice tx).1) in
     let* signedTx := lift (serialize signed) in
     let* res := await (Fetch (mkUrl "https://api.jup.ag/ultra/v1/execute" []) "POST" ultra_headers
                   (Some (JObj [("signedTransaction", JStr signedTx); ("requestId", requestId)]%string))) in
     let* result := json_or_throw "Execute" res in
     let* status := lift (jfield (Some result) "status") in
     let* signature := lift (jfield (Some result) "signature") in
     if is_success status && truthy signature
     then do* invalidateHoldingsCache in ret (Some (jstring (default JNull signature)))
     else let* t := lift (status_text result) in throw ("Execute status: " +:+ t))
    (failWith "Ultra exec: ").

Definition ultraSwap (inputMint outputMint amount : string) : P (option string) :=
  let* order := request_order inputMint outputMint amount in
  match order with
  | None => ret None
  | Some (t, r) => execute_order t r
  end.

Definition jupSwapExactIn (inputMint outputMint amount : string) : P (option string) :=
  if bool_decide (jupSwapMode cfg = "ultra"%string) then ultraSwap inputMint outputMint amount
  else metisSwap inputMint outputMint amount.

(** ** [swapForToken] *)

Definition input_decimals (inputMint : string) : nat := if bool_decide (inputMint = NATIVE_MINT) then 9 else 6.

(** [(Number(raw) / 10 ** decimals).toFixed(4)] *)
Definition ui_text (raw : Z) (decimals : nat) : string :=
  toFixed (ndiv (num_of_Z raw) (num_of_Z (10 ^ Z.of_nat decimals))) 4.

Definition swapForToken (inputMint outputMint outputAmountRaw : string) : P (option string) :=
  do* set_lastSwapError "" in
  if dryRun cfg then ret (Some "dry-run-swap"%string)
  else
    let* probe := try_quote "Jupiter probe: " "Probe quote" inputMint outputMint "1000000" in
    match probe with
    | None => ret None
    | Some probeQuote =>
        let* probeInRaw := lift (jfield (Some probeQuote) "inAmount") in
        let* probeIn := lift (jBigInt probeInRaw) in
        let* probeOutRaw := lift (jfield (Some probeQuote) "outAmount") in
        let* probeOut := lift (jBigInt probeOutRaw) in
        if probeOut =? 0 then ret None
        else
          let* desiredOutput := lift (BigInt outputAmountRaw) in
          let neededInput := Z.quot (desiredOutput * probeIn) probeOut in
          let* quote := try_quote "Jupiter quote: " "Quote" inputMint outputMint (Z_toString neededInput) in
          match quote with
          | None => ret None
          | Some q =>
              let* inputBalance := getInputBalance inputMint in
              let* short :=
                match inputBalance with
                | None => ret None
                | Some have =>
                    let* inAmount := lift (jfield (Some q) "inAmount") in
                    let* need := lift (jBigInt inAmount) in
                    ret (if have <? need then Some (need, have) else None)
                end in
              match short with
              | Some (need, have) =>
                  let d := input_decimals inputMint in
                  failWith "" ("餘額不足 (需要 " +:+ ui_text need d +:+ ", 只有 " +:+ ui_text have d +:+ ")")
              | None => jupSwapExactIn inputMint outputMint (Z_toString neededInput)
              end
          end
    end.

Definition executeJupiterSwap (inputMint outputMint inputAmountUi : string) (inputDecimals : Z) : P (option string) :=
  let rawAmount := floor_num (nmul (parseFloat inputAmountUi) (num_of_Z (10 ^ inputDecimals))) in
  let scaledAmount := Ratio.scaleNumericAmount (ratios cfg) rawAmount None in
  if nle scaledAmount (num_of_Z 0) then ret None
  else if dryRun cfg then ret (Some "dry-run-jupiter-swap"%string)
  else jupSwapExactIn inputMint outputMint (num_toString scaledAmount).

(** ** [swapViaByrealPool] *)

Definition swapViaByrealPool (poolInfo : PoolInfo) (inputMint outputMint outputAmountRaw : string)
    : P (option string) :=
  if dryRun cfg then ret (Some "dry-run-byreal-swap"%string)
  else
    catch
      (let* amountOut := lift (bn_of_string outputAmountRaw) in
       let* quoteReturn := await (QuoteSwapExactOut poolInfo outputMint amountOut
                                    (ndiv (slippageBps cfg) (num_of_Z 10000))) in
       let zeroForOne := negb (isOutputMintA quoteReturn) in
       let* limit := lift (bn_of_string (if zeroForOne then "4295048017"%string
                                         else "79226673521066979257578248090"%string)) in
       let* txSig := await (SwapExactOut poolInfo
                              (mkQuoteReturn (isOutputMintA quoteReturn) (q_maxAmountIn quoteReturn) limit)) in
       ret (Some (txSig : string)))
      (failWith "Byreal pool: ").

(** ** [getActualSwapOutput] *)

Definition balance_of (outputMint wallet : string) (bs : list TokenBalance) : outcome Z :=
  match find_first (fun b => bool_decide (mint b = outputMint) && bool_decide (owner b = Some wallet)) bs with
  | Some b => BigInt (or_else (Some (amount (uiTokenAmount b))) "0"%string)
  | None => BigInt "0"
  end.

Definition swap_output (outputMint wallet : string) (t : ParsedTransaction) : outcome (option string) :=
  let! preAmount := balance_of outputMint wallet (preTB t) in
  let! postAmount := balance_of outputMint wallet (postTB t) in
  Ret (if postAmount <=? preAmount then None else Some (Z_toString (postAmount - preAmount))).

(** [None] asks for the next attempt. *)
Fixpoint output_loop (txSig outputMint wallet : string) (attempt : Z) (left : nat) : P (option string) :=
  match left with
  | O => ret None
  | S left' =>
      let again := if (left' =? 0)%nat then Some None else None in
      let* answer :=
        catch
          (do* (if 0 <? attempt then sleep (3000 * attempt) else ret tt) in
           let* tx := await (GetParsedTransaction txSig) in
           match tx with
           | Some t =>
               match meta (f_tx t) with
               | Some _ => let* o := lift (swap_output outputMint wallet (f_tx t)) in ret (Some o)
               | None => ret again
               end
           | None => ret again
           end)
          (fun _ => ret again) in
      match answer with
      | Some o => ret o
      | None => output_loop txSig outputMint wallet (attempt + 1) left'
      end
  end.

Definition getActualSwapOutput (txSig outputMint wallet : string) : P (option string) :=
  output_loop txSig outputMint wallet 0 3.

End JupiterSwap.

End JupiterSwap.
