(* ===== verification/MarketData.v ===== *)
(** * Liquidity of tokens ([src/monitor/pool-tvl.ts], [jupiter-tvl.ts])

    The cache of the exchange's pools, filled page by page, and the batched
    liquidity queries of Jupiter with their cache.  A waiting request is a
    number; the batch that answers it returns the numbers with their values,
    and the activation that waits for request [n] awaits [BatchAnswer n].

    The number of pages is bounded by the server only, so [fetch_pages] takes
    fuel; [page_fuel_suffices] says how much is enough.  The cache file is read
    as an argument; writing it, and the timers, are left out. *)

From S2P Require Import Prelude JsMap JsString JsNumber Json Async TxTypes PositionMap State Chain.
Open Scope Z_scope.
Open Scope list_scope.
Open Scope prog_scope.

Module MarketData.
Import Async State Chain.

Section MarketData.
Context `{L : BNLib} (cfg : Settings).

(** ** [pool-tvl.ts] *)

Definition getTokenTvl (tokenAddress : string) (m : MarketVars) : option num := tvl <$> jget tokenAddress (tvlCache m).
Definition getPoolInfo (tokenAddress : string) (m : MarketVars) : option PoolCacheEntry := jget tokenAddress (tvlCache m).

Definition set_tvl (c : list (string * PoolCacheEntry)) (at_ : Z) (m : MarketVars) : MarketVars :=
  mkMarket c at_ (jupCache m) (pendingBatch m) (nextRequest m) (batchTimer m).
Definition set_jup (c : list (string * (num * Z))) (m : MarketVars) : MarketVars :=
  mkMarket (tvlCache m) (lastFetchAt m) c (pendingBatch m) (nextRequest m) (batchTimer m).
Definition set_batch (q : list (string * nat)) (n : nat) (t : bool) (m : MarketVars) : MarketVars :=
  mkMarket (tvlCache m) (lastFetchAt m) (jupCache m) q n t.

Definition on_market (f : MarketVars -> MarketVars) : P unit := modify (fun b => set_market (f (market b)) b).

(** [parseFloat(x) || 0], [parseInt(x) || 0] *)
Definition or_zero (x : num) : num := if truthy x then x else num_of_Z 0.

Definition file_entry (v : Json) : outcome PoolCacheEntry :=
  match v with
  | JNum x => Ret (mkPool x (num_of_Z 0))
  | _ =>
      let as_num j := match j with JNum x => x | _ => NaN end in
      let! t := jfield (Some v) "tvl" in
      let! o := jfield (Some v) "openTime" in
      Ret (mkPool (as_num (jnullish t (JNum (num_of_Z 0)))) (as_num (jnullish o (JNum (num_of_Z 0)))))
  end.

(** The entries up to the first malformed one, and whether all were good. *)
Fixpoint load_entries (kvs : list (string * Json)) (c : list (string * PoolCacheEntry))
    : bool * list (string * PoolCacheEntry) :=
  match kvs with
  | [] => (true, c)
  | (k, v) :: kvs' =>
      match file_entry v with
      | Ret e => load_entries kvs' (jset k e c)
      | Throw _ => (false, c)
      end
  end.

(** From the content of the cache file; false when it is absent, stale or
    malformed, but a malformed entry leaves those before it. *)
Definition tryLoadFromFile (now refreshMs : Z) (file : outcome Json) (m : MarketVars) : bool * MarketVars :=
  match file with
  | Throw _ => (false, m)
  | Ret raw =>
      match jfield (Some raw) "fetchedAt", jfield (Some raw) "entries" with
      | Ret (Some (JNum t)), Ret (Some ((JObj _ | JArr _) as es)) =>
          let at_ := default 0 (floorZ t) in
          if negb (truthy t) || (refreshMs <? now - at_) then (false, m)
          else
            let (ok, c) := load_entries (jentries es) [] in
            (ok, set_tvl c (if ok then at_ else lastFetchAt m) m)
      | _, _ => (false, m)
      end
  end.

(** One record of a page: its base token with its TVL and opening time. *)
Definition add_record (c : list (string * PoolCacheEntry)) (rec : Json) : outcome (list (string * PoolCacheEntry)) :=
  let! baseMint := jfield (Some rec) "baseMint" in
  let address := jopt (jopt baseMint "mintInfo") "address" in
  let! t := jfield (Some rec) "tvl" in
  match address, t with
  | Some a, Some tv =>
      let! o := jfield (Some rec) "openTime" in
      let opened := match o with
                    | Some (JNum x) => x
                    | Some j => or_zero (parseInt (jstring j))
                    | None => num_of_Z 0
                    end in
      Ret (jset (jstring a) (mkPool (or_zero (parseFloat (jstring tv))) opened) c)
  | _, _ => Ret c
  end.

Definition records_of (data : Json) : list Json :=
  match jopt (jopt (jopt (Some data) "result") "data") "records" with Some (JArr l) => l | _ => [] end.

(** [data?.result?.data?.total ?? 0], a number in the API. *)
Definition total_of (data : Json) : num :=
  match jnullish (jopt (jopt (jopt (Some data) "result") "data") "total") (JNum (num_of_Z 0)) with
  | JNum x => x
  | _ => NaN
  end.

Definition PAGE_SIZE : Z := 100.
Definition API_URL : string := "https://api2.byreal.io/byreal/api/dex/v2/pools/info/list".

Definition page_url (page : Z) : Url :=
  mkUrl API_URL [("page", Z_toString page); ("pageSize", Z_toString PAGE_SIZE)]%string.

(** [None]: out of fuel. *)
Fixpoint fetch_pages (fuel : nat) (page : Z) (c : list (string * PoolCacheEntry))
    : P (option (list (string * PoolCacheEntry))) :=
  match fuel with
  | O => ret None
  | S fuel' =>
      let* res := await (Fetch (page_url page) "GET" [("Accept", "application/json")]%string None) in
      if negb (r_ok res) then throw ("HTTP " +:+ Z_toString (r_status res))
      else
        let* data := await (ReadJson res) in
        match records_of data with
        | [] => ret (Some c)
        | records =>
            let* c' := lift (foldl (fun acc r => let! c := acc in add_record c r) (Ret c) records) in
            if nle (total_of data) (num_of_Z (page * PAGE_SIZE)) then ret (Some c')
            else fetch_pages fuel' (page + 1) c'
        end
  end.

Definition fetchAndCache (fuel : nat) : P unit :=
  let* newCache := fetch_pages fuel 0 [] in
  match newCache with
  | None => throw "fuel"
  | Some c => let* now := clock in on_market (set_tvl c now)
  end.

(** ** [jupiter-tvl.ts] *)

Definition CACHE_TTL_MS : Z := 10 * 60 * 1000.
Definition NEGATIVE_CACHE_TTL_MS : Z := 5 * 60 * 1000.
Definition CHUNK_SIZE : nat := 30.

Definition known (liquidity : num) : bool := nle (num_of_Z 0) liquidity.

(** The cached answer, if it is fresh: a liquidity, or null for "unknown". *)
Definition fresh_answer (now : Z) (mint_ : string) (m : MarketVars) : option (option num) :=
  match jget mint_ (jupCache m) with
  | Some (liquidity, fetchedAt) =>
      let ttl := if known liquidity then CACHE_TTL_MS else NEGATIVE_CACHE_TTL_MS in
      if now - fetchedAt <? ttl then Some (if known liquidity then Some liquidity else None) else None
  | None => None
  end.

(** Join the batch, starting its timer if there is none, and wait. *)
Definition enqueueMint (mint_ : string) : P (option num) :=
  let* m := gets market in
  let n := nextRequest m in
  do* on_market (fun m => set_batch (pendingBatch m ++ [(mint_, n)]) (Datatypes.S n) true m) in
  do* (if batchTimer m then ret tt else spawn (FlushBatch 50)) in
  await (BatchAnswer n).

Definition getJupiterLiquidity (mint_ : string) : P (option num) :=
  let* now := clock in
  let* m := gets market in
  match fresh_answer now mint_ m with
  | Some a => ret a
  | None => enqueueMint mint_
  end.

Definition getJupiterLiquidityCached (now : Z) (mint_ : string) (m : MarketVars) : option num :=
  match jget mint_ (jupCache m) with
  | Some (liquidity, fetchedAt) =>
      if nlt liquidity (num_of_Z 0) then None
      else if CACHE_TTL_MS <? now - fetchedAt then None else Some liquidity
  | None => None
  end.

(** [getJupiterCacheInfo] *)
Definition jupCacheSize (m : MarketVars) : nat := length (jupCache m).

(** The tokens of an answer by id, the last one of an id. *)
Definition tokens_by_id (arr : list Json) : outcome (list (string * Json)) :=
  foldl (fun acc t =>
    let! m := acc in
    let! id := jfield (Some t) "id" in
    Ret (match id with Some j => if truthy j then jset (jstring j) t m else m | None => m end)) (Ret []) arr.

Definition liquidity_of (token : option Json) : option num :=
  match jopt token "liquidity" with
  | Some (JNum x) => if known x then Some x else None
  | _ => None
  end.

Abbreviation Results := (list (string * option num)).

Definition all_null (mints : list string) (r : Results) : Results := foldl (fun r m => jset m None r) r mints.

(** Each asked mint is cached, as unknown when the answer lacks it. *)
Definition record_tokens (now : Z) (byId : list (string * Json)) (mints : list string)
    (cr : list (string * (num * Z)) * Results) : list (string * (num * Z)) * Results :=
  foldl (fun cr m =>
    match liquidity_of (jget m byId) with
    | Some x => (jset m (x, now) cr.1, jset m (Some x) cr.2)
    | None => (jset m (nopp (num_of_Z 1), now) cr.1, jset m None cr.2)
    end) cr mints.

Definition parseResponse (text : string) (mints : list string) (results : Results) : P Results :=
  let firstLine := default ""%string (head (split_on (Ascii.ascii_of_nat 10) text)) in
  match JSON_parse firstLine with
  | Ret (JArr arr) =>
      match tokens_by_id arr with
      | Ret byId =>
          let* now := clock in
          let* m := gets market in
          let cr := record_tokens now byId mints (jupCache m, results) in
          do* on_market (set_jup cr.1) in
          ret cr.2
      | Throw _ => ret (all_null mints results)
      end
  | _ => ret (all_null mints results)
  end.

Definition search_chunk (chunk : list string) (results : Results) : P Results :=
  let fetch := await (Fetch (mkUrl "https://api.jup.ag/tokens/v2/search" [("query", join "," chunk)]%string)
                        "GET" (if truthy (jupApiKey cfg) then [("x-api-key", default "" (jupApiKey cfg))]%string
                               else []) None) in
  catch
    (let* res := fetch in
     if r_status res =? 429 then
       do* sleep 2000 in
       let* retry := fetch in
       if negb (r_ok retry) then ret (all_null chunk results)
       else let* text := await (ReadText retry) in parseResponse text chunk results
     else if negb (r_ok res) then ret (all_null chunk results)
     else let* text := await (ReadText res) in parseResponse text chunk results)
    (fun _ => ret (all_null chunk results)).

Fixpoint fetch_chunks (first : bool) (chunks : list (list string)) (results : Results) : P Results :=
  match chunks with
  | [] => ret results
  | chunk :: rest =>
      do* (if first then ret tt else sleep 300) in
      let* results' := search_chunk chunk results in
      fetch_chunks false rest results'
  end.

(** Chunks of [CHUNK_SIZE]; there are at most as many as mints. *)
Fixpoint chunks_of (fuel : nat) (mints : list string) : list (list string) :=
  match fuel, mints with
  | S fuel', _ :: _ => take CHUNK_SIZE mints :: chunks_of fuel' (drop CHUNK_SIZE mints)
  | _, _ => []
  end.

Definition fetchBulk (mints : list string) : P Results :=
  fetch_chunks true (chunks_of (length mints) mints) [].

(** The requests of the batch with the values they are resolved with. *)
Definition flushBatch : P (list (nat * option num)) :=
  let* m := gets market in
  let batch := pendingBatch m in
  do* on_market (fun m => set_batch [] (nextRequest m) false m) in
  match batch with
  | [] => ret []
  | _ =>
      catch
        (let* results := fetchBulk (set_of batch.*1) in
         ret (map (fun mn => (mn.2, mjoin (jget mn.1 results))) batch))
        (fun _ => ret (map (fun mn => (mn.2, None)) batch))
  end.

(** ** [checkTokenLiquidity] *)

Definition checkTokenLiquidity (mint_ : string) (dexFallback : option (P (option num))) : P (option num) :=
  if bool_decide (tvlSource cfg = "jupiter"%string) then getJupiterLiquidity mint_
  else
    match dexFallback with
    | Some fallback => fallback
    | None => gets (fun b => getTokenTvl mint_ (market b))
    end.

(** ** How much fuel a refresh needs *)

(** The server's answers: response [p] is page [p], and pages from [n] on are
    empty. *)
Definition paged (n : Z) (c : Call) (r : outcome (Ans c)) : Prop :=
  match c return outcome (Ans c) -> Prop with
  | Fetch u _ _ _ => fun r => forall p res, 0 <= p -> u = page_url p -> r = Ret res -> Z.of_nat (r_id res) = p
  | ReadJson res => fun r => forall data, r = Ret data -> n <= Z.of_nat (r_id res) -> records_of data = []
  | _ => fun _ => True
  end r.

Lemma pages_end n fuel page c h b :
  0 <= page -> (0 < fuel)%nat -> n - page < Z.of_nat fuel ->
  wp (hist_logic (fun _ _ _ => True) (fun _ _ => True) (paged n)) (fetch_pages fuel page c) h b
    (fun r _ _ => r <> Ret None).
Proof using Type.
  revert page c h b. induction fuel as [|fuel IH]; intros page c h b Hp H0 Hf; [lia|]. cbn [fetch_pages].
  apply wp_bind. split; [done|]. intros [res|e] b1 Hok _; [|done].
  assert (Z.of_nat (r_id res) = page) as Hid by by apply (Hok page res Hp).
  cbn [wp]. destruct (negb (r_ok res)); cbn [wp throw]; [done|]. apply wp_bind. split; [done|]. intros [data|e] b2 Hdata _; [|done]. cbn [wp].
  destruct (records_of data) as [|rec records] eqn:Er; [by cbn [wp ret]|].
  assert (page < n) as Hlt.
  { destruct (decide (n <= page)) as [Hn|Hn]; [|lia].
    specialize (Hdata data eq_refl ltac:(lia)). congruence. }
  apply wp_bind. unfold Async.lift. destruct (foldl _ _ _) as [c'|e]; cbn [wp ret]; [|done].
  destruct (nle _ _); [by cbn [wp ret]|]. apply IH; lia.
Qed.

End MarketData.

(** Enough fuel: a server with [n] pages is read to the end with [n + 1], so the
    refresh never runs out of it; it ends with the new cache, or with the error
    of a request. *)
Theorem page_fuel_suffices `{L : BNLib} n fuel env k b :
  n < Z.of_nat fuel -> (forall i c b, paged n c (answer env i c b).1) ->
  (0 < fuel)%nat -> res (run env k [] (fetch_pages fuel 0 []) b) <> Ret None.
Proof.
  intros Hn Henv Hf.
  apply (hist_run (fetch_pages fuel 0 []) (fun _ _ _ => True) (fun _ _ => True) (paged n) env k [] b
           (fun r _ _ => r <> Ret None)); [by split; [apply Henv|]|].
  apply pages_end; lia.
Qed.

(** A server with one page, of one pool. *)
Definition one_page (c : Call (L := Z_BN)) : outcome (Ans c) :=
  match c return outcome (Ans c) with
  | Fetch u _ _ _ =>
      Ret (mkResponse 200 true (Z.to_nat (default 0 (jget "page" (u_params u) ≫= parse_nat 10))))
  | ReadJson r =>
      Ret (if (r_id r =? 0)%nat then
             JObj [("result", JObj [("data", JObj
               [("records", JArr [JObj [("tvl", JStr "12"); ("baseMint", JObj [("mintInfo", JObj [("address", JStr "M")])])]]);
                ("total", JNum (num_of_Z 500))])])]
           else JNull)%string
  | c => demo_answer (Ret "Sig"%string) (fun _ => None) c
  end.

Lemma page_fuel_suffices_witness :
  let env := mkEnv (fun _ c b => (one_page c, b)) (fun _ => 0) in
  let x := run env 0 [] (fetch_pages 2 0 []) (fresh PositionMap.new) in
  res x = Ret (Some [("M"%string, mkPool (num_of_Z 12) (num_of_Z 0))]) /\ res x <> Ret None.
Proof.
  cbv zeta. split; [by vm_compute|]. apply (page_fuel_suffices 1); [lia| |lia].
  intros i c b. destruct c; try exact I; simpl.
  - intros p res Hp -> [= <-]. simpl. rewrite parse_nat_toString by done. simpl. lia.
  - intros data [= <-] Hn. by destruct (r_id r).
Defined.

(** ** The answers of a batch *)

(** Every waiting request is answered, whatever the API does: [flushBatch] takes
    the whole batch, leaves an empty one to the requests that come meanwhile,
    does not throw, and answers each request of the batch once, the same answer
    to all that asked for a mint. *)
Theorem batch_answers_each_once `{L : BNLib} (cfg : Settings) env k b :
  let x := run env k [] (flushBatch cfg) b in
  exists answers, res x = Ret answers
    /\ answers.*1 = (pendingBatch (market b)).*2
    /\ exists f, answers = map (fun mn => (mn.2, f mn.1)) (pendingBatch (market b)).
Proof.
  intros x. unfold x.
  apply (hist_run (flushBatch cfg) (fun _ _ _ => True) (fun _ _ => True) (fun _ _ => True) env k [] b
           (fun r _ _ => exists answers, r = Ret answers
              /\ answers.*1 = (pendingBatch (market b)).*2
              /\ exists f, answers = map (fun mn => (mn.2, f mn.1)) (pendingBatch (market b)))); [done|].
  assert (forall f : string -> option num,
    exists answers : list (nat * option num),
      map (fun mn => (mn.2, f mn.1)) (pendingBatch (market b)) = answers
      /\ answers.*1 = (pendingBatch (market b)).*2
      /\ exists f, answers = map (fun mn => (mn.2, f mn.1)) (pendingBatch (market b))) as Hans.
  { intros f. eexists. split; [done|]. split; [|by exists f].
    induction (pendingBatch (market b)) as [|[m n] l IH]; simpl; [done|]. by f_equal. }
  unfold flushBatch, on_market. apply wp_bind. cbn [wp gets ret]. apply wp_bind.
  apply (wp_modify _ _ _ _ _ []); [done|].
  destruct (pendingBatch (market b)) as [|mn batch] eqn:E; [exists []; split; [done|by split; [|exists (fun _ => None)]]|].
  apply wp_catch, wp_bind. eapply wp_mono; [apply hist_any|]. intros [results|e] h' b' _; cbn [wp ret].
  - destruct (Hans (fun m => mjoin (jget m results))) as (a & Ha & H). exists a. by rewrite <- Ha in H |- *.
  - destruct (Hans (fun _ => None)) as (a & Ha & H). exists a. by rewrite <- Ha in H |- *.
Qed.

End MarketData.
