(* ===== verification/ByrealOps.v ===== *)
(** * The Byreal executor: closing, decreasing, selling
    ([src/executor/byreal-position.ts])

    The methods that take liquidity out or sell tokens, each a [Prog] over the
    state of the bot: [copyClosePosition], [copyDecreaseLiquidity],
    [manualClosePosition], [swapTokenToUSDC], the pending swaps, the fee
    collection and the startup backfills.  [finally] is the release of the
    lock, [catch] the outer handler that returns null. *)

From S2P Require Import Prelude JsMap JsString JsNumber Async Ratio TxTypes PositionMap Store Stores State Chain JupiterSwap.
Open Scope Z_scope.
Open Scope list_scope.
Open Scope prog_scope.

Module ByrealOps.
Import Async State Chain.

Section ByrealOps.
Context `{L : BNLib} `{W : Web3} (cfg : Settings).

(** ** Steps the operations share *)

Definition decreaseFull (nft : string) (closePosition : bool) : P SdkResult :=
  let* k := lift (publicKey nft) in
  await (DecreaseFullLiquidityInstructions k closePosition).

(** [decreaseFullLiquidityInstructions] with [closePosition: true], retried. *)
Definition sendClose (ourNft : string) : P string :=
  retryOnTransient (buildSignSend cfg (decreaseFull ourNft true)).

(** [if (!this.acquire(..)) return null; try { body } finally { release }] *)
Definition locked {A} (d : Dex) (skipped : A) (body : P A) : P A :=
  let* got := acquire d in
  if got then finally body (release d) else ret skipped.

(** The two-second pause before every attempt but the first. *)
Definition pauseBefore (attempt : Z) : P unit := if 0 <? attempt then sleep 2000 else ret tt.

(** The loops [for (attempt < MAX) try { return await op } catch { retry }]. *)
Fixpoint attempts_loop {A} (retryable : string -> bool) (op : P A) (attempt : Z) (left : nat) : P (option A) :=
  match left with
  | O => ret None
  | S left' =>
      do* pauseBefore attempt in
      let* r := catch (let* a := op in ret (Some a))
                  (fun e => if negb (left' =? 0)%nat && retryable e then ret None else throw e) in
      match r with
      | Some a => ret (Some a)
      | None => attempts_loop retryable op (attempt + 1) left'
      end
  end.

Definition attempts {A} (max : nat) (retryable : string -> bool) (op : P A) : P (option A) :=
  attempts_loop retryable op 0 max.

(** The attempts of a deposit: all but the first re-read the balances after a
    pause; [amounts] is computed outside the inner [try]. *)
Fixpoint deposit_attempts {D} (reread : P (BN * BN)) (retry : string -> bool) (amounts : BN * BN -> outcome D)
    (once : D -> P string) (attempt : Z) (left : nat) (bals : BN * BN) : P (option string) :=
  match left with
  | O => ret None
  | S left' =>
      let* bals' := if 0 <? attempt then do* sleep 2000 in reread else ret bals in
      let* d := lift (amounts bals') in
      let* r := catch (let* s := once d in ret (Some s))
                  (fun e => if negb (left' =? 0)%nat && retry e then ret None else throw e) in
      match r with
      | Some s => ret (Some s)
      | None => deposit_attempts reread retry amounts once (attempt + 1) left' bals'
      end
  end.

(** ** [copyClosePosition] *)

Definition MAX_CLOSE_ATTEMPTS : nat := 3.

(** The attempts of a close.  [send] closes our position and answers the
    signature, or [None] to return null at once; a signature that is not
    verified on chain leads to the next attempt. *)
Fixpoint close_attempts (send : P (option string)) (verify : string -> P bool) (retry : string -> bool)
    (ourNft : string) (attempt : Z) (left : nat) : P (option string) :=
  match left with
  | O => ret None
  | S left' =>
      let last := (left' =? 0)%nat in
      let again := close_attempts send verify retry ourNft (attempt + 1) left' in
      do* pauseBefore attempt in
      let* sent :=
        catch (let* s := send in ret (Some s))
          (fun e => if negb last && retry e then ret None else throw e) in
      match sent with
      | None => again
      | Some None => ret None
      | Some (Some txSig) =>
          if negb (truthy txSig) then ret None
          else
            let* success := verify txSig in
            if success then ret (Some txSig)
            else if last then
              do* notify (notifyCloseFailed ourNft "on-chain failure after max attempts" 3) in ret None
            else again
      end
  end.

(** The [try] of a close around its attempts. *)
Definition close_with (attempts : P (option string)) (forget : P unit) (received : string -> P unit) (ourNft : string)
    : P (option string) :=
  catch
    (let* closed := attempts in
     match closed with
     | None => ret None
     | Some txSig =>
         do* forget in
         do* received txSig in
         ret (Some txSig)
     end)
    (fun e => do* notify (notifyCloseFailed ourNft e 0) in ret None).

Definition close_loop (ourNft : string) : P (option string) :=
  close_attempts (let* s := sendClose ourNft in ret (Some s)) verifyTxSuccess
    (fun e => isRetryableSimError e || isTransientError e) ourNft 0 MAX_CLOSE_ATTEMPTS.

Definition close_body (targetNft ourNft : string) : P (option string) :=
  close_with (close_loop ourNft) (forgetMapping targetNft) (queueReceived cfg) ourNft.

Definition mapped (targetNft : string) : P (option string) :=
  gets (fun b => PositionMap.get targetNft (positionMap b)).

Definition copyClosePosition (targetNftMint : string) : P (option string) :=
  let* my := mapped targetNftMint in
  match my with
  | Some myNftMint =>
      if negb (truthy myNftMint) then ret None
      else if dryRun cfg then ret (Some "dry-run-close"%string)
      else locked Byreal None (close_body targetNftMint myNftMint)
  | None => ret None
  end.

(** ** [copyDecreaseLiquidity] *)

Inductive DecreaseType := DECREASE | COLLECT_FEE.

(** Null is a full decrease. *)
Definition proportional (myLiq storedLiq removedLiq : BN) : BN := bn_div (bn_mul myLiq removedLiq) storedLiq.

(** Our share of what the target removed; [None] when our position cannot be
    read. *)
Definition ourShare (myNft : string) (storedLiq removedLiq : BN) : P (option BN) :=
  catch
    (let* k := lift (publicKey myNft) in
     let* my := retryGetPosition k in
     ret ((fun p => proportional (i_liquidity p) storedLiq removedLiq) <$> my))
    (fun _ => ret None).

(** The amount to take out, from the target's current and stored liquidity;
    [share_of] is what our position's share comes to. *)
Definition amountToTakeOut (share_of : BN -> BN -> P (option BN)) (targetNft : string) (current : option BN)
    : P (option BN) :=
  match current with
  | None => ret None
  | Some cur =>
      if bn_isZero cur then ret None
      else
        let* stored := gets (fun b => PositionMap.getTargetLiquidity targetNft (positionMap b)) in
        if truthy stored then
          let* storedLiq := lift (bn_of_string (default "" stored)) in
          if bn_lt cur storedLiq then
            let removedLiq := bn_sub storedLiq cur in
            let* tenThousand := lift (bn_of_int (Some 10000)) in
            let* _pctBps := lift (bn_toNumber (bn_div (bn_mul removedLiq tenThousand) storedLiq)) in
            let* share := share_of storedLiq removedLiq in
            do* on_positionMap (PositionMap.setTargetLiquidity targetNft (bn_toString cur)) in
            ret share
          else let* z := lift zero in ret (Some z)
        else let* z := lift zero in ret (Some z)
  end.

Definition decreaseAmount (targetNft myNft : string) (current : option BN) : P (option BN) :=
  amountToTakeOut (ourShare myNft) targetNft current.

Definition targetLiquidity (targetNft : string) : P (option BN) :=
  catch
    (let* k := lift (publicKey targetNft) in
     let* p := retryGetPosition k in ret (i_liquidity <$> p))
    (fun _ => ret None).

Definition collectFees (myNft : string) : P string :=
  retryOnTransient (buildSignSend cfg
    (let* k := lift (publicKey myNft) in await (CollectFeesInstructions k))).

(** One attempt of a partial decrease re-reads our liquidity. *)
Definition partialInstructions (myNft : string) (amount : BN) : P SdkResult :=
  let* k := lift (publicKey myNft) in
  let* my := retryGetPosition k in
  let* myLiq := match my with Some p => ret (i_liquidity p) | None => lift zero end in
  let liquidity := bn_min amount myLiq in
  if bn_isZero liquidity then throw "Our position has zero liquidity, nothing to decrease"
  else
    let* k' := lift (publicKey myNft) in
    await (DecreaseLiquidityInstructions k' liquidity).

Definition sendDecrease (myNft : string) (amount : option BN) : P string :=
  retryOnTransient (buildSignSend cfg
    match amount with
    | Some a => partialInstructions myNft a
    | None => decreaseFull myNft false
    end).

Definition decrease_once (myNft : string) (amount : option BN) : P (string * DecreaseType) :=
  let* txSig := sendDecrease myNft amount in
  do* catch (queueReceived cfg txSig) (fun _ => ret tt) in
  ret (txSig, DECREASE).

Definition copyDecreaseLiquidity (targetNftMint : string) : P (option (string * DecreaseType)) :=
  let* my := mapped targetNftMint in
  match my with
  | Some myNft =>
      if negb (truthy myNft) then ret None
      else
        let* current := targetLiquidity targetNftMint in
        let* amount := decreaseAmount targetNftMint myNft current in
        let feesOnly := match amount with Some a => bn_isZero a | None => false end in
        if feesOnly then
          if dryRun cfg then ret (Some ("dry-run-collect-fee"%string, COLLECT_FEE))
          else
            locked Byreal None
              (catch
                 (attempts 2 isRetryableSimError
                    (let* txSig := collectFees myNft in ret (txSig, COLLECT_FEE)))
                 (fun _ => ret None))
        else if dryRun cfg then ret (Some ("dry-run-decrease"%string, DECREASE))
        else
          locked Byreal None
            (catch (attempts 2 isRetryableSimError (decrease_once myNft amount)) (fun _ => ret None))
  | None => ret None
  end.

(** ** [manualClosePosition] *)

Definition manual_close_once (targetNft : option string) (ourNft : string) : P string :=
  let* txSig := sendClose ourNft in
  do* (match targetNft with
       | Some t => if truthy t then forgetMapping t else ret tt
       | None => ret tt
       end) in
  ret txSig.

Definition manual_close_body (targetNft : option string) (ourNft : string) : P (option string) :=
  catch
    (attempts 2 (fun e => isRetryableSimError e || isTransientError e) (manual_close_once targetNft ourNft))
    (fun e =>
       if isPositionGoneError e then
         let* stale :=
           match targetNft with
           | Some t => ret (Some t)
           | None => gets (fun b => PositionMap.findByOurNft ourNft (positionMap b))
           end in
         do* (if truthy stale then forgetMapping (default "" stale) else ret tt) in
         ret None
       else ret None).

Definition manualClosePosition (ourNftMint : string) : P (option string) :=
  let* targetNft := gets (fun b => PositionMap.findByOurNft ourNftMint (positionMap b)) in
  if dryRun cfg then ret (Some "dry-run-manual-close"%string)
  else locked Byreal None (manual_close_body targetNft ourNftMint).

(** ** [swapTokenToUSDC] *)

Record SwapDone := mkSwapDone { d_sig : string; d_amountRaw : string; d_outputRaw : option string }.

Definition SKIP_MINTS : list string := STABLE_MINTS ++ [NATIVE_MINT].

(** [min(maxAmountRaw, balance)] when a positive cap is given. *)
Definition capped (balance : BN) (maxAmountRaw : option string) : outcome BN :=
  if truthy maxAmountRaw then
    let! cap := bn_of_string (default "" maxAmountRaw) in
    let! z := zero in
    Ret (if bn_gt cap z && bn_lt cap balance then cap else balance)
  else Ret balance.

Definition sell (inputMint amountRaw : string) : P (option SwapDone) :=
  catch
    (let* sig := JupiterSwap.jupSwapExactIn cfg inputMint USDC amountRaw in
     match sig with
     | Some s =>
         if truthy s then
           let* outputRaw :=
             catch
               (let* o := JupiterSwap.getActualSwapOutput s USDC (userAddress cfg) in
                ret (if truthy o then o else None))
               (fun _ => ret None) in
           ret (Some (mkSwapDone s amountRaw outputRaw))
         else ret None
     | None => ret None
     end)
    (fun _ => ret None).

Definition swapTokenToUSDC (inputMint : string) (maxAmountRaw : option string) : P (option SwapDone) :=
  if shas inputMint SKIP_MINTS then ret None
  else
    let* k := lift (publicKey inputMint) in
    let* balance := getTokenBalance cfg k in
    let* d := lift dust in
    if bn_lte balance d then ret None
    else
      let* swapAmount := lift (capped balance maxAmountRaw) in
      if bn_lte swapAmount d then ret None
      else
        let amountRaw := bn_toString swapAmount in
        if dryRun cfg then ret (Some (mkSwapDone "dry-run-swap" amountRaw None))
        else locked Byreal None (sell inputMint amountRaw).

(** ** Pending swaps *)

Definition clearAllPendingSwaps : P unit :=
  modify (fun b => set_pending (PendingSwaps.clearPendingSwaps (pendingSwaps b)) b).
Definition clearOnePendingSwap (inputMint : string) : P unit := clearPending inputMint.

Definition pendingOf (inputMint : string) : P (option PendingSwaps.PendingSwapEntry) :=
  gets (fun b => PendingSwaps.getPendingSwap inputMint (pendingSwaps b)).

Definition forceSwapPending (inputMint : string) : P (option string) :=
  let* entry := pendingOf inputMint in
  let* d := lift dust in
  let* worth :=
    match entry with
    | Some e =>
        if truthy (PendingSwaps.pending e)
        then let* p := lift (bn_of_string (PendingSwaps.pending e)) in ret (negb (bn_lte p d))
        else ret false
    | None => ret false
    end in
  if negb worth then ret None
  else
    let* k := lift (publicKey inputMint) in
    let* balance := getTokenBalance cfg k in
    if bn_lte balance d then do* clearPending inputMint in ret None
    else if dryRun cfg then do* clearPending inputMint in ret (Some "dry-run-force-swap"%string)
    else
      locked Byreal None
        (catch
           (let* sig := JupiterSwap.jupSwapExactIn cfg inputMint USDC (bn_toString balance) in
            if truthy sig then do* clearPending inputMint in ret sig else ret None)
           (fun _ => ret None)).

(** The entry after a sale; [None] when what remains is dust. *)
Definition remaining_entry (e : PendingSwaps.PendingSwapEntry) (ourSwapped botSwapped : BN)
    : outcome (option PendingSwaps.PendingSwapEntry) :=
  let! p := bn_of_string (PendingSwaps.pending e) in
  let remaining := bn_sub p ourSwapped in
  let! d := dust in
  if bn_lte remaining d then Ret None
  else
    let! botReceived := if truthy (PendingSwaps.botReceived e) then bn_of_string (PendingSwaps.botReceived e) else zero in
    let botRemaining := bn_sub botReceived botSwapped in
    let! z := zero in
    Ret (Some (PendingSwaps.mkPending (bn_toString remaining)
                 (if bn_lte botRemaining z then "0"%string else bn_toString botRemaining)
                 (PendingSwaps.created e) (PendingSwaps.extra e))).

Definition subtractPending (inputMint : string) (ourSwapped botSwapped : BN) : P unit :=
  let* entry := pendingOf inputMint in
  match entry with
  | None => ret tt
  | Some e =>
      let* r := lift (remaining_entry e ourSwapped botSwapped) in
      modify (fun b => set_pending
        (match r with
         | Some e' => PendingSwaps.setPendingSwap inputMint e' (pendingSwaps b)
         | None => PendingSwaps.deletePendingSwap inputMint (pendingSwaps b)
         end) b)
  end.

(** Our share of the tokens received, in the proportion the target sold, or
    the whole balance when it is unknown what the target received. *)
Definition pendingSwapAmount (botReceived : option BN) (pendingAmount botSwap : BN) (inputMint : string) : P BN :=
  match botReceived with
  | Some r =>
      if bn_isZero r then let* k := lift (publicKey inputMint) in getTokenBalance cfg k
      else
        let* tenThousand := lift (bn_of_int (Some 10000)) in
        let* _pct := lift (bn_toNumber (bn_div (bn_mul botSwap tenThousand) r)) in
        ret (bn_div (bn_mul pendingAmount botSwap) r)
  | None => let* k := lift (publicKey inputMint) in getTokenBalance cfg k
  end.

Definition executePendingSwap (inputMint botSwapAmount : string) : P (option string) :=
  let* entry := pendingOf inputMint in
  match entry with
  | None => ret None
  | Some e =>
      let* pendingAmount := lift (bn_of_string (PendingSwaps.pending e)) in
      let* d := lift dust in
      if bn_lte pendingAmount d then ret None
      else
        let* botReceived :=
          if truthy (PendingSwaps.botReceived e)
          then let* r := lift (bn_of_string (PendingSwaps.botReceived e)) in ret (Some r)
          else ret None in
        let* botSwap := lift (bn_of_string botSwapAmount) in
        let* swapAmount := pendingSwapAmount botReceived pendingAmount botSwap inputMint in
        if bn_lte swapAmount d then do* clearPending inputMint in ret None
        else if dryRun cfg then
          do* subtractPending inputMint swapAmount botSwap in ret (Some "dry-run-pending-swap"%string)
        else
          locked Byreal None
            (catch
               (let* sig := JupiterSwap.jupSwapExactIn cfg inputMint USDC (bn_toString swapAmount) in
                if truthy sig then do* subtractPending inputMint swapAmount botSwap in ret sig else ret None)
               (fun _ => ret None))
  end.

(** The entry as it was when the loop began is compared with the balance. *)
Definition syncPending (me : string * PendingSwaps.PendingSwapEntry) : P unit :=
  let (mint_, e) := me in
  let* pending := lift (bn_of_string (or_else (Some (PendingSwaps.pending e)) "0"%string)) in
  if bn_isZero pending then clearPending mint_
  else
    catch
      (let* k := lift (publicKey mint_) in
       let* balance := getTokenBalance cfg k in
       let* d := lift dust in
       if bn_lte balance d then clearPending mint_
       else if bn_eq balance pending then ret tt
       else
         modify (fun b => set_pending
           (PendingSwaps.setPendingSwap mint_
              (PendingSwaps.mkPending (bn_toString balance) (PendingSwaps.botReceived e)
                 (PendingSwaps.created e) (PendingSwaps.extra e)) (pendingSwaps b)) b))
      (fun _ => ret tt).

Definition logPendingStatus : P unit :=
  let* entries := gets (fun b => PendingSwaps.allPendingSwaps (pendingSwaps b)) in
  for_each syncPending entries.

(** ** Fees and startup *)

Inductive BatchResult := BatchOk (txSig : string) (positionCount : nat) | BatchFailed (error : string) (positionCount : nat).
Record FeesResult := mkFees { totalPositions : nat; txCount : nat; f_results : list BatchResult }.

Definition send_batch (instructions : list Ix) : P BatchResult :=
  catch
    (let* txSig := retryOnTransient
       (let* tx := makeByrealZeroPriorityTransaction cfg instructions [] in signAndSend tx) in
     ret (BatchOk txSig (length instructions)))
    (fun e => ret (BatchFailed e (length instructions))).

Fixpoint send_batches (bs : list (list Ix)) : P (list BatchResult) :=
  match bs with
  | [] => ret []
  | b :: bs' => let* r := send_batch b in let* rs := send_batches bs' in ret (r :: rs)
  end.

Definition collect_body : P FeesResult :=
  let* nfts := await GetRawPositionInfoList in
  match (nfts : list string) with
  | [] => ret (mkFees 0 0 [])
  | _ =>
      if dryRun cfg then ret (mkFees (length nfts) 0 [])
      else
        let* batches := await (CollectAllPositionFeesInstructions nfts) in
        let* rs := send_batches batches in
        ret (mkFees (length nfts) (length (batches : list (list Ix))) rs)
  end.

Definition collectAllFees : P FeesResult :=
  let* got := acquire Byreal in
  if got then finally collect_body (release Byreal)
  else throw "Executor busy, another operation in progress".

Definition backfill_one (tn : string * string) : P unit :=
  let (targetNft, ourNft) := tn in
  do* catch
    (let* k := lift (publicKey ourNft) in
     let* info := await (GetPositionInfoByNftMint k) in
     match info with
     | Some i =>
         on_positionMap (PositionMap.setPool targetNft
           (mintA (rawPoolInfo i) +:+ "/" +:+ mintB (rawPoolInfo i))%string)
     | None => ret tt
     end)
    (fun _ => ret tt) in
  sleep 300.

Definition backfillPoolInfo : P unit :=
  let* missing := gets (fun b => PositionMap.entriesMissingPool (positionMap b)) in
  for_each backfill_one missing.

Definition set_rent (x : num) : P unit :=
  modify (fun b => let f := byreal b in
    set_byreal (mkByreal (cachedSolBalance f) x (walletBalancesCache f) (lpAssetsCache f) (freechainIdx f)) b).

(** [Promise.all] of three reads. *)
Definition initRentPerPosition : P unit :=
  catch
    (let* rentPDA := await (GetMinimumBalanceForRentExemption 281) in
     let* rentMint := await (GetMinimumBalanceForRentExemption 270) in
     let* rentATA := await (GetMinimumBalanceForRentExemption 170) in
     set_rent (ndiv (num_of_Z (rentPDA + rentMint + 1322400 + rentATA)) (num_of_Z 1000000000)))
    (fun _ => ret tt).

Definition backfillLockedSol : P unit :=
  modify (fun b =>
    set_positionMap
      (foldl (fun pm tn => PositionMap.setLockedSol tn.1 (rentPerPosition (byreal b)) pm) (positionMap b)
         (PositionMap.entriesMissingLockedSol (positionMap b))) b).

(** The task that refreshes the cached balance. *)
Definition refreshSolBalance : P unit :=
  let* sol := getSolBalance in
  modify (fun b => let f := byreal b in
    set_byreal (mkByreal (Some sol) (rentPerPosition f) (walletBalancesCache f) (lpAssetsCache f) (freechainIdx f)) b).

(** Lamports the wallet moved inside the transaction that opened a position. *)
Definition locked_lamports (inner : list (list (option ParsedIx))) : num :=
  foldl (fun acc ix =>
    match ix with
    | Some p =>
        if bool_decide (pi_program p = "system"%string)
           && bool_decide (pi_source p = Some (userAddress cfg))
           && (bool_decide (pi_type p = "createAccount"%string) || bool_decide (pi_type p = "transfer"%string))
        then nadd acc (if truthy (pi_lamports p) then pi_lamports p else num_of_Z 0)
        else acc
    | None => acc
    end) (num_of_Z 0) (concat inner).

Definition extractLockedSolFromTx (txSig : string) : P (option num) :=
  catch
    (let* tx := await (GetParsedTransaction txSig) in
     match fetched_meta tx, tx ≫= f_inner with
     | Some _, Some inner =>
         let total := locked_lamports inner in
         ret (if nlt (num_of_Z 0) total then Some (ndiv total (num_of_Z 1000000000)) else None)
     | _, _ => ret None
     end)
    (fun _ => ret None).

(** The task started by an open. *)
Definition updateLockedSol (targetNft txSig : string) : P unit :=
  let* actual := extractLockedSolFromTx txSig in
  match actual with
  | Some x => on_positionMap (PositionMap.setLockedSol targetNft x)
  | None => ret tt
  end.

Definition estimateOpenSlots (b : Bot) (solBalance : num) : Z :=
  let cost := nadd (rentPerPosition (byreal b)) (dec_num 5 3) in
  Z.max 0 (default 0 (floorZ (ndiv (nsub solBalance (dec_num 1 2)) cost))).

Definition invalidateAssetCaches : P unit :=
  modify (fun b => let f := byreal b in
    set_byreal (mkByreal (cachedSolBalance f) (rentPerPosition f) None None (freechainIdx f)) b).

End ByrealOps.

End ByrealOps.
