(* ===== verification/ByrealOpen.v ===== *)
(** * The Byreal executor: opening and increasing
    ([src/executor/byreal-position.ts], [src/utils/pool-age-whitelist.ts])

    [copyOpenPosition] and [copyIncreaseLiquidity] with everything between the
    guards and the stores: the filters, the swaps that fund the deposit, the
    amounts, the attempts, and what is saved.  A filter answers the skip reason
    or [None]. *)

From Stdlib Require Import Ascii.
From S2P Require Import Prelude JsMap JsString JsNumber Async Ratio TxTypes WriteChain PositionMap Store Stores PumpPending State Chain JupiterSwap MarketData ByrealOps.
Open Scope Z_scope.
Open Scope list_scope.
Open Scope prog_scope.

Module ByrealOpen.
Import Async State Chain ByrealOps.

(** ** [src/utils/pool-age-whitelist.ts] *)

Definition parseMintSet (raw : string) : list string :=
  set_of (keep (fun s => (0 <? String.length s)%nat) (map trim (split_on ","%char raw))).

Definition isPoolAgeWhitelisted (mintA_ mintB_ : string) (whitelist : list string) : bool :=
  shas mintA_ whitelist || shas mintB_ whitelist.

Section ByrealOpen.
Context `{L : BNLib} `{W : Web3} (cfg : Settings).

(** ** Filters *)

Definition getTokenSymbol (m : string) : string := or_else (tokenNames cfg m) m.

(** The approval gate; a token seen for the first time is announced. *)
Definition pumpFilterAt (label : string) (symbolOf : string -> string) (a b : string) (targetWallet : option string)
    : P (option string) :=
  let* now := clock in
  let* pu := gets pump in
  let pumpMint := if PumpPending.mentions_pump a then a else b in
  let symbol := symbolOf pumpMint in
  let (reason, pu') :=
    PumpPending.pumpGateAt label (pumpFilterMode cfg) now a b symbol (or_else targetWallet ""%string) pu in
  do* modify (set_pump pu') in
  do* (if bool_decide (length (PumpPending.heap pu') = length (PumpPending.heap pu)) then ret tt
       else notify (notifyPumpApproval pumpMint symbol label)) in
  ret reason.

Definition pumpFilterFor (symbolOf : string -> string) (a b : string) (targetWallet : option string) : P (option string) :=
  pumpFilterAt (a +:+ "/" +:+ b) symbolOf a b targetWallet.

Definition pumpFilter (pool : PoolInfo) (targetWallet : option string) : P (option string) :=
  pumpFilterFor getTokenSymbol (mintA pool) (mintB pool) targetWallet.

(** The same for an increase, which announces nothing. *)
Definition pumpBlockedFor (a b : string) : P bool :=
  let* pu := gets pump in
  ret (match pumpFilterMode cfg with
       | PumpPending.Off => false
       | _ =>
           if PumpPending.mentions_pump a then negb (PumpPending.isPumpApproved a pu)
           else if PumpPending.mentions_pump b then negb (PumpPending.isPumpApproved b pu)
           else false
       end).

Definition pumpBlocked (pool : PoolInfo) : P bool := pumpBlockedFor (mintA pool) (mintB pool).

(** [Math.floor(Date.now() / 1000) - openTime] *)
Definition ageSeconds (now : Z) (openTime_ : num) : num :=
  nsub (floor_num (ndiv (num_of_Z now) (num_of_Z 1000))) openTime_.

Definition ageFilter (pool : PoolInfo) : P (option string) :=
  if nlt (num_of_Z 0) (minPoolAgeDays cfg)
     && negb (isPoolAgeWhitelisted (mintA pool) (mintB pool) (poolAgeWhitelist cfg)) then
    let* entry := gets (fun b => MarketData.getPoolInfo (mintA pool) (market b)) in
    match entry with
    | Some e =>
        if nlt (num_of_Z 0) (openTime e) then
          let* now := clock in
          let age := ageSeconds now (openTime e) in
          ret (if nlt age (nmul (minPoolAgeDays cfg) (num_of_Z 86400)) then
                 Some ("池子太新 (" +:+ toFixed (ndiv age (num_of_Z 86400)) 1 +:+ "d < "
                       +:+ num_toString (minPoolAgeDays cfg) +:+ "d)")%string
               else None)
        else ret None
    | None => ret None
    end
  else ret None.

(** One side of the pair against the minimum TVL. *)
Definition tvlSide (mint_ label : string) : P (option string) :=
  if shas mint_ (poolTvlWhitelist cfg) || shas mint_ STABLE_MINTS then ret None
  else
    let* t := MarketData.checkTokenLiquidity cfg mint_ None in
    let low := match t with None => true | Some x => nlt x (minPoolTvl cfg) end in
    ret (if low then
           Some ("TVL 不足 (" +:+ label +:+ " $" +:+ match t with Some x => toFixed x 0 | None => "?" end
                 +:+ " < $" +:+ num_toString (minPoolTvl cfg) +:+ ")")%string
         else None).

Definition tvlFilter (pool : PoolInfo) : P (option string) :=
  if nlt (num_of_Z 0) (minPoolTvl cfg) then
    let* a := tvlSide (mintA pool) "mintA" in
    match a with
    | Some r => ret (Some r)
    | None => tvlSide (mintB pool) "mintB"
    end
  else ret None.

(** *** Concentration *)

Definition SCALE : Z := 1000000.

(** [(sqrtPriceX64 / 2^64)² × 10^decA / 10^decB] *)
Definition priceAinB (pool : PoolInfo) : outcome num :=
  let! scale := bn_of_int (Some SCALE) in
  let! two64 := bn_of_string "18446744073709551616" in
  let! sqrtScaled := bn_toNumber (bn_div (bn_mul (sqrtPriceX64 pool) scale) two64) in
  let sqrtPrice := ndiv (num_of_Z sqrtScaled) (num_of_Z SCALE) in
  Ret (ndiv (nmul (nmul sqrtPrice sqrtPrice) (num_of_Z (10 ^ mintDecimalsA pool))) (num_of_Z (10 ^ mintDecimalsB pool))).

(** The USD value of the new position, 0 without a stable side. *)
Definition newPositionUsd (pool : PoolInfo) (uiA uiB : string) (ratio : num) : outcome num :=
  let! price := priceAinB pool in
  let amtA := parseFloat (or_else (Some uiA) "0"%string) in
  let amtB := parseFloat (or_else (Some uiB) "0"%string) in
  let stableA := shas (mintA pool) STABLE_MINTS in
  let stableB := shas (mintB pool) STABLE_MINTS in
  Ret (if negb stableA && stableB then nmul (nadd (nmul amtA price) amtB) ratio
       else if stableA && negb stableB then
         if nlt (num_of_Z 0) price then nmul (nadd amtA (ndiv amtB price)) ratio else num_of_Z 0
       else num_of_Z 0).

(** The side that is judged; [None] when both are stable. *)
Definition mintToCheck (pool : PoolInfo) : option string :=
  if negb (shas (mintA pool) STABLE_MINTS) then Some (mintA pool)
  else if negb (shas (mintB pool) STABLE_MINTS) then Some (mintB pool) else None.

Definition limits_of (m : string) : num * num :=
  let o := jget m (coinConcentrationOverrides cfg) in
  (default (maxCoinConcentrationUsd cfg) (o ≫= fst), default (maxCoinConcentrationPct cfg) (o ≫= snd)).

Definition existingLiqUsd (m : string) (b : Bot) : num :=
  match lpAssetsCache (byreal b) with
  | Some (items, _) =>
      match find_first (fun i => bool_decide (lp_mint i = m)) items with
      | Some i => liquidityUsd i
      | None => num_of_Z 0
      end
  | None => num_of_Z 0
  end.

Definition checkConcentrationLimit (pool : PoolInfo) (targetWallet : option string) (uiA uiB tag : string) (b : Bot)
    : outcome (option string) :=
  match mintToCheck pool with
  | None => Ret None
  | Some m =>
      let (limitUsd, limitPct) := limits_of m in
      let z := num_of_Z 0 in
      if nle limitUsd z && nle limitPct z then Ret None
      else
        let! usd := newPositionUsd pool uiA uiB (Ratio.getAmountRatio (ratios cfg) targetWallet) in
        let total := nadd (existingLiqUsd m b) usd in
        let who := (" (" +:+ String.substring 0 8 m +:+ ")")%string in
        if nlt z limitUsd && nlt limitUsd total then
          Ret (Some ("集中度超限 [" +:+ tag +:+ "] $" +:+ toFixed total 0 +:+ " > $" +:+ num_toString limitUsd +:+ who)%string)
        else if nlt z limitPct && nlt z (latestTotalUsd b) then
          let projectedPct := nmul (ndiv total (latestTotalUsd b)) (num_of_Z 100) in
          Ret (if nlt limitPct projectedPct then
                 Some ("集中度超限 [" +:+ tag +:+ "] " +:+ toFixed projectedPct 1 +:+ "% > "
                       +:+ num_toString limitPct +:+ "%" +:+ who)%string
               else None)
        else Ret None
  end.

Definition concentrationFilter (info : PositionInfo) (targetWallet : option string) (tag : string) : P (option string) :=
  let* b := gets id in
  lift (checkConcentrationLimit (rawPoolInfo info) targetWallet (uiAmountA info) (uiAmountB info) tag b).

Definition poolLabel (pool : PoolInfo) : string := (mintA pool +:+ "/" +:+ mintB pool)%string.

Definition tickFilter (info : PositionInfo) (targetWallet : option string) : P (option string) :=
  if skipSameTickRange cfg && truthy targetWallet then
    let* pm := gets positionMap in
    ret (if PositionMap.hasDuplicateTickRange (default "" targetWallet) (poolLabel (rawPoolInfo info))
              (i_tickLower info) (i_tickUpper info) pm
         then Some "重複 tick 範圍"%string else None)
  else ret None.

(** The first reason of a list of filters. *)
Fixpoint firstReason (fs : list (P (option string))) : P (option string) :=
  match fs with
  | [] => ret None
  | f :: fs' =>
      let* r := f in
      match r with
      | Some why => ret (Some why)
      | None => firstReason fs'
      end
  end.

Definition openFilters (info : PositionInfo) (targetWallet : option string) : list (P (option string)) :=
  let pool := rawPoolInfo info in
  [tickFilter info targetWallet; pumpFilter pool targetWallet; ageFilter pool; tvlFilter pool;
   concentrationFilter info targetWallet "OPEN"].

(** ** Funding *)

(** The swaps tried for the first token: token B, then USDC. *)
Definition swapForA (pool : PoolInfo) (balanceB : BN) (deficit : string) : P (option string) :=
  let a := mintA pool in let b := mintB pool in
  if bool_decide (a = NATIVE_MINT) then
    if bool_decide (a = USDC) then ret None else JupiterSwap.swapForToken cfg USDC a deficit
  else
    let* first :=
      if bn_isZero balanceB then ret None
      else
        let* s := JupiterSwap.swapForToken cfg b a deficit in
        if truthy s then ret s else JupiterSwap.swapViaByrealPool cfg pool b a deficit in
    if negb (truthy first) && negb (bool_decide (a = USDC)) then JupiterSwap.swapForToken cfg USDC a deficit
    else ret first.

(** For the second token: USDC, then token A. *)
Definition swapForB (pool : PoolInfo) (balanceA : BN) (deficit : string) : P (option string) :=
  let a := mintA pool in let b := mintB pool in
  if bool_decide (b = NATIVE_MINT) then
    if bool_decide (b = USDC) then ret None else JupiterSwap.swapForToken cfg USDC b deficit
  else
    let* first := if bool_decide (b = USDC) then ret None else JupiterSwap.swapForToken cfg USDC b deficit in
    if negb (truthy first) && negb (bn_isZero balanceA) then
      let* s := JupiterSwap.swapForToken cfg a b deficit in
      if truthy s then ret s else JupiterSwap.swapViaByrealPool cfg pool a b deficit
    else ret first.

(** The balance after buying what is missing; [None] aborts. *)
Definition fund (onFail : P unit) (swap : string -> P (option string)) (mint_ : string) (target balance : BN)
    : P (option BN) :=
  if bn_lt balance target && negb (bn_isZero target) then
    let* sig := swap (bn_toString (bn_sub target balance)) in
    match sig with
    | Some s =>
        if negb (truthy s) then do* onFail in ret None
        else
          let* added := JupiterSwap.getActualSwapOutput s mint_ (userAddress cfg) in
          if truthy added then
            let* d := lift (bn_of_string (default "" added)) in
            ret (Some (bn_add balance d))
          else
            do* sleep 5000 in
            let* fresh := getTokenBalance cfg mint_ in
            ret (Some fresh)
    | None => do* onFail in ret None
    end
  else ret (Some balance).

Definition announceSwapFailed (mint_ : string) : P unit :=
  let* e := gets (fun b => lastSwapError (swapVars b)) in
  notify (notifySwapFailed mint_ (or_else (Some e) "all methods failed"%string)).

(** Both balances, bought up to the targets; [None] aborts. *)
Definition fundBoth (announce : bool) (pool : PoolInfo) (targetA targetB : BN) : P (option (BN * BN)) :=
  let fail m := if announce then announceSwapFailed m else ret tt in
  let* balA := getTokenBalance cfg (mintA pool) in
  let* balB := getTokenBalance cfg (mintB pool) in
  let* fa := fund (fail (mintA pool)) (swapForA pool balB) (mintA pool) targetA balA in
  match fa with
  | None => ret None
  | Some a =>
      let* fb := fund (fail (mintB pool)) (swapForB pool a) (mintB pool) targetB balB in
      match fb with
      | None => ret None
      | Some b => ret (if bn_isZero a && bn_isZero b then None else Some (a, b))
      end
  end.

(** ** Amounts *)

Record Deposit := mkDeposit { base : Base; baseAmount : BN; otherAmountMax : BN }.

(** Never more than the target's share, nor than the balance. *)
Definition deposit (targetA targetB balA balB : BN) : outcome Deposit :=
  let! z := zero in
  Ret (if bn_gt targetA z then mkDeposit MintA (bn_min targetA balA) (bn_min targetB balB)
       else mkDeposit MintB (bn_min targetB balB) (bn_min targetA balA)).

(** An attempt after the first re-reads the balances. *)
Fixpoint deposit_loop (pool : PoolInfo) (targetA targetB : BN) (once : Deposit -> P string)
    (attempt : Z) (left : nat) (balA balB : BN) : P (option string) :=
  match left with
  | O => ret None
  | S left' =>
      let* bals :=
        if 0 <? attempt then
          do* sleep 2000 in
          let* a := getTokenBalance cfg (mintA pool) in
          let* b := getTokenBalance cfg (mintB pool) in
          ret (a, b)
        else ret (balA, balB) in
      let* d := lift (deposit targetA targetB bals.1 bals.2) in
      let* r := catch (let* s := once d in ret (Some s))
                  (fun e => if negb (left' =? 0)%nat && isRetryableSimError e then ret None else throw e) in
      match r with
      | Some s => ret (Some s)
      | None => deposit_loop pool targetA targetB once (attempt + 1) left' bals.1 bals.2
      end
  end.

(** ** [copyOpenPosition] *)

Record OpenRequest := mkOpenRequest {
  targetNft : string; poolId : string; referer : option string; wallet : option string;
}.

Definition createMemoInstruction (data : string) (signers : list string) : Ix :=
  mkIxn MEMO_PROGRAM_ID (map (fun k => (k, true, false)) signers)
    (map (fun c => Z.of_nat (code c)) (String.list_ascii_of_string data)).

Definition withMemo (r : OpenRequest) (ixs : list Ix) : list Ix :=
  if truthy (referer r)
  then ixs ++ [createMemoInstruction ("referer_position=" +:+ default "" (referer r)) [userAddress cfg]]
  else ixs.

(** Everything recorded about a position right after it was sent. *)
Definition saveMapping (r : OpenRequest) (info : PositionInfo) (nft : string) : P unit :=
  let* now := clock in
  let* dbnow := clock in
  do* on_positionMap (PositionMap.set now dbnow (targetNft r) nft (Some (poolLabel (rawPoolInfo info))) (wallet r)
        (Some (i_tickLower info)) (Some (i_tickUpper info)) None) in
  do* modify (fun b => set_positionMap
        (PositionMap.setLockedSol (targetNft r) (rentPerPosition (byreal b)) (positionMap b)) b) in
  do* on_positionMap (PositionMap.setTargetLiquidity (targetNft r) (bn_toString (i_liquidity info))) in
  modify (on_executor Byreal (with_poolIdToMints (poolId r) (poolLabel (rawPoolInfo info)))).

Definition addReferer (r : OpenRequest) (nft : string) : P unit :=
  if truthy (referer r) then
    let* now := clock in
    modify (fun b => set_referers
      (OpenedReferers.addOpenedReferer now (default "" (referer r)) (targetNft r) nft
         (or_else (wallet r) ""%string) (referers b)) b)
  else ret tt.

(** Best effort: the mapping is already saved. *)
Definition confirmBestEffort (txSig : string) : P unit :=
  catch
    (let* blockhash := await GetLatestBlockhash in
     await (ConfirmTransaction txSig blockhash))
    (fun _ => ret tt).

Definition open_once (r : OpenRequest) (info : PositionInfo) (d : Deposit) : P string :=
  let pool := rawPoolInfo info in
  let* created := await (CreatePositionInstructions pool (i_tickLower info) (i_tickUpper info)
                           (base d) (baseAmount d) (otherAmountMax d)) in
  let ixs := withMemo r (s_instructions (o_sdk created)) in
  let* txSig := retryOnTransient
    (let* tx := makeByrealZeroPriorityTransaction cfg ixs (s_signers (o_sdk created)) in signAndSend tx) in
  do* (if truthy (nftAddress created) then saveMapping r info (nftAddress created) else ret tt) in
  do* addReferer r (nftAddress created) in
  do* confirmBestEffort txSig in
  do* spawn (UpdateLockedSol (targetNft r) txSig) in
  ret txSig.

Definition MAX_OPEN_ATTEMPTS : nat := 2.

Definition open_funded (r : OpenRequest) (info : PositionInfo) : P (option string) :=
  let pool := rawPoolInfo info in
  let* targetA := lift (Ratio.scaleAmount (ratios cfg) (amountA info) (wallet r)) in
  let* targetB := lift (Ratio.scaleAmount (ratios cfg) (amountB info) (wallet r)) in
  let* bals := fundBoth true pool targetA targetB in
  match bals with
  | None => ret None
  | Some (a, b) => deposit_loop pool targetA targetB (open_once r info) 0 MAX_OPEN_ATTEMPTS a b
  end.

Definition open_body (r : OpenRequest) : P (option string) :=
  let* k := lift (publicKey (targetNft r)) in
  let* info := retryGetPosition k in
  match info with
  | None => ret None
  | Some i =>
      let* reason := firstReason (openFilters i (wallet r)) in
      match reason with
      | Some why => do* set_lastSkipReason (Some why) in ret None
      | None => open_funded r i
      end
  end.

(** The outer handler: a wallet without lamports pauses the executor. *)
Definition openFailed (r : OpenRequest) (e : string) : P (option string) :=
  do* notify (notifyOpenFailed e (targetNft r)) in
  if mentions ["insufficient lamports"]%string e then
    let* now := clock in
    do* modify (on_executor Byreal (with_solPaused now)) in
    let* sol := gets (fun b => cachedSolBalance (byreal b)) in
    do* notify (notifySolInsufficient (default (num_of_Z 0) sol)) in
    ret None
  else ret None.

(** The guards before the lock: the reason to stop, [Some None] without one. *)
Definition openGuards (r : OpenRequest) : P bool :=
  let* b := gets id in
  if truthy (PositionMap.get (targetNft r) (positionMap b)) then ret false
  else if truthy (referer r)
          && OpenedReferers.isRefererDuplicate (dupRule cfg) (referers b) (referer r) (or_else (wallet r) ""%string)
  then ret false
  else
    let cap := PositionMap.getByrealPositionCapStatus (positionMap b) (byrealMaxOpenPositions cfg) in
    if PositionMap.reached cap then
      do* set_lastSkipReason (PositionMap.reason cap) in ret false
    else ret true.

Definition copyOpenPosition (r : OpenRequest) : P (option string) :=
  let* go := openGuards r in
  if negb go then ret None
  else if dryRun cfg then ret (Some "dry-run-open-position"%string)
  else
    let* got := acquire Byreal in
    if got then
      finally (catch (open_body r) (openFailed r))
        (do* release Byreal in spawn RefreshSolBalance)
    else ret None.

(** ** [copyIncreaseLiquidity] *)

Definition increaseFilters (info : PositionInfo) (targetWallet : option string) : list (P (option string)) :=
  let pool := rawPoolInfo info in
  [(let* p := pumpBlocked pool in ret (if p then Some ""%string else None));
   ageFilter pool; tvlFilter pool; concentrationFilter info targetWallet "INCREASE"].

(** What is missing from our position; [None] when it matches the target. *)
Definition delta (full mine : BN) : outcome BN :=
  if bn_gt full mine then Ret (bn_sub full mine) else zero.

Definition increase_once (targetNft_ myNft : string) (d : Deposit) : P string :=
  let* txSig := retryOnTransient
    (buildSignSend cfg
       (let* k := lift (publicKey myNft) in
        await (AddLiquidityInstructions k (base d) (baseAmount d) (otherAmountMax d)))) in
  do* catch
    (let* k := lift (publicKey targetNft_) in
     let* updated := retryGetPosition k in
     match updated with
     | Some u => on_positionMap (PositionMap.setTargetLiquidity targetNft_ (bn_toString (i_liquidity u)))
     | None => ret tt
     end)
    (fun _ => ret tt) in
  ret txSig.

Definition MAX_INCREASE_ATTEMPTS : nat := 2.

Definition increase_by (targetNft_ myNft : string) (targetWallet : option string) (info : PositionInfo)
    : P (option string) :=
  let pool := rawPoolInfo info in
  let* fullA := lift (Ratio.scaleAmount (ratios cfg) (amountA info) targetWallet) in
  let* fullB := lift (Ratio.scaleAmount (ratios cfg) (amountB info) targetWallet) in
  let* k := lift (publicKey myNft) in
  let* mine := retryGetPosition k in
  let* myA := match mine with Some m => ret (amountA m) | None => lift zero end in
  let* myB := match mine with Some m => ret (amountB m) | None => lift zero end in
  let* targetA := lift (delta fullA myA) in
  let* targetB := lift (delta fullB myB) in
  if bn_isZero targetA && bn_isZero targetB then ret None
  else
    let* bals := fundBoth false pool targetA targetB in
    match bals with
    | None => ret None
    | Some (a, b) =>
        deposit_loop pool targetA targetB (increase_once targetNft_ myNft) 0 MAX_INCREASE_ATTEMPTS a b
    end.

Definition increase_body (targetNft_ myNft : string) (targetWallet : option string) : P (option string) :=
  let* k := lift (publicKey targetNft_) in
  let* info := retryGetPosition k in
  match info with
  | None => ret None
  | Some i =>
      let* reason := firstReason (increaseFilters i targetWallet) in
      match reason with
      | Some _ => ret None
      | None => increase_by targetNft_ myNft targetWallet i
      end
  end.

Definition copyIncreaseLiquidity (targetNft_ : string) (targetWallet : option string) : P (option string) :=
  let* my := mapped targetNft_ in
  match my with
  | Some myNft =>
      if negb (truthy myNft) then ret None
      else if dryRun cfg then ret (Some "dry-run-increase"%string)
      else locked Byreal None (catch (increase_body targetNft_ myNft targetWallet) (fun _ => ret None))
  | None => ret None
  end.

End ByrealOpen.

End ByrealOpen.
