(* ===== verification/ByrealAssets.v ===== *)
(** * What the wallet and its positions hold ([src/executor/byreal-position.ts])

    The two listings the dashboard and the asset trend read, each cached for
    five minutes: the token balances of the wallet, from Jupiter with the RPC as
    a fallback, and the tokens locked in positions, aggregated by mint from the
    pages of the Byreal API.

    The account layouts and the liquidity mathematics are the SDK's and come as
    the parameter [Clmm].  The three requests of the fallback start together;
    they only read, so they are modelled one after the other. *)

From S2P Require Import Prelude JsMap JsString JsNumber Json Async TxTypes PositionMap State Chain JupiterSwap.
Open Scope Z_scope.
Open Scope list_scope.
Open Scope prog_scope.

Module ByrealAssets.
Import Async State Chain.

(** The SDK on the base64 text of an account: the liquidity of a position, the
    square root price and the decimals of a pool, the price at a tick, and the
    amounts for prices and liquidity, rounded down. *)
Class Clmm `{L : BNLib} := {
  decodePosition : string -> outcome BN;
  decodePool : string -> outcome (BN * Z * Z);
  getSqrtPriceX64FromTick : option Json -> outcome BN;
  getAmountsFromLiquidity : BN -> BN -> BN -> BN -> outcome (BN * BN);
}.

Section ByrealAssets.
Context `{L : BNLib} `{C : Clmm (L := L)} (cfg : Settings).

(** ** [getWalletTokenBalances] *)

Definition WALLET_BALANCES_TTL : Z := 5 * 60 * 1000.

Definition set_walletBalances (c : option (list WalletItem * Z)) : P unit :=
  modify (fun b => let f := byreal b in
    set_byreal (mkByreal (cachedSolBalance f) (rentPerPosition f) c (lpAssetsCache f) (freechainIdx f)) b).

(** One token account of a mint: the amount is added, the decimals replaced. *)
Definition add_account (acc : outcome (BN * num)) (account : Json) : outcome (BN * num) :=
  let! td := acc in
  let! am := jfield (Some account) "amount" in
  let! total := (if truthy am then let! a := bn_of_string (jstring (jnullish am JNull)) in Ret (bn_add td.1 a)
                 else Ret td.1) in
  let! dec := jfield (Some account) "decimals" in
  Ret (total, match jnullish dec JNull with JNull => td.2 | JNum x => x | _ => NaN end).

(** More than dust, and not an NFT. *)
Definition listed (amount : BN) (decimals : num) : outcome bool :=
  if neqb decimals (num_of_Z 0) then Ret false else let! d := dust in Ret (negb (bn_lte amount d)).

Definition holding (kv : string * Json) : outcome (option WalletItem) :=
  match kv.2 with
  | JArr ((_ :: _) as accounts) =>
      let! z := zero in
      let! td := foldl add_account (Ret (z, num_of_Z 0)) accounts in
      let! ok := listed td.1 td.2 in
      Ret (if ok then Some (mkItem kv.1 (bn_toString td.1) td.2) else None)
  | _ => Ret None
  end.

(** [for (const x of xs) { if skipped continue; results.push(f(x)) }] *)
Fixpoint collect {A B} (f : A -> outcome (option B)) (xs : list A) : outcome (list B) :=
  match xs with
  | [] => Ret []
  | x :: xs' => let! o := f x in let! ys := collect f xs' in Ret (match o with Some y => y :: ys | None => ys end)
  end.

Definition sol_item (amount : string) : WalletItem := mkItem NATIVE_MINT amount (num_of_Z 9).

Definition read_holdings (data : Json) : outcome (list WalletItem) :=
  let! sol := jfield (Some data) "amount" in
  let! tokens := jfield (Some data) "tokens" in
  let! items :=
    match tokens with
    | Some (JObj _ as t) | Some (JArr _ as t) => collect holding (jentries t)
    | _ => Ret []
    end in
  Ret (sol_item (jstring (jnullish sol (JStr "0"))) :: items).

Definition fetchBalancesViaJupiter : P (list WalletItem) :=
  let* res := await (Fetch (JupiterSwap.holdings_url cfg) "GET" (JupiterSwap.api_key cfg) None) in
  if negb (r_ok res) then throw ("Jupiter holdings HTTP " +:+ Z_toString (r_status res))
  else
    let* data := await (ReadJson res) in
    lift (read_holdings data).

Definition rpc_item (a : TokenAccount) : outcome (option WalletItem) :=
  match a_tokenAmount a with
  | None => Throw "Cannot read properties of undefined (reading 'amount')"
  | Some (amount, decimals) =>
      if neqb decimals (num_of_Z 0) then Ret None
      else
        let! v := bn_of_string amount in
        let! ok := listed v decimals in
        Ret (if ok then Some (mkItem (default "undefined"%string (a_mint a)) amount decimals) else None)
  end.

Definition next_free_chain : P unit :=
  modify (fun b => let f := byreal b in
    set_byreal (mkByreal (cachedSolBalance f) (rentPerPosition f) (walletBalancesCache f) (lpAssetsCache f)
                  (freechainIdx f + 1)) b).

Definition fetchBalancesViaRpc : P (list WalletItem) :=
  do* next_free_chain in
  let* solLamports := await GetBalance in
  let* accountsLegacy := await (GetParsedTokenAccountsByOwner TOKEN_PROGRAM_ID) in
  let* accounts2022 := await (GetParsedTokenAccountsByOwner TOKEN_2022_PROGRAM_ID) in
  let* items := lift (collect rpc_item (accountsLegacy ++ accounts2022)) in
  ret (sol_item (Z_toString solLamports) :: items).

(** [try { items = fetch; cache = { items, ts: Date.now() }; return items }] *)
Definition cached_from (fetch : P (list WalletItem)) : P (option (list WalletItem)) :=
  catch
    (let* items := fetch in
     let* now := clock in
     do* set_walletBalances (Some (items, now)) in
     ret (Some items))
    (fun _ => ret None).

(** [if (cache && Date.now() - cache.ts < ttl) return cache.items; fetch] *)
Definition cached {A} (cache_ : Bot -> option (A * Z)) (ttl : Z) (fetch : P A) : P A :=
  let* cache := gets cache_ in
  let* fresh :=
    match cache with
    | Some (items, ts) => let* now := clock in ret (if now - ts <? ttl then Some items else None)
    | None => ret None
    end in
  match fresh with
  | Some items => ret items
  | None => fetch
  end.

(** Jupiter first, then the RPC; when both fail, the stale cache is returned
    and kept. *)
Definition fetchWalletBalances : P (list WalletItem) :=
  let* viaJupiter := cached_from fetchBalancesViaJupiter in
  match viaJupiter with
  | Some items => ret items
  | None =>
      let* viaRpc := cached_from fetchBalancesViaRpc in
      match viaRpc with
      | Some items => ret items
      | None => let* stale := gets (fun b => walletBalancesCache (byreal b)) in ret (default [] (fst <$> stale))
      end
  end.

Definition getWalletTokenBalances : P (list WalletItem) :=
  cached (fun b => walletBalancesCache (byreal b)) WALLET_BALANCES_TTL fetchWalletBalances.

(** ** [getPositionAssets] *)

Definition LP_ASSETS_TTL : Z := 5 * 60 * 1000.
Definition MAX_PAGES : nat := 30.

Definition lp_url (page : Z) : Url :=
  mkUrl "https://api2.byreal.io/byreal/api/dex/v2/position/list"
    [("userAddress", userAddress cfg); ("tab", "current"); ("pageSize", "100"); ("page", Z_toString page)]%string.

(** [parseFloat(x)] of a property *)
Definition jparseFloat (x : option Json) : num :=
  match x with Some j => parseFloat (jstring j) | None => NaN end.

Definition lp_data (json : Json) : option Json := jopt (jopt (Some json) "result") "data".

Definition is_active (p : Json) : outcome bool :=
  let! usd := jfield (Some p) "liquidityUsd" in Ret (nlt (num_of_Z 0) (jparseFloat usd)).

Definition active_positions (ps : list Json) : outcome (list Json) :=
  collect (fun p => let! a := is_active p in Ret (if a then Some p else None)) ps.

(** The positions and pools so far, and whether the next page is read. *)
Definition readPage (json : Json) (positions : list Json) (pools : list (string * Json))
    : list Json * list (string * Json) * bool :=
  let merged := foldl (fun m kv => jset kv.1 kv.2 m) pools
                  (jentries (jnullish (jopt (lp_data json) "poolMap") (JObj []))) in
  match jnullish (jopt (lp_data json) "positions") (JArr []) with
  | JArr [] | JStr "" => (positions, pools, false)
  | JArr ps =>
      match active_positions ps with
      | Ret act => (positions ++ act, merged, negb (length act <? length ps)%nat)
      | Throw _ => (positions, merged, false)
      end
  | _ => (positions, merged, false)        (** not an array: [filter] throws *)
  end.

Fixpoint lp_pages (left : nat) (page : Z) (positions : list Json) (pools : list (string * Json))
    : P (list Json * list (string * Json)) :=
  match left with
  | O => ret (positions, pools)
  | S left' =>
      let* r :=
        catch
          (let* res := await (Fetch (lp_url page) "GET" [] None) in
           if negb (r_ok res) then ret (positions, pools, false)
           else let* json := await (ReadJson res) in ret (readPage json positions pools))
          (fun _ => ret (positions, pools, false)) in
      let '(positions', pools', more) := r in
      if more then lp_pages left' (page + 1) positions' pools' else ret (positions', pools')
  end.

(** What one position contributes. *)
Record Decoded := mkDecoded {
  d_mintA : string; d_mintB : string; d_decA : Z; d_decB : Z; d_uiA : num; d_uiB : num; d_usd : num;
}.

Definition account_text (x : option Json) : option string :=
  match x with Some (JStr s) => if truthy s then Some s else None | _ => None end.

Definition ui_amount (amount : BN) (decimals : Z) : num :=
  ndiv (parseFloat (bn_toString amount)) (num_of_Z (10 ^ decimals)).

Definition jtext (x : option Json) : string := match x with Some j => jstring j | None => "undefined" end.

(** [None]: the position is skipped. *)
Definition decode (pools : list (string * Json)) (pos : Json) : outcome (option Decoded) :=
  let! poolAddress := jfield (Some pos) "poolAddress" in
  match jget (jtext poolAddress) pools with
  | None => Ret None
  | Some pool =>
      if negb (truthy pool) then Ret None
      else
        let! accountBase64 := jfield (Some pool) "accountBase64" in
        let! positionBase64 := jfield (Some pos) "positionAccountBase64" in
        match account_text accountBase64, account_text positionBase64 with
        | Some poolText, Some posText =>
            let! liquidity := decodePosition posText in
            if bn_isZero liquidity then Ret None
            else
              let! decoded := decodePool poolText in
              let '(sqrtPriceX64_, decA, decB) := decoded in
              let! lowerTick := jfield (Some pos) "lowerTick" in
              let! upperTick := jfield (Some pos) "upperTick" in
              let! sqrtPriceLower := getSqrtPriceX64FromTick lowerTick in
              let! sqrtPriceUpper := getSqrtPriceX64FromTick upperTick in
              let! amounts := getAmountsFromLiquidity sqrtPriceX64_ sqrtPriceLower sqrtPriceUpper liquidity in
              let! poolA := jfield (Some pool) "mintA" in
              let! addressA := jfield poolA "address" in
              let! poolB := jfield (Some pool) "mintB" in
              let! addressB := jfield poolB "address" in
              let! usd := jfield (Some pos) "liquidityUsd" in
              let usd_text := if truthy usd then jtext usd else "0"%string in
              Ret (Some (mkDecoded (jtext addressA) (jtext addressB) decA decB
                           (ui_amount amounts.1 decA) (ui_amount amounts.2 decB) (parseFloat usd_text)))
        | _, _ => Ret None
        end
  end.

Definition Totals : Type := list (string * LpAsset).

(** [totals.set(mint, { ...prev, balance: prev + ui, decimals })] *)
Definition add_balance (mint_ : string) (ui : num) (decimals : Z) (t : Totals) : Totals :=
  let prev := jget mint_ t in
  jset mint_ (mkLp mint_ (nadd (default (num_of_Z 0) (lp_balance <$> prev)) ui) (num_of_Z decimals)
                (default [] (pairedStable <$> prev)) (default (num_of_Z 0) (liquidityUsd <$> prev))) t.

(** [e = totals.get(mint); e.liquidityUsd += usd; if (ui > 0) e.pairedStable[stable] += ui] *)
Definition attribute (mint_ : string) (usd : num) (paired : option (string * num)) (t : Totals) : Totals :=
  match jget mint_ t with
  | None => t
  | Some e =>
      let stables :=
        match paired with
        | Some (stable, ui) =>
            if nlt (num_of_Z 0) ui
            then jset stable (nadd (default (num_of_Z 0) (jget stable (pairedStable e))) ui) (pairedStable e)
            else pairedStable e
        | None => pairedStable e
        end in
      jset mint_ (mkLp (lp_mint e) (lp_balance e) (lp_decimals e) stables (nadd (liquidityUsd e) usd)) t
  end.

(** The mint a position's value is attributed to, and the stable side. *)
Definition attribution (d : Decoded) : option (string * option (string * num)) :=
  match shas (d_mintA d) STABLE_MINTS, shas (d_mintB d) STABLE_MINTS with
  | false, true => Some (d_mintA d, Some (d_mintB d, d_uiB d))
  | true, false => Some (d_mintB d, Some (d_mintA d, d_uiA d))
  | false, false => Some (d_mintA d, None)
  | true, true => None
  end.

Definition add_decoded (t : Totals) (d : Decoded) : Totals :=
  let t' := add_balance (d_mintB d) (d_uiB d) (d_decB d) (add_balance (d_mintA d) (d_uiA d) (d_decA d) t) in
  match attribution d with
  | Some (m, paired) => attribute m (d_usd d) paired t'
  | None => t'
  end.

(** A position that cannot be decoded is logged and left out. *)
Definition decoded_of (pools : list (string * Json)) (positions : list Json) : list Decoded :=
  omap (fun pos => match decode pools pos with Ret o => o | Throw _ => None end) positions.

Definition aggregate (ds : list Decoded) : Totals := foldl add_decoded [] ds.

Definition set_lpAssets (c : option (list LpAsset * Z)) : P unit :=
  modify (fun b => let f := byreal b in
    set_byreal (mkByreal (cachedSolBalance f) (rentPerPosition f) (walletBalancesCache f) c (freechainIdx f)) b).

(** All active positions, added up; the stale list when there is none. *)
Definition fetchPositionAssets : P (list LpAsset) :=
  let* read := lp_pages MAX_PAGES 1 [] [] in
  let (positions, pools) := read in
  match positions with
  | [] => let* stale := gets (fun b => lpAssetsCache (byreal b)) in ret (default [] (fst <$> stale))
  | _ =>
      let items := jvalues (aggregate (decoded_of pools positions)) in
      let* now := clock in
      do* set_lpAssets (Some (items, now)) in
      ret items
  end.

Definition getPositionAssets : P (list LpAsset) :=
  cached (fun b => lpAssetsCache (byreal b)) LP_ASSETS_TTL fetchPositionAssets.

(** ** The listing of the wallet *)

Context `{!BNLaws L}.

(** A young list is served without a call, otherwise what [fetch] guarantees
    holds. *)
Lemma cached_run {A} (cache_ : Bot -> option (A * Z)) ttl (fetch : P A) (rely : Bot -> Bot -> Prop)
    (R : A -> list (HEvent Call Ans Task) -> Bot -> Prop) env k b :
  (forall n c s, rely s (answer env n c s).2) ->
  wp (hist_logic (fun _ _ _ => True) rely (fun _ _ => True)) fetch [] b (fun r h b' => exists a, r = Ret a /\ R a h b') ->
  let x := run env k [] (cached cache_ ttl fetch) b in
  exists a, res x = Ret a /\
    ((exists t, cache_ b = Some (a, t) /\ time env k - t < ttl /\ hist x = []) \/ R a (hist x) (final x)).
Proof using Type.
  intros Henv Hwp.
  assert (forall n, let x := run env n [] fetch b in exists a, res x = Ret a /\ R a (hist x) (final x)) as Hlater.
  { intros n. apply (hist_run fetch (fun _ _ _ => True) rely (fun _ _ => True) env n [] b
      (fun r h b' => exists a, r = Ret a /\ R a h b')); [by split|done]. }
  unfold cached. cbn [run Async.bind after gets ret].
  destruct (cache_ b) as [[a ts]|] eqn:Ec; cbn [run Async.bind after clock ret].
  - destruct (Z.ltb_spec (time env k - ts) ttl) as [Hlt|Hge]; cbn [run Async.bind after ret].
    + exists a. split; [done|]. left. by exists ts.
    + destruct (Hlater (S k)) as (a' & Hr & H). exists a'. split; [exact Hr|]. by right.
  - destruct (Hlater k) as (a' & Hr & H). exists a'. split; [exact Hr|]. by right.
Qed.

(** Worth listing: not an NFT, and more than a thousand base units. *)
Definition worth (i : WalletItem) : Prop :=
  neqb (w_decimals i) (num_of_Z 0) = false
  /\ exists v, (w_amount i = bn_toString v \/ bn_of_string (w_amount i) = Ret v) /\ 1000 < bn_val v.

Lemma listed_above v d : listed v d = Ret true -> neqb d (num_of_Z 0) = false /\ 1000 < bn_val v.
Proof using BNLaws0.
  unfold listed, dust. destruct (neqb d (num_of_Z 0)); [done|].
  destruct (bn_of_int_safe 1000 ltac:(lia)) as (t & -> & Ht). cbn [obind]. rewrite bn_lte_val, Ht.
  intros [= H]. split; [done|]. apply negb_true_iff, Z.leb_gt in H. done.
Qed.

Lemma collect_forall {A B} (f : A -> outcome (option B)) (Q : B -> Prop) xs ys :
  (forall x y, f x = Ret (Some y) -> Q y) -> collect f xs = Ret ys -> Forall Q ys.
Proof using Type.
  intros Hf. revert ys. induction xs as [|x xs IH]; intros ys; simpl; [intros [= <-]; constructor|].
  destruct (f x) as [o|] eqn:E; [|done]. cbn [obind]. destruct (collect f xs) as [zs|]; [|done]. cbn [obind].
  intros [= <-]. destruct o as [y|]; [|by apply IH]. constructor; [by eapply Hf|by apply IH].
Qed.

Lemma holding_worth kv i : holding kv = Ret (Some i) -> worth i.
Proof using BNLaws0.
  unfold holding. destruct kv.2 as [| | | |[|a l]|]; try done.
  destruct zero as [z|]; [|done]. cbn [obind]. destruct (foldl add_account _ _) as [td|]; [|done]. cbn [obind].
  destruct (listed td.1 td.2) as [[]|] eqn:El; [|done..]. cbn [obind]. intros [= <-].
  apply listed_above in El as [Hd Hv]. split; [done|]. exists td.1. auto.
Qed.

Lemma rpc_item_worth a i : rpc_item a = Ret (Some i) -> worth i.
Proof using BNLaws0.
  unfold rpc_item. destruct (a_tokenAmount a) as [[amount d]|]; [|done].
  destruct (neqb d (num_of_Z 0)); [done|]. destruct (bn_of_string amount) as [v|] eqn:Ev; [|done]. cbn [obind].
  destruct (listed v d) as [[]|] eqn:El; [|done..]. cbn [obind]. intros [= <-].
  apply listed_above in El as [Hd Hv]. split; [done|]. exists v. auto.
Qed.

(** The items are what Jupiter answered, or what the RPC did. *)
Definition read_from (items : list WalletItem) (h : list (HEvent Call Ans Task)) : Prop :=
  (exists r data, Called (ReadJson r) (Ret data) ∈ h /\ read_holdings data = Ret items)
  \/ (exists lamports legacy token2022 rest,
        Called GetBalance (Ret lamports) ∈ h
        /\ Called (GetParsedTokenAccountsByOwner TOKEN_PROGRAM_ID) (Ret legacy) ∈ h
        /\ Called (GetParsedTokenAccountsByOwner TOKEN_2022_PROGRAM_ID) (Ret token2022) ∈ h
        /\ collect rpc_item (legacy ++ token2022) = Ret rest /\ items = sol_item (Z_toString lamports) :: rest).

Lemma read_from_worth items h :
  read_from items h -> exists sol rest, items = sol_item sol :: rest /\ Forall worth rest.
Proof using BNLaws0.
  intros [(r & data & _ & Hr)|(lamports & l1 & l2 & rest & _ & _ & _ & Hr & ->)].
  - unfold read_holdings in Hr. destruct (jfield _ "amount") as [sol|]; [|done]. cbn [obind] in Hr.
    destruct (jfield _ "tokens") as [tokens|]; [|done]. cbn [obind] in Hr.
    match type of Hr with (let! _ := ?x in _) = _ => destruct x as [rest|] eqn:Ec end; [|done]. injection Hr as <-.
    eexists _, rest. split; [done|].
    destruct tokens as [[]|]; try (by simplify_eq); by eapply collect_forall; [apply holding_worth|].
  - exists (Z_toString lamports), rest. split; [done|]. eapply collect_forall; [apply rpc_item_worth|done].
Qed.

Definition cache_of (b : Bot) : option (list WalletItem * Z) := walletBalancesCache (byreal b).
Definition same_cache (b b' : Bot) : Prop := cache_of b' = cache_of b.

Definition HW : Logic Bot Call Ans Task (list (HEvent Call Ans Task)) :=
  hist_logic (fun _ _ _ => True) same_cache (fun _ _ => True).

Lemma hw_call c h b (Q : outcome (Ans c) -> list (HEvent Call Ans Task) -> Bot -> Prop) :
  (forall r b', same_cache b b' -> Q r (Called c r :: h) b') -> wp HW (await c) h b Q.
Proof using Type. intros H. split; [done|]. intros r b' _ Hs. by apply H. Qed.

(** A reading leaves the cache alone, and what it returns was read. *)
Definition reading (fetch : P (list WalletItem)) : Prop :=
  forall h b, wp HW fetch h b (fun r h' b' => same_cache b b' /\ forall items, r = Ret items -> read_from items h').

Lemma jupiter_reading : reading fetchBalancesViaJupiter.
Proof using Type.
  intros h b. unfold fetchBalancesViaJupiter. apply wp_bind, hw_call. intros [res|e] b1 H1; [|by split].
  destruct (r_ok res); cbn [negb]; [|by split]. apply wp_bind, hw_call. unfold same_cache in *.
  intros [data|e] b2 H2; cbn; (split; [congruence|]); [|done].
  intros items Hi. left. exists res, data. split; [left|done].
Qed.

Lemma rpc_reading : reading fetchBalancesViaRpc.
Proof using Type.
  intros h b. unfold fetchBalancesViaRpc, next_free_chain. apply wp_bind. exists h. split; [done|]. cbn [wp].
  assert (forall f b', walletBalancesCache f = cache_of b -> same_cache (set_byreal f b) b' -> same_cache b b') as Hstep.
  { unfold same_cache, cache_of. intros f b' <- ->. done. }
  apply wp_bind, hw_call. intros [lamports|e] b1 H1%Hstep; [|done..|by split].
  apply wp_bind, hw_call. intros [l1|e] b2 H2; [|split; [unfold same_cache in *; congruence|done]].
  apply wp_bind, hw_call. intros [l2|e] b3 H3; [|split; [unfold same_cache in *; congruence|done]].
  assert (same_cache b b3) as Hs by (unfold same_cache in *; congruence).
  apply wp_bind. destruct (collect rpc_item (l1 ++ l2)) as [rest|e] eqn:E; cbn; [|by split].
  split; [done|]. intros items [= <-]. right. exists lamports, l1, l2, rest. split_and!; try done.
  - right. right. left.
  - right. left.
  - left.
Qed.

(** Only a reading is cached. *)
Lemma cached_from_reading fetch h b :
  reading fetch ->
  wp HW (cached_from fetch) h b (fun r h' b' =>
    exists o, r = Ret o /\
      match o with
      | Some items => read_from items h' /\ exists t, cache_of b' = Some (items, t)
      | None => same_cache b b'
      end).
Proof using Type.
  intros Hf. unfold cached_from. apply wp_catch, wp_bind. eapply wp_mono; [apply Hf|].
  intros [items|e] h1 b1 [Hs Hr]; cbn; [|by exists None].
  intros t. exists h1. split; [done|]. exists (Some items). split; [done|]. split; [by apply Hr|]. by exists t.
Qed.

(** The list is what was read, native balance first and then what is worth
    listing, and cached; or both readings failed and it is the cached one. *)
Definition refreshed (b : Bot) (items : list WalletItem) (h : list (HEvent Call Ans Task)) (b' : Bot) : Prop :=
  (read_from items h /\ (exists t, cache_of b' = Some (items, t))
   /\ exists sol rest, items = sol_item sol :: rest /\ Forall worth rest)
  \/ (cache_of b' = cache_of b /\ items = default [] (fst <$> cache_of b)).

Lemma read_refreshed b items h b' :
  read_from items h /\ (exists t, cache_of b' = Some (items, t)) -> refreshed b items h b'.
Proof using BNLaws0. intros [Hr Hc]. left. split_and!; [done|done|by eapply read_from_worth]. Qed.

Lemma fetch_wp h b :
  wp HW fetchWalletBalances h b (fun r h' b' => exists items, r = Ret items /\ refreshed b items h' b').
Proof using BNLaws0.
  unfold fetchWalletBalances. apply wp_bind. eapply wp_mono; [apply cached_from_reading, jupiter_reading|].
  intros r h1 b1 (o & -> & Ho). cbn [wp]. destruct o as [items|]; [exists items; split; [done|by apply read_refreshed]|].
  apply wp_bind. eapply wp_mono; [apply cached_from_reading, rpc_reading|].
  intros r h2 b2 (o & -> & Ho2). cbn [wp]. destruct o as [items|]; [exists items; split; [done|by apply read_refreshed]|].
  cbn. eexists. split; [done|]. right. unfold same_cache, cache_of in *. split; [congruence|by rewrite Ho2, Ho].
Qed.

(** The listing of the wallet never fails and never poisons its cache: a list
    younger than five minutes is served as it is, without a call; otherwise the
    list is what Jupiter or, failing that, the RPC answered, and it is cached;
    when both fail, the old list is served and kept.  What was read lists the
    native balance first and, after it, no NFT and no amount of 1000 base units
    or less. *)
Theorem wallet_listing_never_poisoned env k b :
  (forall n c s, same_cache s (answer env n c s).2) ->
  let x := run env k [] getWalletTokenBalances b in
  exists items, res x = Ret items /\
    ((exists t, cache_of b = Some (items, t) /\ time env k - t < WALLET_BALANCES_TTL /\ hist x = [])
     \/ refreshed b items (hist x) (final x)).
Proof using BNLaws0.
  intros Henv. unfold getWalletTokenBalances.
  apply (cached_run cache_of WALLET_BALANCES_TTL fetchWalletBalances same_cache (refreshed b)); [done|apply fetch_wp].
Qed.

(** ** The tokens in positions, mint by mint *)

Section PerMint.
Context (m : string).

(** What the positions say of one mint, each in their order. *)
Definition touches (d : Decoded) : bool := bool_decide (d_mintA d = m) || bool_decide (d_mintB d = m).

Definition plus_if (c : bool) (x acc : num) : num := if c then nadd acc x else acc.

Definition balance_of (ds : list Decoded) : num :=
  foldl (fun acc d => plus_if (bool_decide (d_mintB d = m)) (d_uiB d)
                        (plus_if (bool_decide (d_mintA d = m)) (d_uiA d) acc)) (num_of_Z 0) ds.

Definition owns (d : Decoded) : bool := bool_decide (fst <$> attribution d = Some m).

Definition usd_of (ds : list Decoded) : num :=
  foldl (fun acc d => plus_if (owns d) (d_usd d) acc) (num_of_Z 0) ds.

Definition decimals_of (ds : list Decoded) : num :=
  foldl (fun acc d => if bool_decide (d_mintB d = m) then num_of_Z (d_decB d)
                      else if bool_decide (d_mintA d = m) then num_of_Z (d_decA d) else acc) (num_of_Z 0) ds.

(** The stable side of the positions attributed to the mint. *)
Definition paired_of (ds : list Decoded) : list (string * num) :=
  foldl (fun acc d =>
    match attribution d with
    | Some (o, Some (stable, ui)) =>
        if bool_decide (o = m) && nlt (num_of_Z 0) ui
        then jset stable (nadd (default (num_of_Z 0) (jget stable acc)) ui) acc
        else acc
    | _ => acc
    end) [] ds.

Definition asset_of (ds : list Decoded) : LpAsset :=
  mkLp m (balance_of ds) (decimals_of ds) (paired_of ds) (usd_of ds).

End PerMint.

(** *** One position *)

Definition nothing (m : string) : LpAsset := asset_of m [].

Definition with_balance (c : bool) (ui : num) (decimals : Z) (a : LpAsset) : LpAsset :=
  if c then mkLp (lp_mint a) (nadd (lp_balance a) ui) (num_of_Z decimals) (pairedStable a) (liquidityUsd a) else a.

Lemma get_add_balance m x ui decimals t :
  jget m (add_balance x ui decimals t) =
    if bool_decide (x = m) then Some (with_balance true ui decimals (mkLp m (lp_balance (default (nothing m) (jget m t)))
      (num_of_Z 0) (pairedStable (default (nothing m) (jget m t))) (liquidityUsd (default (nothing m) (jget m t)))))
    else jget m t.
Proof using Type.
  unfold add_balance. case_bool_decide as E; [subst|by rewrite jget_jset_ne].
  rewrite jget_jset. by destruct (jget m t).
Qed.

(** The asset of [m] after one more position. *)
Definition step (m : string) (a : LpAsset) (d : Decoded) : LpAsset :=
  let a1 := with_balance (bool_decide (d_mintA d = m)) (d_uiA d) (d_decA d) a in
  let a2 := with_balance (bool_decide (d_mintB d = m)) (d_uiB d) (d_decB d) a1 in
  match attribution d with
  | Some (o, paired) =>
      if bool_decide (o = m) then
        mkLp (lp_mint a2) (lp_balance a2) (lp_decimals a2)
          (match paired with
           | Some (stable, ui) =>
               if nlt (num_of_Z 0) ui
               then jset stable (nadd (default (num_of_Z 0) (jget stable (pairedStable a2))) ui) (pairedStable a2)
               else pairedStable a2
           | None => pairedStable a2
           end) (nadd (liquidityUsd a2) (d_usd d))
      else a2
  | None => a2
  end.

Lemma asset_of_snoc m ds d : asset_of m (ds ++ [d]) = step m (asset_of m ds) d.
Proof using Type.
  unfold asset_of, balance_of, decimals_of, paired_of, usd_of, step, owns, plus_if. rewrite !foldl_app. cbn.
  destruct (bool_decide (d_mintA d = m)), (bool_decide (d_mintB d = m)); cbn;
    destruct (attribution d) as [[o [[stable ui]|]]|]; cbn; try done.
  all: rewrite (bool_decide_ext (Some o = Some m) (o = m)) by naive_solver.
  all: destruct (bool_decide (o = m)); cbn; try done; destruct (nlt (num_of_Z 0) ui); done.
Qed.

Lemma attribution_touches d o paired : attribution d = Some (o, paired) -> touches o d = true.
Proof using Type.
  unfold attribution, touches.
  destruct (shas (d_mintA d) STABLE_MINTS), (shas (d_mintB d) STABLE_MINTS); intros [= <- <-];
    rewrite orb_true_iff, !bool_decide_eq_true; auto.
Qed.

Lemma step_untouched m a d : touches m d = false -> step m a d = a.
Proof using Type.
  intros Hd. unfold step. pose proof Hd as [HA HB]%orb_false_iff. rewrite HA, HB. cbn.
  destruct (attribution d) as [[o paired]|] eqn:Eo; [|done]. apply attribution_touches in Eo.
  rewrite bool_decide_false; [done|]. intros ->. congruence.
Qed.

Lemma some_snoc {A} (p : A -> bool) l x : some p (l ++ [x]) = some p l || p x.
Proof using Type. unfold some. rewrite existsb_app. cbn. by rewrite orb_false_r. Qed.

Lemma asset_untouched m ds : some (touches m) ds = false -> asset_of m ds = nothing m.
Proof using Type.
  induction ds as [|d ds IH] using rev_ind; [done|]. rewrite some_snoc. intros [Hl Hd]%orb_false_iff.
  by rewrite asset_of_snoc, IH, step_untouched.
Qed.

Lemma get_add_decoded m t d a :
  jget m t = Some a \/ jget m t = None /\ a = nothing m -> lp_mint a = m ->
  jget m (add_decoded t d) = (if touches m d then Some (step m a d) else jget m t).
Proof using Type.
  intros Ha Hm. unfold add_decoded, step.
  set (t' := add_balance _ _ _ _).
  assert (jget m t' = if touches m d then
            Some (with_balance (bool_decide (d_mintB d = m)) (d_uiB d) (d_decB d)
                   (with_balance (bool_decide (d_mintA d = m)) (d_uiA d) (d_decA d) a)) else jget m t) as Ht.
  { subst t'. rewrite !get_add_balance. unfold touches.
    destruct Ha as [Ha|[Ha ->]]; rewrite Ha; destruct (bool_decide (d_mintA d = m)), (bool_decide (d_mintB d = m));
      cbn; rewrite ?Hm; done. }
  destruct (attribution d) as [[o paired]|] eqn:Eo; [|by rewrite Ht].
  pose proof (attribution_touches _ _ _ Eo) as Hto. unfold attribute.
  destruct (decide (o = m)) as [E|E]; [rewrite (bool_decide_true (o = m)) by done|rewrite (bool_decide_false (o = m)) by done].
  - rewrite E in Hto |- *. rewrite Hto in Ht. rewrite Ht, Hto, jget_jset. done.
  - destruct (jget o t'); [rewrite jget_jset_ne by done|]; done.
Qed.

Lemma aggregate_get ds m :
  jget m (aggregate ds) = if some (touches m) ds then Some (asset_of m ds) else None.
Proof using Type.
  induction ds as [|d ds IH] using rev_ind; [done|].
  unfold aggregate in *. rewrite foldl_app. cbn. rewrite (get_add_decoded m _ d (asset_of m ds)).
  - rewrite some_snoc, asset_of_snoc, IH. destruct (touches m d) eqn:Ed; [by rewrite orb_true_r|].
    by rewrite orb_false_r, step_untouched.
  - rewrite IH. destruct (some (touches m) ds) eqn:Es; [by left|right]. split; [done|by apply asset_untouched].
  - done.
Qed.

(** *** The listing *)

Lemma wf_aggregate ds : wf_map (aggregate ds).
Proof using Type.
  unfold aggregate. cut (forall t, wf_map t -> wf_map (foldl add_decoded t ds)); [intros H; apply H, wf_nil|].
  induction ds as [|d ds IH]; intros t Ht; [done|]. apply IH. unfold add_decoded, add_balance, attribute.
  repeat case_match; auto using wf_jset.
Qed.

(** One entry for each mint of the positions, with what they say of it. *)
Definition by_mint (ds : list Decoded) (items : list LpAsset) : Prop :=
  NoDup (map lp_mint items)
  /\ forall a, a ∈ items <-> some (touches (lp_mint a)) ds = true /\ a = asset_of (lp_mint a) ds.

Lemma aggregate_by_mint ds : by_mint ds (jvalues (aggregate ds)).
Proof using Type.
  pose proof (wf_aggregate ds) as Hwf.
  assert (forall k a, (k, a) ∈ aggregate ds -> some (touches k) ds = true /\ a = asset_of k ds) as Hin.
  { intros k a Hk. pose proof (elem_jget k a _ Hwf Hk) as Hg. rewrite aggregate_get in Hg.
    destruct (some (touches k) ds); [by injection Hg|done]. }
  split.
  - assert (map lp_mint (jvalues (aggregate ds)) = (aggregate ds).*1) as ->; [|exact Hwf].
    unfold jvalues. clear Hwf. induction (aggregate ds) as [|[k a] l IH]; [done|]. cbn. f_equal.
    + destruct (Hin k a) as [_ ->]; [left|done].
    + apply IH. intros k' a' Hk. apply Hin. by right.
  - intros a. unfold jvalues. rewrite list_elem_of_fmap. split.
    + intros ([k a'] & -> & Hk). destruct (Hin k a' Hk) as [Ht ->]. done.
    + intros [Ht Ha]. exists (lp_mint a, a). split; [done|]. apply jget_Some_elem. rewrite aggregate_get, Ht. by rewrite <- Ha.
Qed.

Definition lp_cache_of (b : Bot) : option (list LpAsset * Z) := lpAssetsCache (byreal b).
Definition same_lp (b b' : Bot) : Prop := lp_cache_of b' = lp_cache_of b.

Definition HP : Logic Bot Call Ans Task (list (HEvent Call Ans Task)) :=
  hist_logic (fun _ _ _ => True) same_lp (fun _ _ => True).

(** The positions and pools of the pages read, in their order. *)
Definition page_of (e : HEvent Call Ans Task) : option Json :=
  match e with
  | Called c r =>
      match c return outcome (Ans c) -> option Json with
      | ReadJson _ => fun r => match r with Ret json => Some json | Throw _ => None end
      | _ => fun _ => None
      end r
  | Spawned _ => None
  end.

Definition pages (h : list (HEvent Call Ans Task)) : list Json * list (string * Json) :=
  foldl (fun acc json => (readPage json acc.1 acc.2).1) ([], []) (omap page_of (rev h)).

Lemma pages_cons e h :
  pages (e :: h) = match page_of e with Some json => (readPage json (pages h).1 (pages h).2).1 | None => pages h end.
Proof using Type.
  unfold pages. cbn [rev]. rewrite omap_app, foldl_app. cbn. by destruct (page_of e).
Qed.

Lemma pages_wp left : forall page h b,
  wp HP (lp_pages left page (pages h).1 (pages h).2) h b (fun r h' b' => r = Ret (pages h') /\ same_lp b b').
Proof using Type.
  induction left as [|left IH]; intros page h b; cbn [lp_pages wp ret]; [by rewrite <- surjective_pairing|].
  apply wp_bind, wp_catch, wp_bind. split; [done|]. cbn [l_post HP hist_logic].
  intros [res|e] b1 _ H1; cbn [wp ret]; [|by rewrite <- surjective_pairing, pages_cons].
  destruct (r_ok res); cbn [negb wp ret]; [|by rewrite <- surjective_pairing, pages_cons].
  apply wp_bind. split; [done|]. cbn [l_post HP hist_logic]. intros [json|e] b2 _ H2; cbn [wp ret].
  2:{ rewrite <- surjective_pairing, !pages_cons. split; [done|]. unfold same_lp in *. cbn in *. congruence. }
  set (h2 := Called (ReadJson res) (Ret json) :: _).
  assert (pages h2 = (readPage json (pages h).1 (pages h).2).1) as Hp.
  { unfold h2. rewrite pages_cons. cbn [page_of]. by rewrite pages_cons. }
  destruct (readPage json (pages h).1 (pages h).2) as [[ps pools] more]. cbn [fst] in Hp.
  assert (same_lp b b2) as Hs by (unfold same_lp in *; cbn in *; congruence).
  destruct more; cbn [wp ret]; [|split; [by rewrite Hp|done]].
  replace ps with (pages h2).1 by by rewrite Hp. replace pools with (pages h2).2 by by rewrite Hp.
  eapply wp_mono; [apply IH|]. intros r h3 b3 [Hr Hs3]. split; [done|]. unfold same_lp in *. congruence.
Qed.

(** From the pages read and the time the list was made. *)
Definition assembled (b : Bot) (items : list LpAsset) (h : list (HEvent Call Ans Task)) (b' : Bot) : Prop :=
  ((pages h).1 <> [] /\ (exists t, lp_cache_of b' = Some (items, t))
   /\ by_mint (decoded_of (pages h).2 (pages h).1) items)
  \/ ((pages h).1 = [] /\ lp_cache_of b' = lp_cache_of b /\ items = default [] (fst <$> lp_cache_of b)).

Lemma fetchPositionAssets_wp b :
  wp HP fetchPositionAssets [] b (fun r h' b' => exists items, r = Ret items /\ assembled b items h' b').
Proof using Type.
  unfold fetchPositionAssets. apply wp_bind. eapply wp_mono; [apply (pages_wp MAX_PAGES 1 [] b)|].
  intros r h1 b1 [-> Hs]. cbn [wp]. destruct (pages h1) as [positions pools] eqn:Ep. destruct positions as [|p ps].
  - cbn. eexists. split; [done|]. right. rewrite Ep. unfold same_lp, lp_cache_of in *. by rewrite Hs.
  - intros t. exists h1. split; [done|]. eexists. split; [done|]. left. rewrite Ep.
    split_and!; [done|by eexists|apply aggregate_by_mint].
Qed.

(** C34: The listing of the positions never fails: a list younger than five minutes
    is served without a call.  Otherwise, when a page that was read had an active
    position, the positions of the pages read are added up mint by mint, in their
    order, each value counted for one side at most, which is not a stablecoin,
    and that list is served and cached; when none had, whether for a failure or
    because there is none, the old list is served and kept.  Reading ends with the
    last page or with the first that fails, and what was read before a failure
    counts: then the list that is served and cached is cut short. *)
Theorem position_assets_by_mint env k b :
  (forall n c s, same_lp s (answer env n c s).2) ->
  let x := run env k [] getPositionAssets b in
  (exists items, res x = Ret items /\
    ((exists t, lp_cache_of b = Some (items, t) /\ time env k - t < LP_ASSETS_TTL /\ hist x = [])
     \/ assembled b items (hist x) (final x)))
  /\ forall d m m', owns m d = true -> owns m' d = true -> m = m' /\ m ∉ STABLE_MINTS.
Proof using Type.
  intros Henv x. split.
  2:{ intros d m m' [=Hm]%bool_decide_eq_true [=Hm']%bool_decide_eq_true. rewrite Hm in Hm'.
      split; [by injection Hm'|]. intros Hin%shas_true. unfold attribution in Hm.
      destruct (shas (d_mintA d) STABLE_MINTS) eqn:EA, (shas (d_mintB d) STABLE_MINTS) eqn:EB; simplify_eq/=; congruence. }
  subst x. unfold getPositionAssets.
  apply (cached_run lp_cache_of LP_ASSETS_TTL fetchPositionAssets same_lp (assembled b)); [done|apply fetchPositionAssets_wp].
Qed.

End ByrealAssets.

(** ** Concrete runs *)

(** Every request is answered with [data]. *)
Definition serving (data : Json) : Env Bot (Call (L := Z_BN)) (Ans (L := Z_BN)) :=
  mkEnv (fun _ c b =>
    (match c return outcome (Ans c) with
     | Fetch _ _ _ _ => Ret (mkResponse 200 true 0)
     | ReadJson _ => Ret data
     | c => demo_answer (Ret "Sig"%string) (fun _ => None) c
     end, b)) (fun n => Z.of_nat n).

Definition account (amount : string) (decimals : Z) : Json :=
  JObj [("amount", JStr amount); ("decimals", JNum (num_of_Z decimals))]%string.

(** A mint in two accounts, an NFT and dust. *)
Definition demo_holdings : Json :=
  JObj [("amount", JStr "5000000");
        ("tokens", JObj [("MINT", JArr [account "700" 6; account "800" 6]); ("NFT", JArr [account "1" 0]);
                         ("DUST", JArr [account "1000" 6])])]%string.

Definition empty_bot : Bot := fresh PositionMap.new.

Lemma wallet_listing_never_poisoned_witness :
  let x := run (serving demo_holdings) 0 [] (getWalletTokenBalances (L := Z_BN) demo_settings) empty_bot in
  res x = Ret [sol_item "5000000"; mkItem "MINT" "1500" (num_of_Z 6)]
  /\ exists items, res x = Ret items /\
    ((exists t, cache_of empty_bot = Some (items, t) /\ time (serving demo_holdings) 0 - t < WALLET_BALANCES_TTL /\ hist x = [])
     \/ refreshed empty_bot items (hist x) (final x)).
Proof.
  cbv zeta. split; [by vm_compute|].
  apply (wallet_listing_never_poisoned (L := Z_BN) demo_settings (BNLaws0 := Z_BN_laws)). by intros n c b.
Defined.

(** Liquidity is the length of the account's text. *)
Definition demo_clmm : Clmm (L := Z_BN) := {|
  decodePosition := fun s => Ret (Z.of_nat (String.length s)) : outcome (BN (BNLib := Z_BN));
  decodePool := fun _ => Ret (1 : BN (BNLib := Z_BN), 6, 6);
  getSqrtPriceX64FromTick := fun _ => Ret (1 : BN (BNLib := Z_BN));
  getAmountsFromLiquidity := fun _ _ _ l => Ret ((l * 10 ^ 6 : BN (BNLib := Z_BN)), (2 * 10 ^ 6 : BN (BNLib := Z_BN)))
|}.

Definition api_position (text usd : string) : Json :=
  JObj [("poolAddress", JStr "Pool"); ("positionAccountBase64", JStr text); ("liquidityUsd", JStr usd)]%string.

Definition demo_page : Json :=
  JObj [("result", JObj [("data", JObj [
    ("positions", JArr [api_position "abc" "10"; api_position "abcd" "5"; api_position "a" "0"]);
    ("poolMap", JObj [("Pool", JObj [("accountBase64", JStr "x"); ("mintA", JObj [("address", JStr "MINT")]);
                                     ("mintB", JObj [("address", JStr USDC)])])])])])]%string.

Lemma position_assets_by_mint_witness :
  let x := run (serving demo_page) 0 [] (getPositionAssets (L := Z_BN) (C := demo_clmm) demo_settings) empty_bot in
  res x = Ret [mkLp "MINT" (num_of_Z 7) (num_of_Z 6) [(USDC, num_of_Z 4)] (num_of_Z 15);
               mkLp USDC (num_of_Z 4) (num_of_Z 6) [] (num_of_Z 0)]
  /\ exists items, res x = Ret items /\
    ((exists t, lp_cache_of empty_bot = Some (items, t) /\ time (serving demo_page) 0 - t < LP_ASSETS_TTL /\ hist x = [])
     \/ assembled (C := demo_clmm) empty_bot items (hist x) (final x)).
Proof.
  cbv zeta. split; [by vm_compute|].
  refine (proj1 (position_assets_by_mint (L := Z_BN) (C := demo_clmm) demo_settings (serving demo_page) 0 empty_bot _)).
  by intros n c b.
Defined.

End ByrealAssets.
