(* ===== verification/Reconcile.v ===== *)
(** * Reconciliation ([src/executor/byreal-position.ts],
    [reconcile-status.ts], [byreal-nft-audit.ts])

    The scan for positions whose target is gone ([enqueueReconcile], and
    [reconcilePositions], which closes as it goes), the close of one orphan,
    and the audit of the wallet's NFTs against the map, which imports what is
    not mapped and queues its close.  [OperationQueue.enqueue] does not throw,
    so the audit's list of failed enqueues stays empty. *)

From S2P Require Import Prelude JsMap JsString JsNumber Async TxTypes PositionMap Store Stores State Chain ByrealOps.
Open Scope Z_scope.
Open Scope list_scope.
Open Scope prog_scope.

Module Reconcile.
Import Async State Chain ByrealOps.

Section Reconcile.
Context `{L : BNLib} `{W : Web3} (cfg : Settings).

(** ** [reconcile-log.ts] and [reconcile-status.ts] *)

Inductive ScanStatus := Checking | Active | Orphan | Skipped | TransientError.
Inductive Side := TargetSide | OurSide.

Definition status_text (s : ScanStatus) : string :=
  match s with
  | Checking => "checking" | Active => "active" | Orphan => "orphan" | Skipped => "skipped"
  | TransientError => "transient-error"
  end.

Record ScanLogInput := mkScanLog {
  l_scanned : Z; l_total : Z; l_targetNft : string; l_ourNft : string; l_dex : option string;
  l_status : ScanStatus; l_detail : option string;
}.

Definition formatReconcileScanLog (input : ScanLogInput) : string :=
  let base := ("Reconcile scan " +:+ Z_toString (l_scanned input) +:+ "/" +:+ Z_toString (l_total input)
    +:+ ": target=" +:+ String.substring 0 8 (l_targetNft input) +:+ " our=" +:+ String.substring 0 8 (l_ourNft input)
    +:+ " dex=" +:+ or_else (l_dex input) "byreal"%string +:+ " status=" +:+ status_text (l_status input))%string in
  if truthy (l_detail input) then (base +:+ " detail=" +:+ default "" (l_detail input))%string else base.

Record TargetStatus := mkStatus { isOrphan : bool; status : ScanStatus; detail : string }.

Definition side_text (s : Side) : string := match s with TargetSide => "target" | OurSide => "our" end.

(** [None] is a null position; the inner option is its liquidity. *)
Definition classifyByrealReconcilePosition (position : option (option BN)) (side : Side) : TargetStatus :=
  match position with
  | None => mkStatus true Orphan (side_text side +:+ " position returned null")
  | Some liquidity =>
      match liquidity with
      | Some l =>
          if bn_isZero l then mkStatus true Orphan (side_text side +:+ " liquidity is zero")
          else mkStatus false Active (side_text side +:+ " liquidity=" +:+ bn_toString l)
      | None => mkStatus false Active (side_text side +:+ " liquidity unknown")
      end
  end.

Definition classifyByrealReconcileTarget (position : option (option BN)) : TargetStatus :=
  classifyByrealReconcilePosition position TargetSide.

Definition liquidity_seen (info : option PositionInfo) : option (option BN) := (fun i => Some (i_liquidity i)) <$> info.

(** ** Steps of the scan *)

Definition dexOf (tgtNft : string) : P (option string) := gets (fun b => PositionMap.getDex tgtNft (positionMap b)).

(** Positions of another exchange are left to its executor. *)
Definition foreign (dex : option string) : bool := truthy dex && negb (bool_decide (dex = Some "byreal"%string)).

Definition tag_of (d : Dex) : string :=
  match d with Orca => "orca" | Meteora => "meteora" | Pcs => "pancakeswap" | Byreal => "byreal" | DammV2 => "dammv2" end.

(** One checker that is set: a position of its exchange is tagged and is no
    orphan; an error is ignored. *)
Definition checkOther (d : Dex) (tgtNft : string) (orphan : bool) : P bool :=
  if orphan && bool_decide (d ∈ checkers cfg) then
    catch
      (let* yes := await (IsPositionOf d tgtNft) in
       if (yes : bool) then do* on_positionMap (PositionMap.setDex tgtNft (tag_of d)) in ret false
       else ret orphan)
      (fun _ => ret orphan)
  else ret orphan.

Definition checkOthers (tgtNft : string) (orphan : bool) : P bool :=
  let* o1 := checkOther Orca tgtNft orphan in
  let* o2 := checkOther Meteora tgtNft o1 in
  checkOther Pcs tgtNft o2.

Definition readStatus (nft : string) (side : Side) : P TargetStatus :=
  let* k := lift (publicKey nft) in
  let* info := await (GetPositionInfoByNftMint k) in
  ret (classifyByrealReconcilePosition (liquidity_seen info) side).

(** ** [enqueueReconcile] *)

(** [None]: the target could not be read, keep the mapping. *)
Definition scanTarget (tgtNft : string) : P (option bool) :=
  catch
    (let* s := readStatus tgtNft TargetSide in ret (Some (isOrphan s)))
    (fun e =>
       if isTransientError e then ret None
       else if isPositionGoneError e then ret (Some true) else ret None).

(** Whether our position has to be closed; one that is gone is forgotten. *)
Definition scanOurs (tgtNft ourNft : string) : P bool :=
  catch
    (let* s := readStatus ourNft OurSide in
     if isOrphan s then do* forgetMapping tgtNft in ret false else ret true)
    (fun e =>
       if isTransientError e then ret false
       else if isPositionGoneError e then do* forgetMapping tgtNft in ret false
       else ret false).

Definition scanOne (entry : string * string) : P bool :=
  let (tgtNft, ourNft) := entry in
  let* dex := dexOf tgtNft in
  if foreign dex then ret false
  else
    let* seen := scanTarget tgtNft in
    match seen with
    | None => do* sleep 500 in ret false
    | Some orphan =>
        let* orphan' := checkOthers tgtNft orphan in
        let* close := if orphan' then scanOurs tgtNft ourNft else ret false in
        do* sleep 500 in
        ret close
    end.

Fixpoint scanAll (es : list (string * string)) : P (list (string * string)) :=
  match es with
  | [] => ret []
  | e :: es' =>
      let* close := scanOne e in
      let* rest := scanAll es' in
      ret (if close then e :: rest else rest)
  end.

Definition closeLabel (prefix nft : string) : string := prefix +:+ "(" +:+ String.substring 0 8 nft +:+ ")".

Definition reconcileScan : P unit :=
  let* es := gets (fun b => PositionMap.entries (positionMap b)) in
  let* orphans := scanAll es in
  for_each (fun tn => spawn (Enqueue (closeLabel "orphan-close" tn.2) (CloseOrphan tn.1 tn.2))) orphans.

Definition enqueueReconcile : P unit :=
  let* n := gets (fun b => PositionMap.size (positionMap b)) in
  if n =? 0 then ret tt else catch reconcileScan (fun _ => ret tt).

(** ** [closeOrphan] *)

(** [/not found/i.test(msg)]: our position is already gone. *)
Definition closeOrphan_body (tgtNft ourNft : string) : P unit :=
  catch
    (let* orphanTx := sendClose cfg ourNft in
     let* ok := verifyTxSuccess orphanTx in
     if ok then forgetMapping tgtNft else ret tt)
    (fun e => if mentions ["not found"]%string e then forgetMapping tgtNft else ret tt).

Definition closeOrphan (tgtNft ourNft : string) : P unit :=
  if dryRun cfg then ret tt else closeOrphan_body tgtNft ourNft.

(** ** [reconcilePositions]: the scan that closes as it goes *)

Definition scanTargetOrGone (tgtNft : string) : P bool :=
  catch
    (let* s := readStatus tgtNft TargetSide in ret (isOrphan s))
    (fun e => ret (negb (isTransientError e))).

(** Our own close under the lock; a busy executor or a dry run goes straight
    to the next entry. *)
Definition reconcileOne (entry : string * string) : P unit :=
  let (tgtNft, ourNft) := entry in
  let* dex := dexOf tgtNft in
  if foreign dex then ret tt
  else
    let* orphan := scanTargetOrGone tgtNft in
    let* orphan' := checkOthers tgtNft orphan in
    if orphan' then
      if dryRun cfg then ret tt
      else
        let* got := acquire Byreal in
        if got then
          let* landed := finally
            (catch
               (let* orphanTx := sendClose cfg ourNft in
                let* ok := verifyTxSuccess orphanTx in
                if ok then do* forgetMapping tgtNft in ret true else ret false)
               (fun e => if mentions ["not found"]%string e then do* forgetMapping tgtNft in ret true else ret true))
            (release Byreal) in
          if landed then sleep 500 else ret tt
        else ret tt
    else sleep 500.

Definition reconcilePositions : P unit :=
  let* n := gets (fun b => PositionMap.size (positionMap b)) in
  if n =? 0 then ret tt
  else
    let* es := gets (fun b => PositionMap.entries (positionMap b)) in
    for_each reconcileOne es.

(** ** [byreal-nft-audit.ts] *)

Record AuditResult := mkAudit {
  mappedCount : nat; onChainCount : nat;
  unmappedOnChain : list string; mappedMissingOnChain : list string;
  importedToMapping : list string; closeQueued : list string; enqueueFailed : list (string * string);
}.

(** [xs.sort()] of texts *)
Fixpoint insert_sorted (x : string) (xs : list string) : list string :=
  match xs with
  | [] => [x]
  | y :: ys => if String.leb x y then x :: xs else y :: insert_sorted x ys
  end.
Definition sort (xs : list string) : list string := foldr insert_sorted [] xs.

Definition diffByrealNftAudit (mappedNfts onChainNfts : list string) : AuditResult :=
  let mapped := set_of mappedNfts in
  let onChain := set_of onChainNfts in
  mkAudit (length mapped) (length onChain)
    (sort (keep (fun n => negb (shas n mapped)) onChain))
    (sort (keep (fun n => negb (shas n onChain)) mapped)) [] [] [].

(** ** [auditByrealNftsOnChain] *)

Definition nft_mints (accounts : list TokenAccount) : list string :=
  omap (fun a =>
    match a_mint a, a_tokenAmount a with
    | Some m, Some (amount, decimals) =>
        if truthy m && neqb decimals (num_of_Z 0) && bool_decide (amount = "1"%string) then Some m else None
    | _, _ => None
    end) accounts.

Definition scanProgram (candidates : list string) (program : string) : P (list string) :=
  catch
    (let* accounts := await (GetParsedTokenAccountsByOwner program) in
     ret (foldl (fun s m => sadd m s) candidates (nft_mints accounts)))
    (fun _ => ret candidates).

Fixpoint readCandidates (nfts : list string) : P (list (string * PositionInfo)) :=
  match nfts with
  | [] => ret []
  | nft :: nfts' =>
      let* info := catch (let* k := lift (publicKey nft) in await (GetPositionInfoByNftMint k)) (fun _ => ret None) in
      do* sleep 50 in
      let* rest := readCandidates nfts' in
      ret (match info with Some i => (nft, i) :: rest | None => rest end)
  end.

Definition importOne (found : list (string * PositionInfo)) (nft : string) : P (option string) :=
  match jget nft found with
  | None => ret None
  | Some i =>
      let* now := clock in
      let* dbnow := clock in
      do* on_positionMap (PositionMap.set now dbnow nft nft
            (Some (mintA (rawPoolInfo i) +:+ "/" +:+ mintB (rawPoolInfo i))%string) (Some "ONCHAIN_AUDIT"%string)
            (Some (i_tickLower i)) (Some (i_tickUpper i)) (Some "byreal"%string)) in
      do* on_positionMap (PositionMap.setTargetLiquidity nft (bn_toString (i_liquidity i))) in
      ret (Some nft)
  end.

Fixpoint importAll (found : list (string * PositionInfo)) (nfts : list string) : P (list string) :=
  match nfts with
  | [] => ret []
  | nft :: nfts' =>
      let* r := importOne found nft in
      let* rest := importAll found nfts' in
      ret (match r with Some n => n :: rest | None => rest end)
  end.

Definition auditByrealNftsOnChain : P AuditResult :=
  let* c1 := scanProgram [] TOKEN_2022_PROGRAM_ID in
  let* candidates := scanProgram c1 TOKEN_PROGRAM_ID in
  let* found := readCandidates candidates in
  let* mappedNfts := gets (fun b => PositionMap.getByrealNfts (positionMap b)) in
  let r := diffByrealNftAudit mappedNfts found.*1 in
  let* imported := importAll found (unmappedOnChain r) in
  ret (mkAudit (mappedCount r) (onChainCount r) (unmappedOnChain r) (mappedMissingOnChain r) imported [] []).

Definition queueImportedByrealAuditCloses (r : AuditResult) : P AuditResult :=
  do* for_each (fun nft => spawn (Enqueue (closeLabel "audit-close" nft) (ManualClose nft))) (importedToMapping r) in
  ret (mkAudit (mappedCount r) (onChainCount r) (unmappedOnChain r) (mappedMissingOnChain r)
         (importedToMapping r) (closeQueued r ++ importedToMapping r) (enqueueFailed r)).

Definition auditByrealNftsOnChainAndQueueClose : P AuditResult :=
  let* r := auditByrealNftsOnChain in
  queueImportedByrealAuditCloses r.

End Reconcile.

End Reconcile.
