(* ===== verification/Discipline.v ===== *)
(** * What the executor's steps write and call

    For each shared step of the Byreal executor, one lemma [always R C]: every
    write it makes is in [R] and every call in [C], for any [R] that has the
    instances the lemma asks for.  [Keeps_x R] says that a write of component
    [x] is in [R]; [Reads C] and [Writes C] that the calls that only read, and
    those that sign or send, are in [C].  The tactic [always_go] follows the
    syntax of a program; the database [always] holds the lemmas. *)

From S2P Require Import Prelude JsMap JsString JsNumber Json Async Ratio TxTypes PositionMap Store Stores PumpPending State Chain JupiterSwap MarketData ByrealOps ByrealOpen Reconcile.
Open Scope Z_scope.
Open Scope list_scope.

Module Discipline.
Import Async State Chain.

Create HintDb always.

(** Case analysis on a call, through the exchange it is for. *)
Ltac by_call := intros []; try done; match goal with
  | c : @OrcaCall _ |- _ => by destruct c
  | c : @PcsCall _ |- _ => by destruct c
  | c : LegacyCall |- _ => by destruct c
  | c : @MeteoraCall _ |- _ => by destruct c
  | c : @DammCall _ |- _ => by destruct c
  end.

Section Classes.
Context `{L : BNLib}.

(** The calls that sign or send. *)
Definition writes (c : Call) : bool :=
  match c with
  | SendTransaction _ | SwapExactOut _ _ | SignerCallback _ | SignVersioned _ | OnOrca (BuildAndExecute _)
  | OnLegacy (SignLegacy _ _) | OnLegacy (SendRawTransaction _) => true
  | Fetch _ method _ _ => bool_decide (method = "POST"%string)
  | _ => false
  end.

(** Those of [signAndSend]. *)
Definition sends (c : Call) : bool :=
  match c with SendTransaction _ | SignerCallback _ => true | _ => false end.

(** The calls that have the SDK build instructions. *)
Definition builds (c : Call) : bool :=
  match c with
  | CreatePositionInstructions _ _ _ _ _ _ | AddLiquidityInstructions _ _ _ _ | DecreaseLiquidityInstructions _ _
  | DecreaseFullLiquidityInstructions _ _ | CollectFeesInstructions _ | CollectAllPositionFeesInstructions _ => true
  | OnOrca c =>
      match c with
      | InitTickArrayForTicks _ _ _ | WpOpenPosition _ _ _ _ | WpClosePosition _ _ _ | WpIncreaseLiquidity _ _
      | WpDecreaseLiquidity _ _ _ _ | WpCollectFees _ => true
      | _ => false
      end
  | OnPcs c =>
      match c with
      | PcsGetPosition _ | GetTokenAccountsByOwner _ _ => false
      | _ => true
      end
  | OnMeteora c =>
      match c with
      | DlmmCreate _ | LbGetPosition _ _ | LbGetPositionsByUser _ _ => false
      | _ => true
      end
  | OnDamm c =>
      match c with
      | AmFetchPool _ | AmFetchPosition _ => false
      | _ => true
      end
  | _ => false
  end.

Class Reads (C : Call -> Prop) : Prop := reads_in : forall c, writes c = false -> builds c = false -> C c.
Class Builds (C : Call -> Prop) : Prop := builds_in : forall c, builds c = true -> C c.
Class Sends (C : Call -> Prop) : Prop := sends_in : forall c, sends c = true -> C c.
Class Writes (C : Call -> Prop) : Prop := writes_in : forall c, writes c = true -> C c.

#[export] Instance writes_sends C : Writes C -> Sends C.
Proof. intros H c Hc. apply writes_in. revert c Hc. by_call. Qed.

Class Keeps_positionMap (R : Bot -> Bot -> Prop) : Prop := keeps_pm : forall b x, R b (set_positionMap x b).
Class Keeps_referers (R : Bot -> Bot -> Prop) : Prop := keeps_rf : forall b x, R b (set_referers x b).
Class Keeps_pending (R : Bot -> Bot -> Prop) : Prop := keeps_ps : forall b x, R b (set_pending x b).
Class Keeps_swapVars (R : Bot -> Bot -> Prop) : Prop := keeps_sv : forall b x, R b (set_swapVars x b).
Class Keeps_byreal (R : Bot -> Bot -> Prop) : Prop := keeps_by : forall b x, R b (set_byreal x b).
Class Keeps_market (R : Bot -> Bot -> Prop) : Prop := keeps_mk : forall b x, R b (set_market x b).
Class Keeps_pump (R : Bot -> Bot -> Prop) : Prop := keeps_pu : forall b x, R b (set_pump x b).
Class Keeps_dexVars (R : Bot -> Bot -> Prop) : Prop := keeps_dv : forall b x, R b (set_dexVars x b).
(** The fields of an executor other than the lock. *)
Class Keeps_fields (R : Bot -> Bot -> Prop) : Prop :=
  keeps_f : forall b d f, (forall x, busy (f x) = busy x) -> R b (on_executor d f b).

End Classes.

(** A write is in [R], a call is in [C]. *)
Ltac in_R :=
  first [reflexivity | apply keeps_pm | apply keeps_rf | apply keeps_ps | apply keeps_sv | apply keeps_by | apply keeps_mk
        | apply keeps_pu | apply keeps_dv | apply keeps_f; done ].
Ltac in_C := first [cbv beta; reflexivity | exact I | by apply reads_in | by apply sends_in | by apply builds_in | by apply writes_in | assumption].

(** The rules of the loops and retries, as their lemmas are proved. *)
Ltac always_step := fail.

Ltac always_go :=
  intros; cbv beta zeta;
  lazymatch goal with
  | |- always _ _ (Async.bind _ _) => apply always_bind; always_go
  | |- always _ _ (catch _ _) => apply always_catch; always_go
  | |- always _ _ (finally _ _) => apply always_finally; always_go
  | |- always _ _ (ret _) => apply always_done
  | |- always _ _ (throw _) => apply always_done
  | |- always _ _ (Async.lift _) => apply always_done
  | |- always _ _ (gets _) => apply always_gets
  | |- always _ _ clock => apply always_clock
  | |- always _ _ (spawn _) => apply always_spawn
  | |- always ?R ?C (Chain.await ?c) => refine (always_await R C c _); in_C
  | |- always _ _ (modify _) => apply always_modify; intros; in_R
  | |- always _ _ (for_each _ _) => apply always_for_each; always_go
  | |- always _ _ (match ?x with _ => _ end) => destruct x; always_go
  | |- _ => first [always_step; always_go | eauto with always typeclass_instances]
  end.

Section Steps.
Context `{L : BNLib} `{W : Web3} (cfg : Settings) (R : Bot -> Bot -> Prop) (C : Call -> Prop).
Context `{!Reads C}.

(** ** Chain *)

Lemma always_sleep ms : always R C (sleep ms).
Proof using Reads0. unfold sleep. always_go. Qed.
Hint Resolve always_sleep : always.

Lemma always_retry_loop {A} (fn : P A) attempt left : always R C fn -> always R C (retry_loop fn attempt left).
Proof using Reads0. revert attempt. induction left as [|left IH]; intros attempt Hf; simpl; always_go. Qed.

Lemma always_retry {A} (fn : P A) : always R C fn -> always R C (retryOnTransient fn).
Proof using Reads0. apply always_retry_loop. Qed.
Hint Resolve always_retry : always.

Lemma always_position_loop nft attempt left : always R C (get_position_loop nft attempt left).
Proof using Reads0. revert attempt. induction left as [|left IH]; intros attempt; simpl; always_go. Qed.
Lemma always_retryGetPosition nft : always R C (retryGetPosition nft).
Proof using Reads0. apply always_position_loop. Qed.
Hint Resolve always_retryGetPosition : always.

Lemma always_verify_loop sig attempt left : always R C (verify_loop sig attempt left).
Proof using Reads0. revert attempt. induction left as [|left IH]; intros attempt; simpl; always_go. Qed.
Lemma always_verify sig : always R C (verifyTxSuccess sig).
Proof using Reads0. apply always_verify_loop. Qed.
Hint Resolve always_verify : always.

Lemma always_parseTx sig : always R C (parseTxTokenChanges cfg sig).
Proof using All. unfold parseTxTokenChanges. always_go. Qed.
Hint Resolve always_parseTx : always.

Lemma always_available : always R C availableLamports.
Proof using Reads0. unfold availableLamports. always_go. Qed.
Hint Resolve always_available : always.
Lemma always_balance_under m p : always R C (balance_under cfg m p).
Proof using All. unfold balance_under. always_go. Qed.
Hint Resolve always_balance_under : always.
Lemma always_getTokenBalance m : always R C (getTokenBalance cfg m).
Proof using All. unfold getTokenBalance. always_go. Qed.
Hint Resolve always_getTokenBalance : always.
Lemma always_getSolBalance : always R C getSolBalance.
Proof using Reads0. unfold getSolBalance. always_go. Qed.
Hint Resolve always_getSolBalance : always.

Lemma always_estimate ixs payer bh : always R C (estimateByrealComputeUnitLimit ixs payer bh).
Proof using W Reads0. unfold estimateByrealComputeUnitLimit. always_go. Qed.
Hint Resolve always_estimate : always.
Lemma always_makeTx ixs signers : always R C (makeByrealZeroPriorityTransaction cfg ixs signers).
Proof using All. unfold makeByrealZeroPriorityTransaction. always_go. Qed.
Hint Resolve always_makeTx : always.

Lemma always_signAndSend `{!Sends C} tx : always R C (signAndSend tx).
Proof using Reads0. unfold signAndSend. always_go. Qed.
Hint Resolve always_signAndSend : always.
Lemma always_buildSignSend `{!Sends C} ixs : always R C ixs -> always R C (buildSignSend cfg ixs).
Proof using All. unfold buildSignSend, makeSdkTransactionWithoutPriorityFee. always_go. Qed.
Hint Resolve always_buildSignSend : always.

Lemma always_positionMap `{!Keeps_positionMap R} f : always R C (on_positionMap f).
Proof using Reads0. unfold on_positionMap. always_go. Qed.
Hint Resolve always_positionMap : always.
Lemma always_removeReferer `{!Keeps_referers R} t : always R C (removeReferer t).
Proof using Reads0. unfold removeReferer. always_go. Qed.
Hint Resolve always_removeReferer : always.
Lemma always_forget `{!Keeps_positionMap R} `{!Keeps_referers R} t : always R C (forgetMapping t).
Proof using Reads0. unfold forgetMapping. always_go. Qed.
Hint Resolve always_forget : always.
Lemma always_addPendingSwap `{!Keeps_pending R} m a : always R C (addPendingSwap m a).
Proof using Reads0. unfold addPendingSwap. always_go. Qed.
Hint Resolve always_addPendingSwap : always.
Lemma always_queueReceived `{!Keeps_pending R} sig : always R C (queueReceived cfg sig).
Proof using All. unfold queueReceived. always_go. Qed.
Hint Resolve always_queueReceived : always.
Lemma always_clearPending `{!Keeps_pending R} m : always R C (clearPending m).
Proof using Reads0. unfold clearPending. always_go. Qed.
Hint Resolve always_clearPending : always.
Lemma always_notify n : always R C (notify n).
Proof using Reads0. unfold notify. always_go. Qed.
Hint Resolve always_notify : always.
Lemma always_skipReason `{!Keeps_fields R} r : always R C (set_lastSkipReason r).
Proof using Reads0. unfold set_lastSkipReason. always_go. Qed.
Hint Resolve always_skipReason : always.

(** ** JupiterSwap *)

Section Jupiter.
Import JupiterSwap.
Context `{!Keeps_swapVars R} `{!Writes C}.

Lemma always_lastSwapError e : always R C (set_lastSwapError e).
Proof using All. unfold set_lastSwapError. always_go. Qed.
Hint Resolve always_lastSwapError : always.
Lemma always_set_holdings h : always R C (set_holdings h).
Proof using All. unfold set_holdings. always_go. Qed.
Hint Resolve always_set_holdings : always.
Lemma always_invalidateHoldings : always R C invalidateHoldingsCache.
Proof using All. unfold invalidateHoldingsCache. always_go. Qed.
Hint Resolve always_invalidateHoldings : always.
Lemma always_failWith {A} p e : always R C (failWith (A := A) p e).
Proof using All. unfold failWith. always_go. Qed.
Hint Resolve always_failWith : always.
Lemma always_fetch u m h b : always R C (Chain.await (Fetch u m h b)).
Proof using All. refine (always_await R C _ _). destruct (writes (Fetch u m h b)) eqn:E; [by apply writes_in|by apply reads_in]. Qed.
Hint Resolve always_fetch : always.
Lemma always_jupiterFetch u m h b : always R C (jupiterFetch cfg u m h b).
Proof using All. apply always_fetch. Qed.
Hint Resolve always_jupiterFetch : always.
Lemma always_fetch_holdings m : always R C (fetch_holdings cfg m).
Proof using All. unfold fetch_holdings. always_go. Qed.
Hint Resolve always_fetch_holdings : always.
Lemma always_inputBalance m : always R C (getInputBalance cfg m).
Proof using All. unfold getInputBalance. always_go. Qed.
Hint Resolve always_inputBalance : always.
Lemma always_send_loop tx left : always R C (send_loop tx left).
Proof using All. induction left as [|left IH]; simpl; unfold send_once; always_go. Qed.
Lemma always_sendWithRetry tx : always R C (sendWithRetry cfg tx).
Proof using All. apply always_send_loop. Qed.
Hint Resolve always_sendWithRetry : always.
Lemma always_json_or_throw label res : always R C (json_or_throw label res).
Proof using All. unfold json_or_throw. always_go. Qed.
Hint Resolve always_json_or_throw : always.
Lemma always_request_quote l i o a : always R C (request_quote cfg l i o a).
Proof using All. unfold request_quote. always_go. Qed.
Hint Resolve always_request_quote : always.
Lemma always_try_quote p l i o a : always R C (try_quote cfg p l i o a).
Proof using All. unfold try_quote. always_go. Qed.
Hint Resolve always_try_quote : always.
Lemma always_buildAndSendMetis q : always R C (buildAndSendMetis cfg q).
Proof using All. unfold buildAndSendMetis. always_go. Qed.
Hint Resolve always_buildAndSendMetis : always.
Lemma always_metis i o a : always R C (metisSwap cfg i o a).
Proof using All. unfold metisSwap. always_go. Qed.
Hint Resolve always_metis : always.
Lemma always_request_order i o a : always R C (request_order cfg i o a).
Proof using All. unfold request_order. always_go. Qed.
Hint Resolve always_request_order : always.
Lemma always_execute_order t r : always R C (execute_order cfg t r).
Proof using All. unfold execute_order. always_go. Qed.
Hint Resolve always_execute_order : always.
Lemma always_ultra i o a : always R C (ultraSwap cfg i o a).
Proof using All. unfold ultraSwap. always_go. Qed.
Hint Resolve always_ultra : always.
Lemma always_jupSwap i o a : always R C (jupSwapExactIn cfg i o a).
Proof using All. unfold jupSwapExactIn. always_go. Qed.
Hint Resolve always_jupSwap : always.
Lemma always_swapForToken i o a : always R C (swapForToken cfg i o a).
Proof using All. unfold swapForToken. always_go. Qed.
Hint Resolve always_swapForToken : always.
Lemma always_swapViaPool p i o a : always R C (swapViaByrealPool cfg p i o a).
Proof using All. unfold swapViaByrealPool. always_go. Qed.
Hint Resolve always_swapViaPool : always.
End Jupiter.
Lemma always_output_loop sig m w attempt left : always R C (JupiterSwap.output_loop sig m w attempt left).
Proof using Reads0. revert attempt. induction left as [|left IH]; intros attempt; simpl; always_go. Qed.
Lemma always_swapOutput sig m w : always R C (JupiterSwap.getActualSwapOutput sig m w).
Proof using Reads0. apply always_output_loop. Qed.

Lemma always_attempts {A} n retryable (op : P A) : always R C op -> always R C (ByrealOps.attempts n retryable op).
Proof using Reads0.
  intros Hop. unfold ByrealOps.attempts. generalize 0. induction n as [|n IH]; intros k; simpl; unfold ByrealOps.pauseBefore; always_go.
Qed.

End Steps.

#[export] Hint Resolve always_sleep always_retry always_retryGetPosition always_verify always_parseTx
  always_getTokenBalance always_getSolBalance always_makeTx always_signAndSend always_buildSignSend
  always_positionMap always_removeReferer always_forget always_addPendingSwap always_queueReceived
  always_clearPending always_notify always_skipReason always_lastSwapError always_jupSwap
  always_swapForToken always_swapViaPool always_swapOutput : always.

(** Also through the retries and the sends built on the SDK's instructions. *)
Ltac always_step ::=
  lazymatch goal with
  | |- always _ _ (retryOnTransient _) => apply always_retry
  | |- always _ _ (buildSignSend _ _) => apply always_buildSignSend
  | |- always _ _ (ByrealOps.attempts _ _ _) => apply always_attempts
  end.

(** ** The bodies of the operations *)

Section Bodies.
Import ByrealOps ByrealOpen Reconcile.
Context `{L : BNLib} `{W : Web3} (cfg : Settings) (R : Bot -> Bot -> Prop) (C : Call -> Prop).
Context `{!Reads C} `{!Builds C}.

Lemma always_market `{!Keeps_market R} f : always R C (MarketData.on_market f).
Proof using Reads0. unfold MarketData.on_market. always_go. Qed.
Hint Resolve always_market : always.

Lemma always_jupLiquidity `{!Keeps_market R} m : always R C (MarketData.getJupiterLiquidity m).
Proof using Reads0. unfold MarketData.getJupiterLiquidity, MarketData.enqueueMint. always_go. Qed.
Hint Resolve always_jupLiquidity : always.
Lemma always_checkLiquidity `{!Keeps_market R} m : always R C (MarketData.checkTokenLiquidity cfg m None).
Proof using Reads0. unfold MarketData.checkTokenLiquidity. always_go. Qed.
Lemma always_checkWith `{!Keeps_market R} m fallback :
  always R C fallback -> always R C (MarketData.checkTokenLiquidity cfg m (Some fallback)).
Proof using Reads0. intros H. unfold MarketData.checkTokenLiquidity. always_go. Qed.
Hint Resolve always_checkLiquidity : always.

Lemma always_decreaseFull n c : always R C (decreaseFull n c).
Proof using All. unfold decreaseFull. always_go. Qed.
Hint Resolve always_decreaseFull : always.
Lemma always_sendClose `{!Writes C} n : always R C (sendClose cfg n).
Proof using All. unfold sendClose. always_go. Qed.
Hint Resolve always_sendClose : always.
Lemma always_close_attempts send verify retry n attempt left :
  always R C send -> (forall s, always R C (verify s)) -> always R C (close_attempts send verify retry n attempt left).
Proof using Reads0.
  intros Hs Hv. revert attempt. induction left as [|left IH]; intros attempt; simpl; unfold pauseBefore; always_go.
Qed.
Lemma always_close_with attempts forget received n :
  always R C attempts -> always R C forget -> (forall s, always R C (received s)) ->
  always R C (close_with attempts forget received n).
Proof using Reads0. intros Ha Hf Hr. unfold close_with. always_go. Qed.

Lemma always_close_body `{!Writes C} `{!Keeps_positionMap R} `{!Keeps_referers R} `{!Keeps_pending R} t n :
  always R C (close_body cfg t n).
Proof using All.
  unfold close_body, close_loop. apply always_close_with; [apply always_close_attempts; always_go|always_go..].
Qed.

Lemma always_mapped t : always R C (mapped t).
Proof using Reads0. unfold mapped. always_go. Qed.
Hint Resolve always_mapped : always.
Lemma always_targetLiquidity t : always R C (targetLiquidity t).
Proof using All. unfold targetLiquidity. always_go. Qed.
Lemma always_ourShare n a b : always R C (ourShare n a b).
Proof using All. unfold ourShare. always_go. Qed.
Hint Resolve always_targetLiquidity always_ourShare : always.
Lemma always_decreaseAmount `{!Keeps_positionMap R} t n c : always R C (decreaseAmount t n c).
Proof using All. unfold decreaseAmount, amountToTakeOut. always_go. Qed.
Lemma always_collectFees `{!Writes C} n : always R C (collectFees cfg n).
Proof using All. unfold collectFees. always_go. Qed.
Lemma always_partial n a : always R C (partialInstructions n a).
Proof using All. unfold partialInstructions. always_go. Qed.
Hint Resolve always_decreaseAmount always_collectFees always_partial : always.
Lemma always_decrease_once `{!Writes C} `{!Keeps_pending R} n a : always R C (decrease_once cfg n a).
Proof using All.
  unfold decrease_once, sendDecrease. always_go.
Qed.
Hint Resolve always_decrease_once : always.

Lemma always_manual_once `{!Writes C} `{!Keeps_positionMap R} `{!Keeps_referers R} t n :
  always R C (manual_close_once cfg t n).
Proof using All. unfold manual_close_once. always_go. Qed.
Lemma always_sell `{!Writes C} `{!Keeps_swapVars R} m a : always R C (sell cfg m a).
Proof using All. unfold sell. always_go. Qed.
Lemma always_pendingOf m : always R C (pendingOf m).
Proof using All. unfold pendingOf. always_go. Qed.
Hint Resolve always_manual_once always_sell always_pendingOf : always.
Lemma always_subtract `{!Keeps_pending R} m a b : always R C (subtractPending m a b).
Proof using All. unfold subtractPending. always_go. Qed.
Lemma always_swapAmount r p b m : always R C (pendingSwapAmount cfg r p b m).
Proof using All. unfold pendingSwapAmount. always_go. Qed.
Hint Resolve always_subtract always_swapAmount : always.
Lemma always_sync `{!Keeps_pending R} me : always R C (syncPending cfg me).
Proof using All. unfold syncPending. always_go. Qed.
Hint Resolve always_sync : always.
Lemma always_send_batches `{!Writes C} bs : always R C (send_batches cfg bs).
Proof using All. induction bs as [|b bs IH]; simpl; unfold send_batch; always_go. Qed.
Hint Resolve always_send_batches : always.
Lemma always_collect_body `{!Writes C} : always R C (collect_body cfg).
Proof using All. unfold collect_body. always_go. Qed.

(** *** Opening *)

Lemma always_firstReason fs : Forall (always R C) fs -> always R C (firstReason fs).
Proof using Reads0. induction 1; simpl; always_go. Qed.

Lemma always_ageFilter p : always R C (ageFilter cfg p).
Proof using Reads0. unfold ageFilter. always_go. Qed.
Lemma always_tvlFilter `{!Keeps_market R} p : always R C (tvlFilter cfg p).
Proof using Reads0. unfold tvlFilter, tvlSide. always_go. Qed.
Lemma always_pumpFilter `{!Keeps_pump R} p w : always R C (pumpFilter cfg p w).
Proof using Reads0. unfold pumpFilter, pumpFilterFor, pumpFilterAt. always_go. Qed.
Lemma always_openFilters `{!Keeps_market R} `{!Keeps_pump R} i w : Forall (always R C) (openFilters cfg i w).
Proof using Reads0.
  unfold openFilters, tickFilter, concentrationFilter. repeat constructor;
    first [apply always_ageFilter | by apply always_tvlFilter | by apply always_pumpFilter | always_go].
Qed.
Lemma always_increaseFilters `{!Keeps_market R} i w : Forall (always R C) (increaseFilters cfg i w).
Proof using Reads0.
  unfold increaseFilters, pumpBlocked, pumpBlockedFor, concentrationFilter. repeat constructor;
    first [apply always_ageFilter | by apply always_tvlFilter | always_go].
Qed.

Lemma always_swapForA `{!Writes C} `{!Keeps_swapVars R} p b d : always R C (swapForA cfg p b d).
Proof using Reads0. unfold swapForA. always_go. Qed.
Lemma always_swapForB `{!Writes C} `{!Keeps_swapVars R} p b d : always R C (swapForB cfg p b d).
Proof using Reads0. unfold swapForB. always_go. Qed.
Lemma always_fund f (swap : string -> P (option string)) m t b :
  always R C f -> (forall d, always R C (swap d)) -> always R C (fund cfg f swap m t b).
Proof using Reads0. intros Hf Hs. unfold fund. always_go. Qed.
Lemma always_fundBoth `{!Writes C} `{!Keeps_swapVars R} a p ta tb : always R C (fundBoth cfg a p ta tb).
Proof using Reads0.
  unfold fundBoth, announceSwapFailed. destruct a;
    repeat (first [apply always_fund; intros; [always_go | first [by apply always_swapForA | by apply always_swapForB]]
                  | apply always_bind; intros | progress always_go]).
Qed.
Hint Resolve always_fundBoth : always.
Lemma always_deposit_loop p ta tb once attempt left a b :
  (forall d, always R C (once d)) -> always R C (deposit_loop cfg p ta tb once attempt left a b).
Proof using All.
  intros Ho. revert attempt a b. induction left as [|left IH]; intros attempt a b; simpl; always_go.
Qed.
Lemma always_open_once `{!Writes C} `{!Keeps_positionMap R} `{!Keeps_referers R} `{!Keeps_fields R} r i d :
  always R C (open_once cfg r i d).
Proof using All. unfold open_once, saveMapping, addReferer, confirmBestEffort. always_go. Qed.
Lemma always_increase_once `{!Writes C} `{!Keeps_positionMap R} t n d : always R C (increase_once cfg t n d).
Proof using All.
  unfold increase_once. always_go.
Qed.
Lemma always_open_body `{!Writes C} `{!Keeps_positionMap R} `{!Keeps_referers R} `{!Keeps_fields R}
    `{!Keeps_swapVars R} `{!Keeps_market R} `{!Keeps_pump R} r : always R C (open_body cfg r).
Proof using All.
  unfold open_body, open_funded. pose proof (always_firstReason) as Hf. pose proof always_openFilters as Ho.
  pose proof always_deposit_loop as Hd. pose proof always_open_once as Hn. always_go.
Qed.
Lemma always_openFailed `{!Keeps_fields R} r e : always R C (openFailed r e).
Proof using Reads0. unfold openFailed. always_go. Qed.
Lemma always_openGuards `{!Keeps_fields R} r : always R C (openGuards cfg r).
Proof using Reads0. unfold openGuards. always_go. Qed.
Lemma always_increase_body `{!Writes C} `{!Keeps_positionMap R} `{!Keeps_swapVars R} `{!Keeps_market R} t n w :
  always R C (increase_body cfg t n w).
Proof using All.
  unfold increase_body, increase_by. pose proof (always_firstReason) as Hf. pose proof always_increaseFilters as Ho.
  pose proof always_deposit_loop as Hd. pose proof always_increase_once as Hn. always_go.
Qed.

(** *** Reconciling *)

Lemma always_dexOf t : always R C (dexOf t).
Proof using All. unfold dexOf. always_go. Qed.
Lemma always_checkOthers `{!Keeps_positionMap R} t o : always R C (checkOthers cfg t o).
Proof using All. unfold checkOthers, checkOther. always_go. Qed.
Lemma always_readStatus n s : always R C (readStatus n s).
Proof using All. unfold readStatus. always_go. Qed.
Hint Resolve always_dexOf always_checkOthers always_readStatus : always.
Lemma always_scanOne `{!Keeps_positionMap R} `{!Keeps_referers R} e : always R C (scanOne cfg e).
Proof using All. unfold scanOne, scanTarget, scanOurs. always_go. Qed.
Hint Resolve always_scanOne : always.
Lemma always_scanAll `{!Keeps_positionMap R} `{!Keeps_referers R} es : always R C (scanAll cfg es).
Proof using All. induction es; simpl; always_go. Qed.
Hint Resolve always_scanAll : always.
Lemma always_enqueueReconcile `{!Keeps_positionMap R} `{!Keeps_referers R} : always R C (enqueueReconcile cfg).
Proof using All. unfold enqueueReconcile, reconcileScan. always_go. Qed.
Lemma always_readCandidates ns : always R C (readCandidates ns).
Proof using All. induction ns; simpl; always_go. Qed.
Lemma always_importAll `{!Keeps_positionMap R} found ns : always R C (importAll found ns).
Proof using All. induction ns; simpl; unfold importOne; always_go. Qed.
Hint Resolve always_readCandidates always_importAll : always.
Lemma always_audit `{!Keeps_positionMap R} : always R C auditByrealNftsOnChainAndQueueClose.
Proof using All.
  unfold auditByrealNftsOnChainAndQueueClose, auditByrealNftsOnChain, scanProgram, queueImportedByrealAuditCloses.
  always_go.
Qed.

End Bodies.

#[export] Hint Resolve always_attempts always_jupLiquidity always_checkLiquidity always_checkWith always_sendClose always_close_body always_mapped
  always_targetLiquidity always_decreaseAmount always_collectFees always_decrease_once always_manual_once
  always_sell always_pendingOf always_subtract always_swapAmount always_sync always_collect_body always_open_body
  always_openFailed always_openGuards always_increase_body always_dexOf always_checkOthers always_readStatus
  always_scanOne always_enqueueReconcile always_audit : always.

End Discipline.
