(* ===== verification/ByrealBounds.v ===== *)
(** * How long an operation of the Byreal executor can go on

    A call weighs [t] when it is a pause, [s] when it sends a transaction (or
    asks Jupiter to), and [r] otherwise.  [costs] bounds the weight of all the
    calls of a program, for every way they can be answered; with all three at
    one it bounds the number of calls, so the operation ends after that many
    answers, and with [s] alone it bounds the transactions sent. *)

From S2P Require Import Prelude JsMap JsString JsNumber Json Async Ratio TxTypes PositionMap Store Stores PumpPending State Chain JupiterSwap MarketData ByrealOps ByrealOpen Reconcile Discipline.
Open Scope Z_scope.
Open Scope list_scope.

Module ByrealBounds.
Import Async State Chain JupiterSwap ByrealOps ByrealOpen.

#[local] Arguments Async.bind : simpl never.
#[local] Arguments Async.catch : simpl never.
#[local] Arguments Async.finally : simpl never.

Section Bounds.
Context `{L : BNLib} `{W : Web3} (cfg : Settings).
Context (r t s : Z) (Hr : 0 <= r) (Ht : 0 <= t) (Hs : 0 <= s).

Definition sends (c : Call) : bool :=
  match c with
  | SendTransaction _ | SwapExactOut _ _ => true
  | Fetch _ method _ _ => String.eqb method "POST"
  | _ => false
  end.

Definition weight (c : Call) : Z := match c with Sleep _ => t | _ => if sends c then s else r end.

Lemma weight_nonneg c : 0 <= weight c.
Proof using All. destruct c; simpl; try done. by destruct (String.eqb _ _). Qed.

(** Symbolic execution: a call adds its weight, a step with a lemma its bound,
    a conditional is split. *)
Ltac cost_go :=
  intros; cbv beta iota zeta in *;
  lazymatch goal with
  | |- wp _ (Async.bind _ _) _ _ _ => apply wp_bind; cost_go
  | |- wp _ (catch _ _) _ _ _ => apply wp_catch; cost_go
  | |- wp _ (finally _ _) _ _ _ => apply wp_finally; cost_go
  | |- wp _ (ret _) _ _ _ => cbn [wp ret]; cost_go
  | |- wp _ (throw _) _ _ _ => cbn [wp throw]; cost_go
  | |- wp _ (Done _) _ _ _ => cbn [wp]; cost_go
  | |- wp _ (Async.lift ?o) _ _ _ => unfold Async.lift; destruct o; cbn [wp]; cost_go
  | |- wp _ (Chain.await ?c) ?g ?s ?Q =>
      refine (wp_await (cost_logic _) c g s Q I _); intros [?|?] ? _ _; cbn [l_post cost_logic weight sends String.eqb Ascii.eqb Bool.eqb] in *; cost_go
  | |- wp _ (match ?x with _ => _ end) _ _ _ => destruct x; cost_go
  | |- wp _ (gets _) _ _ _ => cbn [wp gets ret]; cost_go
  | |- wp _ clock _ _ _ => cbn [wp clock ret]; cost_go
  | |- wp _ (spawn _) _ _ _ => cbn [wp spawn ret l_spawn cost_logic]; cost_go
  | |- wp _ (modify _) ?g _ _ => apply (wp_modify _ _ g _ _ g); [done|cost_go]
  | |- wp _ _ _ _ _ =>
      eapply wp_mono; [solve [eauto with costs] | intros [?|?] ? ? ?; cost_go]
  | |- match ?x with _ => _ end => destruct x; cost_go
  | |- _ => first [lia | idtac]
  end.

Create HintDb costs.

(** A lemma [costs w n p] is used on the goal [wp _ p _ _ _]. *)
Lemma use_costs {A} n (p : P A) g b : costs weight n p -> wp (cost_logic weight) p g b (fun _ g' _ => g <= g' <= g + n).
Proof using Type. intros H. apply H. Qed.
Hint Resolve use_costs : costs.

Lemma costs_sleep ms : costs weight t (sleep ms).
Proof using All. intros g b. unfold sleep. cost_go. Qed.
Hint Resolve costs_sleep : costs.

Lemma costs_retry_loop {A} n (fn : P A) attempt left :
  0 <= n -> costs weight n fn -> costs weight (Z.of_nat left * n + Z.max 0 (Z.of_nat left - 1) * t) (retry_loop fn attempt left).
Proof using All.
  intros Hn Hf. revert attempt. induction left as [|left IH]; intros attempt g b; simpl retry_loop.
  - simpl. lia.
  - apply wp_catch. eapply wp_mono; [apply Hf|]. intros [a|e] g' b' Hg; [nia|].
    destruct (negb (left =? 0)%nat && isTransientError e) eqn:E; [|simpl; nia].
    apply andb_true_iff in E as [E%negb_true_iff%Nat.eqb_neq _].
    apply wp_bind. eapply wp_mono; [apply costs_sleep|]. intros [a|e'] g2 b2 Hg2; [|nia].
    eapply wp_mono; [apply IH|]. simpl. intros _ g3 _ Hg3. nia.
Qed.

Lemma costs_retry {A} n (fn : P A) : 0 <= n -> costs weight n fn -> costs weight (3 * n + 2 * t) (retryOnTransient fn).
Proof using All. intros Hn Hf. eapply costs_le; [by apply costs_retry_loop|]. simpl. lia. Qed.

Lemma costs_attempts {A} k n retryable (op : P A) :
  0 <= n -> costs weight n op -> costs weight (Z.of_nat k * n + Z.of_nat k * t) (attempts k retryable op).
Proof using All.
  intros Hn Hf. unfold attempts. generalize 0. induction k as [|k IH]; intros z g b; simpl attempts_loop.
  - simpl. lia.
  - apply wp_bind. unfold pauseBefore.
    assert (costs weight t (if 0 <? z then sleep 2000 else ret tt)) as Hp.
    { destruct (0 <? z); [apply costs_sleep|]. eapply costs_le; [apply costs_done|done]. }
    eapply wp_mono; [apply Hp|]. intros [a|e] g1 b1 Hg1; [|nia].
    apply wp_bind, wp_catch, wp_bind. eapply wp_mono; [apply Hf|]. intros [x|e] g2 b2 Hg2; simpl.
    + nia.
    + destruct (_ && retryable e); simpl; [|nia]. eapply wp_mono; [apply IH|]. simpl. intros; nia.
Qed.

Lemma costs_getPosition nft : costs weight (3 * r + 2 * t) (retryGetPosition nft).
Proof using All. intros g b. unfold retryGetPosition. simpl get_position_loop. cost_go. Qed.
Hint Resolve costs_getPosition : costs.

Lemma costs_verify sig : costs weight (3 * r + 2 * t) (verifyTxSuccess sig).
Proof using All. intros g b. unfold verifyTxSuccess. simpl verify_loop. cost_go. Qed.
Hint Resolve costs_verify : costs.

Lemma costs_parse sig : costs weight r (parseTxTokenChanges cfg sig).
Proof using All. intros g b. unfold parseTxTokenChanges. cost_go. Qed.
Hint Resolve costs_parse : costs.

Lemma costs_available : costs weight r availableLamports.
Proof using All. intros g b. unfold availableLamports. cost_go. Qed.
Hint Resolve costs_available : costs.
Lemma costs_balance_under m p : costs weight (2 * r) (balance_under cfg m p).
Proof using All. intros g b. unfold balance_under. cost_go. Qed.
Hint Resolve costs_balance_under : costs.
Lemma costs_getTokenBalance m : costs weight (5 * r) (getTokenBalance cfg m).
Proof using All. intros g b. unfold getTokenBalance. cost_go. Qed.
Hint Resolve costs_getTokenBalance : costs.

Lemma costs_estimate ixs payer bh : costs weight r (estimateByrealComputeUnitLimit ixs payer bh).
Proof using All. intros g b. unfold estimateByrealComputeUnitLimit. cost_go. Qed.
Hint Resolve costs_estimate : costs.
Lemma costs_makeTx ixs signers : costs weight (2 * r) (makeByrealZeroPriorityTransaction cfg ixs signers).
Proof using All. intros g b. unfold makeByrealZeroPriorityTransaction. cost_go. Qed.
Hint Resolve costs_makeTx : costs.
Lemma costs_signAndSend tx : costs weight (r + s) (signAndSend tx).
Proof using All. intros g b. unfold signAndSend. cost_go. Qed.
Hint Resolve costs_signAndSend : costs.
Lemma costs_build n ixs : 0 <= n -> costs weight n ixs -> costs weight (n + 3 * r + s) (buildSignSend cfg ixs).
Proof using All. intros Hn Hi g b. unfold buildSignSend, makeSdkTransactionWithoutPriorityFee. cost_go. Qed.

(** ** Closing and decreasing *)

Definition send_close_budget : Z := 12 * r + 3 * s + 2 * t.

Lemma costs_sendClose n : costs weight send_close_budget (sendClose cfg n).
Proof using All.
  eapply costs_le; [apply (costs_retry (r + 3 * r + s)); [lia|]; apply costs_build; [lia|]|unfold send_close_budget; lia].
  intros g b. unfold decreaseFull. cost_go.
Qed.
Hint Resolve costs_sendClose : costs.

Lemma costs_pauseBefore k : costs weight t (pauseBefore k).
Proof using All. intros g b. unfold pauseBefore. cost_go. Qed.
Hint Resolve costs_pauseBefore : costs.

Lemma costs_close_attempts x y send verify retry n attempt left :
  0 <= x -> 0 <= y -> costs weight x send -> (forall sig, costs weight y (verify sig)) ->
  costs weight (Z.of_nat left * (x + y + t)) (close_attempts send verify retry n attempt left).
Proof using All.
  intros Hx Hy Hsend Hver. revert attempt. induction left as [|left IH]; intros attempt g b; simpl close_attempts; [simpl; lia|].
  apply wp_bind. eapply wp_mono; [apply costs_pauseBefore|]. intros [?|?] g1 b1 H1; [|nia].
  apply wp_bind, wp_catch, wp_bind. eapply wp_mono; [apply Hsend|]. intros [[txSig|]|e] g2 b2 H2; cbn [wp ret throw]; [|nia|].
  - destruct (negb (truthy txSig)); cbn [wp ret throw]; [nia|].
    apply wp_bind. eapply wp_mono; [apply Hver|]. intros [[]|?] g3 b3 H3; cbn [wp ret throw]; [nia| |nia].
    destruct (left =? 0)%nat; [unfold notify; cost_go; nia|]. eapply wp_mono; [apply IH|]. simpl. intros; nia.
  - destruct (_ && _); cbn [wp ret throw]; [|nia]. eapply wp_mono; [apply IH|]. simpl. intros; nia.
Qed.

Lemma costs_close_loop n : costs weight (3 * (send_close_budget + 3 * r + 3 * t)) (close_loop cfg n).
Proof using All.
  assert (0 <= send_close_budget) as Hb by (unfold send_close_budget; lia).
  unfold close_loop. eapply costs_le; [apply (costs_close_attempts send_close_budget (3 * r + 2 * t)); [lia|lia| |]|].
  - intros g b. cost_go.
  - apply costs_verify.
  - unfold MAX_CLOSE_ATTEMPTS. lia.
Qed.

Lemma costs_forget n : costs weight 0 (forgetMapping n).
Proof using All. intros g b. unfold forgetMapping, on_positionMap, removeReferer. cost_go. Qed.
Lemma costs_addPending m a : costs weight 0 (addPendingSwap m a).
Proof using All. intros g b. unfold addPendingSwap. cost_go. Qed.
Lemma costs_credits l : costs weight 0 (for_each (fun mr => addPendingSwap mr.1 mr.2) l).
Proof using All. apply costs_for_each. intros. apply costs_addPending. Qed.
Hint Resolve costs_forget costs_addPending costs_credits : costs.
Lemma costs_queueReceived sig : costs weight r (queueReceived cfg sig).
Proof using All. intros g b. unfold queueReceived. cost_go. Qed.
Hint Resolve costs_queueReceived : costs.

Definition close_budget : Z := 3 * (send_close_budget + 3 * r + 3 * t) + r.

Lemma costs_close n : costs weight close_budget (copyClosePosition cfg n).
Proof using All.
  assert (0 <= send_close_budget) as Hb by (unfold send_close_budget; lia). unfold close_budget.
  pose proof costs_close_loop as Hc.
  intros g b. unfold copyClosePosition, mapped, locked, acquire, release, close_body, close_with, notify. cost_go.
Qed.

Definition decrease_budget : Z := 50 * r + 6 * s + 22 * t.

Lemma costs_targetLiquidity n : costs weight (3 * r + 2 * t) (targetLiquidity n).
Proof using All. intros g b. unfold targetLiquidity. cost_go. Qed.
Lemma costs_ourShare n x y : costs weight (3 * r + 2 * t) (ourShare n x y).
Proof using All. intros g b. unfold ourShare. cost_go. Qed.
Hint Resolve costs_targetLiquidity costs_ourShare : costs.
Lemma costs_decreaseAmount n m c : costs weight (3 * r + 2 * t) (decreaseAmount n m c).
Proof using All. intros g b. unfold decreaseAmount, amountToTakeOut, on_positionMap. cost_go. Qed.
Hint Resolve costs_decreaseAmount : costs.
Lemma costs_instructions n amount :
  costs weight (4 * r + 2 * t) (match amount with Some a => partialInstructions n a | None => decreaseFull n false end).
Proof using All. intros g b. unfold partialInstructions, decreaseFull. cost_go. Qed.
Lemma costs_decrease_once n amount : costs weight (22 * r + 3 * s + 8 * t) (decrease_once cfg n amount).
Proof using All.
  assert (costs weight (21 * r + 3 * s + 8 * t) (sendDecrease cfg n amount)) as Hd.
  { eapply costs_le; [apply (costs_retry (4 * r + 2 * t + 3 * r + s)); [lia|]; apply costs_build; [lia|];
      apply costs_instructions|lia]. }
  intros g b. unfold decrease_once. cost_go.
Qed.
Lemma costs_collectFees n : costs weight send_close_budget (collectFees cfg n).
Proof using All.
  eapply costs_le; [apply (costs_retry (r + 3 * r + s)); [lia|]; apply costs_build; [lia|]|unfold send_close_budget; lia].
  intros g b. cost_go.
Qed.
Hint Resolve costs_decrease_once costs_collectFees : costs.

Lemma costs_decrease n : costs weight decrease_budget (copyDecreaseLiquidity cfg n).
Proof using All.
  assert (0 <= send_close_budget) as Hb by (unfold send_close_budget; lia).
  assert (forall n amount, costs weight (2 * (22 * r + 3 * s + 8 * t) + 2 * t)
            (attempts 2 isRetryableSimError (decrease_once cfg n amount))) as Hd.
  { intros. apply (costs_attempts 2); [lia|apply costs_decrease_once]. }
  assert (forall n, costs weight (2 * send_close_budget + 2 * t)
            (attempts 2 isRetryableSimError (let* txSig := collectFees cfg n in ret (txSig, COLLECT_FEE))%prog)) as Hf.
  { intros. apply (costs_attempts 2); [lia|]. intros g b. cost_go. }
  unfold decrease_budget. unfold send_close_budget in Hf.
  intros g b. unfold copyDecreaseLiquidity, mapped, locked, acquire, release. cost_go.
Qed.

Definition manual_budget : Z := 2 * send_close_budget + 2 * t.

Lemma costs_manual n : costs weight manual_budget (manualClosePosition cfg n).
Proof using All.
  assert (0 <= send_close_budget) as Hb by (unfold send_close_budget; lia).
  assert (forall x n retryable, costs weight manual_budget (attempts 2 retryable (manual_close_once cfg x n))) as Hm.
  { intros. apply (costs_attempts 2); [lia|]. intros g b. unfold manual_close_once. cost_go. }
  assert (0 <= manual_budget) by (unfold manual_budget; lia).
  intros g b. unfold manualClosePosition, manual_close_body, locked, acquire, release. cost_go.
Qed.

Lemma costs_closeOrphan x n : costs weight (send_close_budget + 3 * r + 2 * t) (Reconcile.closeOrphan cfg x n).
Proof using All.
  assert (0 <= send_close_budget) as Hb by (unfold send_close_budget; lia).
  intros g b. unfold Reconcile.closeOrphan, Reconcile.closeOrphan_body. cost_go.
Qed.

(** ** Swapping *)

Definition attempts_of_send : Z := Z.max 0 (maxRetry cfg).
Definition swap_budget : Z := 5 * r + s + attempts_of_send * (3 * r + s + t).

Lemma costs_send_loop tx left : costs weight (Z.of_nat left * (3 * r + s + t)) (send_loop tx left).
Proof using All.
  induction left as [|left IH]; intros g b; simpl send_loop; [simpl; lia|].
  assert (costs weight (3 * r + s) (send_once tx)) as Ho by (intros g' b'; unfold send_once; cost_go).
  apply wp_catch. eapply wp_mono; [apply Ho|]. intros [?|?] g1 b1 H1; [nia|].
  destruct (left =? 0)%nat; [cbn [wp throw]; nia|].
  apply wp_bind. eapply wp_mono; [apply costs_sleep|]. intros [?|?] g2 b2 H2; [|nia].
  eapply wp_mono; [apply IH|]. simpl. intros; nia.
Qed.
Lemma costs_sendWithRetry tx : costs weight (attempts_of_send * (3 * r + s + t)) (sendWithRetry cfg tx).
Proof using All.
  eapply costs_le; [apply costs_send_loop|]. unfold attempts_of_send. lia.
Qed.
Hint Resolve costs_sendWithRetry : costs.
Lemma costs_json label res : costs weight r (json_or_throw label res).
Proof using All. intros g b. unfold json_or_throw. cost_go. Qed.
Hint Resolve costs_json : costs.
Lemma costs_failWith {A} x e : costs weight 0 (failWith (A := A) x e).
Proof using All. intros g b. unfold failWith, set_lastSwapError. cost_go. Qed.
Hint Resolve costs_failWith : costs.
Lemma costs_try_quote x l i o a : costs weight (2 * r) (try_quote cfg x l i o a).
Proof using All. intros g b. unfold try_quote, request_quote, jupiterFetch. cost_go. Qed.
Hint Resolve costs_try_quote : costs.
Lemma costs_jupSwap i o a : costs weight swap_budget (jupSwapExactIn cfg i o a).
Proof using All.
  assert (0 <= attempts_of_send * (3 * r + s + t)) as Hn by (unfold attempts_of_send; nia).
  assert (costs weight (4 * r + s + attempts_of_send * (3 * r + s + t)) (metisSwap cfg i o a)) as Hm.
  { intros g b. unfold metisSwap, buildAndSendMetis, jupiterFetch, invalidateHoldingsCache, set_holdings. cost_go. }
  assert (costs weight (5 * r + s) (ultraSwap cfg i o a)) as Hu.
  { intros g b. unfold ultraSwap, request_order, execute_order, invalidateHoldingsCache, set_holdings. cost_go. }
  unfold jupSwapExactIn, swap_budget. intros g b. cost_go.
Qed.
Hint Resolve costs_jupSwap : costs.
Lemma costs_output sig m w : costs weight (3 * r + 2 * t) (getActualSwapOutput sig m w).
Proof using All. intros g b. unfold getActualSwapOutput. simpl output_loop. cost_go. Qed.
Hint Resolve costs_output : costs.

Lemma costs_swapTokenToUSDC m cap : costs weight (swap_budget + 8 * r + 2 * t) (swapTokenToUSDC cfg m cap).
Proof using All.
  assert (0 <= swap_budget) as Hn by (unfold swap_budget, attempts_of_send; nia).
  intros g b. unfold swapTokenToUSDC, locked, acquire, release, sell. cost_go.
Qed.

Lemma swap_budget_nonneg : 0 <= swap_budget.
Proof using All. unfold swap_budget, attempts_of_send. nia. Qed.

(** *** Pending swaps *)

Lemma costs_clearPending m : costs weight 0 (clearPending m).
Proof using All. intros g b. unfold clearPending. cost_go. Qed.
Lemma costs_subtract m x y : costs weight 0 (subtractPending m x y).
Proof using All. intros g b. unfold subtractPending, pendingOf. cost_go. Qed.
Hint Resolve costs_clearPending costs_subtract : costs.
Lemma costs_swapAmount x y z m : costs weight (5 * r) (pendingSwapAmount cfg x y z m).
Proof using All. intros g b. unfold pendingSwapAmount. cost_go. Qed.
Hint Resolve costs_swapAmount : costs.

Lemma costs_force m : costs weight (swap_budget + 5 * r) (forceSwapPending cfg m).
Proof using All.
  pose proof swap_budget_nonneg. intros g b.
  unfold forceSwapPending, pendingOf, locked, acquire, release. cost_go.
Qed.
Lemma costs_pending m a : costs weight (swap_budget + 5 * r) (executePendingSwap cfg m a).
Proof using All.
  pose proof swap_budget_nonneg. intros g b.
  unfold executePendingSwap, pendingOf, locked, acquire, release. cost_go.
Qed.

(** ** Opening and increasing *)

Definition fund_budget : Z := 2 * swap_budget + 13 * r + s.
Definition fundBoth_budget : Z := 10 * r + 2 * (fund_budget + 8 * r + 3 * t).

Lemma costs_getInputBalance m : costs weight (2 * r) (getInputBalance cfg m).
Proof using All. intros g b. unfold getInputBalance, fetch_holdings, set_holdings. cost_go. Qed.
Hint Resolve costs_getInputBalance : costs.
Lemma costs_swapForToken i o a : costs weight (swap_budget + 6 * r) (swapForToken cfg i o a).
Proof using All.
  pose proof swap_budget_nonneg. intros g b. unfold swapForToken, set_lastSwapError. cost_go.
Qed.
Lemma costs_swapViaPool p i o a : costs weight (r + s) (swapViaByrealPool cfg p i o a).
Proof using All. intros g b. unfold swapViaByrealPool. cost_go. Qed.
Hint Resolve costs_swapForToken costs_swapViaPool : costs.
Lemma costs_swapForA p x d : costs weight fund_budget (swapForA cfg p x d).
Proof using All. pose proof swap_budget_nonneg. intros g b. unfold swapForA, fund_budget. cost_go. Qed.
Lemma costs_swapForB p x d : costs weight fund_budget (swapForB cfg p x d).
Proof using All. pose proof swap_budget_nonneg. intros g b. unfold swapForB, fund_budget. cost_go. Qed.

Lemma costs_fund f (swap : string -> P (option string)) m x y :
  costs weight 0 f -> (forall d, costs weight fund_budget (swap d)) ->
  costs weight (fund_budget + 8 * r + 3 * t) (fund cfg f swap m x y).
Proof using All.
  intros Hf Hsw. assert (0 <= fund_budget) by (pose proof swap_budget_nonneg; unfold fund_budget; lia).
  intros g b. unfold fund. cost_go.
Qed.

Lemma costs_fundBoth a p x y : costs weight fundBoth_budget (fundBoth cfg a p x y).
Proof using All.
  assert (forall m, costs weight 0 (if a then announceSwapFailed m else ret tt)) as Hf.
  { intros m g b. unfold announceSwapFailed, notify. cost_go. }
  pose proof (fun m p bal d b0 => costs_fund _ (swapForA cfg p bal) m d b0 (Hf m) (fun _ => costs_swapForA p bal _)) as HA.
  pose proof (fun m p bal d b0 => costs_fund _ (swapForB cfg p bal) m d b0 (Hf m) (fun _ => costs_swapForB p bal _)) as HB.
  assert (0 <= fund_budget) by (pose proof swap_budget_nonneg; unfold fund_budget; lia).
  unfold fundBoth_budget. intros g b. unfold fundBoth. cost_go.
Qed.
Hint Resolve costs_fundBoth : costs.

Lemma costs_deposit_loop n p x y once attempt left a b0 :
  0 <= n -> (forall d, costs weight n (once d)) ->
  costs weight (Z.of_nat left * (n + 10 * r + t)) (deposit_loop cfg p x y once attempt left a b0).
Proof using All.
  intros Hn Ho. revert attempt a b0.
  induction left as [|left IH]; intros attempt a b0 g b; cbn [deposit_loop]; [simpl; lia|].
  assert (forall z, costs weight (10 * r + t)
    (if 0 <? z then do* sleep 2000 in let* u := getTokenBalance cfg (mintA p) in
       let* v := getTokenBalance cfg (mintB p) in ret (u, v) else ret (a, b0))%prog) as Hb.
  { intros z g' b'. cost_go. }
  apply wp_bind. eapply wp_mono; [apply Hb|]. intros [bals|?] g1 b1 H1; [|nia].
  apply wp_bind. unfold Async.lift. destruct (deposit _ _ _ _) as [d|e]; cbn [wp]; [|nia].
  apply wp_bind, wp_catch, wp_bind. eapply wp_mono; [apply Ho|]. intros [sig|e] g2 b2 H2; cbn [wp ret throw]; [nia|].
  destruct (_ && _); cbn [wp ret throw]; [|nia]. eapply wp_mono; [apply IH|]. simpl. intros; nia.
Qed.

Lemma costs_checkLiquidity m : costs weight r (MarketData.checkTokenLiquidity cfg m None).
Proof using All.
  intros g b. unfold MarketData.checkTokenLiquidity, MarketData.getJupiterLiquidity, MarketData.enqueueMint,
    MarketData.on_market. cost_go.
Qed.
Hint Resolve costs_checkLiquidity : costs.
Lemma costs_tvlSide m l : costs weight r (tvlSide cfg m l).
Proof using All. intros g b. unfold tvlSide. cost_go. Qed.
Hint Resolve costs_tvlSide : costs.
Lemma costs_tvlFilter p : costs weight (2 * r) (tvlFilter cfg p).
Proof using All. intros g b. unfold tvlFilter. cost_go. Qed.
Lemma costs_ageFilter p : costs weight 0 (ageFilter cfg p).
Proof using All. intros g b. unfold ageFilter. cost_go. Qed.
Lemma costs_tickFilter i w : costs weight 0 (tickFilter cfg i w).
Proof using All. intros g b. unfold tickFilter. cost_go. Qed.
Lemma costs_pumpFilter p w : costs weight 0 (pumpFilter cfg p w).
Proof using All. intros g b. unfold pumpFilter, pumpFilterFor, pumpFilterAt, notify. cost_go. Qed.
Lemma costs_concentration i w tag : costs weight 0 (concentrationFilter cfg i w tag).
Proof using All. intros g b. unfold concentrationFilter. cost_go. Qed.
Lemma costs_pumpBlocked p : costs weight 0 (pumpBlocked cfg p).
Proof using All. intros g b. unfold pumpBlocked, pumpBlockedFor. cost_go. Qed.
Hint Resolve costs_tvlFilter costs_ageFilter costs_tickFilter costs_pumpFilter costs_concentration
  costs_pumpBlocked : costs.
Lemma costs_openFilters i w : costs weight (2 * r) (firstReason (openFilters cfg i w)).
Proof using All. intros g b. unfold openFilters. cbn [firstReason]. cost_go. Qed.
Lemma costs_increaseFilters i w : costs weight (2 * r) (firstReason (increaseFilters cfg i w)).
Proof using All. intros g b. unfold increaseFilters. cbn [firstReason]. cost_go. Qed.
Hint Resolve costs_openFilters costs_increaseFilters : costs.

Lemma costs_open_once q i d : costs weight (12 * r + 3 * s + 2 * t) (open_once cfg q i d).
Proof using All.
  assert (forall ixs sg, costs weight (9 * r + 3 * s + 2 * t)
    (retryOnTransient (let* tx := makeByrealZeroPriorityTransaction cfg ixs sg in signAndSend tx))%prog) as Hs'.
  { intros. eapply costs_le; [apply (costs_retry (3 * r + s)); [lia|]|lia]. intros g b. cost_go. }
  intros g b. unfold open_once, saveMapping, addReferer, confirmBestEffort, on_positionMap. cost_go.
Qed.

Definition open_budget : Z := fundBoth_budget + 49 * r + 6 * s + 8 * t.

Lemma budgets_nonneg : 0 <= fundBoth_budget.
Proof using All. pose proof swap_budget_nonneg. unfold fundBoth_budget, fund_budget. lia. Qed.

Lemma costs_open q : costs weight open_budget (copyOpenPosition cfg q).
Proof using All.
  pose proof budgets_nonneg.
  assert (forall p x y i a b0, costs weight (44 * r + 6 * s + 6 * t)
            (deposit_loop cfg p x y (open_once cfg q i) 0 MAX_OPEN_ATTEMPTS a b0)) as Hd.
  { intros. eapply costs_le; [apply (costs_deposit_loop (12 * r + 3 * s + 2 * t)); [lia|]; intros; apply costs_open_once|].
    change (Z.of_nat MAX_OPEN_ATTEMPTS) with 2. lia. }
  assert (costs weight open_budget (open_body cfg q)) as Hb.
  { intros g b. unfold open_body, open_funded, set_lastSkipReason, open_budget. cost_go. }
  assert (forall e, costs weight 0 (openFailed q e)) as He.
  { intros e g b. unfold openFailed, notify. cost_go. }
  assert (costs weight 0 (openGuards cfg q)) as Hg.
  { intros g b. unfold openGuards, set_lastSkipReason. cost_go. }
  assert (0 <= open_budget) by (unfold open_budget; lia).
  intros g b. unfold copyOpenPosition, acquire, release. cost_go.
Qed.

Definition increase_budget : Z := fundBoth_budget + 58 * r + 6 * s + 14 * t.

Lemma costs_increase n w : costs weight increase_budget (copyIncreaseLiquidity cfg n w).
Proof using All.
  pose proof budgets_nonneg.
  assert (forall x y d, costs weight (15 * r + 3 * s + 4 * t) (increase_once cfg x y d)) as Ho.
  { intros x y d.
    assert (forall k d, costs weight send_close_budget (retryOnTransient (buildSignSend cfg
      (let* k := lift (publicKey k) in
       await (AddLiquidityInstructions k (base d) (baseAmount d) (otherAmountMax d))))%prog)) as Hr'.
    { intros. eapply costs_le; [apply (costs_retry (r + 3 * r + s)); [lia|]; apply costs_build; [lia|]
                               |unfold send_close_budget; lia].
      intros g b. cost_go. }
    unfold send_close_budget in Hr'. intros g b. unfold increase_once, on_positionMap. cost_go. }
  assert (forall p u v x y a b0, costs weight (50 * r + 6 * s + 10 * t)
            (deposit_loop cfg p u v (increase_once cfg x y) 0 MAX_INCREASE_ATTEMPTS a b0)) as Hd.
  { intros. eapply costs_le; [apply (costs_deposit_loop (15 * r + 3 * s + 4 * t)); [lia|]; intros; apply Ho|].
    change (Z.of_nat MAX_INCREASE_ATTEMPTS) with 2. lia. }
  assert (forall x y w, costs weight increase_budget (increase_body cfg x y w)) as Hb.
  { intros x y z g b. unfold increase_body, increase_by, increase_budget. cost_go. }
  assert (0 <= increase_budget) by (unfold increase_budget; lia).
  intros g b. unfold copyIncreaseLiquidity, mapped, locked, acquire, release. cost_go.
Qed.

(** ** All of them *)

Inductive Operation :=
| Open_ (q : OpenRequest) | Increase_ (x : string) (w : option string) | Decrease_ (x : string) | Close_ (x : string)
| Manual_ (n : string) | Orphan_ (x n : string) | Sell_ (m : string) (cap : option string)
| Force_ (m : string) | Pending_ (m a : string).

Definition answer_of (o : Operation) : Type :=
  match o with
  | Decrease_ _ => option (string * DecreaseType)
  | Sell_ _ _ => option SwapDone
  | Orphan_ _ _ => unit
  | _ => option string
  end.

Definition operation (o : Operation) : P (answer_of o) :=
  match o return P (answer_of o) with
  | Open_ q => copyOpenPosition cfg q
  | Increase_ x w => copyIncreaseLiquidity cfg x w
  | Decrease_ x => copyDecreaseLiquidity cfg x
  | Close_ x => copyClosePosition cfg x
  | Manual_ n => manualClosePosition cfg n
  | Orphan_ x n => Reconcile.closeOrphan cfg x n
  | Sell_ m cap => swapTokenToUSDC cfg m cap
  | Force_ m => forceSwapPending cfg m
  | Pending_ m a => executePendingSwap cfg m a
  end.

Definition budget (o : Operation) : Z :=
  match o with
  | Open_ _ => open_budget
  | Increase_ _ _ => increase_budget
  | Decrease_ _ => decrease_budget
  | Close_ _ => close_budget
  | Manual_ _ => manual_budget
  | Orphan_ _ _ => send_close_budget + 3 * r + 2 * t
  | Sell_ _ _ => swap_budget + 8 * r + 2 * t
  | Force_ _ | Pending_ _ _ => swap_budget + 5 * r
  end.

Lemma operation_costs o : costs weight (budget o) (operation o).
Proof using All.
  destruct o; simpl.
  - apply costs_open.
  - apply costs_increase.
  - apply costs_decrease.
  - apply costs_close.
  - apply costs_manual.
  - apply costs_closeOrphan.
  - apply costs_swapTokenToUSDC.
  - apply costs_force.
  - apply costs_pending.
Qed.

End Bounds.

(** C27: Every operation of the executor ends, after a bounded number of calls:
    whatever the chain, the SDK, the signer and Jupiter answer, errors included,
    and whatever other activations do meanwhile, the calls it makes weigh at
    most its budget.  With weights one a close makes at most 70 calls and an
    open at most 147 plus 20 for each configured attempt of the sender; with
    only sends counted, a close sends at most 9 transactions and a decrease 6. *)
Theorem operations_end `{L : BNLib} `{W : Web3} (cfg : Settings) r t s o env k b :
  0 <= r -> 0 <= t -> 0 <= s ->
  spent (weight r t s) (hist (run env k [] (operation cfg o) b)) <= budget cfg r t s o.
Proof.
  intros Hr Ht Hs. apply (costs_run (weight r t s) (budget cfg r t s o) _ env k []), operation_costs; done.
Qed.

(** A close whose every send is refused with a transient error. *)
Definition refused_close :=
  hist (run (demo_env (Throw "429 Too Many Requests"%string) (fun _ => Some (demo_position 5 1 1))) 0 []
    (operation (L := Z_BN) (W := demo_web3) demo_settings (Close_ "Target"))
    (fresh (PositionMap.set 0 0 "Target" "OurNft" None None None None None PositionMap.new))).

Lemma operations_end_witness :
  0 <= 1 /\ budget demo_settings 1 1 1 (Close_ "Target") = 70 /\ budget demo_settings 0 0 1 (Close_ "Target") = 9
  /\ budget demo_settings 0 0 1 (Decrease_ "Target") = 6
  /\ spent (weight 0 0 1) refused_close = 9 /\ spent (weight 0 0 1) refused_close <= 9.
Proof.
  split_and!; [lia|by vm_compute..|].
  exact (operations_end (L := Z_BN) (W := demo_web3) demo_settings 0 0 1 (Close_ "Target") _ 0 _
           ltac:(lia) ltac:(lia) ltac:(lia)).
Defined.

End ByrealBounds.
