(* ===== verification/ByrealClose.v ===== *)
(** * What closing and decreasing guarantee

    [copyClosePosition], [closeOrphan], [manualClosePosition] and
    [copyDecreaseLiquidity] against an environment that answers calls as it
    likes and lets other activations change anything but the position map.
    The history of the calls says what a result rests on: [sent_close] that a
    close of our position was built, signed and sent under a signature,
    [verified] that its transaction was fetched without an error. *)

From S2P Require Import Prelude JsMap JsString JsNumber Json Async Ratio TxTypes WriteChain PositionMap Store Stores Risk PumpPending ActivityLog State Chain JupiterSwap MarketData ByrealOps ByrealOpen Reconcile Discipline.
Open Scope Z_scope.
Open Scope list_scope.
Open Scope prog_scope.

Module ByrealClose.
Import Async State Chain ByrealOps Discipline.

Section Close.
Context `{L : BNLib} `{W : Web3} (cfg : Settings).

Abbreviation Hist := (list (HEvent Call Ans Task)).
Abbreviation BEnv := (Env Bot Call Ans).

Definition same_pm (b b' : Bot) : Prop := positionMap b' = positionMap b.

#[export] Instance same_pm_rf : Keeps_referers same_pm := fun _ _ => eq_refl.
#[export] Instance same_pm_ps : Keeps_pending same_pm := fun _ _ => eq_refl.
#[export] Instance same_pm_sv : Keeps_swapVars same_pm := fun _ _ => eq_refl.
#[export] Instance same_pm_by : Keeps_byreal same_pm := fun _ _ => eq_refl.
#[export] Instance same_pm_mk : Keeps_market same_pm := fun _ _ => eq_refl.
#[export] Instance same_pm_pu : Keeps_pump same_pm := fun _ _ => eq_refl.
#[export] Instance same_pm_dv : Keeps_dexVars same_pm := fun _ _ => eq_refl.
#[export] Instance same_pm_fields : Keeps_fields same_pm.
Proof using Type. intros b d f _. apply on_executor_positionMap. Qed.
#[export] Instance reads_all : Reads (fun _ => True).
Proof using Type. by intros c. Qed.
#[export] Instance builds_all : Builds (fun _ => True).
Proof using Type. by intros c. Qed.
#[export] Instance writes_all : Writes (fun _ => True).
Proof using Type. by intros c. Qed.

(** Others leave the map alone; answers are free. *)
Definition HL : Logic Bot Call Ans Task Hist := hist_logic (fun _ _ _ => True) same_pm (fun _ _ => True).

Definition others_keep_map (env : BEnv) : Prop := forall n c b, same_pm b (answer env n c b).2.

(** The history grows, the map stays. *)
Definition grown (h h' : Hist) (b b' : Bot) : Prop := h `suffix_of` h' /\ same_pm b b'.

Lemma grown_refl h b : grown h h b b.
Proof using Type. done. Qed.

Lemma grown_trans h1 h2 h3 b1 b2 b3 : grown h1 h2 b1 b2 -> grown h2 h3 b2 b3 -> grown h1 h3 b1 b3.
Proof using Type. intros [H1 S1] [H2 S2]. split; [by etrans|]. unfold same_pm in *. congruence. Qed.

Lemma suffix_in (h h' : Hist) e : h `suffix_of` h' -> e ∈ h -> e ∈ h'.
Proof using Type. intros [k ->] He. apply elem_of_app. by right. Qed.

Lemma grown_in h h' b b' e : grown h h' b b' -> e ∈ h -> e ∈ h'.
Proof using Type. intros [Hh _]. by apply suffix_in. Qed.

Lemma quiet_grown {A} (p : P A) h b :
  always same_pm (fun _ => True) p -> wp HL p h b (fun _ h' b' => grown h h' b b').
Proof using Type.
  intros Hp. specialize (Hp tt b).
  cut (forall h0 b0, grown h0 h b0 b -> wp HL p h b (fun _ h' b' => grown h0 h' b0 b')).
  { intros H. apply H, grown_refl. }
  revert h b Hp. induction p as [r|k IH|s' k IH|k IH|c k IH|t k IH]; intros h b Hp h0 b0 Hg; simpl in *.
  - done.
  - by apply IH.
  - destruct Hp as ([] & HR & Hp). exists h. split; [done|]. apply IH; [done|].
    destruct Hg as [Hh Hs]. split; [done|]. unfold same_pm in *. congruence.
  - intros t. by apply IH.
  - split; [done|]. intros r b' _ Hs. apply IH; [by apply Hp|]. destruct Hg as [Hh Hs0].
    split; [by apply suffix_cons_r|]. unfold same_pm in *. congruence.
  - apply IH; [done|]. destruct Hg as [Hh Hs]. split; [by apply suffix_cons_r|done].
Qed.

Lemma call_wp (c : Call) h b (Q : outcome (Ans c) -> Hist -> Bot -> Prop) :
  (forall r b', grown h (Called c r :: h) b b' -> Q r (Called c r :: h) b') -> wp HL (Chain.await c) h b Q.
Proof using Type. intros H. split; [done|]. intros r b' _ Hs. apply H. split; [by apply suffix_cons_r|done]. Qed.

Definition any_start (pm : PositionMap.t) : Prop := True.

(** The same for any answers: only the map matters. *)
Lemma quiet_any {A} ok (p : P A) h b :
  always same_pm (fun _ => True) p ->
  wp (hist_logic (fun _ _ _ => True) same_pm ok) p h b (fun _ _ b' => same_pm b b').
Proof using Type.
  intros Hp. specialize (Hp tt b).
  cut (forall b0, same_pm b0 b -> wp (hist_logic (fun _ _ _ => True) same_pm ok) p h b (fun _ _ b' => same_pm b0 b')).
  { intros H. by apply H. }
  unfold same_pm. revert h b Hp.
  induction p as [r|k IH|s' k IH|k IH|c k IH|t k IH]; intros h b Hp b0 Hg; simpl in *.
  - done.
  - by apply IH.
  - destruct Hp as ([] & HR & Hp). exists h. split; [done|]. apply IH; [done|]. unfold same_pm in *. congruence.
  - intros t. by apply IH.
  - split; [done|]. intros r b' _ Hs. apply IH; [by apply Hp|congruence].
  - by apply IH.
Qed.

(** A step whose success says something, through the retries: what [fn]
    guarantees of a value, [retryOnTransient fn] does. *)
Definition yields {A} (p : P A) (Q : A -> Hist -> Prop) : Prop :=
  forall h b, wp HL p h b (fun r h' b' => grown h h' b b' /\ match r with Ret a => Q a h' | Throw _ => True end).

Lemma yields_grown {A} (p : P A) : always same_pm (fun _ => True) p -> yields p (fun _ _ => True).
Proof using Type. intros Hp h b. eapply wp_mono; [by apply quiet_grown|]. by intros [a|e] h' b' Hg. Qed.

Lemma yields_bind {A B} (m : P A) (f : A -> P B) Q Q' :
  yields m Q ->
  (forall a h b, Q a h -> wp HL (f a) h b
     (fun r h' b' => grown h h' b b' /\ match r with Ret x => Q' x h' | Throw _ => True end)) ->
  yields (Async.bind m f) Q'.
Proof using Type.
  intros Hm Hf h b. apply wp_bind. eapply wp_mono; [apply Hm|]. intros [a|e] h' b' [Hg Ha]; [|done].
  eapply wp_mono; [by apply Hf|]. intros r h2 b2 [Hg2 Hr]. split; [by eapply grown_trans|done].
Qed.

Lemma yields_retry {A} (fn : P A) Q : yields fn Q -> yields (retryOnTransient fn) Q.
Proof using Type.
  intros Hf. unfold retryOnTransient. generalize 0. generalize 3%nat as left.
  induction left as [|left IH]; intros k h b; cbn [retry_loop]; [by split|].
  apply wp_catch. eapply wp_mono; [apply Hf|]. intros [a|e] h1 b1 [Hg Ha]; [done|].
  destruct (negb (left =? 0)%nat && isTransientError e); [|by split].
  apply wp_bind. eapply wp_mono; [apply quiet_grown; always_go|].
  intros [u|e'] h2 b2 Hg2; [|split; [by eapply grown_trans|done]].
  eapply wp_mono; [apply IH|]. intros r h3 b3 [Hg3 Hr]. split; [|done].
  eapply grown_trans; [exact Hg|]. by eapply grown_trans.
Qed.

(** ** Evidence *)

(** A transaction of the SDK's answer to [c] was signed, and sent under
    [txSig]. *)
Definition sent (c : Call) (txSig : string) (h : Hist) : Prop :=
  (exists r, Called c r ∈ h)
  /\ exists unsigned signed, Called (SignerCallback unsigned) (Ret signed) ∈ h
       /\ Called (SendTransaction signed) (Ret txSig) ∈ h.

Definition sent_close (ourNft txSig : string) (h : Hist) : Prop :=
  exists k, publicKey ourNft = Ret k /\ sent (DecreaseFullLiquidityInstructions k true) txSig h.

(** The transaction of a signature was fetched, and carries no error. *)
Definition verified (txSig : string) (h : Hist) : Prop :=
  exists tx m, Called (GetParsedTransaction txSig) (Ret (Some tx)) ∈ h /\ meta (f_tx tx) = Some m /\ err m = false.

Lemma signAndSend_sent c tx h b :
  (exists r, Called c r ∈ h) ->
  wp HL (signAndSend tx) h b
    (fun r h' b' => grown h h' b b' /\ match r with Ret s => sent c s h' | Throw _ => True end).
Proof using Type.
  intros [r Hr]. unfold signAndSend. apply wp_bind, (call_wp (SignerCallback tx)). intros [signed|e] b2 Hg2; [|by split].
  apply (call_wp (SendTransaction signed)). intros res b3 Hg3.
  assert (grown h (Called (SendTransaction signed) res :: Called (SignerCallback tx) (Ret signed) :: h) b b3) as Hg.
  { by eapply grown_trans. }
  split; [done|]. destruct res as [txSig|e]; [|done]. split.
  - exists r. by eapply grown_in.
  - exists tx, signed. split; [right; left|left].
Qed.

(** Building, signing and sending what [instructions] answer. *)
Lemma buildSignSend_sent (c : Call) (instructions : P SdkResult) :
  yields instructions (fun _ h => exists r, Called c r ∈ h) -> yields (buildSignSend cfg instructions) (fun s => sent c s).
Proof using Type.
  intros Hi. unfold buildSignSend. eapply yields_bind; [exact Hi|]. intros result h b [r Hr].
  unfold makeSdkTransactionWithoutPriorityFee.
  apply wp_bind. eapply wp_mono; [apply quiet_grown; always_go|].
  intros [tx|e] h1 b1 Hg1; [|by split].
  eapply wp_mono; [apply (signAndSend_sent c tx); exists r; by eapply grown_in|].
  intros res h2 b2 [Hg2 Hres]. split; [by eapply grown_trans|done].
Qed.

Lemma decreaseFull_called n c :
  yields (decreaseFull n c) (fun _ h =>
    exists k, publicKey n = Ret k /\ exists r, Called (DecreaseFullLiquidityInstructions k c) r ∈ h).
Proof using Type.
  intros h b. unfold decreaseFull. apply wp_bind. unfold Async.lift. destruct (publicKey n) as [k|e] eqn:E; [|by split].
  apply (call_wp (DecreaseFullLiquidityInstructions k c)). intros res b' Hg. split; [done|].
  destruct res as [x|e]; [|done]. exists k. split; [done|]. eexists. by left.
Qed.

Lemma sendClose_sent n : yields (sendClose cfg n) (fun s => sent_close n s).
Proof using Type.
  apply yields_retry. destruct (publicKey n) as [k|e] eqn:E.
  - intros h b. eapply wp_mono; [apply (buildSignSend_sent (DecreaseFullLiquidityInstructions k true))|].
    + intros h' b'. eapply wp_mono; [apply decreaseFull_called|]. intros [x|?] h2 b2 [Hg Hx]; [|done].
      split; [done|]. destruct Hx as (k' & Hk & Hr). rewrite E in Hk. by injection Hk as ->.
    + intros [s|?] h2 b2 [Hg Hs]; [|done]. split; [done|]. by exists k.
  - intros h b. unfold buildSignSend. apply wp_bind. eapply wp_mono; [apply decreaseFull_called|].
    intros [x|?] h2 b2 [Hg Hx]; [|by split]. destruct Hx as (k' & Hk & _). congruence.
Qed.

Lemma verify_verified s : yields (verifyTxSuccess s) (fun v h => v = true -> verified s h).
Proof using Type.
  unfold verifyTxSuccess. generalize 0. generalize 3%nat as left.
  induction left as [|left IH]; intros k h b; cbn [verify_loop]; [by split|].
  apply wp_bind, wp_catch, wp_bind.
  assert (always same_pm (fun _ => True) (if 0 <? k then sleep (3000 * k) else ret tt)) as Hpause.
  { always_go. }
  eapply wp_mono; [by apply quiet_grown|]. clear Hpause.
  assert (forall h0 b0, grown h h0 b b0 ->
    wp HL (match (if (left =? 0)%nat then Some false else None) with
           | Some v => ret v | None => verify_loop s (k + 1) left end) h0 b0
      (fun r h' b' => grown h h' b b' /\ match r with Ret v => v = true -> verified s h' | Throw _ => True end)) as Hnext.
  { intros h0 b0 Hg0. destruct (left =? 0)%nat; [by split|]. eapply wp_mono; [apply IH|].
    intros r h' b' [Hg Hv]. split; [by eapply grown_trans|done]. }
  intros [u|e] h1 b1 Hg1; [|by apply Hnext].
  apply wp_bind, (call_wp (GetParsedTransaction s)). intros [tx|e] b2 Hg2; [|apply Hnext; by eapply grown_trans].
  destruct (fetched_meta tx) as [m|] eqn:Em.
  - cbn [wp ret]. split; [by eapply grown_trans|]. intros Hv%negb_true_iff.
    destruct tx as [t|]; [|done]. exists t, m. split; [by left|done].
  - apply Hnext. by eapply grown_trans.
Qed.

(** ** The attempts of a close, for any executor

    [Sent] and [Ver] are what the executor's [send] and [verify] leave in the
    history, [Gone] what it takes for our position being gone; [Start] holds of
    the map it starts from. *)

Definition lasting (F : Hist -> Prop) : Prop := forall h h', h `suffix_of` h' -> F h -> F h'.

Lemma forget_wp ok t h b Q :
  (forall b', positionMap b' = PositionMap.delete t (positionMap b) -> Q (Ret tt) h b') ->
  wp (hist_logic (fun _ _ _ => True) same_pm ok) (forgetMapping t) h b Q.
Proof using Type.
  intros H. unfold forgetMapping, on_positionMap, removeReferer. apply wp_bind. simpl. exists h. split; [done|].
  exists h. split; [done|]. by apply H.
Qed.

Lemma delete_wp ok t h b Q :
  (forall b', positionMap b' = PositionMap.delete t (positionMap b) -> Q (Ret tt) h b') ->
  wp (hist_logic (fun _ _ _ => True) same_pm ok) (on_positionMap (PositionMap.delete t)) h b Q.
Proof using Type. intros H. unfold on_positionMap. cbn. exists h. split; [done|]. by apply H. Qed.

Section Attempts.
Context (t our : string) (Gone : Hist -> Prop) (Sent Ver : string -> Hist -> Prop) (Start : PositionMap.t -> Prop).
Context (HGone : lasting Gone) (HSent : forall s, lasting (Sent s)) (HVer : forall s, lasting (Ver s)).

Definition deleted (b b' : Bot) : Prop := positionMap b' = PositionMap.delete t (positionMap b).

Definition landed (h : Hist) : Prop := exists s, truthy s = true /\ Sent s h /\ Ver s h.

(** The map is as before, or the target is forgotten for a close that landed
    or a position that is gone. *)
Definition kept_or_forgotten (b : Bot) (h : Hist) (b' : Bot) : Prop :=
  same_pm b b' \/ deleted b b' /\ (Gone h \/ landed h).

Definition closing (b : Bot) (r : outcome (option string)) (h : Hist) (b' : Bot) : Prop :=
  kept_or_forgotten b h b'
  /\ exists o, r = Ret o /\ forall s, o = Some s ->
       deleted b b' /\ truthy s = true /\ Sent s h /\ Ver s h.

Definition sends (send : P (option string)) : Prop := forall h b, Start (positionMap b) ->
  wp HL send h b (fun r h' b' => h `suffix_of` h' /\
    match r with
    | Ret (Some s) => same_pm b b' /\ Sent s h'
    | Ret None => deleted b b' /\ Gone h'
    | Throw _ => same_pm b b'
    end).

Definition attempted (attempts : P (option string)) : Prop := forall h b, Start (positionMap b) ->
  wp HL attempts h b (fun r h' b' => h `suffix_of` h' /\
    match r with
    | Ret (Some s) => same_pm b b' /\ truthy s = true /\ Sent s h' /\ Ver s h'
    | Ret None => same_pm b b' \/ deleted b b' /\ Gone h'
    | Throw _ => same_pm b b'
    end).

Lemma attempted_from attempts h0 b0 h b :
  attempted attempts -> Start (positionMap b0) -> grown h0 h b0 b ->
  wp HL attempts h b (fun r h' b' => h0 `suffix_of` h' /\
    match r with
    | Ret (Some s) => same_pm b0 b' /\ truthy s = true /\ Sent s h' /\ Ver s h'
    | Ret None => same_pm b0 b' \/ deleted b0 b' /\ Gone h'
    | Throw _ => same_pm b0 b'
    end).
Proof using Type.
  intros Ha Hst [Hh Hb]. unfold same_pm, deleted in *. eapply wp_mono; [apply Ha; by rewrite Hb|]. intros r h' b' [Hh' Hr].
  split; [by etrans|]. destruct r as [[s|]|e]; rewrite <- Hb; done.
Qed.

Lemma close_attempts_closes send verify retry attempt left :
  sends send -> (forall s, yields (verify s) (fun v h => v = true -> Ver s h)) ->
  attempted (close_attempts send verify retry our attempt left).
Proof using HSent.
  intros Hsend Hverify. revert attempt. induction left as [|left IH]; intros attempt h b Hst; cbn [close_attempts].
  { split; [done|by left]. }
  apply wp_bind. eapply wp_mono; [apply quiet_grown; unfold pauseBefore; always_go|].
  intros [u|e] h1 b1 Hg1; [|exact Hg1].
  assert (Start (positionMap b1)) as Hst1 by (destruct Hg1 as [_ Hb1]; unfold same_pm in Hb1; by rewrite Hb1).
  apply wp_bind, wp_catch, wp_bind. eapply wp_mono; [by apply Hsend|].
  intros [[s|]|e] h2 b2 [Hh2 Hs]; cbn [wp ret].
  - destruct Hs as [Hb2 Hs]. assert (grown h h2 b b2) as Hg by (eapply grown_trans; [exact Hg1|done]).
    destruct (truthy s) eqn:Et; cbn [negb]; [|split; [apply Hg|left; apply Hg]].
    apply wp_bind. eapply wp_mono; [apply Hverify|]. intros [v|e] h3 b3 [Hg3 Hv].
    2:{ apply (grown_trans _ _ _ _ _ _ Hg Hg3). }
    assert (grown h h3 b b3) as Hg' by by eapply grown_trans.
    destruct v; cbn [wp ret].
    + split; [apply Hg'|]. split; [apply Hg'|]. split_and!; [done|eapply HSent; [apply Hg3|done]|by apply Hv].
    + destruct (left =? 0)%nat; [|by apply attempted_from].
      unfold notify. cbn. split; [|left; apply Hg']. apply suffix_cons_r, Hg'.
  - destruct Hs as [Hd Hgone]. destruct Hg1 as [Hh1 Hb1]. split; [by etrans|]. right. split; [|done].
    unfold deleted, same_pm in *. by rewrite Hd, Hb1.
  - assert (grown h h2 b b2) as Hg by (eapply grown_trans; [exact Hg1|done]).
    destruct (_ && _); cbn [wp ret throw]; [by apply attempted_from|exact Hg].
Qed.

Lemma close_with_closes attempts forget received h b :
  attempted attempts -> Start (positionMap b) ->
  (forall h b Q, (forall b', deleted b b' -> Q (Ret tt) h b') -> wp HL forget h b Q) ->
  (forall s, always same_pm (fun _ => True) (received s)) ->
  wp HL (close_with attempts forget received our) h b (closing b).
Proof using HGone HSent HVer.
  intros Ha Hst Hf Hr.
  assert (forall e h1 b1, kept_or_forgotten b h1 b1 ->
    wp HL (do* notify (notifyCloseFailed our e 0) in ret None) h1 b1 (closing b)) as Hfail.
  { intros e h1 b1 Hk. unfold notify. cbn. split; [|exists None; by split].
    destruct Hk as [Hk|[Hd [Hk|(s & Ht & Hs & Hv)]]]; [by left|right; split; [done|left]|right; split; [done|right]].
    - eapply HGone; [|exact Hk]. by apply suffix_cons_r.
    - exists s. split_and!; [done|eapply HSent; [|exact Hs]|eapply HVer; [|exact Hv]]; by apply suffix_cons_r. }
  unfold close_with. apply wp_catch, wp_bind. eapply wp_mono; [by apply Ha|].
  intros [[s|]|e] h1 b1 [Hh1 Hc].
  - destruct Hc as (Hs1 & Ht & Hs & Hv). apply wp_bind, Hf. intros b2 Hb2.
    apply wp_bind. eapply wp_mono; [apply quiet_grown, Hr|]. intros r h3 b3 [Hh3 Hs3].
    assert (deleted b b3) as Hd by (unfold deleted, same_pm in *; congruence).
    assert (Sent s h3 /\ Ver s h3) as [Hs' Hv'] by (split; [by eapply HSent|by eapply HVer]).
    assert (kept_or_forgotten b h3 b3) as Hk by (right; split; [done|right; by exists s]).
    destruct r as [[]|e]; [|by apply Hfail].
    split; [done|]. exists (Some s). split; [done|]. by intros s' [= <-].
  - split; [|exists None; by split]. destruct Hc as [Hc|[Hc Hg]]; [by left|right; auto].
  - apply Hfail. by left.
Qed.

Lemma closing_stable b b0 r h b1 b2 :
  closing b r h b1 -> positionMap b2 = positionMap b1 -> positionMap b0 = positionMap b -> closing b0 r h b2.
Proof using Type. unfold closing, kept_or_forgotten, deleted, same_pm. by intros H -> ->. Qed.

End Attempts.

Lemma with_lock {A} d (skipped : A) (body : P A) h b (Q : outcome A -> Hist -> Bot -> Prop) :
  (forall r h b b', Q r h b -> positionMap b' = positionMap b -> Q r h b') ->
  (busy_of d b = true -> Q (Ret skipped) h b) ->
  (forall b', positionMap b' = positionMap b -> wp HL body h b' Q) ->
  wp HL (locked d skipped body) h b Q.
Proof using Type.
  intros HQ Hskip Hbody. unfold locked, acquire. apply wp_bind, wp_bind. cbn [wp gets ret].
  destruct (busy_of d b) eqn:E; [by apply Hskip|].
  apply wp_bind. apply (wp_modify HL _ _ _ _ h); [done|]. cbn [wp ret].
  apply wp_finally. eapply wp_mono; [apply Hbody, on_executor_positionMap|].
  intros r h' b' Hq. apply (wp_modify HL _ _ _ _ h'); [done|].
  eapply HQ; [exact Hq|]. apply on_executor_positionMap.
Qed.

(** A close under its lock, which is skipped while the executor is busy. *)
Lemma locked_closes d t Gone Sent Ver body h b :
  (forall b', same_pm b b' -> wp HL body h b' (closing t Gone Sent Ver b')) ->
  wp HL (locked d None body) h b (closing t Gone Sent Ver b).
Proof using Type.
  intros Hbody. apply with_lock.
  - intros r h' b1 b2 H Hpm. by eapply closing_stable.
  - intros _. split; [by left|]. exists None. by split.
  - intros b' Hpm. eapply wp_mono; [by apply Hbody|]. intros r h' b2 H. by eapply closing_stable.
Qed.

(** ** [copyClosePosition] *)

Definition never (h : Hist) : Prop := False.

Definition close_post (t our : string) : Bot -> outcome (option string) -> Hist -> Bot -> Prop :=
  closing t never (sent_close our) verified.

Lemma lasting_never : lasting never.
Proof using Type. by intros h h'. Qed.

Lemma lasting_sent c s : lasting (sent c s).
Proof using Type.
  intros h h' Hh [[r Hr] (u & v & H1 & H2)].
  split; [exists r|exists u, v; split]; by eapply suffix_in.
Qed.

Lemma lasting_sent_close n s : lasting (sent_close n s).
Proof using Type. intros h h' Hh (k & Hk & Hs). exists k. split; [done|]. by eapply lasting_sent. Qed.

Lemma lasting_verified s : lasting (verified s).
Proof using Type. intros h h' Hh (tx & m & H & Hm). exists tx, m. split; [by eapply suffix_in|done]. Qed.

Lemma close_body_post t our h b : wp HL (close_body cfg t our) h b (close_post t our b).
Proof using Type.
  apply (close_with_closes _ _ _ _ _ any_start).
  - apply lasting_never.
  - intros s. apply lasting_sent_close.
  - intros s. apply lasting_verified.
  - apply close_attempts_closes; [intros s; apply lasting_sent_close| |apply verify_verified].
    intros h' b' _. apply wp_bind. eapply wp_mono; [apply sendClose_sent|].
    intros [s|e] h2 b2 [[Hh Hs] Hv]; by split.
  - done.
  - intros h' b' Q. apply forget_wp.
  - intros s. apply (always_queueReceived cfg same_pm (fun _ => True)).
Qed.

Lemma close_from t our b h :
  dryRun cfg = false -> PositionMap.get t (positionMap b) = Some our ->
  wp HL (copyClosePosition cfg t) h b (close_post t our b).
Proof using Type.
  intros Hdry Hget. unfold copyClosePosition, mapped. apply wp_bind. cbn [wp gets ret]. rewrite Hget, Hdry.
  assert (close_post t our b (Ret None) h b) as Hnone by (split; [by left|]; exists None; by split).
  destruct (negb (truthy our)); [done|]. apply locked_closes. intros b' _. apply close_body_post.
Qed.

(** ** A close that meets no error *)

(** The answers of a chain, signer and SDK that do what they are asked. *)
(** The calls of a close. *)
Definition close_call (c : Call) : bool :=
  match c with
  | DecreaseFullLiquidityInstructions _ _ | GetLatestBlockhash | SimulateTransaction _ | SignerCallback _
  | SendTransaction _ | GetParsedTransaction _ => true
  | _ => false
  end.

Definition cooperative (c : Call) (r : outcome (Ans c)) : Prop :=
  (close_call c = true -> exists a, r = Ret a)
  /\ match c return outcome (Ans c) -> Prop with
     | SendTransaction _ => fun r => exists s, r = Ret s /\ truthy s = true
     | GetParsedTransaction _ => fun r => exists tx m, r = Ret (Some tx) /\ meta (f_tx tx) = Some m /\ err m = false
     | _ => fun _ => True
     end r.

(** The synchronous functions accept what they are given. *)
Definition web3_accepts (n : string) : Prop :=
  (exists k, publicKey n = Ret k) /\ (forall u, exists ix, setComputeUnitLimit u = Ret ix)
  /\ (forall p h ixs, exists tx, compileToV0Message p h ixs = Ret tx)
  /\ (forall ss tx, exists tx', signWith ss tx = Ret tx').

Definition HC : Logic Bot Call Ans Task Hist := hist_logic (fun _ _ _ => True) same_pm cooperative.

(** [p] does not throw, and leaves the map alone. *)
Definition succeeds {A} (p : P A) (Q : A -> Prop) : Prop :=
  forall h b, wp HC p h b (fun r _ b' => exists a, r = Ret a /\ Q a /\ same_pm b b').

Lemma succeeds_ret {A} (a : A) (Q : A -> Prop) : Q a -> succeeds (ret a) Q.
Proof using Type. intros H h b. exists a. done. Qed.

Lemma succeeds_bind {A B} (m : P A) (f : A -> P B) Q Q' :
  succeeds m Q -> (forall a, Q a -> succeeds (f a) Q') -> succeeds (Async.bind m f) Q'.
Proof using Type.
  intros Hm Hf h b. apply wp_bind. eapply wp_mono; [apply Hm|]. intros r h' b' (a & -> & Ha & Hs).
  eapply wp_mono; [by apply Hf|]. intros r2 h2 b2 (a2 & -> & Ha2 & Hs2). exists a2. unfold same_pm in *.
  split_and!; [done|done|congruence].
Qed.

Lemma succeeds_catch {A} (m : P A) h Q : succeeds m Q -> succeeds (catch m h) Q.
Proof using Type.
  intros Hm h' b. apply wp_catch. eapply wp_mono; [apply Hm|]. intros r h2 b2 (a & -> & Ha & Hs). by exists a.
Qed.

Lemma succeeds_weaken {A} (p : P A) (Q Q' : A -> Prop) : succeeds p Q -> (forall a, Q a -> Q' a) -> succeeds p Q'.
Proof using Type. intros H HQ h b. eapply wp_mono; [apply H|]. intros r h' b' (a & -> & Ha & Hs). exists a. auto. Qed.

Lemma succeeds_call c (Q : Ans c -> Prop) :
  close_call c = true -> (forall a, cooperative c (Ret a) -> Q a) -> succeeds (Chain.await c) Q.
Proof using Type.
  intros Hc H h b. split; [done|]. intros r b' Hok Hs. pose proof Hok as [Hr _]. destruct (Hr Hc) as [a ->].
  exists a. auto.
Qed.

Lemma succeeds_lift {A} (o : outcome A) a (Q : A -> Prop) : o = Ret a -> Q a -> succeeds (Async.lift o) Q.
Proof using Type. intros -> Ha. by apply succeeds_ret. Qed.

Lemma succeeds_makeTx n ixs signers :
  web3_accepts n -> succeeds (makeByrealZeroPriorityTransaction cfg ixs signers) (fun _ => True).
Proof using Type.
  intros (_ & Hcu & Hcomp & Hsign). unfold makeByrealZeroPriorityTransaction.
  eapply succeeds_bind; [by apply (succeeds_call GetLatestBlockhash _ eq_refl (fun _ _ => I))|]. intros bh _.
  eapply (succeeds_bind _ _ (fun _ => True)).
  { destruct (some _ _); [by apply succeeds_ret|].
    eapply succeeds_bind.
    - unfold estimateByrealComputeUnitLimit. apply succeeds_catch.
      destruct (Hcu 1400000) as [cu Hcu']. eapply succeeds_bind; [by eapply (succeeds_lift _ cu (fun _ => True))|]. intros cu' _.
      match goal with |- context [compileToV0Message ?p ?h ?l] => destruct (Hcomp p h l) as [tx Htx] end.
      eapply succeeds_bind; [by eapply (succeeds_lift _ tx (fun _ => True))|]. intros tx' _.
      eapply succeeds_bind; [by apply (succeeds_call (SimulateTransaction tx') (fun _ => True))|]. intros sim _.
      destruct (_ && _); by apply (succeeds_ret _ (fun _ => True)).
    - intros units _. destruct (Hcu units) as [cu Hcu'].
      eapply succeeds_bind; [by eapply (succeeds_lift _ cu (fun _ => True))|]. intros. by apply succeeds_ret. }
  intros final _. match goal with |- context [compileToV0Message ?p ?h ?l] => destruct (Hcomp p h l) as [tx Htx] end.
  eapply succeeds_bind; [by eapply (succeeds_lift _ tx (fun _ => True))|]. intros tx' _.
  destruct signers; [by apply succeeds_ret|]. match goal with |- context [signWith ?l ?x] => destruct (Hsign l x) as [tx2 Htx2] end.
  by eapply succeeds_lift.
Qed.

Lemma succeeds_sendClose n : web3_accepts n -> succeeds (sendClose cfg n) (fun s => truthy s = true).
Proof using Type.
  intros Hw. unfold sendClose, retryOnTransient. cbn [retry_loop]. apply succeeds_catch. unfold buildSignSend.
  pose proof Hw as [[k Hk] _].
  eapply (succeeds_bind _ _ (fun _ => True)).
  { unfold decreaseFull. eapply succeeds_bind; [by eapply (succeeds_lift _ k (fun _ => True))|]. intros k' _.
    by apply (succeeds_call (DecreaseFullLiquidityInstructions k' true) (fun _ => True)). }
  intros result _. eapply succeeds_bind; [by eapply succeeds_makeTx|]. intros tx _. unfold signAndSend.
  eapply succeeds_bind; [by apply (succeeds_call (SignerCallback tx) (fun _ => True))|]. intros signed _.
  apply succeeds_call; [done|]. intros s [_ (s' & [= ->] & Hs)]. done.
Qed.

Lemma succeeds_verify s : succeeds (verifyTxSuccess s) (fun v => v = true).
Proof using Type.
  unfold verifyTxSuccess. cbn [verify_loop].
  eapply (succeeds_bind _ _ (fun v => v = Some true)); [|intros v ->; by apply succeeds_ret].
  apply succeeds_catch. eapply (succeeds_bind _ _ (fun _ => True)); [by apply (succeeds_ret tt)|]. intros _ _.
  eapply succeeds_bind; [apply (succeeds_call (GetParsedTransaction s) (fun tx => exists m, fetched_meta tx = Some m /\ err m = false)); [done|]|].
  - intros a [_ (tx & m & [= ->] & Hm & He)]. by exists m.
  - intros tx (m & -> & He). apply succeeds_ret. by rewrite He.
Qed.

Lemma close_loop_succeeds n : web3_accepts n -> succeeds (close_loop cfg n) (fun o => is_Some o).
Proof using Type.
  intros Hw. unfold close_loop, MAX_CLOSE_ATTEMPTS. cbn [close_attempts].
  eapply (succeeds_bind _ _ (fun _ => True)); [by apply (succeeds_ret tt)|]. intros _ _.
  eapply (succeeds_bind _ _ (fun o => exists s, o = Some (Some s) /\ truthy s = true)).
  { apply succeeds_catch. eapply (succeeds_bind _ _ (fun o => exists s, o = Some s /\ truthy s = true)).
    - eapply succeeds_bind; [by apply succeeds_sendClose|]. intros s Hs. apply succeeds_ret. eauto.
    - intros o (s & -> & Hs). apply succeeds_ret. eauto. }
  intros _ (s & -> & ->). cbn [negb]. eapply succeeds_bind; [apply succeeds_verify|]. intros _ ->.
  apply succeeds_ret. eauto.
Qed.

End Close.

Lemma closes_in_run `{L : BNLib} `{W : Web3} (cfg : Settings) t our env k b :
  dryRun cfg = false -> busy_of Byreal b = false ->
  PositionMap.get t (positionMap b) = Some our -> truthy our = true -> web3_accepts our ->
  (forall n c b, cooperative c (answer env n c b).1 /\ same_pm b (answer env n c b).2) ->
  positionMap (final (run env k [] (copyClosePosition cfg t) b)) = PositionMap.delete t (positionMap b).
Proof.
  intros Hdry Hbusy Hget Hour Hw Henv.
  apply (hist_run (copyClosePosition cfg t) (fun _ _ _ => True) same_pm cooperative env k []
           b (fun _ _ b' => positionMap b' = PositionMap.delete t (positionMap b)) Henv).
  unfold copyClosePosition, mapped, locked, acquire. apply wp_bind. cbn [wp gets ret]. rewrite Hget, Hour, Hdry.
  cbn [negb]. apply wp_bind, wp_bind. cbn [wp gets ret]. rewrite Hbusy. apply wp_bind.
  eapply (wp_modify _ _ _ _ _ []); [done|]. cbn [wp ret].
  apply wp_finally. eapply (wp_mono _ _ _ _ (fun _ _ b' => positionMap b' = PositionMap.delete t (positionMap b))).
  2:{ intros r h b' Hb'. eapply (wp_modify _ _ _ _ _ h); [done|]. by rewrite on_executor_positionMap. }
  unfold close_body, close_with. apply wp_catch, wp_bind. eapply wp_mono; [by apply close_loop_succeeds|].
  intros r h1 b1 (o & -> & [s ->] & Hs1). unfold same_pm in Hs1. rewrite on_executor_positionMap in Hs1.
  apply wp_bind, forget_wp. intros b2 Hb2. apply wp_bind.
  eapply wp_mono; [apply quiet_any, (always_queueReceived cfg same_pm (fun _ => True))|].
  intros r h2 b3 Hs3. unfold same_pm in Hs3. rewrite Hs1 in Hb2. rewrite <- Hb2, <- Hs3. by destruct r.
Qed.

(** A close that meets no error is a close: when the executor is idle, the
    target is mapped, and chain, SDK and signer do what they are asked, the
    target is forgotten at the end, whatever other activations do to the rest
    of the state meanwhile. *)
Theorem close_succeeds `{L : BNLib} `{W : Web3} (cfg : Settings) t our env k b :
  dryRun cfg = false -> busy_of Byreal b = false ->
  PositionMap.get t (positionMap b) = Some our -> truthy our = true -> web3_accepts our ->
  (forall n c b, cooperative c (answer env n c b).1 /\ same_pm b (answer env n c b).2) ->
  positionMap (final (run env k [] (copyClosePosition cfg t) b)) = PositionMap.delete t (positionMap b).
Proof. apply closes_in_run. Qed.

(** ** A blockhash that keeps expiring *)

Definition expired : string := "Transaction simulation failed: Blockhash not found".

(** Every send is refused for its blockhash; nothing reaches the chain. *)
Definition expired_env : Env Bot (Call (L := Z_BN)) (Ans (L := Z_BN)) :=
  demo_env (Throw expired) (fun _ => Some (demo_position 5 1 1)).

Definition never_sent (h : list (HEvent (Call (L := Z_BN)) (Ans (L := Z_BN)) Task)) : bool :=
  forallb (fun e => match e with
                    | Called (SendTransaction _) (Ret _) => false
                    | _ => true
                    end) h.

Lemma run_locked `{L : BNLib} {A} env k (skipped : A) (body : P A) b :
  busy_of Byreal b = false ->
  run env k [] (locked Byreal skipped body) b
  = run env k [] (finally body (release Byreal)) (on_executor Byreal (with_busy true) b).
Proof. intros Hb. unfold locked, acquire. cbn [run bind after gets modify ret]. by rewrite Hb. Qed.

(** "Blockhash not found" is a transient error, retried; but once the retries
    are used up it also reads as "not found", and the position counts as gone:
    the close of an orphan forgets the mapping, and so does the manual close of
    a mapped position, although our position is still open and no transaction
    was ever accepted. *)
Theorem expired_blockhash_forgets k b t n :
  isTransientError expired = true
  /\ (let x := run expired_env k [] (Reconcile.closeOrphan (W := demo_web3) demo_settings t n) b in
      positionMap (final x) = PositionMap.delete t (positionMap b) /\ never_sent (hist x) = true)
  /\ (busy_of Byreal b = false -> PositionMap.findByOurNft n (positionMap b) = Some t -> truthy t = true ->
      let x := run expired_env k [] (manualClosePosition (W := demo_web3) demo_settings n) b in
      positionMap (final x) = PositionMap.delete t (positionMap b) /\ never_sent (hist x) = true).
Proof.
  split_and!; [by vm_compute| |].
  - cbv zeta. by split; vm_compute.
  - intros Hb Hn Ht. cbv zeta. change (run expired_env k [] (manualClosePosition (W := demo_web3) demo_settings n) b)
      with (run expired_env k [] (locked (L := Z_BN) Byreal None
              (manual_close_body (W := demo_web3) demo_settings (PositionMap.findByOurNft n (positionMap b)) n)) b).
    rewrite Hn, (run_locked _ _ _ _ b Hb).
    destruct t; [done|]. by split; vm_compute.
Qed.

Lemma close_runs `{L : BNLib} `{W : Web3} (cfg : Settings) t our env k b :
  dryRun cfg = false -> PositionMap.get t (positionMap b) = Some our -> others_keep_map env ->
  let x := run env k [] (copyClosePosition cfg t) b in
  close_post t our b (res x) (hist x) (final x).
Proof.
  intros Hdry Hget Henv x. unfold x.
  apply (hist_run (copyClosePosition cfg t) (fun _ _ _ => True) same_pm (fun _ _ => True)).
  - intros n c s. split; [done|apply Henv].
  - by apply close_from.
Qed.

(** C4: A mapping is forgotten only for a close that landed.  Run
    [copyClosePosition] for a mapped target against any chain, signer and SDK,
    while other activations change anything but the map: the run does not
    throw, the map is left as it was unless a close of our position was built,
    signed and sent and its transaction then fetched without an error, and the
    signature it returns is the one of that close. *)
Theorem close_forgets_only_closed `{L : BNLib} `{W : Web3} (cfg : Settings) t our env k b :
  dryRun cfg = false -> PositionMap.get t (positionMap b) = Some our -> others_keep_map env ->
  let x := run env k [] (copyClosePosition cfg t) b in
  close_post t our b (res x) (hist x) (final x).
Proof. apply close_runs. Qed.

(** ** Concrete runs *)

Definition mapped_pm : PositionMap.t := PositionMap.set 0 0 "Target" "OurNft" None None None None None PositionMap.new.
Definition demo_bot : Bot := fresh mapped_pm.

Lemma close_forgets_only_closed_witness :
  let env := demo_env (Ret "Sig"%string) (fun _ => None) in
  let x := run env 0 [] (copyClosePosition (L := Z_BN) (W := demo_web3) demo_settings "Target") demo_bot in
  PositionMap.get "Target" (positionMap demo_bot) = Some "OurNft"%string
  /\ res x = Ret (Some "Sig"%string) /\ PositionMap.get "Target" (positionMap (final x)) = None
  /\ close_post (W := demo_web3) "Target" "OurNft" demo_bot (res x) (hist x) (final x).
Proof.
  cbv zeta. split; [by vm_compute|]. split; [by vm_compute|]. split; [by vm_compute|].
  apply (close_forgets_only_closed (W := demo_web3)); [done|by vm_compute|]. by intros n c b.
Defined.

Lemma close_succeeds_witness :
  let env := demo_env (Ret "Sig"%string) (fun _ => None) in
  busy_of Byreal demo_bot = false
  /\ positionMap (final (run env 0 [] (copyClosePosition (L := Z_BN) (W := demo_web3) demo_settings "Target") demo_bot))
     = PositionMap.delete "Target" (positionMap demo_bot).
Proof.
  cbv zeta. split; [done|].
  apply (close_succeeds (W := demo_web3) demo_settings "Target" "OurNft");
    [done|done|by vm_compute|done| |].
  - split_and!; simpl; eauto.
  - intros n c b. split; [|done]. destruct c; split; simpl; eauto; done.
Defined.

Lemma expired_blockhash_forgets_witness :
  let x := run expired_env 0 [] (manualClosePosition (L := Z_BN) (W := demo_web3) demo_settings "OurNft") demo_bot in
  busy_of Byreal demo_bot = false /\ PositionMap.findByOurNft "OurNft" (positionMap demo_bot) = Some "Target"%string
  /\ positionMap (final x) = PositionMap.delete "Target" (positionMap demo_bot) /\ never_sent (hist x) = true.
Proof.
  cbv zeta. split; [done|]. split; [by vm_compute|].
  apply (expired_blockhash_forgets 0 demo_bot "Target" "OurNft"); [done|by vm_compute|done].
Defined.

End ByrealClose.
