(* ===== verification/CallRules.v ===== *)
(** * Judging the calls of an operation

    Rules for a condition [J] on every call given the history before it, when
    the others leave the position map alone: parts whose calls need no evidence,
    a reading through the retries and what it leaves in the history, and the
    retries, attempts and lock around a part that keeps the evidence. *)

From S2P Require Import Prelude JsMap JsString JsNumber Json Async Ratio TxTypes WriteChain PositionMap Store Stores Risk PumpPending ActivityLog State Chain JupiterSwap MarketData ByrealOps ByrealOpen Reconcile Discipline ByrealClose.
Open Scope Z_scope.
Open Scope list_scope.
Open Scope prog_scope.

Module CallRules.
Import Async State Chain ByrealOps Discipline ByrealClose.

(** Any write: the calls are judged, not the state. *)
Definition any_bot (b b' : Bot) : Prop := True.
#[export] Instance any_pm : Keeps_positionMap any_bot := fun _ _ => I.
#[export] Instance any_rf : Keeps_referers any_bot := fun _ _ => I.
#[export] Instance any_ps : Keeps_pending any_bot := fun _ _ => I.
#[export] Instance any_sv : Keeps_swapVars any_bot := fun _ _ => I.
#[export] Instance any_by : Keeps_byreal any_bot := fun _ _ => I.
#[export] Instance any_mk : Keeps_market any_bot := fun _ _ => I.
#[export] Instance any_pu : Keeps_pump any_bot := fun _ _ => I.
#[export] Instance any_dv : Keeps_dexVars any_bot := fun _ _ => I.
#[export] Instance any_fields : Keeps_fields any_bot := fun _ _ _ _ => I.

Section Rules.
Context `{L : BNLib} `{W : Web3} (cfg : Settings).

Abbreviation Hist := (list (HEvent Call Ans Task)).

(** Our position or the target's was read; a reading failed. *)
Definition read (k : string) (p : PositionInfo) (h : Hist) : Prop :=
  Called (GetPositionInfoByNftMint k) (Ret (Some p)) ∈ h.
Definition unread (k : string) (h : Hist) : Prop :=
  exists r, Called (GetPositionInfoByNftMint k) r ∈ h /\ forall p, r <> Ret (Some p).

(** A liquidity is an unsigned integer. *)
Definition unsigned (p : PositionInfo) : Prop := 0 <= bn_val (i_liquidity p).
Definition unsigned_text (s : string) : Prop := forall n, bn_of_string s = Ret n -> 0 <= bn_val n.
Definition readable (c : Call) (r : outcome (Ans c)) : Prop :=
  match c return outcome (Ans c) -> Prop with
  | GetPositionInfoByNftMint _ => fun r => forall p, r = Ret (Some p) -> unsigned p
  | OnOrca (WpGetPosition _ _) => fun r => forall p, r = Ret (Some p) -> 0 <= bn_val (ps_liquidity p)
  | OnPcs (PcsGetPosition _) => fun r => forall p, r = Ret (Some p) -> unsigned (pcs_info p)
  | OnMeteora (LbGetPositionsByUser _ _) => fun r => forall ps, r = Ret ps ->
      Forall (fun p => unsigned_text (totalXAmount p) /\ unsigned_text (totalYAmount p)) ps
  | OnDamm (AmFetchPosition _) => fun r => forall p, r = Ret p -> unsigned_text (unlockedLiquidity p)
  | _ => fun _ => True
  end r.

Context (J : Hist -> Call -> Prop).
Abbreviation CL := (call_logic J same_pm readable).

(** The calls that need no reading. *)
Definition plain (c : Call) : Prop := forall h, J h c.
Context `{!Reads plain} `{!Sends plain}.

Lemma same_pm_trans b1 b2 b3 : same_pm b1 b2 -> same_pm b2 b3 -> same_pm b1 b3.
Proof using Type. unfold same_pm. congruence. Qed.

Lemma steady {A} (p : P A) h b : always same_pm plain p -> wp CL p h b (fun _ h' b' => h `suffix_of` h' /\ same_pm b b').
Proof using Type.
  intros Hp. apply (always_grows _ _ _ same_pm _ plain); try done. apply same_pm_trans.
Qed.

Lemma sends {A} (p : P A) h b : always any_bot plain p -> wp CL p h b (fun _ h' _ => h `suffix_of` h').
Proof using Type.
  intros Hp. eapply wp_mono; [by apply (always_grows _ _ _ any_bot any_bot plain)|].
  by intros r h' b' [Hs _].
Qed.

Lemma in_suffix h h' (e : HEvent Call Ans Task) : h `suffix_of` h' -> e ∈ h -> e ∈ h'.
Proof using Type. intros [k ->] He. apply elem_of_app. by right. Qed.

Lemma unread_mono k h h' : h `suffix_of` h' -> unread k h -> unread k h'.
Proof using Type. intros Hs (r & Hr & Hn). exists r. split; [by eapply in_suffix|done]. Qed.

Lemma reading h c : writes c = false -> builds c = false -> J h c.
Proof using Reads0. intros Hw Hb. exact (reads_in (C := plain) c Hw Hb h). Qed.

(** What a reading through the retries leaves in the history. *)
Definition seen (k : string) (r : outcome (option PositionInfo)) (h : Hist) : Prop :=
  match r with Ret (Some p) => read k p h /\ unsigned p | _ => unread k h end.

Lemma position_loop_seen k attempt left h b :
  (left = 0%nat -> unread k h) ->
  wp CL (get_position_loop k attempt left) h b
    (fun r h' b' => h `suffix_of` h' /\ same_pm b b' /\ seen k r h').
Proof using Reads0.
  revert attempt h b. induction left as [|left IH]; intros attempt h b H0; cbn [get_position_loop].
  - split_and!; [done..|]. by apply H0.
  - apply wp_bind, wp_catch. split; [by apply reading|]. intros r b' Hok Hb'.
    assert (forall h1 b1, h `suffix_of` h1 -> same_pm b b1 -> unread k h1 ->
      wp CL (get_position_loop k (attempt + 1) left) h1 b1
        (fun r h' b' => h `suffix_of` h' /\ same_pm b b' /\ seen k r h')) as Hnext.
    { intros h1 b1 Hs1 Hp1 Hu. eapply wp_mono; [by apply IH|]. intros r2 h2 b2 (Hs2 & Hp2 & Ho).
      split_and!; [by etrans|by eapply same_pm_trans|done]. }
    assert (forall h1 b1, h `suffix_of` h1 -> same_pm b b1 -> unread k h1 ->
      wp CL (do* (if (left =? 0)%nat then ret tt else sleep (2000 * (attempt + 1))) in
             get_position_loop k (attempt + 1) left) h1 b1
        (fun r h' b' => h `suffix_of` h' /\ same_pm b b' /\ seen k r h')) as Hagain.
    { intros h1 b1 Hs1 Hp1 Hu. apply wp_bind. destruct (left =? 0)%nat; [by apply Hnext|].
      split; [by apply reading|]. intros r2 b2 _ Hb2.
      assert (h `suffix_of` Called (Sleep (2000 * (attempt + 1))) r2 :: h1) as Hs2 by by apply suffix_cons_r.
      assert (unread k (Called (Sleep (2000 * (attempt + 1))) r2 :: h1)) as Hu2.
      { eapply unread_mono; [|exact Hu]. by apply suffix_cons_r. }
      assert (same_pm b b2) by by eapply same_pm_trans.
      destruct r2 as [u|e]; [by apply Hnext|by split_and!]. }
    assert (h `suffix_of` Called (GetPositionInfoByNftMint k) r :: h) as Hh by by apply suffix_cons_r.
    destruct r as [[p|]|e]; cbn [wp ret].
    + split_and!; [done..|]. split; [by left|by apply Hok].
    + apply Hagain; [done..|]. eexists. split; [by left|done].
    + apply Hagain; [done..|]. eexists. split; [by left|done].
Qed.

Lemma position_seen k h b :
  wp CL (retryGetPosition k) h b (fun r h' b' => h `suffix_of` h' /\ same_pm b b' /\ seen k r h').
Proof using Reads0. by apply position_loop_seen. Qed.

(** A program that keeps the evidence: from a history with [H], it makes
    allowed calls only. *)
Definition allowed {A} (H : Hist -> Prop) (p : P A) : Prop :=
  forall h b, H h -> wp CL p h b (fun _ h' _ => h `suffix_of` h').

Lemma allowed_plain {A} H (p : P A) : always any_bot plain p -> allowed H p.
Proof using Type. intros Hp h b _. by apply sends. Qed.

Lemma allowed_done {A} H (r : outcome A) : allowed H (Done r).
Proof using Type. intros h b _. cbn [wp]. done. Qed.

Lemma allowed_weaken {A} (H H' : Hist -> Prop) (p : P A) : (forall h, H h -> H' h) -> allowed H' p -> allowed H p.
Proof using Type. intros HH Hp h b Hh. by apply Hp, HH. Qed.

Lemma allowed_bind {A B} (H : Hist -> Prop) (m : P A) (f : A -> P B) :
  lasting H -> allowed H m -> (forall a, allowed H (f a)) ->
  allowed H (Async.bind m f).
Proof using Type.
  intros HH Hm Hf h b Hh. apply wp_bind. eapply wp_mono; [by apply Hm|]. intros [a|e] h1 b1 Hs; [|done].
  eapply wp_mono; [apply Hf; by eapply HH|]. intros r h2 b2 Hs2. by etrans.
Qed.

Lemma allowed_catch {A} (H : Hist -> Prop) (m : P A) f :
  lasting H -> allowed H m -> (forall e, allowed H (f e)) ->
  allowed H (catch m f).
Proof using Type.
  intros HH Hm Hf h b Hh. apply wp_catch. eapply wp_mono; [by apply Hm|]. intros [a|e] h1 b1 Hs; [done|].
  eapply wp_mono; [apply Hf; by eapply HH|]. intros r h2 b2 Hs2. by etrans.
Qed.

Lemma allowed_retry {A} (H : Hist -> Prop) (fn : P A) :
  lasting H -> allowed H fn -> allowed H (retryOnTransient fn).
Proof using Reads0.
  intros HH Hf. unfold retryOnTransient. generalize 0. generalize 3%nat as left.
  induction left as [|left IH]; intros k; cbn [retry_loop]; [apply allowed_done|].
  apply allowed_catch; [done..|]. intros e. destruct (_ && _); [|apply allowed_done].
  apply allowed_bind; [done| |by intros]. apply allowed_plain. always_go.
Qed.

Lemma allowed_send (H : Hist -> Prop) (ixs : P SdkResult) :
  lasting H -> allowed H ixs -> allowed H (retryOnTransient (buildSignSend cfg ixs)).
Proof using Reads0 Sends0 W cfg.
  intros HH Hi. apply allowed_retry; [done|]. unfold buildSignSend. apply allowed_bind; [done..|].
  intros result. apply allowed_plain. unfold makeSdkTransactionWithoutPriorityFee. always_go.
Qed.

Lemma allowed_attempts {A} (H : Hist -> Prop) n retryable (op : P A) :
  lasting H -> allowed H op -> allowed H (attempts n retryable op).
Proof using Reads0.
  intros HH Hop. unfold attempts. generalize 0. induction n as [|n IH]; intros k; cbn [attempts_loop]; [apply allowed_done|].
  apply allowed_bind; [done|apply allowed_plain; unfold pauseBefore; always_go|]. intros _.
  apply allowed_bind; [done| |].
  - apply allowed_catch; [done| |].
    + apply allowed_bind; [done..|]. intros a. apply allowed_done.
    + intros e. destruct (_ && _); apply allowed_done.
  - intros [a|]; [apply allowed_done|apply IH].
Qed.

Lemma allowed_locked {A} (H : Hist -> Prop) d skipped (body : P A) : allowed H body -> allowed H (locked d skipped body).
Proof using Type.
  intros Hb h b Hh. unfold locked, acquire. apply wp_bind, wp_bind. cbn [wp gets ret].
  destruct (busy_of d b); cbn [wp ret]; [done|]. apply wp_bind. exists h. split; [done|]. cbn [wp ret].
  apply wp_finally. eapply wp_mono; [by apply Hb|]. intros r h1 b1 Hs. exists h1. by split.
Qed.

Lemma allowed_finally {A} (H : Hist -> Prop) (m : P A) (f : P unit) :
  lasting H -> allowed H m -> allowed H f -> allowed H (finally m f).
Proof using Type.
  intros HH Hm Hf h b Hh. apply wp_finally. eapply wp_mono; [by apply Hm|]. intros x h1 b1 Hs1.
  eapply wp_mono; [apply Hf; exact (HH _ _ Hs1 Hh)|]. cbv beta in *. intros y h2 b2 Hs2. by etrans.
Qed.

Lemma allowed_acquire H d : allowed H (acquire d).
Proof using Type.
  intros h b _. unfold acquire. apply wp_bind. cbn [wp gets ret]. destruct (busy_of d b); cbn [wp ret]; [done|].
  apply wp_bind. exists h. split; [done|]. by cbn [wp ret].
Qed.

Lemma allowed_release H d : allowed H (release d).
Proof using Type. intros h b _. unfold release. eapply wp_modify; done. Qed.

(** A part whose calls are all in [C], when the evidence allows [C]. *)
Lemma allowed_always {A} (H : Hist -> Prop) (C : Call -> Prop) (p : P A) :
  lasting H -> (forall h c, H h -> C c -> J h c) ->
  always any_bot C p -> allowed H p.
Proof using Type.
  intros HH HC Hp h b Hh. specialize (Hp tt b).
  cut (forall h0, h0 `suffix_of` h -> wp CL p h b (fun _ h' _ => h0 `suffix_of` h')); [by eauto|].
  revert h b Hh Hp. induction p as [r|k IH|s' k IH|k IH|c k IH|t k IH]; intros h b Hh Hp h0 Hs; simpl in *.
  - done.
  - by apply IH.
  - destruct Hp as ([] & _ & Hp). exists h. split; [done|]. by apply IH.
  - intros t. by apply IH.
  - destruct Hp as [Hc Hp]. split; [by apply HC|]. intros r b' _ _.
    assert (h `suffix_of` Called c r :: h) by by apply suffix_cons_r.
    apply IH; [by eapply HH|by apply Hp|by etrans].
  - assert (h `suffix_of` Spawned t :: h) by by apply suffix_cons_r. apply IH; [by eapply HH|done|by etrans].
Qed.

(** A step whose answer says something. *)
Definition learns {A} (H : Hist -> Prop) (p : P A) (Q : A -> Hist -> Prop) : Prop := forall h b, H h ->
  wp CL p h b (fun r h' _ => h `suffix_of` h' /\ match r with Ret a => Q a h' | Throw _ => True end).

Lemma learns_plain {A} (H : Hist -> Prop) (p : P A) : lasting H -> always any_bot plain p -> learns H p (fun _ => H).
Proof using Type.
  intros HH Hp h b Hh. eapply wp_mono; [by apply sends|]. intros [a|e] h' b' Hs; [|done].
  split; [done|by eapply HH].
Qed.

Lemma learns_lift {A} (H : Hist -> Prop) (o : outcome A) (Q : A -> Hist -> Prop) :
  (forall a h, o = Ret a -> H h -> Q a h) -> learns H (Async.lift o) Q.
Proof using Type. intros HQ h b Hh. unfold Async.lift. destruct o as [a|e]; cbn [wp ret]; (split; [done|]); [by apply HQ|done]. Qed.

Lemma learns_bind {A B} (H : Hist -> Prop) (m : P A) (f : A -> P B) Q Q' :
  learns H m Q -> (forall a, learns (Q a) (f a) Q') -> learns H (Async.bind m f) Q'.
Proof using Type.
  intros Hm Hf h b Hh. apply wp_bind. eapply wp_mono; [by apply Hm|]. intros [a|e] h1 b1 [Hs Ha]; [|done].
  eapply wp_mono; [by apply Hf|]. intros r h2 b2 [Hs2 Hr]. split; [by etrans|done].
Qed.

Lemma learns_ret {A} (H : Hist -> Prop) (a : A) (Q : A -> Hist -> Prop) : (forall h, H h -> Q a h) -> learns H (ret a) Q.
Proof using Type. intros HQ h b Hh. split; [done|by apply HQ]. Qed.

Lemma learns_weaken {A} (H H' : Hist -> Prop) (p : P A) (Q Q' : A -> Hist -> Prop) :
  learns H p Q -> (forall h, H' h -> H h) -> (forall a h, Q a h -> Q' a h) -> learns H' p Q'.
Proof using Type.
  intros Hp HH HQ h b Hh. eapply wp_mono; [apply Hp, HH, Hh|]. intros [a|e] h' b' [Hs Ha]; [|done]. split; [done|by apply HQ].
Qed.

Lemma learned {A B} (H : Hist -> Prop) (m : P A) (f : A -> P B) Q :
  learns H m Q -> (forall a, allowed (Q a) (f a)) -> allowed H (Async.bind m f).
Proof using Type.
  intros Hm Hf h b Hh. apply wp_bind. eapply wp_mono; [by apply Hm|]. intros [a|e] h1 b1 [Hs Ha]; [|done].
  eapply wp_mono; [by apply Hf|]. intros r h2 b2 Hs2. by etrans.
Qed.

Lemma allowed_deposit_attempts {D} (H : Hist -> Prop) reread retry (amounts : BN * BN -> outcome D) once attempt left bals :
  lasting H -> always any_bot plain reread -> (forall bals d, amounts bals = Ret d -> allowed H (once d)) ->
  allowed H (deposit_attempts reread retry amounts once attempt left bals).
Proof using Reads0.
  intros HH Hr Ho. revert attempt bals. induction left as [|left IH]; intros attempt bals; cbn [deposit_attempts]; [apply allowed_done|].
  apply allowed_bind; [done|apply allowed_plain; always_go|]. intros bals'.
  apply (learned H _ _ (fun d h => amounts bals' = Ret d /\ H h)); [by apply learns_lift|].
  intros d h b [Hd Hh]. revert h b Hh. change (allowed H (let* r := catch (let* s := once d in ret (Some s))
    (fun e => if negb (left =? 0)%nat && retry e then ret None else throw e) in
    match r with Some s => ret (Some s) | None => deposit_attempts reread retry amounts once (attempt + 1) left bals' end)).
  apply allowed_bind; [done| |].
  - apply allowed_catch; [done| |].
    + apply allowed_bind; [done|by eapply Ho|]. intros s. apply allowed_done.
    + intros e. destruct (_ && _); apply allowed_done.
  - intros [s|]; [apply allowed_done|apply IH].
Qed.

End Rules.

(** The calls whose answers are readings. *)
Ltac by_reading c :=
  destruct c; try exact I;
  try match goal with
  | c' : @OrcaCall _ |- _ => destruct c'; try exact I
  | c' : @PcsCall _ |- _ => destruct c'; try exact I
  | c' : LegacyCall |- _ => destruct c'; exact I
  | c' : @MeteoraCall _ |- _ => destruct c'; try exact I
  | c' : @DammCall _ |- _ => destruct c'; try exact I
  end.

(** The demonstration environment, with unsigned positions. *)
Lemma demo_readable send info :
  (forall n p, info n = Some p -> unsigned (L := Z_BN) p) ->
  forall n c b, readable c (answer (demo_env send info) n c b).1.
Proof.
  intros Hinfo n c b. by_reading c; simpl.
  - intros p [= Hp]. by eapply Hinfo.
  - by intros p [= <-].
  - intros p [= Hp]. destruct (info nftMint) as [q|] eqn:E; [|done]. simpl in Hp. injection Hp as <-. simpl. by eapply Hinfo.
  - intros ps [= <-]. repeat constructor; by intros z [= <-].
  - intros p [= <-]. by intros z [= <-].
Qed.

End CallRules.
