(* ===== verification/Share.v ===== *)
(** * Our share of what a target took out

    [amountToTakeOut], common to the executors' decreases, with what its result
    rests on: the readings of the target's and of our liquidity.  [liq] and
    [blind] are what an executor's reading leaves in the history. *)

From S2P Require Import Prelude JsMap JsString JsNumber Json Async Ratio TxTypes PositionMap Store Stores State Chain ByrealOps Discipline ByrealClose CallRules.
Open Scope Z_scope.
Open Scope list_scope.
Open Scope prog_scope.

Module Share.
Import Async State Chain ByrealOps Discipline ByrealClose CallRules.

Section Share.
Context `{L : BNLib} `{W : Web3} `{!BNLaws L}.
Abbreviation Hist := (list (HEvent Call Ans Task)).
Context (J : Hist -> Call -> Prop) (t my : string) (stored : option string).
Abbreviation CL := (call_logic J same_pm readable).

(** The position of an NFT was read with this liquidity; a reading of it failed
    or found nothing. *)
Context (liq : string -> BN -> Hist -> Prop) (blind : string -> Hist -> Prop).
Context (Hliq : forall n l, lasting (liq n l)) (Hblind : forall n, lasting (blind n)).

(** The target shows nothing left to follow: it cannot be read, or is empty. *)
Definition gone (h : Hist) : Prop := blind t h \/ exists l, liq t l h /\ bn_isZero l = true.

(** [part] is [mine * (stored - target) / stored]. *)
Definition share_of_removed (part : Z) (h : Hist) : Prop :=
  exists target mine s sl,
    liq t target h /\ liq my mine h /\ stored = Some s /\ bn_of_string s = Ret sl
    /\ bn_val target < bn_val sl
    /\ part = Z.quot (bn_val mine * (bn_val sl - bn_val target)) (bn_val sl).

(** The amount: none for a full decrease, and then for a reason; else zero, or
    our share. *)
Definition amount_seen (o : option BN) (h : Hist) : Prop :=
  match o with
  | None => gone h \/ blind my h
  | Some a => bn_isZero a = true \/ share_of_removed (bn_val a) h
  end.

Definition seen_as (n : string) (o : option BN) (h : Hist) : Prop :=
  match o with Some l => liq n l h | None => blind n h end.

Lemma amount_lasting o : lasting (amount_seen o).
Proof using Hliq Hblind.
  intros h h' Hs. destruct o as [a|]; [intros [Hz|(target & mine & s & sl & Ha)]|intros [[Hb|(l & Hl & Hz)]|Hb]].
  - by left.
  - right. destruct_and! Ha. exists target, mine, s, sl. split_and!; try done; by eapply Hliq.
  - left. left. by eapply Hblind.
  - left. right. exists l. split; [by eapply Hliq|done].
  - right. by eapply Hblind.
Qed.

Lemma zero_isZero z : zero = Ret z -> bn_isZero z = true.
Proof using BNLaws0.
  intros Hz. destruct (bn_of_int_safe 0 eq_refl) as (z' & Hz' & Hv). unfold zero in Hz. rewrite Hz' in Hz.
  injection Hz as <-. by rewrite bn_isZero_val, Hv.
Qed.

Lemma proportional_val mine sl target :
  0 <= bn_val target -> bn_val target < bn_val sl ->
  bn_val (proportional mine sl (bn_sub sl target)) = Z.quot (bn_val mine * (bn_val sl - bn_val target)) (bn_val sl).
Proof using BNLaws0. intros H0 Hlt. unfold proportional. rewrite bn_div_val, bn_mul_val, bn_sub_val by lia. done. Qed.

(** [share_of] answers a share of our liquidity, or nothing when that cannot be
    read. *)
Definition shares (share_of : BN -> BN -> P (option BN)) : Prop := forall sl removed h b,
  wp CL (share_of sl removed) h b
    (fun r h' _ => h `suffix_of` h' /\ exists o, r = Ret o /\
       match o with Some a => exists l, liq my l h' /\ a = proportional l sl removed | None => blind my h' end).

Lemma amountToTakeOut_seen share_of current h b :
  shares share_of -> seen_as t current h -> (forall l h, liq t l h -> 0 <= bn_val l) ->
  PositionMap.getTargetLiquidity t (positionMap b) = stored ->
  wp CL (amountToTakeOut share_of t current) h b
    (fun r h' _ => h `suffix_of` h' /\ match r with Ret o => amount_seen o h' | Throw _ => True end).
Proof using Hliq BNLaws0.
  intros Hshare Hc Hpos Hst. unfold amountToTakeOut. destruct current as [cur|]; [|split; [done|left; by left]].
  destruct (bn_isZero cur) eqn:Ez; [split; [done|left; right; by exists cur]|].
  assert (forall h' b', h `suffix_of` h' -> wp CL (let* z := Async.lift zero in ret (Some z)) h' b'
    (fun r h' _ => h `suffix_of` h' /\ match r with Ret o => amount_seen o h' | Throw _ => True end)) as Hzero.
  { intros h' b' Hs. apply wp_bind. unfold Async.lift. destruct zero as [z|e] eqn:E; cbn [wp ret]; [|done].
    split; [done|]. left. by apply zero_isZero. }
  apply wp_bind. cbn [wp gets ret]. rewrite Hst. destruct (truthy stored) eqn:Et; [|by apply Hzero].
  apply wp_bind. unfold Async.lift. destruct (bn_of_string _) as [sl|e] eqn:Esl; cbn [wp ret]; [|done].
  destruct (bn_lt cur sl) eqn:Elt; [|by apply Hzero].
  apply wp_bind. destruct (bn_of_int _) as [tt_|e]; cbn [wp ret]; [|done].
  apply wp_bind. destruct (bn_toNumber _) as [pct|e]; cbn [wp ret]; [|done].
  apply wp_bind. eapply wp_mono; [apply Hshare|]. intros r h1 b1 (Hs & o & -> & Ho).
  apply wp_bind. unfold on_positionMap. exists h1. split; [done|]. split; [done|].
  destruct o as [a|]; [|by right]. right. destruct Ho as (mine & Hm & ->). destruct stored as [s|] eqn:Est; [|done].
  rewrite bn_lt_val in Elt. apply Z.ltb_lt in Elt.
  exists cur, mine, s, sl. split_and!; try done; [by eapply Hliq|].
  rewrite proportional_val; [done|by eapply Hpos|done].
Qed.

End Share.

End Share.
