(* ===== verification/ByrealDecrease.v ===== *)
(** * What a decrease may take

    [copyDecreaseLiquidity] makes only calls that its readings justify: a
    partial decrease takes our share of what the target removed, a full one
    needs a target that is gone or a position that cannot be read, and nothing
    ever closes the position.  The readings are the calls of the history. *)

From S2P Require Import Prelude JsMap JsString JsNumber Json Async Ratio TxTypes WriteChain PositionMap Store Stores Risk PumpPending ActivityLog State Chain JupiterSwap MarketData ByrealOps ByrealOpen Reconcile Discipline ByrealClose CallRules Share.
Open Scope Z_scope.
Open Scope list_scope.
Open Scope prog_scope.

Module ByrealDecrease.
Import Async State Chain ByrealOps Discipline ByrealClose CallRules Share.

Section Decrease.
Context `{L : BNLib} `{W : Web3} (cfg : Settings).

Abbreviation Hist := (list (HEvent Call Ans Task)).

(** The target shows nothing left to follow: it cannot be read, or is empty. *)
Definition target_gone (t : string) (h : Hist) : Prop :=
  (exists e, publicKey t = Throw e)
  \/ exists k, publicKey t = Ret k /\ (unread k h \/ exists p, read k p h /\ bn_isZero (i_liquidity p) = true).

(** [l] is our share, [mine * (stored - now) / stored], capped by what our
    position holds at the last reading. *)
Definition our_share (t k : string) (stored : option string) (l : BN) (h : Hist) : Prop :=
  exists kt target mine last s sl,
    publicKey t = Ret kt /\ read kt target h /\ read k mine h /\ read k last h
    /\ stored = Some s /\ bn_of_string s = Ret sl
    /\ bn_val (i_liquidity target) < bn_val sl
    /\ bn_val l = Z.min (Z.quot (bn_val (i_liquidity mine) * (bn_val sl - bn_val (i_liquidity target))) (bn_val sl))
                        (bn_val (i_liquidity last)).

(** The calls a decrease may make, given what was read before. *)
Definition justified (t my : string) (stored : option string) (h : Hist) (c : Call) : Prop :=
  match c with
  | DecreaseLiquidityInstructions k l => publicKey my = Ret k /\ our_share t k stored l h
  | DecreaseFullLiquidityInstructions k closePosition =>
      publicKey my = Ret k /\ closePosition = false /\ (target_gone t h \/ unread k h)
  | CollectFeesInstructions k => publicKey my = Ret k
  | CreatePositionInstructions _ _ _ _ _ _ | AddLiquidityInstructions _ _ _ _
  | SwapExactOut _ _ | CollectAllPositionFeesInstructions _ | SignVersioned _ => False
  | Fetch _ method _ _ => method <> "POST"%string
  | _ => True
  end.

Context (t my : string) (stored : option string).
Abbreviation allowed := (CallRules.allowed (justified t my stored)).
Abbreviation DL := (call_logic (justified t my stored) same_pm readable).

#[local] Instance reads_plain : Reads (plain (justified t my stored)).
Proof using Type.
  intros c Hw Hb h. destruct c; try done. simpl in *. intros ->. by rewrite bool_decide_eq_true_2 in Hw.
Qed.
#[local] Instance sends_plain : Sends (plain (justified t my stored)).
Proof using Type. intros [] Hc h; done. Qed.

(** The readings behind an amount. *)
Definition liq (n : string) (l : BN) (h : Hist) : Prop :=
  exists k p, publicKey n = Ret k /\ read k p h /\ l = i_liquidity p /\ unsigned p.
Definition blind (n : string) (h : Hist) : Prop :=
  (exists e, publicKey n = Throw e) \/ exists k, publicKey n = Ret k /\ unread k h.

Lemma liq_lasting n l : lasting (liq n l).
Proof using Type. intros h h' Hs (k & p & Hk & Hp & Hl). exists k, p. split_and!; [done|by eapply in_suffix|apply Hl..]. Qed.
Lemma blind_lasting n : lasting (blind n).
Proof using Type.
  intros h h' Hs [He|(k & Hk & Hu)]; [by left|right]. exists k. split; [done|by eapply unread_mono].
Qed.

Abbreviation amount_seen := (Share.amount_seen t my stored liq blind).

(** A reading of a position's liquidity. *)
Lemma liquidity_seen {A} n (f : PositionInfo -> A) h b (Q : option A -> Hist -> Prop) :
  (forall h' p, liq n (i_liquidity p) h' -> Q (Some (f p)) h') -> (forall h', blind n h' -> Q None h') ->
  wp DL (catch (let* k := Async.lift (publicKey n) in let* p := retryGetPosition k in ret (f <$> p)) (fun _ => ret None)) h b
    (fun r h' b' => h `suffix_of` h' /\ same_pm b b' /\ exists o, r = Ret o /\ Q o h').
Proof using Type.
  intros Hsome Hnone. apply wp_catch, wp_bind. unfold Async.lift. destruct (publicKey n) as [k|e] eqn:E; cbn [wp ret].
  - apply wp_bind. eapply wp_mono; [apply (position_seen (justified t my stored))|]. intros r h' b' (Hs & Hp & Hr).
    destruct r as [[p|]|e]; cbn [wp ret fmap]; (split; [done|split; [done|]]); eexists; (split; [done|]).
    + apply Hsome. destruct Hr. by exists k, p.
    + apply Hnone. right. by exists k.
    + apply Hnone. right. by exists k.
  - split_and!; [done..|]. exists None. split; [done|]. apply Hnone. left. eauto.
Qed.

Lemma targetLiquidity_seen h b :
  wp DL (targetLiquidity t) h b
    (fun r h' b' => h `suffix_of` h' /\ same_pm b b' /\ exists o, r = Ret o /\ Share.seen_as liq blind t o h').
Proof using Type. by apply (liquidity_seen t i_liquidity h b (Share.seen_as liq blind t)). Qed.

Context `{!BNLaws L}.

Lemma ourShare_shares : Share.shares (justified t my stored) my liq blind (ourShare my).
Proof using Type.
  intros sl removed h b. eapply wp_mono.
  - apply (liquidity_seen my (fun p => proportional (i_liquidity p) sl removed) h b
      (fun o h' => match o with Some a => exists l, liq my l h' /\ a = proportional l sl removed | None => blind my h' end)); [|done].
    intros h' p Hp. by exists (i_liquidity p).
  - by intros r h' b' (Hs & _ & Hr).
Qed.

Lemma decreaseAmount_seen current h b :
  Share.seen_as liq blind t current h -> PositionMap.getTargetLiquidity t (positionMap b) = stored ->
  wp DL (decreaseAmount t my current) h b
    (fun r h' _ => h `suffix_of` h' /\ match r with Ret o => amount_seen o h' | Throw _ => True end).
Proof using All.
  intros Hc Hst. apply (Share.amountToTakeOut_seen _ _ _ _ _ _ liq_lasting _ _ _ _ ourShare_shares); [done| |done].
  intros l h' (k & p & _ & _ & -> & Hu). exact Hu.
Qed.

Lemma partial_allowed a h b :
  amount_seen (Some a) h -> bn_isZero a = false ->
  wp DL (partialInstructions my a) h b (fun _ h' _ => h `suffix_of` h').
Proof using All.
  intros [Hz|Ha] Hnz; [congruence|]. unfold partialInstructions. apply wp_bind. unfold Async.lift.
  destruct Ha as (tl & ml & s & sl & (kt & target & Hkt & Hrt & -> & Hut) & (k & mine & Hk & Hrm & -> & Hum) & Hs & Hsl & Hlt & Hv).
  rewrite Hk. apply wp_bind. eapply wp_mono; [apply (position_seen (justified t my stored))|].
  unfold unsigned in *.
  intros r h1 b1 (Hs1 & _ & Hr). destruct r as [o|e]; [|done].
  apply wp_bind. destruct o as [last|]; cbn [wp ret].
  - destruct Hr as [Hrl Hul]. destruct (bn_isZero (bn_min _ _)); [done|]. cbn [wp bind after].
    split; [|intros r2 b2 _ _; by apply suffix_cons_r].
    split; [done|]. exists kt, target, mine, last, s, sl.
    split_and!; try done. 3: by rewrite bn_min_val, Hv.
    all: by eapply in_suffix.
  - destruct zero as [z|e] eqn:Ezero; cbn [wp]; [|done].
    assert (bn_isZero (bn_min a z) = true) as ->; [|done].
    pose proof (Share.zero_isZero _ Ezero) as Hz. rewrite bn_isZero_val in *. rewrite bn_min_val, Hv.
    apply Z.eqb_eq in Hz. rewrite Hz. apply Z.eqb_eq, Z.min_r.
    apply Z.quot_pos; [apply Z.mul_nonneg_nonneg; lia|lia].
Qed.

(** A reason for a full decrease, as the calls give it. *)
Lemma full_reason k h :
  publicKey my = Ret k -> amount_seen None h -> target_gone t h \/ unread k h.
Proof using Type.
  intros Hk [[[He|(kt & Hkt & Hu)]|(l & (kt & p & Hkt & Hp & -> & _) & Hz)]|[[e He]|(k' & Hk' & Hu)]].
  - left. by left.
  - left. right. exists kt. split; [done|by left].
  - left. right. exists kt. split; [done|right; by exists p].
  - congruence.
  - right. congruence.
Qed.

Lemma sendDecrease_allowed amount :
  match amount with Some a => bn_isZero a = false | None => True end ->
  allowed (amount_seen amount) (sendDecrease cfg my amount).
Proof using All.
  intros Hnz. apply (allowed_send cfg (justified t my stored)); [apply Share.amount_lasting; [apply liq_lasting|apply blind_lasting]|]. intros h b Hh. destruct amount as [a|].
  - by apply partial_allowed.
  - unfold decreaseFull. apply wp_bind. unfold Async.lift. destruct (publicKey my) as [k|e] eqn:E; cbn [wp ret]; [|done].
    split; [|intros r b' _ _; by apply suffix_cons_r]. split; [done|]. split; [done|].
    by apply full_reason.
Qed.

Lemma collectFees_allowed H :
  (forall h h', h `suffix_of` h' -> H h -> H h') -> allowed H (collectFees cfg my).
Proof using Type.
  intros HH. apply (allowed_send cfg (justified t my stored)); [done|]. intros h b _. apply wp_bind. unfold Async.lift.
  destruct (publicKey my) as [k|e] eqn:E; cbn [wp ret]; [|done].
  split; [done|]. intros r b' _ _. by apply suffix_cons_r.
Qed.

Lemma decrease_calls h b :
  PositionMap.get t (positionMap b) = Some my -> PositionMap.getTargetLiquidity t (positionMap b) = stored ->
  wp DL (copyDecreaseLiquidity cfg t) h b (fun _ _ _ => True).
Proof using All.
  intros Hmy Hst. unfold copyDecreaseLiquidity, mapped. apply wp_bind. cbn [wp gets ret]. rewrite Hmy.
  destruct (negb (truthy my)); [done|].
  apply wp_bind. eapply wp_mono; [apply targetLiquidity_seen|]. intros r h1 b1 (_ & Hpm & current & -> & Hc).
  apply wp_bind. eapply wp_mono; [apply decreaseAmount_seen; [done|by rewrite Hpm]|].
  intros [amount|e] h2 b2 [_ Ha]; [|done]. cbv zeta.
  assert (forall A (p : P A) h3 b3, allowed (amount_seen amount) p -> amount_seen amount h3 ->
    wp DL p h3 b3 (fun _ _ _ => True)) as Hdone.
  { intros A p h3 b3 Hp Hh. eapply wp_mono; [by apply Hp|]. done. }
  assert (forall h h', h `suffix_of` h' -> amount_seen amount h -> amount_seen amount h') as Hmono.
  { apply Share.amount_lasting; [apply liq_lasting|apply blind_lasting]. }
  destruct (match amount with Some a => bn_isZero a | None => false end) eqn:Ef; destruct (dryRun cfg); try done.
  - apply Hdone; [|done]. apply allowed_locked, allowed_catch; [done| |intros e; apply allowed_done].
    apply (allowed_attempts (justified t my stored)); [done|]. apply allowed_bind; [done|by apply collectFees_allowed|]. intros s. apply allowed_done.
  - apply Hdone; [|done]. apply allowed_locked, allowed_catch; [done| |intros e; apply allowed_done].
    apply (allowed_attempts (justified t my stored)); [done|]. unfold decrease_once. apply allowed_bind; [done| |].
    + apply sendDecrease_allowed. by destruct amount.
    + intros s. apply allowed_plain. always_go.
Qed.

End Decrease.

(** C9: A decrease takes our share and no more.  Whatever the chain answers, with
    unsigned liquidities, and whatever other activations do to the rest of the
    state, every call [copyDecreaseLiquidity] makes is justified by what it read
    before: a partial decrease of our position takes exactly
    [mine * (stored - target) / stored], capped by the liquidity our position
    holds when the transaction is built; a full one, which never closes the
    position, only when the target cannot be read or is empty, or our own
    position cannot be read; and it neither opens, adds nor swaps. *)
Theorem decrease_takes_our_share `{L : BNLib} `{W : Web3} `{!BNLaws L} (cfg : Settings) t my env k b :
  PositionMap.get t (positionMap b) = Some my ->
  (forall n c b, readable c (answer env n c b).1) -> others_keep_map env ->
  each_call (justified t my (PositionMap.getTargetLiquidity t (positionMap b)))
    (hist (run env k [] (copyDecreaseLiquidity cfg t) b)).
Proof.
  intros Hmy Hread Henv.
  apply (calls_run (copyDecreaseLiquidity cfg t) _ same_pm readable env k [] b (fun _ _ _ => True)); [done..|].
  by apply decrease_calls.
Qed.


(** ** Concrete runs *)

(** The target went from 100 to 50; our position holds 60. *)
Definition halved (n : string) : option (PositionInfo (L := Z_BN)) :=
  Some (demo_position (if bool_decide (n = "Target"%string) then 50 else 60) 1 1).
Definition halving_bot : Bot := fresh (PositionMap.setTargetLiquidity "Target" "100" mapped_pm).

Definition decrease_run (send : outcome string) (b : Bot) :=
  run (demo_env send halved) 0 [] (copyDecreaseLiquidity (L := Z_BN) (W := demo_web3) demo_settings "Target") b.

(** The partial decreases a history asked for. *)
Definition taken (h : list (HEvent (Call (L := Z_BN)) (Ans (L := Z_BN)) Task)) : list Z :=
  omap (fun e => match e with Called (DecreaseLiquidityInstructions _ l) _ => Some l | _ => None end) h.

Lemma decrease_takes_our_share_witness :
  let x := decrease_run (Ret "Sig"%string) halving_bot in
  res x = Ret (Some ("Sig"%string, DECREASE)) /\ taken (hist x) = [30]
  /\ each_call (justified (W := demo_web3) "Target" "OurNft"
       (PositionMap.getTargetLiquidity "Target" (positionMap halving_bot))) (hist x).
Proof.
  cbv zeta. split; [by vm_compute|]. split; [by vm_compute|]. pose proof Z_BN_laws as HL.
  apply (decrease_takes_our_share (W := demo_web3)); [by vm_compute| |done].
  apply demo_readable. intros n p [= <-]. unfold unsigned, demo_position. simpl. by destruct (bool_decide _).
Defined.

(** The stored liquidity of the target is replaced before anything is sent.  A
    decrease that fails, or finds the executor busy, answers null and is not
    made up for: the next call sees nothing removed and only collects fees, and
    our position keeps the share the target took out. *)
Theorem failed_decrease_is_lost :
  let busy_bot := on_executor Byreal (with_busy true) halving_bot in
  let failed := decrease_run (Throw "insufficient funds") halving_bot in
  let skipped := decrease_run (Ret "Sig"%string) busy_bot in
  let again := decrease_run (Ret "Sig"%string) (final failed) in
  let later := decrease_run (Ret "Sig"%string) (on_executor Byreal (with_busy false) (final skipped)) in
  res failed = Ret None /\ res skipped = Ret None
  /\ PositionMap.getTargetLiquidity "Target" (positionMap (final failed)) = Some "50"%string
  /\ PositionMap.getTargetLiquidity "Target" (positionMap (final skipped)) = Some "50"%string
  /\ res again = Ret (Some ("Sig"%string, COLLECT_FEE)) /\ taken (hist again) = []
  /\ res later = Ret (Some ("Sig"%string, COLLECT_FEE)) /\ taken (hist later) = [].
Proof. by vm_compute. Qed.

End ByrealDecrease.
