(* ===== verification/ByrealDeposit.v ===== *)
(** * What an open or an increase deposits, and what it records

    [copyOpenPosition] and [copyIncreaseLiquidity]: the SDK is asked for the
    target's own range and for at most the target's amounts, scaled by the
    wallet's ratio (for an increase, less what our position holds); the mapping
    is stored when, and only when, a transaction was accepted. *)

From S2P Require Import Prelude JsMap JsString JsNumber Json Async Ratio TxTypes WriteChain PositionMap Store Stores Risk PumpPending ActivityLog State Chain JupiterSwap MarketData ByrealOps ByrealOpen Reconcile Discipline ByrealClose CallRules.
Open Scope Z_scope.
Open Scope list_scope.
Open Scope prog_scope.

Module ByrealDeposit.
Import Async AsyncMore State Chain ByrealOps ByrealOpen Discipline ByrealClose CallRules.

Section Deposit.
Context `{L : BNLib} `{W : Web3} (cfg : Settings).

Abbreviation Hist := (list (HEvent Call Ans Task)).

(** The target's amounts, scaled. *)
Definition scaled (w : option string) (info : PositionInfo) (fullA fullB : BN) : Prop :=
  Ratio.scaleAmount (ratios cfg) (amountA info) w = Ret fullA
  /\ Ratio.scaleAmount (ratios cfg) (amountB info) w = Ret fullB.

(** Within [limitA] and [limitB]; the side that is given exactly is A unless
    there is nothing of it to give. *)
Definition within (limitA limitB : Z) (bs : Base) (amount other : BN) : Prop :=
  match bs with
  | MintA => 0 < limitA /\ bn_val amount <= limitA /\ bn_val other <= limitB
  | MintB => limitA <= 0 /\ bn_val amount <= limitB /\ bn_val other <= limitA
  end.

(** Our amounts; nothing when our position cannot be read. *)
Definition held (k : string) (h : Hist) (a b : Z) : Prop :=
  (exists p, read k p h /\ a = bn_val (amountA p) /\ b = bn_val (amountB p)) \/ unread k h /\ a = 0 /\ b = 0.

(** The calls allowed to an open ([my = None]) and to an increase. *)
Definition bounded (t : string) (my : option string) (w : option string) (h : Hist) (c : Call) : Prop :=
  match c with
  | CreatePositionInstructions pool lower upper bs amount other =>
      my = None
      /\ exists k info fullA fullB,
           publicKey t = Ret k /\ read k info h /\ scaled w info fullA fullB
           /\ pool = rawPoolInfo info /\ lower = i_tickLower info /\ upper = i_tickUpper info
           /\ within (bn_val fullA) (bn_val fullB) bs amount other
  | AddLiquidityInstructions k' bs amount other =>
      exists n k info fullA fullB a b,
        my = Some n /\ publicKey n = Ret k' /\ publicKey t = Ret k /\ read k info h /\ scaled w info fullA fullB
        /\ held k' h a b /\ within (Z.max 0 (bn_val fullA - a)) (Z.max 0 (bn_val fullB - b)) bs amount other
  | DecreaseLiquidityInstructions _ _ | DecreaseFullLiquidityInstructions _ _ | CollectFeesInstructions _
  | CollectAllPositionFeesInstructions _ => False
  | _ => True
  end.

Section Judged.
Context (t : string) (my w : option string) `{!BNLaws L}.
Abbreviation J := (bounded t my w).
Abbreviation OL := (call_logic J same_pm readable).

#[local] Instance reads_bounded : Reads (plain J).
Proof using Type. intros [] Hw Hb h; done. Qed.
#[local] Instance writes_bounded : Writes (plain J).
Proof using Type. intros [] Hw h; done. Qed.

Lemma deposit_within targetA targetB a b d :
  deposit targetA targetB a b = Ret d ->
  within (bn_val targetA) (bn_val targetB) (base d) (baseAmount d) (otherAmountMax d).
Proof using BNLaws0.
  unfold deposit, zero. destruct (bn_of_int_safe 0 eq_refl) as (z & -> & Hz). simpl. rewrite bn_gt_val, Hz.
  destruct (0 <? bn_val targetA) eqn:E; intros [= <-]; simpl; rewrite !bn_min_val; [apply Z.ltb_lt in E|apply Z.ltb_ge in E]; lia.
Qed.

(** ** Steps whose success says something *)

Definition gives {A} (p : P A) (Q : A -> Hist -> Prop) : Prop :=
  forall h b, wp OL p h b (fun r h' b' =>
    h `suffix_of` h' /\ same_pm b b' /\ match r with Ret a => Q a h' | Throw _ => True end).

Lemma gives_always {A} (p : P A) : always same_pm (plain J) p -> gives p (fun _ _ => True).
Proof using Type. intros Hp h b. eapply wp_mono; [by apply steady|]. by intros [a|e] h' b' [Hs Hb]. Qed.

Lemma gives_bind {A B} (m : P A) (f : A -> P B) Q Q' :
  gives m Q -> (forall a, gives (f a) Q') -> gives (Async.bind m f) Q'.
Proof using Type.
  intros Hm Hf h b. apply wp_bind. eapply wp_mono; [apply Hm|]. intros [a|e] h1 b1 (Hs & Hb & Ha); [|done].
  eapply wp_mono; [apply Hf|]. intros r h2 b2 (Hs2 & Hb2 & Hr).
  split; [by etrans|]. split; [by eapply same_pm_trans|done].
Qed.

Lemma gives_retry {A} (fn : P A) Q : gives fn Q -> gives (retryOnTransient fn) Q.
Proof using Type.
  intros Hf. unfold retryOnTransient. generalize 0. generalize 3%nat as left.
  induction left as [|left IH]; intros k h b; cbn [retry_loop]; [done|].
  apply wp_catch. eapply wp_mono; [apply Hf|]. intros [a|e] h1 b1 (Hs & Hb & Ha); [done|].
  destruct (_ && _); [|done].
  eapply wp_mono; [apply (gives_bind (sleep (2000 * (k + 1))) _ (fun _ _ => True)); [apply gives_always; always_go|];
                   intros _; apply IH|].
  intros r h2 b2 (Hs2 & Hb2 & Hr). split; [by etrans|]. split; [by eapply same_pm_trans|done].
Qed.

(** Some transaction was accepted under this signature. *)
Definition accepted (txSig : string) (h : Hist) : Prop := exists signed, Called (SendTransaction signed) (Ret txSig) ∈ h.

Lemma gives_send ixs signers :
  gives (let* tx := makeByrealZeroPriorityTransaction cfg ixs signers in signAndSend tx) accepted.
Proof using Type.
  apply (gives_bind _ _ (fun _ _ => True)); [apply gives_always; always_go|]. intros tx. unfold signAndSend.
  apply (gives_bind _ _ (fun _ _ => True)); [apply gives_always; always_go|]. intros signed h b.
  split; [done|]. intros r b' _ Hb. split; [by apply suffix_cons_r|]. split; [done|].
  destruct r as [s|e]; [|done]. exists signed. by left.
Qed.

Lemma accepted_mono s h h' : h `suffix_of` h' -> accepted s h -> accepted s h'.
Proof using Type. intros Hs (u & Hu). exists u. by eapply in_suffix. Qed.

(** ** The attempts *)

(** What a deposit does to the map, and when it fails nothing. *)
Definition effect (D : PositionMap.t -> string -> Hist -> PositionMap.t -> Prop) (b : Bot)
    (r : outcome (option string)) (h : Hist) (b' : Bot) : Prop :=
  match r with
  | Ret (Some s) => D (positionMap b) s h (positionMap b')
  | _ => same_pm b b'
  end.

Lemma effect_after D b b1 r h b' : same_pm b b1 -> effect D b1 r h b' -> effect D b r h b'.
Proof using Type. unfold effect, same_pm. intros Hb. destruct r as [[s|]|e]; rewrite ?Hb; congruence. Qed.

Lemma deposit_loop_effect (E : Hist -> Prop) D pool targetA targetB once attempt left balA balB h b :
  (forall h h', h `suffix_of` h' -> E h -> E h') ->
  (forall d h b, E h ->
     within (bn_val targetA) (bn_val targetB) (base d) (baseAmount d) (otherAmountMax d) ->
     wp OL (once d) h b (fun r h' b' => h `suffix_of` h' /\ effect D b (match r with Ret s => Ret (Some s) | Throw e => Throw e end) h' b')) ->
  E h ->
  wp OL (deposit_loop cfg pool targetA targetB once attempt left balA balB) h b
    (fun r h' b' => h `suffix_of` h' /\ effect D b r h' b').
Proof using BNLaws0.
  intros HE Honce. revert attempt balA balB h b. induction left as [|left IH]; intros attempt balA balB h b Hh; cbn [deposit_loop]; [done|].
  apply wp_bind. eapply wp_mono; [apply (gives_always (if 0 <? attempt then _ else _)); always_go|].
  intros [bals|e] h1 b1 (Hs1 & Hb1 & _); [|done].
  apply wp_bind. unfold Async.lift. destruct (deposit targetA targetB bals.1 bals.2) as [d|e] eqn:Ed; cbn [wp ret]; [|done].
  apply wp_bind, wp_catch, wp_bind. eapply wp_mono; [apply Honce; [by eapply HE|by eapply deposit_within]|].
  intros [s|e] h2 b2 [Hs2 He2]; cbn [wp ret].
  - split; [by etrans|]. by apply (effect_after _ _ b1).
  - assert (same_pm b b2) as Hb2 by by eapply same_pm_trans.
    destruct (_ && _); cbn [wp ret throw]; [|split; [by etrans|done]].
    eapply wp_mono; [apply IH; eapply HE; [|exact Hh]; by etrans|]. intros r h3 b3 [Hs3 He3].
    split; [do 2 (etrans; [eassumption|]); done|]. by apply (effect_after _ _ b2).
Qed.

(** ** [copyOpenPosition] *)

(** What a saved mapping is. *)
Definition saved (r : OpenRequest) (info : PositionInfo) (nft : string) (now dbnow : Z) (rent : num)
    (pm : PositionMap.t) : PositionMap.t :=
  PositionMap.setTargetLiquidity (targetNft r) (bn_toString (i_liquidity info))
    (PositionMap.setLockedSol (targetNft r) rent
       (PositionMap.set now dbnow (targetNft r) nft (Some (poolLabel (rawPoolInfo info))) (wallet r)
          (Some (i_tickLower info)) (Some (i_tickUpper info)) None pm)).

(** A transaction was accepted, and the position the SDK made for it is mapped,
    when it has a name. *)
Definition opened (r : OpenRequest) (pm : PositionMap.t) (txSig : string) (h : Hist) (pm' : PositionMap.t) : Prop :=
  accepted txSig h
  /\ exists k info pool lower upper bs amount other created now dbnow rent,
       publicKey (targetNft r) = Ret k /\ read k info h
       /\ Called (CreatePositionInstructions pool lower upper bs amount other) (Ret created) ∈ h
       /\ pm' = if truthy (nftAddress created) then saved r info (nftAddress created) now dbnow rent pm else pm.

Lemma opened_mono r pm s h h' pm' : h `suffix_of` h' -> opened r pm s h pm' -> opened r pm s h' pm'.
Proof using Type.
  intros Hs [Ha (k & info & pool & lo & hi & bs & am & ot & cr & now & dbnow & rent & Hk & Hr & Hc & ->)].
  split; [by eapply accepted_mono|].
  exists k, info, pool, lo, hi, bs, am, ot, cr, now, dbnow, rent.
  split_and!; [done|by eapply in_suffix|by eapply in_suffix|done].
Qed.

Lemma saveMapping_wp r info nft h b (Q : outcome unit -> Hist -> Bot -> Prop) :
  (forall now dbnow rent b', positionMap b' = saved r info nft now dbnow rent (positionMap b) -> Q (Ret tt) h b') ->
  wp OL (saveMapping r info nft) h b Q.
Proof using Type.
  intros HQ. unfold saveMapping, on_positionMap. apply wp_bind. intros now. apply wp_bind. intros dbnow.
  apply wp_bind. eapply wp_modify; [done|]. apply wp_bind. eapply wp_modify; [done|].
  apply wp_bind. eapply wp_modify; [done|]. eapply wp_modify; [done|].
  apply (HQ now dbnow (rentPerPosition (byreal b))). by rewrite on_executor_positionMap.
Qed.

Lemma open_once_effect r k info d fullA fullB h b :
  targetNft r = t -> wallet r = w -> my = None ->
  publicKey t = Ret k -> read k info h -> scaled w info fullA fullB ->
  within (bn_val fullA) (bn_val fullB) (base d) (baseAmount d) (otherAmountMax d) ->
  wp OL (open_once cfg r info d) h b
    (fun x h' b' => h `suffix_of` h'
      /\ effect (opened r) b (match x with Ret s => Ret (Some s) | Throw e => Throw e end) h' b').
Proof using Type.
  intros Ht Hw Hmy Hk Hr Hsc Hwi. unfold open_once. apply wp_bind. split.
  { split; [done|]. exists k, info, fullA, fullB. done. }
  intros [created|e] b0 _ Hb0; [|split; [by apply suffix_cons_r|done]].
  set (c := CreatePositionInstructions _ _ _ _ _ _). apply wp_bind.
  eapply wp_mono; [apply (gives_retry _ accepted), gives_send|].
  intros [s|e] h1 b1 (Hs1 & Hb1 & Ha); cbn [effect].
  2:{ split; [|by eapply same_pm_trans]. etrans; [|exact Hs1]. by apply suffix_cons_r. }
  assert (h `suffix_of` h1) as Hs by (etrans; [|exact Hs1]; by apply suffix_cons_r).
  assert (same_pm b b1) as Hb by by eapply same_pm_trans.
  assert (Called c (Ret created) ∈ h1) as Hc by (eapply in_suffix; [exact Hs1|by left]).
  apply wp_bind.
  assert (forall b2 pm', positionMap b2 = pm' ->
    (pm' = positionMap b /\ truthy (nftAddress created) = false
     \/ exists now dbnow rent, truthy (nftAddress created) = true
          /\ pm' = saved r info (nftAddress created) now dbnow rent (positionMap b)) ->
    wp OL (do* addReferer r (nftAddress created) in do* confirmBestEffort s in
           do* spawn (UpdateLockedSol (targetNft r) s) in ret s) h1 b2
      (fun x h' b' => h `suffix_of` h'
        /\ effect (opened r) b (match x with Ret s => Ret (Some s) | Throw e => Throw e end) h' b')) as Hrest.
  { intros b2 pm' Hpm Hcase.
    assert (forall h3 b3, h1 `suffix_of` h3 -> positionMap b3 = pm' ->
      wp OL (do* spawn (UpdateLockedSol (targetNft r) s) in ret s) h3 b3
        (fun x h' b' => h `suffix_of` h'
          /\ effect (opened r) b (match x with Ret s => Ret (Some s) | Throw e => Throw e end) h' b')) as Hend.
    { intros h3 b3 Hs3 Hp3. apply wp_bind. cbn.
      assert (h1 `suffix_of` Spawned (UpdateLockedSol (targetNft r) s) :: h3) as Hs4 by by apply suffix_cons_r.
      assert (h `suffix_of` Spawned (UpdateLockedSol (targetNft r) s) :: h3) as Hs5 by (by etrans).
      split; [done|]. split; [exact (accepted_mono _ _ _ Hs4 Ha)|].
      destruct Hcase as [[Hpm' Ht']|(now & dbnow & rent & Ht' & Hpm')].
      - exists k, info, (rawPoolInfo info), (i_tickLower info), (i_tickUpper info), (base d), (baseAmount d), (otherAmountMax d),
          created, 0, 0, (num_of_Z 0). rewrite Ht'. split_and!; [by rewrite Ht|exact (in_suffix _ _ _ Hs5 Hr)|exact (in_suffix _ _ _ Hs4 Hc)|congruence].
      - exists k, info, (rawPoolInfo info), (i_tickLower info), (i_tickUpper info), (base d), (baseAmount d), (otherAmountMax d),
          created, now, dbnow, rent. rewrite Ht'. split_and!; [by rewrite Ht|exact (in_suffix _ _ _ Hs5 Hr)|exact (in_suffix _ _ _ Hs4 Hc)|congruence]. }
    assert (forall b3, positionMap b3 = pm' ->
      wp OL (do* confirmBestEffort s in do* spawn (UpdateLockedSol (targetNft r) s) in ret s) h1 b3
        (fun x h' b' => h `suffix_of` h'
          /\ effect (opened r) b (match x with Ret s => Ret (Some s) | Throw e => Throw e end) h' b')) as Hconf.
    { intros b3 Hp3. apply wp_bind. unfold confirmBestEffort. apply wp_catch.
      eapply wp_mono; [apply gives_always; always_go|]. unfold same_pm. intros x h4 b4 (Hs4 & Hb4 & _).
      destruct x; apply Hend; congruence. }
    unfold addReferer. apply wp_bind. destruct (truthy (referer r)); [|by apply Hconf].
    apply wp_bind. intros now. eapply wp_modify; [done|]. by apply Hconf. }
  destruct (truthy (nftAddress created)) eqn:Et.
  - apply saveMapping_wp. intros now dbnow rent b2 Hb2. apply (Hrest b2 (positionMap b2)); [done|]. right. exists now, dbnow, rent.
    split; [done|]. by rewrite Hb2, Hb.
  - apply (Hrest b1 (positionMap b1)); [done|]. left. by rewrite Hb.
Qed.

(** No deposit, no effect. *)
Definition no_effect : PositionMap.t -> string -> Hist -> PositionMap.t -> Prop := fun _ _ _ _ => False.

Lemma quiet_effect (p : P (option string)) D h b :
  gives p (fun o _ => o = None) -> wp OL p h b (fun r h' b' => h `suffix_of` h' /\ effect D b r h' b').
Proof using Type.
  intros Hp. eapply wp_mono; [apply Hp|]. by intros [a|e] h' b' (Hs & Hb & Hr); [rewrite Hr|].
Qed.

Lemma open_funded_effect r k info h b :
  targetNft r = t -> wallet r = w -> my = None -> publicKey t = Ret k -> read k info h ->
  wp OL (open_funded cfg r info) h b (fun x h' b' => h `suffix_of` h' /\ effect (opened r) b x h' b').
Proof using BNLaws0.
  intros Ht Hw Hmy Hk Hr. unfold open_funded. rewrite Hw.
  apply wp_bind. unfold Async.lift. destruct (Ratio.scaleAmount _ (amountA info) w) as [fullA|e] eqn:EA; cbn [wp ret]; [|done].
  apply wp_bind. destruct (Ratio.scaleAmount _ (amountB info) w) as [fullB|e] eqn:EB; cbn [wp ret]; [|done].
  apply wp_bind. eapply wp_mono; [apply gives_always; apply always_fundBoth; apply _|].
  intros [[[a c]|]|e] h1 b1 (Hs1 & Hb1 & _); [|done|done].
  eapply wp_mono; [apply (deposit_loop_effect (fun h => read k info h) (opened r))|].
  - intros h2 h3 Hs2. by apply in_suffix.
  - intros d h2 b2 Hr2 Hd. by apply (open_once_effect r k info d fullA fullB).
  - by eapply in_suffix.
  - intros x h2 b2 [Hs2 He]. split; [by etrans|]. by apply (effect_after _ _ b1).
Qed.

Lemma open_body_effect r h b :
  targetNft r = t -> wallet r = w -> my = None ->
  wp OL (open_body cfg r) h b (fun x h' b' => h `suffix_of` h' /\ effect (opened r) b x h' b').
Proof using BNLaws0.
  intros Ht Hw Hmy. unfold open_body. rewrite Ht.
  apply wp_bind. unfold Async.lift. destruct (publicKey t) as [k|e] eqn:Ek; cbn [wp ret]; [|done].
  apply wp_bind. eapply wp_mono; [apply (position_seen J)|]. intros [[info|]|e] h1 b1 (Hs1 & Hb1 & Hr); [|done|done].
  destruct Hr as [Hr _].
  apply wp_bind. eapply wp_mono; [apply gives_always, always_firstReason, always_openFilters; apply _|].
  intros [[why|]|e] h2 b2 (Hs2 & Hb2 & _); [| |split; [by etrans|by eapply same_pm_trans]].
  - eapply wp_mono; [apply (quiet_effect _ (opened r))|].
    + intros h3 b3. eapply wp_mono; [apply (gives_bind _ _ (fun _ _ => True) (fun o _ => o = None))|]; [..|done].
      * apply gives_always. always_go.
      * intros u. by intros h4 b4.
    + intros x h3 b3 [Hs3 He]. split; [do 2 (etrans; [eassumption|]); done|].
      apply (effect_after _ _ b2); [by eapply same_pm_trans|done].
  - eapply wp_mono; [apply (open_funded_effect r k info); try done; by eapply in_suffix|].
    intros x h3 b3 [Hs3 He]. split; [do 2 (etrans; [eassumption|]); done|].
    apply (effect_after _ _ b2); [by eapply same_pm_trans|done].
Qed.

Lemma open_effect r h b :
  targetNft r = t -> wallet r = w -> my = None -> dryRun cfg = false ->
  wp OL (copyOpenPosition cfg r) h b (fun x h' b' => (exists o, x = Ret o) /\ effect (opened r) b x h' b').
Proof using BNLaws0.
  intros Ht Hw Hmy Hdry. unfold copyOpenPosition, openGuards. rewrite Hdry.
  assert (forall h1 b1, same_pm b b1 ->
    wp OL (let* got := acquire Byreal in
           if got then finally (catch (open_body cfg r) (openFailed r)) (do* release Byreal in spawn RefreshSolBalance)
           else ret None) h1 b1 (fun x h' b' => (exists o, x = Ret o) /\ effect (opened r) b x h' b')) as Hgo.
  { intros h1 b1 Hb1. unfold acquire. apply wp_bind, wp_bind. cbn [wp gets ret].
    destruct (busy_of Byreal b1); cbn [wp ret]; [by split; [eexists|]|].
    apply wp_bind. eapply wp_modify; [done|]. cbn [wp ret]. apply wp_finally.
    assert (same_pm b (on_executor Byreal (with_busy true) b1)) as Hb2.
    { unfold same_pm. by rewrite on_executor_positionMap. }
    assert (forall x h3 b3, (exists o, x = Ret o) -> effect (opened r) b x h3 b3 ->
      wp OL (do* release Byreal in spawn RefreshSolBalance) h3 b3
        (fun _ h' b' => (exists o, x = Ret o) /\ effect (opened r) b x h' b')) as Hrel.
    { intros x h3 b3 Hx He. apply wp_bind. eapply wp_modify; [done|]. cbn. split; [done|].
      destruct Hx as [[s|] ->]; cbn in *; [|done].
      eapply opened_mono; [|done]. by apply suffix_cons_r. }
    apply wp_catch. eapply wp_mono; [by apply open_body_effect|]. intros [o|e] h3 b3 [Hs3 He3].
    - apply Hrel; [by eexists|]. by eapply effect_after.
    - assert (same_pm b b3) as Hb3 by by eapply same_pm_trans.
      unfold openFailed. apply wp_bind. cbn [wp notify spawn ret]. destruct (mentions _ e); [|by apply Hrel; [eexists|]].
      apply wp_bind. intros now. apply wp_bind. eapply wp_modify; [done|]. apply wp_bind. cbn [wp gets ret].
      apply wp_bind. cbn [wp notify spawn ret]. apply Hrel; [by eexists|].
      unfold effect, same_pm in *. by rewrite on_executor_positionMap. }
  apply wp_bind, wp_bind. cbn [wp gets ret id]. destruct (truthy (PositionMap.get _ _)); cbn [wp ret negb]; [by split; [eexists|]|].
  destruct (_ && _); cbn [wp ret negb]; [by split; [eexists|]|].
  destruct (PositionMap.reached _); [|by apply Hgo].
  apply wp_bind. unfold set_lastSkipReason. eapply wp_modify; [done|]. cbn [wp ret negb]. split; [by eexists|].
  unfold effect, same_pm. by rewrite on_executor_positionMap.
Qed.

(** ** [copyIncreaseLiquidity] *)

Lemma bind_ret {A B} (a : A) (f : A -> P B) : Async.bind (Done (Ret a)) f = f a.
Proof using Type. done. Qed.

Abbreviation allowed := (CallRules.allowed J).

Lemma deposit_loop_allowed (E : Hist -> Prop) pool targetA targetB once attempt left balA balB :
  (forall h h', h `suffix_of` h' -> E h -> E h') ->
  (forall d, within (bn_val targetA) (bn_val targetB) (base d) (baseAmount d) (otherAmountMax d) -> allowed E (once d)) ->
  allowed E (deposit_loop cfg pool targetA targetB once attempt left balA balB).
Proof using BNLaws0.
  intros HE Honce. revert attempt balA balB.
  induction left as [|left IH]; intros attempt balA balB; cbn [deposit_loop]; [apply allowed_done|].
  apply allowed_bind; [done| |].
  { apply allowed_plain. always_go. }
  intros bals. unfold Async.lift. destruct (deposit targetA targetB bals.1 bals.2) as [d|e] eqn:Ed; [|apply allowed_done].
  rewrite bind_ret. apply allowed_bind; [done| |].
  - apply allowed_catch; [done| |].
    + apply allowed_bind; [done| |intros s; apply allowed_done]. apply Honce. by eapply deposit_within.
    + intros e. destruct (_ && _); apply allowed_done.
  - intros [s|]; [apply allowed_done|apply IH].
Qed.

Lemma delta_val full mine d : delta full mine = Ret d -> bn_val d = Z.max 0 (bn_val full - bn_val mine).
Proof using BNLaws0.
  unfold delta, zero. rewrite bn_gt_val. destruct (bn_val mine <? bn_val full) eqn:E.
  - intros [= <-]. rewrite bn_sub_val. apply Z.ltb_lt in E. lia.
  - destruct (bn_of_int_safe 0 eq_refl) as (z & -> & Hz). intros [= <-]. apply Z.ltb_ge in E. lia.
Qed.

Lemma zero_val z : zero = Ret z -> bn_val z = 0.
Proof using BNLaws0.
  unfold zero. destruct (bn_of_int_safe 0 eq_refl) as (z' & -> & Hz). by intros [= <-].
Qed.

(** What justifies adding to our position [n]. *)
Definition evidence (n k : string) (info : PositionInfo) (k' : string) (a b : Z) (h : Hist) : Prop :=
  publicKey n = Ret k' /\ publicKey t = Ret k /\ read k info h /\ held k' h a b.

Lemma evidence_mono n k info k' a b h h' : h `suffix_of` h' -> evidence n k info k' a b h -> evidence n k info k' a b h'.
Proof using Type.
  intros Hs (Hn & Hk & Hr & Hh). split_and!; [done|done|by eapply in_suffix|].
  destruct Hh as [(p & Hp & Hab)|[Hu Hab]]; [left; exists p; split; [by eapply in_suffix|done]|right; split; [by eapply unread_mono|done]].
Qed.

Lemma increase_once_allowed n k info fullA fullB k' a b d :
  my = Some n -> scaled w info fullA fullB ->
  within (Z.max 0 (bn_val fullA - a)) (Z.max 0 (bn_val fullB - b)) (base d) (baseAmount d) (otherAmountMax d) ->
  allowed (evidence n k info k' a b) (increase_once cfg t n d).
Proof using Type.
  intros Hmy Hsc Hwi. unfold increase_once.
  assert (forall h h', h `suffix_of` h' -> evidence n k info k' a b h -> evidence n k info k' a b h') as HE by apply evidence_mono.
  apply allowed_bind; [done| |intros s; apply allowed_plain; always_go].
  apply (allowed_send cfg J); [done|]. intros h0 b0 (Hn & Hk & Hr & Hh). apply wp_bind. unfold Async.lift. rewrite Hn. cbn [wp ret].
  split; [|intros r b1 _ _; by apply suffix_cons_r].
  exists n, k, info, fullA, fullB, a, b. done.
Qed.

Lemma increase_by_calls n k info h b0 :
  my = Some n -> publicKey t = Ret k -> read k info h ->
  wp OL (increase_by cfg t n w info) h b0 (fun _ _ _ => True).
Proof using BNLaws0.
  intros Hmy Hk Hr. unfold increase_by, Async.lift.
  apply wp_bind. destruct (Ratio.scaleAmount _ (amountA info) w) as [fullA|e] eqn:EA; cbn [wp ret]; [|done].
  apply wp_bind. destruct (Ratio.scaleAmount _ (amountB info) w) as [fullB|e] eqn:EB; cbn [wp ret]; [|done].
  apply wp_bind. destruct (publicKey n) as [k'|e] eqn:En; cbn [wp ret]; [|done].
  apply wp_bind. eapply wp_mono; [apply (position_seen J)|]. intros r h1 b1 (Hs1 & _ & Hseen). destruct r as [mine|e]; [|done].
  assert (forall a b myA myB, held k' h1 a b -> bn_val myA = a -> bn_val myB = b ->
    wp OL (let* targetA := Async.lift (delta fullA myA) in
           let* targetB := Async.lift (delta fullB myB) in
           if bn_isZero targetA && bn_isZero targetB then ret None
           else let* bals := fundBoth cfg false (rawPoolInfo info) targetA targetB in
             match bals with
             | None => ret None
             | Some (x, y) =>
                 deposit_loop cfg (rawPoolInfo info) targetA targetB (increase_once cfg t n) 0 MAX_INCREASE_ATTEMPTS x y
             end) h1 b1 (fun _ _ _ => True)) as Hmain.
  { intros a b myA myB Hheld Ha Hb. unfold Async.lift.
    apply wp_bind. destruct (delta fullA myA) as [targetA|e] eqn:EdA; cbn [wp ret]; [|done]. apply delta_val in EdA.
    apply wp_bind. destruct (delta fullB myB) as [targetB|e] eqn:EdB; cbn [wp ret]; [|done]. apply delta_val in EdB.
    destruct (_ && _); [done|].
    apply wp_bind. eapply wp_mono; [apply gives_always, always_fundBoth; apply _|].
    intros [[[x y]|]|e] h2 b2 (Hs2 & _ & _); [|done..].
    eapply wp_mono; [|done]. eapply (deposit_loop_allowed (evidence n k info k' a b)).
    - apply evidence_mono.
    - intros d Hd. eapply increase_once_allowed; [done|done|]. by rewrite <- Ha, <- Hb, <- EdA, <- EdB.
    - apply (evidence_mono _ _ _ _ _ _ h1); [done|]. split_and!; [done|done|by eapply in_suffix|done]. }
  apply wp_bind. destruct mine as [m|].
  - cbn [wp ret]. apply wp_bind. cbn [wp ret]. eapply Hmain; [left; exists m|done|done]. destruct Hseen as [Hseen _]. done.
  - unfold Async.lift. destruct zero as [z|e] eqn:Ez; cbn [wp ret]; [|done]. apply wp_bind. cbn [wp ret].
    apply zero_val in Ez. by eapply Hmain; [right|..].
Qed.

Lemma increase_calls n h b :
  my = Some n -> PositionMap.get t (positionMap b) = Some n ->
  wp OL (copyIncreaseLiquidity cfg t w) h b (fun _ _ _ => True).
Proof using BNLaws0.
  intros Hmy Hget. unfold copyIncreaseLiquidity, mapped. apply wp_bind. cbn [wp gets ret]. rewrite Hget.
  destruct (negb (truthy n)); [done|]. destruct (dryRun cfg); [done|].
  unfold locked, acquire. apply wp_bind, wp_bind. cbn [wp gets ret].
  destruct (busy_of Byreal b); cbn [wp ret]; [done|]. apply wp_bind. eapply wp_modify; [done|]. cbn [wp ret].
  apply wp_finally. apply (wp_mono _ _ _ _ (fun _ _ _ => True)); [|intros r h' b' _; by eapply wp_modify].
  apply wp_catch. apply (wp_mono _ _ _ _ (fun _ _ _ => True)); [|by intros [o|e]].
  unfold increase_body. apply wp_bind. unfold Async.lift. destruct (publicKey t) as [k|e] eqn:Ek; cbn [wp ret]; [|done].
  apply wp_bind. eapply wp_mono; [apply (position_seen J)|]. intros [[info|]|e] h1 b1 (Hs1 & _ & Hr); [|done|done].
  destruct Hr as [Hr _].
  apply wp_bind. eapply wp_mono; [apply gives_always, always_firstReason, always_increaseFilters; apply _|].
  intros [[why|]|e] h2 b2 (Hs2 & _ & _); [done| |done].
  apply (increase_by_calls n k); [done..|]. by eapply in_suffix.
Qed.

End Judged.
End Deposit.

(** ** Whether the position was sent *)

Section Sent.
Context `{L : BNLib} `{W : Web3} (cfg : Settings).

Abbreviation Hist := (list (HEvent Call Ans Task)).

Definition creates (c : Call) : bool := match c with CreatePositionInstructions _ _ _ _ _ _ => true | _ => false end.
Definition submits (c : Call) : bool := match c with SendTransaction _ => true | _ => false end.

(** The SDK was asked for a position. *)
Definition asked (h : Hist) : bool := existsb (fun e => match e with Called c _ => creates c | Spawned _ => false end) h.

(** A transaction was accepted. *)
Definition accepts (e : HEvent Call Ans Task) : bool :=
  match e with Called (SendTransaction _) (Ret _) => true | _ => false end.

(** A transaction was accepted after the SDK was first asked for a position;
    what is sent before then buys the tokens. *)
Fixpoint position_sent (h : Hist) : bool :=
  match h with
  | [] => false
  | e :: h' => accepts e && asked h' || position_sent h'
  end.

Abbreviation FL := (call_logic (fun _ _ => True) any_bot (fun _ _ => True)).

(** What an open stands at. *)
Definition stage (h : Hist) : bool * bool := (asked h, position_sent h).

Definition early (c : Call) : Prop := creates c = false.
Definition idle (c : Call) : Prop := creates c = false /\ submits c = false.
#[local] Instance reads_asking : Reads early.
Proof using Type. by intros []. Qed.
#[local] Instance writes_asking : Writes early.
Proof using Type. by_call. Qed.
#[local] Instance reads_idle : Reads idle.
Proof using Type. by intros []. Qed.

Lemma unasked_unsent h : asked h = false -> position_sent h = false.
Proof using Type.
  induction h as [|e h IH]; [done|]. cbn [asked existsb position_sent]. intros [_ Hh]%orb_false_iff. fold (asked h) in Hh.
  by rewrite Hh, andb_false_r, IH.
Qed.

(** Before the SDK is asked. *)
Lemma still_unasked {A} (p : P A) h b : always any_bot early p -> stage h = (false, false) ->
  wp FL p h b (fun _ h' _ => stage h' = (false, false)).
Proof using Type.
  unfold stage. intros Hp [= Ha _]. eapply wp_mono.
  - apply (always_keeps asked (fun _ _ => True) (fun _ _ => True) any_bot any_bot any_bot early); [|done].
    constructor; try done. intros h0 c r Hc. cbn. by rewrite Hc.
  - intros r h' b' [Hh _]. rewrite Ha in Hh. unfold stage. by rewrite Hh, unasked_unsent.
Qed.

(** While nothing is asked for or sent. *)
Lemma same_stage {A} (p : P A) h b : always any_bot idle p ->
  wp FL p h b (fun _ h' _ => stage h' = stage h).
Proof using Type.
  intros Hp. eapply wp_mono.
  - apply (always_keeps stage (fun _ _ => True) (fun _ _ => True) any_bot any_bot any_bot
      idle); [|done].
    constructor; try done. intros h0 c r [Hc Hs]. unfold stage. cbn. rewrite Hc. by destruct c.
  - by intros r h' b' [Hh _].
Qed.

(** A signature stands for the position, anything else for none. *)
Definition told (r : outcome (option string)) (h : Hist) : Prop :=
  position_sent h = match r with Ret (Some _) => true | _ => false end.

Lemma signAndSend_stage tx h b : stage h = (true, false) ->
  wp FL (signAndSend tx) h b (fun r h' _ => stage h' = (true, match r with Ret _ => true | Throw _ => false end)).
Proof using Type.
  unfold stage. intros [= Ha Hs]. unfold signAndSend. apply wp_bind. split; [done|]. intros [signed|e] b1 _ _; [|by rewrite <- Ha, <- Hs].
  split; [done|]. intros [s|e] b2 _ _; [|by rewrite <- Ha, <- Hs].
  assert (asked (Called (SignerCallback tx) (Ret signed) :: h) = true) as Ha1 by done.
  f_equal; [done|]. change (asked (Called (SignerCallback tx) (Ret signed) :: h) || position_sent (Called (SignerCallback tx) (Ret signed) :: h) = true). by rewrite Ha1.
Qed.

Lemma retry_stage (fn : P string) h b :
  (forall h b, stage h = (true, false) -> wp FL fn h b (fun r h' _ => stage h' = (true, match r with Ret _ => true | Throw _ => false end))) ->
  stage h = (true, false) ->
  wp FL (retryOnTransient fn) h b (fun r h' _ => stage h' = (true, match r with Ret _ => true | Throw _ => false end)).
Proof using Type.
  intros Hf. unfold retryOnTransient. generalize 0. generalize 3%nat as left.
  intros left. revert h b. induction left as [|left IH]; intros h b k Hh; cbn [retry_loop]; [done|].
  apply wp_catch. eapply wp_mono; [by apply Hf|]. intros [a|e] h1 b1 Hs; [done|].
  destruct (_ && _); [|done]. apply wp_bind. eapply wp_mono; [apply same_stage; always_go|].
  intros [u|e'] h2 b2 H2; [apply IH; by rewrite H2|by rewrite H2].
Qed.

(** What is done after the sending neither throws nor sends. *)
Definition harmless (p : P unit) : Prop := forall h b, wp FL p h b (fun x h' _ => x = Ret tt /\ stage h' = stage h).

Lemma harmless_bind p q : harmless p -> harmless q -> harmless (do* p in q).
Proof using Type.
  intros Hp Hq h b. apply wp_bind. eapply wp_mono; [apply Hp|]. intros x h1 b1 [-> H1].
  eapply wp_mono; [apply Hq|]. intros y h2 b2 [Hy H2]. by rewrite H2.
Qed.

Lemma harmless_then {A} p (q : P A) h b Q :
  harmless p -> (forall h1 b1, stage h1 = stage h -> wp FL q h1 b1 Q) -> wp FL (do* p in q) h b Q.
Proof using Type.
  intros Hp Hq. apply wp_bind. eapply wp_mono; [apply Hp|]. intros x h1 b1 [-> H1]. by apply Hq.
Qed.

Lemma harmless_modify f : harmless (modify f).
Proof using Type. intros h b. by eapply wp_modify. Qed.
Lemma harmless_clock k : (forall t, harmless (k t)) -> harmless (let* t := clock in k t).
Proof using Type. intros Hk h b. apply wp_bind. intros t. apply Hk. Qed.

Lemma harmless_saveMapping r info nft : harmless (saveMapping r info nft).
Proof using Type.
  unfold saveMapping, on_positionMap. apply harmless_clock; intros now. apply harmless_clock; intros dbnow.
  repeat (apply harmless_bind; [apply harmless_modify|]). apply harmless_modify.
Qed.

Lemma harmless_addReferer r nft : harmless (addReferer r nft).
Proof using Type.
  unfold addReferer. destruct (truthy _); [|by intros h b]. apply harmless_clock. intros now. apply harmless_modify.
Qed.

Lemma harmless_confirm s : harmless (confirmBestEffort s).
Proof using Type.
  intros h b. unfold confirmBestEffort. apply wp_catch. eapply wp_mono; [apply same_stage; always_go|].
  by intros [[]|e] h1 b1 H1.
Qed.

Lemma open_once_told r info d h b : position_sent h = false ->
  wp FL (open_once cfg r info d) h b (fun x h' _ => told (match x with Ret s => Ret (Some s) | Throw e => Throw e end) h').
Proof using Type.
  intros Hh. unfold open_once. apply wp_bind. split; [done|]. set (c := CreatePositionInstructions _ _ _ _ _ _). intros a b1 _ _.
  assert (stage (Called c a :: h) = (true, false)) as Hs by (unfold stage; by rewrite <- Hh).
  destruct a as [created|e]; [|by injection Hs].
  apply wp_bind. eapply wp_mono; [apply retry_stage; [|exact Hs]|].
  { clear. intros h b H1. apply wp_bind. eapply wp_mono; [apply same_stage; always_go|].
    intros [tx|e] h2 b3 H2; [apply signAndSend_stage; by rewrite H2|by rewrite H2]. }
  intros [s|e] h1 b2 H1; [|by injection H1].
  assert (stage h1 = (true, true)) as Hsent by done. clear H1 Hs Hh.
  apply harmless_then; [destruct (truthy _); [apply harmless_saveMapping|by intros h2 b3]|]. intros h2 b3 H2.
  apply harmless_then; [apply harmless_addReferer|]. intros h3 b4 H3.
  apply harmless_then; [apply harmless_confirm|]. intros h4 b5 H4.
  rewrite <- H2, <- H3, <- H4 in Hsent. by injection Hsent.
Qed.

Lemma deposit_loop_told pool ta tb once attempt left a b0 h b :
  (forall d h b, position_sent h = false ->
     wp FL (once d) h b (fun x h' _ => told (match x with Ret s => Ret (Some s) | Throw e => Throw e end) h')) ->
  position_sent h = false ->
  wp FL (deposit_loop cfg pool ta tb once attempt left a b0) h b (fun x h' _ => told x h').
Proof using Type.
  intros Honce. revert attempt a b0 h b. induction left as [|left IH]; intros attempt a b0 h b Hh; cbn [deposit_loop]; [done|].
  apply wp_bind. eapply wp_mono; [apply same_stage; destruct (0 <? attempt); always_go|].
  intros [bals|e] h1 b1 [= _ H1]; rewrite Hh in H1; [|done].
  apply wp_bind. unfold Async.lift. destruct (deposit ta tb _ _) as [d|e]; cbn [wp ret]; [|done].
  apply wp_bind, wp_catch, wp_bind. eapply wp_mono; [by apply Honce|]. intros [s|e] h2 b2 H2; cbn [wp ret]; [done|].
  destruct (_ && _); cbn [wp ret throw]; [by apply IH|done].
Qed.

Lemma open_body_told r h b : stage h = (false, false) -> wp FL (open_body cfg r) h b (fun x h' _ => told x h').
Proof using Type.
  intros Hh. unfold open_body. apply wp_bind. unfold Async.lift. destruct (publicKey _) as [k|e]; cbn [wp ret]; [|by injection Hh].
  apply wp_bind. eapply wp_mono; [apply still_unasked; [always_go|done]|].
  intros [[info|]|e] h1 b1 H1; [|by injection H1..].
  apply wp_bind. eapply wp_mono; [apply still_unasked; [apply always_firstReason, always_openFilters; apply _|done]|].
  intros [[why|]|e] h2 b2 H2; [| |by injection H2].
  - unfold set_lastSkipReason. apply wp_bind. eapply wp_modify; [done|]. by injection H2.
  - unfold open_funded. apply wp_bind. unfold Async.lift. destruct (Ratio.scaleAmount _ (amountA info) _) as [ta|e]; cbn [wp ret]; [|by injection H2].
    apply wp_bind. destruct (Ratio.scaleAmount _ (amountB info) _) as [tb|e]; cbn [wp ret]; [|by injection H2].
    apply wp_bind. eapply wp_mono; [apply still_unasked; [apply always_fundBoth; apply _|done]|].
    intros [[[a b0]|]|e] h3 b3 [= _ H3]; [|done|done].
    apply deposit_loop_told; [|done]. intros d h4 b4. apply open_once_told.
Qed.

(** Whatever comes after the lock is let go: one more refresh. *)
Lemma told_sent r h b : dryRun cfg = false -> stage h = (false, false) ->
  wp FL (copyOpenPosition cfg r) h b (fun x h' _ => told x h').
Proof using Type.
  intros Hdry Hh. unfold copyOpenPosition. apply wp_bind.
  eapply wp_mono; [apply still_unasked; [unfold openGuards; always_go|done]|].
  intros [go|e] h1 b1 H1; [|by injection H1]. destruct (negb go); [by injection H1|]. rewrite Hdry.
  unfold acquire. apply wp_bind, wp_bind. cbn [wp gets ret]. destruct (busy_of Byreal b1); cbn [wp ret]; [by injection H1|].
  apply wp_bind. eapply wp_modify; [done|]. cbn [wp ret]. apply wp_finally.
  apply (wp_mono _ _ _ _ (fun x h' _ => told x h')).
  2:{ intros x h2 b2 H2. apply wp_bind. eapply wp_modify; [done|]. destruct x; exact H2. }
  apply wp_catch. eapply wp_mono; [by apply open_body_told|]. intros [o|e] h2 b2 H2; [done|].
  unfold openFailed. apply wp_bind. cbn [wp notify spawn ret]. destruct (mentions _ e); [|exact H2].
  apply wp_bind. intros now. apply wp_bind. eapply wp_modify; [done|]. apply wp_bind. cbn [wp gets ret].
  apply wp_bind. cbn [wp notify spawn ret]. exact H2.
Qed.
End Sent.

(** C7: An open deposits at most the target's scaled amounts, in the target's own
    range, and records what was sent.  Whatever the chain, SDK, signer and
    Jupiter answer, with others changing anything but the map: every position
    the SDK is asked to create has the pool and ticks of the target as it was
    read and amounts within the target's scaled ones; the call never throws; it
    answers a signature exactly when a transaction was accepted after the SDK
    was asked for a position (what is accepted before then buys the tokens), so
    that nothing is sent and then forgotten; when it answers null the map is as
    it was, and when it answers a signature a transaction was accepted under it
    and the map gained exactly the position the SDK created, with the target's
    pool, ticks and liquidity (nothing, when the SDK gave it no address). *)
Theorem open_deposits_within `{L : BNLib} `{W : Web3} `{!BNLaws L} (cfg : Settings) r env k b :
  dryRun cfg = false -> (forall n c b, readable c (answer env n c b).1) -> others_keep_map env ->
  let x := run env k [] (copyOpenPosition cfg r) b in
  each_call (bounded cfg (targetNft r) None (wallet r)) (hist x)
  /\ (exists o, res x = Ret o)
  /\ (position_sent (hist x) = true <-> exists s, res x = Ret (Some s))
  /\ effect (opened r) b (res x) (hist x) (final x).
Proof.
  intros Hdry Hread Henv.
  assert (let x := run env k [] (copyOpenPosition cfg r) b in told (res x) (hist x)) as Htold.
  { apply (calls_run (copyOpenPosition cfg r) (fun _ _ => True) any_bot (fun _ _ => True) env k [] b (fun x h' _ => told x h')); [done..|].
    by apply told_sent. }
  destruct (calls_run (copyOpenPosition cfg r) (bounded cfg (targetNft r) None (wallet r)) same_pm readable env k [] b
              (fun x h' b' => (exists o, x = Ret o) /\ effect (opened r) b x h' b')) as (Hc & Ho & He); [done..|by apply open_effect|].
  split_and!; [done..| |done]. unfold told in Htold. rewrite Htold.
  destruct Ho as [[s|] ->]; [split; [by eexists|done]|by split; [|intros [? ?]]].
Qed.

(** An increase adds at most what our position lacks: every amount it asks the
    SDK to add is within the target's scaled amount less what our position held
    when it was read, and nothing is opened, taken out or collected. *)
Theorem increase_adds_what_is_missing `{L : BNLib} `{W : Web3} `{!BNLaws L} (cfg : Settings) t my w env k b :
  PositionMap.get t (positionMap b) = Some my ->
  (forall n c b, readable c (answer env n c b).1) -> others_keep_map env ->
  each_call (bounded cfg t (Some my) w) (hist (run env k [] (copyIncreaseLiquidity cfg t w) b)).
Proof.
  intros Hmy Hread Henv.
  apply (calls_run (copyIncreaseLiquidity cfg t w) _ same_pm readable env k [] b (fun _ _ _ => True)); [done..|].
  by eapply increase_calls.
Qed.

(** ** Concrete runs *)

(** The target holds 700 and 300, we hold 200 and 300. *)
Definition both_read (n : string) : option (PositionInfo (L := Z_BN)) :=
  Some (demo_position 10 (if bool_decide (n = "Target"%string) then 700 else 200) 300).
Definition demo_request : OpenRequest := mkOpenRequest "Target" "Pool" None (Some "Wallet"%string).

Definition demo_open := run (demo_env (Ret "Sig"%string) both_read) 0 []
  (copyOpenPosition (L := Z_BN) (W := demo_web3) demo_settings demo_request) (fresh PositionMap.new).
Definition demo_increase := run (demo_env (Ret "Sig"%string) both_read) 0 []
  (copyIncreaseLiquidity (L := Z_BN) (W := demo_web3) demo_settings "Target" None) demo_bot.

Definition added (h : list (HEvent (Call (L := Z_BN)) (Ans (L := Z_BN)) Task)) : list (Base * Z * Z) :=
  omap (fun e => match e with Called (AddLiquidityInstructions _ bs a o) _ => Some (bs, a, o) | _ => None end) h.

Lemma both_readable n c b : readable c (answer (demo_env (Ret "Sig"%string) both_read) n c b).1.
Proof. apply demo_readable. by intros k p [= <-]. Qed.

Lemma open_deposits_within_witness :
  res demo_open = Ret (Some "Sig"%string)
  /\ PositionMap.get "Target" (positionMap (final demo_open)) = Some "OurNft"%string
  /\ position_sent (hist demo_open) = true
  /\ effect (opened (W := demo_web3) demo_request) (fresh PositionMap.new) (res demo_open) (hist demo_open) (final demo_open).
Proof.
  do 3 (split; [by vm_compute|]). pose proof Z_BN_laws as HL.
  apply (open_deposits_within (W := demo_web3) demo_settings demo_request
           (demo_env (Ret "Sig"%string) both_read) 0 (fresh PositionMap.new)); [done|apply both_readable|done].
Defined.

Lemma increase_adds_what_is_missing_witness :
  res demo_increase = Ret (Some "Sig"%string)
  /\ added (hist demo_increase) = [(MintA, 500, 0)]
  /\ each_call (bounded (W := demo_web3) demo_settings "Target" (Some "OurNft"%string) None) (hist demo_increase).
Proof.
  split; [by vm_compute|]. split; [by vm_compute|]. pose proof Z_BN_laws as HL.
  apply (increase_adds_what_is_missing (W := demo_web3)); [by vm_compute|apply both_readable|done].
Defined.

End ByrealDeposit.
