(* ===== verification/ByrealSale.v ===== *)
(** * What a sale may sell

    [swapTokenToUSDC] asks Jupiter only for amounts it read in the wallet: above
    the dust limit, within the balance and within the positive cap it was given,
    from the mint it was given into USDC. *)

From S2P Require Import Prelude JsMap JsString JsNumber Json Async Ratio TxTypes WriteChain PositionMap Store Stores Risk PumpPending ActivityLog State Chain JupiterSwap MarketData ByrealOps ByrealOpen Reconcile Discipline ByrealClose CallRules.
Open Scope Z_scope.
Open Scope list_scope.
Open Scope prog_scope.

Module ByrealSale.
Import Async State Chain JupiterSwap ByrealOps Discipline ByrealClose CallRules.

Section Sale.
Context `{L : BNLib} `{W : Web3} (cfg : Settings).

Abbreviation Hist := (list (HEvent Call Ans Task)).

(** The wallet's balance of a mint was read under one of the token programs. *)
Definition balance_read (m : string) (bal : BN) (h : Hist) : Prop :=
  exists program account raw,
    program ∈ [TOKEN_PROGRAM_ID; TOKEN_2022_PROGRAM_ID]
    /\ getAssociatedTokenAddressSync m (userAddress cfg) program = Ret account
    /\ Called (GetTokenAccountBalance account) (Ret raw) ∈ h /\ bn_of_string raw = Ret bal.

(** An amount that may be sold. *)
Definition sellable (m : string) (cap : option string) (z : Z) (h : Hist) : Prop :=
  exists bal, balance_read m bal h /\ 1000 < z <= bn_val bal
    /\ forall c limit, cap = Some c -> c <> ""%string -> bn_of_string c = Ret limit -> 0 < bn_val limit -> z <= bn_val limit.

(** Requests with an amount are for a sellable amount of the mint into USDC;
    nothing else is swapped, and no position is touched. *)
Definition sale_call (m : string) (cap : option string) (h : Hist) (c : Call) : Prop :=
  match c with
  | Fetch u _ _ _ =>
      forall a, jget "amount" (u_params u) = Some a ->
        jget "inputMint" (u_params u) = Some m /\ jget "outputMint" (u_params u) = Some USDC
        /\ exists z, a = Z_toString z /\ sellable m cap z h
  | QuoteSwapExactOut _ _ _ _ | SwapExactOut _ _ => False
  | c => builds c = false
  end.

Section Judged.
Context (m : string) (cap : option string) `{!BNLaws L}.
Abbreviation J := (sale_call m cap).
Abbreviation SL := (call_logic J same_pm readable).
Abbreviation allowed := (CallRules.allowed J).

(** The calls of one swap of [amount]. *)
Definition swap_call (amount : string) (c : Call) : Prop :=
  match c with
  | Fetch u _ _ _ =>
      u_params u = []
      \/ jget "amount" (u_params u) = Some amount
         /\ jget "inputMint" (u_params u) = Some m /\ jget "outputMint" (u_params u) = Some USDC
  | QuoteSwapExactOut _ _ _ _ | SwapExactOut _ _ => False
  | c => builds c = false
  end.

Lemma swap_fetch amount u me h body : swap_call amount (Fetch u me h body) -> always any_bot (swap_call amount) (Chain.await (Fetch u me h body)).
Proof using Type. intros Hc. refine (always_await any_bot _ _ _). exact Hc. Qed.

Lemma swap_send amount tx left : always any_bot (swap_call amount) (send_loop tx left).
Proof using Type. induction left as [|left IH]; cbn [send_loop]; unfold send_once, sleep; always_go. Qed.

Lemma swap_output amount sig mint_ who attempt left : always any_bot (swap_call amount) (output_loop sig mint_ who attempt left).
Proof using Type.
  revert attempt. induction left as [|left IH]; intros attempt; cbn [output_loop]; unfold sleep; always_go.
Qed.

Hint Resolve swap_send swap_output : always.

Lemma swap_json amount label res : always any_bot (swap_call amount) (json_or_throw label res).
Proof using Type. unfold json_or_throw. always_go. Qed.
Lemma swap_failWith {A} amount p e : always any_bot (swap_call amount) (failWith (A := A) p e).
Proof using Type. unfold failWith, set_lastSwapError. always_go. Qed.
Hint Resolve swap_json swap_failWith : always.

Lemma swap_quote amount : always any_bot (swap_call amount) (try_quote cfg "Metis quote: " "Quote" m USDC amount).
Proof using Type.
  unfold try_quote, request_quote, jupiterFetch.
  apply always_catch; [|intros; apply swap_failWith]. apply always_bind; [|always_go].
  apply always_bind; [apply swap_fetch; right; repeat split|always_go].
Qed.

Lemma swap_metis amount q : always any_bot (swap_call amount) (buildAndSendMetis cfg q).
Proof using Type.
  unfold buildAndSendMetis, jupiterFetch, sendWithRetry, invalidateHoldingsCache, set_holdings. apply always_bind.
  - apply always_catch; [|intros; apply swap_failWith]. apply always_bind; [|always_go].
    apply swap_fetch. by left.
  - always_go.
Qed.

Lemma swap_order amount : always any_bot (swap_call amount) (request_order cfg m USDC amount).
Proof using Type.
  unfold request_order. apply always_catch; [|intros; apply swap_failWith].
  apply always_bind; [apply swap_fetch; right; repeat split|always_go].
Qed.

Lemma swap_execute amount t r : always any_bot (swap_call amount) (execute_order cfg t r).
Proof using Type.
  unfold execute_order, invalidateHoldingsCache, set_holdings. apply always_catch; [|intros; apply swap_failWith].
  apply always_bind; [always_go|]. intros tx. apply always_bind; [always_go|]. intros signed. apply always_bind; [always_go|].
  intros signedTx. apply always_bind; [apply swap_fetch; by left|always_go].
Qed.

Lemma swap_calls amount : always any_bot (swap_call amount) (jupSwapExactIn cfg m USDC amount).
Proof using Type.
  unfold jupSwapExactIn, ultraSwap, metisSwap. pose proof swap_quote. pose proof swap_metis. pose proof swap_order.
  pose proof swap_execute. always_go.
Qed.

Lemma sell_calls amount : always any_bot (swap_call amount) (sell cfg m amount).
Proof using Type. unfold sell, getActualSwapOutput. pose proof swap_calls. always_go. Qed.

(** ** The balance *)

Hypothesis canonical : forall s k, publicKey s = Ret k -> k = s.

Lemma balance_under_read program h b :
  m <> NATIVE_MINT -> program ∈ [TOKEN_PROGRAM_ID; TOKEN_2022_PROGRAM_ID] ->
  wp SL (balance_under cfg m program) h b
    (fun r h' _ => h `suffix_of` h' /\ match r with Ret bal => balance_read m bal h' | Throw _ => True end).
Proof using Type.
  intros Hm Hp. unfold balance_under, Async.lift. rewrite bool_decide_eq_false_2 by done.
  apply wp_bind. destruct (getAssociatedTokenAddressSync _ _ _) as [acc|e] eqn:Ea; cbn [wp ret]; [|done].
  apply wp_bind. split; [done|]. intros r b' _ _. cbn [wp].
  assert (h `suffix_of` Called (GetTokenAccountBalance acc) r :: h) as Hs by by apply suffix_cons_r.
  destruct r as [raw|e]; [|done]. apply wp_bind. destruct (bn_of_string raw) as [bal|e] eqn:Eb; cbn [wp ret]; [|done].
  split; [done|]. exists program, acc, raw. split_and!; [done|done|by left|done].
Qed.

Lemma zero_val0 z : zero = Ret z -> bn_val z = 0.
Proof using BNLaws0. unfold zero. destruct (bn_of_int_safe 0 eq_refl) as (z' & -> & Hz). by intros [= <-]. Qed.

Lemma balance_seen h b :
  m <> NATIVE_MINT ->
  wp SL (getTokenBalance cfg m) h b
    (fun r h' _ => h `suffix_of` h' /\ match r with Ret bal => bn_val bal = 0 \/ balance_read m bal h' | Throw _ => True end).
Proof using BNLaws0.
  intros Hm. unfold getTokenBalance. rewrite bool_decide_eq_false_2 by done.
  apply wp_catch. eapply wp_mono; [apply balance_under_read; [done|left]|].
  intros [bal|e] h1 b1 [Hs1 Hr]; [split; [done|by right]|].
  apply wp_catch. eapply wp_mono; [apply balance_under_read; [done|right; left]|].
  intros [bal|e'] h2 b2 [Hs2 Hr2]; [split; [by etrans|by right]|].
  unfold Async.lift. destruct zero as [z|e0] eqn:Ez; cbn [wp ret]; (split; [by etrans|]); [|done].
  left. by apply zero_val0.
Qed.

Lemma dust_val d : dust = Ret d -> bn_val d = 1000.
Proof using BNLaws0. unfold dust. destruct (bn_of_int_safe 1000 eq_refl) as (z' & -> & Hz). by intros [= <-]. Qed.

(** The cap is respected. *)
Lemma capped_val bal amount :
  capped bal cap = Ret amount ->
  bn_val amount <= bn_val bal
  /\ forall c limit, cap = Some c -> c <> ""%string -> bn_of_string c = Ret limit -> 0 < bn_val limit -> bn_val amount <= bn_val limit.
Proof using BNLaws0.
  unfold capped. destruct cap as [c|]; [|by intros [= ->]].
  destruct (truthy (Some c)) eqn:Et.
  - simpl. destruct (bn_of_string c) as [limit|e] eqn:Ec; [|done].
    pose proof (zero_val0) as Hz. unfold zero in *. simpl. destruct (bn_of_int (Some 0)) as [z|e]; [|done].
    specialize (Hz z eq_refl). simpl. rewrite bn_gt_val, bn_lt_val, Hz.
    destruct (0 <? bn_val limit) eqn:E0; simpl.
    + destruct (bn_val limit <? bn_val bal) eqn:E1; intros [= <-].
      * apply Z.ltb_lt in E1. split; [lia|]. intros c' l [= <-] _ Hl _. rewrite Ec in Hl. injection Hl as <-. lia.
      * apply Z.ltb_ge in E1. split; [lia|]. intros c' l [= <-] _ Hl _. rewrite Ec in Hl. injection Hl as <-. lia.
    + intros [= <-]. apply Z.ltb_ge in E0. split; [lia|]. intros c' l [= <-] _ Hl Hpos. rewrite Ec in Hl. injection Hl as <-. lia.
  - intros [= <-]. split; [lia|]. intros c' l [= <-] Hne. by destruct c.
Qed.

Lemma sale_allowed h b : wp SL (swapTokenToUSDC cfg m cap) h b (fun _ _ _ => True).
Proof using All.
  unfold swapTokenToUSDC. destruct (shas m SKIP_MINTS) eqn:Esk; [done|].
  assert (m <> NATIVE_MINT) as Hm by (intros ->; by vm_compute in Esk).
  unfold Async.lift. apply wp_bind. destruct (publicKey m) as [k|e] eqn:Ek; cbn [wp ret]; [|done].
  apply canonical in Ek as ->.
  apply wp_bind. eapply wp_mono; [by apply balance_seen|]. intros [bal|e] h1 b1 [_ Hbal]; [|done].
  apply wp_bind. destruct dust as [d|e] eqn:Ed; cbn [wp ret]; [|done]. apply dust_val in Ed.
  rewrite bn_lte_val, Ed. destruct (bn_val bal <=? 1000) eqn:E1; [done|]. apply Z.leb_gt in E1.
  destruct Hbal as [?|Hbal]; [lia|].
  apply wp_bind. destruct (capped bal cap) as [amount|e] eqn:Ec; cbn [wp ret]; [|done].
  rewrite bn_lte_val, Ed. destruct (bn_val amount <=? 1000) eqn:E2; [done|]. apply Z.leb_gt in E2.
  destruct (dryRun cfg); [done|].
  apply capped_val in Ec as [Hle Hcap].
  eapply wp_mono; [apply (allowed_locked J (sellable m cap (bn_val amount)))|done].
  - apply (allowed_always J _ (swap_call (bn_toString amount))); [| |apply sell_calls].
    + intros h2 h3 Hs (bal' & (p & acc & raw & Hp & Ha & Hr & Hb) & H). exists bal'. split; [|done].
      exists p, acc, raw. split_and!; [done|done|by eapply in_suffix|done].
    + intros h2 c Hsell Hc. destruct c; try done. simpl in *. intros a Ha. destruct Hc as [Hnil|(Ham & Hi & Ho)].
      * by rewrite Hnil in Ha.
      * split; [done|]. split; [done|]. exists (bn_val amount). split; [|done]. rewrite Ham in Ha. injection Ha as <-. apply bn_toString_val.
  - exists bal. split_and!; [done|lia|lia|done].
Qed.

End Judged.
End Sale.

(** C11: A sale sells what the wallet holds, no more than it was told, and no dust.
    Whatever Jupiter and the chain answer and whatever other activations do,
    every quote or order [swapTokenToUSDC] requests is for the given mint into
    USDC and for an amount above 1000 that is within the balance the wallet was
    read to have and within the cap, when a positive one is given; it swaps by no
    other way and touches no position.  (A base58 key prints as it was parsed.) *)
Theorem sale_within_balance_and_cap `{L : BNLib} `{W : Web3} `{!BNLaws L} (cfg : Settings) m cap env k b :
  (forall s k, publicKey s = Ret k -> k = s) ->
  (forall n c b, readable c (answer env n c b).1) -> others_keep_map env ->
  each_call (sale_call cfg m cap) (hist (run env k [] (swapTokenToUSDC cfg m cap) b)).
Proof.
  intros Hk Hread Henv.
  apply (calls_run (swapTokenToUSDC cfg m cap) _ same_pm readable env k [] b (fun _ _ _ => True)); [done..|].
  by apply sale_allowed.
Qed.

(** The wallet holds 5000, the cap is 1500: one quote for 1500. *)
Definition asked (h : list (HEvent (Call (L := Z_BN)) (Ans (L := Z_BN)) Task)) : list (option string) :=
  omap (fun e => match e with Called (Fetch u _ _ _) _ => Some (jget "amount" (u_params u)) | _ => None end) h.

Lemma sale_within_balance_and_cap_witness :
  let env := demo_env (Ret "Sig"%string) (fun _ => None) in
  let x := run env 0 [] (swapTokenToUSDC (L := Z_BN) (W := demo_web3) demo_settings "MINT" (Some "1500"%string))
             (fresh PositionMap.new) in
  asked (hist x) = [Some "1500"%string]
  /\ each_call (sale_call (W := demo_web3) demo_settings "MINT" (Some "1500"%string)) (hist x).
Proof.
  cbv zeta. split; [by vm_compute|]. pose proof Z_BN_laws as HL.
  apply (sale_within_balance_and_cap (W := demo_web3)); [by intros s k [= <-]| |done].
  apply demo_readable. by intros n p [=].
Defined.

End ByrealSale.
