(* ===== verification/ReconcileScan.v ===== *)
(** * What the scan for orphans may forget and close

    [enqueueReconcile] against a chain that answers as it likes: it forgets a
    mapping only when both sides were seen gone, and queues a close only when
    the target was seen gone and our position seen open. *)

From S2P Require Import Prelude JsMap JsString JsNumber Json Async Ratio TxTypes WriteChain PositionMap Store Stores Risk PumpPending ActivityLog State Chain JupiterSwap MarketData ByrealOps ByrealOpen Reconcile Discipline ByrealClose CallRules.
Open Scope Z_scope.
Open Scope list_scope.
Open Scope prog_scope.

Module ReconcileScan.
Import Async State Chain Reconcile ByrealClose CallRules.

Section Scan.
Context `{L : BNLib} `{W : Web3} (cfg : Settings).

Abbreviation Hist := (list (HEvent Call Ans Task)).
Abbreviation RL := (hist_logic (fun (_ : Hist) (_ _ : Bot) => True) same_pm (fun _ _ => True)).

(** An error that says the position is not there. *)
Definition says_gone (e : string) : Prop := isTransientError e = false /\ isPositionGoneError e = true.

Definition nothing (r : outcome (option PositionInfo)) : Prop :=
  match r with
  | Ret None => True
  | Ret (Some p) => bn_isZero (i_liquidity p) = true
  | Throw e => says_gone e
  end.

(** The position was asked for, and is gone: null, empty or not found. *)
Definition gone (nft : string) (h : Hist) : Prop :=
  (exists e, publicKey nft = Throw e /\ says_gone e)
  \/ exists k r, publicKey nft = Ret k /\ Called (GetPositionInfoByNftMint k) r ∈ h /\ nothing r.

Definition open (nft : string) (h : Hist) : Prop :=
  exists k p, publicKey nft = Ret k /\ Called (GetPositionInfoByNftMint k) (Ret (Some p)) ∈ h
    /\ bn_isZero (i_liquidity p) = false.

Lemma scan_gone_mono nft h h' : h `suffix_of` h' -> gone nft h -> gone nft h'.
Proof using Type.
  intros Hs [He|(k & r & Hk & Hr & Hn)]; [by left|right]. exists k, r. split_and!; [done|by eapply in_suffix|done].
Qed.

Lemma open_mono nft h h' : h `suffix_of` h' -> open nft h -> open nft h'.
Proof using Type. intros Hs (k & p & Hk & Hp & Hz). exists k, p. split_and!; [done|by eapply in_suffix|done]. Qed.

(** The map still has every position, except those gone on both sides. *)
Definition kept (pm : PositionMap.t) (h : Hist) (pm' : PositionMap.t) : Prop :=
  wf_map (PositionMap.map_ pm')
  /\ forall t, PositionMap.get t pm' = PositionMap.get t pm
       \/ PositionMap.get t pm' = None /\ exists our, PositionMap.get t pm = Some our /\ gone t h /\ gone our h.

Lemma kept_mono pm h h' pm' : h `suffix_of` h' -> kept pm h pm' -> kept pm h' pm'.
Proof using Type.
  intros Hs [Hw Hk]. split; [done|]. intros t. destruct (Hk t) as [?|(Hn & our & Ho & H1 & H2)]; [by left|right].
  split; [done|]. exists our. split_and!; [done|by eapply scan_gone_mono..].
Qed.

Lemma kept_setDex pm h pm' t d : kept pm h pm' -> kept pm h (PositionMap.setDex t d pm').
Proof using Type.
  intros [Hw Hk]. unfold PositionMap.setDex, PositionMap.update.
  destruct (jget t (PositionMap.map_ pm')) as [e|] eqn:E; [|done]. unfold PositionMap.queue. split; [by apply wf_jset|].
  intros t'. specialize (Hk t'). unfold PositionMap.get in *. simpl. destruct (decide (t = t')) as [<-|Hne].
  - rewrite jget_jset. by rewrite E in Hk.
  - by rewrite jget_jset_ne.
Qed.

Lemma kept_delete pm h pm' t our :
  kept pm h pm' -> PositionMap.get t pm = Some our -> gone t h -> gone our h -> kept pm h (PositionMap.delete t pm').
Proof using Type.
  intros [Hw Hk] Hget H1 H2. unfold PositionMap.delete, PositionMap.queue. split; [by apply wf_jdel|]. intros t'.
  destruct (decide (t = t')) as [<-|Hne].
  - right. split; [|by exists our]. unfold PositionMap.get. simpl. by rewrite jget_jdel.
  - unfold PositionMap.get in *. simpl. rewrite jget_jdel_ne by done. apply Hk.
Qed.

(** The history grew by calls alone. *)
Definition more (h h' : Hist) : Prop :=
  exists k, h' = k ++ h /\ Forall (fun e => match e with Called _ _ => True | Spawned _ => False end) k.

Lemma more_refl h : more h h.
Proof using Type. by exists []. Qed.
Lemma more_trans h1 h2 h3 : more h1 h2 -> more h2 h3 -> more h1 h3.
Proof using Type.
  intros (k1 & -> & H1) (k2 & -> & H2). exists (k2 ++ k1). split; [by rewrite app_assoc|by apply list.Forall_app].
Qed.
Lemma more_call h c r : more h (Called c r :: h).
Proof using Type. exists [Called c r]. split; [done|by repeat constructor]. Qed.
Lemma more_suffix h h' : more h h' -> h `suffix_of` h'.
Proof using Type. intros (k & -> & _). by exists k. Qed.

(** A part of the scan: it adds calls, keeps the map but for positions gone on
    both sides, and answers what [Q] says. *)
Definition scans {A} (pm : PositionMap.t) (E : Hist -> Prop) (p : P A) (Q : outcome A -> Hist -> Prop) : Prop :=
  forall h b, E h -> kept pm h (positionMap b) ->
    wp RL p h b (fun r h' b' => more h h' /\ kept pm h' (positionMap b') /\ Q r h').

Lemma scans_weaken {A} pm (E E' : Hist -> Prop) (p : P A) (Q Q' : outcome A -> Hist -> Prop) :
  scans pm E p Q -> (forall h, E' h -> E h) -> (forall r h, Q r h -> Q' r h) -> scans pm E' p Q'.
Proof using Type.
  intros H HE HQ h b HEh Hk. eapply wp_mono; [by apply H; [apply HE|]|]. intros r h' b' (? & ? & ?). auto.
Qed.

Lemma scans_done {A} pm E (r : outcome A) : scans pm E (Done r) (fun r' h => r' = r /\ E h).
Proof using Type. intros h b HE Hk. split; [apply more_refl|done]. Qed.

Definition monotone (E : Hist -> Prop) : Prop := forall h h', h `suffix_of` h' -> E h -> E h'.

Lemma scans_await pm E c : monotone E -> scans pm E (Chain.await c) (fun r h => E h /\ Called c r ∈ h).
Proof using Type.
  intros HE h b HEh Hk. split; [done|]. intros r b' _ Hpm. unfold same_pm in Hpm. simpl.
  assert (h `suffix_of` Called c r :: h) as Hs by by apply suffix_cons_r.
  split; [apply more_call|]. split; [rewrite Hpm; by eapply kept_mono|]. split; [by eapply HE|by left].
Qed.

Lemma scans_bind {A B} pm E (m : P A) (f : A -> P B) Q Q' :
  scans pm E m Q ->
  (forall a, scans pm (Q (Ret a)) (f a) Q') -> (forall e h, Q (Throw e) h -> Q' (Throw e) h) ->
  scans pm E (Async.bind m f) Q'.
Proof using Type.
  intros Hm Hf Ht h b HE Hk. apply wp_bind. eapply wp_mono; [by apply Hm|].
  intros [a|e] h1 b1 (Hmore & Hk1 & HQ); [|by auto].
  eapply wp_mono; [by apply Hf|]. intros r h2 b2 (Hmore2 & Hk2 & HQ2). split; [by eapply more_trans|done].
Qed.

Lemma scans_catch {A} pm E (m : P A) (f : string -> P A) Q Q' :
  scans pm E m Q ->
  (forall e, scans pm (Q (Throw e)) (f e) Q') -> (forall a h, Q (Ret a) h -> Q' (Ret a) h) ->
  scans pm E (catch m f) Q'.
Proof using Type.
  intros Hm Hf Ht h b HE Hk. apply wp_catch. eapply wp_mono; [by apply Hm|].
  intros [a|e] h1 b1 (Hmore & Hk1 & HQ); [by auto|].
  eapply wp_mono; [by apply Hf|]. intros r h2 b2 (Hmore2 & Hk2 & HQ2). split; [by eapply more_trans|done].
Qed.

Lemma scans_ret {A} pm (E : Hist -> Prop) (a : A) (Q : outcome A -> Hist -> Prop) :
  (forall h, E h -> Q (Ret a) h) -> scans pm E (ret a) Q.
Proof using Type. intros H h b HE Hk. split; [apply more_refl|]. split; [done|by apply H]. Qed.

Lemma scans_throw {A} pm (E : Hist -> Prop) e (Q : outcome A -> Hist -> Prop) :
  (forall h, E h -> Q (Throw e) h) -> scans pm E (throw e) Q.
Proof using Type. intros H h b HE Hk. split; [apply more_refl|]. split; [done|by apply H]. Qed.

(** A pause or a reading that keeps the evidence. *)
Lemma scans_sleep pm E ms : monotone E -> scans pm E (sleep ms) (fun _ h => E h).
Proof using Type.
  intros HE. eapply scans_weaken; [apply (scans_await pm E (Sleep ms) HE)|done|]. by intros r h [H _].
Qed.

(** ** Reading one side *)

Lemma readStatus_scans pm E nft side :
  monotone E ->
  scans pm E (readStatus nft side) (fun r h => E h /\
    match r with
    | Ret s => if isOrphan s then gone nft h else open nft h
    | Throw e => says_gone e -> gone nft h
    end).
Proof using Type.
  intros HE. unfold readStatus, Async.lift. destruct (publicKey nft) as [k|e] eqn:Ek.
  - change (scans pm E (let* info := Chain.await (GetPositionInfoByNftMint k) in
              ret (classifyByrealReconcilePosition (liquidity_seen info) side)) (fun r h => E h /\
      match r with Ret s => if isOrphan s then gone nft h else open nft h | Throw e => says_gone e -> gone nft h end)).
    eapply scans_bind; [by apply scans_await| |].
    + intros info. apply scans_ret. intros h [HEh Hc]. split; [done|]. destruct info as [p|]; simpl.
      * destruct (bn_isZero (i_liquidity p)) eqn:Ez; simpl; [right|]; [exists k, (Ret (Some p))|exists k, p]; done.
      * right. by exists k, (Ret None).
    + intros e h [HEh Hc]. split; [done|]. intros Hg. right. by exists k, (Throw e).
  - intros h b HEh Hk. split; [apply more_refl|]. split; [done|]. split; [done|]. intros Hg. left. by exists e.
Qed.

Lemma scanTarget_scans pm E t :
  monotone E ->
  scans pm E (scanTarget t) (fun r h => E h /\ match r with Ret (Some true) => gone t h | _ => True end).
Proof using Type.
  intros HE. unfold scanTarget. apply (scans_catch pm E _ _ (fun r h => E h /\ match r with
    | Ret (Some true) => gone t h | Throw e => says_gone e -> gone t h | _ => True end)); [| |by intros a h H].
  - eapply scans_bind; [by apply readStatus_scans| |].
    + intros s. apply scans_ret. intros h [HEh Hs]. split; [done|]. by destruct (isOrphan s).
    + intros e h [HEh He]. done.
  - intros e. cbv beta.
    destruct (isTransientError e) eqn:Et; [by apply scans_ret; intros h [H _]|].
    destruct (isPositionGoneError e) eqn:Eg; apply scans_ret; intros h [HEh He]; [|done].
    split; [done|]. by apply He.
Qed.

Lemma gone_monotone nft : monotone (gone nft).
Proof using Type. intros h h'. apply scan_gone_mono. Qed.

Lemma monotone_and (E E' : Hist -> Prop) : monotone E -> monotone E' -> monotone (fun h => E h /\ E' h).
Proof using Type. intros H H' h h' Hs [? ?]. split; [by eapply H|by eapply H']. Qed.

(** A write that only tags or forgets. *)
Lemma scans_positionMap pm E f :
  (forall h pm', E h -> kept pm h pm' -> kept pm h (f pm')) ->
  scans pm E (on_positionMap f) (fun _ h => E h).
Proof using Type.
  intros Hf h b HE Hk. unfold on_positionMap. apply (wp_modify _ _ _ _ _ h); [done|].
  split; [apply more_refl|]. split; [by apply Hf|done].
Qed.

Lemma scans_forget pm E t our :
  PositionMap.get t pm = Some our -> (forall h, E h -> gone t h /\ gone our h) ->
  scans pm E (forgetMapping t) (fun _ h => E h).
Proof using Type.
  intros Hget HE. unfold forgetMapping. eapply scans_bind; [apply scans_positionMap| |done].
  - intros h pm' HEh Hk. destruct (HE h HEh). by eapply kept_delete.
  - intros [] h b HEh Hk. unfold removeReferer. apply (wp_modify _ _ _ _ _ h); [done|].
    split; [apply more_refl|done].
Qed.

(** Another exchange's checker may take an orphan away, and only that. *)
Lemma checkOther_scans pm E d t orphan :
  monotone E ->
  scans pm E (checkOther cfg d t orphan)
    (fun r h => E h /\ match r with Ret o => o = true -> orphan = true | Throw _ => True end).
Proof using Type.
  intros HE. unfold checkOther. destruct (orphan && _) eqn:Eo.
  2:{ apply scans_ret. by intros h HEh. }
  apply andb_true_iff in Eo as [-> _].
  apply (scans_catch pm E _ _ (fun r h => E h /\ True)).
  - eapply scans_bind; [by apply scans_await| |by intros e h [H _]]. intros yes.
    destruct (yes : bool).
    + eapply scans_bind; [apply scans_positionMap| |by intros e h [H _]].
      * intros h pm' _ Hk. by apply kept_setDex.
      * intros []. apply scans_ret. by intros h [H _].
    + apply scans_ret. by intros h [H _].
  - intros e. apply scans_ret. by intros h [H _].
  - by intros o h [H _].
Qed.

Lemma checkOthers_scans pm E t orphan :
  monotone E ->
  scans pm E (checkOthers cfg t orphan)
    (fun r h => E h /\ match r with Ret o => o = true -> orphan = true | Throw _ => True end).
Proof using Type.
  intros HE. unfold checkOthers.
  eapply scans_bind; [by apply checkOther_scans| |by intros e h [H _]]. intros o1.
  eapply scans_bind; [apply checkOther_scans| |].
  - apply monotone_and; [done|]. by intros h h' _ H.
  - intros o2. eapply scans_weaken; [apply checkOther_scans|by intros h H; exact H|].
    + apply monotone_and; [|by intros h h' _ H]. apply monotone_and; [done|by intros h h' _ H].
    + intros r h (((HEh & H1) & H2) & H3). split; [done|]. destruct r as [o|e]; [|done]. auto.
  - by intros e h [[H _] _].
Qed.

Lemma scanOurs_scans pm E t our :
  monotone E -> PositionMap.get t pm = Some our -> (forall h, E h -> gone t h) ->
  scans pm E (scanOurs t our) (fun r h => E h /\ match r with Ret true => open our h | _ => True end).
Proof using Type.
  intros HE Hget Hgone. unfold scanOurs.
  apply (scans_catch pm E _ _ (fun r h => E h /\ match r with
    | Ret true => open our h | Ret false => True | Throw e => says_gone e -> gone our h end)).
  - eapply scans_bind; [by apply readStatus_scans| |by intros e h [H H']].
    intros s. cbv beta iota. destruct (isOrphan s) eqn:Es.
    + eapply scans_bind; [apply (scans_forget _ _ _ our); [done|]| |].
      * intros h [HEh Hg]. by split; [apply Hgone|].
      * intros []. apply scans_ret. by intros h [H _].
      * intros e h [H Hg]. by split.
    + apply scans_ret. by intros h [H Ho].
  - intros e. cbv beta. destruct (isTransientError e) eqn:Et; [apply scans_ret; by intros h [H _]|].
    destruct (isPositionGoneError e) eqn:Eg; [|apply scans_ret; by intros h [H _]].
    eapply scans_bind; [apply (scans_forget _ _ _ our); [done|]| |].
    + intros h [HEh Hg]. split; [by apply Hgone|]. by apply Hg.
    + intros []. apply scans_ret. by intros h [H _].
    + by intros e' h [H _].
  - by intros [] h [H Ho].
Qed.

(** ** Every entry *)

Definition scanned (e : string * string) (h : Hist) : Prop := gone e.1 h /\ open e.2 h.

Lemma scanned_monotone e : monotone (scanned e).
Proof using Type. apply monotone_and; intros h h'; [apply scan_gone_mono|apply open_mono]. Qed.

Lemma scanOne_scans pm E e :
  monotone E -> PositionMap.get e.1 pm = Some e.2 ->
  scans pm E (scanOne cfg e) (fun r h => E h /\ match r with Ret true => scanned e h | _ => True end).
Proof using Type.
  intros HE Hget. destruct e as [t our]. unfold scanOne, dexOf. cbn [fst snd] in *.
  intros h b HEh Hk. apply wp_bind. cbn [wp gets ret]. revert h b HEh Hk.
  match goal with |- forall h b, _ -> _ -> wp _ (if ?c b then _ else _) _ _ _ => idtac | _ => idtac end.
  intros h b HEh Hk. destruct (foreign _); [cbn [wp ret]; split; [apply more_refl|done]|].
  revert h b HEh Hk. change (scans pm E (let* seen := scanTarget t in
    match seen with
    | None => do* sleep 500 in ret false
    | Some orphan =>
        let* orphan' := checkOthers cfg t orphan in
        let* close := if orphan' then scanOurs t our else ret false in
        do* sleep 500 in ret close
    end) (fun r h => E h /\ match r with Ret true => scanned (t, our) h | _ => True end)).
  eapply scans_bind; [by apply scanTarget_scans| |by intros e h [H _]].
  intros [orphan|].
  2:{ eapply scans_bind; [apply scans_sleep| |by intros e h [H _]].
      - apply monotone_and; [done|by intros h h' _ H].
      - intros []. apply scans_ret. by intros h [H _]. }
  eapply (scans_weaken pm (fun h => E h /\ (orphan = true -> gone t h))); [| |intros r h H; exact H].
  2:{ intros h [HEh Ho]. split; [done|]. intros ->. done. }
  assert (monotone (fun h => E h /\ (orphan = true -> gone t h))) as Hm.
  { apply monotone_and; [done|]. intros h h' Hs Ho Hor. eapply scan_gone_mono; [done|auto]. }
  eapply scans_bind; [by apply checkOthers_scans| |by intros e h [[H _] _]].
  intros orphan'. apply (scans_bind pm _ _ _ (fun r h => E h /\ match r with Ret true => scanned (t, our) h | _ => True end)).
  - destruct orphan'; [|apply scans_ret; by intros h [[H _] _]].
    eapply (scans_weaken pm (fun h => E h /\ gone t h)).
    + apply scanOurs_scans; [apply monotone_and; [done|apply gone_monotone]|done|by intros h [_ H]].
    + intros h [[HEh Hg] Ho]. split; [done|]. apply Hg, Ho. done.
    + intros r h [[HEh Hg] Ho]. split; [done|]. destruct r as [[]|]; done.
  - intros close. eapply scans_bind; [apply scans_sleep| |].
    + apply monotone_and; [done|]. destruct close; [apply scanned_monotone|by intros h h' _ H].
    + intros []. apply scans_ret. done.
    + by intros e h [H _].
  - by intros e h [H _].
Qed.

Lemma scanAll_scans pm es E :
  monotone E -> Forall (fun e => PositionMap.get e.1 pm = Some e.2) es ->
  scans pm E (scanAll cfg es)
    (fun r h => E h /\ match r with
                       | Ret l => Forall (fun e => PositionMap.get e.1 pm = Some e.2 /\ scanned e h) l
                       | Throw _ => True
                       end).
Proof using Type.
  intros HE Hes. revert E HE. induction Hes as [|e es He Hes IH]; intros E HE; cbn [scanAll].
  { apply scans_ret. by intros h HEh. }
  eapply scans_bind; [by apply scanOne_scans| |by intros e0 h [H _]]. intros close.
  eapply scans_bind; [apply IH| |by intros e0 h [[H _] _]].
  - apply monotone_and; [done|]. destruct close; [apply scanned_monotone|by intros h h' _ H].
  - intros rest. apply scans_ret. intros h [[HEh Hc] Hl]. split; [done|]. destruct close; [|done]. by constructor.
Qed.

(** The jobs that are queued. *)
Definition jobs_ok (pm : PositionMap.t) (h : Hist) : Prop :=
  forall l t our, Spawned (Enqueue l (CloseOrphan t our)) ∈ h ->
    PositionMap.get t pm = Some our /\ gone t h /\ open our h.

Lemma jobs_more pm h h' : more h h' -> jobs_ok pm h -> jobs_ok pm h'.
Proof using Type.
  intros Hm Hj l t our Hin. pose proof (more_suffix _ _ Hm) as Hs. destruct Hm as (k & -> & Hk).
  apply elem_of_app in Hin as [Hin|Hin]; [by destruct (proj1 (list.Forall_forall _ _) Hk _ Hin)|].
  destruct (Hj _ _ _ Hin) as (Hg & H1 & H2). split_and!; [done|by eapply scan_gone_mono|by eapply open_mono].
Qed.

Lemma enqueue_all pm l h b (Q : outcome unit -> Hist -> Bot -> Prop) :
  jobs_ok pm h -> Forall (fun e => PositionMap.get e.1 pm = Some e.2 /\ scanned e h) l -> kept pm h (positionMap b) ->
  (forall h', h `suffix_of` h' -> jobs_ok pm h' -> kept pm h' (positionMap b) -> Q (Ret tt) h' b) ->
  wp RL (for_each (fun tn => spawn (Enqueue (closeLabel "orphan-close" tn.2) (CloseOrphan tn.1 tn.2))) l) h b Q.
Proof using Type.
  intros Hj Hl Hk HQ. revert h Hj Hl Hk HQ. induction l as [|[t our] l IH]; intros h Hj Hl Hk HQ; cbn [for_each]; [by apply HQ|].
  apply list.Forall_cons in Hl as [(Hget & Hg & Ho) Hl]. apply wp_bind. cbn [wp spawn ret fst snd].
  set (h1 := l_spawn RL h _).
  assert (h `suffix_of` h1) as Hs by by apply suffix_cons_r. apply IH.
  - intros l' t' our' [Heq|Hin]%elem_of_cons.
    + injection Heq as _ <- <-. split_and!; [done|by eapply scan_gone_mono|by eapply open_mono].
    + destruct (Hj _ _ _ Hin) as (? & ? & ?). split_and!; [done|by eapply scan_gone_mono|by eapply open_mono].
  - refine (list.Forall_impl _ _ _ Hl _). intros e [He Hsc]. split; [done|by eapply scanned_monotone].
  - by eapply kept_mono.
  - intros h' Hs' Hj' Hk'. apply HQ; [by etrans|done..].
Qed.

Lemma entries_get pm e : wf_map (PositionMap.map_ pm) -> e ∈ PositionMap.entries pm -> PositionMap.get e.1 pm = Some e.2.
Proof using Type.
  intros Hw He. unfold PositionMap.entries in He. apply list_elem_of_fmap in He as ([k v] & -> & Hin).
  unfold PositionMap.get. simpl. by rewrite (elem_jget k v).
Qed.

Lemma enqueue_post b :
  wf_map (PositionMap.map_ (positionMap b)) ->
  wp RL (enqueueReconcile cfg) [] b
    (fun r h' b' => r = Ret tt /\ kept (positionMap b) h' (positionMap b') /\ jobs_ok (positionMap b) h').
Proof using Type.
  intros Hw. assert (kept (positionMap b) [] (positionMap b)) as Hk0 by (split; [done|]; intros t; by left).
  assert (jobs_ok (positionMap b) []) as Hj0 by (intros l t our Hin; by apply elem_of_nil in Hin).
  unfold enqueueReconcile. apply wp_bind. cbn [wp gets ret]. destruct (_ =? 0); [by split_and!|].
  apply wp_catch. unfold reconcileScan. apply wp_bind. cbn [wp gets ret]. apply wp_bind.
  eapply wp_mono; [apply (scanAll_scans (positionMap b) _ (fun _ => True)); try done|].
  - apply list.Forall_forall. intros e He. by apply entries_get.
  - intros [l|e] h1 b1 (Hm & Hk & _ & Hl); pose proof (jobs_more _ _ _ Hm Hj0) as Hj; cbn [wp ret]; [|done].
    apply (enqueue_all (positionMap b)); [done|done|done|]. intros h2 _ Hj2 Hk2. done.
Qed.

End Scan.

(** C12: The scan for orphans goes by what it saw.  Whatever the chain and the other
    executors' checkers answer, errors included: [enqueueReconcile] does not
    throw; a mapping it drops had both its target and our position read as null,
    empty or not found; every other mapping stays, to the same position; and
    every close it queues is of a mapping whose target was read as gone and
    whose own position was read with liquidity. *)
Theorem scan_goes_by_what_it_saw `{L : BNLib} `{W : Web3} (cfg : Settings) env k b :
  wf_map (PositionMap.map_ (positionMap b)) -> others_keep_map env ->
  let x := run env k [] (enqueueReconcile cfg) b in
  res x = Ret tt /\ kept (positionMap b) (hist x) (positionMap (final x)) /\ jobs_ok (positionMap b) (hist x).
Proof.
  intros Hw Henv.
  apply (hist_run (enqueueReconcile cfg) (fun _ _ _ => True) same_pm (fun _ _ => True) env k [] b
           (fun r h' b' => r = Ret tt /\ kept (positionMap b) h' (positionMap b') /\ jobs_ok (positionMap b) h')).
  - intros n c s. split; [done|apply Henv].
  - by apply enqueue_post.
Qed.

(** Two targets are gone; our position for the first is still open. *)
Definition two_mapped : Bot :=
  fresh (PositionMap.set 0 0 "T2" "O2" None None None None None
           (PositionMap.set 0 0 "T1" "O1" None None None None None PositionMap.new)).
Definition one_open (n : string) : option (PositionInfo (L := Z_BN)) :=
  if bool_decide (n = "O1"%string) then Some (demo_position 5 1 1) else None.

Definition queued (h : list (HEvent (Call (L := Z_BN)) (Ans (L := Z_BN)) Task)) : list (string * string) :=
  omap (fun e => match e with Spawned (Enqueue _ (CloseOrphan t our)) => Some (t, our) | _ => None end) h.

Lemma scan_goes_by_what_it_saw_witness :
  let env := demo_env (Ret "Sig"%string) one_open in
  let x := run env 0 [] (enqueueReconcile (L := Z_BN) (W := demo_web3) demo_settings) two_mapped in
  queued (hist x) = [("T1", "O1")]%string /\ PositionMap.entries (positionMap (final x)) = [("T1", "O1")]%string
  /\ kept (W := demo_web3) (positionMap two_mapped) (hist x) (positionMap (final x))
  /\ jobs_ok (W := demo_web3) (positionMap two_mapped) (hist x).
Proof.
  cbv zeta. split; [by vm_compute|]. split; [by vm_compute|].
  apply (scan_goes_by_what_it_saw (W := demo_web3)); [|by intros n c b].
  by apply (bool_decide_unpack _); vm_compute.
Defined.

End ReconcileScan.
