(* ===== verification/OrcaOps.v ===== *)
(** * The Orca executor: closing, decreasing, reconciling
    ([src/executor/orca-position.ts])

    The helpers of [OrcaPositionExecutor], and the methods that take liquidity
    out: [copyClosePosition], [copyDecreaseLiquidity], [manualClosePosition],
    [reconcileOrcaPositions], with the rent and the startup backfill.  The SDK's
    asynchronous methods are the calls [OrcaCall]; its synchronous functions
    are the class [Whirlpools].  The helpers the file shares with the Byreal
    executor word for word are those of [Chain]. *)

From S2P Require Import Prelude JsMap JsString JsNumber Json Async Ratio TxTypes PositionMap Store Stores State Chain JupiterSwap ByrealOps.
Open Scope Z_scope.
Open Scope list_scope.
Open Scope prog_scope.

Module OrcaOps.
Import Async State Chain ByrealOps.

(** [PDAUtil.getPosition(...).publicKey]; the estimates of a decrease by some
    liquidity and of the fees, each for token A and token B.  The text is the
    token extension context. *)
Class Whirlpools `{L : BNLib} := {
  positionPda : string -> outcome string;
  decreaseLiquidityQuoteByLiquidity : BN -> num -> WpPosition -> Whirlpool -> string -> outcome (BN * BN);
  collectFeesQuote : Whirlpool -> WpPosition -> string -> outcome (BN * BN);
}.

Section OrcaOps.
Context `{L : BNLib} `{W : Web3} `{WP : Whirlpools (L := L)} (cfg : Settings).

Definition orca (c : OrcaCall) : P (OrcaAns c) := await (OnOrca c).
Definition buildAndExecute (tx : TxBuilder) : P string := orca (BuildAndExecute tx).
Definition getPool (whirlpool : string) : P Whirlpool := orca (WpGetPool MainClient whirlpool).

(** ** Helpers *)

Definition acquire : P bool := Chain.acquire Orca.
Definition release : P unit := Chain.release Orca.

(** Not caught here. *)
Definition getSolBalance : P num :=
  let* lamports := await GetBalance in
  ret (ndiv (num_of_Z lamports) (num_of_Z 1000000000)).

Definition set_orcaSolBalance (x : num) : P unit :=
  modify (on_orca (fun o => mkOrcaVars (Some x) (orcaRent o) (orcaAssets o) (decimalsCache o) (freeRpcIdx o) (orcaTvlCache o))).

(** The refresh that the constructor and every open start. *)
Definition refreshSolBalance : P unit :=
  catch (let* x := getSolBalance in set_orcaSolBalance x) (fun _ => ret tt).

(** A failed reading of the native balance at the end is an exception. *)
Definition getTokenBalance (mint_ : string) : P BN :=
  catch (balance_under cfg mint_ TOKEN_PROGRAM_ID) (fun _ =>
  catch (balance_under cfg mint_ TOKEN_2022_PROGRAM_ID) (fun _ =>
  if bool_decide (mint_ = NATIVE_MINT) then availableLamports else lift zero)).

(** [Percentage.fromFraction(slippageBps, 10000)] *)
Definition getSlippage : num := slippageBps cfg.

Definition isTokenBlacklisted (mintA_ mintB_ : string) : bool :=
  (orcaSkipSol cfg && (bool_decide (mintA_ = NATIVE_MINT) || bool_decide (mintB_ = NATIVE_MINT)))
  || shas mintA_ (tokenBlacklist cfg) || shas mintB_ (tokenBlacklist cfg).

Definition getTokenSymbol (m : string) : string := or_else (tokenNames cfg m) m.

Definition isTransientError (msg : string) : bool := Chain.isTransientError msg.
Definition isRetryableSimError (msg : string) : bool := Chain.isRetryableSimError msg.
Definition retryable (msg : string) : bool := isRetryableSimError msg || isTransientError msg.

(** Any error is null. *)
Definition getPositionByNft (nftMint : string) : P (option WpPosition) :=
  catch
    (let* pda := lift (positionPda nftMint) in orca (WpGetPosition MainClient pda))
    (fun _ => ret None).

(** [this.getPositionByNft(new PublicKey(nft))] *)
Definition readPosition (nft : string) : P (option WpPosition) :=
  let* k := lift (publicKey nft) in getPositionByNft k.

Definition verifyTxSuccess (txSig : string) : P bool := Chain.verifyTxSuccess txSig.
Definition parseTxTokenChanges (txSig : string) : P (list (string * BN)) := Chain.parseTxTokenChanges cfg txSig.
Definition addPendingSwap (mint_ : string) (amount : BN) : P unit := Chain.addPendingSwap mint_ amount.

Definition queueReceived (txSig : string) : P unit :=
  let* received := parseTxTokenChanges txSig in
  for_each (fun mr => addPendingSwap mr.1 mr.2) received.

(** ** Rent *)

Definition set_orcaRent (x : num) : P unit :=
  modify (on_orca (fun o => mkOrcaVars (orcaSolBalance o) x (orcaAssets o) (decimalsCache o) (freeRpcIdx o) (orcaTvlCache o))).

Definition initRentPerPosition : P unit :=
  catch
    (let* rentMint := await (GetMinimumBalanceForRentExemption 82) in
     let* rentPosition := await (GetMinimumBalanceForRentExemption 216) in
     let* rentATA := await (GetMinimumBalanceForRentExemption 165) in
     set_orcaRent (ndiv (num_of_Z (rentMint + rentPosition + rentATA)) (num_of_Z 1000000000)))
    (fun _ => ret tt).

Definition is_orca (pm : PositionMap.t) (tgtNft : string) : bool :=
  bool_decide (PositionMap.getDex tgtNft pm = Some "orca"%string).

Definition orcaEntries (pm : PositionMap.t) : list (string * string) :=
  keep (fun tn => is_orca pm tn.1) (PositionMap.entries pm).

Definition lacks_lockedSol (pm : PositionMap.t) (tgtNft : string) : bool :=
  let none := nopp (num_of_Z 1) in neqb (PositionMap.getLockedSol tgtNft none pm) none.

Definition backfillLockedSol : P unit :=
  modify (fun b =>
    let missing := keep (fun tn => lacks_lockedSol (positionMap b) tn.1) (orcaEntries (positionMap b)) in
    set_positionMap
      (foldl (fun pm tn => PositionMap.setLockedSol tn.1 (orcaRent (orcaVars (dexVars b))) pm) (positionMap b) missing) b).

(** ** [copyClosePosition] *)

Definition MAX_CLOSE_ATTEMPTS : nat := 3.

(** The signature of the last transaction, empty without one. *)
Fixpoint execute_all (txs : list TxBuilder) (lastSig : string) : P string :=
  match txs with
  | [] => ret lastSig
  | tx :: txs' => let* sig := buildAndExecute tx in execute_all txs' sig
  end.

(** [None]: our position cannot be read, and the mapping is deleted. *)
Definition close_once (targetNft myNft : string) : P (option string) :=
  let* my := readPosition myNft in
  match my with
  | None => do* on_positionMap (PositionMap.delete targetNft) in ret None
  | Some p =>
      let* pool := getPool (ps_whirlpool p) in
      let* k := lift (publicKey myNft) in
      let* pda := lift (positionPda k) in
      let* txs := orca (WpClosePosition pool pda getSlippage) in
      let* sig := execute_all txs "" in
      ret (Some sig)
  end.

Definition close_loop (targetNft myNft : string) : P (option string) :=
  close_attempts (close_once targetNft myNft) verifyTxSuccess retryable myNft 0 MAX_CLOSE_ATTEMPTS.

Definition close_body (targetNft myNft : string) : P (option string) :=
  close_with (close_loop targetNft myNft) (on_positionMap (PositionMap.delete targetNft)) queueReceived myNft.

Definition copyClosePosition (targetNft : string) : P (option string) :=
  let* my := mapped targetNft in
  match my with
  | Some myNft =>
      if negb (truthy myNft) then ret None
      else if dryRun cfg then ret (Some "dry-run-orca-close"%string)
      else locked Orca None (close_body targetNft myNft)
  | None => ret None
  end.

Definition manualClosePosition (ourNft : string) : P (option string) :=
  let* targetNft := gets (fun b => PositionMap.findByOurNft ourNft (positionMap b)) in
  match targetNft with
  | Some t => if truthy t then copyClosePosition t else ret None
  | None => ret None
  end.

(** ** [copyDecreaseLiquidity] *)

Definition targetLiquidity (targetNft : string) : P (option BN) :=
  catch (let* p := readPosition targetNft in ret (ps_liquidity <$> p)) (fun _ => ret None).

Definition ourShare (myNft : string) (storedLiq removedLiq : BN) : P (option BN) :=
  catch
    (let* my := readPosition myNft in
     ret ((fun p => proportional (ps_liquidity p) storedLiq removedLiq) <$> my))
    (fun _ => ret None).

Definition decreaseAmount (targetNft myNft : string) (current : option BN) : P (option BN) :=
  amountToTakeOut (ourShare myNft) targetNft current.

Definition collect_from (p : WpPosition) : P (option (string * DecreaseType)) :=
  let* tx := orca (WpCollectFees p) in
  let* txSig := buildAndExecute tx in
  ret (Some (txSig, COLLECT_FEE)).

Definition collect_once (myNft : string) : P (option (string * DecreaseType)) :=
  let* my := readPosition myNft in
  match my with
  | None => ret None
  | Some p => collect_from p
  end.

(** Null takes out everything. *)
Definition decrease_once (myNft : string) (amount : option BN) : P (option (string * DecreaseType)) :=
  let* my := readPosition myNft in
  match my with
  | None => ret None
  | Some p =>
      let liquidityAmount := match amount with Some a => bn_min a (ps_liquidity p) | None => ps_liquidity p end in
      if bn_isZero liquidityAmount then catch (collect_from p) (fun _ => ret None)
      else
        let* z := lift zero in
        let* tx := orca (WpDecreaseLiquidity p liquidityAmount z z) in
        let* txSig := buildAndExecute tx in
        do* catch (queueReceived txSig) (fun _ => ret tt) in
        ret (Some (txSig, DECREASE))
  end.

(** The loops of attempts around them, with the outer handler. *)
Definition attempted {A} (once : P (option A)) : P (option A) :=
  catch (let* r := attempts 2 retryable once in ret (mjoin r)) (fun _ => ret None).

Definition copyDecreaseLiquidity (targetNft : string) : P (option (string * DecreaseType)) :=
  let* my := mapped targetNft in
  match my with
  | Some myNft =>
      if negb (truthy myNft) then ret None
      else
        let* current := targetLiquidity targetNft in
        let* amount := decreaseAmount targetNft myNft current in
        let feesOnly := match amount with Some a => bn_isZero a | None => false end in
        if feesOnly then
          if dryRun cfg then ret (Some ("dry-run-orca-collect-fee"%string, COLLECT_FEE))
          else locked Orca None (attempted (collect_once myNft))
        else if dryRun cfg then ret (Some ("dry-run-orca-decrease"%string, DECREASE))
        else locked Orca None (attempted (decrease_once myNft amount))
  | None => ret None
  end.

(** ** Reconciling *)

Definition hasMapping (targetNft : string) (b : Bot) : bool := truthy (PositionMap.get targetNft (positionMap b)).

Definition isOrcaPosition (nftMint : string) : P bool :=
  catch
    (let* k := lift (publicKey nftMint) in
     let* pda := lift (positionPda k) in
     let* pos := orca (WpGetPosition ReadClient pda) in
     ret (match pos with Some _ => true | None => false end))
    (fun _ => ret false).

(** Whether the target is gone or empty. *)
Definition is_orphan (tgtNft : string) : P bool :=
  catch
    (let* target := readPosition tgtNft in
     ret (match target with None => true | Some p => bn_isZero (ps_liquidity p) end))
    (fun e => ret (negb (isTransientError e))).

Fixpoint scan (es : list (string * string)) : P (list (string * string)) :=
  match es with
  | [] => ret []
  | e :: es' =>
      let* orphan := is_orphan e.1 in
      do* sleep 500 in
      let* rest := scan es' in
      ret (if orphan then e :: rest else rest)
  end.

Definition orphanLabel (prefix nft : string) : string := prefix +:+ "(" +:+ String.substring 0 8 nft +:+ ")".

Definition reconcileOrcaPositions : P unit :=
  let* es := gets (fun b => orcaEntries (positionMap b)) in
  let* orphans := scan es in
  for_each (fun tn => spawn (Enqueue (orphanLabel "orca-orphan-close" tn.1) (CopyCloseOf Orca tn.1))) orphans.

(** The job it enqueues. *)
Definition orphanClose (tgtNft : string) : P unit :=
  catch (do* copyClosePosition tgtNft in ret tt) (fun _ => ret tt).

End OrcaOps.

(** A concrete SDK: an amount of liquidity is worth as much of token A and
    twice as much of token B. *)
Definition demo_fees : @BN Z_BN * @BN Z_BN := (3, 4).

Definition demo_whirlpools : Whirlpools (L := Z_BN) := {|
  positionPda := fun k => Ret ("pda " +:+ k)%string;
  decreaseLiquidityQuoteByLiquidity := fun l _ _ _ _ => Ret (l, bn_add (BNLib := Z_BN) l l);
  collectFeesQuote := fun _ _ _ => Ret (demo_fees) |}.

(** The executor exists, and maps one target. *)
Definition demo_orca_bot : Bot :=
  set_executor Orca idle
    (fresh (PositionMap.set 0 0 "T" "OurNft" (Some "MINT/USDC"%string) (Some "W"%string) None None
              (Some "orca"%string) PositionMap.new)).

End OrcaOps.
