(* ===== verification/OrcaOpen.v ===== *)
(** * The Orca executor: opening and increasing
    ([src/executor/orca-position.ts])

    [copyOpenPosition] and [copyIncreaseLiquidity]: the filters, the estimate of
    what the swaps cost, the swaps, the deposit and its attempts, and, when an
    open throws, the swap back of the tokens it had acquired.  [swappedTokens]
    is declared outside the [try] and grows inside it; [try_with] is a segment
    of the [try] with the array as it is then, whose exception goes to the
    handler [openFailed]. *)

From S2P Require Import Prelude JsMap JsString JsNumber Json Async Ratio TxTypes PositionMap Store Stores PumpPending State Chain JupiterSwap MarketData ByrealOps ByrealOpen OrcaOps.
Open Scope Z_scope.
Open Scope list_scope.
Open Scope prog_scope.

Module OrcaOpen.
Import Async State Chain ByrealOps OrcaOps.

Section OrcaOpen.
Context `{L : BNLib} `{W : Web3} `{WP : Whirlpools (L := L)} (cfg : Settings).

(** ** The TVL of a pool *)

Definition ORCA_TVL_CACHE_MS : Z := 10 * 60 * 1000.

Definition set_orcaTvl (pool : string) (x : num) (at_ : Z) : P unit :=
  modify (on_orca (fun o => mkOrcaVars (orcaSolBalance o) (orcaRent o) (orcaAssets o) (decimalsCache o) (freeRpcIdx o)
    (jset pool (x, at_) (orcaTvlCache o)))).

(** [parseFloat(data?.data?.tvlUsdc ?? data?.tvlUsdc ?? '0')] *)
Definition tvl_of (data : Json) : num :=
  parseFloat (jstring (jnullish (jopt (jopt (Some data) "data") "tvlUsdc")
                         (jnullish (jopt (Some data) "tvlUsdc") (JStr "0")))).

Definition getOrcaPoolTvl (poolAddress : string) : P (option num) :=
  let* cached := gets (fun b => jget poolAddress (orcaTvlCache (orcaVars (dexVars b)))) in
  let* fresh :=
    match cached with
    | Some (x, at_) => let* now := clock in ret (if now - at_ <? ORCA_TVL_CACHE_MS then Some x else None)
    | None => ret None
    end in
  match fresh with
  | Some x => ret (Some x)
  | None =>
      catch
        (let* res := await (Fetch (mkUrl ("https://api.orca.so/v2/solana/pools/" +:+ poolAddress) []) "GET" [] None) in
         if negb (r_ok res) then ret (fst <$> cached)
         else
           let* data := await (ReadJson res) in
           let* now := clock in
           do* set_orcaTvl poolAddress (tvl_of data) now in
           ret (Some (tvl_of data)))
        (fun _ => ret (fst <$> cached))
  end.

(** ** Filters *)

Definition set_reason (r : string) : P unit := modify (on_executor Orca (with_lastSkipReason (Some r))).

Definition blacklistFilter (pool : Whirlpool) : P (option string) :=
  ret (if isTokenBlacklisted cfg (tokenMintA pool) (tokenMintB pool) then Some "代幣黑名單"%string else None).

(** Null means unknown, which is too low. *)
Definition too_low (t : option num) : bool := match t with None => true | Some x => nlt x (minPoolTvl cfg) end.

Definition tvlText (t : option num) : string := match t with Some x => toFixed x 0 | None => "?" end.

(** The first side that is neither whitelisted, nor stable, nor SOL is checked,
    and only that one. *)
Fixpoint tvlOf (mints : list string) (poolAddress : string) : P (option string) :=
  match mints with
  | [] => ret None
  | m :: mints' =>
      if shas m (poolTvlWhitelist cfg) then tvlOf mints' poolAddress
      else if shas m STABLE_MINTS || bool_decide (m = NATIVE_MINT) then tvlOf mints' poolAddress
      else
        let* t := MarketData.checkTokenLiquidity cfg m (Some (getOrcaPoolTvl poolAddress)) in
        ret (if too_low t then
               Some ("TVL 不足 ($" +:+ tvlText t +:+ " < $" +:+ num_toString (minPoolTvl cfg) +:+ ")")%string
             else None)
  end.

Definition tvlFilter (pool : Whirlpool) (poolAddress : string) : P (option string) :=
  if nlt (num_of_Z 0) (minPoolTvl cfg) then tvlOf [tokenMintA pool; tokenMintB pool] poolAddress else ret None.

Definition openFilters (pool : Whirlpool) (poolAddress targetWallet : string) : list (P (option string)) :=
  [blacklistFilter pool;
   ByrealOpen.pumpFilterFor cfg (getTokenSymbol cfg) (tokenMintA pool) (tokenMintB pool) (Some targetWallet);
   tvlFilter pool poolAddress].

(** ** The cost of the swaps *)

Definition probe_params (inputMint outputMint : string) : list (string * string) :=
  [("inputMint", inputMint); ("outputMint", outputMint); ("amount", "1000000");
   ("slippageBps", num_toString (slippageBps cfg))]%string.

(** What a probe quote makes of the amount, with 5% added. *)
Definition cost_from (data : Json) (outputAmount : BN) : outcome (option BN) :=
  let! error := jfield (Some data) "error" in
  let! errorCode := jfield (Some data) "errorCode" in
  if truthy error || truthy errorCode then Ret None
  else
    let! inRaw := jfield (Some data) "inAmount" in
    let! probeIn := jBigInt inRaw in
    let! outRaw := jfield (Some data) "outAmount" in
    let! probeOut := jBigInt outRaw in
    if probeOut =? 0 then Ret None
    else
      let! amount := BigInt (bn_toString outputAmount) in
      let needed := Z.quot (amount * probeIn) probeOut in
      let! r := bn_of_string (Z_toString (Z.quot (needed * 105) 100)) in
      Ret (Some r).

Definition estimateSwapCost (inputMint outputMint : string) (outputAmount : BN) : P (option BN) :=
  catch
    (let* res := JupiterSwap.jupiterFetch cfg (mkUrl (jupiterApiBase cfg +:+ "/quote") (probe_params inputMint outputMint))
                   "GET" [] None in
     if negb (r_ok res) then ret None
     else
       let* data := await (ReadJson res) in
       lift (cost_from data outputAmount))
    (fun _ => ret None).

(** What is missing of a side. *)
Definition deficit (target balance : BN) : outcome BN :=
  if bn_gt target balance && negb (bn_isZero target) then Ret (bn_sub target balance) else zero.

(** 0 when the cost cannot be estimated. *)
Definition costOf (mint_ : string) (d : BN) : P Z :=
  if bn_isZero d then ret 0
  else if bool_decide (mint_ = USDC) then lift (BigInt (bn_toString d))
  else
    let* cost := estimateSwapCost USDC mint_ d in
    match cost with
    | Some c => lift (BigInt (bn_toString c))
    | None => ret 0
    end.

(** [(Number(raw) / 1e6).toFixed(2)] *)
Definition usdcText (raw : Z) : string := toFixed (ndiv (num_of_Z raw) (num_of_Z 1000000)) 2.

(** The reason to stop when the USDC does not suffice. *)
Definition usdcCheck (mA mB : string) (targetA targetB balA balB : BN) : P (option string) :=
  let* deficitA := lift (deficit targetA balA) in
  let* deficitB := lift (deficit targetB balB) in
  let* costA := costOf mA deficitA in
  let* costB := costOf mB deficitB in
  let estimatedCost := costA + costB in
  if 0 <? estimatedCost then
    let* usdcBalance :=
      if bool_decide (mA = USDC) then ret balA
      else if bool_decide (mB = USDC) then ret balB
      else let* k := lift (publicKey USDC) in getTokenBalance cfg k in
    let* usdcBal := lift (BigInt (bn_toString usdcBalance)) in
    ret (if usdcBal <? estimatedCost then
           Some ("USDC 不足 (需 ~" +:+ usdcText estimatedCost +:+ ", 有 " +:+ usdcText usdcBal +:+ ")")%string
         else None)
  else ret None.

(** ** Buying what is missing *)

(** For token A: token B if there is any, then USDC; for SOL only USDC. *)
Definition swapForA (mA mB : string) (balB : BN) (amount : string) : P (option string) :=
  if bool_decide (mA = NATIVE_MINT) then JupiterSwap.swapForToken cfg USDC mA amount
  else
    let* first := if bn_isZero balB then ret None else JupiterSwap.swapForToken cfg mB mA amount in
    if truthy first then ret first else JupiterSwap.swapForToken cfg USDC mA amount.

(** For token B: USDC, then the surplus of token A; for SOL only USDC. *)
Definition swapForB (mA mB : string) (targetA balA : BN) (amount : string) : P (option string) :=
  if bool_decide (mB = NATIVE_MINT) then JupiterSwap.swapForToken cfg USDC mB amount
  else
    let* first := JupiterSwap.swapForToken cfg USDC mB amount in
    if negb (truthy first) && bn_gt balA targetA then JupiterSwap.swapForToken cfg mA mB amount else ret first.

(** The balance after a swap, and what it added if its transaction tells. *)
Definition balanceAfter (sig mint_ : string) (balance : BN) : P (BN * option BN) :=
  let* added := JupiterSwap.getActualSwapOutput sig mint_ (userAddress cfg) in
  if truthy added then
    let* d := lift (bn_of_string (default "" added)) in
    ret (bn_add balance d, Some d)
  else
    do* sleep 5000 in
    let* now := getTokenBalance cfg mint_ in
    ret (now, None).

Inductive Funding := Enough | Bought (balance : BN) (added : option BN) | NoSwap.

Definition announceSwapFailed (mint_ : string) : P unit :=
  let* e := gets (fun b => lastSwapError (swapVars b)) in
  notify (notifySwapFailed mint_ (or_else (Some e) "all methods failed"%string)).

(** USDC is never bought. *)
Definition fund (swap : string -> P (option string)) (mint_ : string) (target balance : BN) : P Funding :=
  if bn_lt balance target && negb (bn_isZero target) && negb (bool_decide (mint_ = USDC)) then
    let* sig := swap (bn_toString (bn_sub target balance)) in
    match sig with
    | Some s =>
        if negb (truthy s) then do* announceSwapFailed mint_ in ret NoSwap
        else let* r := balanceAfter s mint_ balance in ret (Bought r.1 r.2)
    | None => do* announceSwapFailed mint_ in ret NoSwap
    end
  else ret Enough.

Definition Swapped : Type := list (string * BN).

(** What is pushed on [swappedTokens] after a swap. *)
Definition acquired (mint_ : string) (before after : BN) (added : option BN) : outcome Swapped :=
  match added with
  | Some d => Ret [(mint_, d)]
  | None =>
      let gained := bn_sub after before in
      let! z := zero in
      Ret (if bn_gt gained z then [(mint_, gained)] else [])
  end.

(** ** The amounts *)

(** Never more than our target nor than the balance; a side of which the target
    has none may take the balance, for the program then takes nothing of it. *)
Definition tokenMax (mine other balance : BN) : BN :=
  if bn_isZero mine && negb (bn_isZero other) then balance else bn_min mine balance.

Definition MAX_SQRT_PRICE : string := "79226673515401279992447579055".

Definition increaseInput (targetA targetB balA balB : BN) : outcome IncreaseInput :=
  let! z := zero in
  let! m := bn_of_string MAX_SQRT_PRICE in
  Ret (mkIncrease (tokenMax targetA targetB balA) (tokenMax targetB targetA balB) z m).

(** The attempts of an open and of an increase. *)
Definition deposit_loop (pool : Whirlpool) (once : BN * BN -> P string) (max : nat) (balA balB : BN) : P (option string) :=
  deposit_attempts
    (let* a := getTokenBalance cfg (tokenMintA pool) in
     let* b := getTokenBalance cfg (tokenMintB pool) in
     ret (a, b))
    retryable Ret once 0 max (balA, balB).

(** ** [copyOpenPosition] *)

Record OpenRequest := mkOrcaOpen { targetNft : string; poolAddress : string; targetWallet : string }.

(** Swap back to USDC whatever is neither stable nor SOL; nothing throws. *)
Definition swapBackOne (ma : string * BN) : P unit :=
  let (mint_, amount) := ma in
  let* z := lift zero in
  if shas mint_ (STABLE_MINTS ++ [NATIVE_MINT]) || bn_lte amount z then ret tt
  else
    catch (do* JupiterSwap.jupSwapExactIn cfg mint_ USDC (bn_toString amount) in ret tt) (fun _ => ret tt).

Definition swapBackOnFailure (swappedTokens : Swapped) : P unit := for_each swapBackOne swappedTokens.

(** The [catch] of the open. *)
Definition openFailed (r : OpenRequest) (swappedTokens : Swapped) (e : string) : P (option string) :=
  do* notify (notifyOpenFailed e (targetNft r)) in
  do* swapBackOnFailure swappedTokens in
  if mentions ["insufficient lamports"]%string e then
    let* now := clock in
    do* modify (on_executor Orca (with_solPaused now)) in
    let* sol := gets (fun b => orcaSolBalance (orcaVars (dexVars b))) in
    do* notify (notifySolInsufficient (default (num_of_Z 0) sol)) in
    ret None
  else ret None.

(** A segment of the [try], with the tokens acquired so far. *)
Definition try_with {A} (r : OpenRequest) (swappedTokens : Swapped) (m : P A) (k : A -> P (option string))
    : P (option string) :=
  Async.after m (fun o => match o with Ret a => k a | Throw e => openFailed r swappedTokens e end).

(** Freshly opened positions may not be visible yet. *)
Fixpoint await_target (nft : string) (wait : Z) (left : nat) : P (option WpPosition) :=
  match left with
  | O => ret None
  | S left' =>
      do* sleep (wait * 2000) in
      let* p := readPosition nft in
      match p with
      | Some x => ret (Some x)
      | None => await_target nft (wait + 1) left'
      end
  end.

Definition findTarget (nft : string) : P (option WpPosition) :=
  let* p := readPosition nft in
  match p with
  | Some x => ret (Some x)
  | None => await_target nft 1 3
  end.

Definition poolLabel (pool : Whirlpool) : string := tokenMintA pool +:+ "/" +:+ tokenMintB pool.

Definition saveMapping (r : OpenRequest) (pool : Whirlpool) (target : WpPosition) (nft : string) : P unit :=
  let* now := clock in
  let* dbnow := clock in
  do* on_positionMap (PositionMap.set now dbnow (targetNft r) nft (Some (poolLabel pool)) (Some (targetWallet r))
        (Some (tickLowerIndex target)) (Some (tickUpperIndex target)) (Some "orca"%string)) in
  do* modify (fun b => set_positionMap
        (PositionMap.setLockedSol (targetNft r) (orcaRent (orcaVars (dexVars b))) (positionMap b)) b) in
  on_positionMap (PositionMap.setTargetLiquidity (targetNft r) (bn_toString (ps_liquidity target))).

(** After an error: the position may exist all the same. *)
Definition openedDespite (r : OpenRequest) (pool : Whirlpool) (target : WpPosition) (nft : string) : P (option string) :=
  catch
    (let* p := getPositionByNft nft in
     match p with
     | Some _ =>
         do* saveMapping r pool target nft in
         ret (Some ("recovered-" +:+ String.substring 0 8 nft))
     | None => ret None
     end)
    (fun _ => ret None).

Definition open_once (r : OpenRequest) (pool : Whirlpool) (target : WpPosition) (targetA targetB : BN)
    (bals : BN * BN) : P string :=
  let lo := tickLowerIndex target in
  let hi := tickUpperIndex target in
  let* initTickTx := orca (InitTickArrayForTicks pool lo hi) in
  do* (match initTickTx with Some tx => do* buildAndExecute tx in ret tt | None => ret tt end) in
  let* input := lift (increaseInput targetA targetB bals.1 bals.2) in
  let* opened := orca (WpOpenPosition pool lo hi input) in
  let (nft, tx) := (opened : string * TxBuilder) in
  catch
    (let* txSig := buildAndExecute tx in
     do* saveMapping r pool target nft in
     ret txSig)
    (fun e =>
       let* recovered := openedDespite r pool target nft in
       match recovered with
       | Some s => ret s
       | None => throw e
       end).

(** The target, its pool and our share of its tokens; or the end. *)
Definition prepare (r : OpenRequest) : P (option (WpPosition * Whirlpool * BN * BN)) :=
  let* found := findTarget (targetNft r) in
  match found with
  | None => ret None
  | Some target =>
      let* pool := getPool (ps_whirlpool target) in
      let* reason := ByrealOpen.firstReason (openFilters pool (poolAddress r) (targetWallet r)) in
      match reason with
      | Some why => do* set_reason why in ret None
      | None =>
          let* ext := orca (BuildTokenExtensionContext MainClient (tokenMintA pool) (tokenMintB pool)) in
          if bn_isZero (ps_liquidity target) then do* set_reason "目標流動性為零" in ret None
          else
            let* quote := lift (decreaseLiquidityQuoteByLiquidity (ps_liquidity target) (getSlippage cfg) target pool ext) in
            let* ourA := lift (Ratio.scaleAmount (ratios cfg) quote.1 (Some (targetWallet r))) in
            let* ourB := lift (Ratio.scaleAmount (ratios cfg) quote.2 (Some (targetWallet r))) in
            if bn_isZero ourA && bn_isZero ourB then do* set_reason "存款金額為零" in ret None
            else ret (Some (target, pool, ourA, ourB))
      end
  end.

(** Both balances, unless the USDC does not suffice. *)
Definition balancesFor (pool : Whirlpool) (ourA ourB : BN) : P (option (BN * BN)) :=
  let* balA := getTokenBalance cfg (tokenMintA pool) in
  let* balB := getTokenBalance cfg (tokenMintB pool) in
  let* short := usdcCheck (tokenMintA pool) (tokenMintB pool) ourA ourB balA balB in
  match short with
  | Some why => do* set_reason why in ret None
  | None => ret (Some (balA, balB))
  end.

Definition MAX_OPEN_ATTEMPTS : nat := 2.

Definition open_deposit (r : OpenRequest) (target : WpPosition) (pool : Whirlpool) (ourA ourB balA balB : BN)
    : P (option string) :=
  if bn_isZero balA && bn_isZero balB then ret None
  else deposit_loop pool (open_once r pool target ourA ourB) MAX_OPEN_ATTEMPTS balA balB.

(** Buy token B, then deposit. *)
Definition open_sideB (r : OpenRequest) (target : WpPosition) (pool : Whirlpool) (ourA ourB balA balB : BN)
    (swapped : Swapped) : P (option string) :=
  let mB := tokenMintB pool in
  try_with r swapped (fund (swapForB (tokenMintA pool) mB ourA balA) mB ourB balB) (fun fb =>
  match fb with
  | NoSwap => ret None
  | Enough => try_with r swapped (open_deposit r target pool ourA ourB balA balB) ret
  | Bought b added =>
      try_with r swapped (lift (acquired mB balB b added)) (fun new =>
      try_with r (swapped ++ new) (open_deposit r target pool ourA ourB balA b) ret)
  end).

(** Buy token A; the swap may have spent token B. *)
Definition open_sideA (r : OpenRequest) (target : WpPosition) (pool : Whirlpool) (ourA ourB balA balB : BN)
    : P (option string) :=
  let mA := tokenMintA pool in
  try_with r [] (fund (swapForA mA (tokenMintB pool) balB) mA ourA balA) (fun fa =>
  match fa with
  | NoSwap => ret None
  | Enough => open_sideB r target pool ourA ourB balA balB []
  | Bought a added =>
      try_with r [] (lift (acquired mA balA a added)) (fun new =>
      try_with r new (getTokenBalance cfg (tokenMintB pool)) (fun b =>
      open_sideB r target pool ourA ourB a b new))
  end).

Definition open_body (r : OpenRequest) : P (option string) :=
  try_with r [] (prepare r) (fun prepared =>
  match prepared with
  | None => ret None
  | Some (target, pool, ourA, ourB) =>
      try_with r [] (balancesFor pool ourA ourB) (fun bals =>
      match bals with
      | None => ret None
      | Some (balA, balB) => open_sideA r target pool ourA ourB balA balB
      end)
  end).

(** The reason not to start, in the order of the guards. *)
Definition openGuard (r : OpenRequest) (b : Bot) : option (option string) :=
  if truthy (PositionMap.get (targetNft r) (positionMap b)) then Some None
  else if default false (solPaused <$> orcaExecutor b) then Some (Some "SOL 不足暫停"%string)
  else if default false (drawdownPaused <$> orcaExecutor b) then Some (Some "回撤保護暫停"%string)
  else if shas (targetWallet r) (orcaCloseOnlyWallets cfg) then Some (Some "Close-only 錢包"%string)
  else None.

Definition copyOpenPosition (r : OpenRequest) : P (option string) :=
  let* stop := gets (openGuard r) in
  match stop with
  | Some None => ret None
  | Some (Some why) => do* set_reason why in ret None
  | None =>
      if dryRun cfg then ret (Some "dry-run-orca-open"%string)
      else
        let* got := acquire in
        if got then finally (open_body r) (do* release in spawn (RefreshSolOf Orca)) else ret None
  end.

(** ** [copyIncreaseLiquidity] *)

(** A side that is not stable, or token B. *)
Definition increaseTvlLow (pool : Whirlpool) (poolAddr : string) : P bool :=
  if nlt (num_of_Z 0) (minPoolTvl cfg) then
    let a := tokenMintA pool in
    let checkMint :=
      if negb (shas a STABLE_MINTS) && negb (bool_decide (a = NATIVE_MINT)) then a else tokenMintB pool in
    let* t := MarketData.checkTokenLiquidity cfg checkMint (Some (getOrcaPoolTvl poolAddr)) in
    ret (too_low t)
  else ret false.

(** Our scaled estimate of the target against the estimate of our own. *)
Definition deltas_of (pool : Whirlpool) (ext targetWallet : string) (target mine : WpPosition) : outcome (BN * BN) :=
  let! targetQuote := decreaseLiquidityQuoteByLiquidity (ps_liquidity target) (getSlippage cfg) target pool ext in
  let! ourA := Ratio.scaleAmount (ratios cfg) targetQuote.1 (Some targetWallet) in
  let! ourB := Ratio.scaleAmount (ratios cfg) targetQuote.2 (Some targetWallet) in
  let! myQuote := decreaseLiquidityQuoteByLiquidity (ps_liquidity mine) (getSlippage cfg) mine pool ext in
  Ret (bn_sub ourA myQuote.1, bn_sub ourB myQuote.2).

(** [None]: the target cannot be read.  A second attempt re-reads both. *)
Fixpoint deltas_loop (pool : Whirlpool) (ext targetNft myNft targetWallet : string) (my : WpPosition)
    (attempt : Z) (left : nat) (last : BN * BN) : P (option (BN * BN)) :=
  match left with
  | O => ret (Some last)
  | S left' =>
      do* (if 0 <? attempt then sleep 3000 else ret tt) in
      let* target := readPosition targetNft in
      match target with
      | None => ret None
      | Some t =>
          let* fresh := if 0 <? attempt then readPosition myNft else ret (Some my) in
          let* d := lift (deltas_of pool ext targetWallet t (default my fresh)) in
          let* z := lift zero in
          if bn_gt d.1 z || bn_gt d.2 z then ret (Some d)
          else deltas_loop pool ext targetNft myNft targetWallet my (attempt + 1) left' d
      end
  end.

Definition positive (d : BN) : outcome BN := let! z := zero in Ret (if bn_gt d z then d else z).

(** Both balances after buying what is missing; [None] aborts. *)
Definition fundBoth (pool : Whirlpool) (needA needB : BN) : P (option (BN * BN)) :=
  let mA := tokenMintA pool in
  let mB := tokenMintB pool in
  let* balA := getTokenBalance cfg mA in
  let* balB := getTokenBalance cfg mB in
  let* fa := fund (swapForA mA mB balB) mA needA balA in
  let* bals :=
    match fa with
    | NoSwap => ret None
    | Enough => ret (Some (balA, balB))
    | Bought a _ => let* b := getTokenBalance cfg mB in ret (Some (a, b))
    end in
  match bals with
  | None => ret None
  | Some (a, b) =>
      let* fb := fund (swapForB mA mB needA a) mB needB b in
      ret (match fb with
           | NoSwap => None
           | Enough => Some (a, b)
           | Bought b' _ => Some (a, b')
           end)
  end.

Definition increase_once (targetNft : string) (my : WpPosition) (needA needB : BN) (bals : BN * BN) : P string :=
  let* input := lift (increaseInput needA needB bals.1 bals.2) in
  let* tx := orca (WpIncreaseLiquidity my input) in
  let* txSig := buildAndExecute tx in
  do* catch
    (let* updated := readPosition targetNft in
     match updated with
     | Some u => on_positionMap (PositionMap.setTargetLiquidity targetNft (bn_toString (ps_liquidity u)))
     | None => ret tt
     end)
    (fun _ => ret tt) in
  ret txSig.

Definition MAX_INCREASE_ATTEMPTS : nat := 2.

Definition increase_by (targetNft : string) (my : WpPosition) (pool : Whirlpool) (deltas : BN * BN) : P (option string) :=
  let* needA := lift (positive deltas.1) in
  let* needB := lift (positive deltas.2) in
  let* bals := fundBoth pool needA needB in
  match bals with
  | None => ret None
  | Some (a, b) =>
      deposit_loop pool (increase_once targetNft my needA needB) MAX_INCREASE_ATTEMPTS a b
  end.

Definition increase_body (targetNft myNft targetWallet : string) : P (option string) :=
  let* read := readPosition myNft in
  match read with
  | None => ret None
  | Some my =>
      let* pool := getPool (ps_whirlpool my) in
      let* blocked := ByrealOpen.pumpBlockedFor cfg (tokenMintA pool) (tokenMintB pool) in
      if (blocked : bool) then ret None
      else
        let* low := increaseTvlLow pool (ps_whirlpool my) in
        if (low : bool) then ret None
        else
          do* sleep 2000 in
          let* ext := orca (BuildTokenExtensionContext MainClient (tokenMintA pool) (tokenMintB pool)) in
          let* z := lift zero in
          let* deltas := deltas_loop pool ext targetNft myNft targetWallet my 0 2 (z, z) in
          match deltas with
          | None => ret None
          | Some d =>
              if bn_lte d.1 z && bn_lte d.2 z then ret None else increase_by targetNft my pool d
          end
  end.

Definition increaseGuard (targetWallet : string) (b : Bot) : bool :=
  default false (solPaused <$> orcaExecutor b) || default false (drawdownPaused <$> orcaExecutor b)
  || shas targetWallet (orcaCloseOnlyWallets cfg).

Definition copyIncreaseLiquidity (targetNft targetWallet : string) : P (option string) :=
  let* my := mapped targetNft in
  match my with
  | Some myNft =>
      if negb (truthy myNft) then ret None
      else
        let* stop := gets (increaseGuard targetWallet) in
        if (stop : bool) then ret None
        else if dryRun cfg then ret (Some "dry-run-orca-increase"%string)
        else locked Orca None (catch (increase_body targetNft myNft targetWallet) (fun _ => ret None))
  | None => ret None
  end.

End OrcaOpen.

End OrcaOpen.
