(* ===== verification/OrcaAssets.v ===== *)
(** * What the Orca positions are worth ([src/executor/orca-position.ts])

    [getOrcaLpValueUsd], the value of all positions and of their unclaimed
    fees, and [getPositionAssets], the tokens in positions mint by mint, cached
    for five minutes.  Both walk over the mapped Orca positions with a client of
    a free RPC, leave out a position that cannot be read, and ask Jupiter for
    the prices once. *)

From S2P Require Import Prelude JsMap JsString JsNumber Json Async TxTypes PositionMap State Chain MarketData ByrealAssets OrcaOps OrcaOpen.
Open Scope Z_scope.
Open Scope list_scope.
Open Scope prog_scope.

Module OrcaAssets.
Import Async State Chain OrcaOps OrcaOpen.

(** The value of all positions, of their fees, and how many there are. *)
Record LpValue := mkLpValue { lpUsd : num; feeUsd : num; count : nat }.

Section OrcaAssets.
Context `{L : BNLib} `{W : Web3} `{WP : Whirlpools (L := L)} (cfg : Settings).

(** ** Reading a position *)

Definition set_freeRpcIdx (i : Z) : P unit :=
  modify (on_orca (fun o => mkOrcaVars (orcaSolBalance o) (orcaRent o) (orcaAssets o) (decimalsCache o) i (orcaTvlCache o))).

(** The next of the free RPCs, or the read client. *)
Definition getFreeClient : P Client :=
  match rpcUrlsFree cfg with
  | [] => ret ReadClient
  | urls =>
      let* i := gets (fun b => freeRpcIdx (orcaVars (dexVars b))) in
      do* set_freeRpcIdx (i + 1) in
      ret (FreeClient (default ""%string (urls !! Z.to_nat (i mod Z.of_nat (length urls)))))
  end.

Definition set_decimals (k : string) (d : Z) : P unit :=
  modify (on_orca (fun o => mkOrcaVars (orcaSolBalance o) (orcaRent o) (orcaAssets o) (jset k d (decimalsCache o)) (freeRpcIdx o)
    (orcaTvlCache o))).

(** 9 when the mint is unknown; only an answer is cached. *)
Definition getMintDecimals (client : Client) (mint_ : string) : P Z :=
  let* cached := gets (fun b => jget mint_ (decimalsCache (orcaVars (dexVars b)))) in
  match cached with
  | Some d => ret d
  | None =>
      catch
        (let* info := orca (GetMintInfo client mint_) in
         let d := default 9 (info : option Z) in
         do* set_decimals mint_ d in
         ret d)
        (fun _ => ret 9)
  end.

(** [None]: there is nothing in it. *)
Definition readOne (client : Client) (ourNft : string) : P (option (WpPosition * Whirlpool * string)) :=
  let* k := lift (publicKey ourNft) in
  let* pda := lift (positionPda k) in
  let* pos := orca (WpGetPosition client pda) in
  match (pos : option WpPosition) with
  | None => ret None
  | Some p =>
      if bn_isZero (ps_liquidity p) then ret None
      else
        let* pool := (orca (WpGetPool client (ps_whirlpool p)) : P Whirlpool) in
        let* ext := (orca (BuildTokenExtensionContext client (tokenMintA pool) (tokenMintB pool)) : P string) in
        ret (Some (p, pool, ext))
  end.

(** The loop over the positions: one that is skipped costs no pause, one that
    failed does. *)
Fixpoint each_position {A E} (pause : Z) (read : E -> P (option A)) (es : list E) : P (list A) :=
  match es with
  | [] => ret []
  | e :: es' =>
      let* r := catch (let* a := read e in ret (Some a)) (fun _ => ret None) in
      match r with
      | Some None => each_position pause read es'
      | Some (Some a) => do* sleep pause in let* rest := each_position pause read es' in ret (a :: rest)
      | None => do* sleep pause in each_position pause read es'
      end
  end.

Definition ui (amount : BN) (decimals : Z) : num := ByrealAssets.ui_amount amount decimals.

(** ** Prices *)

(** [usdPrice] of each mint, where it is not 0. *)
Definition read_prices (json : Json) : list (string * num) :=
  omap (fun kv =>
    match jopt (Some kv.2) "usdPrice" with
    | Some p => if truthy p then Some (kv.1, parseFloat (jstring p)) else None
    | None => None
    end) (jentries json).

Definition fetchPricesWith (headers : list (string * string)) (mints : list string) : P (list (string * num)) :=
  catch
    (let* res := await (Fetch (mkUrl "https://api.jup.ag/price/v3" [("ids", join "," mints)]%string) "GET" headers None) in
     if r_ok res then let* json := await (ReadJson res) in ret (read_prices json) else ret [])
    (fun _ => ret []).

Definition fetchPrices (mints : list string) : P (list (string * num)) :=
  fetchPricesWith [("x-api-key", default ""%string (jupApiKey cfg))]%string mints.

(** ** [getOrcaLpValueUsd] *)

Record Worth := mkWorth {
  v_mintA : string; v_mintB : string; v_lpA : num; v_lpB : num; v_feeA : num; v_feeB : num;
}.

(** Fees beyond reason, of freshly opened positions, count as none. *)
Definition saneFee (fee : BN) (decimals : Z) : outcome num :=
  let! limit := bn_of_string "1000000000000000" in
  Ret (if bn_gt fee limit then num_of_Z 0 else ui fee decimals).

Definition worthOf (client : Client) (ourNft : string) : P (option Worth) :=
  let* r := readOne client ourNft in
  match r with
  | None => ret None
  | Some (p, pool, ext) =>
      let* liq := lift (decreaseLiquidityQuoteByLiquidity (ps_liquidity p) (num_of_Z 0) p pool ext) in
      let* fee := lift (collectFeesQuote pool p ext) in
      let* decA := getMintDecimals client (tokenMintA pool) in
      let* decB := getMintDecimals client (tokenMintB pool) in
      let* feeA := lift (saneFee fee.1 decA) in
      let* feeB := lift (saneFee fee.2 decB) in
      ret (Some (mkWorth (tokenMintA pool) (tokenMintB pool) (ui liq.1 decA) (ui liq.2 decB) feeA feeB))
  end.

(** [m.set(k, (m.get(k) || 0) + x)] *)
Definition add_to (k : string) (x : num) (m : list (string * num)) : list (string * num) :=
  jset k (nadd (MarketData.or_zero (default (num_of_Z 0) (jget k m))) x) m.

Definition lpTotals (ws : list Worth) : list (string * num) :=
  foldl (fun m w => add_to (v_mintB w) (v_lpB w) (add_to (v_mintA w) (v_lpA w) m)) [] ws.
Definition feeTotals (ws : list Worth) : list (string * num) :=
  foldl (fun m w => add_to (v_mintB w) (v_feeB w) (add_to (v_mintA w) (v_feeA w) m)) [] ws.
Definition mintsNeeded (ws : list Worth) : list string :=
  foldl (fun s w => sadd (v_mintB w) (sadd (v_mintA w) s)) [] ws.

Definition priced (prices totals : list (string * num)) : num :=
  foldl (fun usd ma => nadd usd (nmul ma.2 (MarketData.or_zero (default (num_of_Z 0) (jget ma.1 prices))))) (num_of_Z 0) totals.

(** [+x.toFixed(n)] *)
Definition rounded (x : num) (n : nat) : num := parseFloat (toFixed x n).

Definition getOrcaLpValueUsd : P LpValue :=
  let none := mkLpValue (num_of_Z 0) (num_of_Z 0) 0 in
  let* es := gets (fun b => orcaEntries (positionMap b)) in
  match es with
  | [] => ret none
  | _ =>
      let* client := getFreeClient in
      let* ws := each_position 300 (fun e => worthOf client e.2) es in
      match ws with
      | [] => ret none
      | _ =>
          let* prices := fetchPrices (mintsNeeded ws) in
          ret (mkLpValue (rounded (priced prices (lpTotals ws)) 2) (rounded (priced prices (feeTotals ws)) 2) (length ws))
      end
  end.

(** ** [getPositionAssets] *)

Definition LP_ASSETS_TTL : Z := 5 * 60 * 1000.

Record Held := mkHeld {
  h_mintA : string; h_mintB : string; h_decA : Z; h_decB : Z; h_lpA : num; h_lpB : num; h_tvl : option num;
}.

Definition heldIn (client : Client) (ourNft : string) : P (option Held) :=
  let* r := readOne client ourNft in
  match r with
  | None => ret None
  | Some (p, pool, ext) =>
      let* liq := lift (decreaseLiquidityQuoteByLiquidity (ps_liquidity p) (num_of_Z 0) p pool ext) in
      let* decA := getMintDecimals client (tokenMintA pool) in
      let* decB := getMintDecimals client (tokenMintB pool) in
      let* t := getOrcaPoolTvl (ps_whirlpool p) in
      ret (Some (mkHeld (tokenMintA pool) (tokenMintB pool) decA decB (ui liq.1 decA) (ui liq.2 decB) t))
  end.

Abbreviation Totals := (list (string * OrcaAsset)).

(** One side: the balance grows, the other side is added to [pairedStable], a
    known TVL replaces the last one, the decimals are those of the first. *)
Definition add_side (mint_ : string) (decimals : Z) (mine : num) (other : string) (theirs : num) (t : option num)
    (totals : Totals) : Totals :=
  let e := default (mkOrcaAsset (mkLp mint_ (num_of_Z 0) (num_of_Z decimals) [] (num_of_Z 0)) None) (jget mint_ totals) in
  let a := oa_asset e in
  jset mint_ (mkOrcaAsset
      (mkLp mint_ (nadd (lp_balance a) mine) (lp_decimals a) (add_to other theirs (pairedStable a)) (liquidityUsd a))
      (match t with Some _ => t | None => poolTvl e end)) totals.

Definition add_held (totals : Totals) (h : Held) : Totals :=
  add_side (h_mintB h) (h_decB h) (h_lpB h) (h_mintA h) (h_lpA h) (h_tvl h)
    (add_side (h_mintA h) (h_decA h) (h_lpA h) (h_mintB h) (h_lpB h) (h_tvl h) totals).

Definition totals_of (hs : list Held) : Totals := foldl add_held [] hs.

Definition with_usd (usd : num) (e : OrcaAsset) : OrcaAsset :=
  let a := oa_asset e in
  mkOrcaAsset (mkLp (lp_mint a) (lp_balance a) (lp_decimals a) (pairedStable a) usd) (poolTvl e).

(** [entry.liquidityUsd = entry.balance * price] where there is an entry. *)
Definition value_entry (totals : Totals) (mp : string * num) : Totals :=
  match jget mp.1 totals with
  | Some e => jset mp.1 (with_usd (nmul (lp_balance (oa_asset e)) mp.2) e) totals
  | None => totals
  end.

Definition listed (me : string * OrcaAsset) : OrcaAsset :=
  let a := oa_asset me.2 in
  mkOrcaAsset (mkLp me.1 (rounded (lp_balance a) 6) (lp_decimals a) (pairedStable a) (rounded (liquidityUsd a) 2)) (poolTvl me.2).

Definition set_orcaAssets (c : option (list OrcaAsset * Z)) : P unit :=
  modify (on_orca (fun o => mkOrcaVars (orcaSolBalance o) (orcaRent o) c (decimalsCache o) (freeRpcIdx o) (orcaTvlCache o))).

Definition fetchPositionAssets : P (list OrcaAsset) :=
  let* es := gets (fun b => orcaEntries (positionMap b)) in
  match es with
  | [] => ret []
  | _ =>
      let* client := getFreeClient in
      let* hs := each_position 300 (fun e => heldIn client e.2) es in
      let totals := totals_of hs in
      let* prices :=
        match hs with
        | [] => ret []
        | _ => if truthy (jupApiKey cfg) then fetchPrices (jkeys totals) else ret []
        end in
      let items := map listed (foldl value_entry totals prices) in
      let* now := clock in
      do* set_orcaAssets (Some (items, now)) in
      ret items
  end.

Definition getPositionAssets : P (list OrcaAsset) :=
  ByrealAssets.cached (fun b => orcaAssets (orcaVars (dexVars b))) LP_ASSETS_TTL fetchPositionAssets.

End OrcaAssets.

End OrcaAssets.
