(* ===== verification/PcsOps.v ===== *)
(** * The PancakeSwap executor: closing, decreasing, reconciling
    ([src/executor/pancakeswap-position.ts])

    The helpers of [PcsPositionExecutor] and the methods that take liquidity
    out.  PancakeSwap runs a fork of the program behind Byreal and is reached
    through the same SDK, with another program address: the calls are
    [PcsCall]. *)

From Stdlib Require Import Ascii.
From S2P Require Import Prelude JsMap JsString JsNumber Json Async Ratio TxTypes PositionMap Store Stores State Chain JupiterSwap ByrealOps.
Open Scope Z_scope.
Open Scope list_scope.
Open Scope prog_scope.

Module PcsOps.
Import Async State Chain ByrealOps.

Definition MIN_SDK_PRIORITY_FEE_MICROLAMPORTS : Z := 1.

Section PcsOps.
Context `{L : BNLib} `{W : Web3} (cfg : Settings).

Definition pcs (c : PcsCall) : P (PcsAns c) := await (OnPcs c).

(** ** Transactions *)

Definition stripSdkComputeUnitPriceInstructions (ixs : list Ix) : list Ix :=
  keep (fun ix => negb (bool_decide (x_programId ix = COMPUTE_BUDGET)) || negb (bool_decide (head (x_data ix) = Some 3))) ixs.

Definition makeTransaction (ixs : list Ix) (signers : list string) : P VTx :=
  pcs (MakeTransaction ixs signers MIN_SDK_PRIORITY_FEE_MICROLAMPORTS).

Definition makeSdkTransactionWithMinimumPriorityFee (result : SdkResult) : P VTx :=
  makeTransaction (stripSdkComputeUnitPriceInstructions (s_instructions result)) (s_signers result).

Definition buildSignSend (instructions : P SdkResult) : P string :=
  let* result := instructions in
  let* tx := makeSdkTransactionWithMinimumPriorityFee result in
  signAndSend tx.

(** ** Helpers *)

Definition acquire : P bool := Chain.acquire Pcs.
Definition release : P unit := Chain.release Pcs.

(** [pool.split('/')]; one mint, or more than two, is looked up as it is. *)
Definition isTokenBlacklisted (pool : string) : bool :=
  match pool, split_on "/"%char pool with
  | EmptyString, _ => false
  | _, [a; b] =>
      (pcsSkipSol cfg && (bool_decide (a = NATIVE_MINT) || bool_decide (b = NATIVE_MINT)))
      || shas a (tokenBlacklist cfg) || shas b (tokenBlacklist cfg)
  | _, _ => shas pool (tokenBlacklist cfg)
  end.

Definition hasMapping (targetNft : string) (b : Bot) : bool := truthy (PositionMap.get targetNft (positionMap b)).

Definition getSolBalance : P num :=
  catch
    (let* lamports := await GetBalance in ret (ndiv (num_of_Z lamports) (num_of_Z 1000000000)))
    (fun _ => ret (num_of_Z 0)).

Definition refreshSolBalance : P unit :=
  let* x := getSolBalance in
  modify (on_pcs (fun p => mkPcsVars (Some x) (pcsRent p))).

(** Bytes 64 to 71 of a token account are its amount. *)
Definition account_amount (data : list Z) : BN := bn_of_bytes_le (take 8 (drop 64 data)).

Definition sum_accounts (accounts : list (list Z)) : outcome BN :=
  let! z := zero in Ret (foldl (fun total data => bn_add total (account_amount data)) z accounts).

(** The sum over the accounts under the first program that has any. *)
Fixpoint balance_in (programs : list string) (mint_ : string) : P BN :=
  match programs with
  | [] => lift zero
  | program :: programs' =>
      let* found :=
        catch
          (let* accounts := (pcs (GetTokenAccountsByOwner mint_ program) : P (list (list Z))) in
           match accounts with
           | [] => ret None
           | _ => let* total := lift (sum_accounts accounts) in ret (Some total)
           end)
          (fun _ => ret None) in
      match found with
      | Some total => ret total
      | None => balance_in programs' mint_
      end
  end.

(** 0 when it cannot be read. *)
Definition getTokenBalance (mint_ : string) : P BN :=
  catch
    (if bool_decide (mint_ = NATIVE_MINT) then
       let* lamports := await GetBalance in
       lift (bn_of_int (Some (Z.max 0 (lamports - 50000000))))
     else balance_in [TOKEN_PROGRAM_ID; TOKEN_2022_PROGRAM_ID] mint_)
    (fun _ => lift zero).

(** Five readings, each followed by a pause when it found nothing. *)
Fixpoint position_loop (nftMint : string) (i : Z) (left : nat) : P (option PcsPosition) :=
  match left with
  | O => ret None
  | S left' =>
      let* info := catch (pcs (PcsGetPosition nftMint)) (fun _ => ret None) in
      match (info : option PcsPosition) with
      | Some p => ret (Some p)
      | None =>
          do* sleep (if i =? 0 then 2000 else 3000 * i) in
          position_loop nftMint (i + 1) left'
      end
  end.

Definition retryGetPosition (nftMint : string) : P (option PcsPosition) := position_loop nftMint 0 5.

(** [this.retryGetPosition(new PublicKey(nft))] *)
Definition readPosition (nft : string) : P (option PcsPosition) :=
  let* k := lift (publicKey nft) in retryGetPosition k.

Definition liquidityOf (p : PcsPosition) : BN := i_liquidity (pcs_info p).

Definition isTransient (msg : string) : bool :=
  mentions ["blockhash"; "timeout"; "429"; "ECONNRESET"; "fetch failed"]%string msg.

Fixpoint retry_loop {A} (fn : P A) (i : Z) (left : nat) : P A :=
  match left with
  | O => throw "max retries exceeded"
  | S left' =>
      catch fn (fun e =>
        if isTransient e && negb (left' =? 0)%nat
        then do* sleep (2000 * (i + 1)) in retry_loop fn (i + 1) left'
        else throw e)
  end.

Definition retryOnTransient {A} (fn : P A) : P A := retry_loop fn 0 3.

Definition isRetryableSimError (msg : string) : bool := mentions ["simulation"; "InstructionError"; "0x1"]%string msg.
Definition isTransientError (msg : string) : bool := Chain.isTransientError msg.
Definition retryable (msg : string) : bool := isRetryableSimError msg || isTransientError msg.

(** Confirmed, and read once. *)
Definition verifyTxSuccess (txSig : string) : P bool :=
  catch
    (let* blockhash := await GetLatestBlockhash in
     do* await (ConfirmTransaction txSig blockhash) in
     let* tx := await (GetParsedTransaction txSig) in
     ret (match (tx : option FetchedTx) with
          | Some t => match meta (f_tx t) with Some m => negb (err m) | None => true end
          | None => false
          end))
    (fun _ => ret false).

Definition extractLockedSolFromTx (txSig : string) : P (option num) :=
  catch
    (let* tx := await (GetParsedTransaction txSig) in
     match fetched_meta tx, tx ≫= f_inner with
     | Some _, Some inner =>
         let total := locked_lamports cfg inner in
         ret (if nlt (num_of_Z 0) total then Some (ndiv total (num_of_Z 1000000000)) else None)
     | _, _ => ret None
     end)
    (fun _ => ret None).

(** The task an open starts. *)
Definition updateLockedSol (targetNft txSig : string) : P unit :=
  let* actual := extractLockedSolFromTx txSig in
  match actual with
  | Some x => on_positionMap (PositionMap.setLockedSol targetNft x)
  | None => ret tt
  end.

(** What a transaction brought in is only logged; the reading stays. *)
Definition logReceived (txSig : string) : P unit :=
  catch (do* await (GetParsedTransaction txSig) in ret tt) (fun _ => ret tt).

(** ** [copyClosePosition] *)

Definition decreaseFull (nft : string) (closePosition : bool) : P SdkResult :=
  let* k := lift (publicKey nft) in
  pcs (PcsDecreaseFull k closePosition).

Definition sendClose (ourNft : string) : P string := retryOnTransient (buildSignSend (decreaseFull ourNft true)).

Definition MAX_CLOSE_ATTEMPTS : nat := 3.

Definition close_loop (myNft : string) : P (option string) :=
  close_attempts (let* s := sendClose myNft in ret (Some s)) verifyTxSuccess retryable myNft 0 MAX_CLOSE_ATTEMPTS.

Definition close_body (targetNft myNft : string) : P (option string) :=
  close_with (close_loop myNft) (on_positionMap (PositionMap.delete targetNft)) logReceived myNft.

Definition copyClosePosition (targetNft : string) : P (option string) :=
  let* my := mapped targetNft in
  match my with
  | Some myNft =>
      if negb (truthy myNft) then ret None
      else if dryRun cfg then ret (Some "dry-run-pcs-close"%string)
      else locked Pcs None (close_body targetNft myNft)
  | None => ret None
  end.

(** Forgets the mapping of what it sent, without looking at the transaction. *)
Definition manual_close_body (targetNft : option string) (ourNft : string) : P (option string) :=
  catch
    (let* txSig := sendClose ourNft in
     do* (if truthy targetNft then on_positionMap (PositionMap.delete (default "" targetNft)) else ret tt) in
     ret (Some txSig))
    (fun _ => ret None).

Definition manualClosePosition (ourNft : string) : P (option string) :=
  let* targetNft := gets (fun b => PositionMap.findByOurNft ourNft (positionMap b)) in
  if dryRun cfg then ret (Some "dry-run-pcs-manual-close"%string)
  else locked Pcs None (manual_close_body targetNft ourNft).

(** ** [copyDecreaseLiquidity] *)

Definition targetLiquidity (targetNft : string) : P (option BN) :=
  catch (let* p := readPosition targetNft in ret (liquidityOf <$> p)) (fun _ => ret None).

Definition ourShare (myNft : string) (storedLiq removedLiq : BN) : P (option BN) :=
  catch
    (let* my := readPosition myNft in
     ret ((fun p => proportional (liquidityOf p) storedLiq removedLiq) <$> my))
    (fun _ => ret None).

Definition decreaseAmount (targetNft myNft : string) (current : option BN) : P (option BN) :=
  amountToTakeOut (ourShare myNft) targetNft current.

Definition collectFees (myNft : string) : P string :=
  buildSignSend (let* k := lift (publicKey myNft) in pcs (PcsCollectFees k)).

Definition collect_body (myNft : string) : P (option (string * DecreaseType)) :=
  catch (let* txSig := retryOnTransient (collectFees myNft) in ret (Some (txSig, COLLECT_FEE))) (fun _ => ret None).

(** A partial decrease of what is left of our liquidity, if anything is. *)
Definition decrease_partly (myNft : string) (amount : BN) : P (option (string * DecreaseType)) :=
  let* my := readPosition myNft in
  match my with
  | None => ret None
  | Some p =>
      let liquidityToDecrease := bn_min amount (liquidityOf p) in
      if bn_isZero liquidityToDecrease then
        catch (let* txSig := collectFees myNft in ret (Some (txSig, COLLECT_FEE))) (fun _ => ret None)
      else
        let* txSig := retryOnTransient
          (buildSignSend (let* k := lift (publicKey myNft) in pcs (PcsDecrease k liquidityToDecrease))) in
        do* logReceived txSig in
        ret (Some (txSig, DECREASE))
  end.

Definition decrease_once (myNft : string) (amount : option BN) : P (option (string * DecreaseType)) :=
  match amount with
  | Some a => decrease_partly myNft a
  | None =>
      let* txSig := retryOnTransient (buildSignSend (decreaseFull myNft false)) in
      ret (Some (txSig, DECREASE))
  end.

Definition decrease_body (myNft : string) (amount : option BN) : P (option (string * DecreaseType)) :=
  catch (let* r := attempts 2 retryable (decrease_once myNft amount) in ret (mjoin r)) (fun _ => ret None).

Definition copyDecreaseLiquidity (targetNft : string) : P (option (string * DecreaseType)) :=
  let* my := mapped targetNft in
  match my with
  | Some myNft =>
      if negb (truthy myNft) then ret None
      else
        let* current := targetLiquidity targetNft in
        let* amount := decreaseAmount targetNft myNft current in
        let feesOnly := match amount with Some a => bn_isZero a | None => false end in
        if feesOnly then
          if dryRun cfg then ret (Some ("dry-run-pcs-collect-fee"%string, COLLECT_FEE))
          else locked Pcs None (collect_body myNft)
        else if dryRun cfg then ret (Some ("dry-run-pcs-decrease"%string, DECREASE))
        else locked Pcs None (decrease_body myNft amount)
  | None => ret None
  end.

(** ** Maintenance *)

Definition initRentPerPosition : P unit :=
  catch
    (let* rentPDA := await (GetMinimumBalanceForRentExemption 281) in
     let* rentMint := await (GetMinimumBalanceForRentExemption 270) in
     let* rentATA := await (GetMinimumBalanceForRentExemption 170) in
     modify (on_pcs (fun p => mkPcsVars (pcsSolBalance p)
       (ndiv (num_of_Z (rentPDA + rentMint + 1322400 + rentATA)) (num_of_Z 1000000000)))))
    (fun _ => ret tt).

Definition is_pcs (e : PositionEntry) : bool := bool_decide (dex e = Some "pancakeswap"%string).

Definition pcsEntries (pm : PositionMap.t) : list (string * PositionEntry) :=
  keep (fun te => is_pcs te.2) (PositionMap.toJSON pm).

Definition backfillLockedSol : P unit :=
  modify (fun b =>
    let missing := keep (fun te => bool_decide (lockedSol te.2 = None)) (pcsEntries (positionMap b)) in
    set_positionMap
      (foldl (fun pm te => PositionMap.setLockedSol te.1 (pcsRent (pcsVars (dexVars b))) pm) (positionMap b) missing) b).

Definition lookup (nft : string) : P (option PcsPosition) :=
  let* k := lift (publicKey nft) in pcs (PcsGetPosition k).

Definition isPcsPosition (nftMint : string) : P bool :=
  catch (let* info := lookup nftMint in ret (match info with Some _ => true | None => false end)) (fun _ => ret false).

(** A target that answers null; an error is skipped. *)
Definition is_orphan (targetNft : string) : P bool :=
  catch (let* p := lookup targetNft in ret (match p with None => true | Some _ => false end)) (fun _ => ret false).

Fixpoint scan (es : list (string * PositionEntry)) : P (list string) :=
  match es with
  | [] => ret []
  | e :: es' =>
      let* orphan := is_orphan e.1 in
      do* sleep 500 in
      let* rest := scan es' in
      ret (if orphan then e.1 :: rest else rest)
  end.

Definition reconcilePcsPositions : P unit :=
  let* es := gets (fun b => pcsEntries (positionMap b)) in
  let* orphans := scan es in
  for_each (fun t => spawn (Enqueue ("PCS-RECONCILE:" +:+ String.substring 0 8 t) (ManualCloseOf Pcs t))) orphans.

(** The job it enqueues. *)
Definition orphanClose (targetNft : string) : P unit :=
  let* our := mapped targetNft in
  match our with
  | Some ourNft => if truthy ourNft then do* manualClosePosition ourNft in ret tt else ret tt
  | None => ret tt
  end.

End PcsOps.

End PcsOps.
