(* ===== verification/PcsOpen.v ===== *)
(** * The PancakeSwap executor: opening, increasing, valuing
    ([src/executor/pancakeswap-position.ts])

    [copyOpenPosition] and [copyIncreaseLiquidity], and the two listings,
    [getPcsLpDetails] and [getPositionAssets]. *)

From Stdlib Require Import Ascii.
From S2P Require Import Prelude JsMap JsString JsNumber Json Async Ratio TxTypes PositionMap Store Stores PumpPending State Chain JupiterSwap MarketData ByrealAssets ByrealOps ByrealOpen OrcaAssets PcsOps.
Open Scope Z_scope.
Open Scope list_scope.
Open Scope prog_scope.

Module PcsOpen.
Import Async State Chain ByrealOps OrcaAssets PcsOps.

Section PcsOpen.
Context `{L : BNLib} `{W : Web3} (cfg : Settings).

(** ** Filters *)

Definition set_reason (r : string) : P unit := modify (on_executor Pcs (with_lastSkipReason (Some r))).

Definition blacklistFilter (pool : PoolInfo) : P (option string) :=
  ret (if isTokenBlacklisted cfg (mintA pool +:+ "/" +:+ mintB pool) then Some "黑名單代幣"%string else None).

Definition openFilters (info : PositionInfo) (targetWallet : option string) : list (P (option string)) :=
  let pool := rawPoolInfo info in
  [blacklistFilter pool;
   ByrealOpen.pumpFilterFor cfg (fun _ => ""%string) (mintA pool) (mintB pool) targetWallet;
   ByrealOpen.tvlFilter cfg pool;
   ByrealOpen.tickFilter cfg info targetWallet].

(** ** Funding *)

Definition swapForA (mA mB : string) (balB : BN) (deficit : string) : P (option string) :=
  if bool_decide (mA = NATIVE_MINT) then
    if bool_decide (mA = USDC) then ret None else JupiterSwap.swapForToken cfg USDC mA deficit
  else
    let* first := if bn_isZero balB then ret None else JupiterSwap.swapForToken cfg mB mA deficit in
    if negb (truthy first) && negb (bool_decide (mA = USDC)) then JupiterSwap.swapForToken cfg USDC mA deficit
    else ret first.

Definition swapForB (mA mB : string) (balA : BN) (deficit : string) : P (option string) :=
  if bool_decide (mB = NATIVE_MINT) then
    if bool_decide (mB = USDC) then ret None else JupiterSwap.swapForToken cfg USDC mB deficit
  else
    let* first := if bool_decide (mB = USDC) then ret None else JupiterSwap.swapForToken cfg USDC mB deficit in
    if negb (truthy first) && negb (bn_isZero balA) then JupiterSwap.swapForToken cfg mA mB deficit
    else ret first.

Definition balanceAfter (sig mint_ : string) (balance : BN) : P BN :=
  let* added := JupiterSwap.getActualSwapOutput sig mint_ (userAddress cfg) in
  if truthy added then
    let* d := lift (bn_of_string (default "" added)) in ret (bn_add balance d)
  else
    do* sleep 5000 in
    getTokenBalance mint_.

(** The balance after buying what is missing; [onFail] when no swap went
    through. *)
Definition fund (onFail : P (option BN)) (swap : string -> P (option string)) (mint_ : string) (target balance : BN)
    : P (option BN) :=
  if bn_lt balance target && negb (bn_isZero target) then
    let* sig := swap (bn_toString (bn_sub target balance)) in
    match sig with
    | Some s => if truthy s then let* b := balanceAfter s mint_ balance in ret (Some b) else onFail
    | None => onFail
    end
  else ret (Some balance).

Definition swapFailed (mint_ : string) : P (option BN) :=
  let* e := gets (fun b => lastSwapError (swapVars b)) in
  do* notify (notifySwapFailed mint_ (or_else (Some e) "all methods failed"%string)) in
  ret None.

(** Both sides; an open aborts when a swap fails, an increase goes on with what
    there is.  [None] aborts, also when there is nothing at all. *)
Definition fundBoth (abort : bool) (mA mB : string) (targetA targetB : BN) : P (option (BN * BN)) :=
  let fail mint_ balance := if abort then swapFailed mint_ else ret (Some balance) in
  let* balA := getTokenBalance mA in
  let* balB := getTokenBalance mB in
  let* fa := fund (fail mA balA) (swapForA mA mB balB) mA targetA balA in
  match fa with
  | None => ret None
  | Some a =>
      let* fb := fund (fail mB balB) (swapForB mA mB a) mB targetB balB in
      ret (match fb with
           | None => None
           | Some b => if bn_isZero a && bn_isZero b then None else Some (a, b)
           end)
  end.

(** The attempts of an open and of an increase. *)
Definition deposit_loop (pool : PoolInfo) (targetA targetB : BN) (once : ByrealOpen.Deposit -> P string) (max : nat)
    (bals : BN * BN) : P (option string) :=
  deposit_attempts
    (let* a := getTokenBalance (mintA pool) in
     let* b := getTokenBalance (mintB pool) in
     ret (a, b))
    isRetryableSimError (fun bals => ByrealOpen.deposit targetA targetB bals.1 bals.2) once 0 max bals.

(** ** [copyOpenPosition] *)

Record OpenRequest := mkPcsOpen { targetNft : string; poolId : string; targetWallet : option string }.

Definition poolLabel (pool : PoolInfo) : string := mintA pool +:+ "/" +:+ mintB pool.

Definition saveMapping (r : OpenRequest) (info : PositionInfo) (nft : string) : P unit :=
  let pool := rawPoolInfo info in
  let* now := clock in
  let* dbnow := clock in
  do* on_positionMap (PositionMap.set now dbnow (targetNft r) nft (Some (poolLabel pool)) (targetWallet r)
        (Some (i_tickLower info)) (Some (i_tickUpper info)) (Some "pancakeswap"%string)) in
  do* modify (fun b => set_positionMap
        (PositionMap.setLockedSol (targetNft r) (pcsRent (pcsVars (dexVars b))) (positionMap b)) b) in
  do* on_positionMap (PositionMap.setTargetLiquidity (targetNft r) (bn_toString (i_liquidity info))) in
  modify (on_executor Pcs (with_poolIdToMints (poolId r) (poolLabel pool))).

Definition open_once (r : OpenRequest) (info : PositionInfo) (d : ByrealOpen.Deposit) : P string :=
  let pool := rawPoolInfo info in
  let* created := (pcs (PcsCreatePosition pool (i_tickLower info) (i_tickUpper info)
                     (ByrealOpen.base d) (ByrealOpen.baseAmount d) (ByrealOpen.otherAmountMax d)) : P OpenResult) in
  let* txSig := retryOnTransient
    (let* tx := makeTransaction (s_instructions (o_sdk created)) (s_signers (o_sdk created)) in signAndSend tx) in
  do* (if truthy (nftAddress created) then saveMapping r info (nftAddress created) else ret tt) in
  do* ByrealOpen.confirmBestEffort txSig in
  do* spawn (UpdateLockedSolOf Pcs (targetNft r) txSig) in
  ret txSig.

Definition MAX_OPEN_ATTEMPTS : nat := 2.

Definition open_funded (r : OpenRequest) (info : PositionInfo) : P (option string) :=
  let pool := rawPoolInfo info in
  let* targetA := lift (Ratio.scaleAmount (ratios cfg) (amountA info) (targetWallet r)) in
  let* targetB := lift (Ratio.scaleAmount (ratios cfg) (amountB info) (targetWallet r)) in
  let* bals := fundBoth true (mintA pool) (mintB pool) targetA targetB in
  match bals with
  | None => ret None
  | Some ab => deposit_loop pool targetA targetB (open_once r info) MAX_OPEN_ATTEMPTS ab
  end.

Definition open_body (r : OpenRequest) : P (option string) :=
  let* read := readPosition (targetNft r) in
  match read with
  | None => ret None
  | Some p =>
      let* reason := ByrealOpen.firstReason (openFilters (pcs_info p) (targetWallet r)) in
      match reason with
      | Some why => do* set_reason why in ret None
      | None => open_funded r (pcs_info p)
      end
  end.

Definition openFailed (r : OpenRequest) (e : string) : P (option string) :=
  do* notify (notifyOpenFailed e (targetNft r)) in
  if mentions ["insufficient lamports"]%string e then
    let* now := clock in
    do* modify (on_executor Pcs (with_solPaused now)) in
    let* sol := gets (fun b => pcsSolBalance (pcsVars (dexVars b))) in
    do* notify (notifySolInsufficient (default (num_of_Z 0) sol)) in
    ret None
  else ret None.

Definition copyOpenPosition (r : OpenRequest) : P (option string) :=
  let* my := mapped (targetNft r) in
  if truthy my then ret None
  else if dryRun cfg then ret (Some "dry-run-pcs-open"%string)
  else
    let* got := acquire in
    if got then finally (catch (open_body r) (openFailed r)) (do* release in spawn (RefreshSolOf Pcs)) else ret None.

(** ** [copyIncreaseLiquidity] *)

Definition increase_once (targetNft myNft : string) (d : ByrealOpen.Deposit) : P string :=
  let* txSig := retryOnTransient
    (let* k := lift (publicKey myNft) in
     let* tx := (pcs (PcsAddLiquidity k (ByrealOpen.base d) (ByrealOpen.baseAmount d) (ByrealOpen.otherAmountMax d)
                   MIN_SDK_PRIORITY_FEE_MICROLAMPORTS) : P VTx) in
     signAndSend tx) in
  do* catch
    (let* updated := readPosition targetNft in
     match updated with
     | Some u => on_positionMap (PositionMap.setTargetLiquidity targetNft (bn_toString (liquidityOf u)))
     | None => ret tt
     end)
    (fun _ => ret tt) in
  ret txSig.

Definition MAX_ATTEMPTS : nat := 2.

(** What is missing from our position. *)
Definition delta (full mine : BN) : outcome BN := if bn_gt full mine then Ret (bn_sub full mine) else zero.

Definition increase_by (targetNft myNft : string) (targetWallet : option string) (info : PositionInfo) : P (option string) :=
  let pool := rawPoolInfo info in
  let* fullA := lift (Ratio.scaleAmount (ratios cfg) (amountA info) targetWallet) in
  let* fullB := lift (Ratio.scaleAmount (ratios cfg) (amountB info) targetWallet) in
  let* mine := readPosition myNft in
  let* myA := match mine with Some m => ret (amountA (pcs_info m)) | None => lift zero end in
  let* myB := match mine with Some m => ret (amountB (pcs_info m)) | None => lift zero end in
  let* targetA := lift (delta fullA myA) in
  let* targetB := lift (delta fullB myB) in
  if bn_isZero targetA && bn_isZero targetB then ret None
  else
    let* bals := fundBoth false (mintA pool) (mintB pool) targetA targetB in
    match bals with
    | None => ret None
    | Some ab => deposit_loop pool targetA targetB (increase_once targetNft myNft) MAX_ATTEMPTS ab
    end.

Definition increase_body (targetNft myNft : string) (targetWallet : option string) : P (option string) :=
  do* sleep 2000 in
  let* read := readPosition targetNft in
  match read with
  | None => ret None
  | Some p => increase_by targetNft myNft targetWallet (pcs_info p)
  end.

Definition copyIncreaseLiquidity (targetNft : string) (targetWallet : option string) : P (option string) :=
  let* my := mapped targetNft in
  match my with
  | Some myNft =>
      if negb (truthy myNft) then ret None
      else if dryRun cfg then ret (Some "dry-run-pcs-increase"%string)
      else locked Pcs None (catch (increase_body targetNft myNft targetWallet) (fun _ => ret None))
  | None => ret None
  end.

(** ** [getPcsLpDetails] *)

(** [prices[mint] = parseFloat(data.data[mint].price)] where there is one. *)
Definition read_price (data : Json) (mint_ : string) : option (string * num) :=
  match jopt (jopt (jopt (Some data) "data") mint_) "price" with
  | Some p => if truthy p then Some (mint_, parseFloat (jstring p)) else None
  | None => None
  end.

(** An answer of null throws, and gives no prices. *)
Definition fetchPrices (mints : list string) : P (list (string * num)) :=
  match mints with
  | [] => ret []
  | _ =>
      catch
        (let* res := JupiterSwap.jupiterFetch cfg (mkUrl "https://api.jup.ag/price/v2" [("ids", join "," mints)]%string)
                       "GET" [] None in
         if r_ok res then
           let* data := await (ReadJson res) in
           match (data : Json) with
           | JNull => throw "Cannot read properties of null (reading 'data')"
           | _ => ret (omap (read_price data) mints)
           end
         else ret [])
        (fun _ => ret [])
  end.

Definition pool_mints (es : list (string * PositionEntry)) : list string :=
  set_of (concat (map (fun te =>
    match pool te.2 with Some p => if truthy p then split_on "/"%char p else [] | None => [] end) es)).

(** [feeAmount ? parseFloat(feeAmount.toString()) / 10 ** decimals : 0] *)
Definition fee_ui (fee : option BN) (decimals : Z) : num :=
  match fee with Some f => ByrealAssets.ui_amount f decimals | None => num_of_Z 0 end.

Definition price_of (prices : list (string * num)) (m : string) : num := MarketData.or_zero (default (num_of_Z 0) (jget m prices)).

(** The value of a position, and of its fees. *)
Definition details_of (prices : list (string * num)) (p : PcsPosition) : num * num :=
  let i := pcs_info p in
  let pool := rawPoolInfo i in
  let priceA := price_of prices (mintA pool) in
  let priceB := price_of prices (mintB pool) in
  (nadd (nmul (parseFloat (uiAmountA i)) priceA) (nmul (parseFloat (uiAmountB i)) priceB),
   nadd (nmul (fee_ui (feeAmountA p) (mintDecimalsA pool)) priceA)
        (nmul (fee_ui (feeAmountB p) (mintDecimalsB pool)) priceB)).

Definition getPcsLpDetails : P LpValue :=
  let* es := gets (fun b => pcsEntries (positionMap b)) in
  match es with
  | [] => ret (mkLpValue (num_of_Z 0) (num_of_Z 0) 0)
  | _ =>
      let* prices := fetchPrices (pool_mints es) in
      let* ps := OrcaAssets.each_position 200 (fun te => lookup (ourNft te.2)) es in
      let ds := map (details_of prices) ps in
      ret (mkLpValue (foldl (fun acc d => nadd acc d.1) (num_of_Z 0) ds) (foldl (fun acc d => nadd acc d.2) (num_of_Z 0) ds)
             (length ps))
  end.

(** ** [getPositionAssets] *)

(** [addToMint]: the balance grows; what it is paired with counts where stable. *)
Definition addToMint (mint_ : string) (amount : num) (decimals : Z) (pairedMint : string) (pairedAmount : num)
    (totals : list (string * LpAsset)) : list (string * LpAsset) :=
  let e := default (mkLp mint_ (num_of_Z 0) (num_of_Z decimals) [] (num_of_Z 0)) (jget mint_ totals) in
  jset mint_
    (mkLp mint_ (nadd (lp_balance e) amount) (lp_decimals e)
       (if shas pairedMint STABLE_MINTS then OrcaAssets.add_to pairedMint pairedAmount (pairedStable e) else pairedStable e)
       (liquidityUsd e)) totals.

Definition add_position (totals : list (string * LpAsset)) (p : PcsPosition) : list (string * LpAsset) :=
  let i := pcs_info p in
  let pool := rawPoolInfo i in
  let amtA := parseFloat (uiAmountA i) in
  let amtB := parseFloat (uiAmountB i) in
  addToMint (mintB pool) amtB (mintDecimalsB pool) (mintA pool) amtA
    (addToMint (mintA pool) amtA (mintDecimalsA pool) (mintB pool) amtB totals).

Definition getPositionAssets : P (list LpAsset) :=
  let* es := gets (fun b => pcsEntries (positionMap b)) in
  match es with
  | [] => ret []
  | _ =>
      let* ps := OrcaAssets.each_position 200 (fun te => lookup (ourNft te.2)) es in
      ret (jvalues (foldl add_position [] ps))
  end.

End PcsOpen.

End PcsOpen.
