(* ===== verification/Legacy.v ===== *)
(** * Steps of the two Meteora executors
    ([src/executor/meteora-position.ts], [src/executor/dammv2-position.ts])

    The two files hold these helpers twice, word for word but for their names:
    the sending of a legacy transaction, the pool's address in the label of a
    mapping, the purchase of what is missing of either side, the attempts of an
    open, the reconciliation against the accounts on chain, the decimals of a
    mint.  What depends on the exchange is an argument. *)

From Stdlib Require Import Ascii.
From S2P Require Import Prelude JsMap JsString JsNumber Json Async Ratio TxTypes PositionMap Store Stores State Chain JupiterSwap MarketData ByrealOps ByrealOpen OrcaOps OrcaOpen.
Open Scope Z_scope.
Open Scope list_scope.
Open Scope prog_scope.

Module Legacy.
Import Async State Chain ByrealOps.

Section Legacy.
Context `{L : BNLib} `{W : Web3} (cfg : Settings).

Definition legacy (c : LegacyCall) : P (LegacyAns c) := await (OnLegacy c).
Definition generateKeypair : P string := legacy GenerateKeypair.
Definition accountInfo (account : string) : P (option string) := legacy (GetAccountInfo account).

(** ** Balances *)

Definition getSolBalance : P num :=
  let* lamports := await GetBalance in
  ret (ndiv (num_of_Z lamports) (num_of_Z 1000000000)).

Definition getTokenBalance (mint_ : string) : P BN :=
  catch (balance_under cfg mint_ TOKEN_PROGRAM_ID) (fun _ =>
  catch (balance_under cfg mint_ TOKEN_2022_PROGRAM_ID) (fun _ =>
  if bool_decide (mint_ = NATIVE_MINT) then availableLamports else lift zero)).

Definition both_balances (mA mB : string) : P (BN * BN) :=
  let* a := getTokenBalance mA in
  let* b := getTokenBalance mB in
  ret (a, b).

Definition retryable (msg : string) : bool := isRetryableSimError msg || isTransientError msg.

Definition getTokenSymbol (m : string) : string := or_else (tokenNames cfg m) m.

Definition isTokenBlacklisted (skipSol : bool) (mA mB : string) : bool :=
  (skipSol && (bool_decide (mA = NATIVE_MINT) || bool_decide (mB = NATIVE_MINT)))
  || shas mA (tokenBlacklist cfg) || shas mB (tokenBlacklist cfg).

(** ** Sending *)

(** The payer and the blockhash, where the SDK has not set them. *)
Definition prepared (tx : LTx) : P LTx :=
  let payer := match feePayer tx with Some p => p | None => userAddress cfg end in
  let* blockhash :=
    if truthy (recentBlockhash tx) then ret (default ""%string (recentBlockhash tx)) else await GetLatestBlockhash in
  ret (mkLTx (Some payer) (Some blockhash) (l_instructions tx) (l_rest tx)).

Definition sign (tx : LTx) (extraSigners : list string) : P LTx := legacy (SignLegacy tx extraSigners).

(** One attempt: sent, confirmed, and read back without an error. *)
Definition send_once (signed : LTx) : P string :=
  let* sig := (legacy (SendRawTransaction signed) : P string) in
  let* latestBlockhash := await GetLatestBlockhash in
  do* await (ConfirmTransaction sig latestBlockhash) in
  let* failure := await (GetTransaction sig) in
  if truthy failure then throw ("TX confirmed but failed on-chain: " +:+ jstringify failure) else ret sig.

(** [None] when [maxRetry] allows no attempt. *)
Fixpoint send_loop (signed : LTx) (left : nat) : P (option string) :=
  match left with
  | O => ret None
  | S left' =>
      let* r := catch (let* s := send_once signed in ret (Some s))
                  (fun e => if (left' =? 0)%nat then throw e else do* sleep 2000 in ret None) in
      match r with
      | Some sig => ret (Some sig)
      | None => send_loop signed left'
      end
  end.

Definition sendOne (tx : LTx) (extraSigners : list string) : P (option string) :=
  let* ready := prepared tx in
  let* signed := sign ready extraSigners in
  send_loop signed (Z.to_nat (maxRetry cfg)).

(** The signature of the last one, empty without any. *)
Fixpoint send_all (txs : list LTx) (extraSigners : list string) (lastSig : string) : P string :=
  match txs with
  | [] => ret lastSig
  | tx :: txs' =>
      let* sig := sendOne tx extraSigners in
      send_all txs' extraSigners (default lastSig sig)
  end.

(** ** The pool of a mapping *)

(** What follows the first ['@'], unless it is the first character. *)
Definition after_at (label : string) : option string :=
  match split_on "@"%char label with
  | first :: rest => if truthy first then match rest with [] => None | _ => Some (join "@" rest) end else None
  | [] => None
  end.

Definition getPoolAddressForPosition (targetNft : string) : P (option string) :=
  gets (fun b =>
    match PositionMap.getPool targetNft (positionMap b) with
    | Some label => if truthy label then after_at label else None
    | None => None
    end).

Definition getPoolAddressForOurPosition (ourNft : string) : P (option string) :=
  let* targetNft := gets (fun b => PositionMap.findByOurNft ourNft (positionMap b)) in
  match targetNft with
  | Some t => if truthy t then getPoolAddressForPosition t else ret None
  | None => ret None
  end.

(** [if (!poolAddress) return null] around the rest of a method. *)
Definition with_pool {A} (targetNft : string) (missing : P (option A)) (k : string -> P (option A)) : P (option A) :=
  let* poolAddress := getPoolAddressForPosition targetNft in
  match poolAddress with
  | Some a => if truthy a then k a else missing
  | None => missing
  end.

Definition poolLabel (mA mB poolAddress : string) : string := mA +:+ "/" +:+ mB +:+ "@" +:+ poolAddress.

(** ** Buying what is missing *)

(** The cached holdings are dropped; an unknown output is waited for. *)
Definition balanceAfter (sig mint_ : string) (balance : BN) : P BN :=
  do* JupiterSwap.invalidateHoldingsCache in
  let* added := JupiterSwap.getActualSwapOutput sig mint_ (userAddress cfg) in
  if truthy added then
    let* d := lift (bn_of_string (default "" added)) in
    ret (bn_add balance d)
  else do* sleep 5000 in getTokenBalance mint_.

Inductive Funding := Enough | Bought (balance : BN) | NoSwap.

Definition fund (swap : string -> P (option string)) (mint_ : string) (target balance : BN) : P Funding :=
  if bn_lt balance target && negb (bn_isZero target) && negb (bool_decide (mint_ = USDC)) then
    let* sig := swap (bn_toString (bn_sub target balance)) in
    match sig with
    | Some s =>
        if negb (truthy s) then do* OrcaOpen.announceSwapFailed mint_ in ret NoSwap
        else let* r := balanceAfter s mint_ balance in ret (Bought r)
    | None => do* OrcaOpen.announceSwapFailed mint_ in ret NoSwap
    end
  else ret Enough.

Definition fundB (mA mB : string) (targetA targetB balA balB : BN) : P (option (BN * BN)) :=
  let* f := fund (OrcaOpen.swapForB cfg mA mB targetA balA) mB targetB balB in
  match f with
  | NoSwap => ret None
  | Enough => ret (Some (balA, balB))
  | Bought b => ret (Some (balA, b))
  end.

(** Both balances after the purchases; [None] aborts.  The purchase of the
    first side may have spent the second. *)
Definition fundBoth (mA mB : string) (targetA targetB : BN) : P (option (BN * BN)) :=
  let* bals := both_balances mA mB in
  let* f := fund (OrcaOpen.swapForA cfg mA mB bals.2) mA targetA bals.1 in
  match f with
  | NoSwap => ret None
  | Enough => fundB mA mB targetA targetB bals.1 bals.2
  | Bought a => let* b := getTokenBalance mB in fundB mA mB targetA targetB a b
  end.

(** Both limits of a deposit. *)
Definition limits (targetA targetB : BN) (bals : BN * BN) : BN * BN :=
  (OrcaOpen.tokenMax targetA targetB bals.1, OrcaOpen.tokenMax targetB targetA bals.2).

(** ** Opening *)

Record OpenRequest := mkLegacyOpen { targetNft : string; poolAddress : string; targetWallet : string }.

(** The reason not to start, in the order of the guards. *)
Definition openGuard (d : Dex) (closeOnly : list string) (r : OpenRequest) (b : Bot) : option (option string) :=
  if truthy (PositionMap.get (targetNft r) (positionMap b)) then Some None
  else if default false (solPaused <$> executor d b) then Some (Some "SOL 不足暫停"%string)
  else if default false (drawdownPaused <$> executor d b) then Some (Some "回撤保護暫停"%string)
  else if shas (targetWallet r) closeOnly then Some (Some "Close-only 錢包"%string)
  else None.

Definition set_reason (d : Dex) (why : string) : P unit := modify (on_executor d (with_lastSkipReason (Some why))).

Definition skipped {A} (d : Dex) (why : string) : P (option A) := do* set_reason d why in ret None.

(** The [catch] of an open. *)
Definition openFailed (d : Dex) (sol : Bot -> option num) (targetNft_ e : string) : P (option string) :=
  do* notify (notifyOpenFailed e targetNft_) in
  if mentions ["insufficient lamports"]%string e then
    let* now := clock in
    do* modify (on_executor d (with_solPaused now)) in
    let* x := gets sol in
    do* notify (notifySolInsufficient (default (num_of_Z 0) x)) in
    ret None
  else ret None.

(** Guards, dry run, lock, body with its handler, release and refresh. *)
Definition opening (d : Dex) (closeOnly : list string) (dry : string) (sol : Bot -> option num)
    (body : OpenRequest -> P (option string)) (r : OpenRequest) : P (option string) :=
  let* stop := gets (openGuard d closeOnly r) in
  match stop with
  | Some None => ret None
  | Some (Some why) => skipped d why
  | None =>
      if dryRun cfg then ret (Some dry)
      else
        let* got := acquire d in
        if got then
          finally (catch (body r) (openFailed d sol (targetNft r))) (do* release d in spawn (RefreshSolOf d))
        else ret None
  end.

(** The reading of the target: a transient error is waited out, another one
    too unless it is the last; null leads to the next attempt. *)
Fixpoint find_target {A} (read : P (option A)) (attempt : Z) (left : nat) : P (option A) :=
  match left with
  | O => ret None
  | S left' =>
      do* (if 0 <? attempt then sleep ((attempt + 1) * 2000) else ret tt) in
      let* r := catch read (fun e => if (left' =? 0)%nat then throw e else ret None) in
      match r with
      | Some a => ret (Some a)
      | None => find_target read (attempt + 1) left'
      end
  end.

(** The attempts of an open: an attempt whose transaction is not verified, and
    a retryable error before the last one, lead to the next. *)
Fixpoint open_attempts (reread : P (BN * BN)) (once : BN * BN -> P (option string)) (attempt : Z) (left : nat)
    (bals : BN * BN) : P (option string) :=
  match left with
  | O => ret None
  | S left' =>
      let* bals' := if 0 <? attempt then do* sleep 2000 in reread else ret bals in
      let* r := catch (once bals')
                  (fun e => if negb (left' =? 0)%nat && retryable e then ret None else throw e) in
      match r with
      | Some sig => ret (Some sig)
      | None => open_attempts reread once (attempt + 1) left' bals'
      end
  end.

Definition MAX_OPEN_ATTEMPTS : nat := 2.

(** The mapping is written, then the transaction is verified; one that is not
    takes the mapping away again. *)
Definition verified_or_forgotten (targetNft_ txSig : string) : P (option string) :=
  let* success := verifyTxSuccess txSig in
  if success then ret (Some txSig)
  else do* on_positionMap (PositionMap.delete targetNft_) in ret None.

(** ** Increasing *)

Definition addGuard (d : Dex) (closeOnly : list string) (targetWallet_ : string) (b : Bot) : bool :=
  default false (solPaused <$> executor d b) || default false (drawdownPaused <$> executor d b)
  || shas targetWallet_ closeOnly.

(** Guards, dry run and lock of an increase; any error is null. *)
Definition adding (d : Dex) (closeOnly : list string) (dry : string)
    (body : string -> P (option string)) (targetNft_ targetWallet_ : string) : P (option string) :=
  let* my := mapped targetNft_ in
  match my with
  | Some myNft =>
      if negb (truthy myNft) then ret None
      else
        let* stop := gets (addGuard d closeOnly targetWallet_) in
        if stop then ret None
        else if dryRun cfg then ret (Some dry)
        else locked d None (catch (body myNft) (fun _ => ret None))
  | None => ret None
  end.

(** The differences, with what was read beside them; they are read a second
    time when neither is positive. *)
Fixpoint deltas_loop {X} (read : P (option (X * (BN * BN)))) (attempt : Z) (left : nat) (last : option (X * (BN * BN)))
    : P (option (X * (BN * BN))) :=
  match left with
  | O => ret last
  | S left' =>
      do* (if 0 <? attempt then sleep 3000 else ret tt) in
      let* r := read in
      match r with
      | None => ret None
      | Some (x, d) =>
          let* z := lift zero in
          if bn_gt d.1 z || bn_gt d.2 z then ret (Some (x, d)) else deltas_loop read (attempt + 1) left' (Some (x, d))
      end
  end.

(** What is missing, and not less than nothing. *)
Definition needs (d : BN * BN) : outcome (option (BN * BN)) :=
  let! z := zero in
  if bn_lte d.1 z && bn_lte d.2 z then Ret None
  else
    let! a := OrcaOpen.positive d.1 in
    let! b := OrcaOpen.positive d.2 in
    Ret (Some (a, b)).

Definition MAX_ADD_ATTEMPTS : nat := 2.

(** The differences, the purchases, and the attempts. *)
Definition add_what_is_missing {X} (read : P (option (X * (BN * BN)))) (mA mB : string) (once : X -> BN * BN -> P string)
    : P (option string) :=
  let* deltas := deltas_loop read 0 2 None in
  match deltas with
  | None => ret None
  | Some (x, d) =>
      let* need := lift (needs d) in
      match need with
      | None => ret None
      | Some (needA, needB) =>
          let* funded := fundBoth mA mB needA needB in
          match funded with
          | None => ret None
          | Some bals =>
              deposit_attempts (both_balances mA mB) retryable (fun bs => Ret (limits needA needB bs)) (once x) 0
                MAX_ADD_ATTEMPTS bals
          end
      end
  end.

(** ** Removing *)

(** The two attempts of a removal and of a collection: a transient error, or
    no signature, leads to the next one, without a pause; [Some None] ends. *)
Fixpoint tries {A} (once : P (option (option A))) (left : nat) : P (option A) :=
  match left with
  | O => ret None
  | S left' =>
      let* r := catch once (fun e => if negb (left' =? 0)%nat && isTransientError e then ret None else throw e) in
      match r with
      | Some a => ret a
      | None => tries once left'
      end
  end.

(** The lock comes first and the dry run is not looked at. *)
Definition removing (d : Dex) (body : string -> P (option (string * DecreaseType))) (targetNft_ : string)
    : P (option (string * DecreaseType)) :=
  let* my := mapped targetNft_ in
  match my with
  | Some myNft =>
      if negb (truthy myNft) then ret None
      else locked d None (catch (body myNft) (fun _ => ret None))
  | None => ret None
  end.

(** ** Closing *)

Definition MAX_CLOSE_ATTEMPTS : nat := 3.

Definition close_body (send : P (option string)) (targetNft_ myNft : string) : P (option string) :=
  close_with (close_attempts send verifyTxSuccess retryable myNft 0 MAX_CLOSE_ATTEMPTS)
    (on_positionMap (PositionMap.delete targetNft_)) (queueReceived cfg) myNft.

Definition closing (d : Dex) (dry : string) (send : string -> P (option string)) (targetNft_ : string)
    : P (option string) :=
  let* my := mapped targetNft_ in
  match my with
  | Some myNft =>
      if negb (truthy myNft) then ret None
      else if dryRun cfg then ret (Some dry)
      else locked d None (close_body (send myNft) targetNft_ myNft)
  | None => ret None
  end.

Definition manualClose (close : string -> P (option string)) (ourNft : string) : P (option string) :=
  let* targetNft_ := gets (fun b => PositionMap.findByOurNft ourNft (positionMap b)) in
  match targetNft_ with
  | Some t => if truthy t then close t else ret None
  | None => ret None
  end.

(** ** Reconciling *)

Definition of_dex (d : string) (pm : PositionMap.t) : list (string * PositionEntry) :=
  keep (fun te => bool_decide (dex te.2 = Some d)) (PositionMap.toJSON pm).

(** A mapping whose account is gone is deleted; an error is skipped, and the
    pause with it. *)
Definition reconcile_one (account : string -> outcome string) (pause : Z) (te : string * PositionEntry) : P unit :=
  catch
    (let* k := lift (account (ourNft te.2)) in
     let* acct := accountInfo k in
     do* (match acct with None => on_positionMap (PositionMap.delete te.1) | Some _ => ret tt end) in
     sleep pause)
    (fun _ => ret tt).

Definition reconcile (account : string -> outcome string) (pause : Z) (es : list (string * PositionEntry)) : P unit :=
  for_each (reconcile_one account pause) es.

Definition backfill (d : string) (rent : Bot -> num) : P unit :=
  modify (fun b =>
    let pm := positionMap b in
    let missing := keep (fun tn => bool_decide (PositionMap.getDex tn.1 pm = Some d) && OrcaOps.lacks_lockedSol pm tn.1)
                     (PositionMap.entries pm) in
    set_positionMap (foldl (fun pm tn => PositionMap.setLockedSol tn.1 (rent b) pm) pm missing) b).

(** ** Decimals *)

(** 9 when the mint is unknown; only an answer is cached. *)
Definition mintDecimals (cache : Bot -> list (string * Z)) (remember : string -> Z -> P unit) (mint_ : string) : P Z :=
  let* cached := gets (fun b => jget mint_ (cache b)) in
  match cached with
  | Some d => ret d
  | None =>
      catch
        (let* info := legacy (GetParsedDecimals mint_) in
         let d := default 9 (info : option Z) in
         do* remember mint_ d in
         ret d)
        (fun _ => ret 9)
  end.

End Legacy.

Arguments Bought {L} _.
Arguments Enough {L}.
Arguments NoSwap {L}.

End Legacy.
