(* ===== verification/MeteoraOps.v ===== *)
(** * The Meteora executor: closing, removing, reconciling
    ([src/executor/meteora-position.ts])

    The methods of [MeteoraPositionExecutor] that take liquidity out, with the
    pools its file caches, the rent and the startup backfill.  The steps the
    file shares with the DAMM v2 executor are those of [Legacy]. *)

From S2P Require Import Prelude JsMap JsString JsNumber Json Async Ratio TxTypes PositionMap Store Stores State Chain JupiterSwap ByrealOps Legacy.
Open Scope Z_scope.
Open Scope list_scope.
Open Scope prog_scope.

Module MeteoraOps.
Import Async State Chain ByrealOps Legacy.

Section MeteoraOps.
Context `{L : BNLib} `{W : Web3} (cfg : Settings).

Definition meteora (c : MeteoraCall) : P (MeteoraAns c) := await (OnMeteora c).

(** ** The pools *)

Definition DLMM_CACHE_TTL : Z := 30 * 60 * 1000.

Definition on_pools (f : list (string * (Dlmm * Z)) -> list (string * (Dlmm * Z))) : P unit :=
  modify (on_meteora (fun m => mkMeteoraVars (meteoraSolBalance m) (meteoraRent m) (meteoraAssets m) (meteoraDecimals m)
    (f (dlmmPoolCache m)) (meteoraTvlCache m))).

Definition getCachedDlmmPool (poolAddress : string) : P Dlmm :=
  let* cached := gets (fun b => jget poolAddress (dlmmPoolCache (meteoraVars (dexVars b)))) in
  let* fresh :=
    match cached with
    | Some (pool, createdAt) => let* now := clock in ret (if now - createdAt <? DLMM_CACHE_TTL then Some pool else None)
    | None => ret None
    end in
  match fresh with
  | Some pool => ret pool
  | None =>
      let* k := lift (publicKey poolAddress) in
      let* pool := (meteora (DlmmCreate k) : P Dlmm) in
      let* now := clock in
      do* on_pools (jset poolAddress (pool, now)) in
      ret pool
  end.

Definition invalidateDlmmCache (poolAddress : string) : P unit := on_pools (jdel poolAddress).

(** ** Positions *)

(** [pool.getPosition(new PublicKey(a))] *)
Definition getPosition (pool : Dlmm) (a : string) : P (option LbPosition) :=
  let* k := lift (publicKey a) in meteora (LbGetPosition pool k).

(** Among the positions of a user in the pool. *)
Definition positionOf (pool : Dlmm) (user position : string) : P (option LbPosition) :=
  let* ps := (meteora (LbGetPositionsByUser pool user) : P (list LbPosition)) in
  ret (find_first (fun p => bool_decide (lb_key p = position)) ps).

(** The sum of both amounts stands for the liquidity. *)
Definition totalOf (p : LbPosition) : outcome BN :=
  let! x := bn_of_string (totalXAmount p) in
  let! y := bn_of_string (totalYAmount p) in
  Ret (bn_add x y).

(** ** Helpers *)

Definition acquire : P bool := Chain.acquire Meteora.
Definition release : P unit := Chain.release Meteora.

Definition getSolBalance : P num := Legacy.getSolBalance.
Definition getTokenBalance (mint_ : string) : P BN := Legacy.getTokenBalance cfg mint_.
Definition isTransientError (msg : string) : bool := Chain.isTransientError msg.
Definition isRetryableSimError (msg : string) : bool := Chain.isRetryableSimError msg.
Definition getTokenSymbol (m : string) : string := Legacy.getTokenSymbol cfg m.
Definition isTokenBlacklisted (mintX mintY : string) : bool := Legacy.isTokenBlacklisted cfg (meteoraSkipSol cfg) mintX mintY.
Definition verifyTxSuccess (txSig : string) : P bool := Chain.verifyTxSuccess txSig.
Definition parseTxTokenChanges (txSig : string) : P (list (string * BN)) := Chain.parseTxTokenChanges cfg txSig.
Definition addPendingSwap (mint_ : string) (amount : BN) : P unit := Chain.addPendingSwap mint_ amount.
Definition getPoolAddressForPosition (targetPos : string) : P (option string) := Legacy.getPoolAddressForPosition targetPos.
Definition getPoolAddressForOurPosition (our : string) : P (option string) := Legacy.getPoolAddressForOurPosition our.
Definition hasMapping (targetPos : string) (b : Bot) : bool := truthy (PositionMap.get targetPos (positionMap b)).

Definition signAndSend (txs : list LTx) (additionalSigners : list string) : P string := send_all cfg txs additionalSigners "".

(** The loops over transactions that are sent one by one. *)
Fixpoint send_each (txs : list LTx) (lastSig : string) : P string :=
  match txs with
  | [] => ret lastSig
  | tx :: txs' => let* sig := signAndSend [tx] [] in send_each txs' sig
  end.

Definition set_sol (x : num) : P unit :=
  modify (on_meteora (fun m => mkMeteoraVars (Some x) (meteoraRent m) (meteoraAssets m) (meteoraDecimals m)
    (dlmmPoolCache m) (meteoraTvlCache m))).

(** The refresh that the constructor and every open start. *)
Definition refreshSolBalance : P unit := catch (let* x := getSolBalance in set_sol x) (fun _ => ret tt).

Definition set_rent (x : num) : P unit :=
  modify (on_meteora (fun m => mkMeteoraVars (meteoraSolBalance m) x (meteoraAssets m) (meteoraDecimals m)
    (dlmmPoolCache m) (meteoraTvlCache m))).

Definition initRentPerPosition : P unit :=
  catch
    (let* rentPosition := await (GetMinimumBalanceForRentExemption 300) in
     set_rent (ndiv (num_of_Z rentPosition) (num_of_Z 1000000000)))
    (fun _ => ret tt).

Definition rent (b : Bot) : num := meteoraRent (meteoraVars (dexVars b)).

Definition backfillLockedSol : P unit := backfill "meteora" rent.

(** ** [copyClosePosition] *)

(** Our position; [None] when the SDK says that it is gone, and the mapping is
    deleted; any other error drops the cached pool and goes on. *)
Definition ourPosition (targetPos our poolAddress : string) (pool : Dlmm) : P (option (option LbPosition)) :=
  catch (let* p := getPosition pool our in ret (Some p))
    (fun e =>
       if includes e "not found" then do* on_positionMap (PositionMap.delete targetPos) in ret None
       else do* invalidateDlmmCache poolAddress in throw e).

(** All liquidity out, then the account closed.  [None] ends the close. *)
Definition close_once (targetPos our : string) : P (option string) :=
  with_pool targetPos (do* on_positionMap (PositionMap.delete targetPos) in ret None) (fun poolAddress =>
    let* pool := getCachedDlmmPool poolAddress in
    let* found := ourPosition targetPos our poolAddress pool in
    match found with
    | None => ret None
    | Some None => throw "Cannot read properties of null (reading 'positionData')"
    | Some (Some p) =>
        let* k := lift (publicKey our) in
        let* bps := lift (bn_of_int (Some 10000)) in
        let* removeTxs := (meteora (LbRemoveLiquidity pool k (lowerBinId p) (upperBinId p) bps) : P (list LTx)) in
        do* send_each removeTxs "" in
        let* closeTx := (meteora (LbClosePosition pool p) : P LTx) in
        let* closeSig := signAndSend [closeTx] [] in
        ret (Some closeSig)
    end).

Definition copyClosePosition (targetPos : string) : P (option string) :=
  closing cfg Meteora "dry-run-meteora-close" (close_once targetPos) targetPos.

(** ** [copyRemoveLiquidity] *)

(** [None]: full removal, also when the target cannot be read. *)
Definition targetLiquidity (pool : Dlmm) (targetPos : string) (wallet : option string) : P (option BN) :=
  match wallet with
  | Some w =>
      if negb (truthy w) then ret None
      else
        catch
          (let* k := lift (publicKey w) in
           let* p := positionOf pool k targetPos in
           match p with
           | Some x => let* l := lift (totalOf x) in ret (Some l)
           | None => ret None
           end)
          (fun _ => ret None)
  | None => ret None
  end.

Definition clamp (bps : Z) : Z := Z.min 10000 (Z.max 0 bps).

(** The share removed, in basis points; [None] is all, 0 the fees only. *)
Definition removeBps (targetPos : string) (current : option BN) : P (option Z) :=
  match current with
  | None => ret None
  | Some cur =>
      if bn_isZero cur then ret None
      else
        let* stored := gets (fun b => PositionMap.getTargetLiquidity targetPos (positionMap b)) in
        if truthy stored then
          let* storedLiq := lift (bn_of_string (default "" stored)) in
          if bn_lt cur storedLiq then
            let* tenThousand := lift (bn_of_int (Some 10000)) in
            let* bps := lift (bn_toNumber (bn_div (bn_mul (bn_sub storedLiq cur) tenThousand) storedLiq)) in
            do* on_positionMap (PositionMap.setTargetLiquidity targetPos (bn_toString cur)) in
            ret (Some (clamp bps))
          else ret (Some 0)
        else ret (Some 0)
  end.

Definition claim_once (pool : Dlmm) (our : string) : P (option (option (string * DecreaseType))) :=
  let* p := positionOf pool (userAddress cfg) our in
  match p with
  | None => ret (Some None)
  | Some x =>
      let* txs := (meteora (LbClaimAllSwapFee pool [x]) : P (list LTx)) in
      let* lastSig := send_each txs "" in
      ret (if truthy lastSig then Some (Some (lastSig, COLLECT_FEE)) else None)
  end.

Definition remove_once (pool : Dlmm) (our : string) (actualBps : Z) : P (option (option (string * DecreaseType))) :=
  let* p := positionOf pool (userAddress cfg) our in
  match p with
  | None => ret (Some None)
  | Some x =>
      let* k := lift (publicKey our) in
      let* bps := lift (bn_of_int (Some actualBps)) in
      let* txs := (meteora (LbRemoveLiquidity pool k (lowerBinId x) (upperBinId x) bps) : P (list LTx)) in
      let* lastSig := send_each txs "" in
      if truthy lastSig then
        do* catch (queueReceived cfg lastSig) (fun _ => ret tt) in
        ret (Some (Some (lastSig, DECREASE)))
      else ret None
  end.

Definition walletOf (targetPos : string) (b : Bot) : option string :=
  jget targetPos (PositionMap.toJSON (positionMap b)) ≫= PositionMap.targetWallet.

Definition remove_body (targetPos our : string) : P (option (string * DecreaseType)) :=
  with_pool targetPos (ret None) (fun poolAddress =>
    let* pool := getCachedDlmmPool poolAddress in
    let* wallet := gets (walletOf targetPos) in
    let* current := targetLiquidity pool targetPos wallet in
    let* bps := removeBps targetPos current in
    if bool_decide (bps = Some 0) then tries (claim_once pool our) 2
    else tries (remove_once pool our (default 10000 bps)) 2).

Definition copyRemoveLiquidity (targetPos : string) : P (option (string * DecreaseType)) :=
  removing Meteora (remove_body targetPos) targetPos.

(** ** [collectFees], [manualClosePosition], [isMeteoraPosition] *)

Definition collect_body (our : string) : P (option string) :=
  let* poolAddress := getPoolAddressForOurPosition our in
  match poolAddress with
  | Some a =>
      if negb (truthy a) then ret None
      else
        let* pool := getCachedDlmmPool a in
        let* p := positionOf pool (userAddress cfg) our in
        match p with
        | None => ret None
        | Some x =>
            let* txs := (meteora (LbClaimAllSwapFee pool [x]) : P (list LTx)) in
            let* lastSig := send_each txs "" in
            ret (if truthy lastSig then Some lastSig else None)
        end
  | None => ret None
  end.

Definition collectFees (our : string) : P (option string) :=
  if dryRun cfg then ret (Some "dry-run-meteora-fee"%string)
  else locked Meteora None (catch (collect_body our) (fun _ => ret None)).

Definition manualClosePosition (our : string) : P (option string) := manualClose copyClosePosition our.

Definition isMeteoraPosition (a : string) : P bool :=
  gets (fun b => some (fun tn => bool_decide (tn.1 = a) && bool_decide (PositionMap.getDex tn.1 (positionMap b) = Some "meteora"%string))
    (PositionMap.entries (positionMap b))).

Definition meteoraEntries (pm : PositionMap.t) : list (string * PositionEntry) := of_dex "meteora" pm.

Definition reconcileMeteoraPositions : P unit :=
  let* es := gets (fun b => meteoraEntries (positionMap b)) in
  reconcile publicKey 200 es.

End MeteoraOps.

End MeteoraOps.
