(* ===== verification/MeteoraOpen.v ===== *)
(** * The Meteora executor: opening and adding
    ([src/executor/meteora-position.ts])

    [copyOpenPosition] with its filters and the two ways of creating a position,
    in one transaction or, beyond seventy bins, in several; and
    [copyAddLiquidity]. *)

From S2P Require Import Prelude JsMap JsString JsNumber Json Async Ratio TxTypes PositionMap Store Stores PumpPending State Chain JupiterSwap MarketData ByrealOps ByrealOpen OrcaOpen Legacy MeteoraOps.
Open Scope Z_scope.
Open Scope list_scope.
Open Scope prog_scope.

Module MeteoraOpen.
Import Async State Chain ByrealOps Legacy MeteoraOps.

Section MeteoraOpen.
Context `{L : BNLib} `{W : Web3} (cfg : Settings).

(** ** The TVL of a pool *)

Definition METEORA_TVL_CACHE_MS : Z := 10 * 60 * 1000.

Definition set_tvl (pool : string) (x : num) (at_ : Z) : P unit :=
  modify (on_meteora (fun m => mkMeteoraVars (meteoraSolBalance m) (meteoraRent m) (meteoraAssets m) (meteoraDecimals m)
    (dlmmPoolCache m) (jset pool (x, at_) (meteoraTvlCache m)))).

(** [data?.groups?.[0]?.pairs], when it is an array with something in it. *)
Definition pairs_of (data : Json) : option (list Json) :=
  let first :=
    match jopt (Some data) "groups" with
    | Some (JArr (g :: _)) => Some g
    | Some (JObj kvs) => jget "0"%string kvs
    | _ => None
    end in
  match jopt first "pairs" with
  | Some (JArr (p :: ps)) => Some (p :: ps)
  | _ => None
  end.

(** [pairs.find((p) => p.address === poolAddress)]; null has no fields. *)
Fixpoint find_pair (poolAddress : string) (ps : list Json) : outcome (option Json) :=
  match ps with
  | [] => Ret None
  | p :: ps' =>
      let! a := jfield (Some p) "address" in
      match a with
      | Some (JStr s) => if bool_decide (s = poolAddress) then Ret (Some p) else find_pair poolAddress ps'
      | _ => find_pair poolAddress ps'
      end
  end.

(** [parseFloat(match?.tvl ?? '0')] *)
Definition tvl_in (poolAddress : string) (ps : list Json) : outcome num :=
  let! found := find_pair poolAddress ps in
  Ret (parseFloat (jstring (jnullish (jopt found "tvl") (JStr "0")))).

Definition getMeteoraPairTvl (poolAddress : string) : P (option num) :=
  let* cached := gets (fun b => jget poolAddress (meteoraTvlCache (meteoraVars (dexVars b)))) in
  let* fresh :=
    match cached with
    | Some (x, at_) => let* now := clock in ret (if now - at_ <? METEORA_TVL_CACHE_MS then Some x else None)
    | None => ret None
    end in
  match fresh with
  | Some x => ret (Some x)
  | None =>
      catch
        (let* res := await (Fetch (mkUrl "https://dlmm-api.meteora.ag/pair/all_by_groups"
            [("sort_key", "tvl"); ("order_by", "desc"); ("search_term", poolAddress)]%string) "GET" [] None) in
         if negb (r_ok res) then ret (fst <$> cached)
         else
           let* data := await (ReadJson res) in
           match pairs_of data with
           | None => ret (fst <$> cached)
           | Some ps =>
               let* x := lift (tvl_in poolAddress ps) in
               let* now := clock in
               do* set_tvl poolAddress x now in
               ret (Some x)
           end)
        (fun _ => ret (fst <$> cached))
  end.

(** ** Filters *)

Definition labelOf (pool : Dlmm) (poolAddress : string) : string := poolLabel (tokenX pool) (tokenY pool) poolAddress.

Definition blacklistFilter (pool : Dlmm) : P (option string) :=
  ret (if isTokenBlacklisted cfg (tokenX pool) (tokenY pool) then Some "代幣黑名單"%string else None).

(** Token X unless it is stable or SOL. *)
Definition checkMint (pool : Dlmm) : string :=
  if negb (shas (tokenX pool) STABLE_MINTS) && negb (bool_decide (tokenX pool = NATIVE_MINT)) then tokenX pool else tokenY pool.

Definition tvlFilter (pool : Dlmm) (poolAddress : string) : P (option string) :=
  if nlt (num_of_Z 0) (minPoolTvl cfg) then
    let* t := MarketData.checkTokenLiquidity cfg (checkMint pool) (Some (getMeteoraPairTvl poolAddress)) in
    ret (if OrcaOpen.too_low cfg t then
           Some ("TVL 不足 ($" +:+ OrcaOpen.tvlText t +:+ " < $" +:+ num_toString (minPoolTvl cfg) +:+ ")")%string
         else None)
  else ret None.

Definition rangeFilter (r : OpenRequest) (pool : Dlmm) (p : LbPosition) : P (option string) :=
  gets (fun b =>
    if PositionMap.hasDuplicateTickRange (targetWallet r) (labelOf pool (poolAddress r)) (lowerBinId p) (upperBinId p) (positionMap b)
    then Some "重複 bin range"%string else None).

Definition openFilters (r : OpenRequest) (pool : Dlmm) (p : LbPosition) : list (P (option string)) :=
  [blacklistFilter pool;
   ByrealOpen.pumpFilterAt cfg (labelOf pool (poolAddress r)) (getTokenSymbol cfg) (tokenX pool) (tokenY pool) (Some (targetWallet r));
   tvlFilter pool (poolAddress r);
   rangeFilter r pool p].

(** ** Creating a position *)

Definition LARGE_BIN_THRESHOLD : Z := 70.
Definition MAX_RESIZE : Z := 91.
Definition MAX_BIN_ARRAY_SIZE : Z := 512.

Definition binIdToArrayIdx (id : Z) : Z :=
  let div := Z.quot id MAX_BIN_ARRAY_SIZE in
  let mod_ := Z.rem id MAX_BIN_ARRAY_SIZE in
  if (id <? 0) && negb (mod_ =? 0) then div - 1 else div.

Definition binArrayIndexes (lower upper : Z) : list Z :=
  let lo := binIdToArrayIdx lower in
  let hi := binIdToArrayIdx upper in
  map (fun i => lo + Z.of_nat i) (seq 0 (Z.to_nat (hi - lo + 1))).

(** The ends after each extension, from [currentEnd]; [left] bounds their number. *)
Fixpoint extensions (currentEnd upper : Z) (left : nat) : list Z :=
  match left with
  | O => []
  | S left' =>
      if currentEnd <? upper then
        let next := Z.min (currentEnd + MAX_RESIZE) upper in next :: extensions next upper left'
      else []
  end.

Definition extension_ends (lower upper : Z) : list Z :=
  let width := Z.min (upper - lower + 1) LARGE_BIN_THRESHOLD in
  extensions (lower + width - 1) upper (Z.to_nat (upper - lower)).

(** [f] of each element, in turn. *)
Fixpoint each {A B} (f : A -> P B) (xs : list A) : P (list B) :=
  match xs with
  | [] => ret []
  | x :: xs' => let* y := f x in let* ys := each f xs' in ret (y :: ys)
  end.

Definition initTx (pool : Dlmm) (position : string) (lower upper : Z) : P LTx :=
  let* indexes := lift (omapM (fun i => bn_of_int (Some i)) (binArrayIndexes lower upper)) in
  let* binArrayIxs := (meteora (LbCreateBinArraysIfNeeded pool indexes) : P (list Ix)) in
  let* initIx := (meteora (LbInitializePosition2 pool position lower (Z.min (upper - lower + 1) LARGE_BIN_THRESHOLD)) : P Ix) in
  let* extendIxs := each (fun end_ => (meteora (LbIncreasePositionLength2 pool position end_) : P Ix)) (extension_ends lower upper) in
  ret (mkLTx None None (binArrayIxs ++ initIx :: extendIxs) "").

(** The account first, verified; then the liquidity, in chunks. *)
Definition open_large (pool : Dlmm) (position : string) (lower upper : Z) (maxes : BN * BN) : P string :=
  let* tx := initTx pool position lower upper in
  let* initSig := signAndSend cfg [tx] [position] in
  let* initOk := verifyTxSuccess initSig in
  if negb initOk then throw ("Init position TX failed on-chain: " +:+ initSig)
  else
    let* addLiqTxs := (meteora (LbAddLiquidityChunkable pool position maxes.1 maxes.2 lower upper) : P (list LTx)) in
    send_each cfg addLiqTxs "".

Definition open_small (pool : Dlmm) (position : string) (lower upper : Z) (maxes : BN * BN) : P string :=
  let* tx := (meteora (LbInitializePositionAndAddLiquidity pool position maxes.1 maxes.2 lower upper) : P LTx) in
  signAndSend cfg [tx] [position].

Definition saveMapping (r : OpenRequest) (pool : Dlmm) (target : LbPosition) (our : string) : P unit :=
  let* now := clock in
  let* dbnow := clock in
  do* on_positionMap (PositionMap.set now dbnow (targetNft r) our (Some (labelOf pool (poolAddress r))) (Some (targetWallet r))
        (Some (lowerBinId target)) (Some (upperBinId target)) (Some "meteora"%string)) in
  do* modify (fun b => set_positionMap (PositionMap.setLockedSol (targetNft r) (rent b) (positionMap b)) b) in
  catch
    (let* l := lift (totalOf target) in on_positionMap (PositionMap.setTargetLiquidity (targetNft r) (bn_toString l)))
    (fun _ => ret tt).

Definition open_once (r : OpenRequest) (pool : Dlmm) (target : LbPosition) (ourX ourY : BN) (bals : BN * BN)
    : P (option string) :=
  let lower := lowerBinId target in
  let upper := upperBinId target in
  let maxes := limits ourX ourY bals in
  let* position := generateKeypair in
  let* txSig :=
    if upper - lower + 1 <=? LARGE_BIN_THRESHOLD then open_small pool position lower upper maxes
    else open_large pool position lower upper maxes in
  do* saveMapping r pool target position in
  verified_or_forgotten (targetNft r) txSig.

(** ** [copyOpenPosition] *)

(** The pool and the target's position in it. *)
Definition readTarget (r : OpenRequest) : P (option (Dlmm * LbPosition)) :=
  let* pool := getCachedDlmmPool (poolAddress r) in
  let* p := getPosition pool (targetNft r) in
  ret ((fun x => (pool, x)) <$> p).

(** Our share of each amount of the target. *)
Definition shareOf (p : LbPosition) (targetWallet_ : string) : outcome (BN * BN) :=
  let! x := bn_of_string (totalXAmount p) in
  let! y := bn_of_string (totalYAmount p) in
  let! ourX := Ratio.scaleAmount (ratios cfg) x (Some targetWallet_) in
  let! ourY := Ratio.scaleAmount (ratios cfg) y (Some targetWallet_) in
  Ret (ourX, ourY).

Definition open_funded (r : OpenRequest) (pool : Dlmm) (target : LbPosition) (ourX ourY : BN) : P (option string) :=
  let* funded := fundBoth cfg (tokenX pool) (tokenY pool) ourX ourY in
  match funded with
  | None => ret None
  | Some bals =>
      if bn_isZero bals.1 && bn_isZero bals.2 then ret None
      else
        open_attempts (both_balances cfg (tokenX pool) (tokenY pool)) (open_once r pool target ourX ourY) 0
          MAX_OPEN_ATTEMPTS bals
  end.

Definition open_body (r : OpenRequest) : P (option string) :=
  let* found := find_target (readTarget r) 0 3 in
  match found with
  | None => ret None
  | Some (pool, target) =>
      let* reason := ByrealOpen.firstReason (openFilters r pool target) in
      match reason with
      | Some why => skipped Meteora why
      | None =>
          let* ours := lift (shareOf target (targetWallet r)) in
          if bn_isZero ours.1 && bn_isZero ours.2 then skipped Meteora "存款金額為零"
          else open_funded r pool target ours.1 ours.2
      end
  end.

Definition cachedSol (b : Bot) : option num := meteoraSolBalance (meteoraVars (dexVars b)).

Definition copyOpenPosition (r : OpenRequest) : P (option string) :=
  opening cfg Meteora (meteoraCloseOnlyWallets cfg) "dry-run-meteora-open" cachedSol open_body r.

(** ** [copyAddLiquidity] *)

(** Our scaled share of the target against what we have, with our range;
    [None] when either position is not found. *)
Definition readDeltas (pool : Dlmm) (targetPos our walletAddr targetWallet_ : string)
    : P (option ((Z * Z) * (BN * BN))) :=
  let* k := lift (publicKey walletAddr) in
  let* target := positionOf pool k targetPos in
  match target with
  | None => ret None
  | Some t =>
      let* share := lift (shareOf t targetWallet_) in
      let* mine := positionOf pool (userAddress cfg) our in
      match mine with
      | None => ret None
      | Some m =>
          let* x := lift (bn_of_string (totalXAmount m)) in
          let* y := lift (bn_of_string (totalYAmount m)) in
          ret (Some ((lowerBinId m, upperBinId m), (bn_sub share.1 x, bn_sub share.2 y)))
      end
  end.

(** After an addition; an error is ignored. *)
Definition updateTargetLiquidity (pool : Dlmm) (targetPos walletAddr : string) : P unit :=
  catch
    (let* k := lift (publicKey walletAddr) in
     let* target := positionOf pool k targetPos in
     match target with
     | Some t =>
         let* l := lift (totalOf t) in on_positionMap (PositionMap.setTargetLiquidity targetPos (bn_toString l))
     | None => ret tt
     end)
    (fun _ => ret tt).

Definition add_once (pool : Dlmm) (targetPos our walletAddr : string) (range : Z * Z) (maxes : BN * BN) : P string :=
  let* k := lift (publicKey our) in
  let* txs := (meteora (LbAddLiquidity pool k maxes.1 maxes.2 range.1 range.2) : P (list LTx)) in
  let* txSig := signAndSend cfg txs [] in
  do* updateTargetLiquidity pool targetPos walletAddr in
  ret txSig.

Definition add_body (targetPos targetWallet_ our : string) : P (option string) :=
  do* sleep 2000 in
  with_pool targetPos (ret None) (fun a =>
    let* pool := getCachedDlmmPool a in
    let* known := gets (walletOf targetPos) in
    let walletAddr := or_else known targetWallet_ in
    add_what_is_missing cfg (readDeltas pool targetPos our walletAddr targetWallet_) (tokenX pool) (tokenY pool)
      (add_once pool targetPos our walletAddr)).

Definition copyAddLiquidity (targetPos targetWallet_ : string) : P (option string) :=
  adding cfg Meteora (meteoraCloseOnlyWallets cfg) "dry-run-meteora-add" (add_body targetPos targetWallet_) targetPos targetWallet_.

End MeteoraOpen.

End MeteoraOpen.
