(* ===== verification/MeteoraAssets.v ===== *)
(** * The Meteora executor: what the positions hold
    ([src/executor/meteora-position.ts])

    [getMeteoraLpDetails] and [getPositionAssets]: each mapped position is read
    in its pool, one that fails is left out, the amounts are summed mint by mint
    and priced. *)

From S2P Require Import Prelude JsMap JsString JsNumber Json Async Ratio TxTypes PositionMap Store Stores State Chain ByrealAssets OrcaAssets Legacy MeteoraOps MeteoraOpen.
Open Scope Z_scope.
Open Scope list_scope.
Open Scope prog_scope.

Module MeteoraAssets.
Import Async State Chain Legacy MeteoraOps MeteoraOpen OrcaAssets.

Section MeteoraAssets.
Context `{L : BNLib} `{W : Web3} (cfg : Settings).

Definition set_decimals (k : string) (d : Z) : P unit :=
  modify (on_meteora (fun m => mkMeteoraVars (meteoraSolBalance m) (meteoraRent m) (meteoraAssets m) (jset k d (meteoraDecimals m))
    (dlmmPoolCache m) (meteoraTvlCache m))).

Definition getMintDecimals (mint_ : string) : P Z :=
  mintDecimals (fun b => meteoraDecimals (meteoraVars (dexVars b))) set_decimals mint_.

(** [parseFloat(amount.toString()) / Math.pow(10, decimals)] *)
Definition ui_text (amount : string) (decimals : Z) : num := ndiv (parseFloat amount) (num_of_Z (10 ^ decimals)).

(** The position of a mapping in its pool. *)
Definition readOne (te : string * PositionEntry) : P (option (string * Dlmm * LbPosition)) :=
  with_pool te.1 (ret None) (fun a =>
    let* pool := getCachedDlmmPool a in
    let* p := getPosition pool (ourNft te.2) in
    ret ((fun x => (a, pool, x)) <$> p)).

(** [fee || new BN(0)], or nothing beyond reason. *)
Definition feeOf (fee : option BN) (decimals : Z) : outcome num :=
  let! z := zero in
  OrcaAssets.saneFee (default z fee) decimals.

Definition worthOf (te : string * PositionEntry) : P (option Worth) :=
  let* r := readOne te in
  match r with
  | None => ret None
  | Some (_, pool, p) =>
      let* decX := getMintDecimals (tokenX pool) in
      let* decY := getMintDecimals (tokenY pool) in
      let* feeX_ := lift (feeOf (feeX p) decX) in
      let* feeY_ := lift (feeOf (feeY p) decY) in
      ret (Some (mkWorth (tokenX pool) (tokenY pool) (ui_text (totalXAmount p) decX) (ui_text (totalYAmount p) decY) feeX_ feeY_))
  end.

Definition priceHeaders : list (string * string) :=
  if truthy (jupApiKey cfg) then [("x-api-key", default ""%string (jupApiKey cfg))]%string else [].

Definition getMeteoraLpDetails : P LpValue :=
  let none := mkLpValue (num_of_Z 0) (num_of_Z 0) 0 in
  let* es := gets (fun b => meteoraEntries (positionMap b)) in
  match es with
  | [] => ret none
  | _ =>
      let* ws := each_position 300 worthOf es in
      match ws with
      | [] => ret none
      | _ =>
          let* prices := fetchPricesWith priceHeaders (mintsNeeded ws) in
          ret (mkLpValue (rounded (priced prices (lpTotals ws)) 2) (rounded (priced prices (feeTotals ws)) 2) (length ws))
      end
  end.

Definition getMeteoraLpValueUsd : P num :=
  let* details := getMeteoraLpDetails in
  ret (nadd (lpUsd details) (feeUsd details)).

Definition heldIn (te : string * PositionEntry) : P (option Held) :=
  let* r := readOne te in
  match r with
  | None => ret None
  | Some (a, pool, p) =>
      let* decX := getMintDecimals (tokenX pool) in
      let* decY := getMintDecimals (tokenY pool) in
      let* t := getMeteoraPairTvl a in
      ret (Some (mkHeld (tokenX pool) (tokenY pool) decX decY (ui_text (totalXAmount p) decX) (ui_text (totalYAmount p) decY) t))
  end.

Definition set_assets (c : option (list OrcaAsset * Z)) : P unit :=
  modify (on_meteora (fun m => mkMeteoraVars (meteoraSolBalance m) (meteoraRent m) c (meteoraDecimals m)
    (dlmmPoolCache m) (meteoraTvlCache m))).

Definition fetchPositionAssets : P (list OrcaAsset) :=
  let* es := gets (fun b => meteoraEntries (positionMap b)) in
  match es with
  | [] => ret []
  | _ =>
      let* hs := each_position 300 heldIn es in
      let totals := totals_of hs in
      let* prices :=
        match hs with
        | [] => ret []
        | _ => if truthy (jupApiKey cfg) then fetchPricesWith priceHeaders (jkeys totals) else ret []
        end in
      let items := map listed (foldl value_entry totals prices) in
      let* now := clock in
      do* set_assets (Some (items, now)) in
      ret items
  end.

Definition getPositionAssets : P (list OrcaAsset) :=
  ByrealAssets.cached (fun b => meteoraAssets (meteoraVars (dexVars b))) LP_ASSETS_TTL fetchPositionAssets.

End MeteoraAssets.

End MeteoraAssets.
