(* ===== verification/DammOps.v ===== *)
(** * The DAMM v2 executor: closing, removing, claiming, reconciling
    ([src/executor/dammv2-position.ts])

    The methods of [DammV2PositionExecutor] that take liquidity or fees out,
    with the rent and the startup backfill.  The SDK's asynchronous methods are
    the calls [DammCall], its synchronous ones the class [CpAmm]; the steps
    shared with the Meteora executor are those of [Legacy]. *)

From S2P Require Import Prelude JsMap JsString JsNumber Json Async Ratio TxTypes PositionMap Store Stores State Chain JupiterSwap ByrealOps Legacy.
Open Scope Z_scope.
Open Scope list_scope.
Open Scope prog_scope.

Module DammOps.
Import Async State Chain ByrealOps Legacy.

(** [derivePositionAddress], [derivePositionNftAccount], the amounts behind a
    liquidity at the pool's price, the liquidity that an amount of token A
    buys, and the token programs of the pool's flags. *)
Class CpAmm `{L : BNLib} := {
  derivePositionAddress : string -> outcome string;
  derivePositionNftAccount : string -> outcome string;
  getWithdrawQuote : BN -> AmmPool -> outcome (BN * BN);
  getDepositQuote : BN -> AmmPool -> outcome BN;
  tokenPrograms : AmmPool -> string * string;
}.

Section DammOps.
Context `{L : BNLib} `{W : Web3} `{CA : CpAmm (L := L)} (cfg : Settings).

Definition damm (c : DammCall) : P (DammAns c) := await (OnDamm c).

(** ** Reading *)

Definition fetchPoolState (poolAddress : string) : P AmmPool :=
  let* k := lift (publicKey poolAddress) in damm (AmFetchPool k).

(** [derivePositionAddress(new PublicKey(nft))], and the NFT's account. *)
Definition pdaOf (nft : string) : P string :=
  lift (let! k := publicKey nft in derivePositionAddress k).
Definition ataOf (nft : string) : P string :=
  lift (let! k := publicKey nft in derivePositionNftAccount k).

Definition fetchPositionState (nft : string) : P AmmPosition :=
  let* pda := pdaOf nft in damm (AmFetchPosition pda).

Definition liquidityIn (p : AmmPosition) : outcome BN := bn_of_string (unlockedLiquidity p).

Definition fetchLiquidity (nft : string) : P BN :=
  let* p := fetchPositionState nft in lift (liquidityIn p).

(** ** Helpers *)

Definition acquire : P bool := Chain.acquire DammV2.
Definition release : P unit := Chain.release DammV2.

Definition getSolBalance : P num := Legacy.getSolBalance.
Definition getTokenBalance (mint_ : string) : P BN := Legacy.getTokenBalance cfg mint_.
Definition isTransientError (msg : string) : bool := Chain.isTransientError msg.
Definition isRetryableSimError (msg : string) : bool := Chain.isRetryableSimError msg.
Definition getTokenSymbol (m : string) : string := Legacy.getTokenSymbol cfg m.
Definition isTokenBlacklisted (mintA mintB : string) : bool := Legacy.isTokenBlacklisted cfg (dammv2SkipSol cfg) mintA mintB.
Definition verifyTxSuccess (txSig : string) : P bool := Chain.verifyTxSuccess txSig.
Definition parseTxTokenChanges (txSig : string) : P (list (string * BN)) := Chain.parseTxTokenChanges cfg txSig.
Definition addPendingSwap (mint_ : string) (amount : BN) : P unit := Chain.addPendingSwap mint_ amount.
Definition getPoolAddressForPosition (targetNft : string) : P (option string) := Legacy.getPoolAddressForPosition targetNft.
Definition hasMapping (targetNft : string) (b : Bot) : bool := truthy (PositionMap.get targetNft (positionMap b)).

Definition sendWith (extraSigners : list string) (exhausted : string) (tx : LTx) : P string :=
  let* sig := sendOne cfg tx extraSigners in
  match sig with Some s => ret s | None => throw exhausted end.

Definition signAndSend (tx : LTx) : P string := sendWith [] "signAndSend: exhausted retries" tx.
Definition signAndSendWithExtraSigner (tx : LTx) (extraSigner : string) : P string :=
  sendWith [extraSigner] "signAndSendWithExtraSigner: exhausted retries" tx.

Definition set_sol (x : num) : P unit :=
  modify (on_damm (fun m => mkDammVars (Some x) (dammRent m) (dammDecimals m))).
Definition refreshSolBalance : P unit := catch (let* x := getSolBalance in set_sol x) (fun _ => ret tt).

Definition set_rent (x : num) : P unit :=
  modify (on_damm (fun m => mkDammVars (dammSolBalance m) x (dammDecimals m))).

Definition initRentPerPosition : P unit :=
  catch
    (let* rentPosition := await (GetMinimumBalanceForRentExemption 300) in
     let* rentMint := await (GetMinimumBalanceForRentExemption 82) in
     let* rentAta := await (GetMinimumBalanceForRentExemption 165) in
     set_rent (ndiv (num_of_Z (rentPosition + rentMint + rentAta)) (num_of_Z 1000000000)))
    (fun _ => ret tt).

Definition rent (b : Bot) : num := dammRent (dammVars (dexVars b)).

Definition backfillLockedSol : P unit := backfill "dammv2" rent.

Definition DAMMV2_PROGRAM_ID : string := "cpamdpZCGKUy5JxQXB4dcpGPiikHawvSWAd6mEn1sGG".

Definition isDammV2Position (nft : string) : P bool :=
  catch
    (let* pda := pdaOf nft in
     let* info := accountInfo pda in
     ret (match info with Some o => bool_decide (o = DAMMV2_PROGRAM_ID) | None => false end))
    (fun _ => ret false).

(** [new BN(Math.floor(Date.now() / 1000))] *)
Definition currentPoint : P BN :=
  let* now := clock in lift (bn_of_int (Some (now / 1000))).

(** ** [copyClosePosition] *)

(** Our position; whatever the error, it counts as gone and the mapping is
    deleted. *)
Definition ourPosition (targetNft pda : string) : P (option AmmPosition) :=
  catch (let* p := damm (AmFetchPosition pda) in ret (Some (p : AmmPosition)))
    (fun _ => do* on_positionMap (PositionMap.delete targetNft) in ret None).

Definition closeTx (poolAddress pda ata : string) (pool : AmmPool) (p : AmmPosition) : P LTx :=
  let* ourLiq := lift (liquidityIn p) in
  let* z := lift zero in
  if bn_gt ourLiq z then
    let* point := currentPoint in damm (AmRemoveAllAndClose pool p pda ata point)
  else
    let* k := lift (publicKey poolAddress) in damm (AmClosePosition k pda (am_nftMint p) ata).

Definition close_once (targetNft my : string) : P (option string) :=
  with_pool targetNft (do* on_positionMap (PositionMap.delete targetNft) in ret None) (fun poolAddress =>
    let* pool := fetchPoolState poolAddress in
    let* pda := pdaOf my in
    let* ata := ataOf my in
    let* found := ourPosition targetNft pda in
    match found with
    | None => ret None
    | Some p =>
        let* tx := closeTx poolAddress pda ata pool p in
        let* sig := signAndSend tx in
        ret (Some sig)
    end).

Definition copyClosePosition (targetNft : string) : P (option string) :=
  closing cfg DammV2 "dry-run-dammv2-close" (close_once targetNft) targetNft.

(** ** [copyRemoveLiquidity] *)

(** [None]: full removal, also when the target cannot be read. *)
Definition targetLiquidity (targetNft : string) : P (option BN) :=
  catch (let* l := fetchLiquidity targetNft in ret (Some l)) (fun _ => ret None).

Definition ourShare (my : string) (storedLiq removedLiq : BN) : P (option BN) :=
  catch
    (let* ourLiq := fetchLiquidity my in ret (Some (proportional ourLiq storedLiq removedLiq)))
    (fun _ => ret None).

Definition decreaseAmount (targetNft my : string) (current : option BN) : P (option BN) :=
  amountToTakeOut (ourShare my) targetNft current.

Definition claimTx (poolAddress my : string) (pool : AmmPool) : P LTx :=
  let* pda := pdaOf my in
  let* ata := ataOf my in
  let* k := lift (publicKey poolAddress) in
  damm (AmClaimPositionFee k pool (tokenPrograms pool) pda ata).

Definition claim_once (poolAddress my : string) (pool : AmmPool) : P (option (option (string * DecreaseType))) :=
  let* tx := claimTx poolAddress my pool in
  let* txSig := signAndSend tx in
  ret (if truthy txSig then Some (Some (txSig, COLLECT_FEE)) else None).

Definition removeTx (poolAddress pda ata : string) (pool : AmmPool) (amount : option BN) (ourLiq : BN) : P LTx :=
  let* k := lift (publicKey poolAddress) in
  let* point := currentPoint in
  match amount with
  | Some a => damm (AmRemoveLiquidity k pool (tokenPrograms pool) pda ata (bn_min a ourLiq) point)
  | None => damm (AmRemoveAllLiquidity k pool (tokenPrograms pool) pda ata point)
  end.

Definition remove_once (poolAddress my : string) (pool : AmmPool) (amount : option BN)
    : P (option (option (string * DecreaseType))) :=
  let* pda := pdaOf my in
  let* ata := ataOf my in
  let* p := (damm (AmFetchPosition pda) : P AmmPosition) in
  let* ourLiq := lift (liquidityIn p) in
  if bn_isZero ourLiq then ret (Some None)
  else
    let* tx := removeTx poolAddress pda ata pool amount ourLiq in
    let* txSig := signAndSend tx in
    if truthy txSig then do* queueReceived cfg txSig in ret (Some (Some (txSig, DECREASE))) else ret None.

Definition remove_body (targetNft my : string) : P (option (string * DecreaseType)) :=
  with_pool targetNft (ret None) (fun poolAddress =>
    let* pool := fetchPoolState poolAddress in
    let* current := targetLiquidity targetNft in
    let* amount := decreaseAmount targetNft my current in
    let feesOnly := match amount with Some a => bn_isZero a | None => false end in
    if feesOnly then tries (claim_once poolAddress my pool) 2
    else tries (remove_once poolAddress my pool amount) 2).

Definition copyRemoveLiquidity (targetNft : string) : P (option (string * DecreaseType)) :=
  removing DammV2 (remove_body targetNft) targetNft.

(** ** [copyClaimFee], [manualClosePosition], [reconcileDammV2Positions] *)

Definition claim_body (targetNft my : string) : P (option string) :=
  with_pool targetNft (ret None) (fun poolAddress =>
    let* pool := fetchPoolState poolAddress in
    let* tx := claimTx poolAddress my pool in
    let* txSig := signAndSend tx in
    ret (Some txSig)).

Definition copyClaimFee (targetNft : string) : P (option string) :=
  let* my := mapped targetNft in
  match my with
  | Some myNft =>
      if negb (truthy myNft) then ret None
      else if dryRun cfg then ret (Some "dry-run-dammv2-fee"%string)
      else locked DammV2 None (catch (claim_body targetNft myNft) (fun _ => ret None))
  | None => ret None
  end.

Definition manualClosePosition (ourNft : string) : P (option string) := manualClose copyClosePosition ourNft.

Definition dammEntries (pm : PositionMap.t) : list (string * PositionEntry) := of_dex "dammv2" pm.

Definition reconcileDammV2Positions : P unit :=
  let* es := gets (fun b => dammEntries (positionMap b)) in
  reconcile (fun nft => let! k := publicKey nft in derivePositionAddress k) 500 es.

End DammOps.

(** ** For concrete runs: as much of either token as liquidity. *)
Definition demo_cpamm : CpAmm (L := Z_BN) := {|
  derivePositionAddress := fun s => Ret ("pda-" +:+ s)%string;
  derivePositionNftAccount := fun s => Ret ("ata-" +:+ s)%string;
  getWithdrawQuote := fun liquidity _ => Ret (liquidity, liquidity);
  getDepositQuote := fun amount _ => Ret amount;
  tokenPrograms := fun _ => (TOKEN_PROGRAM_ID, TOKEN_PROGRAM_ID) |}.

End DammOps.
