(* ===== verification/DammOpen.v ===== *)
(** * The DAMM v2 executor: opening and adding
    ([src/executor/dammv2-position.ts])

    [copyOpenPosition], which creates the position and then fills it, and
    [copyAddLiquidity]. *)

From S2P Require Import Prelude JsMap JsString JsNumber Json Async Ratio TxTypes PositionMap Store Stores PumpPending State Chain JupiterSwap MarketData ByrealOps ByrealOpen OrcaOpen Legacy DammOps.
Open Scope Z_scope.
Open Scope list_scope.
Open Scope prog_scope.

Module DammOpen.
Import Async State Chain ByrealOps Legacy DammOps.

Section DammOpen.
Context `{L : BNLib} `{W : Web3} `{CA : CpAmm (L := L)} (cfg : Settings).

(** ** Filters *)

Definition labelOf (pool : AmmPool) (poolAddress : string) : string := poolLabel (tokenAMint pool) (tokenBMint pool) poolAddress.

Definition blacklistFilter (pool : AmmPool) : P (option string) :=
  ret (if isTokenBlacklisted cfg (tokenAMint pool) (tokenBMint pool) then Some "代幣黑名單"%string else None).

(** Every side that is neither whitelisted, nor stable, nor SOL is checked. *)
Fixpoint tvlOf (sides : list (string * string)) : P (option string) :=
  match sides with
  | [] => ret None
  | (m, label) :: sides' =>
      if shas m (poolTvlWhitelist cfg) then tvlOf sides'
      else if shas m STABLE_MINTS || bool_decide (m = NATIVE_MINT) then tvlOf sides'
      else
        let* t := MarketData.checkTokenLiquidity cfg m None in
        if OrcaOpen.too_low cfg t then
          ret (Some ("TVL 不足 (" +:+ label +:+ " $" +:+ OrcaOpen.tvlText t +:+ " < $" +:+ num_toString (minPoolTvl cfg) +:+ ")")%string)
        else tvlOf sides'
  end.

Definition tvlFilter (pool : AmmPool) : P (option string) :=
  if nlt (num_of_Z 0) (minPoolTvl cfg) then tvlOf [(tokenAMint pool, "mintA"); (tokenBMint pool, "mintB")]%string
  else ret None.

Definition openFilters (r : OpenRequest) (pool : AmmPool) : list (P (option string)) :=
  [blacklistFilter pool;
   ByrealOpen.pumpFilterAt cfg (labelOf pool (poolAddress r)) (getTokenSymbol cfg) (tokenAMint pool) (tokenBMint pool)
     (Some (targetWallet r));
   tvlFilter pool].

(** ** [copyOpenPosition] *)

Definition readTarget (r : OpenRequest) : P (option (AmmPool * AmmPosition)) :=
  let* pool := fetchPoolState (poolAddress r) in
  let* p := fetchPositionState (targetNft r) in
  ret (Some (pool, p)).

Definition scaled (amounts : BN * BN) (targetWallet_ : string) : outcome (BN * BN) :=
  let! a := Ratio.scaleAmount (ratios cfg) amounts.1 (Some targetWallet_) in
  let! b := Ratio.scaleAmount (ratios cfg) amounts.2 (Some targetWallet_) in
  Ret (a, b).

(** The transaction that adds liquidity, with the price of a fresh reading. *)
Definition addTx (poolAddress nft : string) (programs : option (string * string)) (maxes : BN * BN) : P LTx :=
  let* fresh := fetchPoolState poolAddress in
  let* liquidityDelta := lift (getDepositQuote maxes.1 fresh) in
  let* pda := pdaOf nft in
  let* ata := ataOf nft in
  let* k := lift (publicKey poolAddress) in
  damm (AmAddLiquidity k fresh (default (tokenPrograms fresh) programs) pda ata liquidityDelta maxes.1 maxes.2).

Definition saveMapping (r : OpenRequest) (pool : AmmPool) (targetLiq : BN) (nft : string) : P unit :=
  let* now := clock in
  let* dbnow := clock in
  do* on_positionMap (PositionMap.set now dbnow (targetNft r) nft (Some (labelOf pool (poolAddress r))) (Some (targetWallet r))
        (Some 0) (Some 0) (Some "dammv2"%string)) in
  do* modify (fun b => set_positionMap (PositionMap.setLockedSol (targetNft r) (rent b) (positionMap b)) b) in
  on_positionMap (PositionMap.setTargetLiquidity (targetNft r) (bn_toString targetLiq)).

(** The position first, then its liquidity. *)
Definition open_once (r : OpenRequest) (pool : AmmPool) (targetLiq ourA ourB : BN) (bals : BN * BN) : P (option string) :=
  let maxes := limits ourA ourB bals in
  let* nft := generateKeypair in
  let* k := lift (publicKey (poolAddress r)) in
  let* createTx := (damm (AmCreatePosition k nft) : P LTx) in
  do* signAndSendWithExtraSigner cfg createTx nft in
  let* tx := addTx (poolAddress r) nft None maxes in
  let* addSig := signAndSend cfg tx in
  do* saveMapping r pool targetLiq nft in
  verified_or_forgotten (targetNft r) addSig.

Definition open_funded (r : OpenRequest) (pool : AmmPool) (targetLiq ourA ourB : BN) : P (option string) :=
  let* funded := fundBoth cfg (tokenAMint pool) (tokenBMint pool) ourA ourB in
  match funded with
  | None => ret None
  | Some bals =>
      if bn_isZero bals.1 && bn_isZero bals.2 then ret None
      else
        open_attempts (both_balances cfg (tokenAMint pool) (tokenBMint pool)) (open_once r pool targetLiq ourA ourB) 0
          MAX_OPEN_ATTEMPTS bals
  end.

Definition open_body (r : OpenRequest) : P (option string) :=
  let* found := find_target (readTarget r) 0 3 in
  match found with
  | None => ret None
  | Some (pool, target) =>
      let* reason := ByrealOpen.firstReason (openFilters r pool) in
      match reason with
      | Some why => skipped DammV2 why
      | None =>
          let* targetLiq := lift (liquidityIn target) in
          if bn_isZero targetLiq then skipped DammV2 "目標流動性為零"
          else
            let* quote := lift (getWithdrawQuote targetLiq pool) in
            let* ours := lift (scaled quote (targetWallet r)) in
            if bn_isZero ours.1 && bn_isZero ours.2 then skipped DammV2 "存款金額為零"
            else open_funded r pool targetLiq ours.1 ours.2
      end
  end.

Definition cachedSol (b : Bot) : option num := dammSolBalance (dammVars (dexVars b)).

Definition copyOpenPosition (r : OpenRequest) : P (option string) :=
  opening cfg DammV2 (dammv2CloseOnlyWallets cfg) "dry-run-dammv2-open" cachedSol open_body r.

(** ** [copyAddLiquidity] *)

(** At the price of the first reading of the pool. *)
Definition readDeltas (pool : AmmPool) (targetNft_ my targetWallet_ : string) : P (option (unit * (BN * BN))) :=
  let* targetLiq := fetchLiquidity targetNft_ in
  let* targetQuote := lift (getWithdrawQuote targetLiq pool) in
  let* share := lift (scaled targetQuote targetWallet_) in
  let* ourLiq := fetchLiquidity my in
  let* ourQuote := lift (getWithdrawQuote ourLiq pool) in
  ret (Some (tt, (bn_sub share.1 ourQuote.1, bn_sub share.2 ourQuote.2))).

(** After an addition; an error is ignored. *)
Definition updateTargetLiquidity (targetNft_ : string) : P unit :=
  catch
    (let* l := fetchLiquidity targetNft_ in on_positionMap (PositionMap.setTargetLiquidity targetNft_ (bn_toString l)))
    (fun _ => ret tt).

Definition add_once (poolAddress_ targetNft_ my : string) (pool : AmmPool) (maxes : BN * BN) : P string :=
  let* tx := addTx poolAddress_ my (Some (tokenPrograms pool)) maxes in
  let* txSig := signAndSend cfg tx in
  do* updateTargetLiquidity targetNft_ in
  ret txSig.

Definition add_body (targetNft_ targetWallet_ my : string) : P (option string) :=
  do* sleep 2000 in
  with_pool targetNft_ (ret None) (fun a =>
    let* pool := fetchPoolState a in
    add_what_is_missing cfg (readDeltas pool targetNft_ my targetWallet_) (tokenAMint pool) (tokenBMint pool)
      (fun _ => add_once a targetNft_ my pool)).

Definition copyAddLiquidity (targetNft_ targetWallet_ : string) : P (option string) :=
  adding cfg DammV2 (dammv2CloseOnlyWallets cfg) "dry-run-dammv2-add" (add_body targetNft_ targetWallet_) targetNft_ targetWallet_.

End DammOpen.

End DammOpen.
