(* ===== verification/DammAssets.v ===== *)
(** * The DAMM v2 executor: what the positions hold
    ([src/executor/dammv2-position.ts])

    [getPositionAssets] and [getDammV2LpDetails]: the amounts behind the
    liquidity of each mapped position at the price of its pool. *)

From S2P Require Import Prelude JsMap JsString JsNumber Json Async Ratio TxTypes PositionMap Store Stores State Chain ByrealAssets OrcaAssets PcsOpen Legacy DammOps MeteoraAssets.
Open Scope Z_scope.
Open Scope list_scope.
Open Scope prog_scope.

Module DammAssets.
Import Async State Chain Legacy DammOps OrcaAssets.

Section DammAssets.
Context `{L : BNLib} `{W : Web3} `{CA : CpAmm (L := L)} (cfg : Settings).

Definition set_decimals (k : string) (d : Z) : P unit :=
  modify (on_damm (fun m => mkDammVars (dammSolBalance m) (dammRent m) (jset k d (dammDecimals m)))).

Definition getMintDecimals (mint_ : string) : P Z :=
  mintDecimals (fun b => dammDecimals (dammVars (dexVars b))) set_decimals mint_.

(** The pool of a mapping and our position in it; one that cannot be read is
    left out. *)
Definition readOne (te : string * PositionEntry) : P (option (string * AmmPool * AmmPosition)) :=
  with_pool te.1 (ret None) (fun a =>
    let* pool := fetchPoolState a in
    let* pda := pdaOf (ourNft te.2) in
    catch (let* p := (damm (AmFetchPosition pda) : P AmmPosition) in ret (Some (a, pool, p))) (fun _ => ret None)).

(** Both decimals, and both amounts. *)
Definition amountsOf (pool : AmmPool) (p : AmmPosition) : P ((Z * Z) * (num * num)) :=
  let* decA := getMintDecimals (tokenAMint pool) in
  let* decB := getMintDecimals (tokenBMint pool) in
  let* liq := lift (liquidityIn p) in
  let* quote := lift (getWithdrawQuote liq pool) in
  ret ((decA, decB), (ui quote.1 decA, ui quote.2 decB)).

(** ** [getPositionAssets] *)

Definition heldIn (te : string * PositionEntry) : P (option Held) :=
  let* r := readOne te in
  match r with
  | None => ret None
  | Some (_, pool, p) =>
      let* x := amountsOf pool p in
      ret (Some (mkHeld (tokenAMint pool) (tokenBMint pool) x.1.1 x.1.2 x.2.1 x.2.2 None))
  end.

Definition add_position (totals : list (string * LpAsset)) (h : Held) : list (string * LpAsset) :=
  PcsOpen.addToMint (h_mintB h) (h_lpB h) (h_decB h) (h_mintA h) (h_lpA h)
    (PcsOpen.addToMint (h_mintA h) (h_lpA h) (h_decA h) (h_mintB h) (h_lpB h) totals).

Definition getPositionAssets : P (list LpAsset) :=
  let* es := gets (fun b => dammEntries (positionMap b)) in
  match es with
  | [] => ret []
  | _ =>
      let* hs := each_position 200 heldIn es in
      ret (jvalues (foldl add_position [] hs))
  end.

(** ** [getDammV2LpDetails] *)

Record Row := mkRow { row_target : string; row_our : string; row_pool : string; row_worth : Worth }.

(** [(fee || 0).toString()], or nothing beyond reason. *)
Definition feeOf (fee : option string) (decimals : Z) : outcome num :=
  let! f := bn_of_string (default "0"%string fee) in saneFee f decimals.

Definition rowOf (te : string * PositionEntry) : P (option Row) :=
  let* r := readOne te in
  match r with
  | None => ret None
  | Some (a, pool, p) =>
      let* x := amountsOf pool p in
      let* feeA := lift (feeOf (feeAPending p) x.1.1) in
      let* feeB := lift (feeOf (feeBPending p) x.1.2) in
      ret (Some (mkRow te.1 (ourNft te.2) a (mkWorth (tokenAMint pool) (tokenBMint pool) x.2.1 x.2.2 feeA feeB)))
  end.

Definition getDammV2LpDetails : P (list Row * num) :=
  let none := ([], num_of_Z 0) in
  let* es := gets (fun b => dammEntries (positionMap b)) in
  match es with
  | [] => ret none
  | _ =>
      let* rows := each_position 300 rowOf es in
      match rows with
      | [] => ret none
      | _ =>
          let ws := map row_worth rows in
          let* prices := fetchPricesWith (MeteoraAssets.priceHeaders cfg) (mintsNeeded ws) in
          ret (rows, rounded (nadd (priced prices (lpTotals ws)) (priced prices (feeTotals ws))) 2)
      end
  end.

End DammAssets.

End DammAssets.
