(* ===== verification/OtherRules.v ===== *)
(** * What the steps of the Orca and PancakeSwap executors write and call

    For each operation one lemma [always R C], as [Discipline] has them for
    Byreal: every write is in [R], every call in [C]. *)

From S2P Require Import Prelude JsMap JsString JsNumber Json Async Ratio TxTypes PositionMap Store Stores PumpPending State Chain JupiterSwap MarketData ByrealOps ByrealOpen Reconcile Discipline ByrealAssets OrcaOps OrcaOpen OrcaAssets PcsOps PcsOpen.
Open Scope Z_scope.
Open Scope list_scope.

Module OtherRules.
Import Async State Chain ByrealOps Discipline.

(** Also through the attempts of a deposit and the loop over positions. *)
Lemma always_deposit_attempts `{L : BNLib} {D} (R : Bot -> Bot -> Prop) (C : Call -> Prop) `{!Reads C} reread retry
    (amounts : BN * BN -> outcome D) once attempt left bals :
  always R C reread -> (forall d, always R C (once d)) ->
  always R C (deposit_attempts reread retry amounts once attempt left bals).
Proof.
  intros Hr Ho. revert attempt bals. induction left as [|left IH]; intros attempt bals; simpl; always_go.
Qed.

Lemma always_positions `{L : BNLib} {A E} (R : Bot -> Bot -> Prop) (C : Call -> Prop) `{!Reads C} pause (read : E -> P (option A)) es :
  (forall n, always R C (read n)) -> always R C (OrcaAssets.each_position pause read es).
Proof. intros Hr. induction es as [|e es IH]; simpl; always_go. Qed.

Lemma always_reasons `{L : BNLib} (R : Bot -> Bot -> Prop) (C : Call -> Prop) fs :
  Forall (always R C) fs -> always R C (ByrealOpen.firstReason fs).
Proof. induction 1; simpl; always_go. Qed.

Ltac always_step ::=
  lazymatch goal with
  | |- always _ _ (retryOnTransient _) => apply always_retry
  | |- always _ _ (ByrealOps.attempts _ _ _) => apply always_attempts
  | |- always ?R ?C (OrcaOps.orca ?c) => refine (always_await R C (OnOrca c) _); in_C
  | |- always ?R ?C (PcsOps.pcs ?c) => refine (always_await R C (OnPcs c) _); in_C
  | |- always _ _ (deposit_attempts _ _ _ _ _ _ _) => apply always_deposit_attempts
  | |- always _ _ (OrcaAssets.each_position _ _ _) => apply always_positions
  | |- always _ _ (ByrealOpen.firstReason _) => apply always_reasons; repeat constructor
  end.

(** ** Shared by both *)

Section Shared.
Context `{L : BNLib} `{W : Web3} (cfg : Settings) (R : Bot -> Bot -> Prop) (C : Call -> Prop).
Context `{!Reads C} `{!Builds C}.

Lemma always_amount share t c `{!Keeps_positionMap R} :
  (forall a b, always R C (share a b)) -> always R C (amountToTakeOut share t c).
Proof using Reads0. intros Hs. unfold amountToTakeOut. always_go. Qed.

Lemma always_pumpAt `{!Keeps_pump R} l f a b w : always R C (ByrealOpen.pumpFilterAt cfg l f a b w).
Proof using Reads0. unfold ByrealOpen.pumpFilterAt. always_go. Qed.
Lemma always_pumpFor `{!Keeps_pump R} f a b w : always R C (ByrealOpen.pumpFilterFor cfg f a b w).
Proof using Reads0. by apply always_pumpAt. Qed.
Lemma always_pumpBlockedFor a b : always R C (ByrealOpen.pumpBlockedFor cfg a b).
Proof using Reads0. unfold ByrealOpen.pumpBlockedFor. always_go. Qed.
Lemma always_tick i w : always R C (ByrealOpen.tickFilter cfg i w).
Proof using Reads0. unfold ByrealOpen.tickFilter. always_go. Qed.
Lemma always_confirm s : always R C (ByrealOpen.confirmBestEffort s).
Proof using Reads0. unfold ByrealOpen.confirmBestEffort. always_go. Qed.
End Shared.

#[export] Hint Resolve always_amount always_pumpAt always_pumpFor always_pumpBlockedFor always_tick always_confirm always_tvlFilter
  always_balance_under always_available : always.

(** ** The listings of Byreal *)

Section Listings.
Import ByrealAssets.
Context `{L : BNLib} `{CL : Clmm (L := L)} (cfg : Settings) (R : Bot -> Bot -> Prop) (C : Call -> Prop).
Context `{!Reads C} `{!Keeps_byreal R}.

Lemma always_jupBalances : always R C (fetchBalancesViaJupiter cfg).
Proof using Reads0. unfold fetchBalancesViaJupiter. always_go. Qed.
Lemma always_rpcBalances : always R C fetchBalancesViaRpc.
Proof using Reads0 Keeps_byreal0. unfold fetchBalancesViaRpc, next_free_chain. always_go. Qed.
Hint Resolve always_jupBalances always_rpcBalances : always.
Lemma always_wallet : always R C (getWalletTokenBalances cfg).
Proof using Reads0 Keeps_byreal0.
  unfold getWalletTokenBalances, cached, fetchWalletBalances, cached_from, set_walletBalances. always_go.
Qed.
Lemma always_lp_pages left page ps pools : always R C (lp_pages cfg left page ps pools).
Proof using Reads0. revert page ps pools. induction left as [|left IH]; intros page ps pools; simpl; always_go. Qed.
Hint Resolve always_lp_pages : always.
Lemma always_byrealAssets : always R C (ByrealAssets.getPositionAssets cfg).
Proof using Reads0 Keeps_byreal0.
  unfold ByrealAssets.getPositionAssets, cached, ByrealAssets.fetchPositionAssets, set_lpAssets. always_go.
Qed.
End Listings.

#[export] Hint Resolve always_wallet always_byrealAssets : always.

(** ** Orca *)

Section Orca.
Import OrcaOps OrcaOpen OrcaAssets.
Context `{L : BNLib} `{W : Web3} `{WP : Whirlpools (L := L)} (cfg : Settings) (R : Bot -> Bot -> Prop) (C : Call -> Prop).
Context `{!Reads C} `{!Builds C}.

Lemma always_buildAndExecute `{!Writes C} tx : always R C (buildAndExecute tx).
Proof using Reads0. unfold buildAndExecute. always_go. Qed.
Lemma always_getPool w : always R C (getPool w).
Proof using Reads0. unfold getPool. always_go. Qed.
Lemma always_orcaBalance m : always R C (OrcaOps.getTokenBalance cfg m).
Proof using W Reads0. unfold OrcaOps.getTokenBalance. always_go. Qed.
Lemma always_byNft n : always R C (getPositionByNft n).
Proof using Reads0. unfold getPositionByNft. always_go. Qed.
Hint Resolve always_buildAndExecute always_getPool always_orcaBalance always_byNft : always.
Lemma always_orcaPosition n : always R C (OrcaOps.readPosition n).
Proof using W Reads0. unfold OrcaOps.readPosition. always_go. Qed.
Lemma always_orcaVerify s : always R C (OrcaOps.verifyTxSuccess s).
Proof using Reads0. apply always_verify, _. Qed.
Hint Resolve always_orcaPosition always_orcaVerify : always.
Lemma always_orcaReceived `{!Keeps_pending R} s : always R C (OrcaOps.queueReceived cfg s).
Proof using W Reads0.
  unfold OrcaOps.queueReceived, OrcaOps.parseTxTokenChanges, OrcaOps.addPendingSwap. always_go.
Qed.
Hint Resolve always_orcaReceived : always.
Lemma always_orcaRefresh `{!Keeps_dexVars R} : always R C OrcaOps.refreshSolBalance.
Proof using Reads0. unfold OrcaOps.refreshSolBalance, OrcaOps.getSolBalance, set_orcaSolBalance. always_go. Qed.

(** *** Closing *)

Lemma always_execute_all `{!Writes C} txs last : always R C (execute_all txs last).
Proof using Reads0. revert last. induction txs as [|tx txs IH]; intros last; simpl; always_go. Qed.
Hint Resolve always_execute_all : always.
Lemma always_orcaCloseOnce `{!Writes C} `{!Keeps_positionMap R} t n : always R C (OrcaOps.close_once cfg t n).
Proof using All. unfold OrcaOps.close_once. always_go. Qed.
Hint Resolve always_orcaCloseOnce : always.
Lemma always_orcaCloseBody `{!Writes C} `{!Keeps_positionMap R} `{!Keeps_pending R} t n :
  always R C (OrcaOps.close_body cfg t n).
Proof using All.
  unfold OrcaOps.close_body, OrcaOps.close_loop. apply (always_close_with _ _); [apply (always_close_attempts _ _); intros; always_go|always_go|intros; always_go].
Qed.

(** *** Decreasing *)

Lemma always_orcaTarget t : always R C (OrcaOps.targetLiquidity t).
Proof using W Reads0. unfold OrcaOps.targetLiquidity. always_go. Qed.
Lemma always_orcaShare n a b : always R C (OrcaOps.ourShare n a b).
Proof using W Reads0. unfold OrcaOps.ourShare. always_go. Qed.
Hint Resolve always_orcaShare : always.
Lemma always_orcaAmount `{!Keeps_positionMap R} t n c : always R C (OrcaOps.decreaseAmount t n c).
Proof using W Reads0. unfold OrcaOps.decreaseAmount. always_go. Qed.
Lemma always_collectFrom `{!Writes C} p : always R C (collect_from p).
Proof using All. unfold collect_from. always_go. Qed.
Hint Resolve always_collectFrom : always.
Lemma always_orcaCollect `{!Writes C} n : always R C (attempted (collect_once n)).
Proof using All. unfold attempted, collect_once. always_go. Qed.
Lemma always_orcaDecrease `{!Writes C} `{!Keeps_pending R} n a : always R C (attempted (OrcaOps.decrease_once cfg n a)).
Proof using All. unfold attempted, OrcaOps.decrease_once. always_go. Qed.

(** *** Reconciling *)

Lemma always_orcaOrphan t : always R C (OrcaOps.is_orphan t).
Proof using W Reads0. unfold OrcaOps.is_orphan. always_go. Qed.
Hint Resolve always_orcaOrphan : always.
Lemma always_orcaScan es : always R C (OrcaOps.scan es).
Proof using W Reads0. induction es; simpl; always_go. Qed.
Hint Resolve always_orcaScan : always.
Lemma always_orcaReconcile : always R C reconcileOrcaPositions.
Proof using W Reads0. unfold reconcileOrcaPositions. always_go. Qed.

(** *** Opening and increasing *)

Lemma always_orcaTvl `{!Keeps_dexVars R} p : always R C (getOrcaPoolTvl p).
Proof using Reads0. unfold getOrcaPoolTvl, set_orcaTvl. always_go. Qed.
Hint Resolve always_orcaTvl : always.
Lemma always_tvlOf `{!Keeps_market R} `{!Keeps_dexVars R} ms p : always R C (tvlOf cfg ms p).
Proof using Reads0. induction ms; simpl; always_go. Qed.
Hint Resolve always_tvlOf : always.
Lemma always_cost i o a : always R C (estimateSwapCost cfg i o a).
Proof using Reads0. unfold estimateSwapCost, JupiterSwap.jupiterFetch. always_go. Qed.
Hint Resolve always_cost : always.
Lemma always_costOf m d : always R C (costOf cfg m d).
Proof using Reads0. unfold costOf. always_go. Qed.
Hint Resolve always_costOf : always.
Lemma always_usdcCheck mA mB tA tB bA bB : always R C (usdcCheck cfg mA mB tA tB bA bB).
Proof using W Reads0. unfold usdcCheck. always_go. Qed.
Hint Resolve always_usdcCheck : always.

Lemma always_orcaAfter sig m b : always R C (OrcaOpen.balanceAfter cfg sig m b).
Proof using W Reads0. unfold OrcaOpen.balanceAfter. always_go. Qed.
Hint Resolve always_orcaAfter : always.
Lemma always_orcaFund swap m t b : (forall d, always R C (swap d)) -> always R C (OrcaOpen.fund cfg swap m t b).
Proof using W Reads0. intros Hs. unfold OrcaOpen.fund, OrcaOpen.announceSwapFailed. always_go. Qed.
Lemma always_orcaSwapA `{!Writes C} `{!Keeps_swapVars R} mA mB b d : always R C (OrcaOpen.swapForA cfg mA mB b d).
Proof using W Reads0. unfold OrcaOpen.swapForA. always_go. Qed.
Lemma always_orcaSwapB `{!Writes C} `{!Keeps_swapVars R} mA mB t b d : always R C (OrcaOpen.swapForB cfg mA mB t b d).
Proof using W Reads0. unfold OrcaOpen.swapForB. always_go. Qed.
Hint Resolve always_orcaFund always_orcaSwapA always_orcaSwapB : always.

Lemma always_swapBack `{!Writes C} `{!Keeps_swapVars R} sw : always R C (swapBackOnFailure cfg sw).
Proof using W Reads0. unfold swapBackOnFailure, swapBackOne. always_go. Qed.
Hint Resolve always_swapBack : always.
Lemma always_orcaFailed `{!Writes C} `{!Keeps_swapVars R} `{!Keeps_fields R} r sw e :
  always R C (OrcaOpen.openFailed cfg r sw e).
Proof using W Reads0. unfold OrcaOpen.openFailed. always_go. Qed.
Lemma always_try `{!Writes C} `{!Keeps_swapVars R} `{!Keeps_fields R} {A} r sw (m : P A) k :
  always R C m -> (forall a, always R C (k a)) -> always R C (try_with cfg r sw m k).
Proof using W Reads0.
  intros Hm Hk. apply always_after; [done|]. intros [a|e]; [apply Hk|apply always_orcaFailed].
Qed.

Lemma always_awaitTarget n wait left : always R C (await_target n wait left).
Proof using W Reads0. revert wait. induction left as [|left IH]; intros wait; simpl; always_go. Qed.
Hint Resolve always_awaitTarget : always.
Lemma always_orcaReason `{!Keeps_fields R} r : always R C (OrcaOpen.set_reason r).
Proof using Reads0. unfold OrcaOpen.set_reason. always_go. Qed.
Hint Resolve always_orcaReason : always.
Lemma always_prepare `{!Keeps_fields R} `{!Keeps_market R} `{!Keeps_dexVars R} `{!Keeps_pump R} r :
  always R C (prepare cfg r).
Proof using All.
  unfold prepare, findTarget, OrcaOpen.openFilters, OrcaOpen.blacklistFilter, OrcaOpen.tvlFilter. always_go.
Qed.
Lemma always_balancesFor `{!Keeps_fields R} p a b : always R C (balancesFor cfg p a b).
Proof using W Reads0. unfold balancesFor. always_go. Qed.
Lemma always_orcaSave `{!Keeps_positionMap R} r p t n : always R C (OrcaOpen.saveMapping r p t n).
Proof using Reads0. unfold OrcaOpen.saveMapping. always_go. Qed.
Hint Resolve always_prepare always_balancesFor always_orcaSave : always.
Lemma always_orcaOpenOnce `{!Writes C} `{!Keeps_positionMap R} r p t a b bals :
  always R C (OrcaOpen.open_once r p t a b bals).
Proof using All. unfold OrcaOpen.open_once, openedDespite. always_go. Qed.
Hint Resolve always_orcaOpenOnce : always.
Lemma always_open_deposit `{!Writes C} `{!Keeps_positionMap R} r t p a b c d : always R C (open_deposit cfg r t p a b c d).
Proof using All. unfold open_deposit, OrcaOpen.deposit_loop. always_go. Qed.
Hint Resolve always_open_deposit always_try : always.
Lemma always_sideB `{!Writes C} `{!Keeps_positionMap R} `{!Keeps_swapVars R} `{!Keeps_fields R} r t p a b c d sw :
  always R C (open_sideB cfg r t p a b c d sw).
Proof using All. unfold open_sideB. apply always_try; always_go; apply always_try; always_go; apply always_try; always_go. Qed.
Hint Resolve always_sideB : always.
Lemma always_sideA `{!Writes C} `{!Keeps_positionMap R} `{!Keeps_swapVars R} `{!Keeps_fields R} r t p a b c d :
  always R C (open_sideA cfg r t p a b c d).
Proof using All. unfold open_sideA. apply always_try; always_go; apply always_try; always_go; apply always_try; always_go. Qed.
Hint Resolve always_sideA : always.
Lemma always_orcaOpenBody `{!Writes C} `{!Keeps_positionMap R} `{!Keeps_swapVars R} `{!Keeps_fields R} `{!Keeps_market R}
    `{!Keeps_dexVars R} `{!Keeps_pump R} r : always R C (OrcaOpen.open_body cfg r).
Proof using All. unfold OrcaOpen.open_body. apply always_try; always_go; apply always_try; always_go. Qed.

Lemma always_deltas pool ext t n w my attempt left last : always R C (deltas_loop cfg pool ext t n w my attempt left last).
Proof using W Reads0. revert attempt last. induction left as [|left IH]; intros attempt last; simpl; always_go. Qed.
Hint Resolve always_deltas : always.
Lemma always_orcaFundBoth `{!Writes C} `{!Keeps_swapVars R} p a b : always R C (OrcaOpen.fundBoth cfg p a b).
Proof using W Reads0. unfold OrcaOpen.fundBoth. always_go. Qed.
Hint Resolve always_orcaFundBoth : always.
Lemma always_orcaIncOnce `{!Writes C} `{!Keeps_positionMap R} t my a b bals : always R C (OrcaOpen.increase_once t my a b bals).
Proof using All. unfold OrcaOpen.increase_once. always_go. Qed.
Hint Resolve always_orcaIncOnce : always.
Lemma always_orcaIncrease `{!Writes C} `{!Keeps_positionMap R} `{!Keeps_swapVars R} `{!Keeps_market R} `{!Keeps_dexVars R} t n w :
  always R C (OrcaOpen.increase_body cfg t n w).
Proof using All.
  unfold OrcaOpen.increase_body, increaseTvlLow, OrcaOpen.increase_by, OrcaOpen.deposit_loop. always_go.
Qed.

(** *** Listings *)

Lemma always_decimals `{!Keeps_dexVars R} c m : always R C (getMintDecimals c m).
Proof using Reads0. unfold getMintDecimals, set_decimals. always_go. Qed.
Hint Resolve always_decimals : always.
Lemma always_readOne c n : always R C (readOne c n).
Proof using W Reads0. unfold readOne. always_go. Qed.
Hint Resolve always_readOne : always.
Lemma always_prices ms : always R C (OrcaAssets.fetchPrices cfg ms).
Proof using Reads0. unfold OrcaAssets.fetchPrices, OrcaAssets.fetchPricesWith. always_go. Qed.
Hint Resolve always_prices : always.
Lemma always_orcaValue `{!Keeps_dexVars R} : always R C (getOrcaLpValueUsd cfg).
Proof using W Reads0. unfold getOrcaLpValueUsd, getFreeClient, set_freeRpcIdx, worthOf. always_go. Qed.
Lemma always_orcaAssets `{!Keeps_dexVars R} : always R C (OrcaAssets.getPositionAssets cfg).
Proof using W Reads0.
  unfold OrcaAssets.getPositionAssets, ByrealAssets.cached, OrcaAssets.fetchPositionAssets, getFreeClient, set_freeRpcIdx,
    heldIn, set_orcaAssets. always_go.
Qed.

End Orca.

#[export] Hint Resolve always_orcaRefresh always_orcaCloseBody always_orcaTarget always_orcaAmount always_orcaCollect
  always_orcaDecrease always_orcaReconcile always_orcaOpenBody always_orcaReason always_orcaIncrease always_orcaValue
  always_orcaTvl always_orcaAssets always_orcaPosition always_orcaBalance always_byNft always_getPool always_buildAndExecute always_tvlOf
  always_usdcCheck always_orcaFund always_orcaSwapA always_orcaSwapB always_orcaFailed always_balancesFor always_orcaSave
  always_deltas always_orcaFundBoth : always.

(** ** PancakeSwap *)

Section PancakeSwap.
Import PcsOps PcsOpen.
Context `{L : BNLib} `{W : Web3} (cfg : Settings) (R : Bot -> Bot -> Prop) (C : Call -> Prop).
Context `{!Reads C} `{!Builds C}.

Lemma always_pcsMake ixs ss : always R C (makeTransaction ixs ss).
Proof using All. unfold makeTransaction. always_go. Qed.
Hint Resolve always_pcsMake : always.
Lemma always_pcsBuild `{!Writes C} ixs : always R C ixs -> always R C (PcsOps.buildSignSend ixs).
Proof using All. intros H. unfold PcsOps.buildSignSend, makeSdkTransactionWithMinimumPriorityFee. always_go. Qed.
Hint Resolve always_pcsBuild : always.
Lemma always_pcsRetryLoop {A} (fn : P A) i left : always R C fn -> always R C (PcsOps.retry_loop fn i left).
Proof using Reads0. revert i. induction left as [|left IH]; intros i Hf; simpl; always_go. Qed.
Lemma always_pcsRetry {A} (fn : P A) : always R C fn -> always R C (PcsOps.retryOnTransient fn).
Proof using Reads0. apply always_pcsRetryLoop. Qed.
Hint Resolve always_pcsRetry : always.
Ltac always_step ::=
  lazymatch goal with
  | |- always _ _ (PcsOps.retryOnTransient _) => apply always_pcsRetry
  | |- always _ _ (PcsOps.buildSignSend _) => apply always_pcsBuild
  | |- always _ _ (ByrealOps.attempts _ _ _) => apply always_attempts
  | |- always ?R ?C (PcsOps.pcs ?c) => refine (always_await R C (OnPcs c) _); in_C
  | |- always _ _ (deposit_attempts _ _ _ _ _ _ _) => apply always_deposit_attempts
  | |- always _ _ (OrcaAssets.each_position _ _ _) => apply always_positions
  | |- always _ _ (ByrealOpen.firstReason _) => apply always_reasons; repeat constructor
  end.

Lemma always_pcsSol : always R C PcsOps.getSolBalance.
Proof using Reads0. unfold PcsOps.getSolBalance. always_go. Qed.
Hint Resolve always_pcsSol : always.
Lemma always_pcsRefresh `{!Keeps_dexVars R} : always R C PcsOps.refreshSolBalance.
Proof using Reads0. unfold PcsOps.refreshSolBalance. always_go. Qed.
Lemma always_balance_in ps m : always R C (balance_in ps m).
Proof using Reads0. induction ps; simpl; always_go. Qed.
Hint Resolve always_balance_in : always.
Lemma always_pcsBalance m : always R C (PcsOps.getTokenBalance m).
Proof using Reads0. unfold PcsOps.getTokenBalance. always_go. Qed.
Lemma always_pcsPosition n i left : always R C (position_loop n i left).
Proof using Reads0. revert i. induction left as [|left IH]; intros i; simpl; always_go. Qed.
Hint Resolve always_pcsBalance always_pcsPosition : always.
Lemma always_pcsRead n : always R C (PcsOps.readPosition n).
Proof using W Reads0. unfold PcsOps.readPosition, PcsOps.retryGetPosition. always_go. Qed.
Lemma always_pcsVerify s : always R C (PcsOps.verifyTxSuccess s).
Proof using Reads0. unfold PcsOps.verifyTxSuccess. always_go. Qed.
Lemma always_pcsLogged s : always R C (logReceived s).
Proof using Reads0. unfold logReceived. always_go. Qed.
Lemma always_pcsFull n c : always R C (PcsOps.decreaseFull n c).
Proof using All. unfold PcsOps.decreaseFull. always_go. Qed.
Hint Resolve always_pcsRead always_pcsVerify always_pcsLogged always_pcsFull : always.
Lemma always_pcsLocked `{!Keeps_positionMap R} t s : always R C (PcsOps.updateLockedSol cfg t s).
Proof using All. unfold PcsOps.updateLockedSol, PcsOps.extractLockedSolFromTx. always_go. Qed.

(** *** Closing and decreasing *)

Lemma always_pcsSend `{!Writes C} n : always R C (PcsOps.sendClose n).
Proof using All. unfold PcsOps.sendClose. always_go. Qed.
Hint Resolve always_pcsSend : always.
Lemma always_pcsClose `{!Writes C} `{!Keeps_positionMap R} t n : always R C (PcsOps.close_body t n).
Proof using All.
  unfold PcsOps.close_body, PcsOps.close_loop. apply (always_close_with _ _); [apply (always_close_attempts _ _); intros; always_go|always_go|intros; always_go].
Qed.
Lemma always_pcsManual `{!Writes C} `{!Keeps_positionMap R} t n : always R C (PcsOps.manual_close_body t n).
Proof using All. unfold PcsOps.manual_close_body. always_go. Qed.
Lemma always_pcsTarget t : always R C (PcsOps.targetLiquidity t).
Proof using W Reads0. unfold PcsOps.targetLiquidity. always_go. Qed.
Lemma always_pcsShare n a b : always R C (PcsOps.ourShare n a b).
Proof using W Reads0. unfold PcsOps.ourShare. always_go. Qed.
Hint Resolve always_pcsShare : always.
Lemma always_pcsAmount `{!Keeps_positionMap R} t n c : always R C (PcsOps.decreaseAmount t n c).
Proof using W Reads0. unfold PcsOps.decreaseAmount. always_go. Qed.
Lemma always_pcsFees `{!Writes C} n : always R C (PcsOps.collectFees n).
Proof using All. unfold PcsOps.collectFees. always_go. Qed.
Hint Resolve always_pcsFees : always.
Lemma always_pcsCollect `{!Writes C} n : always R C (PcsOps.collect_body n).
Proof using All. unfold PcsOps.collect_body. always_go. Qed.
Lemma always_pcsDecrease `{!Writes C} n a : always R C (PcsOps.decrease_body n a).
Proof using All. unfold PcsOps.decrease_body, PcsOps.decrease_once, decrease_partly. always_go. Qed.

(** *** Reconciling *)

Lemma always_lookup n : always R C (PcsOps.lookup n).
Proof using W Reads0. unfold PcsOps.lookup. always_go. Qed.
Hint Resolve always_lookup : always.
Lemma always_pcsScan es : always R C (PcsOps.scan es).
Proof using W Reads0. induction es; simpl; unfold PcsOps.is_orphan; always_go. Qed.
Hint Resolve always_pcsScan : always.
Lemma always_pcsReconcile : always R C reconcilePcsPositions.
Proof using W Reads0. unfold reconcilePcsPositions. always_go. Qed.

(** *** Opening and increasing *)

Lemma always_pcsAfter sig m b : always R C (PcsOpen.balanceAfter cfg sig m b).
Proof using Reads0. unfold PcsOpen.balanceAfter. always_go. Qed.
Hint Resolve always_pcsAfter : always.
Lemma always_pcsFund f swap m t b :
  always R C f -> (forall d, always R C (swap d)) -> always R C (PcsOpen.fund cfg f swap m t b).
Proof using Reads0. intros Hf Hs. unfold PcsOpen.fund. always_go. Qed.
Lemma always_pcsSwapA `{!Writes C} `{!Keeps_swapVars R} mA mB b d : always R C (PcsOpen.swapForA cfg mA mB b d).
Proof using W Reads0. unfold PcsOpen.swapForA. always_go. Qed.
Lemma always_pcsSwapB `{!Writes C} `{!Keeps_swapVars R} mA mB b d : always R C (PcsOpen.swapForB cfg mA mB b d).
Proof using W Reads0. unfold PcsOpen.swapForB. always_go. Qed.
Lemma always_swapFailed m : always R C (swapFailed m).
Proof using Reads0. unfold swapFailed. always_go. Qed.
Hint Resolve always_done always_pcsFund always_pcsSwapA always_pcsSwapB always_swapFailed : always.
Lemma always_pcsFundBoth `{!Writes C} `{!Keeps_swapVars R} x mA mB a b : always R C (PcsOpen.fundBoth cfg x mA mB a b).
Proof using W Reads0. unfold PcsOpen.fundBoth. destruct x; always_go. Qed.
Hint Resolve always_pcsFundBoth : always.
Lemma always_pcsSave `{!Keeps_positionMap R} `{!Keeps_fields R} r i n : always R C (PcsOpen.saveMapping r i n).
Proof using Reads0. unfold PcsOpen.saveMapping. always_go. Qed.
Hint Resolve always_pcsSave : always.
Lemma always_pcsOpenOnce `{!Writes C} `{!Keeps_positionMap R} `{!Keeps_fields R} r i d : always R C (PcsOpen.open_once r i d).
Proof using All. unfold PcsOpen.open_once. always_go. Qed.
Hint Resolve always_pcsOpenOnce : always.
Lemma always_pcsReason `{!Keeps_fields R} r : always R C (PcsOpen.set_reason r).
Proof using Reads0. unfold PcsOpen.set_reason. always_go. Qed.
Hint Resolve always_pcsReason : always.
Lemma always_pcsOpenBody `{!Writes C} `{!Keeps_positionMap R} `{!Keeps_swapVars R} `{!Keeps_fields R} `{!Keeps_market R}
    `{!Keeps_pump R} r : always R C (PcsOpen.open_body cfg r).
Proof using All.
  unfold PcsOpen.open_body, PcsOpen.open_funded, PcsOpen.deposit_loop, PcsOpen.openFilters, PcsOpen.blacklistFilter. always_go.
Qed.
Lemma always_pcsFailed `{!Keeps_fields R} r e : always R C (PcsOpen.openFailed r e).
Proof using Reads0. unfold PcsOpen.openFailed. always_go. Qed.
Lemma always_pcsIncOnce `{!Writes C} `{!Keeps_positionMap R} t n d : always R C (PcsOpen.increase_once t n d).
Proof using All. unfold PcsOpen.increase_once. always_go. Qed.
Hint Resolve always_pcsIncOnce : always.
Lemma always_pcsIncrease `{!Writes C} `{!Keeps_positionMap R} `{!Keeps_swapVars R} t n w :
  always R C (PcsOpen.increase_body cfg t n w).
Proof using All. unfold PcsOpen.increase_body, PcsOpen.increase_by, PcsOpen.deposit_loop. always_go. Qed.

(** *** Listings *)

Lemma always_pcsPrices ms : always R C (PcsOpen.fetchPrices cfg ms).
Proof using Reads0. unfold PcsOpen.fetchPrices, JupiterSwap.jupiterFetch. always_go. Qed.
Hint Resolve always_pcsPrices : always.
Lemma always_pcsDetails : always R C (getPcsLpDetails cfg).
Proof using W Reads0. unfold getPcsLpDetails. always_go. Qed.
Lemma always_pcsAssets : always R C PcsOpen.getPositionAssets.
Proof using W Reads0. unfold PcsOpen.getPositionAssets. always_go. Qed.

End PancakeSwap.

#[export] Hint Resolve always_lookup always_pcsRefresh always_pcsLocked always_pcsClose always_pcsManual always_pcsTarget always_pcsAmount
  always_pcsCollect always_pcsDecrease always_pcsReconcile always_pcsOpenBody always_pcsFailed always_pcsReason
  always_pcsIncrease always_pcsDetails always_pcsAssets always_pcsRead always_pcsBalance always_pcsFundBoth always_pcsSave
  always_pcsMake always_pcsRetry : always.

End OtherRules.
