(* ===== verification/LegacyRules.v ===== *)
(** * What the two Meteora executors write and call

    The lemmas of [Discipline] for the steps of [Legacy], and for the methods
    of the Meteora and DAMM v2 executors. *)

From S2P Require Import Prelude JsMap JsString JsNumber Json Async Ratio TxTypes PositionMap Store Stores PumpPending State Chain JupiterSwap MarketData ByrealOps ByrealOpen ByrealAssets Discipline ByrealClose OrcaOps OrcaOpen OrcaAssets PcsOps PcsOpen OtherRules Legacy MeteoraOps MeteoraOpen MeteoraAssets DammOps DammOpen DammAssets.
Open Scope Z_scope.
Open Scope list_scope.

Module LegacyRules.
Import Async State Chain ByrealOps Discipline OtherRules Legacy.

Ltac always_step ::=
  lazymatch goal with
  | |- always _ _ (retryOnTransient _) => apply always_retry
  | |- always _ _ (ByrealOps.attempts _ _ _) => apply always_attempts
  | |- always _ _ (PcsOps.retryOnTransient _) => apply always_pcsRetry
  | |- always _ _ (PcsOps.buildSignSend _) => apply always_pcsBuild
  | |- always ?R ?C (OrcaOps.orca ?c) => refine (always_await R C (OnOrca c) _); in_C
  | |- always ?R ?C (PcsOps.pcs ?c) => refine (always_await R C (OnPcs c) _); in_C
  | |- always ?R ?C (Legacy.legacy ?c) => refine (always_await R C (OnLegacy c) _); in_C
  | |- always ?R ?C (MeteoraOps.meteora ?c) => refine (always_await R C (OnMeteora c) _); in_C
  | |- always ?R ?C (DammOps.damm ?c) => refine (always_await R C (OnDamm c) _); in_C
  | |- always _ _ (deposit_attempts _ _ _ _ _ _ _) => apply always_deposit_attempts
  | |- always _ _ (OrcaAssets.each_position _ _ _) => apply always_positions
  | |- always _ _ (ByrealOpen.firstReason _) => apply always_reasons; repeat constructor
  end.

(** ** The shared steps *)

Section Shared.
Context `{L : BNLib} `{W : Web3} (cfg : Settings) (R : Bot -> Bot -> Prop) (C : Call -> Prop).
Context `{!Reads C}.

Lemma always_keypair : always R C generateKeypair.
Proof using Reads0. unfold generateKeypair. always_go. Qed.
Lemma always_account a : always R C (accountInfo a).
Proof using Reads0. unfold accountInfo. always_go. Qed.
Lemma always_legacySol : always R C Legacy.getSolBalance.
Proof using Reads0. unfold Legacy.getSolBalance. always_go. Qed.
Lemma always_legacyBalance m : always R C (Legacy.getTokenBalance cfg m).
Proof using W Reads0. unfold Legacy.getTokenBalance. always_go. Qed.
Hint Resolve always_keypair always_account always_legacySol always_legacyBalance : always.
Lemma always_both a b : always R C (both_balances cfg a b).
Proof using W Reads0. unfold both_balances. always_go. Qed.
Hint Resolve always_both : always.

Lemma always_prepared tx : always R C (prepared cfg tx).
Proof using Reads0. unfold prepared. always_go. Qed.
Lemma always_sendLoop `{!Writes C} tx left : always R C (send_loop tx left).
Proof using All. induction left as [|left IH]; simpl; unfold send_once; always_go. Qed.
Hint Resolve always_prepared always_sendLoop : always.
Lemma always_sendOne `{!Writes C} tx ss : always R C (sendOne cfg tx ss).
Proof using All. unfold sendOne, sign. always_go. Qed.
Hint Resolve always_sendOne : always.
Lemma always_sendAll `{!Writes C} txs ss last : always R C (send_all cfg txs ss last).
Proof using All. revert last. induction txs as [|tx txs IH]; intros last; simpl; always_go. Qed.

Lemma always_poolAddress t : always R C (Legacy.getPoolAddressForPosition t).
Proof using Type. unfold Legacy.getPoolAddressForPosition. always_go. Qed.
Hint Resolve always_poolAddress : always.
Lemma always_ourPoolAddress n : always R C (Legacy.getPoolAddressForOurPosition n).
Proof using Type. unfold Legacy.getPoolAddressForOurPosition. always_go. Qed.
Lemma always_with_pool {A} t (missing : P (option A)) k :
  always R C missing -> (forall a, always R C (k a)) -> always R C (with_pool t missing k).
Proof using Type. intros Hm Hk. unfold with_pool. always_go. Qed.

Lemma always_legacyAfter `{!Keeps_swapVars R} sig m b : always R C (Legacy.balanceAfter cfg sig m b).
Proof using W Reads0. unfold Legacy.balanceAfter, JupiterSwap.invalidateHoldingsCache, JupiterSwap.set_holdings. always_go. Qed.
Hint Resolve always_legacyAfter : always.
Lemma always_legacyFund `{!Keeps_swapVars R} swap m t b :
  (forall d, always R C (swap d)) -> always R C (Legacy.fund cfg swap m t b).
Proof using W Reads0. intros Hs. unfold Legacy.fund, OrcaOpen.announceSwapFailed. always_go. Qed.
Hint Resolve always_legacyFund : always.
Lemma always_fundB `{!Writes C} `{!Keeps_swapVars R} a b c d e f : always R C (fundB cfg a b c d e f).
Proof using W Reads0. unfold fundB. always_go. Qed.
Hint Resolve always_fundB : always.
Lemma always_legacyFundBoth `{!Writes C} `{!Keeps_swapVars R} a b c d : always R C (Legacy.fundBoth cfg a b c d).
Proof using W Reads0. unfold Legacy.fundBoth. always_go. Qed.
Hint Resolve always_legacyFundBoth : always.

Lemma always_setReason `{!Keeps_fields R} d w : always R C (Legacy.set_reason d w).
Proof using Type. unfold Legacy.set_reason. always_go. Qed.
Hint Resolve always_setReason : always.
Lemma always_skipped `{!Keeps_fields R} {A} d w : always R C (skipped (A := A) d w).
Proof using Type. unfold skipped. always_go. Qed.
Lemma always_legacyFailed `{!Keeps_fields R} d s t e : always R C (Legacy.openFailed d s t e).
Proof using Reads0. unfold Legacy.openFailed. always_go. Qed.
Lemma always_findTarget {A} (read : P (option A)) n left : always R C read -> always R C (find_target read n left).
Proof using Reads0. intros Hr. revert n. induction left as [|left IH]; intros n; simpl; always_go. Qed.
Lemma always_openAttempts reread once n left bals :
  always R C reread -> (forall bs, always R C (once bs)) -> always R C (open_attempts reread once n left bals).
Proof using Reads0. intros Hr Ho. revert n bals. induction left as [|left IH]; intros n bals; simpl; always_go. Qed.
Lemma always_verifiedOr `{!Keeps_positionMap R} t s : always R C (verified_or_forgotten t s).
Proof using Reads0. unfold verified_or_forgotten. always_go. Qed.

Lemma always_legacyDeltas {X} (read : P (option (X * (BN * BN)))) n left last :
  always R C read -> always R C (Legacy.deltas_loop read n left last).
Proof using Reads0. intros Hr. revert n last. induction left as [|left IH]; intros n last; simpl; always_go. Qed.
Hint Resolve always_legacyDeltas : always.
Lemma always_addMissing `{!Writes C} `{!Keeps_swapVars R} {X} (read : P (option (X * (BN * BN)))) mA mB once :
  always R C read -> (forall x bs, always R C (once x bs)) -> always R C (add_what_is_missing cfg read mA mB once).
Proof using W Reads0. intros Hr Ho. unfold add_what_is_missing. always_go. Qed.

Lemma always_tries {A} (once : P (option (option A))) left : always R C once -> always R C (tries once left).
Proof using Type. intros Ho. induction left as [|left IH]; simpl; always_go. Qed.
Lemma always_legacyClose `{!Keeps_positionMap R} `{!Keeps_pending R} send t n :
  always R C send -> always R C (Legacy.close_body cfg send t n).
Proof using W Reads0.
  intros Hs. unfold Legacy.close_body.
  apply (always_close_with _ _); [apply (always_close_attempts _ _); intros; always_go|always_go|intros; always_go].
Qed.

Lemma always_reconcile `{!Keeps_positionMap R} f p es : always R C (Legacy.reconcile f p es).
Proof using Reads0. unfold Legacy.reconcile, reconcile_one. always_go. Qed.
Lemma always_backfill `{!Keeps_positionMap R} d r : always R C (backfill d r).
Proof using Type. unfold backfill. always_go. Qed.
Lemma always_mintDecimals cache remember m :
  (forall k d, always R C (remember k d)) -> always R C (mintDecimals cache remember m).
Proof using Reads0. intros Hr. unfold mintDecimals. always_go. Qed.
Lemma always_pricesWith h ms : always R C (OrcaAssets.fetchPricesWith h ms).
Proof using Reads0. unfold OrcaAssets.fetchPricesWith. always_go. Qed.

End Shared.

#[export] Hint Resolve always_keypair always_account always_legacySol always_legacyBalance always_both always_sendOne always_sendAll
  always_poolAddress always_ourPoolAddress always_with_pool always_legacyFundBoth always_setReason always_skipped always_legacyFailed
  always_findTarget always_openAttempts always_verifiedOr always_addMissing always_tries always_legacyClose always_reconcile
  always_backfill always_mintDecimals always_pricesWith : always.

(** ** Meteora *)

Section Meteora.
Import MeteoraOps MeteoraOpen MeteoraAssets.
Context `{L : BNLib} `{W : Web3} (cfg : Settings) (R : Bot -> Bot -> Prop) (C : Call -> Prop).
Context `{!Reads C} `{!Keeps_dexVars R}.

Lemma always_pool a : always R C (getCachedDlmmPool a).
Proof using W Reads0 Keeps_dexVars0. unfold getCachedDlmmPool, on_pools. always_go. Qed.
Lemma always_invalidate a : always R C (invalidateDlmmCache a).
Proof using Keeps_dexVars0. unfold invalidateDlmmCache, on_pools. always_go. Qed.
Lemma always_lbPosition p a : always R C (MeteoraOps.getPosition p a).
Proof using W Reads0. unfold MeteoraOps.getPosition. always_go. Qed.
Lemma always_positionOf p u a : always R C (positionOf p u a).
Proof using Reads0. unfold positionOf. always_go. Qed.
Hint Resolve always_pool always_invalidate always_lbPosition always_positionOf : always.
Lemma always_mtSend `{!Writes C} txs ss : always R C (MeteoraOps.signAndSend cfg txs ss).
Proof using Reads0 W. unfold MeteoraOps.signAndSend. always_go. Qed.
Hint Resolve always_mtSend : always.
Lemma always_sendEach `{!Writes C} txs last : always R C (send_each cfg txs last).
Proof using Reads0 W. revert last. induction txs as [|tx txs IH]; intros last; simpl; always_go. Qed.
Hint Resolve always_sendEach : always.
Lemma always_mtRefresh : always R C MeteoraOps.refreshSolBalance.
Proof using Reads0 Keeps_dexVars0. unfold MeteoraOps.refreshSolBalance, MeteoraOps.getSolBalance, MeteoraOps.set_sol. always_go. Qed.
Lemma always_mtRent : always R C MeteoraOps.initRentPerPosition.
Proof using Reads0 Keeps_dexVars0. unfold MeteoraOps.initRentPerPosition, MeteoraOps.set_rent. always_go. Qed.

(** *** Closing and removing *)

Lemma always_mtCloseOnce `{!Builds C} `{!Writes C} `{!Keeps_positionMap R} t n : always R C (MeteoraOps.close_once cfg t n).
Proof using All. unfold MeteoraOps.close_once, MeteoraOps.ourPosition. apply always_with_pool; always_go. Qed.
Lemma always_mtTarget p t w : always R C (MeteoraOps.targetLiquidity p t w).
Proof using W Reads0. unfold MeteoraOps.targetLiquidity. always_go. Qed.
Lemma always_removeBps `{!Keeps_positionMap R} t c : always R C (removeBps t c).
Proof using Reads0. unfold removeBps. always_go. Qed.
Hint Resolve always_mtTarget always_removeBps : always.
Lemma always_mtClaim `{!Builds C} `{!Writes C} p n : always R C (MeteoraOps.claim_once cfg p n).
Proof using Reads0 W. unfold MeteoraOps.claim_once. always_go. Qed.
Lemma always_mtRemove `{!Builds C} `{!Writes C} `{!Keeps_pending R} p n b : always R C (MeteoraOps.remove_once cfg p n b).
Proof using W Reads0. unfold MeteoraOps.remove_once. always_go. Qed.
Hint Resolve always_mtClaim always_mtRemove : always.
Lemma always_mtRemoveBody `{!Builds C} `{!Writes C} `{!Keeps_positionMap R} `{!Keeps_pending R} t n :
  always R C (MeteoraOps.remove_body cfg t n).
Proof using All. unfold MeteoraOps.remove_body. apply always_with_pool; always_go. Qed.
Lemma always_mtCollect `{!Builds C} `{!Writes C} n : always R C (MeteoraOps.collect_body cfg n).
Proof using All. unfold MeteoraOps.collect_body. always_go. Qed.

(** *** Opening and adding *)

Lemma always_mtTvl p : always R C (getMeteoraPairTvl p).
Proof using Reads0 Keeps_dexVars0. unfold getMeteoraPairTvl, set_tvl. always_go. Qed.
Hint Resolve always_mtTvl : always.
Lemma always_mtFilter `{!Keeps_market R} p a : always R C (MeteoraOpen.tvlFilter cfg p a).
Proof using Reads0 Keeps_dexVars0. unfold MeteoraOpen.tvlFilter. always_go. Qed.
Hint Resolve always_mtFilter : always.
Lemma always_each {A B} (f : A -> P B) xs : (forall x, always R C (f x)) -> always R C (each f xs).
Proof using Type. intros Hf. induction xs as [|x xs IH]; simpl; always_go. Qed.
Hint Resolve always_each : always.
Lemma always_initTx `{!Builds C} p n lo hi : always R C (initTx p n lo hi).
Proof using Type. unfold initTx. always_go. apply always_each. always_go. Qed.
Hint Resolve always_initTx : always.
Lemma always_mtSave `{!Keeps_positionMap R} r p t n : always R C (MeteoraOpen.saveMapping r p t n).
Proof using Reads0. unfold MeteoraOpen.saveMapping. always_go. Qed.
Hint Resolve always_mtSave : always.
Lemma always_mtOpenOnce `{!Builds C} `{!Writes C} `{!Keeps_positionMap R} r p t a b bals :
  always R C (MeteoraOpen.open_once cfg r p t a b bals).
Proof using W Reads0. unfold MeteoraOpen.open_once, open_small, open_large, MeteoraOps.verifyTxSuccess. always_go. Qed.
Lemma always_mtReadTarget r : always R C (MeteoraOpen.readTarget r).
Proof using W Reads0 Keeps_dexVars0. unfold MeteoraOpen.readTarget. always_go. Qed.
Hint Resolve always_mtOpenOnce always_mtReadTarget : always.
Lemma always_mtOpen `{!Builds C} `{!Writes C} `{!Keeps_positionMap R} `{!Keeps_swapVars R} `{!Keeps_fields R} `{!Keeps_market R}
    `{!Keeps_pump R} r : always R C (MeteoraOpen.open_body cfg r).
Proof using All.
  unfold MeteoraOpen.open_body, MeteoraOpen.open_funded, MeteoraOpen.openFilters, MeteoraOpen.blacklistFilter, rangeFilter. always_go.
Qed.
Lemma always_mtDeltas p t n a w : always R C (MeteoraOpen.readDeltas cfg p t n a w).
Proof using W Reads0. unfold MeteoraOpen.readDeltas. always_go. Qed.
Lemma always_mtAddOnce `{!Builds C} `{!Writes C} `{!Keeps_positionMap R} p t n a rg m :
  always R C (MeteoraOpen.add_once cfg p t n a rg m).
Proof using W Reads0. unfold MeteoraOpen.add_once, MeteoraOpen.updateTargetLiquidity. always_go. Qed.
Hint Resolve always_mtDeltas always_mtAddOnce : always.
Lemma always_mtAdd `{!Builds C} `{!Writes C} `{!Keeps_positionMap R} `{!Keeps_swapVars R} t w n :
  always R C (MeteoraOpen.add_body cfg t w n).
Proof using All. unfold MeteoraOpen.add_body. always_go. apply always_with_pool; always_go. Qed.

(** *** Listings *)

Lemma always_mtDecimals m : always R C (MeteoraAssets.getMintDecimals m).
Proof using Reads0 Keeps_dexVars0. apply always_mintDecimals; [done|]. unfold MeteoraAssets.set_decimals. always_go. Qed.
Hint Resolve always_mtDecimals : always.
Lemma always_mtReadOne te : always R C (MeteoraAssets.readOne te).
Proof using W Reads0 Keeps_dexVars0. apply always_with_pool; always_go. Qed.
Hint Resolve always_mtReadOne : always.
Lemma always_mtDetails : always R C (getMeteoraLpDetails cfg).
Proof using W Reads0 Keeps_dexVars0. unfold getMeteoraLpDetails, MeteoraAssets.worthOf. always_go. Qed.
Lemma always_mtAssets : always R C (MeteoraAssets.getPositionAssets cfg).
Proof using W Reads0 Keeps_dexVars0.
  unfold MeteoraAssets.getPositionAssets, ByrealAssets.cached, MeteoraAssets.fetchPositionAssets, MeteoraAssets.heldIn, set_assets.
  always_go.
Qed.

End Meteora.

#[export] Hint Resolve always_pool always_lbPosition always_positionOf always_mtSend always_sendEach always_mtRefresh always_mtRent
  always_mtCloseOnce always_mtTarget always_removeBps always_mtClaim always_mtRemove always_mtRemoveBody always_mtCollect
  always_mtOpen always_mtSave always_mtReadTarget always_mtAdd always_mtDeltas always_mtDetails always_mtAssets always_initTx : always.

(** ** DAMM v2 *)

Section Damm.
Import DammOps DammOpen DammAssets.
Context `{L : BNLib} `{W : Web3} `{CA : CpAmm (L := L)} (cfg : Settings) (R : Bot -> Bot -> Prop) (C : Call -> Prop).
Context `{!Reads C}.

Lemma always_pda n : always R C (pdaOf n).
Proof using Type. unfold pdaOf. always_go. Qed.
Lemma always_ata n : always R C (ataOf n).
Proof using Type. unfold ataOf. always_go. Qed.
Lemma always_fetchPool a : always R C (fetchPoolState a).
Proof using Reads0. unfold fetchPoolState. always_go. Qed.
Hint Resolve always_pda always_ata always_fetchPool : always.
Lemma always_fetchPosition n : always R C (fetchPositionState n).
Proof using Reads0. unfold fetchPositionState. always_go. Qed.
Hint Resolve always_fetchPosition : always.
Lemma always_fetchLiquidity n : always R C (fetchLiquidity n).
Proof using Reads0. unfold fetchLiquidity. always_go. Qed.
Hint Resolve always_fetchLiquidity : always.
Lemma always_amSend `{!Writes C} ss e tx : always R C (sendWith cfg ss e tx).
Proof using Reads0 W. unfold sendWith. always_go. Qed.
Hint Resolve always_amSend : always.
Lemma always_amSign `{!Writes C} tx : always R C (DammOps.signAndSend cfg tx).
Proof using Reads0 W. unfold DammOps.signAndSend. always_go. Qed.
Lemma always_amSignExtra `{!Writes C} tx s : always R C (signAndSendWithExtraSigner cfg tx s).
Proof using Reads0 W. unfold signAndSendWithExtraSigner. always_go. Qed.
Hint Resolve always_amSign always_amSignExtra : always.
Lemma always_amRefresh `{!Keeps_dexVars R} : always R C DammOps.refreshSolBalance.
Proof using Reads0. unfold DammOps.refreshSolBalance, DammOps.getSolBalance, DammOps.set_sol. always_go. Qed.
Lemma always_amRent `{!Keeps_dexVars R} : always R C DammOps.initRentPerPosition.
Proof using Reads0. unfold DammOps.initRentPerPosition, DammOps.set_rent. always_go. Qed.
Lemma always_point : always R C currentPoint.
Proof using Type. unfold currentPoint. always_go. Qed.
Hint Resolve always_point : always.

(** *** Closing, removing, claiming *)

Lemma always_closeTx `{!Builds C} a b c d e : always R C (closeTx a b c d e).
Proof using Type. unfold closeTx. always_go. Qed.
Hint Resolve always_closeTx : always.
Lemma always_amCloseOnce `{!Builds C} `{!Writes C} `{!Keeps_positionMap R} t n : always R C (DammOps.close_once cfg t n).
Proof using CA Reads0. unfold DammOps.close_once, DammOps.ourPosition. apply always_with_pool; always_go. Qed.
Lemma always_amTarget t : always R C (DammOps.targetLiquidity t).
Proof using Reads0. unfold DammOps.targetLiquidity. always_go. Qed.
Lemma always_amShare n a b : always R C (DammOps.ourShare n a b).
Proof using Reads0. unfold DammOps.ourShare. always_go. Qed.
Hint Resolve always_amShare : always.
Lemma always_amAmount `{!Keeps_positionMap R} t n c : always R C (DammOps.decreaseAmount t n c).
Proof using Reads0. unfold DammOps.decreaseAmount. always_go. Qed.
Lemma always_claimTx `{!Builds C} a n p : always R C (claimTx a n p).
Proof using Type. unfold claimTx. always_go. Qed.
Lemma always_removeTx `{!Builds C} a b c d e f : always R C (removeTx a b c d e f).
Proof using Type. unfold removeTx. always_go. Qed.
Hint Resolve always_amTarget always_amAmount always_claimTx always_removeTx : always.
Lemma always_amClaim `{!Builds C} `{!Writes C} a n p : always R C (DammOps.claim_once cfg a n p).
Proof using Reads0. unfold DammOps.claim_once. always_go. Qed.
Lemma always_amRemove `{!Builds C} `{!Writes C} `{!Keeps_pending R} a n p x : always R C (DammOps.remove_once cfg a n p x).
Proof using CA Reads0. unfold DammOps.remove_once. always_go. Qed.
Hint Resolve always_amClaim always_amRemove : always.
Lemma always_amRemoveBody `{!Builds C} `{!Writes C} `{!Keeps_positionMap R} `{!Keeps_pending R} t n :
  always R C (DammOps.remove_body cfg t n).
Proof using CA Reads0. unfold DammOps.remove_body. apply always_with_pool; always_go. Qed.
Lemma always_amClaimBody `{!Builds C} `{!Writes C} t n : always R C (DammOps.claim_body cfg t n).
Proof using CA Reads0. unfold DammOps.claim_body. apply always_with_pool; always_go. Qed.
Lemma always_amIs n : always R C (isDammV2Position n).
Proof using Reads0. unfold isDammV2Position. always_go. Qed.

(** *** Opening and adding *)

Lemma always_amTvl `{!Keeps_market R} ss : always R C (DammOpen.tvlOf cfg ss).
Proof using Reads0.
  induction ss as [|[m l] ss IH]; simpl; unfold MarketData.checkTokenLiquidity; always_go.
Qed.
Hint Resolve always_amTvl : always.
Lemma always_addTx `{!Builds C} a n ps ms : always R C (addTx a n ps ms).
Proof using Reads0. unfold addTx. always_go. Qed.
Hint Resolve always_addTx : always.
Lemma always_amSave `{!Keeps_positionMap R} r p t n : always R C (DammOpen.saveMapping r p t n).
Proof using Reads0. unfold DammOpen.saveMapping. always_go. Qed.
Hint Resolve always_amSave : always.
Lemma always_amOpenOnce `{!Builds C} `{!Writes C} `{!Keeps_positionMap R} r p t a b bals :
  always R C (DammOpen.open_once cfg r p t a b bals).
Proof using CA Reads0. unfold DammOpen.open_once. always_go. Qed.
Lemma always_amReadTarget r : always R C (DammOpen.readTarget r).
Proof using Reads0. unfold DammOpen.readTarget. always_go. Qed.
Hint Resolve always_amOpenOnce always_amReadTarget : always.
Lemma always_amOpen `{!Builds C} `{!Writes C} `{!Keeps_positionMap R} `{!Keeps_swapVars R} `{!Keeps_fields R} `{!Keeps_market R}
    `{!Keeps_pump R} r : always R C (DammOpen.open_body cfg r).
Proof using CA Reads0.
  unfold DammOpen.open_body, DammOpen.open_funded, DammOpen.openFilters, DammOpen.blacklistFilter, DammOpen.tvlFilter. always_go.
Qed.
Lemma always_amDeltas p t n w : always R C (DammOpen.readDeltas cfg p t n w).
Proof using Reads0. unfold DammOpen.readDeltas. always_go. Qed.
Lemma always_amAddOnce `{!Builds C} `{!Writes C} `{!Keeps_positionMap R} a t n p m : always R C (DammOpen.add_once cfg a t n p m).
Proof using Reads0. unfold DammOpen.add_once, DammOpen.updateTargetLiquidity. always_go. Qed.
Hint Resolve always_amDeltas always_amAddOnce : always.
Lemma always_amAdd `{!Builds C} `{!Writes C} `{!Keeps_positionMap R} `{!Keeps_swapVars R} t w n :
  always R C (DammOpen.add_body cfg t w n).
Proof using CA Reads0. unfold DammOpen.add_body. always_go. apply always_with_pool; always_go. Qed.

(** *** Listings *)

Lemma always_amDecimals `{!Keeps_dexVars R} m : always R C (DammAssets.getMintDecimals m).
Proof using Reads0. apply always_mintDecimals; [done|]. unfold DammAssets.set_decimals. always_go. Qed.
Hint Resolve always_amDecimals : always.
Lemma always_amReadOne te : always R C (DammAssets.readOne te).
Proof using CA Reads0. apply always_with_pool; always_go. Qed.
Lemma always_amAmounts `{!Keeps_dexVars R} p x : always R C (amountsOf p x).
Proof using Reads0. unfold amountsOf. always_go. Qed.
Hint Resolve always_amReadOne always_amAmounts : always.
Lemma always_amAssets `{!Keeps_dexVars R} : always R C DammAssets.getPositionAssets.
Proof using CA Reads0. unfold DammAssets.getPositionAssets, DammAssets.heldIn. always_go. Qed.
Lemma always_amDetails `{!Keeps_dexVars R} : always R C (getDammV2LpDetails cfg).
Proof using CA Reads0. unfold getDammV2LpDetails, rowOf. always_go. Qed.

End Damm.

#[export] Hint Resolve always_pda always_ata always_fetchPool always_fetchPosition always_fetchLiquidity always_amSign always_amSignExtra
  always_amRefresh always_amRent always_point always_closeTx always_amCloseOnce always_amTarget always_amAmount always_claimTx
  always_removeTx always_amRemoveBody always_amClaimBody always_amIs always_addTx always_amSave always_amReadTarget always_amOpen
  always_amDeltas always_amAdd always_amAssets always_amDetails : always.

End LegacyRules.
