(* ===== verification/LegacyClose.v ===== *)
(** * What closing guarantees on Meteora and DAMM v2

    [copyClosePosition] of both executors against an environment that answers
    calls as it likes and lets other activations change anything but the
    position map.  What takes our position for gone: a mapping whose label holds
    no pool address, and, on Meteora, a reading that says "not found", on DAMM v2
    a reading that fails in any way. *)

From S2P Require Import Prelude JsMap JsString JsNumber Json Async Ratio TxTypes PositionMap Store Stores PumpPending State Chain JupiterSwap ByrealOps Discipline ByrealClose OrcaOps OrcaOpen OtherRules Legacy MeteoraOps MeteoraOpen MeteoraAssets DammOps DammOpen DammAssets LegacyRules.
Open Scope Z_scope.
Open Scope list_scope.
Open Scope prog_scope.

Module LegacyClose.
Import Async State Chain ByrealOps Discipline ByrealClose LegacyRules Legacy.

Section Sending.
Context `{L : BNLib} `{W : Web3} (cfg : Settings).
Abbreviation Hist := (list (HEvent Call Ans Task)).

(** [tx] was signed with its payer and blockhash, sent under [txSig], confirmed,
    and read back without an error. *)
Definition tx_sent (extraSigners : list string) (tx : LTx) (txSig : string) (h : Hist) : Prop :=
  exists ready signed blockhash failure,
    l_instructions ready = l_instructions tx /\ l_rest ready = l_rest tx
    /\ Called (OnLegacy (SignLegacy ready extraSigners)) (Ret signed) ∈ h
    /\ Called (OnLegacy (SendRawTransaction signed)) (Ret txSig) ∈ h
    /\ Called (ConfirmTransaction txSig blockhash) (Ret tt) ∈ h
    /\ Called (GetTransaction txSig) (Ret failure) ∈ h /\ truthy failure = false.

Lemma lasting_tx_sent ss tx s : lasting (tx_sent ss tx s).
Proof using Type.
  intros h h' Hh (ready & signed & bh & f & Hx & Hr & Hs & Hd & Hc & Hg & Hf).
  exists ready, signed, bh, f. split_and!; try done; by eapply suffix_in.
Qed.

Lemma yields_prepared tx :
  yields (prepared cfg tx) (fun ready _ => l_instructions ready = l_instructions tx /\ l_rest ready = l_rest tx).
Proof using Type.
  intros h b. unfold prepared. apply wp_bind. eapply wp_mono; [apply quiet_grown; always_go|].
  by intros [bh|e] h1 b1 Hg1.
Qed.

Definition sent_signed (signed : LTx) (txSig : string) (h : Hist) : Prop :=
  exists blockhash failure,
    Called (OnLegacy (SendRawTransaction signed)) (Ret txSig) ∈ h
    /\ Called (ConfirmTransaction txSig blockhash) (Ret tt) ∈ h
    /\ Called (GetTransaction txSig) (Ret failure) ∈ h /\ truthy failure = false.

Lemma yields_send_once signed : yields (send_once signed) (sent_signed signed).
Proof using Type.
  intros h b. unfold send_once, legacy. apply wp_bind, (call_wp (OnLegacy (SendRawTransaction signed))).
  intros [s|e] b1 Hg1; [|by split]. apply wp_bind, (call_wp GetLatestBlockhash).
  intros [bh|e] b2 Hg2; pose proof (grown_trans _ _ _ _ _ _ Hg1 Hg2) as Hg12; [|by split].
  apply wp_bind, (call_wp (ConfirmTransaction s bh)).
  intros [[]|e] b3 Hg3; pose proof (grown_trans _ _ _ _ _ _ Hg12 Hg3) as Hg13; [|by split].
  apply wp_bind, (call_wp (GetTransaction s)).
  intros [f|e] b4 Hg4; pose proof (grown_trans _ _ _ _ _ _ Hg13 Hg4) as Hg14; [|by split].
  destruct (truthy f) eqn:Ef; cbn [wp ret throw]; (split; [done|]); [done|].
  exists bh, f. split_and!; [|right; left|left|done]. do 3 right. left.
Qed.

(** Without a signature, no attempt was allowed. *)
Lemma yields_send_loop signed left :
  yields (send_loop signed left) (fun o h => match o with Some s => sent_signed signed s h /\ left <> 0%nat | None => left = 0%nat end).
Proof using Type.
  induction left as [|left IH]; intros h b; cbn [send_loop]; [by split|].
  apply wp_bind, wp_catch, wp_bind. eapply wp_mono; [apply yields_send_once|].
  intros [s|e] h1 b1 [Hg1 Hs]; cbn [wp ret].
  - split; [done|]. split; [exact Hs|lia].
  - destruct (left =? 0)%nat eqn:E0; cbn [wp throw]; [by split|].
    apply wp_bind. eapply wp_mono; [apply quiet_grown; always_go|].
    intros [u|e'] h2 b2 Hg2; pose proof (grown_trans _ _ _ _ _ _ Hg1 Hg2) as Hg12; [|by split].
    cbn [wp ret]. eapply wp_mono; [apply IH|]. intros r h3 b3 [Hg3 Hr].
    split; [by eapply grown_trans|]. destruct r as [[s|]|e']; [split; [by apply Hr|lia]| |done].
    rewrite Hr in E0. discriminate E0.
Qed.

Lemma yields_sendOne tx ss :
  yields (sendOne cfg tx ss) (fun o h => match o with Some s => tx_sent ss tx s h /\ 0 < maxRetry cfg | None => maxRetry cfg <= 0 end).
Proof using Type.
  unfold sendOne. eapply yields_bind; [apply yields_prepared|]. intros ready h b [Hi Hr].
  unfold sign, legacy. apply wp_bind, (call_wp (OnLegacy (SignLegacy ready ss))).
  intros [signed|e] b1 Hg1; [|by split]. eapply wp_mono; [apply yields_send_loop|].
  intros r h2 b2 [Hg2 Hs]. split; [by eapply grown_trans|]. destruct r as [[s|]|e]; [|lia|done].
  destruct Hs as [(bh & f & Hd & Hc & Hg & Hf) Hl]. split; [|lia]. exists ready, signed, bh, f. split_and!; try done.
  eapply suffix_in; [apply Hg2|left].
Qed.

(** Each of the transactions was sent, if any attempt is allowed; and the
    signature is that of the last. *)
Definition all_sent (ss : list string) (txs : list LTx) (h : Hist) : Prop :=
  0 < maxRetry cfg -> Forall (fun tx => exists s, tx_sent ss tx s h) txs.

Definition last_sent (ss : list string) (txs : list LTx) (lastSig s : string) (h : Hist) : Prop :=
  s = lastSig \/ exists tx, tx ∈ txs /\ tx_sent ss tx s h /\ 0 < maxRetry cfg.

Lemma lasting_all_sent ss txs : lasting (all_sent ss txs).
Proof using Type.
  intros h h' Hh Hall Hr. eapply list.Forall_impl; [by apply Hall|]. intros tx [s Hs]. exists s.
  by eapply lasting_tx_sent.
Qed.

Lemma yields_send_all txs ss lastSig :
  yields (send_all cfg txs ss lastSig) (fun s h => all_sent ss txs h /\ last_sent ss txs lastSig s h).
Proof using Type.
  revert lastSig. induction txs as [|tx txs IH]; intros lastSig; cbn [send_all].
  { intros h b. split; [done|]. split; [intros _; constructor|by left]. }
  eapply yields_bind; [apply yields_sendOne|]. intros o h b Ho. eapply wp_mono; [apply IH|].
  intros [s|e] h1 b1 [Hg1 Hs]; [|by split]. destruct Hs as [Hall Hlast]. split; [done|]. split.
  - intros Hr. constructor; [|by apply Hall]. destruct o as [s0|]; [|lia]. exists s0.
    eapply lasting_tx_sent; [apply Hg1|apply Ho].
  - destruct Hlast as [->|(tx' & Hin & Hs)].
    + destruct o as [s0|]; [|by left]. right. exists tx. split_and!; [left| |apply Ho]. eapply lasting_tx_sent; [apply Hg1|apply Ho].
    + right. exists tx'. split; [by right|done].
Qed.

(** One after the other, each with its own signatures. *)
Lemma yields_send_each txs lastSig :
  yields (MeteoraOps.send_each cfg txs lastSig) (fun s h =>
    all_sent [] txs h /\ (truthy s = true -> last_sent [] txs lastSig s h)).
Proof using Type.
  revert lastSig. induction txs as [|tx txs IH]; intros lastSig; cbn [MeteoraOps.send_each].
  { intros h b. split; [done|]. split; [intros _; constructor|by left]. }
  eapply yields_bind; [apply (yields_send_all [tx] [] "")|]. intros s0 h b [Hall0 Hlast0]. eapply wp_mono; [apply IH|].
  intros [s|e] h1 b1 [Hg1 Hs]; [|by split]. destruct Hs as [Hall Hlast]. split; [done|]. split.
  - intros Hr. constructor; [|by apply Hall]. specialize (Hall0 Hr). apply list.Forall_cons in Hall0 as [[s1 Hs1] _].
    exists s1. eapply lasting_tx_sent; [apply Hg1|done].
  - intros Ht. destruct (Hlast Ht) as [->|(tx' & Hin & Hs)].
    + destruct Hlast0 as [->|(tx' & Hin & Hs & Hr)]; [done|]. apply list.list_elem_of_singleton in Hin as ->.
      right. exists tx. split_and!; [left| |done]. eapply lasting_tx_sent; [apply Hg1|done].
    + right. exists tx'. split; [by right|done].
Qed.

End Sending.

Section Meteora.
Context `{L : BNLib} `{W : Web3} (cfg : Settings).
Abbreviation Hist := (list (HEvent Call Ans Task)).

(** The label of the mapping holds no pool address. *)
Definition no_pool (t : string) (pm : PositionMap.t) : Prop :=
  forall label a, PositionMap.getPool t pm = Some label -> truthy label = true -> after_at label = Some a -> truthy a = false.

Lemma with_pool_wp t missing k h b (Q : outcome (option string) -> Hist -> Bot -> Prop) :
  (no_pool t (positionMap b) -> wp HL missing h b Q) ->
  (forall a, truthy a = true -> wp HL (k a) h b Q) ->
  wp HL (with_pool t missing k) h b Q.
Proof using Type.
  intros Hm Hk. unfold with_pool, getPoolAddressForPosition. apply wp_bind. cbn [wp gets ret].
  destruct (PositionMap.getPool t (positionMap b)) as [label|] eqn:El.
  2:{ apply Hm. intros label a H. congruence. }
  destruct (truthy label) eqn:Et; [|apply Hm; intros l a H; congruence].
  destruct (after_at label) as [a|] eqn:Ea; [|apply Hm; intros l a H; congruence].
  destruct (truthy a) eqn:Eat; [by apply Hk|]. apply Hm. intros l a' H. congruence.
Qed.

(** Our position is not found. *)
Definition meteora_gone (t our : string) (pm : PositionMap.t) (h : Hist) : Prop :=
  no_pool t pm
  \/ exists e, includes e "not found" = true
       /\ (publicKey our = Throw e
           \/ exists pool k, publicKey our = Ret k /\ Called (OnMeteora (LbGetPosition pool k)) (Throw e) ∈ h).

(** All that the SDK built to take the liquidity of our position out was sent,
    then what it built to close it, under [txSig]. *)
Definition meteora_close (our txSig : string) (h : Hist) : Prop :=
  exists k (pool : Dlmm) (p : LbPosition) bps txs tx,
    publicKey our = Ret k
    /\ Called (OnMeteora (LbGetPosition pool k)) (Ret (Some p)) ∈ h
    /\ bn_of_int (Some 10000) = Ret bps
    /\ Called (OnMeteora (LbRemoveLiquidity pool k (lowerBinId p) (upperBinId p) bps)) (Ret txs) ∈ h
    /\ Forall (fun tx => exists s, tx_sent [] tx s h) txs
    /\ Called (OnMeteora (LbClosePosition pool p)) (Ret tx) ∈ h
    /\ tx_sent [] tx txSig h.

Lemma lasting_meteora_gone t our pm : lasting (meteora_gone t our pm).
Proof using Type.
  intros h h' Hh [Hp|(e & He & [Hk|(pool & k & Hk & Hin)])]; [by left|right; exists e..]; (split; [done|]); [by left|right].
  exists pool, k. split; [done|by eapply suffix_in].
Qed.

Lemma lasting_meteora_close our s : lasting (meteora_close our s).
Proof using Type.
  intros h h' Hh (k & pool & p & bps & txs & tx & Hk & Hp & Hb & Hr & Hall & Hc & Hs).
  exists k, pool, p, bps, txs, tx. split_and!; try done; try by eapply suffix_in.
  - eapply list.Forall_impl; [exact Hall|]. intros x [sx Hx]. exists sx. by eapply lasting_tx_sent.
  - by eapply lasting_tx_sent.
Qed.

Lemma ourPosition_reads t our poolAddress pool h b :
  wp HL (MeteoraOps.ourPosition t our poolAddress pool) h b
    (fun r h' b' => h `suffix_of` h' /\
       match r with
       | Ret None => deleted t b b' /\ forall pm, meteora_gone t our pm h'
       | Ret (Some (Some p)) => same_pm b b'
           /\ exists k, publicKey our = Ret k /\ Called (OnMeteora (LbGetPosition pool k)) (Ret (Some p)) ∈ h'
       | _ => same_pm b b'
       end).
Proof using Type.
  assert (forall e h' b', (includes e "not found" = true -> forall pm, meteora_gone t our pm h') -> grown h h' b b' ->
    wp HL (if includes e "not found" then do* on_positionMap (PositionMap.delete t) in ret None
           else do* MeteoraOps.invalidateDlmmCache poolAddress in throw e) h' b'
      (fun r h' b' => h `suffix_of` h' /\
       match r with
       | Ret None => deleted t b b' /\ forall pm, meteora_gone t our pm h'
       | Ret (Some (Some p)) => same_pm b b'
           /\ exists k, publicKey our = Ret k /\ Called (OnMeteora (LbGetPosition pool k)) (Ret (Some p)) ∈ h'
       | _ => same_pm b b'
       end)) as Hcatch.
  { intros e h' b' Hgone [Hh Hb]. destruct (includes e "not found"); apply wp_bind.
    - apply delete_wp. intros b2 Hb2. cbn [wp ret]. split; [done|]. split; [|by apply Hgone].
      unfold deleted, same_pm in *. by rewrite Hb2, Hb.
    - unfold MeteoraOps.invalidateDlmmCache, MeteoraOps.on_pools. eapply (wp_modify HL _ _ _ _ h'); [done|].
      cbn [wp throw]. split; [done|exact Hb]. }
  unfold MeteoraOps.ourPosition, MeteoraOps.getPosition, MeteoraOps.meteora. apply wp_catch, wp_bind, wp_bind.
  unfold Async.lift. destruct (publicKey our) as [k|e] eqn:Ek; cbn [wp ret throw].
  2:{ apply Hcatch; [|done]. intros He pm. right. exists e. split; [done|by left]. }
  apply (call_wp (OnMeteora (LbGetPosition pool k))). intros [[p|]|e] b1 Hg1; cbn [wp ret].
  - split; [apply Hg1|]. split; [apply Hg1|]. exists k. split; [done|left].
  - split; apply Hg1.
  - apply Hcatch; [|done]. intros He pm. right. exists e. split; [done|]. right. exists pool, k. split; [done|left].
Qed.

Lemma meteora_sends t our pm :
  sends t (meteora_gone t our pm) (fun s h => truthy s = true -> meteora_close our s h) (eq pm)
    (MeteoraOps.close_once cfg t our).
Proof using Type.
  intros h b Hpm. unfold MeteoraOps.close_once. apply with_pool_wp.
  { intros Hno. apply wp_bind, delete_wp. intros b' Hb'. cbn [wp ret]. split; [done|]. split; [exact Hb'|].
    left. by rewrite Hpm. }
  intros poolAddress _. apply wp_bind. eapply wp_mono; [apply quiet_grown, always_pool; apply _|].
  intros [pool|e] h1 b1 Hg1; [|exact Hg1].
  apply wp_bind. eapply wp_mono; [apply ourPosition_reads|]. destruct Hg1 as [Hh1 Hb1].
  intros [[[p|]|]|e] h2 b2 [Hh2 Hr]; [|cbn [wp throw]; split; [by etrans|unfold same_pm in *; congruence]| |
    split; [by etrans|unfold same_pm in *; congruence]].
  2:{ destruct Hr as [Hd Hgone]. cbn [wp ret]. split; [by etrans|]. split; [|apply Hgone].
      unfold deleted, same_pm in *. by rewrite Hd, Hb1. }
  destruct Hr as [Hb2 (k & Hk & Hp)]. assert (grown h h2 b b2) as Hg2.
  { split; [by etrans|unfold same_pm in *; congruence]. }
  apply wp_bind. rewrite Hk. cbn [Async.lift wp ret]. apply wp_bind. unfold Async.lift.
  destruct (bn_of_int (Some 10000)) as [bps|e] eqn:Eb; cbn [wp ret]; [|exact Hg2].
  unfold MeteoraOps.meteora.
  match goal with |- context [OnMeteora ?c] => apply wp_bind, (call_wp (OnMeteora c)) end.
  intros [txs|e] b3 Hg3; pose proof (grown_trans _ _ _ _ _ _ Hg2 Hg3) as Hg23; [|exact Hg23].
  apply wp_bind. eapply wp_mono; [apply yields_send_each|].
  intros [s0|e] h4 b4 [Hg4 Hs0]; pose proof (grown_trans _ _ _ _ _ _ Hg23 Hg4) as Hg24; [|exact Hg24].
  match goal with |- context [OnMeteora ?c] => apply wp_bind, (call_wp (OnMeteora c)) end.
  intros [tx|e] b5 Hg5; pose proof (grown_trans _ _ _ _ _ _ Hg24 Hg5) as Hg25; [|exact Hg25].
  apply wp_bind. eapply wp_mono; [apply (yields_send_all cfg [tx] [] "")|].
  intros [s|e] h6 b6 [Hg6 Hs]; pose proof (grown_trans _ _ _ _ _ _ Hg25 Hg6) as Hg26; [|exact Hg26].
  cbn [wp ret]. split; [apply Hg26|]. split; [apply Hg26|]. intros Ht. destruct Hs as [Hall Hlast], Hs0 as [Hall0 _].
  destruct Hlast as [->|(tx' & Hin & Hs & Hretry)]; [done|]. apply list.list_elem_of_singleton in Hin as ->.
  assert (forall e, e ∈ Called (OnMeteora (LbClosePosition pool p)) (Ret tx) :: h4 -> e ∈ h6) as H6.
  { intros e. apply suffix_in, Hg6. }
  exists k, pool, p, bps, txs, tx. split_and!; [done| |done| | |apply H6; left|done].
  - apply H6. right. eapply suffix_in; [apply Hg4|]. right. exact Hp.
  - apply H6. right. eapply suffix_in; [apply Hg4|left].
  - eapply (lasting_all_sent cfg); [apply Hg6| |done]. eapply (lasting_all_sent cfg); [|exact Hall0].
    by apply suffix_cons_r.
Qed.

Definition meteora_close_post (t our : string) (b : Bot) : outcome (option string) -> Hist -> Bot -> Prop :=
  ByrealClose.closing t (meteora_gone t our (positionMap b)) (fun s h => truthy s = true -> meteora_close our s h) verified b.

(** A close by [Legacy.closing], whatever the executor sends. *)
Lemma legacy_closing d dry send t our Gone Sent b h :
  dryRun cfg = false -> PositionMap.get t (positionMap b) = Some our ->
  lasting Gone -> (forall s, lasting (Sent s)) -> sends t Gone Sent (eq (positionMap b)) (send our) ->
  wp HL (Legacy.closing cfg d dry send t) h b (ByrealClose.closing t Gone Sent verified b).
Proof using Type.
  intros Hdry Hget HGone HSent Hsend. unfold Legacy.closing, mapped. apply wp_bind. cbn [wp gets ret]. rewrite Hget, Hdry.
  destruct (negb (truthy our)); [split; [by left|]; exists None; by split|].
  apply locked_closes. intros b' Hb'. unfold Legacy.close_body.
  apply (close_with_closes _ _ _ _ _ (eq (positionMap b))).
  - done.
  - done.
  - apply lasting_verified.
  - apply close_attempts_closes; [done|exact Hsend|apply verify_verified].
  - by rewrite Hb'.
  - intros h' b1 Q. apply delete_wp.
  - intros s. apply (always_queueReceived cfg same_pm (fun _ => True)).
Qed.

Lemma meteora_close_from t our b h :
  dryRun cfg = false -> PositionMap.get t (positionMap b) = Some our ->
  wp HL (MeteoraOps.copyClosePosition cfg t) h b (meteora_close_post t our b).
Proof using Type.
  intros Hdry Hget. apply (legacy_closing _ _ _ _ our); [done|done|apply lasting_meteora_gone| |apply meteora_sends].
  intros s h1 h2 Hs H Ht. eapply lasting_meteora_close; [exact Hs|by apply H].
Qed.

End Meteora.

Section Damm.
Context `{L : BNLib} `{W : Web3} `{CA : DammOps.CpAmm (L := L)} (cfg : Settings).
Abbreviation Hist := (list (HEvent Call Ans Task)).

(** The address of our position. *)
Definition pda_of (my : string) : outcome string :=
  let! k := publicKey my in DammOps.derivePositionAddress k.

(** Reading our position failed. *)
Definition damm_gone (t my : string) (pm : PositionMap.t) (h : Hist) : Prop :=
  no_pool t pm
  \/ exists pda e, pda_of my = Ret pda /\ Called (OnDamm (AmFetchPosition pda)) (Throw e) ∈ h.

(** What the SDK built to empty and close our position, or to close it when it
    was read as empty, was sent under [txSig]. *)
Definition damm_close (my txSig : string) (h : Hist) : Prop :=
  exists pda (p : AmmPosition) liq (tx : LTx),
    pda_of my = Ret pda /\ Called (OnDamm (AmFetchPosition pda)) (Ret p) ∈ h /\ DammOps.liquidityIn p = Ret liq
    /\ (exists z, zero = Ret z
         /\ if bn_gt liq z
            then exists pool ata point, Called (OnDamm (AmRemoveAllAndClose pool p pda ata point)) (Ret tx) ∈ h
            else exists k ata, Called (OnDamm (AmClosePosition k pda (am_nftMint p) ata)) (Ret tx) ∈ h)
    /\ tx_sent [] tx txSig h.

Lemma lasting_damm_gone t my pm : lasting (damm_gone t my pm).
Proof using Type.
  intros h h' Hh [Hp|(pda & e & Hk & Hin)]; [by left|right]. exists pda, e. split; [done|by eapply suffix_in].
Qed.

Lemma lasting_damm_close my s : lasting (damm_close my s).
Proof using Type.
  intros h h' Hh (pda & p & liq & tx & Hk & Hp & Hl & (z & Hz & Hc) & Hs). exists pda, p, liq, tx.
  split_and!; [done|by eapply suffix_in|done| |by eapply lasting_tx_sent]. exists z. split; [done|].
  destruct (bn_gt liq z).
  - destruct Hc as (pool & ata & point & Hin). exists pool, ata, point. by eapply suffix_in.
  - destruct Hc as (k & ata & Hin). exists k, ata. by eapply suffix_in.
Qed.

(** The transaction that closes, by the liquidity read. *)
Lemma yields_closeTx poolAddress pda ata pool p :
  yields (DammOps.closeTx poolAddress pda ata pool p) (fun (tx : LTx) h => exists liq z,
    DammOps.liquidityIn p = Ret liq /\ zero = Ret z
    /\ if bn_gt liq z
       then exists pool ata point, Called (OnDamm (AmRemoveAllAndClose pool p pda ata point)) (Ret tx) ∈ h
       else exists k ata, Called (OnDamm (AmClosePosition k pda (am_nftMint p) ata)) (Ret tx) ∈ h).
Proof using Type.
  intros h b. unfold DammOps.closeTx. apply wp_bind. unfold Async.lift.
  destruct (DammOps.liquidityIn p) as [liq|e]; cbn [wp ret]; [|by split]. apply wp_bind.
  destruct zero as [z|e]; cbn [wp ret]; [|by split]. destruct (bn_gt liq z) eqn:Eg; unfold DammOps.damm; apply wp_bind.
  - eapply wp_mono; [apply quiet_grown, always_point; apply _|]. intros [point|e] h1 b1 Hg1; [|by split].
    match goal with |- context [OnDamm ?c] => apply (call_wp (OnDamm c)) end.
    intros [tx|e] b2 Hg2; (split; [by eapply grown_trans|]); [|done]. exists liq, z. rewrite Eg.
    split_and!; [done|done|]. exists pool, ata, point. left.
  - destruct (publicKey poolAddress) as [k|e]; cbn [wp ret]; [|by split].
    match goal with |- context [OnDamm ?c] => apply (call_wp (OnDamm c)) end.
    intros [tx|e] b2 Hg2; (split; [done|]); [|done]. exists liq, z. rewrite Eg.
    split_and!; [done|done|]. exists k, ata. left.
Qed.

Lemma yields_sendWith ss e0 tx : yields (DammOps.sendWith cfg ss e0 tx) (tx_sent ss tx).
Proof using Type.
  unfold DammOps.sendWith. eapply yields_bind; [apply yields_sendOne|]. intros [s|] h b Hs; cbn [wp ret throw]; [|by split].
  split; [done|apply Hs].
Qed.

Lemma damm_sends t my pm :
  sends t (damm_gone t my pm) (damm_close my) (eq pm) (DammOps.close_once cfg t my).
Proof using Type.
  intros h b Hpm. unfold DammOps.close_once. apply with_pool_wp.
  { intros Hno. apply wp_bind, delete_wp. intros b' Hb'. cbn [wp ret]. split; [done|]. split; [exact Hb'|].
    left. by rewrite Hpm. }
  intros poolAddress _. apply wp_bind. eapply wp_mono; [apply quiet_grown, always_fetchPool; apply _|].
  intros [pool|e] h1 b1 Hg1; [|exact Hg1].
  unfold DammOps.pdaOf. apply wp_bind. fold (pda_of my). unfold Async.lift at 1.
  destruct (pda_of my) as [pda|e] eqn:Ep; cbn [wp ret]; [|exact Hg1].
  apply wp_bind. eapply wp_mono; [apply quiet_grown, always_ata|].
  intros [ata|e] h2 b2 Hg2; pose proof (grown_trans _ _ _ _ _ _ Hg1 Hg2) as Hg12; [|exact Hg12].
  apply wp_bind. unfold DammOps.ourPosition, DammOps.damm. apply wp_catch, wp_bind, (call_wp (OnDamm (AmFetchPosition pda))).
  intros [p|e] b3 Hg3; pose proof (grown_trans _ _ _ _ _ _ Hg12 Hg3) as Hg13; cbn [wp ret].
  2:{ apply wp_bind, delete_wp. intros b4 Hb4. cbn [wp ret]. split; [apply Hg13|]. split.
      - destruct Hg13 as [_ Hb3]. unfold deleted, same_pm in *. by rewrite Hb4, Hb3.
      - right. exists pda, e. split; [done|left]. }
  apply wp_bind. eapply wp_mono; [apply yields_closeTx|].
  intros [tx|e] h4 b4 [Hg4 Htx]; pose proof (grown_trans _ _ _ _ _ _ Hg13 Hg4) as Hg14; [|exact Hg14].
  apply wp_bind. unfold DammOps.signAndSend. eapply wp_mono; [apply yields_sendWith|].
  intros [s|e] h5 b5 [Hg5 Hs]; pose proof (grown_trans _ _ _ _ _ _ Hg14 Hg5) as Hg15; [|exact Hg15].
  cbn [wp ret]. split; [apply Hg15|]. split; [apply Hg15|].
  destruct Htx as (liq & z & Hl & Hz & Hc). exists pda, p, liq, tx. split_and!; [done| |done| |done].
  - eapply suffix_in; [apply Hg5|]. eapply suffix_in; [apply Hg4|left].
  - exists z. split; [done|]. destruct (bn_gt liq z).
    + destruct Hc as (pool' & ata' & point & Hin). exists pool', ata', point. eapply suffix_in; [apply Hg5|done].
    + destruct Hc as (k & ata' & Hin). exists k, ata'. eapply suffix_in; [apply Hg5|done].
Qed.

Definition damm_close_post (t my : string) (b : Bot) : outcome (option string) -> Hist -> Bot -> Prop :=
  ByrealClose.closing t (damm_gone t my (positionMap b)) (damm_close my) verified b.

Lemma damm_close_from t my b h :
  dryRun cfg = false -> PositionMap.get t (positionMap b) = Some my ->
  wp HL (DammOps.copyClosePosition cfg t) h b (damm_close_post t my b).
Proof using Type.
  intros Hdry Hget. apply (legacy_closing _ _ _ _ _ my); [done|done|apply lasting_damm_gone| |apply damm_sends].
  intros s. apply lasting_damm_close.
Qed.

End Damm.

(** ** The properties *)

(** C6: A Meteora mapping is forgotten only for a close that landed, or a position
    that is gone.  Run the executor's [copyClosePosition] for a mapped target
    against any chain and SDK, while other activations change anything but the
    map: it does not throw; the map is left as it was, unless all that the SDK
    built to take out the whole range of our position as it was read, and then
    what it built to close that position, was signed, sent, confirmed and read
    back without an error, the last one then verified; or the label of the
    mapping holds no pool address, or an error in reading our position says
    "not found"; and a signature it returns is that of such a close. *)
Theorem meteora_close_forgets `{L : BNLib} `{W : Web3} cfg t our env k b :
  dryRun cfg = false -> PositionMap.get t (positionMap b) = Some our -> others_keep_map env ->
  let x := run env k [] (MeteoraOps.copyClosePosition cfg t) b in
  meteora_close_post t our b (res x) (hist x) (final x).
Proof.
  intros Hdry Hget Henv x. unfold x.
  apply (hist_run (MeteoraOps.copyClosePosition cfg t) (fun _ _ _ => True) same_pm (fun _ _ => True)).
  - intros n c s. split; [done|apply Henv].
  - by apply meteora_close_from.
Qed.

(** The same of DAMM v2, where one transaction empties and closes the position,
    or closes it when it was read as empty; and where any failure to read our
    position, of whatever kind, makes the executor forget the mapping. *)
Theorem damm_close_forgets `{L : BNLib} `{W : Web3} `{CA : DammOps.CpAmm (L := L)} cfg t my env k b :
  dryRun cfg = false -> PositionMap.get t (positionMap b) = Some my -> others_keep_map env ->
  let x := run env k [] (DammOps.copyClosePosition cfg t) b in
  damm_close_post t my b (res x) (hist x) (final x).
Proof.
  intros Hdry Hget Henv x. unfold x.
  apply (hist_run (DammOps.copyClosePosition cfg t) (fun _ _ _ => True) same_pm (fun _ _ => True)).
  - intros n c s. split; [done|apply Henv].
  - by apply damm_close_from.
Qed.

(** ** Concrete runs *)

Definition demo_bot_of (d : Dex) (name : string) : Bot :=
  set_executor d idle (fresh (PositionMap.setTargetLiquidity "TNft" "400" (PositionMap.set 0 0 "TNft" "OurNft"
    (Some "MINT/USDC@POOL"%string) (Some "W"%string) None None (Some name) PositionMap.new))).

Definition demo_legacy_env : Env Bot (Call (L := Z_BN)) (Ans (L := Z_BN)) := demo_env (Ret "Sig"%string) (fun _ => None).

Definition demo_meteora_close :=
  run demo_legacy_env 0 [] (MeteoraOps.copyClosePosition (W := demo_web3) demo_settings "TNft") (demo_bot_of Meteora "meteora").

Lemma meteora_close_forgets_witness :
  PositionMap.get "TNft" (positionMap (demo_bot_of Meteora "meteora")) = Some "OurNft"%string
  /\ res demo_meteora_close = Ret (Some "Sig"%string) /\ PositionMap.get "TNft" (positionMap (final demo_meteora_close)) = None
  /\ meteora_close_post (W := demo_web3) "TNft" "OurNft" (demo_bot_of Meteora "meteora")
       (res demo_meteora_close) (hist demo_meteora_close) (final demo_meteora_close).
Proof.
  split; [by vm_compute|]. split; [by vm_compute|]. split; [by vm_compute|].
  apply (meteora_close_forgets (W := demo_web3)); [done|by vm_compute|by intros n c b].
Defined.

Definition demo_damm_close (env : Env Bot (Call (L := Z_BN)) (Ans (L := Z_BN))) :=
  run env 0 [] (DammOps.copyClosePosition (CA := DammOps.demo_cpamm) (W := demo_web3) demo_settings "TNft")
    (demo_bot_of DammV2 "dammv2").

(** Everything succeeds, but that reading DAMM v2 positions is refused. *)
Definition throttled : Env Bot (Call (L := Z_BN)) (Ans (L := Z_BN)) :=
  mkEnv (fun _ c b =>
    (match c return outcome (Ans c) with
     | OnDamm (AmFetchPosition _) => Throw "429 Too Many Requests"%string
     | c => demo_answer (Ret "Sig"%string) (fun _ => None) c
     end, b)) (fun n => Z.of_nat n).

Lemma damm_close_forgets_witness :
  res (demo_damm_close demo_legacy_env) = Ret (Some "Sig"%string)
  /\ PositionMap.get "TNft" (positionMap (final (demo_damm_close demo_legacy_env))) = None
  /\ res (demo_damm_close throttled) = Ret None
  /\ PositionMap.get "TNft" (positionMap (final (demo_damm_close throttled))) = None
  /\ damm_close_post (CA := DammOps.demo_cpamm) (W := demo_web3) "TNft" "OurNft" (demo_bot_of DammV2 "dammv2")
       (res (demo_damm_close demo_legacy_env)) (hist (demo_damm_close demo_legacy_env)) (final (demo_damm_close demo_legacy_env)).
Proof.
  split; [by vm_compute|]. split; [by vm_compute|]. split; [by vm_compute|]. split; [by vm_compute|].
  apply (damm_close_forgets (CA := DammOps.demo_cpamm) (W := demo_web3)); [done|by vm_compute|by intros n c b].
Defined.

End LegacyClose.
