(* ===== verification/OtherClose.v ===== *)
(** * What closing guarantees on Orca and PancakeSwap

    [copyClosePosition] of both executors against an environment that answers
    calls as it likes and lets other activations change anything but the
    position map: as for Byreal, with what each of them takes for a close.  An
    Orca close is all the transactions the SDK builds for our position, or a
    reading of our position that finds nothing, or fails. *)

From S2P Require Import Prelude JsMap JsString JsNumber Json Async Ratio TxTypes PositionMap Store Stores PumpPending State Chain JupiterSwap ByrealOps Discipline ByrealClose OrcaOps OrcaOpen OrcaAssets PcsOps PcsOpen OtherRules.
Open Scope Z_scope.
Open Scope list_scope.
Open Scope prog_scope.

Module OtherClose.
Import Async State Chain ByrealOps Discipline ByrealClose OtherRules.

Section Orca.
Context `{L : BNLib} `{W : Web3} `{WP : OrcaOps.Whirlpools (L := L)} (cfg : Settings).

Abbreviation Hist := (list (HEvent Call Ans Task)).

(** ** Orca *)

(** Our position was read, and the reading found nothing or failed. *)
Definition unread (our : string) (h : Hist) : Prop :=
  exists k, publicKey our = Ret k
  /\ ((exists e, OrcaOps.positionPda k = Throw e)
      \/ exists pda r, OrcaOps.positionPda k = Ret pda
           /\ Called (OnOrca (WpGetPosition MainClient pda)) r ∈ h /\ (r = Ret None \/ exists e, r = Throw e)).

Definition executed (tx : TxBuilder) (sig : string) (h : Hist) : Prop :=
  Called (OnOrca (BuildAndExecute tx)) (Ret sig) ∈ h.

(** The SDK's transactions that close our position were all executed, and
    [txSig] is the signature of the last. *)
Definition orca_close (our txSig : string) (h : Hist) : Prop :=
  exists k pda pool (txs : list TxBuilder),
    publicKey our = Ret k /\ OrcaOps.positionPda k = Ret pda
    /\ Called (OnOrca (WpClosePosition pool pda (OrcaOps.getSlippage cfg))) (Ret txs) ∈ h
    /\ Forall (fun tx => exists sig, executed tx sig h) txs
    /\ (txs = [] /\ txSig = ""%string \/ exists tx, list.last txs = Some tx /\ executed tx txSig h).

Lemma lasting_unread our : lasting (unread our).
Proof using Type.
  intros h h' Hh (k & Hk & [He|(pda & r & Hp & Hin & Hr)]); exists k; (split; [done|]); [by left|right].
  exists pda, r. split_and!; [done|by eapply suffix_in|done].
Qed.

Lemma lasting_executed tx s : lasting (executed tx s).
Proof using Type. intros h h' Hh Hs. by eapply suffix_in. Qed.

Lemma lasting_all_executed txs : lasting (fun h => Forall (fun tx => exists sig, executed tx sig h) txs).
Proof using Type.
  intros h h' Hh Hall. eapply list.Forall_impl; [exact Hall|]. intros tx [s Hs]. exists s. by eapply lasting_executed.
Qed.

Lemma lasting_orca_close our s : lasting (orca_close our s).
Proof using Type.
  intros h h' Hh (k & pda & pool & txs & Hk & Hp & Hc & Hall & Hlast).
  exists k, pda, pool, txs. split_and!; [done|done|by eapply suffix_in|by eapply lasting_all_executed|].
  destruct Hlast as [?|(tx & Ht & He)]; [by left|right]. exists tx. split; [done|by eapply lasting_executed].
Qed.

(** Every builder is executed in turn, and the last signature kept. *)
Lemma execute_all_executes txs lastSig :
  yields (OrcaOps.execute_all txs lastSig) (fun s h =>
    Forall (fun tx => exists sig, executed tx sig h) txs
    /\ (txs = [] /\ s = lastSig \/ exists tx, list.last txs = Some tx /\ executed tx s h)).
Proof using Type.
  revert lastSig. induction txs as [|tx txs IH]; intros lastSig h b; cbn [OrcaOps.execute_all].
  { split; [done|]. split; [done|by left]. }
  unfold OrcaOps.buildAndExecute, OrcaOps.orca. apply wp_bind, (call_wp (OnOrca (BuildAndExecute tx))).
  intros [sig|e] b1 Hg1; [|by split].
  eapply wp_mono; [apply IH|]. intros [s|e] h2 b2 [Hg2 Hs]; [|split; [by eapply grown_trans|done]].
  split; [by eapply grown_trans|]. destruct Hs as [Hall Hlast].
  assert (executed tx sig h2) as He by (eapply lasting_executed; [apply Hg2|left]).
  split; [constructor; [by exists sig|done]|]. right.
  destruct Hlast as [[-> ->]|(tx' & Ht & He')]; [by exists tx|exists tx'].
  split; [|done]. destruct txs; [done|exact Ht].
Qed.

Lemma readPosition_reads our h b :
  wp HL (OrcaOps.readPosition our) h b
    (fun r h' b' => grown h h' b b' /\ match r with Ret None => unread our h' | _ => True end).
Proof using Type.
  unfold OrcaOps.readPosition. apply wp_bind. unfold Async.lift. destruct (publicKey our) as [k|e] eqn:Ek; [|by split].
  cbn [wp ret]. unfold OrcaOps.getPositionByNft. apply wp_catch, wp_bind. unfold Async.lift.
  destruct (OrcaOps.positionPda k) as [pda|e] eqn:Ep; cbn [wp ret throw].
  2:{ split; [done|]. exists k. split; [done|]. left. by exists e. }
  unfold OrcaOps.orca. apply (call_wp (OnOrca (WpGetPosition MainClient pda))).
  intros [[p|]|e] b' Hg; cbn [wp ret]; (split; [done|]); [done|..]; exists k; (split; [done|]); right;
    eexists pda, _; (split; [done|]); (split; [left|]); eauto.
Qed.

Lemma close_once_sends t our : sends t (unread our) (orca_close our) any_start (OrcaOps.close_once cfg t our).
Proof using Type.
  intros h b _. unfold OrcaOps.close_once. apply wp_bind. eapply wp_mono; [apply readPosition_reads|].
  intros [[p|]|e] h1 b1 [Hg1 Hr]; [| |exact Hg1].
  - apply wp_bind. eapply wp_mono; [apply quiet_grown; apply (always_getPool same_pm (fun _ => True))|].
    intros [pool|e] h2 b2 Hg2; pose proof (grown_trans _ _ _ _ _ _ Hg1 Hg2) as Hg12; [|exact Hg12].
    apply wp_bind. unfold Async.lift. destruct (publicKey our) as [k|e] eqn:Ek; [|exact Hg12].
    cbn [wp ret]. apply wp_bind. destruct (OrcaOps.positionPda k) as [pda|e] eqn:Ep; [|exact Hg12].
    cbn [wp ret]. unfold OrcaOps.orca. apply wp_bind, (call_wp (OnOrca (WpClosePosition pool pda (OrcaOps.getSlippage cfg)))).
    intros [txs|e] b3 Hg3; pose proof (grown_trans _ _ _ _ _ _ Hg12 Hg3) as Hg13; [|exact Hg13].
    apply wp_bind. eapply wp_mono; [apply execute_all_executes|].
    intros [s|e] h4 b4 [Hg4 Hs]; pose proof (grown_trans _ _ _ _ _ _ Hg13 Hg4) as Hg14; [|exact Hg14].
    cbn [wp ret]. split; [apply Hg14|]. split; [apply Hg14|]. destruct Hs as [Hall Hlast].
    exists k, pda, pool, txs. split_and!; [done|done|eapply suffix_in; [apply Hg4|left]|done|exact Hlast].
  - apply wp_bind, delete_wp. intros b2 Hb2. cbn [wp ret]. destruct Hg1 as [Hh1 Hs1].
    split; [done|]. split; [|done]. unfold deleted, same_pm in *. by rewrite Hb2, Hs1.
Qed.

Definition orca_close_post (t our : string) : Bot -> outcome (option string) -> Hist -> Bot -> Prop :=
  closing t (unread our) (orca_close our) verified.

Lemma orca_close_from t our b h :
  dryRun cfg = false -> PositionMap.get t (positionMap b) = Some our ->
  wp HL (OrcaOps.copyClosePosition cfg t) h b (orca_close_post t our b).
Proof using Type.
  intros Hdry Hget. unfold OrcaOps.copyClosePosition, mapped. apply wp_bind. cbn [wp gets ret]. rewrite Hget, Hdry.
  destruct (negb (truthy our)); [split; [by left|]; exists None; by split|].
  apply locked_closes. intros b' _. unfold OrcaOps.close_body. apply (close_with_closes _ _ _ _ _ any_start).
  - apply lasting_unread.
  - apply lasting_orca_close.
  - apply lasting_verified.
  - apply close_attempts_closes; [apply lasting_orca_close|apply close_once_sends|apply verify_verified].
  - done.
  - intros h' b1 Q. apply delete_wp.
  - intros s. apply (always_orcaReceived cfg same_pm (fun _ => True)).
Qed.

(** *** A reading that fails *)

(** Whoever else runs, reading the account [pda] fails. *)
Definition unreadable (pda : string) (c : Call) (r : outcome (Ans c)) : Prop :=
  c = OnOrca (WpGetPosition MainClient pda) -> exists e, r = Throw e.

Lemma failed_reading_wp t our k pda b :
  dryRun cfg = false -> busy_of Orca b = false -> PositionMap.get t (positionMap b) = Some our -> truthy our = true ->
  publicKey our = Ret k -> OrcaOps.positionPda k = Ret pda ->
  wp (hist_logic (fun _ _ _ => True) same_pm (unreadable pda)) (OrcaOps.copyClosePosition cfg t) [] b
    (fun r h b' => r = Ret None /\ positionMap b' = PositionMap.delete t (positionMap b)
       /\ exists e, h = [Called (OnOrca (WpGetPosition MainClient pda)) (Throw e)]).
Proof using Type.
  intros Hdry Hbusy Hget Hour Hk Hp. unfold OrcaOps.copyClosePosition, mapped, locked, acquire.
  apply wp_bind. cbn [wp gets ret]. rewrite Hget, Hour, Hdry. cbn [negb].
  apply wp_bind, wp_bind. cbn [wp gets ret]. rewrite Hbusy. apply wp_bind.
  eapply (wp_modify _ _ _ _ _ []); [done|]. cbn [wp ret].
  apply wp_finally. eapply (wp_mono _ _ _ _ (fun r h b' => r = Ret None /\ positionMap b' = PositionMap.delete t (positionMap b)
    /\ exists e, h = [Called (OnOrca (WpGetPosition MainClient pda)) (Throw e)])).
  2:{ intros r h b' (-> & Hb' & He). eapply (wp_modify _ _ _ _ _ h); [done|]. by rewrite on_executor_positionMap. }
  unfold OrcaOps.close_body, OrcaOps.close_loop, OrcaOps.MAX_CLOSE_ATTEMPTS, close_with, pauseBefore. cbn [close_attempts].
  apply wp_catch, wp_bind, wp_bind, wp_bind, wp_catch, wp_bind. unfold OrcaOps.close_once, OrcaOps.readPosition.
  apply wp_bind, wp_bind. rewrite Hk. cbn [Async.lift wp ret]. unfold OrcaOps.getPositionByNft.
  apply wp_catch, wp_bind. rewrite Hp. cbn [Async.lift wp ret]. split; [done|].
  intros r b1 Hr Hs. destruct (Hr eq_refl) as [e ->]. cbn [wp ret]. apply wp_bind, delete_wp. intros b2 Hb2.
  cbn [wp ret]. split_and!; [done| |by exists e]. unfold same_pm in Hs.
  by rewrite Hb2, Hs, on_executor_positionMap.
Qed.

End Orca.

Section Pcs.
Context `{L : BNLib} `{W : Web3} (cfg : Settings).
Abbreviation Hist := (list (HEvent Call Ans Task)).

(** ** PancakeSwap *)

Definition pcs_close (our txSig : string) (h : Hist) : Prop :=
  exists k, publicKey our = Ret k /\ sent (OnPcs (PcsDecreaseFull k true)) txSig h.

(** The transaction was fetched, and bears no error: one without a [meta]
    passes. *)
Definition no_error (txSig : string) (h : Hist) : Prop :=
  exists tx, Called (GetParsedTransaction txSig) (Ret (Some tx)) ∈ h
    /\ match meta (f_tx tx) with Some m => err m = false | None => True end.

Lemma lasting_pcs_close our s : lasting (pcs_close our s).
Proof using Type. intros h h' Hh (k & Hk & Hs). exists k. split; [done|]. by eapply lasting_sent. Qed.

Lemma lasting_no_error s : lasting (no_error s).
Proof using Type. intros h h' Hh (tx & Hin & Hm). exists tx. split; [by eapply suffix_in|done]. Qed.

Lemma yields_pcs_retry {A} (fn : P A) Q : yields fn Q -> yields (PcsOps.retryOnTransient fn) Q.
Proof using Type.
  intros Hf. unfold PcsOps.retryOnTransient. generalize 0. generalize 3%nat as left.
  induction left as [|left IH]; intros i h b; cbn [PcsOps.retry_loop]; [by split|].
  apply wp_catch. eapply wp_mono; [apply Hf|]. intros [a|e] h1 b1 [Hg Ha]; [done|].
  destruct (PcsOps.isTransient e && negb (left =? 0)%nat); [|by split].
  apply wp_bind. eapply wp_mono; [apply quiet_grown; always_go|].
  intros [u|e'] h2 b2 Hg2; pose proof (grown_trans _ _ _ _ _ _ Hg Hg2) as Hg12; [|by split].
  eapply wp_mono; [apply IH|]. intros r h3 b3 [Hg3 Hr]. split; [|done]. by eapply grown_trans.
Qed.

Lemma pcs_sendClose_sent our : yields (PcsOps.sendClose our) (pcs_close our).
Proof using Type.
  apply yields_pcs_retry. intros h b. unfold PcsOps.buildSignSend, PcsOps.decreaseFull, PcsOps.pcs.
  apply wp_bind, wp_bind. unfold Async.lift. destruct (publicKey our) as [k|e] eqn:Ek; [|by split].
  cbn [wp ret]. apply (call_wp (OnPcs (PcsDecreaseFull k true))). intros [result|e] b1 Hg1; [|by split].
  unfold PcsOps.makeSdkTransactionWithMinimumPriorityFee, PcsOps.makeTransaction, PcsOps.pcs.
  match goal with |- context [OnPcs ?c] => apply wp_bind, (call_wp (OnPcs c)) end.
  intros [tx|e] b2 Hg2; pose proof (grown_trans _ _ _ _ _ _ Hg1 Hg2) as Hg12; [|by split].
  eapply wp_mono; [apply (signAndSend_sent (OnPcs (PcsDecreaseFull k true)))|].
  - eexists. right. left.
  - intros r h3 b3 [Hg3 Hr]. split; [by eapply grown_trans|]. destruct r as [s|e]; [|done]. by exists k.
Qed.

Lemma pcs_verify_no_error s : yields (PcsOps.verifyTxSuccess s) (fun v h => v = true -> no_error s h).
Proof using Type.
  intros h b. unfold PcsOps.verifyTxSuccess. apply wp_catch, wp_bind, (call_wp GetLatestBlockhash).
  intros [bh|e] b1 Hg1; [|by split]. apply wp_bind, (call_wp (ConfirmTransaction s bh)).
  intros [u|e] b2 Hg2; pose proof (grown_trans _ _ _ _ _ _ Hg1 Hg2) as Hg12; [|by split].
  apply wp_bind, (call_wp (GetParsedTransaction s)).
  intros [tx|e] b3 Hg3; pose proof (grown_trans _ _ _ _ _ _ Hg12 Hg3) as Hg13; [|by split].
  cbn [wp ret]. split; [done|]. destruct tx as [t|]; [|done]. intros Hok. exists t. split; [left|].
  destruct (meta (f_tx t)) as [m|]; [|done]. by apply negb_true_iff.
Qed.

Definition pcs_close_post (t our : string) : Bot -> outcome (option string) -> Hist -> Bot -> Prop :=
  closing t never (pcs_close our) no_error.

Lemma pcs_close_from t our b h :
  dryRun cfg = false -> PositionMap.get t (positionMap b) = Some our ->
  wp HL (PcsOps.copyClosePosition cfg t) h b (pcs_close_post t our b).
Proof using Type.
  intros Hdry Hget. unfold PcsOps.copyClosePosition, mapped. apply wp_bind. cbn [wp gets ret]. rewrite Hget, Hdry.
  destruct (negb (truthy our)); [split; [by left|]; exists None; by split|].
  apply locked_closes. intros b' _. unfold PcsOps.close_body. apply (close_with_closes _ _ _ _ _ any_start).
  - apply lasting_never.
  - apply lasting_pcs_close.
  - apply lasting_no_error.
  - apply close_attempts_closes; [apply lasting_pcs_close| |apply pcs_verify_no_error].
    intros h' b1 _. apply wp_bind. eapply wp_mono; [apply pcs_sendClose_sent|].
    intros [s|e] h2 b2 [[Hh Hs] Hv]; by split.
  - done.
  - intros h' b1 Q. apply delete_wp.
  - intros s. apply (always_pcsLogged same_pm (fun _ => True)).
Qed.

End Pcs.

(** C5: An Orca mapping is forgotten only for a close that landed, or a
    position that cannot be read.  Run the executor's [copyClosePosition] for a
    mapped target against any chain and SDK, while other activations change
    anything but the map: it does not throw; the map is left as it was, unless
    all the transactions the SDK built for closing our position were executed
    and the last one then fetched without an error, or a reading of our
    position found nothing or failed; and a signature it returns is that of
    such a close. *)
Theorem orca_close_forgets `{L : BNLib} `{W : Web3} `{WP : OrcaOps.Whirlpools (L := L)} cfg t our env k b :
  dryRun cfg = false -> PositionMap.get t (positionMap b) = Some our -> others_keep_map env ->
  let x := run env k [] (OrcaOps.copyClosePosition cfg t) b in
  orca_close_post cfg t our b (res x) (hist x) (final x).
Proof.
  intros Hdry Hget Henv x. unfold x.
  apply (hist_run (OrcaOps.copyClosePosition cfg t) (fun _ _ _ => True) same_pm (fun _ _ => True)).
  - intros n c s. split; [done|apply Henv].
  - by apply orca_close_from.
Qed.

(** A PancakeSwap mapping is forgotten only for a close that landed: built,
    signed and sent, and then fetched, without an error in its [meta] if it has
    one; as for the other executors, whatever the chain and the SDK answer and
    whatever else runs. *)
Theorem pcs_close_forgets `{L : BNLib} `{W : Web3} cfg t our env k b :
  dryRun cfg = false -> PositionMap.get t (positionMap b) = Some our -> others_keep_map env ->
  let x := run env k [] (PcsOps.copyClosePosition cfg t) b in
  pcs_close_post t our b (res x) (hist x) (final x).
Proof.
  intros Hdry Hget Henv x. unfold x.
  apply (hist_run (PcsOps.copyClosePosition cfg t) (fun _ _ _ => True) same_pm (fun _ _ => True)).
  - intros n c s. split; [done|apply Henv].
  - by apply pcs_close_from.
Qed.

(** One failed reading counts as a closed position: when reading our Orca
    position fails, for whatever reason, [copyClosePosition] makes that one call
    and no other, forgets the mapping, and returns null; the position is still
    open on chain. *)
Theorem failed_reading_forgets `{L : BNLib} `{W : Web3} `{WP : OrcaOps.Whirlpools (L := L)} cfg t our key pda env k b :
  dryRun cfg = false -> busy_of Orca b = false -> PositionMap.get t (positionMap b) = Some our -> truthy our = true ->
  publicKey our = Ret key -> OrcaOps.positionPda key = Ret pda ->
  (forall n c b, unreadable pda c (answer env n c b).1 /\ same_pm b (answer env n c b).2) ->
  let x := run env k [] (OrcaOps.copyClosePosition cfg t) b in
  res x = Ret None /\ positionMap (final x) = PositionMap.delete t (positionMap b)
  /\ exists e, hist x = [Called (OnOrca (WpGetPosition MainClient pda)) (Throw e)].
Proof.
  intros Hdry Hbusy Hget Hour Hk Hp Henv.
  apply (hist_run (OrcaOps.copyClosePosition cfg t) (fun _ _ _ => True) same_pm (unreadable pda) env k []
           b (fun r h b' => r = Ret None /\ positionMap b' = PositionMap.delete t (positionMap b)
             /\ exists e, h = [Called (OnOrca (WpGetPosition MainClient pda)) (Throw e)]) Henv).
  by eapply failed_reading_wp.
Qed.

(** ** Concrete runs *)

Definition willing : Env Bot (Call (L := Z_BN)) (Ans (L := Z_BN)) :=
  demo_env (Ret "Sig"%string) (fun _ => Some (demo_position 5 1 1)).

Definition demo_orca_close :=
  run willing 0 [] (OrcaOps.copyClosePosition (WP := OrcaOps.demo_whirlpools) (W := demo_web3) demo_settings "T")
    OrcaOps.demo_orca_bot.

Lemma orca_close_forgets_witness :
  PositionMap.get "T" (positionMap OrcaOps.demo_orca_bot) = Some "OurNft"%string
  /\ res demo_orca_close = Ret (Some "Sig"%string) /\ PositionMap.get "T" (positionMap (final demo_orca_close)) = None
  /\ orca_close_post (WP := OrcaOps.demo_whirlpools) (W := demo_web3) demo_settings "T" "OurNft" OrcaOps.demo_orca_bot
       (res demo_orca_close) (hist demo_orca_close) (final demo_orca_close).
Proof.
  split; [by vm_compute|]. split; [by vm_compute|]. split; [by vm_compute|].
  apply (orca_close_forgets (WP := OrcaOps.demo_whirlpools) (W := demo_web3)); [done|by vm_compute|by intros n c b].
Defined.

Definition demo_pcs_bot : Bot :=
  set_executor Pcs idle
    (fresh (PositionMap.set 0 0 "T" "OurNft" None None None None (Some "pancakeswap"%string) PositionMap.new)).

Definition demo_pcs_close :=
  run willing 0 [] (PcsOps.copyClosePosition (W := demo_web3) demo_settings "T") demo_pcs_bot.

Lemma pcs_close_forgets_witness :
  PositionMap.get "T" (positionMap demo_pcs_bot) = Some "OurNft"%string
  /\ res demo_pcs_close = Ret (Some "Sig"%string) /\ PositionMap.get "T" (positionMap (final demo_pcs_close)) = None
  /\ pcs_close_post (W := demo_web3) "T" "OurNft" demo_pcs_bot (res demo_pcs_close) (hist demo_pcs_close) (final demo_pcs_close).
Proof.
  split; [by vm_compute|]. split; [by vm_compute|]. split; [by vm_compute|].
  apply (pcs_close_forgets (W := demo_web3)); [done|by vm_compute|by intros n c b].
Defined.

(** Everything is as before, but that reading positions is refused. *)
Definition throttled : Env Bot (Call (L := Z_BN)) (Ans (L := Z_BN)) :=
  mkEnv (fun _ c b =>
    (match c return outcome (Ans c) with
     | OnOrca (WpGetPosition _ _) => Throw "429 Too Many Requests"%string
     | c => demo_answer (Ret "Sig"%string) (fun _ => None) c
     end, b)) (fun n => Z.of_nat n).

Lemma failed_reading_forgets_witness :
  let x := run throttled 0 [] (OrcaOps.copyClosePosition (WP := OrcaOps.demo_whirlpools) (W := demo_web3) demo_settings "T")
             OrcaOps.demo_orca_bot in
  busy_of Orca OrcaOps.demo_orca_bot = false
  /\ res x = Ret None /\ PositionMap.get "T" (positionMap (final x)) = None.
Proof.
  cbv zeta. split; [done|].
  destruct (failed_reading_forgets (WP := OrcaOps.demo_whirlpools) (W := demo_web3) demo_settings "T" "OurNft" "OurNft"
    "pda OurNft" throttled 0 OrcaOps.demo_orca_bot) as (Hr & Hpm & _);
    [done|done|by vm_compute|done|done|done| |].
  - intros n c b. split; [|done]. intros ->. by eexists.
  - split; [exact Hr|]. rewrite Hpm. by vm_compute.
Defined.

End OtherClose.
