(* ===== verification/OtherReads.v ===== *)
(** * Reading positions on Orca and PancakeSwap

    What [readPosition] of both executors leaves in the history, for any
    condition on the calls that allows reading. *)

From S2P Require Import Prelude JsMap JsString JsNumber Json Async Ratio TxTypes PositionMap Store Stores PumpPending State Chain JupiterSwap ByrealOps Discipline ByrealClose CallRules OrcaOps OrcaOpen OrcaAssets PcsOps PcsOpen OtherRules OtherClose.
Open Scope Z_scope.
Open Scope list_scope.
Open Scope prog_scope.

Module OtherReads.
Import Async State Chain ByrealOps Discipline ByrealClose CallRules OtherRules.

Section OrcaReads.
Context `{L : BNLib} `{W : Web3} `{WP : OrcaOps.Whirlpools (L := L)}.
Abbreviation Hist := (list (HEvent Call Ans Task)).

Definition wp_read (n : string) (p : WpPosition) (h : Hist) : Prop :=
  exists k pda, publicKey n = Ret k /\ OrcaOps.positionPda k = Ret pda
    /\ Called (OnOrca (WpGetPosition MainClient pda)) (Ret (Some p)) ∈ h.

Definition orca_liq (n : string) (l : BN) (h : Hist) : Prop :=
  exists p, wp_read n p h /\ l = ps_liquidity p /\ 0 <= bn_val l.
Definition orca_blind (n : string) (h : Hist) : Prop :=
  (exists e, publicKey n = Throw e) \/ OtherClose.unread n h.

Lemma wp_read_lasting n p : lasting (wp_read n p).
Proof using Type. intros h h' Hs (k & pda & Hk & Hp & Hin). exists k, pda. split_and!; [done|done|by eapply in_suffix]. Qed.

Lemma orca_liq_lasting n l : lasting (orca_liq n l).
Proof using Type. intros h h' Hs (p & Hp & Hl). exists p. split; [by eapply wp_read_lasting|done]. Qed.

Lemma orca_blind_lasting n : lasting (orca_blind n).
Proof using Type. intros h h' Hs [He|Hu]; [by left|right]. by eapply OtherClose.lasting_unread. Qed.

Context (J : Hist -> Call -> Prop) `{!Reads (plain J)}.
Abbreviation CL := (call_logic J same_pm readable).

(** What a reading leaves in the history. *)
Definition orca_seen (n : string) (r : outcome (option WpPosition)) (h : Hist) : Prop :=
  match r with Ret (Some p) => wp_read n p h /\ 0 <= bn_val (ps_liquidity p) | _ => orca_blind n h end.

Lemma readPosition_seen n h b :
  wp CL (OrcaOps.readPosition n) h b (fun r h' b' => h `suffix_of` h' /\ same_pm b b' /\ orca_seen n r h').
Proof using Reads0.
  unfold OrcaOps.readPosition. apply wp_bind. unfold Async.lift. destruct (publicKey n) as [k|e] eqn:Ek; cbn [wp ret].
  2:{ split_and!; [done..|]. left. by exists e. }
  unfold OrcaOps.getPositionByNft. apply wp_catch, wp_bind. unfold Async.lift.
  destruct (OrcaOps.positionPda k) as [pda|e] eqn:Ep; cbn [wp ret throw].
  2:{ split_and!; [done..|]. right. exists k. split; [done|]. left. by exists e. }
  split; [by apply (reading J)|]. intros r b' Hok Hb'.
  destruct r as [[p|]|e]; cbn [wp ret]; (split; [by apply suffix_cons_r|]); (split; [done|]).
  - split; [|by apply Hok]. exists k, pda. split_and!; [done|done|left].
  - right. exists k. split; [done|]. right. exists pda, (Ret None). split_and!; [done|left|by left].
  - right. exists k. split; [done|]. right. exists pda, (Throw e). split_and!; [done|left|right; by exists e].
Qed.

End OrcaReads.

Section PcsReads.
Context `{L : BNLib} `{W : Web3}.
Abbreviation Hist := (list (HEvent Call Ans Task)).

Definition pcs_read (n : string) (p : PcsPosition) (h : Hist) : Prop :=
  exists k, publicKey n = Ret k /\ Called (OnPcs (PcsGetPosition k)) (Ret (Some p)) ∈ h.
Definition pcs_liq (n : string) (l : BN) (h : Hist) : Prop :=
  exists p, pcs_read n p h /\ l = PcsOps.liquidityOf p /\ 0 <= bn_val l.
Definition pcs_blind (n : string) (h : Hist) : Prop :=
  (exists e, publicKey n = Throw e)
  \/ exists k r, publicKey n = Ret k /\ Called (OnPcs (PcsGetPosition k)) r ∈ h /\ forall p, r <> Ret (Some p).

Lemma pcs_read_lasting n p : lasting (pcs_read n p).
Proof using Type. intros h h' Hs (k & Hk & Hp). exists k. split; [done|by eapply in_suffix]. Qed.

Lemma pcs_liq_lasting n l : lasting (pcs_liq n l).
Proof using Type. intros h h' Hs (p & Hp & Hl). exists p. split; [by eapply pcs_read_lasting|done]. Qed.

Lemma pcs_blind_lasting n : lasting (pcs_blind n).
Proof using Type.
  intros h h' Hs [He|(k & r & Hk & Hin & Hr)]; [by left|right]. exists k, r. split_and!; [done|by eapply in_suffix|done].
Qed.

Context (J : Hist -> Call -> Prop) `{!Reads (plain J)}.
Abbreviation CL := (call_logic J same_pm readable).

Definition pcs_seen (n : string) (r : outcome (option PcsPosition)) (h : Hist) : Prop :=
  match r with Ret (Some p) => pcs_read n p h /\ 0 <= bn_val (PcsOps.liquidityOf p) | _ => pcs_blind n h end.

Lemma pcs_loop_seen n k i left h b :
  publicKey n = Ret k -> (left = 0%nat -> pcs_blind n h) ->
  wp CL (PcsOps.position_loop k i left) h b (fun r h' b' => h `suffix_of` h' /\ same_pm b b' /\ pcs_seen n r h').
Proof using Reads0.
  intros Hk. revert i h b. induction left as [|left IH]; intros i h b H0; cbn [PcsOps.position_loop].
  { split_and!; [done..|by apply H0]. }
  apply wp_bind, wp_catch. split; [by apply (reading J)|]. intros r b1 Hok Hb1.
  assert (forall r', (forall p, r' <> Ret (Some p)) ->
    wp CL (do* sleep (if i =? 0 then 2000 else 3000 * i) in PcsOps.position_loop k (i + 1) left)
      (Called (OnPcs (PcsGetPosition k)) r' :: h) b1
      (fun r h' b' => h `suffix_of` h' /\ same_pm b b' /\ pcs_seen n r h')) as Hagain.
  { intros r' Hr'. apply wp_bind. split; [by apply (reading J)|]. intros r2 b2 _ Hb2.
    assert (pcs_blind n (Called (Sleep (if i =? 0 then 2000 else 3000 * i)) r2 :: Called (OnPcs (PcsGetPosition k)) r' :: h)) as Hblind.
    { right. exists k, r'. split_and!; [done|right; left|done]. }
    destruct r2 as [u|e]; cbn; [|split_and!; [by do 2 apply suffix_cons_r|by eapply same_pm_trans|done]].
    eapply (wp_mono _ (PcsOps.position_loop k (i + 1) left)); [by apply IH|]. intros r3 h3 b3 (Hs3 & Hb3 & Hseen).
    split_and!; [etrans; [|exact Hs3]; by do 2 apply suffix_cons_r|do 2 (eapply same_pm_trans; [eassumption|]); done|done]. }
  destruct r as [[p|]|e]; cbn [wp ret].
  - split; [by apply suffix_cons_r|]. split; [done|]. split; [exists k; split; [done|left]|by apply Hok].
  - by apply Hagain.
  - by apply Hagain.
Qed.

Lemma pcs_position_seen n h b :
  wp CL (PcsOps.readPosition n) h b (fun r h' b' => h `suffix_of` h' /\ same_pm b b' /\ pcs_seen n r h').
Proof using Reads0.
  unfold PcsOps.readPosition. apply wp_bind. unfold Async.lift. destruct (publicKey n) as [k|e] eqn:Ek; cbn [wp ret].
  - by apply pcs_loop_seen.
  - split_and!; [done..|]. left. by exists e.
Qed.

Lemma pcs_retry_allowed {A} H (fn : P A) : lasting H -> CallRules.allowed J H fn -> CallRules.allowed J H (PcsOps.retryOnTransient fn).
Proof using Reads0.
  intros HH Hf. unfold PcsOps.retryOnTransient. generalize 0. generalize 3%nat as left.
  induction left as [|left IH]; intros i; cbn [PcsOps.retry_loop]; [apply allowed_done|].
  apply allowed_catch; [done..|]. intros e. destruct (_ && _); [|apply allowed_done].
  apply allowed_bind; [done|apply allowed_plain; always_go|done].
Qed.

End PcsReads.

End OtherReads.
