(* ===== verification/OtherDecrease.v ===== *)
(** * What a decrease may take on Orca and PancakeSwap

    [copyDecreaseLiquidity] of both executors, as [ByrealDecrease] judges
    Byreal's: every call that writes or has the SDK build a transaction is
    justified by what was read before. *)

From S2P Require Import Prelude JsMap JsString JsNumber Json Async Ratio TxTypes PositionMap Store Stores PumpPending State Chain JupiterSwap ByrealOps Discipline ByrealClose CallRules Share OrcaOps OrcaOpen OrcaAssets PcsOps PcsOpen OtherRules OtherClose OtherReads.
Open Scope Z_scope.
Open Scope list_scope.
Open Scope prog_scope.

Module OtherDecrease.
Import Async State Chain ByrealOps Discipline ByrealClose CallRules Share OtherRules OtherReads.

(** A call that only reads. *)
Definition just_reads `{L : BNLib} (c : Call) : Prop := writes c = false /\ builds c = false.

(** ** Orca *)

Section Orca.
Context `{L : BNLib} `{W : Web3} `{WP : OrcaOps.Whirlpools (L := L)} (cfg : Settings).
Abbreviation Hist := (list (HEvent Call Ans Task)).

(** A transaction to execute takes liquidity or fees out of a position. *)
Definition takes_out (tx : TxBuilder) (h : Hist) : Prop :=
  exists p, Called (OnOrca (WpCollectFees p)) (Ret tx) ∈ h
    \/ exists l a b, Called (OnOrca (WpDecreaseLiquidity p l a b)) (Ret tx) ∈ h.

Definition orca_justified (t my : string) (stored : option string) (h : Hist) (c : Call) : Prop :=
  match c with
  | OnOrca (WpDecreaseLiquidity p l _ _) =>
      wp_read my p h
      /\ ((gone t orca_liq orca_blind h \/ orca_blind my h) /\ l = ps_liquidity p
          \/ exists part, share_of_removed t my stored orca_liq part h
               /\ bn_val l = Z.min part (bn_val (ps_liquidity p)))
  | OnOrca (WpCollectFees p) => wp_read my p h
  | OnOrca (BuildAndExecute tx) => takes_out tx h
  | c => just_reads c
  end.

Context (t my : string) (stored : option string).
Abbreviation J := (orca_justified t my stored).
Abbreviation OL := (call_logic J same_pm readable).
Abbreviation allowed := (CallRules.allowed J).
Abbreviation amount_seen := (Share.amount_seen t my stored orca_liq orca_blind).

#[local] Instance orca_reads : Reads (plain J).
Proof using Type. intros c Hw Hb h. revert c Hw Hb. by_call. Qed.

Lemma orca_amount_lasting o : lasting (amount_seen o).
Proof using Type. apply Share.amount_lasting; [apply orca_liq_lasting|apply orca_blind_lasting]. Qed.

(** A reading of a position's liquidity. *)
Lemma orca_liquidity_seen {A} n (f : WpPosition -> A) h b (Q : option A -> Hist -> Prop) :
  (forall h' p, orca_liq n (ps_liquidity p) h' -> Q (Some (f p)) h') -> (forall h', orca_blind n h' -> Q None h') ->
  wp OL (catch (let* p := OrcaOps.readPosition n in ret (f <$> p)) (fun _ => ret None)) h b
    (fun r h' b' => h `suffix_of` h' /\ same_pm b b' /\ exists o, r = Ret o /\ Q o h').
Proof using Type.
  intros Hsome Hnone. apply wp_catch, wp_bind. eapply wp_mono; [apply (readPosition_seen J)|].
  intros [[p|]|e] h' b' (Hs & Hb & Hr); cbn [wp ret fmap]; (split; [done|split; [done|]]); eexists; (split; [done|]).
  - apply Hsome. exists p. by destruct Hr.
  - by apply Hnone.
  - by apply Hnone.
Qed.

Context `{!BNLaws L}.

Lemma orca_decreaseAmount_seen current h b :
  Share.seen_as orca_liq orca_blind t current h -> PositionMap.getTargetLiquidity t (positionMap b) = stored ->
  wp OL (OrcaOps.decreaseAmount t my current) h b
    (fun r h' _ => h `suffix_of` h' /\ match r with Ret o => amount_seen o h' | Throw _ => True end).
Proof using BNLaws0.
  intros Hc Hst. apply (Share.amountToTakeOut_seen _ _ _ _ orca_liq orca_blind orca_liq_lasting); [|done| |done].
  - intros sl removed h1 b1. eapply wp_mono.
    + apply (orca_liquidity_seen my (fun p => proportional (ps_liquidity p) sl removed) h1 b1
        (fun o h' => match o with Some a => exists l, orca_liq my l h' /\ a = proportional l sl removed | None => orca_blind my h' end)); [|done].
      intros h' p Hp. by exists (ps_liquidity p).
    + by intros r h' b' (Hs & _ & Hr).
  - intros l h1 (p & _ & -> & Hl). exact Hl.
Qed.

Lemma collect_from_allowed p : allowed (wp_read my p) (OrcaOps.collect_from p).
Proof using Type.
  intros h b Hp. unfold OrcaOps.collect_from. apply wp_bind. split; [done|]. intros [tx|e] b1 _ _; [|by apply suffix_cons_r].
  apply wp_bind. split; [exists p; left; left|]. intros [s|e] b2 _ _; cbn [wp ret]; by do 2 apply suffix_cons_r.
Qed.

Lemma collect_once_allowed H : allowed H (OrcaOps.collect_once my).
Proof using Type.
  intros h b _. unfold OrcaOps.collect_once. apply wp_bind. eapply wp_mono; [apply (readPosition_seen J)|].
  intros [[p|]|e] h1 b1 (Hs & _ & Hr); [|done..]. eapply wp_mono; [apply collect_from_allowed, Hr|].
  intros r h2 b2 Hs2. by etrans.
Qed.

Lemma orca_decrease_once_allowed amount :
  allowed (amount_seen amount) (OrcaOps.decrease_once cfg my amount).
Proof using BNLaws0.
  intros h b Hh. unfold OrcaOps.decrease_once. apply wp_bind. eapply wp_mono; [apply (readPosition_seen J)|].
  intros [[p|]|e] h1 b1 (Hs1 & _ & Hr); [|done..]. destruct Hr as [Hp Hpos].
  eapply wp_mono with (Q := fun _ h' _ => h1 `suffix_of` h'); [|intros r h2 b2 Hs2; by etrans].
  destruct (bn_isZero _) eqn:Ez.
  { apply (allowed_catch J (wp_read my p)); [by apply wp_read_lasting|apply collect_from_allowed|intros e; apply allowed_done|done]. }
  apply wp_bind. unfold Async.lift. destruct zero as [z|e]; cbn [wp ret]; [|done].
  apply wp_bind. split.
  - split; [done|]. pose proof (orca_amount_lasting amount _ _ Hs1 Hh) as Ha. destruct amount as [a|]; [right|by left].
    destruct Ha as [Haz|Ha]; [|exists (bn_val a); split; [done|by rewrite bn_min_val]].
    exfalso. rewrite bn_isZero_val in Haz, Ez. apply Z.eqb_eq in Haz. apply Z.eqb_neq in Ez. rewrite bn_min_val in Ez. lia.
  - intros [tx|e] b2 _ _; cbn [wp]; [|by apply suffix_cons_r]. apply wp_bind. split.
    + exists p. right. do 3 eexists. left.
    + intros [s|e] b3 _ _; cbn [wp]; [|by do 2 apply suffix_cons_r].
      apply wp_bind. eapply wp_mono; [apply sends, always_catch; [apply always_orcaReceived; apply _|intros; always_go]|].
      intros [u|e] h4 b4 Hs4; cbn [wp ret]; (etrans; [|exact Hs4]); by do 2 apply suffix_cons_r.
Qed.

Lemma attempted_allowed {A} H (once : P (option A)) : lasting H -> allowed H once -> allowed H (OrcaOps.attempted once).
Proof using Type.
  intros HH Ho. unfold OrcaOps.attempted. apply allowed_catch; [done| |intros e; apply allowed_done].
  apply allowed_bind; [done|apply (allowed_attempts J); [done|done]|]. intros r. apply allowed_done.
Qed.

Lemma orca_decrease_calls h b :
  PositionMap.get t (positionMap b) = Some my -> PositionMap.getTargetLiquidity t (positionMap b) = stored ->
  wp OL (OrcaOps.copyDecreaseLiquidity cfg t) h b (fun _ _ _ => True).
Proof using BNLaws0.
  intros Hmy Hst. unfold OrcaOps.copyDecreaseLiquidity, mapped. apply wp_bind. cbn [wp gets ret]. rewrite Hmy.
  destruct (negb (truthy my)); [done|]. apply wp_bind.
  eapply wp_mono; [by apply (orca_liquidity_seen t ps_liquidity h b (Share.seen_as orca_liq orca_blind t))|].
  intros r h1 b1 (_ & Hpm & current & -> & Hc).
  apply wp_bind. eapply wp_mono; [apply orca_decreaseAmount_seen; [done|by rewrite Hpm]|].
  intros [amount|e] h2 b2 [_ Ha]; [|done]. cbv zeta.
  assert (forall A (p : P A), allowed (amount_seen amount) p -> wp OL p h2 b2 (fun _ _ _ => True)) as Hdone.
  { intros A p Hp. eapply wp_mono; [by apply Hp|]. done. }
  destruct (match amount with Some a => bn_isZero a | None => false end); destruct (dryRun cfg); try done;
    apply Hdone, allowed_locked, attempted_allowed; try apply orca_amount_lasting.
  - apply collect_once_allowed.
  - apply orca_decrease_once_allowed.
Qed.

End Orca.

(** ** PancakeSwap *)

Section Pcs.
Context `{L : BNLib} `{W : Web3} (cfg : Settings).
Abbreviation Hist := (list (HEvent Call Ans Task)).

(** Instructions the SDK made for taking out liquidity or fees. *)
Definition takes_out_ixs (result : SdkResult) (h : Hist) : Prop :=
  exists k, Called (OnPcs (PcsCollectFees k)) (Ret result) ∈ h
    \/ (exists l, Called (OnPcs (PcsDecrease k l)) (Ret result) ∈ h)
    \/ exists c, Called (OnPcs (PcsDecreaseFull k c)) (Ret result) ∈ h.

(** Only such instructions, without prices and then for the least price, become
    a transaction; only that is signed, and only what was signed is sent. *)
Definition pcs_justified (t my : string) (stored : option string) (h : Hist) (c : Call) : Prop :=
  match c with
  | OnPcs (PcsDecrease k l) =>
      publicKey my = Ret k
      /\ exists part last, share_of_removed t my stored pcs_liq part h /\ pcs_liq my last h
           /\ bn_val l = Z.min part (bn_val last)
  | OnPcs (PcsDecreaseFull k closePosition) =>
      publicKey my = Ret k /\ closePosition = false /\ (gone t pcs_liq pcs_blind h \/ pcs_blind my h)
  | OnPcs (PcsCollectFees k) => publicKey my = Ret k
  | OnPcs (MakeTransaction ixs signers price) =>
      exists result, takes_out_ixs result h
        /\ ixs = PcsOps.stripSdkComputeUnitPriceInstructions (s_instructions result)
        /\ signers = s_signers result /\ price = PcsOps.MIN_SDK_PRIORITY_FEE_MICROLAMPORTS
  | SignerCallback tx =>
      exists ixs signers price, Called (OnPcs (MakeTransaction ixs signers price)) (Ret tx) ∈ h
  | SendTransaction tx => exists unsigned, Called (SignerCallback unsigned) (Ret tx) ∈ h
  | c => just_reads c
  end.

Context (t my : string) (stored : option string).
Abbreviation J := (pcs_justified t my stored).
Abbreviation PL := (call_logic J same_pm readable).
Abbreviation allowed := (CallRules.allowed J).
Abbreviation amount_seen := (Share.amount_seen t my stored pcs_liq pcs_blind).

#[local] Instance pcs_reads : Reads (plain J).
Proof using Type. intros c Hw Hb h. revert c Hw Hb. by_call. Qed.

Lemma pcs_amount_lasting o : lasting (amount_seen o).
Proof using Type. apply Share.amount_lasting; [apply pcs_liq_lasting|apply pcs_blind_lasting]. Qed.

Lemma pcs_liquidity_seen {A} n (f : PcsPosition -> A) h b (Q : option A -> Hist -> Prop) :
  (forall h' p, pcs_liq n (PcsOps.liquidityOf p) h' -> Q (Some (f p)) h') -> (forall h', pcs_blind n h' -> Q None h') ->
  wp PL (catch (let* p := PcsOps.readPosition n in ret (f <$> p)) (fun _ => ret None)) h b
    (fun r h' b' => h `suffix_of` h' /\ same_pm b b' /\ exists o, r = Ret o /\ Q o h').
Proof using Type.
  intros Hsome Hnone. apply wp_catch, wp_bind. eapply wp_mono; [apply (pcs_position_seen J)|].
  intros [[p|]|e] h' b' (Hs & Hb & Hr); cbn [wp ret fmap]; (split; [done|split; [done|]]); eexists; (split; [done|]).
  - apply Hsome. exists p. by destruct Hr.
  - by apply Hnone.
  - by apply Hnone.
Qed.

(** Building from instructions the evidence [H] allows. *)
Definition makes (H : Hist -> Prop) (ixs : P SdkResult) : Prop := forall h b, H h ->
  wp PL ixs h b (fun r h' _ => h `suffix_of` h' /\ match r with Ret result => takes_out_ixs result h' | Throw _ => True end).

Lemma pcs_build_allowed H ixs : makes H ixs -> allowed H (PcsOps.buildSignSend ixs).
Proof using Type.
  intros Hm h b Hh. unfold PcsOps.buildSignSend. apply wp_bind. eapply wp_mono; [by apply Hm|].
  intros [result|e] h1 b1 [Hs1 Hr]; [|done].
  apply wp_mono with (Q := fun _ h' _ => h1 `suffix_of` h'); [|intros r h2 b2 Hs2; by etrans].
  unfold PcsOps.makeSdkTransactionWithMinimumPriorityFee, PcsOps.makeTransaction, signAndSend.
  apply wp_bind. split; [by exists result|]. intros [tx|e] b2 _ _; [|by apply suffix_cons_r].
  apply wp_bind. split; [do 3 eexists; left|]. intros [signed|e] b3 _ _; [|by do 2 apply suffix_cons_r].
  split; [eexists; left|]. intros r b4 _ _. cbn [wp after]. destruct r; by do 3 apply suffix_cons_r.
Qed.

Lemma pcs_collect_allowed H : allowed H (PcsOps.collectFees my).
Proof using Type.
  apply pcs_build_allowed. intros h b _. apply wp_bind. unfold Async.lift.
  destruct (publicKey my) as [k|e] eqn:Ek; cbn [wp ret]; [|done].
  split; [done|]. intros [result|e] b1 _ _; (split; [by apply suffix_cons_r|]); [|done]. exists k. left. left.
Qed.

Lemma pcs_full_allowed : allowed (amount_seen None) (PcsOps.buildSignSend (PcsOps.decreaseFull my false)).
Proof using Type.
  apply pcs_build_allowed. intros h b Hh. unfold PcsOps.decreaseFull. apply wp_bind. unfold Async.lift.
  destruct (publicKey my) as [k|e] eqn:Ek; cbn [wp ret]; [|done].
  split; [by split|]. intros [result|e] b1 _ _; (split; [by apply suffix_cons_r|]); [|done].
  exists k. right. right. exists false. left.
Qed.

Context `{!BNLaws L}.

Lemma pcs_decreaseAmount_seen current h b :
  Share.seen_as pcs_liq pcs_blind t current h -> PositionMap.getTargetLiquidity t (positionMap b) = stored ->
  wp PL (PcsOps.decreaseAmount t my current) h b
    (fun r h' _ => h `suffix_of` h' /\ match r with Ret o => amount_seen o h' | Throw _ => True end).
Proof using BNLaws0.
  intros Hc Hst. apply (Share.amountToTakeOut_seen _ _ _ _ pcs_liq pcs_blind pcs_liq_lasting); [|done| |done].
  - intros sl removed h1 b1. eapply wp_mono.
    + apply (pcs_liquidity_seen my (fun p => proportional (PcsOps.liquidityOf p) sl removed) h1 b1
        (fun o h' => match o with Some a => exists l, pcs_liq my l h' /\ a = proportional l sl removed | None => pcs_blind my h' end)); [|done].
      intros h' p Hp. by exists (PcsOps.liquidityOf p).
    + by intros r h' b' (Hs & _ & Hr).
  - intros l h1 (p & _ & -> & Hl). exact Hl.
Qed.

Lemma decrease_partly_allowed a : bn_isZero a = false -> allowed (amount_seen (Some a)) (PcsOps.decrease_partly my a).
Proof using BNLaws0.
  intros Hnz h b [Hz|Ha]; [congruence|]. unfold PcsOps.decrease_partly. apply wp_bind.
  eapply wp_mono; [apply (pcs_position_seen J)|]. intros [[p|]|e] h1 b1 (Hs1 & _ & Hr); [|done..].
  assert (pcs_liq my (PcsOps.liquidityOf p) h1) as Hl1 by (exists p; by destruct Hr).
  apply wp_mono with (Q := fun _ h' _ => h1 `suffix_of` h'); [|intros r h2 b2 Hs2; by etrans].
  destruct (bn_isZero (bn_min _ _)).
  { clear Hl1 Hs1 Hr.
    apply (allowed_catch J (fun _ => True)); [done| |intros e; apply allowed_done|done].
    apply allowed_bind; [done|apply pcs_collect_allowed|intros s; apply allowed_done]. }
  pose (E := fun h => share_of_removed t my stored pcs_liq (bn_val a) h /\ pcs_liq my (PcsOps.liquidityOf p) h).
  assert (lasting E) as HE.
  { intros h2 h3 Hs [He Hl]. split; [|by eapply pcs_liq_lasting].
    destruct (pcs_amount_lasting (Some a) h2 h3 Hs (or_intror He)) as [Hz|?]; [congruence|done]. }
  assert (E h1) as Hh1.
  { split; [|done]. destruct (pcs_amount_lasting (Some a) h h1 Hs1 (or_intror Ha)) as [Hz|?]; [congruence|done]. }
  eapply wp_mono with (Q := fun _ h' _ => h1 `suffix_of` h'); [|by intros r h2 b2 Hs2].
  apply (allowed_bind J E); [done| |intros s; apply allowed_plain; unfold PcsOps.logReceived; always_go|done].
  apply (pcs_retry_allowed J); [done|]. apply pcs_build_allowed. intros h2 b2 [He Hl].
  apply wp_bind. unfold Async.lift. destruct (publicKey my) as [k|e] eqn:Ek; cbn [wp ret]; [|done].
  split.
  - split; [done|]. exists (bn_val a), (PcsOps.liquidityOf p). split_and!; [done|done|by rewrite bn_min_val].
  - intros [result|e] b3 _ _; (split; [by apply suffix_cons_r|]); [|done]. exists k. right. left. eexists. left.
Qed.

Lemma pcs_decrease_calls h b :
  PositionMap.get t (positionMap b) = Some my -> PositionMap.getTargetLiquidity t (positionMap b) = stored ->
  wp PL (PcsOps.copyDecreaseLiquidity cfg t) h b (fun _ _ _ => True).
Proof using BNLaws0.
  intros Hmy Hst. unfold PcsOps.copyDecreaseLiquidity, mapped. apply wp_bind. cbn [wp gets ret]. rewrite Hmy.
  destruct (negb (truthy my)); [done|]. apply wp_bind.
  eapply wp_mono; [by apply (pcs_liquidity_seen t PcsOps.liquidityOf h b (Share.seen_as pcs_liq pcs_blind t))|].
  intros r h1 b1 (_ & Hpm & current & -> & Hc).
  apply wp_bind. eapply wp_mono; [apply pcs_decreaseAmount_seen; [done|by rewrite Hpm]|].
  intros [amount|e] h2 b2 [_ Ha]; [|done]. cbv zeta.
  assert (forall A (p : P A), allowed (amount_seen amount) p -> wp PL p h2 b2 (fun _ _ _ => True)) as Hdone.
  { intros A p Hp. eapply wp_mono; [by apply Hp|]. done. }
  pose proof (pcs_amount_lasting amount) as Hlast.
  destruct (match amount with Some a => bn_isZero a | None => false end) eqn:Ef; destruct (dryRun cfg); try done;
    apply Hdone, allowed_locked.
  - apply allowed_catch; [done| |intros e; apply allowed_done].
    apply allowed_bind; [done|apply (pcs_retry_allowed J); [done|apply pcs_collect_allowed]|intros s; apply allowed_done].
  - apply allowed_catch; [done| |intros e; apply allowed_done].
    apply allowed_bind; [done| |intros x; apply allowed_done]. apply (allowed_attempts J); [done|].
    destruct amount as [a|]; cbn [PcsOps.decrease_once]; [by apply decrease_partly_allowed|].
    apply allowed_bind; [done|apply (pcs_retry_allowed J); [done|apply pcs_full_allowed]|intros s; apply allowed_done].
Qed.

End Pcs.

(** On Orca, too, a decrease takes our share and no more.  Whatever the chain
    answers, with unsigned liquidities, and whatever other activations do to the
    rest of the state, every call of [copyDecreaseLiquidity] only reads, or is
    justified by what was read: liquidity is taken out of a position read under
    our NFT, and of it [mine * (stored - target) / stored], capped by what the
    position holds, or all when the target cannot be read or is empty or our
    position could not be read; and the only transactions executed are those the
    SDK built for that, or for collecting fees. *)
Theorem orca_decrease_takes_our_share `{L : BNLib} `{W : Web3} `{WP : OrcaOps.Whirlpools (L := L)} `{!BNLaws L}
    cfg t my env k b :
  PositionMap.get t (positionMap b) = Some my ->
  (forall n c b, readable c (answer env n c b).1) -> others_keep_map env ->
  each_call (orca_justified t my (PositionMap.getTargetLiquidity t (positionMap b)))
    (hist (run env k [] (OrcaOps.copyDecreaseLiquidity cfg t) b)).
Proof.
  intros Hmy Hread Henv.
  apply (calls_run (OrcaOps.copyDecreaseLiquidity cfg t) _ same_pm readable env k [] b (fun _ _ _ => True)); [done..|].
  by apply orca_decrease_calls.
Qed.

(** On PancakeSwap, too, a decrease takes our share and no more: as on Orca,
    and the only transactions signed are made from the SDK's instructions for
    it, without their prices and for the least priority fee, and the only ones
    sent are those signed. *)
Theorem pcs_decrease_takes_our_share `{L : BNLib} `{W : Web3} `{!BNLaws L} cfg t my env k b :
  PositionMap.get t (positionMap b) = Some my ->
  (forall n c b, readable c (answer env n c b).1) -> others_keep_map env ->
  each_call (pcs_justified t my (PositionMap.getTargetLiquidity t (positionMap b)))
    (hist (run env k [] (PcsOps.copyDecreaseLiquidity cfg t) b)).
Proof.
  intros Hmy Hread Henv.
  apply (calls_run (PcsOps.copyDecreaseLiquidity cfg t) _ same_pm readable env k [] b (fun _ _ _ => True)); [done..|].
  by apply pcs_decrease_calls.
Qed.

(** ** Concrete runs *)

(** The target's liquidity is 5 of the 20 stored, ours is 60. *)
Definition quartered (n : string) : option (PositionInfo (L := Z_BN)) :=
  Some (demo_position (if bool_decide (n = "T"%string) then 5 else 60) 1 1).

Definition with_wp (c : Call (L := Z_BN)) : outcome (Ans c) :=
  match c return outcome (Ans c) with
  | OnOrca (WpGetPosition _ pda) =>
      Ret (Some (mkWpPosition (L := Z_BN) "W" (-10) 10 (if bool_decide (pda = "pda T"%string) then 5 else 60) ""))
  | c => demo_answer (Ret "Sig"%string) quartered c
  end.

Definition quartering : Env Bot (Call (L := Z_BN)) (Ans (L := Z_BN)) :=
  mkEnv (fun _ c b => (with_wp c, b)) (fun n => Z.of_nat n).

Lemma quartering_readable n c b : readable c (answer quartering n c b).1.
Proof.
  by_reading c; simpl; intros p [= <-];
    first [by destruct (bool_decide _)|by repeat constructor; intros z [= <-]|by intros z [= <-]].
Qed.

Definition quartered_bot (dex : string) (d : Dex) : Bot :=
  set_executor d idle
    (fresh (PositionMap.setTargetLiquidity "T" "20"
              (PositionMap.set 0 0 "T" "OurNft" None None None None (Some dex) PositionMap.new))).

Definition demo_orca_decrease :=
  run quartering 0 [] (OrcaOps.copyDecreaseLiquidity (WP := OrcaOps.demo_whirlpools) (W := demo_web3) demo_settings "T")
    (quartered_bot "orca" Orca).
Definition demo_pcs_decrease :=
  run quartering 0 [] (PcsOps.copyDecreaseLiquidity (W := demo_web3) demo_settings "T") (quartered_bot "pancakeswap" Pcs).

(** The liquidity taken out. *)
Definition taken_out (h : list (HEvent (Call (L := Z_BN)) (Ans (L := Z_BN)) Task)) : list Z :=
  omap (fun e => match e with
                 | Called (OnOrca (WpDecreaseLiquidity _ l _ _)) _ | Called (OnPcs (PcsDecrease _ l)) _ => Some l
                 | _ => None
                 end) h.

Lemma orca_decrease_takes_our_share_witness :
  res demo_orca_decrease = Ret (Some ("Sig"%string, DECREASE)) /\ taken_out (hist demo_orca_decrease) = [45]
  /\ each_call (orca_justified (WP := OrcaOps.demo_whirlpools) (W := demo_web3) "T" "OurNft" (Some "20"%string))
       (hist demo_orca_decrease).
Proof.
  split; [by vm_compute|]. split; [by vm_compute|]. pose proof Z_BN_laws as HL.
  apply (orca_decrease_takes_our_share (WP := OrcaOps.demo_whirlpools) (W := demo_web3) demo_settings "T" "OurNft"
    quartering 0 (quartered_bot "orca" Orca)); [by vm_compute|apply quartering_readable|done].
Defined.

Lemma pcs_decrease_takes_our_share_witness :
  res demo_pcs_decrease = Ret (Some ("Sig"%string, DECREASE)) /\ taken_out (hist demo_pcs_decrease) = [45]
  /\ each_call (pcs_justified (W := demo_web3) "T" "OurNft" (Some "20"%string)) (hist demo_pcs_decrease).
Proof.
  split; [by vm_compute|]. split; [by vm_compute|]. pose proof Z_BN_laws as HL.
  apply (pcs_decrease_takes_our_share (W := demo_web3) demo_settings "T" "OurNft"
    quartering 0 (quartered_bot "pancakeswap" Pcs)); [by vm_compute|apply quartering_readable|done].
Defined.

End OtherDecrease.
