(* ===== verification/LegacyDecrease.v ===== *)
(** * What a removal may take on Meteora and DAMM v2

    [copyRemoveLiquidity] of both executors, as [ByrealDecrease] judges Byreal's
    decrease: every call that signs, sends or has the SDK build a transaction is
    justified by what was read before.  Meteora takes out a share of a range of
    bins in basis points, DAMM v2 an amount of liquidity. *)

From S2P Require Import Prelude JsMap JsString JsNumber Json Async Ratio TxTypes PositionMap Store Stores PumpPending State Chain JupiterSwap ByrealOps Discipline ByrealClose CallRules Share OrcaOps OrcaOpen PcsOps PcsOpen OtherRules OtherDecrease Legacy MeteoraOps MeteoraOpen MeteoraAssets DammOps DammOpen DammAssets LegacyRules LegacyClose.
Open Scope Z_scope.
Open Scope list_scope.
Open Scope prog_scope.

Module LegacyDecrease.
Import Async State Chain ByrealOps Discipline ByrealClose CallRules Share LegacyRules Legacy.

(** ** Sending what the evidence allows *)

Section Sending.
Context `{L : BNLib} `{W : Web3} (cfg : Settings).
Abbreviation Hist := (list (HEvent Call Ans Task)).

(** [built tx]: the history shows where [tx] comes from; [made]: and [ready] is
    that transaction, with a payer and a blockhash. *)
Context (J : Hist -> Call -> Prop) (built : LTx -> Hist -> Prop) (Hbuilt : forall tx, lasting (built tx)).

Definition made (ready : LTx) (h : Hist) : Prop :=
  exists tx, built tx h /\ l_instructions ready = l_instructions tx /\ l_rest ready = l_rest tx.

Definition signed_before (signed : LTx) (h : Hist) : Prop :=
  exists ready ss, Called (OnLegacy (SignLegacy ready ss)) (Ret signed) ∈ h.

Context (Hsign : forall h ready ss, made ready h -> J h (OnLegacy (SignLegacy ready ss)))
  (Hraw : forall h signed, signed_before signed h -> J h (OnLegacy (SendRawTransaction signed)))
  `{!Reads (plain J)}.
Abbreviation allowed := (CallRules.allowed J).
Abbreviation learns := (CallRules.learns J).

Lemma lasting_signed signed : lasting (signed_before signed).
Proof using Type. intros h h' Hs (ready & ss & Hin). exists ready, ss. by eapply in_suffix. Qed.

Lemma send_once_allowed signed : allowed (signed_before signed) (send_once signed).
Proof using Hraw Reads0.
  intros h b Hh. unfold send_once, legacy. apply wp_bind. split; [by apply Hraw|]. intros [s|e] b1 _ _; cbn [wp].
  - eapply wp_mono; [apply sends; always_go|]. intros r h2 b2 Hs2. etrans; [|exact Hs2]. by apply suffix_cons_r.
  - by apply suffix_cons_r.
Qed.

Lemma send_loop_allowed signed left : allowed (signed_before signed) (send_loop signed left).
Proof using Hraw Reads0.
  pose proof (lasting_signed signed) as HS. induction left as [|left IH]; cbn [send_loop]; [apply allowed_done|].
  apply allowed_bind; [done| |].
  - apply allowed_catch; [done| |].
    + apply allowed_bind; [done|apply send_once_allowed|intros s; apply allowed_done].
    + intros e. destruct (left =? 0)%nat; [apply allowed_done|]. apply allowed_plain. always_go.
  - intros [s|]; [apply allowed_done|exact IH].
Qed.

Lemma sendOne_allowed tx ss : allowed (built tx) (sendOne cfg tx ss).
Proof using Hbuilt Hsign Hraw Reads0.
  unfold sendOne. eapply (learned _ _ _ _ (fun ready => made ready)).
  { unfold prepared. eapply learns_bind; [apply learns_plain; [apply Hbuilt|always_go]|]. cbv beta. intros bh.
    apply learns_ret. intros h Hh. by exists tx. }
  intros ready. eapply (learned _ _ _ _ signed_before).
  { intros h b Hh. split; [by apply Hsign|]. intros [signed|e] b1 _ _; (split; [by apply suffix_cons_r|]); [|done].
    exists ready, ss. left. }
  intros signed. apply send_loop_allowed.
Qed.

Definition all_built (txs : list LTx) (h : Hist) : Prop := Forall (fun tx => built tx h) txs.

Lemma lasting_all_built txs : lasting (all_built txs).
Proof using Hbuilt. intros h h' Hs Hall. eapply list.Forall_impl; [exact Hall|]. intros tx. by apply Hbuilt. Qed.

Lemma send_all_allowed txs ss lastSig : allowed (all_built txs) (send_all cfg txs ss lastSig).
Proof using Hbuilt Hsign Hraw Reads0.
  revert lastSig. induction txs as [|tx txs IH]; intros lastSig; cbn [send_all]; [apply allowed_done|].
  apply allowed_bind; [apply lasting_all_built| |].
  - eapply allowed_weaken; [|apply sendOne_allowed]. intros h H. by apply list.Forall_cons in H as [].
  - intros sig. eapply allowed_weaken; [|apply IH]. intros h H. by apply list.Forall_cons in H as [].
Qed.

Lemma send_each_allowed txs lastSig : allowed (all_built txs) (MeteoraOps.send_each cfg txs lastSig).
Proof using Hbuilt Hsign Hraw Reads0.
  revert lastSig. induction txs as [|tx txs IH]; intros lastSig; cbn [MeteoraOps.send_each]; [apply allowed_done|].
  apply allowed_bind; [apply lasting_all_built| |].
  - unfold MeteoraOps.signAndSend. eapply allowed_weaken; [|apply (send_all_allowed [tx])].
    intros h H. apply list.Forall_cons in H as []. by repeat constructor.
  - intros sig. eapply allowed_weaken; [|apply IH]. intros h H. by apply list.Forall_cons in H as [].
Qed.

Lemma sendWith_allowed ss e tx : allowed (built tx) (DammOps.sendWith cfg ss e tx).
Proof using Hbuilt Hsign Hraw Reads0.
  unfold DammOps.sendWith. apply allowed_bind; [apply Hbuilt|apply sendOne_allowed|].
  intros [s|]; apply allowed_done.
Qed.

(** A removal, from a state in which its target is mapped. *)
Lemma removing_wp d body t my h b :
  PositionMap.get t (positionMap b) = Some my ->
  (forall b', same_pm b b' -> wp (call_logic J same_pm readable) (body my) h b' (fun _ h' _ => h `suffix_of` h')) ->
  wp (call_logic J same_pm readable) (removing d body t) h b (fun _ h' _ => h `suffix_of` h').
Proof using Type.
  intros Hmy Hb. unfold removing, mapped. apply wp_bind. cbn [wp gets ret]. rewrite Hmy.
  destruct (negb (truthy my)); [by cbn [wp ret]|]. unfold locked, acquire. apply wp_bind, wp_bind. cbn [wp gets ret].
  destruct (busy_of d b); cbn [wp ret]; [done|]. apply wp_bind. exists h. split; [done|]. cbn [wp ret].
  apply wp_finally, wp_catch. eapply wp_mono; [apply Hb; by apply on_executor_positionMap|].
  intros [r|e] h1 b1 Hs; cbn [wp ret]; exists h1; by split.
Qed.

(** The attempts of a removal. *)
Lemma tries_allowed {A} (H : Hist -> Prop) (once : P (option (option A))) left :
  lasting H -> allowed H once -> allowed H (tries once left).
Proof using Type.
  intros HH Ho. induction left as [|left IH]; cbn [tries]; [apply allowed_done|].
  apply allowed_bind; [done| |].
  - apply allowed_catch; [done|done|]. intros e. destruct (_ && _); apply allowed_done.
  - intros [a|]; [apply allowed_done|exact IH].
Qed.

End Sending.

(** ** Meteora *)

Section Meteora.
Context `{L : BNLib} `{W : Web3} (cfg : Settings).
Abbreviation Hist := (list (HEvent Call Ans Task)).

Definition find_key (n : string) (ps : list LbPosition) : option LbPosition :=
  find_first (fun p => bool_decide (lb_key p = n)) ps.

(** [p] was listed as the position [n] of [user], in a pool. *)
Definition lb_in (pool : Dlmm) (user n : string) (p : LbPosition) (h : Hist) : Prop :=
  exists ps, Called (OnMeteora (LbGetPositionsByUser pool user)) (Ret ps) ∈ h /\ find_key n ps = Some p.
Definition lb_listed (user n : string) (p : LbPosition) (h : Hist) : Prop := exists pool, lb_in pool user n p h.

(** The target [t] of the wallet was listed, with this total; or could not be. *)
Definition lb_total (wallet t : string) (cur : BN) (h : Hist) : Prop :=
  exists k p, publicKey wallet = Ret k /\ lb_listed k t p h /\ MeteoraOps.totalOf p = Ret cur /\ 0 <= bn_val cur.

Definition lb_blind (wallet : option string) (t : string) (h : Hist) : Prop :=
  truthy wallet = false
  \/ exists w, wallet = Some w
       /\ ((exists e, publicKey w = Throw e)
           \/ exists k pool r, publicKey w = Ret k /\ Called (OnMeteora (LbGetPositionsByUser pool k)) r ∈ h
                /\ forall ps p, r = Ret ps -> find_key t ps = Some p -> exists e, MeteoraOps.totalOf p = Throw e).

(** The basis points to take out: all when the target shows nothing left to
    follow, else the share that the target's total lost, at least one. *)
Definition bps_seen (t : string) (wallet stored : option string) (n : Z) (h : Hist) : Prop :=
  n = 10000 /\ (lb_blind wallet t h \/ exists w cur, wallet = Some w /\ lb_total w t cur h /\ bn_val cur = 0)
  \/ 0 < n <= 10000 /\ exists w cur s sl,
       wallet = Some w /\ lb_total w t cur h /\ stored = Some s /\ bn_of_string s = Ret sl
       /\ bn_val cur < bn_val sl /\ n = Z.quot ((bn_val sl - bn_val cur) * 10000) (bn_val sl).

(** A transaction that the SDK built for taking out liquidity or fees. *)
Definition lb_built (tx : LTx) (h : Hist) : Prop :=
  exists txs : list LTx, tx ∈ txs
    /\ ((exists pool k lo hi bps, Called (OnMeteora (LbRemoveLiquidity pool k lo hi bps)) (Ret txs) ∈ h)
        \/ exists pool ps, Called (OnMeteora (LbClaimAllSwapFee pool ps)) (Ret txs) ∈ h).

Definition meteora_justified (t my : string) (wallet stored : option string) (h : Hist) (c : Call) : Prop :=
  match c with
  | OnMeteora (LbRemoveLiquidity pool k lo hi bps) =>
      publicKey my = Ret k
      /\ (exists p, lb_listed (userAddress cfg) my p h /\ lo = lowerBinId p /\ hi = upperBinId p)
      /\ bps_seen t wallet stored (bn_val bps) h
  | OnMeteora (LbClaimAllSwapFee pool ps) => exists p, ps = [p] /\ lb_listed (userAddress cfg) my p h
  | OnLegacy (SignLegacy ready ss) => made lb_built ready h
  | OnLegacy (SendRawTransaction signed) => signed_before signed h
  | c => OtherDecrease.just_reads c
  end.

Lemma lasting_in pool user n p : lasting (lb_in pool user n p).
Proof using Type. intros h h' Hs (ps & Hin & Hf). exists ps. split; [by eapply in_suffix|done]. Qed.

(** A listing. *)
Lemma positionOf_seen (J : Hist -> Call -> Prop) `{!Reads (plain J)} pool n user h b :
  wp (call_logic J same_pm readable) (MeteoraOps.positionOf pool user n) h b
    (fun r h' b' => h `suffix_of` h' /\ same_pm b b' /\
       match r with Ret (Some p) => lb_in pool user n p h' | _ => True end).
Proof using Type.
  unfold MeteoraOps.positionOf, MeteoraOps.meteora. apply wp_bind. split; [by apply (reading J)|].
  intros [ps|e] b' _ Hb'; cbn [wp ret]; (split; [by apply suffix_cons_r|]); (split; [done|]); [|done].
  destruct (find_first _ ps) as [p|] eqn:Ef; [|done]. exists ps. split; [left|exact Ef].
Qed.

Context (t my : string) (wallet stored : option string).
Abbreviation J := (meteora_justified t my wallet stored).
Abbreviation ML := (call_logic J same_pm readable).
Abbreviation allowed := (CallRules.allowed J).
Abbreviation learns := (CallRules.learns J).
Abbreviation bps_seen_here := (bps_seen t wallet stored).

#[local] Instance meteora_reads : Reads (plain J).
Proof using Type. intros c Hw Hb h. revert c Hw Hb. by_call. Qed.

Lemma lasting_listed user n p : lasting (lb_listed user n p).
Proof using Type. intros h h' Hs [pool Hp]. exists pool. by eapply lasting_in. Qed.

Lemma lasting_total w n cur : lasting (lb_total w n cur).
Proof using Type. intros h h' Hs (k & p & Hk & Hp & Ht). exists k, p. split_and!; [done|by eapply lasting_listed|apply Ht..]. Qed.

Lemma lasting_blind w n : lasting (lb_blind w n).
Proof using Type.
  intros h h' Hs [Hw|(x & Hx & [He|(k & pool & r & Hk & Hin & Hr)])]; [by left|right; exists x..]; (split; [done|]); [by left|right].
  exists k, pool, r. split_and!; [done|by eapply in_suffix|done].
Qed.

Lemma lasting_bps n : lasting (bps_seen_here n).
Proof using Type.
  intros h h' Hs [[Hn [Hb|(w & cur & Hw & Hc & Hz)]]|[Hn (w & cur & s & sl & Hw & Hc & Hrest)]].
  - left. split; [done|]. left. by eapply lasting_blind.
  - left. split; [done|]. right. exists w, cur. split_and!; [done|by eapply lasting_total|done].
  - right. split; [done|]. exists w, cur, s, sl. split_and!; [done|by eapply lasting_total|apply Hrest..].
Qed.

Lemma lasting_lb_built tx : lasting (lb_built tx).
Proof using Type.
  intros h h' Hs (txs & Hin & [(pool & k & lo & hi & bps & Hc)|(pool & ps & Hc)]); exists txs; (split; [done|]).
  - left. exists pool, k, lo, hi, bps. by eapply in_suffix.
  - right. exists pool, ps. by eapply in_suffix.
Qed.

Context `{!BNLaws L}.

Lemma totalOf_unsigned p cur :
  MeteoraOps.totalOf p = Ret cur -> unsigned_text (totalXAmount p) /\ unsigned_text (totalYAmount p) -> 0 <= bn_val cur.
Proof using BNLaws0.
  unfold MeteoraOps.totalOf. destruct (bn_of_string (totalXAmount p)) as [x|] eqn:Ex; [|done]. cbn.
  destruct (bn_of_string (totalYAmount p)) as [y|] eqn:Ey; [|done]. intros [= <-] [Hx Hy].
  rewrite bn_add_val. specialize (Hx x Ex). specialize (Hy y Ey). lia.
Qed.

Definition target_seen (o : option BN) (h : Hist) : Prop :=
  match o with
  | Some cur => exists w, wallet = Some w /\ lb_total w t cur h
  | None => lb_blind wallet t h
  end.

Lemma lb_target_seen w0 pool h b :
  wallet = w0 ->
  wp ML (MeteoraOps.targetLiquidity pool t w0) h b
    (fun r h' b' => h `suffix_of` h' /\ same_pm b b' /\ exists o, r = Ret o /\ target_seen o h').
Proof using BNLaws0.
  intros Ew. unfold MeteoraOps.targetLiquidity. destruct w0 as [w|].
  2:{ cbn [wp ret]. split_and!; [done..|]. eexists. split; [done|]. cbn [target_seen]. rewrite Ew. by left. }
  destruct (truthy w) eqn:Et; cbn [negb].
  2:{ cbn [wp ret]. split_and!; [done..|]. eexists. split; [done|]. cbn [target_seen]. rewrite Ew. by left. }
  apply wp_catch, wp_bind. unfold Async.lift at 1. destruct (publicKey w) as [k|e] eqn:Ek; cbn [wp ret throw].
  2:{ split_and!; [done..|]. eexists. split; [done|]. cbn [target_seen]. rewrite Ew. right. exists w. split; [done|]. left. by exists e. }
  unfold MeteoraOps.positionOf, MeteoraOps.meteora. apply wp_bind, wp_bind. split; [by apply (reading J)|].
  intros r b' Hok Hb'. set (h' := Called (OnMeteora (LbGetPositionsByUser pool k)) r :: h).
  assert (h `suffix_of` h') as Hs by by apply suffix_cons_r.
  assert ((forall ps p, r = Ret ps -> find_key t ps = Some p -> exists e, MeteoraOps.totalOf p = Throw e) -> lb_blind (Some w) t h') as Hblind.
  { intros H. right. exists w. split; [done|]. right. exists k, pool, r. split_and!; [done|left|done]. }
  destruct r as [ps|e]; cbn [wp ret].
  2:{ split_and!; [done..|]. eexists. split; [done|]. cbn [target_seen]. rewrite Ew. by apply Hblind. }
  change (find_first _ ps) with (find_key t ps). destruct (find_key t ps) as [p|] eqn:Ef.
  2:{ cbn [wp ret]. split_and!; [done..|]. eexists. split; [done|]. cbn [target_seen]. rewrite Ew. apply Hblind. intros ? ? [= <-]. congruence. }
  apply wp_bind. unfold Async.lift. destruct (MeteoraOps.totalOf p) as [cur|e] eqn:Ep; cbn [wp ret throw];
    (split_and!; [done..|]); eexists; (split; [done|]); cbn [target_seen]; rewrite ?Ew.
  - exists w. split; [done|]. exists k, p. split_and!; [done|exists pool, ps; split; [left|done]|done|].
    eapply totalOf_unsigned; [exact Ep|]. specialize (Hok ps eq_refl). apply (list.Forall_forall _ ps) with (x := p) in Hok; [done|].
    by apply find_first_Some in Ef as [Hin _].
  - apply Hblind. intros ? ? [= <-] Hp. rewrite Ef in Hp. injection Hp as <-. by exists e.
Qed.

Lemma removeBps_seen current h b :
  target_seen current h -> PositionMap.getTargetLiquidity t (positionMap b) = stored ->
  wp ML (MeteoraOps.removeBps t current) h b
    (fun r h' b' => h' = h /\ match r with Ret o => o = Some 0 \/ bps_seen_here (default 10000 o) h | Throw _ => True end).
Proof using BNLaws0.
  intros Hc Hst. unfold MeteoraOps.removeBps. destruct current as [cur|].
  2:{ cbn [wp ret]. split; [done|]. right. left. split; [done|]. by left. }
  destruct Hc as (w & Hw & Hc). destruct (bn_isZero cur) eqn:Ez.
  { cbn [wp ret]. split; [done|]. right. left. split; [done|]. right. exists w, cur. split_and!; [done..|].
    by rewrite bn_isZero_val, Z.eqb_eq in Ez. }
  apply wp_bind. cbn [wp gets ret]. rewrite Hst. destruct (truthy stored) eqn:Et; cbn [wp ret]; [|split; [done|by left]].
  apply wp_bind. unfold Async.lift at 1. destruct (bn_of_string _) as [sl|e] eqn:Esl; cbn [wp ret]; [|done].
  destruct (bn_lt cur sl) eqn:Elt; cbn [wp ret]; [|split; [done|by left]].
  apply wp_bind. unfold Async.lift at 1. destruct (bn_of_int_safe 10000 eq_refl) as (tt_ & -> & Htt). cbn [wp ret].
  apply wp_bind. unfold Async.lift. set (q := bn_div _ _).
  rewrite bn_lt_val in Elt. apply Z.ltb_lt in Elt. destruct Hc as (k & p & Hk & Hl & Hp & Hpos).
  assert (bn_val q = Z.quot ((bn_val sl - bn_val cur) * 10000) (bn_val sl)) as Hq.
  { unfold q. rewrite bn_div_val, bn_mul_val, bn_sub_val, Htt by lia. done. }
  assert (0 <= bn_val q <= 10000) as Hrange.
  { rewrite Hq, Z.quot_div_nonneg by lia. split; [apply Z.div_pos; lia|]. apply Z.div_le_upper_bound; lia. }
  rewrite bn_toNumber_val by lia. cbn [wp ret]. apply wp_bind. unfold on_positionMap. exists h. split; [done|]. cbn [wp ret].
  split; [done|]. unfold MeteoraOps.clamp. replace (Z.min 10000 (Z.max 0 (bn_val q))) with (bn_val q) by lia.
  destruct (Z.eq_dec (bn_val q) 0) as [->|Hnz]; [by left|]. right. right. cbn [default from_option id]. split; [lia|].
  destruct stored as [s0|] eqn:Es; [|done]. exists w, cur, s0, sl. split_and!; try done. exists k, p. done.
Qed.

Lemma lb_sent_allowed txs : allowed (all_built lb_built txs) (MeteoraOps.send_each cfg txs "").
Proof using Type. apply send_each_allowed; [apply lasting_lb_built|done|done|apply _]. Qed.

Lemma claim_once_allowed pool : allowed (fun _ => True) (MeteoraOps.claim_once cfg pool my).
Proof using Type.
  intros h b _. unfold MeteoraOps.claim_once. apply wp_bind. eapply wp_mono; [apply (positionOf_seen J)|].
  intros [[p|]|e] h1 b1 (Hs1 & _ & Hp); [|done..]. apply wp_bind. split; [exists p; split; [done|by exists pool]|].
  intros [txs|e] b2 _ _; cbn [wp].
  2:{ etrans; [exact Hs1|]. by apply suffix_cons_r. }
  apply wp_bind. eapply wp_mono; [apply (lb_sent_allowed txs)|].
  - apply list.Forall_forall. intros tx Hin. exists txs. split; [done|]. right. exists pool, [p]. left.
  - assert (h `suffix_of` Called (OnMeteora (LbClaimAllSwapFee pool [p])) (Ret txs) :: h1) as Hs2.
    { etrans; [exact Hs1|]. by apply suffix_cons_r. }
    intros [sig|e] h3 b3 Hs3; cbn [wp ret]; by etrans.
Qed.

Lemma remove_once_allowed pool n : allowed (bps_seen_here n) (MeteoraOps.remove_once cfg pool my n).
Proof using BNLaws0.
  intros h b Hh. unfold MeteoraOps.remove_once. apply wp_bind. eapply wp_mono; [apply (positionOf_seen J)|].
  intros [[p|]|e] h1 b1 (Hs1 & _ & Hp); [|done..]. apply wp_bind. unfold Async.lift at 1.
  destruct (publicKey my) as [k|e] eqn:Ek; cbn [wp ret throw]; [|done]. apply wp_bind. unfold Async.lift.
  assert (0 < n <= 10000) as Hn by (destruct Hh as [[-> _]|[Hn _]]; lia).
  destruct (bn_of_int_safe n) as (bps & -> & Hbps); [lia|]. cbn [wp ret].
  apply wp_bind. split.
  { split; [done|]. split; [exists p; split; [by exists pool|done]|]. rewrite Hbps. by eapply lasting_bps. }
  intros [txs|e] b2 _ _; cbn [wp].
  2:{ etrans; [exact Hs1|]. by apply suffix_cons_r. }
  apply wp_bind. eapply wp_mono; [apply (lb_sent_allowed txs)|].
  - apply list.Forall_forall. intros tx Hin. exists txs. split; [done|]. left. do 5 eexists. left.
  - assert (h `suffix_of` Called (OnMeteora (LbRemoveLiquidity pool k (lowerBinId p) (upperBinId p) bps)) (Ret txs) :: h1) as Hs2.
    { etrans; [exact Hs1|]. by apply suffix_cons_r. }
    intros [sig|e] h3 b3 Hs3; cbn [wp ret]; [|by etrans].
    destruct (truthy sig); cbn [wp ret]; [|by etrans]. apply wp_bind.
    eapply wp_mono; [apply sends, always_catch; [apply always_queueReceived; apply _|intros; always_go]|].
    intros [u|e] h4 b4 Hs4; cbn [wp ret]; (etrans; [|exact Hs4]; by etrans).
Qed.

Lemma meteora_remove_calls h b :
  PositionMap.get t (positionMap b) = Some my -> PositionMap.getTargetLiquidity t (positionMap b) = stored ->
  MeteoraOps.walletOf t b = wallet ->
  wp ML (MeteoraOps.copyRemoveLiquidity cfg t) h b (fun _ h' _ => h `suffix_of` h').
Proof using BNLaws0.
  intros Hmy Hst Hw. unfold MeteoraOps.copyRemoveLiquidity. eapply removing_wp; [done|]. intros b0 Hb0.
  unfold MeteoraOps.remove_body, with_pool. apply wp_bind.
  eapply wp_mono; [apply steady, always_poolAddress|]. intros [[a|]|e] h1 b1 [Hs1 Hb1]; [|done..].
  destruct (truthy a); [|done]. apply wp_bind. eapply wp_mono; [apply steady, always_pool; apply _|].
  intros [pool|e] h2 b2 [Hs2 Hb2]; [|by etrans]. apply wp_bind. cbn [wp gets ret].
  assert (same_pm b b2) as Hb by (unfold same_pm in *; congruence).
  assert (MeteoraOps.walletOf t b2 = wallet) as ->.
  { unfold MeteoraOps.walletOf in *. unfold same_pm in Hb. by rewrite Hb. }
  apply wp_bind. eapply wp_mono; [by apply lb_target_seen|]. intros r h3 b3 (Hs3 & Hb3 & o & -> & Ho).
  apply wp_bind. eapply wp_mono; [apply removeBps_seen; [exact Ho|]|].
  { unfold same_pm in *. by rewrite Hb3, Hb. }
  intros [bps|e] h4 b4 [-> Hbps]; [|etrans; [|exact Hs3]; by etrans].
  eapply wp_mono with (Q := fun _ h' _ => h3 `suffix_of` h').
  2:{ intros r h5 b5 Hs5. etrans; [|exact Hs5]. etrans; [|exact Hs3]. by etrans. }
  destruct Hbps as [->|Hbps].
  - rewrite bool_decide_eq_true_2 by done. apply (tries_allowed J (fun _ => True)); [done|apply claim_once_allowed|done].
  - destruct (bool_decide (bps = Some 0)).
    + apply (tries_allowed J (fun _ => True)); [done|apply claim_once_allowed|done].
    + apply (tries_allowed J (bps_seen_here (default 10000 bps))); [apply lasting_bps|apply remove_once_allowed|done].
Qed.

End Meteora.

(** ** DAMM v2 *)

Section Damm.
Context `{L : BNLib} `{W : Web3} `{CA : DammOps.CpAmm (L := L)} (cfg : Settings).
Abbreviation Hist := (list (HEvent Call Ans Task)).
Abbreviation pda_of := (LegacyClose.pda_of).

(** The position of an NFT was read with this liquidity; or could not be. *)
Definition am_liq (n : string) (l : BN) (h : Hist) : Prop :=
  exists pda p, pda_of n = Ret pda /\ Called (OnDamm (AmFetchPosition pda)) (Ret p) ∈ h
    /\ DammOps.liquidityIn p = Ret l /\ 0 <= bn_val l.
Definition am_blind (n : string) (h : Hist) : Prop :=
  (exists e, pda_of n = Throw e)
  \/ exists pda r, pda_of n = Ret pda /\ Called (OnDamm (AmFetchPosition pda)) r ∈ h
       /\ forall p, r = Ret p -> exists e, DammOps.liquidityIn p = Throw e.

Definition am_built (tx : LTx) (h : Hist) : Prop :=
  (exists k pool progs pda ata l point, Called (OnDamm (AmRemoveLiquidity k pool progs pda ata l point)) (Ret tx) ∈ h)
  \/ (exists k pool progs pda ata point, Called (OnDamm (AmRemoveAllLiquidity k pool progs pda ata point)) (Ret tx) ∈ h)
  \/ exists k pool progs pda ata, Called (OnDamm (AmClaimPositionFee k pool progs pda ata)) (Ret tx) ∈ h.

Definition damm_justified (t my : string) (stored : option string) (h : Hist) (c : Call) : Prop :=
  match c with
  | OnDamm (AmRemoveLiquidity _ _ _ pda _ l _) =>
      pda_of my = Ret pda
      /\ exists part last, share_of_removed t my stored am_liq part h /\ am_liq my last h /\ bn_val l = Z.min part (bn_val last)
  | OnDamm (AmRemoveAllLiquidity _ _ _ pda _ _) =>
      pda_of my = Ret pda /\ (gone t am_liq am_blind h \/ am_blind my h)
  | OnDamm (AmClaimPositionFee _ _ _ pda _) => pda_of my = Ret pda
  | OnLegacy (SignLegacy ready _) => made am_built ready h
  | OnLegacy (SendRawTransaction signed) => signed_before signed h
  | c => OtherDecrease.just_reads c
  end.

Lemma am_liq_lasting n l : lasting (am_liq n l).
Proof using Type.
  intros h h' Hs (pda & p & Hp & Hin & Hl). exists pda, p. split_and!; [done|by eapply in_suffix|apply Hl..].
Qed.

Lemma am_blind_lasting n : lasting (am_blind n).
Proof using Type.
  intros h h' Hs [He|(pda & r & Hp & Hin & Hr)]; [by left|right]. exists pda, r. split_and!; [done|by eapply in_suffix|done].
Qed.

Lemma am_built_lasting tx : lasting (am_built tx).
Proof using Type.
  intros h h' Hs [H|[H|H]]; [left|right; left|right; right]; destruct_and?; naive_solver eauto using in_suffix.
Qed.

(** A reading of a position's liquidity. *)
Lemma fetchLiquidity_seen (J : Hist -> Call -> Prop) `{!Reads (plain J)} n h b :
  wp (call_logic J same_pm readable) (DammOps.fetchLiquidity n) h b
    (fun r h' b' => h `suffix_of` h' /\ same_pm b b' /\ match r with Ret l => am_liq n l h' | Throw _ => am_blind n h' end).
Proof using Type.
  unfold DammOps.fetchLiquidity, DammOps.fetchPositionState, DammOps.pdaOf. apply wp_bind, wp_bind. fold (pda_of n).
  unfold Async.lift at 1. destruct (pda_of n) as [pda|e] eqn:Ep; cbn [wp ret throw].
  2:{ split_and!; [done..|]. left. by exists e. }
  unfold DammOps.damm. split; [by apply (reading J)|]. intros [p|e] b' Hok Hb'; cbn [wp after].
  - unfold Async.lift. destruct (DammOps.liquidityIn p) as [l|e] eqn:El; cbn [wp ret throw]; (split; [by apply suffix_cons_r|]); (split; [done|]).
    + exists pda, p. split_and!; [done|left|done|]. by eapply Hok.
    + right. exists pda, (Ret p). split_and!; [done|left|]. intros ? [= <-]. by exists e.
  - split; [by apply suffix_cons_r|]. split; [done|]. right. exists pda, (Throw e). split_and!; [done|left|done].
Qed.

Context (t my : string) (stored : option string).
Abbreviation J := (damm_justified t my stored).
Abbreviation DL := (call_logic J same_pm readable).
Abbreviation allowed := (CallRules.allowed J).
Abbreviation amount_seen := (Share.amount_seen t my stored am_liq am_blind).

#[local] Instance damm_reads : Reads (plain J).
Proof using Type. intros c Hw Hb h. revert c Hw Hb. by_call. Qed.

Lemma am_amount_lasting o : lasting (amount_seen o).
Proof using Type. apply Share.amount_lasting; [apply am_liq_lasting|apply am_blind_lasting]. Qed.

Lemma am_target_seen h b :
  wp DL (DammOps.targetLiquidity t) h b
    (fun r h' b' => h `suffix_of` h' /\ same_pm b b' /\ exists o, r = Ret o /\ Share.seen_as am_liq am_blind t o h').
Proof using Type.
  unfold DammOps.targetLiquidity. apply wp_catch, wp_bind. eapply wp_mono; [apply (fetchLiquidity_seen J)|].
  intros [l|e] h1 b1 (Hs & Hb & Hl); cbn [wp ret]; split_and!; [done..| |done|done|]; eexists; by split.
Qed.

Context `{!BNLaws L}.

Lemma am_decreaseAmount_seen current h b :
  Share.seen_as am_liq am_blind t current h -> PositionMap.getTargetLiquidity t (positionMap b) = stored ->
  wp DL (DammOps.decreaseAmount t my current) h b
    (fun r h' _ => h `suffix_of` h' /\ match r with Ret o => amount_seen o h' | Throw _ => True end).
Proof using BNLaws0.
  intros Hc Hst. apply (Share.amountToTakeOut_seen _ _ _ _ am_liq am_blind am_liq_lasting); [|done| |done].
  - intros sl removed h1 b1. unfold DammOps.ourShare. apply wp_catch, wp_bind. eapply wp_mono; [apply (fetchLiquidity_seen J)|].
    intros [l|e] h2 b2 (Hs & _ & Hl); cbn [wp ret]; (split; [done|]); eexists; (split; [done|]); [by exists l|done].
  - by intros l h1 (pda & p & _ & _ & _ & Hl).
Qed.

Lemma am_send_allowed tx : allowed (am_built tx) (DammOps.signAndSend cfg tx).
Proof using Type. apply (sendWith_allowed cfg J am_built); [apply am_built_lasting|done|done|apply _]. Qed.

Lemma am_claim_allowed poolAddress pool : allowed (fun _ => True) (DammOps.claim_once cfg poolAddress my pool).
Proof using Type.
  intros h b _. unfold DammOps.claim_once, DammOps.claimTx, DammOps.pdaOf. apply wp_bind, wp_bind. fold (pda_of my).
  unfold Async.lift at 1. destruct (pda_of my) as [pda|e] eqn:Ep; cbn [wp ret throw]; [|done].
  apply wp_bind. unfold DammOps.ataOf, Async.lift at 1. destruct (let! k := publicKey my in DammOps.derivePositionNftAccount k) as [ata|e];
    cbn [wp ret throw]; [|done].
  apply wp_bind. unfold Async.lift. destruct (publicKey poolAddress) as [k|e]; cbn [wp ret throw]; [|done].
  unfold DammOps.damm. split; [exact Ep|]. intros [tx|e] b1 _ _; cbn [wp after]; [|by apply suffix_cons_r].
  apply wp_bind. eapply wp_mono; [apply (am_send_allowed tx)|].
  - right. right. do 5 eexists. left.
  - intros [sig|e] h2 b2 Hs2; cbn [wp ret]; (etrans; [|exact Hs2]); by apply suffix_cons_r.
Qed.

Lemma am_removeTx_wp poolAddress pda ata pool amount ourLiq h b :
  pda_of my = Ret pda -> am_liq my ourLiq h -> bn_isZero ourLiq = false ->
  match amount with Some a => share_of_removed t my stored am_liq (bn_val a) h | None => amount_seen None h end ->
  wp DL (DammOps.removeTx poolAddress pda ata pool amount ourLiq) h b
    (fun r h' _ => h `suffix_of` h' /\ match r with Ret tx => am_built tx h' | Throw _ => True end).
Proof using BNLaws0.
  intros Hp Hl Hz Ha. unfold DammOps.removeTx. apply wp_bind. unfold Async.lift at 1.
  destruct (publicKey poolAddress) as [k|e]; cbn [wp ret throw]; [|done].
  apply wp_bind. unfold DammOps.currentPoint. apply wp_bind. unfold clock. cbn [wp]. intros now. cbn [wp ret].
  unfold Async.lift. destruct (bn_of_int _) as [point|e]; cbn [wp ret throw]; [|done].
  unfold DammOps.damm. destruct amount as [a|]; (split; [split; [done|]|]).
  - exists (bn_val a), ourLiq. split_and!; [done|done|by rewrite bn_min_val].
  - intros [tx|e] b1 _ _; cbn [wp after]; (split; [by apply suffix_cons_r|]); [|done]. left. do 7 eexists. left.
  - done.
  - intros [tx|e] b1 _ _; cbn [wp after]; (split; [by apply suffix_cons_r|]); [|done]. right. left. do 6 eexists. left.
Qed.

Lemma am_remove_allowed poolAddress pool amount :
  (forall a, amount = Some a -> bn_isZero a = false) ->
  allowed (amount_seen amount) (DammOps.remove_once cfg poolAddress my pool amount).
Proof using BNLaws0.
  intros Hnz h b Ha. unfold DammOps.remove_once, DammOps.pdaOf. apply wp_bind. fold (pda_of my).
  unfold Async.lift at 1. destruct (pda_of my) as [pda|e] eqn:Ep; cbn [wp ret throw]; [|done].
  apply wp_bind. unfold DammOps.ataOf, Async.lift at 1. destruct (let! k := publicKey my in DammOps.derivePositionNftAccount k) as [ata|e];
    cbn [wp ret throw]; [|done].
  unfold DammOps.damm. apply wp_bind. split; [by apply (reading J)|].
  intros [p|e] b1 Hok _; cbn [wp after]; [|by apply suffix_cons_r].
  apply wp_bind. unfold Async.lift. destruct (DammOps.liquidityIn p) as [ourLiq|e] eqn:El; cbn [wp ret throw]; [|by apply suffix_cons_r].
  destruct (bn_isZero ourLiq) eqn:Ez; cbn [wp ret]; [by apply suffix_cons_r|].
  set (h1 := Called (OnDamm (AmFetchPosition pda)) (Ret p) :: h).
  assert (h `suffix_of` h1) as Hs1 by by apply suffix_cons_r.
  apply wp_bind. eapply wp_mono.
  { apply am_removeTx_wp; [done| |exact Ez|].
    - exists pda, p. split_and!; [done|left|done|]. by eapply Hok.
    - destruct amount as [a|]; [|by eapply (am_amount_lasting None)].
      destruct (am_amount_lasting (Some a) h h1 Hs1 Ha) as [Hz|Hsh]; [|exact Hsh]. by rewrite Hnz in Hz. }
  intros [tx|e] h2 b2 [Hs2 Htx]; [|by etrans].
  apply wp_bind. eapply wp_mono; [by apply (am_send_allowed tx)|].
  intros [sig|e] h3 b3 Hs3; [|etrans; [|exact Hs3]; by etrans].
  destruct (truthy sig); cbn [wp ret]; [|etrans; [|exact Hs3]; by etrans]. apply wp_bind.
  eapply wp_mono; [apply sends, always_queueReceived; apply _|].
  intros [u|e] h4 b4 Hs4; cbn [wp ret]; (etrans; [|exact Hs4]; etrans; [|exact Hs3]; by etrans).
Qed.

Lemma damm_remove_calls h b :
  PositionMap.get t (positionMap b) = Some my -> PositionMap.getTargetLiquidity t (positionMap b) = stored ->
  wp DL (DammOps.copyRemoveLiquidity cfg t) h b (fun _ h' _ => h `suffix_of` h').
Proof using BNLaws0.
  intros Hmy Hst. unfold DammOps.copyRemoveLiquidity. eapply removing_wp; [done|]. intros b0 Hb0.
  unfold DammOps.remove_body, with_pool. apply wp_bind.
  eapply wp_mono; [apply steady, always_poolAddress|]. intros [[a|]|e] h1 b1 [Hs1 Hb1]; [|done..].
  destruct (truthy a); [|done]. apply wp_bind. eapply wp_mono; [apply steady, always_fetchPool; apply _|].
  intros [pool|e] h2 b2 [Hs2 Hb2]; [|by etrans].
  assert (same_pm b b2) as Hb by (unfold same_pm in *; congruence).
  apply wp_bind. eapply wp_mono; [apply am_target_seen|]. intros r h3 b3 (Hs3 & Hb3 & current & -> & Hc).
  apply wp_bind. eapply wp_mono; [apply am_decreaseAmount_seen; [exact Hc|]|].
  { unfold same_pm in *. by rewrite Hb3, Hb. }
  intros [amount|e] h4 b4 [Hs4 Ha]; [|etrans; [|exact Hs4]; etrans; [|exact Hs3]; by etrans].
  cbv zeta. eapply wp_mono with (Q := fun _ h' _ => h4 `suffix_of` h').
  2:{ intros r h5 b5 Hs5. etrans; [|exact Hs5]. etrans; [|exact Hs4]. etrans; [|exact Hs3]. by etrans. }
  destruct (match amount with Some a => bn_isZero a | None => false end) eqn:Ef.
  - apply (tries_allowed J (fun _ => True)); [done|apply am_claim_allowed|done].
  - apply (tries_allowed J (amount_seen amount)); [apply am_amount_lasting|apply am_remove_allowed|done].
    by intros a' ->.
Qed.

End Damm.

(** ** The properties *)

(** On Meteora a removal takes our share, in basis points, and no more.
    Whatever the chain answers, with unsigned amounts, and whatever other
    activations do to the rest of the state, every call of [copyRemoveLiquidity]
    only reads, or is justified by what was read: liquidity is taken out of the
    whole range of a position listed under our key, and of it
    [(stored - total) * 10000 / stored] basis points of the target's total, at
    least one; or all, when the target cannot be listed or its total is zero; the
    only transactions signed are those the SDK built for that, or for claiming
    the fees of our position, and the only ones sent were signed. *)
Theorem meteora_removal_takes_our_share `{L : BNLib} `{W : Web3} `{!BNLaws L} cfg t my env k b :
  PositionMap.get t (positionMap b) = Some my ->
  (forall n c b, readable c (answer env n c b).1) -> others_keep_map env ->
  each_call (meteora_justified cfg t my (MeteoraOps.walletOf t b) (PositionMap.getTargetLiquidity t (positionMap b)))
    (hist (run env k [] (MeteoraOps.copyRemoveLiquidity cfg t) b)).
Proof.
  intros Hmy Hread Henv.
  apply (calls_run (MeteoraOps.copyRemoveLiquidity cfg t) _ same_pm readable env k [] b (fun _ h' _ => [] `suffix_of` h')); [done..|].
  by apply meteora_remove_calls.
Qed.

(** On DAMM v2 a removal takes our share and no more: the liquidity taken out of
    our position is [mine * (stored - target) / stored], capped by what the
    position was then read to hold, or all of it when the target cannot be read
    or is empty or our position could not be read; and the only transactions
    signed are those the SDK built for that, or for claiming fees. *)
Theorem damm_removal_takes_our_share `{L : BNLib} `{W : Web3} `{CA : DammOps.CpAmm (L := L)} `{!BNLaws L} cfg t my env k b :
  PositionMap.get t (positionMap b) = Some my ->
  (forall n c b, readable c (answer env n c b).1) -> others_keep_map env ->
  each_call (damm_justified t my (PositionMap.getTargetLiquidity t (positionMap b)))
    (hist (run env k [] (DammOps.copyRemoveLiquidity cfg t) b)).
Proof.
  intros Hmy Hread Henv.
  apply (calls_run (DammOps.copyRemoveLiquidity cfg t) _ same_pm readable env k [] b (fun _ h' _ => [] `suffix_of` h')); [done..|].
  by apply damm_remove_calls.
Qed.

(** ** Concrete runs *)

(** A quarter of the target's total is gone. *)
Definition demo_meteora_removal :=
  run LegacyClose.demo_legacy_env 0 [] (MeteoraOps.copyRemoveLiquidity (W := demo_web3) demo_settings "TNft")
    (LegacyClose.demo_bot_of Meteora "meteora").

Definition demo_damm_removal :=
  run LegacyClose.demo_legacy_env 0 [] (DammOps.copyRemoveLiquidity (CA := DammOps.demo_cpamm) (W := demo_web3) demo_settings "TNft")
    (LegacyClose.demo_bot_of DammV2 "dammv2").

(** What was taken out, in basis points or in liquidity. *)
Definition removed_by (h : list (HEvent (Call (L := Z_BN)) (Ans (L := Z_BN)) Task)) : list Z :=
  omap (fun e => match e with
                 | Called (OnMeteora (LbRemoveLiquidity _ _ _ _ x)) _ | Called (OnDamm (AmRemoveLiquidity _ _ _ _ _ x _)) _ => Some x
                 | _ => None
                 end) h.

Lemma legacy_readable n c b : readable c (answer LegacyClose.demo_legacy_env n c b).1.
Proof. by apply demo_readable. Qed.

Lemma meteora_removal_takes_our_share_witness :
  res demo_meteora_removal = Ret (Some ("Sig"%string, DECREASE)) /\ removed_by (hist demo_meteora_removal) = [2500]
  /\ each_call (meteora_justified (W := demo_web3) demo_settings "TNft" "OurNft" (Some "W"%string) (Some "400"%string))
       (hist demo_meteora_removal).
Proof.
  split; [by vm_compute|]. split; [by vm_compute|]. pose proof Z_BN_laws as HL.
  apply (meteora_removal_takes_our_share (W := demo_web3) demo_settings "TNft" "OurNft"
    LegacyClose.demo_legacy_env 0 (LegacyClose.demo_bot_of Meteora "meteora")); [by vm_compute|apply legacy_readable|done].
Defined.

Lemma damm_removal_takes_our_share_witness :
  res demo_damm_removal = Ret (Some ("Sig"%string, DECREASE)) /\ removed_by (hist demo_damm_removal) = [75]
  /\ each_call (damm_justified (W := demo_web3) (CA := DammOps.demo_cpamm) "TNft" "OurNft" (Some "400"%string))
       (hist demo_damm_removal).
Proof.
  split; [by vm_compute|]. split; [by vm_compute|]. pose proof Z_BN_laws as HL.
  apply (damm_removal_takes_our_share (W := demo_web3) (CA := DammOps.demo_cpamm) demo_settings "TNft" "OurNft"
    LegacyClose.demo_legacy_env 0 (LegacyClose.demo_bot_of DammV2 "dammv2")); [by vm_compute|apply legacy_readable|done].
Defined.

End LegacyDecrease.
