(* ===== verification/OtherDeposit.v ===== *)
(** * What an open or an increase deposits on Orca and PancakeSwap

    [copyOpenPosition] and [copyIncreaseLiquidity] of both executors, as
    [ByrealDeposit] judges Byreal's: every deposit the SDK is asked for is in
    the target's range and within the target's amounts, scaled (for an increase,
    less what our position holds).  Orca's amounts are the SDK's estimate of
    what the target's liquidity is worth, and its limits may exceed them on a
    side of which the target has nothing. *)

From S2P Require Import Prelude JsMap JsString JsNumber Json Async Ratio TxTypes PositionMap Store Stores PumpPending State Chain JupiterSwap ByrealOps ByrealOpen Discipline ByrealClose CallRules ByrealDeposit OrcaOps OrcaOpen OrcaAssets PcsOps PcsOpen OtherRules OtherClose OtherReads.
Open Scope Z_scope.
Open Scope list_scope.
Open Scope prog_scope.

Create HintDb lasting.

Module OtherDeposit.
Import Async State Chain ByrealOps Discipline ByrealClose CallRules OtherRules OtherReads.

Lemma suffix_trans {A} (l1 l2 l3 : list A) : l1 `suffix_of` l2 -> l2 `suffix_of` l3 -> l1 `suffix_of` l3.
Proof. intros H1 H2. by etrans. Qed.

(** ** Orca *)

Section Orca.
Context `{L : BNLib} `{W : Web3} `{WP : OrcaOps.Whirlpools (L := L)} (cfg : Settings).
Abbreviation Hist := (list (HEvent Call Ans Task)).

(** The pool of a position was read. *)
Definition pool_of (p : WpPosition) (pool : Whirlpool) (h : Hist) : Prop :=
  Called (OnOrca (WpGetPool MainClient (ps_whirlpool p))) (Ret pool) ∈ h.

(** The target's liquidity is worth this much, scaled for the wallet. *)
Definition scaled_quote (w : string) (target : WpPosition) (pool : Whirlpool) (ext : string) (fullA fullB : BN) : Prop :=
  exists quote,
    OrcaOps.decreaseLiquidityQuoteByLiquidity (ps_liquidity target) (OrcaOps.getSlippage cfg) target pool ext = Ret quote
    /\ Ratio.scaleAmount (ratios cfg) quote.1 (Some w) = Ret fullA
    /\ Ratio.scaleAmount (ratios cfg) quote.2 (Some w) = Ret fullB.

(** The limits of a deposit; a side of which nothing is wanted is not limited
    when something is wanted of the other. *)
Definition limits (limitA limitB : Z) (input : IncreaseInput) : Prop :=
  (bn_val (tokenMaxA input) <= limitA \/ limitA = 0 /\ limitB <> 0)
  /\ (bn_val (tokenMaxB input) <= limitB \/ limitB = 0 /\ limitA <> 0).

Definition orca_bounded (t : string) (my : option string) (w : string) (h : Hist) (c : Call) : Prop :=
  match c with
  | OnOrca (InitTickArrayForTicks pool lower upper) =>
      my = None /\ exists target, wp_read t target h /\ pool_of target pool h
        /\ lower = tickLowerIndex target /\ upper = tickUpperIndex target
  | OnOrca (WpOpenPosition pool lower upper input) =>
      my = None /\ exists target ext fullA fullB,
        wp_read t target h /\ pool_of target pool h /\ scaled_quote w target pool ext fullA fullB
        /\ lower = tickLowerIndex target /\ upper = tickUpperIndex target
        /\ limits (bn_val fullA) (bn_val fullB) input
  | OnOrca (WpIncreaseLiquidity mine input) =>
      exists n target pool ext fullA fullB held ours,
        my = Some n /\ wp_read n mine h /\ wp_read n held h /\ pool_of mine pool h /\ wp_read t target h
        /\ scaled_quote w target pool ext fullA fullB
        /\ OrcaOps.decreaseLiquidityQuoteByLiquidity (ps_liquidity held) (OrcaOps.getSlippage cfg) held pool ext = Ret ours
        /\ limits (Z.max 0 (bn_val fullA - bn_val ours.1)) (Z.max 0 (bn_val fullB - bn_val ours.2)) input
  | c => builds c = false
  end.

Context (t w : string) (my : option string) `{!BNLaws L}.
Abbreviation J := (orca_bounded t my w).
Abbreviation allowed := (CallRules.allowed J).
Abbreviation learns := (CallRules.learns J).

#[local] Instance orca_dep_reads : Reads (plain J).
Proof using Type. intros c Hw Hb h. revert c Hw Hb. by_call. Qed.
#[local] Instance orca_dep_writes : Writes (plain J).
Proof using Type. intros c Hw h. revert c Hw. by_call. Qed.

Lemma tokenMax_limits mine other balance :
  bn_val (OrcaOpen.tokenMax mine other balance) <= bn_val mine \/ bn_val mine = 0 /\ bn_val other <> 0.
Proof using BNLaws0.
  unfold OrcaOpen.tokenMax. rewrite !bn_isZero_val. destruct (Z.eqb_spec (bn_val mine) 0), (Z.eqb_spec (bn_val other) 0); cbn [andb negb];
    rewrite ?bn_min_val; lia.
Qed.

Lemma increaseInput_limits targetA targetB a b input :
  OrcaOpen.increaseInput targetA targetB a b = Ret input -> limits (bn_val targetA) (bn_val targetB) input.
Proof using BNLaws0.
  unfold OrcaOpen.increaseInput. destruct zero as [z|]; [|done]. cbn. destruct (bn_of_string _) as [m|]; [|done].
  intros [= <-]. split; apply tokenMax_limits.
Qed.

Lemma zero_value z : zero = Ret z -> bn_val z = 0.
Proof using BNLaws0. unfold zero. destruct (bn_of_int_safe 0 eq_refl) as (z' & -> & Hz). by intros [= <-]. Qed.

(** A reading of a position, and of its pool. *)
Lemma learns_read n (H : Hist -> Prop) :
  lasting H -> learns H (OrcaOps.readPosition n) (fun o h => H h /\ forall p, o = Some p -> wp_read n p h).
Proof using Type.
  intros HH h b Hh. eapply wp_mono; [apply (readPosition_seen J)|]. intros [o|e] h1 b1 (Hs & _ & Hr); [|done].
  split; [done|]. split; [by eapply HH|]. intros p ->. apply Hr.
Qed.

Lemma learns_pool p (H : Hist -> Prop) :
  lasting H -> learns H (OrcaOps.getPool (ps_whirlpool p)) (fun pool h => H h /\ pool_of p pool h).
Proof using Type.
  intros HH h b Hh. unfold OrcaOps.getPool, OrcaOps.orca. split; [done|]. intros [pool|e] b1 _ _; cbn [wp after].
  - split; [by apply suffix_cons_r|]. split; [eapply HH; [|done]; by apply suffix_cons_r|left].
  - split; [by apply suffix_cons_r|done].
Qed.

Lemma lasting_and (F G : Hist -> Prop) : lasting F -> lasting G -> lasting (fun h => F h /\ G h).
Proof using Type. intros HF HG h h' Hs [Hf Hg]. split; [by eapply HF|by eapply HG]. Qed.
Lemma lasting_const (F : Prop) : lasting (fun _ => F).
Proof using Type. by intros h h' _ Hf. Qed.
Lemma lasting_pool p pool : lasting (pool_of p pool).
Proof using Type. intros h h' Hs. by apply in_suffix. Qed.
Lemma lasting_some {A} (o : option A) (F : A -> Hist -> Prop) : (forall a, lasting (F a)) -> lasting (fun h => forall a, o = Some a -> F a h).
Proof using Type. intros HF h h' Hs Hh a Ha. eapply HF; [done|auto]. Qed.
#[local] Hint Resolve lasting_and lasting_const lasting_pool lasting_some wp_read_lasting : lasting.
Ltac lasts := auto with lasting.
(** A step of no consequence. *)
Ltac pass := eapply learns_bind; [apply learns_plain; [lasts|always_go]|]; cbv beta; intros ?.

(** *** Opening *)

(** What an open rests on. *)
Definition prepared (target : WpPosition) (pool : Whirlpool) (fullA fullB : BN) (h : Hist) : Prop :=
  wp_read t target h /\ pool_of target pool h /\ exists ext, scaled_quote w target pool ext fullA fullB.

Lemma prepared_lasting target pool fullA fullB : lasting (prepared target pool fullA fullB).
Proof using Type. apply lasting_and; [lasts|]. apply lasting_and; lasts. Qed.
#[local] Hint Resolve prepared_lasting : lasting.

Lemma learns_target (H : Hist -> Prop) :
  lasting H -> learns H (OrcaOpen.findTarget t) (fun o h => forall p, o = Some p -> wp_read t p h).
Proof using Type.
  intros HH. unfold OrcaOpen.findTarget. eapply learns_bind; [by apply learns_read|]. intros [p|].
  - apply learns_ret. by intros h [_ Hp].
  - generalize 1. generalize 3%nat as left. induction left as [|left IH]; intros wait; cbn [OrcaOpen.await_target].
    { by apply learns_ret. }
    pass.
    eapply learns_bind; [apply learns_read; lasts|]. intros [p|].
    + apply learns_ret. by intros h [_ Hp].
    + eapply learns_weaken; [apply (IH (wait + 1))| |done]. intros h [Hh _]. exact Hh.
Qed.

Lemma learns_prepare r :
  OrcaOpen.targetNft r = t -> OrcaOpen.targetWallet r = w ->
  learns (fun _ => True) (OrcaOpen.prepare cfg r)
    (fun o h => forall target pool a b, o = Some (target, pool, a, b) -> prepared target pool a b h).
Proof using Type.
  intros Ht Hw. unfold OrcaOpen.prepare. rewrite Ht, Hw.
  eapply learns_bind; [apply learns_target; lasts|]. intros [target|]; [|by apply learns_ret].
  eapply learns_bind; [apply learns_pool; lasts|]. intros pool.
  eapply learns_bind; [apply learns_plain; [lasts|unfold OrcaOpen.openFilters, OrcaOpen.blacklistFilter, OrcaOpen.tvlFilter; always_go]|].
  intros [why|].
  { pass. by apply learns_ret. }
  eapply learns_bind; [apply learns_plain; [lasts|always_go]|]. cbv beta. intros ext.
  destruct (bn_isZero (ps_liquidity target)).
  { pass. by apply learns_ret. }
  set (quoted := OrcaOps.decreaseLiquidityQuoteByLiquidity (ps_liquidity target) (OrcaOps.getSlippage cfg) target pool ext).
  eapply (learns_bind _ _ _ _ (fun quote h => (wp_read t target h /\ pool_of target pool h) /\ quoted = Ret quote)).
  { apply learns_lift. intros quote h Hq [Hr Hp]. split; [split; [by apply Hr|done]|exact Hq]. }
  intros quote. eapply learns_bind.
  { apply (learns_lift _ _ _ (fun fullA h => ((wp_read t target h /\ pool_of target pool h) /\ quoted = Ret quote)
      /\ Ratio.scaleAmount (ratios cfg) quote.1 (Some w) = Ret fullA)). intros a h Ha Hh. by split. }
  intros fullA. eapply learns_bind.
  { apply (learns_lift _ _ _ (fun fullB h => prepared target pool fullA fullB h)).
    intros fullB h HB [[[Hr Hp] Hq] HA]. split_and!; [done..|]. exists ext, quote. done. }
  intros fullB. destruct (_ && _).
  { pass. by apply learns_ret. }
  apply learns_ret. by intros h Hh ? ? ? ? [= <- <- <- <-].
Qed.

Lemma open_once_allowed r target pool fullA fullB bals :
  my = None -> OrcaOpen.targetNft r = t ->
  allowed (prepared target pool fullA fullB) (OrcaOpen.open_once r pool target fullA fullB bals).
Proof using BNLaws0.
  intros Hmy Ht. unfold OrcaOpen.open_once. pose proof (prepared_lasting target pool fullA fullB) as HE.
  eapply (learned _ _ _ _ (fun _ => prepared target pool fullA fullB)).
  { intros h b Hh. split; [split; [done|]; exists target; split_and!; try apply Hh; done|]. intros r' b' _ _.
    assert (h `suffix_of` Called (OnOrca (InitTickArrayForTicks pool (tickLowerIndex target) (tickUpperIndex target))) r' :: h)
      as Hs by by apply suffix_cons_r.
    split; [exact Hs|]. destruct r'; [by eapply HE|done]. }
  intros init. apply allowed_bind; [done|destruct init; apply allowed_plain; always_go|]. intros _.
  eapply (learned _ _ _ _ (fun input h => limits (bn_val fullA) (bn_val fullB) input /\ prepared target pool fullA fullB h)).
  { apply learns_lift. intros input h Hi Hh. split; [by eapply increaseInput_limits|done]. }
  intros input. intros h b [Hin Hh]. revert h b Hh. change (allowed (prepared target pool fullA fullB)
    (let* opened := OrcaOps.orca (WpOpenPosition pool (tickLowerIndex target) (tickUpperIndex target) input) in
     let (nft, tx) := (opened : string * TxBuilder) in
     catch (let* txSig := OrcaOps.buildAndExecute tx in do* OrcaOpen.saveMapping r pool target nft in ret txSig)
       (fun e => let* recovered := OrcaOpen.openedDespite r pool target nft in
          match recovered with Some s => ret s | None => throw e end))).
  eapply (learned _ _ _ _ (fun _ _ => True)).
  { intros h b Hh. split; [|intros r' b' _ _; split; [by apply suffix_cons_r|by destruct r']].
    destruct Hh as (Hr & Hp & ext & Hq). split; [done|]. exists target, ext, fullA, fullB. done. }
  intros [nft tx]. apply allowed_plain. unfold OrcaOpen.openedDespite. always_go.
Qed.

Lemma try_allowed {A} r sw (m : P A) k H Q :
  learns H m Q -> (forall a, allowed (Q a) (k a)) -> allowed H (OrcaOpen.try_with cfg r sw m k).
Proof using Type.
  intros Hm Hk h b Hh. unfold OrcaOpen.try_with. apply wp_after. eapply wp_mono; [by apply Hm|].
  intros [a|e] h1 b1 [Hs Ha].
  - eapply wp_mono; [by apply Hk|]. intros x h2 b2 Hs2. by etrans.
  - eapply wp_mono; [apply sends; apply always_orcaFailed; apply _|]. intros x h2 b2 Hs2. by etrans.
Qed.

Lemma try_plain_allowed {A} r sw (m : P A) k H :
  lasting H -> always any_bot (plain J) m -> (forall a, allowed H (k a)) -> allowed H (OrcaOpen.try_with cfg r sw m k).
Proof using Type. intros HH Hm Hk. eapply try_allowed; [by apply learns_plain|exact Hk]. Qed.

Lemma try_last_allowed r sw m H : allowed H m -> allowed H (OrcaOpen.try_with cfg r sw m ret).
Proof using Type.
  intros Hm. apply (try_allowed _ _ _ _ _ (fun _ _ => True)); [|intros a; apply allowed_done].
  intros h b Hh. eapply wp_mono; [by apply Hm|]. intros [a|e] h' b' Hs; by split.
Qed.

Lemma open_deposit_allowed r target pool fullA fullB a b :
  my = None -> OrcaOpen.targetNft r = t ->
  allowed (prepared target pool fullA fullB) (OrcaOpen.open_deposit cfg r target pool fullA fullB a b).
Proof using BNLaws0.
  intros Hmy Ht. unfold OrcaOpen.open_deposit. destruct (_ && _); [apply allowed_done|].
  apply (allowed_deposit_attempts J); [apply prepared_lasting|always_go|]. intros bals d _. by apply open_once_allowed.
Qed.

Lemma open_sideB_allowed r target pool fullA fullB a b sw :
  my = None -> OrcaOpen.targetNft r = t ->
  allowed (prepared target pool fullA fullB) (OrcaOpen.open_sideB cfg r target pool fullA fullB a b sw).
Proof using BNLaws0.
  intros Hmy Ht. unfold OrcaOpen.open_sideB. pose proof (prepared_lasting target pool fullA fullB) as HE.
  apply try_plain_allowed; [done|always_go|]. intros [|b' added|]; [| |apply allowed_done].
  - by apply try_last_allowed, open_deposit_allowed.
  - apply try_plain_allowed; [done|always_go|]. intros new. by apply try_last_allowed, open_deposit_allowed.
Qed.

Lemma open_sideA_allowed r target pool fullA fullB a b :
  my = None -> OrcaOpen.targetNft r = t ->
  allowed (prepared target pool fullA fullB) (OrcaOpen.open_sideA cfg r target pool fullA fullB a b).
Proof using BNLaws0.
  intros Hmy Ht. unfold OrcaOpen.open_sideA. pose proof (prepared_lasting target pool fullA fullB) as HE.
  apply try_plain_allowed; [done|always_go|]. intros [|a' added|]; [by apply open_sideB_allowed| |apply allowed_done].
  apply try_plain_allowed; [done|always_go|]. intros new.
  apply try_plain_allowed; [done|always_go|]. intros b'. by apply open_sideB_allowed.
Qed.

Lemma orca_open_calls r :
  my = None -> OrcaOpen.targetNft r = t -> OrcaOpen.targetWallet r = w ->
  allowed (fun _ => True) (OrcaOpen.copyOpenPosition cfg r).
Proof using BNLaws0.
  intros Hmy Ht Hw. unfold OrcaOpen.copyOpenPosition.
  apply allowed_bind; [done|apply allowed_plain; always_go|]. intros [[why|]|].
  - apply allowed_bind; [done|apply allowed_plain; always_go|]. intros _. apply allowed_done.
  - apply allowed_done.
  - destruct (dryRun cfg); [apply allowed_done|].
    apply allowed_bind; [done|apply allowed_acquire|]. intros [|]; [|apply allowed_done].
    intros h b _. apply wp_finally.
    assert (allowed (fun _ => True) (OrcaOpen.open_body cfg r)) as Hbody.
    { unfold OrcaOpen.open_body. eapply try_allowed; [by apply learns_prepare|]. intros [[[[target pool] fullA] fullB]|]; [|apply allowed_done].
      intros h1 b1 Hp. specialize (Hp _ _ _ _ eq_refl). revert h1 b1 Hp.
      change (allowed (prepared target pool fullA fullB) (OrcaOpen.try_with cfg r [] (OrcaOpen.balancesFor cfg pool fullA fullB) (fun bals =>
        match bals with None => ret None | Some (balA, balB) => OrcaOpen.open_sideA cfg r target pool fullA fullB balA balB end))).
      apply try_plain_allowed; [apply prepared_lasting|always_go|]. intros [[balA balB]|]; [|apply allowed_done].
      by apply open_sideA_allowed. }
    eapply wp_mono; [by apply Hbody|]. intros x h1 b1 Hs1.
    eapply wp_mono; [apply (allowed_bind J (fun _ => True)); [done|apply allowed_release|intros _; apply allowed_plain; always_go|done]|].
    cbv beta in *. intros y h2 b2 Hs2. by etrans.
Qed.

(** *** Increasing *)

Section Increase.
Context (n : string) (mine : WpPosition) (pool : Whirlpool) (Hmy : my = Some n).

(** What is missing from our position. *)
Definition missing (d : BN * BN) (h : Hist) : Prop :=
  exists target held ext fullA fullB ours,
    wp_read t target h /\ wp_read n held h /\ scaled_quote w target pool ext fullA fullB
    /\ OrcaOps.decreaseLiquidityQuoteByLiquidity (ps_liquidity held) (OrcaOps.getSlippage cfg) held pool ext = Ret ours
    /\ bn_val d.1 = bn_val fullA - bn_val ours.1 /\ bn_val d.2 = bn_val fullB - bn_val ours.2.

Lemma missing_lasting d : lasting (missing d).
Proof using Type.
  intros h h' Hs (target & held & ext & fullA & fullB & ours & Ht & Hh & Hrest).
  exists target, held, ext, fullA, fullB, ours. split_and!; try apply Hrest; by eapply wp_read_lasting.
Qed.

Definition known (h : Hist) : Prop := wp_read n mine h /\ pool_of mine pool h.
Lemma known_lasting : lasting known.
Proof using Type. apply lasting_and; lasts. Qed.
#[local] Hint Resolve missing_lasting known_lasting : lasting.

Lemma deltas_missing ext target held d :
  OrcaOpen.deltas_of cfg pool ext w target held = Ret d ->
  forall h, wp_read t target h -> wp_read n held h -> missing d h.
Proof using BNLaws0.
  unfold OrcaOpen.deltas_of.
  destruct (OrcaOps.decreaseLiquidityQuoteByLiquidity _ _ target _ _) as [q|] eqn:Eq; [|done]. cbn.
  destruct (Ratio.scaleAmount _ q.1 _) as [fullA|] eqn:EA; [|done]. cbn.
  destruct (Ratio.scaleAmount _ q.2 _) as [fullB|] eqn:EB; [|done]. cbn.
  destruct (OrcaOps.decreaseLiquidityQuoteByLiquidity _ _ held _ _) as [ours|] eqn:Eo; [|done]. cbn.
  intros [= <-] h Ht Hh. exists target, held, ext, fullA, fullB, ours. cbn. rewrite !bn_sub_val.
  split_and!; try done. by exists q.
Qed.

Lemma learns_deltas ext attempt left last :
  learns (fun h => known h /\ (missing last h \/ bn_val last.1 = 0 /\ bn_val last.2 = 0))
    (OrcaOpen.deltas_loop cfg pool ext t n w mine attempt left last)
    (fun o h => known h /\ forall d, o = Some d -> missing d h \/ bn_val d.1 = 0 /\ bn_val d.2 = 0).
Proof using BNLaws0.
  assert (lasting (fun h => known h /\ (missing last h \/ bn_val last.1 = 0 /\ bn_val last.2 = 0))) as HI.
  { apply lasting_and; [lasts|]. intros h h' Hs [Hm|Hz]; [left; by eapply missing_lasting|by right]. }
  revert attempt last HI. induction left as [|left IH]; intros attempt last HI; cbn [OrcaOpen.deltas_loop].
  { apply learns_ret. intros h [Hk Hm]. split; [done|]. by intros d [= <-]. }
  eapply learns_bind; [apply learns_plain; [done|always_go]|]. cbv beta. intros _.
  eapply learns_bind; [apply learns_read; done|]. cbv beta. intros [target|]; [|by apply learns_ret; intros h [[Hk _] _]].
  eapply (learns_bind _ _ _ _ (fun o h => (known h /\ wp_read t target h) /\ forall p, o = Some p -> wp_read n p h)).
  { destruct (0 <? attempt).
    - eapply learns_weaken; [apply (learns_read n (fun h => known h /\ wp_read t target h)); lasts| |done].
      intros h [[Hk _] Ht]. split; [done|by apply Ht].
    - apply learns_ret. intros h [[Hk _] Ht]. split; [split; [done|by apply Ht]|]. intros p [= <-]. apply Hk. }
  intros fresh. eapply (learns_bind _ _ _ _ (fun d h => known h /\ missing d h)).
  { apply learns_lift. intros d h Hd [[Hk Ht] Hf]. split; [done|]. eapply deltas_missing; [done..|].
    destruct fresh as [p|]; cbn; [by apply Hf|apply Hk]. }
  intros d. eapply learns_bind; [apply learns_plain; [lasts|always_go]|]. cbv beta. intros z.
  destruct (_ || _).
  - apply learns_ret. intros h [Hk Hm]. split; [done|]. intros d' [= <-]. by left.
  - eapply learns_weaken; [apply IH| |done].
    + apply lasting_and; [lasts|]. intros h h' Hs [Hm|Hz]; [left; by eapply missing_lasting|by right].
    + intros h [Hk Hm]. split; [done|by left].
Qed.

Lemma positive_val d x : OrcaOpen.positive d = Ret x -> bn_val x = Z.max 0 (bn_val d).
Proof using BNLaws0.
  unfold OrcaOpen.positive. destruct zero as [z|] eqn:Ez; [|done]. cbn. apply zero_value in Ez. rewrite bn_gt_val, Ez.
  destruct (Z.ltb_spec 0 (bn_val d)); intros [= <-]; lia.
Qed.

Lemma other_increase_once_allowed needA needB d bals :
  bn_val needA = Z.max 0 (bn_val d.1) -> bn_val needB = Z.max 0 (bn_val d.2) ->
  allowed (fun h => known h /\ missing d h) (OrcaOpen.increase_once t mine needA needB bals).
Proof using BNLaws0 Hmy.
  intros HA HB. unfold OrcaOpen.increase_once.
  eapply (learned _ _ _ _ (fun input h => limits (bn_val needA) (bn_val needB) input /\ known h /\ missing d h)).
  { apply learns_lift. intros input h Hi Hh. split; [by eapply increaseInput_limits|done]. }
  intros input. eapply (learned _ _ _ _ (fun _ _ => True)).
  { intros h b (Hin & [Hr Hp] & target & held & ext & fullA & fullB & ours & Ht & Hh & Hq & Ho & Hd1 & Hd2).
    split; [|intros r' b' _ _; split; [by apply suffix_cons_r|by destruct r']].
    exists n, target, pool, ext, fullA, fullB, held, ours. rewrite <- Hd1, <- Hd2, <- HA, <- HB. done. }
  intros tx. apply allowed_plain. always_go.
Qed.

Lemma increase_by_allowed d :
  allowed (fun h => known h /\ missing d h) (OrcaOpen.increase_by cfg t mine pool d).
Proof using BNLaws0 Hmy.
  assert (lasting (fun h => known h /\ missing d h)) as HI by lasts. unfold OrcaOpen.increase_by.
  eapply (learned _ _ _ _ (fun x h => bn_val x = Z.max 0 (bn_val d.1) /\ known h /\ missing d h)).
  { apply learns_lift. intros x h Hx Hh. split; [by apply positive_val|done]. }
  intros needA. eapply (learned _ _ _ _ (fun x h => (bn_val needA = Z.max 0 (bn_val d.1) /\ bn_val x = Z.max 0 (bn_val d.2))
    /\ known h /\ missing d h)).
  { apply learns_lift. intros x h Hx [HA Hh]. split; [split; [done|by apply positive_val]|done]. }
  intros needB h b [[HA HB] Hh]. revert h b Hh.
  change (allowed (fun h => known h /\ missing d h)
    (let* bals := OrcaOpen.fundBoth cfg pool needA needB in
     match bals with
     | None => ret None
     | Some (a, b) => OrcaOpen.deposit_loop cfg pool (OrcaOpen.increase_once t mine needA needB) OrcaOpen.MAX_INCREASE_ATTEMPTS a b
     end)).
  apply allowed_bind; [done|apply allowed_plain; always_go|]. intros [[a b]|]; [|apply allowed_done].
  apply (allowed_deposit_attempts J); [done|always_go|]. intros bals x _. by apply other_increase_once_allowed.
Qed.

End Increase.

Lemma orca_increase_body_allowed n : my = Some n -> allowed (fun _ => True) (OrcaOpen.increase_body cfg t n w).
Proof using BNLaws0.
  intros Hmy. unfold OrcaOpen.increase_body.
  eapply learned; [by apply (learns_read n)|]. intros [mine|]; [|apply allowed_done].
  eapply learned; [apply learns_pool; lasts|]. cbv beta. intros pool.
  apply (allowed_weaken J _ (known n mine pool)).
  { intros h [[_ Hr] Hp]. split; [by apply Hr|done]. }
  pose proof (known_lasting n mine pool) as HK.
  apply allowed_bind; [done|apply allowed_plain; apply always_pumpBlockedFor; apply _|]. intros [|]; [apply allowed_done|].
  apply allowed_bind; [done|apply allowed_plain; unfold OrcaOpen.increaseTvlLow; always_go; apply always_checkWith; always_go|]. intros [|]; [apply allowed_done|].
  apply allowed_bind; [done|apply allowed_plain; always_go|]. intros _.
  apply allowed_bind; [done|apply allowed_plain; always_go|]. intros ext.
  eapply (learned _ _ _ _ (fun z h => zero = Ret z /\ known n mine pool h)); [by apply learns_lift|]. intros z.
  eapply (learned _ _ _ _ (fun o h => zero = Ret z /\ known n mine pool h
    /\ forall d, o = Some d -> missing n pool d h \/ bn_val d.1 = 0 /\ bn_val d.2 = 0)).
  { intros h b [Hz Hk]. eapply wp_mono; [apply (learns_deltas n mine pool ext 0 2 (z, z))|].
    - split; [done|]. right. cbn. by rewrite (zero_value z Hz).
    - intros [o|e] h1 b1 [Hs Ho]; (split; [done|]); [|done]. by split. }
  intros [d|]; [|apply allowed_done]. intros h b (Hz & Hk & Hd).
  destruct (bn_lte d.1 z && bn_lte d.2 z) eqn:Ele; [by apply allowed_done with (H := fun _ => True)|].
  apply (increase_by_allowed n mine pool Hmy d); []. split; [done|].
  destruct (Hd d eq_refl) as [Hm|[H1 H2]]; [done|]. exfalso. apply zero_value in Hz.
  rewrite !bn_lte_val, H1, H2, Hz in Ele. done.
Qed.

Lemma orca_increase_calls n h b :
  my = Some n -> PositionMap.get t (positionMap b) = Some n ->
  wp (call_logic J same_pm readable) (OrcaOpen.copyIncreaseLiquidity cfg t w) h b (fun _ _ _ => True).
Proof using BNLaws0.
  intros Hmy Hget. unfold OrcaOpen.copyIncreaseLiquidity, mapped. apply wp_bind. cbn [wp gets ret]. rewrite Hget.
  destruct (negb (truthy n)); [done|]. apply wp_bind. cbn [wp gets ret].
  destruct (OrcaOpen.increaseGuard cfg w b); [done|]. destruct (dryRun cfg); [done|].
  eapply wp_mono; [apply (allowed_locked J (fun _ => True)); [|done]|done].
  apply allowed_catch; [done|by apply orca_increase_body_allowed|intros e; apply allowed_done].
Qed.

End Orca.

(** ** PancakeSwap *)

Section Pcs.
Context `{L : BNLib} `{W : Web3} (cfg : Settings).
Abbreviation Hist := (list (HEvent Call Ans Task)).

(** Our amounts; nothing when our position cannot be read. *)
Definition pcs_held (n : string) (a b : Z) (h : Hist) : Prop :=
  (exists p, pcs_read n p h /\ a = bn_val (amountA (pcs_info p)) /\ b = bn_val (amountB (pcs_info p)))
  \/ pcs_blind n h /\ a = 0 /\ b = 0.

Definition pcs_bounded (t : string) (my w : option string) (h : Hist) (c : Call) : Prop :=
  match c with
  | OnPcs (PcsCreatePosition pool lower upper bs amount other) =>
      my = None
      /\ exists p fullA fullB,
           pcs_read t p h /\ ByrealDeposit.scaled cfg w (pcs_info p) fullA fullB
           /\ pool = rawPoolInfo (pcs_info p) /\ lower = i_tickLower (pcs_info p) /\ upper = i_tickUpper (pcs_info p)
           /\ ByrealDeposit.within (bn_val fullA) (bn_val fullB) bs amount other
  | OnPcs (PcsAddLiquidity k bs amount other _) =>
      exists n p fullA fullB a b,
        my = Some n /\ publicKey n = Ret k /\ pcs_read t p h /\ ByrealDeposit.scaled cfg w (pcs_info p) fullA fullB
        /\ pcs_held n a b h
        /\ ByrealDeposit.within (Z.max 0 (bn_val fullA - a)) (Z.max 0 (bn_val fullB - b)) bs amount other
  | OnPcs (MakeTransaction _ _ _) => True
  | c => builds c = false
  end.

Context (t : string) (my w : option string) `{!BNLaws L}.
Abbreviation J := (pcs_bounded t my w).
Abbreviation allowed := (CallRules.allowed J).
Abbreviation learns := (CallRules.learns J).

#[local] Instance pcs_dep_reads : Reads (plain J).
Proof using Type. intros c Hw Hb h. revert c Hw Hb. by_call. Qed.
#[local] Instance pcs_dep_writes : Writes (plain J).
Proof using Type. intros c Hw h. revert c Hw. by_call. Qed.

Lemma pcs_held_lasting n a b : lasting (pcs_held n a b).
Proof using Type.
  intros h h' Hs [(p & Hp & Hab)|[Hb Hab]]; [left; exists p; split; [by eapply pcs_read_lasting|done]|right].
  split; [by eapply pcs_blind_lasting|done].
Qed.
#[local] Hint Resolve lasting_and lasting_const pcs_read_lasting pcs_held_lasting : lasting.
Ltac lasts := auto with lasting.

Lemma learns_pcs_read n (H : Hist -> Prop) : lasting H ->
  learns H (PcsOps.readPosition n) (fun o h => H h /\ match o with Some p => pcs_read n p h | None => pcs_blind n h end).
Proof using Type.
  intros HH h b Hh. eapply wp_mono; [apply (pcs_position_seen J)|]. intros [[p|]|e] h1 b1 (Hs & _ & Hr); (split; [done|]); [| |done].
  - split; [by eapply HH|apply Hr].
  - split; [by eapply HH|done].
Qed.

Lemma pcs_make_allowed H ixs ss : allowed H (PcsOps.makeTransaction ixs ss).
Proof using Type.
  intros h b _. unfold PcsOps.makeTransaction, PcsOps.pcs. split; [done|].
  intros r b' _ _. cbn [wp after]. destruct r; by apply suffix_cons_r.
Qed.

Lemma pcs_deposit_allowed H pool targetA targetB once max bals :
  lasting H ->
  (forall d, ByrealDeposit.within (bn_val targetA) (bn_val targetB) (ByrealOpen.base d) (ByrealOpen.baseAmount d) (ByrealOpen.otherAmountMax d) ->
     allowed H (once d)) ->
  allowed H (PcsOpen.deposit_loop pool targetA targetB once max bals).
Proof using BNLaws0.
  intros HH Ho. apply (allowed_deposit_attempts J); [done|always_go|]. intros ab d Hd. apply Ho. by eapply ByrealDeposit.deposit_within.
Qed.

(** *** Opening *)

Lemma pcs_open_once_allowed r p fullA fullB d :
  my = None -> ByrealDeposit.scaled cfg w (pcs_info p) fullA fullB ->
  ByrealDeposit.within (bn_val fullA) (bn_val fullB) (ByrealOpen.base d) (ByrealOpen.baseAmount d) (ByrealOpen.otherAmountMax d) ->
  allowed (pcs_read t p) (PcsOpen.open_once r (pcs_info p) d).
Proof using Type.
  intros Hmy Hsc Hwi. unfold PcsOpen.open_once. eapply (learned _ _ _ _ (fun _ => pcs_read t p)).
  { intros h b Hr. split; [split; [done|]; by exists p, fullA, fullB|]. intros x b' _ _; cbn [wp after].
    destruct x as [created|e]; (split; [by apply suffix_cons_r|]); [|done].
    eapply pcs_read_lasting; [|exact Hr]. by apply suffix_cons_r. }
  cbv beta. intros created. apply allowed_bind; [lasts| |].
  - apply (pcs_retry_allowed J); [lasts|]. apply allowed_bind; [lasts|apply pcs_make_allowed|].
    intros tx. apply allowed_plain. always_go.
  - intros s. apply allowed_plain. always_go.
Qed.

Lemma pcs_open_calls r :
  my = None -> PcsOpen.targetNft r = t -> PcsOpen.targetWallet r = w ->
  allowed (fun _ => True) (PcsOpen.copyOpenPosition cfg r).
Proof using BNLaws0.
  intros Hmy Ht Hw. unfold PcsOpen.copyOpenPosition. rewrite Ht.
  apply allowed_bind; [done|apply allowed_plain; always_go|]. intros m.
  destruct (truthy m); [apply allowed_done|]. destruct (dryRun cfg); [apply allowed_done|].
  apply allowed_bind; [done|apply allowed_acquire|]. intros [|]; [|apply allowed_done].
  apply (allowed_finally J); [done| |apply allowed_bind; [done|apply allowed_release|intros _; apply allowed_plain; always_go]].
  apply allowed_catch; [done| |intros e; apply allowed_plain; always_go].
  unfold PcsOpen.open_body. rewrite Ht, Hw. eapply learned; [by apply learns_pcs_read|]. intros [p|]; [|apply allowed_done].
  apply (allowed_weaken J _ (pcs_read t p)); [by intros h [_ Hr]|].
  apply allowed_bind; [lasts| |].
  { apply allowed_plain. unfold PcsOpen.openFilters, PcsOpen.blacklistFilter. always_go. }
  intros [why|].
  { apply allowed_bind; [lasts|apply allowed_plain; always_go|]. intros _. apply allowed_done. }
  unfold PcsOpen.open_funded. rewrite Hw. unfold Async.lift.
  destruct (Ratio.scaleAmount _ (amountA _) w) as [fullA|e] eqn:EA; [|apply allowed_done]. cbn [Async.bind after].
  destruct (Ratio.scaleAmount _ (amountB _) w) as [fullB|e] eqn:EB; [|apply allowed_done]. cbn [Async.bind after].
  apply allowed_bind; [lasts|apply allowed_plain; always_go|]. intros [ab|]; [|apply allowed_done].
  apply pcs_deposit_allowed; [lasts|]. intros d Hd. by apply (pcs_open_once_allowed r p fullA fullB).
Qed.

(** *** Increasing *)

Lemma pcs_other_increase_once_allowed n p fullA fullB a b d :
  my = Some n -> ByrealDeposit.scaled cfg w (pcs_info p) fullA fullB ->
  ByrealDeposit.within (Z.max 0 (bn_val fullA - a)) (Z.max 0 (bn_val fullB - b))
    (ByrealOpen.base d) (ByrealOpen.baseAmount d) (ByrealOpen.otherAmountMax d) ->
  allowed (fun h => pcs_read t p h /\ pcs_held n a b h) (PcsOpen.increase_once t n d).
Proof using Type.
  intros Hmy Hsc Hwi. unfold PcsOpen.increase_once.
  apply allowed_bind; [lasts| |intros s; apply allowed_plain; always_go].
  apply (pcs_retry_allowed J); [lasts|]. unfold Async.lift.
  destruct (publicKey n) as [k|e] eqn:Ek; [|apply allowed_done]. cbn [Async.bind after].
  eapply (learned _ _ _ _ (fun _ _ => True)).
  { intros h b0 [Hr Hh]. split; [by exists n, p, fullA, fullB, a, b|]. intros x b' _ _. cbn [wp after].
    destruct x; (split; [by apply suffix_cons_r|done]). }
  intros tx. apply allowed_plain. always_go.
Qed.

Lemma pcs_increase_calls n h b :
  my = Some n -> PositionMap.get t (positionMap b) = Some n ->
  wp (call_logic J same_pm readable) (PcsOpen.copyIncreaseLiquidity cfg t w) h b (fun _ _ _ => True).
Proof using BNLaws0.
  intros Hmy Hget. unfold PcsOpen.copyIncreaseLiquidity, mapped. apply wp_bind. cbn [wp gets ret]. rewrite Hget.
  destruct (negb (truthy n)); [done|]. destruct (dryRun cfg); [done|].
  eapply wp_mono; [apply (allowed_locked J (fun _ => True)); [|done]|done].
  apply allowed_catch; [done| |intros e; apply allowed_done]. unfold PcsOpen.increase_body.
  apply allowed_bind; [done|apply allowed_plain; always_go|]. intros _.
  eapply learned; [by apply learns_pcs_read|]. intros [p|]; [|apply allowed_done].
  apply (allowed_weaken J _ (pcs_read t p)); [by intros h1 [_ Hr]|]. unfold PcsOpen.increase_by, Async.lift.
  destruct (Ratio.scaleAmount _ (amountA _) w) as [fullA|e] eqn:EA; [|apply allowed_done]. cbn [Async.bind after].
  destruct (Ratio.scaleAmount _ (amountB _) w) as [fullB|e] eqn:EB; [|apply allowed_done]. cbn [Async.bind after].
  assert (forall myA myB, allowed (fun h => pcs_read t p h /\ pcs_held n (bn_val myA) (bn_val myB) h)
    (let* targetA := Async.lift (PcsOpen.delta fullA myA) in
     let* targetB := Async.lift (PcsOpen.delta fullB myB) in
     if bn_isZero targetA && bn_isZero targetB then ret None
     else let* bals := PcsOpen.fundBoth cfg false (mintA (rawPoolInfo (pcs_info p))) (mintB (rawPoolInfo (pcs_info p))) targetA targetB in
       match bals with
       | None => ret None
       | Some ab => PcsOpen.deposit_loop (rawPoolInfo (pcs_info p)) targetA targetB (PcsOpen.increase_once t n) PcsOpen.MAX_ATTEMPTS ab
       end)) as Hmain.
  { intros myA myB. unfold Async.lift.
    destruct (PcsOpen.delta fullA myA) as [targetA|e] eqn:EdA; [|apply allowed_done]. cbn [Async.bind after].
    destruct (PcsOpen.delta fullB myB) as [targetB|e] eqn:EdB; [|apply allowed_done]. cbn [Async.bind after].
    apply ByrealDeposit.delta_val in EdA, EdB.
    destruct (_ && _); [apply allowed_done|]. apply allowed_bind; [lasts|apply allowed_plain; always_go|].
    intros [ab|]; [|apply allowed_done]. apply pcs_deposit_allowed; [lasts|]. intros d Hd.
    apply (pcs_other_increase_once_allowed n p fullA fullB); [done|done|]. by rewrite <- EdA, <- EdB. }
  eapply learned; [apply (learns_pcs_read n); lasts|]. intros [m|]; cbn [Async.bind after ret].
  - apply (allowed_weaken J _ (fun h => pcs_read t p h /\ pcs_held n (bn_val (amountA (pcs_info m))) (bn_val (amountB (pcs_info m))) h)); [|apply Hmain].
    intros h1 [Hr Hm]. split; [done|]. left. by exists m.
  - destruct zero as [z|e] eqn:Ez; [|apply allowed_done]. cbn [Async.bind after Async.lift ret]. apply ByrealDeposit.zero_val in Ez.
    apply (allowed_weaken J _ (fun h => pcs_read t p h /\ pcs_held n (bn_val z) (bn_val z) h)); [|apply Hmain].
    intros h1 [Hr Hm]. split; [done|]. right. by rewrite Ez.
Qed.

End Pcs.

(** C8: On Orca an open deposits at most the scaled worth of the target, in the
    target's range, and an increase at most what our position lacks of it.
    Whatever the chain, SDK and Jupiter answer, with unsigned liquidities, and
    with others changing anything but the map: a position is opened in the pool
    and ticks of the target as read, tick arrays are created for it only, and
    the token limits are within the SDK's estimate of the target's liquidity,
    scaled for the wallet (for an increase, less the estimate of ours), except
    that a side on which nothing is wanted is left unlimited when the other is
    wanted; and nothing is closed, taken out or collected. *)
Theorem orca_deposits_within `{L : BNLib} `{W : Web3} `{WP : OrcaOps.Whirlpools (L := L)} `{!BNLaws L} cfg r env k b :
  (forall n c b, readable c (answer env n c b).1) -> others_keep_map env ->
  let t := OrcaOpen.targetNft r in
  let w := OrcaOpen.targetWallet r in
  each_call (orca_bounded cfg t None w) (hist (run env k [] (OrcaOpen.copyOpenPosition cfg r) b))
  /\ forall my, PositionMap.get t (positionMap b) = Some my ->
       each_call (orca_bounded cfg t (Some my) w) (hist (run env k [] (OrcaOpen.copyIncreaseLiquidity cfg t w) b)).
Proof.
  intros Hread Henv t w. split.
  - apply (calls_run (OrcaOpen.copyOpenPosition cfg r) _ same_pm readable env k [] b (fun _ _ _ => True)); [done..|].
    eapply wp_mono; [by apply orca_open_calls|done].
  - intros my Hmy.
    apply (calls_run (OrcaOpen.copyIncreaseLiquidity cfg t w) _ same_pm readable env k [] b (fun _ _ _ => True)); [done..|].
    by apply (orca_increase_calls cfg t w (Some my) my).
Qed.

(** On PancakeSwap an open deposits at most the target's scaled amounts, in the
    target's pool and range, and an increase at most what our position lacks of
    them, as on Byreal: whatever the chain, SDK, signer and Jupiter answer, with
    others changing anything but the map, nothing else is built. *)
Theorem pcs_deposits_within `{L : BNLib} `{W : Web3} `{!BNLaws L} cfg r env k b :
  (forall n c b, readable c (answer env n c b).1) -> others_keep_map env ->
  let t := PcsOpen.targetNft r in
  let w := PcsOpen.targetWallet r in
  each_call (pcs_bounded cfg t None w) (hist (run env k [] (PcsOpen.copyOpenPosition cfg r) b))
  /\ forall my, PositionMap.get t (positionMap b) = Some my ->
       each_call (pcs_bounded cfg t (Some my) w) (hist (run env k [] (PcsOpen.copyIncreaseLiquidity cfg t w) b)).
Proof.
  intros Hread Henv t w. split.
  - apply (calls_run (PcsOpen.copyOpenPosition cfg r) _ same_pm readable env k [] b (fun _ _ _ => True)); [done..|].
    eapply wp_mono; [by apply pcs_open_calls|done].
  - intros my Hmy.
    apply (calls_run (PcsOpen.copyIncreaseLiquidity cfg t w) _ same_pm readable env k [] b (fun _ _ _ => True)); [done..|].
    by apply (pcs_increase_calls cfg t (Some my) w my).
Qed.

(** ** Concrete runs *)

(** The target holds 700 and 300, ours 200 and 300; on Orca the liquidities are
    100 and 40, and worth as much of token A and twice as much of token B. *)
Definition both (n : string) : option (PositionInfo (L := Z_BN)) :=
  Some (demo_position 10 (if bool_decide (n = "T"%string) then 700 else 200) 300).

Definition wp_both (c : Call (L := Z_BN)) : outcome (Ans c) :=
  match c return outcome (Ans c) with
  | OnOrca (WpGetPosition _ pda) =>
      Ret (Some (mkWpPosition (L := Z_BN) "W" (-10) 10 (if bool_decide (pda = "pda T"%string) then 100 else 40) ""))
  | c => demo_answer (Ret "Sig"%string) both c
  end.

Definition depositing : Env Bot (Call (L := Z_BN)) (Ans (L := Z_BN)) :=
  mkEnv (fun _ c b => (wp_both c, b)) (fun n => Z.of_nat n).

Lemma depositing_readable n c b : readable c (answer depositing n c b).1.
Proof.
  by_reading c; simpl; intros p [= <-];
    first [by destruct (bool_decide _)|by repeat constructor; intros z [= <-]|by intros z [= <-]].
Qed.

(** The deposits asked for: the limits, or base, amount and the other's limit. *)
Definition asked (h : list (HEvent (Call (L := Z_BN)) (Ans (L := Z_BN)) Task)) : list (Z * Z) :=
  omap (fun e => match e with
                 | Called (OnOrca (WpOpenPosition _ _ _ i)) _ | Called (OnOrca (WpIncreaseLiquidity _ i)) _ =>
                     Some (tokenMaxA i, tokenMaxB i)
                 | Called (OnPcs (PcsCreatePosition _ _ _ MintA a o)) _ | Called (OnPcs (PcsAddLiquidity _ MintA a o _)) _ =>
                     Some (a, o)
                 | _ => None
                 end) h.

Definition demo_orca_request : OrcaOpen.OpenRequest := OrcaOpen.mkOrcaOpen "T" "W" "Wallet".
Definition demo_pcs_request : PcsOpen.OpenRequest := PcsOpen.mkPcsOpen "T" "P" (Some "Wallet"%string).
Definition mapped_bot (dex : string) (d : Dex) : Bot :=
  set_executor d idle (fresh (PositionMap.set 0 0 "T" "OurNft" None None None None (Some dex) PositionMap.new)).
Definition empty_bot (d : Dex) : Bot := set_executor d idle (fresh PositionMap.new).

Lemma orca_deposits_within_witness :
  let opened := run depositing 0 [] (OrcaOpen.copyOpenPosition (WP := OrcaOps.demo_whirlpools) (W := demo_web3) demo_settings
                  demo_orca_request) (empty_bot Orca) in
  let increased := run depositing 0 [] (OrcaOpen.copyIncreaseLiquidity (WP := OrcaOps.demo_whirlpools) (W := demo_web3)
                     demo_settings "T" "Wallet") (mapped_bot "orca" Orca) in
  asked (hist opened) = [(100, 200)] /\ asked (hist increased) = [(60, 120)]
  /\ each_call (orca_bounded (WP := OrcaOps.demo_whirlpools) (W := demo_web3) demo_settings "T" (Some "OurNft"%string) "Wallet")
       (hist increased).
Proof.
  cbv zeta. split; [by vm_compute|]. split; [by vm_compute|]. pose proof Z_BN_laws as HL.
  apply (orca_deposits_within (WP := OrcaOps.demo_whirlpools) (W := demo_web3) demo_settings demo_orca_request depositing 0
    (mapped_bot "orca" Orca)); [apply depositing_readable|done|by vm_compute].
Defined.

Lemma pcs_deposits_within_witness :
  let opened := run depositing 0 [] (PcsOpen.copyOpenPosition (W := demo_web3) demo_settings demo_pcs_request) (empty_bot Pcs) in
  let increased := run depositing 0 [] (PcsOpen.copyIncreaseLiquidity (W := demo_web3) demo_settings "T" (Some "Wallet"%string))
                     (mapped_bot "pancakeswap" Pcs) in
  asked (hist opened) = [(700, 300)] /\ asked (hist increased) = [(500, 0)]
  /\ each_call (pcs_bounded (W := demo_web3) demo_settings "T" (Some "OurNft"%string) (Some "Wallet"%string)) (hist increased).
Proof.
  cbv zeta. split; [by vm_compute|]. split; [by vm_compute|]. pose proof Z_BN_laws as HL.
  apply (pcs_deposits_within (W := demo_web3) demo_settings demo_pcs_request depositing 0
    (mapped_bot "pancakeswap" Pcs)); [apply depositing_readable|done|by vm_compute].
Defined.

End OtherDeposit.
