(* ===== verification/LegacyDeposit.v ===== *)
(** * What an open or an addition deposits on Meteora and DAMM v2

    [copyOpenPosition] and [copyAddLiquidity] of both executors, as
    [OtherDeposit] judges Orca's: every deposit the SDK is asked for is in the
    target's range and within the target's amounts, scaled (for an addition,
    less what our position holds), but on a side of which nothing is wanted.
    Also: the instructions that create a wide Meteora position cover its range. *)

From S2P Require Import Prelude JsMap JsString JsNumber Json Async Ratio TxTypes PositionMap Store Stores PumpPending State Chain JupiterSwap ByrealOps ByrealOpen Discipline ByrealClose CallRules ByrealDeposit OrcaOps OrcaOpen OrcaAssets PcsOps PcsOpen OtherRules OtherClose OtherReads OtherDeposit Legacy MeteoraOps MeteoraOpen MeteoraAssets DammOps DammOpen DammAssets LegacyRules LegacyClose OtherDecrease LegacyDecrease.
Open Scope Z_scope.
Open Scope list_scope.
Open Scope prog_scope.

Module LegacyDeposit.
Import Async State Chain ByrealOps Discipline ByrealClose CallRules OtherRules LegacyRules Legacy LegacyDecrease.

(** ** Steps common to both *)

Section Common.
Context `{L : BNLib} `{W : Web3} (cfg : Settings).
Abbreviation Hist := (list (HEvent Call Ans Task)).

(** The limits of a deposit; a side of which nothing is wanted is not limited
    when something is wanted of the other. *)
Definition within (limitA limitB : Z) (maxA maxB : BN) : Prop :=
  (bn_val maxA <= limitA \/ limitA = 0 /\ limitB <> 0) /\ (bn_val maxB <= limitB \/ limitB = 0 /\ limitA <> 0).

Lemma limits_within `{!BNLaws L} a b bals :
  within (bn_val a) (bn_val b) (Legacy.limits a b bals).1 (Legacy.limits a b bals).2.
Proof using Type. split; apply OtherDeposit.tokenMax_limits. Qed.

Context (J : Hist -> Call -> Prop) `{!Reads (plain J)} `{!Writes (plain J)}.
Abbreviation CL := (call_logic J same_pm readable).
Abbreviation allowed := (CallRules.allowed J).
Abbreviation learns := (CallRules.learns J).

Lemma opening_allowed d closeOnly dry sol body r :
  allowed (fun _ => True) (body r) -> allowed (fun _ => True) (Legacy.opening cfg d closeOnly dry sol body r).
Proof using Reads0.
  intros Hb. unfold Legacy.opening. apply allowed_bind; [done|apply allowed_plain; always_go|]. intros [[why|]|].
  - apply allowed_plain. unfold skipped, set_reason. always_go.
  - apply allowed_done.
  - destruct (dryRun cfg); [apply allowed_done|]. apply allowed_bind; [done|apply allowed_acquire|]. intros [|]; [|apply allowed_done].
    apply (allowed_finally J); [done| |apply allowed_bind; [done|apply allowed_release|intros _; apply allowed_plain; always_go]].
    apply allowed_catch; [done|exact Hb|]. intros e. apply allowed_plain, always_legacyFailed; apply _.
Qed.

(** The attempts to read the target. *)
Lemma learns_find {A} (read : P (option A)) (Q : A -> Hist -> Prop) attempt left :
  learns (fun _ => True) read (fun o h => forall a, o = Some a -> Q a h) ->
  learns (fun _ => True) (find_target read attempt left) (fun o h => forall a, o = Some a -> Q a h).
Proof using Reads0.
  intros Hr. revert attempt. induction left as [|left IH]; intros attempt; cbn [find_target]; [by apply learns_ret|].
  eapply learns_bind; [apply learns_plain; [done|always_go]|]. cbv beta. intros _.
  eapply (learns_bind _ _ _ _ (fun o h => forall a, o = Some a -> Q a h)).
  - intros h b _. apply wp_catch. eapply wp_mono; [by apply Hr|]. intros [o|e] h1 b1 [Hs Ho]; [by split|].
    destruct (left =? 0)%nat; cbn [wp ret throw]; by split.
  - intros [a|]; [by apply learns_ret|]. eapply learns_weaken; [apply (IH (attempt + 1))|done|done].
Qed.

Lemma open_attempts_allowed (H : Hist -> Prop) reread once attempt left bals :
  lasting H -> always any_bot (plain J) reread -> (forall bals, allowed H (once bals)) ->
  allowed H (open_attempts reread once attempt left bals).
Proof using Reads0.
  intros HH Hr Ho. revert attempt bals. induction left as [|left IH]; intros attempt bals; cbn [open_attempts]; [apply allowed_done|].
  apply allowed_bind; [done|apply allowed_plain; always_go|]. intros bals'.
  apply allowed_bind; [done| |].
  - apply allowed_catch; [done|apply Ho|]. intros e. destruct (_ && _); apply allowed_done.
  - intros [s|]; [apply allowed_done|apply IH].
Qed.

Lemma adding_wp d closeOnly dry body t w n h b :
  PositionMap.get t (positionMap b) = Some n ->
  (forall b', same_pm b b' -> wp CL (body n) h b' (fun _ h' _ => h `suffix_of` h')) ->
  wp CL (Legacy.adding cfg d closeOnly dry body t w) h b (fun _ h' _ => h `suffix_of` h').
Proof using Type.
  intros Hmy Hb. unfold adding, mapped. apply wp_bind. cbn [wp gets ret]. rewrite Hmy.
  destruct (negb (truthy n)); [by cbn [wp ret]|]. apply wp_bind. cbn [wp gets ret].
  destruct (addGuard d closeOnly w b); [by cbn [wp ret]|]. destruct (dryRun cfg); [by cbn [wp ret]|].
  unfold locked, acquire. apply wp_bind, wp_bind. cbn [wp gets ret].
  destruct (busy_of d b); cbn [wp ret]; [done|]. apply wp_bind. exists h. split; [done|]. cbn [wp ret].
  apply wp_finally, wp_catch. eapply wp_mono; [apply Hb; by apply on_executor_positionMap|].
  intros [r|e] h1 b1 Hs; cbn [wp ret]; exists h1; by split.
Qed.

(** What an addition rests on: [wanted x d] says where the differences [d] come
    from. *)
Section Adding.
Context {X : Type} (wanted : X -> BN * BN -> Hist -> Prop) (Hwanted : forall x d, lasting (wanted x d)).
Context (H : Hist -> Prop) (HH : lasting H).

Definition wants (o : option (X * (BN * BN))) (h : Hist) : Prop := forall x d, o = Some (x, d) -> wanted x d h.

Lemma lasting_wants o : lasting (fun h => H h /\ wants o h).
Proof using Hwanted HH.
  intros h h' Hs [Hh Ho]. split; [by eapply HH|]. intros x d Hx. eapply Hwanted; [exact Hs|by apply Ho].
Qed.

Lemma learns_legacy_deltas read attempt left last :
  learns H read wants ->
  learns (fun h => H h /\ wants last h) (Legacy.deltas_loop read attempt left last) wants.
Proof using Reads0 Hwanted HH.
  intros Hr. revert attempt last. induction left as [|left IH]; intros attempt last; cbn [deltas_loop].
  { apply learns_ret. by intros h []. }
  eapply learns_bind; [apply learns_plain; [apply lasting_wants|always_go]|]. cbv beta. intros _.
  eapply (learns_bind _ _ _ _ (fun o h => H h /\ wants o h)).
  { intros h b [Hh _]. eapply wp_mono; [by apply Hr|]. intros [o|e] h1 b1 [Hs Ho]; (split; [done|]); [|done].
    split; [by eapply HH|done]. }
  intros [[x d]|]; [|apply learns_ret; by intros h _ ? ? ?].
  eapply (learns_bind _ _ _ _ (fun _ h => H h /\ wants (Some (x, d)) h)); [apply learns_lift; done|]. intros z.
  destruct (_ || _); [apply learns_ret; by intros h []|apply IH].
Qed.

Lemma needs_val `{!BNLaws L} d a b : needs d = Ret (Some (a, b)) -> bn_val a = Z.max 0 (bn_val d.1) /\ bn_val b = Z.max 0 (bn_val d.2).
Proof using Type.
  unfold needs. destruct zero as [z|]; [|done]. cbn. destruct (_ && _); [done|].
  destruct (OrcaOpen.positive d.1) as [x|] eqn:Ex; [|done]. cbn.
  destruct (OrcaOpen.positive d.2) as [y|] eqn:Ey; [|done]. cbn. intros [= <- <-].
  split; by apply OtherDeposit.positive_val.
Qed.

Lemma add_allowed `{!BNLaws L} read mA mB once :
  learns H read wants ->
  (forall x d maxes, within (Z.max 0 (bn_val d.1)) (Z.max 0 (bn_val d.2)) maxes.1 maxes.2 -> allowed (wanted x d) (once x maxes)) ->
  allowed H (add_what_is_missing cfg read mA mB once).
Proof using Reads0 Writes0 Hwanted HH.
  intros Hr Ho. unfold add_what_is_missing. eapply learned.
  { eapply learns_weaken; [apply (learns_legacy_deltas read 0 2 None Hr)| |done]. intros h Hh. split; [exact Hh|]. by intros x d Hx. }
  intros [[x d]|]; [|apply allowed_done].
  apply (allowed_weaken J _ (wanted x d)); [intros h Hh; by apply Hh|].
  unfold Async.lift. destruct (needs d) as [[[a b]|]|e] eqn:En; cbn [Async.bind after]; [|apply allowed_done..].
  apply needs_val in En as [HA HB].
  apply allowed_bind; [apply Hwanted|apply allowed_plain; always_go|]. intros [bals|]; [|apply allowed_done].
  apply (allowed_deposit_attempts J); [apply Hwanted|always_go|]. intros bs m [= <-]. apply Ho.
  rewrite <- HA, <- HB. apply limits_within.
Qed.

End Adding.

End Common.

(** ** Meteora *)

Section Meteora.
Context `{L : BNLib} `{W : Web3} (cfg : Settings).
Abbreviation Hist := (list (HEvent Call Ans Task)).

(** The target was read as a position of the pool. *)
Definition lb_read (pool : Dlmm) (t : string) (p : LbPosition) (h : Hist) : Prop :=
  exists k, publicKey t = Ret k /\ Called (OnMeteora (LbGetPosition pool k)) (Ret (Some p)) ∈ h.

(** A deposit into a new position: in the target's range, and within its scaled
    amounts. *)
Definition lb_opens (t w : string) (my : option string) (pool : Dlmm) (x y : BN) (lo hi : Z) (h : Hist) : Prop :=
  my = None /\ exists p ours,
    lb_read pool t p h /\ MeteoraOpen.shareOf cfg p w = Ret ours
    /\ lo = lowerBinId p /\ hi = upperBinId p /\ within (bn_val ours.1) (bn_val ours.2) x y.

(** An addition to our position, listed beside the target's in one pool: in our
    range, and within what it lacks of the target's scaled amounts. *)
Definition lb_adds (t w who : string) (n : string) (pool : Dlmm) (d : BN * BN) (lo hi : Z) (h : Hist) : Prop :=
  exists k p ours mine x y,
    publicKey who = Ret k /\ lb_in pool k t p h /\ MeteoraOpen.shareOf cfg p w = Ret ours
    /\ lb_in pool (userAddress cfg) n mine h /\ lo = lowerBinId mine /\ hi = upperBinId mine
    /\ bn_of_string (totalXAmount mine) = Ret x /\ bn_of_string (totalYAmount mine) = Ret y
    /\ bn_val d.1 = bn_val ours.1 - bn_val x /\ bn_val d.2 = bn_val ours.2 - bn_val y.

Definition meteora_bounded (t w who : string) (my : option string) (h : Hist) (c : Call) : Prop :=
  match c with
  | OnMeteora (LbInitializePositionAndAddLiquidity pool _ x y lo hi) | OnMeteora (LbAddLiquidityChunkable pool _ x y lo hi) =>
      lb_opens t w my pool x y lo hi h
  | OnMeteora (LbCreateBinArraysIfNeeded pool indexes) =>
      my = None /\ exists p, lb_read pool t p h
        /\ omapM (fun i => bn_of_int (Some i)) (MeteoraOpen.binArrayIndexes (lowerBinId p) (upperBinId p)) = Ret indexes
  | OnMeteora (LbInitializePosition2 pool _ lo width) =>
      my = None /\ exists p, lb_read pool t p h /\ lo = lowerBinId p
        /\ width = Z.min (upperBinId p - lowerBinId p + 1) MeteoraOpen.LARGE_BIN_THRESHOLD
  | OnMeteora (LbIncreasePositionLength2 pool _ end_) =>
      my = None /\ exists p, lb_read pool t p h /\ end_ ∈ MeteoraOpen.extension_ends (lowerBinId p) (upperBinId p)
  | OnMeteora (LbAddLiquidity pool k x y lo hi) =>
      exists n d, my = Some n /\ publicKey n = Ret k /\ lb_adds t w who n pool d lo hi h
        /\ within (Z.max 0 (bn_val d.1)) (Z.max 0 (bn_val d.2)) x y
  | c => builds c = false
  end.

Context (t w who : string) (my : option string) `{!BNLaws L}.
Abbreviation J := (meteora_bounded t w who my).
Abbreviation allowed := (CallRules.allowed J).
Abbreviation learns := (CallRules.learns J).

#[local] Instance meteora_dep_reads : Reads (plain J).
Proof using Type. intros c Hw Hb h. revert c Hw Hb. by_call. Qed.
#[local] Instance meteora_dep_writes : Writes (plain J).
Proof using Type. intros c Hw h. revert c Hw. by_call. Qed.

Lemma lasting_lb_read pool p : lasting (lb_read pool t p).
Proof using Type. intros h h' Hs (k & Hk & Hin). exists k. split; [done|by eapply in_suffix]. Qed.

Lemma lasting_lb_adds n pool d lo hi : lasting (lb_adds t w who n pool d lo hi).
Proof using Type.
  intros h h' Hs (k & p & ours & mine & x & y & Hk & Hp & Ho & Hm & Hrest). exists k, p, ours, mine, x, y.
  split_and!; [done|by eapply lasting_in|done|by eapply lasting_in|apply Hrest..].
Qed.

(** *** Opening *)

Lemma learns_readTarget r :
  targetNft r = t ->
  learns (fun _ => True) (MeteoraOpen.readTarget r) (fun o h => forall a, o = Some a -> lb_read a.1 t a.2 h).
Proof using Type.
  intros Ht. unfold MeteoraOpen.readTarget, MeteoraOps.getPosition, MeteoraOps.meteora. rewrite Ht.
  eapply learns_bind; [apply learns_plain; [done|apply always_pool; apply _]|]. cbv beta. intros pool.
  eapply (learns_bind _ _ _ _ (fun o h => forall p, o = Some p -> lb_read pool t p h)).
  - unfold Async.lift. destruct (publicKey t) as [k|e] eqn:Ek; [|intros h b _; by split].
    intros h b _. split; [done|]. intros [o|e] b' _ _; (split; [by apply suffix_cons_r|]); [|done].
    intros p ->. exists k. split; [done|left].
  - intros [p|]; apply learns_ret; [|done]. intros h Hh a [= <-]. by apply Hh.
Qed.

Section Opening.
Context (Hmy : my = None) (pool : Dlmm) (p : LbPosition) (ours : BN * BN) (Hours : MeteoraOpen.shareOf cfg p w = Ret ours).
Abbreviation known := (lb_read pool t p).
Abbreviation lower := (lowerBinId p).
Abbreviation upper := (upperBinId p).

(** A call whose only condition is what is known. *)
Lemma known_call (c : MeteoraCall) : (forall h, known h -> J h (OnMeteora c)) ->
  learns known (MeteoraOps.meteora c : P (MeteoraAns c)) (fun _ => known).
Proof using Type.
  intros Hc h b Hh. split; [by apply Hc|]. intros [a|e] b' _ _; (split; [by apply suffix_cons_r|]); [|done].
  eapply lasting_lb_read; [|exact Hh]. by apply suffix_cons_r.
Qed.

Lemma each_extension (position : string) ends :
  (forall e, e ∈ ends -> e ∈ MeteoraOpen.extension_ends lower upper) ->
  learns known (MeteoraOpen.each (fun end_ => (MeteoraOps.meteora (LbIncreasePositionLength2 pool position end_) : P Ix)) ends)
    (fun _ => known).
Proof using Hmy.
  induction ends as [|e ends IH]; intros Hin; cbn [MeteoraOpen.each]; [by apply learns_ret|].
  eapply learns_bind.
  { apply (known_call (LbIncreasePositionLength2 pool position e)). intros h Hh. split; [done|]. exists p. split; [done|]. apply Hin. left. }
  intros ix. eapply learns_bind; [apply IH; intros e' He'; apply Hin; by right|]. intros ixs. by apply learns_ret.
Qed.

Lemma initTx_learns position : learns known (MeteoraOpen.initTx pool position lower upper) (fun _ => known).
Proof using Hmy.
  unfold MeteoraOpen.initTx. unfold Async.lift at 1.
  destruct (omapM _ _) as [indexes|e] eqn:Ei; cbn [Async.bind after]; [|intros h b Hh; by split].
  eapply learns_bind.
  { apply (known_call (LbCreateBinArraysIfNeeded pool indexes)). intros h Hh. split; [done|]. by exists p. }
  intros ixs. eapply learns_bind.
  { apply (known_call (LbInitializePosition2 pool position lower _)). intros h Hh. split; [done|]. by exists p. }
  intros ix. eapply learns_bind; [by apply each_extension|]. intros exts. by apply learns_ret.
Qed.

Lemma lb_open_once_allowed r bals :
  allowed known (MeteoraOpen.open_once cfg r pool p ours.1 ours.2 bals).
Proof using Hmy Hours BNLaws0.
  pose proof (lasting_lb_read pool p) as HK. pose proof (limits_within ours.1 ours.2 bals) as Hin.
  unfold MeteoraOpen.open_once. cbv zeta.
  apply allowed_bind; [done|apply allowed_plain; apply always_keypair; apply _|]. intros position.
  apply allowed_bind; [done| |].
  2:{ intros txSig. apply allowed_plain. apply always_bind; [apply always_mtSave; apply _|]. intros _. apply always_verifiedOr; apply _. }
  destruct (_ <=? _).
  - unfold MeteoraOpen.open_small. eapply learned.
    + apply (known_call (LbInitializePositionAndAddLiquidity pool position _ _ lower upper)).
      intros h Hh. split; [done|]. by exists p, ours.
    + intros tx. apply allowed_plain, always_mtSend; apply _.
  - unfold MeteoraOpen.open_large. eapply learned; [apply initTx_learns|]. intros tx.
    apply allowed_bind; [done|apply allowed_plain, always_mtSend; apply _|]. intros sig.
    apply allowed_bind; [done|apply allowed_plain, always_verify; apply _|]. intros [|]; cbn [negb]; [|apply allowed_done].
    eapply learned.
    + apply (known_call (LbAddLiquidityChunkable pool position _ _ lower upper)).
      intros h Hh. split; [done|]. by exists p, ours.
    + intros txs. apply allowed_plain, always_sendEach; apply _.
Qed.

End Opening.

Lemma meteora_open_calls r :
  my = None -> targetNft r = t -> targetWallet r = w ->
  allowed (fun _ => True) (MeteoraOpen.copyOpenPosition cfg r).
Proof using BNLaws0.
  intros Hmy Ht Hw. unfold MeteoraOpen.copyOpenPosition. apply opening_allowed; [apply _|]. unfold MeteoraOpen.open_body.
  eapply learned; [apply learns_find; [apply _|by apply learns_readTarget]|].
  intros [[pool p]|]; [|apply allowed_done].
  apply (allowed_weaken J _ (lb_read pool t p)); [intros h Hh; by apply (Hh (pool, p))|].
  pose proof (lasting_lb_read pool p) as HK.
  apply allowed_bind; [done| |].
  { apply allowed_plain. unfold MeteoraOpen.openFilters, MeteoraOpen.blacklistFilter, MeteoraOpen.rangeFilter. always_go; first [apply always_pumpAt|apply always_mtFilter]; apply _. }
  intros [why|]; [apply allowed_plain, always_skipped; apply _|].
  unfold Async.lift. rewrite Hw. destruct (MeteoraOpen.shareOf cfg p w) as [ours|e] eqn:Eo; cbn [Async.bind after]; [|apply allowed_done].
  destruct (_ && _); [apply allowed_plain, always_skipped; apply _|].
  unfold MeteoraOpen.open_funded. apply allowed_bind; [done|apply allowed_plain, always_legacyFundBoth; apply _|].
  intros [bals|]; [|apply allowed_done]. destruct (_ && _); [apply allowed_done|].
  apply open_attempts_allowed; [apply _|done|apply always_both; apply _|]. intros bs. by apply lb_open_once_allowed.
Qed.

(** *** Adding *)

Lemma readDeltas_learns pool n :
  learns (fun _ => True) (MeteoraOpen.readDeltas cfg pool t n who w)
    (fun o h => forall rg d, o = Some (rg, d) -> lb_adds t w who n pool d rg.1 rg.2 h).
Proof using BNLaws0.
  unfold MeteoraOpen.readDeltas. unfold Async.lift at 1.
  destruct (publicKey who) as [k|e] eqn:Ek; cbn [Async.bind after]; [|intros h b _; by split].
  intros h b _. apply wp_bind. eapply wp_mono; [apply (positionOf_seen J)|]. intros [[p|]|e] h1 b1 (Hs1 & _ & Hp); [|by split..].
  apply wp_bind. unfold Async.lift at 1. destruct (MeteoraOpen.shareOf cfg p w) as [ours|e] eqn:Eo; cbn [wp ret throw]; [|by split].
  apply wp_bind. eapply wp_mono; [apply (positionOf_seen J)|].
  intros [[m|]|e] h2 b2 (Hs2 & _ & Hm); [|split; [by etrans|done]..].
  apply wp_bind. unfold Async.lift at 1. destruct (bn_of_string (totalXAmount m)) as [x|e] eqn:Ex; cbn [wp ret throw]; [|split; [by etrans|done]].
  apply wp_bind. unfold Async.lift. destruct (bn_of_string (totalYAmount m)) as [y|e] eqn:Ey; cbn [wp ret throw]; [|split; [by etrans|done]].
  split; [by etrans|]. intros rg d [= <- <-]. exists k, p, ours, m, x, y. cbn [fst snd]. rewrite !bn_sub_val.
  split_and!; try done. by eapply lasting_in.
Qed.

Lemma lb_add_once_allowed pool n rg d maxes :
  my = Some n -> within (Z.max 0 (bn_val d.1)) (Z.max 0 (bn_val d.2)) maxes.1 maxes.2 ->
  allowed (fun h => lb_adds t w who n pool d rg.1 rg.2 h) (MeteoraOpen.add_once cfg pool t n who rg maxes).
Proof using Type.
  intros Hmy Hin. unfold MeteoraOpen.add_once. unfold Async.lift.
  destruct (publicKey n) as [k|e] eqn:Ek; cbn [Async.bind after]; [|apply allowed_done].
  eapply (learned _ _ _ _ (fun _ _ => True)).
  - intros h b Hh. split; [by exists n, d|]. intros [txs|e] b' _ _; by (split; [apply suffix_cons_r|]).
  - intros txs. apply allowed_plain. apply always_bind; [apply always_mtSend; apply _|]. intros s.
    unfold MeteoraOpen.updateTargetLiquidity. always_go.
Qed.

Lemma meteora_add_calls n h b :
  my = Some n -> PositionMap.get t (positionMap b) = Some n -> or_else (MeteoraOps.walletOf t b) w = who ->
  wp (call_logic J same_pm readable) (MeteoraOpen.copyAddLiquidity cfg t w) h b (fun _ h' _ => h `suffix_of` h').
Proof using BNLaws0.
  intros Hmy Hget Hwho. unfold MeteoraOpen.copyAddLiquidity. eapply adding_wp; [done|]. intros b0 Hb0.
  unfold MeteoraOpen.add_body, with_pool. apply wp_bind. eapply wp_mono; [apply steady; always_go|].
  intros [u|e] h1 b1 [Hs1 Hb1]; [|done]. apply wp_bind. eapply wp_mono; [apply steady, always_poolAddress|].
  intros [[a|]|e] h2 b2 [Hs2 Hb2]; cbn [wp ret]; [|by etrans..]. destruct (truthy a); cbn [wp ret]; [|by etrans].
  apply wp_bind. eapply wp_mono; [apply steady, always_pool; apply _|]. intros [pool|e] h3 b3 [Hs3 Hb3]; [|etrans; [|exact Hs3]; by etrans].
  apply wp_bind. cbn [wp gets ret].
  assert (MeteoraOps.walletOf t b3 = MeteoraOps.walletOf t b) as ->.
  { unfold MeteoraOps.walletOf, same_pm in *. congruence. }
  rewrite Hwho. eapply wp_mono.
  { eapply (add_allowed cfg J (fun rg d => lb_adds t w who n pool d rg.1 rg.2) (fun rg d => lasting_lb_adds n pool d rg.1 rg.2) (fun _ => True));
      [done|apply _|apply readDeltas_learns| |exact I].
    intros rg d maxes Hin. by apply lb_add_once_allowed. }
  intros r h4 b4 Hs4. etrans; [|exact Hs4]. etrans; [|exact Hs3]. by etrans.
Qed.

End Meteora.

(** *** The bins of a new position *)

Lemma binIdToArrayIdx_floor id : MeteoraOpen.binIdToArrayIdx id = id / MeteoraOpen.MAX_BIN_ARRAY_SIZE.
Proof.
  unfold MeteoraOpen.binIdToArrayIdx, MeteoraOpen.MAX_BIN_ARRAY_SIZE. destruct (Z.ltb_spec id 0), (Z.eqb_spec (Z.rem id 512) 0); cbn [andb negb];
    Z.to_euclidean_division_equations; lia.
Qed.

Lemma binArrayIndexes_spec lower upper i :
  i ∈ MeteoraOpen.binArrayIndexes lower upper
  <-> lower / MeteoraOpen.MAX_BIN_ARRAY_SIZE <= i <= upper / MeteoraOpen.MAX_BIN_ARRAY_SIZE.
Proof.
  unfold MeteoraOpen.binArrayIndexes. rewrite !binIdToArrayIdx_floor. set (lo := lower / _). set (hi := upper / _).
  rewrite list.list_elem_of_fmap. setoid_rewrite list.elem_of_seq. split.
  - intros (n & -> & Hn). lia.
  - intros Hi. exists (Z.to_nat (i - lo)). lia.
Qed.

(** [ends] leads from [e] to [u] in steps of at most [n]. *)
Fixpoint steps_to (n e u : Z) (ends : list Z) : Prop :=
  match ends with
  | [] => e = u
  | x :: ends' => e < x <= e + n /\ steps_to n x u ends'
  end.

Lemma extensions_reach e u left :
  e <= u -> u - e <= Z.of_nat left -> steps_to MeteoraOpen.MAX_RESIZE e u (MeteoraOpen.extensions e u left).
Proof.
  unfold MeteoraOpen.MAX_RESIZE. revert e. induction left as [|left IH]; intros e He Hl; cbn [MeteoraOpen.extensions]; [simpl; lia|].
  unfold MeteoraOpen.MAX_RESIZE. destruct (Z.ltb_spec e u); cbn [steps_to]; [|lia]. split; [lia|]. apply IH; lia.
Qed.

(** ** DAMM v2 *)

Section Damm.
Context `{L : BNLib} `{W : Web3} `{CA : DammOps.CpAmm (L := L)} (cfg : Settings).
Abbreviation Hist := (list (HEvent Call Ans Task)).

Definition am_pool (k : string) (pool : AmmPool) (h : Hist) : Prop := Called (OnDamm (AmFetchPool k)) (Ret pool) ∈ h.

(** The target's liquidity is worth this much at the price of a reading of the
    pool, scaled for the wallet. *)
Definition am_share (t w : string) (pool : AmmPool) (ours : BN * BN) (h : Hist) : Prop :=
  exists liq quote, am_liq t liq h /\ DammOps.getWithdrawQuote liq pool = Ret quote /\ DammOpen.scaled cfg quote w = Ret ours.

(** What our position lacks of it. *)
Definition am_missing (t w n : string) (pool : AmmPool) (d : BN * BN) (h : Hist) : Prop :=
  exists ours liq quote, am_share t w pool ours h /\ am_liq n liq h /\ DammOps.getWithdrawQuote liq pool = Ret quote
    /\ bn_val d.1 = bn_val ours.1 - bn_val quote.1 /\ bn_val d.2 = bn_val ours.2 - bn_val quote.2.

Definition damm_bounded (t w : string) (my : option string) (h : Hist) (c : Call) : Prop :=
  match c with
  | OnDamm (AmCreatePosition k _) => my = None /\ exists pool ours, am_pool k pool h /\ am_share t w pool ours h
  | OnDamm (AmAddLiquidity k fresh _ pda _ delta maxA maxB) =>
      am_pool k fresh h /\ DammOps.getDepositQuote maxA fresh = Ret delta
      /\ exists pool, am_pool k pool h
           /\ match my with
              | None => exists ours, am_share t w pool ours h /\ within (bn_val ours.1) (bn_val ours.2) maxA maxB
              | Some n => LegacyClose.pda_of n = Ret pda
                  /\ exists d, am_missing t w n pool d h /\ within (Z.max 0 (bn_val d.1)) (Z.max 0 (bn_val d.2)) maxA maxB
              end
  | c => builds c = false
  end.

Context (t w : string) (my : option string) `{!BNLaws L}.
Abbreviation J := (damm_bounded t w my).
Abbreviation allowed := (CallRules.allowed J).
Abbreviation learns := (CallRules.learns J).

#[local] Instance damm_dep_reads : Reads (plain J).
Proof using Type. intros c Hw Hb h. revert c Hw Hb. by_call. Qed.
#[local] Instance damm_dep_writes : Writes (plain J).
Proof using Type. intros c Hw h. revert c Hw. by_call. Qed.

Lemma lasting_am_pool k pool : lasting (am_pool k pool).
Proof using Type. intros h h' Hs. by apply in_suffix. Qed.
Lemma lasting_am_share pool ours : lasting (am_share t w pool ours).
Proof using Type. intros h h' Hs (liq & quote & Hl & Hq). exists liq, quote. split; [by eapply am_liq_lasting|done]. Qed.
Lemma lasting_am_missing n pool d : lasting (am_missing t w n pool d).
Proof using Type.
  intros h h' Hs (ours & liq & quote & Ho & Hl & Hq). exists ours, liq, quote.
  split_and!; [by eapply lasting_am_share|by eapply am_liq_lasting|apply Hq..].
Qed.

(** Both pools: that of the amounts and that of the deposit. *)
Definition both (k : string) (pool : AmmPool) (F : Hist -> Prop) (h : Hist) : Prop := am_pool k pool h /\ F h.

Lemma lasting_both k pool F : lasting F -> lasting (both k pool F).
Proof using Type. intros HF h h' Hs [Hp Hf]. split; [by eapply lasting_am_pool|by eapply HF]. Qed.

Lemma learns_fetchPool a F : lasting F -> learns F (DammOps.fetchPoolState a)
  (fun pool h => F h /\ exists k, publicKey a = Ret k /\ am_pool k pool h).
Proof using Type.
  intros HF. unfold DammOps.fetchPoolState, DammOps.damm. unfold Async.lift. destruct (publicKey a) as [k|e] eqn:Ek; cbn [Async.bind after].
  - intros h b Hh. split; [done|]. intros [pool|e] b' _ _; (split; [by apply suffix_cons_r|]); [|done].
    split; [eapply HF; [|exact Hh]; by apply suffix_cons_r|]. exists k. split; [done|left].
  - intros h b Hh. by split.
Qed.

Lemma learns_liquidity n F : lasting F -> learns F (DammOps.fetchLiquidity n) (fun l h => F h /\ am_liq n l h).
Proof using Type.
  intros HF h b Hh. eapply wp_mono; [apply (fetchLiquidity_seen J)|]. intros [l|e] h1 b1 (Hs & _ & Hl); (split; [done|]); [|done].
  split; [by eapply HF|done].
Qed.

(** Building the transaction that adds, for any evidence that allows it. *)
Lemma addTx_allowed {B} a nft programs maxes (k : string) pool F (f : LTx -> P B) :
  publicKey a = Ret k -> lasting F ->
  (forall h fresh progs ata delta pda, both k pool F h -> am_pool k fresh h -> DammOps.getDepositQuote maxes.1 fresh = Ret delta ->
     LegacyClose.pda_of nft = Ret pda -> J h (OnDamm (AmAddLiquidity k fresh progs pda ata delta maxes.1 maxes.2))) ->
  (forall tx, allowed (fun _ => True) (f tx)) ->
  allowed (both k pool F) (Async.bind (DammOpen.addTx a nft programs maxes) f).
Proof using Type.
  intros Hk HF HJ Hf. apply (learned J _ _ _ (fun _ _ => True)); [|exact Hf].
  unfold DammOpen.addTx. eapply learns_bind; [apply learns_fetchPool; by apply lasting_both|]. intros fresh.
  unfold DammOps.pdaOf, DammOps.ataOf, Async.lift, DammOps.damm. fold (LegacyClose.pda_of nft).
  destruct (DammOps.getDepositQuote maxes.1 fresh) as [delta|e] eqn:Ed; cbn [Async.bind after]; [|intros h b Hh; by split].
  destruct (LegacyClose.pda_of nft) as [pda|e] eqn:Ep; cbn [Async.bind after]; [|intros h b Hh; by split].
  destruct (let! k := publicKey nft in _) as [ata|e]; cbn [Async.bind after]; [|intros h b Hh; by split].
  rewrite Hk; cbn [Async.bind after]. intros h b [Hh (k' & Hk' & Hp)]. simplify_eq. split; [by apply HJ|].
  intros [tx|e] b' _ _; by (split; [apply suffix_cons_r|]).
Qed.

(** *** Opening *)

Lemma learns_amTarget r :
  targetNft r = t ->
  learns (fun _ => True) (DammOpen.readTarget r)
    (fun o h => forall a, o = Some a -> (exists k, publicKey (poolAddress r) = Ret k /\ am_pool k a.1 h)
       /\ forall l, DammOps.liquidityIn a.2 = Ret l -> am_liq t l h).
Proof using Type.
  intros Ht. unfold DammOpen.readTarget. rewrite Ht. eapply learns_bind; [by apply learns_fetchPool|]. cbv beta. intros pool.
  unfold DammOps.fetchPositionState, DammOps.pdaOf, DammOps.damm. fold (LegacyClose.pda_of t).
  intros h b [_ Hk]. apply wp_bind, wp_bind. unfold Async.lift. destruct (LegacyClose.pda_of t) as [pda|e] eqn:Ep; cbn [wp ret throw]; [|by split].
  split; [done|]. intros [p|e] b' Hok _; cbn [wp ret]; (split; [by apply suffix_cons_r|]); [|done].
  intros a [= <-]. destruct Hk as (k & Hk & Hp). split.
  - exists k. split; [done|]. eapply lasting_am_pool; [|exact Hp]. by apply suffix_cons_r.
  - intros l Hl. exists pda, p. split_and!; [done|left|done|]. by eapply Hok.
Qed.

Lemma am_open_once_allowed r k pool l ours bals :
  my = None -> publicKey (poolAddress r) = Ret k ->
  allowed (both k pool (am_share t w pool ours)) (DammOpen.open_once cfg r pool l ours.1 ours.2 bals).
Proof using BNLaws0.
  intros Hmy Hk. pose proof (lasting_both k pool _ (lasting_am_share pool ours)) as HE.
  pose proof (limits_within ours.1 ours.2 bals) as Hin. unfold DammOpen.open_once. cbv zeta.
  apply allowed_bind; [done|apply allowed_plain, always_keypair; apply _|]. intros nft.
  unfold Async.lift. rewrite Hk. cbn [Async.bind after]. unfold DammOps.damm.
  apply (learned J _ _ _ (fun _ => both k pool (am_share t w pool ours))).
  { intros h b Hh. split; [|intros [tx|e] b' _ _; (split; [by apply suffix_cons_r|]); [|done]; eapply (HE h); [by apply suffix_cons_r|exact Hh]].
    split; [done|]. exists pool, ours. exact Hh. }
  intros createTx. apply allowed_bind; [done|apply allowed_plain, always_amSignExtra; apply _|]. intros _.
  apply addTx_allowed; [done|apply lasting_am_share| |].
  - intros h fresh progs ata delta pda [Hp Hs] Hf Hd _. cbn. rewrite Hmy. split; [done|]. split; [done|]. exists pool.
    split; [done|]. by exists ours.
  - intros tx. apply allowed_plain. apply always_bind; [apply always_amSign; apply _|]. intros sig.
    apply always_bind; [apply always_amSave; apply _|]. intros _. apply always_verifiedOr; apply _.
Qed.

Lemma damm_open_calls r :
  my = None -> targetNft r = t -> targetWallet r = w ->
  allowed (fun _ => True) (DammOpen.copyOpenPosition cfg r).
Proof using BNLaws0.
  intros Hmy Ht Hw. unfold DammOpen.copyOpenPosition. apply opening_allowed; [apply _|]. unfold DammOpen.open_body.
  eapply learned; [apply learns_find; [apply _|by apply learns_amTarget]|].
  intros [[pool p]|]; [|apply allowed_done]. intros h b Hh. destruct (Hh (pool, p) eq_refl) as [(k & Hk & Hp) Hl]. cbn [fst snd] in *.
  revert h b Hp Hl Hh. intros h b Hp Hl _.
  enough (allowed (both k pool (fun h => forall l, DammOps.liquidityIn p = Ret l -> am_liq t l h))
    (let* reason := ByrealOpen.firstReason (DammOpen.openFilters cfg r pool) in
     match reason with
     | Some why => skipped DammV2 why
     | None =>
         let* targetLiq := Async.lift (DammOps.liquidityIn p) in
         if bn_isZero targetLiq then skipped DammV2 "目標流動性為零"
         else
           let* quote := Async.lift (DammOps.getWithdrawQuote targetLiq pool) in
           let* ours := Async.lift (DammOpen.scaled cfg quote (targetWallet r)) in
           if bn_isZero ours.1 && bn_isZero ours.2 then skipped DammV2 "存款金額為零"
           else DammOpen.open_funded cfg r pool targetLiq ours.1 ours.2
     end)) as Hall by (apply Hall; by split).
  assert (lasting (both k pool (fun h => forall l, DammOps.liquidityIn p = Ret l -> am_liq t l h))) as HK.
  { apply lasting_both. intros h1 h2 Hs Hl1 l Hx. eapply am_liq_lasting; [exact Hs|by apply Hl1]. }
  apply allowed_bind; [done| |].
  { apply allowed_plain. unfold DammOpen.openFilters, DammOpen.blacklistFilter, DammOpen.tvlFilter. always_go;
      first [apply always_pumpAt|apply always_amTvl]; apply _. }
  intros [why|]; [apply allowed_plain, always_skipped; apply _|].
  unfold Async.lift. destruct (DammOps.liquidityIn p) as [liq|e] eqn:El; cbn [Async.bind after]; [|apply allowed_done].
  destruct (bn_isZero liq); [apply allowed_plain, always_skipped; apply _|].
  destruct (DammOps.getWithdrawQuote liq pool) as [quote|e] eqn:Eq; cbn [Async.bind after]; [|apply allowed_done].
  rewrite Hw. destruct (DammOpen.scaled cfg quote w) as [ours|e] eqn:Eo; cbn [Async.bind after]; [|apply allowed_done].
  destruct (_ && _); [apply allowed_plain, always_skipped; apply _|].
  apply (allowed_weaken J _ (both k pool (am_share t w pool ours))).
  { intros h1 [Hp1 Hl1]. split; [done|]. exists liq, quote. split_and!; [by apply Hl1|done|done]. }
  pose proof (lasting_both k pool _ (lasting_am_share pool ours)) as HE.
  unfold DammOpen.open_funded. apply allowed_bind; [done|apply allowed_plain, always_legacyFundBoth; apply _|].
  intros [bals|]; [|apply allowed_done]. destruct (_ && _); [apply allowed_done|].
  apply open_attempts_allowed; [apply _|done|apply always_both; apply _|]. intros bs. by apply am_open_once_allowed.
Qed.

(** *** Adding *)

Lemma am_readDeltas_learns k pool n :
  learns (am_pool k pool) (DammOpen.readDeltas cfg pool t n w)
    (fun o h => forall x d, o = Some (x, d) -> both k pool (am_missing t w n pool d) h).
Proof using BNLaws0.
  pose proof (lasting_am_pool k pool) as HP.
  unfold DammOpen.readDeltas. eapply learns_bind; [by apply learns_liquidity|]. intros liq.
  eapply (learns_bind _ _ _ _ (fun q h => (am_pool k pool h /\ am_liq t liq h) /\ DammOps.getWithdrawQuote liq pool = Ret q)).
  { by apply learns_lift. }
  intros quote. eapply (learns_bind _ _ _ _ (fun ours => both k pool (am_share t w pool ours))).
  { apply learns_lift. intros ours h Ho [[Hp Hl] Hq]. split; [done|]. by exists liq, quote. }
  intros ours. eapply learns_bind; [apply learns_liquidity, lasting_both, lasting_am_share|]. intros mine.
  eapply (learns_bind _ _ _ _ (fun q h => (both k pool (am_share t w pool ours) h /\ am_liq n mine h) /\ DammOps.getWithdrawQuote mine pool = Ret q)).
  { by apply learns_lift. }
  intros q. apply learns_ret. intros h [[[Hp Hs] Hm] Hq] x d [= <- <-]. split; [done|].
  exists ours, mine, q. cbn [fst snd]. rewrite !bn_sub_val. done.
Qed.

Lemma am_add_once_allowed a k pool n d maxes :
  my = Some n -> publicKey a = Ret k -> within (Z.max 0 (bn_val d.1)) (Z.max 0 (bn_val d.2)) maxes.1 maxes.2 ->
  allowed (both k pool (am_missing t w n pool d)) (DammOpen.add_once cfg a t n pool maxes).
Proof using Type.
  intros Hmy Hk Hin. unfold DammOpen.add_once. apply addTx_allowed; [done|apply lasting_am_missing| |].
  - intros h fresh progs ata delta pda [Hp Hm] Hf Hd Hpda. cbn. rewrite Hmy. split; [done|]. split; [done|]. exists pool.
    split; [done|]. split; [done|]. by exists d.
  - intros tx. apply allowed_plain. apply always_bind; [apply always_amSign; apply _|]. intros s.
    unfold DammOpen.updateTargetLiquidity. always_go.
Qed.

Lemma damm_add_calls n h b :
  my = Some n -> PositionMap.get t (positionMap b) = Some n ->
  wp (call_logic J same_pm readable) (DammOpen.copyAddLiquidity cfg t w) h b (fun _ h' _ => h `suffix_of` h').
Proof using BNLaws0.
  intros Hmy Hget. unfold DammOpen.copyAddLiquidity. eapply adding_wp; [done|]. intros b0 _.
  eapply (allowed_weaken J _ (fun _ => True)); [done| |exact I]. unfold DammOpen.add_body, with_pool.
  apply allowed_bind; [done|apply allowed_plain; always_go|]. intros _.
  apply allowed_bind; [done|apply allowed_plain, always_poolAddress|]. intros [a|]; [|apply allowed_done].
  destruct (truthy a); [|apply allowed_done]. eapply learned; [by apply learns_fetchPool|]. intros pool h1 b1 [_ (k & Hk & Hp)].
  revert h1 b1 Hp. apply (add_allowed cfg J (fun _ d => both k pool (am_missing t w n pool d))
    (fun _ d => lasting_both k pool _ (lasting_am_missing n pool d)) (am_pool k pool)).
  - apply lasting_am_pool.
  - apply _.
  - apply am_readDeltas_learns.
  - intros _ d maxes Hin. by apply am_add_once_allowed.
Qed.

End Damm.

(** ** The properties *)

(** On Meteora an open deposits at most the target's scaled amounts, in its
    range, and an addition at most what our position lacks of them.  Whatever the
    chain, SDK and Jupiter answer, with unsigned amounts, and with others changing
    anything but the map: a position is created, sized, extended and filled only
    between the bins of the target as read in the pool, and its deposits are
    within the target's amounts, scaled for the wallet (for an addition, to our
    position as listed in the pool beside the target's, less what ours holds),
    except that a side on which nothing is wanted is left unlimited when the
    other is wanted; and nothing is closed, taken out or collected. *)
Theorem meteora_deposits_within `{L : BNLib} `{W : Web3} `{!BNLaws L} cfg r env k b :
  (forall n c b, readable c (answer env n c b).1) -> others_keep_map env ->
  let t := targetNft r in
  let w := targetWallet r in
  let who := or_else (MeteoraOps.walletOf t b) w in
  each_call (meteora_bounded cfg t w who None) (hist (run env k [] (MeteoraOpen.copyOpenPosition cfg r) b))
  /\ forall my, PositionMap.get t (positionMap b) = Some my ->
       each_call (meteora_bounded cfg t w who (Some my)) (hist (run env k [] (MeteoraOpen.copyAddLiquidity cfg t w) b)).
Proof.
  intros Hread Henv t w who. split.
  - apply (calls_run (MeteoraOpen.copyOpenPosition cfg r) _ same_pm readable env k [] b (fun _ _ _ => True)); [done..|].
    eapply wp_mono; [by apply meteora_open_calls|done].
  - intros my Hmy.
    apply (calls_run (MeteoraOpen.copyAddLiquidity cfg t w) _ same_pm readable env k [] b (fun _ _ _ => True)); [done..|].
    eapply wp_mono; [by apply (meteora_add_calls cfg t w who (Some my) my)|done].
Qed.

(** On DAMM v2, too: the worth of the target's liquidity at the pool's price as
    read, scaled for the wallet, bounds what an open deposits, and less the worth
    of ours what an addition does; the liquidity asked for is the SDK's quote of
    the limit of token A at a reading of the same pool. *)
Theorem damm_deposits_within `{L : BNLib} `{W : Web3} `{CA : DammOps.CpAmm (L := L)} `{!BNLaws L} cfg r env k b :
  (forall n c b, readable c (answer env n c b).1) -> others_keep_map env ->
  let t := targetNft r in
  let w := targetWallet r in
  each_call (damm_bounded cfg t w None) (hist (run env k [] (DammOpen.copyOpenPosition cfg r) b))
  /\ forall my, PositionMap.get t (positionMap b) = Some my ->
       each_call (damm_bounded cfg t w (Some my)) (hist (run env k [] (DammOpen.copyAddLiquidity cfg t w) b)).
Proof.
  intros Hread Henv t w. split.
  - apply (calls_run (DammOpen.copyOpenPosition cfg r) _ same_pm readable env k [] b (fun _ _ _ => True)); [done..|].
    eapply wp_mono; [by apply damm_open_calls|done].
  - intros my Hmy.
    apply (calls_run (DammOpen.copyAddLiquidity cfg t w) _ same_pm readable env k [] b (fun _ _ _ => True)); [done..|].
    eapply wp_mono; [by apply (damm_add_calls cfg t w (Some my) my)|done].
Qed.

(** The instructions that create a wide Meteora position cover its range, and
    the loop that extends it ends.  The array of a bin is the floor of its
    quotient by 512, below zero too, so the arrays created are those of the bins
    of the range and no others; and from the end of the initial width, at most
    70 bins, the extensions lead to the upper bin in steps of 1 to 91. *)
Theorem wide_position_covers_range lower upper :
  lower <= upper ->
  (forall i, i ∈ MeteoraOpen.binArrayIndexes lower upper
     <-> exists bin, lower <= bin <= upper /\ MeteoraOpen.binIdToArrayIdx bin = i)
  /\ (let width := Z.min (upper - lower + 1) MeteoraOpen.LARGE_BIN_THRESHOLD in
      steps_to MeteoraOpen.MAX_RESIZE (lower + width - 1) upper (MeteoraOpen.extension_ends lower upper)).
Proof.
  intros Hle. split.
  - intros i. rewrite binArrayIndexes_spec. unfold MeteoraOpen.MAX_BIN_ARRAY_SIZE. split.
    + intros Hi. exists (Z.max lower (i * 512)). rewrite binIdToArrayIdx_floor. unfold MeteoraOpen.MAX_BIN_ARRAY_SIZE.
      Z.to_euclidean_division_equations; lia.
    + intros (bin & Hb & <-). rewrite binIdToArrayIdx_floor. unfold MeteoraOpen.MAX_BIN_ARRAY_SIZE.
      split; apply Z.div_le_mono; lia.
  - apply extensions_reach; unfold MeteoraOpen.LARGE_BIN_THRESHOLD; lia.
Qed.

(** ** Concrete runs *)

(** The target holds 400 and 500 on Meteora, ours 100 and 200; on DAMM v2 the
    liquidities are 400 and 100, worth as much of either token. *)
Definition target_ahead (c : Call (L := Z_BN)) : outcome (Ans c) :=
  match c return outcome (Ans c) with
  | OnMeteora (LbGetPosition _ k) => Ret (Some (demo_lb k "400" "500"))
  | OnMeteora (LbGetPositionsByUser _ u) =>
      Ret [if bool_decide (u = "Me"%string) then demo_lb "OurNft" "100" "200" else demo_lb "TNft" "400" "500"]
  | OnDamm (AmFetchPosition pda) =>
      Ret (mkAmmPosition (if bool_decide (pda = "pda-TNft"%string) then "400" else "100")%string "OurNft" None None)
  | c => demo_answer (Ret "Sig"%string) (fun _ => None) c
  end.

Definition ahead : Env Bot (Call (L := Z_BN)) (Ans (L := Z_BN)) :=
  mkEnv (fun _ c b => (target_ahead c, b)) (fun n => Z.of_nat n).

Lemma ahead_readable n c b : readable c (answer ahead n c b).1.
Proof.
  by_reading c; simpl; intros p [= <-];
    try match goal with |- context [bool_decide ?P] => destruct (bool_decide P) end;
    first [done|by repeat constructor; intros z [= <-]|by intros z [= <-]].
Qed.

Definition deposited (h : list (HEvent (Call (L := Z_BN)) (Ans (L := Z_BN)) Task)) : list (Z * Z) :=
  omap (fun e => match e with
                 | Called (OnMeteora (LbInitializePositionAndAddLiquidity _ _ x y _ _)) _
                 | Called (OnMeteora (LbAddLiquidity _ _ x y _ _)) _
                 | Called (OnDamm (AmAddLiquidity _ _ _ _ _ _ x y)) _ => Some (x, y)
                 | _ => None
                 end) h.

Definition demo_request : OpenRequest := mkLegacyOpen "TNft" "POOL" "W".
Definition empty_bot (d : Dex) : Bot := set_executor d idle (fresh PositionMap.new).

Lemma meteora_deposits_within_witness :
  let opened := run ahead 0 [] (MeteoraOpen.copyOpenPosition (W := demo_web3) demo_settings demo_request) (empty_bot Meteora) in
  let added := run ahead 0 [] (MeteoraOpen.copyAddLiquidity (W := demo_web3) demo_settings "TNft" "W")
                 (LegacyClose.demo_bot_of Meteora "meteora") in
  deposited (hist opened) = [(400, 500)] /\ deposited (hist added) = [(300, 300)]
  /\ each_call (meteora_bounded (W := demo_web3) demo_settings "TNft" "W" "W" (Some "OurNft"%string)) (hist added).
Proof.
  cbv zeta. split; [by vm_compute|]. split; [by vm_compute|]. pose proof Z_BN_laws as HL.
  apply (meteora_deposits_within (W := demo_web3) demo_settings demo_request ahead 0
    (LegacyClose.demo_bot_of Meteora "meteora")); [apply ahead_readable|done|by vm_compute].
Defined.

Lemma damm_deposits_within_witness :
  let opened := run ahead 0 [] (DammOpen.copyOpenPosition (CA := DammOps.demo_cpamm) (W := demo_web3) demo_settings demo_request)
                  (empty_bot DammV2) in
  let added := run ahead 0 [] (DammOpen.copyAddLiquidity (CA := DammOps.demo_cpamm) (W := demo_web3) demo_settings "TNft" "W")
                 (LegacyClose.demo_bot_of DammV2 "dammv2") in
  deposited (hist opened) = [(400, 400)] /\ deposited (hist added) = [(300, 300)]
  /\ each_call (damm_bounded (CA := DammOps.demo_cpamm) (W := demo_web3) demo_settings "TNft" "W" (Some "OurNft"%string)) (hist added).
Proof.
  cbv zeta. split; [by vm_compute|]. split; [by vm_compute|]. pose proof Z_BN_laws as HL.
  apply (damm_deposits_within (CA := DammOps.demo_cpamm) (W := demo_web3) demo_settings demo_request ahead 0
    (LegacyClose.demo_bot_of DammV2 "dammv2")); [apply ahead_readable|done|by vm_compute].
Defined.

Lemma wide_position_covers_range_witness :
  -100 <= 300 /\ MeteoraOpen.extension_ends (-100) 300 = [60; 151; 242; 300]
  /\ MeteoraOpen.binArrayIndexes (-100) 300 = [-1; 0]
  /\ steps_to MeteoraOpen.MAX_RESIZE (-31) 300 (MeteoraOpen.extension_ends (-100) 300).
Proof.
  split; [lia|]. split; [by vm_compute|]. split; [by vm_compute|].
  exact (proj2 (wide_position_covers_range (-100) 300 ltac:(lia))).
Defined.

End LegacyDeposit.
