(* ===== verification/Methods.v ===== *)
(** * The methods of the executors

    Every public method of the five executors ([src/executor/*-position.ts]),
    every task they start and every operation they queue, as one type, with the executor it belongs to, what it
    answers, and its program. *)

From S2P Require Import Prelude JsMap JsString JsNumber Json Async TxTypes PositionMap State Chain ByrealOps ByrealOpen ByrealAssets Reconcile OrcaOps OrcaOpen OrcaAssets PcsOps PcsOpen Legacy MeteoraOps MeteoraOpen MeteoraAssets DammOps DammOpen DammAssets.

Module Methods.
Import Async State Chain ByrealOps ByrealOpen.

Section Methods.
Context `{L : BNLib} `{W : Web3} `{WP : OrcaOps.Whirlpools (L := L)} `{CL : ByrealAssets.Clmm (L := L)}
  `{CA : DammOps.CpAmm (L := L)} (cfg : Settings).

Inductive ByrealMethod :=
| CopyOpenPosition (r : OpenRequest)
| CopyIncreaseLiquidity (t : string) (w : option string)
| CopyDecreaseLiquidity (t : string)
| CopyClosePosition (t : string)
| ManualClosePosition (n : string)
| SwapTokenToUSDC (m : string) (cap : option string)
| ForceSwapPending (m : string)
| ExecutePendingSwap (m a : string)
| CollectAllFees
| ReconcilePositions
| EnqueueReconcile
| AuditByrealNfts
| CloseOrphan (t n : string)
| LogPendingStatus
| RefreshSol
| UpdateLocked (t s : string)
| BackfillPoolInfo
| BackfillLockedSol
| InitRentPerPosition
| WalletTokenBalances
| PositionAssets.

Inductive OrcaMethod :=
| OrcaOpen (r : OrcaOpen.OpenRequest)
| OrcaIncrease (t w : string)
| OrcaDecrease (t : string)
| OrcaClose (t : string)
| OrcaManualClose (n : string)
| OrcaOrphanClose (t : string)
| OrcaReconcile
| OrcaRefreshSol
| OrcaBackfill
| OrcaInitRent
| OrcaIsPosition (n : string)
| OrcaValue
| OrcaPositionAssets.

Inductive PcsMethod :=
| PcsOpen (r : PcsOpen.OpenRequest)
| PcsIncrease (t : string) (w : option string)
| PcsDecrease (t : string)
| PcsClose (t : string)
| PcsManualClose (n : string)
| PcsOrphanClose (t : string)
| PcsReconcile
| PcsRefreshSol
| PcsUpdateLocked (t s : string)
| PcsBackfill
| PcsInitRent
| PcsIsPosition (n : string)
| PcsDetails
| PcsPositionAssets.

Inductive MeteoraMethod :=
| MeteoraOpen (r : Legacy.OpenRequest)
| MeteoraAdd (t w : string)
| MeteoraRemove (t : string)
| MeteoraClose (t : string)
| MeteoraManualClose (n : string)
| MeteoraCollectFees (n : string)
| MeteoraReconcile
| MeteoraRefreshSol
| MeteoraBackfill
| MeteoraInitRent
| MeteoraIsPosition (a : string)
| MeteoraDetails
| MeteoraPositionAssets.

Inductive DammMethod :=
| DammOpen (r : Legacy.OpenRequest)
| DammAdd (t w : string)
| DammRemove (t : string)
| DammClose (t : string)
| DammManualClose (n : string)
| DammClaimFee (t : string)
| DammReconcile
| DammRefreshSol
| DammBackfill
| DammInitRent
| DammIsPosition (n : string)
| DammDetails
| DammPositionAssets.

Inductive Method :=
| ByrealM (m : ByrealMethod) | OrcaM (m : OrcaMethod) | PcsM (m : PcsMethod)
| MeteoraM (m : MeteoraMethod) | DammM (m : DammMethod).

Definition owner_of (m : Method) : Dex :=
  match m with ByrealM _ => Byreal | OrcaM _ => Orca | PcsM _ => Pcs | MeteoraM _ => Meteora | DammM _ => DammV2 end.

(** What a call of the method answers. *)
Definition result_of (m : Method) : Type :=
  match m with
  | ByrealM m =>
      match m with
      | CopyOpenPosition _ | CopyIncreaseLiquidity _ _ | CopyClosePosition _ | ManualClosePosition _
      | ForceSwapPending _ | ExecutePendingSwap _ _ => option string
      | CopyDecreaseLiquidity _ => option (string * DecreaseType)
      | SwapTokenToUSDC _ _ => option SwapDone
      | CollectAllFees => FeesResult
      | AuditByrealNfts => Reconcile.AuditResult
      | WalletTokenBalances => list WalletItem
      | PositionAssets => list LpAsset
      | _ => unit
      end
  | OrcaM m =>
      match m with
      | OrcaOpen _ | OrcaIncrease _ _ | OrcaClose _ | OrcaManualClose _ => option string
      | OrcaDecrease _ => option (string * DecreaseType)
      | OrcaIsPosition _ => bool
      | OrcaValue => OrcaAssets.LpValue
      | OrcaPositionAssets => list OrcaAsset
      | _ => unit
      end
  | PcsM m =>
      match m with
      | PcsOpen _ | PcsIncrease _ _ | PcsClose _ | PcsManualClose _ => option string
      | PcsDecrease _ => option (string * DecreaseType)
      | PcsIsPosition _ => bool
      | PcsDetails => OrcaAssets.LpValue
      | PcsPositionAssets => list LpAsset
      | _ => unit
      end
  | MeteoraM m =>
      match m with
      | MeteoraOpen _ | MeteoraAdd _ _ | MeteoraClose _ | MeteoraManualClose _ | MeteoraCollectFees _ => option string
      | MeteoraRemove _ => option (string * DecreaseType)
      | MeteoraIsPosition _ => bool
      | MeteoraDetails => OrcaAssets.LpValue
      | MeteoraPositionAssets => list OrcaAsset
      | _ => unit
      end
  | DammM m =>
      match m with
      | DammOpen _ | DammAdd _ _ | DammClose _ | DammManualClose _ | DammClaimFee _ => option string
      | DammRemove _ => option (string * DecreaseType)
      | DammIsPosition _ => bool
      | DammDetails => list DammAssets.Row * num
      | DammPositionAssets => list LpAsset
      | _ => unit
      end
  end.

Definition method (m : Method) : P (result_of m) :=
  match m return P (result_of m) with
  | ByrealM m =>
      match m return P (result_of (ByrealM m)) with
      | CopyOpenPosition r => copyOpenPosition cfg r
      | CopyIncreaseLiquidity t w => copyIncreaseLiquidity cfg t w
      | CopyDecreaseLiquidity t => copyDecreaseLiquidity cfg t
      | CopyClosePosition t => copyClosePosition cfg t
      | ManualClosePosition n => manualClosePosition cfg n
      | SwapTokenToUSDC m cap => swapTokenToUSDC cfg m cap
      | ForceSwapPending m => forceSwapPending cfg m
      | ExecutePendingSwap m a => executePendingSwap cfg m a
      | CollectAllFees => collectAllFees cfg
      | ReconcilePositions => Reconcile.reconcilePositions cfg
      | EnqueueReconcile => Reconcile.enqueueReconcile cfg
      | AuditByrealNfts => Reconcile.auditByrealNftsOnChainAndQueueClose
      | CloseOrphan t n => Reconcile.closeOrphan cfg t n
      | LogPendingStatus => logPendingStatus cfg
      | RefreshSol => refreshSolBalance
      | UpdateLocked t s => updateLockedSol cfg t s
      | BackfillPoolInfo => backfillPoolInfo
      | BackfillLockedSol => backfillLockedSol
      | InitRentPerPosition => initRentPerPosition
      | WalletTokenBalances => ByrealAssets.getWalletTokenBalances cfg
      | PositionAssets => ByrealAssets.getPositionAssets cfg
      end
  | OrcaM m =>
      match m return P (result_of (OrcaM m)) with
      | OrcaOpen r => OrcaOpen.copyOpenPosition cfg r
      | OrcaIncrease t w => OrcaOpen.copyIncreaseLiquidity cfg t w
      | OrcaDecrease t => OrcaOps.copyDecreaseLiquidity cfg t
      | OrcaClose t => OrcaOps.copyClosePosition cfg t
      | OrcaManualClose n => OrcaOps.manualClosePosition cfg n
      | OrcaOrphanClose t => OrcaOps.orphanClose cfg t
      | OrcaReconcile => OrcaOps.reconcileOrcaPositions
      | OrcaRefreshSol => OrcaOps.refreshSolBalance
      | OrcaBackfill => OrcaOps.backfillLockedSol
      | OrcaInitRent => OrcaOps.initRentPerPosition
      | OrcaIsPosition n => OrcaOps.isOrcaPosition n
      | OrcaValue => OrcaAssets.getOrcaLpValueUsd cfg
      | OrcaPositionAssets => OrcaAssets.getPositionAssets cfg
      end
  | PcsM m =>
      match m return P (result_of (PcsM m)) with
      | PcsOpen r => PcsOpen.copyOpenPosition cfg r
      | PcsIncrease t w => PcsOpen.copyIncreaseLiquidity cfg t w
      | PcsDecrease t => PcsOps.copyDecreaseLiquidity cfg t
      | PcsClose t => PcsOps.copyClosePosition cfg t
      | PcsManualClose n => PcsOps.manualClosePosition cfg n
      | PcsOrphanClose t => PcsOps.orphanClose cfg t
      | PcsReconcile => PcsOps.reconcilePcsPositions
      | PcsRefreshSol => PcsOps.refreshSolBalance
      | PcsUpdateLocked t s => PcsOps.updateLockedSol cfg t s
      | PcsBackfill => PcsOps.backfillLockedSol
      | PcsInitRent => PcsOps.initRentPerPosition
      | PcsIsPosition n => PcsOps.isPcsPosition n
      | PcsDetails => PcsOpen.getPcsLpDetails cfg
      | PcsPositionAssets => PcsOpen.getPositionAssets
      end
  | MeteoraM m =>
      match m return P (result_of (MeteoraM m)) with
      | MeteoraOpen r => MeteoraOpen.copyOpenPosition cfg r
      | MeteoraAdd t w => MeteoraOpen.copyAddLiquidity cfg t w
      | MeteoraRemove t => MeteoraOps.copyRemoveLiquidity cfg t
      | MeteoraClose t => MeteoraOps.copyClosePosition cfg t
      | MeteoraManualClose n => MeteoraOps.manualClosePosition cfg n
      | MeteoraCollectFees n => MeteoraOps.collectFees cfg n
      | MeteoraReconcile => MeteoraOps.reconcileMeteoraPositions
      | MeteoraRefreshSol => MeteoraOps.refreshSolBalance
      | MeteoraBackfill => MeteoraOps.backfillLockedSol
      | MeteoraInitRent => MeteoraOps.initRentPerPosition
      | MeteoraIsPosition a => MeteoraOps.isMeteoraPosition a
      | MeteoraDetails => MeteoraAssets.getMeteoraLpDetails cfg
      | MeteoraPositionAssets => MeteoraAssets.getPositionAssets cfg
      end
  | DammM m =>
      match m return P (result_of (DammM m)) with
      | DammOpen r => DammOpen.copyOpenPosition cfg r
      | DammAdd t w => DammOpen.copyAddLiquidity cfg t w
      | DammRemove t => DammOps.copyRemoveLiquidity cfg t
      | DammClose t => DammOps.copyClosePosition cfg t
      | DammManualClose n => DammOps.manualClosePosition cfg n
      | DammClaimFee t => DammOps.copyClaimFee cfg t
      | DammReconcile => DammOps.reconcileDammV2Positions
      | DammRefreshSol => DammOps.refreshSolBalance
      | DammBackfill => DammOps.backfillLockedSol
      | DammInitRent => DammOps.initRentPerPosition
      | DammIsPosition n => DammOps.isDammV2Position n
      | DammDetails => DammAssets.getDammV2LpDetails cfg
      | DammPositionAssets => DammAssets.getPositionAssets
      end
  end.

End Methods.

End Methods.
