(* ===== verification/DryRun.v ===== *)
(** * The dry run

    With [config.dryRun] the methods of the executors ([Methods]) neither sign
    nor send, whatever the chain answers: every call of theirs only reads.  The
    removals of the two Meteora executors are the exception: they do not look at
    the setting. *)

From S2P Require Import Prelude JsMap JsString JsNumber Json Async TxTypes PositionMap State Chain JupiterSwap MarketData ByrealOps ByrealOpen ByrealAssets Reconcile Discipline ByrealClose CallRules OrcaOps OrcaOpen OrcaAssets PcsOps PcsOpen OtherRules Legacy MeteoraOps MeteoraOpen MeteoraAssets DammOps DammOpen DammAssets LegacyRules Methods.
Open Scope Z_scope.
Open Scope list_scope.
Open Scope prog_scope.

Module DryRun.
Import Async State Chain ByrealOps ByrealOpen Discipline CallRules OtherRules LegacyRules Methods.

Section DryRun.
Context `{L : BNLib} `{W : Web3} `{WP : OrcaOps.Whirlpools (L := L)} `{CL : ByrealAssets.Clmm (L := L)}
  `{CA : DammOps.CpAmm (L := L)} (cfg : Settings) (Hdry : dryRun cfg = true).

Definition reads_only {A} (p : P A) : Prop := always any_bot (fun c => writes c = false) p.

#[local] Instance reads_dry : Reads (fun c => writes c = false).
Proof using Type. by intros c. Qed.
#[local] Instance builds_dry : Builds (fun c => writes c = false).
Proof using Type. by_call. Qed.

Lemma always_acquire d : reads_only (acquire d).
Proof using Type. unfold reads_only, acquire. always_go. Qed.
Lemma always_release d : reads_only (release d).
Proof using Type. unfold reads_only, release. always_go. Qed.
Lemma always_locked {A} d skipped (body : P A) : reads_only body -> reads_only (locked d skipped body).
Proof using Type.
  intros Hb. unfold locked. apply always_bind; [apply always_acquire|]. intros got. destruct got; [|always_go].
  apply always_finally; [done|apply always_release].
Qed.

Ltac dry_go := unfold reads_only; rewrite ?Hdry; always_go.

Lemma reconcileOne_reads e : reads_only (Reconcile.reconcileOne cfg e).
Proof using Hdry. unfold Reconcile.reconcileOne, Reconcile.scanTargetOrGone. destruct e as [t n]. dry_go. Qed.

Lemma byreal_reads m : reads_only (method cfg (ByrealM m)).
Proof using Hdry.
  destruct m; simpl.
  - unfold copyOpenPosition. dry_go.
  - unfold copyIncreaseLiquidity. dry_go.
  - unfold copyDecreaseLiquidity. dry_go.
  - unfold copyClosePosition. dry_go.
  - unfold manualClosePosition. dry_go.
  - unfold swapTokenToUSDC. dry_go.
  - unfold forceSwapPending. dry_go.
  - unfold executePendingSwap. dry_go.
  - unfold collectAllFees, collect_body. apply always_bind; [apply always_acquire|]. intros got. dry_go. apply always_release.
  - unfold Reconcile.reconcilePositions. dry_go. apply reconcileOne_reads.
  - dry_go.
  - dry_go.
  - unfold Reconcile.closeOrphan. dry_go.
  - unfold logPendingStatus. dry_go.
  - unfold refreshSolBalance. dry_go.
  - unfold updateLockedSol, extractLockedSolFromTx. dry_go.
  - unfold backfillPoolInfo, backfill_one. dry_go.
  - unfold backfillLockedSol. dry_go.
  - unfold initRentPerPosition, set_rent. dry_go.
  - dry_go.
  - dry_go.
Qed.

Lemma orca_close_reads t : reads_only (OrcaOps.copyClosePosition cfg t).
Proof using Hdry. unfold OrcaOps.copyClosePosition. dry_go. Qed.
Hint Resolve orca_close_reads : always.

Lemma orca_reads m : reads_only (method cfg (OrcaM m)).
Proof using Hdry.
  destruct m; simpl.
  - unfold OrcaOpen.copyOpenPosition. dry_go.
  - unfold OrcaOpen.copyIncreaseLiquidity. dry_go.
  - unfold OrcaOps.copyDecreaseLiquidity. dry_go.
  - apply orca_close_reads.
  - unfold OrcaOps.manualClosePosition. dry_go. apply orca_close_reads.
  - unfold OrcaOps.orphanClose. dry_go. apply orca_close_reads.
  - dry_go.
  - dry_go.
  - unfold OrcaOps.backfillLockedSol. dry_go.
  - unfold OrcaOps.initRentPerPosition, OrcaOps.set_orcaRent. dry_go.
  - unfold OrcaOps.isOrcaPosition. dry_go.
  - dry_go.
  - dry_go.
Qed.

Lemma pcs_reads m : reads_only (method cfg (PcsM m)).
Proof using Hdry.
  destruct m; simpl.
  - unfold PcsOpen.copyOpenPosition. dry_go.
  - unfold PcsOpen.copyIncreaseLiquidity. dry_go.
  - unfold PcsOps.copyDecreaseLiquidity. dry_go.
  - unfold PcsOps.copyClosePosition. dry_go.
  - unfold PcsOps.manualClosePosition. dry_go.
  - unfold PcsOps.orphanClose, PcsOps.manualClosePosition. dry_go.
  - dry_go.
  - dry_go.
  - dry_go.
  - unfold PcsOps.backfillLockedSol. dry_go.
  - unfold PcsOps.initRentPerPosition. dry_go.
  - unfold PcsOps.isPcsPosition. dry_go.
  - dry_go.
  - dry_go.
Qed.

(** *** The frames of the Meteora executors *)

Lemma opening_reads d closeOnly dry sol body r : reads_only (Legacy.opening cfg d closeOnly dry sol body r).
Proof using Hdry. unfold Legacy.opening. dry_go. Qed.
Lemma adding_reads d closeOnly dry body t w : reads_only (Legacy.adding cfg d closeOnly dry body t w).
Proof using Hdry. unfold Legacy.adding. dry_go. Qed.
Lemma closing_reads d dry send t : reads_only (Legacy.closing cfg d dry send t).
Proof using Hdry. unfold Legacy.closing. dry_go. Qed.
Lemma manual_reads close n : (forall t, reads_only (close t)) -> reads_only (Legacy.manualClose close n).
Proof using Type. intros Hc. unfold Legacy.manualClose. dry_go. apply Hc. Qed.

(** The methods that take liquidity out without looking at the setting. *)
Definition removal (m : Method) : bool :=
  match m with MeteoraM (MeteoraRemove _) | DammM (DammRemove _) => true | _ => false end.

Lemma meteora_reads m : removal (MeteoraM m) = false -> reads_only (method cfg (MeteoraM m)).
Proof using Hdry.
  destruct m; intros Hm; [apply opening_reads|apply adding_reads|discriminate Hm|apply closing_reads|apply manual_reads; intros t; apply closing_reads|..]; cbn [method].
  - unfold MeteoraOps.collectFees. dry_go.
  - unfold MeteoraOps.reconcileMeteoraPositions. dry_go.
  - dry_go.
  - unfold MeteoraOps.backfillLockedSol. dry_go.
  - dry_go.
  - unfold MeteoraOps.isMeteoraPosition. dry_go.
  - dry_go.
  - dry_go.
Qed.

Lemma damm_reads m : removal (DammM m) = false -> reads_only (method cfg (DammM m)).
Proof using Hdry.
  destruct m; intros Hm; [apply opening_reads|apply adding_reads|discriminate Hm|apply closing_reads|apply manual_reads; intros t; apply closing_reads|..]; cbn [method].
  - unfold DammOps.copyClaimFee. dry_go.
  - unfold DammOps.reconcileDammV2Positions. dry_go.
  - dry_go.
  - unfold DammOps.backfillLockedSol. dry_go.
  - dry_go.
  - dry_go.
  - dry_go.
  - dry_go.
Qed.

Lemma method_reads m : removal m = false -> reads_only (method cfg m).
Proof using Hdry. destruct m; intros Hm; [apply byreal_reads|apply orca_reads|apply pcs_reads|by apply meteora_reads|by apply damm_reads]. Qed.

End DryRun.

(** The calls in the history of a run that reads only. *)
Lemma reads_only_run `{L : BNLib} {A} (p : P A) env k b :
  reads_only p -> forall c r, Called c r ∈ hist (run env k [] p b) -> writes c = false.
Proof.
  intros Hp.
  cut (forall h, (forall c r, Called c r ∈ h -> writes c = false) ->
         forall c r, Called c r ∈ hist (run env k h p b) -> writes c = false).
  { intros H. apply H. intros c r Hin. by apply list.not_elem_of_nil in Hin. }
  specialize (Hp tt b). revert k b Hp.
  induction p as [r|kont IH|s' kont IH|kont IH|c kont IH|t kont IH]; intros k b Hp h Hh; simpl in *.
  - exact Hh.
  - by apply IH.
  - destruct Hp as ([] & _ & Hp). by apply IH.
  - by apply IH.
  - destruct Hp as [Hc Hp]. destruct (answer env k c b) as [r0 b']. apply IH; [by apply Hp|].
    intros c' r' [Heq|Hin]%list.elem_of_cons; [|by eapply Hh]. by simplify_eq.
  - apply IH; [done|]. intros c' r' [Heq|Hin]%list.elem_of_cons; [done|by eapply Hh].
Qed.

(** ** The property *)

(** The same settings, dry or not. *)
Definition with_dryRun (v : bool) (cfg : Settings) : Settings :=
  mkSettings (userAddress cfg) v (skipPreflight cfg) (slippageBps cfg) (maxRetry cfg) (jupiterApiBase cfg)
    (jupApiKey cfg) (jupSwapMode cfg) (tvlSource cfg) (minPoolTvl cfg) (poolTvlWhitelist cfg)
    (minPoolAgeDays cfg) (poolAgeWhitelist cfg) (pumpFilterMode cfg) (skipSameTickRange cfg)
    (byrealMaxOpenPositions cfg) (coinConcentrationOverrides cfg) (maxCoinConcentrationUsd cfg)
    (maxCoinConcentrationPct cfg) (ratios cfg) (dupRule cfg) (tokenNames cfg) (checkers cfg) (rpcUrlsFree cfg)
    (orcaCloseOnlyWallets cfg) (orcaSkipSol cfg) (pcsSkipSol cfg) (meteoraCloseOnlyWallets cfg)
    (meteoraSkipSol cfg) (dammv2CloseOnlyWallets cfg) (dammv2SkipSol cfg) (tokenBlacklist cfg).

(** C3: A dry run sends nothing, removals of liquidity on Meteora and DAMM v2 aside.
    With [config.dryRun] set, run any method of the five executors from any
    state, against any chain, SDK and other activations: no call it makes signs
    or sends.  But for the two [copyRemoveLiquidity] of the Meteora executors,
    which are the same programs with and without the setting. *)
Theorem dry_run_sends_nothing `{L : BNLib} `{W : Web3} `{WP : OrcaOps.Whirlpools (L := L)}
    `{CL : ByrealAssets.Clmm (L := L)} `{CA : DammOps.CpAmm (L := L)} cfg m env k b :
  dryRun cfg = true ->
  (removal m = false -> forall c r, Called c r ∈ hist (run env k [] (method cfg m) b) -> writes c = false)
  /\ (removal m = true -> method cfg m = method (with_dryRun false cfg) m).
Proof.
  intros Hdry. split.
  - intros Hm. apply reads_only_run. by apply method_reads.
  - destruct cfg, m as [m|m|m|m|m]; try discriminate; destruct m; try discriminate; intros _; reflexivity.
Qed.

(** A dry run of a Meteora removal all the same sends. *)
Definition demo_meteora_bot : Bot :=
  set_executor Meteora idle (fresh (PositionMap.setTargetLiquidity "T" "400" (PositionMap.set 0 0 "T" "OurNft"
    (Some "MINT/USDC@POOL"%string) (Some "W"%string) None None (Some "meteora"%string) PositionMap.new))).

Definition demo_dry (m : Method) :=
  run (demo_env (Ret "Sig"%string) (fun _ => None)) 0 []
    (method (WP := OrcaOps.demo_whirlpools) (W := demo_web3) (CL := ByrealAssets.demo_clmm) (CA := DammOps.demo_cpamm)
       (with_dryRun true demo_settings) m) demo_meteora_bot.

Definition any_write (h : list (HEvent (Call (L := Z_BN)) (Ans (L := Z_BN)) Task)) : bool :=
  existsb (fun e => match e with Called c _ => writes c | _ => false end) h.

Lemma dry_run_sends_nothing_witness :
  res (demo_dry (MeteoraM (MeteoraClose "T"))) = Ret (Some "dry-run-meteora-close"%string)
  /\ (forall c r, Called c r ∈ hist (demo_dry (MeteoraM (MeteoraClose "T"))) -> writes c = false)
  /\ any_write (hist (demo_dry (MeteoraM (MeteoraRemove "T")))) = true.
Proof.
  split; [by vm_compute|]. split; [|by vm_compute].
  exact (proj1 (dry_run_sends_nothing (WP := OrcaOps.demo_whirlpools) (W := demo_web3) (CL := ByrealAssets.demo_clmm)
    (CA := DammOps.demo_cpamm) (with_dryRun true demo_settings) (MeteoraM (MeteoraClose "T"))
    (demo_env (Ret "Sig"%string) (fun _ => None)) 0%nat demo_meteora_bot eq_refl) eq_refl).
Defined.

End DryRun.
