(* ===== verification/ExecutorLock.v ===== *)
(** * The locks of the executors

    The methods of the five executors ([Methods]), as activations of one process
    that take turns ([Async.World]).  The ghost value of an activation
    says whose lock it takes and whether it holds it; each method is
    proved on its own ([safe]) and [Async.interleaving_sound] gives the
    interleavings.  [closeOrphan], which the operation queue runs, is the one
    method that sends without a lock: it takes part in the interleavings, and
    [orphan_close_ignores_lock] shows it send beside another method. *)

From S2P Require Import Prelude JsMap JsString JsNumber Json Async TxTypes WriteChain PositionMap Store Stores Risk PumpPending ActivityLog State Chain JupiterSwap MarketData ByrealOps ByrealOpen ByrealAssets Reconcile Discipline OrcaOps OrcaOpen OrcaAssets PcsOps PcsOpen OtherRules Legacy MeteoraOps MeteoraOpen MeteoraAssets DammOps DammOpen DammAssets LegacyRules Methods.
Open Scope Z_scope.
Open Scope list_scope.
Open Scope prog_scope.

Module ExecutorLock.
Import Async State Chain ByrealOps ByrealOpen Discipline OtherRules LegacyRules Methods.

(** ** The locks *)

(** [None] where there is no such executor. *)
Definition lock_of (d : Dex) (b : Bot) : option bool := busy <$> executor d b.

Definition same_locks (b b' : Bot) : Prop := forall d, lock_of d b' = lock_of d b.
Definition same_others (d : Dex) (b b' : Bot) : Prop := forall d', d' <> d -> lock_of d' b' = lock_of d' b.

(** [this.busy = v] *)
Definition sets (v : bool) (d : Dex) (b b' : Bot) : Prop :=
  lock_of d b' = (fun _ => v) <$> lock_of d b /\ same_others d b b'.

Lemma with_busy_sets d v b : sets v d b (on_executor d (with_busy v) b).
Proof.
  split; [|intros d' Hd]; unfold lock_of; [rewrite executor_on; by destruct (executor d b)|].
  by rewrite executor_on_ne by done.
Qed.

Lemma busy_lock d b : busy_of d b = default false (lock_of d b).
Proof. done. Qed.

#[export] Instance same_locks_pm : Keeps_positionMap same_locks := fun _ _ _ => eq_refl.
#[export] Instance same_locks_rf : Keeps_referers same_locks := fun _ _ _ => eq_refl.
#[export] Instance same_locks_ps : Keeps_pending same_locks := fun _ _ _ => eq_refl.
#[export] Instance same_locks_sv : Keeps_swapVars same_locks := fun _ _ _ => eq_refl.
#[export] Instance same_locks_by : Keeps_byreal same_locks := fun _ _ _ => eq_refl.
#[export] Instance same_locks_mk : Keeps_market same_locks := fun _ _ _ => eq_refl.
#[export] Instance same_locks_pu : Keeps_pump same_locks := fun _ _ _ => eq_refl.
#[export] Instance same_locks_dv : Keeps_dexVars same_locks := fun _ _ _ => eq_refl.
#[export] Instance same_locks_fields : Keeps_fields same_locks.
Proof.
  intros b d f Hf d'. unfold lock_of. destruct (decide (d = d')) as [->|Hne].
  - rewrite executor_on. destruct (executor d' b) as [x|]; [|done]. simpl. by rewrite Hf.
  - by rewrite executor_on_ne.
Qed.

Section Lock.
Context `{L : BNLib} `{W : Web3} `{WP : OrcaOps.Whirlpools (L := L)} `{CL : ByrealAssets.Clmm (L := L)}
  `{CA : DammOps.CpAmm (L := L)} (cfg : Settings).

(** Whose lock an activation takes, if any, and whether it holds it. *)
Abbreviation Ghost := (option (Dex * bool)).

Definition lock_logic : Logic Bot Call Ans Task Ghost :=
  mkLogic
    (fun g b b' g' =>
       fst <$> g' = fst <$> g /\
       match g, g' with
       | Some (d, false), Some (_, true) => busy_of d b = false /\ sets true d b b'
       | Some (d, true), Some (_, false) => sets false d b b'
       | _, _ => same_locks b b'
       end)
    (fun g c => writes c = true -> default true (snd <$> g) = true)
    (fun _ _ _ => True) (fun _ _ => True) (fun g _ _ => g) (fun g _ => g).

Definition quiet {A} (p : P A) : Prop := always same_locks (fun c => writes c = false) p.
Definition busy_body {A} (p : P A) : Prop := always same_locks (fun _ => True) p.

#[local] Instance reads_quiet : Reads (fun c => writes c = false).
Proof using Type. by intros c. Qed.
#[local] Instance builds_quiet : Builds (fun c => writes c = false).
Proof using Type. by_call. Qed.
#[local] Instance builds_any : Builds (fun _ => True).
Proof using Type. by intros c. Qed.
#[local] Instance reads_any : Reads (fun _ => True).
Proof using Type. by intros c. Qed.
#[local] Instance writes_any : Writes (fun _ => True).
Proof using Type. by intros c. Qed.

(** Starts and ends without the lock of [d], and sends only in between. *)
Definition safe (d : Dex) {A} (p : P A) : Prop :=
  forall b, wp lock_logic p (Some (d, false)) b (fun _ g _ => g = Some (d, false)).

Lemma safe_quiet {A} d (p : P A) : quiet p -> safe d p.
Proof using Type.
  intros H b. apply (always_wp lock_logic same_locks (fun c => writes c = false)); try done.
  simpl. intros c Hc Hw. congruence.
Qed.

Lemma held_body {A} d (p : P A) b : busy_body p -> wp lock_logic p (Some (d, true)) b (fun _ g _ => g = Some (d, true)).
Proof using Type. intros H. by apply (always_wp lock_logic same_locks (fun _ => True)). Qed.

Lemma safe_bind {A B} d (m : P A) (f : A -> P B) : safe d m -> (forall a, safe d (f a)) -> safe d (Async.bind m f).
Proof using Type.
  intros Hm Hf b. apply wp_bind. eapply wp_mono; [apply Hm|]. intros [a|e] g s ->; [apply Hf|done].
Qed.

Lemma safe_catch {A} d (m : P A) h : safe d m -> (forall e, safe d (h e)) -> safe d (catch m h).
Proof using Type.
  intros Hm Hf b. apply wp_catch. eapply wp_mono; [apply Hm|]. intros [a|e] g s ->; [done|apply Hf].
Qed.

Lemma safe_for_each {X} d (body : X -> P unit) xs : (forall x, safe d (body x)) -> safe d (for_each body xs).
Proof using Type.
  intros H. induction xs as [|x xs IH]; simpl; [by intros b|]. apply safe_bind; [apply H|done].
Qed.

(** Giving the lock back, with what follows. *)
Lemma release_gives d b : wp lock_logic (release d) (Some (d, true)) b (fun _ g _ => g = Some (d, false)).
Proof using Type. exists (Some (d, false)). split; [|done]. split; [done|]. apply with_busy_sets. Qed.

Lemma held_finally {A} d (body : P A) fin b :
  busy_body body -> (forall b, wp lock_logic fin (Some (d, true)) b (fun _ g _ => g = Some (d, false))) ->
  wp lock_logic (finally body fin) (Some (d, true)) b (fun _ g _ => g = Some (d, false)).
Proof using Type.
  intros Hb Hf. apply wp_finally. eapply wp_mono; [by apply held_body|]. intros r g s ->. apply Hf.
Qed.

(** The conditional on [acquire]. *)
Lemma safe_acquire {A} d (p q : P A) :
  (forall b, wp lock_logic p (Some (d, true)) b (fun _ g _ => g = Some (d, false))) -> safe d q ->
  safe d (let* got := acquire d in if got then p else q).
Proof using Type.
  intros Hp Hq b. simpl. destruct (busy_of d b) eqn:E; simpl; [apply Hq|].
  exists (Some (d, true)). split; [|apply Hp]. split; [done|]. split; [done|apply with_busy_sets].
Qed.

Lemma safe_locked {A} d skipped (body : P A) : busy_body body -> safe d (locked d skipped body).
Proof using Type.
  intros H. apply safe_acquire; [|by intros b]. intros b. apply held_finally; [done|apply release_gives].
Qed.

(** An open: the lock, then the body, then the release and a task. *)
Lemma safe_opening {A} d (body : P (option A)) t :
  busy_body body ->
  safe d (let* got := acquire d in if got then finally body (do* release d in spawn t) else ret None).
Proof using Type.
  intros H. apply safe_acquire; [|by intros b]. intros b. apply held_finally; [done|]. intros b'.
  apply wp_bind. eapply wp_mono; [apply release_gives|]. by intros [a|e] g s ->.
Qed.

(** The rules, by the shape of the program; a part without the lock is quiet. *)
Ltac quietly := unfold quiet; always_go.
Ltac bodily := unfold busy_body; always_go.
Ltac safe_go :=
  intros; cbv beta zeta;
  lazymatch goal with
  | |- safe _ (locked _ _ _) => apply safe_locked; bodily
  | |- safe _ (Async.bind (acquire _) _) => apply safe_opening; bodily
  | |- safe _ (Async.bind (OrcaOps.acquire) _) => apply safe_opening; bodily
  | |- safe _ (Async.bind (PcsOps.acquire) _) => apply safe_opening; bodily
  | |- safe _ (Async.bind _ _) => first [apply safe_quiet; solve [quietly] | apply safe_bind; safe_go]
  | |- safe _ (catch _ _) => first [apply safe_quiet; solve [quietly] | apply safe_catch; safe_go]
  | |- safe _ (match ?x with _ => _ end) => destruct x; safe_go
  | |- safe _ (for_each _ _) => apply safe_for_each; safe_go
  | |- safe _ _ => apply safe_quiet; quietly
  end.

(** ** The methods *)

Lemma reconcileOne_safe e : safe Byreal (Reconcile.reconcileOne cfg e).
Proof using Type.
  unfold Reconcile.reconcileOne, Reconcile.scanTargetOrGone. destruct e as [t n].
  apply safe_bind; [safe_go|]. intros dex. destruct (Reconcile.foreign dex); [safe_go|].
  apply safe_bind; [safe_go|]. intros o. apply safe_bind; [safe_go|]. intros o'.
  destruct o'; [|safe_go]. destruct (dryRun cfg); [safe_go|]. apply safe_acquire; [|safe_go].
  intros b. apply wp_bind. eapply wp_mono; [apply held_finally; [bodily|apply release_gives]|].
  intros [landed|e] g s ->; [|done]. assert (safe Byreal (if landed then sleep 500 else ret tt)) as H by safe_go. apply H.
Qed.

(** All methods but one begin with the lock of their executor. *)
Definition takes_lock (m : Method) : bool :=
  match m with ByrealM (CloseOrphan _ _) => false | _ => true end.

Lemma byreal_safe m : takes_lock (ByrealM m) = true -> safe Byreal (method cfg (ByrealM m)).
Proof using Type.
  destruct m; intros Hm; simpl.
  - unfold copyOpenPosition. apply safe_bind; [safe_go|]. intros go. destruct (negb go); [safe_go|].
    destruct (dryRun cfg); safe_go.
  - unfold copyIncreaseLiquidity. safe_go.
  - unfold copyDecreaseLiquidity. safe_go.
  - unfold copyClosePosition. safe_go.
  - unfold manualClosePosition, manual_close_body. safe_go.
  - unfold swapTokenToUSDC. safe_go.
  - unfold forceSwapPending. safe_go.
  - unfold executePendingSwap. safe_go.
  - unfold collectAllFees. apply safe_acquire; [|safe_go]. intros b.
    apply held_finally; [bodily|apply release_gives].
  - unfold Reconcile.reconcilePositions. apply safe_bind; [safe_go|]. intros n.
    destruct (n =? 0); [safe_go|]. apply safe_bind; [safe_go|]. intros es.
    apply safe_for_each, reconcileOne_safe.
  - safe_go.
  - safe_go.
  - discriminate Hm.
  - unfold logPendingStatus. safe_go.
  - unfold refreshSolBalance. safe_go.
  - unfold updateLockedSol, extractLockedSolFromTx. safe_go.
  - unfold backfillPoolInfo, backfill_one. safe_go.
  - unfold backfillLockedSol. safe_go.
  - unfold initRentPerPosition, set_rent. safe_go.
  - safe_go.
  - safe_go.
Qed.

Lemma orca_close_safe t : safe Orca (OrcaOps.copyClosePosition cfg t).
Proof using Type. unfold OrcaOps.copyClosePosition. safe_go. Qed.

Lemma orca_safe m : safe Orca (method cfg (OrcaM m)).
Proof using Type.
  destruct m; simpl.
  - unfold OrcaOpen.copyOpenPosition. safe_go.
  - unfold OrcaOpen.copyIncreaseLiquidity. safe_go.
  - unfold OrcaOps.copyDecreaseLiquidity. safe_go.
  - apply orca_close_safe.
  - unfold OrcaOps.manualClosePosition. apply safe_bind; [safe_go|]. intros [t|]; [|safe_go].
    destruct (truthy t); [apply orca_close_safe|safe_go].
  - apply safe_catch; [|safe_go]. apply safe_bind; [apply orca_close_safe|safe_go].
  - safe_go.
  - safe_go.
  - unfold OrcaOps.backfillLockedSol. safe_go.
  - unfold OrcaOps.initRentPerPosition, OrcaOps.set_orcaRent. safe_go.
  - unfold OrcaOps.isOrcaPosition. safe_go.
  - safe_go.
  - safe_go.
Qed.

Lemma pcs_manual_safe n : safe Pcs (PcsOps.manualClosePosition cfg n).
Proof using Type. unfold PcsOps.manualClosePosition. safe_go. Qed.

Lemma pcs_safe m : safe Pcs (method cfg (PcsM m)).
Proof using Type.
  destruct m; simpl.
  - unfold PcsOpen.copyOpenPosition. safe_go.
  - unfold PcsOpen.copyIncreaseLiquidity. safe_go.
  - unfold PcsOps.copyDecreaseLiquidity. safe_go.
  - unfold PcsOps.copyClosePosition. safe_go.
  - apply pcs_manual_safe.
  - unfold PcsOps.orphanClose. apply safe_bind; [safe_go|]. intros [n|]; [|safe_go].
    destruct (truthy n); [|safe_go]. apply safe_bind; [apply pcs_manual_safe|safe_go].
  - safe_go.
  - safe_go.
  - safe_go.
  - unfold PcsOps.backfillLockedSol. safe_go.
  - unfold PcsOps.initRentPerPosition. safe_go.
  - unfold PcsOps.isPcsPosition. safe_go.
  - safe_go.
  - safe_go.
Qed.

(** The frames that the two Meteora executors share. *)
Lemma opening_safe d closeOnly dry sol body r : (forall r, busy_body (body r)) -> safe d (Legacy.opening cfg d closeOnly dry sol body r).
Proof using Type.
  intros Hb. unfold Legacy.opening. apply safe_bind; [safe_go|]. intros [[why|]|]; [safe_go..|]. destruct (dryRun cfg); [safe_go|].
  apply safe_opening. unfold busy_body in *. always_go.
Qed.

Lemma adding_safe d closeOnly dry body t w : (forall n, busy_body (body n)) -> safe d (Legacy.adding cfg d closeOnly dry body t w).
Proof using Type.
  intros Hb. unfold Legacy.adding. apply safe_bind; [safe_go|]. intros [n|]; [|safe_go]. destruct (negb (truthy n)); [safe_go|].
  apply safe_bind; [safe_go|]. intros stop. destruct stop; [safe_go|]. destruct (dryRun cfg); [safe_go|].
  apply safe_locked. unfold busy_body in *. always_go.
Qed.

Lemma removing_safe d body t : (forall n, busy_body (body n)) -> safe d (Legacy.removing d body t).
Proof using Type.
  intros Hb. unfold Legacy.removing. apply safe_bind; [safe_go|]. intros [n|]; [|safe_go]. destruct (negb (truthy n)); [safe_go|].
  apply safe_locked. unfold busy_body in *. always_go.
Qed.

Lemma closing_safe d dry send t : (forall n, busy_body (send n)) -> safe d (Legacy.closing cfg d dry send t).
Proof using Type.
  intros Hb. unfold Legacy.closing. apply safe_bind; [safe_go|]. intros [n|]; [|safe_go]. destruct (negb (truthy n)); [safe_go|].
  destruct (dryRun cfg); [safe_go|]. apply safe_locked, always_legacyClose; [apply _..|apply Hb].
Qed.

Lemma manual_safe d close n : (forall t, safe d (close t)) -> safe d (Legacy.manualClose close n).
Proof using Type.
  intros Hc. unfold Legacy.manualClose. apply safe_bind; [safe_go|]. intros [t|]; [|safe_go]. destruct (truthy t); [apply Hc|safe_go].
Qed.

Lemma meteora_close_safe t : safe Meteora (MeteoraOps.copyClosePosition cfg t).
Proof using Type. apply closing_safe. intros n. bodily. Qed.

Lemma meteora_safe m : safe Meteora (method cfg (MeteoraM m)).
Proof using Type.
  destruct m; simpl.
  - apply opening_safe. intros r'. bodily.
  - apply adding_safe. intros n. bodily.
  - apply removing_safe. intros n. bodily.
  - apply meteora_close_safe.
  - apply manual_safe, meteora_close_safe.
  - unfold MeteoraOps.collectFees. safe_go.
  - unfold MeteoraOps.reconcileMeteoraPositions. safe_go.
  - safe_go.
  - unfold MeteoraOps.backfillLockedSol. safe_go.
  - safe_go.
  - unfold MeteoraOps.isMeteoraPosition. safe_go.
  - safe_go.
  - safe_go.
Qed.

Lemma damm_close_safe t : safe DammV2 (DammOps.copyClosePosition cfg t).
Proof using Type. apply closing_safe. intros n. bodily. Qed.

Lemma damm_safe m : safe DammV2 (method cfg (DammM m)).
Proof using Type.
  destruct m; simpl.
  - apply opening_safe. intros r'. bodily.
  - apply adding_safe. intros n. bodily.
  - apply removing_safe. intros n. bodily.
  - apply damm_close_safe.
  - apply manual_safe, damm_close_safe.
  - unfold DammOps.copyClaimFee. safe_go.
  - unfold DammOps.reconcileDammV2Positions. safe_go.
  - safe_go.
  - unfold DammOps.backfillLockedSol. safe_go.
  - safe_go.
  - safe_go.
  - safe_go.
  - safe_go.
Qed.

Lemma method_safe m : takes_lock m = true -> safe (owner_of m) (method cfg m).
Proof using Type.
  destruct m; intros Hm; [by apply byreal_safe|apply orca_safe|apply pcs_safe|apply meteora_safe|apply damm_safe].
Qed.

(** The one that does not leaves the locks alone. *)
Lemma lockless m b : takes_lock m = false -> wp lock_logic (method cfg m) None b (fun _ g _ => g = None).
Proof using Type.
  destruct m as [[]| | | |]; intros Hm; try discriminate Hm. simpl.
  apply (always_wp lock_logic same_locks (fun _ => True)); try done. unfold Reconcile.closeOrphan, Reconcile.closeOrphan_body. bodily.
Qed.

(** ** All interleavings *)

Definition holders (d : Dex) (gs : list Ghost) : nat := length (filter (fun g => g = Some (d, true)) gs).

(** A lock is taken iff one activation of its executor holds it, and no two do;
    an executor of [b0] is there. *)
Definition lock_inv (b0 : Bot) (gs : list Ghost) (b : Bot) : Prop :=
  (forall d, is_Some (lock_of d b0) -> is_Some (lock_of d b))
  /\ forall d v, lock_of d b = Some v -> holders d gs = if v then 1%nat else 0%nat.

Definition holds (d : Dex) (g : Ghost) : nat := if decide (g = Some (d, true)) then 1%nat else 0%nat.

Lemma holders_cons d g gs : holders d (g :: gs) = (holds d g + holders d gs)%nat.
Proof using Type. unfold holders, holds. rewrite filter_cons. by destruct (decide (g = Some (d, true))). Qed.

Lemma holders_insert d gs (i : nat) g g' : gs !! i = Some g ->
  (holders d (<[i := g']> gs) + holds d g = holders d gs + holds d g')%nat.
Proof using Type.
  revert i. induction gs as [|x gs IH]; intros [|i] H; simpl in *; try done; rewrite !holders_cons.
  - injection H as ->. lia.
  - specialize (IH i H). lia.
Qed.

Lemma holds_other d (g : Ghost) : fst <$> g <> Some d -> holds d g = 0%nat.
Proof using Type. intros H. unfold holds. rewrite decide_False; [done|]. by intros ->. Qed.

Lemma holds_own d (v : bool) : holds d (Some (d, v)) = if v then 1%nat else 0%nat.
Proof using Type. destruct v; unfold holds; [by rewrite decide_True|by rewrite decide_False]. Qed.

Lemma put_exists g b b' g' d :
  l_put lock_logic g b b' g' -> is_Some (lock_of d b) -> is_Some (lock_of d b').
Proof using Type.
  intros [Ho Hput] [v Hv]. unfold sets, same_locks, same_others in Hput.
  assert (lock_of d b' = lock_of d b \/ exists u, lock_of d b' = (fun _ => u) <$> lock_of d b) as [-> | [u ->]];
    [|by rewrite Hv; eauto..].
  destruct g as [[d0 []]|], g' as [[d1 []]|]; simplify_eq/=; try (by left; naive_solver); destruct (decide (d = d0)) as [->|Hne]; naive_solver.
Qed.

Lemma put_keeps b0 gs i g b b' g' :
  lock_inv b0 gs b -> gs !! i = Some g -> l_put lock_logic g b b' g' -> lock_inv b0 (<[i := g']> gs) b'.
Proof using Type.
  intros [Hex HI] Hg Hput. split; [intros d Hd; eapply put_exists; [exact Hput|by apply Hex]|].
  destruct Hput as [Ho Hput]. intros d v Hv. pose proof (holders_insert d gs i g g' Hg) as Hc.
  destruct g as [[d0 h]|], g' as [[d1 h']|]; simplify_eq/=.
  2: { rewrite Hput in Hv. specialize (HI _ _ Hv). lia. }
  destruct (decide (d0 = d)) as [->|Hne].
  - rewrite !holds_own in Hc. specialize (HI d). unfold sets, same_locks in Hput. destruct h, h'.
    + rewrite Hput in Hv. specialize (HI _ Hv). lia.
    + destruct Hput as [Hs _]. rewrite Hs in Hv. destruct (lock_of d b) as [u|]; [|done]. simpl in Hv. simplify_eq.
      specialize (HI u eq_refl). destruct u; lia.
    + destruct Hput as [Hb [Hs _]]. rewrite busy_lock in Hb. rewrite Hs in Hv.
      destruct (lock_of d b) as [u|]; [|done]. simpl in *. simplify_eq. specialize (HI false eq_refl). simpl in *. lia.
    + rewrite Hput in Hv. specialize (HI _ Hv). lia.
  - rewrite !holds_other in Hc by (simpl; congruence). rewrite <- (HI d v); [lia|]. rewrite <- Hv.
    destruct h, h'; unfold sets, same_others, same_locks in Hput; symmetry; naive_solver.
Qed.

Definition whose (g : Ghost) : option Dex := fst <$> g.
Definition begin_ (o : option Dex) : Ghost := (fun d => (d, false)) <$> o.

Lemma lock_coherent b0 : coherent lock_logic whose begin_ (lock_inv b0).
Proof using Type.
  constructor; simpl; try done.
  - intros gs i g b b' g' HI Hg Hput. split; [apply Hput|]. split; [by eapply put_keeps|done].
  - intros gs i g b c r HI Hg. by rewrite list_insert_id.
  - intros gs i g b t HI Hg. by rewrite list_insert_id.
  - intros gs b o [Hex HI]. split; [done|]. intros d' v Hv. rewrite <- (HI d' v Hv). unfold holders, begin_. rewrite list.filter_app, length_app.
    rewrite filter_cons, decide_False by (destruct o; simpl; congruence). simpl. lia.
Qed.

(** A method is called, or the call awaited by activation [i] settles. *)
Inductive Event :=
| Invoke (m : Method) (now : Z)
| Settle (i : nat) (now : Z) (r : forall c, outcome (Ans c)).

(** Whose lock the method takes. *)
Definition locker (m : Method) : option Dex := if takes_lock m then Some (owner_of m) else None.

Definition world_event (e : Event) : option Dex * WEvent Bot Call Ans Task :=
  match e with
  | Invoke m now => (locker m, Begin (result_of m) (method cfg m) now)
  | Settle i now r => (None, Resume i now r)
  end.

Abbreviation BotWorld := (World Bot Call Ans Task).

Definition runWorld (b : Bot) (es : list Event) : BotWorld :=
  foldl wstep (mkWorld b []) (map world_event es).*2.

(** The method activation [i] runs, and the executor whose lock it takes. *)
Definition invoked (es : list Event) : list Method :=
  omap (fun e => match e with Invoke m _ => Some m | Settle _ _ _ => None end) es.
Definition locking (es : list Event) (i : nat) : option Dex := invoked es !! i ≫= locker.

(** The call an activation waits for. *)
Definition waiting (w : BotWorld) (i : nat) : option Call :=
  match threads w !! i with Some (Suspended A c k) => Some c | _ => None end.

Lemma begun_owners es : concat (map (fun oe => begun oe.1 oe.2) (map world_event es)) = locker <$> invoked es.
Proof using Type. induction es as [|[m now|i now r] es IH]; simpl; [done| |done]. by rewrite IH. Qed.

Lemma world_inv b es :
  (forall d, busy_of d b = false) ->
  exists gs, winv lock_logic whose begin_ (lock_inv b) (runWorld b es) gs /\ whose <$> gs = locker <$> invoked es.
Proof using Type.
  intros Hb. rewrite <- begun_owners. unfold runWorld.
  destruct (interleaving_sound lock_logic whose begin_ (fun o => ltac:(by destruct o)) (lock_inv b) (lock_coherent b) (map world_event es)
              (mkWorld b []) []) as (gs & H & Ho); [| |by exists gs].
  - split; [|constructor]. split; [done|]. intros d v Hv. simpl in Hv. specialize (Hb d). rewrite busy_lock, Hv in Hb. simpl in Hb. by subst.
  - apply Forall_map, Forall_forall. intros [m now|i now r] _; simpl; [|done]. intros gs s _. unfold locker.
    destruct (takes_lock m) eqn:Hm; simpl.
    + eapply wp_mono; [by apply method_safe|]. by intros r g s' ->.
    + eapply wp_mono; [by apply lockless|]. by intros r g s' ->.
Qed.

Lemma locking_ghost es gs i d g :
  whose <$> gs = locker <$> invoked es -> locking es i = Some d -> gs !! i = Some g -> whose g = Some d.
Proof using Type.
  intros Ho Hd Hg. unfold locking in Hd. pose proof (f_equal (.!! i) Ho) as Hi. simpl in Hi.
  rewrite !list_lookup_fmap, Hg in Hi.
  destruct (invoked es !! i) as [m|]; [|done]. simpl in *. congruence.
Qed.

Lemma waiting_holder b0 es gs w i c d :
  winv lock_logic whose begin_ (lock_inv b0) w gs -> whose <$> gs = locker <$> invoked es -> locking es i = Some d ->
  waiting w i = Some c -> writes c = true -> gs !! i = Some (Some (d, true)).
Proof using Type.
  intros [_ Hall] Ho Hd Hw Hc. unfold waiting in Hw. destruct (threads w !! i) as [[A c' k|]|] eqn:Ht; [|done..].
  injection Hw as ->. destruct (Forall2_lookup_l _ _ _ _ _ Hall Ht) as (g & Hg & Hp & _).
  pose proof (locking_ghost es gs i d g Ho Hd Hg) as Hw. destruct g as [[d' h]|]; [|done]. unfold whose in Hw. simplify_eq/=.
  by rewrite (Hp Hc) in Hg.
Qed.

Lemma holds_here d : holds d (Some (d, true)) = 1%nat.
Proof using Type. apply holds_own. Qed.
Lemma holds_not d : holds d (Some (d, false)) = 0%nat.
Proof using Type. apply holds_own. Qed.

Lemma two_holders d (gs : list Ghost) i j : gs !! i = Some (Some (d, true)) -> gs !! j = Some (Some (d, true)) -> i <> j ->
  (2 <= holders d gs)%nat.
Proof using Type.
  intros Hi Hj Hne. pose proof (holders_insert d gs i _ (Some (d, false)) Hi) as H1.
  assert (<[i := Some (d, false)]> gs !! j = Some (Some (d, true))) as Hj' by by rewrite list_lookup_insert_ne.
  pose proof (holders_insert d _ j _ (Some (d, false)) Hj') as H2. rewrite holds_here, holds_not in *. lia.
Qed.

Lemma at_rest_holders b0 es gs w d :
  winv lock_logic whose begin_ (lock_inv b0) w gs -> whose <$> gs = locker <$> invoked es ->
  (forall i, locking es i = Some d -> threads w !! i = Some Ended) -> holders d gs = 0%nat.
Proof using Type.
  intros [_ Hall] Ho Hend. destruct (holders d gs) as [|n] eqn:E; [done|]. exfalso.
  assert (Some (d, true) ∈ gs) as [i Hi]%list_elem_of_lookup.
  { unfold holders in E. destruct (filter (fun g => g = Some (d, true)) gs) as [|g l] eqn:Ef; [done|].
    assert (g ∈ filter (fun g => g = Some (d, true)) gs) as Hin by (rewrite Ef; left).
    by apply list_elem_of_filter in Hin as [-> Hin]. }
  destruct (Forall2_lookup_r _ _ _ _ _ Hall Hi) as (th & Ht & Hg).
  rewrite Hend in Ht.
  { injection Ht as <-. done. }
  pose proof (f_equal (.!! i) Ho) as Hl. simpl in Hl. rewrite list_lookup_fmap, Hi, list_lookup_fmap in Hl.
  unfold locking. destruct (invoked es !! i) as [m|]; [|done]. simpl in *. by injection Hl as <-.
Qed.

(** C2: Each executor signs and sends one thing at a time.  Call the methods of
    the five executors from an idle bot in any number and order, and let their
    calls settle in any order with any answers, errors included.  Of the
    methods of one executor - [closeOrphan], which takes no lock, aside - at
    every moment at most one activation waits for a signature or a send; the executor
    is then marked busy; and once all of them have ended its lock is free again.
    [closeOrphan] runs among them, and activations of two executors may wait at
    the same time. *)
Theorem one_sender_at_a_time b es d :
  (forall d, busy_of d b = false) -> is_Some (executor d b) ->
  let w := runWorld b es in
  (forall i j c c', locking es i = Some d -> locking es j = Some d -> waiting w i = Some c -> waiting w j = Some c' ->
     writes c = true -> writes c' = true -> i = j)
  /\ (forall i c, locking es i = Some d -> waiting w i = Some c -> writes c = true -> isBusy d (shared w) = true)
  /\ ((forall i, locking es i = Some d -> threads w !! i = Some Ended) -> isBusy d (shared w) = false).
Proof using Type.
  intros Hb Hd w. destruct (world_inv b es Hb) as (gs & Hw & Ho). fold w in Hw. pose proof Hw as [[Hex HI] _].
  destruct (Hex d) as [x Hl]; [by apply fmap_is_Some|].
  specialize (HI d _ Hl). unfold isBusy. rewrite busy_lock, Hl. simpl. split_and!.
  - intros i j c c' Hi Hj Hwi Hwj Hc Hc'. destruct (decide (i = j)) as [|Hne]; [done|].
    pose proof (two_holders d gs i j (waiting_holder _ _ _ _ _ _ _ Hw Ho Hi Hwi Hc) (waiting_holder _ _ _ _ _ _ _ Hw Ho Hj Hwj Hc') Hne).
    destruct x; lia.
  - intros i c Hi Hwi Hc. pose proof (holders_insert d gs i _ (Some (d, false)) (waiting_holder _ _ _ _ _ _ _ Hw Ho Hi Hwi Hc)) as H.
    rewrite holds_here, holds_not in H. destruct x; [done|lia].
  - intros Hend. rewrite (at_rest_holders _ es gs w d Hw Ho Hend) in HI. by destruct x.
Qed.

End Lock.

(** A close by Byreal and one by Orca, and a sale meanwhile: the two closes run
    side by side, and the sale finds Byreal's lock taken and ends; the close of an
    orphan, invoked last, does not look at it. *)
Definition four_calls : list (Event (L := Z_BN)) :=
  let ok := fun c => demo_answer (Ret "Sig"%string) (fun _ => None) c in
  Invoke (ByrealM (ManualClosePosition "OurNft")) 0 :: Invoke (OrcaM (OrcaClose "T")) 1
    :: Invoke (ByrealM (SwapTokenToUSDC "MintA" None)) 1 :: Invoke (ByrealM (CloseOrphan "U" "OtherNft")) 1
    :: map (fun i => Settle i 2 ok) [0; 0; 0; 2; 2; 0; 1; 1; 1]%nat.

Definition demo_world :=
  runWorld (W := demo_web3) (WP := OrcaOps.demo_whirlpools) (CL := ByrealAssets.demo_clmm) (CA := DammOps.demo_cpamm) demo_settings
    OrcaOps.demo_orca_bot four_calls.

Lemma one_sender_at_a_time_witness :
  (writes <$> waiting demo_world 0) = Some true /\ (writes <$> waiting demo_world 1) = Some true
  /\ isBusy Byreal (shared demo_world) = true /\ isBusy Orca (shared demo_world) = true
  /\ locking four_calls 2 = Some Byreal /\ locking four_calls 3 = None
  /\ (forall i j c c', locking four_calls i = Some Byreal -> locking four_calls j = Some Byreal ->
        waiting demo_world i = Some c -> waiting demo_world j = Some c' ->
        writes c = true -> writes c' = true -> i = j).
Proof.
  split_and!; [vm_compute; reflexivity..|].
  exact (proj1 (one_sender_at_a_time (W := demo_web3) (WP := OrcaOps.demo_whirlpools) (CL := ByrealAssets.demo_clmm) (CA := DammOps.demo_cpamm)
    demo_settings OrcaOps.demo_orca_bot four_calls Byreal ltac:(by intros []) ltac:(by eexists))).
Defined.

Definition sending (w : World Bot (Call (L := Z_BN)) Ans Task) (i : nat) : bool :=
  match waiting w i with Some (SendTransaction _) => true | _ => false end.

(** [closeOrphan] takes no lock: while the queue runs one and its transaction
    waits to be sent, a manual close of another position finds the executor
    idle, takes the lock and waits to send its own. *)
Theorem orphan_close_ignores_lock pm t n n' :
  let ok := fun c => demo_answer (Ret "Sig"%string) (fun _ => None) c in
  let settle := fun i => Resume i 0 ok in
  let w := foldl wstep (mkWorld (fresh pm) [])
             (Begin _ (Reconcile.closeOrphan (W := demo_web3) demo_settings t n) 0 :: replicate 4 (settle 0%nat)
              ++ Begin _ (manualClosePosition (W := demo_web3) demo_settings n') 0 :: replicate 4 (settle 1%nat)) in
  sending w 0 = true /\ sending w 1 = true /\ isBusy Byreal (shared w) = true.
Proof. cbv zeta. split; [|split]; vm_compute; reflexivity. Qed.

End ExecutorLock.
