(* ===== verification/Router.v ===== *)
(** * The event router ([src/index.ts], [handleEvent])

    What the bot does with each parsed event: one definition per arm of the
    switch, with its guards in the order of the code, the executor calls, the
    activity entries and the cache invalidations.  A handler runs in [M]: the
    state of the bot, the trace of what it did, and exceptions.

    The executors' asynchronous operations are the interface [Executors]: each
    takes the state of the bot and returns a result (or throws) with a new
    state.  A client of the interface knows nothing of them, so an operation
    may fail, skip, or change any part of the state, which also covers what
    other tasks do while the handler awaits it.  The synchronous methods the
    router calls ([hasMapping], the risk rules, the referer rule,
    [recordBotCloseReceived]) are the definitions of the other files.  Log
    lines and timestamps of entries are left out. *)

From S2P Require Import Prelude JsMap JsString JsNumber Ratio TxTypes WriteChain PositionMap Store Stores Risk PumpPending ActivityLog State.
Open Scope Z_scope.
Open Scope list_scope.

Module Router.
Import State.

(** The configuration the router reads. *)
Record Config := mkConfig {
  closeOnlyWallets : Dex -> list string;
  dexAmountRatios : Dex -> list (string * num);   (** [walletAmountRatios] for Byreal *)
  amountRatio : num;
  byrealRisk : Risk.config;
  pcsRisk : Risk.config;                          (** the same lists with [pcsSkipSol] *)
  dup : OpenedReferers.DupConfig;
}.

(** ** Executor operations *)

Inductive Call :=
| CopyOpen (d : Dex) (position poolId : string) (referer : option string) (w : string)
| CopyIncrease (d : Dex) (position w : string)
| CopyDecrease (d : Dex) (position : string)
| CopyClose (d : Dex) (position : string)
| CopyClaimFee (position : string)
| SwapTokenToUSDC (inputMint maxAmountRaw : string).

Record DecreaseResult := mkDecrease { d_txSig : string; d_type : string }.
Record SwapResult := mkSwapResult { sig : string; amountRaw : string; outputRaw : option string }.

Class Executors := {
  (** [copyOpenPosition], [copyIncreaseLiquidity]/[copyAddLiquidity],
      [copyClosePosition], [copyClaimFee]: a signature or null *)
  run_sig : Call -> Bot -> outcome (option string) * Bot;
  (** [copyDecreaseLiquidity]/[copyRemoveLiquidity] *)
  run_decrease : Call -> Bot -> outcome (option DecreaseResult) * Bot;
  run_swap : Call -> Bot -> outcome (option SwapResult) * Bot;
}.

(** What a handler did, in order. *)
Inductive Act :=
| ACall (c : Call)
| APush (e : ActivityLog.EventLogEntry)
| APushSwap (e : ActivityLog.SwapHistoryEntry)
| ARecordReceived (rs : list Received)
| AInvalidateCaches
| ARefreshSolPrice
| AFetchPnl (pool ourNft : string).

Definition M (A : Type) : Type := Bot -> outcome A * Bot * list Act.

Definition ret {A} (a : A) : M A := fun b => (Ret a, b, []).
Definition bind {A B} (m : M A) (k : A -> M B) : M B := fun b =>
  match m b with
  | (Ret a, b', tr) => let '(r, b'', tr') := k a b' in (r, b'', tr ++ tr')
  | (Throw e, b', tr) => (Throw e, b', tr)
  end.

Declare Scope router_scope.
Notation "x <-- m ;; k" := (bind m (fun x => k)) (at level 100, m at next level, right associativity)
  : router_scope.
Notation "m ;;; k" := (bind m (fun _ => k)) (at level 100, right associativity) : router_scope.
Open Scope router_scope.

Definition reads {A} (f : Bot -> A) : M A := fun b => (Ret (f b), b, []).
Definition update (f : Bot -> Bot) : M unit := fun b => (Ret tt, f b, []).
Definition act (a : Act) : M unit := fun b => (Ret tt, b, [a]).
Definition lift {A} (o : outcome A) : M A := fun b => (o, b, []).

Section Router.
Context `{L : BNLib} `{E : Executors} (cfg : Config).

Definition call_sig (c : Call) : M (option string) :=
  act (ACall c) ;;; fun b => let (r, b') := run_sig c b in (r, b', []).
Definition call_decrease (c : Call) : M (option DecreaseResult) :=
  act (ACall c) ;;; fun b => let (r, b') := run_decrease c b in (r, b', []).
Definition call_swap (c : Call) : M (option SwapResult) :=
  act (ACall c) ;;; fun b => let (r, b') := run_swap c b in (r, b', []).

(** [eventDex], the tag of the activity entries *)
Definition eventDex (e : ParsedEvent) : option string :=
  match event_dex e with
  | Some DammV2 => Some "dammv2"%string
  | Some Orca => Some "orca"%string
  | Some Meteora => Some "meteora"%string
  | Some Pcs => Some "pancakeswap"%string
  | Some Byreal => Some "byreal"%string
  | None => None
  end.

(** ** Activity entries *)

(** [push]: the local wrapper of [pushEvent] that tags the exchange. *)
Definition push (dex : option string) (entry : ActivityLog.EventLogEntry) : M unit :=
  act (APush (ActivityLog.tag dex entry)) ;;;
  update (fun b => set_activity (ActivityLog.pushEvent entry dex (activity b)) b).

Definition entry (type : string) (w : string) (nft txSig : option string) (success : bool)
    (error pool : option string) : ActivityLog.EventLogEntry :=
  ActivityLog.mkEvent 0 type w nft None txSig success error pool None.

(** The SKIP entries: [success] is true and the reason is in [error]. *)
Definition skip (dex : option string) (w nft reason : string) (pool : option string) : M unit :=
  push dex (entry "SKIP" w (Some nft) None true (Some reason) pool).

(** [txSig: sig || undefined, success: !!sig] *)
Definition orUndefined (s : option string) : option string := if truthy s then s else None.

Definition report (dex : option string) (type w nft : string) (s pool : option string) : M unit :=
  push dex (entry type w (Some nft) (orUndefined s) (truthy s) None pool).

Definition reportDecrease (dex : option string) (w nft : string) (r : option DecreaseResult) : M unit :=
  let ty := or_else (d_type <$> r) "DECREASE"%string in
  push dex (entry ty w (Some nft) (orUndefined (d_txSig <$> r)) (bool_decide (is_Some r)) None None).

(** Read and clear [lastSkipReason]. *)
Definition takeSkipReason (d : Dex) : M (option string) :=
  r <-- reads (fun b => executor d b ≫= lastSkipReason) ;;
  update (on_executor d (with_lastSkipReason None)) ;;;
  ret r.

Definition hasMapping (nft : string) : M bool := reads (fun b => PositionMap.hasMapping nft (positionMap b)).
Definition getPool (nft : string) : M (option string) := reads (fun b => PositionMap.getPool nft (positionMap b)).
Definition isCloseOnly (d : Dex) (w : string) : bool := shas w (closeOnlyWallets cfg d).

(** Risk checks; asking about the cooldown can drop an expired one. *)
Definition isTokenCoolingDown (now : Z) (pool : string) : M bool := fun b =>
  let (r, s) := Risk.isTokenCoolingDown now pool (risk b) in (Ret r, set_risk s b, []).

(** The mints of a pool: the executor's cache, else the parser's, which is
    then cached. *)
Definition resolvePoolMints (d : Dex) (poolId : string) (poolMints : option string) : M (option string) :=
  cached <-- reads (fun b => executor d b ≫= fun x => jget poolId (poolIdToMints x)) ;;
  if truthy cached then ret cached
  else match poolMints with
       | Some ms =>
           if truthy ms then
             update (on_executor d (with_poolIdToMints poolId ms)) ;;;
             ret (Some ms)
           else ret cached
       | None => ret cached
       end.

(** ** Tokens received from a target's close
    ([recordBotCloseReceived], [src/executor/byreal-position.ts]) *)

Definition STABLE_OR_SOL : list string :=
  ["EPjFWdd5AufqSSqeM2qN1xzybapC8G4wEGGkZwyTDt1v"; "Es9vMFrzaCERmKfrE1SBVYuL9sSMdCL3DscMVPR1YnG5";
   "Es9vMFrzaCERmJfrF4H2FYD4KCoNkY11McCe8BenwNYB"; "So11111111111111111111111111111111111111112"]%string.

(** A throw stops the loop; the credits before it stay. *)
Fixpoint creditReceived (now : Z) (rs : list Received) (s : PendingSwaps.pstore)
  : outcome unit * PendingSwaps.pstore :=
  match rs with
  | [] => (Ret tt, s)
  | r :: rs' =>
      if shas (rec_mint r) STABLE_OR_SOL then creditReceived now rs' s
      else
        match (let! bn := bn_of_string (rec_amount r) in
               let! zero := bn_of_int (Some 0) in
               if negb (bn_gt bn zero) then Ret s
               else let! p := PendingSwaps.addBotReceived now (rec_mint r) bn s in Ret p.2) with
        | Ret s' => creditReceived now rs' s'
        | Throw e => (Throw e, s)
        end
  end.

Definition recordBotCloseReceived (now : Z) (rs : list Received) : M unit :=
  act (ARecordReceived rs) ;;;
  fun b => let (r, p) := creditReceived now rs (pendingSwaps b) in (r, set_pending p b, []).

(** Called after a successful copy. *)
Definition invalidate : M unit := act AInvalidateCaches.
Definition refreshAndInvalidate : M unit := act ARefreshSolPrice ;;; invalidate.
Definition when (c : bool) (m : M unit) : M unit := if c then m else ret tt.

(** ** The arms of the switch *)

Section Arms.
Context (now : Z) (w : string).

(** [if (!xExecutor) break;] *)
Definition ifEnabled (d : Dex) (k : Executor -> M unit) : M unit :=
  x <-- reads (executor d) ;;
  match x with Some x => k x | None => ret tt end.

Definition USDC_MINT : string := "EPjFWdd5AufqSSqeM2qN1xzybapC8G4wEGGkZwyTDt1v".

(** The first ratio set for the wallet, in the order of the code. *)
Definition walletRatio : num :=
  let r d := jget w (dexAmountRatios cfg d) in
  match r Orca with Some x => x | None =>
  match r Meteora with Some x => x | None =>
  match r Pcs with Some x => x | None =>
  match r DammV2 with Some x => x | None =>
  match r Byreal with Some x => x | None => amountRatio cfg end end end end end.

Definition on_jupiter_swap (s : SwapInfo) : M unit :=
  if bool_decide (outputMint s = USDC_MINT) then
    cap <-- lift (Ratio.computeSwapCapRaw (Some (inputAmountRaw s)) walletRatio) ;;
    match cap with
    | None => ret tt
    | Some maxAmountRaw =>
        result <-- call_swap (SwapTokenToUSDC (inputMint s) maxAmountRaw) ;;
        match result with
        | None => ret tt
        | Some r =>
            push None (entry "SWAP" w None (Some (sig r)) true None
                         (Some (inputMint s +:+ "/" +:+ USDC_MINT)%string)) ;;;
            (let e := ActivityLog.mkSwapEntry 0 (inputMint s) (sig r) (Some (amountRaw r)) None (outputRaw r) in
             act (APushSwap e) ;;;
             update (fun b => set_activity (ActivityLog.pushSwap e (activity b)) b)) ;;;
            invalidate
        end
    end
  else ret tt.

Definition onlyIf (pools : option string) (check : string -> M bool) : M bool :=
  match pools with
  | Some p => if truthy p then check p else ret false
  | None => ret false
  end.

Definition on_byreal_open (dex : option string) (o : ClmmOpen) : M unit :=
  let nft := openNftMint o in
  x <-- reads byrealExecutor ;;
  if solPaused x then skip dex w nft "SOL 不足" None
  else if drawdownPaused x then skip dex w nft "資產跌幅暫停" None
  else if isCloseOnly Byreal w then skip dex w nft "close-only" None
  else
    openPoolMints <-- resolvePoolMints Byreal (poolId o) (openPoolMints o) ;;
    cooling <-- onlyIf openPoolMints (isTokenCoolingDown now) ;;
    if cooling then skip dex w nft "代幣冷靜期" openPoolMints
    else
      blacklisted <-- onlyIf openPoolMints (fun p => ret (Risk.isTokenBlacklisted (byrealRisk cfg) p)) ;;
      if blacklisted then skip dex w nft "黑名單代幣" openPoolMints
      else
        mapped <-- hasMapping nft ;;
        if mapped then skip dex w nft "重複目標" None
        else
          duplicate <-- reads (fun b =>
            OpenedReferers.isRefererDuplicate (dup cfg) (referers b) (refererPosition o) w) ;;
          if duplicate then skip dex w nft "重複來源" None
          else
            ourSig <-- call_sig (CopyOpen Byreal nft (poolId o) (refererPosition o) w) ;;
            skipReason <-- takeSkipReason Byreal ;;
            pool <-- getPool nft ;;
            match ourSig, skipReason with
            | None, Some reason =>
                if truthy reason then skip dex w nft reason pool
                else report dex "OPEN" w nft ourSig pool ;;; when (truthy ourSig) refreshAndInvalidate
            | _, _ => report dex "OPEN" w nft ourSig pool ;;; when (truthy ourSig) refreshAndInvalidate
            end.

Definition on_byreal_increase (dex : option string) (nft : string) : M unit :=
  x <-- reads byrealExecutor ;;
  if solPaused x then skip dex w nft "SOL 不足" None
  else if drawdownPaused x then skip dex w nft "資產跌幅暫停" None
  else if isCloseOnly Byreal w then skip dex w nft "close-only" None
  else
    increasePool <-- getPool nft ;;
    blacklisted <-- onlyIf increasePool (fun p => ret (Risk.isTokenBlacklisted (byrealRisk cfg) p)) ;;
    if blacklisted then skip dex w nft "黑名單代幣" increasePool
    else
      mapped <-- hasMapping nft ;;
      if negb mapped then skip dex w nft "無映射" None
      else
        ourSig <-- call_sig (CopyIncrease Byreal nft w) ;;
        report dex "INCREASE" w nft ourSig None ;;;
        when (truthy ourSig) invalidate.

(** The decrease arms differ in the exchange and in the skip text only. *)
Definition decrease_arm (d : Dex) (noMapping : string) (dex : option string) (nft : string) : M unit :=
  mapped <-- hasMapping nft ;;
  if negb mapped then skip dex w nft noMapping None
  else
    result <-- call_decrease (CopyDecrease d nft) ;;
    reportDecrease dex w nft result ;;;
    when (bool_decide (is_Some result)) invalidate.

Definition on_byreal_decrease := decrease_arm Byreal "無映射".

Definition on_byreal_close (dex : option string) (nft : string) (rs : list Received) : M unit :=
  recordBotCloseReceived now rs ;;;
  mapped <-- hasMapping nft ;;
  if negb mapped then skip dex w nft "無映射" None
  else
    closePool <-- getPool nft ;;
    closeOurNft <-- reads (fun b => PositionMap.get nft (positionMap b)) ;;
    ourSig <-- call_sig (CopyClose Byreal nft) ;;
    report dex "CLOSE" w nft ourSig closePool ;;;
    when (truthy ourSig)
      (refreshAndInvalidate ;;;
       match closePool, closeOurNft with
       | Some p, Some n => when (truthy p && truthy n) (act (AFetchPnl p n))
       | _, _ => ret tt
       end).

(** The pause guard the four other exchanges share. *)
Definition pauseReason (x : Executor) : string := if solPaused x then "SOL 不足" else "資產跌幅暫停".

(** The end of an open: an intentional skip, or the report. *)
Definition finish_open (dex : option string) (prefix nft : string) (ourSig skipReason : option string)
    (skipPool openPool : M (option string)) : M unit :=
  if negb (bool_decide (is_Some ourSig)) && truthy skipReason then
    p <-- skipPool ;;
    skip dex w nft (prefix +:+ default "" skipReason)%string p
  else
    p <-- openPool ;;
    report dex "OPEN" w nft ourSig p ;;;
    when (truthy ourSig) refreshAndInvalidate.

(** The guards and the call of an open on Orca, Meteora and DAMM v2. *)
Definition open_arm (d : Dex) (name pos pool : string) (dex : option string)
    (skipPool openPool : M (option string)) : M unit :=
  ifEnabled d (fun x =>
    if drawdownPaused x || solPaused x then skip dex w pos (name +:+ ": " +:+ pauseReason x)%string None
    else if isCloseOnly d w then skip dex w pos (name +:+ " close-only")%string None
    else
      mapped <-- hasMapping pos ;;
      if mapped then skip dex w pos (name +:+ " 重複目標")%string None
      else
        ourSig <-- call_sig (CopyOpen d pos pool None w) ;;
        skipReason <-- takeSkipReason d ;;
        finish_open dex (name +:+ ": ")%string pos ourSig skipReason skipPool openPool).

Definition on_orca_open (dex : option string) (pos pool : string) (poolMints : option string) : M unit :=
  open_arm Orca "Orca" pos pool dex (ret poolMints)
    (if truthy poolMints then ret poolMints else getPool pos).

Definition on_meteora_open (dex : option string) (pos pool : string) : M unit :=
  open_arm Meteora "Meteora" pos pool dex (ret None) (getPool pos).

Definition on_dammv2_open (dex : option string) (pos pool : string) : M unit :=
  open_arm DammV2 "DAMMV2" pos pool dex (ret None) (getPool pos).

Definition on_pcs_open (dex : option string) (o : ClmmOpen) : M unit :=
  let nft := openNftMint o in
  ifEnabled Pcs (fun x =>
    if drawdownPaused x || solPaused x then skip dex w nft ("PCS: " +:+ pauseReason x)%string None
    else if isCloseOnly Pcs w then skip dex w nft "PCS close-only" None
    else
      openPoolMints <-- resolvePoolMints Pcs (poolId o) (openPoolMints o) ;;
      blacklisted <-- onlyIf openPoolMints (fun p => ret (Risk.isTokenBlacklisted (pcsRisk cfg) p)) ;;
      if blacklisted then skip dex w nft "PCS 黑名單代幣" openPoolMints
      else
        cooling <-- onlyIf openPoolMints (isTokenCoolingDown now) ;;
        if cooling then skip dex w nft "PCS 代幣冷靜期" openPoolMints
        else
          mapped <-- hasMapping nft ;;
          if mapped then skip dex w nft "PCS 重複目標" None
          else
            ourSig <-- call_sig (CopyOpen Pcs nft (poolId o) (refererPosition o) w) ;;
            skipReason <-- takeSkipReason Pcs ;;
            finish_open dex "PCS: " nft ourSig skipReason (getPool nft) (getPool nft)).

(** The increase arms of the four other exchanges; a close-only target is
    skipped without an entry. *)
Definition increase_arm (d : Dex) (name : string) (dex : option string) (pos : string) : M unit :=
  ifEnabled d (fun x =>
    if solPaused x || drawdownPaused x then skip dex w pos (name +:+ " paused")%string None
    else if isCloseOnly d w then ret tt
    else
      mapped <-- hasMapping pos ;;
      if negb mapped then skip dex w pos (name +:+ " 無映射")%string None
      else
        ourSig <-- call_sig (CopyIncrease d pos w) ;;
        report dex "INCREASE" w pos ourSig None ;;;
        when (truthy ourSig) invalidate).

Definition on_orca_increase := increase_arm Orca "Orca".
Definition on_meteora_add := increase_arm Meteora "Meteora".
Definition on_pcs_increase := increase_arm Pcs "PCS".
Definition on_dammv2_add := increase_arm DammV2 "DAMMV2".

Definition on_orca_decrease (dex : option string) (pos : string) : M unit :=
  ifEnabled Orca (fun _ => decrease_arm Orca "Orca 無映射" dex pos).
Definition on_meteora_remove (dex : option string) (pos : string) : M unit :=
  ifEnabled Meteora (fun _ => decrease_arm Meteora "Meteora 無映射" dex pos).
Definition on_pcs_decrease (dex : option string) (pos : string) : M unit :=
  ifEnabled Pcs (fun _ => decrease_arm Pcs "PCS 無映射" dex pos).
Definition on_dammv2_remove (dex : option string) (pos : string) : M unit :=
  ifEnabled DammV2 (fun _ => decrease_arm DammV2 "DAMMV2 無映射" dex pos).

(** The close arms of Orca, PancakeSwap and DAMM v2. *)
Definition close_arm (d : Dex) (name : string) (dex : option string) (pos : string) (rs : list Received)
  : M unit :=
  ifEnabled d (fun _ =>
    recordBotCloseReceived now rs ;;;
    mapped <-- hasMapping pos ;;
    if negb mapped then skip dex w pos (name +:+ " 無映射")%string None
    else
      closePool <-- getPool pos ;;
      ourSig <-- call_sig (CopyClose d pos) ;;
      report dex "CLOSE" w pos ourSig closePool ;;;
      when (truthy ourSig) refreshAndInvalidate).

Definition on_orca_close := close_arm Orca "Orca".
Definition on_pcs_close := close_arm Pcs "PCS".
Definition on_dammv2_close := close_arm DammV2 "DAMMV2".

(** Meteora's close can be an intentional skip. *)
Definition on_meteora_close (dex : option string) (pos : string) (rs : list Received) : M unit :=
  ifEnabled Meteora (fun _ =>
    recordBotCloseReceived now rs ;;;
    mapped <-- hasMapping pos ;;
    if negb mapped then skip dex w pos "Meteora 無映射" None
    else
      closePool <-- getPool pos ;;
      ourSig <-- call_sig (CopyClose Meteora pos) ;;
      skipReason <-- takeSkipReason Meteora ;;
      if negb (bool_decide (is_Some ourSig)) && truthy skipReason then
        skip dex w pos ("Meteora: " +:+ default "" skipReason)%string None
      else
        report dex "CLOSE" w pos ourSig closePool ;;;
        when (truthy ourSig) refreshAndInvalidate).

Definition on_dammv2_claim (dex : option string) (pos : string) : M unit :=
  ifEnabled DammV2 (fun _ =>
    mapped <-- hasMapping pos ;;
    if negb mapped then skip dex w pos "DAMMV2 無映射" None
    else
      ourSig <-- call_sig (CopyClaimFee pos) ;;
      when (truthy ourSig) invalidate).

Definition handleEvent (e : ParsedEvent) : M unit :=
  let dex := eventDex e in
  match e with
  | JUPITER_SWAP s => on_jupiter_swap s
  | BYREAL_OPEN_POSITION o => on_byreal_open dex o
  | BYREAL_INCREASE_LIQUIDITY p => on_byreal_increase dex p
  | BYREAL_DECREASE_LIQUIDITY p _ => on_byreal_decrease dex p
  | BYREAL_CLOSE_POSITION p rs => on_byreal_close dex p rs
  | BYREAL_COLLECT_FEES _ => ret tt
  | ORCA_OPEN_POSITION pool _ _ p ms => on_orca_open dex p pool ms
  | ORCA_INCREASE_LIQUIDITY p => on_orca_increase dex p
  | ORCA_DECREASE_LIQUIDITY p => on_orca_decrease dex p
  | ORCA_CLOSE_POSITION p rs => on_orca_close dex p rs
  | METEORA_OPEN_POSITION pool _ _ p => on_meteora_open dex p pool
  | METEORA_ADD_LIQUIDITY p => on_meteora_add dex p
  | METEORA_REMOVE_LIQUIDITY p => on_meteora_remove dex p
  | METEORA_CLOSE_POSITION p rs => on_meteora_close dex p rs
  | PCS_OPEN_POSITION o => on_pcs_open dex o
  | PCS_INCREASE_LIQUIDITY p => on_pcs_increase dex p
  | PCS_DECREASE_LIQUIDITY p _ => on_pcs_decrease dex p
  | PCS_CLOSE_POSITION p rs => on_pcs_close dex p rs
  | PCS_COLLECT_FEES _ => ret tt
  | DAMMV2_OPEN_POSITION pool p => on_dammv2_open dex p pool
  | DAMMV2_ADD_LIQUIDITY p => on_dammv2_add dex p
  | DAMMV2_REMOVE_LIQUIDITY p => on_dammv2_remove dex p
  | DAMMV2_CLOSE_POSITION p rs => on_dammv2_close dex p rs
  | DAMMV2_CLAIM_FEE p => on_dammv2_claim dex p
  | UNKNOWN => ret tt
  end.

(** The loop of the queued closure; a throw ends it and is logged. *)
Fixpoint handleEvents (es : list ParsedEvent) : M unit :=
  match es with
  | [] => ret tt
  | e :: es' => handleEvent e ;;; handleEvents es'
  end.

(** ** Reasoning about handlers

    [wp m b Q]: running [m] from [b] ends in a result, a state and a trace that
    satisfy [Q]. *)

Definition wp {A} (m : M A) (b : Bot) (Q : outcome A -> Bot -> list Act -> Prop) : Prop :=
  let '(r, b', tr) := m b in Q r b' tr.

Lemma arm_wp_bind {A B} (m : M A) (k : A -> M B) b Q :
  wp m b (fun r b' tr =>
    match r with
    | Ret a => wp (k a) b' (fun r2 b2 tr2 => Q r2 b2 (tr ++ tr2))
    | Throw e => Q (Throw e) b' tr
    end) -> wp (bind m k) b Q.
Proof using Type.
  unfold wp, bind. destruct (m b) as [[[a|e] b'] tr]; [|done].
  by destruct (k a b') as [[r2 b2] tr2].
Qed.

Lemma wp_ret {A} (a : A) b Q : Q (Ret a) b [] -> wp (ret a) b Q.
Proof using Type. done. Qed.
Lemma wp_reads {A} (f : Bot -> A) b Q : Q (Ret (f b)) b [] -> wp (reads f) b Q.
Proof using Type. done. Qed.
Lemma wp_act a b Q : Q (Ret tt) b [a] -> wp (act a) b Q.
Proof using Type. done. Qed.
Lemma wp_update f b Q : Q (Ret tt) (f b) [] -> wp (update f) b Q.
Proof using Type. done. Qed.

Lemma wp_lift {A} (o : outcome A) b Q : Q o b [] -> wp (lift o) b Q.
Proof using Type. done. Qed.

Lemma wp_call_sig c b Q : (forall r b', Q r b' [ACall c]) -> wp (call_sig c) b Q.
Proof using Type. intros H. unfold wp, call_sig, bind, act. destruct (run_sig c b). apply H. Qed.
Lemma wp_call_decrease c b Q : (forall r b', Q r b' [ACall c]) -> wp (call_decrease c) b Q.
Proof using Type. intros H. unfold wp, call_decrease, bind, act. destruct (run_decrease c b). apply H. Qed.
Lemma wp_call_swap c b Q : (forall r b', Q r b' [ACall c]) -> wp (call_swap c) b Q.
Proof using Type. intros H. unfold wp, call_swap, bind, act. destruct (run_swap c b). apply H. Qed.

Lemma wp_push dex en b Q :
  (forall b', Q (Ret tt) b' [APush (ActivityLog.tag dex en)]) -> wp (push dex en) b Q.
Proof using Type. intros H. apply H. Qed.

Lemma wp_takeSkipReason d b Q :
  (forall r b', positionMap b' = positionMap b -> Q (Ret r) b' []) -> wp (takeSkipReason d) b Q.
Proof using Type.
  intros H. unfold wp, takeSkipReason, bind, reads, update, ret. simpl. apply H.
  apply on_executor_positionMap.
Qed.

Lemma wp_record rs b Q :
  (forall r b', positionMap b' = positionMap b -> Q r b' [ARecordReceived rs]) ->
  wp (recordBotCloseReceived now rs) b Q.
Proof using Type.
  intros H. unfold wp, recordBotCloseReceived, bind, act.
  destruct (creditReceived now rs (pendingSwaps b)) as [[u|e] p]; by apply H.
Qed.

Lemma wp_record_ok rs b Q s :
  creditReceived now rs (pendingSwaps b) = (Ret tt, s) ->
  (forall b', positionMap b' = positionMap b -> Q (Ret tt) b' [ARecordReceived rs]) ->
  wp (recordBotCloseReceived now rs) b Q.
Proof using Type. intros Hs H. unfold wp, recordBotCloseReceived, bind, act. rewrite Hs. by apply H. Qed.

(** The mints an open is judged by. *)
Definition pool_mints (d : Dex) (poolId : string) (poolMints : option string) (b : Bot) : option string :=
  let cached := executor d b ≫= fun x => jget poolId (poolIdToMints x) in
  if truthy cached then cached else if truthy poolMints then poolMints else cached.

Lemma wp_resolve d pid ms b Q :
  (forall b', positionMap b' = positionMap b -> risk b' = risk b -> referers b' = referers b ->
     Q (Ret (pool_mints d pid ms b)) b' []) ->
  wp (resolvePoolMints d pid ms) b Q.
Proof using Type.
  intros H. unfold wp, resolvePoolMints, bind, reads, ret, update, pool_mints in *. simpl.
  destruct (truthy (executor d b ≫= _)) eqn:Ec; simpl; [by apply H|].
  destruct ms as [m|]; simpl in *; [|by apply H].
  change (truthy (Some m)) with (truthy m) in H.
  destruct (truthy m) eqn:Em; simpl; [|by apply H].
  apply H; [apply on_executor_positionMap|apply on_executor_risk|apply on_executor_referers].
Qed.

Lemma wp_cooling p b Q :
  (forall b', positionMap b' = positionMap b -> referers b' = referers b ->
     Q (Ret (Risk.isTokenCoolingDown now p (risk b)).1) b' []) ->
  wp (isTokenCoolingDown now p) b Q.
Proof using Type.
  intros H. unfold wp, isTokenCoolingDown. destruct (Risk.isTokenCoolingDown now p (risk b)) as [r s] eqn:Ecool.
  by apply H.
Qed.

(** ** What the router may ask of the executors *)

Definition calls (tr : list Act) : list Call :=
  omap (fun a => match a with ACall c => Some c | _ => None end) tr.
Definition pushes (tr : list Act) : list ActivityLog.EventLogEntry :=
  omap (fun a => match a with APush e => Some e | _ => None end) tr.

(** The pool of an open: neither side blacklisted, the token not cooling. *)
Definition pool_ok (c : Risk.config) (b : Bot) (mints : option string) : Prop :=
  match mints with
  | Some p => truthy p = true ->
      Risk.isTokenBlacklisted c p = false /\ (Risk.isTokenCoolingDown now p (risk b)).1 = false
  | None => True
  end.

(** The executor is enabled and not paused, and the wallet is not close-only. *)
Definition may_grow (d : Dex) (b : Bot) : Prop :=
  exists x, executor d b = Some x /\ solPaused x = false /\ drawdownPaused x = false
    /\ isCloseOnly d w = false.

Definition mapped_in (b : Bot) (nft : string) : Prop :=
  PositionMap.hasMapping nft (positionMap b) = true.

(** When the router may make a call for the event [e] in the state [b]. *)
Definition allowed (e : ParsedEvent) (b : Bot) (c : Call) : Prop :=
  match c with
  | CopyOpen d pos pid ref wl =>
      event_dex e = Some d /\ opens e = Some pos /\ wl = w /\ may_grow d b /\ ~ mapped_in b pos
      /\ match e with
         | BYREAL_OPEN_POSITION o =>
             pool_ok (byrealRisk cfg) b (pool_mints Byreal (poolId o) (openPoolMints o) b)
             /\ OpenedReferers.isRefererDuplicate (dup cfg) (referers b) (refererPosition o) w = false
         | PCS_OPEN_POSITION o => pool_ok (pcsRisk cfg) b (pool_mints Pcs (poolId o) (openPoolMints o) b)
         | _ => True
         end
  | CopyIncrease d pos wl =>
      event_dex e = Some d /\ wl = w /\ may_grow d b /\ mapped_in b pos
      /\ (d = Byreal -> forall p, PositionMap.getPool pos (positionMap b) = Some p -> truthy p = true ->
            Risk.isTokenBlacklisted (byrealRisk cfg) p = false)
  | CopyDecrease d pos => event_dex e = Some d /\ is_Some (executor d b) /\ mapped_in b pos /\ closes e = None
  | CopyClose d pos =>
      event_dex e = Some d /\ is_Some (executor d b) /\ mapped_in b pos /\ fst <$> closes e = Some pos
  | CopyClaimFee pos => event_dex e = Some DammV2 /\ mapped_in b pos
  | SwapTokenToUSDC m cap =>
      exists s, e = JUPITER_SWAP s /\ m = inputMint s /\ outputMint s = USDC_MINT
        /\ Ratio.computeSwapCapRaw (Some (inputAmountRaw s)) walletRatio = Ret (Some cap)
  end.

Definition act_ok (e : ParsedEvent) (b : Bot) (a : Act) : Prop :=
  match a with
  | ACall c => allowed e b c
  | APush en =>
      ActivityLog.targetWallet en = w /\ ActivityLog.dex en = eventDex e
      /\ (ActivityLog.type en = "SKIP"%string -> ActivityLog.success en = true)
      /\ (is_Some (ActivityLog.error en) -> ActivityLog.type en = "SKIP"%string)
  | _ => True
  end.

(** The discipline of one event: allowed calls, at most one of them, at most
    one activity entry, and failures reported only for calls made. *)
Definition disciplined (e : ParsedEvent) (b : Bot) (tr : list Act) : Prop :=
  Forall (act_ok e b) tr /\ (length (calls tr) <= 1)%nat /\ (length (pushes tr) <= 1)%nat
  /\ Forall (fun en => ActivityLog.success en = false -> calls tr <> []) (pushes tr).

(** One step of the symbolic execution of a handler. *)
Ltac wp_step :=
  lazymatch goal with
  | |- wp (bind _ _) _ _ => apply arm_wp_bind; cbv beta iota
  | |- wp (ret _) _ _ => apply wp_ret; cbv beta iota
  | |- wp (reads _) _ _ => apply wp_reads; cbv beta iota
  | |- wp (act _) _ _ => apply wp_act; cbv beta iota
  | |- wp (update _) _ _ => apply wp_update; cbv beta iota
  | |- wp (lift ?o) _ _ => apply wp_lift; destruct o as [?|?] eqn:?; cbv beta iota
  | |- wp (call_sig _) _ _ => apply wp_call_sig; intros [?|?] ?; cbv beta iota
  | |- wp (call_decrease _) _ _ => apply wp_call_decrease; intros [?|?] ?; cbv beta iota
  | |- wp (call_swap _) _ _ => apply wp_call_swap; intros [?|?] ?; cbv beta iota
  | |- wp (push _ _) _ _ => apply wp_push; intros ?; cbv beta iota
  | |- wp (takeSkipReason _) _ _ => apply wp_takeSkipReason; intros ? ? ?; cbv beta iota
  | |- wp (recordBotCloseReceived _ _) _ _ => apply wp_record; intros [?|?] ? ?; cbv beta iota
  | |- wp (resolvePoolMints _ _ _) _ _ => apply wp_resolve; intros ? ? ? ?; cbv beta iota
  | |- wp (isTokenCoolingDown _ _) _ _ => apply wp_cooling; intros ? ? ?; cbv beta iota
  | |- wp (if ?c then _ else _) _ _ => destruct c eqn:?
  | |- wp (match ?x with _ => _ end) _ _ => destruct x eqn:?
  | |- wp (fun _ => _) _ _ => unfold wp; cbv beta iota
  | |- wp (?f _ _ _ _ _ _ _) _ _ => unfold f
  | |- wp (?f _ _ _ _ _ _) _ _ => unfold f
  | |- wp (?f _ _ _ _ _) _ _ => unfold f
  | |- wp (?f _ _ _ _) _ _ => unfold f
  | |- wp (?f _ _ _) _ _ => unfold f
  | |- wp (?f _ _) _ _ => unfold f
  | |- wp (?f _) _ _ => unfold f
  | |- wp ?f _ _ => unfold f
  end.

(** Closing the obligations of a path. *)
Ltac close_path :=
  lazymatch goal with
  | |- may_grow _ _ => eexists; split_and!; (reflexivity || eassumption)
  | |- mapped_in _ _ => unfold mapped_in; congruence
  | |- ~ mapped_in _ _ => unfold mapped_in; congruence
  | |- OpenedReferers.isRefererDuplicate _ _ _ _ = _ => congruence
  | |- pool_ok _ _ ?ms =>
      unfold pool_ok; destruct ms; simplify_eq/=; try done; try (intros ?; split; congruence)
  | |- _ = _ -> forall p, _ -> _ => intros _ ? ? ?; simplify_eq/=; congruence
  | H : ~ is_Some ?a |- or_else (_ <$> ?a) _ = _ -> _ => destruct a; [destruct H; eauto | done]
  | |- exists s, _ => eexists; by split_and!
  | |- is_Some _ -> _ => by intros [? [=]]
  | |- _ => idtac
  end.

Lemma handleEvent_disciplined e b : wp (handleEvent e) b (fun r b' tr => disciplined e b tr).
Proof using Type.
  destruct e; unfold handleEvent; cbn [eventDex event_dex].
  all: repeat wp_step.
  all: unfold disciplined; simpl; split_and!; try lia.
  all: repeat constructor; simpl; try done.
  all: boolP; simplify_eq/=; try done; close_path.
Qed.

(** C1: Whatever the executors do, one event makes at most one executor call
    and writes at most one activity entry, tagged with the event's exchange
    and wallet; a failed entry appears only after a call.  An open or an
    increase is asked for only on an enabled exchange that is not paused, for
    a wallet that is not close-only, with the position unmapped (open) or
    mapped (increase), never for a blacklisted or cooling token nor a duplicate
    referer; closes and decreases only for mapped positions; a sale to USDC
    only with a computed cap. *)
Theorem router_discipline e b r b' tr :
  handleEvent e b = (r, b', tr) -> disciplined e b tr.
Proof using Type. intros H. pose proof (handleEvent_disciplined e b) as D. unfold wp in D. by rewrite H in D. Qed.

(** ** Closes always go through *)

Lemma handleEvent_close e b d p rs :
  closes e = Some (p, rs) -> event_dex e = Some d -> is_Some (executor d b) ->
  (exists s, creditReceived now rs (pendingSwaps b) = (Ret tt, s)) ->
  mapped_in b p ->
  wp (handleEvent e) b (fun _ _ tr =>
    exists rest, tr = ARecordReceived rs :: ACall (CopyClose d p) :: rest /\ calls rest = []).
Proof using Type.
  intros Hc Hd Hx [s Hs] Hm. destruct e; simplify_eq/=; unfold handleEvent; cbn [eventDex event_dex].
  all: destruct Hx as [x Hx];
    repeat (first [apply (wp_record_ok _ _ _ s Hs); intros ? ?; cbv beta iota | wp_step]).
  all: unfold mapped_in in Hm; try congruence.
  all: boolP; simplify_eq/=; try (eexists; split; reflexivity); congruence.
Qed.


(** ** Sales are capped *)

Context `{!BNLaws L}.

(** Mirrored sales never exceed the scaled amount of the target: when the
    target sold [n] base units and the wallet's ratio is [bps] basis points,
    a sale is asked for only into USDC and with the cap n * bps / 10000, which
    is positive and, for a ratio of at most one, at most [n]; a target amount
    of zero, as for a sale of native SOL, causes no sale. *)
Theorem mirrored_sale_capped s n bps b r b' tr m cap :
  inputAmountRaw s = Z_toString n -> 0 <= n ->
  Ratio.ratioBps walletRatio = Some bps -> 0 <= bps < 2 ^ 53 ->
  handleEvent (JUPITER_SWAP s) b = (r, b', tr) ->
  SwapTokenToUSDC m cap ∈ calls tr ->
  m = inputMint s /\ outputMint s = USDC_MINT
  /\ cap = Z_toString (n * bps / 10000) /\ 0 < n * bps / 10000 /\ (bps <= 10000 -> n * bps / 10000 <= n)
  /\ 0 < n.
Proof using All.
  intros Hraw Hn Hb Hrange H Hin.
  pose proof (handleEvent_disciplined (JUPITER_SWAP s) b) as D. unfold wp in D. rewrite H in D.
  destruct D as [D _]. unfold calls in Hin. apply list_elem_of_omap in Hin as (a & Ha & Eq).
  rewrite List.Forall_forall in D. setoid_rewrite <- list_elem_of_In in D. specialize (D a Ha).
  destruct a; simplify_eq/=. destruct D as (s' & [= <-] & -> & Hout & Hcap).
  destruct (Ratio.computeSwapCapRaw_spec n walletRatio bps Hn Hb Hrange) as (E1 & E2 & E3).
  rewrite Hraw, E1 in Hcap. injection Hcap as Hcap. case_match; [|done]. injection Hcap as <-. boolP.
  split_and!; try done. destruct (Z.eq_dec n 0) as [->|]; [done|lia].
Qed.

End Arms.

End Router.

(** ** Concrete runs: an executor that always succeeds *)

Definition demo_executors : Executors := {|
  run_sig := fun _ b => (Ret (Some "sig"%string), b);
  run_decrease := fun _ b => (Ret None, b);
  run_swap := fun _ b => (Ret (Some (mkSwapResult "sig" "500" None)), b) |}.

Definition demo_config : Config :=
  mkConfig (fun _ => ["W"%string]) (fun _ => []) Ratio.half
    (Risk.mkConfig (Some 3) (Some 60) [] [] true) (Risk.mkConfig (Some 3) (Some 60) [] [] true)
    (OpenedReferers.mkDup false [] []).

(** Paused on both counts. *)
Definition paused : Executor := mkExec false true None true None [].

Definition demo_bot : Bot :=
  set_executors paused (Some paused) (Some paused) (Some paused) (Some paused) (State.fresh PositionMap.demo_map).

Lemma router_discipline_witness :
  exists r b' tr,
    handleEvent (L := Z_BN) (E := demo_executors) demo_config 0 "W" (BYREAL_INCREASE_LIQUIDITY "T1") demo_bot
      = (r, b', tr)
    /\ disciplined (L := Z_BN) demo_config 0 "W" (BYREAL_INCREASE_LIQUIDITY "T1") demo_bot tr
    /\ calls tr = [].
Proof.
  eexists _, _, _. split; [reflexivity|]. split; [|reflexivity].
  exact (router_discipline (L := Z_BN) (E := demo_executors) demo_config 0 "W"
           (BYREAL_INCREASE_LIQUIDITY "T1") demo_bot _ _ _ eq_refl).
Defined.


Definition demo_sale : SwapInfo := mkSwap "BONK" USDC_MINT "10" "1" 5 6 "1000" "1000".

Lemma mirrored_sale_capped_witness :
  exists r b' tr,
    handleEvent (L := Z_BN) (E := demo_executors) demo_config 0 "W" (JUPITER_SWAP demo_sale) demo_bot
      = (r, b', tr)
    /\ calls tr = [SwapTokenToUSDC "BONK" "500"] /\ 1000 * 5000 / 10000 <= 1000.
Proof.
  eexists _, _, _. split; [vm_compute; reflexivity|]. split; [reflexivity|].
  refine (proj1 (proj2 (proj2 (proj2 (proj2 (mirrored_sale_capped (L := Z_BN) (E := demo_executors)
    (BNLaws0 := Z_BN_laws) demo_config 0 "W" demo_sale 1000 5000 demo_bot _ _ _ "BONK" "500"
    eq_refl _ _ _ _ _))))) _); try lia; try (vm_compute; reflexivity).
  left.
Defined.

End Router.
