(* ===== verification/WebSocket.v ===== *)
(** * The subscription monitor ([src/monitor/websocket.ts])

    [WebSocketMonitor] holds one [onLogs] subscription per monitored wallet,
    replaces the connection when it fails or falls silent, and hands the
    transactions to its callback.  A [Connection] of web3.js is represented by
    its number in the order of creation; what its listeners are is the list
    [live] of the world, which [onLogs] extends and [removeOnLogsListener]
    shortens.  An asynchronous method runs without interruption up to the
    delay of [reconnect], the only point where an activation is suspended, so
    an event of the model is one such section.  Left out: the log lines and
    the gauge of the socket state. *)

From S2P Require Import Prelude JsMap JsNumber.
Open Scope Z_scope.
Open Scope list_scope.

Module WebSocket.

(** ** The monitored wallets *)

(** The lists of the configuration; a target is a [PublicKey], a close-only
    wallet the text the operator typed. *)
Record Wallets := mkWallets {
  targetWallets : list string; closeOnlyWallets : list string;
  orcaTargetWallets : list string; orcaCloseOnlyWallets : list string;
  meteoraTargetWallets : list string; meteoraCloseOnlyWallets : list string;
  pcsTargetWallets : list string; pcsCloseOnlyWallets : list string;
  dammv2TargetWallets : list string; dammv2CloseOnlyWallets : list string;
}.

(** A listener the server notifies: its connection, its id there, its wallet. *)
Record Listener := mkListener { l_conn : nat; l_id : Z; l_wallet : string }.

#[export] Instance Listener_eq_dec : EqDecision Listener.
Proof. solve_decision. Defined.

Section Wallets.
(** Whether [new PublicKey(text)] accepts the text. *)
Context (valid_key : string -> bool).

(** [seen] and [wallets] of the function. *)
Abbreviation Acc := (list string * list string)%type.

Definition add_target (a : Acc) (addr : string) : Acc :=
  if shas addr a.1 then a else (sadd addr a.1, a.2 ++ [addr]).

Definition add_targets (ws : list string) (a : Acc) : Acc := foldl add_target a ws.

Fixpoint add_closeOnly (addrs : list string) (a : Acc) : outcome Acc :=
  match addrs with
  | [] => Ret a
  | addr :: addrs' =>
      if shas addr a.1 then add_closeOnly addrs' a
      else if valid_key addr then add_closeOnly addrs' (sadd addr a.1, a.2 ++ [addr])
      else Throw "Invalid public key input"
  end.

Definition getAllMonitoredWallets (c : Wallets) : outcome (list string) :=
  let! a := add_closeOnly (closeOnlyWallets c) (add_targets (targetWallets c) ([], [])) in
  let! a := add_closeOnly (orcaCloseOnlyWallets c) (add_targets (orcaTargetWallets c) a) in
  let! a := add_closeOnly (meteoraCloseOnlyWallets c) (add_targets (meteoraTargetWallets c) a) in
  let! a := add_closeOnly (pcsCloseOnlyWallets c) (add_targets (pcsTargetWallets c) a) in
  let! a := add_closeOnly (dammv2CloseOnlyWallets c) (add_targets (dammv2TargetWallets c) a) in
  Ret a.2.

(** ** State *)

Record Monitor := mkMonitor {
  connection : nat;
  subscriptionIds : list Z;
  retryCount : Z;
  heartbeatTimer : bool;
  callback : bool;
  lastEventTime : Z;
  reconnecting : bool;
}.

Definition maxRetries : Z := 20.
Definition SILENCE_RECONNECT_MIN : Z := 20.

(** Who awaits a suspended [reconnect], itself or through [subscribe]. *)
Inductive Caller := FromStart | FromHeartbeat | FromResubscribe.

Record World := mkWorld {
  mon : Monitor;
  live : list Listener;
  asleep : list Caller;       (** activations of [reconnect] in their delay *)
  heard : nat;                (** the connection the listeners were last given *)
  exited : bool;              (** the process has ended *)
}.

Inductive Obs :=
| Called (signature : string) (wallet : string)
| Sleeping (delay : Z) (totalDelay : option Z)
| StartThrew.

(** [new WebSocketMonitor()] at time [now] *)
Definition new (now : Z) : World :=
  mkWorld (mkMonitor 0 [] 0 false false now false) [] [] 0 false.

Definition set_ids (ids : list Z) (m : Monitor) : Monitor :=
  mkMonitor (connection m) ids (retryCount m) (heartbeatTimer m) (callback m) (lastEventTime m) (reconnecting m).
Definition set_retry (n : Z) (m : Monitor) : Monitor :=
  mkMonitor (connection m) (subscriptionIds m) n (heartbeatTimer m) (callback m) (lastEventTime m) (reconnecting m).
Definition set_heartbeat (b : bool) (m : Monitor) : Monitor :=
  mkMonitor (connection m) (subscriptionIds m) (retryCount m) b (callback m) (lastEventTime m) (reconnecting m).
Definition set_callback (m : Monitor) : Monitor :=
  mkMonitor (connection m) (subscriptionIds m) (retryCount m) (heartbeatTimer m) true (lastEventTime m) (reconnecting m).
Definition set_lastEvent (t : Z) (m : Monitor) : Monitor :=
  mkMonitor (connection m) (subscriptionIds m) (retryCount m) (heartbeatTimer m) (callback m) t (reconnecting m).
Definition set_reconnecting (b : bool) (m : Monitor) : Monitor :=
  mkMonitor (connection m) (subscriptionIds m) (retryCount m) (heartbeatTimer m) (callback m) (lastEventTime m) b.
Definition set_connection (n : nat) (m : Monitor) : Monitor :=
  mkMonitor n (subscriptionIds m) (retryCount m) (heartbeatTimer m) (callback m) (lastEventTime m) (reconnecting m).

Definition with_mon (f : Monitor -> Monitor) (w : World) : World :=
  mkWorld (f (mon w)) (live w) (asleep w) (heard w) (exited w).

(** ** Operations *)

(** [removeOnLogsListener] on the current connection; an id it does not know
    is ignored. *)
Definition removeOnLogsListener (conn : nat) (i : Z) (ls : list Listener) : list Listener :=
  keep (fun l => negb (bool_decide (l_conn l = conn) && bool_decide (l_id l = i))) ls.

Definition removeAllSubscriptions (w : World) : World :=
  mkWorld (set_ids [] (mon w))
    (foldl (fun ls i => removeOnLogsListener (connection (mon w)) i ls) (live w) (subscriptionIds (mon w)))
    (asleep w) (heard w) (exited w).

(** The loop over the wallets; [onLogs] answers with an id or throws. *)
Fixpoint subscribe_each (onLogs : string -> option Z) (ws : list string) (w : World) : bool * World :=
  match ws with
  | [] => (true, w)
  | wallet :: ws' =>
      match onLogs wallet with
      | None => (false, w)
      | Some i =>
          subscribe_each onLogs ws'
            (mkWorld (set_ids (subscriptionIds (mon w) ++ [i]) (mon w))
               (live w ++ [mkListener (connection (mon w)) i wallet]) (asleep w) (heard w) (exited w))
      end
  end.

(** The [try] block of [subscribe]: whether it ran to its end. *)
Definition subscribe_try (c : Wallets) (onLogs : string -> option Z) (w : World) : bool * World :=
  let w := removeAllSubscriptions w in
  match getAllMonitoredWallets c with
  | Throw _ => (false, w)
  | Ret ws =>
      match subscribe_each onLogs ws w with
      | (true, w') => (true, with_mon (set_retry 0) w')
      | (false, w') => (false, w')
      end
  end.

(** [Math.min(1000 * Math.pow(2, retryCount), 60000)] *)
Definition backoff (retry : Z) : Z := Z.min (1000 * 2 ^ retry) 60000.

(** [Math.floor(delay + delay * 0.1 * Math.random())] *)
Definition totalDelay (delay : Z) (random : num) : option Z :=
  floorZ (nadd (num_of_Z delay) (nmul (nmul (num_of_Z delay) (dec_num 1 1)) random)).

(** What follows the awaited [subscribe] or [reconnect] in its caller. *)
Definition continue_ (c : Wallets) (k : Caller) (w : World) : World * list Obs :=
  match k with
  | FromStart =>
      (with_mon (set_heartbeat true) w,
       match getAllMonitoredWallets c with Throw _ => [StartThrew] | Ret _ => [] end)
  | FromHeartbeat | FromResubscribe => (w, [])
  end.

(** [reconnect] up to its delay, or to its end when one is in progress. *)
Definition reconnect (c : Wallets) (random : num) (k : Caller) (w : World) : World * list Obs :=
  if reconnecting (mon w) then continue_ c k w
  else if maxRetries <=? retryCount (mon w) then
    (mkWorld (set_reconnecting true (mon w)) (live w) (asleep w) (heard w) true, [])
  else
    let retry := retryCount (mon w) + 1 in
    let w1 := removeAllSubscriptions (with_mon (fun m => set_retry retry (set_reconnecting true m)) w) in
    (mkWorld (mon w1) (live w1) (asleep w1 ++ [k]) (heard w1) (exited w1),
     [Sleeping (backoff retry) (totalDelay (backoff retry) random)]).

Definition subscribe (c : Wallets) (onLogs : string -> option Z) (random : num) (k : Caller) (w : World)
  : World * list Obs :=
  match subscribe_try c onLogs w with
  | (true, w') => continue_ c k w'
  | (false, w') => reconnect c random k w'
  end.

(** [reconnect] after its delay, for the caller [k]: the nested [subscribe]
    catches its error and calls [reconnect], which returns at once because
    this one is in progress. *)
Definition resume (c : Wallets) (onLogs : string -> option Z) (k : Caller) (w : World) : World * list Obs :=
  let conn := S (connection (mon w)) in
  let w1 := mkWorld (set_connection conn (mon w)) (live w) (asleep w) conn (exited w) in
  let w2 := (subscribe_try c onLogs w1).2 in
  continue_ c k (with_mon (set_reconnecting false) w2).

(** ** Events *)

Inductive Event :=
| Start (c : Wallets) (onLogs : string -> option Z) (random : num)
| Notify (l : Listener) (signature : string) (failed : bool) (now : Z)
| HeartbeatTick (c : Wallets) (random : num) (now : Z)
| DelayOver (i : nat) (c : Wallets) (onLogs : string -> option Z)
| Resubscribe (c : Wallets) (onLogs : string -> option Z) (random : num)
| Stop.

(** The listener registered by [subscribe]. *)
Definition notify (l : Listener) (signature : string) (failed : bool) (now : Z) (w : World)
  : World * list Obs :=
  (with_mon (fun m => set_retry 0 (set_lastEvent now m)) w,
   if negb failed && callback (mon w) then [Called signature (l_wallet l)] else []).

Definition heartbeat (c : Wallets) (random : num) (now : Z) (w : World) : World * list Obs :=
  let silentMin := (now - lastEventTime (mon w)) / 60000 in
  if (SILENCE_RECONNECT_MIN <=? silentMin) && negb (reconnecting (mon w)) then
    reconnect c random FromHeartbeat (with_mon (set_lastEvent now) w)
  else (w, []).

Definition step (w : World) (e : Event) : World * list Obs :=
  if exited w then (w, []) else
  match e with
  | Start c onLogs random => subscribe c onLogs random FromStart (with_mon set_callback w)
  | Notify l signature failed now => if bool_decide (l ∈ live w) then notify l signature failed now w else (w, [])
  | HeartbeatTick c random now => if heartbeatTimer (mon w) then heartbeat c random now w else (w, [])
  | DelayOver i c onLogs =>
      match asleep w !! i with
      | Some k => resume c onLogs k (mkWorld (mon w) (live w) (delete i (asleep w)) (heard w) (exited w))
      | None => (w, [])
      end
  | Resubscribe c onLogs random =>
      match getAllMonitoredWallets c with
      | Throw _ => (w, [])
      | Ret _ => subscribe c onLogs random FromResubscribe w
      end
  | Stop => (removeAllSubscriptions (with_mon (set_heartbeat false) w), [])
  end.

Fixpoint run (es : list Event) (w : World) : World :=
  match es with [] => w | e :: es' => run es' (step w e).1 end.

(** ** The monitored wallets, specified *)

Definition targets (c : Wallets) : list string :=
  targetWallets c ++ orcaTargetWallets c ++ meteoraTargetWallets c ++ pcsTargetWallets c ++ dammv2TargetWallets c.
Definition closeOnly (c : Wallets) : list string :=
  closeOnlyWallets c ++ orcaCloseOnlyWallets c ++ meteoraCloseOnlyWallets c ++ pcsCloseOnlyWallets c
  ++ dammv2CloseOnlyWallets c.

(** [seen] holds exactly the wallets collected, each once. *)
Definition acc_ok (a : Acc) : Prop := a.1 = a.2 /\ NoDup a.2.

Lemma acc_add a x : acc_ok a -> shas x a.1 = false -> acc_ok (sadd x a.1, a.2 ++ [x]).
Proof using All.
  intros [He Hn] Hx. split; simpl; [|rewrite <- He in *].
  - unfold sadd. by rewrite Hx, He.
  - apply shas_false in Hx. apply list.NoDup_app. split_and!; [done| |apply NoDup_singleton].
    intros y Hy ->%list_elem_of_singleton. done.
Qed.

Lemma add_targets_spec ws a :
  acc_ok a -> acc_ok (add_targets ws a) /\ forall x, x ∈ (add_targets ws a).2 <-> x ∈ a.2 \/ x ∈ ws.
Proof using All.
  revert a. induction ws as [|y ws IH]; intros a Ha; simpl; [split; [done|set_solver]|].
  unfold add_target. destruct (shas y a.1) eqn:E.
  - destruct (IH a Ha) as [H1 H2]. split; [done|]. intros x. rewrite H2.
    apply shas_true in E. rewrite (proj1 Ha) in E. set_solver.
  - destruct (IH _ (acc_add a y Ha E)) as [H1 H2]. split; [done|]. intros x. rewrite H2. simpl. set_solver.
Qed.

Lemma add_closeOnly_spec addrs a :
  acc_ok a ->
  match add_closeOnly addrs a with
  | Ret a' => acc_ok a' /\ (forall x, x ∈ a'.2 <-> x ∈ a.2 \/ x ∈ addrs)
              /\ (forall x, x ∈ addrs -> valid_key x = true \/ x ∈ a.2)
  | Throw _ => exists x, x ∈ addrs /\ valid_key x = false
  end.
Proof using All.
  revert a. induction addrs as [|y addrs IH]; intros a Ha; simpl; [split_and!; [done|set_solver|set_solver]|].
  destruct (shas y a.1) eqn:E; [|destruct (valid_key y) eqn:Ev].
  - specialize (IH a Ha). apply shas_true in E. rewrite (proj1 Ha) in E.
    destruct (add_closeOnly addrs a) as [a'|]; [|set_solver]. destruct IH as (H1 & H2 & H3).
    split_and!; [done|intros x; rewrite H2; set_solver|]. intros x [->|Hx]%elem_of_cons; [by right|by apply H3].
  - specialize (IH _ (acc_add a y Ha E)). destruct (add_closeOnly addrs _) as [a'|]; [|set_solver].
    destruct IH as (H1 & H2 & H3). split_and!; [done|intros x; rewrite H2; simpl; set_solver|].
    intros x [->|Hx]%elem_of_cons; [by left|]. destruct (H3 x Hx) as [?|Hin]; [by left|]. simpl in Hin.
    apply elem_of_app in Hin as [?| ->%list_elem_of_singleton]; [by right|by left].
  - exists y. split; [left|done].
Qed.

(** Collected from the targets [ts] and the close-only texts [cs]. *)
Definition collected (ts cs : list string) (a : Acc) : Prop :=
  acc_ok a /\ (forall x, x ∈ a.2 <-> x ∈ ts \/ x ∈ cs) /\ (forall x, x ∈ cs -> valid_key x = true \/ x ∈ ts).

(** Both halves of one exchange. *)
Lemma add_exchange ts cs ts' cs' a :
  collected ts cs a ->
  match add_closeOnly cs' (add_targets ts' a) with
  | Ret a' => collected (ts ++ ts') (cs ++ cs') a'
  | Throw _ => exists x, x ∈ cs' /\ valid_key x = false
  end.
Proof using All.
  intros (Ha & Hm & Hv). destruct (add_targets_spec ts' a Ha) as [H1 H2].
  pose proof (add_closeOnly_spec cs' _ H1) as H. destruct (add_closeOnly cs' _) as [a'|]; [|done].
  destruct H as (H3 & H4 & H5). split_and!; [done|intros x; rewrite H4, H2, Hm, !elem_of_app; tauto|].
  intros x. rewrite !elem_of_app. intros [Hx|Hx]; [destruct (Hv x Hx); tauto|].
  destruct (H5 x Hx) as [?|Hin]; [tauto|]. apply H2 in Hin. rewrite Hm in Hin.
  destruct Hin as [[Hin|Hin]|Hin]; [tauto| |tauto]. destruct (Hv x Hin); tauto.
Qed.

#[local] Ltac next_exchange H :=
  lazymatch goal with
  | |- context [add_closeOnly ?cs (add_targets ?ts ?a)] =>
      apply (add_exchange _ _ ts cs a) in H;
      destruct (add_closeOnly cs (add_targets ts a));
        [cbn [obind]|cbn [obind]; destruct H as (x & Hx & Hv); exists x; rewrite !elem_of_app; tauto]
  end.

Lemma getAll_collected c :
  match getAllMonitoredWallets c with
  | Ret ws => collected (targets c) (closeOnly c) (ws, ws)
  | Throw _ => exists x, x ∈ closeOnly c /\ valid_key x = false
  end.
Proof using All.
  unfold getAllMonitoredWallets, targets, closeOnly.
  assert (collected [] [] ([], [])) as H by (split_and!; [split; [done|constructor]|set_solver|set_solver]).
  do 5 next_exchange H.
  rewrite <- !app_assoc in H. destruct H as ([_ Hn] & H). by split.
Qed.

(** Exactly the configured wallets are monitored, each once: the list has
    no duplicates and holds the targets and the close-only wallets of the five
    exchanges, nothing else; the only way to fail is a close-only text that is
    no public key, and no such text is in an answer unless it is a target. *)
Theorem monitored_wallets_exact c :
  match getAllMonitoredWallets c with
  | Ret ws => NoDup ws /\ (forall x, x ∈ ws <-> x ∈ targets c ++ closeOnly c)
              /\ (forall x, x ∈ closeOnly c -> valid_key x = true \/ x ∈ targets c)
  | Throw _ => exists x, x ∈ closeOnly c /\ valid_key x = false
  end.
Proof using All.
  pose proof (getAll_collected c) as H. destruct (getAllMonitoredWallets c) as [ws|]; [|done].
  destruct H as ([_ Hn] & Hm & Hv). split_and!; [done| |exact Hv].
  intros x. rewrite elem_of_app. apply Hm.
Qed.

(** ** Subscriptions *)

(** What a section leaves alone. *)
Definition same_frame (w w' : World) : Prop :=
  asleep w' = asleep w /\ heard w' = heard w /\ exited w' = exited w
  /\ connection (mon w') = connection (mon w) /\ reconnecting (mon w') = reconnecting (mon w)
  /\ heartbeatTimer (mon w') = heartbeatTimer (mon w) /\ lastEventTime (mon w') = lastEventTime (mon w).

Lemma elem_of_remove conn ids ls l :
  l ∈ foldl (fun ls i => removeOnLogsListener conn i ls) ls ids
  <-> l ∈ ls /\ ~ (l_conn l = conn /\ l_id l ∈ ids).
Proof using All.
  revert ls. induction ids as [|i ids IH]; intros ls; simpl; [set_solver|].
  rewrite IH. unfold removeOnLogsListener. rewrite elem_of_keep, negb_true_iff, andb_false_iff, !bool_decide_eq_false.
  rewrite elem_of_cons. destruct (decide (l_conn l = conn)), (decide (l_id l = i)); tauto.
Qed.

(** The listener of a wallet whose subscription was answered. *)
Definition listener_at (conn : nat) (onLogs : string -> option Z) (x : string) : Listener :=
  mkListener conn (default 0 (onLogs x)) x.

Lemma subscribe_each_spec onLogs ws w :
  let '(b, w') := subscribe_each onLogs ws w in
  exists done_ rest, ws = done_ ++ rest
    /\ (b = true <-> rest = []) /\ (forall x, x ∈ done_ -> is_Some (onLogs x)) /\ ((forall x, x ∈ ws -> is_Some (onLogs x)) -> b = true)
    /\ live w' = live w ++ (listener_at (connection (mon w)) onLogs <$> done_)
    /\ subscriptionIds (mon w') = subscriptionIds (mon w) ++ ((fun x => default 0 (onLogs x)) <$> done_)
    /\ retryCount (mon w') = retryCount (mon w) /\ same_frame w w'.
Proof using All.
  revert w. induction ws as [|x ws IH]; intros w; simpl.
  { exists [], []. rewrite !app_nil_r. unfold same_frame. split_and!; try done. set_solver. }
  destruct (onLogs x) as [i|] eqn:E.
  - specialize (IH (mkWorld (set_ids (subscriptionIds (mon w) ++ [i]) (mon w))
       (live w ++ [mkListener (connection (mon w)) i x]) (asleep w) (heard w) (exited w))).
    destruct (subscribe_each _ _ _) as [b w']. destruct IH as (d & r & -> & Hb & Hd & Hall & Hl & Hi & Hr & Hf).
    exists (x :: d), r. simpl in *. unfold listener_at in *. rewrite E. simpl.
    rewrite Hl, Hi, <- !app_assoc. split_and!; try done.
    { intros y [->|Hy]%elem_of_cons; [by rewrite E|by apply Hd]. }
    intros H. apply Hall. intros y Hy. apply H. by right.
  - exists [], (x :: ws). rewrite !app_nil_r. unfold same_frame. split_and!; try done; [set_solver|].
    intros H. destruct (H x ltac:(left)) as [i Hi]. congruence.
Qed.

Lemma subscribe_try_spec c onLogs w :
  let '(b, w') := subscribe_try c onLogs w in
  exists ws, (b = true -> getAllMonitoredWallets c = Ret ws) /\ NoDup ws /\ (forall x, x ∈ ws -> is_Some (onLogs x))
    /\ (forall all, getAllMonitoredWallets c = Ret all -> (forall x, x ∈ all -> is_Some (onLogs x)) -> b = true)
    /\ live w' = live (removeAllSubscriptions w) ++ (listener_at (connection (mon w)) onLogs <$> ws)
    /\ subscriptionIds (mon w') = ((fun x => default 0 (onLogs x)) <$> ws)
    /\ retryCount (mon w') = (if b then 0 else retryCount (mon w)) /\ same_frame w w'.
Proof using All.
  unfold subscribe_try. pose proof (getAll_collected c) as Hc.
  destruct (getAllMonitoredWallets c) as [all|].
  - pose proof (subscribe_each_spec onLogs all (removeAllSubscriptions w)) as H.
    destruct (subscribe_each _ _ _) as [b w']. destruct H as (d & r & -> & Hb & Hd & Hall & Hl & Hi & Hr & Hf).
    destruct Hc as ([_ Hn] & _). simpl in Hn. apply list.NoDup_app in Hn as (Hn & _ & _).
    destruct b; exists d; simpl in *; (split_and!; try done).
    all: try (intros _; destruct Hb as [Hb _]; by rewrite (Hb eq_refl), app_nil_r).
    by intros all [= <-] H; apply Hall.
  - exists []. simpl. rewrite app_nil_r. unfold same_frame. split_and!; try done; [constructor|set_solver].
Qed.

Lemma remove_live w l :
  l ∈ live (removeAllSubscriptions w)
  <-> l ∈ live w /\ ~ (l_conn l = connection (mon w) /\ l_id l ∈ subscriptionIds (mon w)).
Proof using All. apply elem_of_remove. Qed.

(** ** Invariants *)

Record base (w : World) : Prop := {
  base_one : exited w = false -> length (asleep w) = if reconnecting (mon w) then 1%nat else 0%nat;
  base_retry : 0 <= retryCount (mon w) <= maxRetries;
  base_heard : heard w = connection (mon w);
  base_conn : forall l, l ∈ live w -> (l_conn l <= connection (mon w))%nat;
  base_exit : exited w = true -> retryCount (mon w) = maxRetries;
}.

Lemma continue_frame c k w :
  let w' := (continue_ c k w).1 in
  live w' = live w /\ asleep w' = asleep w /\ heard w' = heard w /\ exited w' = exited w
  /\ connection (mon w') = connection (mon w) /\ subscriptionIds (mon w') = subscriptionIds (mon w)
  /\ retryCount (mon w') = retryCount (mon w) /\ reconnecting (mon w') = reconnecting (mon w)
  /\ lastEventTime (mon w') = lastEventTime (mon w).
Proof using All. by destruct k. Qed.

Lemma continue_base c k w : base w -> base (continue_ c k w).1.
Proof using All. intros [H1 H2 H3 H4 H5]. by destruct k; constructor. Qed.

Lemma remove_base w : base w -> base (removeAllSubscriptions w).
Proof using All.
  intros [H1 H2 H3 H4 H5]. constructor; try done. intros l [Hl _]%remove_live. by apply H4.
Qed.

Lemma try_base c onLogs w : exited w = false -> base w -> base (subscribe_try c onLogs w).2.
Proof using All.
  intros Hx [H1 H2 H3 H4 H5]. pose proof (subscribe_try_spec c onLogs w) as H.
  destruct (subscribe_try c onLogs w) as [b w'].
  destruct H as (ws & _ & _ & _ & _ & Hl & _ & Hr & Ha & Hh & He & Hc & Hg & _). simpl.
  constructor; rewrite ?Ha, ?Hh, ?He, ?Hc, ?Hg; try done.
  - rewrite Hr. destruct b; unfold maxRetries in *; lia.
  - intros l. rewrite Hl, elem_of_app. intros [[Hin _]%remove_live|Hin]; [by apply H4|].
    apply list_elem_of_fmap in Hin as (x & -> & _). done.
  - congruence.
Qed.

Lemma reconnect_base c random k w : exited w = false -> base w -> base (reconnect c random k w).1.
Proof using All.
  intros Hx H. unfold reconnect. destruct (reconnecting (mon w)) eqn:Hg; [by apply continue_base|].
  destruct H as [H1 H2 H3 H4 H5]. specialize (H1 Hx). rewrite Hg in H1.
  destruct (maxRetries <=? retryCount (mon w)) eqn:Hm;
    [apply Z.leb_le in Hm|apply Z.leb_gt in Hm]; constructor; simpl; try done; try lia.
  - intros _. rewrite length_app. simpl. lia.
  - intros l [Hl _]%elem_of_remove. by apply H4.
  - congruence.
Qed.

Lemma subscribe_base c onLogs random k w : exited w = false -> base w -> base (subscribe c onLogs random k w).1.
Proof using All.
  intros Hx H. unfold subscribe. pose proof (try_base c onLogs w Hx H) as Ht.
  pose proof (subscribe_try_spec c onLogs w) as Hs.
  destruct (subscribe_try c onLogs w) as [[] w']; [by apply continue_base|].
  apply reconnect_base; [|done]. destruct Hs as (? & _ & _ & _ & _ & _ & _ & _ & _ & _ & He & _). congruence.
Qed.

Lemma step_base w e : base w -> base (step w e).1.
Proof using All.
  intros H. unfold step. destruct (exited w) eqn:Hx; [done|]. pose proof H as [H1 H2 H3 H4 H5].
  destruct e as [c f r|l sg failed now|c r now|i c f|c f r|].
  - apply subscribe_base; [done|]. by constructor.
  - destruct (bool_decide _); [|done]. constructor; try done. simpl. congruence.
  - destruct (heartbeatTimer _); [|done]. unfold heartbeat. destruct (_ && _); [|done].
    apply reconnect_base; [done|]. by constructor.
  - destruct (asleep w !! i) as [k|] eqn:Hi; [|done]. apply continue_base. specialize (H1 Hx).
    apply lookup_lt_Some in Hi as Hlt.
    destruct (reconnecting (mon w)) eqn:Hg; [|lia]. destruct (asleep w) as [|k' [|]]; simpl in *; try lia.
    destruct i; [|lia]. simpl.
    match goal with |- base (with_mon _ (subscribe_try c f ?w1).2) =>
      pose proof (subscribe_try_spec c f w1) as Hs; destruct (subscribe_try c f w1) as [b w'] end.
    destruct Hs as (ws & _ & _ & _ & _ & Hl & _ & Hr & Ha & Hh & He & Hc & _ & _). simpl in *.
    constructor; simpl; rewrite ?Ha, ?Hh, ?He, ?Hc; try done.
    + rewrite Hr. destruct b; unfold maxRetries in *; lia.
    + intros l. rewrite Hl, elem_of_app. intros [[Hin _]%elem_of_remove|Hin]; [specialize (H4 l Hin); lia|].
      by apply list_elem_of_fmap in Hin as (x & -> & _).
  - destruct (getAllMonitoredWallets c); [|done]. by apply subscribe_base.
  - apply remove_base. by constructor.
Qed.

Lemma run_base es w : base w -> base (run es w).
Proof using All. revert w. induction es as [|e es IH]; intros w H; simpl; [done|]. by apply IH, step_base. Qed.

Lemma new_base now : base (new now).
Proof using All. constructor; simpl; try done. set_solver. Qed.

(** The subscriptions the monitor knows are the live ones, one per wallet,
    and none is left while a reconnect waits. *)
Definition tracked (w : World) : Prop :=
  (fun l => (l_conn l, l_id l)) <$> live w = pair (connection (mon w)) <$> subscriptionIds (mon w)
  /\ NoDup (l_wallet <$> live w) /\ (asleep w <> [] -> live w = []).

Lemma tracked_remove w : tracked w -> live (removeAllSubscriptions w) = [].
Proof using All.
  intros (Hp & _). apply elem_of_nil_inv. intros l [Hl Hn]%remove_live. apply Hn.
  assert ((l_conn l, l_id l) ∈ pair (connection (mon w)) <$> subscriptionIds (mon w)) as Hin.
  { rewrite <- Hp. apply list_elem_of_fmap. by exists l. }
  apply list_elem_of_fmap in Hin as (i & [= -> ->] & Hi). done.
Qed.

Lemma fmap_listener conn f (ws : list string) :
  (fun l => (l_conn l, l_id l)) <$> (listener_at conn f <$> ws) = pair conn <$> ((fun x => default 0 (f x)) <$> ws)
  /\ l_wallet <$> (listener_at conn f <$> ws) = ws.
Proof using All. rewrite <- !list_fmap_compose. split; [done|]. apply list_fmap_id. Qed.

(** After [subscribe_try] with nothing left over. *)
Lemma try_tracked c onLogs w :
  live (removeAllSubscriptions w) = [] -> asleep w = [] -> tracked (subscribe_try c onLogs w).2.
Proof using All.
  intros H0 Hs. pose proof (subscribe_try_spec c onLogs w) as H. destruct (subscribe_try c onLogs w) as [b w'].
  destruct H as (ws & _ & Hn & _ & _ & Hl & Hi & _ & Ha & _ & _ & Hc & _). simpl.
  rewrite H0 in Hl. simpl in Hl. destruct (fmap_listener (connection (mon w)) onLogs ws) as [E1 E2].
  unfold tracked. rewrite Hl, Hi, Hc, Ha, Hs. split_and!; [exact E1|by rewrite E2|done].
Qed.

Lemma tracked_ext w w' :
  live w' = live w -> asleep w' = asleep w -> connection (mon w') = connection (mon w) ->
  subscriptionIds (mon w') = subscriptionIds (mon w) -> tracked w -> tracked w'.
Proof using All. unfold tracked. by intros -> -> -> ->. Qed.

Lemma continue_tracked c k w : tracked w -> tracked (continue_ c k w).1.
Proof using All. apply tracked_ext; by destruct k. Qed.

Lemma tracked_removed w : tracked w -> tracked (removeAllSubscriptions w).
Proof using All. intros H. unfold tracked. rewrite (tracked_remove w H). by split_and!; try constructor. Qed.

Lemma reconnect_tracked c random k w : tracked w -> tracked (reconnect c random k w).1.
Proof using All.
  intros H. unfold reconnect. destruct (reconnecting (mon w)); [by apply continue_tracked|].
  case_match; [by revert H; apply tracked_ext|]. unfold tracked. simpl.
  assert (forall f, foldl (fun ls i => removeOnLogsListener (connection (mon w)) i ls) (live w)
            (subscriptionIds (mon w)) = f -> f = []) as E by (intros f <-; by apply (tracked_remove w)).
  rewrite (E _ eq_refl). by split_and!; try constructor.
Qed.

(** [start] and [resubscribe] are not called while a reconnect waits. *)
Definition undisturbed (w : World) (e : Event) : bool :=
  match e with
  | Start _ _ _ | Resubscribe _ _ _ => negb (reconnecting (mon w))
  | _ => true
  end.

Fixpoint quiet (es : list Event) (w : World) : bool :=
  match es with
  | [] => true
  | e :: es' => undisturbed w e && quiet es' (step w e).1
  end.

Lemma subscribe_tracked c f r k w : asleep w = [] -> tracked w -> tracked (subscribe c f r k w).1.
Proof using All.
  intros Hs H. unfold subscribe. pose proof (try_tracked c f w (tracked_remove w H) Hs) as Ht.
  destruct (subscribe_try c f w) as [[] w']; [by apply continue_tracked|by apply reconnect_tracked].
Qed.

Lemma base_awake w : base w -> exited w = false -> reconnecting (mon w) = false -> asleep w = [].
Proof using All. intros H Hx Hg. apply nil_length_inv. rewrite (base_one w H Hx). by rewrite Hg. Qed.

Lemma base_sleeper w i k :
  base w -> exited w = false -> asleep w !! i = Some k ->
  i = 0%nat /\ asleep w = [k] /\ reconnecting (mon w) = true.
Proof using All.
  intros H Hx Hi. pose proof (base_one w H Hx) as Hl. apply lookup_lt_Some in Hi as Hlt.
  destruct (reconnecting (mon w)); [|lia]. destruct (asleep w) as [|k' [|]]; simpl in *; try lia.
  destruct i; [|lia]. by injection Hi as ->.
Qed.

Lemma step_tracked w e : base w -> undisturbed w e = true -> tracked w -> tracked (step w e).1.
Proof using All.
  intros Hb Hu H. unfold step. destruct (exited w) eqn:Hx; [done|].
  destruct e as [c f r|l sg failed now|c r now|i c f|c f r|]; simpl in Hu.
  - apply negb_true_iff in Hu. apply subscribe_tracked; [by apply (base_awake w)|]. revert H. by apply tracked_ext.
  - destruct (bool_decide _); [|done]. revert H. by apply tracked_ext.
  - destruct (heartbeatTimer _); [|done]. unfold heartbeat. destruct (_ && _); [|done].
    apply reconnect_tracked. revert H. by apply tracked_ext.
  - destruct (asleep w !! i) as [k|] eqn:Hi; [|done].
    destruct (base_sleeper w i k Hb Hx Hi) as (-> & Hs & _). apply continue_tracked.
    eapply (tracked_ext (subscribe_try _ _ _).2); [done..|]. apply try_tracked; [|by rewrite Hs].
    simpl. apply elem_of_nil_inv. intros l [Hl _]%elem_of_remove. rewrite (proj2 (proj2 H)) in Hl; [by apply not_elem_of_nil in Hl|].
    by rewrite Hs.
  - destruct (getAllMonitoredWallets c); [|done]. apply negb_true_iff in Hu.
    by apply subscribe_tracked; [apply base_awake|].
  - apply tracked_removed. revert H. by apply tracked_ext.
Qed.

Lemma run_tracked es w : base w -> quiet es w = true -> tracked w -> tracked (run es w).
Proof using All.
  revert w. induction es as [|e es IH]; intros w Hb Hq H; simpl; [done|]. simpl in Hq.
  apply andb_true_iff in Hq as [Hu Hq]. apply IH; [by apply step_base|done|by apply step_tracked].
Qed.

(** C33: The monitor loses no subscription and keeps none too many.  As long as
    [resubscribe] is not called during a reconnect (nor [start], which the program
    calls once), in every reachable state
    the live listeners are exactly the ids the monitor holds, on its current
    connection, at most one per wallet, and none while a reconnect waits. *)
Theorem subscriptions_tracked now es :
  quiet es (new now) = true ->
  let w := run es (new now) in
  (fun l => (l_conn l, l_id l)) <$> live w = pair (connection (mon w)) <$> subscriptionIds (mon w)
  /\ NoDup (l_wallet <$> live w) /\ (asleep w <> [] -> live w = []).
Proof using All.
  intros Hq. apply (run_tracked es (new now)); [apply new_base|done|].
  split_and!; [done|constructor|done].
Qed.

Lemma continue_sleeps c k w d t : Sleeping d t ∉ (continue_ c k w).2.
Proof using All. destruct k; simpl; [destruct (getAllMonitoredWallets c)|..]; set_solver. Qed.

Lemma backoff_range n : 0 < n -> 2000 <= backoff n <= 60000.
Proof using All.
  intros H. unfold backoff. pose proof (Z.pow_le_mono_r 2 1 n ltac:(lia) ltac:(lia)). lia.
Qed.

Lemma reconnect_sleeps c r k w d t :
  0 <= retryCount (mon w) -> Sleeping d t ∈ (reconnect c r k w).2 ->
  reconnecting (mon w) = false /\ 2000 <= d <= 60000.
Proof using All.
  intros Hr. unfold reconnect. destruct (reconnecting (mon w)); [by intros []%continue_sleeps|].
  destruct (_ <=? _); simpl; [by intros []%not_elem_of_nil|]. intros [= -> _]%list_elem_of_singleton.
  split; [done|]. apply backoff_range. lia.
Qed.

Lemma subscribe_sleeps c f r k w d t :
  0 <= retryCount (mon w) -> Sleeping d t ∈ (subscribe c f r k w).2 ->
  reconnecting (mon w) = false /\ 2000 <= d <= 60000.
Proof using All.
  intros Hr. unfold subscribe. pose proof (subscribe_try_spec c f w) as H.
  destruct (subscribe_try c f w) as [[] w']; [by intros []%continue_sleeps|].
  destruct H as (_ & _ & _ & _ & _ & _ & _ & Hr' & _ & _ & _ & _ & Hg & _).
  rewrite <- Hg, <- Hr' in *. by apply reconnect_sleeps.
Qed.

(** At most one reconnect is under way, whatever is called meanwhile: one
    activation waits exactly when [reconnecting] is set; the attempts stay
    within the limit and the process ends only at it; the connection the
    executors were given is the one in use; and a delay is between two seconds
    and a minute before the jitter. *)
Theorem reconnect_disciplined now es e :
  let w := run es (new now) in
  (exited w = false -> length (asleep w) = if reconnecting (mon w) then 1%nat else 0%nat)
  /\ 0 <= retryCount (mon w) <= maxRetries
  /\ (exited w = true -> retryCount (mon w) = maxRetries)
  /\ heard w = connection (mon w)
  /\ forall d t, Sleeping d t ∈ (step w e).2 ->
       exited w = false /\ reconnecting (mon w) = false /\ 2000 <= d <= 60000.
Proof using All.
  intros w. pose proof (run_base es (new now) (new_base now)) as Hb. fold w in Hb.
  pose proof Hb as [H1 H2 H3 H4 H5]. split_and!; [done|apply H2|apply H2|done|done|]. intros d t. unfold step.
  destruct (exited w); [by intros []%not_elem_of_nil|].
  intros Hin. split; [done|]. revert Hin.
  destruct e as [c f r|l sg failed now'|c r now'|i c f|c f r|].
  - intros Hin. apply subscribe_sleeps in Hin; [done|apply H2].
  - destruct (bool_decide _); simpl; [|by intros []%not_elem_of_nil].
    by destruct (_ && _); intros Hin; set_solver.
  - destruct (heartbeatTimer _); [|by intros []%not_elem_of_nil]. unfold heartbeat.
    destruct (_ && _); [|by intros []%not_elem_of_nil]. intros Hin. apply reconnect_sleeps in Hin; [done|apply H2].
  - destruct (asleep w !! i); [|by intros []%not_elem_of_nil]. by intros []%continue_sleeps.
  - destruct (getAllMonitoredWallets c); [|by intros []%not_elem_of_nil]. intros Hin. apply subscribe_sleeps in Hin; [done|apply H2].
  - by intros []%not_elem_of_nil.
Qed.

(** ** Reconnecting *)

Lemma remove_other conn ids ls :
  (forall l, l ∈ ls -> l_conn l <> conn) -> foldl (fun ls i => removeOnLogsListener conn i ls) ls ids = ls.
Proof using All.
  intros H. induction ids as [|i ids IH]; simpl; [done|].
  assert (removeOnLogsListener conn i ls = ls) as E; [|by rewrite E].
  unfold removeOnLogsListener, keep. clear IH. induction ls as [|l ls IH]; simpl; [done|].
  rewrite bool_decide_false by (apply H; left). simpl. f_equal. apply IH. intros l' Hl. apply H. by right.
Qed.

(** The end of a delay: a fresh connection, on which as many wallets as
    answered are subscribed, next to whatever was live before. *)
Lemma wake_spec w k c f :
  base w -> exited w = false -> asleep w = [k] ->
  let w1 := (step w (DelayOver 0 c f)).1 in
  let conn := S (connection (mon w)) in
  exists b ws, (b = true -> getAllMonitoredWallets c = Ret ws) /\ NoDup ws
    /\ (forall x, x ∈ ws -> is_Some (f x))
    /\ (forall all, getAllMonitoredWallets c = Ret all -> (forall x, x ∈ all -> is_Some (f x)) -> b = true)
    /\ live w1 = live w ++ (listener_at conn f <$> ws)
    /\ retryCount (mon w1) = (if b then 0 else retryCount (mon w))
    /\ connection (mon w1) = conn /\ heard w1 = conn /\ asleep w1 = []
    /\ reconnecting (mon w1) = false /\ exited w1 = false /\ lastEventTime (mon w1) = lastEventTime (mon w).
Proof using All.
  intros Hb Hx Hs. cbv zeta. unfold step. rewrite Hx, Hs. cbn [list_lookup lookup]. unfold resume. simpl.
  match goal with |- context [subscribe_try c f ?v] =>
    pose proof (subscribe_try_spec c f v) as H; destruct (subscribe_try c f v) as [b w'] end.
  destruct H as (ws & H1 & H2 & H3 & H4 & Hl & _ & Hr & Ha & Hh & He & Hc & Hg & _ & Ht). simpl in *.
  rewrite remove_other in Hl by (intros l Hin; pose proof (base_conn w Hb l Hin); lia).
  destruct (continue_frame c k (with_mon (set_reconnecting false) w'))
    as (F1 & F2 & F3 & F4 & F5 & F6 & F7 & F8 & F9). simpl in *.
  exists b, ws. rewrite F1, F2, F3, F4, F5, F7, F8, F9, Hl, Hr, Hc, Ha, Hh, He, Ht. by split_and!.
Qed.

Lemma silent_minutes s : (SILENCE_RECONNECT_MIN <=? s / 60000) = (SILENCE_RECONNECT_MIN * 60000 <=? s).
Proof using All.
  pose proof (Z.div_mod s 60000 ltac:(lia)). pose proof (Z.mod_pos_bound s 60000 ltac:(lia)).
  unfold SILENCE_RECONNECT_MIN. destruct (Z.leb_spec 20 (s / 60000)), (Z.leb_spec (20 * 60000) s); lia.
Qed.

(** Silence forces a reconnect that restores every subscription.  A
    heartbeat does nothing before twenty silent minutes; after that, with
    retries left, it drops all subscriptions and waits; and when the delay is
    over and every wallet can be subscribed, exactly the monitored wallets are
    live on a fresh connection, the executors have it, and the retry count is
    cleared. *)
Theorem silence_forces_reconnect now es c r t c' f ws :
  quiet es (new now) = true ->
  let w := run es (new now) in
  exited w = false -> heartbeatTimer (mon w) = true -> reconnecting (mon w) = false ->
  retryCount (mon w) < maxRetries ->
  getAllMonitoredWallets c' = Ret ws -> (forall x, x ∈ ws -> is_Some (f x)) ->
  let silent := t - lastEventTime (mon w) in
  let w1 := (step w (HeartbeatTick c r t)).1 in
  let w2 := (step w1 (DelayOver 0 c' f)).1 in
  (silent < SILENCE_RECONNECT_MIN * 60000 -> w1 = w)
  /\ (SILENCE_RECONNECT_MIN * 60000 <= silent ->
      asleep w1 = [FromHeartbeat] /\ live w1 = [] /\ lastEventTime (mon w1) = t
      /\ live w2 = (listener_at (S (connection (mon w))) f <$> ws)
      /\ heard w2 = S (connection (mon w)) /\ connection (mon w2) = S (connection (mon w))
      /\ retryCount (mon w2) = 0 /\ reconnecting (mon w2) = false).
Proof using All.
  intros Hq w Hx Ht Hg Hr Hws Hall silent w1 w2.
  assert (base w) as Hb by apply run_base, new_base.
  assert (tracked w) as Hw by (apply run_tracked; [apply new_base|done|by split_and!; try constructor]).
  assert (w1 = (heartbeat c r t w).1) as E1 by (unfold w1, step; by rewrite Hx, Ht).
  unfold heartbeat in E1. rewrite Hg in E1. fold silent in E1.
  rewrite silent_minutes in E1. split; intros Hs.
  { rewrite (proj2 (Z.leb_gt _ _)) in E1 by done. done. }
  rewrite (proj2 (Z.leb_le _ _)) in E1 by done. simpl in E1. unfold reconnect in E1. simpl in E1.
  rewrite Hg, (proj2 (Z.leb_gt _ _)) in E1 by done. simpl in E1.
  assert (live w1 = []) as Hl by (rewrite E1; apply (tracked_remove w Hw)).
  assert (asleep w1 = [FromHeartbeat]) as Ha.
  { rewrite E1. simpl. by rewrite (base_awake w Hb Hx Hg). }
  assert (connection (mon w1) = connection (mon w)) as Hc by by rewrite E1.
  assert (exited w1 = false) as Hx1 by by rewrite E1.
  assert (base w1) as Hb1 by (by apply step_base).
  pose proof (wake_spec w1 FromHeartbeat c' f Hb1 Hx1 Ha) as H. cbv zeta in H. fold w2 in H.
  destruct H as (b & ws' & Hbw & _ & _ & Hok & Hl2 & Hr2 & Hc2 & Hh2 & _ & Hg2 & _).
  rewrite (Hok ws Hws Hall) in *. specialize (Hbw eq_refl). rewrite Hws in Hbw. injection Hbw as <-.
  rewrite Hl, Hc in *. split_and!; try done. by rewrite E1.
Qed.

(** *** A listener of an abandoned connection *)

Definition abandoned (l : Listener) (w : World) : Prop :=
  l ∈ live w /\ (l_conn l < connection (mon w))%nat.

Lemma abandoned_ext l w w' :
  live w' = live w -> connection (mon w') = connection (mon w) -> abandoned l w -> abandoned l w'.
Proof using All. unfold abandoned. by intros -> ->. Qed.

Lemma abandoned_remove l w : abandoned l w -> abandoned l (removeAllSubscriptions w).
Proof using All. intros [H1 H2]. split; [|done]. apply remove_live. split; [done|]. lia. Qed.

Lemma abandoned_try l c f w : abandoned l w -> abandoned l (subscribe_try c f w).2.
Proof using All.
  intros [H1 H2]%abandoned_remove. pose proof (subscribe_try_spec c f w) as H.
  destruct (subscribe_try c f w) as [b w']. destruct H as (ws & _ & _ & _ & _ & Hl & _ & _ & _ & _ & _ & Hc & _).
  split; simpl in *; [rewrite Hl; set_solver|lia].
Qed.

Lemma abandoned_continue l c k w : abandoned l w -> abandoned l (continue_ c k w).1.
Proof using All. by apply abandoned_ext; destruct k. Qed.

Lemma abandoned_reconnect l c r k w : abandoned l w -> abandoned l (reconnect c r k w).1.
Proof using All.
  intros H. unfold reconnect. destruct (reconnecting (mon w)); [by apply abandoned_continue|].
  destruct (_ <=? _); [done|]. exact (abandoned_remove l w H).
Qed.

Lemma abandoned_subscribe l c f r k w : abandoned l w -> abandoned l (subscribe c f r k w).1.
Proof using All.
  intros H. unfold subscribe. pose proof (abandoned_try l c f w H) as Ht.
  destruct (subscribe_try c f w) as [[] w']; [by apply abandoned_continue|by apply abandoned_reconnect].
Qed.

Lemma abandoned_step l e w : abandoned l w -> abandoned l (step w e).1.
Proof using All.
  intros H. unfold step. destruct (exited w); [done|]. destruct e as [c f r|l' sg failed now|c r now|i c f|c f r|].
  - by apply abandoned_subscribe.
  - destruct (bool_decide _); [|done]. exact H.
  - destruct (heartbeatTimer _); [|done]. unfold heartbeat. destruct (_ && _); [|done]. by apply abandoned_reconnect.
  - destruct (asleep w !! i); [|done]. apply abandoned_continue.
    apply (abandoned_ext l (subscribe_try c f (mkWorld (set_connection (S (connection (mon w))) (mon w)) (live w)
             (delete i (asleep w)) (S (connection (mon w))) false)).2); [done..|].
    apply abandoned_try. destruct H. split; simpl; [done|lia].
  - destruct (getAllMonitoredWallets c); [|done]. by apply abandoned_subscribe.
  - exact (abandoned_remove l w H).
Qed.

Lemma abandoned_run l es w : abandoned l w -> abandoned l (run es w).
Proof using All. revert w. induction es as [|e es IH]; intros w H; simpl; [done|]. by apply IH, abandoned_step. Qed.

(** Resubscribing while a reconnect waits leaks.  The listeners opened on
    the old connection stay live whatever happens later, and the monitor no
    longer knows them; once the reconnect has subscribed the same wallets
    again, every wallet has two listeners and its transactions are delivered
    twice. *)
Theorem resubscribe_while_reconnecting_leaks now es k c f r ws c' f' :
  let w := run es (new now) in
  exited w = false -> asleep w = [k] ->
  getAllMonitoredWallets c = Ret ws -> (forall x, x ∈ ws -> is_Some (f x)) ->
  getAllMonitoredWallets c' = Ret ws -> (forall x, x ∈ ws -> is_Some (f' x)) ->
  let old := listener_at (connection (mon w)) f in
  let fresh := listener_at (S (connection (mon w))) f' in
  let w2 := run [Resubscribe c f r; DelayOver 0 c' f'] w in
  (forall x, x ∈ ws -> old x ∈ live w2 /\ fresh x ∈ live w2 /\ old x <> fresh x)
  /\ (forall x later, x ∈ ws -> let w' := run later w2 in
        old x ∈ live w' /\ (l_conn (old x) < connection (mon w'))%nat).
Proof using All.
  intros w Hx Hs Hws Hf Hws' Hf' old fresh w2.
  assert (base w) as Hb by apply run_base, new_base.
  set (w1 := (step w (Resubscribe c f r)).1).
  assert (E1 : w1 = (continue_ c FromResubscribe (subscribe_try c f w).2).1).
  { unfold w1, step. rewrite Hx, Hws. unfold subscribe.
    pose proof (subscribe_try_spec c f w) as H. destruct (subscribe_try c f w) as [b w'].
    destruct H as (_ & _ & _ & _ & Hok & _). by rewrite (Hok ws Hws Hf). }
  assert (base w1) as Hb1 by (by apply step_base).
  pose proof (subscribe_try_spec c f w) as H. destruct (subscribe_try c f w) as [b w'].
  destruct H as (ws1 & Hb' & _ & _ & Hok & Hl & _ & _ & Ha & _ & He & Hc & _). simpl in E1. subst w'.
  rewrite (Hok ws Hws Hf), Hws in Hb'. injection (Hb' eq_refl) as <-.
  pose proof (wake_spec w1 k c' f' Hb1 ltac:(congruence) ltac:(congruence)) as H. cbv zeta in H.
  change (step w1 (DelayOver 0 c' f')).1 with w2 in H.
  destruct H as (b2 & ws2 & Hb2 & _ & _ & Hok2 & Hl2 & _ & Hc2 & _).
  rewrite (Hok2 ws Hws' Hf'), Hws' in Hb2. injection (Hb2 eq_refl) as <-.
  rewrite Hl, Hc in *.
  assert (forall x, x ∈ ws -> abandoned (old x) w2) as Hold.
  { intros x Hin. split; [|rewrite Hc2; simpl; lia]. rewrite Hl2, !elem_of_app. left. right.
    apply list_elem_of_fmap. by exists x. }
  split.
  - intros x Hin. split_and!; [by apply Hold| |].
    + rewrite Hl2, elem_of_app. right. apply list_elem_of_fmap. by exists x.
    + unfold old, fresh, listener_at. intros [= E]. lia.
  - intros x later Hin. by apply abandoned_run, Hold.
Qed.

(** *** A reconnect whose subscription fails *)

(** No heartbeat finds twenty silent minutes, and nobody resubscribes. *)
Definition calm (w : World) (e : Event) : bool :=
  match e with
  | Start _ _ _ | Resubscribe _ _ _ => false
  | HeartbeatTick _ _ t => t - lastEventTime (mon w) <? SILENCE_RECONNECT_MIN * 60000
  | _ => true
  end.

Fixpoint calm_run (es : list Event) (w : World) : bool :=
  match es with
  | [] => true
  | e :: es' => calm w e && calm_run es' (step w e).1
  end.

Lemma calm_step w e :
  asleep w = [] -> calm w e = true ->
  asleep (step w e).1 = [] /\ connection (mon (step w e).1) = connection (mon w)
  /\ forall l, l ∈ live (step w e).1 -> l ∈ live w.
Proof using All.
  intros Hs Hc. unfold step. destruct (exited w); [done|].
  destruct e as [c f r|l sg failed now|c r now|i c f|c f r|]; simpl in Hc; try done.
  - by destruct (bool_decide _).
  - destruct (heartbeatTimer _); [|done]. unfold heartbeat. rewrite silent_minutes.
    apply Z.ltb_lt in Hc. by rewrite (proj2 (Z.leb_gt _ _)).
  - by rewrite Hs.
  - split_and!; [done|done|]. by intros l [Hl _]%remove_live.
Qed.

Lemma calm_run_step es w :
  asleep w = [] -> calm_run es w = true ->
  asleep (run es w) = [] /\ connection (mon (run es w)) = connection (mon w)
  /\ forall l, l ∈ live (run es w) -> l ∈ live w.
Proof using All.
  revert w. induction es as [|e es IH]; intros w Hs Hc; simpl in *; [done|].
  apply andb_true_iff in Hc as [Hc Hq]. destruct (calm_step w e Hs Hc) as (H1 & H2 & H3).
  destruct (IH _ H1 Hq) as (H4 & H5 & H6). split_and!; [done|congruence|auto].
Qed.

(** A reconnect whose subscription fails is not retried.  When the delay is
    over and [onLogs] throws for a monitored wallet, the retry that
    [subscribe] asks for is skipped because this reconnect is still in
    progress; the reconnect then ends, no other is scheduled, and the wallet
    stays unwatched until a heartbeat finds twenty silent minutes or the
    operator resubscribes. *)
Theorem failed_resubscription_not_retried now es k c f ws x later :
  quiet es (new now) = true ->
  let w := run es (new now) in
  exited w = false -> asleep w = [k] ->
  getAllMonitoredWallets c = Ret ws -> x ∈ ws -> f x = None ->
  let w1 := (step w (DelayOver 0 c f)).1 in
  calm_run later w1 = true ->
  reconnecting (mon w1) = false /\ asleep (run later w1) = []
  /\ connection (mon (run later w1)) = connection (mon w1)
  /\ forall l, l ∈ live (run later w1) -> l_wallet l <> x.
Proof using All.
  intros Hq w Hx Hs Hws Hin Hf w1 Hc.
  assert (base w) as Hb by apply run_base, new_base.
  assert (tracked w) as Hw by (apply run_tracked; [apply new_base|done|by split_and!; try constructor]).
  pose proof (wake_spec w k c f Hb Hx Hs) as H. cbv zeta in H. fold w1 in H.
  destruct H as (b & ws' & _ & _ & Hd & _ & Hl & _ & _ & _ & Ha & Hg & _).
  destruct (calm_run_step later w1 Ha Hc) as (H1 & H2 & H3). split_and!; [done..|].
  intros l Hll ->%symmetry. apply H3 in Hll. rewrite Hl, (proj2 (proj2 Hw)) in Hll by (by rewrite Hs).
  simpl in Hll. apply list_elem_of_fmap in Hll as (y & -> & Hy). simpl in Hf.
  destruct (Hd y Hy). congruence.
Qed.

End Wallets.

(** ** Concrete runs *)

Definition demo_wallets : Wallets :=
  mkWallets ["A"; "B"; "A"]%string ["C"; "B"]%string ["D"; "A"]%string [] [] [] [] [] [] [].

Definition demo_ids (x : string) : option Z := Some (Z.of_nat (String.length x)).

Definition any_key (_ : string) : bool := true.

Example demo_monitored : getAllMonitoredWallets any_key demo_wallets = Ret ["A"; "B"; "C"; "D"]%string.
Proof. reflexivity. Qed.

Example demo_bad_key :
  getAllMonitoredWallets (fun x => negb (bool_decide (x = "C"%string))) demo_wallets
  = Throw "Invalid public key input".
Proof. reflexivity. Qed.

Lemma demo_answers x : x ∈ ["A"; "B"; "C"; "D"]%string -> is_Some (demo_ids x).
Proof. done. Qed.

(** Started at 0; a notification at 60000; silent for 25 minutes. *)
Definition demo_started : list Event :=
  [Start demo_wallets demo_ids NaN; Notify (mkListener 0 1 "A") "sig" false 60000].

Definition demo_sleeping : list Event :=
  demo_started ++ [HeartbeatTick demo_wallets NaN 1560000].

Lemma subscriptions_tracked_witness :
  NoDup (l_wallet <$> live (run any_key demo_sleeping (new 0))).
Proof. apply (subscriptions_tracked any_key 0 demo_sleeping). reflexivity. Defined.

Lemma silence_forces_reconnect_witness :
  live (run any_key (demo_sleeping ++ [DelayOver 0 demo_wallets demo_ids]) (new 0))
  = listener_at 1 demo_ids <$> ["A"; "B"; "C"; "D"]%string.
Proof.
  refine (proj1 (proj2 (proj2 (proj2 (proj2 (silence_forces_reconnect any_key 0 demo_started demo_wallets NaN
    1560000 demo_wallets demo_ids ["A"; "B"; "C"; "D"]%string _ _ _ _ _ _ demo_answers) _))))); by vm_compute.
Defined.

Lemma resubscribe_while_reconnecting_leaks_witness :
  let w := run any_key [Resubscribe demo_wallets demo_ids NaN; DelayOver 0 demo_wallets demo_ids]
             (run any_key demo_sleeping (new 0)) in
  exists l l', l ∈ live w /\ l' ∈ live w /\ l <> l' /\ l_wallet l = "A"%string /\ l_wallet l' = "A"%string.
Proof.
  intros w. assert (asleep (run any_key demo_sleeping (new 0)) = [FromHeartbeat]) as Hs by (by vm_compute).
  assert (exited (run any_key demo_sleeping (new 0)) = false) as Hx by (by vm_compute).
  destruct (resubscribe_while_reconnecting_leaks any_key 0 demo_sleeping FromHeartbeat demo_wallets demo_ids NaN
    ["A"; "B"; "C"; "D"]%string demo_wallets demo_ids Hx Hs eq_refl demo_answers eq_refl demo_answers) as [H _].
  destruct (H "A"%string ltac:(left)) as (H1 & H2 & H3). eexists _, _. split_and!; [exact H1|exact H2|exact H3|done|done].
Defined.

Definition demo_refused (x : string) : option Z := if decide (x = "B"%string) then None else demo_ids x.

Definition demo_later : list Event :=
  [Notify (mkListener 1 1 "A") "sig" false 1700000; HeartbeatTick demo_wallets NaN 1860000].

Lemma failed_resubscription_not_retried_witness :
  let w := (step any_key (run any_key demo_sleeping (new 0)) (DelayOver 0 demo_wallets demo_refused)).1 in
  asleep (run any_key demo_later w) = [].
Proof.
  refine (proj1 (proj2 (failed_resubscription_not_retried any_key 0 demo_sleeping FromHeartbeat demo_wallets
    demo_refused ["A"; "B"; "C"; "D"]%string "B" demo_later _ _ _ _ _ _ _))); try (by vm_compute).
  right. left.
Defined.

End WebSocket.
