(* ===== verification/Monitor.v ===== *)
(** * From a notification to the handlers ([src/index.ts], [main])

    The callback of the WebSocket monitor (deduplication of signatures, the
    spam filter in front of the queue), the queued job (parse, then handle the
    events one after the other), and the drawdown protection that runs on each
    asset snapshot. *)

From S2P Require Import Prelude JsMap JsString JsNumber Ratio TxTypes ParserCore ParserDex Parser WriteChain PositionMap Store Stores Risk PumpPending ActivityLog State Router.
Open Scope Z_scope.
Open Scope list_scope.

Module Monitor.

(** ** The monitor callback *)

Section Callback.
Context (c : ParserConfig).

Definition mentionsDex (l : string) : bool :=
  includes l (byrealProgramId c) || includes l (orcaProgramId c) || includes l (meteoraProgramId c)
  || (pcsEnabled c && includes l (pcsProgramId c)) || includes l Core.DAMMV2_PROGRAM_ID.

(** The filter in front of the queue. *)
Definition filteredPreQueue (logs : list string) : bool :=
  if some mentionsDex logs then false
  else
    (5 <=? Parser.systemSuccessCount logs)%nat
    && negb (some (fun l => includes l "ComputeBudget111111111111111111111111111111") logs).

(** [processedSignatures]: a set of the last 1000 signatures; when it grows
    past that, its oldest element goes. *)
Definition remember (signature : string) (seen : list string) : list string :=
  let seen' := sadd signature seen in
  if (1000 <? length seen')%nat then
    match seen' with
    | first :: _ => if truthy first then sdel first seen' else seen'
    | [] => seen'
    end
  else seen'.

(** Whether the transaction is queued (as a HIGH job), and the new set. *)
Definition onTransaction (signature : string) (logs : list string) (seen : list string)
  : bool * list string :=
  if shas signature seen then (false, seen)
  else (negb (filteredPreQueue logs), remember signature seen).

Fixpoint notifications (ns : list (string * list string)) (seen : list string) : list string :=
  match ns with
  | [] => seen
  | (signature, logs) :: ns' => notifications ns' (onTransaction signature logs seen).2
  end.

(** *** The filter *)

(** The filter in front of the queue only drops transactions the parser
    would have reported as UNKNOWN without fetching them, and never one whose
    logs mention a program of the five exchanges. *)
Theorem prequeue_filter_sound `{D : Bs58} fetch logs w :
  filteredPreQueue logs = true ->
  Parser.parseTransaction c fetch logs w = Ret [UNKNOWN]
  /\ forall l, l ∈ logs -> mentionsDex l = false.
Proof.
  unfold filteredPreQueue. destruct (some mentionsDex logs) eqn:Em; [done|].
  intros [Hs Hcb]%andb_true_iff. apply negb_true_iff in Hcb.
  rewrite some_false in Em. split; [|done].
  assert (Parser.is_spam c logs = true) as Hspam; [|unfold Parser.parseTransaction; by rewrite Hspam].
  unfold Parser.is_spam, Parser.involves. cbv zeta. rewrite Hs.
  cbn [Parser.involvesByreal Parser.involvesOrca Parser.involvesMeteora Parser.involvesPcs Parser.involvesDammv2].
  assert (forall pid, (forall l, mentionsDex l = false -> includes l pid = false) ->
            Parser.mentions pid logs = false) as Hm.
  { intros pid Hp. unfold Parser.mentions. apply some_false. auto. }
  unfold mentionsDex in Hm.
  rewrite (Hm (byrealProgramId c)), (Hm (orcaProgramId c)), (Hm (meteoraProgramId c)),
    (Hm Core.DAMMV2_PROGRAM_ID) by (intros l Hl; boolP; done).
  replace (pcsEnabled c && Parser.mentions (pcsProgramId c) logs) with false.
  - cbn [negb andb]. apply negb_true_iff. unfold Parser.hasComputeBudget. apply some_false. intros l Hl.
    rewrite some_false in Hcb. specialize (Hcb l Hl). apply not_true_iff_false. intros Hi.
    apply (includes_mono l "Program " "ComputeBudget111111111111111111111111111111" " invoke") in Hi.
    congruence.
  - symmetry. destruct (pcsEnabled c) eqn:Ep; [|done]. simpl. apply Hm.
    intros l Hl. boolP. done.
Qed.

(** *** The deduplication *)

Definition wf_seen (seen : list string) : Prop :=
  NoDup seen /\ (length seen <= 1000)%nat /\ Forall (fun s => truthy s = true) seen.

Lemma sdel_head (x : string) l : NoDup (x :: l) -> sdel x (x :: l) = l.
Proof.
  intros [Hx _]%list.NoDup_cons. unfold sdel. simpl. rewrite bool_decide_true by done. simpl.
  induction l as [|y l IH]; simpl; [done|].
  rewrite bool_decide_false by set_solver. simpl. f_equal. apply IH. set_solver.
Qed.

Lemma remember_fresh signature seen :
  wf_seen seen -> truthy signature = true -> signature ∉ seen ->
  remember signature seen = (if (1000 <? length seen + 1)%nat then tail seen else seen) ++ [signature].
Proof.
  intros (Hnd & Hlen & Ht) Hs Hnew. unfold remember, sadd.
  rewrite (proj2 (shas_false signature seen) Hnew). rewrite length_app. simpl.
  destruct (Nat.ltb_spec 1000 (length seen + 1)) as [Hl|Hl]; [|done].
  destruct seen as [|x seen]; [simpl in Hl; lia|]. simpl app.
  apply list.Forall_cons in Ht as [Hx _]. rewrite Hx.
  rewrite sdel_head; [done|]. apply (proj2 (list.NoDup_app (x :: seen) [signature])).
  split_and!; [done|set_solver|apply NoDup_singleton].
Qed.

Lemma remember_wf signature seen :
  wf_seen seen -> truthy signature = true -> signature ∉ seen -> wf_seen (remember signature seen).
Proof.
  intros Hwf Hs Hnew. rewrite remember_fresh by done. destruct Hwf as (Hnd & Hlen & Ht).
  assert (forall l, sublist l seen -> (length l + 1 <= 1000)%nat -> wf_seen (l ++ [signature])) as H.
  { intros l Hsub Hl. split_and!.
    - apply list.NoDup_app. split_and!; [by eapply sublist_NoDup| |apply NoDup_singleton].
      intros x Hx ->%list_elem_of_singleton. apply Hnew. by eapply elem_of_sublist.
    - rewrite length_app. simpl. lia.
    - apply list.Forall_app. split; [|by repeat constructor].
      apply List.Forall_forall. intros x Hx%list_elem_of_In. rewrite List.Forall_forall in Ht.
      apply Ht, list_elem_of_In. by eapply elem_of_sublist. }
  destruct (Nat.ltb_spec 1000 (length seen + 1)) as [Hl|Hl].
  - apply H; destruct seen; simpl in *; try lia; by apply sublist_cons.
  - by apply H.
Qed.

(** A signature with at most [k] newer ones. *)
Definition recent (k : nat) (signature : string) (seen : list string) : Prop :=
  exists older newer, seen = older ++ signature :: newer /\ (length newer <= k)%nat.

Lemma recent_step k signature s logs seen :
  wf_seen seen -> truthy s = true -> (k < 999)%nat -> recent k signature seen ->
  wf_seen (onTransaction s logs seen).2 /\ recent (S k) signature (onTransaction s logs seen).2.
Proof.
  intros Hwf Hs Hk (older & newer & -> & Hn). unfold onTransaction.
  destruct (shas s _) eqn:Es; simpl.
  - split; [done|]. exists older, newer. split; [done|lia].
  - apply shas_false in Es. split; [by apply remember_wf|].
    rewrite remember_fresh by done. destruct (Nat.ltb_spec 1000 (length (older ++ signature :: newer) + 1)) as [Hl|Hl].
    + destruct older as [|x older]; [rewrite length_app in Hl; simpl in Hl; lia|]. simpl.
      exists older, (newer ++ [s]). rewrite <- app_assoc. split; [done|]. rewrite length_app. simpl. lia.
    + exists older, (newer ++ [s]). rewrite <- app_assoc. split; [done|]. rewrite length_app. simpl. lia.
Qed.

(** Any [m] notifications after [signature] leave it remembered, as long as
    fewer than 1000 followed it. *)
Lemma recent_notifications ns : forall k signature seen,
  wf_seen seen -> Forall (fun n => truthy n.1 = true) ns -> (k + length ns <= 999)%nat ->
  recent k signature seen ->
  wf_seen (notifications ns seen) /\ recent (k + length ns) signature (notifications ns seen).
Proof.
  induction ns as [|[s logs] ns IH]; intros k signature seen Hwf Hns Hlen Hr; simpl.
  - by rewrite Nat.add_0_r.
  - apply list.Forall_cons in Hns as [Hs Hns]. simpl in Hlen.
    destruct (recent_step k signature s logs seen) as [H1 H2]; [done|done|lia|done|].
    replace (k + S (length ns))%nat with (S k + length ns)%nat by lia. apply IH; [done|done|lia|done].
Qed.

(** A transaction is handled once: when a notification arrives that is not
    among the remembered signatures, any notification of the same signature
    among the next 1000 is refused, whatever arrives in between, and
    the set never holds more than 1000 signatures. *)
Theorem duplicate_signatures_skipped signature logs logs' ns seen :
  wf_seen seen -> signature ∉ seen -> truthy signature = true ->
  Forall (fun n => truthy n.1 = true) ns -> (length ns <= 999)%nat ->
  let seen' := notifications ns (onTransaction signature logs seen).2 in
  onTransaction signature logs' seen' = (false, seen') /\ (length seen' <= 1000)%nat.
Proof.
  intros Hwf Hnew Hs Hns Hlen seen'.
  assert (wf_seen (remember signature seen)) as H1 by by apply remember_wf.
  assert ((onTransaction signature logs seen).2 = remember signature seen) as E.
  { unfold onTransaction. by rewrite (proj2 (shas_false signature seen) Hnew). }
  assert (recent 0 signature (remember signature seen)) as H2.
  { rewrite remember_fresh by done. eexists _, []. split; [done|simpl; lia]. }
  destruct (recent_notifications ns 0 signature _ H1 Hns ltac:(lia) H2) as [(_ & H3 & _) (o & n & E' & _)].
  subst seen'. rewrite E. split; [|done]. unfold onTransaction.
  assert (shas signature (notifications ns (remember signature seen)) = true) as ->; [|done].
  apply shas_true. rewrite E'. set_solver.
Qed.

End Callback.

(** ** The queued job *)

Section Job.
Context `{D : Bs58} `{L : BNLib} `{E : Router.Executors} (c : ParserConfig) (cfg : Router.Config).
Context (now : Z).

(** Parse the transaction and handle its events one after the other; what is
    thrown on the way is logged and swallowed. *)
Definition processTx (fetch : nat -> outcome (option ParsedTransaction)) (logs : list string)
    (w : string) : Router.M unit := fun b =>
  match Parser.parseTransaction c fetch logs w with
  | Throw _ => (Ret tt, b, [])
  | Ret events =>
      let '(_, b', tr) := Router.handleEvents cfg now w events b in (Ret tt, b', tr)
  end.

Context `{!BNLaws L}.

(** Tokens received are credited without a throw. *)
Lemma creditReceived_ok rs : forall s,
  Forall (fun r => exists d, 0 < d /\ rec_amount r = Z_toString d) rs -> PendingSwaps.wf_pending s ->
  exists s', Router.creditReceived now rs s = (Ret tt, s') /\ PendingSwaps.wf_pending s'.
Proof using BNLaws0.
  induction rs as [|r rs IH]; intros s Hrs Hwf; simpl; [by eauto|].
  apply list.Forall_cons in Hrs as [(d & Hd & Ea) Hrs].
  destruct (shas (rec_mint r) Router.STABLE_OR_SOL); [by apply IH|].
  rewrite Ea. destruct (bn_of_string_dec d ltac:(lia)) as (bn & -> & Hv). cbn [obind].
  destruct (bn_of_int_safe 0 ltac:(lia)) as (z & -> & Hz). cbn [obind].
  rewrite bn_gt_val, Hv, Hz, (proj2 (Z.ltb_lt 0 d) Hd). cbn [negb].
  destruct (PendingSwaps.addBotReceived_spec now (rec_mint r) bn s) as (t & s' & -> & Hwf' & _);
    [lia|done|]. cbn [obind snd]. by apply IH.
Qed.

(** What the handling of the first event does comes first. *)
Lemma handleEvents_first w e es b :
  exists rest, (Router.handleEvents cfg now w (e :: es) b).2 = (Router.handleEvent cfg now w e b).2 ++ rest.
Proof using Type.
  simpl. unfold Router.bind. destruct (Router.handleEvent cfg now w e b) as [[[u|x] b'] tr]; simpl.
  - destruct (Router.handleEvents cfg now w es b') as [[r b''] tr']. by exists tr'.
  - exists []. by rewrite app_nil_r.
Qed.

(** The events of a transaction that only closes. *)
Lemma parseByreal_only_closes tx logs memo w r :
  Dex.hasClosePosition (Dex.log_flags logs) = true ->
  Dex.hasOpenPosition (Dex.log_flags logs) = false ->
  Dex.hasIncreaseLiquidity (Dex.log_flags logs) = false ->
  Core.parseBotReceivedTokens tx w = Ret r ->
  Dex.parseByrealOperations c tx logs memo w
    = Ret (map (fun nft => BYREAL_CLOSE_POSITION nft r) (Core.findClosedNftMintsFromTx tx w)).
Proof using Type.
  intros Hc Ho Hi Hr. unfold Dex.parseByrealOperations, Dex.parseDecreaseOrClose.
  rewrite Hc, Ho, Hi, orb_true_r, Hr, andb_false_r. cbn. by rewrite app_nil_r.
Qed.

(** The transaction [tx] of the notification only closes Byreal positions: the
    logs say so, and one of the first three fetches returns it. *)
Definition only_closes (fetch : nat -> outcome (option ParsedTransaction)) (logs : list string) (w : string)
    (tx : ParsedTransaction) : Prop :=
  Parser.involvesByreal (Parser.involves c logs) = true
  /\ Dex.hasClosePosition (Dex.log_flags logs) = true
  /\ Dex.hasOpenPosition (Dex.log_flags logs) = false
  /\ Dex.hasIncreaseLiquidity (Dex.log_flags logs) = false
  /\ Parser.tx_failed tx = false /\ Core.wf_balances w (preTB tx) /\ Core.wf_balances w (postTB tx)
  /\ exists k : nat, (k < 3)%nat /\ fetch k = Ret (Some tx)
       /\ forall i, (i < k)%nat -> fetch i = Ret None \/ exists e, fetch i = Throw e.

(** Its events: a close for each position NFT the wallet burned, with the
    tokens the wallet gained, which can be credited. *)
Lemma only_closes_events fetch logs w tx :
  only_closes fetch logs w tx ->
  exists rs,
    Parser.parseTransaction c fetch logs w
      = Ret (match Core.findClosedNftMintsFromTx tx w with
             | [] => [UNKNOWN]
             | ps => map (fun nft => BYREAL_CLOSE_POSITION nft rs) ps
             end)
    /\ (forall m a, mkReceived m a ∈ rs <->
          let d := Core.rawBalance (postTB tx) w m - Core.rawBalance (preTB tx) w m in
          0 < d /\ a = Z_toString d)
    /\ forall s, PendingSwaps.wf_pending s -> exists s', Router.creditReceived now rs s = (Ret tt, s').
Proof using BNLaws0.
  intros (Hb & Hc & Ho & Hi & Hok & Hpre & Hpost & k & Hk & Hf & Hbefore).
  destruct (Core.received_tokens_spec tx w Hpre Hpost) as (rs & Hrs & Hin). exists rs. split_and!; [|done|].
  - rewrite (Parser.parseTransaction_byreal c fetch logs w tx k) by done.
    rewrite (parseByreal_only_closes tx logs _ w rs) by done. cbn [obind].
    by destruct (Core.findClosedNftMintsFromTx tx w).
  - intros s Hwf. destruct (creditReceived_ok rs s) as (s' & Hs & _); [|done|by exists s'].
    rewrite List.Forall_forall. intros [m a] Hr%list_elem_of_In. apply Hin in Hr as [Hd ->]. eexists. by split.
Qed.

(** From the notification to the copy of a Byreal close: when the logs show
    a Byreal close, one of the first three fetches returns the successful
    transaction, and the first position NFT the wallet burned is mapped, the
    job records exactly the tokens the wallet gained and then asks the
    executor to close the copy of that very position; the job itself never
    throws. *)
Theorem byreal_close_mirrored fetch logs w tx (k : nat) p ps b :
  Parser.involvesByreal (Parser.involves c logs) = true ->
  Dex.hasClosePosition (Dex.log_flags logs) = true ->
  Dex.hasOpenPosition (Dex.log_flags logs) = false ->
  Dex.hasIncreaseLiquidity (Dex.log_flags logs) = false ->
  (k < 3)%nat -> fetch k = Ret (Some tx) ->
  (forall i, (i < k)%nat -> fetch i = Ret None \/ exists e, fetch i = Throw e) ->
  Parser.tx_failed tx = false ->
  Core.wf_balances w (preTB tx) -> Core.wf_balances w (postTB tx) ->
  Core.findClosedNftMintsFromTx tx w = p :: ps ->
  PositionMap.hasMapping p (State.positionMap b) = true ->
  PendingSwaps.wf_pending (State.pendingSwaps b) ->
  exists rs rest b',
    processTx fetch logs w b
      = (Ret tt, b', Router.ARecordReceived rs :: Router.ACall (Router.CopyClose Byreal p) :: rest)
    /\ forall m a, mkReceived m a ∈ rs <->
         let d := Core.rawBalance (postTB tx) w m - Core.rawBalance (preTB tx) w m in
         0 < d /\ a = Z_toString d.
Proof using BNLaws0.
  intros Hb Hc Ho Hi Hk Hf Hbefore Hok Hpre Hpost Hburn Hm Hwf.
  destruct (only_closes_events fetch logs w tx) as (rs & Hp & Hin & Hcr).
  { split_and!; try done. by exists k. }
  unfold processTx. rewrite Hp, Hburn. cbn [map]. destruct (Hcr _ Hwf) as [s Hs].
  pose proof (Router.handleEvent_close cfg now w (BYREAL_CLOSE_POSITION p rs) b Byreal p rs
                eq_refl eq_refl ltac:(by eexists) (ex_intro _ s Hs) Hm) as Hwp.
  destruct (handleEvents_first w (BYREAL_CLOSE_POSITION p rs)
              (map (fun nft => BYREAL_CLOSE_POSITION nft rs) ps) b) as [rest Htr].
  unfold Router.wp in Hwp.
  destruct (Router.handleEvent cfg now w (BYREAL_CLOSE_POSITION p rs) b) as [[r b1] tr].
  destruct Hwp as (rest1 & -> & _).
  destruct (Router.handleEvents cfg now w _ b) as [[r' b'] tr']. simpl in Htr. subst tr'.
  exists rs, (rest1 ++ rest), b'. done.
Qed.

End Job.

(** ** Drawdown protection

    The callback that runs on each asset snapshot. *)

Record Drawdown := mkDrawdown { startAssetUsd : option num; drawdownWarning : bool }.

Definition pause (x : State.Executor) : State.Executor :=
  State.with_drawdownPaused x.

(** Byreal's executor and every other enabled one. *)
Definition pauseAll (b : State.Bot) : State.Bot :=
  State.set_executors (pause (State.byrealExecutor b)) (pause <$> State.orcaExecutor b)
    (pause <$> State.meteoraExecutor b) (pause <$> State.pcsExecutor b) (pause <$> State.dammv2Executor b) b.

(** [((start - totalUsd) / start) * 100] *)
Definition drawdownPct (start totalUsd : num) : num :=
  nmul (ndiv (nsub start totalUsd) start) (num_of_Z 100).

Definition bot_paused (b : State.Bot) : bool := State.drawdownPaused (State.byrealExecutor b).

Definition onSnapshot (drawdownThresholdPct totalUsd : num) (s : Drawdown * State.Bot)
  : Drawdown * State.Bot :=
  let (st, b) := s in
  match startAssetUsd st with
  | None => (mkDrawdown (Some totalUsd) (drawdownWarning st), b)
  | Some start =>
      if bot_paused b then s
      else if nle drawdownThresholdPct (num_of_Z 0) then s
      else if nle drawdownThresholdPct (drawdownPct start totalUsd) then
        if negb (drawdownWarning st) then (mkDrawdown (Some start) true, b)
        else (st, pauseAll b)
      else (mkDrawdown (Some start) false, b)
  end.

Definition snapshots (thr : num) (ts : list num) (s : Drawdown * State.Bot) : Drawdown * State.Bot :=
  foldl (fun s t => onSnapshot thr t s) s ts.

(** The loss since [start] has reached the threshold. *)
Definition over (thr start t : num) : bool := nle thr (drawdownPct start t).

Definition confirmed (thr start : num) (ts : list num) : Prop :=
  exists pre x y post, ts = pre ++ x :: y :: post /\ over thr start x = true /\ over thr start y = true.

(** Every enabled executor is paused. *)
Definition all_paused (b : State.Bot) : Prop :=
  forall d x, State.executor d b = Some x -> State.drawdownPaused x = true.

Lemma pauseAll_paused b : all_paused (pauseAll b).
Proof.
  intros [] x; simpl; intros Hx; simplify_eq/=; try done;
    by apply fmap_Some in Hx as (? & _ & ->).
Qed.

Lemma snapshots_paused thr ts st b start :
  startAssetUsd st = Some start -> bot_paused b = true -> snapshots thr ts (st, b) = (st, b).
Proof.
  intros Hs Hp. unfold snapshots. induction ts as [|t ts IH]; [done|]. cbn [foldl].
  unfold onSnapshot at 2. rewrite Hs, Hp. exact IH.
Qed.

(** From a known start and an unpaused bot, with or without a pending warning. *)
Lemma snapshots_confirm thr ts : forall st b start,
  nle thr (num_of_Z 0) = false -> startAssetUsd st = Some start -> bot_paused b = false ->
  let s' := snapshots thr ts (st, b) in
  (bot_paused s'.2 = true <->
     confirmed thr start ts
     \/ (drawdownWarning st = true /\ exists x post, ts = x :: post /\ over thr start x = true))
  /\ (bot_paused s'.2 = true -> s'.2 = pauseAll b) /\ (bot_paused s'.2 = false -> s'.2 = b).
Proof.
  induction ts as [|t ts IH]; intros st b start Ht Hs Hp s'.
  - subst s'. simpl. rewrite Hp. split_and!; [|done|done]. split; [done|].
    intros [(pre & x & y & post & E & _)|(_ & x & post & E & _)]; [by destruct pre|done].
  - assert (confirmed thr start (t :: ts) <->
      confirmed thr start ts \/ (over thr start t = true /\ exists x post, ts = x :: post /\ over thr start x = true)) as Hc.
    { split.
      - intros (pre & x & y & post & E & Hx & Hy). destruct pre as [|u pre]; injection E as -> E.
        + right. split; [done|]. exists y, post. done.
        + left. exists pre, x, y, post. done.
      - intros [(pre & x & y & post & -> & Hx & Hy)|(Ht' & x & post & -> & Hx)].
        + by exists (t :: pre), x, y, post.
        + by exists [], t, x, post. }
    assert (onSnapshot thr t (st, b) =
      if over thr start t then
        if drawdownWarning st then (st, pauseAll b) else (mkDrawdown (Some start) true, b)
      else (mkDrawdown (Some start) false, b)) as E.
    { unfold onSnapshot, over. rewrite Hs, Hp, Ht. by destruct (drawdownWarning st). }
    subst s'. change (snapshots thr (t :: ts) (st, b)) with (snapshots thr ts (onSnapshot thr t (st, b))).
    rewrite E, Hc. clear E Hc.
    destruct (over thr start t) eqn:Eo; [destruct (drawdownWarning st) eqn:Ew|].
    + rewrite (snapshots_paused thr ts st (pauseAll b) start) by done. split_and!; [|done|done].
      split; [|done]. intros _. right. split; [done|]. by exists t, ts.
    + destruct (IH (mkDrawdown (Some start) true) b start Ht eq_refl Hp) as (H1 & H2 & H3).
      split_and!; [|done|done]. rewrite H1. simpl. split; [intros [H|[_ H]]; [by left; left|left; by right]|].
      intros [[H|[_ H]]|[H _]]; [by left|by right|done].
    + destruct (IH (mkDrawdown (Some start) false) b start Ht eq_refl Hp) as (H1 & H2 & H3).
      split_and!; [|done|done]. rewrite H1. simpl. split; [intros [H|[H _]]; [by left; left|done]|].
      intros [[H|[H _]]|(_ & x & post & [= <- <-] & H)]; [by left|done|congruence].
Qed.

Lemma snapshots_disabled thr ts st b :
  nle thr (num_of_Z 0) = true -> (snapshots thr ts (st, b)).2 = b.
Proof.
  intros Ht. revert st. induction ts as [|t ts IH]; intros st; [done|].
  change (snapshots thr (t :: ts) (st, b)) with (snapshots thr ts (onSnapshot thr t (st, b))).
  unfold onSnapshot. rewrite Ht. destruct (startAssetUsd st), (bot_paused b); apply IH.
Qed.

Lemma snapshots_started thr ts : forall s,
  startAssetUsd s.1 <> None -> startAssetUsd (snapshots thr ts s).1 <> None.
Proof.
  induction ts as [|t ts IH]; intros [st b] Hs; [done|].
  change (snapshots thr (t :: ts) (st, b)) with (snapshots thr ts (onSnapshot thr t (st, b))).
  apply IH. unfold onSnapshot. simpl in Hs. repeat case_match; simpl; congruence.
Qed.

(** Drawdown protection pauses exactly when it should: from the start of the
    bot, with the first snapshot as the reference, the bot is paused iff the
    threshold is positive and two consecutive later snapshots have both lost
    at least the threshold; then every enabled executor is paused and no later
    snapshot changes that; until then no executor is touched. *)
Theorem drawdown_pause_confirmed thr first ts b :
  bot_paused b = false ->
  let s' := snapshots thr (first :: ts) (mkDrawdown None false, b) in
  (bot_paused s'.2 = true <-> nle thr (num_of_Z 0) = false /\ confirmed thr first ts)
  /\ (bot_paused s'.2 = true -> all_paused s'.2 /\ forall ts', (snapshots thr ts' s').2 = s'.2)
  /\ (bot_paused s'.2 = false -> s'.2 = b).
Proof.
  intros Hp. change (snapshots thr (first :: ts) (mkDrawdown None false, b))
    with (snapshots thr ts (mkDrawdown (Some first) false, b)). cbv zeta.
  destruct (nle thr (num_of_Z 0)) eqn:Ht.
  - rewrite (snapshots_disabled thr ts _ b Ht), Hp. split_and!; [|done|done]. split; [done|by intros []].
  - destruct (snapshots_confirm thr ts (mkDrawdown (Some first) false) b first Ht eq_refl Hp) as (H1 & H2 & H3).
    destruct (snapshots thr ts _) as [st b'] eqn:E. simpl in *. split_and!; [|intros Hb; split|done].
    + rewrite H1. split; [intros [H|[H _]]; done|]. intros [_ H]. by left.
    + rewrite H2 by done. apply pauseAll_paused.
    + intros ts'. destruct (startAssetUsd st) eqn:Es; [by erewrite snapshots_paused|].
      exfalso. apply (snapshots_started thr ts (mkDrawdown (Some first) false, b)); [done|by rewrite E].
Qed.

(** A paused bot takes no new risk: when every enabled executor is paused,
    whatever the event and whatever the executors do, the handler asks neither
    for an open nor for an increase. *)
Theorem drawdown_stops_opening `{L : BNLib} `{E : Router.Executors} cfg now w e b r b' tr :
  all_paused b -> Router.handleEvent cfg now w e b = (r, b', tr) ->
  Forall (fun c => match c with
                   | Router.CopyOpen _ _ _ _ _ | Router.CopyIncrease _ _ _ => False
                   | _ => True
                   end) (Router.calls tr).
Proof.
  intros Hall H. pose proof (Router.handleEvent_disciplined cfg now w e b) as D.
  unfold Router.wp in D. rewrite H in D. destruct D as [D _].
  rewrite List.Forall_forall in D. rewrite List.Forall_forall.
  intros c (a & Ha & Eq)%list_elem_of_In%list_elem_of_omap. apply list_elem_of_In, D in Ha.
  destruct a; simplify_eq/=. destruct c; try done; simpl in Ha; destruct_and!;
    match goal with G : Router.may_grow _ _ _ _ |- _ => destruct G as (x & Hx & _ & Hd & _) end;
    by rewrite (Hall _ x Hx) in Hd.
Qed.

(** ** Concrete runs *)

Definition demo_spam : list string := replicate 5 Parser.SYSTEM_PROGRAM_SUCCESS.

Lemma prequeue_filter_sound_witness :
  filteredPreQueue Parser.demo_cfg demo_spam = true
  /\ Parser.parseTransaction (D := base58) Parser.demo_cfg (fun _ => Throw "down"%string) demo_spam "W"
       = Ret [UNKNOWN].
Proof.
  split; [vm_compute; reflexivity|].
  refine (proj1 (prequeue_filter_sound Parser.demo_cfg (D := base58) _ demo_spam "W" _)).
  vm_compute. reflexivity.
Defined.

Lemma duplicate_signatures_skipped_witness :
  let seen' := notifications Parser.demo_cfg [("s2"%string, []); ("s3"%string, [])]
                 (onTransaction Parser.demo_cfg "s1" [] ["s0"%string]).2 in
  onTransaction Parser.demo_cfg "s1" [] seen' = (false, seen') /\ (length seen' <= 1000)%nat.
Proof.
  refine (duplicate_signatures_skipped Parser.demo_cfg "s1" [] [] [("s2"%string, []); ("s3"%string, [])]
            ["s0"%string] _ _ eq_refl _ _).
  - split_and!; [apply NoDup_singleton|simpl; lia|by repeat constructor].
  - by intros [=]%list_elem_of_singleton.
  - by repeat constructor.
  - simpl. lia.
Defined.

Definition demo_map : PositionMap.t :=
  PositionMap.mk [("NFT"%string, mkEntry "O1" 5 None None None None None None None)]
    (WriteChain.new_chain WriteChain.RETRY_DELAYS_MS).

Definition demo_bot : State.Bot :=
  State.set_executors Router.paused None None None None (State.fresh demo_map).

Lemma demo_pending_wf : PendingSwaps.wf_pending (State.pendingSwaps demo_bot).
Proof. split; [apply wf_nil|done]. Qed.

Lemma byreal_close_mirrored_witness :
  exists rs rest b',
    processTx (D := base58) (L := Z_BN) (E := Router.demo_executors) Parser.demo_cfg Router.demo_config 0
        (Parser.demo_fetch Parser.demo_close_tx) Parser.demo_logs "W" demo_bot
      = (Ret tt, b', Router.ARecordReceived rs :: Router.ACall (Router.CopyClose Byreal "NFT") :: rest)
    /\ mkReceived "USDC" "150" ∈ rs.
Proof.
  destruct (byreal_close_mirrored (D := base58) (L := Z_BN) (E := Router.demo_executors)
    Parser.demo_cfg Router.demo_config 0 (BNLaws0 := Z_BN_laws)
    (Parser.demo_fetch Parser.demo_close_tx) Parser.demo_logs "W" Parser.demo_close_tx 1 "NFT" [] demo_bot)
    as (rs & rest & b' & H & Hrs);
    try (vm_compute; reflexivity); try lia; try (apply Parser.demo_wf; auto).
  - intros i Hi. right. exists "429"%string. by destruct i; [|lia].
  - exact demo_pending_wf.
  - exists rs, rest, b'. split; [exact H|]. apply Hrs. split; vm_compute; reflexivity.
Defined.

Lemma drawdown_pause_confirmed_witness :
  let b := pauseAll (State.set_executor Byreal State.idle demo_bot) in
  let s' := snapshots (num_of_Z 20) (map num_of_Z [100; 79; 90; 80; 75])
              (mkDrawdown None false, State.set_executor Byreal State.idle demo_bot) in
  bot_paused s'.2 = true /\ all_paused s'.2 /\ s'.2 = b.
Proof.
  split_and!; [vm_compute; reflexivity| |vm_compute; reflexivity].
  refine (proj1 (proj1 (proj2 (drawdown_pause_confirmed (num_of_Z 20) (num_of_Z 100)
            (map num_of_Z [79; 90; 80; 75]) _ _)) _)); vm_compute; reflexivity.
Defined.

Lemma drawdown_stops_opening_witness :
  exists r b' tr,
    Router.handleEvent (L := Z_BN) (E := Router.demo_executors) Router.demo_config 0 "W"
      (BYREAL_INCREASE_LIQUIDITY "NFT") demo_bot = (r, b', tr) /\ Router.calls tr = []
    /\ Forall (fun c => match c with
                        | Router.CopyOpen _ _ _ _ _ | Router.CopyIncrease _ _ _ => False
                        | _ => True
                        end) (Router.calls tr).
Proof.
  eexists _, _, _. split; [reflexivity|]. split; [reflexivity|].
  refine (drawdown_stops_opening (L := Z_BN) (E := Router.demo_executors) Router.demo_config 0 "W"
            (BYREAL_INCREASE_LIQUIDITY "NFT") demo_bot _ _ _ _ eq_refl).
  intros [] x [=]; by subst.
Defined.

End Monitor.
