(* ===== verification/Mirror.v ===== *)
(** * The router over the Byreal executor

    The executor operations of [ByrealOps] and [ByrealOpen], run against an
    environment that answers their calls, as the interface [Router.Executors]
    the handlers call: the calls for Byreal go to this implementation, those for
    the other exchanges to a parameter.  On top of it, what handling a
    transaction that closes positions sends and does to the position map. *)

From S2P Require Import Prelude JsMap JsString JsNumber Json Async Ratio TxTypes ParserCore ParserDex Parser WriteChain PositionMap Store Stores Risk PumpPending ActivityLog State Chain ByrealOps ByrealOpen Discipline ByrealClose Router Monitor.
Open Scope Z_scope.
Open Scope list_scope.

Module Mirror.
Import Async State Chain ByrealOps ByrealOpen ByrealClose.

Section Executors.
Context `{L : BNLib} `{W : Web3} (cfg : Settings).
(** What answers the calls of each operation. *)
Context (env : Router.Call -> Bot -> Env Bot Call Ans).
Context (others : Router.Executors).

Definition decrease_text (t : DecreaseType) : string :=
  match t with DECREASE => "DECREASE" | COLLECT_FEE => "COLLECT_FEE" end.

Definition start {A} (c : Router.Call) (p : P A) (b : Bot) : outcome A * Bot :=
  let x := run (env c b) 0 [] p b in (res x, final x).

Definition answered {A B} (f : A -> B) (x : outcome (option A) * Bot) : outcome (option B) * Bot :=
  (let! o := x.1 in Ret (f <$> o), x.2).

#[export] Instance byreal_executors : Router.Executors := {|
  Router.run_sig := fun c b =>
    match c with
    | Router.CopyOpen Byreal pos pool ref w => start c (copyOpenPosition cfg (mkOpenRequest pos pool ref (Some w))) b
    | Router.CopyIncrease Byreal pos w => start c (copyIncreaseLiquidity cfg pos (Some w)) b
    | Router.CopyClose Byreal pos => start c (copyClosePosition cfg pos) b
    | _ => Router.run_sig (Executors := others) c b
    end;
  Router.run_decrease := fun c b =>
    match c with
    | Router.CopyDecrease Byreal pos =>
        answered (fun r => Router.mkDecrease r.1 (decrease_text r.2)) (start c (copyDecreaseLiquidity cfg pos) b)
    | _ => Router.run_decrease (Executors := others) c b
    end;
  Router.run_swap := fun c b =>
    match c with
    | Router.SwapTokenToUSDC m cap =>
        answered (fun r => Router.mkSwapResult (d_sig r) (d_amountRaw r) (d_outputRaw r))
          (start c (swapTokenToUSDC cfg m (Some cap)) b)
    | _ => Router.run_swap (Executors := others) c b
    end
|}.

End Executors.

(** ** One close *)

Section Closes.
Context `{L : BNLib} `{E : Router.Executors} (cfg : Router.Config) (now : Z) (w : string).

(** The handler leaves the map as the executor left it, having credited the
    tokens received before the executor is asked; it asks for nothing when they
    cannot be credited or the position is not mapped. *)
Lemma close_handler p rs b :
  let '(_, b', tr) := Router.handleEvent cfg now w (BYREAL_CLOSE_POSITION p rs) b in
  let called := exists ps, Router.ACall (Router.CopyClose Byreal p) ∈ tr
    /\ positionMap b' = positionMap (Router.run_sig (Router.CopyClose Byreal p) (set_pending ps b)).2 in
  (called \/ positionMap b' = positionMap b)
  /\ (PositionMap.hasMapping p (positionMap b) = true -> (exists s, Router.creditReceived now rs (pendingSwaps b) = (Ret tt, s)) ->
      called).
Proof using Type.
  unfold Router.handleEvent, Router.on_byreal_close.
  unfold Router.bind, Router.recordBotCloseReceived, Router.act, Router.bind, Router.hasMapping, Router.getPool,
    Router.reads, Router.call_sig, Router.bind, Router.act.
  destruct (Router.creditReceived now rs (pendingSwaps b)) as [[[]|e] ps].
  2:{ simpl. split; [by right|]. by intros _ [s ?]. }
  set (b1 := set_pending ps b). cbn [fst snd]. change (positionMap b1) with (positionMap b).
  destruct (PositionMap.hasMapping p (positionMap b)); cbn [negb].
  2:{ split; [by right|done]. }
  destruct (Router.run_sig (Router.CopyClose Byreal p) b1) as [[o|e] b2] eqn:Er; unfold Router.when;
    change (positionMap b1) with (positionMap b);
    [destruct (truthy o), (PositionMap.getPool p (positionMap b)) as [pool|], (PositionMap.get p (positionMap b)) as [our|];
      try destruct (truthy pool && truthy our)|].
  all: split; [left|intros _ _]; exists ps; fold b1; rewrite Er; (split; [simpl; set_solver|reflexivity]).
Qed.

End Closes.

(** ** A transaction that closes *)

(** Between two maps: only the positions [ps] were dropped, nothing was added. *)
Definition dropped (ps : list string) (m m' : PositionMap.t) : Prop :=
  wf_map (PositionMap.map_ m) ->
  wf_map (PositionMap.map_ m')
  /\ (forall q, q ∉ ps -> PositionMap.get q m' = PositionMap.get q m)
  /\ (forall q, PositionMap.get q m = None -> PositionMap.get q m' = None).

#[export] Instance dropped_refl ps : Reflexive (dropped ps).
Proof. by intros m Hwf. Qed.

Lemma dropped_trans ps ps' m1 m2 m3 : dropped ps m1 m2 -> dropped ps' m2 m3 -> dropped (ps ++ ps') m1 m3.
Proof.
  intros H1 H2 (Hwf & Ho & Hn)%H1. destruct (H2 Hwf) as (Hwf3 & Ho3 & Hn3). split_and!; [done| |auto].
  intros q Hq. rewrite Ho3, Ho by set_solver. done.
Qed.

Lemma delete_dropped p m : dropped [p] m (PositionMap.delete p m).
Proof.
  intros Hwf. unfold PositionMap.get, PositionMap.delete. cbn. split_and!; [by apply wf_jdel| |].
  - intros q Hq. rewrite jget_jdel_ne by set_solver. done.
  - intros q Hq. destruct (decide (p = q)) as [->|Hne]; [by rewrite jget_jdel|by rewrite jget_jdel_ne].
Qed.

Lemma delete_forgets p m : wf_map (PositionMap.map_ m) -> PositionMap.get p (PositionMap.delete p m) = None.
Proof. intros Hwf. unfold PositionMap.get, PositionMap.delete. cbn. by rewrite jget_jdel. Qed.

Section Transaction.
Context `{L : BNLib} `{W : Web3} (cfg : Settings) (env : Router.Call -> Bot -> Env Bot Call Ans) (others : Router.Executors).
Context (rcfg : Router.Config) (now : Z) (w : string).
Context (live : dryRun cfg = false) (alone : forall c b, others_keep_map (env c b)).

#[local] Instance executors : Router.Executors := byreal_executors cfg env others.

(** A close the executor attempts. *)
Lemma attempt_drops p b : dropped [p] (positionMap b) (positionMap (Router.run_sig (Router.CopyClose Byreal p) b).2).
Proof using live alone.
  unfold Router.run_sig, executors, byreal_executors, start. cbn [fst snd].
  destruct (PositionMap.get p (positionMap b)) as [our|] eqn:Eg.
  - destruct (close_runs cfg p our (env (Router.CopyClose Byreal p) b) 0 b live Eg) as [[->|[-> _]] _];
      [done|reflexivity|apply delete_dropped].
  - unfold copyClosePosition, mapped. cbn. by rewrite Eg.
Qed.

Lemma close_event_drops p rs b :
  dropped [p] (positionMap b) (positionMap (Router.handleEvent rcfg now w (BYREAL_CLOSE_POSITION p rs) b).1.2).
Proof using live alone.
  pose proof (close_handler rcfg now w p rs b) as Hh.
  destruct (Router.handleEvent rcfg now w (BYREAL_CLOSE_POSITION p rs) b) as [[r b'] tr]. cbn [fst snd].
  destruct Hh as [[(ps & _ & ->)| ->] _]; [apply (attempt_drops p (set_pending ps b))|done].
Qed.

Lemma close_events_drop rs ps : forall b,
  dropped ps (positionMap b)
    (positionMap (Router.handleEvents rcfg now w (map (fun p => BYREAL_CLOSE_POSITION p rs) ps) b).1.2).
Proof using live alone.
  induction ps as [|p ps IH]; intros b; [done|]. cbn [map Router.handleEvents]. unfold Router.bind.
  pose proof (close_event_drops p rs b) as Hp.
  destruct (Router.handleEvent rcfg now w (BYREAL_CLOSE_POSITION p rs) b) as [[[[]|e] b1] tr]; cbn [fst snd] in *.
  - specialize (IH b1). destruct (Router.handleEvents rcfg now w _ b1) as [[r b2] tr2].
    exact (dropped_trans [p] ps _ _ _ Hp IH).
  - apply (dropped_trans [p] ps _ _ _ Hp). done.
Qed.

End Transaction.

(** A close of our position was built, signed and sent, and its transaction
    fetched without an error. *)
Definition close_landed `{L : BNLib} `{W : Web3} (our : string) (h : list (HEvent Call Ans Task)) : Prop :=
  exists s, sent_close our s h /\ verified s h.

(** An executor that is willing closes and forgets. *)
Lemma willing_close `{L : BNLib} `{W : Web3} `{!BNLaws L} cfg p our env b :
  dryRun cfg = false -> busy_of Byreal b = false -> wf_map (PositionMap.map_ (positionMap b)) ->
  PositionMap.get p (positionMap b) = Some our -> truthy our = true -> web3_accepts our ->
  (forall n c b, cooperative c (answer env n c b).1 /\ same_pm b (answer env n c b).2) ->
  let x := run env 0 [] (copyClosePosition cfg p) b in
  positionMap (final x) = PositionMap.delete p (positionMap b) /\ close_landed our (hist x).
Proof.
  intros Hlive Hbusy Hwf Hget Hour Hw Hcoop x.
  assert (positionMap (final x) = PositionMap.delete p (positionMap b)) as Hdel by by apply (closes_in_run cfg p our).
  split; [done|].
  destruct (close_runs cfg p our env 0 b Hlive Hget) as [Hkept _]; [intros n c b0; apply Hcoop|]. fold x in Hkept.
  destruct Hkept as [Hsame|[_ [[]|(s & _ & Hs & Hv)]]]; [|by exists s].
  unfold same_pm in Hsame. rewrite Hsame in Hdel. rewrite Hdel, delete_forgets in Hget by done. done.
Qed.

(** C10: A target's close becomes our close: when a transaction only closes Byreal
    positions, and the first one it burned is mapped, then with the executor
    idle and chain, SDK and signer doing what they are asked, the whole job,
    from the notification to the last handler, asks the executor to close it;
    that run of the executor (from the bot with the tokens received credited)
    has our position's close built, signed and sent, and its transaction
    fetched without an error; and the job ends with the position no longer
    mapped.  Whatever it burned, only positions of the transaction are ever
    dropped, every other mapping stays, and none is added. *)
Theorem close_carried_out `{D : Bs58} `{L : BNLib} `{W : Web3} `{!BNLaws L} cfg env others pcfg rcfg now
    fetch logs w tx p ps our b :
  Monitor.only_closes pcfg fetch logs w tx -> Core.findClosedNftMintsFromTx tx w = p :: ps ->
  dryRun cfg = false -> busy_of Byreal b = false ->
  wf_map (PositionMap.map_ (positionMap b)) -> PendingSwaps.wf_pending (pendingSwaps b) ->
  PositionMap.get p (positionMap b) = Some our -> truthy our = true -> web3_accepts our ->
  (forall op s n c b, cooperative c (answer (env op s) n c b).1 /\ same_pm b (answer (env op s) n c b).2) ->
  let op := Router.CopyClose Byreal p in
  let '(r, b', tr) := Monitor.processTx (E := byreal_executors cfg env others) pcfg rcfg now fetch logs w b in
  r = Ret tt
  /\ Router.ACall op ∈ tr
  /\ (exists credited, let b1 := set_pending credited b in
       close_landed our (hist (run (env op b1) 0 [] (copyClosePosition cfg p) b1)))
  /\ PositionMap.get p (positionMap b') = None
  /\ (forall q, q ∉ p :: ps -> PositionMap.get q (positionMap b') = PositionMap.get q (positionMap b))
  /\ (forall q, PositionMap.get q (positionMap b) = None -> PositionMap.get q (positionMap b') = None).
Proof.
  intros Htx Hburn Hlive Hbusy Hwf Hps Hget Hour Hw Hcoop op.
  assert (forall op s, others_keep_map (env op s)) as Halone by (intros o s n c b0; apply Hcoop).
  destruct (Monitor.only_closes_events pcfg now fetch logs w tx Htx) as (rs & Hparse & _ & Hcredit).
  unfold Monitor.processTx. rewrite Hparse, Hburn.
  pose proof (close_events_drop cfg env others rcfg now w Hlive Halone rs (p :: ps) b Hwf) as (_ & Hothers & Hnone).
  pose proof (close_event_drops cfg env others rcfg now w Hlive Halone p rs b Hwf) as (Hwf1 & _).
  pose proof (close_handler (E := byreal_executors cfg env others) rcfg now w p rs b) as Hh.
  cbn [map Router.handleEvents] in *. unfold Router.bind, executors in *.
  destruct (Router.handleEvent (E := byreal_executors cfg env others) rcfg now w (BYREAL_CLOSE_POSITION p rs) b)
    as [[r1 b2] tr].
  destruct Hh as [_ Hcalled]. destruct Hcalled as (credited & Hcall & Hafter);
    [by unfold PositionMap.hasMapping; rewrite Hget|by apply Hcredit|].
  destruct (willing_close cfg p our (env op (set_pending credited b)) (set_pending credited b)) as [Hclosed Hlanded]; try done.
  change (positionMap b2 = positionMap (final (run (env op (set_pending credited b)) 0 [] (copyClosePosition cfg p)
            (set_pending credited b)))) in Hafter. rewrite Hclosed in Hafter.
  assert (PositionMap.get p (positionMap b2) = None) as Hnow by (rewrite Hafter; by apply delete_forgets).
  destruct r1 as [[]|e]; cbn [fst snd] in *.
  2:{ split_and!; [done|done|by exists credited|done..]. }
  pose proof (close_events_drop cfg env others rcfg now w Hlive Halone rs ps b2 Hwf1) as (_ & _ & Hgone).
  unfold executors in *. destruct (Router.handleEvents _ _ _ _ b2) as [[r b3] tr3]; cbn [fst snd] in *.
  split_and!; [done|set_solver|by exists credited|by apply Hgone|done..].
Qed.

(** ** A concrete run: the bot is paused, and still closes *)

Definition willing (_ : Router.Call) (_ : Bot) : Env Bot (Call (L := Z_BN)) (Ans (L := Z_BN)) :=
  demo_env (Ret "Sig"%string) (fun _ => None).

Definition demo_job :=
  Monitor.processTx (D := base58) (L := Z_BN)
    (E := byreal_executors (L := Z_BN) (W := demo_web3) demo_settings willing Router.demo_executors)
    Parser.demo_cfg Router.demo_config 0 (Parser.demo_fetch Parser.demo_close_tx) Parser.demo_logs "W" Monitor.demo_bot.

Lemma close_carried_out_witness :
  PositionMap.get "NFT" (positionMap Monitor.demo_bot) = Some "O1"%string
  /\ PositionMap.get "NFT" (positionMap demo_job.1.2) = None
  /\ Router.ACall (Router.CopyClose Byreal "NFT") ∈ demo_job.2
  /\ demo_job.1.1 = Ret tt.
Proof.
  split; [by vm_compute|].
  pose proof (close_carried_out (D := base58) (L := Z_BN) (W := demo_web3) (BNLaws0 := Z_BN_laws) demo_settings willing
    Router.demo_executors Parser.demo_cfg Router.demo_config 0 (Parser.demo_fetch Parser.demo_close_tx)
    Parser.demo_logs "W" Parser.demo_close_tx "NFT" [] "O1" Monitor.demo_bot) as H.
  unfold demo_job. cbv zeta in H. destruct (Monitor.processTx _ _ _ _ _ _ _) as [[r b'] tr].
  destruct H as (Hr & Hc & _ & Hg & _); [..|by split].
  - split_and!; try (vm_compute; reflexivity); try (apply Parser.demo_wf; auto).
    exists 1%nat. split_and!; [lia|vm_compute; reflexivity|].
    intros i Hi. right. exists "429"%string. by destruct i; [|lia].
  - by vm_compute.
  - done.
  - done.
  - by repeat constructor; set_solver.
  - exact Monitor.demo_pending_wf.
  - by vm_compute.
  - done.
  - split_and!; simpl; eauto.
  - intros op s n c b. split; [|done]. destruct c; split; simpl; eauto; done.
Defined.

End Mirror.
