(* ===== verification/Signer.v ===== *)
(** * The remote signer ([signer/])

    The signer holds the key and signs what its policy allows.
    - [Policy] is [signer/policy.ts] with [signer/alt-resolver.ts] and
      [handleRequest] of [signer/index.ts].  The Solana library (decoding a
      transaction, derived addresses, the RPC connection, the signature) is the
      interface [Web3].  A public key is its base58 text.  A request is what
      [JSON.parse] and the base64 decoder make of the frame.
    - [Frames] is the length-prefixed protocol on the Unix socket: the server's
      side in [signer/index.ts] and the client's in [src/utils/wallet.ts]. *)

From Stdlib Require Import Ascii.
From S2P Require Import Prelude JsMap JsString JsNumber.
Open Scope Z_scope.
Open Scope list_scope.

Module Policy.

(** ** Transactions *)

Record Lookup := mkLookup { accountKey : string; writableIndexes : list nat; readonlyIndexes : list nat }.

Record CompiledIx := mkCompiled { programIdIndex : nat; accountKeyIndexes : list nat; cdata : list Z }.

Record Message := mkMessage {
  staticAccountKeys : list string;
  addressTableLookups : list Lookup;
  compiledInstructions : list CompiledIx;
}.

Record LegacyIx := mkLegacy { programId : string; keys : list string; ldata : list Z }.

Inductive Tx := Versioned (m : Message) | Legacy (ixs : list LegacyIx).

Inductive TxType := versioned | legacy.

Record SimResult := mkSim { sim_err : bool; sim_logs : option (list string) }.

(** What the library and the RPC answer. *)
Class Web3 := {
  deserializeVersioned : list Z -> outcome Message;
  deserializeLegacy : list Z -> outcome (list LegacyIx);
  getMultipleAccountsInfo : list string -> outcome (list (option (list Z)));
  deserializeLookupTable : list Z -> outcome (list string);
  (** [message.getAccountKeys({ addressLookupTableAccounts })] as a list *)
  getAccountKeys : Message -> list (string * list string) -> outcome (list string);
  (** the owner of an account, [None] when it does not exist *)
  getAccountOwner : string -> outcome (option string);
  (** whether [new PublicKey(s)] accepts the text *)
  isPublicKey : string -> bool;
  (** seeds owner, token program and mint under the associated-token program *)
  findProgramAddressSync : string -> string -> string -> outcome string;
  simulateTransaction : Tx -> outcome SimResult;
  sign : TxType -> list Z -> outcome (list Z);
}.

Record SignerConfig := mkSigner {
  programAllowlist : list string;
  destinationWhitelist : list string;
  BYREAL_PROGRAM_ID : option string;      (** of the environment *)
}.

Definition SPL_TRANSFER : Z := 3.
Definition SPL_APPROVE : Z := 4.
Definition SPL_SET_AUTHORITY : Z := 6.
Definition SPL_TRANSFER_CHECKED : Z := 12.
Definition TOKEN_PROGRAM : string := "TokenkegQfeZyiNwAJbNbGKPFXCWuBvf9Ss623VQ5DA".
Definition TOKEN_2022 : string := "TokenzQdBNbLqP5VEhdkAS6EPFLC1PHnBqCXEpPxuEb".
Definition SYSTEM_PROGRAM : string := "11111111111111111111111111111111".
Definition JUPITER_PROGRAM : string := "JUP6LkbZbjS1jKKwapdHNy74zcZ3tLUZoi5QNyVTaV4".

(** [signerConfig] ([signer/config.ts]) from the environment. *)
Definition signerConfig (byrealProgramId destWhitelist : option string) : SignerConfig := {|
  programAllowlist := set_of
    [or_else byrealProgramId "REALQqNEomY6cQGZJUGwywTBD2UmDT32rZcNnfxQ5N2";
      "whirLbMiicVdio4qvUfM5KAg6Ct8VwpYzGff3uctyCc"; "LBUZKhRxPF3XUpBCjp4YzTKgLccjZhTSDM9YuVaPwxo";
      "cpamdpZCGKUy5JxQXB4dcpGPiikHawvSWAd6mEn1sGG"; "HpNfyc2Saw7RKkQd8nEL4khUcuPhQ7WwY1B2qjx8jxFq";
      "JUP6LkbZbjS1jKKwapdHNy74zcZ3tLUZoi5QNyVTaV4"; "11111111111111111111111111111111";
      "ComputeBudget111111111111111111111111111111"; "MemoSq4gqABAXKb96qnH8TysNcWxMyWCqXgDLGmfcHr";
      "TokenkegQfeZyiNwAJbNbGKPFXCWuBvf9Ss623VQ5DA"; "TokenzQdBNbLqP5VEhdkAS6EPFLC1PHnBqCXEpPxuEb";
      "ATokenGPvbdGVxr1b2hvZbsiqW5xWH25efTNsLJA8knL"; "AddressLookupTab1e1111111111111111111111111";
      "metaqbxxUerdq28cj1RbAWkYQm3ybzjb6a8bt518x1s"; "PhoeNiXZ8ByJGLkxNfZRnkUfjvmuYqLR89jjFHGqdXY";
      "srmqPvymJeFKQ4zGQed1GFppgkRHL9kaELCbyksJtPX"; "opnb2LAfJYbRMAHHvqjCwQxanZn7ReEHp1k81EQMQvR";
      "MarBmsSgKXdrN1egZf5sqe1TMai9K1rChYNDJgjq7aD"; "CAMMCzo5YL8w4VFF8KVHrK22GGUsp5VTaW7grrKgrWqK";
      "RVKd61ztZW9GUwhRbbLoYVRE5Xf1B2tVscKqwZqXgEr"; "675kPX9MHTjS2zt1qfr1NYHuzeLXfQM9H24wFSUt1Mp8";
      "whirLbMiicVdio4qvUfM5KAg6Ct8VwpYzGff3uctyCc"; "LBUZKhRxPF3XUpBCjp4YzTKgLccjZhTSDM9YuVaPwxo";
      "Eo7WjKq67rjJQSZxS6z3YkapzY3eMj6Xy8X5EQVn5UaB"; "DjVE6JNiYqPL2QXyCUUh8rNjHrbz9hXHNYt99MQ59qw1";
      "SSwpkEEcbUqx4vtoEByFjSkhKdCT862DNVb52nZg1UZ"; "DecZY86MU5Gj7kppfUCEmd4LbXXuyZH1yHaP2NTqdiZB";
      "MERLuDFBMmsHnsBPZw2sDQZHvXFMwp8EdjudcU2HKky"; "SSwapUtytfBdBn1b9NUGG6foMVPtcWgpRU32HToDUZr";
      "So1endDq2YkqhipRh3WViPa8hFMqshtxtZTV7LJHZ1K"; "pfeeUxB6jkeY1Hxd7CsFCAjcbHA9rWtchMGdZ6VojVZ"]%string;
  destinationWhitelist :=
    set_of (keep (fun s => (0 <? String.length s)%nat) (map trim (split_on "," (or_else destWhitelist ""))));
  BYREAL_PROGRAM_ID := byrealProgramId |}.

Inductive PolicyResult := Allowed | Denied (reason : string).

Section Policy.
Context `{W : Web3} (cfg : SignerConfig).

(** ** Account keys ([alt-resolver.ts]) *)

Fixpoint load_tables (altKeys : list string) (altAccounts : list (option (list Z)))
  : outcome (list (string * list string)) :=
  match altKeys with
  | [] => Ret []
  | k :: altKeys' =>
      match head altAccounts with
      | Some (Some account) =>
          let! table := deserializeLookupTable account in
          let! rest := load_tables altKeys' (tail altAccounts) in
          Ret ((k, table) :: rest)
      | _ => Throw ("ALT account not found: " +:+ k)%string
      end
  end.

Definition resolveALTs (m : Message) : outcome (list string) :=
  match addressTableLookups m with
  | [] => Ret (staticAccountKeys m)
  | lookups =>
      let altKeys := map accountKey lookups in
      let! altAccounts := getMultipleAccountsInfo altKeys in
      let! tables := load_tables altKeys altAccounts in
      getAccountKeys m tables
  end.

(** The distinct program ids, in the order of first use; an index past the
    keys is left out. *)
Definition extractProgramIds (allKeys : list string) (m : Message) : list string :=
  set_of (omap (fun ix => allKeys !! programIdIndex ix) (compiledInstructions m)).

(** ** Destinations of token transfers *)

Definition isAtaForWhitelistedOwner (dest mint tokenProgramId : string) : bool :=
  isPublicKey dest && isPublicKey mint && isPublicKey tokenProgramId
  && some (fun owner =>
       isPublicKey owner
       && match findProgramAddressSync owner tokenProgramId mint with
          | Ret ata => bool_decide (ata = dest)
          | Throw _ => false
          end) (destinationWhitelist cfg).

Definition checkTransferDestination (dest : string) (hasDexInstruction : bool) (mint : option string)
    (tokenProgramId : string) : PolicyResult :=
  let rejected := Denied ("Standalone SPL transfer to non-whitelisted address: " +:+ dest)%string in
  if shas dest (destinationWhitelist cfg) then Allowed
  else if match mint with
          | Some mt => truthy mt && isAtaForWhitelistedOwner dest mt tokenProgramId
          | None => false
          end then Allowed
  else if hasDexInstruction then Allowed
  else
    match (if isPublicKey dest then getAccountOwner dest else Throw "Invalid public key input"%string) with
    | Ret (Some owner) =>
        if negb (bool_decide (owner = SYSTEM_PROGRAM)) && shas owner (programAllowlist cfg)
        then Allowed else rejected
    | _ => rejected
    end.

(** ** The checks *)

Definition DEX_PROGRAMS : list string :=
  [or_else (BYREAL_PROGRAM_ID cfg) "REALQqNEomY6cQGZJUGwywTBD2UmDT32rZcNnfxQ5N2"%string;
   "whirLbMiicVdio4qvUfM5KAg6Ct8VwpYzGff3uctyCc"; "LBUZKhRxPF3XUpBCjp4YzTKgLccjZhTSDM9YuVaPwxo";
   "cpamdpZCGKUy5JxQXB4dcpGPiikHawvSWAd6mEn1sGG"; "HpNfyc2Saw7RKkQd8nEL4khUcuPhQ7WwY1B2qjx8jxFq";
   JUPITER_PROGRAM]%string.

(** The body of the instruction loop, which the source has twice; the copies
    differ in how the [n]-th account is read and in a log line. [None] goes on. *)
Definition check_ix (hasDex : bool) (program : option string) (data : list Z) (key : nat -> option string)
  : option string :=
  match program with
  | Some p =>
      if negb (bool_decide (p = TOKEN_PROGRAM)) && negb (bool_decide (p = TOKEN_2022)) then None
      else
        match head data with
        | Some disc =>
            if (disc =? SPL_TRANSFER) || (disc =? SPL_TRANSFER_CHECKED) then
              let dest := if disc =? SPL_TRANSFER then key 1%nat else key 2%nat in
              let mint := if disc =? SPL_TRANSFER_CHECKED then key 1%nat else None in
              match dest with
              | Some d =>
                  if truthy d then
                    match checkTransferDestination d hasDex mint p with
                    | Allowed => None
                    | Denied r => Some r
                    end
                  else None
              | None => None
              end
            else if disc =? SPL_SET_AUTHORITY
            then Some "SPL SetAuthority is blocked — potential authority hijack"%string
            else None
        | None => None
        end
  | None => None
  end.

(** The first refusal of a loop. *)
Definition first_denial {A} (f : A -> option string) (l : list A) : option string := head (omap f l).

Definition check_versioned_ix (allKeys : list string) (hasDex : bool) (ix : CompiledIx) : option string :=
  check_ix hasDex (allKeys !! programIdIndex ix) (cdata ix)
    (fun n => accountKeyIndexes ix !! n ≫= fun i => allKeys !! i).

Definition check_legacy_ix (hasDex : bool) (ix : LegacyIx) : option string :=
  check_ix hasDex (Some (programId ix)) (ldata ix) (fun n => keys ix !! n).

Definition extractInvokedPrograms (logs : list string) : list string :=
  set_of (omap (match_run_between "Program " is_word 32 44 " invoke") logs).

Definition check_program (pid : string) : option string :=
  if shas pid (programAllowlist cfg) then None else Some ("Unknown program: " +:+ pid)%string.

Definition check_invoked (pid : string) : option string :=
  if shas pid (programAllowlist cfg) then None
  else Some ("Simulation revealed unknown invoked program: " +:+ pid)%string.

(** Step 3; a simulation that throws or fails is not a refusal. *)
Definition check_simulation (tx : Tx) (programIds : list string) : option string :=
  match simulateTransaction tx with
  | Throw _ => None
  | Ret r =>
      let hasJupiter := some (fun p => bool_decide (p = JUPITER_PROGRAM)) programIds in
      match sim_logs r with
      | Some logs =>
          if negb hasJupiter then first_denial check_invoked (extractInvokedPrograms logs) else None
      | None => None
      end
  end.

Definition hasDexInstruction (programIds : list string) : bool :=
  some (fun p => shas p DEX_PROGRAMS) programIds.

(** Steps 2 and 3 on the decoded transaction. *)
Definition checkDecoded (tx : Tx) (programIds : list string) (ix_denial : option string) : PolicyResult :=
  match first_denial check_program programIds with
  | Some r => Denied r
  | None =>
      match ix_denial with
      | Some r => Denied r
      | None => match check_simulation tx programIds with Some r => Denied r | None => Allowed end
      end
  end.

Definition checkPolicy (txBytes : list Z) (type : TxType) : outcome PolicyResult :=
  match type with
  | versioned =>
      let! m := deserializeVersioned txBytes in
      match resolveALTs m with
      | Throw e => Ret (Denied ("ALT resolution failed: " +:+ e)%string)
      | Ret allKeys =>
          let programIds := extractProgramIds allKeys m in
          Ret (checkDecoded (Versioned m) programIds
                 (first_denial (check_versioned_ix allKeys (hasDexInstruction programIds))
                    (compiledInstructions m)))
      end
  | legacy =>
      let! ixs := deserializeLegacy txBytes in
      let programIds := map programId ixs in
      Ret (checkDecoded (Legacy ixs) programIds
             (first_denial (check_legacy_ix (hasDexInstruction programIds)) ixs))
  end.

(** ** Requests *)

(** [type] and [tx] of the parsed JSON, [tx] decoded; [None] is falsy. *)
Record Request := mkRequest { r_type : option string; r_tx : option (list Z) }.

Inductive Response := Signed (tx : list Z) | Refused (error : string).

Definition handleRequest (request : outcome Request) : Response :=
  let result :=
    let! rq := request in
    match r_type rq, r_tx rq with
    | Some type, Some txBytes =>
        let go ty :=
          let! policyResult := checkPolicy txBytes ty in
          match policyResult with
          | Denied reason => Ret (Refused reason)
          | Allowed => let! signedBytes := sign ty txBytes in Ret (Signed signedBytes)
          end in
        if negb (truthy type) then Ret (Refused "Invalid request: missing type or tx"%string)
        else if bool_decide (type = "versioned"%string) then go versioned
        else if bool_decide (type = "legacy"%string) then go legacy
        else Ret (Refused ("Invalid type: " +:+ type)%string)
    | _, _ => Ret (Refused "Invalid request: missing type or tx"%string)
    end in
  match result with Ret r => r | Throw e => Refused e end.

(** ** What a signature means *)

(** An instruction as the loop reads it. *)
Record View := mkView { v_program : option string; v_data : list Z; v_key : nat -> option string }.

Definition view_versioned (allKeys : list string) (ix : CompiledIx) : View :=
  mkView (allKeys !! programIdIndex ix) (cdata ix)
    (fun n => accountKeyIndexes ix !! n ≫= fun i => allKeys !! i).
Definition view_legacy (ix : LegacyIx) : View :=
  mkView (Some (programId ix)) (ldata ix) (fun n => keys ix !! n).

(** [b] decodes to a transaction with these program ids and instructions. *)
Definition decodes (ty : TxType) (b : list Z) (tx : Tx) (pids : list string) (vs : list View) : Prop :=
  match ty with
  | versioned => exists m ks, deserializeVersioned b = Ret m /\ resolveALTs m = Ret ks
      /\ tx = Versioned m /\ pids = extractProgramIds ks m
      /\ vs = map (view_versioned ks) (compiledInstructions m)
  | legacy => exists ixs, deserializeLegacy b = Ret ixs /\ tx = Legacy ixs
      /\ pids = map programId ixs /\ vs = map view_legacy ixs
  end.

(** [d] may receive the tokens. *)
Definition dest_ok (hasDex : bool) (d : string) (mint : option string) (p : string) : Prop :=
  d ∈ destinationWhitelist cfg
  \/ (exists mt, mint = Some mt /\ truthy mt = true /\ isPublicKey d = true /\ isPublicKey mt = true
       /\ isPublicKey p = true
       /\ exists owner, owner ∈ destinationWhitelist cfg /\ isPublicKey owner = true
            /\ findProgramAddressSync owner p mt = Ret d)
  \/ hasDex = true
  \/ (isPublicKey d = true /\ exists owner, getAccountOwner d = Ret (Some owner)
       /\ owner <> SYSTEM_PROGRAM /\ owner ∈ programAllowlist cfg).

Definition token_program (p : string) : Prop := p = TOKEN_PROGRAM \/ p = TOKEN_2022.

Definition ix_ok (hasDex : bool) (v : View) : Prop :=
  forall p disc, v_program v = Some p -> token_program p -> head (v_data v) = Some disc ->
    disc <> SPL_SET_AUTHORITY
    /\ (disc = SPL_TRANSFER -> forall d, v_key v 1 = Some d -> truthy d = true -> dest_ok hasDex d None p)
    /\ (disc = SPL_TRANSFER_CHECKED -> forall d, v_key v 2 = Some d -> truthy d = true ->
         dest_ok hasDex d (v_key v 1) p).

(** The simulation named no program outside the allowlist, or was not asked. *)
Definition sim_ok (tx : Tx) (pids : list string) : Prop :=
  forall r logs l pid, simulateTransaction tx = Ret r -> sim_logs r = Some logs ->
    JUPITER_PROGRAM ∉ pids -> l ∈ logs ->
    match_run_between "Program " is_word 32 44 " invoke" l = Some pid -> pid ∈ programAllowlist cfg.

Definition policy_ok (tx : Tx) (pids : list string) (vs : list View) : Prop :=
  (forall p, p ∈ pids -> p ∈ programAllowlist cfg)
  /\ (forall v, v ∈ vs -> ix_ok (hasDexInstruction pids) v)
  /\ sim_ok tx pids.

(** *** The checks decide the policy *)

Lemma first_denial_None {A} (f : A -> option string) l :
  first_denial f l = None <-> forall x, x ∈ l -> f x = None.
Proof using Type.
  unfold first_denial. induction l as [|x l IH]; simpl; [set_solver|].
  destruct (f x) eqn:E; simpl.
  - split; [done|]. intros H. rewrite (H x) in E; [done|left].
  - rewrite IH. split; [|set_solver]. intros H y [->|Hy]%elem_of_cons; auto.
Qed.

Lemma allow_None (f : string -> option string) (g : string -> string) p :
  f p = (if shas p (programAllowlist cfg) then None else Some (g p)) ->
  f p = None <-> p ∈ programAllowlist cfg.
Proof using Type. intros ->. destruct (shas _ _) eqn:E; [apply shas_true in E|apply shas_false in E]; naive_solver. Qed.

Lemma isAta_spec d mt p :
  isAtaForWhitelistedOwner d mt p = true <->
  isPublicKey d = true /\ isPublicKey mt = true /\ isPublicKey p = true
  /\ exists owner, owner ∈ destinationWhitelist cfg /\ isPublicKey owner = true
       /\ findProgramAddressSync owner p mt = Ret d.
Proof using Type.
  unfold isAtaForWhitelistedOwner. rewrite !andb_true_iff, some_true. split.
  - intros [[[? ?] ?] (o & Ho & [Hk Hf]%andb_true_iff)]. split_and!; [done..|]. exists o.
    destruct (findProgramAddressSync o p mt); [|done]. apply bool_decide_eq_true in Hf as ->. done.
  - intros (? & ? & ? & o & Ho & Hk & Hf). split_and!; [done..|]. exists o. split; [done|].
    rewrite Hk, Hf. by rewrite bool_decide_true.
Qed.

Lemma checkTransferDestination_spec d hasDex mint p :
  checkTransferDestination d hasDex mint p = Allowed <-> dest_ok hasDex d mint p.
Proof using Type.
  unfold checkTransferDestination, dest_ok. destruct (shas d _) eqn:Ew.
  { apply shas_true in Ew. naive_solver. }
  apply shas_false in Ew.
  destruct mint as [mt|]; [destruct (truthy mt) eqn:Et; simpl;
    [destruct (isAtaForWhitelistedOwner d mt p) eqn:Ea|]|].
  { apply isAta_spec in Ea. naive_solver. }
  all: destruct hasDex; [naive_solver|].
  all: destruct (isPublicKey d) eqn:Ek; [destruct (getAccountOwner d) as [[o|]|e] eqn:Eo|].
  all: try (destruct (negb (bool_decide (o = SYSTEM_PROGRAM)) && shas o (programAllowlist cfg)) eqn:Eb;
    [apply andb_true_iff in Eb as [Eb1 Eb2]; apply shas_true in Eb2; boolP
    |apply andb_false_iff in Eb as [Eb|Eb]; [boolP|apply shas_false in Eb]]).
  all: split; [try done; intros _; right; right; right; naive_solver|].
  all: intros [?|[(mt' & Hm & Ht & H1 & H2 & H3 & H4)|[?|(? & o' & ? & ? & ?)]]]; simplify_eq/=; try done;
    try congruence.
  all: exfalso; assert (isAtaForWhitelistedOwner d mt' p = true) by (apply isAta_spec; done); congruence.
Qed.

Lemma check_dest_None d hasDex mint p :
  match checkTransferDestination d hasDex mint p with Allowed => None | Denied r => Some r end = None
  <-> dest_ok hasDex d mint p.
Proof using Type. rewrite <- checkTransferDestination_spec. by destruct (checkTransferDestination _ _ _ _). Qed.

Lemma check_ix_spec hasDex pr data key :
  check_ix hasDex pr data key = None <-> ix_ok hasDex (mkView pr data key).
Proof using Type.
  unfold check_ix, ix_ok. simpl. destruct pr as [p|]; [|naive_solver].
  destruct (decide (token_program p)) as [Hp|Hp].
  - replace (negb _ && negb _) with false
      by (symmetry; apply not_true_iff_false; intros H; boolP; by destruct Hp).
    destruct (head data) as [disc|]; [|naive_solver].
    destruct (Z.eqb_spec disc SPL_TRANSFER) as [->|H1]; [|destruct (Z.eqb_spec disc SPL_TRANSFER_CHECKED) as [->|H2]]; simpl.
    + split.
      * intros H p' disc' [= <-] _ [= <-]. split_and!; [done| |done]. intros _ d Hd Ht.
        rewrite Hd, Ht in H. by apply check_dest_None.
      * intros H. destruct (H p SPL_TRANSFER eq_refl Hp eq_refl) as (_ & H' & _).
        destruct (key 1%nat) as [d|]; [|done]. destruct (truthy d) eqn:Et; [|done].
        apply check_dest_None. by apply H'.
    + split.
      * intros H p' disc' [= <-] _ [= <-]. split_and!; [done|done|]. intros _ d Hd Ht.
        rewrite Hd, Ht in H. by apply check_dest_None.
      * intros H. destruct (H p SPL_TRANSFER_CHECKED eq_refl Hp eq_refl) as (_ & _ & H').
        destruct (key 2%nat) as [d|]; [|done]. destruct (truthy d) eqn:Et; [|done].
        apply check_dest_None. by apply H'.
    + destruct (Z.eqb_spec disc SPL_SET_AUTHORITY) as [->|H3].
      * split; [done|]. intros H. by destruct (H p SPL_SET_AUTHORITY eq_refl Hp eq_refl).
      * split; [|done]. intros _ p' disc' [= <-] _ [= <-]. done.
  - replace (negb _ && negb _) with true; [naive_solver|].
    symmetry. apply andb_true_iff. rewrite !negb_true_iff, !bool_decide_eq_false. unfold token_program in Hp.
    naive_solver.
Qed.

Lemma check_simulation_spec tx pids : check_simulation tx pids = None <-> sim_ok tx pids.
Proof using Type.
  unfold check_simulation, sim_ok. destruct (simulateTransaction tx) as [r|e]; [|naive_solver].
  destruct (sim_logs r) as [logs|] eqn:El; [|naive_solver].
  destruct (some _ pids) eqn:Ej; simpl.
  - split; [|done]. intros _ r' logs' l pid [= <-] _ Hj. exfalso.
    apply some_true in Ej as (q & Hq & Eq). boolP. by subst.
  - assert (JUPITER_PROGRAM ∉ pids) as Hj.
    { intros Hin. rewrite some_false in Ej. specialize (Ej _ Hin). by boolP. }
    rewrite first_denial_None. unfold extractInvokedPrograms. split.
    + intros H r' logs' l pid [= <-] E _ Hl Hm. rewrite El in E. injection E as <-.
      apply (allow_None check_invoked (fun p => "Simulation revealed unknown invoked program: " +:+ p)%string pid); [done|].
      apply H. apply (proj2 (elem_of_set_of _ _)). apply list_elem_of_omap. by exists l.
    + intros H pid Hin. apply (proj1 (elem_of_set_of _ _)), list_elem_of_omap in Hin as (l & Hl & Hm).
      apply (allow_None check_invoked (fun p => "Simulation revealed unknown invoked program: " +:+ p)%string pid); [done|].
      by apply (H r logs l pid).
Qed.

Lemma checkDecoded_spec tx pids denial vs :
  (denial = None <-> forall v, v ∈ vs -> ix_ok (hasDexInstruction pids) v) ->
  checkDecoded tx pids denial = Allowed <-> policy_ok tx pids vs.
Proof using Type.
  intros Hd. unfold checkDecoded, policy_ok. rewrite <- Hd, <- check_simulation_spec.
  assert (first_denial check_program pids = None <-> forall p, p ∈ pids -> p ∈ programAllowlist cfg) as <-.
  { rewrite first_denial_None.
    split; intros H p Hp; apply (allow_None check_program (fun p => "Unknown program: " +:+ p)%string p); auto. }
  destruct (first_denial _ _), denial, (check_simulation _ _); naive_solver.
Qed.

Lemma denials_views {A} (f : A -> option string) (g : A -> View) hasDex l :
  (forall x, f x = None <-> ix_ok hasDex (g x)) ->
  first_denial f l = None <-> forall v, v ∈ map g l -> ix_ok hasDex v.
Proof using Type.
  intros Hf. rewrite first_denial_None. split.
  - intros H v (x & -> & Hx)%list_elem_of_fmap. by apply Hf, H.
  - intros H x Hx. apply Hf, H. apply list_elem_of_fmap. by exists x.
Qed.

Lemma checkPolicy_spec ty b :
  checkPolicy b ty = Ret Allowed <-> exists tx pids vs, decodes ty b tx pids vs /\ policy_ok tx pids vs.
Proof using Type.
  destruct ty; simpl.
  - destruct (deserializeVersioned b) as [m|e]; simpl;
      [|by split; [|intros (? & ? & ? & (? & ? & ? & _) & _)]].
    destruct (resolveALTs m) as [ks|e] eqn:Ek;
      [|split; [done|]; intros (? & ? & ? & (? & ? & [= <-] & ? & _) & _); congruence].
    transitivity (policy_ok (Versioned m) (extractProgramIds ks m) (map (view_versioned ks) (compiledInstructions m))).
    + rewrite <- (checkDecoded_spec _ _ (first_denial
        (check_versioned_ix ks (hasDexInstruction (extractProgramIds ks m))) (compiledInstructions m)));
        [by split; [intros [= ->]|intros ->]|].
      apply denials_views. intros ix. apply check_ix_spec.
    + split; [intros H; eexists _, _, _; split; [by exists m, ks|done]|].
      intros (tx & pids & vs & (m' & ks' & [= <-] & Hks & -> & -> & ->) & Hok).
      rewrite Ek in Hks. by injection Hks as <-.
  - destruct (deserializeLegacy b) as [ixs|e]; simpl;
      [|by split; [|intros (? & ? & ? & (? & ? & _) & _)]].
    transitivity (policy_ok (Legacy ixs) (map programId ixs) (map view_legacy ixs)).
    + rewrite <- (checkDecoded_spec _ _ (first_denial
        (check_legacy_ix (hasDexInstruction (map programId ixs))) ixs));
        [by split; [intros [= ->]|intros ->]|].
      apply denials_views. intros ix. apply check_ix_spec.
    + split; [intros H; eexists _, _, _; split; [by exists ixs|done]|].
      by intros (tx & pids & vs & (ixs' & [= <-] & -> & -> & ->) & Hok).
Qed.

Definition type_text (ty : TxType) : string :=
  match ty with versioned => "versioned" | legacy => "legacy" end.

Lemma handleRequest_spec rq out :
  handleRequest rq = Signed out <->
  exists ty b, rq = Ret (mkRequest (Some (type_text ty)) (Some b))
    /\ checkPolicy b ty = Ret Allowed /\ sign ty b = Ret out.
Proof using Type.
  split.
  - unfold handleRequest. destruct rq as [[[t|] [b|]]|e]; cbn -[checkPolicy]; try done.
    destruct (negb (truthy t)); [done|].
    destruct (bool_decide (t = "versioned"%string)) eqn:E1;
      [|destruct (bool_decide (t = "legacy"%string)) eqn:E2; [|done]]; boolP; subst.
    + destruct (checkPolicy b versioned) as [[|r]|e] eqn:Ec; cbn; try done.
      destruct (sign versioned b) as [x|e] eqn:Es; cbn; intros [= <-]. by exists versioned, b.
    + destruct (checkPolicy b legacy) as [[|r]|e] eqn:Ec; cbn; try done.
      destruct (sign legacy b) as [x|e] eqn:Es; cbn; intros [= <-]. by exists legacy, b.
  - intros (ty & b & -> & Hc & Hs). unfold handleRequest. destruct ty; cbn -[checkPolicy]; by rewrite Hc; cbn; rewrite Hs.
Qed.

(** *** Where the code and the documents agree

    README.md and the comments of [policy.ts] want more than the code checks of an
    SPL Approve, of native SOL and of a transfer to the token account of a
    stranger ([approve_and_sol_transfer_signed], [stranger_account_signed]), and
    name no exception for simulations: here are the transactions on which all
    agree that they may be signed. *)

(** The destinations README.md names. *)
Definition vouched_dest (hasDex : bool) (d : string) (mint : option string) (p : string) : Prop :=
  d ∈ destinationWhitelist cfg
  \/ (exists mt, mint = Some mt /\ truthy mt = true /\ isPublicKey d = true /\ isPublicKey mt = true
       /\ isPublicKey p = true
       /\ exists owner, owner ∈ destinationWhitelist cfg /\ isPublicKey owner = true
            /\ findProgramAddressSync owner p mt = Ret d)
  \/ hasDex = true.

Definition vouched_ix (hasDex : bool) (v : View) : Prop :=
  (v_program v = Some SYSTEM_PROGRAM -> hasDex = true)
  /\ forall p disc, v_program v = Some p -> token_program p -> head (v_data v) = Some disc ->
    disc <> SPL_SET_AUTHORITY /\ disc <> SPL_APPROVE
    /\ (disc = SPL_TRANSFER -> forall d, v_key v 1 = Some d -> vouched_dest hasDex d None p)
    /\ (disc = SPL_TRANSFER_CHECKED -> forall d, v_key v 2 = Some d -> vouched_dest hasDex d (v_key v 1) p).

Definition vouched (tx : Tx) (pids : list string) (vs : list View) : Prop :=
  (forall p, p ∈ pids -> p ∈ programAllowlist cfg)
  /\ (forall v, v ∈ vs -> vouched_ix (hasDexInstruction pids) v)
  /\ exists r logs, simulateTransaction tx = Ret r /\ sim_logs r = Some logs
       /\ forall l pid, l ∈ logs -> match_run_between "Program " is_word 32 44 " invoke" l = Some pid -> pid ∈ programAllowlist cfg.

Lemma vouched_ok tx pids vs : vouched tx pids vs -> policy_ok tx pids vs.
Proof using Type.
  assert (forall hasDex d mint p, vouched_dest hasDex d mint p -> dest_ok hasDex d mint p) as Hd.
  { unfold vouched_dest, dest_ok. tauto. }
  intros (Hp & Hv & r & logs & Hr & Hl & Hs). split_and!; [done| |].
  - intros v Hin p disc H1 H2 H3. destruct (proj2 (Hv v Hin) p disc H1 H2 H3) as (Ha & _ & Ht & Hc).
    split_and!; [done|intros He d Hk _; by apply Hd, Ht|intros He d Hk _; by apply Hd, Hc].
  - intros r' logs' l pid Hr' Hl' _ Hin Hm. rewrite Hr in Hr'. injection Hr' as <-. rewrite Hl in Hl'. injection Hl' as <-. by eapply Hs.
Qed.


(** An SPL Approve, whoever the delegate is, or an instruction of the System
    Program, whoever receives the SOL. *)
Definition unchecked (ix : LegacyIx) : Prop :=
  (programId ix = TOKEN_PROGRAM /\ head (ldata ix) = Some SPL_APPROVE)
  \/ programId ix = SYSTEM_PROGRAM.

(** Nothing stands between the key and an SPL Approve or a transfer of
    native SOL: a standalone transaction of such instructions is signed for
    any delegate and any recipient, under the shipped allowlist, when the
    simulation fails or names allowlisted programs. *)
Theorem approve_and_sol_transfer_signed byreal dests b ixs out :
  cfg = signerConfig byreal dests ->
  deserializeLegacy b = Ret ixs -> (forall ix, ix ∈ ixs -> unchecked ix) ->
  sim_ok (Legacy ixs) (map programId ixs) -> sign legacy b = Ret out ->
  handleRequest (Ret (mkRequest (Some "legacy"%string) (Some b))) = Signed out.
Proof using Type.
  intros Hcfg Hb Hix Hsim Hs. apply handleRequest_spec. exists legacy, b. split_and!; [done| |done].
  apply checkPolicy_spec. exists (Legacy ixs), (map programId ixs), (map view_legacy ixs).
  split; [by exists ixs|]. split_and!; [| |done].
  - intros p (ix & -> & Hin)%list_elem_of_fmap. rewrite Hcfg. apply (proj2 (elem_of_set_of _ _)).
    destruct (Hix ix Hin) as [[-> _]| ->]; right; apply (bool_decide_unpack _); vm_compute; done.
  - intros v (ix & -> & Hin)%list_elem_of_fmap p disc Hp Htok Hdisc. simpl in Hp, Hdisc. injection Hp as <-.
    destruct (Hix ix Hin) as [[_ Ha]|Ha].
    + rewrite Ha in Hdisc. injection Hdisc as <-. by split_and!.
    + rewrite Ha in Htok. by destruct Htok.
Qed.

End Policy.

(** ** Concrete libraries *)

(** One transfer of tokens, to an account of the token program. *)
Definition one_transfer (dest : string) : Web3 := {|
  deserializeVersioned := fun _ => Throw "not versioned"%string;
  deserializeLegacy := fun _ => Ret [mkLegacy TOKEN_PROGRAM ["source"; dest; "owner"]%string [3; 1; 0; 0; 0; 0; 0; 0; 0]];
  getMultipleAccountsInfo := fun _ => Ret [];
  deserializeLookupTable := fun _ => Ret [];
  getAccountKeys := fun m _ => Ret (staticAccountKeys m);
  getAccountOwner := fun _ => Ret (Some TOKEN_PROGRAM);
  isPublicKey := fun _ => true;
  findProgramAddressSync := fun _ _ _ => Ret "ata"%string;
  simulateTransaction := fun _ => Ret (mkSim false (Some
    ["Program TokenkegQfeZyiNwAJbNbGKPFXCWuBvf9Ss623VQ5DA invoke [1]"]%string));
  sign := fun _ b => Ret b |}.

Definition whitelisting : SignerConfig := signerConfig None (Some "W"%string).

(** To a whitelisted account; and every token account is owned by the token
    program, which is on the allowlist, so a stranger's will do as well. *)
Example stranger_account_signed :
  handleRequest (W := one_transfer "stranger") whitelisting (Ret (mkRequest (Some "legacy"%string) (Some [1; 2; 3]))) = Signed [1; 2; 3].
Proof. vm_compute. reflexivity. Qed.


(** *** One Approve to an attacker and one SOL transfer *)

Definition demo_ixs : list LegacyIx :=
  [mkLegacy TOKEN_PROGRAM ["source"; "attacker"; "owner"]%string [4; 255; 255; 255; 255; 255; 255; 255; 255];
   mkLegacy SYSTEM_PROGRAM ["owner"; "attacker"]%string [2; 0; 0; 0; 0; 202; 154; 59; 0; 0; 0; 0]].

Definition demo_web3 : Web3 := {|
  deserializeVersioned := fun _ => Throw "not versioned"%string;
  deserializeLegacy := fun _ => Ret demo_ixs;
  getMultipleAccountsInfo := fun _ => Ret [];
  deserializeLookupTable := fun _ => Ret [];
  getAccountKeys := fun m _ => Ret (staticAccountKeys m);
  getAccountOwner := fun _ => Ret None;
  isPublicKey := fun _ => true;
  findProgramAddressSync := fun _ _ _ => Ret "ata"%string;
  simulateTransaction := fun _ => Ret (mkSim false (Some
    ["Program 11111111111111111111111111111111 invoke [1]"]%string));
  sign := fun _ b => Ret b |}.

Definition demo_signer : SignerConfig := signerConfig None None.

Lemma approve_and_sol_transfer_signed_witness :
  handleRequest (W := demo_web3) demo_signer (Ret (mkRequest (Some "legacy"%string) (Some [1; 2; 3])))
    = Signed [1; 2; 3].
Proof.
  refine (approve_and_sol_transfer_signed (W := demo_web3) demo_signer None None [1; 2; 3] demo_ixs
            [1; 2; 3] eq_refl eq_refl _ _ eq_refl).
  - intros ix [->|[->|[]%elem_of_nil]%elem_of_cons]%elem_of_cons; [left; by split|by right].
  - intros r logs l pid [= <-] [= <-] _ [->|[]%elem_of_nil]%elem_of_cons Hm.
    vm_compute in Hm. injection Hm as <-. apply (bool_decide_unpack _). vm_compute. done.
Defined.

End Policy.

(** ** The socket protocol *)

Module Frames.

(** [buf.readUInt32BE(0)] of a buffer of at least four bytes *)
Definition readUInt32BE (b : list Z) : Z :=
  match b with
  | b0 :: b1 :: b2 :: b3 :: _ => ((b0 * 256 + b1) * 256 + b2) * 256 + b3
  | _ => 0
  end.

(** [buf.writeUInt32BE(n, 0)] for [0 <= n < 2^32] *)
Definition writeUInt32BE (n : Z) : list Z :=
  [n / 256 ^ 3 mod 256; n / 256 ^ 2 mod 256; n / 256 mod 256; n mod 256].

(** What either side writes: the length, then the payload. *)
Definition frame (payload : list Z) : list Z :=
  writeUInt32BE (Z.of_nat (length payload)) ++ payload.

(** *** The server's side of a connection *)

Record Server := mkServer { buffer : list Z; expectedLen : Z }.

Definition server0 : Server := mkServer [] (-1).

(** The two [if]s of the listener, on the buffer and the expected length. *)
Definition read_header (s : list Z * Z) : list Z * Z :=
  let (buf, len) := s in
  if (len <? 0) && (4 <=? Z.of_nat (length buf)) then (drop 4 buf, readUInt32BE buf) else (buf, len).

Definition complete (s : list Z * Z) : bool :=
  let (buf, len) := s in (0 <=? len) && (len <=? Z.of_nat (length buf)).

#[global] Arguments read_header : simpl never.
#[global] Arguments complete : simpl never.

(** [sock.on('data')]: the new state and the request handed to
    [handleRequest], if any. *)
Definition on_data (chunk : list Z) (s : Server) : Server * option (list Z) :=
  let (buf, len) := read_header (buffer s ++ chunk, expectedLen s) in
  if complete (buf, len)
  then (mkServer (drop (Z.to_nat len) buf) (-1), Some (take (Z.to_nat len) buf))
  else (mkServer buf len, None).

Fixpoint serve (chunks : list (list Z)) (s : Server) : Server * list (list Z) :=
  match chunks with
  | [] => (s, [])
  | c :: cs =>
      let (s1, r) := on_data c s in
      let (s2, rs) := serve cs s1 in (s2, match r with Some p => p :: rs | None => rs end)
  end.

(** *** The client ([sendToSigner]) *)

Record Client := mkClient {
  chunks : list (list Z); c_expectedLen : Z; received : Z; resolved : option (list Z);
}.

Definition client0 : Client := mkClient [] (-1) 0 None.

(** A resolved client has destroyed its socket. *)
Definition on_client_data (chunk : list Z) (c : Client) : Client :=
  match resolved c with
  | Some _ => c
  | None =>
      let cs := chunks c ++ [chunk] in
      let n := received c + Z.of_nat (length chunk) in
      let '(cs, len, n) :=
        if (c_expectedLen c <? 0) && (4 <=? n)
        then ([drop 4 (concat cs)], readUInt32BE (concat cs), n - 4) else (cs, c_expectedLen c, n) in
      mkClient cs len n (if (0 <=? len) && (len <=? n) then Some (take (Z.to_nat len) (concat cs)) else None)
  end.

(** *** Reading and writing the length *)

Lemma read_write n rest : 0 <= n < 2 ^ 32 -> readUInt32BE (writeUInt32BE n ++ rest) = n.
Proof.
  intros Hn. unfold readUInt32BE, writeUInt32BE. cbn [app].
  change (256 ^ 3) with 16777216. change (256 ^ 2) with 65536.
  pose proof (Z.div_mod n 256 ltac:(lia)). pose proof (Z.div_mod (n / 256) 256 ltac:(lia)).
  pose proof (Z.div_mod (n / 65536) 256 ltac:(lia)).
  replace (n / 65536) with (n / 256 / 256) in * by (rewrite Z.div_div by lia; f_equal).
  replace (n / 16777216) with (n / 256 / 256 / 256) by (rewrite !Z.div_div by lia; f_equal).
  rewrite (Z.mod_small (n / 256 / 256 / 256)); [lia|].
  split; [repeat (apply Z.div_pos; [|lia]); lia|]. rewrite !Z.div_div by lia.
  apply Z.div_lt_upper_bound; lia.
Qed.

Lemma serve_nothing cs : concat cs = [] -> serve cs server0 = (server0, []).
Proof.
  induction cs as [|c cs IH]; [done|]. intros [-> Hcs]%app_nil.
  change (serve ([] :: cs) server0) with (let (s2, rs) := serve cs server0 in (s2, rs)). by rewrite IH.
Qed.

Lemma client_done cs c r :
  resolved c = Some r -> resolved (foldl (fun c chunk => on_client_data chunk c) c cs) = Some r.
Proof.
  intros Hr. induction cs as [|k cs IH]; [done|]. simpl.
  assert (on_client_data k c = c) as ->; [unfold on_client_data; by rewrite Hr|done].
Qed.

(** The client's bytes, as the server would hold them. *)
Definition bytes_of (c : Client) : list Z * Z := (concat (chunks c), c_expectedLen c).

Lemma on_client_view c chunk :
  resolved c = None -> received c = Z.of_nat (length (concat (chunks c))) ->
  let s := read_header ((bytes_of c).1 ++ chunk, (bytes_of c).2) in
  let c' := on_client_data chunk c in
  bytes_of c' = s /\ received c' = Z.of_nat (length (concat (chunks c')))
  /\ resolved c' = if complete s then Some (take (Z.to_nat s.2) s.1) else None.
Proof.
  intros Hr Hn. unfold on_client_data, bytes_of, read_header. rewrite Hr, Hn. simpl.
  rewrite concat_app. simpl. rewrite app_nil_r, <- Nat2Z.inj_add, <- length_app.
  destruct (_ && _) eqn:E; simpl.
  - rewrite app_nil_r. boolP. split_and!; [done|rewrite length_drop; lia|].
    unfold complete. rewrite length_drop. replace (Z.of_nat (length (concat (chunks c) ++ chunk)) - 4)
      with (Z.of_nat (length (concat (chunks c) ++ chunk) - 4)) by lia. done.
  - rewrite concat_app. simpl. by rewrite app_nil_r.
Qed.

Section OneFrame.
Context (p : list Z) (Hp : Z.of_nat (length p) < 2 ^ 32).

Lemma length_frame : length (frame p) = (4 + length p)%nat.
Proof using Type. done. Qed.

Lemma frame_head t rest :
  t ++ rest = frame p -> (4 <= length t)%nat ->
  readUInt32BE t = Z.of_nat (length p) /\ drop 4 t ++ rest = p.
Proof using Hp.
  intros Ht Hlen. do 4 (destruct t as [|? t]; [simpl in Hlen; lia|]). split.
  - rewrite <- (read_write (Z.of_nat (length p)) p) by lia. fold (frame p). by rewrite <- Ht.
  - unfold frame in Ht. cbn in Ht. by injection Ht.
Qed.

(** Buffer and expected length after the prefix [t] of the frame. *)
Definition state_at (t : list Z) : list Z * Z :=
  if decide (length t < 4)%nat then (t, -1) else (drop 4 t, Z.of_nat (length p)).

Lemma read_header_at t c rest :
  (t ++ c) ++ rest = frame p ->
  read_header ((state_at t).1 ++ c, (state_at t).2) = state_at (t ++ c).
Proof using Hp.
  intros Ht. pose proof (length_app t c) as Hl. unfold state_at, read_header.
  repeat case_decide; simpl; try lia.
  - destruct (Z.leb_spec 4 (Z.of_nat (length (t ++ c)))); [lia|done].
  - destruct (frame_head (t ++ c) rest Ht) as [-> _]; [lia|].
    destruct (Z.leb_spec 4 (Z.of_nat (length (t ++ c)))); [done|lia].
  - destruct (Z.ltb_spec (Z.of_nat (length p)) 0); [lia|]. simpl. by rewrite drop_app_le by lia.
Qed.

Lemma complete_at u rest :
  u ++ rest = frame p ->
  complete (state_at u) = bool_decide (u = frame p)
  /\ (u = frame p -> state_at u = (p, Z.of_nat (length p))).
Proof using Hp.
  intros Hu. assert (length u = (4 + length p)%nat -> u = frame p) as Hfull.
  { intros Hl. apply (f_equal length) in Hu as Hl'. rewrite length_app, length_frame in Hl'.
    destruct rest; [by rewrite app_nil_r in Hu|simpl in Hl'; lia]. }
  split.
  - assert (length u <= 4 + length p)%nat as Hle.
    { rewrite <- length_frame, <- Hu, length_app. lia. }
    unfold state_at, complete. case_decide as H4; simpl.
    + rewrite bool_decide_false; [done|]. intros ->. rewrite length_frame in H4. lia.
    + rewrite length_drop. destruct (Z.leb_spec 0 (Z.of_nat (length p))); [|lia]. simpl.
      destruct (Z.leb_spec (Z.of_nat (length p)) (Z.of_nat (length u - 4))).
      * rewrite bool_decide_true; [done|]. apply Hfull. lia.
      * rewrite bool_decide_false; [done|]. intros ->. rewrite length_frame in *. lia.
  - intros ->. done.
Qed.

(** *** Any chunking of one frame *)

Lemma serve_frame cs : forall t,
  t ++ concat cs = frame p -> t <> frame p ->
  serve cs (mkServer (state_at t).1 (state_at t).2) = (server0, [p]).
Proof using Hp.
  induction cs as [|c cs IH]; intros t Ht Hne; simpl in Ht; [by rewrite app_nil_r in Ht|].
  rewrite app_assoc in Ht. simpl. unfold on_data. simpl. rewrite (read_header_at t c (concat cs) Ht).
  destruct (complete_at (t ++ c) (concat cs) Ht) as [Hc Hfull].
  destruct (state_at (t ++ c)) as [buf len] eqn:Es. rewrite Hc. case_bool_decide as Hd.
  - specialize (Hfull Hd). injection Hfull as -> ->. rewrite Nat2Z.id, drop_all, take_ge by done.
    assert (concat cs = []) as Hnil.
    { rewrite Hd in Ht. rewrite <- (app_nil_r (frame p)) in Ht at 2. by apply app_inv_head in Ht. }
    change (mkServer [] (-1)) with server0. by rewrite (serve_nothing cs Hnil).
  - specialize (IH (t ++ c) Ht Hd). rewrite Es in IH. simpl in IH. by rewrite IH.
Qed.

Lemma client_frame cs : forall t c,
  t ++ concat cs = frame p -> t <> frame p ->
  bytes_of c = state_at t -> resolved c = None -> received c = Z.of_nat (length (concat (chunks c))) ->
  resolved (foldl (fun c chunk => on_client_data chunk c) c cs) = Some p.
Proof using Hp.
  induction cs as [|k cs IH]; intros t c Ht Hne Hb Hr Hn; simpl in Ht; [by rewrite app_nil_r in Ht|].
  rewrite app_assoc in Ht. simpl. destruct (on_client_view c k Hr Hn) as (H1 & H2 & H3).
  rewrite Hb, (read_header_at t k (concat cs) Ht) in H1, H3.
  destruct (complete_at (t ++ k) (concat cs) Ht) as [Hc Hfull]. rewrite Hc in H3. case_bool_decide as Hd.
  - rewrite (Hfull Hd) in H3. simpl in H3. rewrite Nat2Z.id, take_ge in H3 by done.
    by apply client_done.
  - by apply (IH (t ++ k)).
Qed.

End OneFrame.

Lemma serve_app cs cs' s :
  serve (cs ++ cs') s = ((serve cs' (serve cs s).1).1, (serve cs s).2 ++ (serve cs' (serve cs s).1).2).
Proof.
  revert s. induction cs as [|c cs IH]; intros s; simpl; [by destruct (serve cs' s)|].
  destruct (on_data c s) as [s1 r]. rewrite IH. destruct (serve cs s1) as [s2 rs]. simpl. by destruct r.
Qed.

(** The chunks carry one frame. *)
Definition carries (cs : list (list Z)) (p : list Z) : Prop :=
  concat cs = frame p /\ Z.of_nat (length p) < 2 ^ 32.

(** *** Any chunking of many frames *)

(** What the server has still to answer, with [rest] still to come: whole
    frames, or the payload of the first of them, whose length it has read. *)
Definition unanswered (qs : list (list Z)) (s : list Z * Z) (rest : list Z) : Prop :=
  (s.2 = -1 /\ s.1 ++ rest = concat (map frame qs))
  \/ exists q qs', qs = q :: qs' /\ s.2 = Z.of_nat (length q) /\ s.1 ++ rest = q ++ concat (map frame qs').

Definition sizes (qs : list (list Z)) : Prop := Forall (fun q => Z.of_nat (length q) < 2 ^ 32) qs.

Lemma read_header_unanswered qs s rest : sizes qs -> unanswered qs s rest -> unanswered qs (read_header s) rest.
Proof.
  intros Hq H. destruct s as [buf len]. unfold read_header. destruct (_ && _) eqn:E; [|exact H]. boolP.
  destruct H as [[Hl Hb]|(q & qs' & _ & Hl & _)]; cbn [fst snd] in *; [|lia].
  do 4 (destruct buf as [|? buf]; [cbn in *; lia|]). destruct qs as [|q qs']; [done|]. right. exists q, qs'.
  apply list.Forall_cons in Hq as [Hq _]. split; [done|]. cbn [map concat] in Hb. unfold frame at 1 in Hb. rewrite <- app_assoc in Hb. cbn [fst snd]. split.
  - rewrite <- (read_write (Z.of_nat (length q)) (q ++ concat (map frame qs'))) by lia. by rewrite <- Hb.
  - cbn in Hb. by injection Hb.
Qed.

Lemma on_data_unanswered qs s c rest : sizes qs -> unanswered qs (buffer s, expectedLen s) (c ++ rest) ->
  let '(s', o) := on_data c s in
  exists qs', qs = option_list o ++ qs' /\ unanswered qs' (buffer s', expectedLen s') rest.
Proof.
  intros Hq H. assert (unanswered qs (buffer s ++ c, expectedLen s) rest) as H'.
  { unfold unanswered in *. cbn [fst snd] in *. by rewrite <- app_assoc. }
  apply read_header_unanswered in H'; [|done]. unfold on_data. destruct (read_header _) as [buf len].
  destruct (complete (buf, len)) eqn:Hc; [|by exists qs]. apply andb_true_iff in Hc as [Hc1 Hc2]. apply Z.leb_le in Hc1, Hc2.
  destruct H' as [[Hl _]|(q & qs' & -> & Hl & Hb)]; cbn [fst snd] in *; [lia|]. subst len. rewrite Nat2Z.id.
  exists qs'. apply (f_equal (take (length q))) in Hb as Ht. apply (f_equal (drop (length q))) in Hb as Hd.
  rewrite take_app_le, take_app_length in Ht by lia. rewrite drop_app_le, drop_app_length in Hd by lia.
  rewrite Ht. split; [done|]. left. done.
Qed.

Lemma serve_unanswered cs : forall qs s rest, sizes qs -> unanswered qs (buffer s, expectedLen s) (concat cs ++ rest) ->
  exists qs', qs = (serve cs s).2 ++ qs' /\ unanswered qs' (buffer (serve cs s).1, expectedLen (serve cs s).1) rest.
Proof.
  induction cs as [|c cs IH]; intros qs s rest Hq H; [by exists qs|]. cbn [serve concat] in *. rewrite <- app_assoc in H.
  pose proof (on_data_unanswered qs s c (concat cs ++ rest) Hq H) as Hs. destruct (on_data c s) as [s1 o].
  destruct Hs as (q1 & -> & H1). apply Forall_app in Hq as [_ Hq].
  destruct (IH q1 s1 rest Hq H1) as (q2 & -> & H2). destruct (serve cs s1) as [s2 rs]. exists q2. by destruct o.
Qed.

(** C38: What the framing delivers is right, and one frame survives any chunking.
    When a client has sent requests and some bytes of them, cut in any way, have
    arrived, what the server has handed to the handler is a beginning of these
    requests, unaltered and in order, and it still holds all that has arrived of
    the others.  When no chunk has bytes of two requests - as when each request
    is sent after the answer to the one before - it has handed over every
    request, however each is cut, and is as new; two requests in one chunk
    stall it ([pipelined_request_stalls]).  A client that reads one response,
    cut in any way, resolves with exactly its payload. *)
Theorem frames_survive_chunking ps :
  sizes ps ->
  (forall cs rest, concat cs ++ rest = concat (map frame ps) ->
     let '(s, served) := serve cs server0 in
     exists qs, ps = served ++ qs /\ unanswered qs (buffer s, expectedLen s) rest)
  /\ (forall css, Forall2 carries css ps -> serve (concat css) server0 = (server0, ps))
  /\ (forall cs response, carries cs response ->
       resolved (foldl (fun c chunk => on_client_data chunk c) client0 cs) = Some response).
Proof.
  intros Hps. split_and!.
  - intros cs rest Hcs. pose proof (serve_unanswered cs ps server0 rest Hps) as H.
    destruct (serve cs server0) as [s served]. apply H. by left.
  - intros css H. clear Hps. induction H as [|c p css ps [Hc Hp] _ IH]; [done|]. simpl. rewrite serve_app.
    pose proof (serve_frame p Hp c [] Hc ltac:(done)) as E. change (serve c server0 = (server0, [p])) in E.
    rewrite E. cbn [fst snd]. by rewrite IH.
  - intros cs response [Hcs Hlen]. by apply (client_frame response Hlen cs [] client0 Hcs).
Qed.

(** Two requests that arrive in one chunk: the server answers the first and
    keeps the second in its buffer, unanswered, until more data comes; and
    when a third request comes, it answers the second and keeps the third. *)
Theorem pipelined_request_stalls p q r :
  Z.of_nat (length p) < 2 ^ 32 -> Z.of_nat (length q) < 2 ^ 32 ->
  serve [frame p ++ frame q] server0 = (mkServer (frame q) (-1), [p])
  /\ serve [frame p ++ frame q; frame r] server0 = (mkServer (frame r) (-1), [p; q]).
Proof.
  intros Hp Hq.
  assert (forall (a b : list Z), Z.of_nat (length a) < 2 ^ 32 ->
            read_header (frame a ++ b, -1) = (a ++ b, Z.of_nat (length a))
            /\ complete (a ++ b, Z.of_nat (length a)) = true) as H.
  { intros a b Ha. unfold read_header, frame. rewrite <- app_assoc, read_write by lia.
    rewrite (proj2 (Z.leb_le 4 _)) by (rewrite length_app; cbn [length writeUInt32BE]; lia).
    split; [done|]. unfold complete. rewrite length_app. apply andb_true_iff. split; apply Z.leb_le; lia. }
  assert (on_data (frame p ++ frame q) server0 = (mkServer (frame q) (-1), Some p)) as E.
  { unfold on_data. simpl buffer. simpl expectedLen. rewrite app_nil_l.
    destruct (H p (frame q) Hp) as [-> ->]. by rewrite Nat2Z.id, drop_app_length, take_app_length. }
  assert (on_data (frame r) (mkServer (frame q) (-1)) = (mkServer (frame r) (-1), Some q)) as E'.
  { unfold on_data. simpl buffer. simpl expectedLen.
    destruct (H q (frame r) Hq) as [-> ->]. by rewrite Nat2Z.id, drop_app_length, take_app_length. }
  cbn [serve]. by rewrite E, E'.
Qed.

(** Two requests, the first in three pieces; and the same two in one chunk with
    their first byte apart. *)
Lemma frames_survive_chunking_witness :
  serve [[0; 0]; [0; 2; 7]; [8]; [0; 0; 0; 0]] server0 = (server0, [[7; 8]; []])
  /\ resolved (foldl (fun c chunk => on_client_data chunk c) client0 [[0; 0; 0; 1; 5]]) = Some [5]
  /\ exists qs, [[7; 8]; []] = (serve [[0]; [0; 0; 2; 7; 8; 0; 0; 0; 0]] server0).2 ++ qs
       /\ unanswered qs ([0; 0; 0; 0], -1) [].
Proof.
  destruct (frames_survive_chunking [[7; 8]; []]) as (H1 & H2 & H3); [by repeat constructor|]. split_and!.
  - apply (H2 [[[0; 0]; [0; 2; 7]; [8]]; [[0; 0; 0; 0]]]). repeat constructor.
  - apply H3. by split.
  - exact (H1 [[0]; [0; 0; 2; 7; 8; 0; 0; 0; 0]] [] eq_refl).
Defined.

Lemma pipelined_request_stalls_witness :
  serve [[0; 0; 0; 1; 5; 0; 0; 0; 1; 6]] server0 = (mkServer [0; 0; 0; 1; 6] (-1), [[5]]).
Proof. refine (proj1 (pipelined_request_stalls [5] [6] [] _ _)); done. Defined.

End Frames.
