(* ===== verification/AutoClaim.v ===== *)
(** * Weekly copy bonus and the claiming of LP fees ([src/executor/auto-claim.ts])

    [Claim.Call] lists what the dependencies of the two claims do: requests to
    the Byreal backend, signing, sending one fee transaction, waiting.

    - [CopyBonus]: [claimCopyBonusWithDepsForTest] and the functions it calls.
      The loop over rounds has no bound in the source, so it takes a number of
      rounds and answers [None] when they are used up; [ClaimRules] shows
      how many are enough.
    - [Scheduler]: the module's own state, [claimCopyBonus], [finalize] and the
      weekly timer.
    - [LpFees]: [claimLpFeesCliParityForTest]; its result object and its sets,
      which its [catch] clauses share, are the state of the activation.

    The [_legacy...Disabled] functions of the file are never called and are left
    out. *)

From Stdlib Require Import Ascii Floats.SpecFloat.
From S2P Require Import Prelude JsMap JsString JsNumber Json JsConvert Async WriteChain Histories.
Open Scope Z_scope.
Open Scope list_scope.
Open Scope prog_scope.

Module Claim.
Import Async.

Inductive Call :=
| ApiGet (apiPath : string)
| ApiPost (apiPath : string) (body : Json)
| SignRewardPayload (txPayload : option Json)
| SendFeePayload (entry : Json)
| Sleep (ms : Z).

Definition Ans (c : Call) : Type :=
  match c with
  | ApiGet _ | ApiPost _ _ => Json
  | SignRewardPayload _ => string
  | SendFeePayload _ => string
  | Sleep _ => unit
  end.

Inductive Task := RunClaim.

Section Helpers.
Context {S : Type}.
Abbreviation P := (Prog S Call Ans Task).

Definition apiGet (path : string) : P Json := await (ApiGet path).
Definition apiPost (path : string) (body : Json) : P Json := await (ApiPost path body).
Definition signRewardPayload (p : option Json) : P string := await (SignRewardPayload p).
Definition sendFeePayload (entry : Json) : P string := await (SendFeePayload entry).
Definition sleep (ms : Z) : P unit := await (Sleep ms).

(** A computation and its exception as a value. *)
Definition attempt {A} (m : P A) : P (outcome A) := after m ret.

End Helpers.

(** [err.message || String(err)] of an [Error]. *)
Definition err_text (e : string) : string := if truthy e then e else "Error"%string.

(** [getResponseData(res)] *)
Definition getResponseData (res : Json) : Json :=
  jnullish (jopt (jopt (Some res) "result") "data") (jnullish (jopt (Some res) "data") res).

Definition data_or_empty (res : Json) : Json := jor (Some (getResponseData res)) (JObj []).

(** An object literal: fields that are undefined do not reach the text. *)
Definition jobj (fields : list (string * option Json)) : Json :=
  JObj (omap (fun f => (fun v => (f.1, v)) <$> f.2) fields).

(** ** Responses *)

Record Response := mkResponse { ok : bool; http_status : Z; statusText : string; text : string }.

Definition parseByrealJsonResponse (method apiPath : string) (res : Response) : outcome Json :=
  let preview := String.concat "" (take 160 (chars (text res))) in
  if negb (ok res) then
    Throw (method +:+ " " +:+ apiPath +:+ " " +:+ Z_toString (http_status res) +:+ " " +:+ statusText res +:+ ": " +:+ preview)%string
  else
    match JSON_parse (text res) with
    | Ret v => Ret v
    | Throw _ => Throw (method +:+ " " +:+ apiPath +:+ " returned non-JSON: " +:+ preview)%string
    end.

(** ** The copy bonus *)

Module CopyBonus.
Section CopyBonus.
Context {S : Type}.
Abbreviation P := (Prog S Call Ans Task).

Definition isCopyBonusTransientError (e : string) : bool :=
  let message := err_text e in
  has_word message "429" || has_word message "502" || has_word message "503" || has_word message "504"
  || includes_i message "gateway time-out" || includes_i message "timeout" || includes_i message "timed out"
  || includes_i message "econnreset" || includes_i message "etimedout".

(** One attempt, then one after each of the delays. *)
Fixpoint post_with_delays (apiPath : string) (body : Json) (delays : list Z) : P Json :=
  let* r := attempt (apiPost apiPath body) in
  match r with
  | Ret x => ret x
  | Throw e =>
      match delays with
      | d :: delays' =>
          if isCopyBonusTransientError e then do* sleep d in post_with_delays apiPath body delays' else throw e
      | [] => throw e
      end
  end.

Definition copyBonusPostWithRetry (apiPath : string) (body : Json) : P Json :=
  post_with_delays apiPath body [5000; 10000].

Definition COPY_BONUS_ROUND_DELAY_MS : Z := 5000.

(** The locals of the function. *)
Record Local := mkLocal {
  entry : ClaimHistoryEntry;
  seenOrderCodes : list Json;
  seenRewardKeys : list Json;
}.

Definition with_error (msg : string) (e : ClaimHistoryEntry) : ClaimHistoryEntry :=
  mkClaim (c_ts e) (snapshotTs e) (week e) (totalPools e) (totalBonusUsd e) (txSignatures e) (Some msg).
Definition with_signatures (sigs : list Json) (e : ClaimHistoryEntry) : ClaimHistoryEntry :=
  mkClaim (c_ts e) (snapshotTs e) (week e) (totalPools e) (totalBonusUsd e) (txSignatures e ++ sigs) (c_error e).
Definition add_totals (usd : num) (pools : Z) (e : ClaimHistoryEntry) : ClaimHistoryEntry :=
  mkClaim (c_ts e) (snapshotTs e) (week e) (totalPools e + pools) (nadd (totalBonusUsd e) usd) (txSignatures e) (c_error e).

Definition stopOrError (message : string) (e : ClaimHistoryEntry) : ClaimHistoryEntry :=
  if 0 <? totalPools e then e else with_error message e.

(** What a round leads to: the loop ends with an entry, or goes on. *)
Inductive Verdict := Stop (e : ClaimHistoryEntry) | Next (l : Local).

(** [item.txCode || item.poolAddress] *)
Definition reward_key (item : Json) : outcome (option Json) :=
  let! tc := jfield (Some item) "txCode" in
  if truthy tc then Ret tc else jfield (Some item) "poolAddress".

(** [items.some(...)], which stops at its first hit. *)
Fixpoint some_seen (seen : list Json) (items : list Json) : outcome bool :=
  match items with
  | [] => Ret false
  | item :: items' =>
      let! key := reward_key item in
      match key with
      | Some k => if truthy k && jseen k seen then Ret true else some_seen seen items'
      | None => some_seen seen items'
      end
  end.

(** The signing of every item; a failure is logged, with a property of the item. *)
Fixpoint sign_items (items : list Json) : P (list Json) :=
  match items with
  | [] => ret []
  | item :: items' =>
      let* signed := attempt (
        let* txCode := lift (jfield (Some item) "txCode") in
        let* poolAddress := lift (jfield (Some item) "poolAddress") in
        let* txPayload := lift (jfield (Some item) "txPayload") in
        let* signedTx := signRewardPayload txPayload in
        ret (jobj [("txCode", txCode); ("poolAddress", poolAddress); ("signedTx", Some (JStr signedTx))]%string)) in
      match signed with
      | Ret s => let* rest := sign_items items' in ret (s :: rest)
      | Throw _ => let* _log := lift (jfield (Some item) "poolAddress") in sign_items items'
      end
  end.

(** [for (const tx of txList) { if (tx.txSignature) push; log }]: the signatures
    read, up to an exception. *)
Fixpoint read_signatures (txList : list Json) : list Json * outcome unit :=
  match txList with
  | [] => ([], Ret tt)
  | tx :: rest =>
      match jfield (Some tx) "txSignature" with
      | Throw e => ([], Throw e)
      | Ret sig =>
          let (sigs, o) := read_signatures rest in
          (match sig with Some s => if truthy s then s :: sigs else sigs | None => sigs end, o)
      end
  end.

(** The loop that logs the tokens claimed reads a property of each. *)
Fixpoint log_tokens (ts : list Json) : outcome unit :=
  match ts with
  | [] => Ret tt
  | t :: ts' => let! _ := jfield (Some t) "tokenSymbol" in log_tokens ts'
  end.

Definition add_key (seen : list Json) (item : Json) : outcome (list Json) :=
  let! key := reward_key item in
  match key with Some k => Ret (if truthy k then jadd k seen else seen) | None => Ret seen end.

Fixpoint add_keys (seen : list Json) (items : list Json) : outcome (list Json) :=
  match items with
  | [] => Ret seen
  | item :: items' => let! seen' := add_key seen item in add_keys seen' items'
  end.

(** The bookkeeping after an order that was answered; the entry as it is when an
    exception interrupts it. *)
Definition settle (usd : num) (items : list Json) (orderCode : option Json) (orderRes : Json) (l : Local) : Local * outcome unit :=
  let orderData := data_or_empty orderRes in
  let txList := array_or_empty (jopt (Some orderData) "txList") in
  let claimTokenList := array_or_empty (jopt (Some orderData) "claimTokenList") in
  let (sigs, o) := read_signatures txList in
  let e1 := with_signatures sigs (entry l) in
  match o with
  | Throw m => (mkLocal e1 (seenOrderCodes l) (seenRewardKeys l), Throw m)
  | Ret _ =>
      match log_tokens claimTokenList with
      | Throw m => (mkLocal e1 (seenOrderCodes l) (seenRewardKeys l), Throw m)
      | Ret _ =>
          let e2 := add_totals usd (Z.of_nat (length items)) e1 in
          let codes := match orderCode with Some c => if truthy c then jadd c (seenOrderCodes l) else seenOrderCodes l | None => seenOrderCodes l end in
          match add_keys (seenRewardKeys l) items with
          | Ret keys => (mkLocal e2 codes keys, Ret tt)
          | Throw m => (mkLocal e2 codes (seenRewardKeys l), Throw m)
          end
      end
  end.

Section Round.
Context (walletAddress : string) (nowMs : Z).

Definition encodeBody : Json :=
  jobj [("walletAddress", Some (JStr walletAddress)); ("positionAddresses", Some (JArr [])); ("type", Some (JNum (num_of_Z 2)))]%string.

Definition orderBody (orderCode : option Json) (signed : list Json) : Json :=
  jobj [("orderCode", orderCode); ("walletAddress", Some (JStr walletAddress)); ("signedTxPayload", Some (JArr signed))]%string.

(** What the [try] block does up to the answer of the order. *)
Inductive Ordered :=
| NothingLeft
| Duplicate
| AllFailed
| Done_ (items : list Json) (orderCode : option Json) (orderRes : Json).

Definition order_batch (l : Local) : P Ordered :=
  let* encodeRes := copyBonusPostWithRetry "incentive/encode-v2" encodeBody in
  let encoded := data_or_empty encodeRes in
  let items := jor (jopt (Some encoded) "rewardEncodeItems") (JArr []) in
  let orderCode := jopt (Some encoded) "orderCode" in
  if empty_length items then ret NothingLeft
  else
    let duplicateOrder := match orderCode with Some c => truthy c && jseen c (seenOrderCodes l) | None => false end in
    let* items := lift (match items with JArr xs => Ret xs | _ => Throw "items.some is not a function" end) in
    let* duplicateReward := lift (some_seen (seenRewardKeys l) items) in
    if duplicateOrder || duplicateReward then ret Duplicate
    else
      let* signedTxPayload := sign_items items in
      if bool_decide (signedTxPayload = []) then ret AllFailed
      else
        let* orderRes := copyBonusPostWithRetry "incentive/order-v2" (orderBody orderCode signedTxPayload) in
        ret (Done_ items orderCode orderRes).

Definition claim_batch (usd : num) (l : Local) : P Verdict :=
  let* r := attempt (order_batch l) in
  match r with
  | Throw e => ret (Stop (with_error (err_text e) (entry l)))
  | Ret NothingLeft => ret (Stop (stopOrError "no rewards available" (entry l)))
  | Ret Duplicate => ret (Stop (entry l))
  | Ret AllFailed => ret (Stop (with_error "all signatures failed" (entry l)))
  | Ret (Done_ items orderCode orderRes) =>
      let (l', o) := settle usd items orderCode orderRes l in
      match o with
      | Throw e => ret (Stop (with_error (err_text e) (entry l')))
      | Ret _ =>
          let* w := attempt (sleep COPY_BONUS_ROUND_DELAY_MS) in
          match w with
          | Throw e => ret (Stop (with_error (err_text e) (entry l')))
          | Ret _ => ret (Next l')
          end
      end
  end.

(** One round of the loop; an exception of [toISOString] leaves the function. *)
Definition round (l : Local) : P Verdict :=
  let* epochRes := attempt (apiGet ("copyfarmer/epoch-bonus?walletAddress=" +:+ encodeURIComponent walletAddress +:+ "&type=-1")%string) in
  match epochRes with
  | Throw e =>
      if 0 <? totalPools (entry l) then ret (Stop (entry l))
      else ret (Stop (with_error ("epoch-bonus unavailable: " +:+ err_text e)%string (entry l)))
  | Ret epochRes =>
      let epochs := data_or_empty epochRes in
      let claimableEpoch := jindex epochs "3" 3 in
      if negb (truthy claimableEpoch) then ret (Stop (stopOrError "no rewards available" (entry l)))
      else
        let usd := Number (jopt claimableEpoch "totalBonusUsd") in
        let claimTime := Number (jopt claimableEpoch "claimTime") in
        let endTime := Number (jopt claimableEpoch "endTime") in
        if negb (isFinite usd) || negb (isFinite claimTime) || negb (isFinite endTime) then
          ret (Stop (stopOrError "malformed epoch bonus data" (entry l)))
        else if nle usd (num_of_Z 0) then ret (Stop (stopOrError "no rewards available" (entry l)))
        else if nlt (num_of_Z nowMs) claimTime then
          let* iso := lift (Calendar.toISOString (default 0 (floorZ claimTime))) in
          ret (Stop (stopOrError ("bonus not claimable until " +:+ iso)%string (entry l)))
        else if nle endTime (num_of_Z nowMs) then ret (Stop (stopOrError "bonus claim window ended" (entry l)))
        else claim_batch usd l
  end.

(** [for (let round = 1; ; round++)] *)
Fixpoint rounds (fuel : nat) (l : Local) : P (option ClaimHistoryEntry) :=
  match fuel with
  | O => ret None
  | Datatypes.S fuel' =>
      let* v := round l in
      match v with Stop e => ret (Some e) | Next l' => rounds fuel' l' end
  end.

End Round.

Definition new_local (nowMs : Z) (currentWeek : string) : Local :=
  mkLocal (mkClaim nowMs (Some nowMs) currentWeek 0 (num_of_Z 0) [] None) [] [].

Definition claimCopyBonusWithDepsForTest (tz : Z -> Z) (walletAddress : string) (nowMs : Z) (fuel : nat)
    : P (option ClaimHistoryEntry) :=
  rounds walletAddress nowMs fuel (new_local nowMs (Calendar.getISOWeek tz nowMs)).

End CopyBonus.
End CopyBonus.

(** ** The module's state and its timer *)

Module Scheduler.

Abbreviation HChain := (WriteChain.WChain (T := Ring.table ClaimHistoryEntry)).

(** The variables of the module; [schedulerTimer] is the delay it was armed with. *)
Record Claims := mkClaims {
  claimHistory : list ClaimHistoryEntry;
  lastClaimWeek : string;
  lastClaimTs : Z;
  lastClaimResult : string;
  schedulerTimer : option Z;
  writes : HChain;
}.

Abbreviation P := (Prog Claims Call Ans Task).

Definition init : Claims := mkClaims [] "" 0 "" None (WriteChain.new_chain WriteChain.RETRY_DELAYS_MS).

Section Scheduler.
(** The host's time zone, [config.autoClaimEnabled] and the wallet. *)
Context (tz : Z -> Z) (autoClaimEnabled : bool) (walletAddress : string).

(** [formatClaimResult] *)
Definition formatClaimResult (e : ClaimHistoryEntry) : string :=
  if truthy (c_error e) && (totalPools e =? 0) then ("失敗: " +:+ default "" (c_error e))%string
  else
    let d := match snapshotTs e with Some t => if t =? 0 then c_ts e else t | None => c_ts e end in
    let ms := d - Calendar.day d * Calendar.msPerDay in
    let twHour := pad_left 2 (Z_toString ((ms / Calendar.msPerHour + 8) mod 24)) in
    let twMin := pad_left 2 (Z_toString (ms / 60000 mod 60)) in
    ("領取成功，" +:+ toFixed (totalBonusUsd e) 2 +:+ " USD（快照 " +:+ twHour +:+ ":" +:+ twMin +:+ "）")%string.

(** [loadClaimHistory] from the table *)
Definition loadClaimHistory (t : Ring.table ClaimHistoryEntry) (s : Claims) : Claims :=
  let entries := listClaims t in
  match latestSuccessfulClaim t with
  | Some e => mkClaims entries (week e) (c_ts e) (formatClaimResult e) (schedulerTimer s) (WriteChain.enable (writes s))
  | None => mkClaims entries (lastClaimWeek s) (lastClaimTs s) (lastClaimResult s) (schedulerTimer s) (WriteChain.enable (writes s))
  end.

(** [finalize(entry, currentWeek)] *)
Definition finalize (e : ClaimHistoryEntry) (currentWeek : string) (s : Claims) : Claims :=
  mkClaims (Ring.remember MAX_CLAIM_HISTORY e (claimHistory s))
    (if claim_ok e then currentWeek else lastClaimWeek s) (c_ts e) (formatClaimResult e)
    (schedulerTimer s) (WriteChain.push (pushClaim e) (writes s)).

(** [claimCopyBonus]; [None] when the rounds given are used up. *)
Definition claimCopyBonus (fuel : nat) : P (option ClaimHistoryEntry) :=
  let* nowMs := clock in
  let* r := CopyBonus.claimCopyBonusWithDepsForTest tz walletAddress nowMs fuel in
  match r with
  | Some e => do* modify (finalize e (week e)) in ret (Some e)
  | None => ret None
  end.

Definition arm (ms : option Z) (s : Claims) : Claims :=
  mkClaims (claimHistory s) (lastClaimWeek s) (lastClaimTs s) (lastClaimResult s) ms (writes s).

Definition scheduleNextClaim : P unit :=
  if autoClaimEnabled then
    let* now := clock in
    let* _log := clock in
    modify (arm (Some (Calendar.msUntilNextClaim now)))
  else ret tt.

(** The callback of the timer. *)
Definition on_timer : P unit :=
  let* now := clock in
  let week := Calendar.getISOWeek tz now in
  let* last := gets lastClaimWeek in
  do* (if bool_decide (last = week) then ret tt else spawn RunClaim) in
  scheduleNextClaim.

Definition startAutoClaimScheduler (t : Ring.table ClaimHistoryEntry) : P unit :=
  do* modify (loadClaimHistory t) in
  if autoClaimEnabled then scheduleNextClaim else ret tt.

Definition stopAutoClaimScheduler : P unit := modify (arm None).

Definition getClaimHistory (s : Claims) : list ClaimHistoryEntry := claimHistory s.

(** [flushClaimHistory] waits for the chain. *)
Definition flushClaimHistory (att : WriteChain.Db) (s : Claims) (t : Ring.table ClaimHistoryEntry) : Claims * Ring.table ClaimHistoryEntry :=
  let (c, t') := WriteChain.drain att (writes s) t in
  (mkClaims (claimHistory s) (lastClaimWeek s) (lastClaimTs s) (lastClaimResult s) (schedulerTimer s) c, t').

End Scheduler.
End Scheduler.

(** ** LP fees and off-chain rewards *)

Module LpFees.

Record Failure := mkFailure { phase : string; ref : Json; f_error : string }.

(** A [Map] from symbols to totals, in insertion order. *)
Record Total := mkTotal { amount : num; decimals : num }.

(** [result], [tokenTotals] and the sets of the function. *)
Record LpState := mkLp {
  rewardRounds : Z;
  feeRounds : Z;
  totalItems : Z;
  lpSignatures : list Json;
  failures : list Failure;
  tokenTotals : list (Json * Total);
  seenSignatures : list Json;
  processedRewardPositions : list Json;
  sentPositions : list Json;
}.

Record LpFeeClaimResult := mkLpResult {
  r_rewardRounds : Z; r_feeRounds : Z; r_totalItems : Z;
  r_txSignatures : list Json; r_failures : list Failure; claimedTokens : list (Json * Total);
}.

(** [createLpFeeClaimResult] *)
Definition createLpFeeClaimResult : LpState := mkLp 0 0 0 [] [] [] [] [] [].

Abbreviation P := (Prog LpState Call Ans Task).

(** A signature, or null. *)
Definition extractSignature (entry : Json) : Json :=
  match entry with
  | JStr _ => entry
  | _ => jor (jopt (Some entry) "txSignature") (jor (jopt (Some entry) "signature") JNull)
  end.

Definition addUniqueSignature (sig : Json) (s : LpState) : LpState :=
  if negb (truthy sig) || jseen sig (seenSignatures s) then s
  else
    let sigs := lpSignatures s ++ [sig] in
    mkLp (rewardRounds s) (feeRounds s) (Z.of_nat (length sigs)) sigs (failures s) (tokenTotals s)
      (jadd sig (seenSignatures s)) (processedRewardPositions s) (sentPositions s).

Definition fail (phase : string) (ref : Json) (e : string) (s : LpState) : LpState :=
  mkLp (rewardRounds s) (feeRounds s) (totalItems s) (lpSignatures s) (failures s ++ [mkFailure phase ref (err_text e)])
    (tokenTotals s) (seenSignatures s) (processedRewardPositions s) (sentPositions s).

Definition with_totals (m : list (Json * Total)) (s : LpState) : LpState :=
  mkLp (rewardRounds s) (feeRounds s) (totalItems s) (lpSignatures s) (failures s) m
    (seenSignatures s) (processedRewardPositions s) (sentPositions s).

Definition with_rounds (reward fee : Z) (s : LpState) : LpState :=
  mkLp reward fee (totalItems s) (lpSignatures s) (failures s) (tokenTotals s)
    (seenSignatures s) (processedRewardPositions s) (sentPositions s).

Definition with_processed (ks : list Json) (s : LpState) : LpState :=
  mkLp (rewardRounds s) (feeRounds s) (totalItems s) (lpSignatures s) (failures s) (tokenTotals s)
    (seenSignatures s) ks (sentPositions s).

Definition with_sent (ks : list Json) (s : LpState) : LpState :=
  mkLp (rewardRounds s) (feeRounds s) (totalItems s) (lpSignatures s) (failures s) (tokenTotals s)
    (seenSignatures s) (processedRewardPositions s) ks.

(** [totals.get] and [totals.set] *)
Definition total_of (k : Json) (m : list (Json * Total)) : option Total :=
  snd <$> find_first (fun p => same_value k p.1) m.
Definition set_total (k : Json) (t : Total) (m : list (Json * Total)) : list (Json * Total) :=
  if existsb (fun p => same_value k p.1) m
  then map (fun p => if same_value k p.1 then (p.1, t) else p) m
  else m ++ [(k, t)].

Definition add_token (token : Json) (m : list (Json * Total)) : outcome (list (Json * Total)) :=
  let! tokenSymbol := jfield (Some token) "tokenSymbol" in
  let symbol := if truthy tokenSymbol then tokenSymbol else jopt (Some token) "symbol" in
  match symbol with
  | None => Ret m
  | Some k =>
      if negb (truthy k) then Ret m
      else
        let zero := JNum (num_of_Z 0) in
        let amt := Number (Some (jnullish (jopt (Some token) "tokenAmount") (jnullish (jopt (Some token) "amount") zero))) in
        let dec := Number (Some (jnullish (jopt (Some token) "tokenDecimals") (jnullish (jopt (Some token) "decimals") zero))) in
        if negb (isFinite amt) then Ret m
        else
          let existing := default (mkTotal (num_of_Z 0) dec) (total_of k m) in
          Ret (set_total k (mkTotal (nadd (amount existing) amt) dec) m)
  end.

(** [addTokenTotals(totals, tokens)] *)
Definition addTokenTotals (tokens : Json) : P unit :=
  let* ts := lift (iterable tokens) in
  for_each (fun t =>
    let* m := gets tokenTotals in
    let* m' := lift (add_token t m) in
    modify (with_totals m')) ts.

Definition hasPositiveUnclaimedReward (item : Json) : bool :=
  let n k := Number (Some (jor (jopt (Some item) k) (JNum (num_of_Z 0)))) in
  nlt (num_of_Z 0) (nsub (nsub (n "syncedTokenAmount"%string) (n "lockedTokenAmount"%string)) (n "claimedTokenAmount"%string)).

Section LpFees.
Context (walletAddress : string).

Definition uri : string := encodeURIComponent walletAddress.

(** The loop over the pages, [n] pages left. *)
Fixpoint list_pages (n : nat) (page : Z) (positions : list Json) : P (list Json) :=
  match n with
  | O => ret positions
  | Datatypes.S n' =>
      let* res := apiGet ("position/list?userAddress=" +:+ uri +:+ "&page=" +:+ Z_toString page +:+ "&pageSize=100&status=0")%string in
      let data := data_or_empty res in
      let rows := match jopt (Some data) "positions" with
                  | Some (JArr l) => l
                  | _ => array_or_empty (jopt (Some data) "records")
                  end in
      if bool_decide (rows = []) then ret positions
      else
        let positions' := foldl (fun ps row => match jopt (Some row) "positionAddress" with
                                               | Some k => if truthy k then jadd k ps else ps
                                               | None => ps
                                               end) positions rows in
        let total := Number (Some (jor (jopt (Some data) "total") (JNum (num_of_Z 0)))) in
        if nlt (num_of_Z 0) total && nle total (num_of_Z (Z.of_nat (length positions'))) then ret positions'
        else list_pages n' (page + 1) positions'
  end.

Definition listActivePositionAddresses : P (list Json) := list_pages 100 1 [].

(** The positions with a reward left, less those already ordered. *)
Definition reward_positions (data : Json) (processed : list Json) : list Json :=
  let rewards := array_or_empty (jopt (Some data) "unclaimedOpenIncentives")
                 ++ array_or_empty (jopt (Some data) "unclaimedClosedIncentives") in
  jset_of (omap (fun item => match jopt (Some item) "positionAddress" with
                             | Some k => if truthy k && negb (jseen k processed) then Some k else None
                             | None => None
                             end) (keep hasPositiveUnclaimedReward rewards)).

Definition round_ref (r : Z) : string := ("round-" +:+ Z_toString r)%string.

(** The signing of the items; an item that is null makes the [catch] clause throw. *)
Fixpoint sign_rewards (r : Z) (items : list Json) : P (list Json) :=
  match items with
  | [] => ret []
  | item :: items' =>
      let* signed := attempt (
        let* poolAddress := lift (jfield (Some item) "poolAddress") in
        let* txCode := lift (jfield (Some item) "txCode") in
        let* txPayload := lift (jfield (Some item) "txPayload") in
        let* signedTx := signRewardPayload txPayload in
        ret (jobj [("poolAddress", poolAddress); ("txCode", txCode); ("signedTx", Some (JStr signedTx))]%string)) in
      match signed with
      | Ret s => let* rest := sign_rewards r items' in ret (s :: rest)
      | Throw e =>
          let* txCode := lift (jfield (Some item) "txCode") in
          let* poolAddress := lift (jfield (Some item) "poolAddress") in
          do* modify (fail "reward-sign" (jor txCode (jor poolAddress (JStr (round_ref r)))) e) in
          sign_rewards r items'
      end
  end.

Definition rewardBody (positionAddresses : list Json) : Json :=
  jobj [("walletAddress", Some (JStr walletAddress)); ("positionAddresses", Some (JArr positionAddresses));
        ("type", Some (JNum (num_of_Z 1)))]%string.
Definition rewardOrderBody (orderCode : option Json) (signed : list Json) : Json :=
  jobj [("orderCode", orderCode); ("walletAddress", Some (JStr walletAddress)); ("signedTxPayload", Some (JArr signed))]%string.
Definition feeBody (positionAddresses : list Json) : Json :=
  jobj [("walletAddress", Some (JStr walletAddress)); ("positionAddresses", Some (JArr positionAddresses))]%string.

(** The order of a batch and what is booked for it. *)
Definition order_rewards (positionAddresses items signed : list Json) (orderCode : option Json) : P unit :=
  let* orderRes := apiPost "incentive/order-v2" (rewardOrderBody orderCode signed) in
  let orderData := data_or_empty orderRes in
  do* for_each (fun tx => modify (addUniqueSignature (extractSignature tx)))
        (array_or_empty (jopt (Some orderData) "txList")) in
  let claimTokenList := array_or_empty (jopt (Some orderData) "claimTokenList") in
  do* (if bool_decide (claimTokenList = []) then
         for_each (fun item =>
           let* info := lift (jfield (Some item) "rewardClaimInfo") in
           addTokenTotals (jor info (JArr []))) items
       else addTokenTotals (JArr claimTokenList)) in
  modify (fun s => with_processed (foldl (fun ks k => jadd k ks) (processedRewardPositions s) positionAddresses) s).

(** One round of the reward loop; [false] ends it. *)
Definition reward_round (r : Z) : P bool :=
  let* unclaimedRes := attempt (apiGet ("position/unclaimed-data?userAddress=" +:+ uri)%string) in
  match unclaimedRes with
  | Throw e => do* modify (fail "reward-query" (JStr (round_ref r)) e) in ret false
  | Ret unclaimedRes =>
      let data := data_or_empty unclaimedRes in
      let* processed := gets processedRewardPositions in
      let positionAddresses := reward_positions data processed in
      if bool_decide (positionAddresses = []) then ret false
      else
        let* encodeRes := attempt (apiPost "incentive/encode-v2" (rewardBody positionAddresses)) in
        match encodeRes with
        | Throw e => do* modify (fail "reward-encode" (JStr (round_ref r)) e) in ret false
        | Ret encodeRes =>
            let encoded := data_or_empty encodeRes in
            let items := jor (jopt (Some encoded) "rewardEncodeItems") (JArr []) in
            let orderCode := jopt (Some encoded) "orderCode" in
            if empty_length items then ret false
            else
              do* modify (fun s => with_rounds r (feeRounds s) s) in
              let* items := lift (iterable items) in
              let* signed := sign_rewards r items in
              if bool_decide (signed = []) then ret false
              else
                let* done := attempt (order_rewards positionAddresses items signed orderCode) in
                match done with
                | Ret _ => ret true
                | Throw e => do* modify (fail "reward-order" (jor orderCode (JStr (round_ref r))) e) in ret false
                end
        end
  end.

Fixpoint reward_rounds (n : nat) (r : Z) : P unit :=
  match n with
  | O => ret tt
  | Datatypes.S n' => let* more := reward_round r in if more then reward_rounds n' (r + 1) else ret tt
  end.

(** The fees of one position. *)
Definition fee_entry (entry : Json) : P unit :=
  let* addr := lift (jfield (Some entry) "positionAddress") in
  match addr with
  | None => ret tt
  | Some k =>
      if negb (truthy k) then ret tt
      else
        let* sent := gets sentPositions in
        if jseen k sent then ret tt
        else
          do* modify (with_sent (jadd k sent)) in
          catch (let* sig := sendFeePayload entry in
                 do* modify (addUniqueSignature (JStr sig)) in
                 addTokenTotals (jor (jopt (Some entry) "tokens") (JArr [])))
                (fun e => modify (fail "fee-send" k e))
  end.

(** [xs.length > 0] of a value that is neither null nor undefined *)
Definition has_length (j : Json) : bool :=
  match j with
  | JArr l => negb (bool_decide (l = []))
  | JStr s => truthy s
  | JObj kvs => match jget "length"%string kvs with Some v => nlt (num_of_Z 0) (Number (Some v)) | None => false end
  | _ => false
  end.

Definition claim_fees : P unit :=
  let* listed := attempt listActivePositionAddresses in
  let* positionAddresses :=
    match listed with
    | Ret ps => ret ps
    | Throw e => do* modify (fail "fee-list" (JStr walletAddress) e) in ret []
    end in
  if bool_decide (positionAddresses = []) then ret tt
  else
    let* feeRes := attempt (apiPost "incentive/encode-fee" (feeBody positionAddresses)) in
    let* feeEntries :=
      match feeRes with
      | Ret res => ret (jor (Some (getResponseData res)) (JArr []))
      | Throw e => do* modify (fail "fee-encode" (JStr walletAddress) e) in ret (JArr [])
      end in
    do* (if has_length feeEntries then modify (fun s => with_rounds (rewardRounds s) 1 s) else ret tt) in
    let* entries := lift (iterable feeEntries) in
    for_each fee_entry entries.

Definition claimLpFeesCliParityForTest : P LpFeeClaimResult :=
  do* catch (do* reward_rounds 100 1 in claim_fees)
        (fun e => modify (fail "fatal" (JStr "claimLpFees") e)) in
  gets (fun s => mkLpResult (rewardRounds s) (feeRounds s) (Z.of_nat (length (lpSignatures s)))
                   (lpSignatures s) (failures s) (tokenTotals s)).

End LpFees.
End LpFees.

(** ** The dependencies in production *)

Module Production.
Import AsyncMore.

(** What the module awaits: [fetch], the signer, the connection, timers. *)
Inductive RawCall :=
| Fetch (method url : string) (body : option Json)
| SignVersioned (txPayload : option Json)
| SendRawTransaction (raw : string) (skipPreflight : bool) (maxRetries : Z)
| GetLatestBlockhash
| ConfirmTransaction (signature blockhash : string) (lastValidBlockHeight : Z)
| Timer (ms : Z).

(** A signed transaction: its bytes in base64 and its recent blockhash. *)
Record Signed := mkSigned { raw : string; recentBlockhash : string }.

Definition RawAns (c : RawCall) : Type :=
  match c with
  | Fetch _ _ _ => Response
  | SignVersioned _ => Signed
  | SendRawTransaction _ _ _ => string
  | GetLatestBlockhash => Z
  | ConfirmTransaction _ _ _ => option Json
  | Timer _ => unit
  end.

Section Production.
Context {S : Type}.
Abbreviation R := (Prog S RawCall RawAns Task).

Definition raw_call (c : RawCall) : R (RawAns c) := await c.

Definition BYREAL_API : string := "https://api2.byreal.io/byreal/api/dex/v2".

Definition fetch_json (method apiPath : string) (body : option Json) : R Json :=
  let* res := raw_call (Fetch method (BYREAL_API +:+ "/" +:+ apiPath)%string body) in
  lift (parseByrealJsonResponse method apiPath res).

Definition raw_get (apiPath : string) : R Json := fetch_json "GET" apiPath None.
Definition raw_post (apiPath : string) (body : Json) : R Json := fetch_json "POST" apiPath (Some body).

Definition raw_sign (txPayload : option Json) : R string :=
  let* signed := raw_call (SignVersioned txPayload) in ret (raw signed).

(** [sendSignedFeePayloadForTest] *)
Definition sendSignedFeePayload (skipPreflight : bool) (txPayload : option Json) : R string :=
  let* signed := raw_call (SignVersioned txPayload) in
  let* signature := raw_call (SendRawTransaction (raw signed) skipPreflight 3) in
  let* lastValidBlockHeight := raw_call GetLatestBlockhash in
  let* err := raw_call (ConfirmTransaction signature (recentBlockhash signed) lastValidBlockHeight) in
  if truthy err then throw ("Transaction confirmed but failed: " +:+ jstringify (default JNull err))%string
  else ret signature.

Definition handle (skipPreflight : bool) (c : Call) : R (Ans c) :=
  match c as c return R (Ans c) with
  | ApiGet path => raw_get path
  | ApiPost path body => raw_post path body
  | SignRewardPayload p => raw_sign p
  | SendFeePayload entry =>
      let* p := lift (jfield (Some entry) "txPayload") in sendSignedFeePayload skipPreflight p
  | Sleep ms => raw_call (Timer ms)
  end.

End Production.

(** [claimLpFeesOffchain] *)
Definition claimLpFeesOffchain (skipPreflight : bool) (walletAddress : string)
    : Prog LpFees.LpState RawCall RawAns Task LpFees.LpFeeClaimResult :=
  interp (handle skipPreflight) (LpFees.claimLpFeesCliParityForTest walletAddress).

End Production.

End Claim.
