(* ===== verification/ClaimRules.v ===== *)
(** * What the weekly claim guarantees

    [CopyBonusRules]: nothing is ordered again that an earlier order of the same
    claim was answered for, and the loop over rounds, unbounded in the source,
    ends. [SchedulerRules]: when the timer fires next, what it starts, and that
    the history and the week of the last success survive a restart. The modules
    [LpFeeRules] and [ProductionRules] at the end: the claim of LP fees. *)

From Stdlib Require Import Ascii Floats.SpecFloat.
From S2P Require Import Prelude JsMap JsString JsNumber Json JsConvert Async WriteChain Histories AutoClaim.
Open Scope Z_scope.
Open Scope list_scope.

Module CopyBonusRules.
Import Async Claim CopyBonus.

Definition order_path : string := "incentive/order-v2".

(** The keys of what a body orders: the order code and the codes of the items. *)
Definition item_key (item : Json) : option Json :=
  match reward_key item with Ret (Some k) => if truthy k then Some k else None | _ => None end.
Definition code_of (orderCode : option Json) : list Json :=
  match orderCode with Some c => if truthy c then [c] else [] | None => [] end.
Definition body_code (body : Json) : list Json := code_of (jopt (Some body) "orderCode").
Definition body_keys (body : Json) : list Json := omap item_key (array_or_empty (jopt (Some body) "signedTxPayload")).

(** No value of one list is in the other, as a [Set] compares them. *)
Definition apart (xs ys : list Json) : Prop := forall x y, x ∈ xs -> y ∈ ys -> same_value y x = false.

#[local] Arguments jfield : simpl never.

Section Rules.
Context {S : Type}.
Abbreviation Hist := (list (HEvent Call Ans Task)).

(** The orders that were answered. *)
Definition orders (h : Hist) : list Json :=
  omap (fun e => match e with
                 | Called (ApiPost path body) (Ret _) => if bool_decide (path = order_path) then Some body else None
                 | _ => None
                 end) h.

(** An order shares neither its code nor a reward with one answered before. *)
Definition ordered_once (h : Hist) (c : Call) : Prop :=
  match c with
  | ApiPost path body =>
      path = order_path -> forall b, b ∈ orders h -> apart (body_code b) (body_code body) /\ apart (body_keys b) (body_keys body)
  | _ => True
  end.

Abbreviation L ok := (call_logic (S := S) ordered_once (fun _ _ => True) ok).

Section Answers.
Context (ok : forall c, outcome (Ans c) -> Prop).

Lemma wp_post path body delays h s :
  (path = order_path -> forall b, b ∈ orders h -> apart (body_code b) (body_code body) /\ apart (body_keys b) (body_keys body)) ->
  wp (L ok) (post_with_delays path body delays) h s (fun r h' s' =>
    orders h' = (match r with Ret _ => if bool_decide (path = order_path) then [body] else [] | Throw _ => [] end) ++ orders h
    /\ match r with Ret x => ok (ApiPost path body) (Ret x) | Throw _ => True end).
Proof.
  revert h s. induction delays as [|d delays IH]; intros h s Hb; cbn [post_with_delays]; apply wp_bind, wp_after; cbn;
    (split; [done|]); intros [x|e] s' Hx _; cbn.
  - by case_bool_decide.
  - done.
  - by case_bool_decide.
  - destruct (isCopyBonusTransientError e); [|done]. cbn. split; [done|]. intros [u|e'] s'' _ _; cbn; [|done].
    eapply wp_mono; [apply IH; exact Hb|]. done.
Qed.

Lemma signed_key item tc pa tp : jfield (Some item) "txCode" = Ret tc -> jfield (Some item) "poolAddress" = Ret pa ->
  item_key (jobj [("txCode", tc); ("poolAddress", pa); ("signedTx", tp)]%string) = item_key item.
Proof.
  intros Ht Hp. unfold item_key, reward_key. rewrite Ht. cbn [obind]. rewrite Hp.
  destruct tc as [tc|]; destruct pa as [pa|]; destruct tp; cbn; try done; by destruct (truthy tc).
Qed.

Lemma wp_sign items h s :
  wp (L ok) (sign_items items) h s (fun r h' s' => orders h' = orders h
    /\ match r with Ret signed => omap item_key signed ⊆ omap item_key items | Throw _ => True end).
Proof.
  revert h s. induction items as [|item items IH]; intros h s; cbn [sign_items]; [done|].
  apply wp_bind, wp_after.
  destruct (jfield (Some item) "txCode") as [tc|e] eqn:Htc; cbn [lift bind after throw ret wp];
    [destruct (jfield (Some item) "poolAddress") as [pa|e] eqn:Hpa; cbn [lift bind after throw ret wp];
     [destruct (jfield (Some item) "txPayload") as [tp|e] eqn:Htp; cbn [lift bind after throw ret wp]|]|].
  - split; [done|]. intros [sg|e] s' _ _; cbn [after wp ret throw].
    + apply wp_bind. eapply wp_mono; [apply IH|]. intros [signed|e] h' s'' [Ho Hs]; cbn; [|done]. split; [done|].
      rewrite (signed_key item) by done. destruct (item_key item); set_solver.
    + cbn. eapply wp_mono; [apply IH|]. intros [signed|e'] h' s'' [Ho Hs]; cbn; (split; [done|]); [|done].
      destruct (item_key item); set_solver.
  - cbn. eapply wp_mono; [apply IH|]. intros [signed|e'] h' s'' [Ho Hs]; cbn; (split; [done|]); [|done].
    destruct (item_key item); set_solver.
  - done.
  - destruct (jfield (Some item) "poolAddress") as [pa|e'] eqn:Hpa; [|by cbn]. cbn.
    eapply wp_mono; [apply IH|]. intros [signed|e'] h' s'' [Ho Hs]; cbn; (split; [done|]); [|done].
    destruct (item_key item); set_solver.
Qed.

(** The sets cover the orders that were answered. *)
Definition covers (l : Local) (os : list Json) : Prop :=
  forall b, b ∈ os -> body_code b ⊆ seenOrderCodes l /\ body_keys b ⊆ seenRewardKeys l.

Lemma some_seen_false seen items k : some_seen seen items = Ret false -> k ∈ omap item_key items -> jseen k seen = false.
Proof.
  induction items as [|item items IH]; cbn; [set_solver|]. unfold item_key at 1.
  destruct (reward_key item) as [[k'|]|e]; cbn; [|apply IH|done].
  destruct (truthy k') eqn:Ht; cbn; [|apply IH]. destruct (jseen k' seen) eqn:Hj; [done|].
  intros H. rewrite list.elem_of_cons. intros [->|Hk]; [done|by apply IH].
Qed.

Lemma unseen_apart k seen xs : jseen k seen = false -> xs ⊆ seen -> forall x, x ∈ xs -> same_value k x = false.
Proof. intros Hk Hs x Hx. apply (proj1 (some_false (same_value k) seen) Hk). by apply Hs. Qed.

(** A value that counts is a member once it was added. *)
Lemma same_value_eq a b : same_value a b = true -> truthy a = true -> a = b.
Proof.
  destruct a as [|x|x|x|l|l], b as [|y|y|y|m|m]; cbn; try done.
  - by destruct x, y.
  - intros H Ht. f_equal. destruct x as [sx|sx| |sx mx ex]; try done; destruct y as [sy|sy| |sy my ey];
      unfold neqb, SFeqb in H; cbn in *; try done; try (by destruct sx, sy); try (by destruct sy); try (by destruct sx).
    destruct sx, sy; cbn in *; try done;
      destruct (Z.compare_spec ex ey) as [->| |]; try done;
      destruct (Pos.compare_cont Eq mx my) eqn:E; try done; apply Pos.compare_eq in E; by subst.
  - intros H%bool_decide_eq_true _. by subst.
Qed.

Lemma elem_of_jadd k seen : truthy k = true -> k ∈ jadd k seen.
Proof.
  intros Ht. unfold jadd. destruct (jseen k seen) eqn:E; [|set_solver].
  apply jseen_true in E as (y & Hy & Hs). apply same_value_eq in Hs; [by subst|done].
Qed.

Lemma add_keys_spec items seen keys : add_keys seen items = Ret keys ->
  seen ⊆ keys /\ omap item_key items ⊆ keys.
Proof.
  revert seen. induction items as [|item items IH]; intros seen; cbn; [intros [= ->]; split; [done|by intros x Hx%list.elem_of_nil]|].
  unfold add_key, item_key at 1. destruct (reward_key item) as [[k|]|e]; cbn; [|apply IH|done].
  destruct (truthy k) eqn:Ht; [|apply IH]. intros H. apply IH in H as [H1 H2].
  pose proof (subseteq_jadd k seen). pose proof (elem_of_jadd k seen Ht). set_solver.
Qed.

Lemma order_code w oc signed : body_code (orderBody w oc signed) = code_of oc.
Proof. by destruct oc. Qed.
Lemma order_keys w oc signed : body_keys (orderBody w oc signed) = omap item_key signed.
Proof. by destruct oc. Qed.

Lemma settle_covers usd items orderCode res l l' os signed w :
  settle usd items orderCode res l = (l', Ret tt) -> covers l os -> omap item_key signed ⊆ omap item_key items ->
  covers l' (orderBody w orderCode signed :: os).
Proof.
  unfold settle. destruct (read_signatures _) as [sigs [u|e]]; [|done].
  destruct (log_tokens _) as [u'|e]; [|done]. destruct (add_keys _ _) as [keys|e] eqn:Hk; [|done].
  intros [= <-] Hc Hs. apply add_keys_spec in Hk as [Hk1 Hk2].
  intros b Hb. apply list.elem_of_cons in Hb as [->|Hb]; cbn [seenOrderCodes seenRewardKeys].
  - rewrite order_code, order_keys. split; [|set_solver]. destruct orderCode as [c|]; cbn; [|by intros x Hx%list.elem_of_nil].
    destruct (truthy c) eqn:Ht; [|by intros x Hx%list.elem_of_nil].
    intros x ->%list.list_elem_of_singleton. by apply elem_of_jadd.
  - destruct (Hc b Hb) as [H1 H2]. split; [|set_solver]. destruct orderCode as [c|]; [|done].
    destruct (truthy c); [|done]. etrans; [exact H1|apply subseteq_jadd].
Qed.

Lemma settle_codes usd items oc res l l' : settle usd items oc res l = (l', Ret tt) ->
  seenOrderCodes l' = match oc with Some c => if truthy c then jadd c (seenOrderCodes l) else seenOrderCodes l | None => seenOrderCodes l end.
Proof.
  unfold settle. destruct (read_signatures _) as [sigs [u|e]]; [|done].
  destruct (log_tokens _) as [u'|e]; [|done]. destruct (add_keys _ _) as [keys|e] eqn:Hk; [|done]. by intros [= <-].
Qed.

Lemma fresh_code oc seen : (match oc with Some c => truthy c && jseen c seen | None => false end) = false ->
  forall k, k ∈ code_of oc -> jseen k seen = false.
Proof.
  destruct oc as [c|]; cbn; [|by intros _ k Hk%list.elem_of_nil]. destruct (truthy c); cbn; [|by intros _ k Hk%list.elem_of_nil].
  by intros H k ->%list.list_elem_of_singleton.
Qed.

(** An order of what the sets do not hold is apart from the orders they cover. *)
Lemma fresh_order l os w oc signed : covers l os ->
  (forall k, k ∈ code_of oc -> jseen k (seenOrderCodes l) = false) ->
  (forall k, k ∈ omap item_key signed -> jseen k (seenRewardKeys l) = false) ->
  forall b, b ∈ os -> apart (body_code b) (body_code (orderBody w oc signed))
                      /\ apart (body_keys b) (body_keys (orderBody w oc signed)).
Proof.
  intros Hc H1 H2 b Hb. destruct (Hc b Hb) as [Hb1 Hb2]. rewrite order_code, order_keys.
  split; intros x y Hx Hy; [by apply (unseen_apart y (seenOrderCodes l) (body_code b)); auto|
                            by apply (unseen_apart y (seenRewardKeys l) (body_keys b)); auto].
Qed.

(** An order code as it was answered, with a batch that is not empty, and new. *)
Definition batch_of (res : Json) : Json := jor (jopt (Some (data_or_empty res)) "rewardEncodeItems") (JArr []).
Definition code_in (res : Json) : option Json := jopt (Some (data_or_empty res)) "orderCode".
Definition fresh_batch (w : string) (l : Local) (oc : option Json) : Prop :=
  exists res, ok (ApiPost "incentive/encode-v2" (encodeBody w)) (Ret res) /\ empty_length (batch_of res) = false
    /\ oc = code_in res /\ forall k, k ∈ code_of oc -> jseen k (seenOrderCodes l) = false.

Lemma wp_order_batch w l h s : covers l (orders h) ->
  wp (L ok) (order_batch w l) h s (fun r h' _ =>
    match r with
    | Ret (Done_ items oc res) => exists signed, orders h' = orderBody w oc signed :: orders h
        /\ omap item_key signed ⊆ omap item_key items /\ fresh_batch w l oc
    | _ => True
    end).
Proof.
  intros Hc. unfold order_batch, copyBonusPostWithRetry. apply wp_bind.
  eapply wp_mono; [apply wp_post; intros H; discriminate H|]. intros [encodeRes|e] h1 s1 [Ho1 Hok1]; [|done].
  rewrite bool_decide_eq_false_2 in Ho1 by done. cbn [app] in Ho1.
  destruct (empty_length _) eqn:Hne; [done|]. change (jor (jopt _ "rewardEncodeItems") _) with (batch_of encodeRes).
  destruct (batch_of encodeRes) as [| | | |items|] eqn:Hb; try done. cbn [lift bind after]. destruct (some_seen _ items) as [dup|e] eqn:Hdup; [|done]. cbn [lift bind after].
  destruct (_ || dup) eqn:Hd; [done|]. apply orb_false_iff in Hd as [Hcode ->].
  apply wp_bind. eapply wp_mono; [apply wp_sign|]. intros [signed|e] h2 s2 [Ho2 Hs2]; [|done].
  case_bool_decide; [done|]. apply wp_bind. eapply wp_mono.
  { apply wp_post. intros _. rewrite Ho2, Ho1. apply (fresh_order l); [done|by apply fresh_code|].
    intros k Hk. eapply some_seen_false; [exact Hdup|]. by apply Hs2. }
  intros [res|e] h3 s3 [Ho3 _]; [|done]. exists signed. rewrite Ho3, Ho2, Ho1. split_and!; [done..|].
  exists encodeRes. split_and!; [done|exact Hne|done|by apply fresh_code].
Qed.

(** What a round leaves to the next one. *)
Lemma wp_round w now l h s : covers l (orders h) ->
  wp (L ok) (round w now l) h s (fun r h' _ =>
    match r with
    | Ret (Next l') => covers l' (orders h')
        /\ exists oc, fresh_batch w l oc
             /\ seenOrderCodes l' = match oc with Some c => if truthy c then jadd c (seenOrderCodes l) else seenOrderCodes l | None => seenOrderCodes l end
    | _ => True
    end).
Proof.
  intros Hc. unfold round. apply wp_bind, wp_after. split; [done|]. intros [epochRes|e] s1 _ _; cbn [after ret wp].
  - destruct (negb _); [done|]. destruct (_ || _); [done|]. destruct (nle _ _); [done|].
    destruct (nlt _ _); [by destruct (Calendar.toISOString _)|]. destruct (nle _ _); [done|].
    unfold claim_batch. apply wp_bind, wp_after. eapply wp_mono; [by apply wp_order_batch|].
    intros [[| | |items oc res]|e] h2 s2 H2; cbn [ret wp]; try done.
    destruct H2 as (signed & Ho & Hs & Hf). destruct (settle _ _ _ _ _) as [l' [u|e]] eqn:Hset; [|done]. destruct u.
    apply wp_bind, wp_after. split; [done|]. intros [u|e] s3 _ _; cbn [after ret wp]; [|done].
    split; [change (covers l' (orders h2)); rewrite Ho; by eapply settle_covers|].
    exists oc. split; [done|]. by eapply settle_codes.
  - by destruct (0 <? _).
Qed.

Lemma wp_rounds w now fuel l h s : covers l (orders h) ->
  wp (L ok) (rounds w now fuel l) h s (fun _ _ _ => True).
Proof.
  revert l h s. induction fuel as [|fuel IH]; intros l h s Hc; cbn [rounds]; [done|].
  apply wp_bind. eapply wp_mono; [by apply wp_round|]. intros [[e|l']|e] h' s' Hl; [done|by apply IH, Hl|done].
Qed.

End Answers.
(** ** The rounds end *)

(** The backend issues its order codes from a list. *)
Definition codes_from (K : list string) (c : Call) (r : outcome (Ans c)) : Prop :=
  match c as c return outcome (Ans c) -> Prop with
  | ApiPost path _ => fun r => match r with
      | Ret res => path = "incentive/encode-v2"%string -> empty_length (batch_of res) = false ->
                   exists k, k ∈ K /\ truthy k = true /\ code_in res = Some (JStr k)
      | Throw _ => True
      end
  | _ => fun _ => True
  end r.

Lemma wp_rounds_end K w now fuel l ks h s : covers l (orders h) ->
  seenOrderCodes l = map JStr ks -> NoDup ks -> ks ⊆ K -> (length K < fuel + length ks)%nat ->
  wp (L (codes_from K)) (rounds w now fuel l) h s (fun r _ _ => r <> Ret None).
Proof.
  revert l ks h s. induction fuel as [|fuel IH]; intros l ks h s Hc Hl Hnd Hsub Hlen; cbn [rounds].
  - pose proof (list.submseteq_length _ _ (list.NoDup_submseteq ks K Hnd Hsub)). lia.
  - apply wp_bind. eapply wp_mono; [by apply wp_round|]. intros [[e|l']|e] h' s' Hn; [done| |done].
    destruct Hn as [Hc' (oc & (res & Hok & Hne & Hoc & Hf) & Hcodes)].
    destruct (Hok eq_refl Hne) as (k & Hk & Ht & Hcode). rewrite Hcode in Hoc. subst oc. cbn in Hcodes, Hf. rewrite Ht in *.
    specialize (Hf (JStr k) (proj2 (list.list_elem_of_singleton _ _) eq_refl)). rewrite Hl in Hf.
    assert (k ∉ ks) as Hnk.
    { intros Hin. enough (jseen (JStr k) (map JStr ks) = true) by congruence. apply jseen_true. exists (JStr k).
      split; [by apply (list.list_elem_of_fmap_2 JStr)|by apply bool_decide_eq_true]. }
    apply (IH l' (ks ++ [k])); [done| | |set_solver|rewrite length_app; simpl; lia].
    + rewrite Hcodes, map_app, Hl. unfold jadd. by rewrite Hf.
    + apply list.NoDup_app. split; [done|]. split; [|apply NoDup_singleton]. set_solver.
Qed.

End Rules.
(** C22: Whatever the backend answers, however calls fail and are retried, no
    order of a copy-bonus claim carries the order code or a reward (its code, or
    its pool where it has none) of an order answered before in the same claim:
    a bonus is not ordered twice. *)
Theorem rewards_ordered_once {S} (env : Env S Call Ans) tz w now fuel s :
  each_call ordered_once (hist (run env 0 [] (claimCopyBonusWithDepsForTest (S := S) tz w now fuel) s)).
Proof.
  refine (proj1 (calls_run _ ordered_once (fun _ _ => True) (fun _ _ => True) env 0 [] s (fun _ _ _ => True) _ I _)); [done|].
  apply wp_rounds. by intros b Hb%list.elem_of_nil.
Qed.

(** C23: The loop over rounds of a copy-bonus claim, which the source does not
    bound, ends: when the backend gives every batch one of [K] order codes, one
    round more than there are codes is enough, whatever else it answers and
    whichever calls fail. *)
Theorem claim_rounds_end {S} (env : Env S Call Ans) tz w now K s :
  (forall n c s, codes_from K c (answer env n c s).1) ->
  res (run env 0 [] (claimCopyBonusWithDepsForTest (S := S) tz w now (Datatypes.S (length K))) s) <> Ret None.
Proof.
  intros He.
  refine (proj2 (calls_run _ ordered_once (fun _ _ => True) (codes_from K) env 0 [] s (fun r _ _ => r <> Ret None) _ I _)).
  - intros n c s'. split; [apply He|done].
  - eapply (wp_rounds_end K _ _ _ _ []); [by intros b Hb%list.elem_of_nil|done|apply NoDup_nil_2|by intros x Hx%list.elem_of_nil|simpl; lia].
Qed.

(** *** What an entry says

    An entry either has no error or a message that is not empty, so that what
    the program takes for a success in memory is what the table's query takes
    for one. *)
Definition says_why (e : ClaimHistoryEntry) : Prop := claim_ok e = no_error e.

Lemma err_text_truthy e : truthy (err_text e) = true.
Proof. unfold err_text. by destruct (truthy e) eqn:E. Qed.

Lemma says_why_error msg e : truthy msg = true -> says_why (with_error msg e).
Proof. intros H. unfold says_why, claim_ok, no_error. cbn. by rewrite H. Qed.

Lemma says_why_stop msg e : truthy msg = true -> says_why e -> says_why (stopOrError msg e).
Proof. intros Hm He. unfold stopOrError. destruct (0 <? totalPools e); [done|by apply says_why_error]. Qed.

#[local] Hint Resolve says_why_error says_why_stop err_text_truthy : copybot.

Lemma settle_error usd items oc res l : c_error (entry (settle usd items oc res l).1) = c_error (entry l).
Proof.
  unfold settle. destruct (read_signatures _) as [sigs [u|e]]; [|done]. destruct (log_tokens _); [|done].
  by destruct (add_keys _ _).
Qed.

#[local] Hint Extern 2 (truthy _ = true) => reflexivity : copybot.
#[local] Ltac stops := cbn [ret wp after throw lift bind]; solve [auto with copybot].

Lemma wp_says_why {S} ok w now fuel l h (s : S) : says_why (entry l) ->
  wp (hist_logic (fun _ _ _ => True) (fun _ _ => True) ok) (rounds w now fuel l) h s
    (fun r _ _ => match r with Ret (Some e) => says_why e | _ => True end).
Proof.
  revert l h s. induction fuel as [|fuel IH]; intros l h s Hl; cbn [rounds]; [done|]. apply wp_bind.
  cut (wp (hist_logic (fun _ _ _ => True) (fun _ _ => True) ok) (round w now l) h s
         (fun r _ _ => match r with Ret (Stop e) => says_why e | Ret (Next l') => says_why (entry l') | _ => True end)).
  { intros H. eapply wp_mono; [exact H|]. intros [[e|l']|e] h' s' Hv; [done|by apply IH|done]. }
  unfold round. apply wp_bind, wp_after. split; [done|]. intros [epochRes|e] s1 _ _; cbn [after ret wp].
  - destruct (negb _); [stops|]. destruct (_ || _); [stops|]. destruct (nle _ _); [stops|].
    destruct (nlt _ _); [destruct (Calendar.toISOString _); [stops|done]|]. destruct (nle _ _); [stops|].
    unfold claim_batch. apply wp_bind, wp_after. eapply wp_mono; [apply hist_any|].
    intros [[| | |items oc res]|e] h2 s2 _; cbn [ret wp]; try (stops).
    pose proof (settle_error (Number (jopt (jindex (data_or_empty epochRes) "3" 3) "totalBonusUsd")) items oc res l) as He.
    destruct (settle _ _ _ _ _) as [l' [u|e]]; [|cbn in He; cbn; apply says_why_error, err_text_truthy].
    apply wp_bind, wp_after. split; [done|]. intros [v|e] s3 _ _; cbn [after ret wp]; [|stops].
    unfold says_why, claim_ok, no_error in *. cbn in He. by rewrite He.
  - destruct (0 <? _); stops.
Qed.

Lemma claim_says_why {S} (env : Env S Call Ans) tz w now fuel s e :
  res (run env 0 [] (claimCopyBonusWithDepsForTest (S := S) tz w now fuel) s) = Ret (Some e) -> says_why e.
Proof.
  intros He.
  pose proof (hist_run (claimCopyBonusWithDepsForTest tz w now fuel) (fun _ _ _ => True) (fun _ _ => True) (fun _ _ => True) env 0 [] s
    (fun r _ _ => match r with Ret (Some e) => says_why e | _ => True end) ltac:(done)) as H.
  cbv zeta in H. rewrite He in H. apply H. by apply wp_says_why.
Qed.

(** ** A claim of two rounds *)

(** The backend gives batches A and B, then nothing; the first answer to an order
    is a gateway time-out. *)
Definition demo_batch (code_ tx : string) : Json :=
  JObj [("data", JObj [("orderCode", JStr code_); ("rewardEncodeItems", JArr [JObj [("txCode", JStr tx); ("txPayload", JStr "p")]])])]%string.
Definition demo_epoch : Json :=
  JObj [("result", JObj [("data", JObj [("3", JObj [("totalBonusUsd", JStr "2.5"); ("claimTime", JNum (num_of_Z 10));
                                                   ("endTime", JNum (num_of_Z 5000))])])])]%string.
Definition demo_answer (n : nat) (c : Call) (s : unit) : outcome (Ans c) * unit :=
  (match c as c return outcome (Ans c) with
   | ApiGet _ => Ret demo_epoch
   | ApiPost path body =>
       if bool_decide (path = order_path) then
         (if (n <? 4)%nat then Throw "POST incentive/order-v2 504 Gateway Time-out"
          else Ret (JObj [("txList", JArr [JObj [("txSignature", JStr "s")]])]))
       else Ret (if (n <? 4)%nat then demo_batch "A" "ta" else if (n <? 10)%nat then demo_batch "B" "tb" else JObj [("rewardEncodeItems", JArr [])])
   | SignRewardPayload _ => Ret "signed"
   | SendFeePayload _ => Ret "sig"
   | Sleep _ => Ret tt
   end%string, s).
Definition demo_env : Env unit Call Ans := mkEnv demo_answer (fun _ => 0).

Lemma claim_rounds_end_witness :
  (forall n c s, codes_from ["A"; "B"]%string c (answer demo_env n c s).1)
  /\ res (run demo_env 0 [] (claimCopyBonusWithDepsForTest (fun _ => 0) "W" 100 3) tt) <> Ret None.
Proof.
  assert (forall n c s, codes_from ["A"; "B"]%string c (answer demo_env n c s).1) as H.
  { intros n c s. destruct c as [|path body| | |]; cbn [codes_from answer demo_env demo_answer fst]; [done| |done|done|done].
    destruct (bool_decide (path = order_path)) eqn:E.
    - destruct (n <? 4)%nat; [done|]. intros -> Hn. by apply bool_decide_eq_true in E.
    - intros _ Hn. destruct (n <? 4)%nat; [exists "A"%string; split_and!; [set_solver|done|done]|].
      destruct (n <? 10)%nat; [exists "B"%string; split_and!; [set_solver|done|done]|done]. }
  split; [exact H|]. exact (claim_rounds_end demo_env (fun _ => 0) "W" 100 ["A"; "B"]%string tt H).
Defined.

Example two_rounds : exists e,
  res (run demo_env 0 [] (claimCopyBonusWithDepsForTest (fun _ => 0) "W" 100 3) tt) = Ret (Some e)
  /\ totalPools e = 2 /\ totalBonusUsd e = num_of_Z 5 /\ c_error e = None
  /\ length (orders (hist (run demo_env 0 [] (claimCopyBonusWithDepsForTest (fun _ => 0) "W" 100 3) tt))) = 2%nat.
Proof. eexists. vm_compute. repeat split. Qed.

End CopyBonusRules.

(** ** The timer and the history *)

Module SchedulerRules.
Import Async Claim Scheduler.
Import CopyBonusRules(says_why).

(** A delay [setTimeout] keeps as it is. *)
Definition timer_max : Z := 2147483647.

(** When the weekly timer fires, a claim is started exactly if the last
    success was not in the same week of the host's calendar, Monday to Sunday;
    and the timer is armed again for the next Tuesday 08:30 UTC, the first one
    after the clock, by a delay that [setTimeout] can represent. *)
Theorem weekly_timer (env : Env Claims Call Ans) tz last s :
  0 <= Calendar.local_day tz last -> 0 <= Calendar.local_day tz (time env 0) ->
  lastClaimWeek s = Calendar.getISOWeek tz last ->
  let x := run (Task := Task) env 0 [] (on_timer tz true) s in
  let now := time env 1 in
  (Spawned RunClaim ∈ hist x <-> (Calendar.local_day tz (time env 0) + 3) / 7 <> (Calendar.local_day tz last + 3) / 7)
  /\ exists ms, schedulerTimer (final x) = Some ms /\ 0 < ms <= timer_max
     /\ Calendar.claim_time (now + ms) /\ forall t, now < t < now + ms -> ~ Calendar.claim_time t.
Proof.
  intros H1 H2 Hlast x now. subst x now.
  pose proof (Calendar.getISOWeek_same tz last (time env 0) H1 H2) as Hweek. rewrite <- Hlast in Hweek.
  pose proof (Calendar.next_claim (time env 1)) as (Hb & Hc & Hf).
  unfold on_timer, scheduleNextClaim. cbn [bind after clock gets run ret]. case_bool_decide as Hw; cbn; (split; [|exists (Calendar.msUntilNextClaim (time env 1))]).
  - split; [by intros ?%list.elem_of_nil|]. intros Hne. destruct Hne. symmetry. by apply Hweek.
  - split_and!; [done|unfold timer_max; unfold Calendar.msPerDay in Hb; lia..|done|done].
  - split; [|set_solver]. intros _ He. apply Hw, Hweek. by symmetry.
  - split_and!; [done|unfold timer_max; unfold Calendar.msPerDay in Hb; lia..|done|done].
Qed.

(** 2024-01-02 08:30 UTC in Taipei, a week after the last success. *)
Definition demo_claims : Claims := mkClaims [] "2023-W52" 0 "" None (WriteChain.new_chain []).
Definition tuesday : Env Claims Call Ans := mkEnv (fun _ _ s => (Throw "", s)) (fun _ => 1704184200000).

Lemma weekly_timer_witness :
  let x := run (Task := Task) tuesday 0 [] (on_timer (fun _ => 28800000) true) demo_claims in
  Spawned RunClaim ∈ hist x /\ exists ms, schedulerTimer (final x) = Some ms /\ 0 < ms <= timer_max.
Proof.
  assert (lastClaimWeek demo_claims = Calendar.getISOWeek (fun _ => 28800000) 1703579400000) as Hl by reflexivity.
  pose proof (weekly_timer tuesday (fun _ => 28800000) 1703579400000 demo_claims ltac:(vm_compute; discriminate) ltac:(vm_compute; discriminate) Hl) as [H1 (ms & H2 & H3 & _)].
  split; [apply H1; vm_compute; discriminate|]. exists ms. split; [exact H2|exact H3].
Defined.

(** *** A restart *)

Inductive Event := Finalize (e : ClaimHistoryEntry) | Work.

Definition event (att : WriteChain.Db) (st : Claims * Ring.table ClaimHistoryEntry) (ev : Event) : Claims * Ring.table ClaimHistoryEntry :=
  match ev with
  | Finalize e => (finalize e (week e) st.1, st.2)
  | Work =>
      let s := st.1 in
      let (c, t) := WriteChain.run_next att (writes s) st.2 in
      (mkClaims (claimHistory s) (lastClaimWeek s) (lastClaimTs s) (lastClaimResult s) (schedulerTimer s) c, t)
  end.

Definition finalized (evs : list Event) : list ClaimHistoryEntry :=
  omap (fun e => match e with Finalize x => Some x | Work => None end) evs.

(** The history and the week as a memory with its chain. *)
Definition mem (e : ClaimHistoryEntry) (d : list ClaimHistoryEntry * string) : list ClaimHistoryEntry * string :=
  (Ring.remember MAX_CLAIM_HISTORY e d.1, if claim_ok e then week e else d.2).
Definition calls (e : ClaimHistoryEntry) (_ : list ClaimHistoryEntry * string) : list (Ring.table ClaimHistoryEntry -> Ring.table ClaimHistoryEntry) := [pushClaim e].
Definition view (s : Claims) : Journal.journal := Journal.mk (claimHistory s, lastClaimWeek s) (writes s).
Definition journal_event (e : Event) : Journal.Event := match e with Finalize x => Journal.Do x | Work => Journal.Work end.

Lemma view_events att evs st :
  let st' := foldl (event att) st evs in
  (view st'.1, st'.2) = foldl (Journal.event mem calls att) (view st.1, st.2) (map journal_event evs).
Proof.
  revert st. induction evs as [|e evs IH]; intros [s t]; simpl; [done|]. rewrite IH. f_equal. clear IH.
  destruct e; simpl; [done|]. by destruct (WriteChain.run_next _ _ _).
Qed.

Lemma muts_finalized evs : Journal.muts (map journal_event evs) = finalized evs.
Proof. unfold Journal.muts, finalized. induction evs as [|[e|] evs IH]; csimpl; [done|by rewrite IH|done]. Qed.

(** The table to load: its rows, and the week of the newest success in them. *)
Definition loads (d : list ClaimHistoryEntry * string) (t : Ring.table ClaimHistoryEntry) : Prop :=
  Ring.mirrors MAX_CLAIM_HISTORY d.1 t /\ forall e, find_first no_error (reverse d.1) = Some e -> week e = d.2.

Lemma find_first_take {A} (p : A -> bool) n l x : find_first p (take n l) = Some x -> find_first p l = Some x.
Proof.
  unfold find_first. revert n. induction l as [|y l IH]; intros [|n]; simpl; try done. destruct (p y); [done|apply IH].
Qed.

Lemma remember_newest e l x : find_first no_error (reverse (Ring.remember MAX_CLAIM_HISTORY e l)) = Some x ->
  if no_error e then x = e else find_first no_error (reverse l) = Some x.
Proof.
  unfold Ring.remember. rewrite Ring.shift_to_spec, <- take_reverse, reverse_snoc.
  intros H%find_first_take. unfold find_first in H. cbn [List.find] in H. destruct (no_error e); [congruence|done].
Qed.

Lemma keeps_loads e d t : says_why e -> loads d t -> loads (mem e d) (Journal.apply_all (calls e d) t).
Proof.
  intros He [Hm Hw]. split; [apply Ring.mirrors_push; [unfold MAX_CLAIM_HISTORY; lia|done]|].
  intros x Hx%remember_newest. cbn. rewrite He. destruct (no_error e); [by subst|by apply Hw].
Qed.

(** The claim history and the week of the last success survive a restart:
    start from any table, record claims in any number while the write chain
    works, flush, and load again: the rows are those in memory, and the week by
    which the timer decides is the same as long as a success is among the last
    52 claims, provided the database takes every call within its retries and no
    acknowledgement is lost ([claim_says_why]: every claim of the program is such
    that memory and table agree on whether it failed). *)
Theorem claims_survive_restart att t evs :
  Ring.wf t -> (Ring.count_rows t <= MAX_CLAIM_HISTORY)%nat ->
  WriteChain.recovers att WriteChain.RETRY_DELAYS_MS -> WriteChain.clean att -> Forall says_why (finalized evs) ->
  let st := foldl (event att) (loadClaimHistory t init, t) evs in
  let again := loadClaimHistory (flushClaimHistory att st.1 st.2).2 init in
  claimHistory again = claimHistory st.1
  /\ (existsb no_error (claimHistory st.1) = true -> lastClaimWeek again = lastClaimWeek st.1).
Proof.
  intros Hwf Hlen Hr Hc Hev st again.
  set (t' := (flushClaimHistory att st.1 st.2).2).
  assert (loads (claimHistory st.1, lastClaimWeek st.1) t') as [Hm Hw].
  { pose proof (view_events att evs (loadClaimHistory t init, t)) as Hv. cbv zeta in Hv. fold st in Hv.
    assert (t' = Journal.drain att (view st.1, st.2)) as ->
      by (subst t'; unfold flushClaimHistory, Journal.drain; cbn; done).
    change (claimHistory st.1, lastClaimWeek st.1) with (Journal.data (view st.1, st.2).1). rewrite Hv.
    assert (view (loadClaimHistory t init) = Journal.start (claimHistory (loadClaimHistory t init), lastClaimWeek (loadClaimHistory t init))) as Hs
      by (unfold loadClaimHistory; by destruct (latestSuccessfulClaim t)).
    cbn [fst snd] in *. rewrite Hs. apply (Journal.drained _ _ loads (fun _ => says_why)).
    - intros m d t0. apply keeps_loads.
    - split; [done|by left].
    - rewrite muts_finalized. clear -Hev. generalize (claimHistory (loadClaimHistory t init), lastClaimWeek (loadClaimHistory t init)).
      induction Hev as [|e es He Hes IH]; intros d; cbn; [done|]. split; [done|apply IH].
    - assert (Ring.mirrors MAX_CLAIM_HISTORY (listClaims t) t) as Hmi.
      { unfold listClaims. rewrite Ring.list_rows_all by done. split; [done|]. split; [done|]. by rewrite length_fmap. }
      unfold loadClaimHistory. pose proof (Ring.mirrors_newest _ _ _ no_error Hmi) as Hn. fold (latestSuccessfulClaim t) in Hn.
      split; [by destruct (latestSuccessfulClaim t)|]. intros e. destruct (latestSuccessfulClaim t) as [e'|]; intros He;
        change (find_first no_error (reverse (listClaims t)) = Some e) in He; rewrite <- Hn in He; [|done]. by injection He as ->. }
  assert (listClaims t' = claimHistory st.1) as Hl by by apply Ring.mirrors_list.
  pose proof (Ring.mirrors_newest _ _ _ no_error Hm) as Hn. fold (latestSuccessfulClaim t') in Hn. cbn [fst snd] in *.
  subst again. change ((flushClaimHistory att st.1 st.2).2) with t'. unfold loadClaimHistory.
  split; [by destruct (latestSuccessfulClaim t')|].
  intros He. destruct (find_first no_error (reverse (claimHistory st.1))) as [e|] eqn:Hf; rewrite Hn; cbn; [by apply Hw|].
  exfalso. apply existsb_exists in He as (x & Hx & Hp). rewrite <- list_elem_of_In in Hx.
  rewrite (proj1 (find_first_None _ _) Hf x) in Hp; [done|]. by apply elem_of_reverse.
Qed.

Definition demo_entry (w : string) (err : option string) : ClaimHistoryEntry := mkClaim 1 None w 1 (num_of_Z 1) [] err.

Lemma claims_survive_restart_witness :
  let st := foldl (event (fun _ _ => WriteChain.Applied)) (loadClaimHistory Ring.empty init, Ring.empty)
              [Finalize (demo_entry "2024-W01" None); Work; Finalize (demo_entry "2024-W02" (Some "no rewards available"%string))] in
  let again := loadClaimHistory (flushClaimHistory (fun _ _ => WriteChain.Applied) st.1 st.2).2 init in
  claimHistory again = claimHistory st.1 /\ lastClaimWeek again = lastClaimWeek st.1 /\ lastClaimWeek again = "2024-W01"%string.
Proof.
  pose proof (claims_survive_restart (fun _ _ => WriteChain.Applied) Ring.empty
    [Finalize (demo_entry "2024-W01" None); Work; Finalize (demo_entry "2024-W02" (Some "no rewards available"%string))]
    ltac:(split; constructor) ltac:(vm_compute; lia) ltac:(intros i; exists 0%nat; split; [simpl; lia|done]) ltac:(done)
    ltac:(repeat constructor)) as [H1 H2].
  split; [exact H1|split; [exact (H2 eq_refl)|reflexivity]].
Defined.

End SchedulerRules.

(** * What the claiming of LP fees guarantees

    The claim always answers with a result, every failure of the backend or of
    a transaction being recorded in it; it encodes the rewards of a position
    once, sends the fees of a position once, and lists every signature once. *)

Module LpFeeRules.
Import Async AsyncMore Claim LpFees.
Import CopyBonusRules(apart, unseen_apart, elem_of_jadd).

Abbreviation Hist := (list (HEvent Call Ans Task)).

Definition encode_path : string := "incentive/encode-v2".

(** The positions whose rewards a body asks for, those a history asked for, and
    the positions whose fees it sent. *)
Definition asked (body : Json) : list Json := array_or_empty (jopt (Some body) "positionAddresses").
Definition encoded (h : Hist) : list Json :=
  concat (omap (fun e => match e with
                         | Called (ApiPost path body) _ => if bool_decide (path = encode_path) then Some (asked body) else None
                         | _ => None
                         end) h).
Definition position_of (entry : Json) : list Json := match jopt (Some entry) "positionAddress" with Some k => [k] | None => [] end.
Definition sent (h : Hist) : list Json :=
  concat (omap (fun e => match e with Called (SendFeePayload entry) _ => Some (position_of entry) | _ => None end) h).

(** Neither is done twice for a position. *)
Definition once (h : Hist) (c : Call) : Prop :=
  match c with
  | ApiPost path body => path = encode_path -> apart (encoded h) (asked body)
  | SendFeePayload entry => apart (sent h) (position_of entry)
  | _ => True
  end.

(** The signatures listed are different and counted. *)
Definition sigs_ok (s : LpState) : Prop :=
  lpSignatures s = seenSignatures s /\ distinct (lpSignatures s).

(** What the helpers write. *)
Definition keep (s s' : LpState) : Prop :=
  sentPositions s' = sentPositions s /\ processedRewardPositions s' = processedRewardPositions s /\ (sigs_ok s -> sigs_ok s').

(** The calls that count for nothing here. *)
Definition quiet (c : Call) : Prop :=
  match c with ApiPost path _ => path <> encode_path | SendFeePayload _ => False | _ => True end.

Abbreviation quietly := (always (Task := Task) keep quiet).
Abbreviation L := (call_logic (Task := Task) once (fun s s' => s' = s) (fun _ _ => True)).

Lemma keep_refl s : keep s s.
Proof. split; [done|split; [done|by intros H]]. Qed.

Lemma keep_signature sig s : keep s (addUniqueSignature sig s).
Proof.
  unfold addUniqueSignature. destruct (negb (truthy sig) || _) eqn:E; [apply keep_refl|].
  apply orb_false_iff in E as [_ E]. split_and!; [done|done|]. intros [H1 H2]. unfold sigs_ok, jadd. cbn. rewrite E, H1.
  split; [done|]. apply distinct_snoc; [by rewrite <- H1|done].
Qed.

Lemma keep_fail ph r e s : keep s (fail ph r e s).
Proof. split; [done|split; [done|by intros H]]. Qed.
Lemma keep_totals m s : keep s (with_totals m s).
Proof. split; [done|split; [done|by intros H]]. Qed.
Lemma keep_rounds a b s : keep s (with_rounds a b s).
Proof. split; [done|split; [done|by intros H]]. Qed.

Create HintDb quietly.
#[local] Hint Resolve keep_signature keep_fail keep_totals keep_rounds : quietly.
#[local] Hint Extern 2 (quiet _) => (intros ?; discriminate) : quietly.
#[local] Hint Extern 1 (quiet _) => exact I : quietly.

(** The rules of the statements, one after the other. *)
#[local] Ltac hush :=
  lazymatch goal with
  | |- always _ _ (bind _ _) => apply always_bind; [hush|intros ?; hush]
  | |- always _ _ (catch _ _) => apply always_catch; [hush|intros ?; hush]
  | |- always _ _ (attempt _) => apply always_after; [hush|intros ?; hush]
  | |- always _ _ (for_each _ _) => apply always_for_each; intros ?; hush
  | |- always _ _ (modify _) => apply always_modify; intros ?; auto with quietly
  | |- always _ _ (gets _) => apply always_gets
  | |- always _ _ (lift _) => apply always_done
  | |- always _ _ (ret _) => apply always_done
  | |- always _ _ (throw _) => apply always_done
  | |- always _ _ (apiGet _) => apply always_await; auto with quietly
  | |- always _ _ (apiPost _ _) => apply always_await; auto with quietly
  | |- always _ _ (signRewardPayload _) => apply always_await; auto with quietly
  | |- always _ _ (if ?b then _ else _) => destruct b; hush
  | |- always _ _ (match ?x with _ => _ end) => destruct x; hush
  | |- _ => eauto with quietly
  end.

Lemma quietly_tokens ts : quietly (addTokenTotals ts).
Proof. unfold addTokenTotals. hush. Qed.
#[local] Hint Resolve quietly_tokens : quietly.

Lemma quietly_sign r items : quietly (sign_rewards r items).
Proof. induction items as [|item items IH]; cbn [sign_rewards]; hush. Qed.
#[local] Hint Resolve quietly_sign : quietly.

Lemma quietly_pages w n page ps : quietly (list_pages w n page ps).
Proof. revert page ps. induction n as [|n IH]; intros page ps; cbn [list_pages]; hush. Qed.
#[local] Hint Resolve quietly_pages : quietly.

(** A quiet program between two calls that count. *)
Lemma wp_quiet {A} (p : Prog LpState Call Ans Task A) h s : quietly p ->
  wp L p h s (fun _ h' s' => (encoded h' = encoded h /\ sent h' = sent h) /\ keep s s').
Proof.
  intros Hp. pose proof (always_keeps (fun h => (encoded h, sent h)) once (fun _ _ => True) (fun s s' => s' = s) keep keep quiet p h s) as H.
  eapply wp_mono; [apply H; [|done]|].
  - split.
    + apply keep_refl.
    + intros s1 s2 s3 (H1 & H2 & H3) (H4 & H5 & H6). split_and!; [congruence|congruence|auto].
    + done.
    + intros s1 s2 ->. apply keep_refl.
    + intros h1 [| | | |] Hc; cbn in *; done.
    + intros h1 [| | | |] r Hc; cbn in *; try done. unfold encoded. cbn. by rewrite bool_decide_eq_false_2.
    + done.
  - intros r h' s' [[= -> ->] Hk]. done.
Qed.

(** What holds at the head of the reward loop: what was asked for is processed;
    and after it: what was sent is in the set. *)
Definition base (h : Hist) (s : LpState) : Prop := sent h ⊆ sentPositions s /\ sigs_ok s.
Definition head (h : Hist) (s : LpState) : Prop := base h s /\ encoded h ⊆ processedRewardPositions s.

Lemma base_keep h h' s s' : (encoded h' = encoded h /\ sent h' = sent h) /\ keep s s' -> base h s -> base h' s'.
Proof. intros [[H1 H2] (K1 & K2 & K3)] [B1 B2]. split; [by rewrite H2, K1|auto]. Qed.

Lemma head_keep h h' s s' : (encoded h' = encoded h /\ sent h' = sent h) /\ keep s s' -> head h s -> head h' s'.
Proof. intros H [B1 B2]. split; [exact (base_keep _ _ _ _ H B1)|]. destruct H as [[-> _] (_ & -> & _)]. done. Qed.

(** A quiet rest keeps what holds. *)
Lemma quiet_base {A} (p : Prog LpState Call Ans Task A) h s : quietly p -> base h s -> wp L p h s (fun _ h' s' => base h' s').
Proof. intros Hp Hb. eapply wp_mono; [by apply wp_quiet|]. intros r h' s' H. exact (base_keep _ _ _ _ H Hb). Qed.

Lemma reward_positions_new data processed k : k ∈ reward_positions data processed -> truthy k = true /\ jseen k processed = false.
Proof.
  unfold reward_positions. intros Hk%elem_of_jset_of. apply list_elem_of_omap in Hk as (item & _ & Hk).
  destruct (jopt (Some item) "positionAddress") as [k'|]; [|done].
  destruct (truthy k') eqn:Ht; cbn in Hk; [|done]. destruct (jseen k' processed) eqn:Hj; cbn in Hk; [done|]. by injection Hk as <-.
Qed.

Lemma asked_body w ps : asked (rewardBody w ps) = ps.
Proof. done. Qed.

Lemma foldl_jadd ks seen : seen ⊆ foldl (fun s k => jadd k s) seen ks
  /\ forall k, k ∈ ks -> truthy k = true -> k ∈ foldl (fun s k => jadd k s) seen ks.
Proof.
  revert seen. induction ks as [|x ks IH]; intros seen; simpl; [split; [done|]; by intros k Hk%list.elem_of_nil|].
  destruct (IH (jadd x seen)) as [H1 H2]. split; [pose proof (subseteq_jadd x seen); set_solver|].
  intros k Hk Ht. apply list.elem_of_cons in Hk as [->|Hk]; [|auto]. apply H1. by apply elem_of_jadd.
Qed.

(** The order of a batch, once asked for, puts its positions among the processed. *)
Lemma wp_order w ps items signed oc h s : base h s ->
  wp L (order_rewards w ps items signed oc) h s (fun r h' s' => base h' s' /\ encoded h' = encoded h /\
    match r with
    | Ret _ => processedRewardPositions s' = foldl (fun ks k => jadd k ks) (processedRewardPositions s) ps
    | Throw _ => True
    end).
Proof.
  intros Hb. unfold order_rewards. apply wp_bind. split; [intros ?; discriminate|]. intros [res|e] s1 _ ->; cbn [after ret].
  2: { split; [done|]. by split. }
  apply wp_bind. eapply wp_mono; [apply wp_quiet; hush|]. intros r h1 s1 [[He1 Hs1] (K1 & K2 & K3)].
  assert (base h1 s1) as Hb1 by (split; [rewrite Hs1, K1; apply Hb|apply K3, Hb]).
  destruct r as [u|e]; [|by rewrite He1]. apply wp_bind.
  eapply wp_mono; [apply wp_quiet; hush|]. intros r h2 s2 [[He2 Hs2] (K4 & K5 & K6)].
  assert (base h2 s2) as Hb2 by (split; [rewrite Hs2, K4; apply Hb1|apply K6, Hb1]).
  destruct r as [u'|e]; [|by rewrite He2, He1]. apply wp_modify with (g' := h2); [done|].
  split; [exact Hb2|]. rewrite He2, He1. split; [done|]. cbn. by rewrite K5, K2.
Qed.

(** After a failure or when nothing is left, [base]; the loop goes on under [head]. *)
Definition goes_on (r : outcome bool) (h : Hist) (s : LpState) : Prop :=
  match r with Ret true => head h s | _ => base h s end.

Lemma wp_reward_round w r h s : head h s -> wp L (reward_round w r) h s goes_on.
Proof.
  intros Hh. unfold reward_round. apply wp_bind, wp_after. split; [done|]. intros [res|e] s1 _ ->; cbn [after ret wp].
  2: { eexists. split; [done|]. apply (base_keep h _ s); [|apply Hh]. split; [done|apply keep_fail]. }
  apply wp_bind. cbn [gets wp ret]. set (ps := reward_positions _ _).
  case_bool_decide as Hne; [apply Hh|]. apply wp_bind, wp_after. split.
  { intros _ x y Hx Hy. rewrite asked_body in Hy. apply reward_positions_new in Hy as [_ Hy].
    eapply unseen_apart; [exact Hy|apply Hh|exact Hx]. }
  intros enc s2 _ ->. cbn [after ret wp].
  set (h2 := l_post L _ _ enc).
  assert (encoded h2 = ps ++ encoded h /\ sent h2 = sent h) as [He Hs].
  { subst h2. unfold encoded, sent. cbn. rewrite asked_body. by destruct enc. }
  assert (base h2 s) as Hb by (split; [rewrite Hs; apply Hh|apply Hh]).
  destruct enc as [enc|e]; cbn [after ret wp bind modify].
  2: { exists h2. split; [done|]. exact (base_keep h2 h2 s _ (conj (conj eq_refl eq_refl) (keep_fail _ _ _ _)) Hb). }
  destruct (empty_length _); [exact Hb|]. exists h2. split; [done|].
  set (s3 := with_rounds r (feeRounds s) s).
  assert (base h2 s3) as Hb3 by exact Hb.
  destruct (iterable _) as [items|e]; [|exact Hb3]. cbn [lift bind after].
  apply wp_bind. eapply wp_mono; [apply wp_quiet, quietly_sign|]. intros rs h4 s4 H4.
  pose proof (base_keep _ _ _ _ H4 Hb3) as Hb4. destruct rs as [signed|e]; [|exact Hb4].
  case_bool_decide; [exact Hb4|]. apply wp_bind, wp_after. eapply wp_mono; [by apply wp_order|].
  intros [u|e] h5 s5 (Hb5 & He5 & Hp5); cbn [after ret wp].
  - split; [exact Hb5|]. destruct H4 as [[He4 _] (_ & Hp4 & _)]. rewrite He5, He4, He, Hp5, Hp4.
    destruct (foldl_jadd ps (processedRewardPositions s3)) as [Hf1 Hf2].
    intros k Hk. apply elem_of_app in Hk as [Hk|Hk]; [|by apply Hf1, Hh].
    apply Hf2; [done|]. by apply reward_positions_new in Hk as [? _].
  - exists h5. split; [done|]. exact (base_keep h5 h5 s5 _ (conj (conj eq_refl eq_refl) (keep_fail _ _ _ _)) Hb5).
Qed.

Lemma wp_reward_rounds w n r h s : head h s -> wp L (reward_rounds w n r) h s (fun _ h' s' => base h' s').
Proof.
  revert r h s. induction n as [|n IH]; intros r h s Hh; cbn [reward_rounds]; [apply Hh|].
  apply wp_bind. eapply wp_mono; [by apply wp_reward_round|]. intros [[]|e] h' s' H; [by apply IH|done|done].
Qed.

Lemma wp_fee_entry e h s : base h s -> wp L (fee_entry e) h s (fun _ h' s' => base h' s').
Proof.
  intros Hb. unfold fee_entry. apply wp_bind.
  destruct (jfield (Some e) "positionAddress") as [addr|m] eqn:Ha; cbn [lift wp]; [|done].
  destruct addr as [k|]; [|exact Hb]. destruct (truthy k) eqn:Ht; [|exact Hb]. cbn [negb].
  apply wp_bind. cbn [gets wp ret]. destruct (jseen k (sentPositions s)) eqn:Hj; [exact Hb|].
  apply wp_bind. eexists. split; [done|]. set (s1 := with_sent _ s). cbn [wp].
  assert (position_of e = [k]) as Hpos.
  { unfold position_of. destruct e; try done. cbn in Ha. injection Ha as Ha. cbn. by rewrite Ha. }
  apply wp_catch, wp_bind. split.
  { intros x y Hx Hy. rewrite Hpos in Hy. apply list.list_elem_of_singleton in Hy as ->.
    eapply unseen_apart; [exact Hj|apply Hb|exact Hx]. }
  intros o s2 _ ->. set (h2 := l_post L _ _ o).
  assert (base h2 s1) as Hb2.
  { split; [|apply Hb]. subst h2. unfold sent. cbn. rewrite Hpos. intros x Hx. cbn in Hx.
    apply list.elem_of_cons in Hx as [->|Hx]; [by apply elem_of_jadd|]. apply (subseteq_jadd k), Hb, Hx. }
  destruct o as [sig|m].
  - apply wp_bind. eapply wp_mono; [apply (quiet_base (modify (addUniqueSignature (JStr sig)))); [hush|exact Hb2]|].
    intros [u|m] h3 s3 Hb3; [|eapply quiet_base; [hush|exact Hb3]].
    eapply wp_mono; [apply quiet_base; [apply quietly_tokens|exact Hb3]|].
    intros [u'|m] h4 s4 Hb4; [exact Hb4|]. eapply quiet_base; [hush|exact Hb4].
  - eapply quiet_base; [hush|exact Hb2].
Qed.

Lemma wp_fee_entries es h s : base h s -> wp L (for_each fee_entry es) h s (fun _ h' s' => base h' s').
Proof.
  revert h s. induction es as [|e es IH]; intros h s Hb; cbn [for_each]; [exact Hb|].
  apply wp_bind. eapply wp_mono; [by apply wp_fee_entry|]. intros [u|m] h' s' H; [by apply IH|done].
Qed.

Lemma wp_claim_fees w h s : base h s -> wp L (claim_fees w) h s (fun _ h' s' => base h' s').
Proof.
  intros Hb. unfold claim_fees, listActivePositionAddresses.
  apply wp_bind. eapply wp_mono; [apply quiet_base; [hush|exact Hb]|]. intros [l|m] h1 s1 Hb1; [|done].
  apply wp_bind. eapply wp_mono; [apply quiet_base; [hush|exact Hb1]|]. intros [ps|m] h2 s2 Hb2; [|done].
  case_bool_decide; [exact Hb2|].
  apply wp_bind. eapply wp_mono; [apply quiet_base; [hush|exact Hb2]|]. intros [fr|m] h3 s3 Hb3; [|done].
  apply wp_bind. eapply wp_mono; [apply quiet_base; [hush|exact Hb3]|]. intros [fe|m] h4 s4 Hb4; [|done].
  apply wp_bind. eapply wp_mono; [apply quiet_base; [hush|exact Hb4]|]. intros [u|m] h5 s5 Hb5; [|done].
  destruct (iterable fe) as [es|m]; cbn [lift bind after]; [|exact Hb5]. by apply wp_fee_entries.
Qed.

(** What the caller gets. *)
Definition reported (r : outcome LpFeeClaimResult) : Prop :=
  exists x, r = Ret x /\ distinct (r_txSignatures x) /\ r_totalItems x = Z.of_nat (length (r_txSignatures x)).

Lemma wp_claim w h s : head h s -> wp L (claimLpFeesCliParityForTest w) h s (fun r _ _ => reported r).
Proof.
  intros Hh. unfold claimLpFeesCliParityForTest. apply wp_bind.
  apply wp_mono with (Q := fun r _ s' => r = Ret tt /\ sigs_ok s').
  - apply wp_catch, wp_bind. eapply wp_mono; [by apply wp_reward_rounds|]. intros r h1 s1 Hb1.
    cut (forall m h s, base h s -> wp L (modify (fail "fatal" (JStr "claimLpFees") m)) h s (fun r _ s' => r = Ret tt /\ sigs_ok s')).
    { intros Hm. destruct r as [u|m]; [|by apply Hm]. eapply wp_mono; [by apply wp_claim_fees|].
      intros [[]|m] h2 s2 Hb2; [split; [done|apply Hb2]|by apply Hm]. }
    intros m h2 s2 Hb2. exists h2. split; [done|]. split; [done|]. apply (keep_fail _ _ _ s2), Hb2.
  - intros r h1 s1 [-> [Hs1 Hs2]]. cbn. eexists. split; [done|]. cbn. done.
Qed.

(** C30: A claim of LP fees and rewards always answers with a result, whatever
    the backend answers and whichever requests, signatures or transactions fail;
    on the way the rewards of a position are asked for once and the fees of a
    position are sent once; and the result lists every signature once and counts
    them. *)
Theorem lp_fees_claimed_once (env : Env LpState Call Ans) w :
  (forall n c s, (answer env n c s).2 = s) ->
  let x := run env 0 [] (claimLpFeesCliParityForTest w) createLpFeeClaimResult in
  each_call once (hist x) /\ reported (res x).
Proof.
  intros He. refine (calls_run _ once (fun s s' => s' = s) (fun _ _ => True) env 0 [] _ (fun r _ _ => reported r) _ I _).
  - intros n c s. split; [done|apply He].
  - apply wp_claim. split; [split|]; [by intros k Hk%list.elem_of_nil|split; [done|apply distinct_nil]|by intros k Hk%list.elem_of_nil].
Qed.

(** ** Two positions, one listed twice, with a backend that fails at the first reward order *)

Definition demo_answer (n : nat) (c : Call) (s : LpState) : outcome (Ans c) * LpState :=
  (match c as c return outcome (Ans c) with
   | ApiGet path =>
       Ret (if startsWith path "position/unclaimed" then
              JObj [("unclaimedOpenIncentives", JArr [JObj [("positionAddress", JStr "P1"); ("syncedTokenAmount", JStr "5")]])]
            else if (n <? 6)%nat then JObj [("positions", JArr [JObj [("positionAddress", JStr "P1")]; JObj [("positionAddress", JStr "P2")]])]
            else JObj [])
   | ApiPost path _ =>
       if bool_decide (path = "incentive/order-v2"%string) then Throw "502"
       else if bool_decide (path = encode_path) then Ret (JObj [("rewardEncodeItems", JArr [JObj [("txCode", JStr "t")]])])
       else Ret (JObj [("data", JArr [JObj [("positionAddress", JStr "P1")]; JObj [("positionAddress", JStr "P2")]; JObj [("positionAddress", JStr "P1")]])])
   | SignRewardPayload _ => Ret "signed"
   | SendFeePayload e => Ret (jstring (default JNull (jopt (Some e) "positionAddress")))
   | Sleep _ => Ret tt
   end%string, s).

Lemma lp_fees_claimed_once_witness :
  let x := run (mkEnv demo_answer (fun _ => 0)) 0 [] (claimLpFeesCliParityForTest "W") createLpFeeClaimResult in
  each_call once (hist x) /\ reported (res x) /\ sent (hist x) = [JStr "P2"; JStr "P1"]%string.
Proof.
  destruct (lp_fees_claimed_once (mkEnv demo_answer (fun _ => 0)) "W" (fun _ _ _ => eq_refl)) as [H1 H2].
  split; [exact H1|split; [exact H2|vm_compute; reflexivity]].
Defined.

End LpFeeRules.

(** ** In production

    The same holds of the function the dashboard calls, whose requests and
    transactions are those of the module. *)

Module ProductionRules.
Import Async AsyncMore Claim LpFees Production LpFeeRules.

Abbreviation RawHist := (list (HEvent RawCall RawAns Task)).

(** The transactions sent. *)
Definition raw_sends (h : RawHist) : list string :=
  omap (fun e => match e with Called (SendRawTransaction r _ _) _ => Some r | _ => None end) h.

(** The signatures the connection confirmed without an error. *)
Definition confirmations (h : RawHist) : list string :=
  omap (fun e : HEvent RawCall RawAns Task => match e with
                 | Called (ConfirmTransaction sig _ _) (Ret err) => if truthy err then None else Some sig
                 | _ => None
                 end) h.

Definition fee_calls (h : Hist) : list Json :=
  omap (fun e => match e with Called (SendFeePayload entry) _ => Some entry | _ => None end) h.
Definition fee_signatures (h : Hist) : list string :=
  omap (fun e : HEvent Call Ans Task => match e with Called (SendFeePayload _) (Ret sig) => Some (sig : string) | _ => None end) h.

(** Nobody else writes the result of a claim. *)
Definition own (s s' : LpState) : Prop := s' = s.

Abbreviation LR := (call_logic (Task := Task) (fun (_ : RawHist) (_ : RawCall) => True) own (fun _ _ => True)).

(** What carries out one call: at most one transaction is sent, for a fee call
    only, whose signature is answered only when it was confirmed. *)
Definition carries_out (c : Call) (r : outcome (Ans c)) (h : RawHist) : Prop :=
  match c as c return outcome (Ans c) -> Prop with
  | SendFeePayload _ => fun r =>
      (length (raw_sends h) <= 1)%nat /\ match r with Ret sig => sig ∈ confirmations h | Throw _ => True end
  | _ => fun _ => raw_sends h = []
  end r.

Lemma wp_handle skip c s : wp LR (handle skip c) [] s (fun r h s' => carries_out c r h /\ own s s').
Proof.
  destruct c as [path|path body|p|entry|ms]; cbn [handle].
  1-3, 5: cbn; (split; [done|]); intros [res|e] s1 _ ->; cbn; by split.
  apply wp_bind. destruct (jfield (Some entry) "txPayload") as [p|e]; cbn [lift wp]; [|by split; [split; [cbn; lia|]|]].
  unfold sendSignedFeePayload, carries_out, raw_sends, confirmations. cbn. split; [done|]. intros [signed|e] s1 _ ->; cbn.
  2: { split_and!; [lia|done|done]. }
  split; [done|]. intros [sig|e] s2 _ ->; cbn; [|split_and!; [lia|done|done]].
  split; [done|]. intros [lv|e] s3 _ ->; cbn; [|split_and!; [lia|done|done]].
  split; [done|]. intros [err|e] s4 _ ->; cbn; [|split_and!; [lia|done|done]].
  destruct (truthy err) eqn:Hr; cbn; rewrite ?Hr; (split_and!; [lia|..]); try done. left.
Qed.

Lemma handle_carries_out skip c s r block s' :
  behaves own (handle skip c) [] s r block s' -> carries_out c r block /\ own s s'.
Proof. intros Hb. by apply (behaves_sound own _ (fun _ _ => True) _ _ _ _ _ _ Hb I (wp_handle skip c s)). Qed.

(** The transactions sent over a whole claim, and the signatures it was given. *)
Lemma carried_sends skip h rh : carried (handle skip) own h rh ->
  (length (raw_sends rh) <= length (fee_calls h))%nat /\ fee_signatures h ⊆ confirmations rh.
Proof.
  induction 1 as [|c r s s' block h rh Hb _ [IH1 IH2]|t h rh _ IH]; [done| |done].
  apply handle_carries_out in Hb as [Hc _]. unfold raw_sends, confirmations, fee_calls, fee_signatures in *. rewrite !omap_app, length_app.
  destruct c as [path|path body|p|entry|ms]; cbn [carries_out] in Hc.
  1-3, 5: unfold raw_sends in Hc; rewrite Hc; cbn; (split; [done|set_solver]).
  unfold raw_sends, confirmations in Hc. destruct Hc as [Hl Hs]. cbn. split; [lia|]. destruct r; set_solver.
Qed.

(** C31: What the dashboard runs refines the claim.  Every run of
    [claimLpFeesOffchain] over HTTP, the signer and the connection is a run of the
    claim over its requests: same answer, same result, and the raw history is
    made of whole runs of what carries out each request, in the order of the
    requests and with the answers the claim was given.  So what holds of the claim holds
    here: nothing is asked for or sent twice, every signature is listed once; and
    the transactions sent do not outnumber the fee requests, each of whose
    signatures the connection confirmed without an error. *)
Theorem offchain_claim_refines (env : Env LpState RawCall RawAns) skip w :
  (forall n c s, (answer env n c s).2 = s) ->
  let x := run env 0 [] (claimLpFeesOffchain skip w) createLpFeeClaimResult in
  exists h, behaves own (claimLpFeesCliParityForTest w) [] createLpFeeClaimResult (res x) h (final x)
    /\ carried (handle skip) own h (hist x)
    /\ each_call once h /\ reported (res x)
    /\ (length (raw_sends (hist x)) <= length (fee_calls h))%nat /\ fee_signatures h ⊆ confirmations (hist x).
Proof.
  intros He x.
  destruct (interp_carried (handle skip) own (claimLpFeesCliParityForTest w)
    (fun c s r block s' Hb => proj2 (handle_carries_out skip c s r block s' Hb))
    [] [] createLpFeeClaimResult (res x) (hist x) (final x) (carried_nil _ _)
    (run_behaves own (claimLpFeesOffchain skip w) env 0 [] createLpFeeClaimResult He)) as (h & Hb & Hc).
  exists h. split; [done|]. split; [done|].
  destruct (behaves_sound own _ once _ _ _ _ _ (fun r _ _ => reported r) Hb I) as [H1 H2].
  { apply wp_claim. split; [split|]; [by intros k Hk%list.elem_of_nil|split; [done|apply distinct_nil]|by intros k Hk%list.elem_of_nil]. }
  destruct (carried_sends skip h _ Hc) as [H3 H4]. by split_and!.
Qed.

(** A backend with one position: its fee transaction is sent and confirmed. *)
Definition demo_raw (n : nat) (c : RawCall) (s : LpState) : outcome (RawAns c) * LpState :=
  (match c as c return outcome (RawAns c) with
   | Fetch _ url _ =>
       Ret (mkResponse true 200 "OK" (dq (if includes url "position/list" && (n <? 2)%nat then "{'positions':[{'positionAddress':'P1'}]}"
              else if includes url "encode-fee" then "{'data':[{'positionAddress':'P1','txPayload':'AA'}]}" else "{}")))
   | SignVersioned _ => Ret (mkSigned "raw" "hash")
   | SendRawTransaction _ _ _ => Ret "sig1"
   | GetLatestBlockhash => Ret 5
   | ConfirmTransaction _ _ _ => Ret None
   | Timer _ => Ret tt
   end%string, s).

Lemma offchain_claim_refines_witness :
  let x := run (mkEnv demo_raw (fun _ => 0)) 0 [] (claimLpFeesOffchain true "W") createLpFeeClaimResult in
  raw_sends (hist x) = ["raw"]%string
  /\ exists h, carried (handle true) own h (hist x) /\ each_call once h /\ reported (res x)
       /\ (length (raw_sends (hist x)) <= length (fee_calls h))%nat /\ fee_signatures h ⊆ confirmations (hist x).
Proof.
  cbv zeta. split; [vm_compute; reflexivity|].
  destruct (offchain_claim_refines (mkEnv demo_raw (fun _ => 0)) true "W" (fun _ _ _ => eq_refl)) as (h & _ & H).
  exists h. exact H.
Defined.

End ProductionRules.
