(* ===== verification/AssetTrend.v ===== *)
(** * The five-minute portfolio snapshot ([src/dashboard/asset-trend.ts])

    [Trend] is the state of the module with the SOL price of
    [src/dashboard/server.ts] and the total of [src/state/portfolio-state.ts].
    [Tiers] are the three arrays with the two trackers of the aggregation;
    [commitTiers] and [commit_calls] are what [commitSnapshot] does to them and
    to the table, [fetchSnapshotData] and [collectAssetSnapshot] the collection.
    The requests of a [Promise.all] are awaited in their order. *)

From Stdlib Require Import Ascii Floats.SpecFloat.
From S2P Require Import Prelude JsMap JsString JsNumber Json JsConvert Async WriteChain Histories.
Open Scope Z_scope.
Open Scope list_scope.
Open Scope prog_scope.

Module AssetTrend.
Import Async.

Definition COLLECT_INTERVAL : Z := 300000.
Definition ANOMALY_PCT : num := dec_num 1 2.
Definition ANOMALY_REQUERY_DELAY : Z := 60000.

(** ** The tiers *)

Record Tiers := mkTiers {
  raw : list AssetSnapshot;
  hourly : list AssetSnapshot;
  daily : list AssetSnapshot;
  lastAggregatedHour : Z;
  lastAggregatedDay : Z;
}.

Definition no_tiers : Tiers := mkTiers [] [] [] 0 0.

(** The last element of an array that is not empty. *)
Definition newest (l : list AssetSnapshot) : option AssetSnapshot := head (reverse l).

Definition within (lo hi : Z) (l : list AssetSnapshot) : list AssetSnapshot :=
  List.filter (fun s => (lo <=? ts s) && (ts s <? hi)) l.

(** [aggregateTiers]: the tiers and what was promoted. *)
Definition aggregateTiers (snapshot : AssetSnapshot) (d : Tiers) : Tiers * list (Granularity * AssetSnapshot) :=
  let currentHour := Calendar.floorToHour (ts snapshot) in
  let currentDay := Calendar.floorToDay (ts snapshot) in
  let endOfHour :=
    if (0 <? lastAggregatedHour d) && (lastAggregatedHour d <? currentHour)
    then newest (within (lastAggregatedHour d) currentHour (raw d)) else None in
  let hourly' := hourly d ++ match endOfHour with Some s => [s] | None => [] end in
  let endOfDay :=
    if (0 <? lastAggregatedDay d) && (lastAggregatedDay d <? currentDay)
    then newest (within (lastAggregatedDay d) currentDay hourly') else None in
  let daily' := daily d ++ match endOfDay with Some s => [s] | None => [] end in
  (mkTiers (raw d) hourly' daily' currentHour currentDay,
   match endOfHour with Some s => [(Hourly, s)] | None => [] end ++ match endOfDay with Some s => [(Daily, s)] | None => [] end).

Definition rawCutoff (now : Z) : Z := now - 48 * 60 * 60 * 1000.
Definition hourlyCutoff (now : Z) : Z := now - 30 * 24 * 60 * 60 * 1000.

(** [splice(0, length - max)] when there are more *)
Definition splice_to (max : nat) (l : list AssetSnapshot) : list AssetSnapshot :=
  if (max <? length l)%nat then drop (length l - max) l else l.

(** [commitSnapshot] on the tiers. *)
Definition commitTiers (snapshot : AssetSnapshot) (now : Z) (d : Tiers) : Tiers :=
  let d1 := mkTiers (raw d ++ [snapshot]) (hourly d) (daily d) (lastAggregatedHour d) (lastAggregatedDay d) in
  let d2 := (aggregateTiers snapshot d1).1 in
  mkTiers (splice_to MAX_RAW (Snapshots.since (rawCutoff now) (raw d2)))
    (splice_to MAX_HOURLY (Snapshots.since (hourlyCutoff now) (hourly d2)))
    (daily d2) (lastAggregatedHour d2) (lastAggregatedDay d2).

(** The write of the retention limits. *)
Definition retention (now : Z) (t : Snapshots.table) : Snapshots.table :=
  Snapshots.prune Hourly MAX_HOURLY (Snapshots.pruneOlderThan Hourly (hourlyCutoff now)
    (Snapshots.prune Raw MAX_RAW (Snapshots.pruneOlderThan Raw (rawCutoff now) t))).

(** The writes [commitSnapshot] queues. *)
Definition commit_calls (snapshot : AssetSnapshot) (now : Z) (d : Tiers) : list (Snapshots.table -> Snapshots.table) :=
  let d1 := mkTiers (raw d ++ [snapshot]) (hourly d) (daily d) (lastAggregatedHour d) (lastAggregatedDay d) in
  [Snapshots.insert Raw snapshot]
  ++ map (fun p => Snapshots.insert p.1 p.2) (aggregateTiers snapshot d1).2
  ++ [retention now].

(** [loadTrend] from the table; the trackers keep their value when a tier is empty. *)
Definition load_tiers (t : Snapshots.table) (d : Tiers) : Tiers :=
  let h := Snapshots.latest Hourly MAX_HOURLY t in
  let dl := Snapshots.all Daily t in
  mkTiers (Snapshots.latest Raw MAX_RAW t) h dl
    (match newest h with Some s => Calendar.floorToHour (ts s) | None => lastAggregatedHour d end)
    (match newest dl with Some s => Calendar.floorToDay (ts s) | None => lastAggregatedDay d end).

(** ** The module *)

Inductive Dex := Orca | Meteora | Pcs | DammV2.
#[export] Instance Dex_eq_dec : EqDecision Dex.
Proof. solve_decision. Defined.

Record LpData := mkLpData { lpUsd : num; feeUsd : num; count : num }.

Record HttpAnswer := mkHttp { http_ok : bool; http_code : Z; http_json : outcome Json }.

Inductive Call :=
| Fetch (url : string)
| FetchLp (d : Dex)
| Wait (ms : Z).

Definition Ans (c : Call) : Type :=
  match c with Fetch _ => HttpAnswer | FetchLp _ => LpData | Wait _ => unit end.

(** What is called without waiting for an answer. *)
Inductive Task :=
| InvalidateCaches
| SnapshotCallback (totalUsd : num)
| Collect.

Abbreviation SnapChain := (WriteChain.WChain (T := Snapshots.table)).

Record Trend := mkTrend {
  tiers : Tiers;
  snapshotInProgress : bool;
  priceCache : list (string * num);
  cachedSolPrice : num;
  solPriceUpdatedAt : Z;
  latestTotalUsd : num;
  rentPerPosition : num;                 (** Byreal *)
  rents : Dex -> num;
  lpFetchers : Dex -> bool;              (** which fetchers are set *)
  cacheInvalidator : bool;
  snapshotCallback : bool;
  timer : bool;
  writes : SnapChain;
}.

Definition init : Trend :=
  mkTrend no_tiers false [] (num_of_Z 0) 0 (num_of_Z 0) (dec_num 90132 7)
    (fun d => match d with Orca => dec_num 74542 7 | Pcs => dec_num 90132 7 | Meteora | DammV2 => dec_num 89088 7 end)
    (fun _ => false) false false false (WriteChain.new_chain WriteChain.RETRY_DELAYS_MS).

Definition with_tiers (d : Tiers) (c : SnapChain) (s : Trend) : Trend :=
  mkTrend d (snapshotInProgress s) (priceCache s) (cachedSolPrice s) (solPriceUpdatedAt s) (latestTotalUsd s)
    (rentPerPosition s) (rents s) (lpFetchers s) (cacheInvalidator s) (snapshotCallback s) (timer s) c.
Definition with_progress (b : bool) (s : Trend) : Trend :=
  mkTrend (tiers s) b (priceCache s) (cachedSolPrice s) (solPriceUpdatedAt s) (latestTotalUsd s)
    (rentPerPosition s) (rents s) (lpFetchers s) (cacheInvalidator s) (snapshotCallback s) (timer s) (writes s).
Definition with_prices (m : list (string * num)) (s : Trend) : Trend :=
  mkTrend (tiers s) (snapshotInProgress s) m (cachedSolPrice s) (solPriceUpdatedAt s) (latestTotalUsd s)
    (rentPerPosition s) (rents s) (lpFetchers s) (cacheInvalidator s) (snapshotCallback s) (timer s) (writes s).
Definition with_sol (p : num) (t : Z) (s : Trend) : Trend :=
  mkTrend (tiers s) (snapshotInProgress s) (priceCache s) p t (latestTotalUsd s)
    (rentPerPosition s) (rents s) (lpFetchers s) (cacheInvalidator s) (snapshotCallback s) (timer s) (writes s).
Definition setLatestTotalUsd (v : num) (s : Trend) : Trend :=
  mkTrend (tiers s) (snapshotInProgress s) (priceCache s) (cachedSolPrice s) (solPriceUpdatedAt s) v
    (rentPerPosition s) (rents s) (lpFetchers s) (cacheInvalidator s) (snapshotCallback s) (timer s) (writes s).
Definition setRentPerPosition (v : num) (s : Trend) : Trend :=
  mkTrend (tiers s) (snapshotInProgress s) (priceCache s) (cachedSolPrice s) (solPriceUpdatedAt s) (latestTotalUsd s)
    v (rents s) (lpFetchers s) (cacheInvalidator s) (snapshotCallback s) (timer s) (writes s).
(** [setOrcaRentPerPosition] and its siblings *)
Definition setDexRent (d : Dex) (v : num) (s : Trend) : Trend :=
  mkTrend (tiers s) (snapshotInProgress s) (priceCache s) (cachedSolPrice s) (solPriceUpdatedAt s) (latestTotalUsd s)
    (rentPerPosition s) (fun e => if decide (e = d) then v else rents s e) (lpFetchers s) (cacheInvalidator s) (snapshotCallback s) (timer s) (writes s).
(** [setOrcaLpFetcher] and its siblings *)
Definition setLpFetcher (d : Dex) (s : Trend) : Trend :=
  mkTrend (tiers s) (snapshotInProgress s) (priceCache s) (cachedSolPrice s) (solPriceUpdatedAt s) (latestTotalUsd s)
    (rentPerPosition s) (rents s) (fun e => if decide (e = d) then true else lpFetchers s e) (cacheInvalidator s) (snapshotCallback s) (timer s) (writes s).
Definition setSnapshotCallback (s : Trend) : Trend :=
  mkTrend (tiers s) (snapshotInProgress s) (priceCache s) (cachedSolPrice s) (solPriceUpdatedAt s) (latestTotalUsd s)
    (rentPerPosition s) (rents s) (lpFetchers s) (cacheInvalidator s) true (timer s) (writes s).
Definition with_timer (inval tm : bool) (s : Trend) : Trend :=
  mkTrend (tiers s) (snapshotInProgress s) (priceCache s) (cachedSolPrice s) (solPriceUpdatedAt s) (latestTotalUsd s)
    (rentPerPosition s) (rents s) (lpFetchers s) inval (snapshotCallback s) tm (writes s).

Definition getTrendLatestTs (s : Trend) : Z := match newest (raw (tiers s)) with Some x => ts x | None => 0 end.
Definition getLatestTotalUsd (s : Trend) : num := latestTotalUsd s.

Abbreviation P := (Prog Trend Call Ans Task).

Definition http (url : string) : P HttpAnswer := await (Fetch url).
Definition fetch_lp (d : Dex) : P LpData := await (FetchLp d).
Definition wait (ms : Z) : P unit := await (Wait ms).
Definition collect_later : P unit := spawn Collect.

(** [a + b] of values of any type *)
Definition js_add (a b : Json) : Json :=
  let text j := match j with JStr _ | JArr _ | JObj _ => true | _ => false end in
  if text a || text b then JStr (jstring a +:+ jstring b)
  else JNum (nadd (Number (Some a)) (Number (Some b))).

(** [parseFloat(x)] *)
Definition jparseFloat (x : Json) : num := parseFloat (jstring x).

Definition SOL_MINT : string := "So11111111111111111111111111111111111111112".

(** The total of the accounts of a mint. *)
Fixpoint sum_accounts (accounts : list Json) (total : Json) : outcome Json :=
  match accounts with
  | [] => Ret total
  | acc :: rest =>
      let! ui := jfield (Some acc) "uiAmount" in
      sum_accounts rest (match ui with
                         | Some v => if nlt (num_of_Z 0) (Number (Some v)) then js_add total v else total
                         | None => total
                         end)
  end.

Fixpoint sum_holdings (tokens : list (string * Json)) (holdings : list (string * Json)) : outcome (list (string * Json)) :=
  match tokens with
  | [] => Ret holdings
  | (mint, JArr accounts) :: rest =>
      let! total := sum_accounts accounts (JNum (num_of_Z 0)) in
      sum_holdings rest (if nlt (num_of_Z 0) (Number (Some total)) then jset mint total holdings else holdings)
  | _ :: rest => sum_holdings rest holdings
  end.

(** [fetchJupiterHoldings]: the SOL balance and the holdings; the mints are their keys. *)
Definition fetchJupiterHoldings (address : string) : P (num * list (string * Json)) :=
  let* res := http ("https://api.jup.ag/ultra/v1/holdings/" +:+ address)%string in
  if negb (http_ok res) then throw ("Jupiter holdings " +:+ Z_toString (http_code res))%string
  else
    let* data := lift (http_json res) in
    let* ui := lift (jfield (Some data) "uiAmount") in
    let solBalance := jparseFloat (jor ui (JStr "0")) in
    let tokens := match jopt (Some data) "tokens" with Some (JObj kvs) => kvs | Some (JArr l) => jentries (JArr l) | _ => [] end in
    let* holdings := lift (sum_holdings tokens []) in
    ret (solBalance, holdings).

(** The prices in an answer of the price API. *)
Definition read_prices (entries : list (string * Json)) : list (string * num) :=
  foldl (fun prices e => match jopt (Some e.2) "usdPrice" with
                         | Some p => if truthy p then jset e.1 (jparseFloat p) prices else prices
                         | None => prices
                         end) [] entries.

Definition fetchJupiterPrices (mints : list string) : P (list (string * num)) :=
  if bool_decide (mints = []) then ret []
  else
    let* res := http ("https://api.jup.ag/price/v3?ids=" +:+ join "," (mints ++ [SOL_MINT]))%string in
    if negb (http_ok res) then throw ("Jupiter price " +:+ Z_toString (http_code res))%string
    else
      let* data := lift (http_json res) in
      let* entries := lift (match data with JNull => Throw "Cannot convert undefined or null to object" | _ => Ret (jentries data) end) in
      let prices := read_prices entries in
      do* modify (fun s => with_prices (foldl (fun m e => jset e.1 e.2 m) (priceCache s) prices) s) in
      ret prices.

Record Overview := mkOverview { totalValue : num; unclaimedFee : num; unclaimedRewards : num; openPositionCount : num }.

Definition data_of (data : Json) : option Json := jopt (jopt (Some data) "result") "data".

Definition fetchByrealOverview (address : string) : P Overview :=
  let* res := http ("https://api2.byreal.io/byreal/api/dex/v2/copyfarmer/providerOverview?providerAddress=" +:+ address)%string in
  if negb (http_ok res) then throw ("Byreal overview " +:+ Z_toString (http_code res))%string
  else
    let* data := lift (http_json res) in
    let r := data_of data in
    if negb (truthy r) then throw "Byreal overview empty"
    else
      let f k := jparseFloat (jor (jopt r k) (JStr "0")) in
      ret (mkOverview (f "totalValue") (f "unclaimedFee") (f "unclaimedRewards")
             (parseInt (jstring (jor (jopt r "openPositionCount") (JStr "0")))))%string.

Fixpoint sum_unclaimed (items : list Json) (total : num) : outcome num :=
  match items with
  | [] => Ret total
  | item :: rest =>
      let! amount := jfield (Some item) "amount" in
      let! price := jfield (Some item) "price" in
      sum_unclaimed rest (nadd total (nmul (jparseFloat (jor amount (JStr "0"))) (jparseFloat (jor price (JStr "0")))))
  end.

Definition fetchByrealUnclaimedFees (address : string) : P num :=
  let* res := http ("https://api2.byreal.io/byreal/api/dex/v2/position/unclaimed-v2?userAddress=" +:+ address)%string in
  if negb (http_ok res) then throw ("Byreal unclaimed-v2 " +:+ Z_toString (http_code res))%string
  else
    let* data := lift (http_json res) in
    match jopt (data_of data) "list" with
    | Some l =>
        if negb (truthy l) then throw "Byreal unclaimed-v2 empty"
        else let* items := lift (iterable l) in lift (sum_unclaimed items (num_of_Z 0))
    | None => throw "Byreal unclaimed-v2 empty"
    end.

Definition epoch_url (address type : string) : string :=
  "https://api2.byreal.io/byreal/api/dex/v2/copyfarmer/epoch-bonus?walletAddress=" +:+ address +:+ "&type=" +:+ type.

Definition fetchEpochBonus (address : string) : P num :=
  let* r1 := http (epoch_url address "1") in
  let* r2 := http (epoch_url address "2") in
  if negb (http_ok r1) then throw ("Byreal epoch-bonus type=1 " +:+ Z_toString (http_code r1))%string
  else if negb (http_ok r2) then throw ("Byreal epoch-bonus type=2 " +:+ Z_toString (http_code r2))%string
  else
    let* d1 := lift (http_json r1) in
    let* d2 := lift (http_json r2) in
    let bonus d k i := jparseFloat (jor (jopt (match data_of d with Some j => jindex j k i | None => None end) "totalBonusUsd") (JStr "0")) in
    ret (nadd (bonus d1 "1"%string 1%nat) (bonus d2 "2"%string 2%nat)).

(** [updateSolPrice] of the dashboard *)
Definition updateSolPrice (price : num) : P unit :=
  if nlt (num_of_Z 0) price then let* now := clock in modify (with_sol price now) else ret tt.

(** The share of one of the other exchanges: value, fees, locked SOL. *)
Definition dex_part (d : Dex) (solPrice : num) : P (num * num * num) :=
  let zero := (num_of_Z 0, num_of_Z 0, num_of_Z 0) in
  let* isset := gets (fun s => lpFetchers s d) in
  if isset : bool then
    catch (let* data := fetch_lp d in
           let* rent := gets (fun s => rents s d) in
           ret (lpUsd data, feeUsd data, nmul (nmul (count data) rent) solPrice))
          (fun _ => ret zero)
  else ret zero.

(** [+x.toFixed(n)] *)
Definition rounded (n : nat) (x : num) : num := Number_of_string (toFixed x n).

Definition fetchSnapshotData (address : string) : P AssetSnapshot :=
  let* hold := fetchJupiterHoldings address in
  let* byreal := fetchByrealOverview address in
  let* epochBonusUsd := fetchEpochBonus address in
  let* byrealUnclaimedUsd := catch (let* v := fetchByrealUnclaimedFees address in ret (Some v)) (fun _ => ret None) in
  let (solBalance, holdings) := hold : num * list (string * Json) in
  let* prices := fetchJupiterPrices (jkeys holdings) in
  let* solPrice :=
    (let p := jget SOL_MINT prices in
     if truthy p then do* updateSolPrice (default NaN p) in ret (default NaN p) else gets cachedSolPrice) in
  let solBalanceUsd := nmul solBalance solPrice in
  let* cache := gets priceCache in
  let tokensUsd := foldl (fun acc e =>
      let price := or_else (jget e.1 prices) (or_else (jget e.1 cache) (num_of_Z 0)) in
      nadd acc (nmul (Number (Some e.2)) price)) solBalanceUsd holdings in
  let byrealLpUsd := totalValue byreal in
  let byrealFeesUsd := nullish byrealUnclaimedUsd (nadd (unclaimedFee byreal) (unclaimedRewards byreal)) in
  let bonusUsd := epochBonusUsd in
  let* rent := gets rentPerPosition in
  let byrealLockedUsd := nmul (nmul (openPositionCount byreal) rent) solPrice in
  let* orca := dex_part Orca solPrice in
  let* meteora := dex_part Meteora solPrice in
  let* pcs := dex_part Pcs solPrice in
  let* dammv2 := dex_part DammV2 solPrice in
  let '(orcaLp, orcaFees, orcaLocked) := orca : num * num * num in
  let '(meteoraLp, meteoraFees, meteoraLocked) := meteora : num * num * num in
  let '(pcsLp, pcsFees, pcsLocked) := pcs : num * num * num in
  let '(dammLp, dammFees, dammLocked) := dammv2 : num * num * num in
  let sum a b c d e := nadd (nadd (nadd (nadd a b) c) d) e in
  let lpValueUsd := sum byrealLpUsd orcaLp meteoraLp pcsLp dammLp in
  let unclaimedUsd := sum byrealFeesUsd orcaFees meteoraFees pcsFees dammFees in
  let lockedSolUsd := sum byrealLockedUsd orcaLocked meteoraLocked pcsLocked dammLocked in
  let totalUsd := sum tokensUsd lpValueUsd unclaimedUsd bonusUsd lockedSolUsd in
  let* now := clock in
  let r := rounded 2 in
  ret (mkSnap now (list_to_map
    [("tokensUsd", r tokensUsd); ("lpValueUsd", r lpValueUsd); ("unclaimedUsd", r unclaimedUsd); ("bonusUsd", r bonusUsd);
     ("lockedSolUsd", r lockedSolUsd); ("totalUsd", r totalUsd); ("solPrice", rounded 4 solPrice); ("solBalanceUsd", r solBalanceUsd);
     ("byrealLpUsd", r byrealLpUsd); ("orcaLpUsd", r orcaLp); ("byrealFeesUsd", r byrealFeesUsd); ("orcaFeesUsd", r orcaFees);
     ("byrealLockedUsd", r byrealLockedUsd); ("orcaLockedUsd", r orcaLocked); ("meteoraLpUsd", r meteoraLp);
     ("meteoraFeesUsd", r meteoraFees); ("meteoraLockedUsd", r meteoraLocked); ("pcsLpUsd", r pcsLp); ("pcsFeesUsd", r pcsFees);
     ("pcsLockedUsd", r pcsLocked); ("dammv2LpUsd", r dammLp); ("dammv2FeesUsd", r dammFees); ("dammv2LockedUsd", r dammLocked)]%string)).

(** [commitSnapshot] *)
Definition commitSnapshot (snapshot : AssetSnapshot) : P unit :=
  let* now := clock in
  do* modify (fun s => with_tiers (commitTiers snapshot now (tiers s))
                (Journal.push_all (commit_calls snapshot now (tiers s)) (writes s)) s) in
  do* modify (setLatestTotalUsd (field "totalUsd" snapshot)) in
  let* cb := gets snapshotCallback in
  if cb : bool then spawn (SnapshotCallback (field "totalUsd" snapshot)) else ret tt.

(** The change from the previous total, and whether it is an anomaly. *)
Definition anomalous (prev snapshot : AssetSnapshot) : bool :=
  nlt (num_of_Z 0) (field "totalUsd" prev)
  && nle ANOMALY_PCT (ndiv (nabs (nsub (field "totalUsd" snapshot) (field "totalUsd" prev))) (field "totalUsd" prev)).

Definition collect_body (address : string) : P unit :=
  let* first := fetchSnapshotData address in
  let* prev := gets (fun s => newest (raw (tiers s))) in
  let* snapshot :=
    match prev with
    | Some prev =>
        if anomalous prev first then
          do* wait ANOMALY_REQUERY_DELAY in
          let* inval := gets cacheInvalidator in
          do* (if inval : bool then spawn InvalidateCaches else ret tt) in
          let* again := fetchSnapshotData address in
          let* now := clock in
          ret (mkSnap now (fields again))
        else ret first
    | None => ret first
    end in
  commitSnapshot snapshot.

(** [collectAssetSnapshot] *)
Definition collectAssetSnapshot (address : string) : P unit :=
  let* busy := gets snapshotInProgress in
  if busy : bool then ret tt
  else
    do* modify (with_progress true) in
    finally (catch (collect_body address) (fun _ => ret tt)) (modify (with_progress false)).

(** [forceSnapshot] *)
Definition forceSnapshot : P unit := collect_later.

Definition loadTrend (t : Snapshots.table) (s : Trend) : Trend :=
  with_tiers (load_tiers t (tiers s)) (WriteChain.enable (writes s)) s.

(** [startAssetTrendCollector]; the interval then collects again every five minutes. *)
Definition startAssetTrendCollector (jupApiKey : string) (invalidator : bool) (t : Snapshots.table) : P unit :=
  if negb (truthy jupApiKey) then ret tt
  else
    do* modify (fun s => with_timer (invalidator || cacheInvalidator s) (timer s) s) in
    do* modify (loadTrend t) in
    do* collect_later in
    modify (fun s => with_timer (cacheInvalidator s) true s).

Definition stopAssetTrendCollector (s : Trend) : Trend := with_timer (cacheInvalidator s) false s.

(** [fetchSolPrice] and [refreshSolPrice] of the dashboard *)
Definition fetchSolPrice (jupApiKey : string) : P num :=
  if negb (truthy jupApiKey) then gets cachedSolPrice
  else
    catch (let* res := http ("https://api.jup.ag/price/v3?ids=" +:+ SOL_MINT)%string in
           if negb (http_ok res) then gets cachedSolPrice
           else
             let* data := lift (http_json res) in
             let price := jopt (jopt (Some data) SOL_MINT) "usdPrice" in
             do* (if nlt (num_of_Z 0) (Number price) then
                    let* now := clock in modify (with_sol (jparseFloat (default JNull price)) now)
                  else ret tt) in
             gets cachedSolPrice)
          (fun _ => gets cachedSolPrice).

Definition refreshSolPrice (jupApiKey : string) : P unit :=
  let* now := clock in
  let* at_ := gets solPriceUpdatedAt in
  if now - at_ <? 300000 then ret tt else do* fetchSolPrice jupApiKey in ret tt.

End AssetTrend.
