(* ===== verification/AssetTrendRules.v ===== *)
(** * What the asset trend guarantees

    [trend_survives_restart]: from a first start on an empty table the tiers in
    memory are what the table holds, and stay within their limits, for snapshots
    in the order of time and any interleaving with the write chain;
    [reload_repeats]: after a restart the next snapshot can promote the last hourly snapshot again.  [collection_alone]: one
    collection at a time. *)

From Stdlib Require Import Ascii Floats.SpecFloat Sorting.Sorted.
From S2P Require Import Prelude JsMap JsString JsNumber Json JsConvert Async WriteChain Histories AssetTrend.
Open Scope Z_scope.
Open Scope list_scope.

Module AssetTrendRules.
Import Async AsyncMore Snapshots AssetTrend.

(** ** Lists in the order of time *)

Lemma splice_lastn n l : splice_to n l = lastn n l.
Proof.
  unfold splice_to, lastn. destruct (Nat.ltb_spec n (length l)); [done|].
  by replace (length l - n)%nat with 0%nat by lia.
Qed.

(** What is older than the newest rows is older than all of them... *)
Lemma sorted_lookup l i j x y : sorted l -> l !! i = Some x -> l !! j = Some y -> (i < j)%nat -> ts x < ts y.
Proof.
  intros Hs. revert i j. induction Hs as [|w l Hl IH Hw]; intros i j Hi Hj Hij; [done|].
  destruct j as [|j]; [lia|]. destruct i as [|i]; cbn in *; [|by apply (IH i j); [..|lia]].
  injection Hi as ->. rewrite Forall_forall in Hw. apply Hw, list_elem_of_In. by eapply list_elem_of_lookup_2.
Qed.

(** ... so a bound on the newest rows bounds them all. *)
Lemma sorted_bound l n x : sorted l -> (0 < n)%nat -> Forall (fun y => ts y < x) (lastn n l) -> Forall (fun y => ts y < x) l.
Proof.
  intros Hs Hn Hb. apply Forall_forall. intros y Hy. rewrite <- list_elem_of_In in Hy.
  apply list_elem_of_lookup in Hy as [i Hi]. pose proof (lookup_lt_Some _ _ _ Hi).
  destruct (lookup_lt_is_Some_2 l (length l - 1)) as [z Hz]; [lia|].
  assert (ts z < x).
  { rewrite Forall_forall in Hb. apply Hb, list_elem_of_In, (list_elem_of_lookup_2 _ (n `min` length l - 1)%nat).
    unfold lastn. rewrite lookup_drop. rewrite <- Hz. f_equal. lia. }
  destruct (decide (i = (length l - 1)%nat)) as [->|Hne]; [rewrite Hi in Hz; by injection Hz as ->|].
  pose proof (sorted_lookup l i (length l - 1) y z Hs Hi Hz ltac:(lia)). lia.
Qed.

Lemma newest_elem l s : newest l = Some s -> s ∈ l.
Proof. unfold newest. intros H. apply elem_of_reverse. destruct (reverse l); [done|]. injection H as ->. left. Qed.

Lemma elem_of_within lo hi l s : s ∈ within lo hi l <-> s ∈ l /\ lo <= ts s < hi.
Proof. unfold within. rewrite !list_elem_of_In, filter_In, andb_true_iff, Z.leb_le, Z.ltb_lt. done. Qed.

Lemma newest_within (b : bool) lo hi l x : (if b then newest (within lo hi l) else None) = Some x -> x ∈ l /\ lo <= ts x < hi.
Proof. destruct b; [|done]. intros Hx%newest_elem. by apply elem_of_within. Qed.

Lemma Forall_lastn (P : AssetSnapshot -> Prop) n l : Forall P l -> Forall P (lastn n l).
Proof. apply Forall_drop. Qed.

(** The retention of a tier, on the array and on the table. *)
Lemma retained n c l s : sorted (l ++ [s]) -> (0 < n)%nat ->
  splice_to n (since c (lastn n l ++ [s])) = prune_rows n (since c (l ++ [s])).
Proof.
  intros Hs Hn. rewrite splice_lastn, <- lastn_snoc, since_lastn, lastn_lastn by (done || lia).
  destruct (since_drop c _ Hs) as [k Hk]. rewrite prune_lastn; [done| |done]. rewrite Hk. by apply sorted_drop.
Qed.

Lemma retained_same n c l : sorted l -> (0 < n)%nat ->
  splice_to n (since c (lastn n l)) = prune_rows n (since c l).
Proof.
  intros Hs Hn. rewrite splice_lastn, since_lastn, lastn_lastn by (done || lia).
  destruct (since_drop c _ Hs) as [k Hk]. rewrite prune_lastn; [done| |done]. rewrite Hk. by apply sorted_drop.
Qed.

Lemma sorted_since c l : sorted l -> sorted (since c l).
Proof. intros Hs. destruct (since_drop c l Hs) as [k ->]. by apply sorted_drop. Qed.

Lemma since_since c l : since c (since c l) = since c l.
Proof. unfold since. induction l as [|x l IH]; simpl; [done|]. destruct (ts x <? c) eqn:E; simpl; [done|]. by rewrite E; simpl; rewrite IH. Qed.

Lemma retention_twice n c l : sorted l -> (0 < n)%nat ->
  prune_rows n (since c (prune_rows n (since c l))) = prune_rows n (since c l).
Proof.
  intros Hs Hn. pose proof (sorted_since c l Hs) as Hc. rewrite (prune_lastn n (since c l)) by done.
  rewrite since_lastn, since_since by done. rewrite prune_lastn; [by apply lastn_lastn| |done]. unfold lastn. by apply sorted_drop.
Qed.

(** ** The tiers and the table *)

Definition mem (m : AssetSnapshot * Z) (d : Tiers) : Tiers := commitTiers m.1 m.2 d.
Definition calls (m : AssetSnapshot * Z) (d : Tiers) : list (table -> table) := commit_calls m.1 m.2 d.

(** The tiers are the newest rows of the table; what was promoted is older than
    the hour and the day at hand. *)
Record mirrored (d : Tiers) (t : table) : Prop := {
  sorted_raw : sorted (t_raw t);
  sorted_hourly : sorted (t_hourly t);
  sorted_daily : sorted (t_daily t);
  raw_latest : raw d = latest Raw MAX_RAW t;
  hourly_latest : hourly d = latest Hourly MAX_HOURLY t;
  daily_all : daily d = all Daily t;
  hourly_old : Forall (fun s => ts s < lastAggregatedHour d) (t_hourly t);
  daily_old : Forall (fun s => ts s < lastAggregatedDay d) (t_daily t);
}.

(** A snapshot that is later than the ones kept and the last hour and day. *)
Definition later (d : Tiers) (m : AssetSnapshot * Z) : Prop :=
  Forall (fun s => ts s < ts m.1) (raw d)
  /\ lastAggregatedHour d <= Calendar.floorToHour (ts m.1) /\ lastAggregatedDay d <= Calendar.floorToDay (ts m.1).

Definition opt_list {A} (o : option A) : list A := match o with Some x => [x] | None => [] end.

(** What is promoted lies between the last hour (day) and the one at hand. *)
Lemma promotions s d : exists eh ed,
  aggregateTiers s d = (mkTiers (raw d) (hourly d ++ opt_list eh) (daily d ++ opt_list ed)
                          (Calendar.floorToHour (ts s)) (Calendar.floorToDay (ts s)),
                        map (fun x => (Hourly, x)) (opt_list eh) ++ map (fun x => (Daily, x)) (opt_list ed))
  /\ (forall x, eh = Some x -> lastAggregatedHour d <= ts x < Calendar.floorToHour (ts s))
  /\ (forall x, ed = Some x -> lastAggregatedDay d <= ts x < Calendar.floorToDay (ts s)).
Proof.
  unfold aggregateTiers. set (eh := if (0 <? lastAggregatedHour d) && _ then newest (within _ _ (raw d)) else None).
  set (ed := if (0 <? lastAggregatedDay d) && _ then newest _ else None).
  exists eh, ed. split; [by destruct eh, ed|]. split; intros x Hx; by apply newest_within in Hx as [_ Hx].
Qed.

(** The insertions of a commit go to the ends of the tiers. *)
Lemma appended (o : option AssetSnapshot) l b : Forall (fun s => ts s < b) l -> (forall x, o = Some x -> b <= ts x) -> sorted l ->
  foldl (fun l x => upsert x l) l (opt_list o) = l ++ opt_list o /\ sorted (l ++ opt_list o).
Proof.
  intros Hl Ho Hs. destruct o as [x|]; cbn [opt_list foldl]; [|by rewrite app_nil_r]. specialize (Ho x eq_refl).
  assert (Forall (fun y => ts y < ts x) l) by (eapply list.Forall_impl; [exact Hl|]; simpl; lia).
  split; [by apply upsert_last|by apply sorted_snoc].
Qed.

(** What the insertions and the retention do to the rows. *)
Lemma calls_rows s now eh ed t :
  Journal.apply_all ([insert Raw s] ++ map (fun p => insert p.1 p.2)
      (map (fun x => (Hourly, x)) (opt_list eh) ++ map (fun x => (Daily, x)) (opt_list ed)) ++ [retention now]) t
  = retention now (mkTable (upsert s (t_raw t)) (foldl (fun l x => upsert x l) (t_hourly t) (opt_list eh))
                     (foldl (fun l x => upsert x l) (t_daily t) (opt_list ed))).
Proof. by destruct eh, ed, t. Qed.

Lemma retention_rows now a b c :
  retention now (mkTable a b c) = mkTable (prune_rows MAX_RAW (since (rawCutoff now) a)) (prune_rows MAX_HOURLY (since (hourlyCutoff now) b)) c.
Proof. done. Qed.

Lemma insert_twice g x t : insert g x (insert g x t) = insert g x t.
Proof. destruct g, t as [l1 l2 l3]; unfold insert; cbn [tier set_tier t_raw t_hourly t_daily]; by rewrite upsert_twice. Qed.

(** The insertions can be repeated, and so can what follows them. *)
Lemma inserts_repeatable (ps : list (Granularity * AssetSnapshot)) ws t :
  Journal.repeatable ws (Journal.apply_all (map (fun p => insert p.1 p.2) ps) t) ->
  Journal.repeatable (map (fun p => insert p.1 p.2) ps ++ ws) t.
Proof.
  revert t. induction ps as [|p ps IH]; intros t; cbn; [done|]. intros H. split; [apply insert_twice|]. by apply IH.
Qed.

(** The tiers and the table after a commit, and that its writes can be repeated. *)
Lemma commit_spec s now d t : mirrored d t -> later d (s, now) ->
  exists eh ed,
    mem (s, now) d = mkTiers (prune_rows MAX_RAW (since (rawCutoff now) (t_raw t ++ [s])))
      (prune_rows MAX_HOURLY (since (hourlyCutoff now) (t_hourly t ++ opt_list eh)))
      (t_daily t ++ opt_list ed) (Calendar.floorToHour (ts s)) (Calendar.floorToDay (ts s))
    /\ Journal.apply_all (calls (s, now) d) t
       = mkTable (prune_rows MAX_RAW (since (rawCutoff now) (t_raw t ++ [s])))
           (prune_rows MAX_HOURLY (since (hourlyCutoff now) (t_hourly t ++ opt_list eh))) (t_daily t ++ opt_list ed)
    /\ sorted (t_raw t ++ [s]) /\ sorted (t_hourly t ++ opt_list eh) /\ sorted (t_daily t ++ opt_list ed)
    /\ Forall (fun x => ts x < Calendar.floorToHour (ts s)) (t_hourly t ++ opt_list eh)
    /\ Forall (fun x => ts x < Calendar.floorToDay (ts s)) (t_daily t ++ opt_list ed)
    /\ Journal.repeatable (calls (s, now) d) t.
Proof.
  intros [Hsr Hsh Hsd Hr Hh Hd Hoh Hod] (Hlr & Hlh & Hld). cbn [fst] in *.
  destruct (promotions s (mkTiers (raw d ++ [s]) (hourly d) (daily d) (lastAggregatedHour d) (lastAggregatedDay d)))
    as (eh & ed & Hagg & Heh & Hed). cbn [raw hourly daily lastAggregatedHour lastAggregatedDay] in Hagg, Heh, Hed.
  destruct (appended eh (t_hourly t) (lastAggregatedHour d) Hoh ltac:(intros x Hx; by apply Heh) Hsh) as [Huh Hsh'].
  destruct (appended ed (t_daily t) (lastAggregatedDay d) Hod ltac:(intros x Hx; by apply Hed) Hsd) as [Hud Hsd'].
  assert (Forall (fun x => ts x < ts s) (t_raw t)) as Hbr.
  { apply (sorted_bound _ MAX_RAW); [done|unfold MAX_RAW; lia|]. by rewrite Hr in Hlr. }
  assert (sorted (t_raw t ++ [s])) as Hsr' by by apply sorted_snoc.
  exists eh, ed. split_and!.
  - unfold mem, commitTiers. cbv zeta. cbn [fst snd]. rewrite Hagg. cbn [fst snd raw hourly daily lastAggregatedHour lastAggregatedDay].
    f_equal; [| |by rewrite Hd].
    + rewrite Hr. unfold latest. apply retained; [done|unfold MAX_RAW; lia].
    + rewrite Hh. unfold latest. destruct eh as [x|]; cbn [opt_list] in *.
      * apply retained; [done|unfold MAX_HOURLY; lia].
      * rewrite !app_nil_r. apply retained_same; [done|unfold MAX_HOURLY; lia].
  - unfold calls, commit_calls. cbv zeta. cbn [fst snd]. rewrite Hagg. cbn [fst snd].
    by rewrite calls_rows, retention_rows, Huh, Hud, upsert_last.
  - done.
  - done.
  - done.
  - apply Forall_app. split; [eapply list.Forall_impl; [exact Hoh|]; simpl; lia|].
    destruct eh as [x|]; repeat constructor. by apply Heh.
  - apply Forall_app. split; [eapply list.Forall_impl; [exact Hod|]; simpl; lia|].
    destruct ed as [x|]; repeat constructor. by apply Hed.
  - unfold calls, commit_calls. cbv zeta. cbn [fst snd]. rewrite Hagg. cbn [fst snd].
    set (ps := map _ (opt_list eh) ++ _).
    change ([insert Raw s] ++ map (fun p => insert p.1 p.2) ps ++ [retention now])
      with (map (fun p => insert p.1 p.2) ((Raw, s) :: ps) ++ [retention now]).
    apply inserts_repeatable. cbn [Journal.repeatable]. split; [|done].
    assert (forall w u, Journal.apply_all (map (fun p => insert p.1 p.2) ((Raw, s) :: ps) ++ [w]) u
              = w (Journal.apply_all (map (fun p => insert p.1 p.2) ((Raw, s) :: ps)) u)) as Hlast
      by (intros w u; unfold Journal.apply_all; by rewrite foldl_app).
    rewrite <- Hlast. subst ps.
    change (map (fun p => insert p.1 p.2) ((Raw, s) :: ?q) ++ [retention now])
      with ([insert Raw s] ++ map (fun p => insert p.1 p.2) q ++ [retention now]).
    rewrite calls_rows, Huh, Hud, upsert_last, !retention_rows by done. f_equal; apply retention_twice; try done.
    + unfold MAX_RAW. lia.
    + unfold MAX_HOURLY. lia.
Qed.

Lemma Forall_prune (P : AssetSnapshot -> Prop) n l : sorted l -> (0 < n)%nat -> Forall P l -> Forall P (prune_rows n l).
Proof. intros Hs Hn H. rewrite prune_lastn by done. by apply Forall_lastn. Qed.

Lemma keeps_mirrored m d t : later d m -> mirrored d t -> mirrored (mem m d) (Journal.apply_all (calls m d) t).
Proof.
  destruct m as [s now]. intros Hl Hm. destruct (commit_spec s now d t Hm Hl) as (eh & ed & Hd & Ht & H1 & H2 & H3 & H4 & H5 & _).
  rewrite Hd, Ht. pose proof (sorted_since (rawCutoff now) _ H1) as S1. pose proof (sorted_since (hourlyCutoff now) _ H2) as S2.
  assert (forall n c l, sorted l -> (0 < n)%nat -> prune_rows n (since c l) = lastn n (prune_rows n (since c l))) as Hlast.
  { intros n c l Hs Hn. rewrite prune_lastn by (done || by apply sorted_since). symmetry. by apply lastn_lastn. }
  assert (forall n c l, sorted l -> (0 < n)%nat -> sorted (prune_rows n (since c l))) as Hsort.
  { intros n c l Hs Hn. rewrite prune_lastn by (done || by apply sorted_since). by apply sorted_drop, sorted_since. }
  split; cbn.
  - apply Hsort; [done|unfold MAX_RAW; lia].
  - apply Hsort; [done|unfold MAX_HOURLY; lia].
  - done.
  - apply Hlast; [done|unfold MAX_RAW; lia].
  - apply Hlast; [done|unfold MAX_HOURLY; lia].
  - done.
  - apply Forall_prune; [done|unfold MAX_HOURLY; lia|]. by apply Forall_since.
  - done.
Qed.

Lemma calls_repeatable m d t : later d m -> mirrored d t -> Journal.repeatable (calls m d) t.
Proof. destruct m as [s now]. intros Hl Hm. destruct (commit_spec s now d t Hm Hl) as (eh & ed & _ & _ & _ & _ & _ & _ & _ & H). done. Qed.

(** *** A sequence of snapshots in the order of time *)

(** Where the tiers stand: nothing is later than [prev]. *)
Definition until (prev : Z) (d : Tiers) : Prop :=
  Forall (fun s => ts s <= prev) (raw d)
  /\ lastAggregatedHour d <= Calendar.floorToHour prev /\ lastAggregatedDay d <= Calendar.floorToDay prev.

Fixpoint increasing (prev : Z) (ms : list (AssetSnapshot * Z)) : Prop :=
  match ms with
  | [] => True
  | m :: ms' => prev < ts m.1 /\ increasing (ts m.1) ms'
  end.

Lemma until_commit prev d m : until prev d -> prev < ts m.1 -> later d m /\ until (ts m.1) (mem m d).
Proof.
  intros (H1 & H2 & H3) Hlt. pose proof (Calendar.floorToHour_mono prev (ts m.1) ltac:(lia)).
  pose proof (Calendar.floorToDay_mono prev (ts m.1) ltac:(lia)).
  split; [split_and!; [eapply list.Forall_impl; [exact H1|]; simpl; lia|lia|lia]|].
  unfold mem, commitTiers. destruct (promotions m.1 (mkTiers (raw d ++ [m.1]) (hourly d) (daily d) (lastAggregatedHour d) (lastAggregatedDay d)))
    as (eh & ed & -> & _ & _). split_and!; cbn; [|lia|lia].
  rewrite splice_lastn. apply Forall_lastn, Forall_since, Forall_app. split; [|by repeat constructor].
  eapply list.Forall_impl; [exact H1|]; simpl; lia.
Qed.

Lemma increasing_allowed prev d ms : until prev d -> increasing prev ms -> Journal.all_allowed mem later ms d.
Proof.
  revert prev d. induction ms as [|m ms IH]; intros prev d Hu; cbn; [done|]. intros [Hlt Hinc].
  destruct (until_commit prev d m Hu Hlt) as [Hl Hu']. split; [done|]. by apply (IH (ts m.1)).
Qed.

(** The tiers stay within their limits. *)
Lemma tiers_bounded m d : (length (raw (mem m d)) <= MAX_RAW)%nat /\ (length (hourly (mem m d)) <= MAX_HOURLY)%nat
  /\ Forall (fun s => rawCutoff m.2 <= ts s) (raw (mem m d)) /\ Forall (fun s => hourlyCutoff m.2 <= ts s) (hourly (mem m d)).
Proof.
  unfold mem, commitTiers. cbn. rewrite !splice_lastn. split_and!; [apply lastn_length|apply lastn_length|..];
    apply Forall_lastn; unfold since; apply Forall_forall; intros s Hs; apply filter_In in Hs as [_ Hs];
    apply negb_true_iff, Z.ltb_ge in Hs; done.
Qed.

(** The event of a journal is what [commitSnapshot] does to the module. *)
Lemma commit_event env n h s snapshot (st : Trend) :
  let x := run (Task := Task) env n h (commitSnapshot snapshot) st in
  let ev := Journal.event mem calls (fun _ _ => WriteChain.Applied) (Journal.mk (tiers st) (writes st), s) (Journal.Do (snapshot, time env n)) in
  Journal.data ev.1 = tiers (final x) /\ Journal.chain ev.1 = writes (final x) /\ latestTotalUsd (final x) = field "totalUsd" snapshot.
Proof. cbn. by destruct (snapshotCallback st). Qed.

(** C32: The first restart restores the tiers: after a first start on an empty
    table and any number of snapshots, each later than the one before, however
    the commits and the write chain interleave and whatever fails, as long as
    every write is accepted within its retries, the drained table is loaded again
    as the raw, hourly and daily tiers that were in memory; and the raw and hourly
    tiers never hold more than 576 and 720 snapshots.  From a table that was
    loaded again the memory can hold an hour twice that the table holds once:
    [reload_repeats]. *)
Theorem trend_survives_restart att evs :
  WriteChain.recovers att WriteChain.RETRY_DELAYS_MS -> increasing 0 (Journal.muts evs) ->
  let st := foldl (Journal.event mem calls att) (Journal.start no_tiers, empty) evs in
  let d := Journal.data st.1 in
  let again := load_tiers (Journal.drain att st) no_tiers in
  raw again = raw d /\ hourly again = hourly d /\ daily again = daily d
  /\ (length (raw d) <= MAX_RAW)%nat /\ (length (hourly d) <= MAX_HOURLY)%nat.
Proof.
  intros Hr Hinc st d again.
  assert (Journal.all_allowed mem later (Journal.muts evs) no_tiers) as Hall.
  { apply (increasing_allowed 0); [|done]. split_and!; [constructor|done|done]. }
  assert (mirrored no_tiers empty) as H0 by (split; try done; constructor).
  assert (mirrored d (Journal.drain att st)) as Hm.
  { apply (Journal.drained mem calls mirrored later); [intros; by apply keeps_mirrored| |done|done].
    split; [done|]. right. apply (Journal.all_repeatable mem calls mirrored later); try done.
    - intros; by apply keeps_mirrored.
    - intros; by apply calls_repeatable. }
  destruct Hm as [_ _ _ Hr' Hh Hd _ _]. split_and!; [done..|rewrite Hr'; apply lastn_length|rewrite Hh; apply lastn_length].
Qed.

Definition demo_snap (t : Z) : AssetSnapshot := mkSnap t (<["totalUsd"%string := num_of_Z 100]> ∅).

(** Snapshots at 9:55, 10:00 and on the next day, with a lost acknowledgement. *)
Definition demo_events : list (Journal.Event (Mut := AssetSnapshot * Z)) :=
  [Journal.Do (demo_snap 122100000, 122100000); Journal.Work; Journal.Do (demo_snap 122400000, 122400000); Journal.Work;
   Journal.Do (demo_snap 176400000, 176400000)].
Definition demo_db : WriteChain.Db := fun i n => match i, n with 1%nat, 0%nat => WriteChain.FailedAfter | _, _ => WriteChain.Applied end.

Lemma trend_survives_restart_witness :
  let st := foldl (Journal.event mem calls demo_db) (Journal.start no_tiers, empty) demo_events in
  let again := load_tiers (Journal.drain demo_db st) no_tiers in
  raw again = raw (Journal.data st.1) /\ map ts (hourly again) = [122100000; 122400000] /\ map ts (daily again) = [122400000].
Proof.
  assert (WriteChain.recovers demo_db WriteChain.RETRY_DELAYS_MS) as Hr.
  { intros i. exists 1%nat. split; [simpl; lia|]. by destruct i as [|[|i]]. }
  pose proof (trend_survives_restart demo_db demo_events Hr ltac:(cbn; lia)) as (H1 & _ & _ & _).
  split; [exact H1|split; vm_compute; reflexivity].
Defined.

(** After a restart the trackers are those of the last hourly and daily
    snapshots, not of the last raw one: the next snapshot of the same hour
    promotes the hourly snapshot again, into memory only. *)
Example reload_repeats :
  let t := Journal.apply_all (calls (demo_snap 36000000, 36000000) (mem (demo_snap 35700000, 35700000) no_tiers))
             (Journal.apply_all (calls (demo_snap 35700000, 35700000) no_tiers) empty) in
  let d := load_tiers t no_tiers in
  let m := (demo_snap 36300000, 36300000) in
  map ts (hourly d) = [35700000]
  /\ map ts (hourly (mem m d)) = [35700000; 35700000]
  /\ map ts (t_hourly (Journal.apply_all (calls m d) t)) = [35700000].
Proof. vm_compute. done. Qed.

(** ** One collection at a time *)

Abbreviation steady := (fun s s' : Trend => snapshotInProgress s' = snapshotInProgress s).
Abbreviation excl := (exclusive (Task := Task) (Ans := Ans) snapshotInProgress (fun _ : Call => true)).

Lemma fetch_steady address : always (Task := Task) (Ans := Ans) steady (fun _ => True) (fetchSnapshotData address).
Proof.
  unfold fetchSnapshotData, fetchJupiterHoldings, fetchJupiterPrices, fetchByrealOverview, fetchByrealUnclaimedFees, fetchEpochBonus,
    dex_part, updateSolPrice. cbv zeta. hold.
Qed.

Lemma commit_steady snapshot : always (Task := Task) (Ans := Ans) steady (fun _ => True) (commitSnapshot snapshot).
Proof. unfold commitSnapshot. hold. Qed.

Lemma body_steady address : always (Task := Task) (Ans := Ans) steady (fun _ => True) (collect_body address).
Proof.
  unfold collect_body. apply always_bind; [apply fetch_steady|intros first].
  apply always_bind; [apply always_gets|intros prev].
  apply always_bind; [|intros s; apply commit_steady].
  destruct prev as [prev|]; [destruct (anomalous prev first)|]; [|apply always_done..].
  repeat first [apply fetch_steady|apply always_bind; [|intros ?]]; hold.
Qed.

Lemma collect_exclusive address : excl (collectAssetSnapshot address).
Proof.
  intros s. unfold collectAssetSnapshot. cbn [wp bind after gets ret]. destruct (snapshotInProgress s) eqn:Hs; [done|].
  cbn [wp bind after modify ret]. exists true. split; [by split|]. apply wp_finally, wp_catch.
  eapply wp_mono; [apply holding, body_steady|]. intros r g s2 ->. destruct r; by apply wp_modify with (g' := false).
Qed.

(** What begins an activation: the timer or the dashboard, and the start. *)
Inductive Entry := Collection (address : string) | Forced | Started (jupApiKey : string) (invalidator : bool) (t : Snapshots.table).
Inductive Step := Enter (e : Entry) (now : Z) | Answer (i : nat) (now : Z) (r : forall c, outcome (Ans c)).
Definition entry_event (e : Step) : WEvent Trend Call Ans Task :=
  match e with
  | Enter (Collection address) now => Begin _ (collectAssetSnapshot address) now
  | Enter Forced now => Begin _ forceSnapshot now
  | Enter (Started key inval t) now => Begin _ (startAssetTrendCollector key inval t) now
  | Answer i now r => Resume i now r
  end.

(** One collection at a time: however the interval, the dashboard and a start
    interleave, and however the requests settle, at most one collection is
    waiting, and the flag is clear once all have ended. *)
Theorem collection_alone s steps : snapshotInProgress s = false ->
  let w := foldl wstep (mkWorld s []) (map entry_event steps) in
  (forall i j c c', waits w i = Some c -> waits w j = Some c' -> i = j)
  /\ ((forall i th, threads w !! i = Some th -> th = Ended) -> snapshotInProgress (shared w) = false).
Proof.
  intros Hs w. destruct (flag_exclusion snapshotInProgress (fun _ : Call => true) s (map entry_event steps) Hs) as (H1 & _ & H3).
  - apply Forall_map, Forall_forall. intros [[address| |key inval t] now|i now r] _; simpl; [apply collect_exclusive|..|done].
    + apply exclusive_quiet. unfold forceSnapshot, collect_later. hold.
    + apply exclusive_quiet. unfold startAssetTrendCollector, collect_later. hold.
  - split; [|exact H3]. intros i j c c' Hi Hj. by apply (H1 i j c c').
Qed.

(** The interval fires while a collection forced from the dashboard waits. *)
Lemma collection_alone_witness :
  let steps := [Enter (Collection "W") 10; Enter Forced 11; Enter (Collection "W") 12]%string in
  let w := foldl wstep (mkWorld init []) (map entry_event steps) in
  (forall i j c c', waits w i = Some c -> waits w j = Some c' -> i = j)
  /\ waits w 0 = Some (Fetch "https://api.jup.ag/ultra/v1/holdings/W") /\ waits w 2 = None.
Proof.
  intros steps w. destruct (collection_alone init steps eq_refl) as [H _]. split; [exact H|split; reflexivity].
Defined.

End AssetTrendRules.
