(* ===== verification/Dac.v ===== *)
(** * Daily Auto-Convert ([src/executor/dac.ts])

    [Dac] is the state of the module with the part of [config] it reads and what
    it reads of the asset trend.  [Call] lists what a run awaits: the swap of
    [src/executor/jupiter-swap.ts] (modelled in [JupiterSwap]), the connection,
    the signer, the notification, the history in the database and timers.
    [PublicKey] and [getAssociatedTokenAddressSync] are the library's. *)

From Stdlib Require Import Ascii Floats.SpecFloat.
From S2P Require Import Prelude JsMap JsString JsNumber Json JsConvert Async TxTypes WriteChain Histories AssetTrend.
Open Scope Z_scope.
Open Scope list_scope.
Open Scope prog_scope.

Module Dac.
Import Async.

Definition USDC_MINT : string := "EPjFWdd5AufqSSqeM2qN1xzybapC8G4wEGGkZwyTDt1v".

(** [DAC_TOKEN_OPTIONS] of [src/config.ts] *)
Inductive TargetToken := cbbtc | xbtc.
#[export] Instance TargetToken_eq_dec : EqDecision TargetToken.
Proof. solve_decision. Defined.

Definition token_symbol (t : TargetToken) : string := match t with cbbtc => "cbBTC" | xbtc => "xBTC" end.
Definition token_mint (t : TargetToken) : string :=
  match t with
  | cbbtc => "cbbtcf3aa214zXHbiAZQwf4122FBYbraNdFqgw4iMij"
  | xbtc => "CtzPWv73Sn1dMGVU3ZtLv9yWSyUAanBni19YWDaznnkn"
  end.

(** [normalizeDacTargetToken] *)
Definition normalizeDacTargetToken (value : option Json) : TargetToken :=
  let raw := toLowerCase (trim (jstring (jor value (JStr "")))) in
  if bool_decide (raw = "xbtc"%string) then xbtc else cbbtc.

(** The settings of the job; the dashboard changes them. *)
Record DacConfig := mkDacConfig {
  dacEnabled : bool;
  cfgAmountUsd : num;
  dacThresholdMultiplier : num;
  dacExecuteHour : num;
  dacExecuteMinute : num;
  dacTransferTo : string;
  dacTargetToken : TargetToken;
}.

Inductive TransferIx :=
| CreateAssociatedTokenAccountIdempotent (payer ata owner mint : string)
| TransferChecked (source mint destination owner : string) (amount decimals : Z).

Record TransferTx := mkTransferTx { ixs : list TransferIx; recentBlockhash : string; feePayer : string }.

Inductive Call :=
| JupSwapExactIn (inputMint outputMint amount : string)
| TokenBalance (account : string)                (** answers amount and decimals *)
| LatestBlockhash                                (** answers the blockhash and its last valid height *)
| SignTransfer (tx : TransferTx)
| SendTransfer (signed : TransferTx)
| ConfirmTransfer (signature blockhash : string) (lastValidBlockHeight : Z)
| PostNotification (url : string) (payload : Json)
| ListDac                                      (** [histories.listDac], at most 365 records *)
| Timer (ms : Z).

Definition Ans (c : Call) : Type :=
  match c with
  | JupSwapExactIn _ _ _ => option string
  | TokenBalance _ => string * Z
  | LatestBlockhash => string * Z
  | SignTransfer _ => TransferTx
  | SendTransfer _ => string
  | ConfirmTransfer _ _ _ => option Json         (** [value.err] *)
  | PostNotification _ _ => bool
  | ListDac => list DacRecord
  | Timer _ => unit
  end.

Inductive Task := ForceSnapshot | UpdateEnvFile (updates : list (string * string)) | StartDacScheduler.

Abbreviation DChain := (WriteChain.WChain (T := Ring.table DacRecord)).

Record DacState := mkDacState {
  dacHistory : list DacRecord;
  dacRunning : bool;
  nextScheduledTime : Z;
  schedulerTimer : option Z;
  d_writes : DChain;
  d_config : DacConfig;
  d_tiers : AssetTrend.Tiers;      (** [getAssetTrend()] *)
}.

Definition with_running (b : bool) (s : DacState) : DacState :=
  mkDacState (dacHistory s) b (nextScheduledTime s) (schedulerTimer s) (d_writes s) (d_config s) (d_tiers s).
Definition with_timer (next : Z) (tm : option Z) (s : DacState) : DacState :=
  mkDacState (dacHistory s) (dacRunning s) next tm (d_writes s) (d_config s) (d_tiers s).
Definition with_history (h : list DacRecord) (c : DChain) (s : DacState) : DacState :=
  mkDacState h (dacRunning s) (nextScheduledTime s) (schedulerTimer s) c (d_config s) (d_tiers s).
Definition with_config (c : DacConfig) (s : DacState) : DacState :=
  mkDacState (dacHistory s) (dacRunning s) (nextScheduledTime s) (schedulerTimer s) (d_writes s) c (d_tiers s).

Abbreviation P := (Prog DacState Call Ans Task).

Definition jupSwapExactIn (i o a : string) : P (option string) := await (JupSwapExactIn i o a).
Definition tokenBalance (account : string) : P (string * Z) := await (TokenBalance account).
Definition timer (ms : Z) : P unit := await (Timer ms).
Definition getLatestBlockhash : P (string * Z) := await LatestBlockhash.
Definition signLegacy (tx : TransferTx) : P TransferTx := await (SignTransfer tx).
Definition sendRawTransaction (tx : TransferTx) : P string := await (SendTransfer tx).
Definition confirmTransaction (signature blockhash : string) (h : Z) : P (option Json) := await (ConfirmTransfer signature blockhash h).
Definition postNotification (url : string) (payload : Json) : P bool := await (PostNotification url payload).
Definition attempt {A} (m : P A) : P (outcome A) := after m ret.

(** *** Writes to a record *)

Definition upd (f : DacStatus * option string * num -> DacStatus * option string * num) (r : DacRecord) : DacRecord :=
  let '(st, re, pr) := f (status r, reason r, profitUsd r) in
  mkDac (d_ts r) pr (dacAmountUsd r) (cbbtcReceived r) (tokenReceived r) (tokenSymbol r) (tokenMint r) (swapSig r) (transferSig r)
    (transferTo r) st re.
Definition set_profit (p : num) : DacRecord -> DacRecord := upd (fun x => (x.1.1, x.1.2, p)).
Definition set_reason (m : string) : DacRecord -> DacRecord := upd (fun x => (x.1.1, Some m, x.2)).
Definition set_status (s : DacStatus) : DacRecord -> DacRecord := upd (fun x => (s, x.1.2, x.2)).
Definition failed (s : DacStatus) (m : string) : DacRecord -> DacRecord := upd (fun x => (s, Some m, x.2)).
Definition set_swapSig (sig : option string) (r : DacRecord) : DacRecord :=
  mkDac (d_ts r) (profitUsd r) (dacAmountUsd r) (cbbtcReceived r) (tokenReceived r) (tokenSymbol r) (tokenMint r) sig (transferSig r)
    (transferTo r) (status r) (reason r).
Definition set_transferSig (sig : string) (r : DacRecord) : DacRecord :=
  mkDac (d_ts r) (profitUsd r) (dacAmountUsd r) (cbbtcReceived r) (tokenReceived r) (tokenSymbol r) (tokenMint r) (swapSig r) (Some sig)
    (transferTo r) (status r) (reason r).
Definition set_received (t : string) (r : DacRecord) : DacRecord :=
  mkDac (d_ts r) (profitUsd r) (dacAmountUsd r) t (Some t) (tokenSymbol r) (tokenMint r) (swapSig r) (transferSig r)
    (transferTo r) (status r) (reason r).

(** [(Number(amount) / 10 ** decimals).toFixed(decimals)] *)
Definition ui_amount (amount decimals : Z) : outcome string :=
  if decimals <=? 100 then Ret (toFixed (ndiv (num_of_Z amount) (num_of_Z (10 ^ decimals))) (Z.to_nat decimals))
  else Throw "toFixed() digits argument must be between 0 and 100".

(** ** The profit *)

(** The value without SOL. *)
Definition exclSol (s : AssetSnapshot) : num :=
  nsub (nsub (field "totalUsd" s) (or_else (fields s !! "solBalanceUsd"%string) (num_of_Z 0)))
    (or_else (fields s !! "lockedSolUsd"%string) (num_of_Z 0)).

(** The newest daily snapshot before midnight in Taipei. *)
Definition baseline (now : Z) (daily : list AssetSnapshot) : option AssetSnapshot :=
  find_first (fun s => ts s <? Calendar.startOfTaipeiDay now) (reverse daily).

Definition profit_of (now : Z) (t : AssetTrend.Tiers) : num :=
  match baseline now (AssetTrend.daily t) with
  | None => num_of_Z 0
  | Some yesterday =>
      match AssetTrend.newest (AssetTrend.raw t) with
      | None => num_of_Z 0
      | Some today => nsub (exclSol today) (exclSol yesterday)
      end
  end.

Definition calculateProfit : P num :=
  let* _preRawLen := gets (fun s => length (AssetTrend.raw (d_tiers s))) in
  do* spawn ForceSnapshot in
  do* timer 15000 in
  let* trendData := gets d_tiers in
  let* now := clock in
  ret (profit_of now trendData).

(** ** A run *)

Section Run.
Context (PublicKey : string -> outcome string) (ataOf : string -> string -> outcome string).
Context (userAddress : string).

(** The transfer of what the swap brought in: the record as it is in the end. *)
Definition transfer_step (targetMintPubkey senderAta : string) (preSwapBalance : Z) (targetSymbol transferTo : string) (r : DacRecord)
    : P DacRecord :=
  let* got := attempt (
    let* destPubkey := lift (PublicKey transferTo) in
    let* destAta := lift (ataOf targetMintPubkey destPubkey) in
    do* timer 5000 in
    let* info := tokenBalance senderAta in
    let '(amount, decimals) := info : string * Z in
    let* postSwapBalance := lift (BigInt amount) in
    let transferAmount := postSwapBalance - preSwapBalance in
    let* text := lift (ui_amount transferAmount decimals) in
    ret (destPubkey, destAta, transferAmount, decimals, text)) in
  match got with
  | Throw e => ret (failed transfer_failed ("Transfer failed: " +:+ e)%string r)
  | Ret (destPubkey, destAta, transferAmount, decimals, text) =>
      let r := set_received text r in
      if transferAmount <=? 0 then ret (failed transfer_failed (targetSymbol +:+ " delta is 0 after swap")%string r)
      else
        let* sent := attempt (
          let* bh := getLatestBlockhash in
          let '(blockhash, lastValidBlockHeight) := bh : string * Z in
          let tx := mkTransferTx
            [CreateAssociatedTokenAccountIdempotent userAddress destAta destPubkey targetMintPubkey;
             TransferChecked senderAta targetMintPubkey destAta userAddress transferAmount decimals] blockhash userAddress in
          let* signedTx := signLegacy tx in
          let* sig := sendRawTransaction signedTx in
          let* _confirmed := confirmTransaction sig blockhash lastValidBlockHeight in
          ret sig) in
        match sent with
        | Ret sig => ret (set_status success (set_transferSig sig r))
        | Throw e => ret (failed transfer_failed ("Transfer failed: " +:+ e)%string r)
        end
  end.

(** Without a recipient the balance is read for the record only. *)
Definition balance_step (senderAta : string) (preSwapBalance : Z) (r : DacRecord) : P DacRecord :=
  let r := set_status success r in
  catch
    (do* timer 5000 in
     let* info := tokenBalance senderAta in
     let '(amount, decimals) := info : string * Z in
     let* postBalance := lift (BigInt amount) in
     let* text := lift (ui_amount (postBalance - preSwapBalance) decimals) in
     ret (set_received text r))
    (fun _ => ret r).

(** From the profit on: the record as it was written, and an exception. *)
Definition swap_and_transfer (record : DacRecord) (dacAmountUsd thresholdMultiplier : num)
    (transferTo targetMint targetSymbol : string) (skipProfitCheck : bool) (profit : num) : P (DacRecord * outcome unit) :=
  let record := set_profit (AssetTrend.rounded 2 profit) record in
  let threshold := nmul dacAmountUsd thresholdMultiplier in
  if negb skipProfitCheck && nlt profit threshold then
    ret (set_reason ("profit $" +:+ toFixed profit 2 +:+ " below threshold $" +:+ toFixed threshold 2)%string record, Ret tt)
  else
    let* swapped := attempt (
      let* targetMintPubkey := lift (PublicKey targetMint) in
      let* senderAta := lift (ataOf targetMintPubkey userAddress) in
      let* preSwapBalance :=
        catch (let* info := tokenBalance senderAta in
               let '(amount, _) := info : string * Z in
               lift (BigInt amount))
              (fun _ => ret 0) in
      let rawAmount := floor_num (nmul dacAmountUsd (num_of_Z 1000000)) in
      let* swapSig := jupSwapExactIn USDC_MINT targetMint (num_toString rawAmount) in
      ret (targetMintPubkey, senderAta, preSwapBalance, swapSig)) in
    match swapped with
    | Throw e => ret (record, Throw e)
    | Ret (targetMintPubkey, senderAta, preSwapBalance, swapSig) =>
        let record := set_swapSig swapSig record in
        if negb (truthy swapSig) then ret (failed swap_failed "Jupiter swap returned null" record, Ret tt)
        else
          let* record' :=
            if truthy transferTo then transfer_step targetMintPubkey senderAta preSwapBalance targetSymbol transferTo record
            else balance_step senderAta preSwapBalance record in
          ret (record', Ret tt)
    end.

Definition executeDacSwapAndTransfer (record : DacRecord) (dacAmountUsd thresholdMultiplier : num)
    (transferTo targetMint targetSymbol : string) (skipProfitCheck : bool) : P (DacRecord * outcome unit) :=
  let* p := attempt calculateProfit in
  match p with
  | Throw e => ret (record, Throw e)
  | Ret profit =>
      swap_and_transfer record dacAmountUsd thresholdMultiplier transferTo targetMint targetSymbol skipProfitCheck profit
  end.

(** [config.x || d] *)
Definition num_or (x : num) (d : Z) : num := if truthy x then x else num_of_Z d.

(** The record of a run that does not take place. *)
Definition skipped_record (c : DacConfig) (now : Z) (why : string) : DacRecord :=
  mkDac now (num_of_Z 0) (num_or (cfgAmountUsd c) 0) "" (Some ""%string) (Some (token_symbol (dacTargetToken c)))
    (Some (token_mint (dacTargetToken c))) None None (dacTransferTo c) skipped (Some why).

Definition alreadyRanToday (now : Z) (h : list DacRecord) : bool :=
  some (fun r => bool_decide (status r = success) && (Calendar.startOfTaipeiDay now <=? d_ts r)) h.

(** The label of a status in the notification. *)
Definition statusLabel (s : DacStatus) : string :=
  match s with success => "成功" | skipped => "跳過" | swap_failed => "兌換失敗" | transfer_failed => "轉帳失敗" end.

Definition status_name (s : DacStatus) : string :=
  match s with success => "success" | skipped => "skipped" | swap_failed => "swap_failed" | transfer_failed => "transfer_failed" end.

(** The notification of a record; [localTime] is [toLocaleString] for Taipei. *)
Definition dac_payload (localTime : Z -> string) (apiKey version : string) (r : DacRecord) : outcome Json :=
  let row name value := JObj [("name", JStr name); ("value", JStr value)]%string in
  let opt name (v : option string) := match v with Some x => if truthy x then [row name x] else [] | None => [] end in
  let sym := or_else (tokenSymbol r) "cbBTC"%string in
  let received := or_else (tokenReceived r) (cbbtcReceived r) in
  let! iso := Calendar.toISOString (d_ts r) in
  let utcStr := (String.substring 0 10 iso +:+ " " +:+ String.substring 11 8 iso +:+ " UTC")%string in
  let amount := num_toString (dacAmountUsd r) in
  let fields_ :=
    [row "狀態" (statusLabel (status r)); row "昨日獲利" ("$" +:+ toFixed (profitUsd r) 2)%string; row "購買金額" ("$" +:+ amount)%string]
    ++ (if truthy received then [row ("收到 " +:+ sym) received]%string else [])
    ++ opt "兌換交易" (swapSig r) ++ opt "轉帳交易" (transferSig r) ++ opt "轉帳地址" (Some (transferTo r)) ++ opt "原因" (reason r)
    ++ [row "時間" (localTime (d_ts r) +:+ " (UTC+8)" +:+ char_of 10 +:+ utcStr)%string] in
  Ret (JObj [("wallet", JStr userAddress); ("apiKey", JStr apiKey); ("type", JStr "dac");
             ("title", JStr ("DAC " +:+ statusLabel (status r)));
             ("description", JStr (if bool_decide (status r = success) then "每日定投：$" +:+ amount +:+ " USDC → " +:+ received +:+ " " +:+ sym
                                   else or_else (reason r) (status_name (status r))));
             ("timestamp", JStr iso); ("fields", JArr fields_); ("version", JStr version)]%string).

Context (localTime : Z -> string) (discordNotifyUrl apiKey version : string).

Definition sendDacNotification (r : DacRecord) : P unit :=
  if negb (truthy discordNotifyUrl) then ret tt
  else
    let* payload := lift (dac_payload localTime apiKey version r) in
    catch (let* _ok := postNotification discordNotifyUrl payload in ret tt) (fun _ => ret tt).

(** The exception of a run, recorded. *)
Definition settled (r : DacRecord * outcome unit) : DacRecord :=
  match r with
  | (record, Ret _) => record
  | (record, Throw e) => failed swap_failed ("Unexpected error: " +:+ e)%string record
  end.

(** The record a run starts with. *)
Definition blank_record (c : DacConfig) (ts0 : Z) : DacRecord :=
  mkDac ts0 (num_of_Z 0) (num_or (cfgAmountUsd c) 0) "" (Some ""%string) (Some (token_symbol (dacTargetToken c)))
    (Some (token_mint (dacTargetToken c))) None None (dacTransferTo c) skipped None.

(** The body of a run after its guards: the record. *)
Definition dac_body (c : DacConfig) (skipProfitCheck : bool) (ts0 : Z) : P DacRecord :=
  let amount := num_or (cfgAmountUsd c) 0 in
  let thresholdMultiplier := num_or (dacThresholdMultiplier c) 1 in
  let targetMint := token_mint (dacTargetToken c) in
  let targetSymbol := token_symbol (dacTargetToken c) in
  let record := blank_record c ts0 in
  if nle amount (num_of_Z 0) then ret (set_reason "dacAmountUsd is 0 or negative, skipping" record)
  else
    let* r := executeDacSwapAndTransfer record amount thresholdMultiplier (dacTransferTo c) targetMint targetSymbol skipProfitCheck in
    ret (settled r).

Definition record_run (r : DacRecord) (s : DacState) : DacState :=
  with_history (Ring.remember MAX_DAC_HISTORY r (dacHistory s)) (WriteChain.push (pushDac r) (d_writes s)) s.

Definition finish (record : DacRecord) : P DacRecord :=
  do* modify (record_run record) in
  do* sendDacNotification record in
  ret record.

Definition triggerDac (skipProfitCheck : bool) : P DacRecord :=
  let* running := gets dacRunning in
  let* c := gets d_config in
  if running : bool then let* now := clock in ret (skipped_record c now "Another DAC run already in progress")
  else
    do* modify (with_running true) in
    let* already :=
      if skipProfitCheck then ret false
      else let* now := clock in let* h := gets dacHistory in ret (alreadyRanToday now h) in
    if already : bool then
      do* modify (with_running false) in
      let* now := clock in
      ret (skipped_record c now "Already ran successfully today")
    else
      let* ts0 := clock in
      let* record := finally (dac_body c skipProfitCheck ts0) (modify (with_running false)) in
      finish record.

(** ** The schedule *)

Definition num_int (x : num) : Z := default 0 (floorZ x).

Definition scheduleNextDac : P unit :=
  let* c := gets d_config in
  if dacEnabled c then
    let* now := clock in
    let ms := Calendar.msUntilNextDac (num_int (dacExecuteHour c)) (num_int (num_or (dacExecuteMinute c) 0)) now in
    let* now' := clock in
    modify (with_timer (now' + ms) (Some ms))
  else ret tt.

(** The callback of the timer. *)
Definition on_timer : P unit :=
  do* catch (do* triggerDac false in ret tt) (fun _ => ret tt) in
  scheduleNextDac.

Definition loadDacHistory : P unit :=
  let* rows := await ListDac in
  modify (fun s => with_history rows (WriteChain.enable (d_writes s)) s).

Definition startDacScheduler : P unit :=
  do* loadDacHistory in
  let* c := gets d_config in
  if dacEnabled c then scheduleNextDac else ret tt.

Definition stopDacScheduler : P unit := modify (fun s => with_timer (nextScheduledTime s) None s).

Definition flushDacHistory (att : WriteChain.Db) (s : DacState) (t : Ring.table DacRecord) : DacState * Ring.table DacRecord :=
  let (c, t') := WriteChain.drain att (d_writes s) t in (with_history (dacHistory s) c s, t').

Definition getDacHistory (s : DacState) : list DacRecord := dacHistory s.
Definition getDacNextScheduledTime (s : DacState) : Z := nextScheduledTime s.

(** ** The settings from the dashboard (POST /api/dac/config)

    Fields are applied in order; an invalid address ends the request, and what
    was applied before it stays. *)

Definition config_field (body : Json) (k : string) : option Json := jopt (Some body) k.

Definition in_range (lo hi : Z) (v : num) : bool := negb (is_nan v) && nle (num_of_Z lo) v && nle v (num_of_Z hi).
Definition positive (v : num) : bool := negb (is_nan v) && nlt (num_of_Z 0) v.

Definition set_enabled (v : Json) (c : DacConfig) := mkDacConfig (truthy v) (cfgAmountUsd c) (dacThresholdMultiplier c)
  (dacExecuteHour c) (dacExecuteMinute c) (dacTransferTo c) (dacTargetToken c).
Definition set_amount (v : num) (c : DacConfig) := mkDacConfig (dacEnabled c) v (dacThresholdMultiplier c)
  (dacExecuteHour c) (dacExecuteMinute c) (dacTransferTo c) (dacTargetToken c).
Definition set_multiplier (v : num) (c : DacConfig) := mkDacConfig (dacEnabled c) (cfgAmountUsd c) v
  (dacExecuteHour c) (dacExecuteMinute c) (dacTransferTo c) (dacTargetToken c).
Definition set_hour (v : num) (c : DacConfig) := mkDacConfig (dacEnabled c) (cfgAmountUsd c) (dacThresholdMultiplier c)
  v (dacExecuteMinute c) (dacTransferTo c) (dacTargetToken c).
Definition set_minute (v : num) (c : DacConfig) := mkDacConfig (dacEnabled c) (cfgAmountUsd c) (dacThresholdMultiplier c)
  (dacExecuteHour c) v (dacTransferTo c) (dacTargetToken c).
Definition set_transferTo (v : string) (c : DacConfig) := mkDacConfig (dacEnabled c) (cfgAmountUsd c) (dacThresholdMultiplier c)
  (dacExecuteHour c) (dacExecuteMinute c) v (dacTargetToken c).
Definition set_token (v : TargetToken) (c : DacConfig) := mkDacConfig (dacEnabled c) (cfgAmountUsd c) (dacThresholdMultiplier c)
  (dacExecuteHour c) (dacExecuteMinute c) (dacTransferTo c) v.

(** A number field: parsed, applied when it passes. *)
Definition number_field (body : Json) (k env : string) (parse : string -> num) (ok : num -> bool) (set : num -> DacConfig -> DacConfig)
    (st : DacConfig * list (string * string)) : DacConfig * list (string * string) :=
  match config_field body k with
  | None => st
  | Some v =>
      let x := parse (jstring v) in
      if ok x then (set x st.1, st.2 ++ [(env, num_toString x)]) else st
  end.

(** The configuration, the updates of the environment file, and the error. *)
Definition apply_dac_config (body : Json) (c : DacConfig) : DacConfig * list (string * string) * option string :=
  let st := (c, []) in
  let st := match config_field body "enabled" with
            | Some v => (set_enabled v st.1, st.2 ++ [("DAC_ENABLED", if truthy v then "true" else "false")]%string)
            | None => st
            end in
  let st := number_field body "amountUsd" "DAC_AMOUNT_USD" parseFloat positive set_amount st in
  let st := number_field body "thresholdMultiplier" "DAC_THRESHOLD_MULTIPLIER" parseFloat positive set_multiplier st in
  let st := number_field body "executeHour" "DAC_EXECUTE_HOUR" parseInt (in_range 0 23) set_hour st in
  let st := number_field body "executeMinute" "DAC_EXECUTE_MINUTE" parseInt (in_range 0 59) set_minute st in
  let addr := match config_field body "transferTo" with Some v => Some (trim (jstring v)) | None => None end in
  match addr with
  | Some a =>
      match (if truthy a then PublicKey a else Ret a) with
      | Throw _ => (st.1, [], Some ("Invalid Solana address: " +:+ a)%string)
      | Ret _ =>
          let st := (set_transferTo a st.1, st.2 ++ [("DAC_TRANSFER_TO", a)]%string) in
          match config_field body "targetToken" with
          | Some v => (set_token (normalizeDacTargetToken (Some v)) st.1,
                       st.2 ++ [("DAC_TARGET_TOKEN", match normalizeDacTargetToken (Some v) with xbtc => "xbtc" | cbbtc => "cbbtc" end)]%string, None)
          | None => (st.1, st.2, None)
          end
      end
  | None =>
      match config_field body "targetToken" with
      | Some v => (set_token (normalizeDacTargetToken (Some v)) st.1,
                   st.2 ++ [("DAC_TARGET_TOKEN", match normalizeDacTargetToken (Some v) with xbtc => "xbtc" | cbbtc => "cbbtc" end)]%string, None)
      | None => (st.1, st.2, None)
      end
  end.

Definition needsReschedule (envUpdates : list (string * string)) : bool :=
  existsb (fun k => jhas k envUpdates) ["DAC_ENABLED"; "DAC_EXECUTE_HOUR"; "DAC_EXECUTE_MINUTE"]%string.

(** The handler: the new settings, the environment file, then the schedule, which is
    started again without waiting for it. *)
Definition post_dac_config (body : Json) : P (option string) :=
  let* c := gets d_config in
  let '(c', env, err) := apply_dac_config body c in
  do* modify (with_config c') in
  match err with
  | Some e => ret (Some e)
  | None =>
      do* (if bool_decide (env = []) then ret tt else spawn (UpdateEnvFile env)) in
      do* (if needsReschedule env then do* stopDacScheduler in spawn StartDacScheduler else ret tt) in
      ret None
  end.

End Run.

End Dac.
