(* ===== verification/DacRules.v ===== *)
(** * What the daily conversion guarantees

    [Exclusion]: in every interleaving of the timer, manual triggers and
    settings at most one run spends.  [Spending]: what a run swaps, signs and
    sends, and what its record says.  [Schedule]: the settings keep the timer
    valid, and the history survives a restart. *)

From Stdlib Require Import Ascii Floats.SpecFloat.
From S2P Require Import Prelude JsMap JsString JsNumber Json JsConvert Async WriteChain Histories AssetTrend Dac.
Open Scope Z_scope.
Open Scope list_scope.

Module DacRules.
Import Async AsyncMore Dac.

Abbreviation Hist := (list (HEvent Call Ans Task)).

(** ** One run at a time *)

Section Exclusion.
Context (PublicKey : string -> outcome string) (ataOf : string -> string -> outcome string).
Context (userAddress : string) (localTime : Z -> string) (discordNotifyUrl apiKey version : string).

(** All a run awaits but the notification, which is sent after the flag is clear;
    the start of the scheduler awaits the history. *)
Definition guarded (c : Call) : bool := match c with PostNotification _ _ | ListDac => false | _ => true end.

Abbreviation steady := (fun s s' : DacState => dacRunning s' = dacRunning s).
Abbreviation holds := (always (Task := Task) steady (fun _ => True)).
Abbreviation excl := (exclusive (Task := Task) (Ans := Ans) dacRunning guarded).

Lemma body_holds c skip ts0 : holds (dac_body PublicKey ataOf userAddress c skip ts0).
Proof. unfold dac_body, executeDacSwapAndTransfer, swap_and_transfer, calculateProfit, transfer_step, balance_step, attempt. cbv zeta. hold. Qed.

Lemma notification_quiet r : always steady (fun c => guarded c = false) (sendDacNotification userAddress localTime discordNotifyUrl apiKey version r).
Proof. unfold sendDacNotification. hold. Qed.

Abbreviation trigger := (triggerDac PublicKey ataOf userAddress localTime discordNotifyUrl apiKey version).

Lemma modify_same (f : DacState -> DacState) : (forall s, dacRunning (f s) = dacRunning s) -> excl (modify f).
Proof. intros H. apply exclusive_quiet, always_modify, H. Qed.

Lemma quiet_get {A} (f : DacState -> A) : excl (gets f).
Proof. apply exclusive_quiet, always_gets. Qed.
Lemma quiet_clock : excl clock.
Proof. apply exclusive_quiet, always_clock. Qed.
Lemma quiet_ret {A} (a : A) : excl (ret a).
Proof. apply exclusive_quiet, always_done. Qed.

(** The flag is taken where it was read as clear, and given back in every case. *)
Lemma trigger_exclusive skip : excl (trigger skip).
Proof.
  intros s. unfold triggerDac. cbn [wp bind after gets ret]. destruct (dacRunning s) eqn:Hs; [done|].
  cbn [wp bind after modify ret gets clock]. exists true. split; [by split|].
  assert (forall s1, wp (flag_logic (Task := Task) dacRunning guarded) (let* ts0 := clock in
    let* record := finally (dac_body PublicKey ataOf userAddress (d_config s) skip ts0) (modify (with_running false)) in
    finish userAddress localTime discordNotifyUrl apiKey version record)%prog true s1 (fun _ g _ => g = false)) as Hbody.
  { intros s1 t. apply wp_bind. apply wp_finally. eapply wp_mono; [apply holding, body_holds|].
    intros r g s2 ->. apply wp_modify with (g' := false); [done|]. destruct r as [r|e]; [|done].
    apply wp_bind. apply wp_modify with (g' := false); [done|]. apply exclusive_bind; [|intros ?; apply quiet_ret].
    apply exclusive_quiet, notification_quiet. }
  destruct skip; cbn [wp bind after ret gets clock]; [apply Hbody|].
  intros t. destruct (alreadyRanToday _ _); [|apply Hbody].
  cbn [wp bind after modify ret clock]. exists false. by split.
Qed.

Lemma schedule_exclusive : excl scheduleNextDac.
Proof. apply exclusive_quiet. unfold scheduleNextDac. hold. Qed.

Lemma timer_exclusive : excl (on_timer PublicKey ataOf userAddress localTime discordNotifyUrl apiKey version).
Proof.
  apply exclusive_bind; [|intros ?; apply schedule_exclusive].
  intros s. apply wp_catch. apply wp_bind. eapply wp_mono; [apply trigger_exclusive|]. by intros [r|e] g s' ->.
Qed.

Lemma start_exclusive : excl startDacScheduler.
Proof. apply exclusive_quiet. unfold startDacScheduler, loadDacHistory, scheduleNextDac. hold. Qed.

Lemma post_exclusive body : excl (post_dac_config PublicKey body).
Proof.
  apply exclusive_quiet. unfold post_dac_config, stopDacScheduler. hold.
Qed.

(** What begins an activation of the job. *)
Inductive Entry := Trigger (skipProfitCheck : bool) | OnTimer | Start | PostConfig (body : Json).
Inductive Step := Enter (e : Entry) (now : Z) | Answer (i : nat) (now : Z) (r : forall c, outcome (Ans c)).
Definition event (e : Step) : WEvent DacState Call Ans Task :=
  match e with
  | Enter (Trigger skip) now => Begin _ (trigger skip) now
  | Enter OnTimer now => Begin _ (on_timer PublicKey ataOf userAddress localTime discordNotifyUrl apiKey version) now
  | Enter Start now => Begin _ startDacScheduler now
  | Enter (PostConfig body) now => Begin _ (post_dac_config PublicKey body) now
  | Answer i now r => Resume i now r
  end.

(** C19: One run of the daily conversion at a time: however the timer, manual
    triggers, the start of the scheduler and changes of the settings interleave,
    and however the calls settle, at most one activation is waiting on a balance,
    the swap, the signer or the transfer; the flag is set while one is, and once
    all have ended - by a result or by an exception - the flag is clear, so that
    the next trigger is not turned away. *)
Theorem dac_runs_alone s steps : dacRunning s = false ->
  let w := foldl wstep (mkWorld s []) (map event steps) in
  (forall i j c c', waits w i = Some c -> waits w j = Some c' -> guarded c = true -> guarded c' = true -> i = j)
  /\ (forall i c, waits w i = Some c -> guarded c = true -> dacRunning (shared w) = true)
  /\ ((forall i th, threads w !! i = Some th -> th = Ended) -> dacRunning (shared w) = false).
Proof.
  intros Hs. apply flag_exclusion; [done|]. apply Forall_map, Forall_forall. intros [[skip| | |body] now|i now r] _; simpl.
  - apply trigger_exclusive.
  - apply timer_exclusive.
  - apply start_exclusive.
  - apply post_exclusive.
  - done.
Qed.

End Exclusion.

Definition demo_config : DacConfig :=
  mkDacConfig true (num_of_Z 10) (num_of_Z 1) (num_of_Z 9) (num_of_Z 30) "Dest" cbbtc.
Definition demo_state : DacState :=
  mkDacState [] false 0 None (WriteChain.new_chain []) demo_config (AssetTrend.mkTiers [] [] [] 0 0).
Definition demo_key (s : string) : outcome string := Ret s.
Definition demo_ata (mint owner : string) : outcome string := Ret (mint +:+ owner)%string.

(** The timer fires; a manual trigger while the snapshot is awaited is turned away. *)
Lemma dac_runs_alone_witness :
  let ev := event demo_key demo_ata "Me" (fun _ => ""%string) "" "" "" in
  let w := foldl wstep (mkWorld demo_state []) (map ev [Enter OnTimer 0; Enter (Trigger true) 5]) in
  waits w 0 = Some (Timer 15000) /\ waits w 1 = None /\ dacRunning (shared w) = true.
Proof.
  set (steps := [Enter OnTimer 0; Enter (Trigger true) 5]).
  destruct (dac_runs_alone demo_key demo_ata "Me" (fun _ => ""%string) "" "" "" demo_state steps eq_refl) as (_ & H & _).
  split; [vm_compute; reflexivity|]. split; [vm_compute; reflexivity|].
  apply (H 0%nat (Timer 15000)); vm_compute; reflexivity.
Defined.

(** ** What a run spends *)

Section Spending.
Context (PublicKey : string -> outcome string) (ataOf : string -> string -> outcome string).
Context (userAddress : string) (localTime : Z -> string) (discordNotifyUrl apiKey version : string).

Abbreviation answers := (fun h : Hist => h).

(** The swaps asked for with their answers, the balances read, the transfers sent. *)
Definition swaps (h : Hist) : list (outcome (option string)) :=
  omap (fun e : HEvent Call Ans Task => match e with Called (JupSwapExactIn _ _ _) r => Some (r : outcome (option string)) | _ => None end) h.
Definition balances (h : Hist) : list (string * outcome (string * Z)) :=
  omap (fun e : HEvent Call Ans Task => match e with Called (TokenBalance a) r => Some (a, r : outcome (string * Z)) | _ => None end) h.
Definition sends (h : Hist) : list (outcome string) :=
  omap (fun e : HEvent Call Ans Task => match e with Called (SendTransfer _) r => Some (r : outcome string) | _ => None end) h.
Definition confirmed (h : Hist) : list string :=
  omap (fun e : HEvent Call Ans Task => match e with Called (ConfirmTransfer sig _ _) (Ret _) => Some sig | _ => None end) h.

(** The balance before the swap: none when it cannot be read. *)
Definition before (r : outcome (string * Z)) : Z :=
  match r with Ret (a, _) => match BigInt a with Ret z => z | Throw _ => 0 end | Throw _ => 0 end.

(** The one swap that succeeded. *)
Definition swapped_as (h : Hist) (sig : string) : Prop := swaps h = [Ret (Some sig)] /\ truthy sig = true.

(** The order of a configuration. *)
Definition ordered (c : DacConfig) (i o a : string) : Prop :=
  nle (num_or (cfgAmountUsd c) 0) (num_of_Z 0) = false /\ i = USDC_MINT /\ o = token_mint (dacTargetToken c)
  /\ a = num_toString (floor_num (nmul (num_or (cfgAmountUsd c) 0) (num_of_Z 1000000))).

(** The transfer of the rise of the balance over the swap to the recipient. *)
Definition transfers (c : DacConfig) (h : Hist) (tx : TransferTx) : Prop :=
  exists mint src dest destAta r0 bal dec post,
    PublicKey (token_mint (dacTargetToken c)) = Ret mint /\ ataOf mint userAddress = Ret src
    /\ PublicKey (dacTransferTo c) = Ret dest /\ ataOf mint dest = Ret destAta
    /\ balances h = [(src, Ret (bal, dec)); (src, r0)] /\ BigInt bal = Ret post /\ 0 < post - before r0
    /\ ixs tx = [CreateAssociatedTokenAccountIdempotent userAddress destAta dest mint;
                 TransferChecked src mint destAta userAddress (post - before r0) dec] /\ feePayer tx = userAddress.

(** Every call, judged by what was done before it. *)
Definition lawful (c : DacConfig) (h : Hist) (call : Call) : Prop :=
  match call with
  | JupSwapExactIn i o a => swaps h = [] /\ ordered c i o a
  | SignTransfer tx => (exists sig, swapped_as h sig) /\ transfers c h tx
  | SendTransfer tx => sends h = [] /\ exists asked h', h = Called (SignTransfer asked) (Ret tx) :: h'
  | ConfirmTransfer sig _ _ => exists tx h', h = Called (SendTransfer tx) (Ret sig) :: h'
  | _ => True
  end.

(** What a record says against what was done. *)
Definition accounted (c : DacConfig) (h : Hist) (r : DacRecord) : Prop :=
  (status r = skipped -> swaps h = [] /\ swapSig r = None)
  /\ (status r = success -> exists sig, swapped_as h sig /\ swapSig r = Some sig
       /\ (truthy (dacTransferTo c) = true -> exists tsig, sends h = [Ret tsig] /\ tsig ∈ confirmed h /\ transferSig r = Some tsig))
  /\ (status r = transfer_failed -> exists sig, swapped_as h sig /\ swapSig r = Some sig /\ transferSig r = None)
  /\ (status r = swap_failed -> forall sig, Ret (Some sig) ∈ swaps h -> truthy sig = false).

Abbreviation LW c := (call_logic (Task := Task) (lawful c) (fun _ _ : DacState => True) (fun _ _ => True)).

(** The start of a run: the snapshot asked for, nothing spent. *)
Definition fresh (h : Hist) : Prop := swaps h = [] /\ balances h = [] /\ sends h = [].

Abbreviation transfer := (transfer_step PublicKey ataOf userAddress).
Abbreviation spend := (swap_and_transfer PublicKey ataOf userAddress).

(** A transfer that does not take place or fails. *)
Lemma accounted_failed c h r sig why : swapped_as h sig -> swapSig r = Some sig -> transferSig r = None ->
  accounted c h (failed transfer_failed why r).
Proof. intros Hs Hr Ht. split_and!; try done. intros _. by exists sig. Qed.

#[local] Ltac reduce := cbn [wp bind after catch attempt lift ret throw await l_pre l_ok l_rely l_post call_logic].
#[local] Ltac step :=
  lazymatch goal with
  | |- lawful _ _ _ /\ _ => split; [exact I|intros ? ? _ _]
  | |- True /\ _ => split; [exact I|intros ? ? _ _]
  end; reduce.
#[local] Ltac steps := reduce; repeat step.

#[local] Ltac not_sent := eexists; split; [reflexivity|]; eapply accounted_failed; [eassumption|reflexivity || eassumption..].

Lemma wp_transfer c mint src r0 sym sig r h s :
  PublicKey (token_mint (dacTargetToken c)) = Ret mint -> ataOf mint userAddress = Ret src ->
  swapped_as h sig -> balances h = [(src, r0)] -> sends h = [] -> swapSig r = Some sig -> transferSig r = None ->
  truthy (dacTransferTo c) = true ->
  wp (LW c) (transfer mint src (before r0) sym (dacTransferTo c) r) h s
    (fun x h' _ => exists r', x = Ret r' /\ accounted c h' r').
Proof.
  intros Hm Ha Hsw Hb Hse Hrs Hrt Ht. unfold transfer_step, timer, tokenBalance.
  destruct (PublicKey (dacTransferTo c)) as [dest|e] eqn:Hd; steps.
  2: { not_sent. }
  destruct (ataOf mint dest) as [destAta|e] eqn:Hda; steps.
  2: { not_sent. }
  destruct r1 as [[]|e]; steps.
  2: { not_sent. }
  destruct r1 as [[bal dec]|e]; steps.
  2: { not_sent. }
  destruct (BigInt bal) as [post|e] eqn:Hpost; steps.
  2: { not_sent. }
  destruct (ui_amount (post - before r0) dec) as [text|e]; steps.
  2: { not_sent. }
  destruct (post - before r0 <=? 0) eqn:Hpos; steps.
  { not_sent. }
  unfold getLatestBlockhash, signLegacy, sendRawTransaction, confirmTransaction. steps.
  destruct r1 as [[bh lv]|e]; steps.
  2: { not_sent. }
  split; [|intros [signed|e] s3 _ _; steps].
  { split; [by exists sig|]. exists mint, src, dest, destAta, r0, bal, dec, post. split_and!; try done; [|lia].
    transitivity ((src, Ret (bal, dec)) :: balances h); [done|by rewrite Hb]. }
  2: { not_sent. }
  split; [split; [done|by eexists _, _]|]. intros [tsig|e] s4 _ _; steps.
  2: { not_sent. }
  split; [by eexists _, _|]. intros [err|e] s5 _ _; steps.
  2: { not_sent. }
  eexists. split; [done|]. split_and!; try done. intros _. exists sig. split; [exact Hsw|]. split; [done|].
  intros _. exists tsig. split_and!; [|apply list_elem_of_here|done]. transitivity (Ret tsig :: sends h); [done|by rewrite Hse].
Qed.

#[local] Ltac held Hacc := eexists; split; [reflexivity|]; apply Hacc; [reflexivity|reflexivity|eassumption].

Lemma wp_balance c src r0 sig r h s :
  swapped_as h sig -> swapSig r = Some sig -> truthy (dacTransferTo c) = false ->
  wp (LW c) (balance_step src (before r0) r) h s (fun x h' _ => exists r', x = Ret r' /\ accounted c h' r').
Proof.
  intros Hsw Hrs Ht. unfold balance_step, timer, tokenBalance. steps.
  assert (forall h' r', swaps h' = swaps h -> status r' = success -> swapSig r' = Some sig -> accounted c h' r') as Hacc.
  { intros h' r' Hh Hst Hsg. unfold accounted. rewrite Hst. split_and!; try done. intros _. exists sig. destruct Hsw as [Hs1 Hs2].
    split; [split; [by rewrite Hh|done]|]. split; [done|]. by rewrite Ht. }
  destruct r1 as [[]|e]; steps; [|held Hacc].
  destruct r1 as [[bal dec]|e]; steps; [|held Hacc].
  destruct (BigInt bal) as [post|e]; steps; [|held Hacc].
  destruct (ui_amount (post - before r0) dec) as [text|e]; steps; held Hacc.
Qed.

(** What the swap brought back. *)
Definition swap_result (c : DacConfig) (h : Hist) (r : outcome (string * string * Z * option string)) : Prop :=
  match r with
  | Throw _ => forall sig, Ret (Some sig) ∈ swaps h -> truthy sig = false
  | Ret (mint, src, pre, sig) =>
      PublicKey (token_mint (dacTargetToken c)) = Ret mint /\ ataOf mint userAddress = Ret src
      /\ swaps h = [Ret sig] /\ sends h = [] /\ exists r0, balances h = [(src, r0)] /\ pre = before r0
  end.

(** Several steps of [swap_and_transfer] up to the swap. *)
Lemma wp_swap c h s : fresh h -> nle (num_or (cfgAmountUsd c) 0) (num_of_Z 0) = false ->
  wp (LW c) (let* targetMintPubkey := lift (PublicKey (token_mint (dacTargetToken c))) in
    let* senderAta := lift (ataOf targetMintPubkey userAddress) in
    let* preSwapBalance :=
      catch (let* info := tokenBalance senderAta in let '(amount, _) := info : string * Z in lift (BigInt amount)) (fun _ => ret 0) in
    let rawAmount := floor_num (nmul (num_or (cfgAmountUsd c) 0) (num_of_Z 1000000)) in
    let* swapSig := jupSwapExactIn USDC_MINT (token_mint (dacTargetToken c)) (num_toString rawAmount) in
    ret (targetMintPubkey, senderAta, preSwapBalance, swapSig))%prog h s (fun r h' _ => swap_result c h' r).
Proof.
  intros (Hf1 & Hf2 & Hf3) Hpos. unfold tokenBalance, jupSwapExactIn.
  assert (forall why, swap_result c h (Throw why)) as Hnone by (intros why sig; rewrite Hf1; by intros ?%list.elem_of_nil).
  destruct (PublicKey _) as [mint|e] eqn:Hm; steps; [|apply Hnone].
  destruct (ataOf mint userAddress) as [src|e] eqn:Hs; steps; [|apply Hnone].
  assert (forall r0 pre, pre = before r0 -> wp (LW c)
    (let* swapSig := await (JupSwapExactIn USDC_MINT (token_mint (dacTargetToken c))
       (num_toString (floor_num (nmul (num_or (cfgAmountUsd c) 0) (num_of_Z 1000000))))) in
     ret (mint, src, pre, swapSig))%prog (Called (TokenBalance src) r0 :: h) s'
     (fun r h' _ => swap_result c h' r)) as Hswap.
  { intros r0 pre ->. steps. split; [split; [exact Hf1|by split_and!]|]. intros [sig|e] s2 _ _; steps; cbn [swap_result].
    - split_and!; [done|done|transitivity (Ret sig :: swaps h); [done|by rewrite Hf1]|exact Hf3|].
      exists r0. split; [|done]. transitivity ((src, r0) :: balances h); [done|by rewrite Hf2].
    - intros sig Hin. assert (Ret (Some sig) ∈ (Throw e : outcome (option string)) :: swaps h) as Hin' by exact Hin.
      rewrite Hf1 in Hin'. by apply list_elem_of_singleton in Hin'. }
  destruct r as [[a d]|e]; steps; [|by apply (Hswap (Throw e))].
  destruct (BigInt a) as [z|e] eqn:Hz; steps; apply (Hswap (Ret (a, d))); cbn; by rewrite Hz.
Qed.

Lemma accounted_swap_failed c h r why : (forall sig, Ret (Some sig) ∈ swaps h -> truthy sig = false) ->
  accounted c h (failed swap_failed why r).
Proof. intros H. by split_and!. Qed.

Lemma wp_spend c record mult sym skip profit h s :
  fresh h -> status record = skipped -> swapSig record = None -> transferSig record = None ->
  nle (num_or (cfgAmountUsd c) 0) (num_of_Z 0) = false ->
  wp (LW c) (spend record (num_or (cfgAmountUsd c) 0) mult (dacTransferTo c) (token_mint (dacTargetToken c)) sym skip profit) h s
    (fun x h' _ => exists r', x = Ret r' /\ accounted c h' (settled r')
       /\ (skip = false -> nlt profit (nmul (num_or (cfgAmountUsd c) 0) mult) = true -> swaps h' = [])).
Proof.
  intros Hf Hst Hsg Htr Hpos. unfold swap_and_transfer.
  destruct (negb skip && nlt profit _) eqn:Hth; steps.
  { eexists. split; [done|]. split; [|intros _ _; apply Hf]. cbn [settled].
    unfold accounted, set_reason, set_profit, upd. cbn. rewrite Hst. split_and!; try done. intros _. split; [apply Hf|done]. }
  assert (forall h' : Hist, skip = false -> nlt profit (nmul (num_or (cfgAmountUsd c) 0) mult) = true -> swaps h' = []) as Hno.
  { intros h' -> Hlt. by rewrite Hlt in Hth. }
  apply wp_bind, wp_after. eapply wp_mono; [by apply wp_swap|].
  intros [[[[mint src] pre] sig]|e] h1 s1; cbn [swap_result]; reduce.
  2: { intros Hr. eexists. split; [done|]. split; [|apply Hno]. by apply accounted_swap_failed. }
  intros (Hm & Ha & Hs1 & Hs2 & r0 & Hb & ->).
  destruct (truthy sig) eqn:Ht; cbn [negb]; reduce.
  2: { eexists. split; [done|]. split; [|apply Hno]. apply accounted_swap_failed. rewrite Hs1.
       intros sg Hin%list_elem_of_singleton. injection Hin as <-. exact Ht. }
  destruct sig as [sig|]; [|done].
  set (r1 := set_swapSig _ _). assert (swapSig r1 = Some sig /\ transferSig r1 = None) as [Hr1 Hr2].
  { split; [done|]. unfold r1, set_profit, upd. exact Htr. }
  apply wp_after. eapply (wp_mono _ _ _ _ (fun x h' _ => exists r', x = Ret r' /\ accounted c h' r')).
  - destruct (truthy (dacTransferTo c)) eqn:Hto; [eapply wp_transfer|eapply wp_balance]; by eauto.
  - intros x h2 s2 (r' & -> & Hacc). reduce. eexists. split; [done|]. split; [exact Hacc|apply Hno].
Qed.

Abbreviation trigger := (triggerDac PublicKey ataOf userAddress localTime discordNotifyUrl apiKey version).
Abbreviation done_with := (finish userAddress localTime discordNotifyUrl apiKey version).

Definition amount (c : DacConfig) : num := num_or (cfgAmountUsd c) 0.
Definition threshold (c : DacConfig) : num := nmul (amount c) (num_or (dacThresholdMultiplier c) 1).

(** The record and the notification spend nothing. *)
Lemma wp_finish c r h s : accounted c h r ->
  wp (LW c) (done_with r) h s (fun x h' _ => swaps h' = swaps h /\ forall r', x = Ret r' -> accounted c h' r').
Proof.
  intros Hacc. unfold finish, sendDacNotification. cbn [wp bind after modify]. eexists. split; [done|].
  destruct (negb _); steps.
  { split; [done|]. by intros r' [= ->]. }
  destruct (dac_payload _ _ _ _ _) as [payload|e]; cbn [lift]; unfold postNotification; steps; [|done].
  destruct r0 as [ok|e]; steps; (split; [done|]); by intros r' [= ->].
Qed.

(** After the profit. *)
Definition rest (c : DacConfig) (skip : bool) (ts0 : Z) (profit : num) : P DacRecord :=
  let* record :=
    finally (let* r := spend (blank_record c ts0) (amount c) (num_or (dacThresholdMultiplier c) 1) (dacTransferTo c)
                         (token_mint (dacTargetToken c)) (token_symbol (dacTargetToken c)) skip profit in
             ret (settled r)) (modify (with_running false)) in
  done_with record.

Lemma wp_rest c skip ts0 profit h s : fresh h -> nle (amount c) (num_of_Z 0) = false ->
  wp (LW c) (rest c skip ts0 profit) h s (fun x h' _ =>
    (skip = false -> nlt profit (threshold c) = true -> swaps h' = []) /\ forall r', x = Ret r' -> accounted c h' r').
Proof.
  intros Hf Hpos. apply wp_bind, wp_finally, wp_bind.
  eapply wp_mono; [by apply wp_spend|]. intros x h1 s1 (r & -> & Hacc & Hth). cbn [wp ret modify].
  eexists. split; [done|]. eapply wp_mono; [by apply wp_finish|]. intros x h2 s2 [Hs Hr]. split; [|exact Hr].
  intros H1 H2. rewrite Hs. by apply Hth.
Qed.

(** The history when the profit is known. *)
Abbreviation waited := [Called (Ans := Ans) (Timer 15000) (Ret tt); Spawned ForceSnapshot].

Lemma run_body env n c skip ts0 s : nle (amount c) (num_of_Z 0) = false ->
  run env n [] (let* record := finally (dac_body PublicKey ataOf userAddress c skip ts0) (modify (with_running false)) in done_with record)%prog s
  = match answer env n (Timer 15000) s with
    | (Ret _, s1) => run env (n + 2) waited (rest c skip ts0 (profit_of (time env (S n)) (d_tiers s1))) s1
    | (Throw e, s1) =>
        run env (S n) [Called (Ans := Ans) (Timer 15000) (Throw e); Spawned ForceSnapshot]
          (done_with (settled (blank_record c ts0, Throw e))) (with_running false s1)
    end.
Proof.
  intros Hpos. unfold dac_body. fold (amount c). rewrite Hpos. unfold executeDacSwapAndTransfer, calculateProfit, timer.
  cbn [run bind after finally attempt gets clock spawn await ret modify].
  replace (n + 2)%nat with (S (S n)) by lia.
  destruct (answer env n (Timer 15000) s) as [[[]|e] s1]; reflexivity.
Qed.

Lemma fresh_waited : fresh waited.
Proof. done. Qed.

Lemma alreadyRanToday_spec now h :
  alreadyRanToday now h = true <-> exists r, r ∈ h /\ status r = success /\ Calendar.taipeiDay now <= Calendar.taipeiDay (d_ts r).
Proof.
  unfold alreadyRanToday, some. rewrite existsb_exists. split.
  - intros (r & Hr & [H1 H2]%andb_true_iff). exists r. rewrite list_elem_of_In. split; [done|].
    apply bool_decide_eq_true in H1. apply Z.leb_le in H2. split; [done|]. by apply Calendar.startOfTaipeiDay_le.
  - intros (r & Hr & H1 & H2). exists r. rewrite <- list_elem_of_In. split; [done|]. apply andb_true_iff.
    split; [by apply bool_decide_eq_true|]. by apply Z.leb_le, Calendar.startOfTaipeiDay_le.
Qed.

(** The run of the body, from any point where nothing was spent. *)
Lemma body_run env n c skip ts0 s :
  let x := run env n [] (let* record := finally (dac_body PublicKey ataOf userAddress c skip ts0) (modify (with_running false)) in done_with record)%prog s in
  each_call (lawful c) (hist x) /\ (forall r, res x = Ret r -> accounted c (hist x) r)
  /\ (skip = false -> swaps (hist x) <> [] ->
       nlt (profit_of (time env (S n)) (d_tiers (answer env n (Timer 15000) s).2)) (threshold c) = false).
Proof.
  intros x. subst x. destruct (nle (amount c) (num_of_Z 0)) eqn:Hpos.
  - unfold dac_body. fold (amount c). rewrite Hpos. cbn [run bind after finally ret modify].
    destruct (calls_run (done_with (set_reason "dacAmountUsd is 0 or negative, skipping" (blank_record c ts0))) (lawful c)
      (fun _ _ => True) (fun _ _ => True) env n [] (with_running false s)
      (fun x h' _ => swaps h' = [] /\ forall r', x = Ret r' -> accounted c h' r')) as (H1 & H2 & H3); [done|done| |].
    + apply wp_finish. by split_and!.
    + split; [exact H1|]. split; [exact H3|]. intros _ Hne. by destruct Hne.
  - rewrite run_body by done. destruct (answer env n (Timer 15000) s) as [[[]|e] s1] eqn:Ha; cbn [snd].
    + destruct (calls_run (rest c skip ts0 (profit_of (time env (S n)) (d_tiers s1))) (lawful c) (fun _ _ => True) (fun _ _ => True)
        env (n + 2) waited s1 _ ltac:(done) ltac:(done) (wp_rest c skip ts0 _ waited s1 fresh_waited Hpos)) as (H1 & H2 & H3).
      split; [exact H1|]. split; [exact H3|]. intros Hsk Hne. destruct (nlt _ (threshold c)) eqn:Hlt; [|done].
      by destruct Hne; apply H2.
    + destruct (calls_run (done_with (settled (blank_record c ts0, Throw e))) (lawful c) (fun _ _ => True) (fun _ _ => True)
        env (S n) [Called (Ans := Ans) (Timer 15000) (Throw e); Spawned ForceSnapshot] (with_running false s1)
        (fun x h' _ => swaps h' = [] /\ forall r', x = Ret r' -> accounted c h' r')) as (H1 & H2 & H3); [done|done| |].
      * apply wp_finish. apply accounted_swap_failed. by intros sig ?%list.elem_of_nil.
      * split; [exact H1|]. split; [exact H3|]. intros _ Hne. by destruct Hne.
Qed.

(** C18: What a run of the daily conversion may spend, whatever the answers.
    Every run asks for at most one swap, of [floor(amount * 10^6)] units of USDC
    for the configured token, and only for a positive amount; it signs a transfer
    only after a swap that gave a signature, to the configured recipient, of
    exactly the rise of the balance over the swap, which is positive; it sends at
    most one transfer, the one the signer returned, and awaits the confirmation
    of that one; and it makes no call while another run is under way.  A run that
    was not told to skip the checks (the timer's; the manual trigger's skips them)
    moreover makes no call when a success is on record for the same day in
    Taipei, and asks for no swap when the profit over the last daily snapshot
    before today is under the threshold.  The record it returns names what it
    rests on: skipped that no swap was asked for, success and a failed transfer
    the signature of the swap, success with a recipient also the signature of the
    transfer that was sent and whose confirmation was awaited; an error the
    confirmation reports is not looked at ([failed_transfer_is_success]). *)
Theorem dac_run_spends env skip s :
  let x := run env 0 [] (trigger skip) s in
  let c := d_config s in
  each_call (lawful c) (hist x) /\ (forall r, res x = Ret r -> accounted c (hist x) r)
  /\ (dacRunning s = true -> hist x = [] /\ final x = s)
  /\ (skip = false ->
       ((exists r, r ∈ dacHistory s /\ status r = success /\ Calendar.taipeiDay (time env 0) <= Calendar.taipeiDay (d_ts r)) ->
        hist x = [] /\ dacHistory (final x) = dacHistory s)
       /\ (swaps (hist x) <> [] ->
           nlt (profit_of (time env 3) (d_tiers (answer env 2 (Timer 15000) (with_running true s)).2)) (threshold c) = false)).
Proof.
  cbv zeta. unfold triggerDac. cbn [run bind after gets ret].
  assert (forall now why, accounted (d_config s) [] (skipped_record (d_config s) now why)) as Hskip by (intros; by split_and!).
  destruct (dacRunning s) eqn:Hrun; cbn [run bind after clock ret modify].
  { split_and!; try done. by intros r [= <-]. }
  destruct skip; cbn [run bind after clock ret modify gets].
  - destruct (body_run env 1 (d_config s) true (time env 0) (with_running true s)) as (H1 & H2 & _). by split_and!.
  - destruct (alreadyRanToday (time env 0) (dacHistory (with_running true s))) eqn:Hday; cbn [run bind after clock ret modify].
    + split_and!; try done. by intros r [= <-].
    + destruct (body_run env 2 (d_config s) false (time env 1) (with_running true s)) as (H1 & H2 & H3). split_and!; try done.
      intros _. split; [|by apply H3]. intros Hr%alreadyRanToday_spec. discriminate (eq_trans (eq_sym Hr) Hday).
Qed.

End Spending.

(** ** A run at 09:30 in Taipei, ten dollars above the last day *)

Definition demo_snapshot (t usd : Z) : AssetSnapshot := mkSnap t {["totalUsd"%string := num_of_Z usd]}.
Definition demo_tiers : AssetTrend.Tiers :=
  AssetTrend.mkTiers [demo_snapshot 1704245400000 1010] [] [demo_snapshot 1704153600000 1000] 0 0.
Definition trading : DacState := mkDacState [] false 0 None (WriteChain.new_chain []) demo_config demo_tiers.

(** The balance before is 100, after it 350. *)
Definition demo_answer (confirmation : option Json) (n : nat) (c : Call) (s : DacState) : outcome (Ans c) * DacState :=
  (match c as c return outcome (Ans c) with
   | JupSwapExactIn _ _ _ => Ret (Some "swap"%string)
   | TokenBalance _ => Ret (if (n <? 5)%nat then "100"%string else "350"%string, 8)
   | LatestBlockhash => Ret ("hash"%string, 7)
   | SignTransfer tx => Ret tx
   | SendTransfer _ => Ret "transfer"%string
   | ConfirmTransfer _ _ _ => Ret confirmation
   | PostNotification _ _ => Ret true
   | ListDac => Ret []
   | Timer _ => Ret tt
   end, s).

Definition demo_run (confirmation : option Json) : Result DacState Call Ans Task DacRecord :=
  run (mkEnv (demo_answer confirmation) (fun _ => 1704245400000)) 0 []
    (triggerDac demo_key demo_ata "Me" (fun _ => "")%string "" "" "" false) trading.

(** What was sent: the rise of the balance. *)
Definition sent_amounts (h : Hist) : list Z :=
  omap (fun e : HEvent Call Ans Task => match e with
         | Called (SendTransfer tx) _ => match ixs tx with [_; TransferChecked _ _ _ _ a _] => Some a | _ => None end
         | _ => None
         end) h.

Example run_transfers : sent_amounts (hist (demo_run None)) = [250] /\ map status (dacHistory (final (demo_run None))) = [success].
Proof. vm_compute. by split. Qed.

(** The error a confirmation reports is not looked at: a transfer that failed on
    the chain is recorded as a success. *)
Example failed_transfer_is_success :
  map (fun r => (status r, transferSig r)) (dacHistory (final (demo_run (Some (JStr "InstructionError"))))) = [(success, Some "transfer"%string)].
Proof. vm_compute. done. Qed.

(** ** Settings *)

(** An address that is refused ends the request with an error, after the fields
    before it have been applied and without writing them to the environment file. *)
Example refused_address_applies :
  let body := JObj [("enabled", JBool false); ("amountUsd", JStr "25"); ("transferTo", JStr "nonsense")]%string in
  let '(c, env, err) := apply_dac_config (fun s => Throw "Non-base58 character")%string body demo_config in
  err = Some "Invalid Solana address: nonsense"%string /\ env = [] /\ dacEnabled c = false /\ cfgAmountUsd c = num_of_Z 25.
Proof. vm_compute. by split_and!. Qed.

(** ** A restart *)

(** The history of the daily conversion survives a restart, whatever runs are
    recorded and however the write chain works in between: flushed and loaded
    again it is the one in memory, at most 365 records, provided the database
    takes every call within its retries and no acknowledgement is lost.  So the
    guard against a second run on a day holds across restarts. *)
Lemma dac_history_survives att (t : Ring.table DacRecord) evs :
  Ring.wf t -> (Ring.count_rows t <= MAX_DAC_HISTORY)%nat ->
  WriteChain.recovers att WriteChain.RETRY_DELAYS_MS -> WriteChain.clean att ->
  let st := foldl (Journal.event (Ring.ring_mem MAX_DAC_HISTORY) (Ring.ring_calls MAX_DAC_HISTORY) att) (Journal.start (listDac t), t) evs in
  listDac (Journal.drain att st) = Journal.data st.1 /\ (length (Journal.data st.1) <= MAX_DAC_HISTORY)%nat.
Proof.
  intros Hwf Hlen Hr Hc st.
  assert (Ring.mirrors MAX_DAC_HISTORY (Journal.data st.1) (Journal.drain att st)) as Hm.
  { apply Ring.ring_restored; [unfold MAX_DAC_HISTORY; lia| |done|done].
    split; [done|]. unfold listDac. rewrite Ring.list_rows_all by done. split; [done|]. by rewrite length_fmap. }
  split; [by apply Ring.mirrors_list|apply Hm].
Qed.

End DacRules.
