(* ===== verification/Gate.v ===== *)
(** * The dashboard's door ([src/dashboard/server.ts], [src/state/repo/authLog.ts])

    The HTTP server up to the dispatch of the API, the rate limiter, the
    authenticated WebSocket feed and the log of logins.  [Event] is what the
    server reacts to; [step] is the reaction, run at one reading of the clock.
    Sockets are numbered in the order of their connections; whether a socket is
    open when something is broadcast is the library's and comes with the event.
    [pathname] is the path of [new URL(req.url || '/', base)], an exception where
    the constructor throws; [html] is the file [serveHTML] reads.  Left out: the
    start-up fetches of token names and the log lines. *)

From Stdlib Require Import Ascii.
From S2P Require Import Prelude JsMap JsString JsNumber Json WriteChain Histories.
Open Scope Z_scope.
Open Scope list_scope.

(** ** [src/state/repo/authLog.ts] *)

Definition MAX_AUTH_LOG : nat := 200.

Record AuthLogEntry := mkAuth { a_ts : Z; a_ip : string; a_event : string }.

Module AuthLog.

Abbreviation Table := (Ring.table AuthLogEntry).

Definition push (e : AuthLogEntry) : Table -> Table := Ring.push_row MAX_AUTH_LOG e.
(** Newest first. *)
Definition list (limit : nat) (t : Table) : list AuthLogEntry := take limit (reverse (Ring.rows t)).*2.
Definition clear (t : Table) : Table := Ring.mkTable [] (Ring.next_id t).
Definition count (t : Table) : nat := Ring.count_rows t.

End AuthLog.

Module Gate.

(** ** Requests and replies *)

Record Req := mkReq {
  method : option string;
  url : option string;
  cfConnectingIp : option string;
  xForwardedFor : option string;
  authorization : option string;
  remoteAddress : option string;
}.

Inductive Body := NoBody | Text (s : string) | JsonText (j : Json).

Record Reply := mkReply { status : Z; headers : list (string * string); body : Body }.

Inductive Out :=
| Respond (r : Reply)
| CollectHealth                              (** [buildHealth], answered by [health_reply] *)
| CollectMetrics                             (** [metricsText], answered by [metrics_reply] *)
| HandleAPI (pathname : string) (r : Req)    (** the request is handed to [handleAPI] *)
| Uncaught (e : string)                      (** an exception leaves the listener *)
| WsClose (ws : nat) (code : Z) (reason : string)
| WsSend (ws : nat) (msg : Json)
| WsPing (ws : nat).

(** ** The rate limiter *)

Definition MAX_FAILURES : Z := 5.
Definition LOCK_DURATION_MS : Z := 60 * 60 * 1000.

Record Failure := mkFailure { count : Z; blockedUntil : Z }.
Abbreviation FailureMap := (gmap string Failure).

Definition getClientIP (r : Req) : string :=
  match cfConnectingIp r with
  | Some ip => ip
  | None =>
      match xForwardedFor r with
      | Some xff => trim (default "" (head (split_on "," xff)))
      | None => if truthy (remoteAddress r) then default "" (remoteAddress r) else "unknown"
      end
  end.

Definition isBlocked (now : Z) (ip : string) (m : FailureMap) : bool * FailureMap :=
  match m !! ip with
  | None => (false, m)
  | Some entry => if now <? blockedUntil entry then (true, m) else (false, delete ip m)
  end.

Definition recordFailure (now : Z) (ip : string) (m : FailureMap) : FailureMap :=
  let entry := default (mkFailure 0 0) (m !! ip) in
  let n := count entry + 1 in
  <[ip := mkFailure n (if MAX_FAILURES <=? n then now + LOCK_DURATION_MS else blockedUntil entry)]> m.

Definition clearFailure (ip : string) (m : FailureMap) : FailureMap := delete ip m.

(** ** State *)

(** What the handlers of a connection close over; [handled] while it has them
    and can still receive. *)
Record Socket := mkSocket { ws_ip : string; handled : bool; authed : bool; authTimeout : bool }.

Abbreviation AuthChain := (WriteChain.WChain (T := AuthLog.Table)).

Record State := mkState {
  failureMap : FailureMap;
  authLog : list AuthLogEntry;
  authLogWrites : AuthChain;
  sockets : list Socket;
  authenticatedClients : list nat;
}.

Definition with_failures (m : FailureMap) (s : State) : State :=
  mkState m (authLog s) (authLogWrites s) (sockets s) (authenticatedClients s).
Definition with_log (l : list AuthLogEntry) (c : AuthChain) (s : State) : State :=
  mkState (failureMap s) l c (sockets s) (authenticatedClients s).
Definition with_sockets (l : list Socket) (s : State) : State :=
  mkState (failureMap s) (authLog s) (authLogWrites s) l (authenticatedClients s).
Definition with_clients (l : list nat) (s : State) : State :=
  mkState (failureMap s) (authLog s) (authLogWrites s) (sockets s) l.

Definition update_socket (ws : nat) (f : Socket -> Socket) (s : State) : State := with_sockets (alter f ws (sockets s)) s.

(** [initAuthLog] *)
Definition initAuthLog (t : AuthLog.Table) (s : State) : State :=
  with_log (reverse (AuthLog.list MAX_AUTH_LOG t)) (WriteChain.enable (authLogWrites s)) s.

Definition pushAuthLog (now : Z) (ip event : string) (s : State) : State :=
  let e := mkAuth now ip event in
  with_log (Ring.remember MAX_AUTH_LOG e (authLog s)) (WriteChain.push (AuthLog.push e) (authLogWrites s)) s.

(** DELETE /api/auth-log and GET /api/auth-log *)
Definition deleteAuthLog (s : State) : State := with_log [] (WriteChain.push AuthLog.clear (authLogWrites s)) s.
Definition getAuthLog (s : State) : list AuthLogEntry := drop (length (authLog s) - 20) (authLog s).

Definition flushAuthLog (att : WriteChain.Db) (s : State) (t : AuthLog.Table) : State * AuthLog.Table :=
  let (c, t') := WriteChain.drain att (authLogWrites s) t in (with_log (authLog s) c s, t').

(** ** The listener of the HTTP server *)

Section Server.
Context (dashboardPassword : string) (pathname : string -> outcome string) (html : outcome string) (recentLogs : Json).

Definition dashboardEnabled : bool := truthy dashboardPassword.

Definition checkAuth (r : Req) : bool :=
  let auth := default "" (authorization r) in
  if startsWith auth "Bearer " then bool_decide (skip 7 auth = dashboardPassword) else false.

Definition json_type : list (string * string) := [("Content-Type", "application/json")]%string.
Definition plain_type : list (string * string) := [("Content-Type", "text/plain")]%string.
Definition cors : list (string * string) :=
  [("Access-Control-Allow-Origin", "*"); ("Access-Control-Allow-Headers", "Authorization, Content-Type");
   ("Access-Control-Allow-Methods", "GET, POST, PATCH, DELETE, PUT, OPTIONS")]%string.

Definition error_body (msg : string) : Body := JsonText (JObj [("error", JStr msg)]%string).

Definition serveHTML : Reply :=
  match html with
  | Ret text => mkReply 200 (cors ++ [("Content-Type", "text/html; charset=utf-8"); ("Cache-Control", "no-cache, no-store, must-revalidate");
                                      ("Pragma", "no-cache"); ("Expires", "0")]%string) (Text text)
  | Throw _ => mkReply 500 cors (Text "Dashboard HTML not found")
  end.

Definition handleObservability (r : Req) (path : string) : Out :=
  if negb (bool_decide ((if truthy (method r) then default "" (method r) else "GET") = "GET"%string)) then
    Respond (mkReply 405 (json_type ++ [("Allow", "GET")]%string) (error_body "Method Not Allowed"))
  else if bool_decide (path = "/metrics"%string) then CollectMetrics
  else CollectHealth.

(** What the promises of [handleObservability] are answered with. *)
Definition metrics_reply (contentType : string) (text : outcome string) : Reply :=
  match text with
  | Ret body => mkReply 200 [("Content-Type", contentType)]%string (Text body)
  | Throw _ => mkReply 500 plain_type (Text ("metrics collection failed" +:+ char_of 10))
  end.
Definition health_reply (health : outcome Json) : Reply :=
  match health with
  | Ret h => mkReply 200 json_type (JsonText h)
  | Throw _ => mkReply 500 json_type (JsonText (JObj [("status", JStr "degraded"); ("error", JStr "health check failed")]%string))
  end.

(** From the rate limit on. *)
Definition dashboard_request (now : Z) (path : string) (r : Req) (s : State) : State * list Out :=
  let clientIP := getClientIP r in
  let (blocked, m) := isBlocked now clientIP (failureMap s) in
  let s := with_failures m s in
  if blocked then (s, [Respond (mkReply 429 json_type (error_body "Too many failed attempts. Try again later."))])
  else if bool_decide (method r = Some "OPTIONS"%string) then (s, [Respond (mkReply 204 cors NoBody)])
  else if bool_decide (path = "/robots.txt"%string) then
    (s, [Respond (mkReply 200 (cors ++ plain_type) (Text ("User-agent: *" +:+ char_of 10 +:+ "Disallow: /" +:+ char_of 10)))])
  else if bool_decide (path = "/"%string) || bool_decide (path = "/index.html"%string) then (s, [Respond serveHTML])
  else if bool_decide (path = "/api/health"%string) then
    (s, [Respond (mkReply 200 (cors ++ json_type) (JsonText (JObj [("status", JStr "ok"); ("ts", JNum (num_of_Z now))]%string)))])
  else if startsWith path "/api/" then
    if negb (checkAuth r) then
      let s := with_failures (recordFailure now clientIP (failureMap s)) s in
      let s := pushAuthLog now clientIP ("API 認證失敗 " +:+ path) s in
      (s, [Respond (mkReply 401 (cors ++ json_type) (error_body "未授權"))])
    else (with_failures (clearFailure clientIP (failureMap s)) s, [HandleAPI path r])
  else (s, [Respond (mkReply 404 cors (Text "Not Found"))]).

Definition request (now : Z) (r : Req) (s : State) : State * list Out :=
  match pathname (if truthy (url r) then default "" (url r) else "/") with
  | Throw e => (s, [Uncaught e])
  | Ret path =>
      if bool_decide (path = "/health"%string) || bool_decide (path = "/metrics"%string) then (s, [handleObservability r path])
      else if negb dashboardEnabled then (s, [Respond (mkReply 404 [] (Text "Not Found"))])
      else dashboard_request now path r s
  end.

(** ** The feed *)

Definition connection (now : Z) (r : Req) (s : State) : State * list Out :=
  let ws := length (sockets s) in
  let ip := getClientIP r in
  let (blocked, m) := isBlocked now ip (failureMap s) in
  let s := with_failures m s in
  if blocked then
    (pushAuthLog now ip "連線被封鎖（頻率限制）" (with_sockets (sockets s ++ [mkSocket ip false false false]) s),
     [WsClose ws 4029 "Too many failed attempts"])
  else (with_sockets (sockets s ++ [mkSocket ip true false true]) s, []).

(** The 10 s timer of a connection *)
Definition authTimeout_fires (now : Z) (ws : nat) (s : State) : State * list Out :=
  match sockets s !! ws with
  | Some sk =>
      if authTimeout sk then
        let s := update_socket ws (fun sk => mkSocket (ws_ip sk) (handled sk) (authed sk) false) s in
        if authed sk then (s, []) else (pushAuthLog now (ws_ip sk) "認證逾時" s, [WsClose ws 4001 "認證超時"])
      else (s, [])
  | None => (s, [])
  end.

(** [authenticatedClients.add], [authenticatedClients.delete] *)
Definition admit_client (ws : nat) (s : State) : State := with_clients (sadd ws (authenticatedClients s)) s.
Definition forget_client (ws : nat) (s : State) : State := with_clients (sdel ws (authenticatedClients s)) s.

(** [x === s] *)
Definition is_string (x : option Json) (s : string) : bool := match x with Some (JStr y) => bool_decide (y = s) | _ => false end.

Definition ws_message (now : Z) (ws : nat) (sk : Socket) (raw : string) (s : State) : State * list Out :=
  match (let! msg := JSON_parse raw in
         let! type := jfield (Some msg) "type" in
         Ret (msg, type)) with
  | Throw _ => (s, [])
  | Ret (msg, type) =>
      if is_string type "auth" then
        if is_string (jopt (Some msg) "password") dashboardPassword then
          let s := update_socket ws (fun sk => mkSocket (ws_ip sk) (handled sk) true false) s in
          let s := with_failures (clearFailure (ws_ip sk) (failureMap s)) s in
          let s := pushAuthLog now (ws_ip sk) "登入成功" (admit_client ws s) in
          (s, [WsSend ws (JObj [("type", JStr "auth_ok")]%string);
               WsSend ws (JObj [("type", JStr "logs_batch"); ("data", recentLogs)]%string)])
        else
          let s := with_failures (recordFailure now (ws_ip sk) (failureMap s)) s in
          (pushAuthLog now (ws_ip sk) "密碼錯誤" s, [WsClose ws 4003 "密碼錯誤"])
      else (s, [])
  end.

(** A handler of the connection, when it has them. *)
Definition on_socket (ws : nat) (s : State) (f : Socket -> State * list Out) : State * list Out :=
  match sockets s !! ws with Some sk => if handled sk then f sk else (s, []) | None => (s, []) end.

(** The last event of a connection: no message follows it. *)
Definition ws_close (ws : nat) (s : State) : State :=
  forget_client ws (update_socket ws (fun sk => mkSocket (ws_ip sk) false (authed sk) false) s).

(** To every authenticated client whose socket is open. *)
Definition broadcast (open : nat -> bool) (f : nat -> Out) (s : State) : list Out :=
  map f (List.filter open (authenticatedClients s)).

Inductive Event :=
| Request (r : Req)
| Connect (r : Req)
| Message (ws : nat) (raw : string)
| AuthTimeout (ws : nat)
| Closed (ws : nat)
| PingTimer (open : nat -> bool)
| Log (entry : Json) (open : nat -> bool)
| DeleteAuthLog.

(** The feed is attached only with a password. *)
Definition step (now : Z) (e : Event) (s : State) : State * list Out :=
  match e with
  | Request r => request now r s
  | DeleteAuthLog => (deleteAuthLog s, [])
  | Connect r => if dashboardEnabled then connection now r s else (s, [])
  | Message ws raw => on_socket ws s (fun sk => ws_message now ws sk raw s)
  | AuthTimeout ws => authTimeout_fires now ws s
  | Closed ws => on_socket ws s (fun _ => (ws_close ws s, []))
  | PingTimer open => (s, broadcast open WsPing s)
  | Log entry open => (s, broadcast open (fun ws => WsSend ws (JObj [("type", JStr "log"); ("data", entry)]%string)) s)
  end.

(** [startDashboard] with the table [initAuthLog] reads. *)
Definition startDashboard (t : AuthLog.Table) : State :=
  let s := mkState ∅ [] (WriteChain.new_chain WriteChain.RETRY_DELAYS_MS) [] [] in
  if dashboardEnabled then initAuthLog t s else s.

(** A run, with the outputs of each event. *)
Fixpoint run (s : State) (evs : list (Z * Event)) : State * list (Z * Event * list Out) :=
  match evs with
  | [] => (s, [])
  | (now, e) :: evs' =>
      let (s1, outs) := step now e s in
      let (s2, tr) := run s1 evs' in (s2, (now, e, outs) :: tr)
  end.

End Server.
End Gate.
