(* ===== verification/GateRules.v ===== *)
(** * What the dashboard's door guarantees

    [api_needs_the_password]: nothing reaches the API, and no log line a socket,
    without the password.  [lock_holds]: a locked address stays out.
    [http_never_locks]: by HTTP alone no address is ever locked.
    [auth_log_survives]: the log of logins is the same after a restart. *)

From Stdlib Require Import Ascii.
From S2P Require Import Prelude JsMap JsString JsNumber Json WriteChain Histories Gate.
Open Scope Z_scope.
Open Scope list_scope.

Module GateRules.
Import Gate.

(** ** Text *)

Lemma startsWith_skip a p : startsWith a p = true -> a = (p +:+ skip (String.length p) a)%string.
Proof.
  unfold startsWith. revert a. induction p as [|c p IH]; intros a; [done|]. destruct a as [|d a]; simpl; [done|].
  destruct (ascii_dec c d) as [->|]; [|done]. intros H.
  change (String d a = String d (p +:+ skip (String.length p) a)). f_equal. by apply IH.
Qed.

Section Gate.
Context (dashboardPassword : string) (pathname : string -> outcome string) (html : outcome string) (recentLogs : Json).

Abbreviation gate_step := (step dashboardPassword pathname html recentLogs).
Abbreviation gate_run := (run dashboardPassword pathname html recentLogs).

Lemma checkAuth_spec r : checkAuth dashboardPassword r = true -> authorization r = Some ("Bearer " +:+ dashboardPassword)%string.
Proof.
  unfold checkAuth. destruct (authorization r) as [a|]; simpl; [|done].
  destruct (startsWith a "Bearer ") eqn:H; [|done]. intros E%bool_decide_eq_true. f_equal.
  rewrite <- E. exact (startsWith_skip a "Bearer " H).
Qed.

(** ** Who may come in *)

(** A message that presents the password. *)
Definition presents (raw : string) : Prop :=
  exists msg, JSON_parse raw = Ret msg /\ jfield (Some msg) "type" = Ret (Some (JStr "auth"))
    /\ jopt (Some msg) "password" = Some (JStr dashboardPassword).

Definition presented (evs : list (Z * Event)) (ws : nat) : Prop := exists now raw, (now, Message ws raw) ∈ evs /\ presents raw.

(** What an output needs, after the events so far. *)
Definition entitled (evs : list (Z * Event)) (o : Out) : Prop :=
  match o with
  | HandleAPI _ r => (exists now, list.last evs = Some (now, Request r)) /\ dashboardPassword <> ""%string
      /\ authorization r = Some ("Bearer " +:+ dashboardPassword)%string
  | WsSend ws _ | WsPing ws => dashboardPassword <> ""%string /\ presented evs ws
  | _ => True
  end.

Definition inv (evs : list (Z * Event)) (s : State) : Prop :=
  (dashboardEnabled dashboardPassword = false -> sockets s = [])
  /\ forall ws, ws ∈ authenticatedClients s -> dashboardPassword <> ""%string /\ presented evs ws.

Lemma presented_more evs e ws : presented evs ws -> presented (evs ++ [e]) ws.
Proof. intros (now & raw & H & Hp). exists now, raw. split; [set_solver|done]. Qed.

Lemma is_string_spec x s : is_string x s = true -> x = Some (JStr s).
Proof. destruct x as [[]|]; simpl; try done. by intros ->%bool_decide_eq_true. Qed.

Lemma enabled_spec : dashboardEnabled dashboardPassword = true <-> dashboardPassword <> ""%string.
Proof. unfold dashboardEnabled. by destruct dashboardPassword. Qed.

Lemma inv_more evs e s : inv evs s -> inv (evs ++ [e]) s.
Proof. intros [H1 H2]. split; [done|]. intros ws [Hp Hw]%H2. split; [done|]. by apply presented_more. Qed.

(** Changes that touch neither the sockets' number nor the clients. *)
Lemma inv_same evs s s' : length (sockets s') = length (sockets s) -> authenticatedClients s' = authenticatedClients s -> inv evs s -> inv evs s'.
Proof.
  intros Hl Hc [H1 H2]. split; [|by rewrite Hc]. intros Hd. specialize (H1 Hd). rewrite H1 in Hl. by destruct (sockets s').
Qed.

#[local] Ltac nothing := first [exact (Forall_nil _)|apply Forall_cons_2; [exact I|nothing]].

Lemma request_inv evs now r s : list.last evs = Some (now, Request r) -> inv evs s ->
  let '(s', outs) := request dashboardPassword pathname html now r s in inv evs s' /\ Forall (entitled evs) outs.
Proof.
  intros Hlast HI. unfold request. destruct (pathname _) as [path|e]; [|split; [exact HI|nothing]].
  destruct (_ || _); [unfold handleObservability; split; [exact HI|repeat case_match; nothing]|].
  destruct (dashboardEnabled dashboardPassword) eqn:He; simpl negb; [|split; [exact HI|nothing]].
  unfold dashboard_request. destruct (isBlocked _ _ _) as [blocked m]. cbv zeta.
  assert (inv evs (with_failures m s)) as HI' by by eapply inv_same; [..|exact HI].
  repeat match goal with |- context[if ?b then _ else _] => destruct b eqn:?; cbv iota end;
    try (split; [|nothing]; first [exact HI'|by eapply inv_same; [..|exact HI']]).
  split; [by eapply inv_same; [..|exact HI']|]. apply Forall_cons_2; [|nothing]. split; [by eexists|]. split; [by apply enabled_spec|].
  apply checkAuth_spec. by apply negb_false_iff.
Qed.

Lemma presents_spec raw msg type :
  (let! msg := JSON_parse raw in let! type := jfield (Some msg) "type" in Ret (msg, type)) = Ret (msg, type) ->
  is_string type "auth" = true -> is_string (jopt (Some msg) "password") dashboardPassword = true -> presents raw.
Proof.
  intros H Ht%is_string_spec Hp%is_string_spec. destruct (JSON_parse raw) as [m|e] eqn:Hr; [|discriminate H].
  change ((let! type := jfield (Some m) "type" in Ret (m, type)) = Ret (msg, type)) in H.
  destruct (jfield (Some m) "type") as [t|e] eqn:Hf; [|discriminate H]. injection H as <- <-. exists m. split; [done|]. split; [by rewrite Hf, Ht|exact Hp].
Qed.

Lemma message_inv evs now ws sk raw s : (now, Message ws raw) ∈ evs -> sockets s !! ws = Some sk -> inv evs s ->
  let '(s', outs) := ws_message dashboardPassword recentLogs now ws sk raw s in inv evs s' /\ Forall (entitled evs) outs.
Proof.
  intros Hin Hsk HI. unfold ws_message.
  destruct (let! msg := JSON_parse raw in _) as [[msg type]|e] eqn:Hr; [|split; [exact HI|nothing]].
  destruct (is_string type "auth") eqn:Ht; [|split; [exact HI|nothing]].
  destruct (is_string (jopt (Some msg) "password") dashboardPassword) eqn:Hp; cbv zeta.
  2: { split; [|nothing]. by eapply inv_same; [..|exact HI]. }
  assert (dashboardPassword <> ""%string /\ presented evs ws) as Hok.
  { split; [|exists now, raw; split; [done|by eapply presents_spec]]. apply enabled_spec.
    destruct (dashboardEnabled _) eqn:Hd; [done|]. destruct HI as [HI _]. by rewrite (HI Hd) in Hsk. }
  split; [|apply Forall_cons_2; [exact Hok|apply Forall_cons_2; [exact Hok|nothing]]].
  split.
  - intros Hd. destruct HI as [HI _]. by rewrite (HI Hd) in Hsk.
  - intros w Hw%elem_of_sadd. destruct Hw as [->|Hw]; [exact Hok|]. by apply HI.
Qed.

Lemma broadcast_entitled evs open f s : (forall ws, entitled evs (f ws) <-> dashboardPassword <> ""%string /\ presented evs ws) ->
  inv evs s -> Forall (entitled evs) (broadcast open f s).
Proof.
  intros Hf [_ HI]. unfold broadcast. apply Forall_map, Forall_forall. intros ws [Hw _]%filter_In.
  apply Hf, HI. by apply list_elem_of_In.
Qed.

Lemma gate_inv evs now e s : inv evs s ->
  let '(s', outs) := gate_step now e s in inv (evs ++ [(now, e)]) s' /\ Forall (entitled (evs ++ [(now, e)])) outs.
Proof.
  intros HI%(inv_more evs (now, e)). destruct e as [r|r|ws raw|ws|ws|open|entry open|]; cbn [step].
  - apply request_inv; [by rewrite last_snoc|exact HI].
  - destruct (dashboardEnabled dashboardPassword) eqn:Hd; [|split; [exact HI|nothing]].
    unfold connection. destruct (isBlocked _ _ _) as [[] m]; (split; [|nothing]); (split; [by rewrite Hd|apply HI]).
  - unfold on_socket. destruct (sockets s !! ws) as [sk|] eqn:Hs; [|split; [exact HI|nothing]].
    destruct (handled sk); [|split; [exact HI|nothing]]. apply message_inv; [set_solver|done|done].
  - unfold authTimeout_fires. destruct (sockets s !! ws) as [sk|] eqn:Hs; [|split; [exact HI|nothing]].
    destruct (authTimeout sk); [|split; [exact HI|nothing]].
    destruct (authed sk); (split; [|nothing]); (eapply inv_same; [..|exact HI]; [cbn; by rewrite length_alter|done]).
  - unfold on_socket. destruct (sockets s !! ws) as [sk|] eqn:Hs; [|split; [exact HI|nothing]].
    destruct (handled sk); (split; [|nothing]); [|exact HI]. split.
    + intros Hd. destruct HI as [HI _]. by rewrite (HI Hd) in Hs.
    + intros w [_ Hw]%elem_of_sdel. by apply HI.
  - split; [exact HI|by apply broadcast_entitled].
  - split; [exact HI|by apply broadcast_entitled].
  - split; [|nothing]. by eapply inv_same; [..|exact HI].
Qed.

Lemma run_entitled evs0 evs s i x : inv evs0 s -> (gate_run s evs).2 !! i = Some x -> Forall (entitled (evs0 ++ take (S i) evs)) x.2.
Proof.
  revert evs0 s i. induction evs as [|[now e] evs IH]; intros evs0 s i HI Hx; [done|]. cbn [run] in Hx.
  pose proof (gate_inv evs0 now e s HI) as Hs. destruct (gate_step now e s) as [s1 outs]. destruct Hs as [HI1 Ho].
  destruct (gate_run s1 evs) as [s2 tr] eqn:Hr. destruct i as [|i]; cbn in Hx; [injection Hx as <-; exact Ho|].
  specialize (IH (evs0 ++ [(now, e)]) s1 i HI1). rewrite Hr, <- app_assoc in IH. by apply IH.
Qed.

Lemma inv_start t : inv [] (startDashboard dashboardPassword t).
Proof. unfold startDashboard. destruct (dashboardEnabled _); (split; [done|by intros ws ?%list.elem_of_nil]). Qed.

(** C20: The password guards the dashboard: in any sequence of requests,
    connections, messages, timeouts and broadcasts from the start, a request is
    handed to the API only when its [Authorization] is [Bearer] and the password,
    and a socket is sent anything - a login confirmation, the recent logs, a log
    line, a ping - only after a message that presented the password came over it;
    neither happens when no password is configured. *)
Theorem api_needs_the_password t evs i x :
  (gate_run (startDashboard dashboardPassword t) evs).2 !! i = Some x -> Forall (entitled (take (S i) evs)) x.2.
Proof. apply (run_entitled []), inv_start. Qed.

(** ** A locked address *)

(** A connection of an address whose messages are read. *)
Definition listens (ip : string) (s : State) (ws : nat) : Prop :=
  exists sk, sockets s !! ws = Some sk /\ handled sk = true /\ ws_ip sk = ip.

(** How a request of a locked address is answered. *)
Definition turned_away (r : Req) (outs : list Out) : Prop :=
  match pathname (if truthy (url r) then default "" (url r) else "/"%string) with
  | Throw e => outs = [Uncaught e]
  | Ret path =>
      if bool_decide (path = "/health"%string) || bool_decide (path = "/metrics"%string) then outs = [handleObservability r path]
      else outs = [Respond (mkReply 429 json_type (error_body "Too many failed attempts. Try again later."))]
  end.

Definition away (ip : string) (x : Z * Event * list Out) : Prop :=
  match x.1.2 with
  | Request r => getClientIP r = ip -> turned_away r x.2
  | _ => True
  end.

Lemma isBlocked_lock now ip m f : m !! ip = Some f -> now < blockedUntil f -> isBlocked now ip m = (true, m).
Proof. intros Hm Hn. unfold isBlocked. rewrite Hm. by apply Z.ltb_lt in Hn as ->. Qed.

Lemma isBlocked_other now ip ip' m : ip' <> ip -> (isBlocked now ip' m).2 !! ip = m !! ip.
Proof.
  intros Hne. unfold isBlocked. destruct (m !! ip') as [f|]; [|done]. destruct (now <? blockedUntil f); [done|].
  cbn. by rewrite lookup_delete_ne.
Qed.

Section Lock.
Context (ip : string) (until : Z) (s0 : State).

(** Locked until then, and read over no connection but those of [s0]. *)
Definition shut_out (s : State) : Prop :=
  (exists f, failureMap s !! ip = Some f /\ MAX_FAILURES <= count f /\ until <= blockedUntil f)
  /\ forall ws, listens ip s ws -> listens ip s0 ws.

(** A time at which the lock lasts; it began an hour before its end. *)
Definition lasting (now : Z) : Prop := until - LOCK_DURATION_MS <= now < until.

(** Not the password, over a connection of the address from before the lock. *)
Definition no_password (e : Event) : Prop :=
  match e with Message ws raw => listens ip s0 ws -> ~ presents raw | _ => True end.

Lemma listens_update s ws f : (forall sk, ws_ip (f sk) = ws_ip sk /\ (handled (f sk) = true -> handled sk = true)) ->
  forall w, listens ip (update_socket ws f s) w -> listens ip s w.
Proof.
  intros Hf w (sk & Hw & Hh & Hi). cbn in Hw. destruct (decide (w = ws)) as [->|Hne].
  - rewrite list_lookup_alter_eq in Hw. destruct (sockets s !! ws) as [sk0|] eqn:Hs; [|done]. injection Hw as <-.
    destruct (Hf sk0) as [He Hhh]. exists sk0. rewrite <- He. auto.
  - rewrite list_lookup_alter_ne in Hw by done. by exists sk.
Qed.

Lemma listens_snoc s l sk ws : (handled sk = true -> ws_ip sk <> ip) ->
  listens ip (with_sockets (l ++ [sk]) s) ws -> exists x, l !! ws = Some x /\ handled x = true /\ ws_ip x = ip.
Proof.
  intros Hsk (x & Hx & Hh & Hi). cbn in Hx. apply lookup_app_Some in Hx as [Hx|[_ Hx]]; [by exists x|].
  apply list_lookup_singleton_Some in Hx as [_ <-]. by destruct (Hsk Hh).
Qed.

Lemma locked_log l c s : shut_out s -> shut_out (with_log l c s).
Proof. done. Qed.

Lemma locked_failures m s : m !! ip = failureMap s !! ip -> shut_out s -> shut_out (with_failures m s).
Proof. intros Hm [H1 H2]. split; [cbn; by rewrite Hm|exact H2]. Qed.

Lemma locked_update s ws f : (forall sk, ws_ip (f sk) = ws_ip sk /\ (handled (f sk) = true -> handled sk = true)) ->
  shut_out s -> shut_out (update_socket ws f s).
Proof. intros Hf [H1 H2]. split; [exact H1|]. intros w Hw. apply H2. by eapply listens_update. Qed.

Lemma isBlocked_locked now s : lasting now -> shut_out s -> isBlocked now ip (failureMap s) = (true, failureMap s).
Proof. intros [_ Hn] [(f & Hf & _ & Hu) _]. apply (isBlocked_lock now ip _ f); [done|lia]. Qed.

Lemma lookup_recordFailure_ne now i j (m : FailureMap) : j <> i -> recordFailure now j m !! i = m !! i.
Proof. intros H. unfold recordFailure. by rewrite lookup_insert_ne. Qed.

Lemma request_locked now r s : dashboardEnabled dashboardPassword = true -> lasting now -> shut_out s ->
  let '(s', outs) := request dashboardPassword pathname html now r s in shut_out s' /\ (getClientIP r = ip -> turned_away r outs).
Proof.
  intros He Hn HL. unfold request, turned_away. rewrite He. destruct (pathname _) as [path|e]; [|by split].
  destruct (_ || _); [by split|]. cbn [negb].
  unfold dashboard_request. destruct (decide (getClientIP r = ip)) as [Hip|Hip].
  - rewrite Hip, isBlocked_locked by done. by split.
  - pose proof (isBlocked_other now ip (getClientIP r) (failureMap s) Hip) as Hb. destruct (isBlocked _ _ _) as [blocked m]. cbv zeta. cbn [snd] in Hb.
    assert (shut_out (with_failures m s)) as HL' by by apply locked_failures.
    repeat match goal with |- context[if ?b then _ else _] => destruct b eqn:?; cbv iota end;
      (split; [|done]); try exact HL'.
    + apply locked_log, locked_failures; [|exact HL']. cbn. by apply lookup_recordFailure_ne.
    + apply locked_failures; [|exact HL']. unfold clearFailure. by rewrite lookup_delete_ne.
Qed.

(** Another guess prolongs the lock. *)
Lemma locked_guess now s : lasting now -> shut_out s -> shut_out (with_failures (recordFailure now ip (failureMap s)) s).
Proof.
  intros [Hn _] [(f & Hf & Hc & Hu) Hs]. split; [|exact Hs]. eexists. cbn. unfold recordFailure. rewrite lookup_insert_eq, Hf. cbn.
  split; [reflexivity|]. cbn. split; [lia|]. destruct (_ <=? _) eqn:E; [lia|]. apply Z.leb_gt in E. lia.
Qed.

Lemma message_locked now ws sk raw s : sockets s !! ws = Some sk -> handled sk = true -> lasting now -> no_password (Message ws raw) ->
  shut_out s -> shut_out (ws_message dashboardPassword recentLogs now ws sk raw s).1.
Proof.
  intros Hsk Hh Hn Hno HL. unfold ws_message. destruct (let! msg := JSON_parse raw in _) as [[msg type]|e] eqn:Hr; [|exact HL].
  destruct (is_string type "auth") eqn:Ht; [|exact HL]. destruct (is_string (jopt (Some msg) "password") dashboardPassword) eqn:Hp; cbv zeta; cbn [fst].
  - assert (ws_ip sk <> ip) as Hip.
    { intros Hip. apply (Hno (proj2 HL ws (ex_intro _ sk (conj Hsk (conj Hh Hip))))). by eapply presents_spec. }
    apply locked_log. change (shut_out (with_failures (clearFailure (ws_ip sk) (failureMap s))
      (update_socket ws (fun sk => mkSocket (ws_ip sk) (handled sk) true false) s))).
    apply locked_failures; [unfold clearFailure; by rewrite lookup_delete_ne|by apply locked_update].
  - apply locked_log. destruct (decide (ws_ip sk = ip)) as [->|Hip]; [by apply locked_guess|].
    apply locked_failures; [|exact HL]. by apply lookup_recordFailure_ne.
Qed.

Lemma step_locked now e s : dashboardEnabled dashboardPassword = true -> lasting now -> no_password e -> shut_out s ->
  let '(s', outs) := gate_step now e s in shut_out s' /\ away ip (now, e, outs).
Proof.
  intros He Hn Hno HL. destruct e as [r|r|ws raw|ws|ws|open|entry open|]; cbn [step]; try by (split; [exact HL|exact I]).
  - by apply request_locked.
  - rewrite He. unfold connection. destruct (decide (getClientIP r = ip)) as [Hip|Hip].
    + rewrite Hip, isBlocked_locked by done. split; [|done]. apply locked_log. split; [apply HL|]. intros w Hw. apply HL.
      by apply listens_snoc in Hw.
    + pose proof (isBlocked_other now ip (getClientIP r) (failureMap s) Hip) as Hb. destruct (isBlocked _ _ _) as [blocked m]. cbn [snd] in Hb.
      assert (forall sk, ws_ip sk <> ip -> shut_out (with_sockets (sockets s ++ [sk]) (with_failures m s))) as Hnew.
      { intros sk Hsk. split; [cbn; rewrite Hb; apply HL|]. intros w Hw. apply HL. by apply listens_snoc in Hw. }
      destruct blocked; (split; [|done]); [apply locked_log|]; by apply Hnew.
  - unfold on_socket. destruct (sockets s !! ws) as [sk|] eqn:Hs; [|by split].
    destruct (handled sk) eqn:Hh; [|by split].
    pose proof (message_locked now ws sk raw s Hs Hh Hn Hno HL) as HM. by destruct (ws_message _ _ _ _ _ _ _) as [s' outs].
  - unfold authTimeout_fires. destruct (sockets s !! ws) as [sk|]; [|by split]. destruct (authTimeout sk); [|by split].
    destruct (authed sk); (split; [|done]); [|apply locked_log]; by apply locked_update.
  - unfold on_socket. destruct (sockets s !! ws) as [sk|]; [|by split]. destruct (handled sk); [|by split].
    split; [|done]. change (shut_out (update_socket ws (fun sk => mkSocket (ws_ip sk) false (authed sk) false) s)). by apply locked_update.
Qed.

End Lock.

(** C25: A locked address stays out until its lock ends, unless it presents the
    password over a connection it had before.  While the lock of an address lasts,
    whatever requests, connections, messages and timeouts arrive, from it and from
    others - wrong guesses over its older connections among them, which prolong
    the lock - with the one exception of a message that presents the password over
    a connection opened before the lock, which ends it
    ([old_socket_unlocks]): the address remains locked at least as long as before;
    its requests are answered 429, except for [/health] and [/metrics], which
    answer everybody, and a target that [new URL] refuses, whose exception is not
    caught; and none of its new connections is given handlers, so that no guess
    over them is read. *)
Theorem lock_holds ip f s evs :
  dashboardPassword <> ""%string -> failureMap s !! ip = Some f -> MAX_FAILURES <= count f ->
  Forall (fun te => lasting (blockedUntil f) te.1 /\ no_password ip s te.2) evs ->
  let '(s', tr) := gate_run s evs in
  (exists f', failureMap s' !! ip = Some f' /\ MAX_FAILURES <= count f' /\ blockedUntil f <= blockedUntil f')
  /\ (forall ws, listens ip s' ws -> listens ip s ws)
  /\ Forall (away ip) tr.
Proof.
  intros He%enabled_spec Hf Hc Hevs.
  assert (shut_out ip (blockedUntil f) s s) as HL by (split; [by exists f|done]).
  cut (forall s1, shut_out ip (blockedUntil f) s s1 ->
    let '(s', tr) := gate_run s1 evs in shut_out ip (blockedUntil f) s s' /\ Forall (away ip) tr).
  { intros K. specialize (K s HL). destruct (gate_run s evs) as [s' tr]. destruct K as [[K1 K2] K3]. by split_and!. }
  clear HL. induction Hevs as [|[now e] evs [Hn Hno] Hevs IH]; intros s1 HL; cbn [run]; [done|].
  pose proof (step_locked ip (blockedUntil f) s now e s1 He Hn Hno HL) as Hs. destruct (gate_step now e s1) as [s2 outs]. destruct Hs as [HL2 Ho].
  specialize (IH s2 HL2). destruct (gate_run s2 evs) as [s3 tr]. destruct IH as [H1 H2]. split; [done|]. by constructor.
Qed.

(** ** By HTTP alone *)

(** Every entry is of one failure and not locked. *)
Definition unlocked (m : FailureMap) : Prop := forall ip f, m !! ip = Some f -> f = mkFailure 1 0.

Definition no_message (e : Event) : Prop := match e with Message _ _ => False | _ => True end.

(** No output is a refusal for too many failures. *)
Definition not_locked_out (o : Out) : Prop :=
  match o with Respond r => status r <> 429 | WsClose _ code _ => code <> 4029 | _ => True end.

Lemma isBlocked_unlocked now ip m : 0 <= now -> unlocked m -> isBlocked now ip m = (false, delete ip m).
Proof.
  intros Hn Hm. unfold isBlocked. destruct (m !! ip) as [f|] eqn:Hf.
  - rewrite (Hm ip f Hf). cbn. by apply Z.ltb_ge in Hn as ->.
  - by rewrite delete_id.
Qed.

Lemma unlocked_delete ip m : unlocked m -> unlocked (delete ip m).
Proof. intros Hm i f Hf. apply lookup_delete_Some in Hf as [_ Hf]. by apply (Hm i). Qed.

Lemma unlocked_record now ip m : unlocked m -> unlocked (recordFailure now ip (delete ip m)).
Proof.
  intros Hm i f. unfold recordFailure. rewrite lookup_delete_eq. cbn. intros Hf.
  apply lookup_insert_Some in Hf as [[_ <-]|[_ Hf]]; [done|]. by apply (unlocked_delete ip m Hm i).
Qed.

#[local] Ltac fine := first [exact (Forall_nil _)|apply Forall_cons_2; [first [exact I|done]|fine]].

Lemma request_unlocked now r s : 0 <= now -> unlocked (failureMap s) ->
  let '(s', outs) := request dashboardPassword pathname html now r s in unlocked (failureMap s') /\ Forall not_locked_out outs.
Proof.
  intros Hn Hm. unfold request. destruct (pathname _) as [path|e]; [|split; [exact Hm|fine]].
  destruct (_ || _); [unfold handleObservability; split; [exact Hm|repeat case_match; fine]|].
  destruct (negb _); [split; [exact Hm|fine]|].
  unfold dashboard_request, serveHTML. rewrite isBlocked_unlocked by done. cbv zeta.
  repeat match goal with |- context[if ?b then _ else _] => destruct b eqn:?; cbv iota end;
    (split; [|first [fine|destruct html; fine]]); try (by apply unlocked_delete).
  - by apply unlocked_record.
  - by apply unlocked_delete, unlocked_delete.
Qed.

Lemma step_unlocked now e s : 0 <= now -> no_message e -> unlocked (failureMap s) ->
  let '(s', outs) := gate_step now e s in unlocked (failureMap s') /\ Forall not_locked_out outs.
Proof.
  intros Hn He Hm. destruct e as [r|r|ws raw|ws|ws|open|entry open|]; cbn [step]; try done.
  - by apply request_unlocked.
  - destruct (dashboardEnabled _); [|split; [done|fine]]. unfold connection. rewrite isBlocked_unlocked by done.
    split; [by apply unlocked_delete|fine].
  - unfold authTimeout_fires. destruct (sockets s !! ws) as [sk|]; [destruct (authTimeout sk); [destruct (authed sk)|]|]; (split; [exact Hm|fine]).
  - unfold on_socket. destruct (sockets s !! ws) as [sk|]; [destruct (handled sk)|]; (split; [exact Hm|fine]).
  - split; [done|]. unfold broadcast. apply Forall_map, Forall_forall; intros; exact I.
  - split; [done|]. unfold broadcast. apply Forall_map, Forall_forall; intros; exact I.
Qed.

(** The limit on failed logins never takes effect over HTTP: as long as no
    WebSocket message arrives, no request is answered 429 and no connection
    refused, however many wrong passwords are tried, because the check before
    each request drops the entry of an address that is not locked yet, so that a
    failure count never gets past one. *)
Theorem http_never_locks t evs :
  Forall (fun te => 0 <= te.1 /\ no_message te.2) evs ->
  let '(s', tr) := gate_run (startDashboard dashboardPassword t) evs in
  unlocked (failureMap s') /\ Forall (fun x => Forall not_locked_out x.2) tr.
Proof.
  intros Hevs. assert (unlocked (failureMap (startDashboard dashboardPassword t))) as Hm.
  { unfold startDashboard. destruct (dashboardEnabled _); intros ip f Hf; change ((∅ : FailureMap) !! ip = Some f) in Hf; by rewrite lookup_empty in Hf. }
  revert Hm. generalize (startDashboard dashboardPassword t) as s.
  induction Hevs as [|[now e] evs [Hn He] Hevs IH]; intros s Hm; cbn [run]; [done|].
  pose proof (step_unlocked now e s Hn He Hm) as Hs. destruct (gate_step now e s) as [s1 outs]. destruct Hs as [Hm1 Ho].
  specialize (IH s1 Hm1). destruct (gate_run s1 evs) as [s2 tr]. destruct IH as [H1 H2]. split; [done|]. by constructor.
Qed.

(** ** The log of logins after a restart *)

(** What an event does to the log: an entry, or its deletion. *)
Definition mem (m : option AuthLogEntry) (l : list AuthLogEntry) : list AuthLogEntry :=
  match m with Some e => Ring.remember MAX_AUTH_LOG e l | None => [] end.
Definition calls (m : option AuthLogEntry) (_ : list AuthLogEntry) : list (AuthLog.Table -> AuthLog.Table) :=
  [match m with Some e => AuthLog.push e | None => AuthLog.clear end].

Definition view (s : State) : Journal.journal := Journal.mk (authLog s) (authLogWrites s).

(** The dashboard while its write chain works. *)
Inductive LogEvent := Gated (now : Z) (e : Event) | Work.

Definition log_event (att : WriteChain.Db) (st : State * AuthLog.Table) (ev : LogEvent) : State * AuthLog.Table :=
  match ev with
  | Gated now e => ((gate_step now e st.1).1, st.2)
  | Work => let (c, t) := WriteChain.run_next att (authLogWrites st.1) st.2 in (with_log (authLog st.1) c st.1, t)
  end.

Abbreviation log_step att := (Journal.event mem calls att).

Lemma step_view att now e s t : exists jevs, (view (gate_step now e s).1, t) = foldl (log_step att) (view s, t) jevs.
Proof.
  assert (forall s' : State, view s' = view s -> exists jevs, (view s', t) = foldl (log_step att) (view s, t) jevs) as same
    by (intros s' ->; by exists []).
  assert (forall now ip what s', view s' = view s -> exists jevs, (view (pushAuthLog now ip what s'), t) = foldl (log_step att) (view s, t) jevs) as push.
  { intros now' ip what s' Hv. exists [Journal.Do (Some (mkAuth now' ip what))]. rewrite <- Hv. done. }
  destruct e; cbn [step].
  - unfold request, dashboard_request. destruct (pathname _); [|by apply same]. cbv zeta.
    repeat match goal with
           | |- context[isBlocked ?a ?b ?c] => destruct (isBlocked a b c)
           | |- context[if ?b then _ else _] => destruct b
           end; first [by apply same|by apply push].
  - unfold connection. destruct (dashboardEnabled _); [|by apply same]. destruct (isBlocked _ _ _) as [[] m]; [by apply push|by apply same].
  - unfold on_socket. destruct (sockets s !! ws) as [sk|]; [destruct (handled sk)|]; [|by apply same|by apply same].
    unfold ws_message. destruct (let! msg := JSON_parse raw in _) as [[msg type]|]; [|by apply same].
    destruct (is_string type _); [|by apply same]. destruct (is_string _ _); by apply push.
  - unfold authTimeout_fires. destruct (sockets s !! ws) as [sk|]; [|by apply same].
    destruct (authTimeout sk); [|by apply same]. destruct (authed sk); [by apply same|by apply push].
  - unfold on_socket. destruct (sockets s !! ws) as [sk|]; [destruct (handled sk)|]; by apply same.
  - by apply same.
  - by apply same.
  - by exists [Journal.Do None].
Qed.

Lemma events_view att evs st : exists jevs,
  (view (foldl (log_event att) st evs).1, (foldl (log_event att) st evs).2) = foldl (log_step att) (view st.1, st.2) jevs.
Proof.
  revert st. induction evs as [|ev evs IH]; intros st; [by exists []|]. cbn [foldl].
  assert (exists j1, (view (log_event att st ev).1, (log_event att st ev).2) = foldl (log_step att) (view st.1, st.2) j1) as [j1 H1].
  { destruct ev as [now e|]; [apply step_view|]. exists [Journal.Work]. cbn.
    by destruct (WriteChain.run_next att (authLogWrites st.1) st.2). }
  destruct (IH (log_event att st ev)) as [j2 H2]. exists (j1 ++ j2). by rewrite foldl_app, <- H1.
Qed.

Lemma keeps_log m l t : Ring.mirrors MAX_AUTH_LOG l t -> Ring.mirrors MAX_AUTH_LOG (mem m l) (Journal.apply_all (calls m l) t).
Proof.
  destruct m as [e|]; intros H; cbn; [apply Ring.mirrors_push; [unfold MAX_AUTH_LOG; lia|exact H]|].
  split; [split; constructor|]. split; [done|]. cbn. lia.
Qed.

Lemma loaded_log l t : Ring.mirrors MAX_AUTH_LOG l t -> reverse (AuthLog.list MAX_AUTH_LOG t) = l.
Proof. intros H. rewrite <- (Ring.mirrors_list _ _ _ H). unfold AuthLog.list, Ring.list_rows. by rewrite fmap_take. Qed.

(** The log of logins survives a restart: whatever the dashboard goes through
    while its write chain works - logins, failures, the deletion of the log -
    the flushed table is loaded again as the log in memory, provided the
    database takes every call within its retries and no acknowledgement is
    lost. *)
Theorem auth_log_survives att t evs :
  dashboardPassword <> ""%string -> Ring.wf t -> (Ring.count_rows t <= MAX_AUTH_LOG)%nat ->
  WriteChain.recovers att WriteChain.RETRY_DELAYS_MS -> WriteChain.clean att ->
  let st := foldl (log_event att) (startDashboard dashboardPassword t, t) evs in
  authLog (startDashboard dashboardPassword (flushAuthLog att st.1 st.2).2) = authLog st.1.
Proof.
  intros He%enabled_spec Hwf Hlen Hr Hc st. unfold startDashboard. rewrite He. cbn [authLog initAuthLog with_log].
  destruct (events_view att evs (startDashboard dashboardPassword t, t)) as [jevs Hj]. fold st in Hj. cbn [fst snd] in Hj.
  assert (Ring.mirrors MAX_AUTH_LOG (reverse (AuthLog.list MAX_AUTH_LOG t)) t) as Hm.
  { assert (Ring.mirrors MAX_AUTH_LOG (Ring.list_rows MAX_AUTH_LOG t) t) as H
      by (rewrite Ring.list_rows_all by done; split; [done|]; split; [done|]; by rewrite length_fmap).
    by rewrite (loaded_log _ _ H). }
  assert (view (startDashboard dashboardPassword t) = Journal.start (reverse (AuthLog.list MAX_AUTH_LOG t))) as Hs
    by (unfold startDashboard; by rewrite He).
  rewrite Hs in Hj. change (Ring.mirrors MAX_AUTH_LOG (reverse (AuthLog.list MAX_AUTH_LOG t)) t) in Hm.
  pose proof (Journal.drained mem calls (Ring.mirrors MAX_AUTH_LOG) (fun _ _ => True) (fun m l t' _ => keeps_log m l t') att jevs (reverse (AuthLog.list MAX_AUTH_LOG t)) t) as Hd.
  cbv zeta in Hd. rewrite <- Hj in Hd. cbn [fst] in Hd.
  assert ((flushAuthLog att st.1 st.2).2 = Journal.drain att (view st.1, st.2)) as ->
    by (unfold flushAuthLog, Journal.drain; cbn; done).
  apply (loaded_log (authLog st.1)), Hd; [by split; [|left]| |done].
  clear. generalize (reverse (AuthLog.list MAX_AUTH_LOG t)). induction (Journal.muts jevs) as [|m ms IH]; intros l; cbn; [done|]. split; [done|apply IH].
Qed.

End Gate.

(** ** Concrete visits *)

Definition demo_path (url : string) : outcome string := Ret url.
Definition from (ip path : string) (auth : option string) : Req := mkReq (Some "GET"%string) (Some path) None None auth (Some ip).
Definition demo_run := run "secret" demo_path (Ret "<html>"%string) (JArr []).
Definition demo_start := startDashboard "secret" Ring.empty.
Definition hello (pw : string) : string := dq ("{'type':'auth','password':'" +:+ pw +:+ "'}").

(** A guess, the password, a socket with the password and a log line. *)
Definition demo_visit : list (Z * Event) :=
  [(10, Request (from "A" "/api/status" (Some "Bearer guess"))); (20, Request (from "A" "/api/status" (Some "Bearer secret")));
   (30, Connect (from "A" "/ws" None)); (40, Message 0 (hello "secret")); (50, Log (JStr "line") (fun _ => true))]%string.

Lemma api_needs_the_password_witness :
  exists x, (demo_run demo_start demo_visit).2 !! 1%nat = Some x /\ x.2 = [HandleAPI "/api/status" (from "A" "/api/status" (Some "Bearer secret"))%string]
    /\ Forall (entitled "secret" (take 2 demo_visit)) x.2.
Proof.
  destruct ((demo_run demo_start demo_visit).2 !! 1%nat) as [x|] eqn:Hx; [|by vm_compute in Hx]. exists x.
  split; [reflexivity|]. split; [by vm_compute in Hx; injection Hx as <-|].
  exact (api_needs_the_password "secret" demo_path (Ret "<html>"%string) (JArr []) Ring.empty demo_visit 1 x Hx).
Defined.

(** Five sockets opened first, then a wrong password over each: the address is
    locked for an hour, and the sixth connection is refused. *)
Definition five_guesses : list (Z * Event) :=
  map (fun _ => (5, Connect (from "B" "/ws" None)%string)) (seq 0 5) ++ map (fun i => (6, Message i (hello "guess"))) (seq 0 5).

Example five_sockets_lock :
  failureMap (demo_run demo_start five_guesses).1 !! "B"%string = Some (mkFailure 5 (6 + LOCK_DURATION_MS))
  /\ map snd (demo_run (demo_run demo_start five_guesses).1 [(7, Connect (from "B" "/ws" None)); (8, Request (from "B" "/" None))]%string).2
     = [[WsClose 5 4029 "Too many failed attempts"]; [Respond (mkReply 429 json_type (error_body "Too many failed attempts. Try again later."))]]%string.
Proof. split; vm_compute; reflexivity. Qed.

(** Over a connection from before the lock: the password ends it. *)
Definition old_sockets : list (Z * Event) :=
  map (fun _ => (5, Connect (from "B" "/ws" None)%string)) (seq 0 6) ++ map (fun i => (6, Message i (hello "guess"))) (seq 0 5).
Definition locked_state : State := (demo_run demo_start old_sockets).1.

Example old_socket_unlocks :
  failureMap locked_state !! "B"%string = Some (mkFailure 5 (6 + LOCK_DURATION_MS))
  /\ failureMap (demo_run locked_state [(7, Message 5 (hello "secret"))]).1 !! "B"%string = None.
Proof. split; vm_compute; reflexivity. Qed.

(** A request with the password, a new connection and the password over it, and
    another guess over an old one. *)
Lemma lock_holds_witness :
  let '(s', tr) := demo_run locked_state
    [(8, Request (from "B" "/api/config" (Some "Bearer secret"))); (9, Connect (from "B" "/ws" None)); (10, Request (from "A" "/" None));
     (11, Message 6 (hello "secret")); (12, Message 5 (hello "guess"))]%string in
  (exists f, failureMap s' !! "B"%string = Some f /\ 6 + LOCK_DURATION_MS <= blockedUntil f) /\ Forall (away demo_path "B") tr.
Proof.
  set (evs := [_; _; _; _; _]).
  pose proof (lock_holds "secret" demo_path (Ret "<html>"%string) (JArr []) "B" (mkFailure 5 (6 + LOCK_DURATION_MS)) locked_state evs
    ltac:(discriminate) ltac:(vm_compute; reflexivity) ltac:(vm_compute; discriminate)) as H.
  unfold demo_run. destruct (run _ _ _ _ locked_state evs) as [s' tr].
  destruct H as ((f & Hf & _ & Hu) & _ & H2); [|by split; [exists f|]].
  repeat constructor; cbn [fst snd no_password]; try (vm_compute; (reflexivity || discriminate)).
  - intros (sk & Hs & _). vm_compute in Hs. discriminate Hs.
  - intros _ (msg & Hm & _ & Hp). vm_compute in Hm. injection Hm as <-. vm_compute in Hp. discriminate Hp.
Defined.

Lemma http_never_locks_witness :
  Forall (fun x => Forall not_locked_out x.2)
    (demo_run demo_start (map (fun i => (Z.of_nat i, Request (from "C" "/api/config" (Some "Bearer guess"))))%string (seq 1 100))).2.
Proof.
  pose proof (http_never_locks "secret" demo_path (Ret "<html>"%string) (JArr []) Ring.empty
    (map (fun i => (Z.of_nat i, Request (from "C" "/api/config" (Some "Bearer guess"))))%string (seq 1 100))) as H.
  unfold demo_run, demo_start. destruct (run _ _ _ _ _ _) as [s tr]. apply H. apply Forall_map, Forall_forall. intros i _. split; [cbn; lia|exact I].
Defined.

(** A wrong password, the log deleted, the password over a socket. *)
Definition demo_log : list LogEvent :=
  [Gated 10 (Request (from "A" "/api/status" (Some "Bearer guess"))); Work; Gated 20 DeleteAuthLog;
   Gated 30 (Connect (from "A" "/ws" None)); Gated 40 (Message 0 (hello "secret"))]%string.

Lemma auth_log_survives_witness :
  let att := fun _ _ => WriteChain.Applied in
  let st := foldl (log_event "secret" demo_path (Ret "<html>"%string) (JArr []) att) (demo_start, Ring.empty) demo_log in
  authLog (startDashboard "secret" (flushAuthLog att st.1 st.2).2) = authLog st.1 /\ map a_ts (authLog st.1) = [40].
Proof.
  pose proof (auth_log_survives "secret" demo_path (Ret "<html>"%string) (JArr []) (fun _ _ => WriteChain.Applied) Ring.empty demo_log
    ltac:(discriminate) ltac:(split; constructor) ltac:(vm_compute; lia) ltac:(intros i; exists 0%nat; split; [simpl; lia|done]) ltac:(done)) as H.
  split; [exact H|vm_compute; reflexivity].
Defined.

End GateRules.
