(* ===== verification/Settings.v ===== *)
(** * The settings ([src/config.ts], [src/utils/env.ts], PATCH /api/config of [src/dashboard/server.ts])

    The settings the dashboard can change, read from the environment when the
    process starts and written back to its [.env] file.  A setting is a key -
    [Flag], [Number], [WalletSet], [Mode], and the targets of a [Dex] - with the
    variable it is stored in; a [Config] gives each its value.  [new PublicKey] is
    the library's: the text of the key it makes, or an exception.  What the handler
    does besides (the file of the concentration limits, the poller, the timer, the
    subscriptions) is the list [effects].  Left out: the settings that only the
    environment sets, and the log lines.  The module [EnvFile] comes first: the environment file. *)

From Stdlib Require Import Ascii.
From S2P Require Import Prelude JsMap JsString JsNumber Json JsConvert Stores.
Open Scope list_scope.

(** * The environment file ([src/utils/env.ts])

    [updateEnvFile] on the text of the file: for each variable the first line
    that assigns it is replaced, or a line is added.  A line ends before a line
    feed or a carriage return, as [.] and [$] of the expression have it (the
    separators U+2028 and U+2029 are left out).  The name goes into the expression
    as it is: the model is for names of letters, digits and underscores, which
    all the callers pass.  [updates_hold]: what is written to a plain file is what
    [dotenv] then reads, and nothing else changes. *)

Module EnvFile.

(** ** Lines *)

Definition is_break (c : ascii) : bool := bool_decide (c = ascii_of_nat 10) || bool_decide (c = ascii_of_nat 13).

(** The first line, and each following with the character before it. *)
Definition Lines : Type := string * list (ascii * string).

Fixpoint lines (s : string) : Lines :=
  match s with
  | EmptyString => (EmptyString, [])
  | String c s' =>
      let (l, r) := lines s' in
      if is_break c then (EmptyString, (c, l) :: r) else (String c l, r)
  end.

Definition rest_text (r : list (ascii * string)) : string := foldr (fun cl s => String cl.1 (cl.2 +:+ s)) EmptyString r.
Definition text (ls : Lines) : string := ls.1 +:+ rest_text ls.2.

(** ** [updateEnvFile] *)

(** [$$], [$&], [$`] and [$'] in a replacement. *)
Fixpoint expand (before line after : string) (s : string) : string :=
  match s with
  | EmptyString => EmptyString
  | String c s' =>
      if bool_decide (c = "$"%char) then
        match s' with
        | String d s'' =>
            if bool_decide (d = "$"%char) then String "$" (expand before line after s'')
            else if bool_decide (d = "&"%char) then line +:+ expand before line after s''
            else if bool_decide (d = "`"%char) then before +:+ expand before line after s''
            else if bool_decide (d = "'"%char) then after +:+ expand before line after s''
            else String c (expand before line after s')
        | EmptyString => String c EmptyString
        end
      else String c (expand before line after s')
  end.

Definition assigns (key line : string) : bool := startsWith line (key +:+ "=").

(** The rest of the file with the first assignment of [key] replaced. *)
Fixpoint replace_rest (key value before : string) (r : list (ascii * string)) : option (list (ascii * string)) :=
  match r with
  | [] => None
  | (c, l) :: r' =>
      let before' := before +:+ String c EmptyString in
      if assigns key l then Some ((c, expand before' l (rest_text r') (key +:+ "=" +:+ value)) :: r')
      else (fun x => (c, l) :: x) <$> replace_rest key value (before' +:+ l) r'
  end.

Definition set_variable (key value : string) (content : string) : string :=
  let (l, r) := lines content in
  if assigns key l then text (expand "" l (rest_text r) (key +:+ "=" +:+ value), r)
  else
    match replace_rest key value l r with
    | Some r' => text (l, r')
    | None => content +:+ String (ascii_of_nat 10) (key +:+ "=" +:+ value)
    end.

(** [None] when the file cannot be read. *)
Definition updateEnvFile (updates : list (string * string)) (file : option string) : string :=
  foldl (fun content kv => set_variable kv.1 kv.2 content) (default "" file) updates.

(** ** What the file assigns *)

(** The lines that assign [key]. *)
Definition line_list (ls : Lines) : list string := ls.1 :: ls.2.*2.
Definition assignments (key content : string) : list string := List.filter (assigns key) (line_list (lines content)).
Definition assigned_value (key line : string) : string := skip (String.length key + 1) line.

(** A name of a variable, and a value, that the expression takes as they are. *)
Definition word (k : string) : bool := all_chars is_word k.
Definition name (k : string) : bool := truthy k && word k.
Definition simple (v : string) : bool := all_chars (fun c => negb (bool_decide (c = "$"%char) || is_break c)) v.

(** *** The reader

    The process reads the file with the library [dotenv].  On a plain file - each
    line blank, a comment, or an assignment of a value without quotes, [#] or
    white space at its ends - it gives a variable the value of the last line that
    assigns it; what it makes of other files (quotes, escapes, comments after a
    value, several lines) is left to it. *)

Definition plain_char (c : ascii) : bool :=
  negb (bool_decide (c ∈ [ascii_of_nat 34; "'"; "`"; "#"]%char) || is_break c).
Definition plain_value (v : string) : bool := all_chars plain_char v && bool_decide (trim v = v).
Definition plain_line (l : string) : bool :=
  all_chars is_white l || startsWith l "#"
  || match span (fun c => negb (bool_decide (c = "="%char))) l with
     | (k, String _ v) => name k && plain_value v
     | (_, EmptyString) => false
     end.
Definition plain (content : string) : bool := forallb plain_line (line_list (lines content)).

Class Dotenv := {
  parse : string -> string -> option string;
  parse_plain : forall key content, name key = true -> plain content = true ->
    parse key content = assigned_value key <$> list.last (assignments key content);
}.

Definition unbroken (l : string) : bool := all_chars (fun c => negb (is_break c)) l.
Definition wf (ls : Lines) : Prop := unbroken ls.1 = true /\ Forall (fun cl => is_break cl.1 = true /\ unbroken cl.2 = true) ls.2.

Lemma wf_lines s : wf (lines s).
Proof.
  induction s as [|c s [H1 H2]]; cbn; [by split|]. destruct (lines s) as [l r]. cbn in *.
  destruct (is_break c) eqn:Hc; (split; [|try constructor; done]); [done|]. cbn. by rewrite Hc.
Qed.

Lemma text_lines s : text (lines s) = s.
Proof.
  induction s as [|c s IH]; [done|]. cbn [lines]. destruct (lines s) as [l r]. destruct (is_break c); rewrite <- IH; done.
Qed.

Lemma lines_line l s : unbroken l = true -> lines (l +:+ s) = (l +:+ (lines s).1, (lines s).2).
Proof.
  induction l as [|c l IH]; [intros _; exact (surjective_pairing (lines s))|]. intros [Hc Hl]%andb_true_iff.
  change (lines (String c (l +:+ s)) = (String c (l +:+ (lines s).1), (lines s).2)). cbn [lines]. rewrite (IH Hl).
  apply negb_true_iff in Hc. by rewrite Hc.
Qed.

Lemma app_empty s : (s +:+ "")%string = s.
Proof. induction s as [|c s IH]; [done|]. change (String c (s +:+ "") = String c s). by rewrite IH. Qed.

Lemma lines_text ls : wf ls -> lines (text ls) = ls.
Proof.
  destruct ls as [l r]. unfold text. cbn [fst snd]. intros [Hl Hr]. cbn in *. rewrite lines_line by done.
  assert (lines (rest_text r) = (""%string, r)) as ->; [|by rewrite app_empty].
  induction Hr as [|[c x] r [Hc Hx] _ IH]; [done|]. cbn [rest_text foldr fst snd lines]. fold (rest_text r).
  cbn in Hc, Hx. rewrite lines_line by done. rewrite IH. cbn. by rewrite Hc, app_empty.
Qed.

(** *** A replacement that is taken as it is *)

Lemma expand_simple b l a s : simple s = true -> expand b l a s = s.
Proof.
  induction s as [|c s IH]; [done|]. intros [Hc Hs]%andb_true_iff. cbn [expand].
  apply negb_true_iff, orb_false_iff in Hc as [-> _]. by rewrite IH.
Qed.

Lemma name_word k : name k = true -> word k = true.
Proof. by intros [_ Hk]%andb_true_iff. Qed.

Lemma simple_line k v : name k = true -> simple v = true -> simple (k +:+ "=" +:+ v) = true.
Proof.
  intros Hk%name_word Hv. unfold simple in *. rewrite all_chars_app, andb_true_iff. split; [|exact Hv].
  eapply all_chars_impl; [|exact Hk]. intros [[] [] [] [] [] [] [] []]; (done || (intros _; reflexivity)).
Qed.

Lemma simple_unbroken s : simple s = true -> unbroken s = true.
Proof. apply all_chars_impl. intros c. rewrite !negb_true_iff, !orb_false_iff. tauto. Qed.

(** *** Assignments *)

Lemma assigns_same k v : assigns k (k +:+ "=" +:+ v) = true.
Proof.
  unfold assigns. apply startsWith_true. exists v. apply string_app_assoc.
Qed.

Lemma value_same k v : assigned_value k (k +:+ "=" +:+ v) = v.
Proof. unfold assigned_value. induction k as [|c k IH]; [done|exact IH]. Qed.

(** A line assigns one name. *)
Lemma assigns_name k k' v : name k = true -> name k' = true -> assigns k' (k +:+ "=" +:+ v) = true -> k' = k.
Proof.
  unfold assigns. intros Hk%name_word Hk'%name_word [t Ht]%startsWith_true. revert k' Hk' Ht. unfold word in *.
  induction k as [|c k IH]; intros [|c' k'] Hk' Ht; [done| | |].
  - change (String "=" v = String c' ((k' +:+ "=") +:+ t)) in Ht. by injection Ht as <- _.
  - change (String c (k +:+ "=" +:+ v) = String "=" t) in Ht. by injection Ht as -> _.
  - change (String c (k +:+ "=" +:+ v) = String c' ((k' +:+ "=") +:+ t)) in Ht. injection Ht as -> Ht.
    apply andb_true_iff in Hk as [_ Hk], Hk' as [_ Hk']. f_equal. by apply IH.
Qed.

(** *** One variable *)

(** The first assignment is replaced. *)
Lemma replace_rest_lines k v b r r' : name k = true -> simple v = true -> replace_rest k v b r = Some r' ->
  (exists p l q, r.*2 = p ++ l :: q /\ assigns k l = true /\ List.filter (assigns k) p = [] /\ r'.*2 = p ++ (k +:+ "=" +:+ v)%string :: q)
  /\ (Forall (fun cl => is_break cl.1 = true /\ unbroken cl.2 = true) r -> Forall (fun cl => is_break cl.1 = true /\ unbroken cl.2 = true) r').
Proof.
  intros Hk Hv. revert b r'. induction r as [|[c l] r IH]; intros b r' H; cbn in H; [done|].
  destruct (assigns k l) eqn:Hl.
  - injection H as <-. rewrite expand_simple by by apply simple_line. split.
    + by exists [], l, r.*2.
    + intros Hr. apply list.Forall_cons in Hr as [[H1 H2] Hr]. constructor; [|done]. split; [done|]. cbn. by apply simple_unbroken, simple_line.
  - destruct (replace_rest k v _ r) as [x|] eqn:Hx; cbn in H; [|done]. injection H as <-.
    destruct (IH _ _ Hx) as ((p & l' & q & H1 & H2 & H3 & H4) & H5). split.
    + exists (l :: p), l', q. cbn. rewrite Hl, H1, H4. done.
    + intros Hr. apply list.Forall_cons in Hr as [Hcl Hr]. constructor; auto.
Qed.

Lemma replace_rest_none k v b r : replace_rest k v b r = None -> List.filter (assigns k) r.*2 = [].
Proof.
  revert b. induction r as [|[c l] r IH]; intros b H; cbn in *; [done|]. destruct (assigns k l); [done|].
  destruct (replace_rest _ _ _ r) eqn:Hx; [done|]. by eapply IH.
Qed.

Lemma text_snoc l r c x : (text (l, r) +:+ String c x)%string = text (l, r ++ [(c, x)]).
Proof.
  unfold text. cbn [fst snd]. rewrite <- string_app_assoc. f_equal. induction r as [|[d y] r IH].
  - change (String c x = String c (x +:+ "")). by rewrite app_empty.
  - change (String d (y +:+ rest_text r) +:+ String c x = String d (y +:+ rest_text (r ++ [(c, x)])))%string. rewrite <- IH.
    change (String d ((y +:+ rest_text r) +:+ String c x) = String d (y +:+ rest_text r +:+ String c x)). by rewrite string_app_assoc.
Qed.

Lemma line_list_text ls : wf ls -> line_list (lines (text ls)) = line_list ls.
Proof. intros Hw. by rewrite lines_text. Qed.

(** The lines after [set_variable]. *)
Definition replaced (k v : string) (ls ls' : list string) : Prop :=
  (exists p l q, ls = p ++ l :: q /\ assigns k l = true /\ List.filter (assigns k) p = [] /\ ls' = p ++ (k +:+ "=" +:+ v)%string :: q)
  \/ List.filter (assigns k) ls = [] /\ ls' = ls ++ [(k +:+ "=" +:+ v)%string].

Lemma set_variable_lines k v content : name k = true -> simple v = true ->
  replaced k v (line_list (lines content)) (line_list (lines (set_variable k v content))).
Proof.
  intros Hk Hv. pose proof (wf_lines content) as Hw. pose proof (text_lines content) as Ht.
  unfold set_variable. destruct (lines content) as [l r]. destruct Hw as [Hwl Hwr].
  assert (unbroken (k +:+ "=" +:+ v) = true) as Hu by by apply simple_unbroken, simple_line.
  destruct (assigns k l) eqn:Hl.
  - left. exists [], l, r.*2. rewrite expand_simple by by apply simple_line. rewrite line_list_text by by split. done.
  - destruct (replace_rest k v l r) as [r'|] eqn:Hr.
    + left. destruct (replace_rest_lines k v l r r' Hk Hv Hr) as ((p & l' & q & H1 & H2 & H3 & H4) & H5).
      exists (l :: p), l', q. rewrite line_list_text by (split; [done|by apply H5]).
      unfold line_list. cbn. rewrite Hl, H1, H4. done.
    + right. rewrite <- Ht, text_snoc, line_list_text.
      2:{ split; [done|]. apply Forall_app. split; [done|]. by constructor. }
      apply replace_rest_none in Hr. unfold line_list. cbn. rewrite Hl, Hr, fmap_app. done.
Qed.

Lemma assigns_other k k' l : name k = true -> name k' = true -> k' <> k -> assigns k l = true -> assigns k' l = false.
Proof.
  intros Hk Hk' Hne [x Hx]%startsWith_true. destruct (assigns k' l) eqn:Ha; [|done]. exfalso. apply Hne.
  apply (assigns_name k k' x); [done..|]. by rewrite Hx, <- string_app_assoc in Ha.
Qed.

(** What assigns each variable then. *)
Lemma set_variable_assignments k v content : name k = true -> simple v = true ->
  assignments k (set_variable k v content) = (k +:+ "=" +:+ v)%string :: tail (assignments k content)
  /\ forall k', name k' = true -> k' <> k -> assignments k' (set_variable k v content) = assignments k' content.
Proof.
  intros Hk Hv. unfold assignments.
  assert (forall k', name k' = true -> k' <> k -> assigns k' (k +:+ "=" +:+ v) = false) as Hother.
  { intros k' Hk' Hne. apply (assigns_other k); [done..|]. apply assigns_same. }
  destruct (set_variable_lines k v content Hk Hv) as [(p & l & q & -> & Hl & Hp & ->)|[Hn ->]].
  - split.
    + rewrite !List.filter_app, Hp. cbn. by rewrite Hl, assigns_same.
    + intros k' Hk' Hne. rewrite !List.filter_app. cbn. by rewrite (Hother k'), (assigns_other k k' l).
  - rewrite Hn. split.
    + rewrite List.filter_app, Hn. cbn. by rewrite assigns_same.
    + intros k' Hk' Hne. rewrite List.filter_app. cbn. rewrite (Hother k') by done. apply app_nil_r.
Qed.

Lemma span_name p k c v : all_chars p k = true -> p c = false -> span p (k +:+ String c v) = (k, String c v).
Proof.
  intros Hk Hc. induction k as [|d k IH]; cbn [all_chars] in Hk.
  { change (span p (String c v) = (""%string, String c v)). cbn [span]. by rewrite Hc. }
  apply andb_true_iff in Hk as [Hd Hk]. change (span p (String d (k +:+ String c v)) = (String d k, String c v)).
  cbn [span]. by rewrite Hd, (IH Hk).
Qed.

Lemma plain_assignment k v : name k = true -> plain_value v = true -> plain_line (k +:+ "=" +:+ v) = true.
Proof.
  intros Hk Hv. unfold plain_line. change ("=" +:+ v)%string with (String "=" v).
  rewrite span_name; [by rewrite Hk, Hv, orb_true_r| |done].
  eapply all_chars_impl; [|exact (name_word k Hk)]. intros [[] [] [] [] [] [] [] []]; (done || (intros _; reflexivity)).
Qed.

Lemma set_variable_plain k v content : name k = true -> simple v = true -> plain_value v = true ->
  plain content = true -> plain (set_variable k v content) = true.
Proof.
  intros Hk Hv Hpv. unfold plain. destruct (set_variable_lines k v content Hk Hv) as [(p & l & q & -> & _ & _ & ->)|[_ ->]];
    rewrite !forallb_app; cbn; rewrite ?plain_assignment by done; rewrite ?andb_true_iff; tauto.
Qed.

(** *** All the updates *)

Definition writable (updates : list (string * string)) : Prop :=
  wf_map updates /\ Forall (fun kv => name kv.1 = true /\ simple kv.2 = true /\ plain_value kv.2 = true) updates.

Lemma updates_plain updates content : writable updates -> plain content = true -> plain (updateEnvFile updates (Some content)) = true.
Proof.
  intros [_ Hok]. unfold updateEnvFile. change (default ""%string (Some content)) with content. revert content.
  induction Hok as [|[k v] updates (H1 & H2 & H3) Hok IH]; intros content Hp; [done|]. by apply IH, set_variable_plain.
Qed.

Lemma updates_assignments updates content k : writable updates -> name k = true ->
  assignments k (updateEnvFile updates (Some content))
  = match jget k updates with
    | Some v => (k +:+ "=" +:+ v)%string :: tail (assignments k content)
    | None => assignments k content
    end.
Proof.
  intros [Hwf Hok] Hk. unfold updateEnvFile. change (default ""%string (Some content)) with content. revert Hwf content.
  induction Hok as [|[k0 v0] updates (H1 & H2 & _) Hok IH]; intros Hwf content; [done|]. cbn [foldl fst snd] in *.
  apply list.NoDup_cons in Hwf as [Hn Hwf]. rewrite IH by done.
  destruct (set_variable_assignments k0 v0 content H1 H2) as [Hs Ho]. cbn [jget].
  destruct (decide (k0 = k)) as [->|Hne].
  - rewrite (proj2 (jget_None_keys k updates) Hn). by rewrite decide_True.
  - rewrite decide_False by done. rewrite Ho by done. done.
Qed.

Lemma parse_updated `{Dotenv} updates content k : writable updates -> plain content = true -> name k = true ->
  parse k (updateEnvFile updates (Some content))
  = match jget k updates with
    | Some v => if bool_decide (length (assignments k content) <= 1)%nat then Some v else parse k content
    | None => parse k content
    end.
Proof.
  intros Hu Hp Hk. rewrite !parse_plain, updates_assignments by (done || by apply updates_plain).
  destruct (jget k updates) as [v|]; [|done].
  destruct (assignments k content) as [|x [|y t]]; cbn [tail length]; [|by rewrite bool_decide_true by lia; cbn; rewrite value_same..|].
  - rewrite bool_decide_true by lia. cbn. by rewrite value_same.
  - rewrite bool_decide_false by lia. done.
Qed.

(** C24: What [updateEnvFile] writes is what the next start reads, from a plain file
    in which the variable is assigned once or not at all.  For values that are
    plain and have no [$], in any order, whatever comments and other line ends
    the file has, and when it is missing or does not end with a line feed: the
    file is plain again; a variable of the updates has its new value, unless the
    file assigned it on more than one line, when it keeps the value it had, since
    [updateEnvFile] replaces the first of them and [dotenv] takes the last; every
    other variable has the value it had; and no variable is assigned on more
    lines than before, or than one. *)
Theorem updates_hold `{Dotenv} updates file k :
  let content := default ""%string file in
  let file' := updateEnvFile updates file in
  wf_map updates -> Forall (fun kv => name kv.1 = true /\ simple kv.2 = true /\ plain_value kv.2 = true) updates ->
  plain content = true -> name k = true ->
  plain file' = true
  /\ parse k file' = match jget k updates with
                     | Some v => if bool_decide (length (assignments k content) <= 1)%nat then Some v else parse k content
                     | None => parse k content
                     end
  /\ (length (assignments k file') <= Nat.max 1 (length (assignments k content)))%nat.
Proof.
  intros content file' Hwf Hok Hp Hk. assert (writable updates) as Hu by done.
  assert (file' = updateEnvFile updates (Some content)) as -> by done. split_and!.
  - by apply updates_plain.
  - by apply parse_updated.
  - rewrite updates_assignments by done. destruct (jget k updates); [|lia].
    destruct (assignments k content); cbn [tail length]; lia.
Qed.

Definition demo_file : string := dq "# bot
DRY_RUN=false
AMOUNT_RATIO=1.0".

Example update_run :
  updateEnvFile [("DRY_RUN", "true"); ("TARGET_WALLETS", "WalA:0.5,WalB")]%string (Some demo_file) = dq "# bot
DRY_RUN=true
AMOUNT_RATIO=1.0
TARGET_WALLETS=WalA:0.5,WalB".
Proof. reflexivity. Qed.

(** A reader that looks at assignments only. *)
Definition reads_last : Dotenv := {|
  parse := fun key content => assigned_value key <$> list.last (assignments key content);
  parse_plain := fun _ _ _ _ => eq_refl
|}.

(** A variable assigned twice: the first line is written, the last one is read. *)
Definition doubled_file : string := dq "SLIPPAGE_BPS=50
DRY_RUN=true
DRY_RUN=false
SLIPPAGE_BPS=100".

Example duplicate_update_lost (D : Dotenv) :
  updateEnvFile [("SLIPPAGE_BPS", "30")]%string (Some doubled_file) = dq "SLIPPAGE_BPS=30
DRY_RUN=true
DRY_RUN=false
SLIPPAGE_BPS=100"
  /\ parse "SLIPPAGE_BPS" (updateEnvFile [("SLIPPAGE_BPS", "30")]%string (Some doubled_file)) = Some "100"%string.
Proof. split; [reflexivity|]. rewrite parse_plain; reflexivity. Qed.

Lemma updates_hold_witness :
  let u := [("DRY_RUN", "true"); ("TARGET_WALLETS", "WalA:0.5,WalB")]%string in
  parse (Dotenv := reads_last) "DRY_RUN" (updateEnvFile u (Some demo_file)) = Some "true"%string
  /\ parse (Dotenv := reads_last) "AMOUNT_RATIO" (updateEnvFile u (Some demo_file)) = Some "1.0"%string
  /\ parse (Dotenv := reads_last) "DRY_RUN" (updateEnvFile u (Some doubled_file)) = Some "false"%string.
Proof.
  intros u. pose proof reads_last as D.
  assert (wf_map u) as Hw by (apply (bool_decide_unpack _); vm_compute; exact I).
  assert (Forall (fun kv => name kv.1 = true /\ simple kv.2 = true /\ plain_value kv.2 = true) u) as Hu
    by (repeat constructor; vm_compute; reflexivity).
  split_and!.
  - exact (proj1 (proj2 (updates_hold (H := reads_last) u (Some demo_file) "DRY_RUN" Hw Hu eq_refl eq_refl))).
  - exact (proj1 (proj2 (updates_hold (H := reads_last) u (Some demo_file) "AMOUNT_RATIO" Hw Hu eq_refl eq_refl))).
  - exact (proj1 (proj2 (updates_hold (H := reads_last) u (Some doubled_file) "DRY_RUN" Hw Hu eq_refl eq_refl))).
Defined.

End EnvFile.

Open Scope Z_scope.

Module Settings.
Import OpenedReferers(parseWalletSet, serializeWalletSet, normalizeByrealAllowSameTickWallets).

(** ** The settings and where they are stored *)

Inductive Dex := byreal | orca | meteora | pcs | dammv2.
#[export] Instance Dex_eq_dec : EqDecision Dex.
Proof. solve_decision. Defined.

Inductive Flag := dryRun | allowSameWalletReopen | skipSameTickRange | SkipSol (d : Dex) | autoClaimEnabled.
#[export] Instance Flag_eq_dec : EqDecision Flag.
Proof. solve_decision. Defined.

Inductive Number := amountRatio | slippageBps | maxRetry | priorityFeeLamports | byrealMaxOpenPositions | minPoolAgeDays
  | maxCoinConcentrationUsd | maxCoinConcentrationPct | drawdownThresholdPct | tokenLossStreakLimit | tokenCooldownMinutes
  | minPoolTvl | poolTvlRefreshMinutes.
#[export] Instance Number_eq_dec : EqDecision Number.
Proof. solve_decision. Defined.

Inductive WalletSet := CloseOnly (d : Dex) | byrealAllowSameTickWallets | byrealAllowOpenAfterOthersWallets
  | poolAgeWhitelist | poolTvlWhitelist | tokenBlacklist | tokenWhitelist.
#[export] Instance WalletSet_eq_dec : EqDecision WalletSet.
Proof. solve_decision. Defined.

Inductive Mode := pumpFilterMode | jupSwapMode | tvlSource.
#[export] Instance Mode_eq_dec : EqDecision Mode.
Proof. solve_decision. Defined.

(** The field of the request. *)
Definition dex_name (d : Dex) : string :=
  match d with byreal => "byreal" | orca => "orca" | meteora => "meteora" | pcs => "pcs" | dammv2 => "dammv2" end.
(** [targetWallets] of Byreal, [orcaTargetWallets] of Orca. *)
Definition dex_field (d : Dex) (lower upper : string) : string := match d with byreal => lower | _ => dex_name d +:+ upper end.
Definition dex_env (d : Dex) : string :=
  match d with byreal => "" | orca => "ORCA_" | meteora => "METEORA_" | pcs => "PCS_" | dammv2 => "DAMMV2_" end.

Definition flag_field (f : Flag) : string :=
  match f with
  | dryRun => "dryRun" | allowSameWalletReopen => "allowSameWalletReopen" | skipSameTickRange => "skipSameTickRange"
  | SkipSol d => dex_name d +:+ "SkipSol" | autoClaimEnabled => "autoClaimEnabled"
  end.
Definition flag_env (f : Flag) : string :=
  match f with
  | dryRun => "DRY_RUN" | allowSameWalletReopen => "ALLOW_SAME_WALLET_REOPEN" | skipSameTickRange => "SKIP_SAME_TICK_RANGE"
  | SkipSol byreal => "BYREAL_SKIP_SOL" | SkipSol d => dex_env d +:+ "SKIP_SOL" | autoClaimEnabled => "AUTO_CLAIM_ENABLED"
  end.

Definition number_name (n : Number) : string :=
  match n with
  | amountRatio => "amountRatio" | slippageBps => "slippageBps" | maxRetry => "maxRetry" | priorityFeeLamports => "priorityFeeLamports"
  | byrealMaxOpenPositions => "byrealMaxOpenPositions" | minPoolAgeDays => "minPoolAgeDays"
  | maxCoinConcentrationUsd => "maxCoinConcentrationUsd" | maxCoinConcentrationPct => "maxCoinConcentrationPct"
  | drawdownThresholdPct => "drawdownThresholdPct" | tokenLossStreakLimit => "tokenLossStreakLimit"
  | tokenCooldownMinutes => "tokenCooldownMinutes" | minPoolTvl => "minPoolTvl" | poolTvlRefreshMinutes => "poolTvlRefreshMinutes"
  end.
Definition number_env (n : Number) : string :=
  match n with
  | amountRatio => "AMOUNT_RATIO" | slippageBps => "SLIPPAGE_BPS" | maxRetry => "MAX_RETRY" | priorityFeeLamports => "PRIORITY_FEE_LAMPORTS"
  | byrealMaxOpenPositions => "BYREAL_MAX_OPEN_POSITIONS" | minPoolAgeDays => "MIN_POOL_AGE_DAYS"
  | maxCoinConcentrationUsd => "MAX_COIN_CONCENTRATION_USD" | maxCoinConcentrationPct => "MAX_COIN_CONCENTRATION_PCT"
  | drawdownThresholdPct => "DRAWDOWN_THRESHOLD_PCT" | tokenLossStreakLimit => "TOKEN_LOSS_STREAK_LIMIT"
  | tokenCooldownMinutes => "TOKEN_COOLDOWN_MINUTES" | minPoolTvl => "MIN_POOL_TVL" | poolTvlRefreshMinutes => "POOL_TVL_REFRESH_MINUTES"
  end.

Definition set_name (s : WalletSet) : string :=
  match s with
  | CloseOnly d => dex_field d "closeOnlyWallets" "CloseOnlyWallets" | byrealAllowSameTickWallets => "byrealAllowSameTickWallets"
  | byrealAllowOpenAfterOthersWallets => "byrealAllowOpenAfterOthersWallets" | poolAgeWhitelist => "poolAgeWhitelist"
  | poolTvlWhitelist => "poolTvlWhitelist" | tokenBlacklist => "tokenBlacklist" | tokenWhitelist => "tokenWhitelist"
  end.
Definition set_env (s : WalletSet) : string :=
  match s with
  | CloseOnly d => dex_env d +:+ "CLOSE_ONLY_WALLETS" | byrealAllowSameTickWallets => "BYREAL_ALLOW_SAME_TICK_WALLETS"
  | byrealAllowOpenAfterOthersWallets => "BYREAL_ALLOW_OPEN_AFTER_OTHERS_WALLETS" | poolAgeWhitelist => "POOL_AGE_WHITELIST"
  | poolTvlWhitelist => "POOL_TVL_WHITELIST" | tokenBlacklist => "TOKEN_BLACKLIST" | tokenWhitelist => "TOKEN_WHITELIST"
  end.

Definition mode_name (m : Mode) : string := match m with pumpFilterMode => "pumpFilterMode" | jupSwapMode => "jupSwapMode" | tvlSource => "tvlSource" end.
Definition mode_env (m : Mode) : string := match m with pumpFilterMode => "PUMP_FILTER_MODE" | jupSwapMode => "JUP_SWAP_MODE" | tvlSource => "TVL_SOURCE" end.
Definition mode_values (m : Mode) : list string :=
  match m with pumpFilterMode => ["off"; "full"; "discord"] | jupSwapMode => ["metis"; "ultra"] | tvlSource => ["dex"; "jupiter"] end%string.

Definition targets_env (d : Dex) : string := dex_env d +:+ "TARGET_WALLETS".

(** ** The configuration *)

Record Config := mkConfig {
  flag : Flag -> bool;
  number : Number -> num;
  set : WalletSet -> list string;
  mode : Mode -> string;
  targetWallets : Dex -> list string;
  walletAmountRatios : Dex -> list (string * num);
  enabled : Dex -> bool;                                       (** not used for Byreal *)
  coinConcentrationOverrides : list (Json * (Json * Json));    (** mint, usd, pct *)
}.

Definition fupd {K V} `{EqDecision K} (f : K -> V) (k : K) (v : V) : K -> V := fun k' => if decide (k' = k) then v else f k'.

Definition with_flag (k : Flag) (v : bool) (c : Config) : Config :=
  mkConfig (fupd (flag c) k v) (number c) (set c) (mode c) (targetWallets c) (walletAmountRatios c) (enabled c) (coinConcentrationOverrides c).
Definition with_number (k : Number) (v : num) (c : Config) : Config :=
  mkConfig (flag c) (fupd (number c) k v) (set c) (mode c) (targetWallets c) (walletAmountRatios c) (enabled c) (coinConcentrationOverrides c).
Definition with_set (k : WalletSet) (v : list string) (c : Config) : Config :=
  mkConfig (flag c) (number c) (fupd (set c) k v) (mode c) (targetWallets c) (walletAmountRatios c) (enabled c) (coinConcentrationOverrides c).
Definition with_mode (k : Mode) (v : string) (c : Config) : Config :=
  mkConfig (flag c) (number c) (set c) (fupd (mode c) k v) (targetWallets c) (walletAmountRatios c) (enabled c) (coinConcentrationOverrides c).
Definition with_targets (k : Dex) (v : list string) (c : Config) : Config :=
  mkConfig (flag c) (number c) (set c) (mode c) (fupd (targetWallets c) k v) (walletAmountRatios c) (enabled c) (coinConcentrationOverrides c).
Definition with_ratios (k : Dex) (v : list (string * num)) (c : Config) : Config :=
  mkConfig (flag c) (number c) (set c) (mode c) (targetWallets c) (fupd (walletAmountRatios c) k v) (enabled c) (coinConcentrationOverrides c).
Definition with_enabled (k : Dex) (v : bool) (c : Config) : Config :=
  mkConfig (flag c) (number c) (set c) (mode c) (targetWallets c) (walletAmountRatios c) (fupd (enabled c) k v) (coinConcentrationOverrides c).
Definition with_overrides (v : list (Json * (Json * Json))) (c : Config) : Config :=
  mkConfig (flag c) (number c) (set c) (mode c) (targetWallets c) (walletAmountRatios c) (enabled c) v.

(** ** Reading the environment ([src/config.ts]) *)

Abbreviation Environment := (gmap string string).

Definition requireEnv (env : Environment) (name : string) : outcome string :=
  let v := default "" (env !! name) in
  if truthy v then Ret v else Throw ("Missing required env var: " +:+ name)%string.

Definition requireDatabaseUrl (env : Environment) : outcome string :=
  let v := default "" (env !! "DATABASE_URL"%string) in if truthy v then Ret v else Throw "DATABASE_URL is not set."%string.

(** [process.env.X || d] *)
Definition env_or (env : Environment) (name d : string) : string :=
  let v := default "" (env !! name) in if truthy v then v else d.

Definition MAX_SAFE_INTEGER : Z := 9007199254740991.

(** [value] undefined or null, or what [String] makes of it. *)
Definition normalizeByrealMaxOpenPositions (value : option string) : num :=
  let raw := trim (default "" value) in
  if negb (truthy raw) then num_of_Z 0
  else if negb (all_chars is_digit raw) then num_of_Z 0
  else
    match digits_val 10 0 raw with
    | Some z => if z <=? MAX_SAFE_INTEGER then num_of_Z z else num_of_Z 0
    | None => num_of_Z 0
    end.

(** [s.lastIndexOf(':')] with what comes before and after it. *)
Fixpoint split_last_colon (s : string) : option (string * string) :=
  match s with
  | EmptyString => None
  | String c s' =>
      match split_last_colon s' with
      | Some (a, b) => Some (String c a, b)
      | None => if bool_decide (c = ":"%char) then Some (EmptyString, s') else None
      end
  end.

(** An entry of a list of targets: the address and its ratio. *)
Definition target_entry (s : string) : string * option num :=
  match split_last_colon s with
  | Some (String c a, b) =>
      let addr := trim (String c a) in
      let ratio := parseFloat (trim b) in
      (addr, if negb (is_nan ratio) && nlt (num_of_Z 0) ratio then Some ratio else None)
  | _ => (s, None)
  end.

Section Keys.
Context (PublicKey : string -> outcome string).

Fixpoint read_entries (ss : list string) (wallets : list string) (ratios : list (string * num)) : outcome (list string * list (string * num)) :=
  match ss with
  | [] => Ret (wallets, ratios)
  | s :: ss' =>
      let (addr, r) := target_entry s in
      let! key := PublicKey addr in
      read_entries ss' (wallets ++ [key]) (match r with Some x => jset addr x ratios | None => ratios end)
  end.

Definition parseTargetWallets (raw : string) : outcome (list string * list (string * num)) :=
  read_entries (keep truthy (map trim (split_on "," raw))) [] [].

(** [=== 'true'] for most, [!== 'false'] for those on by default. *)
Definition read_flag (f : Flag) (env : Environment) : bool :=
  match f with
  | SkipSol _ => negb (bool_decide (env !! flag_env f = Some "false"%string))
  | _ => bool_decide (env !! flag_env f = Some "true"%string)
  end.

(** What parses a number and what stands for a missing one. *)
Definition parse_number (n : Number) : string -> num :=
  match n with
  | amountRatio | maxCoinConcentrationUsd | maxCoinConcentrationPct | drawdownThresholdPct | minPoolTvl | poolTvlRefreshMinutes => parseFloat
  | byrealMaxOpenPositions => fun s => normalizeByrealMaxOpenPositions (Some s)
  | _ => parseInt
  end.
Definition number_default (n : Number) : string :=
  match n with
  | amountRatio => "1.0" | slippageBps => "200" | maxRetry => "3" | priorityFeeLamports => "50000" | drawdownThresholdPct => "20"
  | tokenLossStreakLimit => "3" | tokenCooldownMinutes => "60" | poolTvlRefreshMinutes => "60" | _ => "0"
  end.
Definition read_number (n : Number) (env : Environment) : num := parse_number n (env_or env (number_env n) (number_default n)).

Definition read_set (s : WalletSet) (env : Environment) : list string := parseWalletSet (env_or env (set_env s) "").

Definition read_mode (m : Mode) (env : Environment) : string :=
  env_or env (mode_env m)
    (match m with
     | pumpFilterMode => if bool_decide (env !! "IGNORE_PUMP_TOKENS"%string = Some "true"%string) then "full" else "off"
     | jupSwapMode => "ultra"
     | tvlSource => "dex"
     end).

Definition read_targets (d : Dex) (env : Environment) : outcome (list string * list (string * num)) :=
  match d with
  | byreal =>
      let v := env_or env (targets_env byreal) "" in
      if truthy v then parseTargetWallets v else let! v := requireEnv env "BOT2_WALLET" in parseTargetWallets v
  | _ => parseTargetWallets (env_or env (targets_env d) "")
  end.

(** The module [config]: an exception leaves the process. *)
Definition load (env : Environment) : outcome Config :=
  let! b := read_targets byreal env in
  let! o := read_targets orca env in
  let! m := read_targets meteora env in
  let! p := read_targets pcs env in
  let! d := read_targets dammv2 env in
  let by_dex {A} (f : list string * list (string * num) -> A) (x : Dex) : A :=
    f (match x with byreal => b | orca => o | meteora => m | pcs => p | dammv2 => d end) in
  Ret (mkConfig (fun f => read_flag f env) (fun n => read_number n env) (fun s => read_set s env) (fun x => read_mode x env)
         (by_dex fst) (by_dex snd) (fun x => negb (bool_decide (by_dex fst x = []))) []).

(** ** The request *)

Inductive Effect :=
| SetPumpPollerWallet
| SetPoolTvlRefreshMinutes (minutes : num)
| SaveCcOverrides (file : Json)
| UpdateEnvFile (updates : list (string * string))
| Resubscribe.

(** The configuration as it is changed in place, and what is gathered. *)
Record Work := mkWork { config : Config; envUpdates : list (string * string); effects : list Effect }.

(** An answer that ends the request. *)
Record Refusal := mkRefusal { code : Z; message : string }.

Definition H (A : Type) : Type := Work -> Work * (Refusal + A).
Definition hret {A} (a : A) : H A := fun w => (w, inr a).
Definition hbind {A B} (m : H A) (f : A -> H B) : H B :=
  fun w => let (w', r) := m w in match r with inl e => (w', inl e) | inr a => f a w' end.
Definition refuse {A} (code : Z) (message : string) : H A := fun w => (w, inl (mkRefusal code message)).
(** An exception reaches the outer [catch]. *)
Definition hlift {A} (o : outcome A) : H A := match o with Ret a => hret a | Throw e => refuse 500 e end.
Definition hconfig (f : Config -> Config) : H unit := fun w => (mkWork (f (config w)) (envUpdates w) (effects w), inr tt).
Definition hget {A} (f : Config -> A) : H A := fun w => (w, inr (f (config w))).
Definition write (k v : string) : H unit := fun w => (mkWork (config w) (jset k v (envUpdates w)) (effects w), inr tt).
Definition emit (e : Effect) : H unit := fun w => (mkWork (config w) (envUpdates w) (effects w ++ [e]), inr tt).

#[local] Notation "'let^' x := m 'in' k" := (hbind m (fun x => k)) (at level 10, x pattern, m at level 100, k at level 200).
#[local] Notation "m ';^' k" := (hbind m (fun _ => k)) (at level 199, right associativity).

(** [x.trim()] *)
Definition jtrim (x : Json) : outcome string :=
  match x with
  | JStr s => Ret (trim s)
  | JNull => Throw "Cannot read properties of null (reading 'trim')"
  | _ => Throw "trim is not a function"
  end.

Definition body_field (body : Json) (k : string) : option Json := jopt (Some body) k.

(** The valid targets; the first that is not valid ends the request. *)
Fixpoint validate_targets (addrs : list Json) : H (list string) :=
  match addrs with
  | [] => hret []
  | a :: addrs' =>
      match (let! s := jtrim a in PublicKey s) with
      | Ret key => let^ keys := validate_targets addrs' in hret (key :: keys)
      | Throw _ => refuse 400 ("無效地址: " +:+ jstring a)%string
      end
  end.

(** Trimmed, without the empty ones, each once. *)
Fixpoint trimmed_set (xs : list Json) (acc : list string) : outcome (list string) :=
  match xs with
  | [] => Ret acc
  | x :: xs' => let! t := jtrim x in trimmed_set xs' (if truthy t then sadd t acc else acc)
  end.

Fixpoint check_addresses (invalid : string) (addrs : list Json) : H unit :=
  match addrs with
  | [] => hret tt
  | a :: addrs' =>
      let t := trim (jstring a) in
      if negb (truthy t) then check_addresses invalid addrs'
      else match PublicKey t with Ret _ => check_addresses invalid addrs' | Throw _ => refuse 400 (invalid +:+ t)%string end
  end.

(** [byrealAllowSameTickWallets] and [byrealAllowOpenAfterOthersWallets]: the new set. *)
Definition patch_allow (s : WalletSet) (notArray invalid : string) (body : Json) (newTargets : list string) : H (list string) :=
  match body_field body (set_name s) with
  | None => hret []
  | Some (JArr xs) =>
      check_addresses invalid xs ;^
      let normalized := normalizeByrealAllowSameTickWallets (Some (map jstring xs)) newTargets in
      hconfig (with_set s normalized) ;^
      hret normalized
  | Some _ => refuse 400 notArray
  end.

(** The ratios of a request: positive numbers under trimmed addresses. *)
Definition parse_ratios (kvs : list (string * Json)) : list (string * num) :=
  foldl (fun m kv => let ratio := parseFloat (jstring kv.2) in
                     if negb (is_nan ratio) && nlt (num_of_Z 0) ratio then jset (trim kv.1) ratio m else m) [] kvs.

Definition patch_ratios (d : Dex) (body : Json) : H unit :=
  match body_field body (dex_field d "walletAmountRatios" "WalletAmountRatios") with
  | Some JNull => hconfig (with_ratios d []) ;^ refuse 500 "Cannot convert undefined or null to object"
  | Some (JObj _ as x) | Some (JArr _ as x) => hconfig (with_ratios d (parse_ratios (jentries x)))
  | _ => hret tt
  end.

(** An address with its ratio, if it has one. *)
Definition target_text (ratios : list (string * num)) (addr : string) : string :=
  match jget addr ratios with Some r => addr +:+ ":" +:+ num_toString r | None => addr end.
Definition targets_text (ratios : list (string * num)) (targets : list string) : string := join "," (map (target_text ratios) targets).

Definition close_only (x : option Json) : H (list string) := match x with Some (JArr xs) => hlift (trimmed_set xs []) | _ => hret [] end.

(** From the validation to the wallets of Byreal in [envUpdates]. *)
Definition patch_byreal_wallets (body : Json) : H unit :=
  match body_field body "targetWallets" with
  | Some (JArr ((_ :: _) as addrs)) =>
      let^ newTargets := validate_targets addrs in
      let^ newCloseOnly := close_only (body_field body "closeOnlyWallets") in
      hconfig (with_targets byreal newTargets) ;^
      hconfig (with_set (CloseOnly byreal) newCloseOnly) ;^
      let^ sameTick := patch_allow byrealAllowSameTickWallets "byrealAllowSameTickWallets 必須是陣列" "無效地址: " body newTargets in
      let^ afterOthers := patch_allow byrealAllowOpenAfterOthersWallets "byrealAllowOpenAfterOthersWallets must be an array" "?⊥??啣?: " body newTargets in
      patch_ratios byreal body ;^
      let^ ratios := hget (fun c => walletAmountRatios c byreal) in
      write (targets_env byreal) (targets_text ratios newTargets) ;^
      write (set_env (CloseOnly byreal)) (serializeWalletSet newCloseOnly) ;^
      (if bool_decide (is_Some (body_field body (set_name byrealAllowSameTickWallets)))
       then write (set_env byrealAllowSameTickWallets) (serializeWalletSet sameTick) else hret tt) ;^
      (if bool_decide (is_Some (body_field body (set_name byrealAllowOpenAfterOthersWallets)))
       then write (set_env byrealAllowOpenAfterOthersWallets) (serializeWalletSet afterOthers) else hret tt)
  | _ => refuse 400 "至少需要一個目標錢包"
  end.

(** [Math.max(0, x || 0)] *)
Definition at_least_zero (x : num) : num := let v := if truthy x then x else num_of_Z 0 in if nlt v (num_of_Z 0) then num_of_Z 0 else v.
Definition at_most (m : Z) (x : num) : num := if nlt (num_of_Z m) x then num_of_Z m else x.

(** The value a number field sets, none when it is refused. *)
Definition accept_number (n : Number) (x : Json) : option num :=
  let i := parseInt (jstring x) in
  let f := parseFloat (jstring x) in
  let over (lo : Z) v := if negb (is_nan v) && nle (num_of_Z lo) v then Some v else None in
  let positive v := if negb (is_nan v) && nlt (num_of_Z 0) v then Some v else None in
  match n with
  | amountRatio => positive f
  | slippageBps | maxRetry => positive i
  | priorityFeeLamports | tokenLossStreakLimit | tokenCooldownMinutes => over 0 i
  | byrealMaxOpenPositions => Some (normalizeByrealMaxOpenPositions (match x with JNull => None | _ => Some (jstring x) end))
  | minPoolAgeDays => Some (at_least_zero i)
  | maxCoinConcentrationUsd => Some (at_least_zero f)
  | maxCoinConcentrationPct => Some (at_most 100 (at_least_zero f))
  | drawdownThresholdPct | minPoolTvl => over 0 f
  | poolTvlRefreshMinutes => over 15 f
  end.

Definition patch_number (n : Number) (body : Json) : H unit :=
  match body_field body (number_name n) with
  | None => hret tt
  | Some x =>
      match accept_number n x with
      | None => hret tt
      | Some v =>
          hconfig (with_number n v) ;^
          write (number_env n) (num_toString v) ;^
          (if bool_decide (n = poolTvlRefreshMinutes) then emit (SetPoolTvlRefreshMinutes v) else hret tt)
      end
  end.

(** [x === true || x === 'true'] *)
Definition is_true (x : Json) : bool := match x with JBool b => b | JStr s => bool_decide (s = "true"%string) | _ => false end.

Definition patch_flag (f : Flag) (body : Json) : H unit :=
  match body_field body (flag_field f) with
  | None => hret tt
  | Some x => hconfig (with_flag f (is_true x)) ;^ write (flag_env f) (if is_true x then "true" else "false")
  end.

Definition patch_mode (m : Mode) (body : Json) : H unit :=
  match body_field body (mode_name m) with
  | Some (JStr v) =>
      if bool_decide (v ∈ mode_values m) then
        let^ old := hget (fun c => mode c m) in
        hconfig (with_mode m v) ;^
        write (mode_env m) v ;^
        (if bool_decide (m = pumpFilterMode) && bool_decide (v = "discord"%string) && negb (bool_decide (old = "discord"%string))
         then emit SetPumpPollerWallet else hret tt)
      else hret tt
  | _ => hret tt
  end.

(** [tokenBlacklist], [tokenWhitelist], [poolTvlWhitelist], the close-only wallets of the other exchanges *)
Definition patch_set (s : WalletSet) (body : Json) : H unit :=
  match body_field body (set_name s) with
  | Some (JArr xs) =>
      let^ new := hlift (trimmed_set xs []) in
      hconfig (with_set s new) ;^ write (set_env s) (serializeWalletSet new)
  | _ => hret tt
  end.

(** [applyPoolAgeWhitelistConfig] *)
Definition applyPoolAgeWhitelistConfig (body : Json) : H unit :=
  match body_field body (set_name poolAgeWhitelist) with
  | Some (JArr xs) =>
      let normalized := set_of (keep truthy (map (fun x => trim (jstring x)) xs)) in
      hconfig (with_set poolAgeWhitelist normalized) ;^ write (set_env poolAgeWhitelist) (serializeWalletSet normalized)
  | _ => hret tt
  end.

(** The limits per coin, kept in a file of their own. *)
Definition set_override (mint : Json) (v : Json * Json) (l : list (Json * (Json * Json))) : list (Json * (Json * Json)) :=
  if existsb (fun e => same_value e.1 mint) l then map (fun e => if same_value e.1 mint then (e.1, v) else e) l else l ++ [(mint, v)].

(** What is set, and the exception that ends it. *)
Fixpoint read_overrides (xs : list Json) (acc : list (Json * (Json * Json))) : list (Json * (Json * Json)) * outcome unit :=
  match xs with
  | [] => (acc, Ret tt)
  | JNull :: _ => (acc, Throw "Cannot read properties of null (reading 'mint')")
  | o :: xs' =>
      let mint := jopt (Some o) "mint" in
      let usd := jopt (Some o) "usd" in
      let pct := jopt (Some o) "pct" in
      let zero := JNum (num_of_Z 0) in
      read_overrides xs'
        (if truthy mint && (nlt (num_of_Z 0) (JsConvert.Number usd) || nlt (num_of_Z 0) (JsConvert.Number pct))
         then set_override (default JNull mint) (jnullish usd zero, jnullish pct zero) acc else acc)
  end.

Definition overrides_file (l : list (Json * (Json * Json))) : Json :=
  JObj [("overrides", JArr (map (fun e => JObj [("mint", e.1); ("usd", e.2.1); ("pct", e.2.2)]%string) l))]%string.

Definition patch_overrides (body : Json) : H unit :=
  match body_field body "coinConcentrationOverrides" with
  | Some (JArr xs) =>
      let (l, r) := read_overrides xs [] in
      hconfig (with_overrides l) ;^ hlift r ;^ emit (SaveCcOverrides (overrides_file l))
  | _ => hret tt
  end.

(** A mint in both lists stays in the blacklist. *)
Definition exclude_blacklisted : H unit :=
  hconfig (fun c => with_set tokenWhitelist (keep (fun m => negb (shas m (set c tokenBlacklist))) (set c tokenWhitelist)) c) ;^
  let^ wl := hget (fun c => set c tokenWhitelist) in
  write (set_env tokenWhitelist) (serializeWalletSet wl).

(** The valid ones of a list of targets. *)
Definition valid_targets (addrs : list Json) : list string :=
  omap (fun a => match (let! s := jtrim a in PublicKey s) with Ret key => Some key | Throw _ => None end) addrs.

(** The wallets of another exchange. *)
Definition patch_dex (d : Dex) (body : Json) : H unit :=
  match body_field body (dex_field d "targetWallets" "TargetWallets") with
  | Some (JArr addrs) =>
      let new := valid_targets addrs in
      hconfig (with_targets d new) ;^
      hconfig (with_enabled d (negb (bool_decide (new = [])))) ;^
      patch_ratios d body ;^
      let^ ratios := hget (fun c => walletAmountRatios c d) in
      write (targets_env d) (targets_text ratios new)
  | _ => hret tt
  end ;^
  patch_set (CloseOnly d) body.

(** In the order of the source. *)
Definition in_turn {K} (f : K -> Json -> H unit) (ks : list K) (body : Json) : H unit :=
  foldr (fun k rest => f k body ;^ rest) (hret tt) ks.

Definition patch_settings (body : Json) : H unit :=
  match body with
  | JNull => refuse 500 "Cannot destructure property 'targetWallets' of 'body' as it is null."
  | _ => patch_byreal_wallets body
  end ;^
  in_turn patch_number [byrealMaxOpenPositions; amountRatio; slippageBps; maxRetry; priorityFeeLamports] body ;^
  in_turn patch_flag [dryRun; allowSameWalletReopen; skipSameTickRange] body ;^
  patch_mode pumpFilterMode body ;^
  patch_number minPoolAgeDays body ;^
  applyPoolAgeWhitelistConfig body ;^
  in_turn patch_number [maxCoinConcentrationUsd; maxCoinConcentrationPct] body ;^
  patch_overrides body ;^
  in_turn patch_number [drawdownThresholdPct; tokenLossStreakLimit; tokenCooldownMinutes] body ;^
  patch_mode jupSwapMode body ;^
  in_turn patch_set [tokenBlacklist; tokenWhitelist] body ;^
  exclude_blacklisted ;^
  in_turn patch_flag [SkipSol byreal; SkipSol orca; SkipSol meteora; SkipSol pcs; SkipSol dammv2; autoClaimEnabled] body ;^
  patch_number minPoolTvl body ;^
  patch_mode tvlSource body ;^
  patch_set poolTvlWhitelist body ;^
  patch_number poolTvlRefreshMinutes body ;^
  in_turn patch_dex [orca; meteora; pcs; dammv2] body.

(** [readBody] for a handler that does not throw *)
Definition readBody (text : string) : Json := match JSON_parse text with Ret body => body | Throw _ => JObj [] end.

(** The handler: the configuration it leaves, what it has done besides, and the
    answer. *)
Definition patch_config (body : Json) (c : Config) : Config * list Effect * (Refusal + unit) :=
  match patch_settings body (mkWork c [] []) with
  | (w, inl e) => (config w, effects w, inl e)
  | (w, inr _) => (config w, effects w ++ [UpdateEnvFile (envUpdates w); Resubscribe], inr tt)
  end.

(** What the environment is after the file is read again. *)
Definition apply_updates (updates : list (string * string)) (env : Environment) : Environment := to_gmap updates ∪ env.

End Keys.
End Settings.
