(* ===== verification/SettingsRules.v ===== *)
(** * What changing the settings guarantees

    [settings_survive_restart]: after a request that is answered with success,
    reading the updated environment gives the settings that are in force, and a
    plain environment file, updated, gives them to [dotenv]. *)

From Stdlib Require Import Ascii.
From S2P Require Import Prelude JsMap JsString JsNumber Json JsConvert Stores Settings.
Open Scope Z_scope.
Open Scope list_scope.

Module SettingsRules.
Import OpenedReferers(parseWalletSet, serializeWalletSet, normalizeByrealAllowSameTickWallets, plain, parse_join).
Import Settings.

(** ** One kind of setting *)

Inductive Setting := F (f : Flag) | N (n : Number) | L (s : WalletSet) | M (m : Mode) | T (d : Dex).
#[export] Instance Setting_eq_dec : EqDecision Setting.
Proof. solve_decision. Defined.

Definition env_name (k : Setting) : string :=
  match k with F f => flag_env f | N n => number_env n | L s => set_env s | M m => mode_env m | T d => targets_env d end.

Inductive View := VFlag (b : bool) | VNumber (x : num) | VSet (l : list string) | VMode (s : string)
  | VTargets (l : list string) (rs : list (string * num)).

Definition view (k : Setting) (c : Config) : View :=
  match k with
  | F f => VFlag (flag c f) | N n => VNumber (number c n) | L s => VSet (set c s) | M m => VMode (mode c m)
  | T d => VTargets (targetWallets c d) (walletAmountRatios c d)
  end.

Definition text_of (v : View) : string :=
  match v with
  | VFlag b => if b then "true" else "false"
  | VNumber x => num_toString x
  | VSet l => serializeWalletSet l
  | VMode s => s
  | VTargets l rs => targets_text rs l
  end.

Definition all_dex : list Dex := [byreal; orca; meteora; pcs; dammv2].
Definition all_settings : list Setting :=
  map F ([dryRun; allowSameWalletReopen; skipSameTickRange; autoClaimEnabled] ++ map SkipSol all_dex)
  ++ map N [amountRatio; slippageBps; maxRetry; priorityFeeLamports; byrealMaxOpenPositions; minPoolAgeDays;
            maxCoinConcentrationUsd; maxCoinConcentrationPct; drawdownThresholdPct; tokenLossStreakLimit; tokenCooldownMinutes;
            minPoolTvl; poolTvlRefreshMinutes]
  ++ map L ([byrealAllowSameTickWallets; byrealAllowOpenAfterOthersWallets; poolAgeWhitelist; poolTvlWhitelist; tokenBlacklist; tokenWhitelist]
            ++ map CloseOnly all_dex)
  ++ map M [pumpFilterMode; jupSwapMode; tvlSource] ++ map T all_dex.

Lemma all_settings_all k : k ∈ all_settings.
Proof.
  apply (bool_decide_unpack _). destruct k as [[| | |[]|]|[]|[[]| | | | | |]|[]|[]]; vm_compute; exact I.
Qed.

Lemma env_names_differ : NoDup (map env_name all_settings).
Proof. apply (bool_decide_unpack _). vm_compute. exact I. Qed.

(** Every setting has a variable of its own. *)
Lemma env_name_inj k k' : env_name k = env_name k' -> k = k'.
Proof.
  intros He. pose proof (all_settings_all k) as [i Hi]%list_elem_of_lookup. pose proof (all_settings_all k') as [j Hj]%list_elem_of_lookup.
  assert (i = j) as ->; [|congruence].
  eapply (NoDup_lookup _ i j (env_name k) env_names_differ).
  - change (map env_name all_settings) with (env_name <$> all_settings). by rewrite list_lookup_fmap, Hi.
  - change (map env_name all_settings) with (env_name <$> all_settings). by rewrite list_lookup_fmap, Hj, He.
Qed.

Section Rules.
Context (PublicKey : string -> outcome string).

(** ** What a request keeps *)

(** A setting that was written is in the file as it stands; the others are as before. *)
Definition sync (c0 : Config) (w : Work) : Prop :=
  forall k, match jget (env_name k) (envUpdates w) with
            | Some t => t = text_of (view k (config w))
            | None => view k (config w) = view k c0
            end.

(** Of any configuration. *)
Definition tidy (c : Config) : Prop :=
  (forall s, NoDup (set c s)) /\ (forall m, truthy (mode c m) = true)
  /\ (forall d t, t ∈ targetWallets c d -> exists s, PublicKey s = Ret t)
  /\ (forall d, d <> byreal -> enabled c d = negb (bool_decide (targetWallets c d = []))).

(** The variables written are those of settings, each once. *)
Definition wf_updates (u : list (string * string)) : Prop := wf_map u /\ forall e, e ∈ u.*1 -> exists k, e = env_name k.

Lemma wf_updates_jset k t u : wf_updates u -> wf_updates (jset (env_name k) t u).
Proof.
  intros [H1 H2]. split; [by apply wf_jset|]. intros e [->|He]%elem_of_jset_keys; [by exists k|by apply H2].
Qed.
Lemma wf_updates_nil : wf_updates [].
Proof. split; [apply wf_nil|by intros e ?%list.elem_of_nil]. Qed.

Definition J (c0 : Config) (w : Work) : Prop :=
  wf_updates (envUpdates w) /\ sync c0 w /\ tidy (config w) /\ targetWallets (config w) byreal <> [].

Definition keeps (c0 : Config) (m : H unit) : Prop :=
  forall w, J c0 w -> match m w with (w', inr _) => J c0 w' | _ => True end.

Lemma keeps_ret c0 : keeps c0 (hret tt).
Proof. by intros w H. Qed.

Lemma keeps_seq c0 m m' : keeps c0 m -> keeps c0 m' -> keeps c0 (hbind m (fun _ => m')).
Proof.
  intros Hm Hm' w HJ. specialize (Hm w HJ). unfold hbind. destruct (m w) as [w1 [e|[]]]; [done|]. by apply Hm'.
Qed.

Lemma keeps_turn {K} c0 (f : K -> Json -> H unit) ks body : Forall (fun k => keeps c0 (f k body)) ks -> keeps c0 (in_turn f ks body).
Proof. induction 1 as [|k ks Hk _ IH]; [apply keeps_ret|]. by apply keeps_seq. Qed.

(** A setting changed and written. *)
Definition J0 (c0 : Config) (w : Work) : Prop := wf_updates (envUpdates w) /\ sync c0 w.

Lemma J0_set c0 w k c' t eff :
  J0 c0 w -> t = text_of (view k c') -> (forall k', k' <> k -> view k' c' = view k' (config w)) ->
  J0 c0 (mkWork c' (jset (env_name k) t (envUpdates w)) eff).
Proof.
  intros (Hwf & Hs) Ht Hk. split; [by apply wf_updates_jset|]. intros k'. cbn.
  destruct (decide (k' = k)) as [->|Hne]; [by rewrite jget_jset|].
  rewrite jget_jset_ne by (intros He%env_name_inj; congruence). specialize (Hs k').
  rewrite (Hk k' Hne). exact Hs.
Qed.

Lemma J0_list c0 w s l eff : J0 c0 w -> J0 c0 (mkWork (with_set s l (config w)) (jset (set_env s) (serializeWalletSet l) (envUpdates w)) eff).
Proof.
  intros HJ. apply (J0_set c0 w (L s)); [done|cbn; unfold fupd; by destruct (decide (s = s))|].
  intros [] Hne; cbn; try reflexivity. unfold fupd. destruct (decide _) as [->|]; [done|reflexivity].
Qed.

Lemma J_set c0 w k c' t eff :
  J c0 w -> t = text_of (view k c') -> (forall k', k' <> k -> view k' c' = view k' (config w)) ->
  tidy c' -> targetWallets c' byreal <> [] -> J c0 (mkWork c' (jset (env_name k) t (envUpdates w)) eff).
Proof.
  intros (Hwf & Hs & _ & _) Ht Hk Htidy Hb.
  destruct (J0_set c0 w k c' t eff (conj Hwf Hs) Ht Hk) as [H1 H2]. by split_and!.
Qed.

Lemma J_effect c0 w e : J c0 w -> J c0 (mkWork (config w) (envUpdates w) e).
Proof. done. Qed.

Lemma fupd_ne {K V} `{EqDecision K} (f : K -> V) k v k' : k' <> k -> fupd f k v k' = f k'.
Proof. intros Hne. unfold fupd. by destruct (decide (k' = k)). Qed.
Lemma fupd_eq {K V} `{EqDecision K} (f : K -> V) k v : fupd f k v k = v.
Proof. unfold fupd. by destruct (decide (k = k)). Qed.

#[local] Ltac other := intros [] Hne; cbn; try reflexivity; rewrite fupd_ne by congruence; reflexivity.

Lemma J_flag c0 w f b eff : J c0 w ->
  J c0 (mkWork (with_flag f b (config w)) (jset (flag_env f) (if b then "true" else "false")%string (envUpdates w)) eff).
Proof.
  intros HJ. apply (J_set c0 w (F f)); [done|cbn; by rewrite fupd_eq|other|apply HJ|apply HJ].
Qed.

Lemma J_number c0 w n v eff : J c0 w -> J c0 (mkWork (with_number n v (config w)) (jset (number_env n) (num_toString v) (envUpdates w)) eff).
Proof. intros HJ. apply (J_set c0 w (N n)); [done|cbn; by rewrite fupd_eq|other|apply HJ|apply HJ]. Qed.

Lemma J_mode c0 w m v eff : truthy v = true -> J c0 w -> J c0 (mkWork (with_mode m v (config w)) (jset (mode_env m) v (envUpdates w)) eff).
Proof.
  intros Hv HJ. pose proof HJ as (_ & _ & (H1 & H2 & H3 & H4) & _).
  apply (J_set c0 w (M m)); [done|cbn; by rewrite fupd_eq|other| |apply HJ]. split_and!; [done| |done|done].
  intros m'. cbn. unfold fupd. by destruct (decide (m' = m)).
Qed.

Lemma tidy_set s l c : NoDup l -> tidy c -> tidy (with_set s l c).
Proof. intros Hl (H1 & H2 & H3 & H4). split_and!; [|done|done|done]. intros s'. cbn. unfold fupd. by destruct (decide (s' = s)). Qed.

Lemma J_list c0 w s l eff : NoDup l -> J c0 w -> J c0 (mkWork (with_set s l (config w)) (jset (set_env s) (serializeWalletSet l) (envUpdates w)) eff).
Proof.
  intros Hl HJ. apply (J_set c0 w (L s)); [done|cbn; by rewrite fupd_eq|other| |apply HJ]. apply tidy_set; [done|apply HJ].
Qed.

(** *** The steps *)

Lemma keeps_number c0 body n : keeps c0 (patch_number n body).
Proof.
  intros w HJ. unfold patch_number. destruct (body_field _ _) as [x|]; [|done]. destruct (accept_number n x) as [v|]; [|done].
  pose proof (J_number c0 w n v (effects w) HJ) as H1. cbn. case_bool_decide; exact H1.
Qed.

Lemma keeps_flag c0 body f : keeps c0 (patch_flag f body).
Proof.
  intros w HJ. unfold patch_flag. destruct (body_field _ _) as [x|]; [|done]. exact (J_flag c0 w f (is_true x) (effects w) HJ).
Qed.

Lemma mode_values_truthy m v : v ∈ mode_values m -> truthy v = true.
Proof. destruct m; cbn; rewrite ?list.elem_of_cons; intros H; by repeat destruct H as [->|H]; try by apply list.elem_of_nil in H. Qed.

Lemma keeps_mode c0 body m : keeps c0 (patch_mode m body).
Proof.
  intros w HJ. unfold patch_mode. destruct (body_field _ _) as [[| | |v| |]|]; try done.
  case_bool_decide as Hv; [|done]. pose proof (J_mode c0 w m v (effects w) (mode_values_truthy m v Hv) HJ) as H1.
  cbn. destruct (_ && _); exact H1.
Qed.

Lemma trimmed_set_NoDup xs acc l : NoDup acc -> trimmed_set xs acc = Ret l -> NoDup l.
Proof.
  revert acc. induction xs as [|x xs IH]; intros acc Hacc H; cbn in H; [by injection H as <-|].
  destruct (jtrim x) as [t|e]; cbn in H; [|done]. apply IH in H; [done|]. destruct (truthy t); [by apply NoDup_sadd|done].
Qed.

Lemma keeps_set c0 body s : keeps c0 (patch_set s body).
Proof.
  intros w HJ. unfold patch_set. destruct (body_field _ _) as [[| | | |xs|]|]; try done.
  unfold hbind, hlift. destruct (trimmed_set xs []) as [l|e] eqn:Hl; cbn; [|done].
  apply (J_list c0 w s l (effects w)); [|done]. by eapply trimmed_set_NoDup; [|exact Hl]; apply NoDup_nil_2.
Qed.

Lemma keeps_ages c0 body : keeps c0 (applyPoolAgeWhitelistConfig body).
Proof.
  intros w HJ. unfold applyPoolAgeWhitelistConfig. destruct (body_field _ _) as [[| | | |xs|]|]; try done.
  apply (J_list c0 w poolAgeWhitelist); [apply NoDup_set_of|done].
Qed.

Lemma keeps_overrides c0 body : keeps c0 (patch_overrides body).
Proof.
  intros w HJ. unfold patch_overrides. destruct (body_field _ _) as [[| | | |xs|]|]; try done.
  destruct (read_overrides xs []) as [l [[]|e]]; [|done]. exact HJ.
Qed.

Lemma NoDup_keep {A} (p : A -> bool) l : NoDup l -> NoDup (keep p l).
Proof.
  unfold keep. induction 1 as [|x l Hx Hl IH]; cbn; [constructor|]. destruct (p x); [|done]. constructor; [|done].
  rewrite list_elem_of_In, filter_In, <- list_elem_of_In. tauto.
Qed.

Lemma keeps_exclude c0 : keeps c0 exclude_blacklisted.
Proof. intros w HJ. apply (J_list c0 w tokenWhitelist); [|done]. apply NoDup_keep, HJ. Qed.

(** *** Targets and their ratios *)

(** Only the ratios of an exchange differ. *)
Definition only_ratios (d : Dex) (c c' : Config) : Prop :=
  (forall k, k <> T d -> view k c' = view k c) /\ (forall d', targetWallets c' d' = targetWallets c d') /\ (forall d', enabled c' d' = enabled c d').

Lemma only_ratios_refl d c : only_ratios d c c.
Proof. by split_and!. Qed.

Lemma only_ratios_with d rs c : only_ratios d c (with_ratios d rs c).
Proof.
  split_and!; [|done|done]. intros [| | | |d'] Hne; cbn; try reflexivity. rewrite fupd_ne by congruence. reflexivity.
Qed.

Lemma tidy_views c c' : (forall k, match k with T _ => True | _ => view k c' = view k c end) ->
  (forall d, targetWallets c' d = targetWallets c d) -> (forall d, enabled c' d = enabled c d) -> tidy c -> tidy c'.
Proof.
  intros Hv Ht He (H1 & H2 & H3 & H4). split_and!.
  - intros s. specialize (Hv (L s)). cbn in Hv. injection Hv as ->. apply H1.
  - intros m. specialize (Hv (M m)). cbn in Hv. injection Hv as ->. apply H2.
  - intros d t. rewrite Ht. apply H3.
  - intros d Hd. rewrite Ht, He. by apply H4.
Qed.

Lemma patch_ratios_spec d body w :
  match patch_ratios d body w with
  | (w', inr _) => only_ratios d (config w) (config w') /\ envUpdates w' = envUpdates w
  | _ => True
  end.
Proof.
  unfold patch_ratios. destruct (body_field _ _) as [[| | | |xs|kvs]|]; try (split; [apply only_ratios_refl|done]); [done| |];
    (split; [apply only_ratios_with|done]).
Qed.

Lemma J_targets c0 w d l b c' eff :
  (forall t, t ∈ l -> exists s, PublicKey s = Ret t) -> (d <> byreal -> b = negb (bool_decide (l = []))) -> (d = byreal -> l <> []) ->
  only_ratios d (with_enabled d b (with_targets d l (config w))) c' -> J c0 w ->
  J c0 (mkWork c' (jset (targets_env d) (targets_text (walletAmountRatios c' d) l) (envUpdates w)) eff).
Proof.
  intros Hl Hb Hl0 (Hv & Ht & He) HJ. pose proof HJ as (_ & _ & (H1 & H2 & H3 & H4) & H5).
  assert (targetWallets c' d = l) as Hd by (rewrite Ht; cbn; by rewrite fupd_eq).
  apply (J_set c0 w (T d)); [done|cbn; by rewrite Hd| | |].
  - intros k Hne. rewrite Hv by done. destruct k; cbn; try reflexivity. rewrite fupd_ne by congruence. reflexivity.
  - eapply tidy_views; [|exact Ht|exact He|].
    + intros []; try done; by apply Hv.
    + split_and!; [done|done| |]; intros d'; cbn; unfold fupd; destruct (decide (d' = d)) as [->|]; eauto.
  - rewrite Ht. cbn. unfold fupd. destruct (decide (byreal = d)) as [<-|]; auto.
Qed.

Lemma valid_targets_keys addrs t : t ∈ valid_targets PublicKey addrs -> exists s, PublicKey s = Ret t.
Proof.
  unfold valid_targets. intros (a & _ & Ha)%list_elem_of_omap. destruct (jtrim a) as [s|e]; cbn in Ha; [|done].
  exists s. destruct (PublicKey s); [by injection Ha as ->|done].
Qed.

Lemma keeps_dex c0 body d : d <> byreal -> keeps c0 (patch_dex PublicKey d body).
Proof.
  intros Hd. apply keeps_seq; [|apply keeps_set]. intros w HJ. destruct (body_field _ _) as [[| | | |xs|]|]; try done.
  unfold hbind. cbn. set (w1 := mkWork _ _ _). pose proof (patch_ratios_spec d body w1) as Hr.
  destruct (patch_ratios d body w1) as [w2 [e|[]]]; [done|]. destruct Hr as [Hr Hu]. cbn. rewrite Hu.
  apply (J_targets c0 w d (valid_targets PublicKey xs) (negb (bool_decide (valid_targets PublicKey xs = [])))); try done.
  intros t. apply valid_targets_keys.
Qed.

(** *** The wallets of Byreal *)

Lemma validate_targets_spec addrs w :
  match validate_targets PublicKey addrs w with
  | (w', inr keys) => w' = w /\ length keys = length addrs /\ forall t, t ∈ keys -> exists s, PublicKey s = Ret t
  | (w', inl _) => w' = w
  end.
Proof.
  induction addrs as [|a addrs IH]; cbn; [split_and!; [done|done|by intros t ?%list.elem_of_nil]|].
  destruct (let! s := jtrim a in PublicKey s) as [key|e] eqn:Hk; [|done]. unfold hbind.
  destruct (validate_targets PublicKey addrs w) as [w' [e|keys]]; [done|]. destruct IH as (-> & Hl & Hk').
  split_and!; [done|cbn; by rewrite Hl|]. intros t Ht%list.elem_of_cons. destruct Ht as [->|Ht]; [|by apply Hk'].
  destruct (jtrim a) as [s|e]; cbn in Hk; [by exists s|done].
Qed.

Lemma check_addresses_spec invalid addrs w : (check_addresses PublicKey invalid addrs w).1 = w.
Proof.
  induction addrs as [|a addrs IH]; cbn; [done|]. destruct (negb _); [done|]. by destruct (PublicKey _).
Qed.

(** The lists of exceptions, as they are written if they were in the request. *)
Definition written (body : Json) (s : WalletSet) (l : list string) (w : Work) : Work :=
  if bool_decide (is_Some (body_field body (set_name s)))
  then mkWork (with_set s l (config w)) (jset (set_env s) (serializeWalletSet l) (envUpdates w)) (effects w) else w.

Lemma written_updates body s l w w' : envUpdates w = envUpdates w' -> envUpdates (written body s l w) = envUpdates (written body s l w').
Proof. intros Hu. unfold written. case_bool_decide; cbn; by rewrite ?Hu. Qed.
Lemma written_config body s l w w' : config w = config w' -> config (written body s l w) = config (written body s l w').
Proof. intros Hc. unfold written. case_bool_decide; cbn; by rewrite ?Hc. Qed.

Lemma write_if body s l w :
  (if bool_decide (is_Some (body_field body (set_name s))) then write (set_env s) (serializeWalletSet l) else hret tt) w
  = (mkWork (config w) (envUpdates (written body s l w)) (effects w), inr tt).
Proof. unfold written. case_bool_decide; [done|]. by destruct w. Qed.

(** The set of a list of exceptions: changed if and only if the field is there. *)
Lemma patch_allow_spec s na inv body ts w :
  match patch_allow PublicKey s na inv body ts w with
  | (w', inr l) => NoDup l /\ envUpdates w' = envUpdates w /\ config w' = config (written body s l w)
  | _ => True
  end.
Proof.
  unfold patch_allow, written. destruct (body_field _ _) as [[| | | |xs|]|] eqn:Hb; try done.
  - unfold hbind. pose proof (check_addresses_spec inv xs w) as Hc. destruct (check_addresses _ _ _ _) as [w' [e|[]]]; [done|].
    cbn in Hc. subst w'. split_and!; [apply NoDup_set_of|done|]. by rewrite bool_decide_eq_true_2.
  - split_and!; [apply NoDup_nil_2|done|]. by rewrite bool_decide_eq_false_2 by by intros [? ?].
Qed.

Lemma sync_views c0 w c' eff : sync c0 w -> (forall k, view k c' = view k (config w)) -> sync c0 (mkWork c' (envUpdates w) eff).
Proof. intros Hs Hv k. cbn. rewrite Hv. apply Hs. Qed.

Lemma J0_written c0 body s l w : J0 c0 w -> J0 c0 (written body s l w).
Proof. intros HJ. unfold written. case_bool_decide; [by apply J0_list|done]. Qed.

Lemma close_only_spec x w : match close_only x w with (w', inr l) => w' = w /\ NoDup l | _ => True end.
Proof.
  unfold close_only. destruct x as [[| | | |xs|]|]; try (split; [done|apply NoDup_nil_2]).
  unfold hlift. destruct (trimmed_set xs []) as [l|e] eqn:Hl; [|done]. split; [done|]. eapply trimmed_set_NoDup; [|exact Hl]. apply NoDup_nil_2.
Qed.

(** Running a sequence. *)
Lemma run_config {B} f (k : unit -> H B) w : hbind (hconfig f) k w = k tt (mkWork (f (config w)) (envUpdates w) (effects w)).
Proof. done. Qed.
Lemma run_write {B} e t (k : unit -> H B) w : hbind (write e t) k w = k tt (mkWork (config w) (jset e t (envUpdates w)) (effects w)).
Proof. done. Qed.
Lemma run_get {A B} (f : Config -> A) (k : A -> H B) w : hbind (hget f) k w = k (f (config w)) w.
Proof. done. Qed.
Lemma run_bind {A B} (m : H A) (k : A -> H B) w : hbind m k w = (let (w', r) := m w in match r with inl e => (w', inl e) | inr a => k a w' end).
Proof. done. Qed.

Lemma byreal_block c0 body : tidy c0 ->
  match patch_byreal_wallets PublicKey body (mkWork c0 [] []) with (w, inr _) => J c0 w | _ => True end.
Proof.
  intros Htidy. unfold patch_byreal_wallets. destruct (body_field _ _) as [[| | | |[|a addrs]|]|]; try done.
  rewrite run_bind. pose proof (validate_targets_spec (a :: addrs) (mkWork c0 [] [])) as Hv.
  destruct (validate_targets _ _ _) as [w [e|keys]]; [done|]. destruct Hv as (-> & Hlen & Hkeys).
  rewrite run_bind. pose proof (close_only_spec (body_field body "closeOnlyWallets") (mkWork c0 [] [])) as Hc.
  destruct (close_only _ _) as [w [e|co]]; [done|]. destruct Hc as [-> Hco].
  rewrite run_config, run_config, run_bind. set (w1 := mkWork _ _ _).
  pose proof (patch_allow_spec byrealAllowSameTickWallets "byrealAllowSameTickWallets 必須是陣列" "無效地址: " body keys w1) as H1.
  destruct (patch_allow _ _ _ _ _ _ w1) as [w2 [e|l1]]; [done|]. destruct H1 as (Hl1 & Hu1 & H1).
  rewrite run_bind. pose proof (patch_allow_spec byrealAllowOpenAfterOthersWallets "byrealAllowOpenAfterOthersWallets must be an array" "?⊥??啣?: " body keys w2) as H2.
  destruct (patch_allow _ _ _ _ _ _ w2) as [w3 [e|l2]]; [done|]. destruct H2 as (Hl2 & Hu2 & H2).
  rewrite run_bind. pose proof (patch_ratios_spec byreal body w3) as H3.
  destruct (patch_ratios byreal body w3) as [w4 [e|[]]]; [done|]. destruct H3 as (H3 & Hu3).
  rewrite run_get, run_write, run_write, run_bind.
  set (rs := walletAmountRatios (config w4) byreal).
  set (ca := with_ratios byreal rs (with_targets byreal keys c0)).
  set (W1 := mkWork ca (jset (targets_env byreal) (targets_text rs keys) []) []).
  assert (J0 c0 W1) as HJ1.
  { apply (J0_set c0 (mkWork c0 [] []) (T byreal)); [split; [apply wf_updates_nil|by intros k]|cbn; by rewrite !fupd_eq|].
    intros [| | | |d] Hne; cbn; try reflexivity. rewrite !fupd_ne by congruence. reflexivity. }
  set (W4 := written body byrealAllowOpenAfterOthersWallets l2
    (written body byrealAllowSameTickWallets l1
      (mkWork (with_set (CloseOnly byreal) co ca) (jset (set_env (CloseOnly byreal)) (serializeWalletSet co) (envUpdates W1)) []))).
  assert (J0 c0 W4) as [Hwf4 Hs4] by (apply J0_written, J0_written, (J0_list c0 W1), HJ1).
  rewrite !write_if. cbn [config effects].
  assert (forall k, view k (config w4) = view k (config W4)) as Hviews.
  { assert (config w3 = config (written body byrealAllowOpenAfterOthersWallets l2 (written body byrealAllowSameTickWallets l1 w1))) as Hc3
      by (rewrite H2; apply written_config, H1).
    destruct H3 as (Hv & Ht & _). intros k. destruct (decide (k = T byreal)) as [->|Hne].
    - cbn. rewrite Ht, Hc3. subst W4 W1 ca w1. unfold written. repeat case_bool_decide; cbn; by rewrite !fupd_eq.
    - rewrite Hv, Hc3 by done. subst W4 W1 ca w1. unfold written. destruct k; repeat case_bool_decide; cbn; try reflexivity;
        rewrite !fupd_ne by congruence; reflexivity. }
  assert (tidy (config W4)) as Ht4.
  { assert (tidy (with_set (CloseOnly byreal) co ca)) as Hca.
    { apply tidy_set; [done|]. destruct Htidy as (T1 & T2 & T3 & T4). split_and!; [done|done| |];
        intros d'; cbn; unfold fupd; destruct (decide (d' = byreal)) as [->|]; eauto. done. }
    subst W4. unfold written. repeat case_bool_decide; cbn [config]; repeat first [exact Hca|apply tidy_set; [done|]]. }
  match goal with |- J _ (mkWork _ ?U _) => assert (U = envUpdates W4) as HU end.
  { apply written_updates. cbn [envUpdates]. apply written_updates. cbn [envUpdates]. by rewrite Hu3, Hu2, Hu1. }
  rewrite HU. split_and!; [exact Hwf4|by apply sync_views| |].
  - eapply tidy_views; [| | |exact Ht4].
    + intros []; try done; apply Hviews.
    + intros d. specialize (Hviews (T d)). cbn in Hviews. by injection Hviews.
    + intros d. destruct H3 as (_ & _ & H3). cbn [config]. rewrite H3, H2, (written_config _ _ _ _ _ H1).
      subst W4 W1 ca w1. unfold written. by repeat case_bool_decide.
  - specialize (Hviews (T byreal)). cbn in Hviews. injection Hviews as Hb _. cbn. rewrite Hb.
    subst W4 W1 ca w1. unfold written. assert (keys <> []) by by destruct keys.
    repeat case_bool_decide; cbn; by rewrite fupd_eq.
Qed.

Lemma keeps_all {K} (c0 : Config) (f : K -> Json -> H unit) ks body : (forall k, keeps c0 (f k body)) -> keeps c0 (in_turn f ks body).
Proof. intros Hf. apply keeps_turn, Forall_forall. auto. Qed.

#[local] Ltac kept := first [apply keeps_all; intros ?|idtac];
  first [apply keeps_number|apply keeps_flag|apply keeps_mode|apply keeps_set|apply keeps_ages|apply keeps_overrides|apply keeps_exclude].

Lemma keeps_from c0 (m k : H unit) w : match m w with (w', inr _) => J c0 w' | _ => True end -> keeps c0 k ->
  match hbind m (fun _ => k) w with (w', inr _) => J c0 w' | _ => True end.
Proof. intros Hm Hk. unfold hbind. destruct (m w) as [w1 [e|[]]]; [done|]. by apply Hk. Qed.

Lemma patch_settings_sync c0 body : tidy c0 ->
  match patch_settings PublicKey body (mkWork c0 [] []) with (w, inr _) => J c0 w | _ => True end.
Proof.
  intros Htidy. unfold patch_settings. apply keeps_from; [destruct body; try done; by apply byreal_block|].
  repeat (apply keeps_seq; [kept|]). apply keeps_turn. repeat (constructor; [by apply keeps_dex|]). constructor.
Qed.

(** ** Reading back *)

(** The text of a number, as far as a list of targets needs it. *)
Definition solid (s : string) : Prop := s <> ""%string /\ all_chars (fun c => negb (is_white c || bool_decide (c = ","%char) || bool_decide (c = ":"%char))) s = true.

Definition ratio_readable (r : num) : Prop :=
  solid (num_toString r) /\ parseFloat (num_toString r) = r /\ is_nan r = false /\ nlt (num_of_Z 0) r = true.

(** Every setting can be read back from its text. *)
Definition readable (c : Config) : Prop :=
  (forall n, truthy (num_toString (number c n)) = true /\ parse_number n (num_toString (number c n)) = number c n)
  /\ (forall s, Forall plain (set c s)) /\ (forall d a r, jget a (walletAmountRatios c d) = Some r -> ratio_readable r).

Lemma trimEnd_solid s : all_chars (fun c => negb (is_white c)) s = true -> trimEnd s = s.
Proof.
  induction s as [|c s IH]; cbn [all_chars]; [done|]. intros [Hc Hs]%andb_true_iff. cbn [trimEnd]. rewrite (IH Hs).
  destruct s; [|done]. apply negb_true_iff in Hc. by rewrite Hc.
Qed.

Lemma trim_solid s : all_chars (fun c => negb (is_white c)) s = true -> trim s = s.
Proof.
  intros H. unfold trim. replace (trimStart s) with s; [by apply trimEnd_solid|].
  destruct s as [|c s]; [done|]. cbn in *. apply andb_true_iff in H as [Hc _]. apply negb_true_iff in Hc. by rewrite Hc.
Qed.

Lemma solid_white s : solid s -> all_chars (fun c => negb (is_white c)) s = true.
Proof. intros [_ H]. eapply all_chars_impl; [|exact H]. intros c. rewrite !negb_true_iff, !orb_false_iff. tauto. Qed.
Lemma solid_comma s : solid s -> all_chars (fun c => negb (bool_decide (c = ","%char))) s = true.
Proof. intros [_ H]. eapply all_chars_impl; [|exact H]. intros c. rewrite !negb_true_iff, !orb_false_iff. tauto. Qed.
Lemma solid_colon s : solid s -> all_chars (fun c => negb (bool_decide (c = ":"%char))) s = true.
Proof. intros [_ H]. eapply all_chars_impl; [|exact H]. intros c. rewrite !negb_true_iff, !orb_false_iff. tauto. Qed.

Lemma split_last_none s : all_chars (fun c => negb (bool_decide (c = ":"%char))) s = true -> split_last_colon s = None.
Proof.
  induction s as [|c s IH]; cbn; [done|]. intros [Hc Hs]%andb_true_iff. rewrite (IH Hs). apply negb_true_iff in Hc. by rewrite Hc.
Qed.

Lemma split_last_app a t : all_chars (fun c => negb (bool_decide (c = ":"%char))) t = true ->
  split_last_colon (a +:+ ":" +:+ t)%string = Some (a, t).
Proof.
  intros Ht. induction a as [|c a IH].
  - change (split_last_colon (String ":" t) = Some (""%string, t)). cbn [split_last_colon]. rewrite split_last_none by done. done.
  - change (split_last_colon (String c (a +:+ ":" +:+ t)%string) = Some (String c a, t)). cbn [split_last_colon]. by rewrite IH.
Qed.

Lemma target_entry_text rs a : solid a -> (forall r, jget a rs = Some r -> ratio_readable r) ->
  target_entry (target_text rs a) = (a, jget a rs).
Proof.
  intros Ha Hr. unfold target_text, target_entry. destruct (jget a rs) as [r|] eqn:Hj.
  - destruct (Hr r eq_refl) as (Hs & Hp & Hn & Hlt). rewrite split_last_app by by apply solid_colon.
    destruct a as [|c a]; [by destruct Ha|]. rewrite !trim_solid by by apply solid_white. by rewrite Hp, Hn, Hlt.
  - by rewrite split_last_none by by apply solid_colon.
Qed.

Lemma target_text_plain rs a : solid a -> (forall r, jget a rs = Some r -> ratio_readable r) -> plain (target_text rs a).
Proof.
  intros Ha Hr. unfold target_text. destruct (jget a rs) as [r|] eqn:Hj.
  - destruct (Hr r eq_refl) as (Hs & _). split_and!.
    + by destruct a; [destruct Ha|].
    + apply trim_solid. rewrite !all_chars_app. by rewrite (solid_white a), (solid_white (num_toString r)).
    + rewrite !all_chars_app. by rewrite (solid_comma a), (solid_comma (num_toString r)).
  - split_and!; [apply Ha|by apply trim_solid, solid_white|by apply solid_comma].
Qed.

(** [new PublicKey]: the text of a key is in base 58 and makes the same key. *)
Context (base58 : forall s k, PublicKey s = Ret k -> solid k /\ PublicKey k = Ret k).

Lemma read_entries_text rs ts wallets acc :
  (forall t, t ∈ ts -> solid t /\ PublicKey t = Ret t) -> (forall a r, jget a rs = Some r -> ratio_readable r) ->
  exists out, read_entries PublicKey (map (target_text rs) ts) wallets acc = Ret (wallets ++ ts, out)
    /\ forall a, (a ∈ ts -> jget a out = match jget a rs with Some r => Some r | None => jget a acc end) /\ (a ∉ ts -> jget a out = jget a acc).
Proof.
  intros Hts Hr. revert wallets acc. induction ts as [|t ts IH]; intros wallets acc; cbn [map read_entries].
  - exists acc. rewrite app_nil_r. split; [done|]. intros a. split; [by intros ?%list.elem_of_nil|done].
  - destruct (Hts t) as [Hs Hk]; [left|]. rewrite target_entry_text by eauto. rewrite Hk.
    destruct (IH ltac:(intros t' Ht'; apply Hts; by right) (wallets ++ [t])
               (match jget t rs with Some x => jset t x acc | None => acc end)) as (out & Hout & Hj).
    exists out. split; [change (Ret (wallets ++ t :: ts, out)) with (Ret (wallets ++ [t] ++ ts, out)); rewrite app_assoc; exact Hout|].
    intros a. destruct (Hj a) as [H1 H2]. split.
    + intros Ha%list.elem_of_cons. destruct (decide (a ∈ ts)) as [Hin|Hin].
      * rewrite (H1 Hin). destruct (jget a rs) as [r|] eqn:Hra; [done|]. destruct (jget t rs) as [x|] eqn:Htr; [|done].
        rewrite jget_jset_ne; [done|congruence].
      * destruct Ha as [->|Ha]; [|done]. rewrite (H2 Hin). destruct (jget t rs); [by rewrite jget_jset|done].
    + intros Hn. rewrite H2 by (intros Hin; apply Hn; by right). destruct (jget t rs); [|done].
      apply jget_jset_ne. intros ->. apply Hn. left.
Qed.

Lemma parse_targets_text rs ts :
  (forall t, t ∈ ts -> solid t /\ PublicKey t = Ret t) -> (forall a r, jget a rs = Some r -> ratio_readable r) ->
  exists out, parseTargetWallets PublicKey (targets_text rs ts) = Ret (ts, out) /\ forall a, a ∈ ts -> jget a out = jget a rs.
Proof.
  intros Hts Hr. unfold parseTargetWallets, targets_text. rewrite parse_join.
  - destruct (read_entries_text rs ts [] [] Hts Hr) as (out & Ho & Hj). exists out. split; [exact Ho|].
    intros a Ha. destruct (Hj a) as [H _]. rewrite (H Ha). by destruct (jget a rs).
  - apply Forall_map, Forall_forall. intros t Ht%list_elem_of_In. apply target_text_plain; [by apply Hts|]. intros r. apply Hr.
Qed.

(** ** The same settings *)

Record same_settings (c c' : Config) : Prop := {
  same_flag : forall f, flag c f = flag c' f;
  same_number : forall n, number c n = number c' n;
  same_set : forall s, set c s = set c' s;
  same_mode : forall m, mode c m = mode c' m;
  same_targets : forall d, targetWallets c d = targetWallets c' d;
  same_ratios : forall d a, a ∈ targetWallets c d -> jget a (walletAmountRatios c d) = jget a (walletAmountRatios c' d);
  same_enabled : forall d, d <> byreal -> enabled c d = enabled c' d;
}.

(** A configuration that was read. *)
Record read_from (env : Environment) (c : Config) : Prop := {
  read_flags : forall f, flag c f = read_flag f env;
  read_numbers : forall n, number c n = read_number n env;
  read_sets : forall s, set c s = read_set s env;
  read_modes : forall m, mode c m = read_mode m env;
  read_wallets : forall d, read_targets PublicKey d env = Ret (targetWallets c d, walletAmountRatios c d);
  read_enabled : forall d, enabled c d = negb (bool_decide (targetWallets c d = []));
}.

Lemma load_spec env c : load PublicKey env = Ret c -> read_from env c.
Proof.
  unfold load. intros H.
  destruct (read_targets PublicKey byreal env) as [b|] eqn:Hb; [|discriminate H]. cbn [obind] in H.
  destruct (read_targets PublicKey orca env) as [o|] eqn:Ho; [|discriminate H]. cbn [obind] in H.
  destruct (read_targets PublicKey meteora env) as [m|] eqn:Hm; [|discriminate H]. cbn [obind] in H.
  destruct (read_targets PublicKey pcs env) as [p|] eqn:Hp; [|discriminate H]. cbn [obind] in H.
  destruct (read_targets PublicKey dammv2 env) as [d|] eqn:Hd; [|discriminate H]. cbn [obind] in H.
  injection H as <-. split; try done. intros []; cbn [targetWallets walletAmountRatios]; [destruct b|destruct o|destruct m|destruct p|destruct d]; done.
Qed.

(** The environment that gives a configuration: what it takes to read it. *)
Lemma load_ok env c : (forall f, flag c f = read_flag f env) -> (forall n, number c n = read_number n env) ->
  (forall s, set c s = read_set s env) -> (forall m, mode c m = read_mode m env) ->
  (forall d, exists out, read_targets PublicKey d env = Ret (targetWallets c d, out)
     /\ forall a, a ∈ targetWallets c d -> jget a (walletAmountRatios c d) = jget a out) ->
  (forall d, d <> byreal -> enabled c d = negb (bool_decide (targetWallets c d = []))) ->
  exists c', load PublicKey env = Ret c' /\ same_settings c c'.
Proof.
  intros Hf Hn Hs Hm Ht He.
  destruct (Ht byreal) as (b & Hb & Rb), (Ht orca) as (o & Ho & Ro), (Ht meteora) as (m & Hm' & Rm), (Ht pcs) as (p & Hp & Rp),
    (Ht dammv2) as (d & Hd & Rd).
  unfold load. rewrite Hb, Ho, Hm', Hp, Hd. cbn [obind]. eexists. split; [reflexivity|]. split; cbn; try done.
  - by intros [].
  - intros [] a; cbn; auto.
  - intros [] Hd'; rewrite He by done; done.
Qed.

(** *** A configuration that was read is tidy *)

Lemma env_or_truthy env k d : truthy d = true -> truthy (env_or env k d) = true.
Proof. intros Hd. unfold env_or. by destruct (truthy (default "" (env !! k))) eqn:E. Qed.

Lemma read_entries_keys ss wallets acc out : read_entries PublicKey ss wallets acc = Ret out ->
  forall t, t ∈ out.1 -> t ∈ wallets \/ exists s, PublicKey s = Ret t.
Proof.
  revert wallets acc. induction ss as [|s ss IH]; intros wallets acc H; cbn in H; [injection H as <-; by left|].
  destruct (target_entry s) as [addr r]. destruct (PublicKey addr) as [k|] eqn:Hk; [|discriminate H]. cbn in H.
  intros t Ht. destruct (IH _ _ H t Ht) as [[Hw|Hw]%elem_of_app|Hs]; [by left| |by right].
  apply list_elem_of_singleton in Hw as ->. right. by exists addr.
Qed.

Lemma read_targets_keys d env out t : read_targets PublicKey d env = Ret out -> t ∈ out.1 -> exists s, PublicKey s = Ret t.
Proof.
  assert (forall raw, parseTargetWallets PublicKey raw = Ret out -> t ∈ out.1 -> exists s, PublicKey s = Ret t) as Hp.
  { intros raw H Ht. destruct (read_entries_keys _ _ _ _ H t Ht) as [Hn|Hs]; [|done]. by apply list.elem_of_nil in Hn. }
  unfold read_targets. destruct d; try apply Hp. destruct (truthy _); [apply Hp|].
  unfold requireEnv. destruct (truthy _); [|done]. apply Hp.
Qed.

Lemma tidy_same env c0 c : read_from env c0 -> same_settings c c0 -> tidy c.
Proof.
  intros R S. split_and!.
  - intros s. rewrite (same_set c c0 S), (read_sets env c0 R). apply NoDup_set_of.
  - intros m. rewrite (same_mode c c0 S), (read_modes env c0 R). apply env_or_truthy. destruct m; cbn; try done. by case_bool_decide.
  - intros d t. rewrite (same_targets c c0 S). exact (read_targets_keys d env _ t (read_wallets env c0 R d)).
  - intros d Hd. rewrite (same_enabled c c0 S) by done. rewrite (same_targets c c0 S). apply (read_enabled env c0 R).
Qed.

(** *** After the file is read again *)

Lemma lookup_updates u env e : apply_updates u env !! e = match jget e u with Some t => Some t | None => env !! e end.
Proof.
  unfold apply_updates. rewrite lookup_union, lookup_to_gmap. destruct (jget e u), (env !! e); reflexivity.
Qed.

Section ReadBack.
Context (env : Environment) (c0 c : Config) (w : Work).
Context (R : read_from env c0) (S0 : same_settings c c0) (HJ : J c w) (Hr : readable (config w)).

Abbreviation env' := (apply_updates (envUpdates w) env).

(** A setting that was not written reads as before. *)
Lemma not_written k : jget (env_name k) (envUpdates w) = None -> env' !! env_name k = env !! env_name k /\ view k (config w) = view k c.
Proof using HJ.
  intros Hn. rewrite lookup_updates, Hn. split; [done|]. pose proof HJ as (_ & Hs & _). specialize (Hs k). by rewrite Hn in Hs.
Qed.

Lemma is_written k t : jget (env_name k) (envUpdates w) = Some t -> env' !! env_name k = Some (text_of (view k (config w))).
Proof using HJ.
  intros Hn. rewrite lookup_updates, Hn. pose proof HJ as (_ & Hs & _). specialize (Hs k). rewrite Hn in Hs. by rewrite Hs.
Qed.

Lemma env_or_written k d t : jget (env_name k) (envUpdates w) = Some t ->
  let v := text_of (view k (config w)) in env_or env' (env_name k) d = if truthy v then v else d.
Proof using HJ. intros Hn v. unfold env_or. by rewrite (is_written k t Hn). Qed.

Lemma env_or_unwritten k d : jget (env_name k) (envUpdates w) = None -> env_or env' (env_name k) d = env_or env (env_name k) d.
Proof using HJ. intros Hn. unfold env_or. by destruct (not_written k Hn) as [-> _]. Qed.

Lemma flags_back f : flag (config w) f = read_flag f env'.
Proof using HJ R S0.
  destruct (jget (env_name (F f)) (envUpdates w)) as [t|] eqn:Hj.
  - pose proof (is_written (F f) t Hj) as He. cbn in He. unfold read_flag. rewrite He. destruct f, (flag (config w) _); reflexivity.
  - destruct (not_written (F f) Hj) as [He Hv]. cbn in He, Hv. injection Hv as ->.
    rewrite (same_flag c c0 S0), (read_flags env c0 R). unfold read_flag. by rewrite He.
Qed.

Lemma numbers_back n : number (config w) n = read_number n env'.
Proof using HJ R S0 Hr.
  unfold read_number. destruct (jget (env_name (N n)) (envUpdates w)) as [t|] eqn:Hj.
  - pose proof (env_or_written (N n) (number_default n) t Hj) as He. cbn in He. rewrite He.
    destruct Hr as (Hn & _). destruct (Hn n) as [-> Hp]. by rewrite Hp.
  - pose proof (env_or_unwritten (N n) (number_default n) Hj) as He. cbn in He. rewrite He.
    destruct (not_written (N n) Hj) as [_ Hv]. cbn in Hv. injection Hv as ->. by rewrite (same_number c c0 S0), (read_numbers env c0 R).
Qed.

Lemma sets_back s : set (config w) s = read_set s env'.
Proof using HJ R S0 Hr.
  unfold read_set. destruct (jget (env_name (L s)) (envUpdates w)) as [t|] eqn:Hj.
  - pose proof (env_or_written (L s) "" t Hj) as He. cbn in He. rewrite He.
    destruct Hr as (_ & Hp & _). specialize (Hp s). pose proof HJ as (_ & _ & (Hd & _) & _).
    assert (parseWalletSet (serializeWalletSet (set (config w) s)) = set (config w) s) as Hback
      by (unfold parseWalletSet, serializeWalletSet; rewrite parse_join by done; by apply set_of_NoDup).
    destruct (truthy (serializeWalletSet (set (config w) s))) eqn:Ht; [done|].
    rewrite <- Hback at 1. by destruct (serializeWalletSet (set (config w) s)).
  - pose proof (env_or_unwritten (L s) "" Hj) as He. cbn in He. rewrite He.
    destruct (not_written (L s) Hj) as [_ Hv]. cbn in Hv. injection Hv as ->. by rewrite (same_set c c0 S0), (read_sets env c0 R).
Qed.

(** The older variable behind [PUMP_FILTER_MODE], and that behind [TARGET_WALLETS], are not settings. *)
Lemma untouched e : (forall k, env_name k <> e) -> env' !! e = env !! e.
Proof using HJ.
  intros Hne. rewrite lookup_updates. destruct (jget e (envUpdates w)) as [t|] eqn:Hj; [|done]. exfalso.
  pose proof HJ as ((_ & Hn) & _). destruct (Hn e) as [k Hk]; [|by apply (Hne k)].
  apply jget_Some_elem in Hj. apply list_elem_of_fmap. by exists (e, t).
Qed.

Lemma other_name e : e ∉ map env_name all_settings -> forall k, env_name k <> e.
Proof.
  intros Hn k <-. apply Hn. change (map env_name all_settings) with (env_name <$> all_settings).
  apply list_elem_of_fmap_2, all_settings_all.
Qed.

Lemma modes_back m : mode (config w) m = read_mode m env'.
Proof using HJ R S0.
  unfold read_mode. rewrite (untouched "IGNORE_PUMP_TOKENS") by (apply other_name, (bool_decide_unpack _); vm_compute; exact I).
  destruct (jget (env_name (M m)) (envUpdates w)) as [t|] eqn:Hj.
  - match goal with |- _ = env_or _ _ ?d => pose proof (env_or_written (M m) d t Hj) as He end. cbn in He. rewrite He.
    pose proof HJ as (_ & _ & (_ & Hm & _) & _). by rewrite Hm.
  - match goal with |- _ = env_or _ _ ?d => pose proof (env_or_unwritten (M m) d Hj) as He end. cbn in He. rewrite He.
    destruct (not_written (M m) Hj) as [_ Hv]. cbn in Hv. injection Hv as ->. by rewrite (same_mode c c0 S0), (read_modes env c0 R).
Qed.

Lemma targets_back d : exists out, read_targets PublicKey d env' = Ret (targetWallets (config w) d, out)
  /\ forall a, a ∈ targetWallets (config w) d -> jget a (walletAmountRatios (config w) d) = jget a out.
Proof using HJ R S0 Hr base58.
  pose proof HJ as (_ & _ & (_ & _ & Hk & _) & Hb). destruct Hr as (_ & _ & Hrat).
  destruct (jget (env_name (T d)) (envUpdates w)) as [t|] eqn:Hj.
  - destruct (parse_targets_text (walletAmountRatios (config w) d) (targetWallets (config w) d)) as (out & Ho & Hra).
    { intros a Ha. destruct (Hk d a Ha) as [s Hs]. exact (base58 s a Hs). }
    { apply Hrat. }
    exists out. split; [|intros a Ha; by rewrite Hra]. rewrite <- Ho. clear Ho Hra.
    pose proof (env_or_written (T d) "" t Hj) as He. cbn [env_name view text_of] in He.
    unfold read_targets. destruct d; rewrite He; try (by destruct (targets_text _ _)).
    assert (truthy (targets_text (walletAmountRatios (config w) byreal) (targetWallets (config w) byreal)) = true) as Htr.
    2: { rewrite Htr. cbv zeta. by rewrite Htr. }
    destruct (targetWallets (config w) byreal) as [|a l] eqn:Hl; [done|].
    destruct (Hk byreal a) as [s Hs]; [rewrite Hl; left|]. destruct (base58 s a Hs) as [[Hne _] _].
    unfold targets_text, join, target_text. destruct a as [|ch a]; [done|]. cbn [map].
    destruct (jget (String ch a) (walletAmountRatios (config w) byreal)), l; reflexivity.
  - destruct (not_written (T d) Hj) as [_ Hv]. cbn in Hv. injection Hv as Hv1 Hv2. exists (walletAmountRatios c0 d).
    rewrite Hv1, Hv2. split; [|exact (same_ratios c c0 S0 d)]. rewrite (same_targets c c0 S0), <- (read_wallets env c0 R d).
    pose proof (env_or_unwritten (T d) "" Hj) as He. cbn [env_name] in He. unfold read_targets, requireEnv.
    rewrite (untouched "BOT2_WALLET") by (apply other_name, (bool_decide_unpack _); vm_compute; exact I).
    destruct d; by rewrite He.
Qed.

End ReadBack.

(** A file gives the settings what the environment has: it is plain, assigns each
    of them at most once, and [dotenv] reads each as it is in the environment. *)
Definition assigned `{Dt : EnvFile.Dotenv} (env : Environment) (file : string) : Prop :=
  EnvFile.plain file = true
  /\ forall k, (length (EnvFile.assignments (env_name k) file) <= 1)%nat /\ env !! env_name k = EnvFile.parse (env_name k) file.

Lemma names_are_names k : EnvFile.name (env_name k) = true.
Proof. destruct k as [[| | |[]|]|[]|[[]| | | | | |]|[]|[]]; reflexivity. Qed.

(** Values that can be written and read as they are. *)
Definition writable (u : list (string * string)) : Prop :=
  Forall (fun kv => EnvFile.simple kv.2 = true /\ EnvFile.plain_value kv.2 = true) u.

Lemma update_assigned `{Dt : EnvFile.Dotenv} env u file : wf_updates u -> writable u -> assigned env file ->
  assigned (apply_updates u env) (EnvFile.updateEnvFile u (Some file)).
Proof.
  intros [Hwf Hn] Hs [Hp Ha].
  assert (EnvFile.writable u) as Hu.
  { split; [done|]. apply Forall_forall. intros [e t] Hin. unfold writable in Hs; rewrite Forall_forall in Hs. split; [|by apply (Hs (e, t))].
    destruct (Hn e) as [k' ->]; [apply list_elem_of_fmap; exists (e, t); split; [done|by apply list_elem_of_In]|]. apply names_are_names. }
  split; [by apply EnvFile.updates_plain|]. intros k. destruct (Ha k) as [Hk1 Hk2]. pose proof (names_are_names k) as Hnm. split.
  - rewrite EnvFile.updates_assignments by done. destruct (jget _ u); [|done].
    destruct (EnvFile.assignments _ file); cbn [tail length] in *; lia.
  - rewrite lookup_updates, EnvFile.parse_updated by done. rewrite bool_decide_true by done. by rewrite <- Hk2.
Qed.

(** C21: The settings survive a restart.  Take a process whose settings are those
    its environment gives - as they are after a start and after every request
    answered with success, though not after a refused one
    ([refused_patch_replaces_targets]) - and a PATCH of the configuration that is
    answered with success, whatever fields it has, after which every setting has
    a text that can be read back (addresses without commas, numbers that
    [toString] prints as [parseFloat] and [parseInt] read them), with a
    [PublicKey] whose keys are in base 58.  Then updates of the environment are
    written with which the next start reads every setting as it is in force:
    flags, numbers, modes, the wallet lists in their order, the targets of each
    exchange and the ratios of those targets; so the same holds before the next
    request.  And when the environment file is plain and assigns each setting once
    at most, and the values written are plain and have no line end and no [$],
    the file as [updateEnvFile] leaves it gives those settings, as [dotenv] reads
    it, and is again such a file. *)
Theorem settings_survive_restart `{Dt : EnvFile.Dotenv} env c0 c body c' effs :
  load PublicKey env = Ret c0 -> same_settings c c0 -> patch_config PublicKey body c = (c', effs, inr tt) -> readable c' ->
  exists updates c2, UpdateEnvFile updates ∈ effs /\ load PublicKey (apply_updates updates env) = Ret c2 /\ same_settings c' c2
    /\ forall file, assigned env file -> writable updates ->
       assigned (apply_updates updates env) (EnvFile.updateEnvFile updates (Some file)).
Proof.
  intros R%load_spec S0 Hp Hr. pose proof (tidy_same env c0 c R S0) as Htidy.
  pose proof (patch_settings_sync c body Htidy) as HJ. unfold patch_config in Hp.
  destruct (patch_settings PublicKey body (mkWork c [] [])) as [w [e|[]]]; [done|]. injection Hp as <- <-.
  exists (envUpdates w).
  destruct (load_ok (apply_updates (envUpdates w) env) (config w)) as (c2 & H1 & H2).
  - intros f. by eapply flags_back.
  - intros n. by eapply numbers_back.
  - intros s. by eapply sets_back.
  - intros m. by eapply modes_back.
  - intros d. by eapply targets_back.
  - apply HJ.
  - exists c2. split; [apply elem_of_app; right; left|]. split; [done|]. split; [done|]. intros file Hf Hs. apply update_assigned; [apply HJ|done|done].
Qed.

End Rules.

(** ** A request *)

(** Any non-empty word is a key. *)
Definition demo_key (s : string) : outcome string :=
  if bool_decide (s <> ""%string) && all_chars is_alnum s then Ret s else Throw "Invalid public key input"%string.

Lemma alnum_solid c : is_alnum c = true -> negb (is_white c || bool_decide (c = ","%char) || bool_decide (c = ":"%char)) = true.
Proof. destruct c as [[] [] [] [] [] [] [] []]; vm_compute; intros H; first [reflexivity|discriminate H]. Qed.

Lemma demo_base58 s k : demo_key s = Ret k -> solid k /\ demo_key k = Ret k.
Proof.
  unfold demo_key. destruct (bool_decide _) eqn:Hne; [|done]. destruct (all_chars is_alnum s) eqn:Hs; [|done]. intros [= <-].
  rewrite Hne, Hs. apply bool_decide_eq_true in Hne. split; [|done]. split; [done|]. exact (all_chars_impl _ _ s alnum_solid Hs).
Qed.

Definition demo_env : Environment :=
  {["TARGET_WALLETS" := "WalA:0.5,WalB"; "ORCA_TARGET_WALLETS" := "WalC"; "TOKEN_WHITELIST" := "MintA,MintB"; "PUMP_FILTER_MODE" := "full"]}%string.

(** Two targets, one with a ratio; a mint moved to the blacklist; half a per cent of slippage. *)
Definition demo_body : Json :=
  readBody (dq "{'targetWallets':[' WalB ','WalD'],'walletAmountRatios':{'WalD':'1.25'},'tokenBlacklist':['MintB'],'slippageBps':50,'dryRun':'true','orcaTargetWallets':['WalC','not a key'],'amountRatio':0}").

Definition loads (o : outcome Config) : bool := match o with Ret _ => true | Throw _ => false end.
Definition loaded (o : outcome Config) (d : Config) : Config := match o with Ret c => c | Throw _ => d end.

Definition demo_config : Config :=
  loaded (load demo_key demo_env)
    (mkConfig (fun _ => false) (fun _ => num_of_Z 0) (fun _ => []) (fun _ => ""%string) (fun _ => []) (fun _ => []) (fun _ => false) []).
Definition demo_patched : Config * list Effect * (Refusal + unit) := patch_config demo_key demo_body demo_config.

Example patch_run :
  let '(c, effs, r) := demo_patched in
  r = inr tt /\ targetWallets c byreal = ["WalB"; "WalD"]%string /\ set c tokenWhitelist = ["MintA"]%string /\ targetWallets c orca = ["WalC"]%string
  /\ effs = [UpdateEnvFile [("TARGET_WALLETS", "WalB,WalD:1.25"); ("CLOSE_ONLY_WALLETS", ""); ("SLIPPAGE_BPS", "50"); ("DRY_RUN", "true");
                            ("TOKEN_BLACKLIST", "MintB"); ("TOKEN_WHITELIST", "MintA"); ("ORCA_TARGET_WALLETS", "WalC")]; Resubscribe]%string.
Proof. vm_compute. by split_and!. Qed.

Definition demo_updates : list (string * string) :=
  [("TARGET_WALLETS", "WalB,WalD:1.25"); ("CLOSE_ONLY_WALLETS", ""); ("SLIPPAGE_BPS", "50"); ("DRY_RUN", "true");
   ("TOKEN_BLACKLIST", "MintB"); ("TOKEN_WHITELIST", "MintA"); ("ORCA_TARGET_WALLETS", "WalC")]%string.

(** A list that is refused after the targets have been replaced: the answer is an
    error, nothing is written and nobody resubscribes, but the new targets stay. *)
Example refused_patch_replaces_targets :
  let '(c, effs, r) := patch_config demo_key (readBody (dq "{'targetWallets':['WalZ'],'byrealAllowSameTickWallets':'WalZ'}")) demo_config in
  r = inl (mkRefusal 400 "byrealAllowSameTickWallets 必須是陣列") /\ effs = [] /\ targetWallets c byreal = ["WalZ"]%string
  /\ targetWallets demo_config byreal = ["WalA"; "WalB"]%string.
Proof. vm_compute. by split_and!. Qed.

Lemma given o d : loads o = true -> o = Ret (loaded o d).
Proof. by destruct o. Qed.

Lemma answered (x : Config * list Effect * (Refusal + unit)) : x.2 = inr tt -> x = (x.1.1, x.1.2, inr tt).
Proof. destruct x as [[c e] r]. cbn. by intros ->. Qed.

Lemma demo_loads : loads (load demo_key demo_env) = true.
Proof. vm_compute. reflexivity. Qed.

Lemma patch_demo_answers : demo_patched.2 = inr tt.
Proof. vm_compute. reflexivity. Qed.

(** The file of that environment, and how it stands after the request. *)
Definition demo_file : string := dq "# targets
TARGET_WALLETS=WalA:0.5,WalB
ORCA_TARGET_WALLETS=WalC

TOKEN_WHITELIST=MintA,MintB
PUMP_FILTER_MODE=full".

Lemma demo_assigned : assigned (Dt := EnvFile.reads_last) demo_env demo_file.
Proof.
  split; [vm_compute; reflexivity|].
  intros [[| | |[]|]|[]|[[]| | | | | |]|[]|[]]; vm_compute; (split; [lia|reflexivity]).
Qed.

Lemma demo_writes u : UpdateEnvFile u ∈ demo_patched.1.2 -> u = demo_updates.
Proof.
  assert (demo_patched.1.2 = [UpdateEnvFile demo_updates; Resubscribe]) as -> by (vm_compute; reflexivity).
  intros [H|[H|H]%list.elem_of_cons]%list.elem_of_cons; [by injection H|discriminate H|by apply list.elem_of_nil in H].
Qed.

Lemma settings_survive_restart_witness :
  exists updates c2, UpdateEnvFile updates ∈ demo_patched.1.2
    /\ load demo_key (apply_updates updates demo_env) = Ret c2 /\ same_settings demo_patched.1.1 c2
    /\ assigned (Dt := EnvFile.reads_last) (apply_updates updates demo_env) (EnvFile.updateEnvFile updates (Some demo_file)).
Proof.
  pose proof (given (load demo_key demo_env) (mkConfig (fun _ => false) (fun _ => num_of_Z 0) (fun _ => []) (fun _ => ""%string) (fun _ => []) (fun _ => []) (fun _ => false) []) demo_loads : load demo_key demo_env = Ret demo_config) as Hl.
  assert (same_settings demo_config demo_config) as Hs by by split.
  pose proof (answered _ patch_demo_answers) as Hp.
  destruct (settings_survive_restart demo_key demo_base58 (Dt := EnvFile.reads_last) demo_env demo_config demo_config demo_body demo_patched.1.1 demo_patched.1.2 Hl Hs Hp)
    as (u & c2 & H1 & H2 & H3 & H4); [|refine (ex_intro _ u (ex_intro _ c2 (conj H1 (conj H2 (conj H3 (H4 demo_file demo_assigned _))))))].
  2:{ rewrite (demo_writes u H1). vm_compute. repeat constructor. }
  split_and!.
  - intros []; vm_compute; by split.
  - intros []; [destruct d|..]; vm_compute; repeat constructor; done.
  - intros d a r Hj%jget_Some_elem.
    assert (forall d', walletAmountRatios demo_patched.1.1 d' = match d' with byreal => [("WalD"%string, dec_num 125 2)] | _ => [] end) as Hd
      by (intros []; vm_compute; reflexivity).
    rewrite Hd in Hj. destruct d; [|exfalso; exact (proj1 (list.elem_of_nil _) Hj)..].
    apply list_elem_of_singleton in Hj. injection Hj as _ ->.
    split; [split; [vm_compute; discriminate|vm_compute; reflexivity]|].
    split; [vm_compute; reflexivity|split; vm_compute; reflexivity].
Defined.

End SettingsRules.
