(* ===== verification/Notify.v ===== *)
(** * Notifications ([src/discord/notify.ts]) and health ([src/dashboard/health.ts])

    [Notify]: the readable form of an error, the notices of the bot, and their
    aggregation: calls with the same key within a window are posted once.  The
    pending objects live in a heap, since the map and the closure of the timer
    share them.  [PumpQueue]: the approval requests of [src/dashboard/server.ts],
    posted one at a time.  [Health]: the probes and the verdict of [/health].

    The text of a date in Taipei time is a parameter ([toLocaleString] depends on
    the locale data of the engine), as is the version of the package. *)

From S2P Require Import Prelude JsMap JsString JsNumber Json JsConvert Async.
Open Scope string_scope.
Open Scope Z_scope.
Open Scope list_scope.

Module Notify.
Import Async.

(** ** Readable errors *)

Definition ERROR_MAP : list (string * string) :=
  [("1", "代幣餘額不足 (insufficient funds)"); ("6013", "價格限制溢出 (SqrtPriceLimitOverflow)");
   ("6021", "價格滑點超限 (PriceSlippageCheck)"); ("6024", "滑點超限 (SlippageToleranceExceeded)")]%string.

(** A thrown value: an [Error] with its message and its own enumerable fields,
    or any other value. *)
Inductive Thrown := TErr (message : string) (own : list (string * Json)) | TVal (v : option Json).

(** [x.k], undefined where [x] has no such field or is null or undefined. *)
Definition member (x : Thrown) (k : string) : option Json :=
  match x with
  | TErr m own => if decide (k = "message"%string) then Some (JStr m) else jget k own
  | TVal v => jopt v k
  end.

(** [x.k ?? d] *)
Definition member_or (x : Thrown) (k : string) (d : Thrown) : Thrown :=
  match member x k with Some JNull | None => d | Some j => TVal (Some j) end.

Definition is_object (x : Thrown) : bool :=
  match x with TErr _ _ | TVal (Some (JObj _)) | TVal (Some (JArr _)) => true | _ => false end.

(** [JSON.stringify(x) ?? String(x)] *)
Definition stringified (x : Thrown) : string :=
  match x with TErr _ own => jstringify (JObj own) | TVal (Some j) => jstringify j | TVal None => "undefined" end.

(** The text of the error. *)
Definition raw_text (error : Thrown) : string :=
  let raw := member_or error "message" error in
  let raw := if is_object raw
             then member_or raw "message" (member_or raw "msg" (member_or raw "error" raw)) else raw in
  match raw with
  | TVal (Some (JStr s)) => s
  | TErr m _ => m
  | _ => stringified raw
  end.

(** [msg.match(/Error Code: (\w+)\.\s*Error Number: (\d+)/)] *)
Definition anchorMatch (msg : string) : option (string * string) :=
  search (fun t =>
    if startsWith t "Error Code: " then
      let (w, r) := span is_word (skip 12 t) in
      if truthy w && startsWith r "." then
        let r := (span is_white (skip 1 r)).2 in
        if startsWith r "Error Number: " then
          let n := (span is_digit (skip 14 r)).1 in if truthy n then Some (w, n) else None
        else None
      else None
    else None) msg.

Definition is_hex (c : Ascii.ascii) : bool := bool_decide (is_Some (digit_val c)).

(** [msg.match(/custom program error: (0x[0-9a-fA-F]+)/)] *)
Definition hexMatch (msg : string) : option string :=
  search (fun t =>
    if startsWith t "custom program error: 0x" then
      let n := (span is_hex (skip 24 t)).1 in if truthy n then Some ("0x" +:+ n)%string else None
    else None) msg.

Fixpoint hex_digits (fuel : nat) (z : Z) (acc : string) : string :=
  match fuel with
  | O => acc
  | S fuel' =>
      let acc := (String.substring (Z.to_nat (z mod 16)) 1 "0123456789abcdef" +:+ acc)%string in
      if z <? 16 then acc else hex_digits fuel' (z / 16) acc
  end.

(** [x.toString(16)] of a whole number: a double has at most 256 digits. *)
Definition toString16 (x : num) : string :=
  match floorZ x with Some z => hex_digits 256 z "" | None => num_toString x end.

(** [parseInt('0x..', 16)] *)
Definition parse_hex (h : string) : num :=
  match parse_nat 16 (skip 2 h) with Some z => num_of_Z z | None => NaN end.

(** [msg.replace(/\s+/g, ' ')]; [prev] tells whether the character before is white. *)
Fixpoint squash (prev : bool) (s : string) : string :=
  match s with
  | EmptyString => ""
  | String c s' =>
      if is_white c then (if prev then squash true s' else String (Ascii.ascii_of_nat 32) (squash true s'))
      else String c (squash false s')
  end.

(** [s.slice(0, n)] in code points; a pair of units that the cut would split is
    left out. *)
Fixpoint take_units (n : nat) (ps : list string) : string :=
  match ps with
  | [] => ""
  | p :: ps' =>
      let u := if (String.length p =? 4)%nat then 2%nat else 1%nat in
      if (u <=? n)%nat then (p +:+ take_units (n - u) ps')%string else ""
  end.
Definition slice0 (n : nat) (s : string) : string := take_units n (chars s).

Definition clip (n : nat) (s : string) : string :=
  if (n <? units s)%nat then (slice0 n s +:+ "…")%string else s.

(** [/0x1\b/.test(msg)] *)
Definition hex_one (msg : string) : bool :=
  bool_decide (is_Some (search (fun t =>
    if startsWith t "0x1" && negb (word_at (skip 3 t)) then Some tt else None) msg)).

(** The summary of a message. *)
Definition summary (msg : string) : string :=
  match anchorMatch msg with
  | Some (name, n) =>
      let num := parseInt n in
      match jget (num_toString num) ERROR_MAP with
      | Some friendly => friendly
      | None => (name +:+ " (0x" +:+ toString16 num +:+ ")")%string
      end
  | None =>
      match hexMatch msg with
      | Some h =>
          match jget (num_toString (parse_hex h)) ERROR_MAP with
          | Some friendly => friendly
          | None => ("Program error " +:+ h)%string
          end
      | None =>
          if includes_i msg "insufficient lamports" then "SOL 餘額不足"
          else if includes_i msg "insufficient funds" || hex_one msg then "代幣餘額不足"
          else clip 150 (trim (squash false msg))
      end
  end%string.

Definition parseOnChainError (error : Thrown) : string :=
  let msg := raw_text error in
  summary (if includes msg "[object Object]" then stringified error else msg).

(** ** What is sent *)

Record NotifyField := mkField { name : string; value : Json }.

(** The arguments of [sendAggregated]. *)
Record Notice := mkNotice {
  type : string; title : string; description : string; fields : option (list NotifyField); dedupeExtra : option string;
}.

(** The arguments of [postNotification]. *)
Record Posting := mkPosting {
  p_type : string; p_title : string; p_description : string; p_fields : option (list NotifyField); p_time : option Z;
}.

Record NotifyConfig := mkNotifyConfig {
  discordNotifyUrl : string;
  discordApiKey : string;
  wallet : outcome string;            (** [getUserAddress().toBase58()] *)
  version : string;
  toLocaleString : Z -> string;       (** in Taipei time *)
  tokenNames : outcome string;        (** the file data/token-names.json *)
}.

(** The calls: a POST, with the status and the text of the answer, and the
    token search of Jupiter. *)
Inductive Call :=
| Post (url : string) (body : Json)
| TokenSearch (mint : string).
Definition Ans (c : Call) : Type :=
  match c with Post _ _ => bool | TokenSearch _ => bool * outcome Json end.

Abbreviation P := (Prog unit Call Ans Empty_set).
Open Scope prog_scope.

Section Post.
Context (cfg : NotifyConfig).

Definition field_json (f : NotifyField) : Json := JObj [("name", JStr (name f)); ("value", value f)]%string.

(** [ts.toISOString().replace('T', ' ').slice(0, 19) + ' UTC'] for the years
    of four digits. *)
Definition utcStr (iso : string) : string :=
  (String.substring 0 10 iso +:+ " " +:+ String.substring 11 8 iso +:+ " UTC")%string.

Definition payload_of (addr iso : string) (ts : Z) (p : Posting) : Json :=
  let twTime := (toLocaleString cfg ts +:+ " (UTC+8)")%string in
  let allFields := default [] (p_fields p)
    ++ [mkField "時間" (JStr (twTime +:+ String (Ascii.ascii_of_nat 10) (utcStr iso)))]%string in
  JObj [("wallet", JStr addr); ("apiKey", JStr (discordApiKey cfg)); ("type", JStr (p_type p));
        ("title", JStr (p_title p)); ("description", JStr (p_description p)); ("timestamp", JStr iso);
        ("fields", JArr (map field_json allFields)); ("version", JStr (version cfg))]%string.

(** The [try] around a POST: a refused or failed request is only logged. *)
Definition post_quietly (body : Json) : P unit :=
  catch (do* await (Post (discordNotifyUrl cfg) body) in ret tt) (fun _ => ret tt).

Definition postNotification (p : Posting) : P unit :=
  if negb (truthy (discordNotifyUrl cfg)) then ret tt else
  let* now := match p_time p with Some t => ret t | None => clock end in
  let* iso := lift (Calendar.toISOString now) in
  let* addr := lift (wallet cfg) in
  post_quietly (payload_of addr iso now p).

(** The symbol of a mint in the file of token names. *)
Definition resolveSymbol (mint : string) : Json :=
  let r := let! raw := tokenNames cfg in
           let! cache := JSON_parse raw in
           let! entry := jfield (Some cache) mint in
           Ret (jor (jopt entry "symbol") (JStr mint)) in
  match r with Ret s => s | Throw _ => JStr mint end.

(** ** The notices of the bot *)

Definition text (s : string) : Json := JStr s.

Definition notifySolInsufficient (solBalance : num) : Notice :=
  let sol := toFixed solBalance 4 in
  mkNotice "sol_insufficient" "SOL 餘額不足" ("目前 SOL 餘額: " +:+ sol +:+ " SOL，可能無法支付交易費用")
    (Some [mkField "SOL 餘額" (text (sol +:+ " SOL"))]) None.

Definition notifyDrawdownPause (drawdownPct startAsset currentAsset : num) : Notice :=
  let pct := (toFixed drawdownPct 1 +:+ "%")%string in
  mkNotice "drawdown_pause" "回撤暫停" ("回撤 " +:+ pct +:+ " 已超過閾值，Bot 暫停運作")
    (Some [mkField "回撤幅度" (text pct); mkField "起始資產" (text ("$" +:+ toFixed startAsset 2));
           mkField "目前資產" (text ("$" +:+ toFixed currentAsset 2))]) None.

Definition notifySwapFailed (tokenMint context : string) : Notice :=
  let symbol := resolveSymbol tokenMint in
  let errSummary := parseOnChainError (TVal (Some (JObj [("message", JStr context)]))) in
  mkNotice "swap_failed" "兌換失敗" (jstring symbol +:+ " 兌換失敗")
    (Some [mkField "代幣" symbol; mkField "Mint" (text tokenMint); mkField "錯誤" (text errSummary)]) (Some tokenMint).

Definition notifyOpenFailed (error : Thrown) (targetNft : string) : Notice :=
  let errSummary := parseOnChainError error in
  mkNotice "open_failed" "開倉失敗" ("目標 NFT " +:+ targetNft +:+ " 開倉失敗: " +:+ errSummary)
    (Some [mkField "目標 NFT" (text targetNft); mkField "錯誤" (text errSummary)]) (Some targetNft).

Definition notifyCloseFailed (ourNft : string) (error : Thrown) (attempt : Z) : Notice :=
  let errSummary := match error with TVal (Some (JStr s)) => s | _ => parseOnChainError error end in
  mkNotice "close_failed" "平倉失敗"
    ("NFT " +:+ ourNft +:+ " 平倉失敗 (第 " +:+ Z_toString attempt +:+ " 次): " +:+ errSummary)
    (Some [mkField "我方 NFT" (text ourNft); mkField "重試次數" (text (Z_toString attempt)); mkField "錯誤" (text errSummary)])
    (Some ourNft).

(** ** Notices sent at once *)

Definition pump_payload (addr iso ty ti desc mint : string) (fs : list NotifyField) : Json :=
  JObj [("wallet", JStr addr); ("apiKey", JStr (discordApiKey cfg)); ("type", JStr ty); ("title", JStr ti);
        ("description", JStr desc); ("timestamp", JStr iso); ("fields", JArr (map field_json fs));
        ("version", JStr (version cfg)); ("pumpMint", JStr mint)]%string.

(** [arr?.[0]?.symbol] of what was found *)
Definition found_symbol (j : Json) : outcome (option Json) :=
  match jindex j "0" 0 with None | Some JNull => Ret None | Some t => jfield (Some t) "symbol" end.

Definition pump_symbol (mint symbol : string) : P Json :=
  if negb (truthy symbol) || bool_decide (symbol = mint) || (units symbol <=? 12)%nat then
    catch (let* r := await (TokenSearch mint) in
           if r.1 : bool then
             let* arr := lift r.2 in
             let* s := lift (found_symbol arr) in
             ret (jor s (JStr symbol))
           else ret (JStr symbol))
      (fun _ => ret (JStr symbol))
  else ret (JStr symbol).

Definition notifyPumpApproval (mint symbol pool : string) : P unit :=
  if negb (truthy (discordNotifyUrl cfg)) then ret tt else
  let* resolved := pump_symbol mint symbol in
  let* addr := lift (wallet cfg) in
  let* now := clock in
  let* iso := lift (Calendar.toISOString now) in
  post_quietly (pump_payload addr iso "pump_approval" "Pump 代幣審批"
    ("偵測到 Pump 代幣 **" +:+ jstring resolved +:+ "**，等待您批准或拒絕") mint
    [mkField "代幣" resolved; mkField "Mint" (text mint); mkField "流動池" (text pool)]).

Definition notifyPumpExpired (mint symbol : string) : P unit :=
  if negb (truthy (discordNotifyUrl cfg)) then ret tt else
  let* addr := lift (wallet cfg) in
  let* now := clock in
  let* iso := lift (Calendar.toISOString now) in
  post_quietly (pump_payload addr iso "pump_expired" "Pump 代幣審批已過期"
    ("Pump 代幣 **" +:+ symbol +:+ "** 超過 1 小時未回應，已自動拒絕並加入黑名單") mint
    [mkField "代幣" (text symbol); mkField "Mint" (text mint)]).

(** [err?.stack ?? err?.message ?? String(err)] is an argument. *)
Definition notifyCrash (errMsg : string) : P unit :=
  postNotification (mkPosting "crash" "Bot 崩潰"
    ("Bot 發生未預期錯誤並即將重啟:" +:+ String (Ascii.ascii_of_nat 10) errMsg)
    (Some [mkField "錯誤" (text (slice0 1000 errMsg))]) None).

End Post.
Example parseOnChainError_run :
  map (fun m => parseOnChainError (TErr m []))
    ["AnchorError. Error Code: PriceSlippageCheck. Error Number: 6021."; "x Error Code: Foo.  Error Number: 6000. y";
     "failed: custom program error: 0x1"; "custom program error: 0x1785"; "custom program error: 0xfe";
     "Transfer: insufficient Lamports 5, need 7"; "code 0x1."; "code 0x12"; "  a" +:+ String (Ascii.ascii_of_nat 10) "  b "]
  = ["價格滑點超限 (PriceSlippageCheck)"; "Foo (0x1770)"; "代幣餘額不足 (insufficient funds)";
     "價格滑點超限 (PriceSlippageCheck)"; "Program error 0xfe"; "SOL 餘額不足"; "代幣餘額不足"; "code 0x12"; "a b"].
Proof. vm_compute. reflexivity. Qed.

Example raw_text_run :
  map parseOnChainError
    [TVal (Some (JObj [("message", JObj [("code", JNum (num_of_Z 5))])])); TVal None; TVal (Some JNull);
     TErr "[object Object]" [("code", JNum (num_of_Z 7))]; TVal (Some (JObj [("error", JStr "late")]))]
  = [dq "{'code':5}"; "undefined"; "null"; dq "{'code':7}"; "late"].
Proof. vm_compute. reflexivity. Qed.

(** ** Aggregation

    A pending notification is an object of the heap: [pendingMap] and the closure
    of its timer hold its address.  A timer that is armed goes off at [due] or
    later. *)

Record Pending := mkPending {
  pd_type : string; pd_title : string; pd_description : string; pd_fields : option (list NotifyField);
  count : Z; eventTime : Z; timer : nat;
}.

Record Timer := mkTimer { due : Z; tm_key : string; tm_obj : nat }.

Record Aggregator := mkAggregator {
  heap : list Pending;
  pendingMap : list (string * nat);
  timers : list (nat * Timer);          (** the armed ones, the oldest first *)
  nextTimer : nat;
}.

Definition AGGREGATE_WINDOW_MS : Z := 10000.

Definition aggregateKey (ty : string) (extra : option string) : string :=
  match extra with Some e => if truthy e then ty +:+ ":" +:+ e else ty | None => ty end.

Definition key_of (n : Notice) : string := aggregateKey (type n) (dedupeExtra n).

Definition sendAggregated (now : Z) (n : Notice) (s : Aggregator) : Aggregator :=
  let key := key_of n in
  match jget key (pendingMap s) with
  | Some o =>
      let bump p := mkPending (pd_type p) (pd_title p) (description n) (fields n) (count p + 1) (eventTime p) (timer p) in
      mkAggregator (alter bump o (heap s)) (pendingMap s) (timers s) (nextTimer s)
  | None =>
      let h := nextTimer s in
      let o := length (heap s) in
      mkAggregator (heap s ++ [mkPending (type n) (title n) (description n) (fields n) 1 now h])
        (jset key o (pendingMap s)) (timers s ++ [(h, mkTimer (now + AGGREGATE_WINDOW_MS) key o)]) (S h)
  end.

(** The arguments of [postNotification] for a pending object. *)
Definition posting_of (p : Pending) : Posting :=
  mkPosting (pd_type p) (pd_title p)
    (if 1 <? count p then pd_description p +:+ " (x" +:+ Z_toString (count p) +:+ ")" else pd_description p)
    (pd_fields p) (Some (eventTime p)).

Definition object (s : Aggregator) (o : nat) : list Posting :=
  match heap s !! o with Some p => [posting_of p] | None => [] end.

(** The callback of the timer [h]. *)
Definition on_timer (now : Z) (h : nat) (s : Aggregator) : Aggregator * list Posting :=
  match jget h (timers s) with
  | Some t =>
      if due t <=? now then
        (mkAggregator (heap s) (jdel (tm_key t) (pendingMap s)) (jdel h (timers s)) (nextTimer s), object s (tm_obj t))
      else (s, [])
  | None => (s, [])
  end.

(** The body of the loop of [flushAllPending]; deleting the entry at hand does
    not disturb the iteration of a [Map]. *)
Definition flush_one (s : Aggregator) (e : string * nat) : Aggregator :=
  match heap s !! e.2 with
  | Some p => mkAggregator (heap s) (jdel e.1 (pendingMap s)) (jdel (timer p) (timers s)) (nextTimer s)
  | None => s
  end.

Definition flushAllPending (s : Aggregator) : Aggregator * list Posting :=
  (foldl flush_one s (pendingMap s), flatMap (fun e => object s e.2) (pendingMap s)).

Definition no_pending : Aggregator := mkAggregator [] [] [] 0.

(** What happens: a notice is sent, a timer goes off, everything is flushed. *)
Inductive Event := Send (now : Z) (n : Notice) | Fire (now : Z) (h : nat) | FlushAll.

Definition step (s : Aggregator) (e : Event) : Aggregator * list Posting :=
  match e with
  | Send now n => (sendAggregated now n s, [])
  | Fire now h => on_timer now h s
  | FlushAll => flushAllPending s
  end.

Fixpoint run (s : Aggregator) (es : list Event) : Aggregator * list Posting :=
  match es with
  | [] => (s, [])
  | e :: es' => let (s1, ps) := step s e in let (s2, qs) := run s1 es' in (s2, ps ++ qs)
  end.

(** ** The windows: what the aggregation means

    The calls of one key from the first to the posting that ends the window. *)

Abbreviation Window := (string * list (Z * Notice))%type.

(** What a window posts: the first call gives the time, the last the text. *)
Definition pending_of (h : nat) (first last : Z * Notice) (n : nat) : Pending :=
  mkPending (type first.2) (title first.2) (description last.2) (fields last.2) (Z.of_nat n) first.1 h.

Definition window_posting (w : Window) : list Posting :=
  match w.2, list.last w.2 with
  | first :: _, Some last => [posting_of (pending_of 0 first last (length w.2))]
  | _, _ => []
  end.

(** The calls with a key, in order, and those of the windows of that key. *)
Definition calls_of (k : string) (es : list Event) : list (Z * Notice) :=
  flatMap (fun e => match e with Send now n => if decide (key_of n = k) then [(now, n)] else [] | _ => [] end) es.
Definition window_calls (k : string) (ws : list Window) : list (Z * Notice) :=
  flatMap (fun w => if decide (w.1 = k) then w.2 else []) ws.

(** *** The invariant: map, armed timers and windows go together *)

Definition link (hp : list Pending) (e : string * nat) (t : nat * Timer) (w : Window) : Prop :=
  exists first rest last, w = (e.1, first :: rest) /\ list.last (first :: rest) = Some last
    /\ t.2 = mkTimer (first.1 + AGGREGATE_WINDOW_MS) e.1 e.2
    /\ hp !! e.2 = Some (pending_of t.1 first last (length (first :: rest))).

Record agrees (s : Aggregator) (ws : list Window) : Prop := {
  ag_link : Forall3 (link (heap s)) (pendingMap s) (timers s) ws;
  ag_keys : NoDup (pendingMap s).*1;
  ag_objs : NoDup (pendingMap s).*2;
  ag_handles : NoDup (timers s).*1;
  ag_old : Forall (fun h => (h < nextTimer s)%nat) (timers s).*1;
}.

Lemma link_object hp e t w : link hp e t w ->
  match hp !! e.2 with Some p => [posting_of p] | None => [] end = window_posting w.
Proof. intros (first & rest & last & -> & Hl & _ & ->). unfold window_posting. cbn [snd]. by rewrite Hl. Qed.

Lemma link_bound hp e t w : link hp e t w -> (e.2 < length hp)%nat.
Proof. intros (first & rest & last & _ & _ & _ & H). by eapply lookup_lt_Some. Qed.

Lemma link_other hp f o e t w : o <> e.2 -> link hp e t w -> link (alter f o hp) e t w.
Proof. intros Ho (first & rest & last & H). exists first, rest, last. by rewrite list_lookup_alter_ne. Qed.

Lemma link_grown hp x e t w : link hp e t w -> link (hp ++ [x]) e t w.
Proof.
  intros (first & rest & last & H1 & H2 & H3 & H4). exists first, rest, last. split_and!; [done..|]. by apply lookup_app_l_Some.
Qed.

Lemma window_calls_cons k w ws : window_calls k (w :: ws) = (if decide (w.1 = k) then w.2 else []) ++ window_calls k ws.
Proof. done. Qed.

(** No window has a key that is not in the map. *)
Lemma no_window hp pm ts ws k : Forall3 (link hp) pm ts ws -> k ∉ pm.*1 -> window_calls k ws = [].
Proof.
  induction 1 as [|e t w pm ts ws Hl _ IH]; [done|]. destruct Hl as (first & rest & last & -> & _).
  rewrite fmap_cons, list.not_elem_of_cons. intros [Hne Hk]. cbn. rewrite decide_False by done. by apply IH.
Qed.

Lemma Forall3_objs hp (pm : list (string * nat)) ts ws f o :
  Forall3 (link hp) pm ts ws -> o ∉ pm.*2 -> Forall3 (link (alter f o hp)) pm ts ws.
Proof.
  induction 1 as [|e t w pm ts ws Hl _ IH]; [by constructor|]. rewrite fmap_cons, list.not_elem_of_cons.
  intros [Hne Ho]. constructor; [by apply link_other|by apply IH].
Qed.

(** A second call of a window. *)
Lemma send_again hp (pm : list (string * nat)) ts ws now n o :
  let bump p := mkPending (pd_type p) (pd_title p) (description n) (fields n) (count p + 1) (eventTime p) (timer p) in
  Forall3 (link hp) pm ts ws -> NoDup pm.*1 -> NoDup pm.*2 -> jget (key_of n) pm = Some o ->
  exists ws', Forall3 (link (alter bump o hp)) pm ts ws'
    /\ forall k, window_calls k ws' = window_calls k ws ++ (if decide (key_of n = k) then [(now, n)] else []).
Proof.
  intros bump. induction 1 as [|[k0 o0] [h tm] w pm ts ws Hl Hls IH]; [done|].
  rewrite !fmap_cons, !list.NoDup_cons. intros [Hk Hks] [Ho Hos] Hget. cbn in Hget, Hk, Ho. destruct (decide (key_of n = k0)) as [Hkn|Hne].
  - injection Hget as ->. destruct Hl as (first & rest & last & -> & Hl & Ht & Hp). cbn in Ht, Hp.
    exists ((k0, first :: (rest ++ [(now, n)])) :: ws). split.
    + constructor; [|by apply Forall3_objs]. exists first, (rest ++ [(now, n)]), (now, n). cbn [fst snd]. split_and!; [done| |done|].
      * by rewrite app_comm_cons, last_snoc.
      * rewrite list_lookup_alter_eq, Hp. cbn. unfold bump, pending_of. cbn. rewrite length_app. cbn. do 2 f_equal. lia.
    + intros k. rewrite Hkn, !window_calls_cons. cbn [fst snd]. destruct (decide (k0 = k)) as [->|].
      * by rewrite (no_window hp pm ts ws k), !app_nil_r by done.
      * by rewrite app_nil_r.
  - destruct (IH Hks Hos Hget) as (ws' & Hws & Hcalls). exists (w :: ws'). split.
    + constructor; [|done]. apply link_other; [|done]. cbn. intros ->. apply Ho. apply jget_Some_elem in Hget.
      apply list_elem_of_fmap. by exists (key_of n, o0).
    + intros k. by rewrite !window_calls_cons, Hcalls, app_assoc.
Qed.

(** A timer goes off: its window is closed and posted. *)
Lemma close_window hp pm ts ws h tm :
  Forall3 (link hp) pm ts ws -> NoDup pm.*1 -> jget h ts = Some tm ->
  exists w ws', match hp !! tm_obj tm with Some p => [posting_of p] | None => [] end = window_posting w
    /\ Forall3 (link hp) (jdel (tm_key tm) pm) (jdel h ts) ws'
    /\ w.1 = tm_key tm /\ tm_key tm ∈ pm.*1
    /\ forall k, window_calls k ws = window_calls k [w] ++ window_calls k ws'.
Proof.
  induction 1 as [|[k0 o0] [h0 t0] w pm ts ws Hl Hls IH]; [done|]. rewrite fmap_cons, list.NoDup_cons. intros [Hk Hks] Hget.
  cbn in Hget, Hk. destruct (decide (h = h0)) as [->|Hne].
  - injection Hget as ->. pose proof (link_object _ _ _ _ Hl) as Hobj. destruct Hl as (first & rest & last & -> & _ & Ht & _).
    cbn in Ht, Hobj. subst tm. exists (k0, first :: rest), ws. cbn [tm_key tm_obj jdel fmap list_fmap fst].
    rewrite !decide_True by done. split_and!; [exact Hobj|done|done|set_solver|]. intros k.
    by rewrite !window_calls_cons, app_nil_r.
  - destruct (IH Hks Hget) as (w' & ws' & Hobj & Hws & Hw & Hin & Hcalls). exists w', (w :: ws').
    assert (tm_key tm <> k0) as Hk0 by congruence.
    assert (w.1 = k0) as Hwk by (destruct Hl as (f & r & l & -> & _); done).
    split_and!; [done| |done|set_solver|].
    + cbn [jdel]. rewrite !decide_False by done. by constructor.
    + intros k. rewrite !window_calls_cons, Hcalls, window_calls_cons, app_nil_r. destruct (decide (w'.1 = k)) as [E1|], (decide (w.1 = k)) as [E2|]; [congruence|done..].
Qed.

(** Flushing posts every window in the order of the map. *)
Lemma flush_windows hp nt pm ts ws :
  Forall3 (link hp) pm ts ws ->
  foldl flush_one (mkAggregator hp pm ts nt) pm = mkAggregator hp [] [] nt
  /\ flatMap (fun e => match hp !! e.2 with Some p => [posting_of p] | None => [] end) pm = flatMap window_posting ws.
Proof.
  induction 1 as [|[k o] [h t] w pm ts ws Hl _ [IH1 IH2]]; [done|]. split.
  - destruct Hl as (first & rest & last & _ & _ & _ & Hp). cbn in Hp. cbn [foldl]. unfold flush_one at 2. cbn [heap snd fst].
    rewrite Hp. cbn. by rewrite !decide_True.
  - cbn [flatMap List.flat_map]. rewrite (link_object _ _ _ _ Hl). unfold flatMap in *. by rewrite IH2.
Qed.
Lemma jdel_sub {K V} `{Countable K} (k : K) (m : list (K * V)) : sublist (jdel k m) m.
Proof. induction m as [|[k' v] m IH]; cbn; [constructor|]. destruct (decide (k = k')); by constructor. Qed.

(** One step closes some windows, posts them, and keeps the rest. *)
Lemma step_windows s ws e : agrees s ws ->
  exists closed ws', agrees (step s e).1 ws' /\ (step s e).2 = flatMap window_posting closed
    /\ forall k, window_calls k ws ++ calls_of k [e] = window_calls k closed ++ window_calls k ws'.
Proof.
  intros [Hl Hk Ho Hh Hold]. destruct e as [now n|now h|]; cbn [step fst snd].
  - exists []. unfold sendAggregated. destruct (jget (key_of n) (pendingMap s)) as [o|] eqn:Hget.
    + destruct (send_again _ _ _ _ now n o Hl Hk Ho Hget) as (ws' & Hws & Hcalls). exists ws'. split_and!; [by constructor|done|].
      intros k. cbn. by rewrite Hcalls, app_nil_r.
    + apply jget_None_keys in Hget. exists (ws ++ [(key_of n, [(now, n)])]).
      assert (Forall (fun o => (o < length (heap s))%nat) (pendingMap s).*2) as Hobjs.
      { clear -Hl. induction Hl as [|e t w pm ts ws H _ IH]; constructor; [by eapply link_bound|done]. }
      split_and!; [|done|].
      * constructor; cbn [heap pendingMap timers nextTimer]; rewrite ?jset_new, ?fmap_app by done.
        -- apply Forall3_app; [|constructor; [|constructor]].
           ++ eapply Forall3_impl; [exact Hl|]. intros ???. apply link_grown.
           ++ exists (now, n), [], (now, n). cbn [fst snd]. split_and!; [done..|]. by rewrite lookup_app_r, Nat.sub_diag.
        -- apply list.NoDup_app. split_and!; [done|set_solver|apply NoDup_singleton].
        -- apply list.NoDup_app. split_and!; [done| |apply NoDup_singleton]. intros o Hin Heq.
           rewrite list.Forall_forall in Hobjs. specialize (Hobjs o Hin). apply list_elem_of_singleton in Heq. cbn in Heq. lia.
        -- apply list.NoDup_app. split_and!; [done| |apply NoDup_singleton]. intros h Hin Heq.
           rewrite list.Forall_forall in Hold. specialize (Hold h Hin). apply list_elem_of_singleton in Heq. cbn in Heq. lia.
        -- apply list.Forall_app. split; [|repeat constructor]. eapply list.Forall_impl; [exact Hold|]. intros h. cbn. lia.
      * intros k. unfold window_calls, flatMap. rewrite flat_map_app. cbn. by rewrite app_nil_r.
  - unfold on_timer. destruct (jget h (timers s)) as [tm|] eqn:Hget; [destruct (due tm <=? now)|].
    2,3: exists [], ws; split_and!; [done..|]; intros k; by rewrite app_nil_r.
    destruct (close_window _ _ _ _ h tm Hl Hk Hget) as (w & ws' & Hobj & Hws & _ & _ & Hcalls).
    exists [w], ws'. cbn [fst snd]. split_and!.
    + constructor; cbn [heap pendingMap timers nextTimer]; [done| | | |].
      * eapply sublist_NoDup; [exact Hk|apply jdel_sublist].
      * eapply sublist_NoDup; [exact Ho|apply fmap_sublist, jdel_sub].
      * eapply sublist_NoDup; [exact Hh|apply jdel_sublist].
      * rewrite list.Forall_forall in Hold |- *. intros x Hx. apply Hold. eapply elem_of_sublist; [exact Hx|apply jdel_sublist].
    + unfold object. rewrite Hobj. cbn. by rewrite app_nil_r.
    + intros k. cbn [calls_of flatMap List.flat_map]. by rewrite app_nil_r.
  - exists ws, []. unfold flushAllPending. cbn [fst snd]. destruct s as [hp pm ts nt]. cbn [heap pendingMap timers nextTimer] in *.
    destruct (flush_windows hp nt pm ts ws Hl) as [-> Hps]. split_and!; [|exact Hps|done].
    constructor; cbn; constructor.
Qed.

Lemma run_windows es s ws : agrees s ws ->
  exists closed ws', agrees (run s es).1 ws' /\ (run s es).2 = flatMap window_posting closed
    /\ forall k, window_calls k ws ++ calls_of k es = window_calls k closed ++ window_calls k ws'.
Proof.
  revert s ws. induction es as [|e es IH]; intros s ws Hag.
  - exists [], ws. split_and!; [done..|]. intros k. by rewrite app_nil_r.
  - destruct (step_windows s ws e Hag) as (c1 & ws1 & H1 & Hp1 & Hc1). cbn [run]. destruct (step s e) as [s1 ps].
    destruct (IH s1 ws1 H1) as (c2 & ws2 & H2 & Hp2 & Hc2). destruct (run s1 es) as [s2 qs]. cbn [fst snd] in *.
    exists (c1 ++ c2), ws2. split_and!; [done| |].
    + unfold flatMap. rewrite flat_map_app. by rewrite Hp1, Hp2.
    + intros k. change (e :: es) with ([e] ++ es). unfold calls_of, window_calls, flatMap in *.
      by rewrite !flat_map_app, app_assoc, Hc1, <- app_assoc, Hc2, app_assoc.
Qed.
Lemma agrees_none : agrees no_pending [].
Proof. constructor; cbn; constructor. Qed.

(** What the map holds, and what its timers wait for. *)
Lemma agrees_pending s ws : agrees s ws ->
  (pendingMap s).*1 = ws.*1 /\ Forall (fun w => w.2 <> []) ws
  /\ flatMap (fun e => object s e.2) (pendingMap s) = flatMap window_posting ws
  /\ (fun t => Some (due t.2)) <$> timers s = (fun w => (fun c => c.1 + AGGREGATE_WINDOW_MS) <$> head w.2) <$> ws.
Proof.
  intros [Hl _ _ _ _]. split_and!.
  - induction Hl as [|e t w pm ts ws (f & r & l & -> & _) _ IH]; [done|]. rewrite !fmap_cons. by rewrite IH.
  - induction Hl as [|e t w pm ts ws (f & r & l & -> & _) _ IH]; by constructor.
  - apply (flush_windows _ 0 _ _ _ Hl).
  - induction Hl as [|e t w pm ts ws (f & r & l & -> & _ & Ht & _) _ IH]; [done|]. rewrite !fmap_cons, IH. by rewrite Ht.
Qed.

(** C37: Every notice that is sent ends up in exactly one posting or is still
    pending: whatever the order of notices, timers and flushes, the calls of a
    key fall into consecutive windows; a closed window was posted once, with the
    title and time of its first call, the text and fields of its last and the
    number of its calls, and each window that is still open has one entry of
    [pendingMap] and one armed timer, due ten seconds after its first call. *)
Theorem notices_accounted es :
  let s := (run no_pending es).1 in
  exists closed opened : list Window,
    (run no_pending es).2 = flatMap window_posting closed
    /\ (forall k, calls_of k es = window_calls k closed ++ window_calls k opened)
    /\ (pendingMap s).*1 = opened.*1 /\ NoDup opened.*1 /\ Forall (fun w => w.2 <> []) opened
    /\ flatMap (fun e => object s e.2) (pendingMap s) = flatMap window_posting opened
    /\ (fun t => Some (due t.2)) <$> timers s = (fun w => (fun c => c.1 + AGGREGATE_WINDOW_MS) <$> head w.2) <$> opened.
Proof.
  destruct (run_windows es no_pending [] agrees_none) as (closed & opened & Hag & Hps & Hcalls).
  destruct (agrees_pending _ _ Hag) as (H1 & H2 & H3 & H4). exists closed, opened. split_and!; [done|exact Hcalls|done| |done|done|done].
  rewrite <- H1. by apply (ag_keys _ _ Hag).
Qed.

Lemma run_app s es es' : run s (es ++ es') = let (s1, ps) := run s es in let (s2, qs) := run s1 es' in (s2, ps ++ qs).
Proof.
  revert s. induction es as [|e es IH]; intros s; cbn [app run]; [by destruct (run s es')|].
  destruct (step s e) as [s1 ps]. rewrite IH. destruct (run s1 es) as [s2 qs]. destruct (run s2 es') as [s3 rs]. by rewrite app_assoc.
Qed.

(** After [flushAllPending], which the shutdown awaits, nothing is pending and
    no timer is armed: every notice has been posted. *)
Theorem flush_posts_all es :
  let x := run no_pending (es ++ [FlushAll]) in
  pendingMap x.1 = [] /\ timers x.1 = []
  /\ exists closed, x.2 = flatMap window_posting closed /\ forall k, calls_of k es = window_calls k closed.
Proof.
  rewrite run_app. destruct (run_windows es no_pending [] agrees_none) as (closed & opened & [Hl _ _ _ _] & Hps & Hcalls).
  destruct (run no_pending es) as [s ps]. cbn [run step fst snd] in *. unfold flushAllPending.
  destruct s as [hp pm ts nt]. cbn [heap pendingMap timers nextTimer] in *.
  destruct (flush_windows hp nt pm ts opened Hl) as [-> Hob]. cbn [fst snd pendingMap timers]. split_and!; [done..|].
  exists (closed ++ opened). split.
  - rewrite Hps, app_nil_r. unfold object, flatMap in *. cbn [heap]. by rewrite flat_map_app, Hob.
  - intros k. unfold window_calls, flatMap in *. rewrite flat_map_app. apply Hcalls.
Qed.

(** *** The rate of postings *)

(** The postings of timers: when, and for which key. *)
Fixpoint timer_posts (s : Aggregator) (es : list Event) : list (Z * string) :=
  match es with
  | [] => []
  | e :: es' =>
      match e with
      | Fire now h =>
          match jget h (timers s) with
          | Some t => if due t <=? now then [(now, tm_key t)] else []
          | None => []
          end
      | _ => []
      end ++ timer_posts (step s e).1 es'
  end.

Definition event_time (e : Event) : option Z := match e with Send now _ | Fire now _ => Some now | FlushAll => None end.

(** The clock does not go back. *)
Fixpoint in_time (clock : Z) (es : list Event) : Prop :=
  match es with
  | [] => True
  | e :: es' => clock <= default clock (event_time e) /\ in_time (default clock (event_time e)) es'
  end.

(** Two postings of one key are a window apart. *)
Definition spaced (fs : list (Z * string)) : Prop :=
  forall i j t1 t2 k, (i < j)%nat -> fs !! i = Some (t1, k) -> fs !! j = Some (t2, k) -> t1 + AGGREGATE_WINDOW_MS <= t2.

Definition timers_later (fs : list (Z * string)) (s : Aggregator) : Prop :=
  forall h tm t, (h, tm) ∈ timers s -> (t, tm_key tm) ∈ fs -> t + AGGREGATE_WINDOW_MS <= due tm.

Lemma spaced_snoc fs t k : spaced fs -> (forall t', (t', k) ∈ fs -> t' + AGGREGATE_WINDOW_MS <= t) -> spaced (fs ++ [(t, k)]).
Proof.
  intros Hs Hk i j t1 t2 k' Hij Hi Hj. apply lookup_app_Some in Hj as [Hj|[Hle Hj]].
  - rewrite lookup_app_l in Hi by (apply lookup_lt_Some in Hj; lia). by eapply Hs.
  - destruct (j - length fs)%nat eqn:E; [|done]. injection Hj as <- <-. rewrite lookup_app_l in Hi by lia.
    apply Hk. by apply list_elem_of_lookup_2 in Hi.
Qed.
Lemma timer_keys s ws : agrees s ws -> NoDup ((fun t => tm_key t.2) <$> timers s).
Proof.
  intros [Hl Hk _ _ _]. replace ((fun t => tm_key t.2) <$> timers s) with (pendingMap s).*1; [done|].
  clear Hk. induction Hl as [|e t w pm ts ws (f & r & l & -> & _ & Ht & _) _ IH]; [done|]. rewrite !fmap_cons, IH. by rewrite Ht.
Qed.

Lemma jdel_other_key (ts : list (nat * Timer)) h tm h' tm' :
  NoDup ((fun t => tm_key t.2) <$> ts) -> jget h ts = Some tm -> (h', tm') ∈ jdel h ts -> tm_key tm' <> tm_key tm.
Proof.
  induction ts as [|[h0 t0] ts IH]; [done|]. rewrite fmap_cons, list.NoDup_cons. intros [Hn Hnd] Hget. cbn in Hget |- *.
  destruct (decide (h = h0)) as [->|].
  - injection Hget as ->. intros Hin Heq. apply Hn. apply list_elem_of_fmap. by exists (h', tm').
  - intros [[= -> ->]|Hin]%list.elem_of_cons; [|by apply IH]. intros Heq. apply Hn. apply list_elem_of_fmap.
    exists (h, tm). split; [by symmetry|]. by apply jget_Some_elem.
Qed.

Lemma timers_later_step fs s ws e clock : agrees s ws -> timers_later fs s -> clock <= default clock (event_time e) ->
  (forall t k, (t, k) ∈ fs -> t <= clock) -> timers_later fs (step s e).1.
Proof.
  intros Hag Hl Hc Hfs. destruct e as [now n|now h|]; cbn [step fst].
  - unfold sendAggregated. destruct (jget (key_of n) (pendingMap s)); [done|]. intros h tm t. cbn [timers].
    intros [Hin|Hin]%list.elem_of_app Ht; [by apply (Hl h)|]. apply list_elem_of_singleton in Hin as [= -> ->]. cbn in *.
    specialize (Hfs _ _ Ht). lia.
  - unfold on_timer. destruct (jget h (timers s)) as [tm|]; [|done]. destruct (due tm <=? now); [|done].
    intros h' tm' t Hin. cbn in Hin. apply (Hl h'). eapply elem_of_sublist; [exact Hin|apply jdel_sub].
  - unfold flushAllPending. cbn [fst]. destruct Hag as [Hls _ _ _ _]. destruct s as [hp pm ts nt]. cbn in *.
    destruct (flush_windows hp nt pm ts ws Hls) as [-> _]. intros h' tm' t Hin. by apply list.not_elem_of_nil in Hin.
Qed.

Lemma posts_spaced_from es clock s ws fs : agrees s ws -> in_time clock es -> spaced fs ->
  (forall t k, (t, k) ∈ fs -> t <= clock) -> timers_later fs s -> spaced (fs ++ timer_posts s es).
Proof.
  revert clock s ws fs. induction es as [|e es IH]; intros clock s ws fs Hag Ht Hs Hfs Hl; cbn [timer_posts]; [by rewrite app_nil_r|].
  destruct Ht as [Hc Ht]. pose proof (timers_later_step fs s ws e clock Hag Hl Hc Hfs) as Hl'.
  destruct (step_windows s ws e Hag) as (_ & ws' & Hag' & _).
  assert (forall t k, (t, k) ∈ fs -> t <= default clock (event_time e)) as Hfs' by (intros t k H; specialize (Hfs t k H); lia).
  destruct e as [now n|now h|]; [by eapply IH| |by eapply IH]. cbn [event_time default] in *.
  destruct (jget h (timers s)) as [tm|] eqn:Hget; [destruct (due tm <=? now) eqn:Hd|]; [|by eapply IH..].
  rewrite app_assoc. eapply IH; [exact Hag'|exact Ht| | |].
  - apply spaced_snoc; [done|]. intros t' Hin. apply Z.leb_le in Hd. pose proof (Hl h tm t' (jget_Some_elem _ _ _ Hget) Hin). lia.
  - intros t k [Hin|Hin]%list.elem_of_app; [by eapply Hfs'|]. apply list_elem_of_singleton in Hin as [= -> ->]. cbn. lia.
  - intros h' tm' t Hin [Hf|Hf]%list.elem_of_app; [by apply (Hl' h' tm' t)|]. apply list_elem_of_singleton in Hf as [= -> Hkey].
    exfalso. cbn [step fst] in Hin. unfold on_timer in Hin. rewrite Hget, Hd in Hin. cbn in Hin.
    eapply (jdel_other_key (timers s)); [by eapply timer_keys|exact Hget|exact Hin|done].
Qed.

(** Discord is not flooded: while the clock does not go back, two postings of
    timers for the same key are at least ten seconds apart, whatever is sent. *)
Theorem posts_spaced es clock i j t1 t2 k : in_time clock es -> (i < j)%nat ->
  timer_posts no_pending es !! i = Some (t1, k) -> timer_posts no_pending es !! j = Some (t2, k) ->
  t1 + AGGREGATE_WINDOW_MS <= t2.
Proof.
  intros Ht. apply (posts_spaced_from es clock no_pending [] [] agrees_none Ht).
  - intros i' j' t1' t2' k' _ H. by rewrite lookup_nil in H.
  - intros t' k' H. by apply list.not_elem_of_nil in H.
  - intros h tm t' H. by apply list.not_elem_of_nil in H.
Qed.

(** Three failed swaps of one token, two of them in one window. *)
Definition demo_notice (d : string) : Notice := mkNotice "swap_failed" "t" d None (Some "M").
Definition demo_events : list Event :=
  [Send 0 (demo_notice "a"); Send 4000 (demo_notice "b"); Fire 9000 0; Fire 10000 0; Send 12000 (demo_notice "c"); Fire 22500 1].

Example demo_events_run : (run no_pending demo_events).2
  = [mkPosting "swap_failed" "t" "b (x2)" None (Some 0); mkPosting "swap_failed" "t" "c" None (Some 12000)].
Proof. reflexivity. Qed.

Lemma posts_spaced_witness : 10000 + AGGREGATE_WINDOW_MS <= 22500.
Proof.
  apply (posts_spaced demo_events 0 0 1 10000 22500 "swap_failed:M"); [|lia|reflexivity|reflexivity].
  cbn. lia.
Defined.

End Notify.

(** * The queue of approval requests

    [queuePumpNotify] and [drainPumpNotifyQueue] of [src/dashboard/server.ts]:
    every activation of the drain is at a posting, asleep or ended. *)

Module PumpQueue.

Record Task := mkTask { mint : string; symbol : string; pool : string }.

Inductive Stage := Posting (task : Task) | Sleeping (until : Z) | Ended.

Record t := mk { queue : list Task; running : bool; drains : list Stage }.

Definition SPACING_MS : Z := 2000.

(** The head of the [while]: the task it takes, if any. *)
Definition loop (s : t) : t * Stage * list Task :=
  match queue s with
  | [] => (mk [] false (drains s), Ended, [])
  | task :: q => (mk q (running s) (drains s), Posting task, [task])
  end.

(** Activation [i] goes on as [g] says. *)
Definition at_drain (i : nat) (x : t * Stage * list Task) : t * list Task :=
  let '(s, g, ts) := x in (mk (queue s) (running s) (<[i := g]> (drains s)), ts).

(** [drainPumpNotifyQueue] up to its first [await]; the tasks are those whose
    request is sent. *)
Definition drainPumpNotifyQueue (s : t) : t * list Task :=
  at_drain (length (drains s)) (loop (mk (queue s) true (drains s ++ [Ended]))).

Definition queuePumpNotify (task : Task) (s : t) : t * list Task :=
  let s := mk (queue s ++ [task]) (running s) (drains s) in
  if running s then (s, []) else drainPumpNotifyQueue s.

(** The request of activation [i] settles, or its pause ends. *)
Definition posted (now : Z) (i : nat) (s : t) : t * list Task :=
  match drains s !! i with
  | Some (Posting _) =>
      match queue s with
      | [] => at_drain i (loop s)
      | _ => at_drain i (s, Sleeping (now + SPACING_MS), [])
      end
  | _ => (s, [])
  end.

Definition woke (now : Z) (i : nat) (s : t) : t * list Task :=
  match drains s !! i with
  | Some (Sleeping until) => if until <=? now then at_drain i (loop s) else (s, [])
  | _ => (s, [])
  end.

Inductive Event := Queue (task : Task) | Posted (now : Z) (i : nat) | Woke (now : Z) (i : nat).

Definition step (s : t) (e : Event) : t * list Task :=
  match e with
  | Queue task => queuePumpNotify task s
  | Posted now i => posted now i s
  | Woke now i => woke now i s
  end.

Fixpoint run (s : t) (es : list Event) : t * list Task :=
  match es with
  | [] => (s, [])
  | e :: es' => let (s1, ts) := step s e in let (s2, us) := run s1 es' in (s2, ts ++ us)
  end.

Definition new : t := mk [] false [].

Definition queued (es : list Event) : list Task := flatMap (fun e => match e with Queue task => [task] | _ => [] end) es.

Definition live (g : Stage) : bool := match g with Ended => false | _ => true end.
Definition active (s : t) : nat := AsyncMore.held (live <$> drains s).

Definition inv (s : t) : Prop := active s = (if running s then 1%nat else 0%nat) /\ (queue s <> [] -> running s = true).

Lemma active_insert s i g0 g q r : drains s !! i = Some g0 ->
  (active (mk q r (<[i := g]> (drains s))) + (if live g0 then 1 else 0) = active s + (if live g then 1 else 0))%nat.
Proof.
  intros Hi. unfold active. cbn [drains]. rewrite list_fmap_insert. apply AsyncMore.held_insert.
  by rewrite list_lookup_fmap, Hi.
Qed.

(** The loop taken by the one activation there is. *)
Lemma loop_keeps s i g0 : running s = true -> drains s !! i = Some g0 -> (active s = if live g0 then 1 else 0)%nat ->
  let x := at_drain i (loop s) in inv x.1 /\ x.2 ++ queue x.1 = queue s.
Proof.
  intros Hr Hi Ha. unfold loop. destruct (queue s) as [|task q] eqn:Hq; cbn.
  - pose proof (active_insert s i g0 Ended [] false Hi) as H. cbn in H. split; [split; [destruct (live g0); cbn in *; lia|done]|done].
  - pose proof (active_insert s i g0 (Posting task) q (running s) Hi) as H. cbn in H. unfold inv. cbn. rewrite Hr in *.
    split; [split; [destruct (live g0); lia|done]|done].
Qed.

Lemma step_keeps s e : inv s -> inv (step s e).1 /\ (step s e).2 ++ queue (step s e).1 = queue s ++ queued [e].
Proof.
  intros [Ha Hq]. destruct e as [task|now i|now i]; cbn [step].
  - change (queued [Queue task]) with [task]. unfold queuePumpNotify. cbn [running]. destruct (running s) eqn:Hr.
    + split; [split; [by rewrite <- Ha|done]|done].
    + unfold drainPumpNotifyQueue. cbn [queue drains].
      refine (loop_keeps (mk (queue s ++ [task]) true (drains s ++ [Ended])) (length (drains s)) Ended eq_refl _ _).
      * cbn. by rewrite lookup_app_r, Nat.sub_diag.
      * unfold active in *. cbn. rewrite fmap_app, AsyncMore.held_app, Ha. done.
  - change (queued [Posted now i]) with (@nil Task). rewrite app_nil_r. unfold posted.
    destruct (drains s !! i) as [[task|u|]|] eqn:Hi; [|by split..].
    assert (active s = 1%nat /\ running s = true) as [H1 Hr].
    { pose proof (active_insert s i _ Ended [] false Hi) as H. cbn in H. destruct (running s); [done|lia]. }
    destruct (queue s) as [|x q] eqn:Hqs.
    + rewrite <- Hqs. apply (loop_keeps s i (Posting task)); done.
    + pose proof (active_insert s i _ (Sleeping (now + SPACING_MS)) (x :: q) true Hi) as H. cbn in H.
      unfold inv. cbn. rewrite Hqs, Hr. split; [split; [lia|done]|done].
  - change (queued [Woke now i]) with (@nil Task). rewrite app_nil_r. unfold woke.
    destruct (drains s !! i) as [[task|u|]|] eqn:Hi; [by split| |by split..]. destruct (u <=? now); [|by split].
    assert (active s = 1%nat /\ running s = true) as [H1 Hr].
    { pose proof (active_insert s i _ Ended [] false Hi) as H. cbn in H. destruct (running s); [done|lia]. }
    apply (loop_keeps s i (Sleeping u)); done.
Qed.

(** Requests go out in the order they were queued, none lost or sent twice; at
    most one activation drains the queue, and one does while it is not empty. *)
Theorem requests_in_order es :
  let s := (run new es).1 in
  (run new es).2 ++ queue s = queued es /\ (active s <= 1)%nat /\ (queue s <> [] -> active s = 1%nat).
Proof.
  assert (forall s, inv s -> inv (run s es).1 /\ (run s es).2 ++ queue (run s es).1 = queue s ++ queued es) as H.
  { induction es as [|e es IH]; intros s Hs; [by rewrite app_nil_r|]. destruct (step_keeps s e Hs) as [H1 Hq]. cbn [run].
    destruct (step s e) as [s1 ts]. destruct (IH s1 H1) as [H2 Hq2]. destruct (run s1 es) as [s2 us]. cbn [fst snd] in *.
    split; [done|]. rewrite <- app_assoc, Hq2, app_assoc, Hq, <- app_assoc. change (e :: es) with ([e] ++ es).
    unfold queued, flatMap. by rewrite flat_map_app. }
  destruct (H new) as [[Ha Hr] Hq]; [by split|]. cbn zeta. split_and!; [exact Hq| |].
  - rewrite Ha. destruct (running _); lia.
  - intros Hne. by rewrite Ha, Hr.
Qed.

(** The pause of two seconds is taken only before a task that already waits:
    one queued just after the last answer is sent at once. *)
Example no_pause_between_drains :
  let a := mkTask "A" "a" "p" in let b := mkTask "B" "b" "p" in
  (run new [Queue a; Posted 5 0; Queue b]).2 = [a; b].
Proof. reflexivity. Qed.

End PumpQueue.

(** * Health *)

Module Health.

Inductive DependencyStatus := OK | ERROR | OFF.

(** How a dependency behaves: it answers or fails after so many milliseconds,
    or hangs. *)
Inductive Behaviour := Answers (ms : Z) | Fails (ms : Z) | Hangs.

Definition PROBE_TIMEOUT_MS : Z := 1000.

(** [withTimeout]: when the promise settles, and whether it is fulfilled. *)
Definition withTimeout (b : Behaviour) (ms : Z) : Z * bool :=
  match b with
  | Answers t => if t <? ms then (t, true) else (ms, false)
  | Fails t => if t <? ms then (t, false) else (ms, false)
  | Hangs => (ms, false)
  end.

Definition checkDb (databaseUrl : string) (db : Behaviour) : Z * DependencyStatus :=
  if negb (truthy databaseUrl) then (0, OFF)
  else let (t, ok) := withTimeout db PROBE_TIMEOUT_MS in (t, if ok : bool then OK else ERROR).

(** The first of connect, error and the timeout of the socket settles it. *)
Definition checkSigner (signerSocketPath : string) (signer : Behaviour) : Z * DependencyStatus :=
  if negb (truthy signerSocketPath) then (0, OFF)
  else match signer with
       | Answers t => if t <? PROBE_TIMEOUT_MS then (t, OK) else (PROBE_TIMEOUT_MS, ERROR)
       | Fails t => (Z.min t PROBE_TIMEOUT_MS, ERROR)
       | Hangs => (PROBE_TIMEOUT_MS, ERROR)
       end.

Record HealthPayload := mkHealth {
  degraded : bool; uptime_s : Z; ws_connected : bool; db : DependencyStatus; signer : DependencyStatus;
}.

(** Asked at [now]: when it is answered and what; [ws] is [isWsConnected] at a
    given time. *)
Definition buildHealth (databaseUrl signerSocketPath : string) (startedAt now : Z) (dbb sb : Behaviour) (ws : Z -> bool)
    : Z * HealthPayload :=
  let (t1, d) := checkDb databaseUrl dbb in
  let (t2, s) := checkSigner signerSocketPath sb in
  let t := now + Z.max t1 t2 in
  let ws_connected := ws t in
  (t, mkHealth (match d with ERROR => true | _ => negb ws_connected end)
        ((t - startedAt + 500) / 1000) ws_connected d s).

Definition behaves (b : Behaviour) : Prop := match b with Answers t | Fails t => 0 <= t | Hangs => True end.

Lemma checkDb_ok url b : behaves b ->
  0 <= (checkDb url b).1 <= PROBE_TIMEOUT_MS
  /\ ((checkDb url b).2 = ERROR <-> truthy url = true /\ forall ms, b = Answers ms -> PROBE_TIMEOUT_MS <= ms).
Proof.
  unfold checkDb, PROBE_TIMEOUT_MS. intros Hb. destruct (truthy url); cbn [negb]; [|by split; [|split; [|intros []]]].
  destruct b as [t|t|]; cbn in Hb |- *; try destruct (t <? 1000) eqn:E; cbn; (split; [lia|]); split; try done; try lia.
  - intros [_ H]. specialize (H t eq_refl). lia.
  - intros _. split; [done|]. intros ms [= <-]. lia.
Qed.

Lemma checkSigner_time path b : behaves b -> 0 <= (checkSigner path b).1 <= PROBE_TIMEOUT_MS.
Proof.
  unfold checkSigner, PROBE_TIMEOUT_MS. intros Hb. destruct (truthy path); cbn [negb]; [|done].
  destruct b as [t|t|]; cbn in Hb |- *; [destruct (t <? 1000) eqn:E; cbn; lia|lia|lia].
Qed.

(** Health is answered within a second whatever the dependencies do, and it is
    degraded exactly when the feed is down or a configured database does not
    answer in time; the signer alone never degrades it. *)
Theorem health_answers url path startedAt now dbb sb ws : behaves dbb -> behaves sb ->
  let (t, h) := buildHealth url path startedAt now dbb sb ws in
  now <= t <= now + PROBE_TIMEOUT_MS
  /\ (degraded h = true <-> ws t = false \/ (truthy url = true /\ forall ms, dbb = Answers ms -> PROBE_TIMEOUT_MS <= ms)).
Proof.
  intros Hd Hs. unfold buildHealth. pose proof (checkDb_ok url dbb Hd) as [Ht1 Hdb]. pose proof (checkSigner_time path sb Hs) as Ht2.
  destruct (checkDb url dbb) as [t1 d]. destruct (checkSigner path sb) as [t2 s]. cbn in *. split; [lia|]. rewrite <- Hdb.
  destruct d, (ws _); cbn; intuition congruence.
Qed.

Lemma health_answers_witness : let (t, h) := buildHealth "pg" "" 0 60000 Hangs Hangs (fun _ => true) in
  60000 <= t <= 60000 + PROBE_TIMEOUT_MS
  /\ (degraded h = true <-> true = false \/ (truthy "pg" = true /\ forall ms, Hangs = Answers ms -> PROBE_TIMEOUT_MS <= ms)).
Proof. apply (health_answers "pg" "" 0 60000 Hangs Hangs (fun _ => true)); done. Defined.

End Health.
