(* ===== verification/Actions.v ===== *)
(** * The handlers of the dashboard ([src/dashboard/server.ts])

    [Views]: amounts as text, the aggregated statistics and the pages of events.
    [Tokens]: the cache of token names with its three sources.  [Actions]: the
    handlers that open, close and sell through the operation queue, over a class
    of what they ask of it, and their execution by the executors' methods. *)

From Stdlib Require Import Ascii.
From S2P Require Import Prelude JsMap JsString JsNumber Json JsConvert Async TxTypes WriteChain PositionMap Store Stores Risk PumpPending ActivityLog State Chain ByrealOps ByrealOpen ByrealAssets OrcaOps OrcaOpen PcsOps PcsOpen Legacy MeteoraOps MeteoraOpen DammOps DammOpen Discipline Methods DryRun Notify.
Open Scope string_scope.
Open Scope Z_scope.
Open Scope list_scope.

Module Views.

(** ** Raw amounts as text *)

Fixpoint take_chars (n : nat) (s : string) : string :=
  match n, s with
  | S n', String c s' => String c (take_chars n' s')
  | _, _ => ""
  end.

(** [s.replace(/0+$/, '')] *)
Fixpoint drop_zeros (s : string) : string :=
  match s with
  | EmptyString => ""
  | String c s' =>
      match drop_zeros s' with
      | EmptyString => if bool_decide (c = "0"%char) then "" else String c ""
      | r => String c r
      end
  end.

Definition rawToUi (raw : string) (decimals : nat) : string :=
  if negb (truthy raw) || bool_decide (raw = "0") then "0" else
  let s := pad_left (decimals + 1) raw in
  let n := (String.length s - decimals)%nat in
  let whole := or_else (Some (take_chars n s)) "0" in
  let frac := drop_zeros (skip n s) in
  if truthy frac then whole +:+ "." +:+ frac else whole.

(** ** [GET /api/stats] *)

Record Counts := mkCounts { total : Z; succeeded : Z; failed : Z; skipped : Z }.

Definition no_counts : Counts := mkCounts 0 0 0 0.

Abbreviation Tally := (list (string * Counts)).

(** [if (!m[k]) m[k] = zero; update(m[k])] *)
Definition bump {V} (zero : V) (f : V -> V) (k : string) (m : list (string * V)) : list (string * V) :=
  jset k (f (default zero (jget k m))) m.

(** An event counts as skipped, succeeded or failed. *)
Definition count_event (skip ok : bool) (c : Counts) : Counts :=
  if skip then mkCounts (total c + 1) (succeeded c) (failed c) (skipped c + 1)
  else if ok then mkCounts (total c + 1) (succeeded c + 1) (failed c) (skipped c)
  else mkCounts (total c + 1) (succeeded c) (failed c + 1) (skipped c).

(** By type, a skip counts as a success. *)
Definition count_type (ok : bool) (c : Counts) : Counts := count_event false ok c.

Record Stats := mkStats {
  byWallet : Tally; byWalletType : list (string * Tally);
  byDexWallet : Tally; byDexWalletType : list (string * Tally);
}.

Definition type_of (e : ActivityLog.EventLogEntry) : string := or_else (Some (ActivityLog.type e)) "UNKNOWN".
Definition wallet_of (e : ActivityLog.EventLogEntry) : string := or_else (Some (ActivityLog.targetWallet e)) "unknown".
Definition dex_of (e : ActivityLog.EventLogEntry) : string := or_else (ActivityLog.dex e) "".
Definition dex_key (e : ActivityLog.EventLogEntry) : string := dex_of e +:+ ":" +:+ wallet_of e.

Definition PREFIXES : list string := ["ORCA_"; "METEORA_"; "PCS_"; "DAMMV2_"].

(** The type without the prefix of its exchange. *)
Definition plain_type (t : string) : string :=
  match find_first (startsWith t) PREFIXES with Some p => skip (String.length p) t | None => t end.

Definition is_skip (t : string) : bool := bool_decide (t = "SKIP").

Definition stats_event (s : Stats) (e : ActivityLog.EventLogEntry) : Stats :=
  let t := type_of e in
  let w := wallet_of e in
  let ok := ActivityLog.success e in
  let byWallet := bump no_counts (count_event (is_skip t) ok) w (byWallet s) in
  let byWalletType := bump [] (bump no_counts (count_type (ok || is_skip t)) t) w (byWalletType s) in
  if truthy (dex_of e) then
    let dk := dex_key e in
    let nt := plain_type t in
    mkStats byWallet byWalletType
      (bump no_counts (count_event (is_skip t) ok) dk (byDexWallet s))
      (bump [] (bump no_counts (count_type (ok || is_skip nt)) nt) dk (byDexWalletType s))
  else mkStats byWallet byWalletType (byDexWallet s) (byDexWalletType s).

Definition stats (events : list ActivityLog.EventLogEntry) : Stats := foldl stats_event (mkStats [] [] [] []) events.

(** ** [GET /api/events] *)

(** Numbers of the request; [None] is NaN, which every operation keeps. *)
Definition int_param (o : option string) (d : string) : option Z := floorZ (parseInt (or_else o d)).

Definition pageSize_of (o : option string) : option Z := (fun n => Z.min n 500) <$> int_param o "50".
Definition page_of (o : option string) : option Z := (fun n => Z.max n 1) <$> int_param o "1".

(** [l.slice(start, end)] for bounds that are not negative; NaN counts as 0. *)
Definition slice {A} (a b : option Z) (l : list A) : list A :=
  let n := Z.to_nat (default 0 a) in take (Z.to_nat (default 0 b) - n) (drop n l).

(** Page 1 holds the newest. *)
Definition pageEvents {A} (pageSize page : option Z) (filtered : list A) : list A :=
  let total := Z.of_nat (length filtered) in
  let back p := match pageSize, page with Some k, Some n => Some (Z.max 0 (total - p n * k)) | _, _ => None end in
  slice (back id) (back Z.pred) filtered.

(** [Math.max(1, Math.ceil(total / pageSize))]; [None] where that is not a
    finite number. *)
Definition totalPages (pageSize : option Z) (total : Z) : option Z :=
  match pageSize with
  | Some k => if k =? 0 then None else Some (Z.max 1 (- (- total / k)))
  | None => None
  end.

Fixpoint toUpperCase (s : string) : string :=
  match s with
  | EmptyString => ""
  | String c s' => String (if is_lower c then Ascii.ascii_of_nat (code c - 32) else c) (toUpperCase s')
  end.

(** [new Set(typeFilter.split(',').map((t) => t.trim().toUpperCase()))], if given *)
Definition allowedTypes (typeFilter : option string) : option (list string) :=
  match typeFilter with
  | Some f => if truthy f then Some (map (fun t => toUpperCase (trim t)) (split_on ","%char f)) else None
  | None => None
  end.

Definition filterEvents (typeFilter : option string) (log : list ActivityLog.EventLogEntry) : list ActivityLog.EventLogEntry :=
  match allowedTypes typeFilter with
  | Some ts => keep (fun e => shas (toUpperCase (ActivityLog.type e)) ts) log
  | None => log
  end.

(** The mints of a pool label [A/B@address]. *)
Definition pool_mints (pool : option string) : list string :=
  match pool with
  | Some p =>
      if truthy p && includes p "/" then
        let part := if includes p "@" then hd "" (split_on "@"%char p) else p in split_on "/"%char part
      else []
  | None => []
  end.

(** ** What the statistics count *)

Lemma jget_bump {V} (zero : V) f k k' m : jget k' (bump zero f k m) = if decide (k = k') then Some (f (default zero (jget k m))) else jget k' m.
Proof. unfold bump. destruct (decide (k = k')) as [->|]; [apply jget_jset|by apply jget_jset_ne]. Qed.

(** A tally of a list: each key is updated by the elements that have it. *)
Lemma tally_spec {X V} (zero : V) (key : X -> string) (f : X -> V -> V) (l : list X) k m :
  let own := keep (fun x => bool_decide (key x = k)) l in
  jget k (foldl (fun m x => bump zero (f x) (key x) m) m l)
  = match own with
    | [] => jget k m
    | _ => Some (foldl (fun c x => f x c) (default zero (jget k m)) own)
    end.
Proof.
  cbv zeta. revert m. induction l as [|x l IH]; intros m; [done|]. cbn [foldl]. rewrite IH, jget_bump. unfold keep. cbn [List.filter].
  destruct (decide (key x = k)) as [->|Hne].
  - rewrite bool_decide_true by done. destruct (List.filter _ l) as [|y ys]; done.
  - rewrite bool_decide_false by done. done.
Qed.

(** The reference: how many events of a list are skips, and of the others how
    many succeeded. *)
Definition count_if (p : ActivityLog.EventLogEntry -> bool) (l : list ActivityLog.EventLogEntry) : Z :=
  Z.of_nat (length (keep p l)).

Definition counts_of (l : list ActivityLog.EventLogEntry) : Counts :=
  mkCounts (Z.of_nat (length l))
    (count_if (fun e => negb (is_skip (type_of e)) && ActivityLog.success e) l)
    (count_if (fun e => negb (is_skip (type_of e)) && negb (ActivityLog.success e)) l)
    (count_if (fun e => is_skip (type_of e)) l).

Definition type_counts (ok : ActivityLog.EventLogEntry -> bool) (l : list ActivityLog.EventLogEntry) : Counts :=
  mkCounts (Z.of_nat (length l)) (count_if ok l) (count_if (fun e => negb (ok e)) l) 0.

Definition some_counts {X} (f : list X -> Counts) (l : list X) : option Counts :=
  match l with [] => None | _ => Some (f l) end.

Lemma count_if_cons p e l : count_if p (e :: l) = (if p e then 1 else 0) + count_if p l.
Proof. unfold count_if, keep. cbn [List.filter]. destruct (p e); cbn [length]; lia. Qed.

Definition plus (a b : Counts) : Counts :=
  mkCounts (total a + total b) (succeeded a + succeeded b) (failed a + failed b) (skipped a + skipped b).

Lemma plus_none_r a : plus a no_counts = a.
Proof. destruct a. unfold plus, no_counts. cbn [total succeeded failed skipped]. f_equal; lia. Qed.

Lemma fold_counts l c : foldl (fun c e => count_event (is_skip (type_of e)) (ActivityLog.success e) c) c l = plus c (counts_of l).
Proof.
  revert c. induction l as [|e l IH]; intros [t s f k]; cbn [foldl].
  - symmetry. apply plus_none_r.
  - rewrite IH. unfold plus, counts_of. rewrite !count_if_cons. cbn [length].
    unfold count_event.
    destruct (is_skip _), (ActivityLog.success e); cbn [negb andb total succeeded failed skipped]; f_equal; lia.
Qed.

Lemma fold_types ok l c : foldl (fun c e => count_type (ok e) c) c l = plus c (type_counts ok l).
Proof.
  revert c. induction l as [|e l IH]; intros [t s f k]; cbn [foldl].
  - symmetry. apply plus_none_r.
  - rewrite IH. unfold plus, type_counts. rewrite !count_if_cons. cbn [length].
    unfold count_type, count_event.
    destruct (ok e); cbn [negb total succeeded failed skipped]; f_equal; lia.
Qed.

Lemma plus_none a : plus no_counts a = a.
Proof. by destruct a. Qed.

Definition is_wallet (w : string) (e : ActivityLog.EventLogEntry) : bool := bool_decide (wallet_of e = w).
Definition is_dex_wallet (dk : string) (e : ActivityLog.EventLogEntry) : bool := truthy (dex_of e) && bool_decide (dex_key e = dk).
Definition with_type (ty : ActivityLog.EventLogEntry -> string) (t : string) (l : list ActivityLog.EventLogEntry) :=
  keep (fun e => bool_decide (ty e = t)) l.

Lemma stats_fields l s :
  let r := foldl stats_event s l in
  let ds := keep (fun e => truthy (dex_of e)) l in
  let nt e := plain_type (type_of e) in
  byWallet r = foldl (fun m e => bump no_counts (count_event (is_skip (type_of e)) (ActivityLog.success e)) (wallet_of e) m) (byWallet s) l
  /\ byWalletType r = foldl (fun m e => bump [] (bump no_counts (count_type (ActivityLog.success e || is_skip (type_of e))) (type_of e)) (wallet_of e) m)
       (byWalletType s) l
  /\ byDexWallet r = foldl (fun m e => bump no_counts (count_event (is_skip (type_of e)) (ActivityLog.success e)) (dex_key e) m) (byDexWallet s) ds
  /\ byDexWalletType r = foldl (fun m e => bump [] (bump no_counts (count_type (ActivityLog.success e || is_skip (nt e))) (nt e)) (dex_key e) m)
       (byDexWalletType s) ds.
Proof.
  revert s. induction l as [|e l IH]; intros s; [done|]. cbn [foldl]. specialize (IH (stats_event s e)). cbv zeta in *.
  destruct IH as (-> & -> & -> & ->). unfold stats_event, keep. cbn [List.filter]. destruct (truthy (dex_of e)); done.
Qed.

(** One level of a tally of counts, and two. *)
Lemma tally_counts {X} (key : X -> string) f (g : list X -> Counts) (l : list X) k :
  (forall l c, foldl (fun c x => f x c) c l = plus c (g l)) ->
  jget k (foldl (fun m x => bump no_counts (f x) (key x) m) [] l)
  = some_counts g (keep (fun x => bool_decide (key x = k)) l).
Proof.
  intros Hg. rewrite tally_spec. unfold some_counts. destruct (keep _ l) as [|x xs]; [done|].
  by rewrite Hg, plus_none.
Qed.

Lemma tally_types {X} (key ty : X -> string) f (g : list X -> Counts) (l : list X) k t :
  (forall l c, foldl (fun c x => f x c) c l = plus c (g l)) ->
  jget k (foldl (fun m x => bump [] (bump no_counts (f x) (ty x)) (key x) m) [] l) ≫= jget t
  = some_counts g (keep (fun x => bool_decide (ty x = t)) (keep (fun x => bool_decide (key x = k)) l)).
Proof.
  intros Hg. rewrite (tally_spec [] key (fun x => bump no_counts (f x) (ty x))).
  pose proof (tally_counts ty f g (keep (fun x => bool_decide (key x = k)) l) t Hg) as H.
  destruct (keep _ l) as [|x xs]; [done|]. exact H.
Qed.

Lemma keep_keep {A} (p q : A -> bool) l : keep q (keep p l) = keep (fun x => p x && q x) l.
Proof. unfold keep. induction l as [|x l IH]; [done|]. cbn. destruct (p x); cbn; [destruct (q x)|]; by rewrite IH. Qed.

(** C40: The statistics are counts of the event feed: a wallet's numbers are those of
    its events, one type's those of its events of that type, and likewise for a
    wallet on an exchange, where the prefix of the exchange is left out of the
    type; a wallet without events has none. *)
Theorem stats_counted l w t dk :
  let own := keep (is_wallet w) l in
  let here := keep (is_dex_wallet dk) l in
  let nt e := plain_type (type_of e) in
  jget w (byWallet (stats l)) = some_counts counts_of own
  /\ jget w (byWalletType (stats l)) ≫= jget t
     = some_counts (type_counts (fun e => ActivityLog.success e || is_skip (type_of e))) (with_type type_of t own)
  /\ jget dk (byDexWallet (stats l)) = some_counts counts_of here
  /\ jget dk (byDexWalletType (stats l)) ≫= jget t
     = some_counts (type_counts (fun e => ActivityLog.success e || is_skip (nt e))) (with_type nt t here).
Proof.
  cbv zeta. unfold stats. destruct (stats_fields l (mkStats [] [] [] [])) as (-> & -> & -> & ->). cbn [byWallet byWalletType byDexWallet byDexWalletType].
  split_and!.
  - apply (tally_counts wallet_of (fun e => count_event (is_skip (type_of e)) (ActivityLog.success e)) counts_of). apply fold_counts.
  - apply (tally_types wallet_of type_of (fun e => count_type (ActivityLog.success e || is_skip (type_of e)))
      (type_counts (fun e => ActivityLog.success e || is_skip (type_of e)))). intros. apply (fold_types (fun e => ActivityLog.success e || is_skip (type_of e))).
  - rewrite (tally_counts dex_key (fun e => count_event (is_skip (type_of e)) (ActivityLog.success e)) counts_of) by apply fold_counts. by rewrite (keep_keep (fun e => truthy (dex_of e))).
  - rewrite (tally_types dex_key (fun e => plain_type (type_of e))
      (fun e => count_type (ActivityLog.success e || is_skip (plain_type (type_of e))))
      (type_counts (fun e => ActivityLog.success e || is_skip (plain_type (type_of e))))).
    + by rewrite (keep_keep (fun e => truthy (dex_of e))).
    + intros. apply (fold_types (fun e => ActivityLog.success e || is_skip (plain_type (type_of e)))).
Qed.

(** Every event is counted once: as skipped, succeeded or failed. *)
Theorem counts_add_up l : let c := counts_of l in total c = succeeded c + failed c + skipped c.
Proof.
  induction l as [|e l IH]; [done|]. cbv zeta in *. unfold counts_of in *. cbn [total succeeded failed skipped length] in *.
  rewrite !count_if_cons. destruct (is_skip _), (ActivityLog.success e); cbn [negb andb]; lia.
Qed.

(** ** What the pages hold *)

Lemma pages_back {A} (k : Z) (l : list A) (n : nat) : 1 <= k ->
  concat (map (fun p => pageEvents (Some k) (Some (Z.of_nat p)) l) (rev (seq 1 n))) = drop (Z.to_nat (Z.of_nat (length l) - Z.of_nat n * k)) l.
Proof.
  intros Hk. induction n as [|n IH].
  - cbn [seq rev map concat]. symmetry. apply drop_ge. lia.
  - rewrite seq_S, rev_app_distr. cbn [rev app map concat]. rewrite IH. unfold pageEvents, slice. cbn [default].
    replace (Z.pred (Z.of_nat (1 + n))) with (Z.of_nat n) by lia. unfold id.
    set (a := Z.to_nat (Z.max 0 (Z.of_nat (length l) - Z.of_nat (1 + n) * k))).
    set (b := Z.to_nat (Z.max 0 (Z.of_nat (length l) - Z.of_nat n * k))).
    replace (Z.to_nat (Z.of_nat (length l) - Z.of_nat n * k)) with b by lia.
    replace (Z.to_nat (Z.of_nat (length l) - Z.of_nat (S n) * k)) with a by lia.
    assert (a <= b)%nat by lia. replace (drop b l) with (drop (b - a) (drop a l)) by (rewrite drop_drop; f_equal; lia).
    apply take_drop.
Qed.

(** The pages of a request with a valid page size, from the last to the first,
    are the filtered feed: nothing is missing and nothing is shown twice, and no
    page is longer than asked. *)
Theorem pages_partition {A} (k : Z) (l : list A) (n : Z) : 1 <= k -> totalPages (Some k) (Z.of_nat (length l)) = Some n ->
  concat (map (fun p => pageEvents (Some k) (Some (Z.of_nat p)) l) (rev (seq 1 (Z.to_nat n)))) = l
  /\ forall p, 1 <= p -> Z.of_nat (length (pageEvents (Some k) (Some p) l)) <= k.
Proof.
  intros Hk. unfold totalPages. destruct (k =? 0) eqn:E; [lia|]. intros [= <-]. split.
  - rewrite pages_back by done. replace (Z.to_nat _) with 0%nat; [done|].
    pose proof (Z.div_mod (- Z.of_nat (length l)) k ltac:(lia)). pose proof (Z.mod_pos_bound (- Z.of_nat (length l)) k ltac:(lia)).
    nia.
  - intros p Hp. unfold pageEvents, slice, id. cbn [default]. rewrite length_take, length_drop. nia.
Qed.

Lemma pages_partition_witness : let l := ["a"; "b"; "c"; "d"; "e"] in
  totalPages (Some 2) 5 = Some 3 /\ pageEvents (Some 2) (Some 1) l = ["d"; "e"] /\ pageEvents (Some 2) (Some 3) l = ["a"]
  /\ concat (map (fun p => pageEvents (Some 2) (Some (Z.of_nat p)) l) (rev (seq 1 3))) = l
  /\ forall p, 1 <= p -> Z.of_nat (length (pageEvents (Some 2) (Some p) l)) <= 2.
Proof.
  cbv zeta. split; [done|]. split; [done|]. split; [done|]. apply (pages_partition 2 ["a"; "b"; "c"; "d"; "e"] 3); done.
Defined.

(** ** What [rawToUi] shows *)

Lemma take_skip n s : take_chars n s +:+ skip n s = s.
Proof. revert s. induction n as [|n IH]; intros [|c s]; cbn; [done..|]. by apply (f_equal (String c)). Qed.

Lemma length_str_app (a b : string) : String.length (a +:+ b) = (String.length a + String.length b)%nat.
Proof. induction a as [|c a IH]; [done|]. cbn. by rewrite <- IH. Qed.

Lemma length_take_chars n s : (n <= String.length s)%nat -> String.length (take_chars n s) = n.
Proof. revert s. induction n as [|n IH]; intros [|c s]; cbn; intros H; [done..|lia|]. rewrite IH; lia. Qed.

Lemma digits_val_app b acc x y : digits_val b acc (x +:+ y) = digits_val b acc x ≫= fun v => digits_val b v y.
Proof.
  revert acc. induction x as [|c x IH]; intros acc; [done|].
  change (String c x +:+ y) with (String c (x +:+ y)). cbn. destruct (digit_val c) as [v|]; [|done]. by destruct (v <? b).
Qed.

Lemma digit_val_digit c : is_digit c = true -> exists v, digit_val c = Some v /\ (v <? 10) = true.
Proof.
  intros H. unfold digit_val. rewrite H. unfold is_digit in H. eexists. split; [done|]. apply Z.ltb_lt.
  apply andb_true_iff in H as [H1 H2]. apply Nat.leb_le in H1, H2. lia.
Qed.

(** A digit string after other digits. *)
Lemma digits_val_shift s : all_chars is_digit s = true ->
  exists v, digits_val 10 0 s = Some v /\ forall acc, digits_val 10 acc s = Some (acc * 10 ^ Z.of_nat (String.length s) + v).
Proof.
  induction s as [|c s IH]; cbn [all_chars].
  - intros _. exists 0. split; [done|]. intros acc. change (digits_val 10 acc "") with (Some acc). f_equal. cbn [String.length Z.of_nat]. lia.
  - intros [Hc Hs]%andb_true_iff. destruct (IH Hs) as (v & Hv & Hacc). destruct (digit_val_digit c Hc) as (d & Hd & Hlt).
    cbn [digits_val]. rewrite Hd, Hlt. exists (d * 10 ^ Z.of_nat (String.length s) + v). rewrite Hacc. split; [f_equal; lia|].
    intros acc. rewrite Hacc. f_equal. cbn [String.length]. rewrite Nat2Z.inj_succ, Z.pow_succ_r by lia. nia.
Qed.

Definition zeros (n : nat) : string := String.concat "" (repeat "0" n).

Lemma zeros_S n : zeros (S n) = String "0"%char (zeros n).
Proof. unfold zeros. cbn [repeat]. destruct n; done. Qed.

Lemma zeros_digits n : all_chars is_digit (zeros n) = true /\ digits_val 10 0 (zeros n) = Some 0 /\ String.length (zeros n) = n.
Proof. induction n as [|n (H1 & H2 & H3)]; [done|]. rewrite zeros_S. cbn. by rewrite H3. Qed.

Lemma drop_zeros_spec s : exists n, s = drop_zeros s +:+ zeros n.
Proof.
  induction s as [|c s [n IH]]; [by exists 0%nat|]. cbn [drop_zeros]. destruct (drop_zeros s) as [|d r] eqn:E.
  - destruct (bool_decide (c = "0"%char)) eqn:Hc.
    + exists (S n). boolP. subst c. rewrite zeros_S. cbn. by apply (f_equal (String _)).
    + exists n. by apply (f_equal (String c)).
  - exists n. by apply (f_equal (String c)).
Qed.

Lemma drop_zeros_again s : drop_zeros (drop_zeros s) = drop_zeros s.
Proof.
  induction s as [|c s IH]; [done|]. cbn [drop_zeros]. destruct (drop_zeros s) as [|d r] eqn:E.
  - destruct (bool_decide (c = "0"%char)) eqn:Hc; [done|]. cbn. by rewrite Hc.
  - cbn [drop_zeros] in IH |- *. by rewrite IH.
Qed.

Lemma all_chars_parts p a b : all_chars p (a +:+ b) = true -> all_chars p a = true /\ all_chars p b = true.
Proof. rewrite all_chars_app. by intros [? ?]%andb_true_iff. Qed.

(** The text of an amount denotes it: the digits before the point are the whole
    units, those after it, at most as many as the token has decimals and without
    a zero at the end, the rest. *)
Theorem rawToUi_value n (d : nat) : 0 < n ->
  exists whole frac w f,
    rawToUi (Z_toString n) d = (if truthy frac then whole +:+ "." +:+ frac else whole)
    /\ digits_val 10 0 whole = Some w /\ digits_val 10 0 frac = Some f /\ drop_zeros frac = frac /\ whole <> ""
    /\ (String.length frac <= d)%nat
    /\ n = w * 10 ^ Z.of_nat d + f * 10 ^ (Z.of_nat d - Z.of_nat (String.length frac)).
Proof.
  intros Hn. pose proof (parse_nat_toString n ltac:(lia)) as Hv. pose proof (all_digits_toString n ltac:(lia)) as Hd.
  pose proof (Z_toString_truthy n ltac:(lia)) as Ht. unfold rawToUi. rewrite Ht. cbn [negb orb].
  assert (Z_toString n <> "0") as H0 by (intros E; rewrite E in Hv; vm_compute in Hv; congruence || (injection Hv as Hv; lia)).
  rewrite bool_decide_false by done. set (raw := Z_toString n) in *.
  assert (digits_val 10 0 raw = Some n) as Hraw by (destruct raw; done). clear Hv.
  change (pad_left (d + 1) raw) with (zeros (d + 1 - String.length raw) +:+ raw).
  destruct (zeros_digits (d + 1 - String.length raw)) as (Hz1 & Hz2 & Hz3).
  set (s := zeros (d + 1 - String.length raw) +:+ raw).
  assert (all_chars is_digit s = true) as Hs by (unfold s; by rewrite all_chars_app, Hz1, Hd).
  assert (digits_val 10 0 s = Some n) as Hsv by (unfold s; by rewrite digits_val_app, Hz2).
  assert (d + 1 <= String.length s)%nat as Hl by (unfold s; rewrite length_str_app, Hz3; lia).
  set (k := (String.length s - d)%nat).
  pose proof (take_skip k s) as Hts. pose proof (length_take_chars k s ltac:(lia)) as Hlw.
  set (whole := take_chars k s) in *. destruct (drop_zeros_spec (skip k s)) as [m Hm]. set (frac := drop_zeros (skip k s)) in *.
  assert (whole <> "") as Hne by (intros E; rewrite E in Hlw; cbn in Hlw; lia).
  assert (or_else (Some whole) "0" = whole) as -> by (destruct whole; done).
  rewrite <- Hts in Hs, Hsv. pose proof (f_equal String.length Hts) as Hlen. rewrite length_str_app in Hlen.
  rewrite Hm in Hs, Hsv, Hlen. rewrite length_str_app in Hlen. destruct (zeros_digits m) as (_ & Hzm & Hzl).
  apply all_chars_parts in Hs as [Hw [Hf Hz]%all_chars_parts].
  destruct (digits_val_shift whole Hw) as (w & Hwv & _). destruct (digits_val_shift frac Hf) as (f & Hfv & Hfs).
  destruct (digits_val_shift (zeros m) Hz) as (z & Hzv & Hzs). rewrite Hzm in Hzv. injection Hzv as <-.
  exists whole, frac, w, f. split_and!; [done|done|done|apply drop_zeros_again|done|lia|].
  rewrite digits_val_app, Hwv in Hsv. cbn in Hsv. rewrite digits_val_app, Hfs in Hsv. cbn in Hsv. rewrite Hzs, Hzl in Hsv.
  injection Hsv as Hsv. rewrite <- Hsv. assert (d = String.length frac + m)%nat as Hdm by lia. clearbody frac whole k. clear Hsv Hraw Hl Hlw Hlen Hm Hts. subst d.
  rewrite Nat2Z.inj_add, Z.pow_add_r by lia. replace (_ + _ - _) with (Z.of_nat m) by lia. lia.
Qed.

Lemma rawToUi_value_witness : rawToUi "1230500" 6 = "1.2305" /\ rawToUi "7" 6 = "0.000007" /\ rawToUi "5000000" 6 = "5"
  /\ exists whole frac w f,
    rawToUi (Z_toString 1230500) 6 = (if truthy frac then whole +:+ "." +:+ frac else whole)
    /\ digits_val 10 0 whole = Some w /\ digits_val 10 0 frac = Some f /\ drop_zeros frac = frac /\ whole <> ""
    /\ (String.length frac <= 6)%nat
    /\ 1230500 = w * 10 ^ Z.of_nat 6 + f * 10 ^ (Z.of_nat 6 - Z.of_nat (String.length frac)).
Proof. split; [done|]. split; [done|]. split; [done|]. apply (rawToUi_value 1230500 6). lia. Defined.

End Views.

(** * Token names

    Values are kept as the JSON they came as.  An address is taken for a key when
    it is a string, as the sources send it.  Writing the file can fail, which the
    code ignores: [writable] says whether it works. *)

Module Tokens.
Import Async.
Open Scope prog_scope.

Record t := mk {
  tokenInfoCache : list (string * Json);
  apiFetchedThisRun : bool;
  file : option Json;            (** data/token-names.json *)
  writable : bool;
}.

Definition set_cache (c : list (string * Json)) (s : t) : t := mk c (apiFetchedThisRun s) (file s) (writable s).
Definition put_token (m : string) (info : Json) (s : t) : t := set_cache (jset m info (tokenInfoCache s)) s.

Definition tokenInfo (symbol decimals logoURI : Json) : Json :=
  JObj [("symbol", symbol); ("decimals", decimals); ("logoURI", logoURI)].

(** The body of the loop, until it throws. *)
Fixpoint load_entries (es : list (string * Json)) (c : list (string * Json)) : list (string * Json) :=
  match es with
  | [] => c
  | (m, info) :: es' =>
      match jfield (Some info) "symbol" with
      | Ret sym => load_entries es' (if truthy sym then jset m info c else c)
      | Throw _ => c
      end
  end.

Definition loadTokenInfo (s : t) : t :=
  match file s with Some j => set_cache (load_entries (jentries j) (tokenInfoCache s)) s | None => s end.

Definition saveTokenCache (s : t) : t :=
  mk (tokenInfoCache s) (apiFetchedThisRun s) (if writable s then Some (JObj (tokenInfoCache s)) else file s) (writable s).

(** The requests, with [res.ok] and the body. *)
Inductive Call :=
| MintList
| JupTokens (ids : list string)
| JupToken (mint : string)
| AssetBatch (heliusKey : string) (ids : list string).
Definition Ans (c : Call) : Type := (bool * outcome Json)%type.

(** [fetchAndCacheTokenInfo], started without waiting. *)
Inductive Task := FetchNames.

Abbreviation P := (Prog t Call Ans Task).
Definition request (c : Call) : P (bool * outcome Json) := await c.

(** [records] of the Byreal list *)
Definition records_of (data : Json) : option Json :=
  jopt (jopt (jopt (Some data) "result") "data") "records".

Definition add_record (r : Json) : P unit :=
  let* address := lift (jfield (Some r) "address") in
  if negb (truthy address) then ret tt else
  let* symbol := lift (jfield (Some r) "symbol") in
  match address, symbol with
  | Some (JStr a), Some sym =>
      if negb (truthy sym) then ret tt else
      let* existing := gets (fun s => jget a (tokenInfoCache s)) in
      let logo := jopt existing "logoURI" in
      if truthy existing && truthy logo then ret tt
      else
        let decimals := match jopt (Some r) "decimals" with Some (JNum d) => JNum d | _ => JNum (num_of_Z 6) end in
        modify (put_token a (tokenInfo sym decimals (jor (jopt (Some r) "logoURI") (jor logo (JStr "")))))
  | _, _ => ret tt
  end.

Definition fetchAndCacheTokenInfo : P unit :=
  catch
    (let* res := request MintList in
     if negb res.1 then ret tt else
     let* data := lift res.2 in
     match records_of data with
     | Some (JArr rs) => do* for_each add_record rs in modify saveTokenCache
     | _ => ret tt
     end)
    (fun _ => ret tt).

(** [mint.slice(0, 4) + '...' + mint.slice(-4)] *)
Definition short (m : string) : string := Views.take_chars 4 m +:+ "..." +:+ skip (String.length m - 4) m.

Definition resolveTokenName (m : string) : P Json :=
  if negb (truthy m) then ret (JStr "???") else
  let* cached := gets (fun s => jget m (tokenInfoCache s)) in
  match cached with
  | Some info => lift (obind (jfield (Some info) "symbol") (fun o => Ret (default JNull o)))
  | None =>
      let* fetched := gets apiFetchedThisRun in
      do* (if fetched : bool then ret tt
           else do* modify (fun s => mk (tokenInfoCache s) true (file s) (writable s)) in spawn FetchNames) in
      ret (JStr (short m))
  end.

Definition resolveDecimals (m : string) (s : t) : Json := jnullish (jopt (jget m (tokenInfoCache s)) "decimals") (JNum (num_of_Z 6)).
Definition resolveLogoURI (m : string) (s : t) : Json := jor (jopt (jget m (tokenInfoCache s)) "logoURI") (JStr "").

(** ** [ensureTokenNames] *)

Definition known (s : t) (m : string) : bool := jhas m (tokenInfoCache s).

(** The mints of a list that the cache does not have, each once. *)
Definition unknown (mints : list string) (s : t) : list string :=
  set_of (keep (fun m => truthy m && negb (known s m)) mints).

(** Slices of a hundred. *)
Fixpoint batches (fuel : nat) (ms : list string) : list (list string) :=
  match fuel, ms with
  | S fuel', _ :: _ => take 100 ms :: batches fuel' (drop 100 ms)
  | _, _ => []
  end.

(** A token of Jupiter: its key and what is cached for it. *)
Definition jup_info (j : Json) : option Json :=
  let sym := jopt (Some j) "symbol" in
  if truthy sym
  then Some (tokenInfo (default JNull sym) (jnullish (jopt (Some j) "decimals") (JNum (num_of_Z 6))) (jor (jopt (Some j) "logoURI") (JStr "")))
  else None.

Definition jup_entry (j : Json) : outcome (option (string * Json)) :=
  match jopt (Some j) "address", jup_info j with
  | Some (JStr a), Some info => Ret (if truthy a then Some (a, info) else None)
  | _, _ => Ret None
  end.

(** An asset of Helius; [symbol.trim()] throws when it is no string. *)
Definition asset_entry (asset : Json) : outcome (option (string * Json)) :=
  let content := jopt (Some asset) "content" in
  let symbol := jopt (jopt content "metadata") "symbol" in
  match jopt (Some asset) "id" with
  | Some (JStr m) =>
      if truthy m && truthy symbol then
        match symbol with
        | Some (JStr sym) =>
            let decimals := jnullish (jopt (jopt (Some asset) "token_info") "decimals") (JNum (num_of_Z 6)) in
            let logo := jor (jopt (jopt content "links") "image") (jor (jopt content "json_uri") (JStr "")) in
            Ret (Some (m, tokenInfo (JStr (trim sym)) decimals logo))
        | _ => Throw "symbol.trim is not a function"
        end
      else Ret None
  | _ => Ret None
  end.

(** Caches the entries until one throws, and counts them. *)
Fixpoint learn (read : Json -> outcome (option (string * Json))) (js : list Json) : P Z :=
  match js with
  | [] => ret 0
  | j :: js' =>
      match read j with
      | Throw _ => ret 0
      | Ret None => learn read js'
      | Ret (Some (m, info)) => do* modify (put_token m info) in let* n := learn read js' in ret (n + 1)
      end
  end.

(** One request of a loop, its exceptions only logged. *)
Definition ask (c : Call) (use : Json -> P Z) : P Z :=
  catch (let* res := request c in
         if res.1 : bool then let* j := lift res.2 in use j else ret 0)
    (fun _ => ret 0).

Fixpoint sum_each {X} (body : X -> P Z) (xs : list X) : P Z :=
  match xs with [] => ret 0 | x :: xs' => let* n := body x in let* m := sum_each body xs' in ret (n + m) end.

Definition ask_batch (ids : list string) : P Z :=
  ask (JupTokens ids) (fun j => match j with JArr ts => learn jup_entry ts | _ => ret 0 end).

Definition ask_one (m : string) : P Z :=
  ask (JupToken m) (fun j => match jup_info j with Some info => do* modify (put_token m info) in ret 1 | None => ret 0 end).

Definition ask_helius (key : string) (ids : list string) : P Z :=
  ask (AssetBatch key ids) (fun j => match jopt (Some j) "result" with Some (JArr l) => learn asset_entry l | _ => ret 0 end).

(** [heliusKey] is the key found in the RPC URL, if any. *)
Definition ensureTokenNames (heliusKey : option string) (mints : list string) : P unit :=
  let* unique := gets (unknown mints) in
  if bool_decide (unique = []) then ret tt else
  let* n1 := sum_each ask_batch (batches (length unique) unique) in
  let* stillUnknown := gets (fun s => keep (fun m => negb (known s m)) unique) in
  let* n2 := sum_each ask_one stillUnknown in
  let* finalUnknown := gets (fun s => keep (fun m => negb (known s m)) unique) in
  let* n3 := match heliusKey with
             | Some key => sum_each (ask_helius key) (batches (length finalUnknown) finalUnknown)
             | None => ret 0
             end in
  if 0 <? n1 + n2 + n3 then modify saveTokenCache else ret tt.

(** ** What is asked *)

Definition asks_only (mints : list string) (c : Call) : Prop :=
  match c with
  | MintList => True
  | JupTokens ids | AssetBatch _ ids => ids ⊆ mints
  | JupToken m => m ∈ mints
  end.

Definition one (_ : Call) : Z := 1.

(** Every mint once, and no entry null. *)
Definition cache_ok (s : t) : Prop := wf_map (tokenInfoCache s) /\ Forall (fun e => e.2 <> JNull) (tokenInfoCache s).
Definition keeps_ok (s s' : t) : Prop := cache_ok s -> cache_ok s'.

Lemma put_ok m info s : info <> JNull -> keeps_ok s (put_token m info s).
Proof.
  intros Hi [Hwf Hall]. split; cbn; [by apply wf_jset|]. clear Hwf. induction Hall as [|[k v] c Hv Hc IH]; cbn; [by repeat constructor|].
  destruct (decide (m = k)); by constructor.
Qed.

Lemma same_ok s s' : tokenInfoCache s' = tokenInfoCache s -> keeps_ok s s'.
Proof. unfold keeps_ok, cache_ok. by intros ->. Qed.

Lemma costs_gets_bind {A B} n (f : t -> A) (k : A -> P B) : (forall s, costs one n (k (f s))) -> costs one n (bind (gets f) k).
Proof. intros H g s. apply (H s). Qed.

Lemma always_gets_bind {A B} C (f : t -> A) (k : A -> P B) :
  (forall s, always keeps_ok C (k (f s))) -> always keeps_ok C (bind (gets f) k).
Proof. intros H g s. apply (H s). Qed.

Lemma costs_learn read js : costs one 0 (learn read js).
Proof.
  induction js as [|j js IH]; cbn [learn]; [apply costs_done|]. destruct (read j) as [[[m info]|]|e]; [|done|apply costs_done].
  apply (costs_bind one 0 0); [done|apply costs_modify|]. intros _. apply (costs_bind one 0 0); [done|done|]. intros n. apply costs_done.
Qed.

Lemma costs_ask c use : (forall j, costs one 0 (use j)) -> costs one 1 (ask c use).
Proof.
  intros Hu. unfold ask. replace 1 with (1 + 0) by done. apply costs_catch; [done| |intros _; apply costs_done].
  replace 1 with (1 + 0) by done. apply costs_bind; [done|by apply (costs_await one c)|]. intros [ok body]. cbn [fst snd].
  destruct ok; [|apply costs_done]. apply (costs_bind one 0 0); [done|apply costs_done|done].
Qed.

Lemma costs_sum {X} (body : X -> P Z) xs : (forall x, costs one 1 (body x)) -> costs one (Z.of_nat (length xs)) (sum_each body xs).
Proof.
  intros H. induction xs as [|x xs IH]; cbn [sum_each length]; [apply costs_done|].
  replace (Z.of_nat (S (length xs))) with (1 + (Z.of_nat (length xs) + 0)) by lia.
  apply costs_bind; [lia|done|]. intros n. apply costs_bind; [done|done|]. intros k. apply costs_done.
Qed.

Lemma length_batches fuel ms : (length (batches fuel ms) <= fuel)%nat.
Proof. revert ms. induction fuel as [|fuel IH]; intros [|m ms]; cbn [batches length]; [lia..|]. specialize (IH (drop 100 (m :: ms))). lia. Qed.

Lemma batches_sub fuel ms ids : ids ∈ batches fuel ms -> ids ⊆ ms.
Proof.
  revert ms. induction fuel as [|fuel IH]; intros [|m ms]; cbn [batches]; [intros H; by apply list.not_elem_of_nil in H..|].
  intros [->|H]%list.elem_of_cons; [apply sublist_subseteq, sublist_take|]. intros x Hx. specialize (IH _ H x Hx).
  by apply (sublist_subseteq _ _ (sublist_drop (m :: ms) 100)).
Qed.

Lemma length_keep {A} (p : A -> bool) l : (length (keep p l) <= length l)%nat.
Proof. unfold keep. induction l as [|x l IH]; cbn; [lia|]. destruct (p x); cbn; lia. Qed.

Lemma keep_subseteq {A} (p : A -> bool) l : keep p l ⊆ l.
Proof. intros x Hx. by apply elem_of_keep in Hx as [? _]. Qed.

Lemma unknown_sub mints s : unknown mints s ⊆ mints.
Proof. intros m Hm. unfold unknown in Hm. rewrite elem_of_set_of in Hm. by apply elem_of_keep in Hm as [? _]. Qed.

Lemma length_unknown mints s : (length (unknown mints s) <= length mints)%nat.
Proof.
  transitivity (length (keep (fun m => truthy m && negb (known s m)) mints)); [|apply length_keep].
  apply submseteq_length, NoDup_submseteq; [apply NoDup_set_of|]. intros x Hx. unfold unknown in Hx. by rewrite elem_of_set_of in Hx.
Qed.

Lemma costs_ensure key mints : costs one (3 * Z.of_nat (length mints)) (ensureTokenNames key mints).
Proof.
  unfold ensureTokenNames. apply costs_gets_bind. intros s. pose proof (length_unknown mints s) as Hu.
  set (unique := unknown mints s) in *. case_bool_decide; [eapply costs_le; [apply costs_done|lia]|].
  pose proof (length_batches (length unique) unique) as Hb.
  eapply costs_le.
  { apply (costs_bind one (Z.of_nat (length (batches (length unique) unique))) (Z.of_nat (length unique) + (Z.of_nat (length unique) + 0))); [lia| |].
    - apply costs_sum. intros ids. apply costs_ask. intros []; try apply costs_done. apply costs_learn.
    - intros n1. apply costs_gets_bind. intros s1.
      eapply costs_le; [apply (costs_bind one (Z.of_nat (length (keep (fun m => negb (known s1 m)) unique))) (Z.of_nat (length unique) + 0)); [lia| |]|].
      + apply costs_sum. intros m. apply costs_ask. intros j. destruct (jup_info j); [|apply costs_done].
        apply (costs_bind one 0 0); [done|apply costs_modify|]. intros _. apply costs_done.
      + intros n2. apply costs_gets_bind. intros s2. pose proof (length_keep (fun m => negb (known s2 m)) unique) as Hk.
        set (final := keep _ unique) in *. pose proof (length_batches (length final) final) as Hbf.
        apply costs_bind; [done| |].
        * destruct key; [|eapply costs_le; [apply costs_done|lia]]. eapply costs_le; [apply costs_sum|lia].
          intros ids. apply costs_ask. intros j. destruct (jopt (Some j) "result") as [[]|]; try apply costs_done. apply costs_learn.
        * intros n3. destruct (0 <? n1 + n2 + n3); [apply costs_modify|apply costs_done].
      + pose proof (length_keep (fun m => negb (known s1 m)) unique). lia. }
  lia.
Qed.

Lemma always_learn (C : Call -> Prop) read js : (forall j m info, read j = Ret (Some (m, info)) -> info <> JNull) -> always keeps_ok C (learn read js).
Proof.
  intros Hr. induction js as [|j js IH]; cbn [learn]; [apply always_done|].
  destruct (read j) as [[[m info]|]|e] eqn:E; [|done|apply always_done].
  apply always_bind; [apply always_modify; intros s; apply put_ok; by eapply Hr|]. intros _. apply always_bind; [done|]. intros n. apply always_done.
Qed.

Lemma jup_info_ok j info : jup_info j = Some info -> info <> JNull.
Proof. unfold jup_info. destruct (truthy _); [|done]. by intros [= <-]. Qed.

Lemma jup_entry_ok j m info : jup_entry j = Ret (Some (m, info)) -> info <> JNull.
Proof.
  unfold jup_entry. destruct (jopt (Some j) "address") as [[]|]; try done. destruct (jup_info j) eqn:E; [|done].
  destruct (truthy s); [|done]. intros [= <- <-]. by eapply jup_info_ok.
Qed.

Lemma asset_entry_ok j m info : asset_entry j = Ret (Some (m, info)) -> info <> JNull.
Proof. unfold asset_entry. repeat case_match; try done. by intros [= <- <-]. Qed.

Lemma always_ask (C : Call -> Prop) c use : C c -> (forall j, always keeps_ok C (use j)) -> always keeps_ok C (ask c use).
Proof.
  intros Hc Hu. unfold ask. apply always_catch; [|intros _; apply always_done].
  apply always_bind; [unfold request; by apply (always_await (Task := Task) keeps_ok C c Hc)|]. intros [[] body]; [|apply always_done].
  apply always_bind; [apply always_done|done].
Qed.

Lemma always_sum {X} (C : Call -> Prop) (body : X -> P Z) xs :
  (forall x, x ∈ xs -> always keeps_ok C (body x)) -> always keeps_ok C (sum_each body xs).
Proof.
  induction xs as [|x xs IH]; intros H; cbn [sum_each]; [apply always_done|].
  apply always_bind; [apply H; set_solver|]. intros n. apply always_bind; [apply IH; set_solver|]. intros k. apply always_done.
Qed.

Lemma always_ensure key mints : always keeps_ok (asks_only mints) (ensureTokenNames key mints).
Proof.
  unfold ensureTokenNames. apply always_gets_bind. intros s. pose proof (unknown_sub mints s) as Hu.
  set (unique := unknown mints s) in *. case_bool_decide; [apply always_done|].
  apply always_bind; [|intros n1; apply always_gets_bind; intros s1; apply always_bind; [|intros n2; apply always_gets_bind; intros s2; apply always_bind]].
  - apply always_sum. intros ids Hin. apply batches_sub in Hin. apply always_ask; [cbn; set_solver|].
    intros []; try apply always_done. apply always_learn, jup_entry_ok.
  - apply always_sum. intros m Hm. apply keep_subseteq in Hm. apply always_ask; [cbn; set_solver|]. intros j.
    destruct (jup_info j) eqn:E; [|apply always_done].
    apply always_bind; [apply always_modify; intros s3; apply put_ok; by eapply jup_info_ok|]. intros _. apply always_done.
  - destruct key; [|apply always_done]. apply always_sum. intros ids Hin. apply batches_sub in Hin.
    pose proof (keep_subseteq (fun m => negb (known s2 m)) unique). apply always_ask; [cbn; set_solver|]. intros j.
    destruct (jopt (Some j) "result") as [[]|]; try apply always_done. apply always_learn, asset_entry_ok.
  - intros n3. destruct (0 <? n1 + n2 + n3); [apply always_modify; intros s3; by apply same_ok|apply always_done].
Qed.

(** Resolving names costs at most three requests per mint, whatever the sources
    answer, and asks only for the mints it was given. *)
Theorem names_requests env key mints s :
  let x := run env 0 [] (ensureTokenNames key mints) s in
  spent one (hist x) <= 3 * Z.of_nat (length mints) /\ each_call (fun _ c => asks_only mints c) (hist x).
Proof.
  cbv zeta. split; [apply (costs_run one (3 * Z.of_nat (length mints))), costs_ensure|].
  apply (calls_run _ (fun _ c => asks_only mints c) (fun _ _ => True) (fun _ _ => True) env 0 [] s (fun _ _ _ => True)); [done|done|].
  eapply wp_mono; [apply (always_grows _ _ (fun _ _ => True) keeps_ok (fun _ _ => True) (asks_only mints))|done]; try done.
  apply always_ensure.
Qed.

Example names_requests_run : let s := mk [] false None true in
  let env := mkEnv (fun _ c s => (Ret (true, Ret (JArr [])), s)) (fun n => 0) in
  length (hist (run env 0 [] (ensureTokenNames (Some "k") ["A"; "B"; "A"; ""]) s)) = 4%nat.
Proof. reflexivity. Qed.

Lemma load_saved es c : NoDup (c ++ es).*1 -> Forall (fun e => e.2 <> JNull) es ->
  load_entries es c = c ++ keep (fun e => truthy (jopt (Some e.2) "symbol")) es.
Proof.
  revert c. induction es as [|[m info] es IH]; intros c Hnd Hok; [by rewrite app_nil_r|].
  apply list.Forall_cons in Hok as [Hi Hok]. cbn [load_entries]. cbn in Hi.
  assert (jfield (Some info) "symbol" = Ret (jopt (Some info) "symbol")) as -> by by destruct info.
  unfold keep in *. cbn [List.filter snd]. rewrite fmap_app, fmap_cons in Hnd. destruct (truthy (jopt (Some info) "symbol")).
  - rewrite jset_new, IH; [by rewrite <- app_assoc| |done|].
    + rewrite !fmap_app, <- app_assoc. exact Hnd.
    + apply list.NoDup_app in Hnd as (_ & Hd & _). intros Hin. apply (Hd m Hin). set_solver.
  - apply IH; [|done]. rewrite fmap_app. apply list.NoDup_app in Hnd as (H1 & H2 & H3). apply list.NoDup_cons in H3 as [_ H3].
    apply list.NoDup_app. split_and!; [done| |done]. intros k Hk Hk'. apply (H2 k Hk). set_solver.
Qed.

(** Names survive a restart: after a resolution against any sources, while
    others change the cache as they do, what is written is read back by the next
    start as the cache is, the entries without a symbol left out. *)
Theorem names_survive_restart env key mints s : (forall n c s, keeps_ok s (answer env n c s).2) -> cache_ok s ->
  let s' := final (run env 0 [] (ensureTokenNames key mints) s) in
  writable s' = true ->
  tokenInfoCache (loadTokenInfo (mk [] false (file (saveTokenCache s')) true))
  = keep (fun e => truthy (jopt (Some e.2) "symbol")) (tokenInfoCache s').
Proof.
  intros Henv Hs s' Hw.
  assert (cache_ok s') as [Hwf Hok].
  { pose proof (calls_run (ensureTokenNames key mints) (fun _ _ => True) keeps_ok (fun _ _ => True) env 0 [] s
      (fun _ h' s' => [] `suffix_of` h' /\ keeps_ok s s')) as H.
    destruct H as (_ & _ & H); [intros n c s0; split; [done|apply Henv]|done| |by apply H].
    apply (always_grows _ _ keeps_ok keeps_ok keeps_ok (asks_only mints)); try done.
    - intros s0 H. exact H.
    - unfold keeps_ok. auto.
    - apply always_ensure. }
  unfold saveTokenCache. rewrite Hw. cbn. by rewrite load_saved.
Qed.

Definition demo_sources : Env t Call Ans :=
  mkEnv (fun _ c s => (match c with
                       | JupTokens _ => Ret (true, Ret (JArr [JObj [("address", JStr "A"); ("symbol", JStr "aa"); ("decimals", JNum (num_of_Z 9))]]))
                       | JupToken _ => Ret (false, Ret JNull)
                       | _ => Throw "fetch failed"
                       end, s)) (fun n => 0).

Lemma names_survive_restart_witness : let s := mk [] false None true in
  let s' := final (run demo_sources 0 [] (ensureTokenNames None ["A"; "B"]) s) in
  tokenInfoCache s' = [("A", tokenInfo (JStr "aa") (JNum (num_of_Z 9)) (JStr ""))]
  /\ tokenInfoCache (loadTokenInfo (mk [] false (file (saveTokenCache s')) true))
     = keep (fun e => truthy (jopt (Some e.2) "symbol")) (tokenInfoCache s').
Proof.
  cbv zeta. split; [reflexivity|]. apply (names_survive_restart demo_sources None ["A"; "B"] (mk [] false None true)); [|by split; constructor|done].
  intros n c s. by apply same_ok.
Defined.

End Tokens.

(** * Actions

    The handlers that act: their calls are operations run by the queue, their
    state is the bot's.  The fields of a request are strings, as the page sends
    them. *)

Module Actions.
Import Async AsyncMore State.
Open Scope prog_scope.

Section Actions.
Context `{L : BNLib}.

(** What is run in its turn by [opQueue.executeNow]: the closures, with the name of
    the exchange; they pick the executor when they are run. *)
Inductive Op :=
| Open (dex : option string) (targetNft poolAddress targetWallet : string)
| ManualClose (dex : option string) (ourNft : string).

(** [executeNow] with its label, and [enqueueWithResult] of a sale. *)
Inductive Call :=
| ExecuteNow (label : string) (o : Op)
| EnqueueSwap (label : string) (mint : string).
Definition Ans (c : Call) : Type :=
  match c with ExecuteNow _ _ => option string | EnqueueSwap _ _ => option ByrealOps.SwapDone end.

Abbreviation H := (Prog Bot Call Ans Chain.Task).

Definition call (c : Call) : H (Ans c) := await c.

Record Reply := mkReply { status : Z; body : Json }.

Definition reply (kvs : list (string * Json)) : H Reply := ret (mkReply 200 (JObj kvs)).
Definition bad_request (error : string) : H Reply := ret (mkReply 400 (JObj [("error", JStr error)])).
Definition failed (message : string) : H Reply := reply [("ok", JBool false); ("message", JStr message)].
Definition done_with (sig message : string) : H Reply := reply [("ok", JBool true); ("txSig", JStr sig); ("message", JStr message)].

Definition enabled (d : Dex) (b : Bot) : bool := bool_decide (is_Some (executor d b)).

Definition named (dex : option string) : option Dex :=
  dex ≫= fun d =>
  if bool_decide (d = "orca") then Some Orca
  else if bool_decide (d = "meteora") then Some Meteora
  else if bool_decide (d = "pancakeswap") then Some Pcs
  else if bool_decide (d = "dammv2") then Some DammV2
  else None.

(** The executor asked: that of the exchange named, if it runs, else Byreal's. *)
Definition chosen (dex : option string) (b : Bot) : Dex :=
  match named dex with Some d => if enabled d b then d else Byreal | None => Byreal end.

Definition label (what nft : string) : string := what +:+ "(" +:+ Views.take_chars 8 nft +:+ ")".

(** ** [POST /api/actions/manual-open] *)

Record OpenBody := mkOpenBody { targetNft : option string; poolAddress : option string; targetWallet : option string; dex : option string }.

Definition manualOpen (r : OpenBody) : H Reply :=
  match targetNft r, poolAddress r, targetWallet r with
  | Some n, Some p, Some w =>
      if negb (truthy n) || negb (truthy p) || negb (truthy w) then bad_request "targetNft, poolAddress, targetWallet required"
      else
        catch
          (let* sig := call (ExecuteNow (label "manual-open" n) (Open (dex r) n p w)) in
           if truthy sig then done_with (default "" sig) "手動開倉成功" else failed "開倉未執行（執行器忙碌或失敗）")
          (fun e => failed ("開倉失敗: " +:+ e))
  | _, _, _ => bad_request "targetNft, poolAddress, targetWallet required"
  end.

(** ** [POST /api/actions/close-position] *)

Definition mapping_of (ourNft : string) : H (option string) := gets (fun b => PositionMap.findByOurNft ourNft (positionMap b)).
Definition dex_of (target : option string) (b : Bot) : option string :=
  target ≫= fun t => if truthy t then PositionMap.getDex t (positionMap b) else None.

(** Our position, closed by the executor of its exchange. *)
Definition close_one (what ourNft : string) (target : option string) : H (option string) :=
  let* dex := gets (dex_of target) in
  call (ExecuteNow (label what ourNft) (ManualClose dex ourNft)).

(** The mapping was there and is no more. *)
Definition gone (target : option string) (ourNft : string) : H bool :=
  let* now := mapping_of ourNft in ret (truthy target && negb (truthy now)).

Definition GONE : string := "Position already gone on-chain; local mapping removed".

(** The message for an exchange whose executor does not run. *)
Definition disabled (d : Dex) : string :=
  match d with
  | Orca => "Orca 執行器未啟用，無法關閉 Orca 倉位"
  | Meteora => "Meteora 執行器未啟用，無法關閉 Meteora 倉位"
  | Pcs => "PancakeSwap 執行器未啟用，無法關閉 PCS 倉位"
  | DammV2 => "DAMM v2 執行器未啟用，無法關閉 DAMM v2 倉位"
  | Byreal => "關倉未執行（執行器忙碌或無倉位）"
  end.

Definition closePosition (ourNftMint : option string) : H Reply :=
  match ourNftMint with
  | Some n =>
      if negb (truthy n) then bad_request "ourNftMint required" else
      catch
        (let* target := mapping_of n in
         let* name := gets (dex_of target) in
         let* sig := close_one "manual-close" n target in
         if truthy sig then done_with (default "" sig) "關倉成功" else
         let* g := gone target n in
         if g : bool then reply [("ok", JBool true); ("message", JStr GONE)] else
         let* b := gets id in
         failed (disabled (match named name with Some d => if enabled d b then Byreal else d | None => Byreal end)))
        (fun e => failed ("關倉失敗: " +:+ e))
  | None => bad_request "ourNftMint required"
  end.

(** ** [POST /api/actions/batch-close] *)

Record BatchResult := mkBatch { nft : string; ok : bool; txSig : option string; message : string }.

Definition batch_one (n : string) : H BatchResult :=
  catch
    (let* target := mapping_of n in
     let* sig := close_one "batch-close" n target in
     let* g := if truthy sig then ret false else gone target n in
     ret (if g : bool then mkBatch n true None GONE
          else if truthy sig then mkBatch n true sig "關倉成功"
          else mkBatch n false None "關倉未執行（忙碌或無倉位）"))
    (fun e => ret (mkBatch n false None e)).

Fixpoint batch (ns : list string) : H (list BatchResult) :=
  match ns with [] => ret [] | n :: ns' => let* r := batch_one n in let* rs := batch ns' in ret (r :: rs) end.

Definition result_json (r : BatchResult) : Json :=
  JObj (("nft", JStr (nft r)) :: ("ok", JBool (ok r)) :: match txSig r with Some s => [("txSig", JStr s)] | None => [] end
        ++ [("message", JStr (message r))]).

Definition batch_reply (rs : list BatchResult) : Reply :=
  let good := Z.of_nat (length (keep ok rs)) in
  let bad := Z.of_nat (length rs) - good in
  mkReply 200 (JObj [("ok", JBool (bad =? 0)); ("results", JArr (map result_json rs));
    ("summary", JStr ("成功 " +:+ Z_toString good +:+ " / 失敗 " +:+ Z_toString bad))]).

Definition batchClose (nftMints : option (list string)) : H Reply :=
  match nftMints with
  | None | Some [] => bad_request "nftMints[] required"
  | Some ns =>
      if (50 <? length ns)%nat then bad_request "最多 50 個倉位"
      else let* rs := batch ns in ret (batch_reply rs)
  end.

(** ** [POST /api/actions/force-swap] *)

(** What the handler reads of the queue: whether high-priority work has come
    after a sequence number, and whether some runs or waits. *)
Record QueueView := mkView { hasHighPriorityActivityAfter : num -> bool; isHighPriorityRunningOrPending : bool }.

Definition paused (q : QueueView) (batchHighPrioritySeq : option Json) : bool :=
  let seq := Number batchHighPrioritySeq in
  if isFinite seq then hasHighPriorityActivityAfter q seq else isHighPriorityRunningOrPending q.

Definition invalidateAssetCaches : H unit :=
  modify (fun b => let f := byreal b in
    set_byreal (mkByreal (cachedSolBalance f) (rentPerPosition f) None None (freechainIdx f)) b).

Definition forceSwap (q : QueueView) (batchHighPrioritySeq : option Json) (inputMint : option string) : H Reply :=
  match inputMint with
  | Some m =>
      if negb (truthy m) then bad_request "inputMint required"
      else if paused q batchHighPrioritySeq then
        reply [("ok", JBool false); ("paused", JBool true); ("message", JStr "Close/decrease work is pending; swap paused")]
      else
        catch
          (let* result := call (EnqueueSwap (label "force-swap" m) m) in
           match result with
           | Some d =>
               do* invalidateAssetCaches in
               let* now := clock in
               do* modify (fun b => set_activity (ActivityLog.pushSwap
                     (ActivityLog.mkSwapEntry now m (ByrealOps.d_sig d) (Some (ByrealOps.d_amountRaw d)) None (ByrealOps.d_outputRaw d)) (activity b)) b) in
               done_with (ByrealOps.d_sig d) "交換成功"
           | None => failed "交換未執行（餘額不足或被跳過）"
           end)
          (fun e => failed ("交換失敗: " +:+ e))
  | None => bad_request "inputMint required"
  end.

(** ** Requests that change one store *)

Definition all_right : Reply := mkReply 200 (JObj [("ok", JBool true)]).

(** [DELETE /api/pending-swaps], and one of them *)
Definition clearPendingSwaps : H Reply :=
  do* modify (fun b => set_pending (PendingSwaps.clearPendingSwaps (pendingSwaps b)) b) in ret all_right.
Definition clearPendingSwap (m : string) : H Reply :=
  do* modify (fun b => set_pending (PendingSwaps.deletePendingSwap m (pendingSwaps b)) b) in ret all_right.

(** [POST /api/pump-pending/resolve]; [symbolOf] is the symbol in the file of
    token names, and telling Discord is left out. *)
Definition resolvePumpEntry (symbolOf : string -> Json) (mint action : option string) : H Reply :=
  let refuse := bad_request "Missing mint or action (approved/rejected/delete)" in
  match mint, action with
  | Some m, Some a =>
      if negb (truthy m) then refuse
      else if bool_decide (a = "delete") then
        do* modify (fun b => set_pump (PumpPending.deletePumpEntry m (pump b)) b) in
        reply [("ok", JBool true); ("mint", JStr m); ("action", JStr a)]
      else
        match (if bool_decide (a = "approved") then Some PumpPending.Approved
               else if bool_decide (a = "rejected") then Some PumpPending.Rejected else None) with
        | None => refuse
        | Some st =>
            let* entry := gets (fun b => find_first (fun e => bool_decide (PumpPending.mint e = m)) (PumpPending.getPumpPendingList (pump b))) in
            let sym := or_else (PumpPending.symbol <$> entry) "" in
            let* now := clock in
            do* modify (fun b => set_pump (PumpPending.resolvePump now m st (pump b)) b) in
            reply [("ok", JBool true); ("mint", JStr m); ("action", JStr a); ("symbol", if truthy sym then JStr sym else symbolOf m)]
        end
  | _, _ => refuse
  end.

(** ** The handlers, and the methods behind their calls *)

Inductive Handler :=
| ManualOpen (r : OpenBody)
| ClosePosition (ourNftMint : option string)
| BatchClose (nftMints : option (list string))
| ForceSwap (q : QueueView) (seq : option Json) (inputMint : option string).

Definition handler (h : Handler) : H Reply :=
  match h with
  | ManualOpen r => manualOpen r
  | ClosePosition n => closePosition n
  | BatchClose ns => batchClose ns
  | ForceSwap q seq m => forceSwap q seq m
  end.

Context `{W : Chain.Web3} `{WP : OrcaOps.Whirlpools (L := L)} `{CL : ByrealAssets.Clmm (L := L)} `{CA : DammOps.CpAmm (L := L)}.

Definition perform_op (cfg : Chain.Settings) (o : Op) : Chain.P (option string) :=
  match o with
  | Open dex n p w =>
      let* d := gets (chosen dex) in
      match d with
      | Byreal => Methods.method cfg (Methods.ByrealM (Methods.CopyOpenPosition (ByrealOpen.mkOpenRequest n p None (Some w))))
      | Orca => Methods.method cfg (Methods.OrcaM (Methods.OrcaOpen (OrcaOpen.mkOrcaOpen n p w)))
      | Pcs => Methods.method cfg (Methods.PcsM (Methods.PcsOpen (PcsOpen.mkPcsOpen n p (Some w))))
      | Meteora => Methods.method cfg (Methods.MeteoraM (Methods.MeteoraOpen (Legacy.mkLegacyOpen n p w)))
      | DammV2 => Methods.method cfg (Methods.DammM (Methods.DammOpen (Legacy.mkLegacyOpen n p w)))
      end
  | ManualClose dex n =>
      let* d := gets (chosen dex) in
      match d with
      | Byreal => Methods.method cfg (Methods.ByrealM (Methods.ManualClosePosition n))
      | Orca => Methods.method cfg (Methods.OrcaM (Methods.OrcaManualClose n))
      | Pcs => Methods.method cfg (Methods.PcsM (Methods.PcsManualClose n))
      | Meteora => Methods.method cfg (Methods.MeteoraM (Methods.MeteoraManualClose n))
      | DammV2 => Methods.method cfg (Methods.DammM (Methods.DammManualClose n))
      end
  end.

Definition perform (cfg : Chain.Settings) (c : Call) : Chain.P (Ans c) :=
  match c return Chain.P (Ans c) with
  | ExecuteNow _ o => perform_op cfg o
  | EnqueueSwap _ m => Methods.method cfg (Methods.ByrealM (Methods.SwapTokenToUSDC m None))
  end.

End Actions.

(** ** What the handlers guarantee *)

Section Rules.
Context `{L : BNLib}.

Abbreviation Hist := (list (HEvent Call Ans Chain.Task)).

(** The operations a history asked the queue for, in order. *)
Definition ops (h : Hist) : list Op :=
  flatMap (fun e => match e with Called (ExecuteNow _ o) _ => [o] | _ => [] end) (reverse h).

Lemma ops_snoc c r h : ops (Called c r :: h) = ops h ++ match c with ExecuteNow _ o => [o] | _ => [] end.
Proof. unfold ops, flatMap. rewrite reverse_cons, flat_map_app. cbn. by destruct c; rewrite ?app_nil_r. Qed.

Definition any_state (_ _ : Bot) : Prop := True.
Abbreviation HL := (hist_logic (fun _ _ _ => True) any_state (fun _ _ => True)).

(** What one close of the batch does: it asks one executor, and reports success
    only for an answer or for a mapping that is no more. *)
Definition asks_close (o : Op) (n : string) : Prop := exists d, o = ManualClose d n.

Lemma wp_batch_one n h b (Q : outcome BatchResult -> Hist -> Bot -> Prop) :
  (forall d x r b', ok r = true -> nft r = n -> Q (Ret r) (Called (ExecuteNow (label "batch-close" n) (ManualClose d n)) x :: h) b') ->
  (forall d x r b', ok r = false -> nft r = n -> Q (Ret r) (Called (ExecuteNow (label "batch-close" n) (ManualClose d n)) x :: h) b') ->
  wp HL (batch_one n) h b Q.
Proof.
  intros H1 H2. unfold batch_one, close_one, gone, mapping_of. simpl. split; [done|]. intros [sig|e] b' _ _; simpl; [|by apply H2].
  destruct (truthy sig); simpl; [by apply H1|]. destruct (truthy _ && _); simpl; [by apply H1|by apply H2].
Qed.

Lemma wp_batch ns h b :
  wp HL (batch ns) h b (fun r h' _ => exists rs os, r = Ret rs /\ map nft rs = ns /\ ops h' = ops h ++ os /\ Forall2 asks_close os ns).
Proof.
  revert h b. induction ns as [|n ns IH]; intros h b; cbn [batch].
  - exists [], []. rewrite app_nil_r. split_and!; by try constructor.
  - assert (forall d x r b', nft r = n ->
      wp HL (bind (batch ns) (fun rs => ret (r :: rs))) (Called (ExecuteNow (label "batch-close" n) (ManualClose d n)) x :: h) b'
        (fun r h' _ => exists rs os, r = Ret rs /\ map nft rs = n :: ns /\ ops h' = ops h ++ os /\ Forall2 asks_close os (n :: ns))) as Hnext.
    { intros d x r b' Hn. apply wp_bind. eapply wp_mono; [apply IH|]. intros r' h' s' (rs & os & -> & Hrs & Hos & Hall).
      exists (r :: rs), (ManualClose d n :: os). rewrite ops_snoc in Hos. cbn [map]. rewrite Hrs, Hn, Hos, <- app_assoc.
      split_and!; [done..|]. constructor; [by exists d|done]. }
    apply wp_bind, wp_batch_one; intros d x r b' _ Hn; by apply Hnext.
Qed.

(** C39: A batch of closes answers for every position once, in the order asked, and
    asks exactly one executor to close each, whatever the operations answer or
    throw and whatever else happens meanwhile. *)
Theorem batch_answers_all ns env b : ns <> [] -> (length ns <= 50)%nat ->
  let x := run env 0 [] (batchClose (Some ns)) b in
  exists rs, res x = Ret (batch_reply rs) /\ map nft rs = ns /\ Forall2 asks_close (ops (hist x)) ns.
Proof.
  intros Hne Hlen. cbv zeta. unfold batchClose. destruct ns as [|n ns]; [done|].
  replace (50 <? length (n :: ns))%nat with false by (symmetry; apply Nat.ltb_ge; lia).
  apply (hist_run _ (fun _ _ _ => True) any_state (fun _ _ => True) env 0 [] b
    (fun r h _ => exists rs, r = Ret (batch_reply rs) /\ map nft rs = n :: ns /\ Forall2 asks_close (ops h) (n :: ns))); [done|].
  apply wp_bind. eapply wp_mono; [apply wp_batch|]. intros r h b' (rs & os & -> & Hrs & Hos & Hall).
  exists rs. cbn in Hos. by rewrite Hos.
Qed.

Context `{W : Chain.Web3} `{WP : OrcaOps.Whirlpools (L := L)} `{CL : ByrealAssets.Clmm (L := L)} `{CA : DammOps.CpAmm (L := L)}.

Lemma perform_reads cfg c : Chain.dryRun cfg = true -> DryRun.reads_only (perform cfg c).
Proof using Type.
  intros Hdry. destruct c as [lbl [dex n p w|dex n]|lbl m]; cbn [perform perform_op];
    try (apply always_bind; [apply always_gets|intros []]);
    lazymatch goal with |- always _ _ (Methods.method _ ?m) => exact (DryRun.method_reads cfg Hdry m eq_refl)
    | |- DryRun.reads_only (Methods.method _ ?m) => exact (DryRun.method_reads cfg Hdry m eq_refl) end.
Qed.

(** A program keeps to a discipline that its writes and the implementations of
    its calls keep to. *)
Lemma always_interp {A} (R : Bot -> Bot -> Prop) (C : Chain.Call -> Prop) (hd : forall c, Chain.P (Ans c)) (p : Prog Bot Call Ans Chain.Task A) :
  (forall s s', R s s') -> (forall c, always R C (hd c)) -> always R C (interp hd p).
Proof using Type.
  intros HR Hhd. induction p as [r|k IH|s' k IH|k IH|c k IH|t k IH]; intros g s; cbn [interp].
  - done.
  - apply (IH s).
  - exists tt. split; [apply HR|apply IH].
  - intros t. apply (IH t).
  - by apply always_after.
  - apply IH.
Qed.

(** With the dry run on, no button of the dashboard signs or sends: neither an
    open nor a close, a batch or a sale, whatever the chain answers. *)
Theorem dashboard_dry_run cfg h env k b : Chain.dryRun cfg = true ->
  forall c r, Called c r ∈ hist (run env k [] (interp (perform cfg) (handler h)) b) -> Discipline.writes c = false.
Proof.
  intros Hdry. apply DryRun.reads_only_run. apply always_interp; [done|]. intros c. by apply perform_reads.
Qed.

End Rules.

(** ** Concrete runs *)

(** The SDK of Byreal's pools does not find the position; all else succeeds. *)
Definition absent_env : Env Bot (Chain.Call (L := Z_BN)) (Chain.Ans (L := Z_BN)) :=
  mkEnv (fun n c b =>
    (match c return outcome (Chain.Ans c) with
     | Chain.DecreaseFullLiquidityInstructions _ _ => Throw "Position not found"
     | c => (answer (Chain.demo_env (Ret "Sig") (fun _ => None)) n c b).1
     end, b)) (fun n => Z.of_nat n).

(** A position on Orca, whose executor does not run. *)
Definition orca_bot : Bot :=
  fresh (PositionMap.set 0 0 "Target" "OurNft" None None None None (Some "orca") PositionMap.new).

Definition demo_run (cfg : Chain.Settings) (h : Handler) (b : Bot) :=
  run absent_env 0 [] (interp (perform (L := Z_BN) (W := Chain.demo_web3) (WP := OrcaOps.demo_whirlpools)
    (CL := ByrealAssets.demo_clmm) (CA := DammOps.demo_cpamm) cfg) (handler h)) b.

(** A manual close of a position on an exchange that is not enabled is handed to
    the Byreal executor, which does not find it: the mapping of an open position
    is deleted and the dashboard answers that it was gone, so the message about
    the disabled executor is not reached. *)
Theorem disabled_exchange_forgets :
  let x := demo_run Chain.demo_settings (ClosePosition (Some "OurNft")) orca_bot in
  executor Orca orca_bot = None /\ PositionMap.getDex "Target" (positionMap orca_bot) = Some "orca"
  /\ res x = Ret (mkReply 200 (JObj [("ok", JBool true); ("message", JStr GONE)]))
  /\ PositionMap.get "Target" (positionMap (final x)) = None
  /\ existsb (fun e => match e with Called c _ => Discipline.writes c | _ => false end) (hist x) = false.
Proof. by vm_compute. Qed.

Definition answers (r : outcome (option string)) : Env Bot Call Ans :=
  mkEnv (fun _ c b => (match c return outcome (Ans c) with ExecuteNow _ _ => r | EnqueueSwap _ _ => Ret None end, b)) (fun _ => 0).

Lemma batch_answers_all_witness :
  let x := run (answers (Throw "boom")) 0 [] (batchClose (Some ["OurNft"; "Other"])) orca_bot in
  ops (hist x) = [ManualClose (Some "orca") "OurNft"; ManualClose None "Other"]
  /\ exists rs, res x = Ret (batch_reply rs) /\ map nft rs = ["OurNft"; "Other"] /\ Forall2 asks_close (ops (hist x)) ["OurNft"; "Other"].
Proof.
  cbv zeta. split; [reflexivity|].
  apply (batch_answers_all ["OurNft"; "Other"] (answers (Throw "boom")) orca_bot); [done|]. apply Nat.leb_le. reflexivity.
Defined.

Lemma dashboard_dry_run_witness :
  let cfg := DryRun.with_dryRun true Chain.demo_settings in
  let x := demo_run cfg (BatchClose (Some ["OurNft"])) orca_bot in
  Chain.dryRun cfg = true /\ forall c r, Called c r ∈ hist x -> Discipline.writes c = false.
Proof.
  cbv zeta. split; [done|].
  apply (dashboard_dry_run (L := Z_BN) (W := Chain.demo_web3) (WP := OrcaOps.demo_whirlpools) (CL := ByrealAssets.demo_clmm)
    (CA := DammOps.demo_cpamm) (DryRun.with_dryRun true Chain.demo_settings) (BatchClose (Some ["OurNft"])) absent_env 0%nat orca_bot).
  reflexivity.
Defined.

End Actions.

(** * Updating the program *)

Module System.
Import Async.
Open Scope prog_scope.

(** [execSync], and the version in package.json. *)
Inductive Call := Exec (cmd : string) | ReadVersion.
Definition Ans (c : Call) : Type := string.
(** The restart: [setTimeout(() => process.exit(0), ms)]. *)
Inductive Task := Exit (ms : Z).

Abbreviation P := (Prog unit Call Ans Task).
Definition exec (cmd : string) : P string := await (Exec cmd).

Definition newline : string := String (Ascii.ascii_of_nat 10) "".

(** [POST /api/actions/restart] *)
Definition restart : P Actions.Reply :=
  do* spawn (Exit 500) in
  ret (Actions.mkReply 200 (JObj [("ok", JBool true); ("message", JStr "正在重啟...")])).

(** The commands of an update: what is shown, and whether their output is. *)
Definition UPDATE : list (string * string * bool) :=
  [("> git fetch origin main", "git fetch origin main --quiet", false);
   ("> git reset --hard origin/main", "git reset --hard origin/main", true);
   ("> npm install", "npm install", false);
   ("> npx tsc", "npx tsc", false)].

(** The steps shown so far, and the error that ended them; what a failed command
    printed to its error stream is left out. *)
Fixpoint run_steps (cs : list (string * string * bool)) (steps : list string) : P (list string * option string) :=
  match cs with
  | [] => ret (steps, None)
  | (shown, cmd, output) :: cs' =>
      let steps := steps ++ [shown] in
      after (exec cmd) (fun r =>
        match r with
        | Ret out => run_steps cs' (steps ++ [if output : bool then trim out else "OK"])
        | Throw e => ret (steps, Some e)
        end)
  end.

Definition failure (steps : list string) (e : string) : P Actions.Reply :=
  ret (Actions.mkReply 500 (JObj [("ok", JBool false); ("output", JStr (join newline (steps ++ [newline +:+ "ERROR: " +:+ e])))])).

(** [POST /api/actions/update] *)
Definition update : P Actions.Reply :=
  let* x := run_steps UPDATE [] in
  match x.2 with
  | Some e => failure x.1 e
  | None =>
      after (await ReadVersion) (fun v =>
        match v with
        | Ret v =>
            let steps := x.1 ++ [newline +:+ "更新完成: v" +:+ v; "2 秒後自動重啟..."] in
            do* spawn (Exit 2000) in
            ret (Actions.mkReply 200 (JObj [("ok", JBool true); ("output", JStr (join newline steps))]))
        | Throw e => failure x.1 e
        end)
  end.

(** [GET /api/check-update]: [None] when the command succeeds, the answer when
    neither it nor the repair does. *)
Definition needs (cmd : string) (repair : option string) (current error : string) : P (option Actions.Reply) :=
  let report := ret (Some (Actions.mkReply 200
    (JObj [("currentVersion", JStr current); ("latestVersion", JStr current); ("error", JStr error)]))) in
  after (exec cmd) (fun r =>
    match r, repair with
    | Ret _, _ => ret None
    | Throw _, None => report
    | Throw _, Some c => after (exec c) (fun r => match r with Ret _ => ret None | Throw _ => report end)
    end).

Definition unless (o : P (option Actions.Reply)) (k : P Actions.Reply) : P Actions.Reply :=
  let* x := o in match x with Some r => ret r | None => k end.

Definition checkUpdate (current : string) : P Actions.Reply :=
  unless (needs "git --version" (Some "apt-get update -qq && apt-get install -y -qq git") current
            "Git 自動安裝失敗（需手動執行: sudo apt install git -y）")
  (unless (needs "git rev-parse --git-dir"
             (Some "git init && git remote add origin https://github.com/zxcnny930/byreal-copy-bot.git") current "Git 初始化失敗")
  (unless (needs "git fetch origin main --quiet" None current "無法連線到更新伺服器（git fetch 失敗）")
  (let* latest := catch (let* raw := exec "git show origin/main:package.json" in
                         let* v := lift (obind (JSON_parse raw) (fun j => jfield (Some j) "version")) in
                         ret (jor v (JStr current)))
                    (fun _ => ret (JStr current)) in
   let* changelog := catch (let* raw := exec "git show origin/main:CHANGELOG.md" in ret (Notify.Notify.slice0 3000 raw))
                       (fun _ => ret "") in
   ret (Actions.mkReply 200 (JObj [("currentVersion", JStr current); ("latestVersion", latest);
     ("hasUpdate", JBool (match latest with JStr v => negb (bool_decide (v = current)) | _ => true end));
     ("changelog", JStr changelog)]))))).

(** ** An update restarts only what was built *)

Abbreviation Hist := (list (HEvent Call Ans Task)).

(** The commands of a history that succeeded, in order, and whether it restarts. *)
Definition succeeded (h : Hist) : list string :=
  flatMap (fun e => match e with Called (Exec c) (Ret _) => [c] | _ => [] end) (reverse h).
Definition restarts (h : Hist) : bool := existsb (fun e => match e with Spawned _ => true | _ => false end) h.

Abbreviation SL := (hist_logic (fun _ _ _ => True) (fun _ _ => True) (fun _ _ => True)).

Lemma succeeded_snoc c r h :
  succeeded (Called c r :: h) = succeeded h ++ match c, r with Exec c, Ret _ => [c] | _, _ => [] end.
Proof.
  unfold succeeded, flatMap. rewrite reverse_cons, flat_map_app. cbn. destruct c, r; by rewrite ?app_nil_r.
Qed.

Lemma wp_run_steps cs steps h (Q : outcome (list string * option string) -> Hist -> unit -> Prop) u :
  restarts h = false ->
  (forall steps' h' u, restarts h' = false -> succeeded h' = succeeded h ++ cs.*1.*2 -> Q (Ret (steps', None)) h' u) ->
  (forall steps' e h' u, restarts h' = false -> Q (Ret (steps', Some e)) h' u) ->
  wp SL (run_steps cs steps) h u Q.
Proof.
  revert steps h u. induction cs as [|[[shown cmd] output] cs IH]; intros steps h u Hh H1 H2; cbn [run_steps].
  - apply H1; [done|]. by rewrite app_nil_r.
  - simpl. split; [done|]. intros [out|e] u' _ _; [|by apply H2]. apply IH; [done| |by intros; apply H2].
    intros steps' h' u2 Hr Hs. apply H1; [done|]. rewrite Hs, succeeded_snoc, <- app_assoc. done.
Qed.

(** After [POST /api/actions/update] the program restarts only if every command
    of the update succeeded, in order, and the answer says so; if one fails it
    answers 500 and keeps running. *)
Theorem update_restarts_built env :
  let x := run env 0 [] update tt in
  exists r, res x = Ret r
    /\ (if restarts (hist x) then Actions.status r = 200 /\ succeeded (hist x) = UPDATE.*1.*2 else Actions.status r = 500).
Proof.
  cbv zeta.
  apply (hist_run update (fun _ _ _ => True) (fun _ _ => True) (fun _ _ => True) env 0 [] tt
    (fun r h _ => exists x, r = Ret x /\ (if restarts h then Actions.status x = 200 /\ succeeded h = UPDATE.*1.*2 else Actions.status x = 500)));
    [done|].
  unfold update. apply wp_bind, wp_run_steps; [done| |].
  - intros steps h u Hr Hs. cbn [snd]. simpl. split; [done|]. intros [v|e] u' _ _; simpl.
    + eexists. split; [done|]. split; [done|]. change (succeeded (Spawned (Exit 2000) :: Called ReadVersion (Ret v) :: h) = UPDATE.*1.*2).
      unfold succeeded, flatMap in *. rewrite !reverse_cons, !flat_map_app. cbn. by rewrite !app_nil_r, Hs.
    + eexists. split; [done|]. change (restarts (Called ReadVersion (Throw e) :: h)) with (restarts h). by rewrite Hr.
  - intros steps e h u Hr. cbn [snd]. simpl. eexists. split; [done|]. by rewrite Hr.
Qed.

End System.
